(* ===== verification/_CoqProject ===== *)
-Q . S2P
Prelude.v
Cstdlib.v
Rbtree.v
Heap.v
Hiarray.v
Dict.v
Sds.v
SdsText.v
Reader.v
Reply.v
Resp.v
ReaderScan.v
ReaderProof.v
ReaderApi.v
ReplyProof.v
ReaderSession.v
Command.v
CommandProof.v
Format.v
CmdParse.v
CmdProof.v
CmdKeys.v
Msgqueue.v
Thrdpool.v
ThrdpoolInv.v
ThrdpoolSafe.v
JsonValue.v
JsonParser.v
JsonRoundtrip.v
Crc16.v
MysqlWire.v
Dns.v
Multipart.v
RedisParser.v
Http.v
