(* ===== verification/Prelude.v ===== *)
(** * Verification of the C components of cpp-private

    The repository is a collection of network libraries.  Two of them are
    built on C code that decides everything that comes from the peer:
    libnetwork/workflow (the protocol parsers, the JSON parser and the kernel
    containers of the asynchronous engine) and libredis/hiredis (the redis
    client with its cluster extension); libnetwork/workflow-http adds the
    parser of form uploads.  This library models that C code and proves it
    correct; where it is not, the defect is a theorem.  Paths below are under
    src/; of the two copies of workflow the linux one is modelled ("LX" is
    libnetwork/workflow/src/linux, "HR" is libredis/hiredis).

    ** How the parts interact

    The engine (LX/kernel/Communicator.cc, C++) reads from a socket and hands
    every piece of input to the message class of the protocol, which calls
    the C function that takes the piece: [http_parser_append_message],
    [redis_parser_append_message], [dns_parser_append_message],
    [mysql_stream_write].  The return value says whether the message is
    complete (1), wants more (0) or is refused (negative).  The pieces are cut
    by the network, so for each of these functions there is a theorem that the
    result does not depend on the cut.  The body of an HTTP message goes on to
    [multipart_parser_execute] for uploads, or to [json_value_parse].  The
    objects of the JSON parser are lists and a red-black tree of LX/kernel at
    the same time.  A redis command is sent to the node of the cluster that
    [keyHashSlot] selects; the cluster client keeps its nodes in the hash
    table of HR/dict.c.

    ** What every model shares

    - [Prelude]: C computations.  [comp A] is a value ([Ret]), an access
      outside its object, through NULL or to freed memory ([Oob]), or the end
      of the fuel that bounds the rounds of a loop ([NoFuel]).  Both are only
      ever proved impossible, or proved to occur: no theorem assumes that a
      computation returns, except the ones about cut input, which say so for
      both sides.  Pointers into a buffer are indices (or the rest of the
      list), reads are bounded by [nthb]/[peek]; machine integers are [Z] with
      [u8] .. [u64], [i32], [i64] written where the C type wraps.
    - [Cstdlib]: [strtol], [atoi], [strtod], [strcmp] and the like, as the C
      standard describes them (not a stub: the digits are read and the double
      is the correctly rounded one; [strtod_hex] reads hexadecimal numbers as
      well, for the callers that reach them).
    - [Heap]: [malloc] and [free] on numbered blocks.  Which request succeeds
      is the type class [Allocator], an arbitrary function, so a theorem for
      all instances is a theorem for every way of running out of memory; what
      [malloc] and [realloc] leave in new bytes is the class [Garbage].  The
      protocol parsers take the same function as an argument ([malloc_ok],
      [realloc_ok]).
    - Builds: [Ndebug] says whether [assert] is compiled in (hiredis), and
      [HiAssert] whether a failed [ASSERT] of hiutil.h stops the program (with
      HI_ASSERT_PANIC) or not; a failed assertion that stops it is [Oob].
    - Specifications have tables, grammars and number readers of their own;
      where they name the same thing as the code, a lemma shows that the code's
      table is the same ([reply_type_byte], [verbs_commands],
      [commands_kinds] and their like), so a change of the code's table breaks
      the theorem.

    ** The components

    - [Rbtree] (LX/kernel/rbtree.c, rbtree.h): [rb_insert_color], [rb_erase],
      [rb_replace_node], [rb_first], [rb_last], [rb_next], [rb_prev] on a store
      of nodes with parent pointers.  The state corresponds to a tree
      ([represents]); insertion and removal are insertion into and removal
      from the sorted sequence and keep the red-black rules ([rb_insert_adds],
      [rb_erase_removes]), the neighbours are those of the sequence, and the
      loops take logarithmically many rounds.
    - [Msgqueue] (LX/kernel/msgqueue.c): threads that interleave at every
      access to the two lists, the mutexes and the conditions.  The calls are
      those of one atomic queue ([msgqueue_linearizable]); calls end.
    - [Thrdpool], [ThrdpoolInv], [ThrdpoolSafe] (LX/kernel/thrdpool.c): the
      thread pool on that queue, with creation, growth and destruction from
      outside and from a task.  [sound] is the invariant; no execution touches
      what is gone, tasks are begun or handed back exactly once, nobody hangs.
    - [Dict] (HR/dict.c, dict.h): the hash table with its chains, growth and
      iterator, refined to a finite map from keys to values.
    - [Sds], [SdsText] (HR/sds.c, sds.h): strings with their five header
      types.  [rep] says that a header, its bytes and its free space represent
      a content; every operation keeps it and has the content the functions of
      the comments say.  [SdsText] has splitting, joining, quoting and the
      reader of command lines.
    - [Reader] (HR/read.c): the reply reader with its buffer, task stack and
      callbacks, in both builds ([Ndebug]).  [Reply] (HR/hiredis.c, the
      functions on [redisReply]): the callbacks that make the reply tree, and
      freeReplyObject.  [Resp] is the grammar of RESP3, without attributes and
      big numbers, as a recursive descent parser ([parse_resp], with the types
      of [reply_types]) with its encoder, and the continuation of the parse
      from a stack of open aggregates ([resume], [answer]).  [ReaderScan] has lines and
      numbers; [ReaderProof] the interface [ReplyLaws] of the callbacks and
      the simulation: every step of the reader is a step of [answer];
      [ReaderApi] the calls; [ReplyProof] that the callbacks of hiredis.c
      satisfy [ReplyLaws]; [ReaderSession] the sessions of a client.
    - [Command] (HR/hiredis.c, redisFormatCommand and its like): commands are
      written from a format or from arrays.  [CommandProof] has the text of a
      command ([command], an array in the encoding of [Resp], so the reader
      reads it back), [Format] the meaning of a format ([meaning]) and that
      redisvFormatCommand stores its command.  The text that a conversion of
      printf gives is the parameter [printed].
    - [Hiarray] (HR/hiarray.c, hiarray.h): the arrays that double, with their
      assertions, refined to a stack ([hiarray_refines]) for callers that keep
      the contract: they ask for the number of elements first and empty the
      array before they destroy it.
    - [CmdParse] (HR/command.c, command.h): the machine that finds the verb and
      the keys of a command, with the verb table and [command_get].  [CmdProof]:
      it is safe on every text ([parse_cmd_safe]); [CmdKeys]: on a written
      command the machine records the words that are keys ([parse_cmd_keys]):
      [commands] lists the commands with their types and layouts,
      [documented] the keys of a layout by the comments, [recorded] those of
      the parser, which differ where [documented_recorded] says.  [Crc16] gives
      the slots of the keys.
    - [JsonValue], [JsonParser], [JsonRoundtrip] (LX/util/json_parser.c): the
      operations on objects and arrays, the recursive descent parser, and the
      grammar of RFC 8259 as an inductive relation between documents and their
      texts ([text_of]).  [object_ok] says that
      list and tree of an object have the same members; [blocks] are the
      blocks a value owns.  The parser is safe on every document and parses
      every text of the grammar as its document ([json_text_parsed]); the operations are insertion and
      removal on lists and lose no block.  The recursion of the parser is the
      program's: nested values need one unit of [depth_rounds] = 1026 each,
      and JSON_DEPTH_LIMIT is 1024; a scan needs at most one round per byte
      ([text_rounds]).
    - [Crc16] (HR/crc16.c and keyHashSlot of HR/hircluster.c): the table
      driven CRC equals the bit-serial one, the slot is the one of the hash
      tag rule.
    - [MysqlWire] (LX/protocol/mysql_byteorder.c, mysql_stream.c):
      length-encoded integers and strings, and the packet stream with its
      continuation packets.
    - [Dns] (LX/protocol/dns_parser.c): names with compression pointers,
      records of every type the parser knows, the message, the TCP framing and
      the cursors.  [message_at] is the format of messages, with numbers of its
      own ([be16_at], [be32_at]) and the header by its fields ([header_at]).
    - [Multipart] (libnetwork/workflow-http/multipart_parser.c): the state
      machine with its lookbehind buffer, refined to an automaton that does
      not depend on how the body is cut, and round trip with the encoder.
    - [RedisParser] (LX/protocol/redis_parser.c): the reply tree on a heap of
      replies with its list of pending elements; round trip with the RESP
      encoding, independence of the cut, invariant of the loop on any input.
    - [Http] (LX/protocol/http_parser.c): start line, header fields, chunked
      bodies, the header list and its cursors.

    ** The groups of theorems

    Safety and termination for every input ([json_parse_safe],
    [http_append_total], [multipart_execute_total], [mysql_stream_write_total],
    [redis_loop_total], [parse_cmd_safe], [parse_host_total]); round trips with the encoding
    ([redis_roundtrip], [reader_roundtrip], [http_request_roundtrip],
    [multipart_roundtrip], [sds_quoting_roundtrip], [command_argv]); independence of the
    cut ([http_append_split], [reader_pieces] and their like); refinement of an abstract
    specification ([multipart_execute_refines], [rb_erase_removes],
    [dns_parse_all_message], [dict_refines_map], [msgqueue_linearizable],
    [reader_session], [json_text_parsed], [sdssplitargs_reads]);
    invariants of the state; typing ([sds_life_typed]: sequences of calls keep
    the representation); liveness ([msgqueue_live], [thrdpool_live]); bounds.  A witness
    under each theorem with hypotheses applies it to a concrete input.

    ** Bounds and assumptions

    Lengths that the program keeps in an [int] are assumed below 2^31 (the
    engine reads at most a few megabytes before it checks the size limit), and
    sizes below 2^62 where the program adds to a [size_t]; every theorem that
    needs such a bound states it.  Fuel is the number of rounds of a loop or
    the depth of a recursion, one per byte left, per node or per level; where
    a theorem says that a function returns, the fuel is the one in the
    definition or any amount above a bound given by the input.

    The theorems on the hiredis reader are for inputs below 2^31 - 2^10 bytes
    in all (the task stack and the buffer then fit an [int]), and for builds
    with NDEBUG or inputs without the byte '>': in other builds the assertions
    of three callbacks fail on elements of a push ([push_of_nil_aborts]).
    [strtod] is that of the C locale.  The commands that are written are shorter
    than 2^31 - 64 bytes.

    ** Not modelled

    The C++ classes (most of the repository: the message classes, client,
    server, factory, manager and nameservice of workflow, libtcp, libdb,
    libpublic, the wrapper in libredis), which have their state in containers
    and threads of the C++ library; the event loops (poller.c, mpoller.c, net.c,
    async.c, ssl.c, sockcompat.c), which are system calls; vendored headers of
    libevent; the copies under windows/; examples and test programs.  Of the C
    code, mysql_parser.c, kafka_parser.c, crc32c.c, adlist.c,
    command_destroy of command.c and hircluster.c (beyond the slot function) are not
    modelled.  Functions that only free a parser, return a field or log are
    left out. *)

From stdpp Require Export prelude list.
From Stdlib Require Export ZArith Lia.

#[global] Open Scope Z_scope.

(** ** C computations

    A computation of the C abstract machine either returns a value, performs
    an access outside the objects it may touch ([Oob]), or is cut off by the
    fuel of the definition that models a loop ([NoFuel]).  [Oob] and
    [NoFuel] are never produced by a guard of the program: theorems state
    where they cannot occur. *)

Inductive comp (A : Type) : Type :=
| Ret (a : A)
| Oob
| NoFuel.
Arguments Ret {A} a.
Arguments Oob {A}.
Arguments NoFuel {A}.

Definition cbind {A B : Type} (m : comp A) (k : A -> comp B) : comp B :=
  match m with
  | Ret a => k a
  | Oob => Oob
  | NoFuel => NoFuel
  end.

Declare Scope c_scope.
Delimit Scope c_scope with C.
#[global] Open Scope c_scope.

Notation "'let!' x := m 'in' k" := (cbind m (fun x => k))
  (at level 10, x name, m at level 100, k at level 200) : c_scope.
Notation "'let!' ' p := m 'in' k" := (cbind m (fun x => match x with p => k end))
  (at level 10, p pattern, m at level 100, k at level 200) : c_scope.

(** The safety predicate: the computation returns. *)
Definition returns {A : Type} (m : comp A) : Prop := exists a, m = Ret a.

Create HintDb c_db.
#[warnings="-implicit-create-rewrite-hint-db"]
#[export] Hint Rewrite Nat2Z.id : blen_db.

Lemma cbind_Ret_inv {A B : Type} (m : comp A) (k : A -> comp B) (b : B) :
  cbind m k = Ret b -> exists a, m = Ret a /\ k a = Ret b.
Proof. destruct m as [a| |]; simpl; intros H; try discriminate. eauto. Qed.

Lemma returns_Ret {A : Type} (a : A) : returns (Ret a).
Proof. eexists; reflexivity. Qed.

Lemma returns_bind {A B : Type} (m : comp A) (k : A -> comp B) :
  returns m -> (forall a, m = Ret a -> returns (k a)) -> returns (cbind m k).
Proof. intros [a ->] H. simpl. by apply H. Qed.

#[export] Hint Resolve returns_Ret : c_db.

(** [yields m P]: the computation returns a value that satisfies [P]. *)
Definition yields {A : Type} (m : comp A) (P : A -> Prop) : Prop := exists a, m = Ret a /\ P a.

Lemma yields_Ret {A : Type} (P : A -> Prop) (a : A) : P a -> yields (Ret a) P.
Proof. intros H. by exists a. Qed.

Lemma yields_mono {A : Type} (P Q : A -> Prop) (m : comp A) :
  yields m P -> (forall a, P a -> Q a) -> yields m Q.
Proof. intros (a & E & H) HPQ. exists a. auto. Qed.

Lemma yields_bind {A B : Type} (P : A -> Prop) (Q : B -> Prop) (m : comp A) (k : A -> comp B) :
  yields m P -> (forall a, P a -> yields (k a) Q) -> yields (cbind m k) Q.
Proof. intros (a & -> & H) Hk. by apply Hk. Qed.

(** ** Machine integers *)

Definition u8 (z : Z) : Z := z mod 2 ^ 8.
Definition u16 (z : Z) : Z := z mod 2 ^ 16.
Definition u32 (z : Z) : Z := z mod 2 ^ 32.
Definition u64 (z : Z) : Z := z mod 2 ^ 64.

(** Conversion to a signed type of [w] bits (two's complement). *)
Definition swrap (w z : Z) : Z := (z + 2 ^ (w - 1)) mod 2 ^ w - 2 ^ (w - 1).
Definition i8 (z : Z) : Z := swrap 8 z.
Definition i32 (z : Z) : Z := swrap 32 z.
Definition i64 (z : Z) : Z := swrap 64 z.

Lemma i32_small z : - 2 ^ 31 <= z < 2 ^ 31 -> i32 z = z.
Proof. intros. unfold i32, swrap. rewrite Z.mod_small by lia. lia. Qed.

Definition is_byte (b : Z) : Prop := 0 <= b < 256.

(** Bytes of memory, read at an index or at a cursor.  [buf] lists exactly
    the bytes that may be accessed: an index outside it is [Oob]. *)
Definition rd (buf : list Z) (i : Z) : comp Z :=
  if 0 <=? i then
    match buf !! Z.to_nat i with
    | Some b => Ret b
    | None => Oob
    end
  else Oob.

Definition blen (buf : list Z) : Z := Z.of_nat (length buf).

(** [sub buf off n] is the block of [n] bytes at [off]: what [memcpy] reads. *)
Definition sub (buf : list Z) (off n : Z) : list Z :=
  take (Z.to_nat n) (drop (Z.to_nat off) buf).

Definition rd_block (buf : list Z) (off n : Z) : comp (list Z) :=
  if (0 <=? off) && (0 <=? n) && (off + n <=? blen buf)
  then Ret (sub buf off n) else Oob.

(** ** Tactics *)

(** Turns boolean comparisons of hypotheses and goal into propositions. *)
Ltac zify_bool :=
  repeat match goal with
  | H : andb _ _ = true |- _ => apply andb_prop in H; destruct H
  | H : andb _ _ = false |- _ => apply andb_false_iff in H
  | H : orb _ _ = false |- _ => apply orb_false_elim in H; destruct H
  | H : orb _ _ = true |- _ => apply orb_prop in H
  | H : negb _ = true |- _ => apply negb_true_iff in H
  | H : negb _ = false |- _ => apply negb_false_iff in H
  | H : (_ <=? _) = true |- _ => apply Z.leb_le in H
  | H : (_ <=? _) = false |- _ => apply Z.leb_gt in H
  | H : (_ <? _) = true |- _ => apply Z.ltb_lt in H
  | H : (_ <? _) = false |- _ => apply Z.ltb_ge in H
  | H : (_ =? _) = true |- _ => apply Z.eqb_eq in H
  | H : (_ =? _) = false |- _ => apply Z.eqb_neq in H
  end.

(** Closes [Forall is_byte] of a literal list. *)
Ltac solve_bytes := solve [repeat (constructor; [unfold is_byte; lia|]); constructor].

(** [lia] with division and remainder by constants. *)
Ltac dlia := Z.to_euclidean_division_equations; lia.

(** Case analysis on a comparison of the goal; impossible cases are closed by
    [lia]. *)
Ltac zcase :=
  match goal with
  | |- context [?x <=? ?y] => destruct (Z.leb_spec x y)
  | |- context [?x <? ?y] => destruct (Z.ltb_spec x y)
  | |- context [?x =? ?y] => destruct (Z.eqb_spec x y)
  | |- context [?x >? ?y] => rewrite (Z.gtb_ltb x y); destruct (Z.ltb_spec y x)
  | |- context [?x >=? ?y] => rewrite (Z.geb_leb x y); destruct (Z.leb_spec y x)
  end; try lia.

(** Case analysis on the first conditional or match of the goal. *)
Ltac case_goal :=
  match goal with
  | |- context [if ?b then _ else _] => destruct b eqn:?
  | |- context [match ?x with _ => _ end] => destruct x eqn:?
  end.

(** Inverts [cbind _ _ = Ret _] hypotheses. *)
Ltac inv_bind :=
  repeat match goal with
  | H : cbind _ _ = Ret _ |- _ =>
      let x := fresh "v" in let H1 := fresh "Hb" in
      apply cbind_Ret_inv in H; destruct H as (x & H1 & H)
  | H : Ret _ = Ret _ |- _ => progress simplify_eq
  | H : Oob = Ret _ |- _ => discriminate H
  | H : NoFuel = Ret _ |- _ => discriminate H
  end.

(** ** Lemmas on buffers *)

Lemma blen_nonneg buf : 0 <= blen buf.
Proof. unfold blen. lia. Qed.

Lemma blen_app a b : blen (a ++ b) = blen a + blen b.
Proof. unfold blen. rewrite length_app. lia. Qed.

Lemma rd_in_bounds buf i : 0 <= i < blen buf -> returns (rd buf i).
Proof.
  unfold rd, blen. intros Hi. destruct (Z.leb_spec 0 i); [|lia].
  destruct (lookup_lt_is_Some_2 buf (Z.to_nat i)) as [b Hb]; [lia|].
  rewrite Hb. auto with c_db.
Qed.

Lemma rd_Ret_inv buf i b : rd buf i = Ret b -> 0 <= i < blen buf /\ buf !! Z.to_nat i = Some b.
Proof.
  unfold rd, blen. intros H. destruct (Z.leb_spec 0 i); [|discriminate].
  destruct (buf !! Z.to_nat i) eqn:E; [|discriminate]. injection H as ->.
  split; [|done]. apply lookup_lt_Some in E. lia.
Qed.

Lemma rd_app_l a b i : i < blen a -> rd (a ++ b) i = rd a i.
Proof.
  unfold rd, blen. intros H. destruct (Z.leb_spec 0 i); [|done].
  by rewrite lookup_app_l by lia.
Qed.

Lemma rd_block_in_bounds buf off n :
  0 <= off -> 0 <= n -> off + n <= blen buf -> rd_block buf off n = Ret (sub buf off n).
Proof.
  intros. unfold rd_block.
  destruct (Z.leb_spec 0 off); [|lia]. destruct (Z.leb_spec 0 n); [|lia].
  destruct (Z.leb_spec (off + n) (blen buf)); [done|lia].
Qed.

Lemma blen_sub buf off n :
  0 <= off -> 0 <= n -> off + n <= blen buf -> blen (sub buf off n) = n.
Proof. unfold blen, sub. intros. rewrite length_take, length_drop. lia. Qed.

#[export] Hint Resolve rd_in_bounds blen_nonneg : c_db.

(** ** Lemmas on bits *)

Lemma testbit_above n x i : 0 <= x < 2 ^ n -> n <= i -> Z.testbit x i = false.
Proof.
  intros Hx Hi. destruct (Z_le_gt_dec 0 n).
  - rewrite <- (Z.mod_small x (2 ^ n)) by done. by rewrite Z.mod_pow2_bits_high by lia.
  - rewrite Z.pow_neg_r in Hx by lia. lia.
Qed.

Lemma bits_range n x :
  0 <= n -> (forall i, n <= i -> Z.testbit x i = false) -> 0 <= x < 2 ^ n.
Proof.
  intros Hn H. assert (x = x mod 2 ^ n) as ->; [|apply Z.mod_pos_bound; lia].
  apply Z.bits_inj'. intros i Hi. destruct (Z_lt_ge_dec i n).
  - by rewrite Z.mod_pow2_bits_low.
  - rewrite Z.mod_pow2_bits_high by lia. apply H. lia.
Qed.

Lemma lxor_range n x y :
  0 <= n -> 0 <= x < 2 ^ n -> 0 <= y < 2 ^ n -> 0 <= Z.lxor x y < 2 ^ n.
Proof.
  intros Hn Hx Hy. apply bits_range; [done|]. intros i Hi.
  by rewrite Z.lxor_spec, (testbit_above n x), (testbit_above n y).
Qed.

Lemma lor_range n x y :
  0 <= n -> 0 <= x < 2 ^ n -> 0 <= y < 2 ^ n -> 0 <= Z.lor x y < 2 ^ n.
Proof.
  intros Hn Hx Hy. apply bits_range; [done|]. intros i Hi.
  by rewrite Z.lor_spec, (testbit_above n x), (testbit_above n y).
Qed.

Lemma land_255_id x : 0 <= x < 2 ^ 8 -> Z.land x 255 = x.
Proof. intros. change 255 with (Z.ones 8). rewrite Z.land_ones by lia. by apply Z.mod_small. Qed.

(** [memcpy (dst + off, src, |src|)] on an object of [length dst] bytes. *)
Definition wr_block (dst : list Z) (off : Z) (src : list Z) : comp (list Z) :=
  if (0 <=? off) && (off + blen src <=? blen dst)
  then Ret (take (Z.to_nat off) dst ++ src ++ drop (Z.to_nat (off + blen src)) dst)
  else Oob.

Lemma wr_block_in_bounds dst off src :
  0 <= off -> off + blen src <= blen dst ->
  wr_block dst off src =
    Ret (take (Z.to_nat off) dst ++ src ++ drop (Z.to_nat (off + blen src)) dst).
Proof.
  intros. unfold wr_block. destruct (Z.leb_spec 0 off); [|lia].
  destruct (Z.leb_spec (off + blen src) (blen dst)); [done|lia].
Qed.

(** Little-endian integers. *)
Fixpoint le_val (l : list Z) : Z :=
  match l with
  | [] => 0
  | b :: l' => b + 256 * le_val l'
  end.

Fixpoint le_bytes (n : nat) (z : Z) : list Z :=
  match n with
  | O => []
  | S n' => z mod 256 :: le_bytes n' (z / 256)
  end.

Lemma length_le_bytes n z : length (le_bytes n z) = n.
Proof. revert z; induction n as [|n IH]; intros z; simpl; [done|]. by rewrite IH. Qed.

Lemma blen_le_bytes n z : blen (le_bytes n z) = Z.of_nat n.
Proof. unfold blen. by rewrite length_le_bytes. Qed.

Lemma le_val_bytes n z : 0 <= z < 256 ^ Z.of_nat n -> le_val (le_bytes n z) = z.
Proof.
  revert z; induction n as [|n IH]; intros z Hz.
  - simpl. change (256 ^ Z.of_nat 0) with 1 in Hz. lia.
  - simpl. rewrite Nat2Z.inj_succ, Z.pow_succ_r in Hz by lia.
    rewrite IH by (split; [apply Z.div_pos; lia|apply Z.div_lt_upper_bound; lia]).
    pose proof (Z.div_mod z 256). lia.
Qed.

Lemma le_bytes_range n z : Forall is_byte (le_bytes n z).
Proof.
  revert z; induction n as [|n IH]; intros z; simpl; constructor; [|done].
  unfold is_byte. apply Z.mod_pos_bound. lia.
Qed.

(** ** Blocks inside a concatenation *)

Lemma sub_app_mid a b c : sub (a ++ b ++ c) (blen a) (blen b) = b.
Proof. unfold sub, blen. by rewrite !Nat2Z.id, drop_app_length, take_app_length. Qed.

Lemma rd_block_app_mid a b c : rd_block (a ++ b ++ c) (blen a) (blen b) = Ret b.
Proof.
  rewrite rd_block_in_bounds; [by rewrite sub_app_mid|apply blen_nonneg|apply blen_nonneg|].
  rewrite !blen_app. pose proof (blen_nonneg c). lia.
Qed.

Lemma rd_app_mid a b c : rd (a ++ b :: c) (blen a) = Ret b.
Proof.
  unfold rd, blen. destruct (Z.leb_spec 0 (Z.of_nat (length a))); [|lia].
  by rewrite Nat2Z.id, list_lookup_middle.
Qed.

Lemma blen_cons a l : blen (a :: l) = 1 + blen l.
Proof. unfold blen. rewrite length_cons. lia. Qed.

Lemma blen_nil : blen [] = 0.
Proof. done. Qed.

Lemma blen_take n l : blen (take n l) = Z.min (Z.of_nat n) (blen l).
Proof. unfold blen. rewrite length_take. lia. Qed.

Lemma blen_drop n l : blen (drop n l) = Z.max 0 (blen l - Z.of_nat n).
Proof. unfold blen. rewrite length_drop. lia. Qed.

Lemma blen_to_nat l : Z.to_nat (blen l) = length l.
Proof. unfold blen. lia. Qed.

(** Two consecutive writes are one write of the concatenation. *)
Lemma wr_block_app dst off a b :
  0 <= off -> off + blen a + blen b <= blen dst ->
  cbind (wr_block dst off a) (fun d => wr_block d (off + blen a) b) = wr_block dst off (a ++ b).
Proof.
  intros Ho Hl. pose proof (blen_nonneg a). pose proof (blen_nonneg b).
  rewrite wr_block_in_bounds by lia. simpl. rewrite !wr_block_in_bounds by
    (rewrite ?blen_app, ?blen_take, ?blen_drop; lia).
  f_equal. rewrite blen_app, (app_assoc _ a), take_app_length'
    by (unfold blen in *; rewrite length_app, length_take; lia).
  rewrite drop_app_ge by (unfold blen in *; rewrite length_app, length_take; lia).
  rewrite drop_drop, <- !app_assoc. do 4 f_equal.
  unfold blen in *. rewrite length_app, length_take. lia.
Qed.

Lemma blen_wr_block dst off src d :
  wr_block dst off src = Ret d -> blen d = blen dst.
Proof.
  unfold wr_block. destruct (_ && _) eqn:E; intros H; [|discriminate].
  injection H as <-. zify_bool. pose proof (blen_nonneg src).
  rewrite !blen_app, blen_take, blen_drop. unfold blen in *. lia.
Qed.

Lemma rd_block_0_app a b n :
  0 <= n <= blen a -> rd_block (a ++ b) 0 n = rd_block a 0 n.
Proof.
  intros Hn. pose proof (blen_nonneg b).
  rewrite !rd_block_in_bounds by (rewrite ?blen_app; lia). unfold sub.
  change (Z.to_nat 0) with 0%nat. rewrite !drop_0. rewrite take_app_le; [done|].
  unfold blen in Hn. lia.
Qed.

Lemma rd_block_0_all a : rd_block a 0 (blen a) = Ret a.
Proof.
  pose proof (blen_nonneg a). rewrite rd_block_in_bounds by lia. unfold sub.
  rewrite drop_0, blen_to_nat. by rewrite take_ge.
Qed.

Lemma rd_block_0_split a b n :
  blen a <= n <= blen a + blen b ->
  rd_block (a ++ b) 0 n = let! c := rd_block b 0 (n - blen a) in Ret (a ++ c).
Proof.
  intros Hn. pose proof (blen_nonneg a).
  rewrite !rd_block_in_bounds by (rewrite ?blen_app; lia). simpl. f_equal. unfold sub.
  change (Z.to_nat 0) with 0%nat. rewrite !drop_0.
  rewrite take_app_ge by (unfold blen in *; lia). do 2 f_equal. unfold blen in *. lia.
Qed.

#[export] Hint Rewrite blen_app blen_cons blen_nil blen_take blen_drop blen_le_bytes : blen_db.

Lemma wr_block_Forall (P : Z -> Prop) dst off src d :
  wr_block dst off src = Ret d -> Forall P dst -> Forall P src -> Forall P d.
Proof.
  unfold wr_block. destruct (_ && _); intros H Hd Hs; [|discriminate]. injection H as <-.
  rewrite !Forall_app. auto using Forall_take, Forall_drop.
Qed.

Lemma sub_Forall (P : Z -> Prop) l off n : Forall P l -> Forall P (sub l off n).
Proof. intros. unfold sub. auto using Forall_take, Forall_drop. Qed.

Lemma rd_block_Forall (P : Z -> Prop) l off n b :
  rd_block l off n = Ret b -> Forall P l -> Forall P b.
Proof.
  unfold rd_block. destruct (_ && _); intros H Hl; [|discriminate]. injection H as <-.
  by apply sub_Forall.
Qed.

Lemma blen_rd_block l off n b : rd_block l off n = Ret b -> blen b = n.
Proof.
  unfold rd_block. destruct (_ && _) eqn:E; intros H; [|discriminate]. injection H as <-.
  zify_bool. apply blen_sub; lia.
Qed.

#[export] Hint Resolve wr_block_Forall rd_block_Forall Forall_drop Forall_take : c_db.

(** ** Characters and C strings *)

(** [tolower], [isspace], [isdigit], [isalpha] of the C locale. *)
Definition tolower (c : Z) : Z := if (65 <=? c) && (c <=? 90) then c + 32 else c.
Definition isspace (c : Z) : bool := (c =? 32) || ((9 <=? c) && (c <=? 13)).
Definition isdigit (c : Z) : bool := (48 <=? c) && (c <=? 57).
Definition isalpha (c : Z) : bool :=
  ((65 <=? c) && (c <=? 90)) || ((97 <=? c) && (c <=? 122)).

(** The C string stored at the start of a block: the bytes before the first
    NUL. *)
Fixpoint cstr (l : list Z) : list Z :=
  match l with
  | [] => []
  | b :: l' => if b =? 0 then [] else b :: cstr l'
  end.

(** [strcasecmp (a, b) == 0] on the bytes before the terminators. *)
Definition strcaseeq (a b : list Z) : bool :=
  bool_decide (map tolower a = map tolower b).

Lemma cstr_no_nul l : 0 ∉ l -> cstr l = l.
Proof.
  induction l as [|b l IH]; simpl; intros H; [done|]. apply not_elem_of_cons in H as [Hb H].
  destruct (Z.eqb_spec b 0); [congruence|]. by rewrite IH.
Qed.

Lemma cstr_nul l r : 0 ∉ l -> cstr (l ++ 0 :: r) = l.
Proof.
  induction l as [|b l IH]; simpl; intros H; [done|]. apply not_elem_of_cons in H as [Hb H].
  destruct (Z.eqb_spec b 0); [congruence|]. by rewrite IH.
Qed.

(** ** Computations with fuel

    [eventually m r]: every large enough fuel makes [m] return [r]. *)
Definition eventually {A : Type} (m : nat -> comp A) (r : comp A) : Prop :=
  exists n, forall fuel, (n <= fuel)%nat -> m fuel = r.

Lemma eventually_const {A : Type} (r : comp A) : eventually (fun _ => r) r.
Proof. by exists 0%nat. Qed.

Lemma eventually_bind {A B : Type} (m : nat -> comp A) (k : nat -> A -> comp B) a r :
  eventually m (Ret a) -> eventually (fun f => k f a) r ->
  eventually (fun f => cbind (m f) (k f)) r.
Proof.
  intros [n1 H1] [n2 H2]. exists (Nat.max n1 n2). intros fuel Hf.
  rewrite H1 by lia. simpl. apply H2. lia.
Qed.

Lemma eventually_ext {A : Type} (m m' : nat -> comp A) r :
  (forall f, m f = m' f) -> eventually m' r -> eventually m r.
Proof. intros He [n H]. exists n. intros f Hf. rewrite He. by apply H. Qed.

#[export] Hint Resolve eventually_const : c_db.

(** ** Growing buffers

    The loop [while (new_size < need) new_size *= 2;] on [size_t], which the
    stream parsers use to grow their buffers.  From 1 on, 64 rounds reach any
    size below 2^63. *)
Fixpoint double_until (fuel : nat) (new_size need : Z) : comp Z :=
  if new_size <? need then
    match fuel with
    | O => NoFuel
    | S f => double_until f (u64 (new_size * 2)) need
    end
  else Ret new_size.

Lemma double_until_spec fuel n need :
  0 < n -> need <= 2 ^ 63 -> need <= n * 2 ^ Z.of_nat fuel ->
  exists m, double_until fuel n need = Ret m /\ need <= m /\ n <= m <= Z.max n (2 * need).
Proof.
  revert n. induction fuel as [|f IH]; intros n Hn Hneed Hf; simpl;
    (destruct (Z.ltb_spec n need); [|exists n; split; [done|lia]]).
  - change (2 ^ Z.of_nat 0) with 1 in Hf. lia.
  - unfold u64. rewrite Z.mod_small by lia. rewrite Nat2Z.inj_succ, Z.pow_succ_r in Hf by lia.
    destruct (IH (n * 2)) as (m & -> & ? & ? & ?); [lia|lia|lia|]. exists m. split; [done|lia].
Qed.

(** ** Blocks that grow by one byte *)

Lemma sub_0 l off : sub l off 0 = [].
Proof. done. Qed.

Lemma sub_snoc l off n b :
  0 <= off -> 0 <= n -> rd l (off + n) = Ret b -> sub l off (n + 1) = sub l off n ++ [b].
Proof.
  intros Ho Hn H. apply rd_Ret_inv in H as [_ H]. unfold sub.
  replace (Z.to_nat (n + 1)) with (S (Z.to_nat n)) by lia.
  apply take_S_r. rewrite lookup_drop. rewrite <- H. f_equal. lia.
Qed.

(** Writing one byte at [a]: blocks before it stay, the block that ends at it
    grows by it. *)
Lemma sub_write_before l a c off n :
  0 <= off -> 0 <= n -> off + n <= a -> a <= blen l ->
  sub (take (Z.to_nat a) l ++ c ++ drop (Z.to_nat (a + 1)) l) off n = sub l off n.
Proof.
  intros. unfold sub, blen in *. rewrite drop_app_le by (rewrite length_take; lia).
  rewrite take_app_le by (rewrite length_drop, length_take; lia).
  rewrite skipn_firstn_comm, take_take. f_equal. lia.
Qed.

Lemma sub_write_end l a c off :
  0 <= off <= a -> a <= blen l ->
  sub (take (Z.to_nat a) l ++ [c] ++ drop (Z.to_nat (a + 1)) l) off (a - off + 1) =
    sub l off (a - off) ++ [c].
Proof.
  intros. rewrite (sub_snoc _ off (a - off) c); [|lia|lia|].
  - by rewrite sub_write_before by lia.
  - unfold rd, blen in *. destruct (Z.leb_spec 0 (off + (a - off))); [|lia].
    rewrite lookup_app_r by (rewrite length_take; lia). rewrite length_take.
    replace (_ - _)%nat with 0%nat by lia. done.
Qed.

(** ** Cursors

    [at_pos buf i l]: the bytes from position [i] on are [l]. *)
Definition at_pos (buf : list Z) (i : Z) (l : list Z) : Prop :=
  0 <= i <= blen buf /\ drop (Z.to_nat i) buf = l.

Lemma at_pos_len buf i l : at_pos buf i l -> blen buf = i + blen l.
Proof. intros [Hi <-]. rewrite blen_drop. unfold blen in *. lia. Qed.

Lemma at_pos_rd buf i c l : at_pos buf i (c :: l) -> rd buf i = Ret c.
Proof.
  intros [Hi H]. unfold rd. destruct (Z.leb_spec 0 i); [|lia].
  rewrite <- (Nat.add_0_r (Z.to_nat i)), <- lookup_drop, H. done.
Qed.

Lemma at_pos_app buf i a l : at_pos buf i (a ++ l) -> at_pos buf (i + blen a) l.
Proof.
  intros Ha. pose proof (at_pos_len _ _ _ Ha) as Hlen. destruct Ha as [Hi H].
  rewrite blen_app in Hlen. pose proof (blen_nonneg a). pose proof (blen_nonneg l).
  split; [lia|]. replace (Z.to_nat (i + blen a)) with (Z.to_nat i + length a)%nat by (unfold blen in *; lia).
  rewrite <- drop_drop, H. apply drop_app_length.
Qed.

Lemma at_pos_next buf i c l : at_pos buf i (c :: l) -> at_pos buf (i + 1) l.
Proof. apply (at_pos_app buf i [c] l). Qed.

Lemma at_pos_block buf i a l : at_pos buf i (a ++ l) -> rd_block buf i (blen a) = Ret a.
Proof.
  intros Ha. pose proof (at_pos_len _ _ _ Ha) as Hlen. destruct Ha as [Hi H].
  rewrite blen_app in Hlen. pose proof (blen_nonneg l). pose proof (blen_nonneg a).
  rewrite rd_block_in_bounds by lia. unfold sub. rewrite H, blen_to_nat. by rewrite take_app_length.
Qed.

Lemma at_pos_0 buf : at_pos buf 0 buf.
Proof. split; [pose proof (blen_nonneg buf); lia|done]. Qed.

(** Bytes decided by evaluation. *)
Lemma bytes_decided l : forallb (fun c => (0 <=? c) && (c <? 256)) l = true -> Forall is_byte l.
Proof. intros H. apply Forall_forall. intros c Hc%list_elem_of_In. rewrite forallb_forall in H. specialize (H c Hc). unfold is_byte. lia. Qed.

Lemma pieces_decided ds : forallb (forallb (fun c => (0 <=? c) && (c <? 256))) ds = true -> Forall (Forall is_byte) ds.
Proof. intros H. apply Forall_forall. intros d Hd%list_elem_of_In. rewrite forallb_forall in H. apply bytes_decided, H, Hd. Qed.

(** A block from its cells. *)
Lemma rd_block_of_cells buf pos bs :
  0 <= pos -> bs <> [] ->
  Forall (fun x => rd buf (pos + Z.of_nat x.1) = Ret x.2) (imap pair bs) ->
  rd_block buf pos (blen bs) = Ret bs.
Proof.
  intros Hp Hne H. rewrite Forall_lookup in H.
  assert (forall i b, bs !! i = Some b -> rd buf (pos + Z.of_nat i) = Ret b) as Hc.
  { intros i b Hi. specialize (H i (i, b)). rewrite list_lookup_imap, Hi in H. by specialize (H eq_refl). }
  assert (pos + blen bs <= blen buf) as Hlen.
  { destruct (lookup_lt_is_Some_2 bs (length bs - 1)) as [b Hb]; [destruct bs; [done|simpl; lia]|].
    apply lookup_lt_Some in Hb as Hl. apply Hc, rd_Ret_inv in Hb as [Hb _]. unfold blen in *. lia. }
  rewrite rd_block_in_bounds by (done || apply blen_nonneg). f_equal. unfold sub.
  apply list_eq. intros i. destruct (bs !! i) as [b|] eqn:Ei.
  - apply lookup_lt_Some in Ei as Hl. apply Hc, rd_Ret_inv in Ei as [_ Ei].
    rewrite lookup_take_lt, lookup_drop by (unfold blen; lia). rewrite <- Ei. f_equal. lia.
  - apply lookup_take_ge. apply lookup_ge_None in Ei. unfold blen. lia.
Qed.

Lemma lor_add m k x : 0 <= k -> 0 <= x < 2 ^ k -> Z.lor (m * 2 ^ k) x = m * 2 ^ k + x.
Proof.
  intros Hk Hx. pose proof (Z.add_lor_land (m * 2 ^ k) x) as H.
  assert (Z.land (m * 2 ^ k) x = 0) as E; [|lia]. apply Z.bits_inj'. intros j Hj. rewrite Z.land_spec, Z.bits_0.
  destruct (Z.lt_ge_cases j k); [by rewrite Z.mul_pow2_bits_low|]. by rewrite (testbit_above k x), andb_false_r.
Qed.
