(* ===== verification/Cstdlib.v ===== *)
(** * Numbers in text

    The functions of the C library the parsers use on digits: [strtol],
    [atoi], [atol], [atoll] (64-bit [long], saturating; [atoi] converts the
    result to [int]), on the bytes from a pointer on.  They read up to the
    first byte that is not part of the number: when the object ends before
    it, the read is [Oob].  Also the decimal text of a number. *)

From Stdlib Require Import SpecFloat.
From S2P Require Export Prelude.

(** The value of a digit, at least [base] for other characters. *)
Definition digit_value (c : Z) : Z :=
  if isdigit c then c - 48
  else if (97 <=? c) && (c <=? 122) then c - 87
  else if (65 <=? c) && (c <=? 90) then c - 55
  else 36.

Definition LONG_MAX : Z := 2 ^ 63 - 1.
Definition LONG_MIN : Z := - 2 ^ 63.
Definition saturate (z : Z) : Z := Z.max LONG_MIN (Z.min LONG_MAX z).

Fixpoint skip_spaces (l : list Z) : comp (list Z) :=
  match l with
  | [] => Oob
  | c :: l' => if isspace c then skip_spaces l' else Ret l
  end.

(** Value and the rest of the text, which starts with a byte that is no digit. *)
Fixpoint strtol_digits (base acc : Z) (l : list Z) : comp (Z * list Z) :=
  match l with
  | [] => Oob
  | c :: l' =>
      if digit_value c <? base then strtol_digits base (acc * base + digit_value c) l'
      else Ret (acc, l)
  end.

(** [strtol (l, NULL, 10)]. *)
Definition strtol10 (l : list Z) : comp Z :=
  let! l := skip_spaces l in
  match l with
  | [] => Oob
  | c :: l' =>
      let! '(v, _) := strtol_digits 10 0 (if (c =? 43) || (c =? 45) then l' else l) in
      Ret (saturate (if c =? 45 then - v else v))
  end.

Definition atol (l : list Z) : comp Z := strtol10 l.
Definition atoll (l : list Z) : comp Z := strtol10 l.
Definition atoi (l : list Z) : comp Z := let! v := strtol10 l in Ret (i32 v).

(** ** Decimal text *)

Fixpoint dec_digits (fuel : nat) (z : Z) (acc : list Z) : list Z :=
  match fuel with
  | O => acc
  | S f => if z <? 10 then 48 + z :: acc else dec_digits f (z / 10) (48 + z mod 10 :: acc)
  end.

(** The decimal text of a number of at most 20 digits. *)
Definition dec (z : Z) : list Z :=
  if z <? 0 then 45 :: dec_digits 20 (- z) [] else dec_digits 20 z [].

Lemma digit_value_dec d : 0 <= d < 10 -> digit_value (48 + d) = d.
Proof. intros. unfold digit_value, isdigit. repeat (zcase; cbn [andb]). Qed.

Lemma digits_dec_digits fuel z acc :
  0 <= z < 10 ^ Z.of_nat fuel -> (0 < fuel)%nat ->
  forall base_acc rest, exists n,
    strtol_digits 10 base_acc (dec_digits fuel z acc ++ rest) =
      strtol_digits 10 (base_acc * 10 ^ Z.of_nat n + z) (acc ++ rest) /\ (1 <= n <= fuel)%nat /\
    length (dec_digits fuel z acc) = (n + length acc)%nat.
Proof.
  revert z acc. induction fuel as [|f IH]; intros z acc Hz Hf base_acc rest; [lia|].
  simpl. destruct (Z.ltb_spec z 10).
  - exists 1%nat. simpl. rewrite digit_value_dec by lia. destruct (Z.ltb_spec z 10); [|lia].
    split; [f_equal; lia|]. split; [lia|done].
  - rewrite Nat2Z.inj_succ, Z.pow_succ_r in Hz by lia.
    destruct f as [|f]; [simpl in Hz; lia|].
    destruct (IH (z / 10) (48 + z mod 10 :: acc)) with (base_acc := base_acc) (rest := rest)
      as (n & -> & Hn & Hlen).
    { split; [apply Z.div_pos; lia|apply Z.div_lt_upper_bound; lia]. }
    { lia. }
    exists (S n). split; [|split; [lia|rewrite Hlen; simpl; lia]].
    cbn [app strtol_digits]. pose proof (Z.mod_pos_bound z 10 ltac:(lia)).
    rewrite digit_value_dec by lia. destruct (Z.ltb_spec (z mod 10) 10); [|lia].
    f_equal. rewrite Nat2Z.inj_succ, Z.pow_succ_r by lia. pose proof (Z.div_mod z 10). lia.
Qed.

Lemma dec_digits_isdigit fuel z acc :
  0 <= z -> Forall (fun c => isdigit c = true) acc -> Forall (fun c => isdigit c = true) (dec_digits fuel z acc).
Proof.
  revert z acc. induction fuel as [|f IH]; intros z acc Hz Ha; [done|]. simpl.
  destruct (Z.ltb_spec z 10).
  - constructor; [|done]. unfold isdigit. lia.
  - apply IH; [apply Z.div_pos; lia|]. constructor; [|done].
    pose proof (Z.mod_pos_bound z 10 ltac:(lia)). unfold isdigit. lia.
Qed.

(** The digits of a non-negative number: non-empty, starting with a digit. *)
Lemma dec_nonneg z :
  0 <= z < 10 ^ 20 ->
  exists d ds, dec z = d :: ds /\ Forall (fun c => isdigit c = true) (d :: ds) /\
    1 + blen ds <= 20 /\
    forall rest c, 10 <= digit_value c ->
      strtol_digits 10 0 ((d :: ds) ++ c :: rest) = Ret (z, c :: rest).
Proof.
  intros Hz. unfold dec. destruct (Z.ltb_spec z 0); [lia|].
  assert (Forall (fun c => isdigit c = true) (dec_digits 20 z [])) as Hd by (by apply dec_digits_isdigit).
  destruct (digits_dec_digits 20 z [] Hz ltac:(lia) 0 []) as (n0 & _ & Hn0 & Hlen0).
  destruct (dec_digits 20 z []) as [|d ds] eqn:E; [simpl in Hlen0; lia|].
  exists d, ds. split; [done|]. split; [done|].
  split; [unfold blen; simpl in Hlen0; lia|].
  intros rest c Hc. destruct (digits_dec_digits 20 z [] Hz ltac:(lia) 0 (c :: rest)) as (n & H1 & _ & _).
  rewrite E in H1. rewrite H1. cbn [app strtol_digits]. destruct (Z.ltb_spec (digit_value c) 10); [lia|].
  do 2 f_equal.
Qed.

Lemma isdigit_range c : isdigit c = true -> 48 <= c <= 57.
Proof. unfold isdigit. intros. zify_bool. lia. Qed.

Lemma isdigit_not_space c : isdigit c = true -> isspace c = false.
Proof. intros H%isdigit_range. unfold isspace. lia. Qed.

(** Reading back the text of a 64-bit number, up to a byte that is no digit. *)
Lemma strtol10_dec z c rest :
  LONG_MIN <= z <= LONG_MAX -> 10 <= digit_value c -> strtol10 (dec z ++ c :: rest) = Ret z.
Proof.
  unfold LONG_MIN, LONG_MAX. intros Hz Hc. unfold strtol10.
  assert (saturate z = z) as Hsat by (unfold saturate, LONG_MIN, LONG_MAX; lia).
  destruct (Z_lt_ge_dec z 0).
  - destruct (dec_nonneg (- z)) as (d & ds & E & Hd & _ & H); [lia|].
    assert (dec z = 45 :: d :: ds) as ->.
    { rewrite <- E. unfold dec. destruct (Z.ltb_spec z 0), (Z.ltb_spec (- z) 0); (lia || done). }
    cbn [app skip_spaces]. change (isspace 45) with false. cbv iota. cbn [cbind].
    change ((45 =? 43) || (45 =? 45)) with true. cbv iota.
    change (d :: ds ++ c :: rest) with ((d :: ds) ++ c :: rest). rewrite H by done. cbn [cbind].
    change (45 =? 45) with true. cbv iota. by rewrite Z.opp_involutive, Hsat.
  - destruct (dec_nonneg z) as (d & ds & -> & Hd & _ & H); [lia|].
    inversion_clear Hd as [|? ? Hdd _]. pose proof (isdigit_range _ Hdd).
    cbn [app skip_spaces]. rewrite isdigit_not_space by done. cbn [cbind].
    destruct (Z.eqb_spec d 43), (Z.eqb_spec d 45); try lia. cbn [orb].
    change (d :: ds ++ c :: rest) with ((d :: ds) ++ c :: rest). rewrite H by done. cbn [cbind].
    by rewrite Hsat.
Qed.

Lemma atoi_dec z c rest :
  - 2 ^ 31 <= z < 2 ^ 31 -> 10 <= digit_value c -> atoi (dec z ++ c :: rest) = Ret z.
Proof.
  intros Hz Hc. unfold atoi. rewrite strtol10_dec by (unfold LONG_MIN, LONG_MAX; lia). cbn [cbind].
  f_equal. unfold i32, swrap. rewrite Z.mod_small by lia. lia.
Qed.

(** More bytes behind a number that was read do not change it. *)
Lemma skip_spaces_app l r l' : skip_spaces l = Ret l' -> skip_spaces (l ++ r) = Ret (l' ++ r).
Proof.
  induction l as [|c l IH]; simpl; [discriminate|]. destruct (isspace c); [done|]. by intros [= <-].
Qed.

Lemma strtol_digits_app base acc l r v l' :
  strtol_digits base acc l = Ret (v, l') -> strtol_digits base acc (l ++ r) = Ret (v, l' ++ r).
Proof.
  revert acc. induction l as [|c l IH]; intros acc; simpl; [discriminate|].
  destruct (_ <? _); [apply IH|]. by intros [= <- <-].
Qed.

Lemma skip_spaces_nonempty l l' : skip_spaces l = Ret l' -> l' <> [].
Proof.
  induction l as [|c l IH]; simpl; [discriminate|]. destruct (isspace c); [done|]. by intros [= <-].
Qed.

Lemma strtol10_app l r v : strtol10 l = Ret v -> strtol10 (l ++ r) = Ret v.
Proof.
  unfold strtol10. intros H. inv_bind. rewrite (skip_spaces_app _ r _ Hb). cbn [cbind].
  destruct v0 as [|c l']; [discriminate|]. inv_bind. destruct v0 as [d l2]. cbn [app].
  destruct ((c =? 43) || (c =? 45)).
  - rewrite (strtol_digits_app _ _ _ r _ _ Hb0). done.
  - change (c :: l' ++ r) with ((c :: l') ++ r). rewrite (strtol_digits_app _ _ _ r _ _ Hb0). done.
Qed.

Lemma atoi_app l r v : atoi l = Ret v -> atoi (l ++ r) = Ret v.
Proof. unfold atoi. intros H. inv_bind. rewrite (strtol10_app _ r _ Hb). done. Qed.

(** [strtol (l, &end, 16)]: [None] when [end] is left at [l], there being no
    number. *)
Definition strtol16 (l : list Z) : comp (option Z) :=
  let! l := skip_spaces l in
  match l with
  | [] => Oob
  | c :: l' =>
      let l1 := if (c =? 43) || (c =? 45) then l' else l in
      let! l2 :=
        match l1 with
        | 48 :: x :: d :: _ =>
            Ret (if ((x =? 120) || (x =? 88)) && (digit_value d <? 16) then drop 2 l1 else l1)
        | _ => Ret l1
        end in
      match l2 with
      | [] => Oob
      | d :: _ =>
          if digit_value d <? 16 then
            let! '(v, _) := strtol_digits 16 0 l2 in
            Ret (Some (saturate (if c =? 45 then - v else v)))
          else Ret None
      end
  end.

(** A number is read when a byte that is no digit stands behind it. *)
Lemma strtol_digits_ret base acc l :
  Exists (fun c => base <= digit_value c) l -> exists v r, strtol_digits base acc l = Ret (v, r).
Proof.
  intros H. revert acc. induction H as [c l Hc|c l _ IH]; intros acc; cbn [strtol_digits].
  - destruct (Z.ltb_spec (digit_value c) base); [lia|eauto].
  - destruct (Z.ltb_spec (digit_value c) base); eauto.
Qed.

Lemma skip_spaces_ret l c : c ∈ l -> isspace c = false -> exists d l', skip_spaces l = Ret (d :: l') /\ c ∈ d :: l'.
Proof.
  intros Hc Hs. induction l as [|d l IH]; [by apply elem_of_nil in Hc|]. cbn [skip_spaces].
  destruct (isspace d) eqn:E; [|eauto]. apply IH. apply elem_of_cons in Hc as [->|Hc]; [congruence|done].
Qed.

Lemma digit_value_nul : digit_value 0 = 36.
Proof. done. Qed.

Lemma nul_stops base l : base <= 36 -> 0 ∈ l -> Exists (fun c => base <= digit_value c) l.
Proof. intros Hb Hl. apply Exists_exists. exists 0. rewrite digit_value_nul. done. Qed.

(** [atol] and [strtol] return on a C string. *)
Lemma strtol10_nul l : 0 ∈ l -> returns (strtol10 l).
Proof.
  intros Hl. unfold strtol10. destruct (skip_spaces_ret l 0 Hl eq_refl) as (d & l' & -> & Hd). cbn [cbind].
  assert (exists v r, strtol_digits 10 0 (if (d =? 43) || (d =? 45) then l' else d :: l') = Ret (v, r)) as (v & r & ->).
  { apply strtol_digits_ret, nul_stops; [lia|]. destruct (_ || _) eqn:E; [|done].
    apply elem_of_cons in Hd as [<-|Hd]; [discriminate|done]. }
  apply returns_Ret.
Qed.

Lemma strtol16_nul l : 0 ∈ l -> returns (strtol16 l).
Proof.
  intros Hl. unfold strtol16. destruct (skip_spaces_ret l 0 Hl eq_refl) as (d & l' & -> & Hd). cbn [cbind].
  set (l1 := if (d =? 43) || (d =? 45) then l' else d :: l').
  assert (0 ∈ l1) as H1.
  { unfold l1. destruct (_ || _) eqn:E; [|done]. apply elem_of_cons in Hd as [<-|Hd]; [discriminate|done]. }
  clearbody l1. match goal with |- returns (cbind ?m _) => assert (exists l2, m = Ret l2 /\ 0 ∈ l2) as (l2 & -> & H2) end.
  { assert ((exists x y t, l1 = 48 :: x :: y :: t) \/ ~ exists x y t, l1 = 48 :: x :: y :: t) as [(x & y & t & ->)|Hn].
    { destruct l1 as [|c [|x [|y t]]]; try (right; intros (? & ? & ? & ?); discriminate).
      destruct (decide (c = 48)) as [->|Hc]; [left; eauto|right; intros (? & ? & ? & ?); congruence]. }
    - eexists. split; [reflexivity|]. destruct (_ && _) eqn:E; [|done]. cbn [drop].
      apply elem_of_cons in H1 as [H1|H1]; [discriminate|]. apply elem_of_cons in H1 as [<-|H1]; [discriminate|done].
    - exists l1. split; [|done]. repeat case_match; try done. subst. destruct Hn. eauto. }
  cbn [cbind]. destruct l2 as [|c l2]; [by apply elem_of_nil in H2|]. destruct (_ <? _); [|apply returns_Ret].
  destruct (strtol_digits_ret 16 0 (c :: l2)) as (v & r & ->); [by apply nul_stops|]. apply returns_Ret.
Qed.

(** A number of [n] digits is below [10 ^ n]. *)
Lemma strtol_digits_bound base l : 0 < base -> forall acc v r, 0 <= acc ->
  strtol_digits base acc l = Ret (v, r) ->
  blen r <= blen l /\ r <> [] /\ 0 <= v < (acc + 1) * base ^ (blen l - blen r).
Proof.
  intros Hb. induction l as [|c l IH]; intros acc v r Ha; cbn [strtol_digits]; [done|].
  destruct (Z.ltb_spec (digit_value c) base) as [Hc|Hc].
  2: { intros [= <- <-]. rewrite Z.sub_diag, Z.pow_0_r. split; [lia|]. split; [done|lia]. }
  assert (0 <= digit_value c) as Hd.
  { clear. unfold digit_value, isdigit. repeat case_match; zify_bool; lia. }
  intros H. apply IH in H as (H1 & H2 & H3); [|nia]. rewrite blen_cons.
  split; [lia|]. split; [done|]. replace (1 + blen l - blen r) with (Z.succ (blen l - blen r)) by lia.
  rewrite Z.pow_succ_r by lia. assert (0 < base ^ (blen l - blen r)) by (apply Z.pow_pos_nonneg; lia). nia.
Qed.

Lemma atol_bound c l v : isdigit c = true -> atol (c :: l) = Ret v -> 0 <= v < 10 ^ blen l.
Proof.
  intros Hc. unfold atol, strtol10. cbn [skip_spaces]. rewrite isdigit_not_space by done. cbn [cbind].
  pose proof (isdigit_range _ Hc). destruct (Z.eqb_spec c 43), (Z.eqb_spec c 45); try lia. cbn [orb].
  intros H1. inv_bind. destruct v0 as [w r]. injection H1 as <-.
  apply strtol_digits_bound in Hb as (H2 & H3 & H4); [|lia|lia]. rewrite blen_cons in *.
  destruct r as [|d r]; [done|]. rewrite blen_cons in *. pose proof (blen_nonneg r).
  assert (10 ^ (1 + blen l - (1 + blen r)) <= 10 ^ blen l) by (apply Z.pow_le_mono_r; lia).
  unfold saturate, LONG_MIN, LONG_MAX. lia.
Qed.

Lemma strtol16_range l v : strtol16 l = Ret (Some v) -> LONG_MIN <= v <= LONG_MAX.
Proof.
  unfold strtol16. intros H. inv_bind. destruct v0 as [|c l']; [discriminate|]. inv_bind.
  destruct v0 as [|d l2]; [discriminate|]. destruct (_ <? _); [|discriminate]. inv_bind. destruct v0 as [w r].
  injection H as <-. unfold saturate, LONG_MIN, LONG_MAX. lia.
Qed.

(** A number below [10 ^ n] has at most [n] digits. *)
Lemma dec_digits_length fuel : forall n z acc, 0 <= z < 10 ^ Z.of_nat n -> (1 <= n <= fuel)%nat ->
  (length (dec_digits fuel z acc) <= n + length acc)%nat.
Proof.
  induction fuel as [|f IH]; intros n z acc Hz Hn; [lia|]. simpl. destruct (Z.ltb_spec z 10); [simpl; lia|].
  destruct n as [|[|n]]; [lia|change (10 ^ Z.of_nat 1) with 10 in Hz; lia|].
  rewrite Nat2Z.inj_succ, Z.pow_succ_r in Hz by lia.
  specialize (IH (S n) (z / 10) (48 + z mod 10 :: acc)). cbn [length] in IH. rewrite IH; [lia| |lia].
  split; [apply Z.div_pos; lia|apply Z.div_lt_upper_bound; lia].
Qed.

Lemma blen_dec z n : 0 <= z < 10 ^ Z.of_nat n -> (1 <= n <= 20)%nat -> blen (dec z) <= Z.of_nat n.
Proof.
  intros Hz Hn. unfold dec. destruct (Z.ltb_spec z 0); [lia|]. pose proof (dec_digits_length 20 n z [] Hz Hn) as H1.
  unfold blen. simpl length in H1 at 2. lia.
Qed.

(** ** Hexadecimal text *)

Definition hex_digit (d : Z) : Z := if d <? 10 then 48 + d else 87 + d.

Fixpoint hex_digits (fuel : nat) (z : Z) (acc : list Z) : list Z :=
  match fuel with
  | O => acc
  | S f => if z <? 16 then hex_digit z :: acc else hex_digits f (z / 16) (hex_digit (z mod 16) :: acc)
  end.

(** The text of a number below 2^64. *)
Definition hex (z : Z) : list Z := hex_digits 16 z [].

Lemma digit_value_hex d : 0 <= d < 16 -> digit_value (hex_digit d) = d.
Proof.
  intros. unfold hex_digit. destruct (Z.ltb_spec d 10); unfold digit_value, isdigit; repeat case_match; zify_bool; lia.
Qed.

Lemma digits_hex_digits fuel : forall z acc base_acc rest,
  0 <= z < 16 ^ Z.of_nat fuel -> (0 < fuel)%nat ->
  exists n d ds, strtol_digits 16 base_acc (hex_digits fuel z acc ++ rest) =
      strtol_digits 16 (base_acc * 16 ^ Z.of_nat n + z) (acc ++ rest) /\
    hex_digits fuel z acc = hex_digit d :: ds /\ 0 <= d < 16 /\ (0 < z -> 0 < d).
Proof.
  induction fuel as [|f IH]; intros z acc base_acc rest Hz Hf; [lia|]. simpl. destruct (Z.ltb_spec z 16).
  - exists 1%nat, z, acc. cbn [app strtol_digits]. rewrite digit_value_hex by lia.
    destruct (Z.ltb_spec z 16); [|lia]. split; [f_equal; lia|]. split; [done|lia].
  - rewrite Nat2Z.inj_succ, Z.pow_succ_r in Hz by lia. destruct f as [|f]; [simpl in Hz; lia|].
    destruct (IH (z / 16) (hex_digit (z mod 16) :: acc) base_acc rest) as (n & d & ds & -> & -> & Hd & Hp).
    { split; [apply Z.div_pos; lia|apply Z.div_lt_upper_bound; lia]. }
    { lia. }
    exists (S n), d, ds. pose proof (Z.mod_pos_bound z 16 ltac:(lia)).
    cbn [app strtol_digits]. rewrite digit_value_hex by lia. destruct (Z.ltb_spec (z mod 16) 16); [|lia].
    split; [|split; [done|split; [done|]]].
    + f_equal. rewrite Nat2Z.inj_succ, Z.pow_succ_r by lia. pose proof (Z.div_mod z 16). lia.
    + intros _. apply Hp. apply Z.div_str_pos. lia.
Qed.

Lemma hex_digit_range d : 0 <= d < 16 -> isspace (hex_digit d) = false /\ hex_digit d <> 43 /\ hex_digit d <> 45 /\
  (0 < d -> hex_digit d <> 48).
Proof. intros. unfold hex_digit, isspace. destruct (Z.ltb_spec d 10); lia. Qed.

(** Reading back the text of a number, up to a byte that is no digit and no
    [x]. *)
Lemma strtol16_hex z c rest :
  0 <= z <= LONG_MAX -> 16 <= digit_value c -> c <> 120 -> c <> 88 -> strtol16 (hex z ++ c :: rest) = Ret (Some z).
Proof.
  unfold LONG_MAX. intros Hz Hc Hx1 Hx2.
  destruct (digits_hex_digits 16 z [] 0 (c :: rest)) as (n & d & ds & Hs & E & Hd & Hp); [lia|lia|].
  cbn [app strtol_digits] in Hs. destruct (Z.ltb_spec (digit_value c) 16) as [?|_]; [lia|].
  unfold strtol16, hex. rewrite E in *. destruct (hex_digit_range d Hd) as (R1 & R2 & R3 & R4). cbn [app skip_spaces].
  rewrite R1. cbn [cbind]. destruct (Z.eqb_spec (hex_digit d) 43); [lia|]. destruct (Z.eqb_spec (hex_digit d) 45); [lia|]. cbn [orb].
  match goal with |- cbind ?m _ = _ => assert (m = Ret (hex_digit d :: ds ++ c :: rest)) as -> end.
  { destruct (Z_lt_le_dec 0 z) as [Hz0|Hz0].
    - specialize (R4 (Hp Hz0)). destruct (ds ++ c :: rest) as [|x [|y t]]; repeat case_match; try done; congruence.
    - assert (z = 0) as -> by lia. change (hex_digits 16 0 []) with [48] in E. injection E as E <-.
      assert (d = 0) as -> by (unfold hex_digit in E; destruct (Z.ltb_spec d 10); lia).
      cbn [app]. change (hex_digit 0) with 48. destruct rest as [|y t]; [done|].
      destruct (Z.eqb_spec c 120); [lia|]. destruct (Z.eqb_spec c 88); [lia|]. done. }
  cbn [cbind]. rewrite digit_value_hex by done. destruct (Z.ltb_spec d 16); [|lia].
  cbn [app] in Hs. rewrite Hs. cbn [cbind]. do 2 f_equal. unfold saturate, LONG_MIN, LONG_MAX. lia.
Qed.

(** ** Comparison of C strings

    [strcmp] on the bytes before the terminators, as unsigned characters. *)
Fixpoint bytes_compare (a b : list Z) : Z :=
  match a, b with
  | [], [] => 0
  | [], y :: _ => - y
  | x :: _, [] => x
  | x :: a, y :: b => if x =? y then bytes_compare a b else x - y
  end.

Definition strcmp (a b : list Z) : Z := bytes_compare (cstr a) (cstr b).

(** [strncasecmp (a, b, n) == 0], which stops at a NUL of both. *)
Definition strncaseeq (a b : list Z) (n : Z) : comp bool :=
  let! a := rd_block a 0 n in
  let! b := rd_block b 0 n in
  Ret (strcaseeq (cstr a) (cstr b)).

Lemma strncaseeq_ret a b n : 0 <= n -> n <= blen a -> n <= blen b -> returns (strncaseeq a b n).
Proof. intros. unfold strncaseeq. rewrite !rd_block_in_bounds by lia. apply returns_Ret. Qed.

(** The comparison on blocks that hold texts without NUL. *)
Lemma strncaseeq_texts a r b n : blen a = n -> blen b = n -> 0 ∉ a -> 0 ∉ b -> strncaseeq (a ++ r) b n = Ret (strcaseeq a b).
Proof.
  intros Ha Hb H1 H2. unfold strncaseeq. pose proof (blen_nonneg a).
  rewrite rd_block_0_app by lia. subst n. rewrite rd_block_0_all. rewrite <- Hb, rd_block_0_all. cbn [cbind].
  by rewrite !cstr_no_nul.
Qed.

Lemma cstr_bytes (l : list Z) : Forall is_byte l -> Forall is_byte (cstr l).
Proof. induction 1 as [|c l Hc _ IH]; cbn [cstr]; [done|]. destruct (c =? 0); auto. Qed.

Lemma cstr_pos l : Forall is_byte l -> Forall (fun c => 0 < c) (cstr l).
Proof.
  induction 1 as [|c l Hc _ IH]; cbn [cstr]; [done|]. unfold is_byte in Hc. destruct (Z.eqb_spec c 0); [done|].
  constructor; [lia|done].
Qed.

Lemma bytes_compare_eq a : forall b, Forall (fun c => 0 < c) a -> Forall (fun c => 0 < c) b -> bytes_compare a b = 0 <-> a = b.
Proof.
  induction a as [|x a IH]; intros [|y b] Ha Hb; cbn [bytes_compare]; try done;
    repeat match goal with H : Forall _ (_ :: _) |- _ => apply Forall_cons in H as [? H] end;
    try (split; [lia|discriminate]).
  destruct (Z.eqb_spec x y) as [->|Hne]; [rewrite IH by done; split; congruence|]. split; [lia|congruence].
Qed.

Lemma bytes_compare_antisym a : forall b, bytes_compare b a = - bytes_compare a b.
Proof.
  induction a as [|x a IH]; intros [|y b]; cbn [bytes_compare]; try lia.
  rewrite (Z.eqb_sym y x). destruct (Z.eqb_spec x y); [apply IH|lia].
Qed.

Lemma bytes_compare_trans a : forall b c, Forall (fun c => 0 < c) a -> Forall (fun c => 0 < c) b -> Forall (fun c => 0 < c) c ->
  bytes_compare a b <= 0 -> bytes_compare b c <= 0 ->
  bytes_compare a c <= 0 /\ (bytes_compare a b < 0 \/ bytes_compare b c < 0 -> bytes_compare a c < 0).
Proof.
  induction a as [|x a IH]; intros [|y b] [|z c] Ha Hb Hc; cbn [bytes_compare]; try lia;
    repeat match goal with H : Forall _ (_ :: _) |- _ => apply Forall_cons in H as [? H] end; try lia.
  repeat match goal with |- context [?u =? ?v] => destruct (Z.eqb_spec u v) end; subst; try lia. by apply IH.
Qed.

(** ** Numbers with a fraction

    [strtod] on a C string, without hexadecimal numbers (the callers reject
    their prefix): the rest of the text behind the number and its value, the
    IEEE double nearest to the decimal number; no number leaves the whole
    text. *)
Fixpoint dec_run (l : list Z) (acc n : Z) : Z * Z * list Z :=
  match l with
  | c :: l' => if isdigit c then dec_run l' (10 * acc + (c - 48)) (n + 1) else (acc, n, l)
  | [] => (acc, n, l)
  end.

(** [text] without regard to case, or [None]. *)
Fixpoint strip_word (text l : list Z) : option (list Z) :=
  match text, l with
  | [], _ => Some l
  | t :: text, c :: l => if tolower c =? t then strip_word text l else None
  | _, [] => None
  end.

Definition strip_sign (l : list Z) : bool * list Z :=
  match l with
  | c :: l' => if c =? 45 then (true, l') else if c =? 43 then (false, l') else (false, l)
  | [] => (false, l)
  end.

Fixpoint drop_spaces (l : list Z) : list Z :=
  match l with
  | c :: l' => if isspace c then drop_spaces l' else l
  | [] => []
  end.

Fixpoint nan_chars (l : list Z) : option (list Z) :=
  match l with
  | c :: l' => if c =? 41 then Some l' else if isdigit c || isalpha c || (c =? 95) then nan_chars l' else None
  | [] => None
  end.

Definition inf_nan (l : list Z) (neg : bool) : option (list Z * spec_float) :=
  match strip_word [105; 110; 102; 105; 110; 105; 116; 121] l with
  | Some r => Some (r, S754_infinity neg)
  | None =>
      match strip_word [105; 110; 102] l with
      | Some r => Some (r, S754_infinity neg)
      | None =>
          match strip_word [110; 97; 110] l with
          | Some (40 :: r) => Some (default (40 :: r) (nan_chars r), S754_nan)
          | Some r => Some (r, S754_nan)
          | None => None
          end
      end
  end.

(** The exponent part, if there is a whole one. *)
Definition dec_exponent (l : list Z) : Z * list Z :=
  match l with
  | c :: l' =>
      if tolower c =? 101 then
        let '(neg, l2) := strip_sign l' in
        let '(e, n, r) := dec_run l2 0 0 in
        if 0 <? n then (if neg : bool then - e else e, r) else (0, l)
      else (0, l)
  | [] => (0, l)
  end.

(** The double nearest to [m * 10 ^ e]. *)
Definition double_of (neg : bool) (m e : Z) : spec_float :=
  match m with
  | Zpos p =>
      if 0 <=? e then binary_normalize 53 1024 (if neg then - (m * 10 ^ e) else m * 10 ^ e) 0 neg
      else match 10 ^ (- e) with
           | Zpos q => SFdiv 53 1024 (S754_finite neg p 0) (S754_finite false q 0)
           | _ => S754_nan
           end
  | _ => S754_zero neg
  end.

Definition strtod (l : list Z) : list Z * spec_float :=
  let '(neg, l2) := strip_sign (drop_spaces l) in
  match inf_nan l2 neg with
  | Some r => r
  | None =>
      let '(m1, n1, l3) := dec_run l2 0 0 in
      let '(m, n2, l4) := match l3 with
                          | 46 :: l' => dec_run l' m1 0
                          | _ => (m1, 0, l3)
                          end in
      if 0 <? n1 + n2 then
        let '(e, r) := dec_exponent l4 in (r, double_of neg m (e - n2))
      else (l, S754_zero false)
  end.

Example strtod_half : strtod [45; 48; 46; 53; 44] = ([44], S754_finite true 4503599627370496 (-53)).
Proof. vm_compute. reflexivity. Qed.

(** The rest is a part of the text. *)
Lemma dec_run_length l : forall acc n, (length (snd (dec_run l acc n)) <= length l)%nat.
Proof.
  induction l as [|c l IH]; intros acc n; cbn [dec_run length]; [done|]. destruct (isdigit c); [|done].
  specialize (IH (10 * acc + (c - 48)) (n + 1)). lia.
Qed.

Lemma strip_word_length text : forall l r, strip_word text l = Some r -> (length r <= length l)%nat.
Proof.
  induction text as [|t text IH]; intros [|c l] r; cbn [strip_word length]; try congruence; try (intros [= <-]; cbn; lia).
  destruct (tolower c =? t); [|done]. intros H%IH. lia.
Qed.

Lemma nan_chars_length l : forall r, nan_chars l = Some r -> (length r <= length l)%nat.
Proof.
  induction l as [|c l IH]; intros r; cbn [nan_chars length]; [done|]. destruct (c =? 41); [intros [= <-]; lia|].
  destruct (_ || _); [|done]. intros H%IH. lia.
Qed.

Lemma strip_sign_length l : (length (snd (strip_sign l)) <= length l)%nat.
Proof. destruct l as [|c l]; cbn [strip_sign]; [done|]. destruct (c =? 45), (c =? 43); cbn; lia. Qed.

Lemma drop_spaces_length l : (length (drop_spaces l) <= length l)%nat.
Proof. induction l as [|c l IH]; cbn [drop_spaces]; [done|]. destruct (isspace c); cbn; lia. Qed.

Lemma dec_exponent_length l : (length (snd (dec_exponent l)) <= length l)%nat.
Proof.
  destruct l as [|c l]; cbn [dec_exponent]; [done|]. destruct (tolower c =? 101); [|done].
  pose proof (strip_sign_length l) as Hs. destruct (strip_sign l) as [neg l2]. cbn [snd] in Hs.
  pose proof (dec_run_length l2 0 0) as Hd. destruct (dec_run l2 0 0) as [[e n] r]. cbn [snd] in Hd.
  destruct (0 <? n); cbn [snd length]; lia.
Qed.

Lemma inf_nan_length l neg r d : inf_nan l neg = Some (r, d) -> (length r <= length l)%nat.
Proof.
  unfold inf_nan. destruct (strip_word [105; 110; 102; 105; 110; 105; 116; 121] l) as [r1|] eqn:E1;
    [intros [= <- _]; by eapply strip_word_length|].
  destruct (strip_word [105; 110; 102] l) as [r2|] eqn:E2; [intros [= <- _]; by eapply strip_word_length|].
  destruct (strip_word [110; 97; 110] l) as [r3|] eqn:E3; [|done]. apply strip_word_length in E3.
  assert (forall r4, r4 = r3 \/ nan_chars (drop 1 r3) = Some r4 -> (length r4 <= length l)%nat) as Hr.
  { intros r4 [->|H%nan_chars_length]; [done|]. rewrite length_drop in H. lia. }
  destruct r3 as [|c r3]; [intros [= <- _]; apply Hr; by left|].
  destruct (decide (c = 40)) as [->|Hc].
  - destruct (nan_chars r3) as [r4|] eqn:E4; cbn [default]; intros [= <- _]; apply Hr; [by right|by left].
  - assert (forall X (a b : X), (match c with 40 => a | _ => b end) = b) as Hm by (intros; by repeat case_match).
    rewrite Hm. intros [= <- _]. apply Hr. by left.
Qed.

Lemma strtod_length l : (length (fst (strtod l)) <= length l)%nat.
Proof.
  unfold strtod. pose proof (drop_spaces_length l) as H1. pose proof (strip_sign_length (drop_spaces l)) as H2.
  destruct (strip_sign (drop_spaces l)) as [neg l2]. cbn [snd] in H2.
  destruct (inf_nan l2 neg) as [[r d]|] eqn:Ei; [apply inf_nan_length in Ei; cbn [fst]; lia|].
  pose proof (dec_run_length l2 0 0) as H3. destruct (dec_run l2 0 0) as [[m1 n1] l3]. cbn [snd] in H3.
  assert (let '(m, n2, l4) := match l3 with 46 :: l' => dec_run l' m1 0 | _ => (m1, 0, l3) end in (length l4 <= length l3)%nat) as H4.
  { destruct l3 as [|c l3]; [done|]. pose proof (dec_run_length l3 m1 0) as H5.
    destruct (dec_run l3 m1 0) as [[m2 n2] l4]. repeat case_match; simplify_eq; cbn [snd length] in *; lia. }
  destruct (match l3 with 46 :: l' => dec_run l' m1 0 | _ => (m1, 0, l3) end) as [[m n2] l4].
  destruct (0 <? n1 + n2); [|done].
  pose proof (dec_exponent_length l4) as H5. destruct (dec_exponent l4) as [e r]. cbn [fst snd] in *. lia.
Qed.

(** Reading back an integer. *)
Lemma dec_run_digits fuel z acc rest : 0 <= z < 10 ^ Z.of_nat fuel -> (0 < fuel)%nat ->
  forall a k, exists n, dec_run (dec_digits fuel z acc ++ rest) a k = dec_run (acc ++ rest) (a * 10 ^ Z.of_nat n + z) (k + Z.of_nat n) /\ (1 <= n)%nat.
Proof.
  revert z acc. induction fuel as [|f IH]; intros z acc Hz Hf a k; [lia|]. cbn [dec_digits]. destruct (Z.ltb_spec z 10).
  - exists 1%nat. cbn [app dec_run]. assert (isdigit (48 + z) = true) as -> by (unfold isdigit; lia).
    split; [|lia]. f_equal; cbn; lia.
  - rewrite Nat2Z.inj_succ, Z.pow_succ_r in Hz by lia. destruct f as [|f]; [simpl in Hz; lia|].
    destruct (IH (z / 10) (48 + z mod 10 :: acc)) with (a := a) (k := k) as (n & -> & Hn).
    { split; [apply Z.div_pos; lia|apply Z.div_lt_upper_bound; lia]. }
    { lia. }
    exists (S n). split; [|lia]. cbn [app dec_run]. pose proof (Z.mod_pos_bound z 10 ltac:(lia)).
    assert (isdigit (48 + z mod 10) = true) as -> by (unfold isdigit; lia). pose proof (Z.div_mod z 10).
    rewrite Nat2Z.inj_succ, Z.pow_succ_r by lia. f_equal; lia.
Qed.

Lemma dec_digits_head fuel z acc : 0 < z < 10 ^ Z.of_nat fuel ->
  exists c r, dec_digits fuel z acc = c :: r /\ 49 <= c <= 57.
Proof.
  revert z acc. induction fuel as [|f IH]; intros z acc Hz; [cbn in Hz; lia|]. cbn [dec_digits].
  destruct (Z.ltb_spec z 10); [exists (48 + z), acc; split; [done|lia]|].
  rewrite Nat2Z.inj_succ, Z.pow_succ_r in Hz by lia. apply IH. split; [apply Z.div_str_pos; lia|apply Z.div_lt_upper_bound; lia].
Qed.

(** What can follow a number. *)
Definition ends_number (t : list Z) : Prop :=
  match t with
  | [] => True
  | c :: _ => isdigit c = false /\ c <> 46 /\ tolower c <> 101
  end.

(** ** Hexadecimal numbers

    [strtod] with the numbers that start with 0x as well: digits with an
    optional fraction and an optional binary exponent.  Without a digit behind
    the prefix the number is its 0. *)
Fixpoint hex_run (l : list Z) (acc n : Z) : Z * Z * list Z :=
  match l with
  | c :: l' => let d := digit_value c in if d <? 16 then hex_run l' (16 * acc + d) (n + 1) else (acc, n, l)
  | [] => (acc, n, l)
  end.

Definition bin_exponent (l : list Z) : Z * list Z :=
  match l with
  | c :: l' =>
      if tolower c =? 112 then
        let '(neg, l2) := strip_sign l' in
        let '(e, n, r) := dec_run l2 0 0 in
        if 0 <? n then (if neg : bool then - e else e, r) else (0, l)
      else (0, l)
  | [] => (0, l)
  end.

Definition strtod_hex (l : list Z) : list Z * spec_float :=
  let '(neg, l2) := strip_sign (drop_spaces l) in
  match l2 with
  | 48 :: x :: r =>
      if tolower x =? 120 then
        let '(m1, n1, l3) := hex_run r 0 0 in
        let '(m, n2, l4) := match l3 with
                            | 46 :: l' => hex_run l' m1 0
                            | _ => (m1, 0, l3)
                            end in
        if 0 <? n1 + n2 then
          let '(e, r) := bin_exponent l4 in
          (r, binary_normalize 53 1024 (if neg then - m else m) (e - 4 * n2) neg)
        else strtod l
      else strtod l
  | _ => strtod l
  end.

Example strtod_hex_half : strtod_hex [45; 48; 88; 49; 112; 45; 49] = ([], S754_finite true 4503599627370496 (-53)).
Proof. vm_compute. reflexivity. Qed.

Example strtod_hex_none : strtod_hex [48; 120; 103] = ([120; 103], S754_zero false).
Proof. vm_compute. reflexivity. Qed.
