(* ===== verification/Rbtree.v ===== *)
(** * Red-black trees

    workflow/src/linux/kernel/rbtree.c and rbtree.h: the intrusive red-black
    tree of the poller, the name service and the JSON objects.

    Nodes live in a store and point to each other as in C: a pointer is the
    address of a node, or [None] for NULL; following NULL, or an address where
    there is no node, is [Oob].  [represents s t] says that the store holds
    the tree [t], parent pointers included. *)

From stdpp Require Import gmap.
From S2P Require Import Prelude.

#[local] Open Scope Z_scope.
#[local] Set Warnings "-clear-no-such-hyp".

(** ** Nodes and store *)

Inductive color : Type := RB_RED | RB_BLACK.

#[export] Instance color_eq_dec : EqDecision color.
Proof. solve_decision. Defined.

Record rb_node := mkNode {
  rb_parent : option Z;
  rb_right : option Z;
  rb_left : option Z;
  rb_color : color
}.

#[local] Arguments cbind {A B} !m k /.

(** The nodes, and [root->rb_node]. *)
Record rb_store := mkStore {
  nodes : gmap Z rb_node;
  rb_root : option Z
}.

Definition RB_ROOT : rb_store := mkStore ∅ None.

Definition load (a : Z) (s : rb_store) : comp rb_node :=
  match nodes s !! a with
  | Some n => Ret n
  | None => Oob
  end.

Definition deref (p : option Z) : comp Z :=
  match p with
  | Some a => Ret a
  | None => Oob
  end.

Definition store (a : Z) (n : rb_node) (s : rb_store) : rb_store :=
  mkStore (<[a := n]> (nodes s)) (rb_root s).

Definition set_parent (a : Z) (p : option Z) (s : rb_store) : comp rb_store :=
  let! n := load a s in Ret (store a (mkNode p (rb_right n) (rb_left n) (rb_color n)) s).

Definition set_right (a : Z) (p : option Z) (s : rb_store) : comp rb_store :=
  let! n := load a s in Ret (store a (mkNode (rb_parent n) p (rb_left n) (rb_color n)) s).

Definition set_left (a : Z) (p : option Z) (s : rb_store) : comp rb_store :=
  let! n := load a s in Ret (store a (mkNode (rb_parent n) (rb_right n) p (rb_color n)) s).

Definition set_color (a : Z) (c : color) (s : rb_store) : comp rb_store :=
  let! n := load a s in Ret (store a (mkNode (rb_parent n) (rb_right n) (rb_left n) c) s).

Definition set_root (p : option Z) (s : rb_store) : rb_store := mkStore (nodes s) p.

(** [if (p) p->rb_parent = par;] *)
Definition set_parent_opt (p : option Z) (par : option Z) (s : rb_store) : comp rb_store :=
  match p with
  | Some a => set_parent a par s
  | None => Ret s
  end.

Definition set_color_opt (p : option Z) (c : color) (s : rb_store) : comp rb_store :=
  match p with
  | Some a => set_color a c s
  | None => Ret s
  end.

(** [p && p->rb_color == RB_RED]. *)
Definition is_red (p : option Z) (s : rb_store) : comp bool :=
  match p with
  | Some a => let! n := load a s in Ret (bool_decide (rb_color n = RB_RED))
  | None => Ret false
  end.

(** ** Operations *)

(** The side of the parent, for a [struct rb_node **link]. *)
Inductive side : Type := LEFT | RIGHT.

Definition set_child (d : side) (a : Z) (p : option Z) (s : rb_store) : comp rb_store :=
  match d with
  | LEFT => set_left a p s
  | RIGHT => set_right a p s
  end.

(** [link] is the slot of a parent, or [&root->rb_node]. *)
Definition rb_link_node (node : Z) (link : option (Z * side)) (s : rb_store) : comp rb_store :=
  let s := store node (mkNode (fst <$> link) None None RB_RED) s in
  match link with
  | Some (parent, d) => set_child d parent (Some node) s
  | None => Ret (set_root (Some node) s)
  end.

(** The slot that points to [node] is set to [p]; [d] is the side that is
    tested first. *)
Definition relink (d : side) (node : Z) (parent : option Z) (p : option Z) (s : rb_store) : comp rb_store :=
  match parent with
  | Some q =>
      let! n := load q s in
      match d with
      | LEFT => if bool_decide (rb_left n = Some node) then set_left q p s else set_right q p s
      | RIGHT => if bool_decide (rb_right n = Some node) then set_right q p s else set_left q p s
      end
  | None => Ret (set_root p s)
  end.

Definition rb_rotate_left (node : Z) (s : rb_store) : comp rb_store :=
  let! n := load node s in
  let! right := deref (rb_right n) in
  let! r := load right s in
  let! s := set_right node (rb_left r) s in
  let! s := set_parent_opt (rb_left r) (Some node) s in
  let! s := set_left right (Some node) s in
  let! n := load node s in
  let! s := set_parent right (rb_parent n) s in
  let! s := relink LEFT node (rb_parent n) (Some right) s in
  set_parent node (Some right) s.

Definition rb_rotate_right (node : Z) (s : rb_store) : comp rb_store :=
  let! n := load node s in
  let! left := deref (rb_left n) in
  let! l := load left s in
  let! s := set_left node (rb_right l) s in
  let! s := set_parent_opt (rb_right l) (Some node) s in
  let! s := set_right left (Some node) s in
  let! n := load node s in
  let! s := set_parent left (rb_parent n) s in
  let! s := relink RIGHT node (rb_parent n) (Some left) s in
  set_parent node (Some left) s.

(** The loop of [rb_insert_color]. *)
Fixpoint insert_color_loop (fuel : nat) (node : Z) (s : rb_store) : comp rb_store :=
  match fuel with
  | O => NoFuel
  | S f =>
      let! n := load node s in
      let! red := is_red (rb_parent n) s in
      if negb red then Ret s
      else
        let! parent := deref (rb_parent n) in
        let! p := load parent s in
        let! gparent := deref (rb_parent p) in
        let! g := load gparent s in
        if bool_decide (rb_left g = Some parent) then
          let! red := is_red (rb_right g) s in
          if red then
            let! uncle := deref (rb_right g) in
            let! s := set_color uncle RB_BLACK s in
            let! s := set_color parent RB_BLACK s in
            let! s := set_color gparent RB_RED s in
            insert_color_loop f gparent s
          else
            let! '(s, parent, node) :=
              if bool_decide (rb_right p = Some node)
              then let! s := rb_rotate_left parent s in Ret (s, node, parent)
              else Ret (s, parent, node) in
            let! s := set_color parent RB_BLACK s in
            let! s := set_color gparent RB_RED s in
            let! s := rb_rotate_right gparent s in
            insert_color_loop f node s
        else
          let! red := is_red (rb_left g) s in
          if red then
            let! uncle := deref (rb_left g) in
            let! s := set_color uncle RB_BLACK s in
            let! s := set_color parent RB_BLACK s in
            let! s := set_color gparent RB_RED s in
            insert_color_loop f gparent s
          else
            let! '(s, parent, node) :=
              if bool_decide (rb_left p = Some node)
              then let! s := rb_rotate_right parent s in Ret (s, node, parent)
              else Ret (s, parent, node) in
            let! s := set_color parent RB_BLACK s in
            let! s := set_color gparent RB_RED s in
            let! s := rb_rotate_left gparent s in
            insert_color_loop f node s
  end.

(** Every loop that climbs or descends the tree makes at most one round per
    node. *)
Definition rounds (s : rb_store) : nat := S (size (nodes s)).

Definition rb_insert_color (node : Z) (s : rb_store) : comp rb_store :=
  let! s := insert_color_loop (rounds s) node s in
  let! root := deref (rb_root s) in
  set_color root RB_BLACK s.

(** [!p || p->rb_color == RB_BLACK]. *)
Definition is_black (p : option Z) (s : rb_store) : comp bool :=
  let! b := is_red p s in Ret (negb b).

(** The case of a node that is a left child; returns the new [node],
    [parent] and whether the loop goes on. *)
Definition erase_color_left (parent : Z) (s : rb_store) : comp (option Z * option Z * bool * rb_store) :=
  let! p := load parent s in
  let! other := deref (rb_right p) in
  let! red := is_red (Some other) s in
  let! '(s, other) :=
    if red then
      let! s := set_color other RB_BLACK s in
      let! s := set_color parent RB_RED s in
      let! s := rb_rotate_left parent s in
      let! p := load parent s in
      let! other := deref (rb_right p) in
      Ret (s, other)
    else Ret (s, other) in
  let! o := load other s in
  let! lb := is_black (rb_left o) s in
  let! rb := if lb then is_black (rb_right o) s else Ret false in
  if rb then
    let! s := set_color other RB_RED s in
    let! p := load parent s in
    Ret (Some parent, rb_parent p, true, s)
  else
    let! rb := is_black (rb_right o) s in
    let! '(s, other) :=
      if rb then
        let! s := set_color_opt (rb_left o) RB_BLACK s in
        let! s := set_color other RB_RED s in
        let! s := rb_rotate_right other s in
        let! p := load parent s in
        let! other := deref (rb_right p) in
        Ret (s, other)
      else Ret (s, other) in
    let! p := load parent s in
    let! s := set_color other (rb_color p) s in
    let! s := set_color parent RB_BLACK s in
    let! o := load other s in
    let! s := set_color_opt (rb_right o) RB_BLACK s in
    let! s := rb_rotate_left parent s in
    Ret (rb_root s, Some parent, false, s).

Definition erase_color_right (parent : Z) (s : rb_store) : comp (option Z * option Z * bool * rb_store) :=
  let! p := load parent s in
  let! other := deref (rb_left p) in
  let! red := is_red (Some other) s in
  let! '(s, other) :=
    if red then
      let! s := set_color other RB_BLACK s in
      let! s := set_color parent RB_RED s in
      let! s := rb_rotate_right parent s in
      let! p := load parent s in
      let! other := deref (rb_left p) in
      Ret (s, other)
    else Ret (s, other) in
  let! o := load other s in
  let! lb := is_black (rb_left o) s in
  let! rb := if lb then is_black (rb_right o) s else Ret false in
  if rb then
    let! s := set_color other RB_RED s in
    let! p := load parent s in
    Ret (Some parent, rb_parent p, true, s)
  else
    let! lb := is_black (rb_left o) s in
    let! '(s, other) :=
      if lb then
        let! s := set_color_opt (rb_right o) RB_BLACK s in
        let! s := set_color other RB_RED s in
        let! s := rb_rotate_left other s in
        let! p := load parent s in
        let! other := deref (rb_left p) in
        Ret (s, other)
      else Ret (s, other) in
    let! p := load parent s in
    let! s := set_color other (rb_color p) s in
    let! s := set_color parent RB_BLACK s in
    let! o := load other s in
    let! s := set_color_opt (rb_left o) RB_BLACK s in
    let! s := rb_rotate_right parent s in
    Ret (rb_root s, Some parent, false, s).

Fixpoint erase_color_loop (fuel : nat) (node parent : option Z) (s : rb_store) : comp (option Z * rb_store) :=
  match fuel with
  | O => NoFuel
  | S f =>
      let! black := is_black node s in
      if black && negb (bool_decide (node = rb_root s)) then
        let! q := deref parent in
        let! p := load q s in
        let! '(node, parent, continue, s) :=
          if bool_decide (rb_left p = node) then erase_color_left q s else erase_color_right q s in
        if continue then erase_color_loop f node parent s else Ret (node, s)
      else Ret (node, s)
  end.

Definition rb_erase_color (node parent : option Z) (s : rb_store) : comp rb_store :=
  let! '(node, s) := erase_color_loop (rounds s) node parent s in
  set_color_opt node RB_BLACK s.

(** [while ((left = node->rb_left)) node = left;] *)
Fixpoint leftmost (fuel : nat) (node : Z) (s : rb_store) : comp Z :=
  match fuel with
  | O => NoFuel
  | S f =>
      let! n := load node s in
      match rb_left n with
      | Some l => leftmost f l s
      | None => Ret node
      end
  end.

Fixpoint rightmost (fuel : nat) (node : Z) (s : rb_store) : comp Z :=
  match fuel with
  | O => NoFuel
  | S f =>
      let! n := load node s in
      match rb_right n with
      | Some r => rightmost f r s
      | None => Ret node
      end
  end.

(** [child] takes the place of [node] below [parent]. *)
Definition unlink (node : Z) (child parent : option Z) (s : rb_store) : comp rb_store :=
  let! s := set_parent_opt child parent s in
  relink LEFT node parent child s.

(** [node], which is unlinked, takes the place of [old]. *)
Definition replace_old (old node : Z) (s : rb_store) : comp rb_store :=
  let! o := load old s in
  let s := store node (mkNode (rb_parent o) (rb_right o) (rb_left o) (rb_color o)) s in
  let! s := relink LEFT old (rb_parent o) (Some node) s in
  let! left := deref (rb_left o) in
  let! s := set_parent left (Some node) s in
  set_parent_opt (rb_right o) (Some node) s.

Definition rb_erase (node : Z) (s : rb_store) : comp rb_store :=
  let! n := load node s in
  match rb_left n, rb_right n with
  | Some _, Some r =>
      let old := node in
      let! node := leftmost (rounds s) r s in
      let! n := load node s in
      let child := rb_right n in
      let! s := unlink node child (rb_parent n) s in
      let! n' := load node s in
      let parent := if bool_decide (rb_parent n' = Some old) then Some node else rb_parent n in
      let! s := replace_old old node s in
      if bool_decide (rb_color n = RB_BLACK) then rb_erase_color child parent s else Ret s
  | l, r =>
      let child := match l with None => r | Some _ => l end in
      let! s := unlink node child (rb_parent n) s in
      if bool_decide (rb_color n = RB_BLACK) then rb_erase_color child (rb_parent n) s else Ret s
  end.

Definition rb_first (s : rb_store) : comp (option Z) :=
  match rb_root s with
  | None => Ret None
  | Some n => let! a := leftmost (rounds s) n s in Ret (Some a)
  end.

Definition rb_last (s : rb_store) : comp (option Z) :=
  match rb_root s with
  | None => Ret None
  | Some n => let! a := rightmost (rounds s) n s in Ret (Some a)
  end.

(** Climbing as long as [node] is the child of its parent on side [d]. *)
Fixpoint climb (fuel : nat) (d : side) (node : Z) (s : rb_store) : comp (option Z) :=
  match fuel with
  | O => NoFuel
  | S f =>
      let! n := load node s in
      match rb_parent n with
      | None => Ret None
      | Some parent =>
          let! p := load parent s in
          if bool_decide (match d with LEFT => rb_left p | RIGHT => rb_right p end = Some node)
          then climb f d parent s else Ret (Some parent)
      end
  end.

Definition rb_next (node : Z) (s : rb_store) : comp (option Z) :=
  let! n := load node s in
  match rb_right n with
  | Some r => let! a := leftmost (rounds s) r s in Ret (Some a)
  | None => climb (rounds s) RIGHT node s
  end.

Definition rb_prev (node : Z) (s : rb_store) : comp (option Z) :=
  let! n := load node s in
  match rb_left n with
  | Some l => let! a := rightmost (rounds s) l s in Ret (Some a)
  | None => climb (rounds s) LEFT node s
  end.

Definition rb_replace_node (victim newnode : Z) (s : rb_store) : comp rb_store :=
  let! v := load victim s in
  let! s := relink LEFT victim (rb_parent v) (Some newnode) s in
  let! s := set_parent_opt (rb_left v) (Some newnode) s in
  let! s := set_parent_opt (rb_right v) (Some newnode) s in
  let! v := load victim s in
  Ret (store newnode v s).

(** ** Trees *)

Inductive tree : Type :=
| Leaf
| Node (c : color) (l : tree) (a : Z) (r : tree).

Definition root_of (t : tree) : option Z :=
  match t with
  | Leaf => None
  | Node _ _ a _ => Some a
  end.

(** The nodes of a tree, in order. *)
Fixpoint ids (t : tree) : list Z :=
  match t with
  | Leaf => []
  | Node _ l a r => ids l ++ a :: ids r
  end.

(** A position in a tree: from a subtree up to the root. *)
Inductive frame : Type :=
| FL (c : color) (a : Z) (r : tree)
| FR (c : color) (l : tree) (a : Z).

Definition fill (f : frame) (t : tree) : tree :=
  match f with
  | FL c a r => Node c t a r
  | FR c l a => Node c l a t
  end.

Fixpoint plug (t : tree) (p : list frame) : tree :=
  match p with
  | [] => t
  | f :: p => plug (fill f t) p
  end.

Definition frame_node (f : frame) : Z := match f with FL _ a _ => a | FR _ _ a => a end.

Definition parent_of (p : list frame) : option Z := frame_node <$> head p.

(** The nodes before and behind a position. *)
Definition frame_before (f : frame) : list Z := match f with FL _ _ _ => [] | FR _ l a => ids l ++ [a] end.
Definition frame_after (f : frame) : list Z := match f with FL _ a r => a :: ids r | FR _ _ _ => [] end.

Fixpoint before (p : list frame) : list Z :=
  match p with
  | [] => []
  | f :: p => before p ++ frame_before f
  end.

Fixpoint after (p : list frame) : list Z :=
  match p with
  | [] => []
  | f :: p => frame_after f ++ after p
  end.

Lemma ids_plug p : forall t, ids (plug t p) = before p ++ ids t ++ after p.
Proof.
  induction p as [|f p IH]; intros t; cbn [plug before after]; [by rewrite app_nil_r|].
  rewrite IH. destruct f; cbn; rewrite ?app_nil_r, <- ?app_assoc; cbn; by rewrite <- ?app_assoc.
Qed.

(** ** The store of a tree *)

Fixpoint rep (m : gmap Z rb_node) (par : option Z) (t : tree) : Prop :=
  match t with
  | Leaf => True
  | Node c l a r =>
      m !! a = Some (mkNode par (root_of r) (root_of l) c) /\ rep m (Some a) l /\ rep m (Some a) r
  end.

Definition frame_rep (m : gmap Z rb_node) (par : option Z) (f : frame) (hole : option Z) : Prop :=
  match f with
  | FL c a r => m !! a = Some (mkNode par (root_of r) hole c) /\ rep m (Some a) r
  | FR c l a => m !! a = Some (mkNode par hole (root_of l) c) /\ rep m (Some a) l
  end.

Fixpoint path_rep (m : gmap Z rb_node) (p : list frame) (hole : option Z) : Prop :=
  match p with
  | [] => True
  | f :: p => frame_rep m (parent_of p) f hole /\ path_rep m p (Some (frame_node f))
  end.

(** The root pointer seen from a position. *)
Definition root_via (p : list frame) (hole : option Z) : option Z :=
  match last p with
  | None => hole
  | Some f => Some (frame_node f)
  end.

Definition represents (s : rb_store) (t : tree) : Prop :=
  rep (nodes s) None t /\ rb_root s = root_of t /\ NoDup (ids t).

Lemma root_of_plug p : forall t, root_of (plug t p) = root_via p (root_of t).
Proof.
  induction p as [|f p IH]; intros t; [done|]. cbn [plug]. rewrite IH. unfold root_via. rewrite last_cons.
  destruct (last p); [done|]. by destruct f.
Qed.

Lemma rep_plug m p : forall t, rep m None (plug t p) <-> rep m (parent_of p) t /\ path_rep m p (root_of t).
Proof.
  induction p as [|f p IH]; intros t; cbn [plug path_rep]; [split; [done|by intros [? _]]|].
  rewrite IH. unfold parent_of at 2. destruct f; cbn; tauto.
Qed.

(** The same at a position: what the store holds below and above it. *)
Lemma represents_plug s t p :
  represents s (plug t p) <->
  rep (nodes s) (parent_of p) t /\ path_rep (nodes s) p (root_of t) /\ rb_root s = root_via p (root_of t) /\
    NoDup (before p ++ ids t ++ after p).
Proof. unfold represents. rewrite rep_plug, ids_plug, root_of_plug. tauto. Qed.

(** Changes elsewhere. *)
Lemma rep_other m m' t : forall par, (forall a, a ∈ ids t -> m' !! a = m !! a) -> rep m par t -> rep m' par t.
Proof.
  induction t as [|c l IHl a r IHr]; intros par Hm; cbn; [done|]. intros (H1 & H2 & H3).
  cbn [ids] in Hm. split; [rewrite Hm; [done|rewrite elem_of_app; right; by left]|].
  split; [apply IHl|apply IHr]; try done; intros b Hb; apply Hm; rewrite elem_of_app; [by left|right; by right].
Qed.

Lemma path_other m m' p : forall hole, (forall a, a ∈ before p ++ after p -> m' !! a = m !! a) ->
  path_rep m p hole -> path_rep m' p hole.
Proof.
  induction p as [|f p IH]; intros hole Hm; cbn; [done|]. intros [Hf Hp]. cbn [before after] in Hm.
  split; [|apply IH; [|done]; intros a Ha; apply Hm; set_solver].
  destruct f as [c a r|c l a]; cbn in *; destruct Hf as [H1 H2];
    (split; [rewrite Hm; [done|set_solver]|eapply rep_other; [|exact H2]; intros b Hb; apply Hm; set_solver]).
Qed.

(** ** Elementary steps *)

Lemma load_store a b n s : load a (store b n s) = if decide (a = b) then Ret n else load a s.
Proof.
  unfold load, store. cbn. destruct (decide (a = b)) as [->|Hne]; [by rewrite lookup_insert_eq|].
  by rewrite lookup_insert_ne by done.
Qed.

Lemma load_lookup a s n : nodes s !! a = Some n -> load a s = Ret n.
Proof. unfold load. by intros ->. Qed.

(** The node at a position. *)
Lemma load_at s p c l a r :
  represents s (plug (Node c l a r) p) -> load a s = Ret (mkNode (parent_of p) (root_of r) (root_of l) c).
Proof. rewrite represents_plug. cbn [rep]. intros ((Ha & _) & _). by apply load_lookup. Qed.

(** A change that keeps a position's surroundings and the node at it. *)
Lemma represents_local s s' p t t' :
  represents s (plug t p) -> root_of t' = root_of t -> rb_root s' = rb_root s ->
  (forall x, x ∈ before p ++ after p -> nodes s' !! x = nodes s !! x) -> rep (nodes s') (parent_of p) t' ->
  NoDup (ids t') -> (forall x, x ∈ ids t' -> x ∈ ids t) -> represents s' (plug t' p).
Proof.
  rewrite !represents_plug. intros (_ & Hp & Hr & Hnd) Er Es Hsame Hrep Hnd' Hsub.
  split; [done|]. split; [rewrite Er; by eapply path_other|]. split; [congruence|].
  rewrite !NoDup_app in *. set_solver.
Qed.

(** Facts about the distinct nodes of a tree. *)
Ltac nodup H := repeat first [rewrite NoDup_app in H | rewrite NoDup_cons in H]; destruct_and? H.

Lemma set_color_at s p c c' l a r :
  represents s (plug (Node c l a r) p) ->
  exists s', set_color a c' s = Ret s' /\ represents s' (plug (Node c' l a r) p).
Proof.
  intros H. unfold set_color. rewrite (load_at _ _ _ _ _ _ H). cbn [cbind]. eexists. split; [done|].
  pose proof H as H0. rewrite represents_plug in H0. cbn [ids rep] in H0. destruct H0 as ((Ha & Hl & Hr) & _ & _ & Hnd).
  nodup Hnd. eapply represents_local; [exact H|done|done| | | |done].
  - intros x Hx. apply lookup_insert_ne. set_solver.
  - cbn [rep store nodes rb_parent rb_right rb_left]. split; [apply lookup_insert_eq|].
    split; (eapply rep_other; [|eassumption]); intros x Hx; apply lookup_insert_ne; set_solver.
  - cbn [ids]. rewrite NoDup_app, NoDup_cons. set_solver.
Qed.

(** A subtree gets another parent. *)
Definition reparent (t : tree) (par : option Z) (m : gmap Z rb_node) : gmap Z rb_node :=
  match t with
  | Leaf => m
  | Node c l a r => <[a := mkNode par (root_of r) (root_of l) c]> m
  end.

Lemma reparent_at t par par' s : rep (nodes s) par t -> NoDup (ids t) ->
  set_parent_opt (root_of t) par' s = Ret (mkStore (reparent t par' (nodes s)) (rb_root s)) /\
  rep (reparent t par' (nodes s)) par' t /\
  forall x, x ∉ ids t -> reparent t par' (nodes s) !! x = nodes s !! x.
Proof.
  destruct t as [|c l a r]; cbn [root_of set_parent_opt reparent rep ids]; [intros _ _; by destruct s|].
  intros (Ha & Hl & Hr) Hnd. nodup Hnd. unfold set_parent. rewrite (load_lookup _ _ _ Ha). cbn [cbind]. split; [done|].
  split; [split; [apply lookup_insert_eq|]|].
  - split; (eapply rep_other; [|eassumption]); intros x Hx; apply lookup_insert_ne; set_solver.
  - intros x Hx. apply lookup_insert_ne. set_solver.
Qed.

(** The slot above a position points elsewhere. *)
Definition hole_update (p : list frame) (new : option Z) (m : gmap Z rb_node) : gmap Z rb_node :=
  match p with
  | [] => m
  | FL c a r :: p => <[a := mkNode (parent_of p) (root_of r) new c]> m
  | FR c l a :: p => <[a := mkNode (parent_of p) new (root_of l) c]> m
  end.

Definition root_update (p : list frame) (new root : option Z) : option Z :=
  match p with
  | [] => new
  | _ => root
  end.

Lemma root_of_in t a : root_of t = Some a -> a ∈ ids t.
Proof. destruct t; cbn; [done|]. intros [= ->]. rewrite elem_of_app. right. by left. Qed.

Lemma hole_update_at p old new m : path_rep m p old -> NoDup (before p ++ after p) ->
  path_rep (hole_update p new m) p new /\ forall x, x ∉ before p ++ after p -> hole_update p new m !! x = m !! x.
Proof.
  destruct p as [|f p]; [done|]. cbn [path_rep before after]. intros [Hf Hp] Hnd.
  destruct f as [c a r|c l a]; cbn [frame_rep frame_before frame_after frame_node hole_update] in *;
    destruct Hf as [Ha Hsub]; nodup Hnd;
    (split; [split; [split; [apply lookup_insert_eq|]|]|intros x Hx; apply lookup_insert_ne; set_solver]).
  all: first [eapply rep_other; [|eassumption]|eapply path_other; [|eassumption]];
    intros x Hx; apply lookup_insert_ne; set_solver.
Qed.

Lemma relink_at d p old new s :
  path_rep (nodes s) p (Some old) -> NoDup (before p ++ after p) -> (old ∉ before p ++ after p) ->
  relink d old (parent_of p) new s = Ret (mkStore (hole_update p new (nodes s)) (root_update p new (rb_root s))) /\
  path_rep (hole_update p new (nodes s)) p new /\
  forall x, x ∉ before p ++ after p -> hole_update p new (nodes s) !! x = nodes s !! x.
Proof.
  intros Hp Hnd Hold. split; [|by eapply hole_update_at]. destruct p as [|f p]; [done|].
  cbn [path_rep before after] in *. destruct Hp as [Hf Hp].
  destruct f as [c a r|c l a]; cbn [frame_rep frame_before frame_after parent_of head fmap option_fmap option_map frame_node hole_update root_update relink] in *;
    destruct Hf as [Ha Hsub]; rewrite (load_lookup _ _ _ Ha); cbn [cbind rb_left rb_right].
  - assert (root_of r <> Some old) as Hne by (intros Hr%root_of_in; set_solver).
    rewrite (bool_decide_true (Some old = Some old)), (bool_decide_false (root_of r = _)) by done.
    unfold set_left. rewrite (load_lookup _ _ _ Ha). cbn [cbind rb_parent rb_right rb_color]. by destruct d.
  - assert (root_of l <> Some old) as Hne by (intros Hr%root_of_in; set_solver).
    rewrite (bool_decide_true (Some old = Some old)), (bool_decide_false (root_of l = _)) by done.
    unfold set_right. rewrite (load_lookup _ _ _ Ha). cbn [cbind rb_parent rb_left rb_color]. by destruct d.
Qed.

Lemma root_via_update p new root hole : root = root_via p hole -> root_update p new root = root_via p new.
Proof. destruct p as [|f p]; [done|]. intros ->. unfold root_via. rewrite last_cons. by destruct (last p). Qed.

(** The distinct nodes at a position and around it. *)
Definition around (p : list frame) : list Z := before p ++ after p.

Lemma nodup_around p t : NoDup (before p ++ ids t ++ after p) <->
  NoDup (around p) /\ NoDup (ids t) /\ forall x, x ∈ around p -> x ∉ ids t.
Proof. unfold around. rewrite !NoDup_app. set_solver. Qed.

(** ** Rotations *)

(** The last steps of a rotation: [b] takes the place of [a], which becomes
    its child. *)
Lemma rotate_finish d s s4 p T a b na :
  path_rep (nodes s) p (Some a) -> rb_root s = root_via p (Some a) -> NoDup (around p) ->
  rb_root s4 = rb_root s -> (forall x, x ∈ around p -> nodes s4 !! x = nodes s !! x) -> nodes s4 !! a = Some na ->
  root_of T = Some b -> NoDup (ids T) -> a ∈ ids T -> (forall x, x ∈ around p -> x ∉ ids T) ->
  rep (<[a := mkNode (Some b) (rb_right na) (rb_left na) (rb_color na)]> (nodes s4)) (parent_of p) T ->
  exists s', (let! s := relink d a (parent_of p) (Some b) s4 in set_parent a (Some b) s) = Ret s' /\
    represents s' (plug T p).
Proof.
  intros Hp Hr Hnd Er Hsame Ha HT HndT HaT Hout Hrep. assert (a ∉ around p) as Hoa by (intros Hx; by apply (Hout a)).
  destruct (relink_at d p a (Some b) s4) as (-> & P5 & R5); [by eapply path_other|done|done|]. fold (around p) in R5.
  cbn [cbind]. unfold set_parent. rewrite (load_lookup a (mkStore _ _) na) by (cbn; by rewrite R5). cbn [cbind].
  eexists. split; [done|]. rewrite represents_plug, nodup_around. cbn [store nodes rb_root]. split; [|split; [|split; [|done]]].
  - eapply rep_other; [|exact Hrep]. intros x Hx. destruct (decide (x = a)) as [->|Hne]; [by rewrite !lookup_insert_eq|].
    rewrite !lookup_insert_ne by done. apply R5. intros Hx2. by apply (Hout x).
  - rewrite HT. eapply path_other; [|exact P5]. intros x Hx. apply lookup_insert_ne. intros <-. done.
  - rewrite HT, Er. by eapply root_via_update.
Qed.

(** The first steps: the subtree in the middle changes sides. *)
Lemma rotate_start s a b na nb m :
  nodes s !! a = Some na -> nodes s !! b = Some nb -> a <> b -> rep (nodes s) (Some b) m -> NoDup (ids m) ->
  a ∉ ids m -> b ∉ ids m -> forall na',
  let s1 := store a na' s in
  exists s2, set_parent_opt (root_of m) (Some a) s1 = Ret s2 /\ rb_root s2 = rb_root s /\ rep (nodes s2) (Some a) m /\
    nodes s2 !! a = Some na' /\ nodes s2 !! b = Some nb /\
    forall x, x <> a -> x ∉ ids m -> nodes s2 !! x = nodes s !! x.
Proof.
  intros Ha Hb Hab Hm Hnd Ham Hbm na' s1.
  assert (forall x, x <> a -> nodes s1 !! x = nodes s !! x) as E1 by (intros; by apply lookup_insert_ne).
  destruct (reparent_at m (Some b) (Some a) s1) as (-> & R1 & R2);
    [eapply rep_other; [|exact Hm]; intros; apply E1; congruence|done|].
  eexists. split; [done|]. split; [done|]. split; [exact R1|]. cbn [nodes].
  split; [rewrite R2 by done; apply lookup_insert_eq|]. split; [by rewrite R2, E1 by done|].
  intros x Hx Hxm. by rewrite R2, E1.
Qed.

Lemma rotate_left_at s p c l a cr rl b rr :
  represents s (plug (Node c l a (Node cr rl b rr)) p) ->
  exists s', rb_rotate_left a s = Ret s' /\ represents s' (plug (Node cr (Node c l a rl) b rr) p).
Proof.
  rewrite represents_plug, nodup_around. cbn [ids rep root_of].
  intros ((Ha & Hl & Hb & Hrl & Hrr) & Hp & Hroot & Hndp & Hndt & Hout). nodup Hndt. assert (a <> b) as Hab by set_solver.
  assert (forall x, x ∈ around p -> x <> a /\ x <> b /\ (x ∉ ids l) /\ (x ∉ ids rl) /\ (x ∉ ids rr)) as Hout2
    by (intros x Hx; specialize (Hout x Hx); set_solver). clear Hout.
  unfold rb_rotate_left. rewrite (load_lookup _ _ _ Ha). cbn [cbind rb_right deref].
  rewrite (load_lookup _ _ _ Hb). cbn [cbind rb_left]. unfold set_right. rewrite (load_lookup _ _ _ Ha). cbn [cbind rb_parent rb_left rb_color].
  destruct (rotate_start s a b _ _ rl Ha Hb Hab Hrl) with (na' := mkNode (parent_of p) (root_of rl) (root_of l) c)
    as (s2 & -> & E2 & R2 & A2 & B2 & O2); [done|set_solver|set_solver|].
  cbn [cbind]. unfold set_left. rewrite (load_lookup _ _ _ B2). cbn [cbind rb_parent rb_right rb_color].
  rewrite load_store, decide_False, (load_lookup _ _ _ A2) by done. cbn [cbind rb_parent]. unfold set_parent at 1.
  rewrite load_store, decide_True by done. cbn [cbind rb_right rb_left rb_color].
  match goal with |- exists s', (let! s := relink _ _ _ _ ?x in _) = _ /\ _ => set (s4 := x) end.
  assert (forall x, x <> b -> nodes s4 !! x = nodes s2 !! x) as E4.
  { intros x Hx. unfold s4, store. cbn [nodes]. by rewrite !lookup_insert_ne. }
  apply (rotate_finish LEFT s) with (na := mkNode (parent_of p) (root_of rl) (root_of l) c); try done.
  - intros x Hx. destruct (Hout2 x Hx) as (? & ? & ? & ? & ?). by rewrite E4, O2.
  - by rewrite E4.
  - cbn [ids]. repeat first [rewrite NoDup_app | rewrite NoDup_cons]. set_solver.
  - set_solver.
  - intros x Hx. specialize (Hout2 x Hx). set_solver.
  - cbn [rep root_of rb_right rb_left rb_color]. split; [rewrite lookup_insert_ne by done; apply lookup_insert_eq|].
    split; [split; [apply lookup_insert_eq|split]|].
    + eapply rep_other; [|exact Hl]. intros x Hx. rewrite lookup_insert_ne, E4, O2 by set_solver. done.
    + eapply rep_other; [|exact R2]. intros x Hx. rewrite lookup_insert_ne, E4 by set_solver. done.
    + eapply rep_other; [|exact Hrr]. intros x Hx. rewrite lookup_insert_ne, E4, O2 by set_solver. done.
Qed.

Lemma rotate_right_at s p c cl ll b lr a r :
  represents s (plug (Node c (Node cl ll b lr) a r) p) ->
  exists s', rb_rotate_right a s = Ret s' /\ represents s' (plug (Node cl ll b (Node c lr a r)) p).
Proof.
  rewrite represents_plug, nodup_around. cbn [ids rep root_of].
  intros ((Ha & (Hb & Hll & Hlr) & Hr) & Hp & Hroot & Hndp & Hndt & Hout). nodup Hndt. assert (a <> b) as Hab by set_solver.
  assert (forall x, x ∈ around p -> x <> a /\ x <> b /\ (x ∉ ids ll) /\ (x ∉ ids lr) /\ (x ∉ ids r)) as Hout2
    by (intros x Hx; specialize (Hout x Hx); set_solver). clear Hout.
  unfold rb_rotate_right. rewrite (load_lookup _ _ _ Ha). cbn [cbind rb_left deref].
  rewrite (load_lookup _ _ _ Hb). cbn [cbind rb_right]. unfold set_left. rewrite (load_lookup _ _ _ Ha). cbn [cbind rb_parent rb_right rb_color].
  destruct (rotate_start s a b _ _ lr Ha Hb Hab Hlr) with (na' := mkNode (parent_of p) (root_of r) (root_of lr) c)
    as (s2 & -> & E2 & R2 & A2 & B2 & O2); [done|set_solver|set_solver|].
  cbn [cbind]. unfold set_right. rewrite (load_lookup _ _ _ B2). cbn [cbind rb_parent rb_left rb_color].
  rewrite load_store, decide_False, (load_lookup _ _ _ A2) by done. cbn [cbind rb_parent]. unfold set_parent at 1.
  rewrite load_store, decide_True by done. cbn [cbind rb_right rb_left rb_color].
  match goal with |- exists s', (let! s := relink _ _ _ _ ?x in _) = _ /\ _ => set (s4 := x) end.
  assert (forall x, x <> b -> nodes s4 !! x = nodes s2 !! x) as E4.
  { intros x Hx. unfold s4, store. cbn [nodes]. by rewrite !lookup_insert_ne. }
  apply (rotate_finish RIGHT s) with (na := mkNode (parent_of p) (root_of r) (root_of lr) c); try done.
  - intros x Hx. destruct (Hout2 x Hx) as (? & ? & ? & ? & ?). by rewrite E4, O2.
  - by rewrite E4.
  - cbn [ids]. repeat first [rewrite NoDup_app | rewrite NoDup_cons]. set_solver.
  - set_solver.
  - intros x Hx. specialize (Hout2 x Hx). set_solver.
  - cbn [rep root_of rb_right rb_left rb_color]. split; [rewrite lookup_insert_ne by done; apply lookup_insert_eq|].
    split; [|split; [apply lookup_insert_eq|split]].
    + eapply rep_other; [|exact Hll]. intros x Hx. rewrite lookup_insert_ne, E4, O2 by set_solver. done.
    + eapply rep_other; [|exact R2]. intros x Hx. rewrite lookup_insert_ne, E4 by set_solver. done.
    + eapply rep_other; [|exact Hr]. intros x Hx. rewrite lookup_insert_ne, E4, O2 by set_solver. done.
Qed.

(** ** The balance invariant *)

(** [rbt t c n]: a red node has black children, and every way down passes
    [n] black nodes; [c] is the colour of the root, NULL counts as black. *)
Inductive rbt : tree -> color -> nat -> Prop :=
| rbt_leaf : rbt Leaf RB_BLACK 0
| rbt_red l a r n : rbt l RB_BLACK n -> rbt r RB_BLACK n -> rbt (Node RB_RED l a r) RB_RED n
| rbt_black l a r cl cr n : rbt l cl n -> rbt r cr n -> rbt (Node RB_BLACK l a r) RB_BLACK (S n).

(** [fits p c n]: a tree of colour [c] and black height [n] can stand at the
    position [p]. *)
Inductive fits : list frame -> color -> nat -> Prop :=
| fits_root n : fits [] RB_BLACK n
| fits_red_left a r p n : rbt r RB_BLACK n -> fits p RB_RED n -> fits (FL RB_RED a r :: p) RB_BLACK n
| fits_red_right l a p n : rbt l RB_BLACK n -> fits p RB_RED n -> fits (FR RB_RED l a :: p) RB_BLACK n
| fits_black_left a r p c cr n : rbt r cr n -> fits p RB_BLACK (S n) -> fits (FL RB_BLACK a r :: p) c n
| fits_black_right l a p c cl n : rbt l cl n -> fits p RB_BLACK (S n) -> fits (FR RB_BLACK l a :: p) c n.

Create HintDb rb_db.
#[export] Hint Constructors rbt fits : rb_db.

(** A balanced tree: its root is black. *)
Definition balanced (t : tree) : Prop := exists n, rbt t RB_BLACK n.

Lemma fits_relax p n : fits p RB_RED n -> fits p RB_BLACK n.
Proof. inversion 1; eauto with rb_db. Qed.

Lemma fits_plug p : forall t c n, rbt t c n -> fits p c n -> balanced (plug t p).
Proof.
  induction p as [|f p IH]; intros t c n Ht Hp; cbn [plug]; inversion Hp; subst; [by eexists|..];
    (eapply IH; [|eassumption]); cbn [fill]; eauto with rb_db.
Qed.

Lemma plug_fits p : forall t, balanced (plug t p) -> exists c n, rbt t c n /\ fits p c n.
Proof.
  induction p as [|f p IH]; intros t H; cbn [plug] in H; [destruct H as [n H]; eauto with rb_db|].
  apply IH in H as (c & n & Ht & Hp). destruct f; cbn [fill] in Ht; inversion Ht; subst; eauto 8 with rb_db.
Qed.

(** Fuel: a way up is no longer than the number of nodes. *)
Lemma path_around p : (length p <= length (around p))%nat.
Proof.
  unfold around. induction p as [|f p IH]; [done|]. cbn [before after]. rewrite !length_app in *.
  destruct f; cbn [frame_before frame_after length]; rewrite ?length_app; cbn [length]; lia.
Qed.

Lemma rep_dom m t : forall par a, rep m par t -> a ∈ ids t -> is_Some (m !! a).
Proof.
  induction t as [|c l IHl b r IHr]; intros par a; cbn [rep ids]; [set_solver|].
  intros (Hb & Hl & Hr). rewrite elem_of_app, elem_of_cons. intros [?|[->|?]]; eauto.
Qed.

Lemma represents_rounds s t : represents s t -> (length (ids t) < rounds s)%nat.
Proof.
  intros (Hrep & _ & Hnd). unfold rounds. rewrite <- size_dom.
  rewrite <- (size_list_to_set (C := gset Z)) by done.
  enough (size (list_to_set (C := gset Z) (ids t)) <= size (dom (nodes s)))%nat by lia.
  apply subseteq_size. intros a Ha%elem_of_list_to_set. apply elem_of_dom. by eapply rep_dom.
Qed.

Lemma path_rounds s t p : represents s (plug t p) -> (length p < rounds s)%nat.
Proof.
  intros H. apply represents_rounds in H. rewrite ids_plug, !length_app in H.
  pose proof (path_around p) as H1. unfold around in H1. rewrite length_app in H1. lia.
Qed.

(** ** Running the program

    The colour of a subtree as the program sees it. *)
Definition color_of (t : tree) : color :=
  match t with
  | Leaf => RB_BLACK
  | Node c _ _ _ => c
  end.

Lemma represents_nodup s t p : represents s (plug t p) -> NoDup (ids t).
Proof. rewrite represents_plug. intros (_ & _ & _ & Hnd). by apply nodup_around in Hnd as (_ & ? & _). Qed.

Lemma is_red_some a s n : load a s = Ret n -> is_red (Some a) s = Ret (bool_decide (rb_color n = RB_RED)).
Proof. intros H. cbn [is_red]. by rewrite H. Qed.

Lemma rbt_color t c n : rbt t c n -> color_of t = c.
Proof. by inversion 1. Qed.

Lemma is_red_at s p t : represents s (plug t p) -> is_red (root_of t) s = Ret (bool_decide (color_of t = RB_RED)).
Proof. intros H. destruct t; [done|]. cbn [root_of is_red color_of]. by rewrite (load_at _ p _ _ _ _ H). Qed.

(** Running the program on a store that represents a tree.  [rb_pos T p x]
    is the position of the node or subtree [x] in [plug T p]; [rb_step] does
    one access, recolouring or rotation, [rb_test] decides one test. *)
Ltac rb_pos T p x :=
  lazymatch T with
  | x => p
  | Node _ _ x _ => p
  | Node ?c ?l ?a ?r =>
      match constr:(tt) with
      | _ => rb_pos l constr:(FL c a r :: p) x
      | _ => rb_pos r constr:(FR c l a :: p) x
      end
  end.

Ltac rb_simpl :=
  cbn [cbind negb andb is_black set_color_opt rb_parent rb_left rb_right rb_color parent_of head fmap option_fmap option_map frame_node root_of color_of deref].

Ltac rb_load H p := rewrite (load_at _ p _ _ _ _ H); rb_simpl.

Ltac rb_take H E s' H' := rewrite E; rb_simpl; clear E H; rename H' into H; cbn [plug fill] in H.

(** What is computed next. *)
Ltac rb_head e :=
  lazymatch e with
  | cbind ?m _ => rb_head m
  | match ?b with true => _ | false => _ end => rb_head b
  | negb ?b => rb_head b
  | andb ?b _ => rb_head b
  | _ => e
  end.

Ltac rb_next_is k :=
  match goal with
  | |- yields ?m _ => let e := rb_head m in k e
  | |- context [@eq (comp _) ?m _] => let e := rb_head m in k e
  end.

Ltac rb_step H :=
  let s' := fresh "s" in let E := fresh "E" in let H' := fresh "H" in
  lazymatch type of H with
  | represents ?s (plug ?T ?p) =>
      rb_next_is ltac:(fun e =>
      lazymatch e with
      | load ?x s => let q := rb_pos T p x in rb_load H q
      | set_color ?x ?c s =>
          let q := rb_pos T p x in destruct (set_color_at s q _ c _ _ _ H) as (s' & E & H'); rb_take H E s' H'
      | rb_rotate_left ?x s =>
          let q := rb_pos T p x in destruct (rotate_left_at s q _ _ _ _ _ _ _ H) as (s' & E & H'); rb_take H E s' H'
      | rb_rotate_right ?x s =>
          let q := rb_pos T p x in destruct (rotate_right_at s q _ _ _ _ _ _ _ H) as (s' & E & H'); rb_take H E s' H'
      | is_black _ _ => unfold is_black
      | is_red (root_of ?t) s => let q := rb_pos T p t in rewrite (is_red_at s q t H); rb_simpl
      | is_red (Some ?x) s =>
          let q := rb_pos T p x in rewrite (is_red_some x s _ (load_at s q _ _ _ _ H)); rb_simpl
      end)
  end.

(** Distinct nodes of the tree are different. *)
Ltac rb_neq H :=
  let Hnd := fresh in let E := fresh in
  intros E; pose proof (represents_nodup _ _ _ H) as Hnd; cbn [ids] in Hnd;
  first [apply root_of_in in E | injection E as E]; nodup Hnd; set_solver.

Ltac rb_test H :=
  rb_next_is ltac:(fun e =>
  lazymatch e with
  | bool_decide (?x = ?x) => rewrite (bool_decide_true (x = x)) by done
  | bool_decide (color_of ?t = ?c) => match goal with Ht : rbt t _ _ |- _ => rewrite (rbt_color _ _ _ Ht) end
  | bool_decide (RB_BLACK = RB_RED) => rewrite (bool_decide_false (RB_BLACK = RB_RED)) by done
  | bool_decide (RB_RED = RB_BLACK) => rewrite (bool_decide_false (RB_RED = RB_BLACK)) by done
  | bool_decide (?x = Some ?y) => rewrite (bool_decide_false (x = Some y)) by (rb_neq H)
  end); rb_simpl.

Ltac rb_run H := repeat (rb_simpl; first [rb_step H | rb_test H]).

Lemma ids_around t t' p : ids t = ids t' -> ids (plug t p) = ids (plug t' p).
Proof. intros E. by rewrite !ids_plug, E. Qed.

(** ** Insertion *)

(** The loop stops below a black parent. *)
Lemma insert_color_stop fuel s a t p : (0 < fuel)%nat -> represents s (plug t p) -> root_of t = Some a ->
  (forall f p', p = f :: p' -> match f with FL c _ _ => c | FR c _ _ => c end = RB_BLACK) ->
  insert_color_loop fuel a s = Ret s.
Proof.
  intros Hf H Ha Hp. destruct fuel; [lia|]. destruct t as [|c l b r]; [done|]. cbn in Ha. injection Ha as ->.
  cbn [insert_color_loop]. rb_load H p. destruct p as [|f p]; [done|]. specialize (Hp f p eq_refl). cbn [plug] in H.
  assert (is_red (Some (frame_node f)) s = Ret false) as E.
  { destruct f; cbn in Hp; subst; by apply (is_red_at s p _ H). }
  cbn [parent_of head fmap option_fmap option_map]. by rewrite E.
Qed.

(** A tree with the same nodes in the same order that is balanced but for the
    colour of its root. *)
Definition recoloured (t : tree) (s' : rb_store) : Prop :=
  exists t' c m, represents s' t' /\ ids t' = ids t /\ rbt t' c m.

Lemma recoloured_ids t t' s : ids t = ids t' -> recoloured t s -> recoloured t' s.
Proof. intros E. unfold recoloured. by rewrite E. Qed.

Lemma insert_stop_left fuel s c l a r b u cu p n t :
  (0 < fuel)%nat -> represents s (plug (Node RB_BLACK (Node c l a r) b u) p) -> rbt (Node c l a r) c n -> rbt u cu n ->
  fits p RB_BLACK (S n) -> ids (plug (Node RB_BLACK (Node c l a r) b u) p) = ids t ->
  yields (insert_color_loop fuel a s) (recoloured t).
Proof.
  intros Hf H Ht Hu Hp Et. destruct (fits_plug p (Node RB_BLACK (Node c l a r) b u) RB_BLACK (S n)) as [m Hm]; [eauto with rb_db..|].
  rewrite (insert_color_stop fuel s a (Node c l a r) (FL RB_BLACK b u :: p)); [|done|done|done|by intros ? ? [= <- <-]].
  apply yields_Ret. do 3 eexists. split; [exact H|]. by split; [|exact Hm].
Qed.

Lemma insert_stop_right fuel s c l a r b u cu p n t :
  (0 < fuel)%nat -> represents s (plug (Node RB_BLACK u b (Node c l a r)) p) -> rbt (Node c l a r) c n -> rbt u cu n ->
  fits p RB_BLACK (S n) -> ids (plug (Node RB_BLACK u b (Node c l a r)) p) = ids t ->
  yields (insert_color_loop fuel a s) (recoloured t).
Proof.
  intros Hf H Ht Hu Hp Et. destruct (fits_plug p (Node RB_BLACK u b (Node c l a r)) RB_BLACK (S n)) as [m Hm]; [eauto with rb_db..|].
  rewrite (insert_color_stop fuel s a (Node c l a r) (FR RB_BLACK u b :: p)); [|done|done|done|by intros ? ? [= <- <-]].
  apply yields_Ret. do 3 eexists. split; [exact H|]. by split; [|exact Hm].
Qed.

Ltac same_ids := cbn [plug fill]; rewrite !ids_plug; do 2 f_equal; cbn [ids]; repeat (rewrite <- ?app_assoc; cbn [app]); reflexivity.

Lemma insert_color_loop_at fuel : forall p s l a r n,
  (length p < fuel)%nat -> represents s (plug (Node RB_RED l a r) p) ->
  rbt l RB_BLACK n -> rbt r RB_BLACK n -> fits p RB_BLACK n ->
  yields (insert_color_loop fuel a s) (recoloured (plug (Node RB_RED l a r) p)).
Proof.
  induction fuel as [|f IH]; intros p s l a r n Hf H Hl Hr Hp; [lia|].
  inversion Hp as [n'|pa pr p2 n' Hpr Hp2|pl pa p2 n' Hpl Hp2|g u p2 c cu n' Hu Hp2|u g p2 c cu n' Hu Hp2]; subst.
  - rewrite (insert_color_stop (S f) s a _ [] (Nat.lt_0_succ _) H) by done.
    apply yields_Ret. do 3 eexists. split; [exact H|]. split; [done|]. by apply rbt_red.
  - inversion Hp2 as [| | |g u p3 c cu n' Hu Hp3|u g p3 c cu n' Hu Hp3]; subst; cbn [length plug fill] in *;
      (destruct cu; [inversion Hu; subst|]); cbn [insert_color_loop]; rb_run H.
    + eapply yields_mono; [eapply IH; [|exact H|..]; eauto with rb_db; lia|]. intros s'. apply recoloured_ids. same_ids.
    + eapply insert_stop_left; [|exact H|..]; eauto with rb_db; [lia|same_ids].
    + eapply yields_mono; [eapply IH; [|exact H|..]; eauto with rb_db; lia|]. intros s'. apply recoloured_ids. same_ids.
    + eapply insert_stop_right; [|exact H|..]; eauto with rb_db; [lia|same_ids].
  - inversion Hp2 as [| | |g u p3 c cu n' Hu Hp3|u g p3 c cu n' Hu Hp3]; subst; cbn [length plug fill] in *;
      (destruct cu; [inversion Hu; subst|]); cbn [insert_color_loop]; rb_run H.
    + eapply yields_mono; [eapply IH; [|exact H|..]; eauto with rb_db; lia|]. intros s'. apply recoloured_ids. same_ids.
    + eapply insert_stop_left; [|exact H|..]; eauto with rb_db; [lia|same_ids].
    + eapply yields_mono; [eapply IH; [|exact H|..]; eauto with rb_db; lia|]. intros s'. apply recoloured_ids. same_ids.
    + eapply insert_stop_right; [|exact H|..]; eauto with rb_db; [lia|same_ids].
  - eapply (insert_stop_left (S f) s _ _ _ _ g u); [lia|exact H|..]; eauto with rb_db.
  - eapply (insert_stop_right (S f) s _ _ _ _ g u); [lia|exact H|..]; eauto with rb_db.
Qed.

Lemma insert_color_at s p l a r n :
  represents s (plug (Node RB_RED l a r) p) -> rbt l RB_BLACK n -> rbt r RB_BLACK n -> fits p RB_BLACK n ->
  yields (rb_insert_color a s)
    (fun s' => exists t', represents s' t' /\ balanced t' /\ ids t' = ids (plug (Node RB_RED l a r) p)).
Proof.
  intros H Hl Hr Hp. pose proof (path_rounds s _ _ H) as Hf. unfold rb_insert_color.
  destruct (insert_color_loop_at _ p s l a r n Hf H Hl Hr Hp) as (s1 & -> & t & c & m & H1 & Ht & Hb).
  cbn [cbind]. destruct t as [|c' l' b r'].
  { rewrite ids_plug in Ht. cbn [ids] in Ht. by destruct (before p), (ids l). }
  assert (rb_root s1 = Some b) as -> by (by destruct H1 as (_ & ? & _)). cbn [deref cbind].
  destruct (set_color_at s1 [] c' RB_BLACK l' b r' H1) as (s2 & -> & H2). apply yields_Ret.
  exists (Node RB_BLACK l' b r'). split; [done|]. split; [|done].
  inversion Hb; subst; eexists; eauto with rb_db.
Qed.

(** Where a node is linked: the slot of a position. *)
Definition link_of (p : list frame) : option (Z * side) :=
  match p with
  | [] => None
  | FL _ a _ :: _ => Some (a, LEFT)
  | FR _ _ a :: _ => Some (a, RIGHT)
  end.

Lemma link_child p x s hole : path_rep (nodes s) p hole ->
  match link_of p with
  | Some (parent, d) => set_child d parent (Some x) s
  | None => Ret (set_root (Some x) s)
  end = Ret (mkStore (hole_update p (Some x) (nodes s)) (root_update p (Some x) (rb_root s))).
Proof.
  destruct p as [|[c a r|c l a] p]; [done|..]; cbn [path_rep frame_rep]; intros [[Ha _] _];
    cbn [link_of set_child]; unfold set_left, set_right; by rewrite (load_lookup _ _ _ Ha).
Qed.

Lemma link_at s p x : represents s (plug Leaf p) -> x ∉ around p ->
  yields (rb_link_node x (link_of p) s) (fun s' => represents s' (plug (Node RB_RED Leaf x Leaf) p)).
Proof.
  rewrite represents_plug, nodup_around. intros (_ & Hp & Hr & Hnd & _) Hx. cbn [root_of] in *. unfold rb_link_node.
  assert (fst <$> link_of p = parent_of p) as -> by (destruct p as [|[] p]; done).
  set (s1 := store _ _ _).
  assert (path_rep (nodes s1) p None) as Hp1.
  { eapply path_other; [|exact Hp]. intros y Hy. apply lookup_insert_ne. intros <-. done. }
  rewrite (link_child p x s1 None Hp1). apply yields_Ret. rewrite represents_plug, nodup_around. cbn [nodes rb_root rep root_of ids].
  destruct (hole_update_at p None (Some x) (nodes s1) Hp1 Hnd) as [H1 H2].
  split; [split; [rewrite H2 by done; apply lookup_insert_eq|done]|].
  split; [done|]. split; [by eapply root_via_update|]. split; [done|]. split; [apply NoDup_singleton|set_solver].
Qed.

(** ** Rebalancing after a removal *)

(** The colour the program gives to the last node. *)
Definition blacken (t : tree) : tree :=
  match t with
  | Leaf => Leaf
  | Node _ l a r => Node RB_BLACK l a r
  end.

Lemma ids_blacken t : ids (blacken t) = ids t.
Proof. by destruct t. Qed.

(** [lacks t n]: one black node is missing in [t], or its root can be made
    that node. *)
Definition lacks (t : tree) (n : nat) : Prop :=
  (rbt t RB_BLACK n) \/ (color_of t = RB_RED /\ rbt (blacken t) RB_BLACK (S n)).

(** What one round leaves: a smaller problem, or a balanced tree. *)
Definition erase_round (k : nat) (il : list Z) (r : option Z * option Z * bool * rb_store) : Prop :=
  let '(node, parent, continue, s) := r in
  if continue then
    exists t p n, represents s (plug t p) /\ root_of t = node /\ parent_of p = parent /\ lacks t n /\
      fits p RB_BLACK (S n) /\ ids (plug t p) = il /\ ((length p <= k)%nat \/ color_of t = RB_RED)
  else exists t, represents s t /\ root_of t = node /\ balanced t /\ ids t = il.

Lemma erase_round_go t' p' n' k il s node parent :
  represents s (plug t' p') -> root_of t' = node -> parent_of p' = parent -> lacks t' n' ->
  fits p' RB_BLACK (S n') -> ids (plug t' p') = il -> (length p' <= k)%nat \/ color_of t' = RB_RED ->
  yields (Ret (node, parent, true, s)) (erase_round k il).
Proof. intros. apply yields_Ret. cbn. eauto 10. Qed.

Lemma erase_round_done t' p' c n' k il s parent :
  represents s (plug t' p') -> rbt t' c n' -> fits p' c n' -> ids (plug t' p') = il ->
  yields (Ret (rb_root s, parent, false, s)) (erase_round k il).
Proof.
  intros H Ht Hp Hi. apply yields_Ret. cbn. exists (plug t' p'). split; [done|].
  split; [by destruct H as (_ & -> & _)|]. split; [by eapply fits_plug|done].
Qed.

(** Runs one round to its end, on every colour of the nephews; [rb_shape] is
    the shape of the subtrees a colour stands for. *)
Ltac rb_shape :=
  repeat match goal with
  | H : rbt _ RB_RED _ |- _ => inversion H; clear H; subst
  end.

Ltac rb_round_end H :=
  lazymatch goal with
  | |- represents _ _ => exact H
  | |- lacks _ _ => unfold lacks; cbn [blacken color_of]; eauto 6 with rb_db
  | |- fits _ _ _ => eauto using fits_relax with rb_db
  | |- ids _ = _ => same_ids
  | |- _ \/ _ => cbn [color_of length]; auto
  | |- _ => reflexivity
  end.

Ltac rb_round H p :=
  rb_run H;
  match goal with
  | |- yields (Ret (_, _, false, _)) _ =>
      eapply erase_round_done; [exact H|eauto 8 with rb_db|eauto 8 with rb_db|same_ids]
  | |- yields (Ret (_, _, true, _)) _ =>
      first [solve [eapply (erase_round_go _ p); rb_round_end H]
            |solve [eapply (erase_round_go _ (FL RB_BLACK _ _ :: p)); rb_round_end H]
            |solve [eapply (erase_round_go _ (FR RB_BLACK _ _ :: p)); rb_round_end H]]
  end.

Lemma erase_left_at s t q w cq p n :
  represents s (plug (Node cq t q w) p) -> rbt t RB_BLACK n -> fits (FL cq q w :: p) RB_BLACK (S n) ->
  yields (erase_color_left q s) (erase_round (length p) (ids (plug (Node cq t q w) p))).
Proof.
  intros H Ht Hp. unfold erase_color_left. inversion Hp as [|? ? ? ? Hw Hp2| |? ? ? ? ? ? Hw Hp2|]; subst.
  - inversion Hw as [| |wl b wr c1 c2 ? H1 H2]; subst. destruct c1, c2; rb_shape; rb_round H p.
  - inversion Hw as [|wl b wr ? H1 H2|wl b wr c1 c2 ? H1 H2]; subst.
    + inversion H1 as [| |xl y xr c1 c2 ? H3 H4]; subst. destruct c1, c2; rb_shape. all: rb_round H p.
    + destruct c1, c2; rb_shape; rb_round H p.
Qed.

Lemma erase_right_at s t q w cq p n :
  represents s (plug (Node cq w q t) p) -> rbt t RB_BLACK n -> fits (FR cq w q :: p) RB_BLACK (S n) ->
  yields (erase_color_right q s) (erase_round (length p) (ids (plug (Node cq w q t) p))).
Proof.
  intros H Ht Hp. unfold erase_color_right. inversion Hp as [| |? ? ? ? Hw Hp2| |? ? ? ? ? ? Hw Hp2]; subst.
  - inversion Hw as [| |wl b wr c1 c2 ? H1 H2]; subst. destruct c1, c2; rb_shape; rb_round H p.
  - inversion Hw as [|wl b wr ? H1 H2|wl b wr c1 c2 ? H1 H2]; subst.
    + inversion H2 as [| |xl y xr c1 c2 ? H3 H4]; subst. destruct c1, c2; rb_shape; rb_round H p.
    + destruct c1, c2; rb_shape; rb_round H p.
Qed.

(** What the loop leaves: blackening the node it returns balances the tree. *)
Definition erased (il : list Z) (r : option Z * rb_store) : Prop :=
  exists t p, represents (snd r) (plug t p) /\ root_of t = fst r /\ balanced (plug (blacken t) p) /\ ids (plug t p) = il.

Lemma erase_color_red fuel s t p n : (0 < fuel)%nat -> represents s (plug t p) -> color_of t = RB_RED ->
  rbt (blacken t) RB_BLACK (S n) -> fits p RB_BLACK (S n) ->
  yields (erase_color_loop fuel (root_of t) (parent_of p) s) (erased (ids (plug t p))).
Proof.
  intros Hf H Hc Ht Hp. destruct fuel; [lia|]. cbn [erase_color_loop]. unfold is_black. rewrite (is_red_at s p t H), Hc.
  cbn [cbind negb andb bool_decide decide_rel]. rewrite bool_decide_true by done. cbn [negb andb]. apply yields_Ret.
  exists t, p. split; [done|]. split; [done|]. split; [by eapply fits_plug|done].
Qed.

(** The hole of a proper position is not the root. *)
Lemma hole_not_root s t f p : represents s (plug t (f :: p)) -> root_of t <> rb_root s.
Proof.
  rewrite represents_plug. intros (_ & _ & -> & Hnd). rewrite nodup_around in Hnd. destruct Hnd as (_ & _ & Hout).
  assert (exists g, last (f :: p) = Some g /\ frame_node g ∈ around (f :: p)) as (g & Hg & Hin).
  { revert f Hout. intros f _. exists (default f (last p)). split.
    - by rewrite last_cons; destruct (last p).
    - clear. revert f. induction p as [|f2 p IH]; intros f.
      + unfold around. cbn [before after last default]. destruct f; cbn; set_solver.
      + specialize (IH f2). rewrite last_cons. destruct (last p); cbn [default] in *;
          unfold around in *; cbn [before after] in *; set_solver. }
  unfold root_via. rewrite Hg. intros Hr%root_of_in. by apply (Hout _ Hin).
Qed.

Lemma erase_color_loop_at fuel : forall p s t n,
  (length p < fuel)%nat -> represents s (plug t p) -> lacks t n -> fits p RB_BLACK (S n) ->
  yields (erase_color_loop fuel (root_of t) (parent_of p) s) (erased (ids (plug t p))).
Proof.
  induction fuel as [|fuel IH]; intros p s t n Hf H [Ht|[Hc Ht]] Hp; [lia|lia| |eapply erase_color_red; eauto; lia].
  cbn [erase_color_loop]. unfold is_black. rewrite (is_red_at s p t H), (rbt_color _ _ _ Ht), bool_decide_false by done.
  cbn [cbind negb andb]. destruct p as [|f p].
  - destruct H as (H & Hr & Hnd). rewrite Hr, bool_decide_true by done. cbn [negb]. apply yields_Ret.
    exists t, []. split; [done|]. split; [done|]. split; [|done]. exists n. cbn [plug]. by inversion Ht; subst.
  - pose proof (hole_not_root _ _ _ _ H) as Hr. rewrite bool_decide_false by done.
    cbn [negb parent_of head fmap option_fmap option_map deref cbind].
    assert (yields (let! p0 := load (frame_node f) s in
        if bool_decide (rb_left p0 = root_of t) then erase_color_left (frame_node f) s else erase_color_right (frame_node f) s)
      (erase_round (length p) (ids (plug t (f :: p))))) as Hround.
    { destruct f as [c q w|c w q]; cbn [frame_node plug fill] in *; rb_load H p; rb_simpl.
      - rewrite bool_decide_true by done. by eapply erase_left_at.
      - rewrite bool_decide_false; [by eapply erase_right_at|]. inversion Hp as [| |? ? ? ? Hw| |? ? ? ? ? ? Hw]; inversion Hw; subst;
          intros E; symmetry in E; revert E; rb_neq H. }
    destruct (load (frame_node f) s) as [p0| |]; cbn [cbind] in *; try (by destruct Hround as (? & ? & _)).
    destruct Hround as ([[[node par] cont] s1] & -> & Hround). cbn [cbind plug] in *. cbn in Hround. destruct cont.
    + destruct Hround as (t1 & p1 & n1 & H1 & <- & <- & Hl & Hp1 & <- & [Hlen|Hc]).
      * eapply IH; [cbn [length] in Hf; lia|done..].
      * destruct Hl as [Hl|[_ Hl]]; [apply rbt_color in Hl; congruence|]. eapply erase_color_red; eauto. cbn [length] in Hf. lia.
    + destruct Hround as (t1 & H1 & <- & [m Hb] & <-). apply yields_Ret. exists t1, []. split; [done|]. split; [done|].
      split; [|done]. exists m. cbn [plug]. by inversion Hb; subst.
Qed.

(** ** Removal *)

(** The result of an operation: a balanced tree with the nodes [il]. *)
Definition keeps (il : list Z) (s : rb_store) : Prop := exists t, represents s t /\ balanced t /\ ids t = il.

Lemma erase_color_at s t p n : represents s (plug t p) -> lacks t n -> fits p RB_BLACK (S n) ->
  yields (rb_erase_color (root_of t) (parent_of p) s) (keeps (ids (plug t p))).
Proof.
  intros H Ht Hp. unfold rb_erase_color.
  destruct (erase_color_loop_at (rounds s) p s t n (path_rounds s t p H) H Ht Hp) as ([node s1] & -> & t1 & p1 & H1 & Hn & Hb & <-).
  cbn [cbind fst snd] in *. subst node. destruct t1 as [|c l a r]; cbn [root_of set_color_opt].
  - apply yields_Ret. by exists (plug Leaf p1).
  - destruct (set_color_at s1 p1 c RB_BLACK l a r H1) as (s2 & -> & H2). apply yields_Ret.
    exists (plug (Node RB_BLACK l a r) p1). split; [done|]. split; [done|]. by rewrite !ids_plug.
Qed.

(** [child] takes the place of [node]; the record of [node] stays. *)
Lemma unlink_at s p c l a r child : represents s (plug (Node c l a r) p) ->
  (l = Leaf /\ child = r) \/ (r = Leaf /\ child = l) ->
  yields (unlink a (root_of child) (parent_of p) s)
    (fun s' => represents s' (plug child p) /\ nodes s' !! a = nodes s !! a).
Proof.
  rewrite represents_plug, nodup_around. cbn [ids rep root_of]. intros ((Ha & Hl & Hr) & Hp & Hroot & Hnd & Hndt & Hout) Hc.
  nodup Hndt.
  assert (rep (nodes s) (Some a) child /\ NoDup (ids child) /\ (a ∉ ids child) /\
    forall x, x ∈ ids child -> x ∈ ids l ++ a :: ids r) as (Hrep & Hndc & Hac & Hsub).
  { destruct Hc as [[-> ->]|[-> ->]]; cbn [ids] in *; repeat split; try done; try set_solver. }
  clear Hc Hl Hr. unfold unlink. destruct (reparent_at child (Some a) (parent_of p) s Hrep Hndc) as (-> & R1 & R2). cbn [cbind].
  set (s1 := mkStore _ _).
  destruct (relink_at LEFT p a (root_of child) s1) as (-> & P1 & P2); [|done|set_solver|].
  { eapply path_other; [|exact Hp]. intros x Hx. apply R2. set_solver. }
  apply yields_Ret. rewrite represents_plug, nodup_around. cbn [nodes rb_root]. split; [split; [|split; [|split; [|split; [|split]]]]|].
  - eapply rep_other; [|exact R1]. intros x Hx. apply P2. set_solver.
  - done.
  - by eapply root_via_update.
  - done.
  - done.
  - set_solver.
  - rewrite P2 by set_solver. by apply R2.
Qed.

(** The neighbours of [a] point to [x] instead. *)
Lemma adopt_at s p l a r x :
  path_rep (nodes s) p (Some a) -> rb_root s = root_via p (Some a) -> rep (nodes s) (Some a) l ->
  rep (nodes s) (Some a) r -> NoDup (before p ++ (ids l ++ a :: ids r) ++ after p) ->
  yields
    (let! s := relink LEFT a (parent_of p) (Some x) s in
     let! s := set_parent_opt (root_of l) (Some x) s in
     set_parent_opt (root_of r) (Some x) s)
    (fun s' => path_rep (nodes s') p (Some x) /\ rb_root s' = root_via p (Some x) /\ rep (nodes s') (Some x) l /\
      rep (nodes s') (Some x) r /\
      forall y, (y ∉ around p) -> (y ∉ ids l) -> (y ∉ ids r) -> nodes s' !! y = nodes s !! y).
Proof.
  intros Hp Hroot Hl Hr. rewrite (nodup_around p (Node RB_RED l a r)). cbn [ids]. intros (Hnd & Hndt & Hout). nodup Hndt.
  destruct (relink_at LEFT p a (Some x) s) as (-> & P1 & P2); [done|done|set_solver|]. cbn [cbind].
  set (s1 := mkStore (hole_update _ _ _) _).
  destruct (reparent_at l (Some a) (Some x) s1) as (-> & L1 & L2); [|done|].
  { eapply rep_other; [|exact Hl]. intros y Hy. apply P2. set_solver. }
  cbn [cbind]. set (s2 := mkStore (reparent l _ _) _).
  destruct (reparent_at r (Some a) (Some x) s2) as (-> & R1 & R2); [|done|].
  { eapply rep_other; [|exact Hr]. intros y Hy. cbn [s2 nodes]. rewrite L2 by set_solver. apply P2. set_solver. }
  apply yields_Ret. cbn [nodes rb_root]. split; [|split; [by eapply root_via_update|split; [|split; [done|]]]].
  - eapply path_other; [|exact P1]. intros y Hy. rewrite R2 by set_solver. apply L2. set_solver.
  - eapply rep_other; [|exact L1]. intros y Hy. apply R2. set_solver.
  - intros y Y1 Y2 Y3. rewrite R2 by done. cbn [s2 nodes]. rewrite L2 by done. by apply P2.
Qed.

(** [x] in the place of [a]. *)
Lemma adopted s p c l r x : path_rep (nodes s) p (Some x) -> rb_root s = root_via p (Some x) ->
  rep (nodes s) (Some x) l -> rep (nodes s) (Some x) r ->
  nodes s !! x = Some (mkNode (parent_of p) (root_of r) (root_of l) c) ->
  (exists a, NoDup (before p ++ (ids l ++ a :: ids r) ++ after p)) -> (x ∉ around p) -> (x ∉ ids l) -> (x ∉ ids r) ->
  represents s (plug (Node c l x r) p).
Proof.
  intros Hp Hroot Hl Hr Hx [a Hnd] H1 H2 H3. rewrite represents_plug. split; [done|]. split; [done|]. split; [done|].
  rewrite nodup_around. rewrite (nodup_around p (Node c l a r)) in Hnd. cbn [ids] in *. destruct Hnd as (Hnd & Hndt & Hout).
  split; [done|]. split; [|set_solver]. nodup Hndt. rewrite NoDup_app, NoDup_cons. set_solver.
Qed.

Lemma replace_old_at s p c l a r x : represents s (plug (Node c l a r) p) -> l <> Leaf ->
  (x ∉ ids (plug (Node c l a r) p)) ->
  yields (replace_old a x s) (fun s' => represents s' (plug (Node c l x r) p)).
Proof.
  intros H Hl Hx. unfold replace_old. rb_load H p. rewrite ids_plug in Hx. cbn [ids] in Hx.
  assert ((x ∉ around p) /\ (x ∉ ids l) /\ (x ∉ ids r) /\ x <> a) as (X1 & X2 & X3 & X4) by (unfold around; set_solver).
  rewrite represents_plug in H. cbn [rep root_of ids] in H. destruct H as ((Ha & Hrl & Hrr) & Hp & Hroot & Hnd).
  set (s1 := store _ _ _).
  assert (forall y, y <> x -> nodes s1 !! y = nodes s !! y) as E1 by (intros; by apply lookup_insert_ne).
  destruct (adopt_at s1 p l a r x) as (s2 & E & P2 & Q2 & L2 & R2 & O2).
  - eapply path_other; [|exact Hp]. intros y Hy. apply E1. intros ->. done.
  - done.
  - eapply rep_other; [|exact Hrl]. intros y Hy. apply E1. intros ->. done.
  - eapply rep_other; [|exact Hrr]. intros y Hy. apply E1. intros ->. done.
  - done.
  - destruct l as [|cl ll b lr]; [done|]. cbn [root_of deref set_parent_opt] in *.
    exists s2. split; [exact E|].
    eapply adopted; try done; [|by exists a]. rewrite O2 by done. apply lookup_insert_eq.
Qed.

Lemma replace_node_at s p c l a r x : represents s (plug (Node c l a r) p) ->
  (x ∉ ids (plug (Node c l a r) p)) ->
  yields (rb_replace_node a x s) (fun s' => represents s' (plug (Node c l x r) p)).
Proof.
  intros H Hx. unfold rb_replace_node. rb_load H p. rewrite ids_plug in Hx. cbn [ids] in Hx.
  assert ((x ∉ around p) /\ (x ∉ ids l) /\ (x ∉ ids r) /\ x <> a) as (X1 & X2 & X3 & X4) by (unfold around; set_solver).
  rewrite represents_plug in H. cbn [rep root_of ids] in H. destruct H as ((Ha & Hrl & Hrr) & Hp & Hroot & Hnd).
  destruct (adopt_at s p l a r x) as (s2 & E & P2 & Q2 & L2 & R2 & O2); [done..|].
  apply cbind_Ret_inv in E as (u1 & -> & E). apply cbind_Ret_inv in E as (u2 & E2 & E). cbn [cbind]. rewrite E2. cbn [cbind].
  rewrite E. cbn [cbind]. nodup Hnd.
  rewrite (load_lookup a s2 _ (eq_trans (O2 a ltac:(unfold around; set_solver) ltac:(set_solver) ltac:(set_solver)) Ha)).
  apply yields_Ret.
  assert (forall y, y <> x -> nodes (store x (mkNode (parent_of p) (root_of r) (root_of l) c) s2) !! y = nodes s2 !! y) as E1
    by (intros; by apply lookup_insert_ne).
  eapply adopted; try done.
  - eapply path_other; [|exact P2]. intros y Hy. apply E1. intros ->. done.
  - eapply rep_other; [|exact L2]. intros y Hy. apply E1. intros ->. done.
  - eapply rep_other; [|exact R2]. intros y Hy. apply E1. intros ->. done.
  - apply lookup_insert_eq.
  - exists a. rewrite !NoDup_app, NoDup_cons. set_solver.
Qed.

Lemma plug_app t p q : plug t (p ++ q) = plug (plug t p) q.
Proof. revert t. induction p as [|f p IH]; intros t; [done|]. cbn [app plug]. apply IH. Qed.

Lemma before_app p q : before (p ++ q) = before q ++ before p.
Proof. induction p as [|f p IH]; cbn [app before]; [by rewrite app_nil_r|]. by rewrite IH, app_assoc. Qed.

Lemma after_app p q : after (p ++ q) = after p ++ after q.
Proof. induction p as [|f p IH]; cbn [app after]; [done|]. by rewrite IH, app_assoc. Qed.

(** The number of nodes on the longest way down. *)
Fixpoint depth (t : tree) : nat :=
  match t with
  | Leaf => 0
  | Node _ l _ r => S (Nat.max (depth l) (depth r))
  end.

Lemma depth_ids t : (depth t <= length (ids t))%nat.
Proof. induction t as [|c l IHl a r IHr]; [done|]. cbn [depth ids]. rewrite length_app. cbn [length]. lia. Qed.

Lemma depth_plug t p : (length p + depth t <= depth (plug t p))%nat.
Proof.
  revert t. induction p as [|f p IH]; intros t; cbn [plug length]; [lia|]. specialize (IH (fill f t)).
  destruct f; cbn [fill depth] in *; lia.
Qed.

Lemma rbt_depth t c n : rbt t c n -> (depth t <= 2 * n + match c with RB_RED => 1 | RB_BLACK => 0 end)%nat.
Proof.
  induction 1 as [|? ? ? ? _ IHl _ IHr|? ? ? cl cr ? _ IHl _ IHr]; cbn [depth] in *; [lia|lia|]. destruct cl, cr; lia.
Qed.

Lemma rbt_size t c n : rbt t c n -> (2 ^ n <= length (ids t) + 1)%nat.
Proof.
  induction 1; cbn [ids] in *; rewrite ?length_app; cbn [length Nat.pow] in *; lia.
Qed.

Lemma leftmost_at fuel : forall t p s b, (depth t <= fuel)%nat -> represents s (plug t p) -> root_of t = Some b ->
  exists c x r q, t = plug (Node c Leaf x r) q /\ leftmost fuel b s = Ret x /\ before q = [].
Proof.
  induction fuel as [|f IH]; intros [|c l a r] p s b Hf H Hb; try done; cbn [depth] in Hf; [lia|]. cbn in Hb. injection Hb as ->. cbn [leftmost]. rb_load H p.
  destruct l as [|cl ll y lr]; cbn [root_of]; [by exists c, b, r, []|].
  destruct (IH (Node cl ll y lr) (FL c b r :: p) s y) as (c' & x & r' & q & E & Ex & Hq); [lia|done..|].
  exists c', x, r', (q ++ [FL c b r]). by rewrite plug_app, before_app, <- E, Hq.
Qed.

Lemma rightmost_at fuel : forall t p s b, (depth t <= fuel)%nat -> represents s (plug t p) -> root_of t = Some b ->
  exists c x l q, t = plug (Node c l x Leaf) q /\ rightmost fuel b s = Ret x /\ after q = [].
Proof.
  induction fuel as [|f IH]; intros [|c l a r] p s b Hf H Hb; try done; cbn [depth] in Hf; [lia|]. cbn in Hb. injection Hb as ->. cbn [rightmost]. rb_load H p.
  destruct r as [|cr rl y rr]; cbn [root_of]; [by exists c, b, l, []|].
  destruct (IH (Node cr rl y rr) (FR c l b :: p) s y) as (c' & x & l' & q & E & Ex & Hq); [lia|done..|].
  exists c', x, l', (q ++ [FR c l b]). by rewrite plug_app, after_app, <- E, Hq.
Qed.

Lemma subtree_rounds s t p : represents s (plug t p) -> (depth t < rounds s)%nat.
Proof. intros H. apply represents_rounds in H. pose proof (depth_ids (plug t p)). pose proof (depth_plug t p). lia. Qed.

Lemma locate a t : a ∈ ids t -> exists c l r p, t = plug (Node c l a r) p.
Proof.
  induction t as [|c l IHl b r IHr]; cbn [ids]; [set_solver|]. rewrite elem_of_app, elem_of_cons.
  intros [H|[->|H]]; [|by exists c, l, r, []|].
  - destruct (IHl H) as (c' & l' & r' & p & ->). exists c', l', r', (p ++ [FL c b r]). by rewrite plug_app.
  - destruct (IHr H) as (c' & l' & r' & p & ->). exists c', l', r', (p ++ [FR c l b]). by rewrite plug_app.
Qed.

(** Which colours stand at a position does not depend on the address above. *)
Lemma fits_readdress q c l a x p : forall c' n, fits (q ++ FR c l a :: p) c' n -> fits (q ++ FR c l x :: p) c' n.
Proof.
  induction q as [|f q IH]; intros c' n; cbn [app]; [inversion 1; subst; eauto with rb_db|].
  inversion 1; subst; eauto with rb_db.
Qed.

(** A node with at most one child leaves a hole that one black node is
    missing from, if it was black. *)
Lemma hole_colour c l a r p child cn n : rbt (Node c l a r) cn n -> fits p cn n ->
  (l = Leaf /\ child = r) \/ (r = Leaf /\ child = l) ->
  exists k, match c with RB_BLACK => lacks child k /\ fits p RB_BLACK (S k) | RB_RED => rbt child RB_BLACK k /\ fits p RB_BLACK k end.
Proof.
  intros Ht Hp Hc. inversion Ht as [|? ? ? ? H1 H2|? ? ? c1 c2 k H1 H2]; subst; [exists n|exists k].
  - apply fits_relax in Hp. split; [|done]. destruct Hc as [[-> ->]|[-> ->]]; done.
  - split; [|done]. destruct Hc as [[-> ->]|[-> ->]].
    + inversion H1; subst. destruct c2; [right|by left]. inversion H2; subst. cbn. eauto with rb_db.
    + inversion H2; subst. destruct c1; [right|by left]. inversion H1; subst. cbn. eauto with rb_db.
Qed.

(** The end of the removal: [child] stands where a node of colour [c] was. *)
Lemma erase_finish s child p c k : represents s (plug child p) ->
  match c with RB_BLACK => lacks child k /\ fits p RB_BLACK (S k) | RB_RED => rbt child RB_BLACK k /\ fits p RB_BLACK k end ->
  yields (if bool_decide (c = RB_BLACK) then rb_erase_color (root_of child) (parent_of p) s else Ret s)
    (keeps (ids (plug child p))).
Proof.
  intros H Hcp. destruct c.
  - destruct Hcp as [Hc Hp]. rewrite bool_decide_false by done. apply yields_Ret. exists (plug child p). eauto using fits_plug.
  - destruct Hcp as [Hc Hp]. rewrite bool_decide_true by done. by eapply erase_color_at.
Qed.

Lemma nodup_middle (l1 l2 : list Z) x : NoDup (l1 ++ x :: l2) -> x ∉ l1 ++ l2.
Proof. rewrite NoDup_app, NoDup_cons. set_solver. Qed.

(** The case of two children: the successor [x] of [a] takes its place. *)
Lemma erase_two s p q c l a cx x xr cn n : let r := plug (Node cx Leaf x xr) q in
  represents s (plug (Node c l a r) p) -> l <> Leaf -> before q = [] ->
  rbt (Node cx Leaf x xr) cn n -> fits (q ++ FR c l a :: p) cn n ->
  yields
    (let! n := load x s in
     let! s1 := unlink x (rb_right n) (rb_parent n) s in
     let! n' := load x s1 in
     let! s2 := replace_old a x s1 in
     if bool_decide (rb_color n = RB_BLACK)
     then rb_erase_color (rb_right n) (if bool_decide (rb_parent n' = Some a) then Some x else rb_parent n) s2 else Ret s2)
    (keeps (before p ++ (ids l ++ ids r) ++ after p)).
Proof.
  intros r H Hl Hq Ht Hp.
  assert (represents s (plug (Node cx Leaf x xr) (q ++ FR c l a :: p))) as H0 by (by rewrite plug_app).
  pose proof (hole_colour cx Leaf x xr _ xr cn n Ht Hp (or_introl (conj eq_refl eq_refl))) as [k Hk].
  rewrite (load_at _ _ _ _ _ _ H0). cbn [cbind rb_right rb_parent rb_color].
  destruct (unlink_at s _ cx Leaf x xr xr H0 (or_introl (conj eq_refl eq_refl))) as (s1 & -> & H1 & E1). cbn [cbind].
  apply represents_plug in H0 as ((Ex & _) & _ & _ & Hnd). unfold load at 1. rewrite E1, Ex. cbn [cbind rb_parent].
  rewrite plug_app in H1. cbn [plug fill] in H1. rewrite before_app, after_app in Hnd. cbn [before frame_before after frame_after ids app] in Hnd.
  destruct (replace_old_at s1 p c l a (plug xr q) x H1 Hl) as (s2 & -> & H2).
  { rewrite Hq in Hnd. repeat (rewrite <- ?app_assoc in Hnd; cbn [app] in Hnd). 
    rewrite (app_assoc (before p)), (cons_middle a), (app_assoc _ [a]) in Hnd.
    intros Hx. apply (nodup_middle _ _ _ Hnd). rewrite ids_plug in Hx. cbn [ids] in Hx. rewrite ids_plug, Hq in Hx.
    revert Hx. clear. set_solver. }
  cbn [cbind]. change (plug (Node c l x (plug xr q)) p) with (plug (plug xr q) (FR c l x :: p)) in H2. rewrite <- plug_app in H2.
  replace (if bool_decide _ then Some x else _) with (parent_of (q ++ FR c l x :: p)).
  - replace (_ ++ (_ ++ _) ++ _) with (ids (plug xr (q ++ FR c l x :: p))).
    + eapply (erase_finish s2 xr _ cx k H2). destruct cx; destruct Hk; eauto using fits_readdress.
    + subst r. rewrite !ids_plug, before_app, after_app, Hq. cbn [before frame_before after frame_after app ids].
      rewrite !app_nil_r. repeat (rewrite <- ?app_assoc; cbn [app]). done.
  - destruct q as [|g q]; cbn [app parent_of head fmap option_fmap option_map frame_node]; [by rewrite bool_decide_true|].
    rewrite bool_decide_false; [done|]. intros [= E]. destruct g as [? ? ?|? ? ?]; [|by cbn in Hq; destruct (before q), (ids l0)].
    rewrite Hq in Hnd. repeat (rewrite <- ?app_assoc in Hnd; cbn [app] in Hnd). rewrite app_assoc in Hnd.
    apply nodup_middle in Hnd. apply Hnd. cbn [after frame_after frame_node] in *. subst. clear. set_solver.
Qed.

Lemma erase_at s p c l a r : represents s (plug (Node c l a r) p) -> balanced (plug (Node c l a r) p) ->
  yields (rb_erase a s) (keeps (before p ++ (ids l ++ ids r) ++ after p)).
Proof.
  intros H Hb. destruct (plug_fits _ _ Hb) as (cn & n & Ht & Hp).
  assert (l = Leaf \/ r = Leaf -> yields (rb_erase a s) (keeps (before p ++ (ids l ++ ids r) ++ after p))) as Hone.
  { intros Hlr. set (child := match l with Leaf => r | _ => l end).
    assert ((l = Leaf /\ child = r) \/ (r = Leaf /\ child = l)) as Hc.
    { subst child. destruct l, Hlr; subst; naive_solver. }
    assert (ids child = ids l ++ ids r) as <-.
    { destruct Hc as [[-> ->]|[-> ->]]; cbn [ids]; [done|by rewrite app_nil_r]. }
    rewrite <- ids_plug. destruct (hole_colour c l a r p child cn n Ht Hp Hc) as [k Hk].
    destruct (unlink_at s p c l a r child H Hc) as (s1 & E & H1 & _).
    assert (rb_erase a s = if bool_decide (c = RB_BLACK) then rb_erase_color (root_of child) (parent_of p) s1 else Ret s1) as ->;
      [|by eapply erase_finish].
    unfold rb_erase. rb_load H p. subst child. destruct l, r; cbn [root_of] in *; rewrite ?E; cbn [cbind]; try done.
    by destruct Hlr. }
  destruct l as [|cl ll y lr]; [by apply Hone; left|]. destruct r as [|cr rl z rr]; [by apply Hone; right|]. clear Hone.
  set (R := Node cr rl z rr) in *. set (L := Node cl ll y lr) in *.
  destruct (leftmost_at (rounds s) R (FR c L a :: p) s z) as (cx & x & xr & q & E & Ex & Hq);
    [pose proof (subtree_rounds s R (FR c L a :: p) H); lia|exact H|done|].
  rewrite E in Hb, H. change (plug (Node c L a ?r) p) with (plug r (FR c L a :: p)) in Hb. rewrite <- plug_app in Hb.
  apply plug_fits in Hb as (cx' & n' & Ht' & Hp').
  pose proof (erase_two s p q c L a cx x xr cx' n' H ltac:(done) Hq Ht' Hp') as Htwo. rewrite <- E in Htwo, H.
  unfold rb_erase. rb_load H p. subst L R. cbn [root_of]. rewrite Ex. exact Htwo.
Qed.


(** ** Order *)

Lemma climb_right fuel : forall p t s a, (length p < fuel)%nat -> represents s (plug t p) -> root_of t = Some a ->
  climb fuel RIGHT a s = Ret (head (after p)).
Proof.
  induction fuel as [|f IH]; intros p t s a Hf H Ha; [lia|]. destruct t as [|c l b r]; [done|]. cbn in Ha. injection Ha as ->.
  cbn [climb]. rb_load H p. destruct p as [|[c' b r'|c' l' b] p]; rb_simpl; [done|..]; cbn [plug fill length] in *; rb_load H p.
  - rewrite bool_decide_false by (rb_neq H). done.
  - rewrite bool_decide_true by done. eapply (IH p); [|exact H|done]; lia.
Qed.

Lemma climb_left fuel : forall p t s a, (length p < fuel)%nat -> represents s (plug t p) -> root_of t = Some a ->
  climb fuel LEFT a s = Ret (last (before p)).
Proof.
  induction fuel as [|f IH]; intros p t s a Hf H Ha; [lia|]. destruct t as [|c l b r]; [done|]. cbn in Ha. injection Ha as ->.
  cbn [climb]. rb_load H p. destruct p as [|[c' b r'|c' l' b] p]; rb_simpl; [done|..]; cbn [plug fill length] in *; rb_load H p.
  - rewrite bool_decide_true by done. cbn [before frame_before]. rewrite app_nil_r. eapply (IH p); [|exact H|done]; lia.
  - rewrite bool_decide_false by (rb_neq H). cbn [before frame_before]. by rewrite app_assoc, last_snoc.
Qed.

Lemma next_at s p c l a r : represents s (plug (Node c l a r) p) -> rb_next a s = Ret (head (ids r ++ after p)).
Proof.
  intros H. unfold rb_next. rb_load H p. destruct r as [|cr rl b rr]; cbn [root_of ids app].
  - eapply climb_right; [by eapply path_rounds|exact H|done].
  - destruct (leftmost_at (rounds s) (Node cr rl b rr) (FR c l a :: p) s b) as (c' & x & r' & q & E & -> & Hq);
      [pose proof (subtree_rounds s _ (FR c l a :: p) H); lia|exact H|done|].
    cbn [cbind]. change (ids rl ++ b :: ids rr) with (ids (Node cr rl b rr)). by rewrite E, ids_plug, Hq.
Qed.

Lemma last_app_right {A} (l1 l2 : list A) : l2 <> [] -> last (l1 ++ l2) = last l2.
Proof. destruct l2 as [|x l2 _] using rev_ind; [done|]. intros _. by rewrite app_assoc, !last_snoc. Qed.

Lemma prev_at s p c l a r : represents s (plug (Node c l a r) p) -> rb_prev a s = Ret (last (before p ++ ids l)).
Proof.
  intros H. unfold rb_prev. rb_load H p. destruct l as [|cl ll b lr]; cbn [root_of ids].
  - rewrite app_nil_r. eapply climb_left; [by eapply path_rounds|exact H|done].
  - destruct (rightmost_at (rounds s) (Node cl ll b lr) (FL c a r :: p) s b) as (c' & x & l' & q & E & -> & Hq);
      [pose proof (subtree_rounds s _ (FL c a r :: p) H); lia|exact H|done|].
    cbn [cbind]. rewrite last_app_right by (by destruct (ids ll)).
    change (ids ll ++ b :: ids lr) with (ids (Node cl ll b lr)). rewrite E, ids_plug, Hq, app_nil_r. cbn [ids].
    by rewrite app_assoc, last_snoc.
Qed.

(** A node splits the list of nodes in one way. *)
Lemma nodup_split (l1 l2 k1 k2 : list Z) a : NoDup (l1 ++ a :: l2) -> l1 ++ a :: l2 = k1 ++ a :: k2 -> l1 = k1 /\ l2 = k2.
Proof.
  revert k1. induction l1 as [|x l1 IH]; intros [|y k1]; cbn [app]; intros Hnd E.
  - by injection E.
  - injection E as <- ->. rewrite NoDup_cons in Hnd. set_solver.
  - injection E as -> <-. rewrite NoDup_cons in Hnd. set_solver.
  - injection E as -> E. rewrite NoDup_cons in Hnd. destruct (IH k1) as [-> ->]; naive_solver.
Qed.

Lemma split_at s t l1 a l2 : represents s t -> ids t = l1 ++ a :: l2 ->
  exists c l r p, t = plug (Node c l a r) p /\ l1 = before p ++ ids l /\ l2 = ids r ++ after p.
Proof.
  intros H E. destruct (locate a t) as (c & l & r & p & ->); [rewrite E; set_solver|]. exists c, l, r, p. split; [done|].
  rewrite ids_plug in E. cbn [ids] in E. rewrite <- app_assoc, app_assoc in E. cbn [app] in E.
  destruct H as (_ & _ & Hnd). rewrite ids_plug in Hnd. cbn [ids] in Hnd. rewrite <- app_assoc, app_assoc in Hnd. cbn [app] in Hnd.
  by apply nodup_split in E as [<- <-].
Qed.

(** [rb_first], [rb_next] and [rb_prev] run through the nodes in order,
    parent pointers and subtrees alike; each stops at the ends with NULL. *)
Theorem rb_neighbours s t : represents s t ->
  rb_first s = Ret (head (ids t)) /\ rb_last s = Ret (last (ids t)) /\
  forall l1 a l2, ids t = l1 ++ a :: l2 -> rb_next a s = Ret (head l2) /\ rb_prev a s = Ret (last l1).
Proof.
  intros H. split; [|split].
  - unfold rb_first. pose proof H as (_ & -> & _). destruct t as [|c l a r]; [done|]. cbn [root_of].
    destruct (leftmost_at (rounds s) (Node c l a r) [] s a) as (c' & x & r' & q & E & -> & Hq);
      [pose proof (subtree_rounds s _ [] H); lia|exact H|done|]. cbn [cbind]. by rewrite E, ids_plug, Hq.
  - unfold rb_last. pose proof H as (_ & -> & _). destruct t as [|c l a r]; [done|]. cbn [root_of].
    destruct (rightmost_at (rounds s) (Node c l a r) [] s a) as (c' & x & l' & q & E & -> & Hq);
      [pose proof (subtree_rounds s _ [] H); lia|exact H|done|]. cbn [cbind].
    rewrite E, ids_plug, Hq, app_nil_r. cbn [ids]. by rewrite app_assoc, last_snoc.
  - intros l1 a l2 E. destruct (split_at _ _ _ _ _ H E) as (c & l & r & p & -> & -> & ->).
    split; [by eapply next_at|by eapply prev_at].
Qed.

Lemma erase_split s t l1 a l2 : represents s t -> balanced t -> ids t = l1 ++ a :: l2 ->
  yields (rb_erase a s) (keeps (l1 ++ l2)).
Proof.
  intros H Hb E. destruct (split_at _ _ _ _ _ H E) as (c & l & r & p & -> & -> & ->).
  rewrite <- (app_assoc (before p)), (app_assoc (ids l)). by apply erase_at with c.
Qed.

(** C11: [rb_erase] of any node of a balanced tree takes exactly this node out:
    the others keep their order and the tree stays balanced; no NULL pointer
    is followed and every loop ends. *)
Theorem rb_erase_removes s t l1 a l2 : represents s t -> balanced t -> ids t = l1 ++ a :: l2 ->
  exists s' t', rb_erase a s = Ret s' /\ represents s' t' /\ balanced t' /\ ids t' = l1 ++ l2.
Proof.
  intros H Hb E. destruct (erase_split s t l1 a l2 H Hb E) as (s' & E' & t' & H'). by exists s', t'.
Qed.

Lemma insert_at s p x : represents s (plug Leaf p) -> balanced (plug Leaf p) -> x ∉ ids (plug Leaf p) ->
  yields (let! s := rb_link_node x (link_of p) s in rb_insert_color x s) (keeps (before p ++ x :: after p)).
Proof.
  intros H Hb Hx. rewrite ids_plug in Hx. apply plug_fits in Hb as (c & n & Ht & Hp). inversion Ht; subst.
  destruct (link_at s p x H) as (s1 & -> & H1); [unfold around; set_solver|]. cbn [cbind].
  destruct (insert_color_at s1 p Leaf x Leaf 0 H1) as (s2 & -> & t & H2 & Hb & E); [constructor|constructor|done|].
  apply yields_Ret. exists t. split; [done|]. split; [done|]. by rewrite E, ids_plug.
Qed.

(** C25: linking a new node at an empty place of a balanced tree and
    recolouring ([rb_link_node], [rb_insert_color]) puts it between its
    neighbours in the order and keeps the tree balanced; no NULL pointer is
    followed and every loop ends. *)
Theorem rb_insert_adds s p x : represents s (plug Leaf p) -> balanced (plug Leaf p) -> x ∉ ids (plug Leaf p) ->
  exists s' t', (let! s := rb_link_node x (link_of p) s in rb_insert_color x s) = Ret s' /\
    represents s' t' /\ balanced t' /\ ids t' = before p ++ x :: after p.
Proof. intros H Hb Hx. destruct (insert_at s p x H Hb Hx) as (s' & E & t' & H'). by exists s', t'. Qed.

(** C40: in a balanced tree of [n] nodes the loops that descend from a node or
    climb to the root make at most [2 * log2 (n + 1)] rounds. *)
Theorem rb_rounds_logarithmic s t a fuel : represents s t -> balanced t -> a ∈ ids t ->
  ((length (ids t) + 1) * (length (ids t) + 1) < 2 ^ fuel)%nat ->
  returns (leftmost fuel a s) /\ returns (rightmost fuel a s) /\ forall d, returns (climb fuel d a s).
Proof.
  intros H [n Hb] Ha Hf. pose proof (rbt_depth _ _ _ Hb) as Hd. pose proof (rbt_size _ _ _ Hb) as Hs. cbn in Hd.
  assert (2 * n < fuel)%nat as Hn.
  { apply (Nat.pow_lt_mono_r_iff 2); [lia|]. rewrite Nat.mul_comm, Nat.pow_mul_r. cbn [Nat.pow]. nia. }
  destruct (locate a t Ha) as (c & l & r & p & ->). pose proof (depth_plug (Node c l a r) p).
  split; [|split].
  - destruct (leftmost_at fuel (Node c l a r) p s a) as (? & x & _ & _ & _ & -> & _); [lia|done|done|]. by exists x.
  - destruct (rightmost_at fuel (Node c l a r) p s a) as (? & x & _ & _ & _ & -> & _); [lia|done|done|]. by exists x.
  - intros [|]; [rewrite (climb_left fuel p _ s a ltac:(lia) H eq_refl)|rewrite (climb_right fuel p _ s a ltac:(lia) H eq_refl)];
      apply returns_Ret.
Qed.

(** [rb_replace_node] puts a new node exactly where the victim was: same
    place, same colour, same neighbours. *)
Theorem rb_replace_substitutes s p c l a r x : represents s (plug (Node c l a r) p) ->
  (x ∉ ids (plug (Node c l a r) p)) ->
  exists s', rb_replace_node a x s = Ret s' /\ represents s' (plug (Node c l x r) p).
Proof. intros H Hx. destruct (replace_node_at s p c l a r x H Hx) as (s' & E & H'). by exists s'. Qed.

(** ** A concrete tree *)

(** The store of the nodes 1, 2, 3, linked one after the other. *)
Definition sample_tree : tree := Node RB_BLACK (Node RB_RED Leaf 1 Leaf) 2 (Node RB_RED Leaf 3 Leaf).

Definition sample_store : rb_store :=
  mkStore {[1 := mkNode (Some 2) None None RB_RED; 2 := mkNode None (Some 3) (Some 1) RB_BLACK;
            3 := mkNode (Some 2) None None RB_RED]} (Some 2).

Lemma sample_represents : represents sample_store sample_tree.
Proof. split; [|split; [done|by apply (bool_decide_unpack _)]]. vm_compute. tauto. Qed.

Lemma sample_balanced : balanced sample_tree.
Proof. exists 1%nat. repeat econstructor. Qed.

Example sample_runs :
  (let! s := rb_link_node 2 None RB_ROOT in let! s := rb_insert_color 2 s in
   let! s := rb_link_node 1 (Some (2, LEFT)) s in let! s := rb_insert_color 1 s in
   let! s := rb_link_node 3 (Some (2, RIGHT)) s in rb_insert_color 3 s) = Ret sample_store.
Proof. vm_compute. reflexivity. Qed.

Lemma rb_neighbours_witness : represents sample_store sample_tree /\ rb_first sample_store = Ret (Some 1).
Proof. split; [exact sample_represents|]. apply (rb_neighbours sample_store sample_tree). exact sample_represents. Defined.

Lemma rb_erase_removes_witness : exists s' t', rb_erase 2 sample_store = Ret s' /\ represents s' t' /\ balanced t' /\ ids t' = [1; 3].
Proof. apply (rb_erase_removes sample_store sample_tree [1] 2 [3]); [exact sample_represents|exact sample_balanced|reflexivity]. Defined.

Lemma rb_insert_adds_witness : exists s' t',
  (let! s := rb_link_node 4 (Some (3, RIGHT)) sample_store in rb_insert_color 4 s) = Ret s' /\
    represents s' t' /\ balanced t' /\ ids t' = [1; 2; 3; 4].
Proof.
  apply (rb_insert_adds sample_store [FR RB_RED Leaf 3; FR RB_BLACK (Node RB_RED Leaf 1 Leaf) 2] 4);
    [exact sample_represents|exact sample_balanced|]. by apply (bool_decide_unpack _).
Defined.

Lemma rb_replace_substitutes_witness : exists s', rb_replace_node 2 7 sample_store = Ret s' /\
  represents s' (Node RB_BLACK (Node RB_RED Leaf 1 Leaf) 7 (Node RB_RED Leaf 3 Leaf)).
Proof.
  apply (rb_replace_substitutes sample_store [] RB_BLACK (Node RB_RED Leaf 1 Leaf) 2 (Node RB_RED Leaf 3 Leaf) 7);
    [exact sample_represents|]. by apply (bool_decide_unpack _).
Defined.

Lemma rb_rounds_logarithmic_witness : returns (leftmost 5 2 sample_store) /\ returns (rightmost 5 2 sample_store) /\
  forall d, returns (climb 5 d 2 sample_store).
Proof.
  apply (rb_rounds_logarithmic sample_store sample_tree 2 5); [exact sample_represents|exact sample_balanced|set_solver|cbn; lia].
Defined.
