(* ===== verification/Heap.v ===== *)
(** * The C heap

    [malloc] and [free] as the C library specifies them: [malloc] returns NULL
    or a block that is not in use, [free] gives back a block in use; anything
    else is [Oob].  Blocks are numbered in the order of the calls, and which
    calls succeed is the parameter [Allocator] of the programs. *)

From stdpp Require Import gmap.
From S2P Require Import Prelude.

#[local] Open Scope Z_scope.
#[local] Set Warnings "-clear-no-such-hyp".

Class Allocator := grants : Z -> bool.

(** A C library that never runs out of memory. *)
Definition plenty : Allocator := fun _ => true.

Record heap := mkHeap {
  next_block : Z;
  live : gset Z
}.

Definition malloc {A : Allocator} (h : heap) : option Z * heap :=
  if grants (next_block h)
  then (Some (next_block h), mkHeap (next_block h + 1) ({[next_block h]} ∪ live h))
  else (None, mkHeap (next_block h + 1) (live h)).

Definition free (b : Z) (h : heap) : comp heap :=
  if bool_decide (b ∈ live h) then Ret (mkHeap (next_block h) (live h ∖ {[b]})) else Oob.

(** [realloc] on a block that is not NULL: the old block is given back when
    the new one was granted. *)
Definition realloc {A : Allocator} (b : Z) (h : heap) : comp (option Z * heap) :=
  if bool_decide (b ∈ live h) then
    match malloc h with
    | (Some b', h) => let! h := free b h in Ret (Some b', h)
    | (None, h) => Ret (None, h)
    end
  else Oob.

(** What a block holds that was not written yet: the byte at an offset. *)
Class Garbage := junk : Z -> Z -> Z.

Definition fresh {G : Garbage} (b n : Z) : list Z :=
  map (fun i => u8 (junk b (Z.of_nat i))) (seq 0 (Z.to_nat n)).

(** Calling [f] on every element of a list. *)
Definition for_each {A : Type} (f : A -> heap -> comp heap) : list A -> heap -> comp heap :=
  fix go l h :=
    match l with
    | [] => Ret h
    | x :: l => let! h := f x h in go l h
    end.

(** ** Ownership

    [acquires h bs h']: between [h] and [h'] exactly the blocks [bs] were
    allocated and not freed, each once. *)
Definition acquires (h : heap) (bs : list Z) (h' : heap) : Prop :=
  live h' = live h ∪ list_to_set bs /\ next_block h <= next_block h' /\ NoDup bs /\
  (forall b, b ∈ bs -> next_block h <= b < next_block h') /\ (forall b, b ∈ live h -> b < next_block h).

(** Block numbers in use were handed out. *)
Definition heap_ok (h : heap) : Prop := forall b, b ∈ live h -> b < next_block h.

Lemma acquires_nil h : heap_ok h -> acquires h [] h.
Proof. intros Hh. split; [set_solver|]. split; [lia|]. split; [constructor|]. split; [set_solver|done]. Qed.

Lemma acquires_ok h bs h' : acquires h bs h' -> heap_ok h'.
Proof.
  intros (E & Hn & _ & Hb & Hh) b. rewrite E, elem_of_union, elem_of_list_to_set. intros [H%Hh|H%Hb]; lia.
Qed.

Lemma acquires_ok_l h bs h' : acquires h bs h' -> heap_ok h.
Proof. by intros (_ & _ & _ & _ & Hh). Qed.

Lemma acquires_perm h bs bs' h' : bs ≡ₚ bs' -> acquires h bs h' -> acquires h bs' h'.
Proof.
  intros E (H1 & H2 & H3 & H4 & H5). split; [by rewrite H1, (list_to_set_perm_L _ _ E)|].
  split; [done|]. split; [by rewrite <- E|].  split; [|done]. intros b. rewrite <- E. apply H4.
Qed.

Lemma acquires_trans h bs h1 bs' h2 : acquires h bs h1 -> acquires h1 bs' h2 -> acquires h (bs ++ bs') h2.
Proof.
  intros (E1 & N1 & D1 & B1 & O1) (E2 & N2 & D2 & B2 & O2). split; [rewrite E2, E1; set_solver|]. split; [lia|].
  split; [|split; [|done]].
  - rewrite NoDup_app. split; [done|]. split; [|done]. intros b H1%B1 H2%B2. lia.
  - intros b [H%B1|H%B2]%elem_of_app; lia.
Qed.

Lemma malloc_acquires {A : Allocator} h : heap_ok h ->
  match malloc h with
  | (Some b, h') => acquires h [b] h'
  | (None, h') => acquires h [] h'
  end.
Proof.
  intros Hh. unfold malloc. destruct (grants _).
  - split; [cbn [live list_to_set]; set_solver|]. cbn [next_block]. split; [lia|]. split; [apply NoDup_singleton|].
    split; [|exact Hh]. intros b ->%list_elem_of_singleton. lia.
  - split; [set_solver|]. cbn [next_block]. split; [lia|]. split; [constructor|]. split; [|exact Hh]. set_solver.
Qed.

Lemma free_acquired h bs1 b bs2 h' : acquires h (bs1 ++ b :: bs2) h' ->
  yields (free b h') (acquires h (bs1 ++ bs2)).
Proof.
  intros (E & N & D & B & O). unfold free. rewrite bool_decide_true by (rewrite E; set_solver). apply yields_Ret.
  assert (b ∉ live h) as Hb by (intros H%O; specialize (B b ltac:(set_solver)); lia).
  rewrite NoDup_app, NoDup_cons in D. destruct D as (D1 & D2 & D3 & D4).
  split; [cbn [live]; rewrite E; set_solver|]. split; [done|]. split; [|split; [|done]].
  - rewrite NoDup_app. set_solver.
  - intros c Hc. apply B. set_solver.
Qed.

Lemma free_first h b bs h' : acquires h (b :: bs) h' -> yields (free b h') (acquires h bs).
Proof. apply (free_acquired h [] b bs). Qed.

Lemma malloc_more {A : Allocator} h bs h1 : acquires h bs h1 ->
  match malloc h1 with
  | (Some b, h2) => acquires h (b :: bs) h2
  | (None, h2) => acquires h bs h2 /\ exists n, grants n = false
  end.
Proof.
  intros H. pose proof (malloc_acquires h1 (acquires_ok _ _ _ H)) as Hm. unfold malloc in *.
  destruct (grants (next_block h1)) eqn:Eg.
  - eapply acquires_perm; [|by eapply acquires_trans]. by rewrite (Permutation_app_comm bs).
  - split; [|by exists (next_block h1)]. rewrite <- (app_nil_r bs). by eapply acquires_trans.
Qed.

Lemma realloc_first {A : Allocator} h b bs h1 : acquires h (b :: bs) h1 ->
  yields (realloc b h1) (fun r =>
    match r with
    | (Some b', h2) => acquires h (b' :: bs) h2
    | (None, h2) => acquires h (b :: bs) h2 /\ exists n, grants n = false
    end).
Proof.
  intros H. unfold realloc. rewrite bool_decide_true by (destruct H as [-> _]; set_solver).
  pose proof (malloc_more h (b :: bs) h1 H) as Hm. destruct (malloc h1) as [[b'|] h2]; [|by apply yields_Ret].
  eapply yields_bind; [by apply (free_acquired h [b'] b bs)|]. intros h3 H3. by apply yields_Ret.
Qed.

Lemma blen_fresh {G : Garbage} b n : 0 <= n -> blen (fresh b n) = n.
Proof. intros. unfold fresh, blen. rewrite length_map, length_seq. lia. Qed.

Lemma fresh_bytes {G : Garbage} b n : Forall is_byte (fresh b n).
Proof. apply Forall_map, Forall_true. intros i. unfold is_byte, u8. apply Z.mod_pos_bound. lia. Qed.

(** A loop that gives back the blocks of every element. *)
Lemma for_each_frees {A : Type} (blocks : A -> list Z) (f : A -> heap -> comp heap) h l : forall rest h',
  Forall (fun x => forall rest h', acquires h (blocks x ++ rest) h' -> yields (f x h') (acquires h rest)) l ->
  acquires h (flat_map blocks l ++ rest) h' -> yields (for_each f l h') (acquires h rest).
Proof.
  induction l as [|x l IH]; intros rest h' Hf H; cbn [flat_map app for_each] in *; [by apply yields_Ret|].
  apply Forall_cons in Hf as [Hx Hl]. rewrite <- app_assoc in H. eapply yields_bind; [by apply Hx|]. intros h1 H1. by apply IH.
Qed.
