(* ===== verification/Hiarray.v ===== *)
(** * Dynamic arrays of hiredis

    hiredis/hiarray.c and hiarray.h: arrays that double when they are full.  A
    pointer to an element is its index; the elements the program has not
    written yet hold what [realloc] left there ([Uninit]).  The assertions of
    hiutil.h stop the program in builds with HI_ASSERT_PANIC ([HiAssert]).  The
    theorem is that in every build the operations are those of a stack, whichever
    requests for memory are refused. *)

From stdpp Require Import gmap.
From S2P Require Import Prelude Heap.

#[local] Open Scope Z_scope.
#[local] Set Warnings "-clear-no-such-hyp".
#[local] Arguments cbind {A B} !m k /.

(** What element [i] of the new block [b] holds. *)
Class Uninit (T : Type) := uninit : Z -> Z -> T.

(** The build: whether a failed ASSERT stops the program.  By default, and with
    HI_ASSERT_LOG, it does not change the state. *)
Class HiAssert := panics : bool.

Definition ASSERT {P : HiAssert} (b : bool) : comp unit := if negb panics || b then Ret tt else Oob.

Lemma ASSERT_true {P : HiAssert} b : b = true -> ASSERT b = Ret tt.
Proof. intros ->. unfold ASSERT. by rewrite orb_true_r. Qed.

Record hiarray (T : Type) := mkArray {
  ablk : Z;
  nelem : Z;
  elem_blk : option Z;
  elem : list T;
  esize : Z;
  nalloc : Z
}.
Arguments mkArray {T}.
Arguments ablk {T}.
Arguments nelem {T}.
Arguments elem_blk {T}.
Arguments elem {T}.
Arguments esize {T}.
Arguments nalloc {T}.

Definition HI_OK : Z := 0.

Section hiarray.
Context {A : Allocator} {T : Type} {U : Uninit T} {P : HiAssert}.

Definition fresh_elems (b : Z) (i n : nat) : list T := map (fun k => uninit b (Z.of_nat k)) (seq i n).

Definition with_nelem (n : Z) (a : hiarray T) : hiarray T :=
  mkArray (ablk a) n (elem_blk a) (elem a) (esize a) (nalloc a).
Definition with_elem (l : list T) (a : hiarray T) : hiarray T :=
  mkArray (ablk a) (nelem a) (elem_blk a) l (esize a) (nalloc a).

Definition hiarray_null (a : hiarray T) : hiarray T := mkArray (ablk a) 0 None [] 0 0.

Definition hiarray_set (b : Z) (l : list T) (size n : Z) (a : hiarray T) : hiarray T :=
  mkArray (ablk a) 0 (Some b) l size n.

Definition hiarray_n (a : hiarray T) : Z := nelem a.

(** The elements that fit a block of [bytes] bytes. *)
Definition room (bytes size : Z) : nat := Z.to_nat (bytes / size).

Definition hiarray_create (n size : Z) (h : heap) : comp (option (hiarray T) * heap) :=
  let! _ := ASSERT (negb (n =? 0) && negb (size =? 0)) in
  match malloc h with
  | (None, h) => Ret (None, h)
  | (Some a, h) =>
      match malloc h with
      | (None, h) => let! h := free a h in Ret (None, h)
      | (Some e, h) => Ret (Some (mkArray a 0 (Some e) (fresh_elems e 0 (room (u64 (n * size)) size)) size n), h)
      end
  end.

Definition hi_free (b : option Z) (h : heap) : comp heap :=
  match b with
  | Some b => free b h
  | None => Ret h
  end.

Definition hiarray_deinit (a : hiarray T) (h : heap) : comp (hiarray T * heap) :=
  let! _ := ASSERT (nelem a =? 0) in
  let! h := hi_free (elem_blk a) h in
  Ret (mkArray (ablk a) (nelem a) None [] (esize a) (nalloc a), h).

Definition hiarray_destroy (a : hiarray T) (h : heap) : comp heap :=
  let! '(a, h) := hiarray_deinit a h in free (ablk a) h.

(** The pointer [elem] is [i] elements behind [a->elem]. *)
Definition hiarray_idx (a : hiarray T) (i : Z) : comp Z :=
  let! _ := ASSERT (0 <=? i) in
  let off := u32 (i * esize a) in
  if u32 (esize a) =? 0 then Oob
  else
    let! _ := ASSERT (off mod u32 (esize a) =? 0) in
    Ret (off / u32 (esize a)).

(** [realloc] of the elements to [bytes] bytes. *)
Definition grow (a : hiarray T) (bytes : Z) (h : heap) : comp (option (hiarray T) * heap) :=
  let! '(b, h) :=
    match elem_blk a with
    | Some e => realloc e h
    | None => Ret (malloc h)
    end in
  match b with
  | None => Ret (None, h)
  | Some b =>
      let n := room bytes (esize a) in
      Ret (Some (mkArray (ablk a) (nelem a) (Some b)
                   (take n (elem a ++ fresh_elems b (length (elem a)) (n - length (elem a)))) (esize a)
                   (u32 (nalloc a * 2))), h)
  end.

(** The index of the new element, or NULL. *)
Definition hiarray_push (a : hiarray T) (h : heap) : comp (option Z * hiarray T * heap) :=
  let! '(r, h) :=
    if nelem a =? nalloc a then
      let size := u64 (esize a * nalloc a) in
      grow a (u64 (2 * size)) h
    else Ret (Some a, h) in
  match r with
  | None => Ret (None, a, h)
  | Some a => Ret (Some (nelem a), with_nelem (u32 (nelem a + 1)) a, h)
  end.

Definition hiarray_pop (a : hiarray T) : comp (Z * hiarray T) :=
  let! _ := ASSERT (negb (nelem a =? 0)) in
  let a := with_nelem (u32 (nelem a - 1)) a in Ret (nelem a, a).

Definition hiarray_get (a : hiarray T) (idx : Z) : comp Z :=
  let! _ := ASSERT (negb (nelem a =? 0)) in
  let! _ := ASSERT (idx <? nelem a) in
  Ret idx.

Definition hiarray_top (a : hiarray T) : comp Z :=
  let! _ := ASSERT (negb (nelem a =? 0)) in hiarray_get a (u32 (nelem a - 1)).

(** Reading and writing through a pointer to an element. *)
Definition load_elem (a : hiarray T) (i : Z) : comp T :=
  match (if 0 <=? i then elem a !! Z.to_nat i else None) with
  | Some v => Ret v
  | None => Oob
  end.

Definition store_elem (a : hiarray T) (i : Z) (v : T) : comp (hiarray T) :=
  let! _ := load_elem a i in Ret (with_elem (<[Z.to_nat i := v]> (elem a)) a).

Definition hiarray_swap (a b : hiarray T) : hiarray T * hiarray T :=
  (mkArray (ablk a) (nelem b) (elem_blk b) (elem b) (esize b) (nalloc b),
   mkArray (ablk b) (nelem a) (elem_blk a) (elem a) (esize a) (nalloc a)).

(** [qsort] is the one of the C library. *)
Definition hiarray_sort (qsort : (T -> T -> Z) -> list T -> list T) (compare : T -> T -> Z) (a : hiarray T) : comp (hiarray T) :=
  let! _ := ASSERT (negb (nelem a =? 0)) in
  if nelem a <=? Z.of_nat (length (elem a)) then
    let n := Z.to_nat (nelem a) in
    Ret (with_elem (qsort compare (take n (elem a)) ++ drop n (elem a)) a)
  else Oob.

(** [func] gets a pointer to the element, which it may change, and its
    [data]. *)
Fixpoint each_loop {S : Type} (func : T -> S -> comp (Z * T * S)) (k : nat) (i : Z) (a : hiarray T) (s : S) : comp (Z * hiarray T * S) :=
  match k with
  | O => Ret (HI_OK, a, s)
  | Datatypes.S k =>
      let! elem := hiarray_get a i in
      let! v := load_elem a elem in
      let! '(status, v, s) := func v s in
      let! a := store_elem a elem v in
      if status =? HI_OK then each_loop func k (i + 1) a s else Ret (status, a, s)
  end.

Definition hiarray_each {S : Type} (func : T -> S -> comp (Z * T * S)) (a : hiarray T) (s : S) : comp (Z * hiarray T * S) :=
  let! _ := ASSERT (negb (hiarray_n a =? 0)) in
  each_loop func (Z.to_nat (hiarray_n a)) 0 a s.

(** ** The array as a list *)

(** [a] holds the elements [l]. *)
Record array_ok (a : hiarray T) (l : list T) : Prop := {
  ok_nelem : nelem a = Z.of_nat (length l);
  ok_elem : take (length l) (elem a) = l;
  ok_nalloc : nalloc a = Z.of_nat (length (elem a));
  ok_room : nelem a <= nalloc a;
  ok_size : 0 < esize a;
  ok_alloc : 0 < nalloc a;
  ok_blk : is_Some (elem_blk a)
}.

(** The blocks of an array. *)
Definition array_blocks (a : hiarray T) : list Z := option_list (elem_blk a) ++ [ablk a].

Lemma length_fresh b i n : length (fresh_elems b i n) = n.
Proof. unfold fresh_elems. by rewrite length_map, length_seq. Qed.

Lemma room_exact n size : 0 < size -> 0 <= n -> n * size < 2 ^ 64 -> room (u64 (n * size)) size = Z.to_nat n.
Proof. intros Hs Hn Hb. unfold room, u64. rewrite Z.mod_small by nia. by rewrite Z.div_mul by lia. Qed.

Lemma array_create_ok n size h0 rest h : 0 < n < 2 ^ 32 -> 0 < size < 2 ^ 32 -> acquires h0 rest h ->
  yields (hiarray_create n size h) (fun '(r, h') =>
    match r with
    | Some a => array_ok a [] /\ nalloc a = n /\ esize a = size /\ acquires h0 (array_blocks a ++ rest) h'
    | None => acquires h0 rest h' /\ exists m, grants m = false
    end).
Proof.
  intros Hn Hs H. unfold hiarray_create. rewrite ASSERT_true by lia. cbn [cbind]. pose proof (malloc_more h0 rest h H) as H1.
  destruct (malloc h) as [[b|] h1]; [|by apply yields_Ret].
  pose proof (malloc_more h0 (b :: rest) h1 H1) as H2. destruct (malloc h1) as [[e|] h2].
  - apply yields_Ret. split; [|done]. rewrite room_exact by nia.
    split; cbn; rewrite ?length_fresh, ?take_0; try done; lia.
  - destruct H2 as [H2 Hg]. eapply yields_bind; [by eapply free_first|]. intros h3 H3. by apply yields_Ret.
Qed.

Lemma array_destroy_ok a h0 rest h : nelem a = 0 -> acquires h0 (array_blocks a ++ rest) h -> yields (hiarray_destroy a h) (acquires h0 rest).
Proof.
  intros Hn H. unfold hiarray_destroy, hiarray_deinit, array_blocks in *. rewrite ASSERT_true by lia. cbn [cbind].
  eapply (yields_bind (fun r => ablk r.1 = ablk a /\ acquires h0 (ablk a :: rest) r.2)).
  - destruct (elem_blk a) as [e|]; cbn in *; [|by apply yields_Ret].
    eapply yields_bind; [by eapply free_first|]. intros h1 H1. by apply yields_Ret.
  - intros [a1 h1] [E H1]. cbn in *. rewrite E. by eapply free_first.
Qed.

Lemma grow_ok a l h0 rest h : array_ok a l -> nalloc a < 2 ^ 31 -> 2 * nalloc a * esize a < 2 ^ 64 ->
  acquires h0 (array_blocks a ++ rest) h ->
  yields (grow a (u64 (2 * u64 (esize a * nalloc a))) h) (fun '(r, h') =>
    match r with
    | Some a' => array_ok a' l /\ nalloc a' = 2 * nalloc a /\ esize a' = esize a /\ acquires h0 (array_blocks a' ++ rest) h'
    | None => acquires h0 (array_blocks a ++ rest) h' /\ exists m, grants m = false
    end).
Proof.
  intros [H1 H2 H3 H4 H5 H6 [e He]] Hb Hz H. unfold grow, array_blocks in *. rewrite He in H |- *.
  change (acquires h0 (e :: ablk a :: rest) h) in H.
  eapply yields_bind; [by eapply realloc_first|]. intros [[b|] h1] Hr; [|by apply yields_Ret].
  apply yields_Ret. assert (u64 (esize a * nalloc a) = esize a * nalloc a) as -> by (apply Z.mod_small; nia).
  replace (2 * (esize a * nalloc a)) with ((2 * nalloc a) * esize a) by lia. rewrite room_exact by nia.
  split; [|cbn; unfold u32; rewrite Z.mod_small by lia; split; [lia|done]].
  assert (length (take (Z.to_nat (2 * nalloc a)) (elem a ++ fresh_elems b (length (elem a)) (Z.to_nat (2 * nalloc a) - length (elem a)))) = Z.to_nat (2 * nalloc a)) as E.
  { rewrite length_take, length_app, length_fresh. lia. }
  split; cbn [nelem elem nalloc esize elem_blk]; rewrite ?E; try done; try (unfold u32; rewrite Z.mod_small by lia; lia).
  rewrite take_take, Nat.min_l by lia. rewrite take_app_le by lia. done.
Qed.

(** [push] as the program uses it: the new element is written at once. *)
Definition push_value (v : T) (a : hiarray T) (h : heap) : comp (bool * hiarray T * heap) :=
  let! '(p, a, h) := hiarray_push a h in
  match p with
  | Some i => let! a := store_elem a i v in Ret (true, a, h)
  | None => Ret (false, a, h)
  end.

Lemma load_ok a l i v : array_ok a l -> l !! i = Some v -> load_elem a (Z.of_nat i) = Ret v.
Proof.
  intros Ha Hi. unfold load_elem. rewrite (proj2 (Z.leb_le 0 _)), Nat2Z.id by lia.
  pose proof (ok_elem _ _ Ha) as E. rewrite <- E in Hi. apply lookup_take_Some in Hi as [-> _]. done.
Qed.

Lemma array_append_ok a l v : array_ok a l -> nelem a < nalloc a -> nelem a + 1 < 2 ^ 32 ->
  yields (store_elem (with_nelem (u32 (nelem a + 1)) a) (nelem a) v) (fun a' =>
    array_ok a' (l ++ [v]) /\ nalloc a' = nalloc a /\ esize a' = esize a /\ array_blocks a' = array_blocks a).
Proof.
  intros [H1 H2 H3 H4 H5 H6 H7] Hr Hb. unfold store_elem, load_elem. cbn [elem with_nelem].
  rewrite (proj2 (Z.leb_le 0 _)) by lia. rewrite H1, Nat2Z.id.
  destruct (lookup_lt_is_Some_2 (elem a) (length l)) as [x Hx]; [lia|]. rewrite Hx. apply yields_Ret.
  split; [|done]. split; cbn; rewrite ?length_app, ?length_insert; cbn; try done; try lia.
  - unfold u32. rewrite Z.mod_small by lia. lia.
  - rewrite Nat.add_1_r. erewrite take_S_r by (apply list_lookup_insert_eq; lia). rewrite take_insert, H2.
    by rewrite decide_False by lia.
  - unfold u32. rewrite Z.mod_small by lia. lia.
Qed.

(** The slot that a push makes. *)
Lemma push_slot a l h0 rest h : array_ok a l -> nelem a < 2 ^ 31 -> 2 * nelem a * esize a < 2 ^ 64 ->
  acquires h0 (array_blocks a ++ rest) h ->
  yields (hiarray_push a h) (fun '(r, a', h') =>
    esize a' = esize a /\ nalloc a' <= Z.max (nalloc a) (2 * nelem a) /\ acquires h0 (array_blocks a' ++ rest) h' /\
    match r with
    | Some i => returns (load_elem a' i) /\ forall v, yields (store_elem a' i v) (fun a2 =>
        array_ok a2 (l ++ [v]) /\ nalloc a2 = nalloc a' /\ esize a2 = esize a' /\ array_blocks a2 = array_blocks a')
    | None => a' = a /\ exists m, grants m = false
    end).
Proof.
  intros Ha Hb Hz H. pose proof (ok_room _ _ Ha) as Hr. pose proof (ok_alloc _ _ Ha) as Hl. unfold hiarray_push.
  assert (Hslot : forall a1 h1, array_ok a1 l -> nelem a1 < nalloc a1 -> esize a1 = esize a -> nalloc a1 <= Z.max (nalloc a) (2 * nelem a) ->
    acquires h0 (array_blocks a1 ++ rest) h1 ->
    yields (Ret (Some (nelem a1), with_nelem (u32 (nelem a1 + 1)) a1, h1)) (fun '(r, a', h') =>
    esize a' = esize a /\ nalloc a' <= Z.max (nalloc a) (2 * nelem a) /\ acquires h0 (array_blocks a' ++ rest) h' /\
    match r with
    | Some i => returns (load_elem a' i) /\ forall v, yields (store_elem a' i v) (fun a2 =>
        array_ok a2 (l ++ [v]) /\ nalloc a2 = nalloc a' /\ esize a2 = esize a' /\ array_blocks a2 = array_blocks a')
    | None => a' = a /\ exists m, grants m = false
    end)).
  { intros a1 h1 H1 H2 H3 H4 H5. apply yields_Ret. split; [done|]. split; [done|]. split; [done|].
    pose proof (ok_nelem _ _ H1). pose proof (ok_nelem _ _ Ha).
    assert (Hst : forall v, yields (store_elem (with_nelem (u32 (nelem a1 + 1)) a1) (nelem a1) v) (fun a2 =>
      array_ok a2 (l ++ [v]) /\ nalloc a2 = nalloc a1 /\ esize a2 = esize a1 /\ array_blocks a2 = array_blocks a1))
      by (intros v; apply array_append_ok; (done || lia)).
    split; [|exact Hst]. pose proof (ok_nalloc _ _ H1). unfold load_elem. cbn [elem with_nelem]. rewrite (proj2 (Z.leb_le 0 _)) by lia.
    destruct (lookup_lt_is_Some_2 (elem a1) (Z.to_nat (nelem a1))) as [x ->]; [lia|]. apply returns_Ret. }
  destruct (Z.eqb_spec (nelem a) (nalloc a)) as [E|E]; cbn [cbind]; [|apply Hslot; (done || lia)].
  eapply yields_bind; [apply (grow_ok a l h0 rest h); (done || congruence)|]. intros [[a1|] h1] Hg.
  - destruct Hg as (G1 & G2 & G3 & G4). pose proof (ok_nelem _ _ G1). pose proof (ok_nelem _ _ Ha). apply Hslot; (done || lia).
  - destruct Hg as [G1 G2]. apply yields_Ret. split; [done|]. split; [lia|]. done.
Qed.

Lemma array_push_ok a l v h0 rest h : array_ok a l -> nelem a < 2 ^ 31 -> 2 * nelem a * esize a < 2 ^ 64 ->
  acquires h0 (array_blocks a ++ rest) h ->
  yields (push_value v a h) (fun '(b, a', h') =>
    esize a' = esize a /\ nalloc a' <= Z.max (nalloc a) (2 * nelem a) /\ acquires h0 (array_blocks a' ++ rest) h' /\
    if b : bool then array_ok a' (l ++ [v]) else a' = a /\ exists m, grants m = false).
Proof.
  intros Ha Hb Hz H. unfold push_value. eapply yields_bind; [by apply (push_slot a l h0 rest h)|].
  intros [[[i|] a1] h1] (E1 & E2 & E3 & E4); [|by apply yields_Ret]. destruct E4 as [_ Hst].
  eapply yields_bind; [apply Hst|]. intros a2 (S1 & S2 & S3 & S4). apply yields_Ret. rewrite S2, S3, S4. done.
Qed.

Lemma pop_ok a l v : array_ok a (l ++ [v]) -> Z.of_nat (length l) < 2 ^ 32 ->
  exists i a', hiarray_pop a = Ret (i, a') /\ array_ok a' l /\ load_elem a' i = Ret v /\ array_blocks a' = array_blocks a /\
    nalloc a' = nalloc a /\ esize a' = esize a.
Proof.
  intros Ha Hb. assert (load_elem a (Z.of_nat (length l)) = Ret v) as Hv.
  { apply (load_ok a (l ++ [v])); [done|]. rewrite lookup_app_r by lia. by rewrite Nat.sub_diag. }
  pose proof (ok_elem _ _ Ha) as He. destruct Ha as [H1 _ H3 H4 H5 H6 H7]. rewrite length_app in *. cbn in H1, He.
  unfold hiarray_pop. rewrite ASSERT_true by lia. cbn [cbind].
  assert (u32 (nelem a - 1) = Z.of_nat (length l)) as -> by (unfold u32; rewrite Z.mod_small; lia).
  do 2 eexists. split; [done|]. split; [|done]. split; cbn [nelem elem nalloc esize elem_blk with_nelem]; try done; try lia.
  apply (f_equal (take (length l))) in He. rewrite take_take, Nat.min_l, take_app_length in He by lia. done.
Qed.

Lemma get_ok a l i v : array_ok a l -> l !! i = Some v -> hiarray_get a (Z.of_nat i) = Ret (Z.of_nat i).
Proof.
  intros Ha Hi. apply lookup_lt_Some in Hi. pose proof (ok_nelem _ _ Ha). unfold hiarray_get. by rewrite !ASSERT_true by lia.
Qed.

Lemma top_ok a l v : array_ok a (l ++ [v]) -> Z.of_nat (length l) < 2 ^ 32 -> (let! i := hiarray_top a in load_elem a i) = Ret v.
Proof.
  intros Ha Hb. pose proof (ok_nelem _ _ Ha) as H1. rewrite length_app in H1. cbn in H1. unfold hiarray_top.
  rewrite ASSERT_true by lia. cbn [cbind].
  assert (u32 (nelem a - 1) = Z.of_nat (length l)) as -> by (unfold u32; rewrite Z.mod_small; lia).
  rewrite (get_ok a (l ++ [v]) _ v) by (done || by rewrite lookup_app_r, Nat.sub_diag). cbn [cbind].
  apply (load_ok a (l ++ [v])); [done|]. rewrite lookup_app_r by lia. by rewrite Nat.sub_diag.
Qed.

(** What [hiarray_each] does on a list. *)
Fixpoint each_list {S : Type} (func : T -> S -> comp (Z * T * S)) (l : list T) (s : S) : comp (Z * list T * S) :=
  match l with
  | [] => Ret (HI_OK, [], s)
  | v :: l =>
      let! '(status, v, s) := func v s in
      if status =? HI_OK then let! '(r, l, s) := each_list func l s in Ret (r, v :: l, s)
      else Ret (status, v :: l, s)
  end.

Lemma store_ok a l1 v l2 v' : array_ok a (l1 ++ v :: l2) ->
  yields (store_elem a (Z.of_nat (length l1)) v') (fun a' => array_ok a' (l1 ++ v' :: l2) /\ array_blocks a' = array_blocks a).
Proof.
  intros Ha. unfold store_elem. rewrite (load_ok a (l1 ++ v :: l2) (length l1) v) by (done || by rewrite lookup_app_r, Nat.sub_diag).
  apply yields_Ret. split; [|done]. destruct Ha as [H1 H2 H3 H4 H5 H6 H7]. rewrite length_app in *. cbn [length] in *.
  split; cbn [nelem elem nalloc esize elem_blk with_elem]; rewrite ?length_app, ?length_insert; cbn [length]; try done.
  rewrite Nat2Z.id, take_insert, H2, decide_True by lia. by rewrite insert_app_r_alt, Nat.sub_diag by lia.
Qed.

Lemma each_loop_ok {S : Type} (func : T -> S -> comp (Z * T * S)) l : forall l1 a s r l' s', array_ok a (l1 ++ l) ->
  each_list func l s = Ret (r, l', s') ->
  yields (each_loop func (length l) (Z.of_nat (length l1)) a s) (fun '(r0, a', s0) =>
    r0 = r /\ s0 = s' /\ array_blocks a' = array_blocks a /\ array_ok a' (l1 ++ l')).
Proof.
  induction l as [|v l IH]; intros l1 a s r l' s' Ha E; cbn [each_list each_loop length] in *.
  - injection E as <- <- <-. apply yields_Ret. split; [done|]. split; [done|]. done.
  - rewrite (get_ok a (l1 ++ v :: l) (length l1) v) by (done || by rewrite lookup_app_r, Nat.sub_diag). cbn [cbind].
    rewrite (load_ok a (l1 ++ v :: l) (length l1) v) by (done || by rewrite lookup_app_r, Nat.sub_diag).
    cbn [cbind]. destruct (func v s) as [[[st v'] s1]| |]; [|done|done]. cbn [cbind] in *.
    eapply yields_bind; [by eapply store_ok|]. intros a1 (H1 & B1). destruct (st =? HI_OK).
    + apply cbind_Ret_inv in E as ([[r2 l2] s2] & E & E2). injection E2 as -> <- ->.
      replace (Z.of_nat (length l1) + 1) with (Z.of_nat (length (l1 ++ [v']))) by (rewrite length_app; cbn; lia).
      eapply yields_mono; [apply (IH (l1 ++ [v']) a1 s1 r l2 s'); [by rewrite <- app_assoc|done]|].
      intros [[r0 a'] s0] (-> & -> & B & H3). rewrite <- app_assoc in H3. split; [done|]. split; [done|]. split; [congruence|].
      done.
    + injection E as <- <- <-. apply yields_Ret. split; [done|]. split; [done|]. done.
Qed.

(** ** Sequences of operations *)

Inductive array_op := Push (v : T) | Pop | Get (i : Z) | Top | Sort.
Inductive array_result := Pushed (ok : bool) | Value (v : T) | Nothing | Sorted.

Context (qsort : (T -> T -> Z) -> list T -> list T) (compare : T -> T -> Z).
Hypothesis qsort_perm : forall c l, qsort c l ≡ₚ l.

(** The assertions of the code are for the caller, who asks for the number of
    elements first; an array without elements has nothing to give or to sort. *)
Definition perform (o : array_op) (a : hiarray T) (h : heap) : comp (array_result * hiarray T * heap) :=
  match o with
  | Push v => let! '(b, a, h) := push_value v a h in Ret (Pushed b, a, h)
  | Pop =>
      if 0 <? hiarray_n a then let! '(i, a) := hiarray_pop a in let! v := load_elem a i in Ret (Value v, a, h)
      else Ret (Nothing, a, h)
  | Get i =>
      if (0 <=? i) && (i <? hiarray_n a) then let! i := hiarray_get a i in let! v := load_elem a i in Ret (Value v, a, h)
      else Ret (Nothing, a, h)
  | Top =>
      if 0 <? hiarray_n a then let! v := (let! i := hiarray_top a in load_elem a i) in Ret (Value v, a, h)
      else Ret (Nothing, a, h)
  | Sort =>
      if 0 <? hiarray_n a then let! a := hiarray_sort qsort compare a in Ret (Sorted, a, h)
      else Ret (Nothing, a, h)
  end.

Fixpoint run (ops : list array_op) (a : hiarray T) (h : heap) : comp (list array_result * hiarray T * heap) :=
  match ops with
  | [] => Ret ([], a, h)
  | o :: ops => let! '(r, a, h) := perform o a h in let! '(rs, a, h) := run ops a h in Ret (r :: rs, a, h)
  end.

(** The operations of a stack; a [push] is only refused without memory. *)
Inductive stack_step : array_op -> list T -> array_result -> list T -> Prop :=
| stack_push v l : stack_step (Push v) l (Pushed true) (l ++ [v])
| stack_full v l m : grants m = false -> stack_step (Push v) l (Pushed false) l
| stack_pop v l : stack_step Pop (l ++ [v]) (Value v) l
| stack_get i v l : l !! i = Some v -> stack_step (Get (Z.of_nat i)) l (Value v) l
| stack_none o : o = Pop \/ o = Top \/ o = Sort -> stack_step o [] Nothing []
| stack_out i l : i < 0 \/ Z.of_nat (length l) <= i -> stack_step (Get i) l Nothing l
| stack_top v l : stack_step Top (l ++ [v]) (Value v) (l ++ [v])
| stack_sort l : l <> [] -> stack_step Sort l Sorted (qsort compare l).

Inductive stack_run : list array_op -> list T -> list array_result -> list T -> Prop :=
| stack_nil l : stack_run [] l [] l
| stack_cons o ops l r l1 rs l2 : stack_step o l r l1 -> stack_run ops l1 rs l2 -> stack_run (o :: ops) l (r :: rs) l2.

Lemma sort_ok a l : array_ok a l -> l <> [] -> yields (hiarray_sort qsort compare a) (fun a' =>
  array_ok a' (qsort compare l) /\ nalloc a' = nalloc a /\ esize a' = esize a /\ array_blocks a' = array_blocks a).
Proof.
  intros [H1 H2 H3 H4 H5 H6 H7] Hne. assert (0 < nelem a) by (destruct l; [done|cbn in H1; lia]).
  unfold hiarray_sort. rewrite ASSERT_true by lia. cbn [cbind]. rewrite (proj2 (Z.leb_le _ _)) by lia. apply yields_Ret.
  rewrite H1, Nat2Z.id, H2. pose proof (Permutation_length (qsort_perm compare l)) as E.
  split; [|done]. split; cbn [nelem elem nalloc esize elem_blk with_elem]; rewrite ?length_app, ?length_drop, ?E; try done; try lia.
  rewrite <- E. apply take_app_length.
Qed.

(** The bounds that keep the sizes from wrapping. *)
Definition bounded (a : hiarray T) (n : nat) : Prop :=
  esize a < 2 ^ 32 /\ nelem a + Z.of_nat n < 2 ^ 31.

Lemma perform_ok o n a l h0 rest h : array_ok a l -> bounded a (Datatypes.S n) -> acquires h0 (array_blocks a ++ rest) h ->
  yields (perform o a h) (fun '(r, a', h') => exists l', stack_step o l r l' /\ array_ok a' l' /\ bounded a' n /\
    acquires h0 (array_blocks a' ++ rest) h').
Proof.
  intros Ha (B1 & B2) H. pose proof (ok_nelem _ _ Ha) as Hn. unfold bounded.
  assert (2 * nelem a * esize a < 2 ^ 64) as Hprod.
  { pose proof (ok_size _ _ Ha). pose proof (Z.mul_lt_mono_nonneg (nelem a) (2 ^ 31) (esize a) (2 ^ 32)). lia. }
  destruct o as [v| |i| |]; cbn [perform]; unfold hiarray_n.
  - eapply yields_bind; [apply (array_push_ok a l v h0 rest h); (done || lia)|]. intros [[[|] a1] h1] (E1 & E2 & E3 & E4); apply yields_Ret.
    + exists (l ++ [v]). split; [constructor|]. split; [done|]. rewrite E1, (ok_nelem _ _ E4), length_app. cbn. split; [lia|done].
    + destruct E4 as [-> [m Hm]]. exists l. split; [by econstructor|]. split; [done|]. split; [lia|done].
  - rewrite Hn. destruct l as [|v l1 _] using rev_ind; [apply yields_Ret; exists []; split; [by constructor; left|]; split; [done|]; split; [lia|done]|].
    rewrite length_app, (proj2 (Z.ltb_lt _ _)) in * by (cbn; lia). cbn [length] in *.
    destruct (pop_ok a l1 v Ha ltac:(lia)) as (i & a1 & -> & P1 & Ev & P3 & P4 & P5). cbn [cbind]. rewrite Ev. apply yields_Ret. exists l1. split; [constructor|]. split; [done|].
    rewrite P3, P5, (ok_nelem _ _ P1). split; [lia|done].
  - destruct (Z.leb_spec 0 i), (Z.ltb_spec i (nelem a)); cbn [andb];
      try (apply yields_Ret; exists l; split; [constructor; lia|]; split; [done|]; split; [lia|done]).
    destruct (lookup_lt_is_Some_2 l (Z.to_nat i)) as [v Hv]; [lia|]. rewrite <- (Z2Nat.id i) at 1 by lia.
    rewrite (get_ok a l _ v) by done. cbn [cbind]. rewrite (load_ok a l _ v) by done. apply yields_Ret. exists l. rewrite <- (Z2Nat.id i) at 1 by lia.
    split; [by constructor|]. split; [done|]. split; [lia|done].
  - rewrite Hn. destruct l as [|v l1 _] using rev_ind; [apply yields_Ret; exists []; split; [by constructor; right; left|]; split; [done|]; split; [lia|done]|].
    rewrite length_app, (proj2 (Z.ltb_lt _ _)) in * by (cbn; lia). cbn [length] in *. rewrite (top_ok a l1 v) by (done || lia).
    apply yields_Ret. exists (l1 ++ [v]). split; [constructor|]. split; [done|]. split; [lia|done].
  - rewrite Hn. destruct (decide (l = [])) as [->|Hne];
      [apply yields_Ret; exists []; split; [by constructor; right; right|]; split; [done|]; split; [lia|done]|].
    rewrite (proj2 (Z.ltb_lt _ _)) by (destruct l; [done|cbn; lia]). eapply yields_bind; [by apply (sort_ok a l)|]. intros a1 (S1 & S2 & S3 & S4). apply yields_Ret. exists (qsort compare l).
    pose proof (Permutation_length (qsort_perm compare l)) as E.
    split; [by constructor|]. split; [done|]. rewrite S3, S4, (ok_nelem _ _ S1), E. split; [lia|done].
Qed.

Lemma array_run_ok ops : forall a l h0 rest h, array_ok a l -> bounded a (length ops) -> acquires h0 (array_blocks a ++ rest) h ->
  yields (run ops a h) (fun '(rs, a', h') => exists l', stack_run ops l rs l' /\ array_ok a' l' /\ acquires h0 (array_blocks a' ++ rest) h').
Proof.
  induction ops as [|o ops IH]; intros a l h0 rest h Ha Hb H; cbn [run].
  - apply yields_Ret. exists l. split; [constructor|done].
  - eapply yields_bind; [by apply (perform_ok o (length ops) a l h0 rest h)|]. intros [[r a1] h1] (l1 & S1 & A1 & B1 & H1).
    eapply yields_bind; [by apply (IH a1 l1 h0 rest h1)|]. intros [[rs a2] h2] (l2 & S2 & A2 & H2).
    apply yields_Ret. exists l2. split; [by econstructor|done].
Qed.

(** The life of an array: it is created, used and destroyed; the elements
    are dropped first, as [command_destroy] does. *)
Definition life (n size : Z) (ops : list array_op) (h : heap) : comp (option (list array_result) * heap) :=
  let! '(a, h) := hiarray_create n size h in
  match a with
  | None => Ret (None, h)
  | Some a => let! '(rs, a, h) := run ops a h in let! h := hiarray_destroy (with_nelem 0 a) h in Ret (Some rs, h)
  end.

(** C26: in every build, with assertions that stop the program or without, the
    operations of hiarray.c are those of a stack: whatever is pushed, popped,
    read or sorted by a caller that asks for the number of elements first, the
    results are those on a list, a push is refused only when memory is, and then
    changes nothing, every access is inside the block of the elements, no
    assertion fails, and destroying the array returns its blocks. *)
Theorem hiarray_refines n size ops h : heap_ok h -> 0 < n < 2 ^ 32 -> 0 < size < 2 ^ 32 ->
  Z.of_nat (length ops) < 2 ^ 31 ->
  yields (life n size ops h) (fun '(r, h') => acquires h [] h' /\
    match r with
    | Some rs => exists l, stack_run ops [] rs l
    | None => exists m, grants m = false
    end).
Proof.
  intros Hh Hn Hs Hl. unfold life. eapply yields_bind; [apply (array_create_ok n size h []); [lia|done|by apply acquires_nil]|].
  intros [[a|] h1]; [intros (Ha & E1 & E2 & H1)|intros [H1 Hg]; by apply yields_Ret].
  pose proof (ok_nelem _ _ Ha) as Hz. cbn in Hz.
  eapply yields_bind; [apply (array_run_ok ops a [] h [] h1); [done| |done]|].
  - unfold bounded. rewrite E2, Hz. lia.
  - intros [[rs a2] h2] (l & Hr & _ & H2). eapply yields_bind; [by apply (array_destroy_ok (with_nelem 0 a2) h [])|].
    intros h3 H3. apply yields_Ret. eauto.
Qed.

End hiarray.

(** Four pushes on an array for one element: it grows to two and to four. *)
Definition ops_sample : list (@array_op Z) := [Sort; Push 5; Push 6; Push 7; Pop; Push 8; Get 1; Top; Sort].

Lemma hiarray_refines_witness :
  yields (@life plenty Z (fun _ _ => 0) true (fun _ l => l) Z.sub 1 8 ops_sample (mkHeap 0 ∅)) (fun '(r, h') => acquires (mkHeap 0 ∅) [] h' /\
    match r with
    | Some rs => exists l, @stack_run plenty Z (fun _ l => l) Z.sub ops_sample [] rs l
    | None => exists m, @grants plenty m = false
    end).
Proof.
  apply (@hiarray_refines plenty Z (fun _ _ => 0) true (fun _ l => l) Z.sub (fun _ l => Permutation_refl l) 1 8 ops_sample).
  - intros b Hb. by apply not_elem_of_empty in Hb.
  - lia.
  - lia.
  - cbn. lia.
Defined.
