(* ===== verification/Dict.v ===== *)
(** * The hash table of the redis client

    libredis/hiredis/dict.c: chained hashing with tables of a power of two.
    The cluster client keeps its nodes in it (hircluster.c, which also gives
    the hash and the comparison of sds keys).

    Keys and values are [void *].  A chain is the list of its entries, and an
    entry is known by its block; a pointer to an entry that was freed leads
    nowhere.  The functions of [dictType] belong to the client: they act on a
    client state of any type [S]. *)

From stdpp Require Import gmap.
From S2P Require Import Prelude Heap.

#[local] Open Scope Z_scope.
#[local] Set Warnings "-clear-no-such-hyp".

(** ** Data *)

Record dictEntry := DictEntry { entry_block : Z; key : Z; val : Z }.

(** [slots] is what the block [table] holds: the chain of every slot. *)
Record dict := Dict {
  table : option Z;
  slots : list (list dictEntry);
  size : Z;
  sizemask : Z;
  used : Z
}.

(** Null pointers to functions are [None]; [privdata] is part of the functions. *)
Record dictType (S : Type) := DictType {
  hashFunction : Z -> Z;
  keyDup : option (Z -> S -> Z * S);
  valDup : option (Z -> S -> Z * S);
  keyCompare : option (Z -> Z -> bool);
  keyDestructor : option (Z -> S -> S);
  valDestructor : option (Z -> S -> S)
}.
Arguments hashFunction {S} _ _.
Arguments keyDup {S} _.
Arguments valDup {S} _.
Arguments keyCompare {S} _.
Arguments keyDestructor {S} _.
Arguments valDestructor {S} _.

(** The heap and the state of the client. *)
Record world (S : Type) := World { mem : heap; client : S }.
Arguments World {S} _ _.
Arguments mem {S} _.
Arguments client {S} _.

Definition DICT_OK : Z := 0.
Definition DICT_ERR : Z := 1.
Definition DICT_HT_INITIAL_SIZE : Z := 4.
Definition LONG_MAX : Z := 2 ^ 63 - 1.

(** ** Operations *)

(** hash * 33 + c over the bytes of the key, on [unsigned int]. *)
Fixpoint dictGenHash_loop (buf : list Z) (hash : Z) : Z :=
  match buf with
  | [] => hash
  | c :: buf => dictGenHash_loop buf (u32 (u32 (u32 (Z.shiftl hash 5) + hash) + c))
  end.

Definition dictGenHashFunction (buf : list Z) : Z := dictGenHash_loop buf 5381.

Definition dictReset : dict := Dict None [] 0 0 0.

(** _dictNextPower doubles from 4 on; 62 doublings pass LONG_MAX. *)
Fixpoint next_power_loop (rounds : nat) (i size : Z) : comp Z :=
  match rounds with
  | O => NoFuel
  | S rounds => if i >=? size then Ret i else next_power_loop rounds (u64 (i * 2)) size
  end.

Definition dictNextPower (size : Z) : comp Z :=
  if size >=? LONG_MAX then Ret LONG_MAX else next_power_loop 64 DICT_HT_INITIAL_SIZE size.

Section Dict.
Context {A : Allocator} {S : Type} (T : dictType S).

Definition hi_malloc (w : world S) : option Z * world S :=
  let (b, h) := malloc (mem w) in (b, World h (client w)).

(** calloc also fails when the product does not fit. *)
Definition hi_calloc (nmemb sz : Z) (w : world S) : option Z * world S :=
  if nmemb * sz <? 2 ^ 64 then hi_malloc w else (None, w).

Definition hi_free (b : option Z) (w : world S) : comp (world S) :=
  match b with
  | Some b => let! h := free b (mem w) in Ret (World h (client w))
  | None => Ret w
  end.

(** The macros of dict.h. *)
Definition dictHashKey (k : Z) : Z := u32 (hashFunction T k).

Definition dictCompareHashKeys (k1 k2 : Z) : bool :=
  match keyCompare T with Some f => f k1 k2 | None => k1 =? k2 end.

Definition dup (f : option (Z -> S -> Z * S)) (v : Z) (w : world S) : Z * world S :=
  match f with
  | Some f => let (v, s) := f v (client w) in (v, World (mem w) s)
  | None => (v, w)
  end.

Definition destruct_with (f : option (Z -> S -> S)) (v : Z) (w : world S) : world S :=
  match f with Some f => World (mem w) (f v (client w)) | None => w end.

Definition dictFreeEntryKey (e : dictEntry) (w : world S) : world S := destruct_with (keyDestructor T) (key e) w.
Definition dictFreeEntryVal (e : dictEntry) (w : world S) : world S := destruct_with (valDestructor T) (val e) w.

(** [ht->table[i]] and its assignment. *)
Definition load_slot (i : Z) (ht : dict) : comp (list dictEntry) :=
  match table ht with
  | Some _ => if 0 <=? i then match slots ht !! Z.to_nat i with Some c => Ret c | None => Oob end else Oob
  | None => Oob
  end.

Definition store_slot (i : Z) (c : list dictEntry) (ht : dict) : comp dict :=
  let! _ := load_slot i ht in
  Ret (Dict (table ht) (<[Z.to_nat i := c]> (slots ht)) (size ht) (sizemask ht) (used ht)).

Definition set_used (u : Z) (ht : dict) : dict := Dict (table ht) (slots ht) (size ht) (sizemask ht) u.

Definition slot_of (ht : dict) (k : Z) : Z := u32 (Z.land (dictHashKey k) (sizemask ht)).

(** dictExpand moves the chain [he] to the front of its slots in [n]; [u] is
    [ht->used]. *)
Fixpoint move_chain (he : list dictEntry) (n : dict) (u : Z) : comp (dict * Z) :=
  match he with
  | [] => Ret (n, u)
  | e :: nextHe =>
      let h := slot_of n (key e) in
      let! c := load_slot h n in
      let! n := store_slot h (e :: c) n in
      move_chain nextHe n (u64 (u - 1))
  end.

Fixpoint move_slots (rounds : nat) (i : Z) (ht n : dict) (u : Z) : comp (dict * Z) :=
  if (i <? size ht) && (u >? 0) then
    match rounds with
    | O => NoFuel
    | Datatypes.S rounds =>
        let! he := load_slot i ht in
        let! '(n, u) := move_chain he n u in
        move_slots rounds (i + 1) ht n u
    end
  else Ret (n, u).

(** The assertion is that all entries were moved. *)
Definition dictExpand (ht : dict) (size' : Z) (w : world S) : comp (Z * dict * world S) :=
  let! realsize := dictNextPower size' in
  if used ht >? size' then Ret (DICT_ERR, ht, w) else
  match hi_calloc realsize 8 w with
  | (None, w) => Ret (DICT_ERR, ht, w)
  | (Some b, w) =>
      let n := Dict (Some b) (replicate (Z.to_nat realsize) []) realsize (u64 (realsize - 1)) (used ht) in
      let! '(n, u) := move_slots (Z.to_nat (size ht)) 0 ht n (used ht) in
      if u =? 0 then
        let! w := hi_free (table ht) w in
        Ret (DICT_OK, n, w)
      else Oob
  end.

Definition dictExpandIfNeeded (ht : dict) (w : world S) : comp (Z * dict * world S) :=
  if size ht =? 0 then dictExpand ht DICT_HT_INITIAL_SIZE w
  else if used ht =? size ht then dictExpand ht (u64 (size ht * 2)) w
  else Ret (DICT_OK, ht, w).

(** The loop that looks for a key in a chain. *)
Fixpoint find_chain (k : Z) (he : list dictEntry) : option dictEntry :=
  match he with
  | [] => None
  | e :: he => if dictCompareHashKeys k (key e) then Some e else find_chain k he
  end.

(** The index is an [int]. *)
Definition dictKeyIndex (ht : dict) (k : Z) (w : world S) : comp (Z * dict * world S) :=
  let! '(r, ht, w) := dictExpandIfNeeded ht w in
  if r =? DICT_ERR then Ret (-1, ht, w) else
  let h := slot_of ht k in
  let! he := load_slot h ht in
  match find_chain k he with
  | Some _ => Ret (-1, ht, w)
  | None => Ret (i32 h, ht, w)
  end.

Definition dictAdd (ht : dict) (k v : Z) (w : world S) : comp (Z * dict * world S) :=
  let! '(index, ht, w) := dictKeyIndex ht k w in
  if index =? -1 then Ret (DICT_ERR, ht, w) else
  match hi_malloc w with
  | (None, w) => Ret (DICT_ERR, ht, w)
  | (Some b, w) =>
      let! next := load_slot index ht in
      let (k, w) := dup (keyDup T) k w in
      let (v, w) := dup (valDup T) v w in
      let! ht := store_slot index (DictEntry b k v :: next) ht in
      Ret (DICT_OK, set_used (u64 (used ht + 1)) ht, w)
  end.

(** Destroys a chain: keys, values and entries. *)
Fixpoint clear_chain (he : list dictEntry) (u : Z) (w : world S) : comp (Z * world S) :=
  match he with
  | [] => Ret (u, w)
  | e :: nextHe =>
      let w := dictFreeEntryVal e (dictFreeEntryKey e w) in
      let! w := hi_free (Some (entry_block e)) w in
      clear_chain nextHe (u64 (u - 1)) w
  end.

Fixpoint clear_slots (rounds : nat) (i : Z) (ht : dict) (u : Z) (w : world S) : comp (world S) :=
  if (i <? size ht) && (u >? 0) then
    match rounds with
    | O => NoFuel
    | Datatypes.S rounds =>
        let! he := load_slot i ht in
        let! '(u, w) := clear_chain he u w in
        clear_slots rounds (i + 1) ht u w
    end
  else Ret w.

Definition dictClear (ht : dict) (w : world S) : comp (dict * world S) :=
  let! w := clear_slots (Z.to_nat (size ht)) 0 ht (used ht) w in
  let! w := hi_free (table ht) w in
  Ret (dictReset, w).

(** dictCreate gives the table and its own block. *)
Definition dictCreate (w : world S) : option (Z * dict) * world S :=
  match hi_malloc w with
  | (None, w) => (None, w)
  | (Some b, w) => (Some (b, dictReset), w)
  end.

Definition dictRelease (b : Z) (ht : dict) (w : world S) : comp (world S) :=
  let! '(_, w) := dictClear ht w in
  hi_free (Some b) w.

Definition dictFind (ht : dict) (k : Z) : comp (option dictEntry) :=
  if size ht =? 0 then Ret None else
  let! he := load_slot (slot_of ht k) ht in
  Ret (find_chain k he).

(** Writing the value of the entry at a block. *)
Definition set_val (b v : Z) (ht : dict) : dict :=
  Dict (table ht) (map (map (fun e => if entry_block e =? b then DictEntry b (key e) v else e)) (slots ht))
    (size ht) (sizemask ht) (used ht).

Definition dictReplace (ht : dict) (k v : Z) (w : world S) : comp (Z * dict * world S) :=
  let! '(r, ht, w) := dictAdd ht k v w in
  if r =? DICT_OK then Ret (1, ht, w) else
  let! entry := dictFind ht k in
  match entry with
  | None => Ret (0, ht, w)
  | Some auxentry =>
      let (v, w) := dup (valDup T) v w in
      Ret (0, set_val (entry_block auxentry) v ht, dictFreeEntryVal auxentry w)
  end.

(** The loop of dictDelete: the entry and the chain without it. *)
Fixpoint unlink (k : Z) (de : list dictEntry) : option (dictEntry * list dictEntry) :=
  match de with
  | [] => None
  | e :: de =>
      if dictCompareHashKeys k (key e) then Some (e, de)
      else match unlink k de with Some (f, de) => Some (f, e :: de) | None => None end
  end.

Definition dictDelete (ht : dict) (k : Z) (w : world S) : comp (Z * dict * world S) :=
  if size ht =? 0 then Ret (DICT_ERR, ht, w) else
  let h := slot_of ht k in
  let! de := load_slot h ht in
  match unlink k de with
  | Some (e, de) =>
      let! ht := store_slot h de ht in
      let w := dictFreeEntryVal e (dictFreeEntryKey e w) in
      let! w := hi_free (Some (entry_block e)) w in
      Ret (DICT_OK, set_used (u64 (used ht - 1)) ht, w)
  | None => Ret (DICT_ERR, ht, w)
  end.

End Dict.

(** *** Iterators *)

Record dictIterator := DictIterator { index : Z; entry : option Z; nextEntry : option Z }.

Definition dictInitIterator : dictIterator := DictIterator (-1) None None.

Definition dictGetIterator {A : Allocator} {S : Type} (w : world S) : option (Z * dictIterator) * world S :=
  match hi_malloc w with
  | (None, w) => (None, w)
  | (Some b, w) => (Some (b, dictInitIterator), w)
  end.

Definition dictReleaseIterator {S : Type} (b : Z) (w : world S) : comp (world S) := hi_free (Some b) w.

(** [entry->next] and the entry itself: the entry is in a chain of the table. *)
Fixpoint chain_at (b : Z) (he : list dictEntry) : option (dictEntry * option Z) :=
  match he with
  | [] => None
  | e :: he => if entry_block e =? b then Some (e, entry_block <$> head he) else chain_at b he
  end.

Fixpoint deref_entry (b : Z) (cs : list (list dictEntry)) : comp (dictEntry * option Z) :=
  match cs with
  | [] => Oob
  | c :: cs => match chain_at b c with Some r => Ret r | None => deref_entry b cs end
  end.

(** The loop of dictNext ends after a round for every slot at most. *)
Fixpoint dictNext_loop (rounds : nat) (iter : dictIterator) (ht : dict) : comp (option dictEntry * dictIterator) :=
  match rounds with
  | O => NoFuel
  | S rounds =>
      let found (e : option Z) (i : Z) :=
        match e with
        | Some b => let! '(e, next) := deref_entry b (slots ht) in Ret (Some e, DictIterator i (Some b) next)
        | None => dictNext_loop rounds (DictIterator i None (nextEntry iter)) ht
        end in
      match entry iter with
      | None =>
          let i := i32 (index iter + 1) in
          if i >=? i32 (size ht) then Ret (None, DictIterator i None (nextEntry iter))
          else let! c := load_slot i ht in found (entry_block <$> head c) i
      | Some _ => found (nextEntry iter) (index iter)
      end
  end.

Definition dictNext (iter : dictIterator) (ht : dict) : comp (option dictEntry * dictIterator) :=
  dictNext_loop (S (S (Z.to_nat (size ht)))) iter ht.

(** *** Keys of the cluster client

    Keys are sds strings: [contents] gives the bytes of the string at an
    address. *)
Section Sds.
Context (contents : Z -> list Z).

Definition dictSdsHash (k : Z) : Z := dictGenHashFunction (contents k).

(** [sdslen] converted to [int]. *)
Definition dictSdsKeyCompare (k1 k2 : Z) : bool :=
  let l1 := i32 (blen (contents k1)) in
  let l2 := i32 (blen (contents k2)) in
  if negb (l1 =? l2) then false
  else bool_decide (take (Z.to_nat l1) (contents k1) = take (Z.to_nat l1) (contents k2)).

Definition clusterNodesDictType {S : Type} (sdsfree node_destructor : Z -> S -> S) : dictType S :=
  DictType S dictSdsHash None None (Some dictSdsKeyCompare) (Some sdsfree) (Some node_destructor).

Definition clusterNodesRefDictType {S : Type} (sdsfree : Z -> S -> S) : dictType S :=
  DictType S dictSdsHash None None (Some dictSdsKeyCompare) (Some sdsfree) None.
End Sds.

(** ** Finite maps

    What the table needs of its client: equality of keys is equality of some
    [canon], the hash depends on it only, and a copied key is equal to the
    original. *)
Class Keyed {S : Type} (T : dictType S) {C : Type} (canon : Z -> C) (hash : C -> Z) : Prop := {
  keyed_hash : forall k, dictHashKey T k = hash (canon k);
  keyed_compare : forall k1 k2, dictCompareHashKeys T k1 k2 = true <-> canon k1 = canon k2;
  keyed_dup : forall f k s, keyDup T = Some f -> canon (f k s).1 = canon k
}.

(** Strings shorter than 2^31 bytes are keys. *)
Lemma sds_compare (contents : Z -> list Z) k1 k2 : (forall k, blen (contents k) < 2 ^ 31) ->
  dictSdsKeyCompare contents k1 k2 = true <-> contents k1 = contents k2.
Proof.
  intros Hl. pose proof (Hl k1) as H1. pose proof (Hl k2) as H2. pose proof (blen_nonneg (contents k1)).
  pose proof (blen_nonneg (contents k2)). unfold dictSdsKeyCompare. rewrite !i32_small by lia.
  destruct (Z.eqb_spec (blen (contents k1)) (blen (contents k2))) as [E|E]; cbn.
  - rewrite bool_decide_eq_true. rewrite blen_to_nat, firstn_all. unfold blen in E. apply Nat2Z.inj in E.
    by rewrite E, firstn_all.
  - split; [done|]. intros E'. by rewrite E' in E.
Qed.

#[export] Instance clusterNodes_keyed {S : Type} (contents : Z -> list Z) (Hl : forall k, blen (contents k) < 2 ^ 31)
  (sdsfree node_destructor : Z -> S -> S) :
  Keyed (clusterNodesDictType contents sdsfree node_destructor) contents (fun s => u32 (dictGenHashFunction s)).
Proof. split; [done|intros; by apply sds_compare|done]. Qed.

#[export] Instance clusterNodesRef_keyed {S : Type} (contents : Z -> list Z) (Hl : forall k, blen (contents k) < 2 ^ 31)
  (sdsfree : Z -> S -> S) : Keyed (clusterNodesRefDictType contents sdsfree) contents (fun s => u32 (dictGenHashFunction s)).
Proof. split; [done|intros; by apply sds_compare|done]. Qed.

Definition entries (d : dict) : list dictEntry := concat (slots d).

(** The blocks of a table. *)
Definition dict_blocks (d : dict) : list Z := option_list (table d) ++ (entry_block <$> entries d).

(** A table of 2^j slots. *)
Definition sized (d : dict) (j : Z) : Prop :=
  2 <= j /\ is_Some (table d) /\ size d = 2 ^ j /\ sizemask d = 2 ^ j - 1 /\ Z.of_nat (length (slots d)) = 2 ^ j.

(** *** Chains *)

Lemma concat_middle {E : Type} (ls : list (list E)) i c : ls !! i = Some c ->
  concat ls = concat (take i ls) ++ c ++ concat (drop (S i) ls).
Proof. intros Hi. rewrite <- (take_drop_middle ls i c Hi) at 1. by rewrite concat_app. Qed.

Lemma concat_insert {E : Type} (ls : list (list E)) i c c' : ls !! i = Some c ->
  concat (<[i := c']> ls) = concat (take i ls) ++ c' ++ concat (drop (S i) ls).
Proof.
  intros Hi. rewrite (concat_middle (<[i := c']> ls) i c').
  - rewrite take_insert_ge, drop_insert_lt by lia. done.
  - apply list_lookup_insert_eq. by eapply lookup_lt_Some.
Qed.

Lemma concat_drop {E : Type} (ls : list (list E)) i c : ls !! i = Some c -> concat (drop i ls) = c ++ concat (drop (S i) ls).
Proof. intros Hi. by rewrite (drop_S ls c i Hi). Qed.

Lemma concat_replicate_nil {E : Type} n : concat (replicate n ([] : list E)) = [].
Proof. by induction n. Qed.

Lemma concat_elem {E : Type} (ls : list (list E)) x : x ∈ concat ls -> exists i c, ls !! i = Some c /\ x ∈ c.
Proof.
  induction ls as [|c ls IH]; cbn; [set_solver|]. intros [H|(i & c' & H1 & H2)%IH]%elem_of_app; [by exists 0%nat, c|by exists (S i), c'].
Qed.

Section Proofs.
Context {A : Allocator} {S : Type} (T : dictType S) {C : Type} {EC : EqDecision C} {CC : Countable C}
  (canon : Z -> C) (hash : C -> Z) {K : Keyed T canon hash}.

(** Every entry is in the slot of its key. *)
Definition placed (d : dict) : Prop :=
  forall i c e, slots d !! i = Some c -> e ∈ c -> slot_of T d (key e) = Z.of_nat i.

Definition pair_of (e : dictEntry) : C * (Z * Z) := (canon (key e), (key e, val e)).

Definition distinct (l : list dictEntry) : Prop := NoDup (canon <$> (key <$> l)).

(** The table [d] is the map [m]. *)
Record dict_ok (d : dict) (m : gmap C (Z * Z)) : Prop := {
  ok_sized : d = dictReset \/ exists j, sized d j;
  ok_used : used d = Z.of_nat (length (entries d));
  ok_placed : placed d;
  ok_distinct : distinct (entries d);
  ok_map : m = list_to_map (pair_of <$> entries d)
}.

Lemma slot_of_mod d j k : sized d j -> slot_of T d k = dictHashKey T k mod 2 ^ j /\ 0 <= slot_of T d k < 2 ^ j.
Proof.
  intros (Hj & _ & _ & Em & _). assert (0 <= dictHashKey T k < 2 ^ 32) as Hh by (apply Z.mod_pos_bound; lia).
  unfold slot_of. rewrite Em. replace (2 ^ j - 1) with (Z.ones j) by (rewrite Z.ones_equiv; lia). rewrite Z.land_ones by lia.
  assert (0 <= dictHashKey T k mod 2 ^ j <= dictHashKey T k) as Hm.
  { split; [apply Z.mod_pos_bound; lia|apply Z.mod_le; lia]. }
  unfold u32. rewrite (Z.mod_small _ (2 ^ 32)) by lia. split; [done|]. apply Z.mod_pos_bound. lia.
Qed.

Lemma slot_of_canon d k1 k2 : canon k1 = canon k2 -> slot_of T d k1 = slot_of T d k2.
Proof. intros E. unfold slot_of. by rewrite !keyed_hash, E. Qed.

Lemma slot_of_same d d' k : sizemask d' = sizemask d -> slot_of T d' k = slot_of T d k.
Proof. unfold slot_of. by intros ->. Qed.

Lemma load_slot_ok d j i : sized d j -> 0 <= i < 2 ^ j -> exists c, load_slot i d = Ret c /\ slots d !! Z.to_nat i = Some c.
Proof.
  intros (Hj & [b Hb] & _ & _ & Hl) Hi. unfold load_slot. rewrite Hb, (proj2 (Z.leb_le 0 i)) by lia.
  destruct (lookup_lt_is_Some_2 (slots d) (Z.to_nat i)) as [c Hc]; [lia|]. rewrite Hc. eauto.
Qed.

Definition with_slot (i : Z) (c : list dictEntry) (d : dict) : dict :=
  Dict (table d) (<[Z.to_nat i := c]> (slots d)) (size d) (sizemask d) (used d).

Lemma store_slot_ok d i c c' : load_slot i d = Ret c -> store_slot i c' d = Ret (with_slot i c' d).
Proof. unfold store_slot. by intros ->. Qed.

Lemma sized_with_slot d j i c : sized d j -> sized (with_slot i c d) j.
Proof. intros (? & ? & ? & ? & ?). repeat split; try done. cbn. by rewrite length_insert. Qed.

Lemma placed_with_slot d i c : 0 <= i -> placed d -> (forall e, e ∈ c -> slot_of T d (key e) = i) -> placed (with_slot i c d).
Proof.
  intros Hi Hp Hc i' c' e H He. cbn in H. apply list_lookup_insert_Some in H as [(<- & <- & _)|(Hne & H)].
  - rewrite (slot_of_same d) by done. rewrite Hc by done. lia.
  - rewrite (slot_of_same d) by done. eauto.
Qed.

(** *** Expansion *)

Lemma next_power_ok rounds : forall j sz, 2 <= j <= 63 -> sz <= 2 ^ 63 -> 63 < j + Z.of_nat rounds -> j = 2 \/ 2 ^ (j - 1) < sz ->
  exists j', 2 <= j' <= 63 /\ next_power_loop rounds (2 ^ j) sz = Ret (2 ^ j') /\ sz <= 2 ^ j' /\ (j' = 2 \/ 2 ^ (j' - 1) < sz).
Proof.
  induction rounds as [|rounds IH]; intros j sz Hj Hs Hr Hl; [lia|]. cbn [next_power_loop].
  rewrite Z.geb_leb. destruct (Z.leb_spec sz (2 ^ j)) as [H|H]; [by exists j|].
  assert (j < 63) as Hj'. { destruct (decide (j = 63)) as [->|]; [|lia]. lia. }
  assert (2 ^ j * 2 = 2 ^ (j + 1)) as E by (rewrite Z.pow_add_r by lia; lia).
  assert (2 ^ (j + 1) <= 2 ^ 63) by (apply Z.pow_le_mono_r; lia).
  replace (u64 (2 ^ j * 2)) with (2 ^ (j + 1)).
  - apply IH; try lia. right. by replace (j + 1 - 1) with j by lia.
  - unfold u64. rewrite E, Z.mod_small; [done|]. assert (0 < 2 ^ (j + 1)) by (apply Z.pow_pos_nonneg; lia). lia.
Qed.

Lemma dictNextPower_ok sz : 0 <= sz < LONG_MAX ->
  exists j, 2 <= j <= 63 /\ dictNextPower sz = Ret (2 ^ j) /\ sz <= 2 ^ j /\ (j = 2 \/ 2 ^ (j - 1) < sz).
Proof.
  intros Hs. unfold dictNextPower. rewrite Z.geb_leb, (proj2 (Z.leb_gt _ _)) by lia.
  apply (next_power_ok 64 2 sz); unfold LONG_MAX in Hs; lia.
Qed.

(** Moving a chain: its entries are now in the table [n]. *)
Lemma move_chain_ok he : forall n j u, sized n j -> placed n -> Z.of_nat (length he) <= u < 2 ^ 64 ->
  yields (move_chain T he n u) (fun '(n', u') => u' = u - Z.of_nat (length he) /\ sized n' j /\ placed n' /\
    table n' = table n /\ used n' = used n /\ entries n' ≡ₚ he ++ entries n).
Proof.
  induction he as [|e he IH]; intros n j u Hn Hp Hu; cbn [move_chain].
  - apply yields_Ret. cbn. repeat split; try done. all: try apply Hn. lia.
  - destruct (slot_of_mod n j (key e) Hn) as [_ Hr]. destruct (load_slot_ok n j _ Hn Hr) as (c & Hc & Hl).
    rewrite Hc. cbn [cbind]. rewrite (store_slot_ok _ _ _ _ Hc). cbn [cbind].
    set (n1 := with_slot (slot_of T n (key e)) (e :: c) n).
    assert (u64 (u - 1) = u - 1) as Eu by (unfold u64; apply Z.mod_small; cbn [length] in Hu; lia). rewrite Eu.
    eapply yields_mono; [apply (IH n1 j (u - 1))|].
    + by apply sized_with_slot.
    + apply placed_with_slot; [lia|done|]. intros e' [->|He']%elem_of_cons; [done|].
      rewrite (Hp _ _ _ Hl He'). lia.
    + cbn [length] in Hu. lia.
    + intros [n' u'] (-> & H1 & H2 & H3 & H4 & H5). cbn [length]. split; [lia|]. split; [done|]. split; [done|]. split; [done|].
      split; [done|]. rewrite H5. unfold entries at 1. cbn [n1 with_slot slots]. rewrite (concat_insert _ _ c _ Hl).
      unfold entries. rewrite (concat_middle _ _ c Hl). cbn [app]. by rewrite <- !Permutation_middle.
Qed.

Lemma move_slots_ok rounds : forall i ht j n jn u, sized ht j -> sized n jn -> placed n -> 0 <= i <= 2 ^ j ->
  2 ^ j - i <= Z.of_nat rounds -> u = Z.of_nat (length (concat (drop (Z.to_nat i) (slots ht)))) -> u < 2 ^ 64 ->
  yields (move_slots T rounds i ht n u) (fun '(n', u') => u' = 0 /\ sized n' jn /\ placed n' /\
    table n' = table n /\ used n' = used n /\ entries n' ≡ₚ concat (drop (Z.to_nat i) (slots ht)) ++ entries n).
Proof.
  induction rounds as [|rounds IH]; intros i ht j n jn u Hh Hn Hp Hi Hr Hu Hb.
  all: pose proof Hh as (Hj & _ & Es & _ & El).
  all: destruct (Z.ltb_spec i (size ht)) as [H1|H1].
  - lia.
  - rewrite drop_ge in Hu |- * by lia. cbn [move_slots concat app] in *. rewrite (proj2 (Z.ltb_ge _ _)) by lia. cbn. by apply yields_Ret.
  - cbn [move_slots]. rewrite (proj2 (Z.ltb_lt _ _)) by lia. rewrite Z.gtb_ltb. cbn [andb].
    destruct (load_slot_ok ht j i Hh) as (c & Hc & Hl); [lia|]. rewrite (concat_drop _ _ _ Hl) in Hu |- *.
    rewrite length_app in Hu. destruct (Z.ltb_spec 0 u) as [H2|H2].
    + rewrite Hc. cbn [cbind]. eapply yields_bind; [apply (move_chain_ok c n jn u Hn Hp); lia|].
      intros [n1 u1] (-> & G1 & G2 & G3 & G4 & G5). replace (Datatypes.S (Z.to_nat i)) with (Z.to_nat (i + 1)) in * by lia.
      eapply yields_mono; [apply (IH (i + 1) ht j n1 jn); try done; lia|].
      intros [n2 u2] (-> & F1 & F2 & F3 & F4 & F5). split; [done|]. split; [done|]. split; [done|]. split; [congruence|].
      split; [congruence|]. rewrite F5, G5. rewrite <- (app_assoc c). apply Permutation_app_swap_app.
    + apply yields_Ret. split; [lia|]. assert (c = [] /\ concat (drop (Datatypes.S (Z.to_nat i)) (slots ht)) = []) as [-> E].
      { split; apply length_zero_iff_nil; lia. }
      rewrite E. done.
  - rewrite drop_ge in Hu |- * by lia. cbn [move_slots concat app] in *. rewrite (proj2 (Z.ltb_ge _ _)) by lia. cbn. by apply yields_Ret.
Qed.

(** *** Memory *)

(** Memory ran out at some request. *)
Definition starved : Prop := exists n, grants n = false.

Lemma hi_malloc_ok h0 bs (w : world S) : acquires h0 bs (mem w) ->
  match hi_malloc w with
  | (Some b, w') => acquires h0 (b :: bs) (mem w') /\ client w' = client w
  | (None, w') => acquires h0 bs (mem w') /\ client w' = client w /\ starved
  end.
Proof.
  intros H. unfold hi_malloc. pose proof (malloc_acquires (mem w) (acquires_ok _ _ _ H)) as Hm.
  unfold malloc in *. destruct (grants (next_block (mem w))) eqn:E; cbn.
  - split; [|done]. eapply acquires_perm; [|eapply acquires_trans; [exact H|exact Hm]]. by rewrite Permutation_app_comm.
  - split; [|split; [done|by eexists]]. rewrite <- (app_nil_r bs). by eapply acquires_trans.
Qed.

Lemma hi_free_ok h0 b bs (w : world S) : acquires h0 (b :: bs) (mem w) ->
  yields (hi_free (Some b) w) (fun w' => acquires h0 bs (mem w') /\ client w' = client w).
Proof.
  intros H. cbn. eapply yields_bind; [by eapply free_first|]. intros h Hh. by apply yields_Ret.
Qed.

Lemma hi_free_option h0 o bs (w : world S) : acquires h0 (option_list o ++ bs) (mem w) ->
  yields (hi_free o w) (fun w' => acquires h0 bs (mem w') /\ client w' = client w).
Proof. destruct o as [b|]; cbn; [apply hi_free_ok|]. intros H. by apply yields_Ret. Qed.

(** *** Tables with the same entries *)

Lemma distinct_perm l l' : l ≡ₚ l' -> distinct l -> distinct l'.
Proof. unfold distinct. by intros ->. Qed.

Lemma pairs_fst l : (pair_of <$> l).*1 = canon <$> (key <$> l).
Proof. by rewrite <- !list_fmap_compose. Qed.

Lemma pairs_perm l l' : distinct l -> l ≡ₚ l' -> list_to_map (M := gmap C (Z * Z)) (pair_of <$> l) = list_to_map (pair_of <$> l').
Proof. intros Hd E. apply list_to_map_proper; [by rewrite pairs_fst|by rewrite E]. Qed.

Lemma dict_ok_perm d d' m j : dict_ok d m -> sized d' j -> placed d' -> used d' = used d -> entries d' ≡ₚ entries d -> dict_ok d' m.
Proof.
  intros [_ H2 _ H4 ->] Hs Hp Hu E. split; try done.
  - right. by exists j.
  - by rewrite Hu, E.
  - by eapply distinct_perm.
  - by apply pairs_perm.
Qed.

Lemma dict_ok_bound d m : dict_ok d m -> 0 <= used d.
Proof. intros H. rewrite (ok_used _ _ H). lia. Qed.

Lemma reset_entries : entries dictReset = [].
Proof. done. Qed.

Definition owns (h0 : heap) (rest : list Z) (d : dict) (w : world S) : Prop :=
  acquires h0 (dict_blocks d ++ rest) (mem w).

(** The loop of dictExpand on any table. *)
Lemma move_all d m jn n : dict_ok d m -> used d < 2 ^ 64 -> sized n jn -> placed n ->
  yields (move_slots T (Z.to_nat (size d)) 0 d n (used d)) (fun '(n', u') => u' = 0 /\ sized n' jn /\ placed n' /\
    table n' = table n /\ used n' = used n /\ entries n' ≡ₚ entries d ++ entries n).
Proof.
  intros Hd Hu Hn Hp. destruct (ok_sized _ _ Hd) as [->|[j Hj]].
  - apply yields_Ret. by rewrite reset_entries.
  - pose proof Hj as (H1 & _ & H2 & _). apply (move_slots_ok _ 0 d j n jn); try done; try lia. apply Hd.
Qed.

Lemma dictExpand_ok d m sz w h0 rest : dict_ok d m -> 0 <= sz < LONG_MAX -> owns h0 rest d w ->
  yields (dictExpand T d sz w) (fun '(r, d', w') =>
    dict_ok d' m /\ client w' = client w /\ owns h0 rest d' w' /\ entries d' ≡ₚ entries d /\
    (r = DICT_ERR /\ d' = d /\ (sz < used d \/ 2 ^ 60 < sz \/ starved) \/
     r = DICT_OK /\ used d <= sz /\ exists j, sized d' j /\ sz <= 2 ^ j /\ (j = 2 \/ 2 ^ (j - 1) < sz))).
Proof.
  intros Hd Hs Ho. unfold dictExpand. destruct (dictNextPower_ok sz Hs) as (j & Hj & -> & Hle & Hmin). cbn [cbind].
  rewrite Z.gtb_ltb. destruct (Z.ltb_spec sz (used d)) as [Hu|Hu]; [apply yields_Ret; split_and!; try done; left; auto|].
  unfold hi_calloc. destruct (Z.ltb_spec (2 ^ j * 8) (2 ^ 64)) as [Hc|Hc].
  2: { apply yields_Ret. split; [done|]. split; [done|]. split; [done|]. split; [done|]. left. split; [done|]. split; [done|]. right. left.
       destruct Hmin as [->|Hmin]; [done|]. destruct (decide (j <= 60)) as [Hj'|]; [|].
       - assert (2 ^ j <= 2 ^ 60) by (apply Z.pow_le_mono_r; lia). lia.
       - assert (2 ^ 60 <= 2 ^ (j - 1)) by (apply Z.pow_le_mono_r; lia). lia. }
  pose proof (hi_malloc_ok _ _ _ Ho) as Hm. destruct (hi_malloc w) as [[b|] w1].
  2: { destruct Hm as (Hm & Ec & Hst). apply yields_Ret. split; [done|]. split; [done|]. split; [exact Hm|]. split; [done|]. left. auto. }
  destruct Hm as [Hm Ec]. set (n := Dict _ _ _ _ _).
  assert (0 < 2 ^ j < 2 ^ 64) as Hpow by (split; [apply Z.pow_pos_nonneg; lia|lia]).
  assert (sized n j) as Hn.
  { split; [lia|]. split; [by eexists|]. split; [done|]. split; [apply Z.mod_small; lia|]. cbn. rewrite length_replicate. lia. }
  assert (placed n) as Hp by (intros i c e [-> _]%lookup_replicate He; set_solver).
  assert (entries n = []) as En by apply concat_replicate_nil.
  eapply yields_bind; [apply (move_all d m j n Hd); try done; unfold LONG_MAX in Hs; lia|].
  intros [n' u'] (-> & G1 & G2 & G3 & G4 & G5). rewrite En, app_nil_r in G5. cbn.
  eapply yields_bind; [apply (hi_free_option h0 (table d) ((b :: (entry_block <$> entries d)) ++ rest))|].
  { eapply acquires_perm; [|exact Hm]. unfold dict_blocks. rewrite <- !app_assoc. cbn. by rewrite <- Permutation_middle. }
  intros w2 [F1 F2]. apply yields_Ret. split; [by eapply dict_ok_perm|]. split; [congruence|]. split; [|split; [done|right; eauto 10]].
  unfold owns, dict_blocks. rewrite G3. cbn. eapply acquires_perm; [|exact F1]. by rewrite G5.
Qed.

(** *** Looking up *)

Lemma find_chain_ok k c :
  match find_chain T k c with
  | Some e => e ∈ c /\ canon k = canon (key e)
  | None => forall e, e ∈ c -> canon k <> canon (key e)
  end.
Proof.
  induction c as [|e c IH]; cbn; [set_solver|]. destruct (dictCompareHashKeys T k (key e)) eqn:E.
  - split; [set_solver|]. by apply keyed_compare.
  - assert (canon k <> canon (key e)) as Hne by (intros H%keyed_compare; congruence).
    destruct (find_chain T k c) as [e'|]; [destruct IH; split; [set_solver|done]|].
    intros e' [->|H]%elem_of_cons; auto.
Qed.

Lemma ok_lookup d m e : dict_ok d m -> e ∈ entries d -> m !! canon (key e) = Some (key e, val e).
Proof.
  intros Hd He. rewrite (ok_map _ _ Hd). apply elem_of_list_to_map_1.
  - rewrite pairs_fst. apply Hd.
  - apply list_elem_of_fmap. by exists e.
Qed.

Lemma ok_lookup_none d m c : dict_ok d m -> (forall e, e ∈ entries d -> canon (key e) <> c) -> m !! c = None.
Proof.
  intros Hd Hc. rewrite (ok_map _ _ Hd). apply not_elem_of_list_to_map_1. rewrite pairs_fst. intros H.
  apply list_elem_of_fmap in H as (k & -> & H). apply list_elem_of_fmap in H as (e & -> & H). by apply (Hc e).
Qed.

Lemma slot_entries d i c e : slots d !! i = Some c -> e ∈ c -> e ∈ entries d.
Proof. intros Hi He. unfold entries. rewrite (concat_middle _ _ _ Hi). set_solver. Qed.

(** The chain of the slot of [k] has the entry of [k], if there is one. *)
Lemma chain_lookup d m j k c : dict_ok d m -> sized d j -> slots d !! Z.to_nat (slot_of T d k) = Some c ->
  (fun e => (key e, val e)) <$> find_chain T k c = m !! canon k.
Proof.
  intros Hd Hs Hc. pose proof (find_chain_ok k c) as Hf. destruct (find_chain T k c) as [e|]; cbn.
  - destruct Hf as [He ->]. symmetry. apply (ok_lookup d); [done|]. by eapply slot_entries.
  - symmetry. apply (ok_lookup_none d); [done|]. intros e He E. destruct (concat_elem _ _ He) as (i & c' & Hi & He').
    pose proof (ok_placed _ _ Hd i c' e Hi He') as Hp. rewrite (slot_of_canon d (key e) k E) in Hp.
    rewrite Hp, Nat2Z.id, Hi in Hc. injection Hc as ->. by apply (Hf e).
Qed.

Lemma dictFind_ok d m k : dict_ok d m ->
  exists r, dictFind T d k = Ret r /\ (fun e => (key e, val e)) <$> r = m !! canon k /\ (forall e, r = Some e -> e ∈ entries d /\ canon k = canon (key e)).
Proof.
  intros Hd. unfold dictFind. destruct (ok_sized _ _ Hd) as [E|[j Hj]].
  - pose proof (ok_map _ _ Hd) as Em. subst d. exists None. subst m. done.
  - pose proof Hj as (H1 & _ & Es & _). assert (0 < 2 ^ j) by (apply Z.pow_pos_nonneg; lia).
    rewrite (proj2 (Z.eqb_neq _ _)) by lia. destruct (slot_of_mod d j k Hj) as [_ Hr].
    destruct (load_slot_ok d j _ Hj Hr) as (c & -> & Hc). cbn [cbind]. exists (find_chain T k c). split; [done|].
    split; [by eapply chain_lookup|]. intros e E. pose proof (find_chain_ok k c) as Hf. rewrite E in Hf. destruct Hf. split; [|done].
    by eapply slot_entries.
Qed.

(** *** Adding *)

(** Tables small enough for an [int] index. *)
Definition small (d : dict) : Prop := size d <= 2 ^ 31.

Lemma dictExpandIfNeeded_ok d m w h0 rest : dict_ok d m -> small d -> used d < 2 ^ 31 -> owns h0 rest d w ->
  yields (dictExpandIfNeeded T d w) (fun '(r, d', w') =>
    dict_ok d' m /\ client w' = client w /\ owns h0 rest d' w' /\ small d' /\ entries d' ≡ₚ entries d /\
    (r = DICT_ERR /\ starved \/ r = DICT_OK /\ exists j, sized d' j)).
Proof.
  intros Hd Hsm Hu Ho. unfold dictExpandIfNeeded, small in *. pose proof (dict_ok_bound _ _ Hd) as H0.
  destruct (Z.eqb_spec (size d) 0) as [E|E].
  - assert (used d = 0) as E0.
    { destruct (ok_sized _ _ Hd) as [->|[j (Hj & _ & Es & _)]]; [done|]. assert (0 < 2 ^ j) by (apply Z.pow_pos_nonneg; lia). lia. }
    eapply yields_mono; [by apply (dictExpand_ok d m DICT_HT_INITIAL_SIZE w h0 rest)|].
    intros [[r d'] w'] (G1 & G2 & G3 & G4 & [(-> & -> & G5)|(-> & G5 & j & G6 & G7 & G8)]); split_and!; try done.
    + left. split; [done|]. unfold DICT_HT_INITIAL_SIZE in G5. destruct G5 as [?|[?|?]]; [lia|lia|done].
    + destruct G6 as (_ & _ & -> & _). unfold DICT_HT_INITIAL_SIZE in G8. destruct G8 as [->|G8]; [done|].
      assert (j - 1 < 2) by (apply (Z.pow_lt_mono_r_iff 2); lia). assert (2 ^ j <= 2 ^ 31) by (apply Z.pow_le_mono_r; lia). done.
    + right. eauto.
  - destruct (ok_sized _ _ Hd) as [->|[j Hj]]; [done|]. pose proof Hj as (Hj2 & _ & Es & _).
    destruct (Z.eqb_spec (used d) (size d)) as [E1|E1].
    + assert (u64 (size d * 2) = size d * 2) as -> by (unfold u64; apply Z.mod_small; lia).
      eapply yields_mono; [apply (dictExpand_ok d m (size d * 2) w h0 rest); try done; unfold LONG_MAX; lia|].
      intros [[r d'] w'] (G1 & G2 & G3 & G4 & [(-> & -> & G5)|(-> & G5 & j' & G6 & G7 & G8)]); split_and!; try done.
      * left. split; [done|]. destruct G5 as [?|[?|?]]; [lia|lia|done].
      * destruct G6 as (_ & _ & -> & _). assert (2 ^ j < 2 ^ 31) as Hpj by lia. assert (j < 31) by (apply (Z.pow_lt_mono_r_iff 2); lia).
        destruct G8 as [->|G8]; [done|]. replace (size d * 2) with (2 ^ (j + 1)) in G8 by (rewrite Es, Z.pow_add_r by lia; lia).
        assert (j' - 1 < j + 1) by (apply (Z.pow_lt_mono_r_iff 2); lia). apply Z.pow_le_mono_r; lia.
      * right. eauto.
    + apply yields_Ret. split_and!; try done. right. eauto.
Qed.

Lemma dictKeyIndex_ok d m k w h0 rest : dict_ok d m -> small d -> used d < 2 ^ 31 -> owns h0 rest d w ->
  yields (dictKeyIndex T d k w) (fun '(i, d', w') =>
    dict_ok d' m /\ client w' = client w /\ owns h0 rest d' w' /\ small d' /\ entries d' ≡ₚ entries d /\
    (i = -1 /\ (is_Some (m !! canon k) \/ starved) \/
     i = slot_of T d' k /\ 0 <= i /\ m !! canon k = None /\ exists j, sized d' j)).
Proof.
  intros Hd Hsm Hu Ho. unfold dictKeyIndex. eapply yields_bind; [by apply (dictExpandIfNeeded_ok d m w h0 rest)|].
  intros [[r d'] w'] (G1 & G2 & G3 & G4 & G5 & [(-> & G6)|(-> & j & G6)]); [apply yields_Ret; split_and!; try done; by left; auto|].
  destruct (slot_of_mod d' j k G6) as [_ Hr]. destruct (load_slot_ok d' j _ G6 Hr) as (c & Hc & Hl). cbn. rewrite Hc. cbn.
  pose proof (chain_lookup d' m j k c G1 G6 Hl) as Hm. destruct (find_chain T k c) as [e|]; cbn in Hm; apply yields_Ret.
  - split_and!; try done. left. split; [done|]. left. rewrite <- Hm. by eexists.
  - split_and!; try done. right. assert (i32 (slot_of T d' k) = slot_of T d' k) as ->.
    { apply i32_small. destruct G6 as (_ & _ & Es & _). unfold small in G4. lia. }
    split; [done|]. split; [lia|]. eauto.
Qed.

(** *** The map behind the table *)

Definition dup_value (f : option (Z -> S -> Z * S)) (v : Z) (s : S) : Z * S :=
  match f with Some f => f v s | None => (v, s) end.

Definition destroy (f : option (Z -> S -> S)) (v : Z) (s : S) : S :=
  match f with Some f => f v s | None => s end.

Inductive dict_op := Find (k : Z) | Add (k v : Z) | Replace (k v : Z) | Delete (k : Z).
Inductive outcome := Found (r : option (Z * Z)) | Code (r : Z).

Definition perform (o : dict_op) (d : dict) (w : world S) : comp (outcome * dict * world S) :=
  match o with
  | Find k => let! e := dictFind T d k in Ret (Found ((fun e => (key e, val e)) <$> e), d, w)
  | Add k v => let! '(r, d, w) := dictAdd T d k v w in Ret (Code r, d, w)
  | Replace k v => let! '(r, d, w) := dictReplace T d k v w in Ret (Code r, d, w)
  | Delete k => let! '(r, d, w) := dictDelete T d k w in Ret (Code r, d, w)
  end.

(** What an operation is on the map, with its result and the calls of the
    client's functions.  Adding fails without memory. *)
Inductive map_step : dict_op -> gmap C (Z * Z) * S -> outcome -> gmap C (Z * Z) * S -> Prop :=
| map_find k m s : map_step (Find k) (m, s) (Found (m !! canon k)) (m, s)
| map_add k v m s k' v' s1 s2 : m !! canon k = None -> dup_value (keyDup T) k s = (k', s1) -> dup_value (valDup T) v s1 = (v', s2) ->
    map_step (Add k v) (m, s) (Code DICT_OK) (<[canon k := (k', v')]> m, s2)
| map_add_not k v m s : is_Some (m !! canon k) \/ starved -> map_step (Add k v) (m, s) (Code DICT_ERR) (m, s)
| map_replace_new k v m s k' v' s1 s2 : m !! canon k = None -> dup_value (keyDup T) k s = (k', s1) ->
    dup_value (valDup T) v s1 = (v', s2) -> map_step (Replace k v) (m, s) (Code 1) (<[canon k := (k', v')]> m, s2)
| map_replace_old k v m s k0 v0 v' s1 : m !! canon k = Some (k0, v0) -> dup_value (valDup T) v s = (v', s1) ->
    map_step (Replace k v) (m, s) (Code 0) (<[canon k := (k0, v')]> m, destroy (valDestructor T) v0 s1)
| map_replace_not k v m s : m !! canon k = None -> starved -> map_step (Replace k v) (m, s) (Code 0) (m, s)
| map_delete k m s k0 v0 : m !! canon k = Some (k0, v0) ->
    map_step (Delete k) (m, s) (Code DICT_OK)
      (delete (canon k) m, destroy (valDestructor T) v0 (destroy (keyDestructor T) k0 s))
| map_delete_not k m s : m !! canon k = None -> map_step (Delete k) (m, s) (Code DICT_ERR) (m, s).

Lemma dup_world f v (w : world S) : dup f v w = ((dup_value f v (client w)).1, World (mem w) (dup_value f v (client w)).2).
Proof. unfold dup, dup_value. destruct f as [f|]; [by destruct (f v (client w))|by destruct w]. Qed.

Lemma destruct_world f v (w : world S) : mem (destruct_with f v w) = mem w /\ client (destruct_with f v w) = destroy f v (client w).
Proof. by destruct f. Qed.

Lemma dup_canon k s : canon (dup_value (keyDup T) k s).1 = canon k.
Proof. unfold dup_value. destruct (keyDup T) as [f|] eqn:E; [|done]. by apply keyed_dup. Qed.

(** *** One entry more, one less, one changed *)

Lemma ok_insert d m j e h c : dict_ok d m -> sized d j -> slots d !! Z.to_nat h = Some c -> 0 <= h -> slot_of T d (key e) = h ->
  m !! canon (key e) = None -> used d < 2 ^ 31 ->
  dict_ok (set_used (u64 (used d + 1)) (with_slot h (e :: c) d)) (<[canon (key e) := (key e, val e)]> m) /\
  entries (with_slot h (e :: c) d) ≡ₚ e :: entries d.
Proof.
  intros Hd Hs Hc Hh Hk Hm Hu. assert (entries (with_slot h (e :: c) d) ≡ₚ e :: entries d) as E.
  { unfold entries. cbn [with_slot slots]. rewrite (concat_insert _ _ _ _ Hc), (concat_middle _ _ _ Hc). cbn. by rewrite <- Permutation_middle. }
  assert (canon (key e) ∉ canon <$> (key <$> entries d)) as Hn.
  { intros H. apply list_elem_of_fmap in H as (k & Ek & H). apply list_elem_of_fmap in H as (e' & -> & H).
    apply (ok_lookup d m e' Hd) in H. congruence. }
  split; [|done]. pose proof (dict_ok_bound _ _ Hd) as Hb.
  assert (distinct (e :: entries d)) as Hdis by (apply NoDup_cons; split; [done|apply Hd]).
  constructor.
  - right. exists j. by apply sized_with_slot.
  - cbn [used set_used]. change (entries (set_used _ _)) with (entries (with_slot h (e :: c) d)). rewrite E. cbn [length].
    unfold u64. rewrite Z.mod_small by lia. rewrite (ok_used _ _ Hd). lia.
  - apply (placed_with_slot d h (e :: c)); [done|apply Hd|]. intros e' [->|H]%elem_of_cons; [done|].
    rewrite (ok_placed _ _ Hd _ _ _ Hc H). lia.
  - by eapply distinct_perm.
  - change (entries (set_used _ _)) with (entries (with_slot h (e :: c) d)).
    rewrite (pairs_perm _ _ (distinct_perm _ _ (symmetry E) Hdis) E). cbn. by rewrite (ok_map _ _ Hd).
Qed.

Lemma ok_remove d m j e h c1 c2 : dict_ok d m -> sized d j -> slots d !! Z.to_nat h = Some (c1 ++ e :: c2) -> 0 <= h -> used d < 2 ^ 64 ->
  dict_ok (set_used (u64 (used d - 1)) (with_slot h (c1 ++ c2) d)) (delete (canon (key e)) m) /\
  entries d ≡ₚ e :: entries (with_slot h (c1 ++ c2) d).
Proof.
  intros Hd Hs Hc Hh Hu. assert (entries d ≡ₚ e :: entries (with_slot h (c1 ++ c2) d)) as E.
  { unfold entries. cbn [with_slot slots]. rewrite (concat_insert _ _ _ _ Hc), (concat_middle _ _ _ Hc).
    rewrite <- !app_assoc. cbn. by rewrite <- !Permutation_middle. }
  split; [|done]. pose proof (distinct_perm _ _ E (ok_distinct _ _ Hd)) as Hdis. pose proof Hdis as Hdis'.
  apply NoDup_cons in Hdis' as [Hn Hdis'].
  pose proof (ok_used _ _ Hd) as Hused. rewrite E in Hused. cbn [length] in Hused.
  constructor.
  - right. exists j. by apply sized_with_slot.
  - cbn [used set_used]. change (entries (set_used _ _)) with (entries (with_slot h (c1 ++ c2) d)).
    unfold u64. rewrite Z.mod_small by lia. lia.
  - apply (placed_with_slot d h (c1 ++ c2)); [done|apply Hd|]. intros e' H.
    rewrite (ok_placed _ _ Hd _ _ e' Hc); [lia|]. set_solver.
  - done.
  - change (entries (set_used _ _)) with (entries (with_slot h (c1 ++ c2) d)).
    rewrite (ok_map _ _ Hd), (pairs_perm _ _ (ok_distinct _ _ Hd) E). cbn. rewrite delete_insert_id; [done|].
    apply not_elem_of_list_to_map_1. by rewrite pairs_fst.
Qed.

Lemma entries_set_val b v d :
  entries (set_val b v d) = (fun e => if entry_block e =? b then DictEntry b (key e) v else e) <$> entries d.
Proof. unfold entries, set_val. cbn. by rewrite concat_map. Qed.

Lemma set_val_others b v (l : list dictEntry) : b ∉ entry_block <$> l ->
  (fun e => if entry_block e =? b then DictEntry b (key e) v else e) <$> l = l.
Proof.
  induction l as [|e l IH]; [done|]. rewrite fmap_cons, not_elem_of_cons. intros [H1 H2]. rewrite fmap_cons, IH by done.
  by rewrite (proj2 (Z.eqb_neq _ _)).
Qed.

Lemma ok_change d m e v : dict_ok d m -> NoDup (entry_block <$> entries d) -> e ∈ entries d ->
  dict_ok (set_val (entry_block e) v d) (<[canon (key e) := (key e, v)]> m) /\
  entry_block <$> entries (set_val (entry_block e) v d) = entry_block <$> entries d.
Proof.
  intros Hd Hb He. pose proof (entries_set_val (entry_block e) v d) as E.
  assert (key <$> entries (set_val (entry_block e) v d) = key <$> entries d) as Ek.
  { rewrite E, <- list_fmap_compose. apply list_fmap_ext. intros _ e' _. cbn. by destruct (_ =? _). }
  assert (entry_block <$> entries (set_val (entry_block e) v d) = entry_block <$> entries d) as Eb.
  { rewrite E, <- list_fmap_compose. apply list_fmap_ext. intros _ e' _. cbn. by destruct (Z.eqb_spec (entry_block e') (entry_block e)). }
  split; [|done]. constructor.
  - destruct (ok_sized _ _ Hd) as [->|[j (H1 & H2 & H3 & H4 & H5)]]; [set_solver|]. right. exists j. split_and!; try done.
    cbn. by rewrite length_map.
  - cbn [used set_val]. rewrite (ok_used _ _ Hd), E. by rewrite length_fmap.
  - intros i c e' Hi He'. cbn in Hi. rewrite list_lookup_fmap_Some in Hi. destruct Hi as (c0 & -> & Hi).
    apply list_elem_of_fmap in He' as (e0 & -> & He0). pose proof (ok_placed _ _ Hd i c0 e0 Hi He0) as Hp.
    rewrite (slot_of_same d) by done. by destruct (_ =? _).
  - unfold distinct. rewrite Ek. apply Hd.
  - apply list_elem_of_split in He as (l1 & l2 & El). rewrite El in *. rewrite !fmap_app, !fmap_cons in *.
    apply NoDup_app in Hb as (B1 & B2 & B3). apply NoDup_cons in B3 as [B3 B4].
    rewrite (set_val_others _ _ l1), (set_val_others _ _ l2), Z.eqb_refl in E by set_solver. rewrite E.
    assert (distinct (l1 ++ e :: l2)) as Hdis by (rewrite <- El; apply Hd).
    rewrite (ok_map _ _ Hd), El. rewrite (pairs_perm (l1 ++ e :: l2) (e :: l1 ++ l2)) by (done || by rewrite Permutation_middle).
    rewrite (pairs_perm (l1 ++ _ :: l2) (DictEntry (entry_block e) (key e) v :: l1 ++ l2)).
    + cbn. by rewrite insert_insert_eq.
    + unfold distinct in *. rewrite !fmap_app, !fmap_cons in *. done.
    + by rewrite Permutation_middle.
Qed.

(** *** The operations *)

Definition implements (o : dict_op) (m : gmap C (Z * Z)) (s : S) (h0 : heap) (rest : list Z) (d' : dict) (w' : world S)
  (r : outcome) : Prop :=
  exists m', map_step o (m, s) r (m', client w') /\ dict_ok d' m' /\ small d' /\ owns h0 rest d' w'.

Lemma owns_cons h0 rest d (w : world S) b d' (w' : world S) : acquires h0 (b :: dict_blocks d ++ rest) (mem w) -> mem w' = mem w -> table d' = table d ->
  entry_block <$> entries d' ≡ₚ b :: (entry_block <$> entries d) -> owns h0 rest d' w'.
Proof.
  intros H Em Et Ee. unfold owns. rewrite Em. eapply acquires_perm; [|exact H]. unfold dict_blocks. rewrite Et, Ee, <- !app_assoc. cbn.
  by rewrite <- Permutation_middle.
Qed.

Lemma dictAdd_ok d m k v w h0 rest : dict_ok d m -> small d -> used d < 2 ^ 31 -> owns h0 rest d w ->
  yields (dictAdd T d k v w) (fun '(r, d', w') =>
    (r = DICT_OK /\ m !! canon k = None /\ exists k' s1 v', dup_value (keyDup T) k (client w) = (k', s1) /\
       dup_value (valDup T) v s1 = (v', client w') /\ dict_ok d' (<[canon k := (k', v')]> m)) \/
    (r = DICT_ERR /\ (is_Some (m !! canon k) \/ starved) /\ client w' = client w /\ dict_ok d' m /\ entries d' ≡ₚ entries d)) /\
  yields (dictAdd T d k v w) (fun '(_, d', w') => small d' /\ owns h0 rest d' w').
Proof.
  intros Hd Hsm Hu Ho. destruct (dictKeyIndex_ok d m k w h0 rest Hd Hsm Hu Ho) as ([[i d1] w1] & E & G1 & G2 & G3 & G4 & G5 & Hi).
  unfold dictAdd. rewrite E. cbn [cbind]. destruct Hi as [[-> Hf]|(Hi & Hi0 & Hm & j & Hj)].
  { cbn. split; apply yields_Ret; [right|done]. split_and!; try done. }
  rewrite (proj2 (Z.eqb_neq _ _)) by lia. pose proof (hi_malloc_ok _ _ _ G3) as Hal. destruct (hi_malloc w1) as [[b|] w2].
  2: { destruct Hal as (H1 & H2 & H3). split; apply yields_Ret; [right|done]. rewrite H2, G2. split_and!; try done. by right. }
  destruct Hal as [Hal Ec]. subst i. destruct (slot_of_mod d1 j k Hj) as [_ Hr].
  destruct (load_slot_ok d1 j _ Hj Hr) as (c & Hc & Hl). rewrite Hc. cbn [cbind]. rewrite dup_world, dup_world. cbn [mem client].
  rewrite (store_slot_ok _ _ _ _ Hc). cbn [cbind]. rewrite Ec, G2.
  destruct (dup_value (keyDup T) k (client w)) as [k' s1] eqn:Ek. destruct (dup_value (valDup T) v s1) as [v' s2] eqn:Ev. cbn [fst snd].
  rewrite Ev. cbn [fst snd].
  assert (canon k' = canon k) as Ek' by (rewrite <- (dup_canon k (client w)), Ek; done).
  assert (used d1 < 2 ^ 31) as Hu1 by (rewrite (ok_used _ _ G1), G5, <- (ok_used _ _ Hd); done).
  destruct (ok_insert d1 m j (DictEntry b k' v') (slot_of T d1 k) c) as [F1 F2]; try done; [by apply slot_of_canon|by cbn; rewrite Ek'|].
  cbn [key val] in F1. rewrite Ek' in F1. split; apply yields_Ret.
  - left. split; [done|]. split; [done|]. exists k', s1, v'. done.
  - split; [done|]. eapply owns_cons; [exact Hal|done|done|].
    change (entries (set_used _ _)) with (entries (with_slot (slot_of T d1 k) (DictEntry b k' v' :: c) d1)). by rewrite F2.
Qed.

Lemma yields_and {X : Type} (P Q : X -> Prop) (c : comp X) : yields c P -> yields c Q -> exists x, c = Ret x /\ P x /\ Q x.
Proof. intros (x & -> & H1) (y & [= <-] & H2). eauto. Qed.

Lemma add_implements d m k v w h0 rest : dict_ok d m -> small d -> used d < 2 ^ 31 -> owns h0 rest d w ->
  yields (dictAdd T d k v w) (fun '(r, d', w') => implements (Add k v) m (client w) h0 rest d' w' (Code r)).
Proof.
  intros Hd Hsm Hu Ho. destruct (dictAdd_ok d m k v w h0 rest Hd Hsm Hu Ho) as [H1 H2].
  destruct (yields_and _ _ _ H1 H2) as ([[r d'] w'] & -> & G & G1 & G2). apply yields_Ret.
  destruct G as [(-> & Hm & k' & s1 & v' & E1 & E2 & Hd')|(-> & Hf & E & Hd' & _)].
  - eexists. split; [by eapply map_add|done].
  - exists m. split; [rewrite E; by apply map_add_not|done].
Qed.

Lemma owned_blocks h0 rest d w : owns h0 rest d w -> NoDup (entry_block <$> entries d).
Proof.
  intros (_ & _ & Hd & _). unfold dict_blocks in Hd. rewrite !NoDup_app in Hd. apply Hd.
Qed.

Lemma replace_implements d m k v w h0 rest : dict_ok d m -> small d -> used d < 2 ^ 31 -> owns h0 rest d w ->
  yields (dictReplace T d k v w) (fun '(r, d', w') => implements (Replace k v) m (client w) h0 rest d' w' (Code r)).
Proof.
  intros Hd Hsm Hu Ho. destruct (dictAdd_ok d m k v w h0 rest Hd Hsm Hu Ho) as [H1 H2].
  destruct (yields_and _ _ _ H1 H2) as ([[r d'] w'] & E & G & G1 & G2). unfold dictReplace. rewrite E. cbn [cbind].
  destruct G as [(-> & Hm & k' & s1 & v' & E1 & E2 & Hd')|(-> & Hf & Ec & Hd' & _)].
  - apply yields_Ret. eexists. split; [by eapply map_replace_new|done].
  - cbn. destruct (dictFind_ok d' m k Hd') as (e & -> & Hl & He). cbn [cbind]. destruct e as [e|]; cbn in Hl.
    + rewrite dup_world. apply yields_Ret. destruct (He e eq_refl) as [Hin Hk].
      destruct (dup_value (valDup T) v (client w')) as [v' s1] eqn:Ev. cbn [fst snd].
      destruct (ok_change d' m e v' Hd' (owned_blocks _ _ _ _ G2) Hin) as [F1 F2].
      destruct (destruct_world (valDestructor T) (val e) (World (mem w') s1)) as [W1 W2].
      eexists. split; [|split; [|split]].
      * rewrite <- Ec. unfold dictFreeEntryVal. rewrite W2. cbn [client]. eapply map_replace_old; [by rewrite <- Hl|done].
      * by rewrite Hk.
      * done.
      * unfold owns, dictFreeEntryVal. rewrite W1. unfold dict_blocks. rewrite F2. exact G2.
    + apply yields_Ret. exists m. split; [|done]. rewrite <- Ec. apply map_replace_not; [done|]. destruct Hf as [[x Hx]|]; [congruence|done].
Qed.

Lemma unlink_find k c : match find_chain T k c with
  | Some e => exists c1 c2, c = c1 ++ e :: c2 /\ unlink T k c = Some (e, c1 ++ c2)
  | None => unlink T k c = None
  end.
Proof.
  induction c as [|e c IH]; cbn; [done|]. destruct (dictCompareHashKeys T k (key e)); [by exists [], c|].
  destruct (find_chain T k c) as [f|]; [|by rewrite IH]. destruct IH as (c1 & c2 & -> & ->). by exists (e :: c1), c2.
Qed.

(** Removing the entry [e] of slot [h]: the rest of dictDelete. *)
Lemma remove_entry d m j e h c1 c2 w h0 rest : dict_ok d m -> sized d j -> slots d !! Z.to_nat h = Some (c1 ++ e :: c2) -> 0 <= h ->
  used d < 2 ^ 64 -> owns h0 rest d w ->
  yields (hi_free (Some (entry_block e)) (dictFreeEntryVal T e (dictFreeEntryKey T e w))) (fun w' =>
    client w' = destroy (valDestructor T) (val e) (destroy (keyDestructor T) (key e) (client w)) /\
    owns h0 rest (set_used (u64 (used d - 1)) (with_slot h (c1 ++ c2) d)) w').
Proof.
  intros Hd Hj Hc Hh Hu Ho. destruct (ok_remove d m j e h c1 c2 Hd Hj Hc Hh Hu) as [_ F2].
  destruct (destruct_world (valDestructor T) (val e) (dictFreeEntryKey T e w)) as [W1 W2].
  destruct (destruct_world (keyDestructor T) (key e) w) as [W3 W4]. unfold dictFreeEntryVal, dictFreeEntryKey in *.
  eapply yields_mono; [apply (hi_free_ok h0 (entry_block e) (dict_blocks (with_slot h (c1 ++ c2) d) ++ rest))|].
  - rewrite W1, W3. eapply acquires_perm; [|exact Ho]. unfold dict_blocks. rewrite F2, fmap_cons, <- !app_assoc. cbn. by rewrite <- Permutation_middle.
  - intros w' [H1 H2]. split; [by rewrite H2, W2, W4|exact H1].
Qed.

Lemma delete_implements d m k w h0 rest : dict_ok d m -> small d -> used d < 2 ^ 31 -> owns h0 rest d w ->
  yields (dictDelete T d k w) (fun '(r, d', w') => implements (Delete k) m (client w) h0 rest d' w' (Code r)).
Proof.
  intros Hd Hsm Hu Ho. unfold dictDelete. destruct (ok_sized _ _ Hd) as [E|[j Hj]].
  { pose proof (ok_map _ _ Hd) as Em. subst d. apply yields_Ret. exists m. split; [|done]. apply map_delete_not. by rewrite Em. }
  pose proof Hj as (Hj2 & _ & Es & _). assert (0 < 2 ^ j) by (apply Z.pow_pos_nonneg; lia). rewrite (proj2 (Z.eqb_neq _ _)) by lia.
  destruct (slot_of_mod d j k Hj) as [_ Hr]. destruct (load_slot_ok d j _ Hj Hr) as (c & Hc & Hl). rewrite Hc. cbn [cbind].
  pose proof (chain_lookup d m j k c Hd Hj Hl) as Hm. pose proof (unlink_find k c) as Hun. pose proof (find_chain_ok k c) as Hf.
  destruct (find_chain T k c) as [e|]; cbn in Hm.
  2: { rewrite Hun. apply yields_Ret. exists m. split; [by apply map_delete_not|done]. }
  destruct Hun as (c1 & c2 & -> & ->). destruct Hf as [_ Hk]. rewrite (store_slot_ok _ _ _ _ Hc). cbn [cbind].
  destruct (ok_remove d m j e _ c1 c2 Hd Hj Hl ltac:(lia) ltac:(lia)) as [F1 F2].
  eapply yields_bind; [apply (remove_entry d m j e _ c1 c2 w h0 rest Hd Hj Hl); [lia|lia|done]|].
  intros w' [W1 W2]. apply yields_Ret. eexists. split; [|split; [|split]].
  - rewrite W1. by eapply map_delete.
  - by rewrite Hk.
  - done.
  - done.
Qed.

Lemma perform_implements o d m w h0 rest : dict_ok d m -> small d -> used d < 2 ^ 31 -> owns h0 rest d w ->
  yields (perform o d w) (fun '(r, d', w') => implements o m (client w) h0 rest d' w' r).
Proof.
  intros Hd Hsm Hu Ho. destruct o as [k|k v|k v|k]; cbn [perform].
  - destruct (dictFind_ok d m k Hd) as (e & -> & Hl & _). apply yields_Ret. exists m. split; [rewrite Hl; constructor|done].
  - eapply yields_bind; [by apply add_implements|]. intros [[r d'] w'] H. by apply yields_Ret.
  - eapply yields_bind; [by apply replace_implements|]. intros [[r d'] w'] H. by apply yields_Ret.
  - eapply yields_bind; [by apply delete_implements|]. intros [[r d'] w'] H. by apply yields_Ret.
Qed.

(** *** Runs of operations *)

Fixpoint perform_all (os : list dict_op) (d : dict) (w : world S) : comp (list outcome * dict * world S) :=
  match os with
  | [] => Ret ([], d, w)
  | o :: os =>
      let! '(r, d, w) := perform o d w in
      let! '(rs, d, w) := perform_all os d w in
      Ret (r :: rs, d, w)
  end.

Inductive map_run : list dict_op -> gmap C (Z * Z) * S -> list outcome -> gmap C (Z * Z) * S -> Prop :=
| map_run_nil x : map_run [] x [] x
| map_run_cons o os x r y rs z : map_step o x r y -> map_run os y rs z -> map_run (o :: os) x (r :: rs) z.

Lemma used_map d m : dict_ok d m -> used d = Z.of_nat (base.size m).
Proof.
  intros Hd. rewrite (ok_used _ _ Hd), (ok_map _ _ Hd), map_size_list_to_map, length_fmap; [done|].
  rewrite pairs_fst. apply Hd.
Qed.

Lemma map_step_size o x r y : map_step o x r y -> (base.size y.1 <= Datatypes.S (base.size x.1))%nat.
Proof.
  destruct 1; cbn; try lia.
  - rewrite map_size_insert. case_match; unfold id; cbn; lia.
  - rewrite map_size_insert. case_match; unfold id; cbn; lia.
  - rewrite map_size_insert. case_match; unfold id; cbn; lia.
  - rewrite map_size_delete. case_match; unfold id; cbn; lia.
Qed.

Lemma run_implements os : forall d m w h0 rest, dict_ok d m -> small d -> used d + Z.of_nat (length os) <= 2 ^ 31 -> owns h0 rest d w ->
  yields (perform_all os d w) (fun '(rs, d', w') =>
    exists m', map_run os (m, client w) rs (m', client w') /\ dict_ok d' m' /\ small d' /\ owns h0 rest d' w').
Proof.
  induction os as [|o os IH]; intros d m w h0 rest Hd Hsm Hu Ho; cbn [perform_all].
  - apply yields_Ret. exists m. split; [constructor|done].
  - cbn [length] in Hu. eapply yields_bind; [apply (perform_implements o d m w h0 rest); try done; lia|].
    intros [[r d1] w1] (m1 & Hs & Hd1 & Hsm1 & Ho1). eapply yields_bind.
    + apply (IH d1 m1 w1 h0 rest); try done. pose proof (map_step_size _ _ _ _ Hs) as Hz. cbn in Hz.
      rewrite (used_map _ _ Hd1). rewrite (used_map _ _ Hd) in Hu. lia.
    + intros [[rs d2] w2] (m2 & Hr & H2). apply yields_Ret. exists m2. split; [by econstructor|done].
Qed.

(** *** Releasing *)

Definition destroy_entry (s : S) (e : dictEntry) : S :=
  destroy (valDestructor T) (val e) (destroy (keyDestructor T) (key e) s).

Lemma clear_chain_ok he : forall u w h0 rest, Z.of_nat (length he) <= u < 2 ^ 64 ->
  acquires h0 ((entry_block <$> he) ++ rest) (mem w) ->
  yields (clear_chain T he u w) (fun '(u', w') => u' = u - Z.of_nat (length he) /\ acquires h0 rest (mem w') /\
    client w' = foldl destroy_entry (client w) he).
Proof.
  induction he as [|e he IH]; intros u w h0 rest Hu Ha; cbn [clear_chain].
  - apply yields_Ret. split; [cbn; lia|done].
  - destruct (destruct_world (valDestructor T) (val e) (dictFreeEntryKey T e w)) as [W1 W2].
    destruct (destruct_world (keyDestructor T) (key e) w) as [W3 W4]. unfold dictFreeEntryVal, dictFreeEntryKey in *.
    eapply yields_bind; [apply (hi_free_ok h0 _ ((entry_block <$> he) ++ rest)); by rewrite W1, W3|].
    intros w1 [H1 H2]. cbn [length] in Hu. assert (u64 (u - 1) = u - 1) as -> by (unfold u64; apply Z.mod_small; lia).
    eapply yields_mono; [apply (IH (u - 1) w1 h0 rest); [lia|done]|]. intros [u' w'] (-> & F1 & F2). cbn [length foldl].
    split; [lia|]. split; [done|]. rewrite F2, H2, W2, W4. done.
Qed.

Lemma clear_slots_ok rounds : forall i d j u w h0 rest, sized d j -> 0 <= i <= 2 ^ j -> 2 ^ j - i <= Z.of_nat rounds ->
  u = Z.of_nat (length (concat (drop (Z.to_nat i) (slots d)))) -> u < 2 ^ 64 ->
  acquires h0 ((entry_block <$> concat (drop (Z.to_nat i) (slots d))) ++ rest) (mem w) ->
  yields (clear_slots T rounds i d u w) (fun w' => acquires h0 rest (mem w') /\
    client w' = foldl destroy_entry (client w) (concat (drop (Z.to_nat i) (slots d)))).
Proof.
  induction rounds as [|rounds IH]; intros i d j u w h0 rest Hd Hi Hr Hu Hb Ha.
  all: pose proof Hd as (Hj & _ & Es & _ & El).
  all: destruct (Z.ltb_spec i (size d)) as [H1|H1]; [|rewrite drop_ge in Ha |- * by lia; cbn [clear_slots];
    rewrite (proj2 (Z.ltb_ge _ _)) by lia; cbn; by apply yields_Ret].
  - lia.
  - cbn [clear_slots]. rewrite (proj2 (Z.ltb_lt _ _)) by lia. rewrite Z.gtb_ltb. cbn [andb].
    destruct (load_slot_ok d j i Hd) as (c & Hc & Hl); [lia|]. rewrite (concat_drop _ _ _ Hl) in Hu, Ha |- *.
    rewrite length_app in Hu. destruct (Z.ltb_spec 0 u) as [H2|H2].
    + rewrite Hc. cbn [cbind]. rewrite fmap_app, <- app_assoc in Ha.
      eapply yields_bind; [apply (clear_chain_ok c u w h0 _ ltac:(lia) Ha)|]. intros [u1 w1] (-> & G1 & G2).
      replace (Datatypes.S (Z.to_nat i)) with (Z.to_nat (i + 1)) in * by lia.
      eapply yields_mono; [apply (IH (i + 1) d j _ w1 h0 rest); try done; lia|]. intros w' [F1 F2]. split; [done|].
      by rewrite F2, G2, foldl_app.
    + assert (c = [] /\ concat (drop (Datatypes.S (Z.to_nat i)) (slots d)) = []) as [-> E] by (split; apply length_zero_iff_nil; lia).
      rewrite E in Ha |- *. by apply yields_Ret.
Qed.

Lemma release_ok d m b w h0 rest : dict_ok d m -> used d < 2 ^ 64 -> owns h0 (b :: rest) d w ->
  yields (dictRelease T b d w) (fun w' => acquires h0 rest (mem w') /\ client w' = foldl destroy_entry (client w) (entries d)).
Proof.
  intros Hd Hu Ho. unfold dictRelease, dictClear.
  assert (yields (clear_slots T (Z.to_nat (size d)) 0 d (used d) w) (fun w' =>
    acquires h0 (option_list (table d) ++ b :: rest) (mem w') /\ client w' = foldl destroy_entry (client w) (entries d))) as (w1 & -> & H1 & H2).
  { unfold owns, dict_blocks in Ho. destruct (ok_sized _ _ Hd) as [->|[j Hj]]; [by apply yields_Ret|].
    pose proof Hj as (_ & _ & Es & _). eapply yields_mono; [apply (clear_slots_ok _ 0 d j _ w h0 (option_list (table d) ++ b :: rest) Hj)|].
    - rewrite <- Es. destruct Hj as (? & _). assert (0 < 2 ^ j) by (apply Z.pow_pos_nonneg; lia). lia.
    - lia.
    - apply Hd.
    - done.
    - eapply acquires_perm; [|exact Ho]. cbn [Z.to_nat drop]. rewrite app_assoc. apply Permutation_app_tail, Permutation_app_comm.
    - done. }
  cbn [cbind]. destruct (hi_free_option h0 (table d) (b :: rest) w1 H1) as (w2 & -> & F1 & F2). cbn [cbind].
  eapply yields_mono; [by apply hi_free_ok|]. intros w3 [F3 F4]. split; [done|congruence].
Qed.

(** *** Iterating *)

(** The client's loop: visits the entries and deletes the ones it wants to. *)
Fixpoint walk (rounds : nat) (del : dictEntry -> bool) (it : dictIterator) (d : dict) (w : world S) :
  comp (list dictEntry * dict * world S) :=
  match rounds with
  | O => NoFuel
  | Datatypes.S rounds =>
      let! '(e, it) := dictNext it d in
      match e with
      | None => Ret ([], d, w)
      | Some e =>
          let! '(_, d, w) := if del e then dictDelete T d (key e) w else Ret (DICT_OK, d, w) in
          let! '(vs, d, w) := walk rounds del it d w in
          Ret (e :: vs, d, w)
      end
  end.

(** The iterator is at an entry of slot [i] that was followed by [rest]. *)
Definition at_entry (it : dictIterator) (d : dict) (i : Z) (rest : list dictEntry) : Prop :=
  is_Some (entry it) /\ index it = i /\ 0 <= i /\ nextEntry it = entry_block <$> head rest /\
  exists pre, slots d !! Z.to_nat i = Some (pre ++ rest).

(** [l] is left to visit. *)
Definition at_pos (it : dictIterator) (d : dict) (l : list dictEntry) : Prop :=
  (entry it = None /\ -1 <= index it < size d /\ l = concat (drop (Z.to_nat (index it + 1)) (slots d))) \/
  (exists i rest, at_entry it d i rest /\ l = rest ++ concat (drop (Datatypes.S (Z.to_nat i)) (slots d))).

Lemma chain_at_ok pre e rest : NoDup (entry_block <$> pre ++ e :: rest) ->
  chain_at (entry_block e) (pre ++ e :: rest) = Some (e, entry_block <$> head rest).
Proof.
  induction pre as [|x pre IH]; cbn; [by rewrite Z.eqb_refl|]. rewrite NoDup_cons. intros [Hx Hd].
  rewrite (proj2 (Z.eqb_neq _ _)); [by apply IH|]. intros E. apply Hx. rewrite E, fmap_app, fmap_cons. set_solver.
Qed.

Lemma chain_at_none b c : b ∉ entry_block <$> c -> chain_at b c = None.
Proof.
  induction c as [|e c IH]; cbn; [done|]. rewrite not_elem_of_cons. intros [H1 H2].
  rewrite (proj2 (Z.eqb_neq _ _)) by congruence. by apply IH.
Qed.

Lemma deref_ok (cs : list (list dictEntry)) i pre e rest : NoDup (entry_block <$> concat cs) -> cs !! i = Some (pre ++ e :: rest) ->
  deref_entry (entry_block e) cs = Ret (e, entry_block <$> head rest).
Proof.
  revert i. induction cs as [|c cs IH]; intros i Hd Hi; [done|]. cbn in Hd |- *. rewrite fmap_app, NoDup_app in Hd. destruct Hd as (D1 & D2 & D3).
  destruct i as [|i]; [injection Hi as ->; by rewrite chain_at_ok|]. rewrite chain_at_none; [by apply (IH i)|].
  intros Hb. apply (D2 _ Hb). cbn in Hi. rewrite (concat_middle _ _ _ Hi), !fmap_app, fmap_cons. set_solver.
Qed.

Definition next_ok (d : dict) (l : list dictEntry) (r : option dictEntry) (it : dictIterator) : Prop :=
  match l with
  | [] => r = None
  | e :: l => r = Some e /\ exists i pre rest, slots d !! Z.to_nat i = Some (pre ++ e :: rest) /\ at_entry it d i rest /\
      l = rest ++ concat (drop (Datatypes.S (Z.to_nat i)) (slots d))
  end.

Lemma found_ok d i pre e rest : NoDup (entry_block <$> entries d) -> 0 <= i -> slots d !! Z.to_nat i = Some (pre ++ e :: rest) ->
  yields (let! '(e', next) := deref_entry (entry_block e) (slots d) in Ret (Some e', DictIterator i (Some (entry_block e)) next))
    (fun '(r, it) => next_ok d (e :: rest ++ concat (drop (Datatypes.S (Z.to_nat i)) (slots d))) r it).
Proof.
  intros Hd Hi Hs. rewrite (deref_ok _ _ _ _ _ Hd Hs). cbn [cbind]. apply yields_Ret. split; [done|]. exists i, pre, rest.
  split; [done|]. split; [|done]. split; [by eexists|]. split; [done|]. split; [done|]. split; [done|]. exists (pre ++ [e]).
  by rewrite <- app_assoc.
Qed.

Lemma next_slot rounds : forall i it d m, dict_ok d m -> NoDup (entry_block <$> entries d) -> size d < 2 ^ 31 -> entry it = None ->
  index it = i - 1 -> 0 <= i <= size d -> size d - i < Z.of_nat rounds ->
  yields (dictNext_loop rounds it d) (fun '(r, it') => next_ok d (concat (drop (Z.to_nat i) (slots d))) r it').
Proof.
  induction rounds as [|rounds IH]; intros i it d m Hd Hb Hsz He Hi Hr Hf; [lia|]. cbn [dictNext_loop].
  rewrite He, Hi. replace (i - 1 + 1) with i by lia. rewrite !i32_small by lia. rewrite Z.geb_leb.
  destruct (Z.leb_spec (size d) i) as [H|H].
  - apply yields_Ret. rewrite drop_ge; [done|]. destruct (ok_sized _ _ Hd) as [->|[j (_ & _ & Es & _ & El)]]; [cbn; lia|lia].
  - destruct (ok_sized _ _ Hd) as [->|[j Hj]]; [cbn in H; lia|]. pose proof Hj as (_ & _ & Es & _).
    destruct (load_slot_ok d j i Hj ltac:(lia)) as (c & -> & Hc). cbn [cbind]. rewrite (concat_drop _ _ _ Hc).
    destruct c as [|e rest]; cbn [head fmap option_fmap option_map].
    + replace (Datatypes.S (Z.to_nat i)) with (Z.to_nat (i + 1)) by lia. apply (IH (i + 1) _ d m); try done; cbn; lia.
    + exact (found_ok d i [] e rest Hb ltac:(lia) Hc).
Qed.

Lemma dictNext_ok it d m l : dict_ok d m -> NoDup (entry_block <$> entries d) -> size d < 2 ^ 31 -> at_pos it d l ->
  yields (dictNext it d) (fun '(r, it') => next_ok d l r it').
Proof.
  intros Hd Hb Hsz [(He & Hi & ->)|(i & rest & ([b He] & Hi & H0 & Hn & pre & Hs) & ->)]; unfold dictNext.
  - apply (next_slot _ (index it + 1) it d m); try done; lia.
  - remember (Datatypes.S (Z.to_nat (size d))) as n eqn:En. cbn [dictNext_loop]. rewrite He, Hn, Hi. destruct rest as [|e rest]; cbn [head fmap option_fmap option_map].
    + destruct (ok_sized _ _ Hd) as [->|[j (_ & _ & Es & _ & El)]]; [done|]. apply lookup_lt_Some in Hs.
      cbn [app]. replace (Datatypes.S (Z.to_nat i)) with (Z.to_nat (i + 1)) by lia. apply (next_slot _ (i + 1) _ d m); try done; cbn; lia.
    + exact (found_ok d i pre e rest Hb H0 Hs).
Qed.

Lemma split_unique {E : Type} (x : E) l1 : forall l2 l1' l2', l1 ++ x :: l2 = l1' ++ x :: l2' -> x ∉ l1 -> x ∉ l1' -> l1 = l1' /\ l2 = l2'.
Proof.
  induction l1 as [|y l1 IH]; intros l2 [|y' l1'] l2' H H1 H2; cbn in H; injection H; intros; subst; set_solver.
Qed.

(** dictDelete of the key of a given entry removes that entry. *)
Lemma delete_entry d m j i pre e rest w h0 r0 : dict_ok d m -> sized d j -> 0 <= i -> slots d !! Z.to_nat i = Some (pre ++ e :: rest) ->
  used d < 2 ^ 31 -> owns h0 r0 d w ->
  yields (dictDelete T d (key e) w) (fun '(r, d', w') => r = DICT_OK /\
    d' = set_used (u64 (used d - 1)) (with_slot i (pre ++ rest) d) /\ client w' = destroy_entry (client w) e /\ owns h0 r0 d' w').
Proof.
  intros Hd Hj Hi Hc Hu Ho. pose proof Hj as (Hj2 & _ & Es & _). unfold dictDelete. assert (0 < 2 ^ j) by (apply Z.pow_pos_nonneg; lia).
  rewrite (proj2 (Z.eqb_neq _ _)) by lia. assert (slot_of T d (key e) = i) as Hslot.
  { rewrite (ok_placed _ _ Hd _ _ e Hc); [lia|set_solver]. }
  destruct (slot_of_mod d j (key e) Hj) as [_ Hr]. destruct (load_slot_ok d j _ Hj Hr) as (c & Hl & Hc'). rewrite Hl. cbn [cbind].
  rewrite Hslot, Hc in Hc'. injection Hc' as <-. pose proof (unlink_find (key e) (pre ++ e :: rest)) as Hun.
  pose proof (find_chain_ok (key e) (pre ++ e :: rest)) as Hf. destruct (find_chain T (key e) (pre ++ e :: rest)) as [e'|];
    [|by destruct (Hf e); [set_solver|]]. destruct Hf as [Hin Hk], Hun as (c1 & c2 & E & ->).
  pose proof (ok_distinct _ _ Hd) as Hdis. unfold distinct, entries in Hdis. rewrite (concat_middle _ _ _ Hc) in Hdis.
  rewrite fmap_app, fmap_app, NoDup_app, fmap_app, fmap_app, NoDup_app in Hdis. destruct Hdis as (_ & _ & Hdis & _).
  pose proof Hdis as Hdis'. rewrite !fmap_app, !fmap_cons in Hdis.
  assert (forall x, x ∈ pre -> canon (key x) <> canon (key e)) as N1.
  { intros x Hx Ex. apply NoDup_app in Hdis as (_ & N & _). apply (N (canon (key x))); [by apply list_elem_of_fmap_2, list_elem_of_fmap_2|]. set_solver. }
  assert (forall x, x ∈ rest -> canon (key x) <> canon (key e)) as N2.
  { intros x Hx Ex. apply NoDup_app in Hdis as (_ & _ & N). apply NoDup_cons in N as [N _]. apply N. rewrite <- Ex.
    by apply list_elem_of_fmap_2, list_elem_of_fmap_2. }
  assert (e' = e) as ->.
  { apply elem_of_app in Hin as [Hin|[->|Hin]%elem_of_cons]; [by destruct (N1 e')|done|by destruct (N2 e')]. }
  assert (e ∉ c1) as N3.
  { intros Hin1. rewrite E, !fmap_app, !fmap_cons in Hdis'. apply NoDup_app in Hdis' as (_ & N & _).
    apply (N (canon (key e))); [by apply list_elem_of_fmap_2, list_elem_of_fmap_2|]. set_solver. }
  assert (e ∉ pre) as N4 by (intros H'; by apply (N1 e)). destruct (split_unique e _ _ _ _ E N4 N3) as [<- <-].
  rewrite Hslot in *. rewrite (store_slot_ok _ _ _ _ Hl). cbn [cbind].
  eapply yields_bind; [apply (remove_entry d m j e i pre rest w h0 r0 Hd Hj Hc); [lia|lia|done]|].
  intros w' [W1 W2]. by apply yields_Ret.
Qed.

(** The entries that stay. *)
Definition keeps (del : dictEntry -> bool) (l : list dictEntry) : list dictEntry := filter (fun e => del e = false) l.

Lemma ok_perm_map d m l : dict_ok d m -> entries d ≡ₚ l -> m = list_to_map (pair_of <$> l).
Proof. intros Hd E. rewrite (ok_map _ _ Hd). apply pairs_perm; [apply Hd|done]. Qed.

Lemma walk_ok rounds : forall del l kept it d m w h0 r0, dict_ok d m -> size d < 2 ^ 31 -> used d < 2 ^ 31 -> owns h0 r0 d w ->
  at_pos it d l -> entries d ≡ₚ kept ++ l -> (length l < rounds)%nat ->
  yields (walk rounds del it d w) (fun '(vs, d', w') => vs = l /\ entries d' ≡ₚ kept ++ keeps del l /\
    dict_ok d' (list_to_map (pair_of <$> kept ++ keeps del l)) /\ owns h0 r0 d' w' /\
    client w' = foldl destroy_entry (client w) (filter (fun e => del e = true) l)).
Proof.
  induction rounds as [|rounds IH]; intros del l kept it d m w h0 r0 Hd Hsz Hu Ho Hp He Hr; [lia|]. cbn [walk].
  eapply yields_bind; [by apply (dictNext_ok it d m l Hd (owned_blocks _ _ _ _ Ho))|]. intros [r it'] Hn.
  destruct l as [|e l]; cbn in Hn; [subst r; apply yields_Ret|].
  { split; [done|]. cbn. rewrite app_nil_r in *. split; [done|]. split; [|done]. by rewrite <- (ok_perm_map d m kept). }
  destruct Hn as (-> & i & pre & rest & Hs & Hat & ->). cbn [length] in Hr. unfold keeps.
  destruct (ok_sized _ _ Hd) as [->|[j Hj]]; [done|]. pose proof Hat as (Ha1 & Ha2 & Ha3 & Ha4 & pre' & Ha5).
  set (l' := rest ++ _) in *. destruct (del e) eqn:Ed.
  - rewrite (filter_cons_False (fun e => del e = false)), (filter_cons_True (fun e => del e = true)) by congruence.
    eapply yields_bind; [by apply (delete_entry d m j i pre e rest w h0 r0 Hd Hj Ha3 Hs)|]. intros [[r d1] w1] (-> & -> & W1 & W2).
    destruct (ok_remove d m j e i pre rest Hd Hj Hs Ha3 ltac:(lia)) as [F1 F2].
    assert (used (set_used (u64 (used d - 1)) (with_slot i (pre ++ rest) d)) < 2 ^ 31) as Hu1.
    { rewrite (ok_used _ _ F1). pose proof (ok_used _ _ Hd) as Hu0. rewrite F2 in Hu0. cbn [length] in Hu0.
      change (entries (set_used _ _)) with (entries (with_slot i (pre ++ rest) d)). lia. }
    eapply yields_bind; [apply (IH del l' kept it' _ _ w1 h0 r0 F1); try done; [|..|lia]; [right; exists i, rest; split; [split|]|]|].
    + done.
    + split; [done|]. split; [done|]. split; [done|]. exists pre. cbn. apply list_lookup_insert_eq. by eapply lookup_lt_Some.
    + cbn. by rewrite drop_insert_lt by lia.
    + change (entries (set_used _ _)) with (entries (with_slot i (pre ++ rest) d)).
      apply (Permutation_cons_inv (a := e)). by rewrite <- F2, He, Permutation_middle.
    + intros [[vs d2] w2] (-> & G2 & G3 & G4 & G5). apply yields_Ret. split; [done|]. cbn [foldl]. rewrite G5, W1. done.
  - rewrite (filter_cons_True (fun e => del e = false)), (filter_cons_False (fun e => del e = true)) by congruence.
    cbn [cbind]. eapply yields_bind; [apply (IH del l' (kept ++ [e]) it' d m w h0 r0 Hd); try done; [right; by exists i, rest| |lia]|].
    + by rewrite He, <- app_assoc.
    + intros [[vs d2] w2] (-> & G2 & G3 & G4 & G5). apply yields_Ret. split; [done|]. rewrite <- app_assoc in G2, G3. done.
Qed.

End Proofs.

(** ** Correctness *)

(** C7: A table is a finite map: a run of finds, adds, replaces and deletes on
    it returns what the map returns and leaves the map's result, whatever
    chains and expansions the hash leads to; each operation fails only for
    lack of memory, calls the client's functions as the map does, and no block
    is lost or freed twice. *)
Theorem dict_refines_map {A : Allocator} {S : Type} (T : dictType S) {C : Type} `{Countable C} (canon : Z -> C) (hash : C -> Z)
  (K : Keyed T canon hash) (os : list dict_op) (d : dict) (m : gmap C (Z * Z)) (w : world S) (h0 : heap) (rest : list Z)
  (Hd : dict_ok T canon d m) (Hsmall : small d) (Hu : used d + Z.of_nat (length os) <= 2 ^ 31) (Ho : owns h0 rest d w) :
  yields (perform_all T os d w) (fun '(rs, d', w') => exists m',
    map_run T canon os (m, client w) rs (m', client w') /\ dict_ok T canon d' m' /\ owns h0 rest d' w').
Proof.
  eapply yields_mono; [by apply (run_implements T canon hash os d m w h0 rest)|].
  intros [[rs d'] w'] (m' & H1 & H2 & H3 & H4). by exists m'.
Qed.

(** Expanding keeps the map, its entries and the client's state; the new
    size is the least power of two from 4 on that holds the request.  It fails
    only if the request is below the number of entries, too big for the
    address space or refused by the allocator, and then changes nothing. *)
Theorem dict_expand_keeps {A : Allocator} {S : Type} (T : dictType S) {C : Type} `{Countable C} (canon : Z -> C) (hash : C -> Z)
  (K : Keyed T canon hash) (d : dict) (m : gmap C (Z * Z)) (sz : Z) (w : world S) (h0 : heap) (rest : list Z)
  (Hd : dict_ok T canon d m) (Hsz : 0 <= sz < LONG_MAX) (Ho : owns h0 rest d w) :
  yields (dictExpand T d sz w) (fun '(r, d', w') =>
    dict_ok T canon d' m /\ client w' = client w /\ owns h0 rest d' w' /\ entries d' ≡ₚ entries d /\
    (r = DICT_ERR /\ d' = d /\ (sz < used d \/ 2 ^ 60 < sz \/ starved) \/
     r = DICT_OK /\ used d <= sz /\ exists j, sized d' j /\ sz <= 2 ^ j /\ (j = 2 \/ 2 ^ (j - 1) < sz))).
Proof. by apply (dictExpand_ok T canon hash). Qed.

(** C30: An iterator returns every entry once and then NULL, also when the
    client deletes entries it was given on the way; the entries it deletes are
    destroyed in that order and the others stay. *)
Theorem dict_iterator_visits {A : Allocator} {S : Type} (T : dictType S) {C : Type} `{Countable C} (canon : Z -> C) (hash : C -> Z)
  (K : Keyed T canon hash) (d : dict) (m : gmap C (Z * Z)) (del : dictEntry -> bool) (w : world S) (h0 : heap) (rest : list Z)
  (Hd : dict_ok T canon d m) (Hsz : size d < 2 ^ 31) (Hu : used d < 2 ^ 31) (Ho : owns h0 rest d w) :
  yields (walk T (Datatypes.S (length (entries d))) del dictInitIterator d w) (fun '(vs, d', w') =>
    vs = entries d /\ pair_of canon <$> vs ≡ₚ map_to_list m /\
    entries d' ≡ₚ keeps del (entries d) /\ dict_ok T canon d' (list_to_map (pair_of canon <$> keeps del (entries d))) /\
    owns h0 rest d' w' /\ client w' = foldl (destroy_entry T) (client w) (filter (fun e => del e = true) (entries d))).
Proof.
  eapply yields_mono; [apply (walk_ok T canon hash _ del (entries d) [] dictInitIterator d m w h0 rest Hd Hsz Hu Ho); [|done|lia]|].
  - left. split; [done|]. split; [|done]. cbn. destruct (ok_sized _ _ _ _ Hd) as [->|[j (? & _ & -> & _)]]; [cbn; lia|].
    assert (0 < 2 ^ j) by (apply Z.pow_pos_nonneg; lia). lia.
  - intros [[vs d'] w'] (-> & G). split; [done|]. split; [|done]. rewrite (ok_map _ _ _ _ Hd), map_to_list_to_map; [done|].
    rewrite pairs_fst. apply Hd.
Qed.

(** dictRelease destroys every key and value and frees every block of the
    table exactly once. *)
Theorem dict_release_frees {A : Allocator} {S : Type} (T : dictType S) {C : Type} `{Countable C} (canon : Z -> C) (hash : C -> Z)
  (K : Keyed T canon hash) (d : dict) (m : gmap C (Z * Z)) (b : Z) (w : world S) (h0 : heap) (rest : list Z)
  (Hd : dict_ok T canon d m) (Hu : used d < 2 ^ 64) (Ho : owns h0 (b :: rest) d w) :
  yields (dictRelease T b d w) (fun w' => acquires h0 rest (mem w') /\ client w' = foldl (destroy_entry T) (client w) (entries d)).
Proof. by apply (release_ok T canon d m). Qed.

(** ** Examples

    Keys of three bytes; the client collects what is destroyed. *)
Definition sample_contents (k : Z) : list Z := [u8 k; 58; u8 (k / 256)].

Lemma sample_short k : blen (sample_contents k) < 2 ^ 31.
Proof. done. Qed.

Definition sample_type : dictType (list Z) :=
  clusterNodesDictType sample_contents (fun k s => s ++ [k]) (fun v s => s ++ [v]).

#[local] Instance sample_keyed : Keyed sample_type sample_contents (fun s => u32 (dictGenHashFunction s)).
Proof. apply clusterNodes_keyed, sample_short. Qed.

#[local] Instance sample_memory : Allocator := plenty.

Definition sample_world : world (list Z) := World (mkHeap 1 ∅) [].

(** Six keys: the table grows from 4 to 8 slots. *)
Definition sample_ops : list dict_op :=
  [Add 1 10; Add 2 20; Add 1 11; Replace 2 21; Add 3 30; Add 4 40; Add 5 50; Add 6 60; Delete 3; Find 2; Find 3].

Lemma reset_ok : dict_ok sample_type sample_contents dictReset ∅.
Proof. split; [by left|done| |constructor|done]. intros i c e H. done. Qed.

Lemma reset_owns : owns (mem sample_world) [] dictReset sample_world.
Proof. apply acquires_nil. intros b. set_solver. Qed.

Example sample_results : (let! '(rs, d, w) := perform_all sample_type sample_ops dictReset sample_world in
    Ret (rs, size d, used d, client w)) =
  Ret ([Code 0; Code 0; Code 1; Code 0; Code 0; Code 0; Code 0; Code 0; Code 0; Found (Some (2, 21)); Found None], 8, 5, [20; 3; 30]).
Proof. vm_compute. reflexivity. Qed.

Lemma dict_refines_map_witness : yields (perform_all sample_type sample_ops dictReset sample_world) (fun '(rs, d', w') =>
  exists m', map_run sample_type sample_contents sample_ops (∅, []) rs (m', client w') /\
    dict_ok sample_type sample_contents d' m' /\ owns (mem sample_world) [] d' w').
Proof.
  apply (dict_refines_map sample_type sample_contents _ sample_keyed sample_ops dictReset ∅ sample_world (mem sample_world) []);
    [apply reset_ok|done|done|apply reset_owns].
Defined.

Lemma dict_expand_keeps_witness : yields (dictExpand sample_type dictReset 5 sample_world) (fun '(r, d', w') =>
  dict_ok sample_type sample_contents d' ∅ /\ client w' = [] /\ owns (mem sample_world) [] d' w' /\ entries d' ≡ₚ [] /\
  (r = DICT_ERR /\ d' = dictReset /\ (5 < 0 \/ 2 ^ 60 < 5 \/ starved) \/
   r = DICT_OK /\ 0 <= 5 /\ exists j, sized d' j /\ 5 <= 2 ^ j /\ (j = 2 \/ 2 ^ (j - 1) < 5))).
Proof.
  apply (dict_expand_keeps sample_type sample_contents _ sample_keyed dictReset ∅ 5 sample_world (mem sample_world) []);
    [apply reset_ok|unfold LONG_MAX; lia|apply reset_owns].
Defined.

(** The table after these operations. *)
Definition sample_table : dict :=
  match perform_all sample_type sample_ops dictReset sample_world with Ret (_, d, _) => d | _ => dictReset end.

Definition sample_after : world (list Z) :=
  match perform_all sample_type sample_ops dictReset sample_world with Ret (_, _, w) => w | _ => sample_world end.

Lemma sample_table_ok : exists m, dict_ok sample_type sample_contents sample_table m /\
  owns (mem sample_world) [] sample_table sample_after.
Proof.
  destruct (run_implements sample_type sample_contents _ sample_ops dictReset ∅ sample_world (mem sample_world) [])
    as ([[rs d] w] & E & m & _ & H1 & _ & H2); [apply reset_ok|done|done|apply reset_owns|].
  exists m. unfold sample_table, sample_after. rewrite E. split; [exact H1|exact H2].
Qed.

(** Deleting the entries of odd keys on the way. *)
Lemma dict_iterator_visits_witness : exists m,
  yields (walk sample_type 6 (fun e => Z.odd (key e)) dictInitIterator sample_table sample_after) (fun '(vs, d', w') =>
    vs = entries sample_table /\ pair_of sample_contents <$> vs ≡ₚ map_to_list m /\
    entries d' ≡ₚ keeps (fun e => Z.odd (key e)) (entries sample_table) /\
    dict_ok sample_type sample_contents d'
      (list_to_map (pair_of sample_contents <$> keeps (fun e => Z.odd (key e)) (entries sample_table))) /\
    owns (mem sample_world) [] d' w' /\
    client w' = foldl (destroy_entry sample_type) (client sample_after)
      (filter (fun e => Z.odd (key e) = true) (entries sample_table))).
Proof.
  destruct sample_table_ok as (m & H1 & H2). exists m.
  apply (dict_iterator_visits sample_type sample_contents _ sample_keyed sample_table m _ sample_after (mem sample_world) []);
    [exact H1|vm_compute; reflexivity|vm_compute; reflexivity|exact H2].
Defined.

Lemma dict_release_frees_witness : exists b w, hi_malloc sample_after = (Some b, w) /\
  yields (dictRelease sample_type b sample_table w) (fun w' => acquires (mem sample_world) [] (mem w') /\
    client w' = foldl (destroy_entry sample_type) (client w) (entries sample_table)).
Proof.
  destruct sample_table_ok as (m & H1 & H2). exists (next_block (mem sample_after)), (hi_malloc sample_after).2. split; [done|].
  apply (dict_release_frees sample_type sample_contents _ sample_keyed sample_table m _ _ (mem sample_world) []);
    [exact H1|vm_compute; reflexivity|].
  pose proof (hi_malloc_ok _ _ _ H2) as [H3 _]. eapply acquires_perm; [|exact H3]. by rewrite Permutation_middle.
Defined.
