(* ===== verification/Sds.v ===== *)
(** * Dynamic strings

    hiredis/sds.c, sds.h: strings with their length in a header before the
    bytes, whose layout (types 5, 8, 16, 32, 64) depends on the length.  An
    [sds] is the pointer with what it leads to: the block, the header fields
    and the bytes of the block from the pointer on; NULL is [None].  [size_t]
    arithmetic is written with [u64], the fields have the width of their
    type, and [Oob] also stands for signed overflow. *)

From stdpp Require Import gmap.
From S2P Require Import Prelude Cstdlib Heap.

#[local] Open Scope Z_scope.
#[local] Set Warnings "-clear-no-such-hyp".

Definition SDS_MAX_PREALLOC : Z := 1024 * 1024.
Definition SDS_TYPE_5 : Z := 0.
Definition SDS_TYPE_8 : Z := 1.
Definition SDS_TYPE_16 : Z := 2.
Definition SDS_TYPE_32 : Z := 3.
Definition SDS_TYPE_64 : Z := 4.
Definition SDS_TYPE_MASK : Z := 7.
Definition SDS_TYPE_BITS : Z := 3.
Definition SSIZE_MAX : Z := 2 ^ 63 - 1.
Definition INT_MIN : Z := - 2 ^ 31.

Record sds := mkSds {
  sblk : Z;
  flags : Z;
  hlen : Z;
  halloc : Z;
  sbuf : list Z
}.

Definition with_flags (s : sds) (f : Z) : sds := mkSds (sblk s) f (hlen s) (halloc s) (sbuf s).
Definition with_len (s : sds) (n : Z) : sds := mkSds (sblk s) (flags s) n (halloc s) (sbuf s).
Definition with_alloc (s : sds) (n : Z) : sds := mkSds (sblk s) (flags s) (hlen s) n (sbuf s).
Definition with_buf (s : sds) (b : list Z) : sds := mkSds (sblk s) (flags s) (hlen s) (halloc s) b.

(** [flags & SDS_TYPE_MASK] *)
Definition sds_type (s : sds) : Z := Z.land (flags s) SDS_TYPE_MASK.

(** ** The header (sds.h) *)

Definition SDS_TYPE_5_LEN (f : Z) : Z := Z.shiftr f SDS_TYPE_BITS.

Definition sdslen (s : sds) : Z :=
  let t := sds_type s in
  if t =? SDS_TYPE_5 then SDS_TYPE_5_LEN (flags s)
  else if (t =? SDS_TYPE_8) || (t =? SDS_TYPE_16) || (t =? SDS_TYPE_32) || (t =? SDS_TYPE_64) then hlen s
  else 0.

(** The narrow fields are subtracted as [int], the others in their type; then
    the conversion to [size_t]. *)
Definition sdsavail (s : sds) : Z :=
  let t := sds_type s in
  if t =? SDS_TYPE_5 then 0
  else if (t =? SDS_TYPE_8) || (t =? SDS_TYPE_16) then u64 (halloc s - hlen s)
  else if t =? SDS_TYPE_32 then u32 (halloc s - hlen s)
  else if t =? SDS_TYPE_64 then u64 (halloc s - hlen s)
  else 0.

Definition sdssetlen (s : sds) (newlen : Z) : sds :=
  let t := sds_type s in
  if t =? SDS_TYPE_5 then with_flags s (u8 (Z.lor SDS_TYPE_5 (u64 (Z.shiftl newlen SDS_TYPE_BITS))))
  else if t =? SDS_TYPE_8 then with_len s (u8 newlen)
  else if t =? SDS_TYPE_16 then with_len s (u16 newlen)
  else if t =? SDS_TYPE_32 then with_len s (u32 newlen)
  else if t =? SDS_TYPE_64 then with_len s (u64 newlen)
  else s.

Definition sdsinclen (s : sds) (inc : Z) : sds :=
  let t := sds_type s in
  if t =? SDS_TYPE_5 then
    let newlen := u8 (SDS_TYPE_5_LEN (flags s) + u8 inc) in
    with_flags s (u8 (Z.lor SDS_TYPE_5 (Z.shiftl newlen SDS_TYPE_BITS)))
  else if t =? SDS_TYPE_8 then with_len s (u8 (hlen s + u8 inc))
  else if t =? SDS_TYPE_16 then with_len s (u16 (hlen s + u16 inc))
  else if t =? SDS_TYPE_32 then with_len s (u32 (hlen s + u32 inc))
  else if t =? SDS_TYPE_64 then with_len s (u64 (hlen s + u64 inc))
  else s.

Definition sdsalloc (s : sds) : Z :=
  let t := sds_type s in
  if t =? SDS_TYPE_5 then SDS_TYPE_5_LEN (flags s)
  else if (t =? SDS_TYPE_8) || (t =? SDS_TYPE_16) || (t =? SDS_TYPE_32) || (t =? SDS_TYPE_64) then halloc s
  else 0.

Definition sdssetalloc (s : sds) (newlen : Z) : sds :=
  let t := sds_type s in
  if t =? SDS_TYPE_5 then s
  else if t =? SDS_TYPE_8 then with_alloc s (u8 newlen)
  else if t =? SDS_TYPE_16 then with_alloc s (u16 newlen)
  else if t =? SDS_TYPE_32 then with_alloc s (u32 newlen)
  else if t =? SDS_TYPE_64 then with_alloc s (u64 newlen)
  else s.

(** The sizes of the packed structures. *)
Definition sdsHdrSize (type : Z) : Z :=
  let t := Z.land type SDS_TYPE_MASK in
  if t =? SDS_TYPE_5 then 1
  else if t =? SDS_TYPE_8 then 3
  else if t =? SDS_TYPE_16 then 5
  else if t =? SDS_TYPE_32 then 9
  else if t =? SDS_TYPE_64 then 17
  else 0.

Definition sdsReqType (string_size : Z) : Z :=
  if string_size <? 32 then SDS_TYPE_5
  else if string_size <? 255 then SDS_TYPE_8
  else if string_size <? 65535 then SDS_TYPE_16
  else if string_size <? 4294967295 then SDS_TYPE_32
  else SDS_TYPE_64.

Definition sdsAllocSize (s : sds) : Z := u64 (sdsHdrSize (flags s) + sdsalloc s + 1).

(** ** Reading and writing bytes *)

Definition wr (buf : list Z) (i b : Z) : comp (list Z) := wr_block buf i [b].

(** [strlen] of the string in a block. *)
Definition strlen (l : list Z) : comp Z := if bool_decide (0 ∈ l) then Ret (blen (cstr l)) else Oob.

(** A pointer that the code follows without a test. *)
Definition deref {A : Type} (p : option A) : comp A :=
  match p with
  | Some a => Ret a
  | None => Oob
  end.

(** The outcome of a function on [ssize_t] or [int]: overflow is undefined. *)
Definition signed (w z : Z) : comp Z :=
  if (- 2 ^ (w - 1) <=? z) && (z <? 2 ^ (w - 1)) then Ret z else Oob.

Definition toupper (c : Z) : Z := if (97 <=? c) && (c <=? 122) then c - 32 else c.
Definition isprint (c : Z) : bool := (32 <=? c) && (c <=? 126).
Definition isxdigit (c : Z) : bool := isdigit c || ((97 <=? c) && (c <=? 102)) || ((65 <=? c) && (c <=? 70)).

Section sds.
Context {A : Allocator} {G : Garbage}.

(** The bytes behind the header of a new block of [size] bytes. *)
Definition new_bytes (b hdrlen size : Z) : comp (list Z) :=
  if size <? hdrlen then Oob else Ret (fresh b (size - hdrlen)).

(** ** Creation *)

(** The switch that sets the header of a new string. *)
Definition new_header (b type initlen : Z) (buf : list Z) : sds :=
  if type =? SDS_TYPE_5 then mkSds b (u8 (Z.lor type (u64 (Z.shiftl initlen SDS_TYPE_BITS)))) 0 0 buf
  else if type =? SDS_TYPE_8 then mkSds b type (u8 initlen) (u8 initlen) buf
  else if type =? SDS_TYPE_16 then mkSds b type (u16 initlen) (u16 initlen) buf
  else if type =? SDS_TYPE_32 then mkSds b type (u32 initlen) (u32 initlen) buf
  else mkSds b type (u64 initlen) (u64 initlen) buf.

(** The bytes: zeros for NULL, the text and the terminator. *)
Definition new_content (init : option (list Z)) (initlen : Z) (buf : list Z) : comp (list Z) :=
  let! buf :=
    match init with
    | None => Ret (map (fun _ => 0) buf)
    | Some src =>
        if initlen =? 0 then Ret buf
        else let! src := rd_block src 0 initlen in wr_block buf 0 src
    end in
  wr buf initlen 0.

Definition sdsnewlen (init : option (list Z)) (initlen : Z) (h : heap) : comp (option sds * heap) :=
  let type := sdsReqType initlen in
  let type := if (type =? SDS_TYPE_5) && (initlen =? 0) then SDS_TYPE_8 else type in
  let hdrlen := sdsHdrSize type in
  match malloc h with
  | (None, h) => Ret (None, h)
  | (Some b, h) =>
      let! buf := new_bytes b hdrlen (u64 (hdrlen + initlen + 1)) in
      let! buf := new_content init initlen buf in
      Ret (Some (new_header b type initlen buf), h)
  end.

Definition sdsempty (h : heap) : comp (option sds * heap) := sdsnewlen (Some [0]) 0 h.

Definition sdsnew (init : option (list Z)) (h : heap) : comp (option sds * heap) :=
  let! initlen := match init with None => Ret 0 | Some l => strlen l end in
  sdsnewlen init initlen h.

Definition sdsdup (s : sds) (h : heap) : comp (option sds * heap) := sdsnewlen (Some (sbuf s)) (sdslen s) h.

Definition sdsfree (s : option sds) (h : heap) : comp heap :=
  match s with
  | None => Ret h
  | Some s => free (sblk s) h
  end.

Definition sdsupdatelen (s : sds) : comp sds :=
  let! reallen := strlen (sbuf s) in Ret (sdssetlen s (u64 (i32 reallen))).

Definition sdsclear (s : sds) : comp sds :=
  let s := sdssetlen s 0 in
  let! buf := wr (sbuf s) 0 0 in Ret (with_buf s buf).

(** ** Growing and shrinking the block *)

(** The part that [sdsMakeRoomFor] and [sdsRemoveFreeSpace] share: a block of
    [newlen] bytes with a header of type [type]. *)
Definition sds_resize (s : sds) (type newlen : Z) (h : heap) : comp (option sds * heap) :=
  let oldtype := sds_type s in
  let len := sdslen s in
  let hdrlen := sdsHdrSize type in
  let size := u64 (hdrlen + newlen + 1) in
  if oldtype =? type then
    let! '(newsh, h) := realloc (sblk s) h in
    match newsh with
    | None => Ret (None, h)
    | Some b =>
        let! buf := new_bytes b hdrlen size in
        let buf := take (length buf) (sbuf s) ++ drop (length (sbuf s)) buf in
        Ret (Some (sdssetalloc (mkSds b (flags s) (hlen s) (halloc s) buf) newlen), h)
    end
  else
    match malloc h with
    | (None, h) => Ret (None, h)
    | (Some b, h) =>
        let! buf := new_bytes b hdrlen size in
        let! src := rd_block (sbuf s) 0 (u64 (len + 1)) in
        let! buf := wr_block buf 0 src in
        let! h := free (sblk s) h in
        let s := sdssetlen (mkSds b type (u64 (junk b (-2))) (u64 (junk b (-1))) buf) len in
        Ret (Some (sdssetalloc s newlen), h)
    end.

Definition sdsMakeRoomFor (s : sds) (addlen : Z) (h : heap) : comp (option sds * heap) :=
  let avail := sdsavail s in
  if addlen <=? avail then Ret (Some s, h)
  else
    let len := sdslen s in
    let newlen := u64 (len + addlen) in
    let newlen := if newlen <? SDS_MAX_PREALLOC then u64 (newlen * 2) else u64 (newlen + SDS_MAX_PREALLOC) in
    let type := sdsReqType newlen in
    let type := if type =? SDS_TYPE_5 then SDS_TYPE_8 else type in
    sds_resize s type newlen h.

Definition sdsRemoveFreeSpace (s : sds) (h : heap) : comp (option sds * heap) :=
  let len := sdslen s in
  sds_resize s (sdsReqType len) len h.

(** [incr] is an [int]; [None]: the assertion fails. *)
Definition sdsIncrLen (s : sds) (incr : Z) : comp (option sds) :=
  let t := sds_type s in
  let! minus := if incr <? 0 then signed 32 (- incr) else Ret 0 in
  let finish (s : sds) (len : Z) :=
    let! buf := wr (sbuf s) len 0 in Ret (Some (with_buf s buf)) in
  if t =? SDS_TYPE_5 then
    let oldlen := SDS_TYPE_5_LEN (flags s) in
    if ((0 <? incr) && (oldlen + incr <? 32)) || ((incr <? 0) && (minus <=? oldlen)) then
      finish (with_flags s (u8 (Z.lor SDS_TYPE_5 (Z.shiftl (oldlen + incr) SDS_TYPE_BITS)))) (oldlen + incr)
    else Ret None
  else if (t =? SDS_TYPE_8) || (t =? SDS_TYPE_16) then
    if ((0 <=? incr) && (incr <=? halloc s - hlen s)) || ((incr <? 0) && (minus <=? hlen s)) then
      let len := if t =? SDS_TYPE_8 then u8 (hlen s + incr) else u16 (hlen s + incr) in
      finish (with_len s len) len
    else Ret None
  else if t =? SDS_TYPE_32 then
    if ((0 <=? incr) && (incr <=? u32 (halloc s - hlen s))) || ((incr <? 0) && (minus <=? hlen s)) then
      let len := u32 (hlen s + incr) in finish (with_len s len) len
    else Ret None
  else if t =? SDS_TYPE_64 then
    if ((0 <=? incr) && (incr <=? u64 (halloc s - hlen s))) || ((incr <? 0) && (minus <=? hlen s)) then
      let len := u64 (hlen s + incr) in finish (with_len s len) len
    else Ret None
  else finish s 0.

Definition sdsgrowzero (s : sds) (len : Z) (h : heap) : comp (option sds * heap) :=
  let curlen := sdslen s in
  if len <=? curlen then Ret (Some s, h)
  else
    let! '(s, h) := sdsMakeRoomFor s (len - curlen) h in
    match s with
    | None => Ret (None, h)
    | Some s =>
        let! buf := wr_block (sbuf s) curlen (replicate (Z.to_nat (len - curlen + 1)) 0) in
        Ret (Some (sdssetlen (with_buf s buf) len), h)
    end.

(** ** Appending and copying

    [t] is the object that starts at the pointer. *)

Definition sdscatlen (s : sds) (t : list Z) (len : Z) (h : heap) : comp (option sds * heap) :=
  let curlen := sdslen s in
  let! '(s, h) := sdsMakeRoomFor s len h in
  match s with
  | None => Ret (None, h)
  | Some s =>
      let! src := rd_block t 0 len in
      let! buf := wr_block (sbuf s) curlen src in
      let s := sdssetlen (with_buf s buf) (u64 (curlen + len)) in
      let! buf := wr (sbuf s) (u64 (curlen + len)) 0 in
      Ret (Some (with_buf s buf), h)
  end.

Definition sdscat (s : sds) (t : list Z) (h : heap) : comp (option sds * heap) :=
  let! n := strlen t in sdscatlen s t n h.

Definition sdscatsds (s t : sds) (h : heap) : comp (option sds * heap) := sdscatlen s (sbuf t) (sdslen t) h.

Definition sdscpylen (s : sds) (t : list Z) (len : Z) (h : heap) : comp (option sds * heap) :=
  let! '(s, h) :=
    if sdsalloc s <? len then sdsMakeRoomFor s (u64 (len - sdslen s)) h else Ret (Some s, h) in
  match s with
  | None => Ret (None, h)
  | Some s =>
      let! src := rd_block t 0 len in
      let! buf := wr_block (sbuf s) 0 src in
      let! buf := wr buf len 0 in
      Ret (Some (sdssetlen (with_buf s buf) len), h)
  end.

Definition sdscpy (s : sds) (t : list Z) (h : heap) : comp (option sds * heap) :=
  let! n := strlen t in sdscpylen s t n h.

End sds.

(** ** Numbers *)

Definition SDS_LLSTR_SIZE : Z := 21.

(** The digits of a number below 2^64, the last one first: at most 20. *)
Fixpoint put_digits (fuel : nat) (buf : list Z) (p v : Z) : comp (list Z * Z) :=
  match fuel with
  | O => NoFuel
  | S f =>
      let! buf := wr buf p (48 + v mod 10) in
      let v := v / 10 in
      if v =? 0 then Ret (buf, p + 1) else put_digits f buf (p + 1) v
  end.

Fixpoint reverse_in (fuel : nat) (buf : list Z) (s p : Z) : comp (list Z) :=
  if s <? p then
    match fuel with
    | O => NoFuel
    | S f =>
        let! aux := rd buf s in
        let! b := rd buf p in
        let! buf := wr buf s b in
        let! buf := wr buf p aux in
        reverse_in f buf (s + 1) (p - 1)
    end
  else Ret buf.

Definition sdsll2str (buf : list Z) (value : Z) : comp (Z * list Z) :=
  let! v := if value <? 0 then signed 64 (- value) else Ret value in
  let! '(buf, p) := put_digits 20 buf 0 v in
  let! '(buf, p) := if value <? 0 then let! buf := wr buf p 45 in Ret (buf, p + 1) else Ret (buf, p) in
  let l := p in
  let! buf := wr buf p 0 in
  let! buf := reverse_in 10 buf 0 (p - 1) in
  Ret (i32 l, buf).

Definition sdsull2str (buf : list Z) (v : Z) : comp (Z * list Z) :=
  let! '(buf, p) := put_digits 20 buf 0 v in
  let l := p in
  let! buf := wr buf p 0 in
  let! buf := reverse_in 10 buf 0 (p - 1) in
  Ret (i32 l, buf).

Section text.
Context {A : Allocator} {G : Garbage}.

(** The array on the stack holds what it holds. *)
Definition ll_buf : list Z := fresh (-1) SDS_LLSTR_SIZE.

Definition sdsfromlonglong (value : Z) (h : heap) : comp (option sds * heap) :=
  let! '(len, buf) := sdsll2str ll_buf value in
  sdsnewlen (Some buf) (u64 len) h.

(** [vsnprintf (buf, n, ...)] for a format that prints [text]. *)
Definition vsnprintf (buf : list Z) (n : Z) (text : list Z) : comp (list Z) :=
  wr_block buf 0 (take (Z.to_nat (n - 1)) text ++ [0]).

(** The loop of [sdscatvprintf]: [heap_buf] is the block of [buf] when it is
    not the static one. *)
Fixpoint sds_vprintf_loop (fuel : nat) (heap_buf : option Z) (buf : list Z) (buflen : Z) (text : list Z) (h : heap) :
    comp (option (option Z * list Z) * heap) :=
  let! buf := wr buf (u64 (buflen - 2)) 0 in
  let! buf := vsnprintf buf buflen text in
  let! last := rd buf (u64 (buflen - 2)) in
  if last =? 0 then Ret (Some (heap_buf, buf), h)
  else
    match fuel with
    | O => NoFuel
    | S f =>
        let! h := match heap_buf with None => Ret h | Some b => free b h end in
        let buflen := u64 (buflen * 2) in
        match malloc h with
        | (None, h) => Ret (None, h)
        | (Some b, h) => sds_vprintf_loop f (Some b) (fresh b buflen) buflen text h
        end
    end.

(** [text] is what the arguments print under the format, which has [fmtlen]
    bytes. *)
Definition sdscatvprintf (s : sds) (fmtlen : Z) (text : list Z) (h : heap) : comp (option sds * heap) :=
  let buflen := u64 (fmtlen * 2) in
  let '(start, h) :=
    if 1024 <? buflen then
      match malloc h with
      | (None, h) => (None, h)
      | (Some b, h) => (Some (Some b, fresh b buflen, buflen), h)
      end
    else (Some (None, fresh (-1) 1024, 1024), h) in
  match start with
  | None => Ret (None, h)
  | Some (heap_buf, buf, buflen) =>
      let! '(r, h) := sds_vprintf_loop 64 heap_buf buf buflen text h in
      match r with
      | None => Ret (None, h)
      | Some (heap_buf, buf) =>
          let! '(t, h) := sdscat s buf h in
          let! h := match heap_buf with None => Ret h | Some b => free b h end in
          Ret (t, h)
      end
  end.

Definition sdscatprintf (s : sds) (fmtlen : Z) (text : list Z) (h : heap) : comp (option sds * heap) :=
  sdscatvprintf s fmtlen text h.

(** ** [sdscatfmt]

    An argument of the call; taking one of another type is undefined. *)
Inductive fmt_arg : Type :=
| AStr (p : list Z)
| ASds (s : sds)
| AInt (z : Z)
| ALongLong (z : Z)
| AUnsigned (z : Z)
| AUnsignedLL (z : Z).

(** Appending a block of [l] bytes at [i]. *)
Definition fmt_block (s : sds) (i : Z) (src : list Z) (l : Z) (h : heap) : comp (option (sds * Z) * heap) :=
  let! '(s, h) := if sdsavail s <? l then sdsMakeRoomFor s l h else Ret (Some s, h) in
  match s with
  | None => Ret (None, h)
  | Some s =>
      let! src := rd_block src 0 l in
      let! buf := wr_block (sbuf s) i src in
      Ret (Some (sdsinclen (with_buf s buf) l, i32 (u64 (i + l))), h)
  end.

(** Appending one byte at [i]. *)
Definition fmt_byte (s : sds) (i c : Z) (h : heap) : comp (option (sds * Z) * heap) :=
  let! buf := wr (sbuf s) i c in
  let! i := signed 32 (i + 1) in
  Ret (Some (sdsinclen (with_buf s buf) 1, i), h).

Definition fmt_spec (s : sds) (i next : Z) (args : list fmt_arg) (h : heap) :
    comp (option (sds * Z) * heap * list fmt_arg) :=
  let next_is (c : Z) := next =? c in
  if next_is 115 then
    match args with
    | AStr p :: args => let! l := strlen p in let! r := fmt_block s i p l h in Ret (r, args)
    | _ => Oob
    end
  else if next_is 83 then
    match args with
    | ASds p :: args => let! r := fmt_block s i (sbuf p) (sdslen p) h in Ret (r, args)
    | _ => Oob
    end
  else if next_is 105 || next_is 73 then
    match args with
    | AInt z :: args =>
        if next_is 105 then
          let! '(l, buf) := sdsll2str ll_buf z in let! r := fmt_block s i buf (u64 l) h in Ret (r, args)
        else Oob
    | ALongLong z :: args =>
        if next_is 73 then
          let! '(l, buf) := sdsll2str ll_buf z in let! r := fmt_block s i buf (u64 l) h in Ret (r, args)
        else Oob
    | _ => Oob
    end
  else if next_is 117 || next_is 85 then
    match args with
    | AUnsigned z :: args =>
        if next_is 117 then
          let! '(l, buf) := sdsull2str ll_buf z in let! r := fmt_block s i buf (u64 l) h in Ret (r, args)
        else Oob
    | AUnsignedLL z :: args =>
        if next_is 85 then
          let! '(l, buf) := sdsull2str ll_buf z in let! r := fmt_block s i buf (u64 l) h in Ret (r, args)
        else Oob
    | _ => Oob
    end
  else let! r := fmt_byte s i next h in Ret (r, args).

(** The loop over the format; one round of fuel for every byte of it. *)
Fixpoint fmt_loop (fuel : nat) (s : sds) (i : Z) (fmt : list Z) (f : Z) (args : list fmt_arg) (h : heap) :
    comp (option (sds * Z) * heap) :=
  let! c := rd fmt f in
  if c =? 0 then Ret (Some (s, i), h)
  else
    match fuel with
    | O => NoFuel
    | S fuel =>
        let! '(room, h) := if sdsavail s =? 0 then sdsMakeRoomFor s 1 h else Ret (Some s, h) in
        match room with
        | None => Ret (None, h)
        | Some s =>
            let! '(r, h, args, f) :=
              if c =? 37 then
                let! next := rd fmt (f + 1) in
                let! '(r, h, args) := fmt_spec s i next args h in Ret (r, h, args, f + 1)
              else let! '(r, h) := fmt_byte s i c h in Ret (r, h, args, f) in
            match r with
            | None => Ret (None, h)
            | Some (s, i) => fmt_loop fuel s i fmt (f + 1) args h
            end
        end
    end.

Definition sdscatfmt (s : sds) (fmt : list Z) (args : list fmt_arg) (h : heap) : comp (option sds * heap) :=
  let i := i32 (sdslen s) in
  let! '(r, h) := fmt_loop (length fmt) s i fmt 0 args h in
  match r with
  | None => Ret (None, h)
  | Some (s, i) => let! buf := wr (sbuf s) i 0 in Ret (Some (with_buf s buf), h)
  end.

End text.

(** ** Cutting *)

(** [strchr (cset, c) != NULL]: the terminator is found, too. *)
Definition in_set (cset : list Z) (c : Z) : bool := bool_decide (c ∈ cstr cset) || (c =? 0).

Fixpoint trim_left (fuel : nat) (buf cset : list Z) (sp e : Z) : comp Z :=
  if sp <=? e then
    let! c := rd buf sp in
    if in_set cset c then
      match fuel with
      | O => NoFuel
      | S f => trim_left f buf cset (sp + 1) e
      end
    else Ret sp
  else Ret sp.

Fixpoint trim_right (fuel : nat) (buf cset : list Z) (sp ep : Z) : comp Z :=
  if sp <? ep then
    let! c := rd buf ep in
    if in_set cset c then
      match fuel with
      | O => NoFuel
      | S f => trim_right f buf cset sp (ep - 1)
      end
    else Ret ep
  else Ret ep.

Definition sdstrim (s : sds) (cset : list Z) : comp sds :=
  let e := sdslen s - 1 in
  let! sp := trim_left (length (sbuf s)) (sbuf s) cset 0 e in
  let! ep := trim_right (length (sbuf s)) (sbuf s) cset sp e in
  let len := if ep <? sp then 0 else ep - sp + 1 in
  let! buf :=
    if sp =? 0 then Ret (sbuf s)
    else let! src := rd_block (sbuf s) sp len in wr_block (sbuf s) 0 src in
  let! buf := wr buf len 0 in
  Ret (sdssetlen (with_buf s buf) len).

(** The place and the length that [sdsrange] keeps of [len] > 0 bytes. *)
Definition range_bounds (len start e : Z) : comp (Z * Z) :=
  let start := if start <? 0 then (let z := i64 (u64 (len + start)) in if z <? 0 then 0 else z) else start in
  let e := if e <? 0 then (let z := i64 (u64 (len + e)) in if z <? 0 then 0 else z) else e in
  let! newlen := if e <? start then Ret 0 else signed 64 (e - start + 1) in
  Ret (if negb (newlen =? 0) then
         if len <=? start then (start, 0)
         else if len <=? e then (start, if len - 1 <? start then 0 else len - 1 - start + 1)
         else (start, newlen)
       else (0, newlen)).

Definition sdsrange (s : sds) (start e : Z) : comp (Z * sds) :=
  let len := sdslen s in
  if SSIZE_MAX <? len then Ret (-1, s)
  else if len =? 0 then Ret (0, s)
  else
    let! '(start, newlen) := range_bounds len start e in
    let! buf :=
      if negb (start =? 0) && negb (newlen =? 0) then
        let! src := rd_block (sbuf s) start newlen in wr_block (sbuf s) 0 src
      else Ret (sbuf s) in
    let! buf := wr buf newlen 0 in
    Ret (0, sdssetlen (with_buf s buf) newlen).

(** ** Characters *)

(** [for (j = 0; j < len; j++) s[j] = f (s[j]);]: [k] bytes are left. *)
Fixpoint map_bytes (f : Z -> Z) (k : nat) (buf : list Z) (j : Z) : comp (list Z) :=
  match k with
  | O => Ret buf
  | S k =>
      let! c := rd buf j in
      let! buf := wr buf j (f c) in
      map_bytes f k buf (j + 1)
  end.

Definition sdstolower (s : sds) : comp sds :=
  let! buf := map_bytes tolower (Z.to_nat (i32 (sdslen s))) (sbuf s) 0 in Ret (with_buf s buf).

Definition sdstoupper (s : sds) : comp sds :=
  let! buf := map_bytes toupper (Z.to_nat (i32 (sdslen s))) (sbuf s) 0 in Ret (with_buf s buf).

(** The inner loop of [sdsmapchars] on one byte. *)
Fixpoint map_char (k : nat) (from to : list Z) (i c : Z) : comp Z :=
  match k with
  | O => Ret c
  | S k =>
      let! x := rd from i in
      if c =? x then rd to i else map_char k from to (i + 1) c
  end.

Fixpoint mapchars_loop (k : nat) (setlen : Z) (from to buf : list Z) (j : Z) : comp (list Z) :=
  match k with
  | O => Ret buf
  | S k =>
      let! c := rd buf j in
      let! d := map_char (Z.to_nat setlen) from to 0 c in
      let! buf := wr buf j d in
      mapchars_loop k setlen from to buf (j + 1)
  end.

Definition sdsmapchars (s : sds) (from to : list Z) (setlen : Z) : comp sds :=
  let! buf := mapchars_loop (Z.to_nat (sdslen s)) setlen from to (sbuf s) 0 in Ret (with_buf s buf).

(** [memcmp] on the first [n] bytes: its sign. *)
Fixpoint memcmp (a b : list Z) : Z :=
  match a, b with
  | x :: a, y :: b => if x =? y then memcmp a b else if x <? y then -1 else 1
  | _, _ => 0
  end.

Definition sdscmp (s1 s2 : sds) : comp Z :=
  let l1 := sdslen s1 in
  let l2 := sdslen s2 in
  let minlen := if l1 <? l2 then l1 else l2 in
  let! a := rd_block (sbuf s1) 0 minlen in
  let! b := rd_block (sbuf s2) 0 minlen in
  let cmp := memcmp a b in
  Ret (if cmp =? 0 then i32 (u64 (l1 - l2)) else cmp).


(** ** Well-formed strings

    The header fits its type, the length is at most the size, and the bytes
    are the content, the byte [z] and at least the free space; [z] is the
    terminator except inside [sdscatfmt]. *)

Definition type_max (t : Z) : Z :=
  if t =? SDS_TYPE_8 then 2 ^ 8 - 1
  else if t =? SDS_TYPE_16 then 2 ^ 16 - 1
  else if t =? SDS_TYPE_32 then 2 ^ 32 - 1
  else 2 ^ 64 - 1.

Definition hdr_ok (s : sds) : Prop :=
  (exists l, flags s = 8 * l /\ 0 <= l < 32) \/
  (1 <= flags s <= 4 /\ 0 <= hlen s <= halloc s /\ halloc s <= type_max (flags s)).

Record repz (z : Z) (s : sds) (c : list Z) : Prop := {
  rep_hdr : hdr_ok s;
  rep_len : sdslen s = blen c;
  rep_buf : exists slack, sbuf s = c ++ z :: slack /\ sdsalloc s <= blen c + blen slack;
  rep_bytes : Forall is_byte (sbuf s)
}.
Arguments rep_hdr {z} s c _.
Arguments rep_len {z} s c _.
Arguments rep_buf {z} s c _.
Arguments rep_bytes {z} s c _.

Definition rep : sds -> list Z -> Prop := repz 0.

Lemma sds_type_mod s : sds_type s = flags s mod 8.
Proof. unfold sds_type, SDS_TYPE_MASK. change 7 with (Z.ones 3). by rewrite Z.land_ones by lia. Qed.

(** The four wide types and type 5. *)
Lemma hdr_cases s : hdr_ok s ->
  (sds_type s = 0 /\ sdslen s = flags s / 8 /\ sdsalloc s = flags s / 8 /\ sdsavail s = 0 /\ 0 <= flags s / 8 < 32 /\
    flags s = 8 * (flags s / 8)) \/
  (sds_type s = flags s /\ (flags s = 1 \/ flags s = 2 \/ flags s = 3 \/ flags s = 4) /\ sdslen s = hlen s /\
    sdsalloc s = halloc s /\ sdsavail s = halloc s - hlen s /\ 0 <= hlen s <= halloc s /\ halloc s <= type_max (flags s)).
Proof.
  intros [(l & E & Hl)|(Ht & Hl & Hm)]; [left|right].
  - assert (sds_type s = 0) as Et by (rewrite sds_type_mod, E; dlia).
    unfold sdslen, sdsalloc, sdsavail. rewrite Et. cbn. unfold SDS_TYPE_5_LEN, SDS_TYPE_BITS.
    rewrite Z.shiftr_div_pow2 by lia. change (2 ^ 3) with 8. repeat split; try done; dlia.
  - assert (sds_type s = flags s) as Et by (rewrite sds_type_mod; apply Z.mod_small; lia).
    unfold sdslen, sdsalloc, sdsavail. rewrite Et.
    assert (flags s = 1 \/ flags s = 2 \/ flags s = 3 \/ flags s = 4) as Hc by lia.
    split; [done|]. split; [done|]. unfold u64, u32.
    destruct Hc as [E|[E|[E|E]]]; rewrite E in *; cbn in Hm |- *; rewrite ?Z.mod_small by lia; done.
Qed.

Lemma hdr_bounds s : hdr_ok s -> 0 <= sdslen s <= sdsalloc s /\ 0 <= sdsavail s <= sdsalloc s - sdslen s /\ sdsalloc s < 2 ^ 64.
Proof.
  intros H. destruct (hdr_cases s H) as [(? & -> & -> & -> & ? & ?)|(? & Hf & -> & -> & -> & ? & Hm)]; [lia|].
  unfold type_max in Hm. destruct Hf as [E|[E|[E|E]]]; rewrite E in Hm; cbn in Hm; lia.
Qed.

Lemma hdr_avail s : hdr_ok s -> sds_type s <> 0 -> sdsavail s = sdsalloc s - sdslen s.
Proof. intros H Ht. destruct (hdr_cases s H) as [?|?]; [tauto|]. by destruct_and!; congruence. Qed.

(** Setting a length that fits. *)
Lemma setlen_wide s n : hdr_ok s -> sds_type s <> 0 -> 0 <= n <= sdsalloc s -> sdssetlen s n = with_len s n.
Proof.
  intros H Ht Hn. destruct (hdr_cases s H) as [(Et & _)|(Et & Hf & El & Ea & Ev & Hl & Hm)]; [done|].
  unfold sdssetlen. rewrite Et. unfold type_max in Hm. unfold u8, u16, u32, u64.
  destruct Hf as [E|[E|[E|E]]]; rewrite E in *; cbn in Hm |- *; by rewrite Z.mod_small by lia.
Qed.

Lemma setlen_ok s n : hdr_ok s -> 0 <= n <= sdsalloc s ->
  hdr_ok (sdssetlen s n) /\ sdslen (sdssetlen s n) = n /\ sdsalloc (sdssetlen s n) <= sdsalloc s /\
  sbuf (sdssetlen s n) = sbuf s /\ sblk (sdssetlen s n) = sblk s /\ sds_type (sdssetlen s n) = sds_type s /\
  (sds_type s <> 0 -> sdsalloc (sdssetlen s n) = sdsalloc s).
Proof.
  intros H Hn. pose proof (hdr_cases s H) as [(Et & El & Ea & Ev & Hl & Ef)|(Et & Hf & El & Ea & Ev & Hl & Hm)].
  - assert (sdssetlen s n = with_flags s (8 * n)) as ->.
    { unfold sdssetlen. rewrite Et. cbv zeta. rewrite Z.eqb_refl. f_equal. unfold SDS_TYPE_BITS, SDS_TYPE_5.
      rewrite Z.lor_0_l, Z.shiftl_mul_pow2 by lia. change (2 ^ 3) with 8. unfold u64, u8.
      rewrite (Z.mod_small (n * 8)), Z.mod_small by lia. lia. }
    assert (hdr_ok (with_flags s (8 * n))) as Hs by (left; exists n; split; [done|lia]).
    split; [done|]. pose proof (hdr_cases _ Hs) as [(Et' & -> & -> & _)|(_ & Hf & _)].
    + cbn [flags with_flags]. assert (8 * n / 8 = n) as -> by (rewrite Z.mul_comm; apply Z.div_mul; lia). rewrite Et, Ea. split_and!; try done; lia.
    + cbn [flags with_flags] in Hf. lia.
  - rewrite setlen_wide by (done || lia).
    assert (hdr_ok (with_len s n)) as Hs by (right; cbn; split; [lia|]; split; [lia|done]).
    split; [done|]. pose proof (hdr_cases _ Hs) as [(Et' & _)|(Et' & Hf' & -> & -> & _)].
    + rewrite sds_type_mod in Et'. cbn [flags with_len] in Et'. rewrite <- sds_type_mod, Et in Et'. lia.
    + cbn. rewrite Ea, Et'. split_and!; try done; lia.
Qed.

(** What an operation writes: a content that fits and its terminator. *)
Lemma rep_put z z' s c c' slack : repz z' s c -> blen c' <= sdsalloc s -> Forall is_byte (c' ++ z :: slack) ->
  blen (c' ++ z :: slack) = blen (sbuf s) -> repz z (sdssetlen (with_buf s (c' ++ z :: slack)) (blen c')) c'.
Proof.
  intros [Hh Hl (sl & Hb & Ha) Hby] Hc Hf He. pose proof (blen_nonneg c').
  assert (hdr_ok (with_buf s (c' ++ z :: slack))) as Hh' by done.
  destruct (setlen_ok (with_buf s (c' ++ z :: slack)) (blen c') Hh') as (H1 & H2 & H3 & H4 & _).
  { change (0 <= blen c' <= sdsalloc s). lia. }
  split; [done|done| |by rewrite H4]. exists slack. rewrite H4. split; [done|]. etransitivity; [exact H3|].
  change (sdsalloc s <= blen c' + blen slack). rewrite Hb in He. autorewrite with blen_db in He. lia.
Qed.

Lemma rep_bounds z s c : repz z s c -> 0 <= sdslen s <= sdsalloc s /\ 0 <= sdsavail s <= sdsalloc s - sdslen s /\ sdsalloc s < 2 ^ 64.
Proof. intros H. apply hdr_bounds, H. Qed.
Arguments rep_bounds {z} s c _.

Lemma rep_buf_len z s c : repz z s c -> sdsalloc s + 1 <= blen (sbuf s).
Proof. intros [_ _ (sl & -> & H) _]. rewrite blen_app, blen_cons. lia. Qed.
Arguments rep_buf_len {z} s c _.

Lemma rep_content_bytes z s c : repz z s c -> Forall is_byte c.
Proof. intros [_ _ (sl & E & _) H]. rewrite E in H. by apply Forall_app in H as [? _]. Qed.
Arguments rep_content_bytes {z} s c _.

Lemma sdsReqType_fits n : 0 <= n < 2 ^ 64 ->
  (n < 32 /\ sdsReqType n = 0) \/ (32 <= n /\ 1 <= sdsReqType n <= 4 /\ n <= type_max (sdsReqType n)).
Proof.
  intros Hn. unfold sdsReqType. repeat case_goal; zify_bool; [left|right..]; unfold type_max; cbn;
    unfold SDS_TYPE_5, SDS_TYPE_8, SDS_TYPE_16, SDS_TYPE_32, SDS_TYPE_64; lia.
Qed.

Lemma set_both b t l a j1 j2 buf : 1 <= t <= 4 -> 0 <= l <= a -> a <= type_max t ->
  sdssetalloc (sdssetlen (mkSds b t j1 j2 buf) l) a = mkSds b t l a buf.
Proof.
  intros Ht Hl Hm. assert (t = 1 \/ t = 2 \/ t = 3 \/ t = 4) as Hc by lia.
  destruct Hc as [->|[->|[->| ->]]]; cbn in Hm; lazy -[Z.modulo]; by rewrite !Z.mod_small by lia.
Qed.

Lemma set_alloc b t l a j buf : 1 <= t <= 4 -> 0 <= a <= type_max t ->
  sdssetalloc (mkSds b t l j buf) a = mkSds b t l a buf.
Proof.
  intros Ht Hm. assert (t = 1 \/ t = 2 \/ t = 3 \/ t = 4) as Hc by lia.
  destruct Hc as [->|[->|[->| ->]]]; cbn in Hm; lazy -[Z.modulo]; by rewrite !Z.mod_small by lia.
Qed.

Lemma set_type5 b l a j1 j2 buf : 0 <= l < 32 ->
  sdssetalloc (sdssetlen (mkSds b 0 j1 j2 buf) l) a = mkSds b (8 * l) j1 j2 buf.
Proof.
  intros Hl. assert (sdssetlen (mkSds b 0 j1 j2 buf) l = mkSds b (8 * l) j1 j2 buf) as ->.
  { unfold sdssetlen, with_flags. cbn -[Z.mul Z.shiftl Z.lor u8 u64]. f_equal. unfold SDS_TYPE_BITS, SDS_TYPE_5.
    rewrite Z.lor_0_l, Z.shiftl_mul_pow2 by lia. change (2 ^ 3) with 8. unfold u64, u8.
    rewrite (Z.mod_small (l * 8)), Z.mod_small by lia. lia. }
  unfold sdssetalloc. rewrite sds_type_mod. cbn [flags].
  assert (8 * l mod 8 = 0) as -> by (rewrite Z.mul_comm; apply Z.mod_mul; lia). done.
Qed.

Lemma rep_wide z b t c a sl : 1 <= t <= 4 -> blen c <= a -> a <= type_max t -> a <= blen c + blen sl ->
  Forall is_byte (c ++ z :: sl) -> repz z (mkSds b t (blen c) a (c ++ z :: sl)) c.
Proof.
  intros Ht Hc Hm Ha Hf. pose proof (blen_nonneg c).
  assert (hdr_ok (mkSds b t (blen c) a (c ++ z :: sl))) as Hh by (right; cbn; split; [lia|split; [lia|done]]).
  destruct (hdr_cases _ Hh) as [(Et & _)|(Et & _ & El & Ea & _)].
  { rewrite sds_type_mod in Et. cbn [flags] in Et. rewrite Z.mod_small in Et by lia. lia. }
  split; [done|done| |done]. exists sl. split; [done|]. by rewrite Ea.
Qed.

Lemma rep_five z b c j1 j2 sl : blen c < 32 -> Forall is_byte (c ++ z :: sl) ->
  repz z (mkSds b (8 * blen c) j1 j2 (c ++ z :: sl)) c.
Proof.
  intros Hc Hf. pose proof (blen_nonneg c). pose proof (blen_nonneg sl).
  assert (hdr_ok (mkSds b (8 * blen c) j1 j2 (c ++ z :: sl))) as Hh by (left; exists (blen c); split; [done|lia]).
  destruct (hdr_cases _ Hh) as [(_ & El & Ea & _)|(_ & Hf' & _)]; [|cbn [flags] in Hf'; lia].
  cbn [flags] in El, Ea. assert (8 * blen c / 8 = blen c) as E by (rewrite Z.mul_comm; apply Z.div_mul; lia).
  rewrite E in El, Ea. split; [done|done| |done]. exists sl. split; [done|lia].
Qed.

Lemma type_of_wide b t l a buf : 1 <= t <= 4 -> sds_type (mkSds b t l a buf) = t.
Proof. intros. rewrite sds_type_mod. cbn. apply Z.mod_small. lia. Qed.

Lemma hdr_size t : 0 <= t <= 4 -> 1 <= sdsHdrSize t <= 17.
Proof. intros. assert (t = 0 \/ t = 1 \/ t = 2 \/ t = 3 \/ t = 4) as Hc by lia. destruct Hc as [->|[->|[->|[->| ->]]]]; vm_compute; split; discriminate. Qed.

Lemma setlen_blk s n : sblk (sdssetlen s n) = sblk s.
Proof. unfold sdssetlen. by repeat case_match. Qed.

Lemma setlen_buf s n : sbuf (sdssetlen s n) = sbuf s.
Proof. unfold sdssetlen. by repeat case_match. Qed.

Lemma with_buf_setlen s b b' n : with_buf (sdssetlen (with_buf s b) n) b' = sdssetlen (with_buf s b') n.
Proof.
  unfold sdssetlen. change (sds_type (with_buf s b)) with (sds_type s). change (sds_type (with_buf s b')) with (sds_type s).
  by repeat case_match.
Qed.

(** A text and its terminator are written as one block. *)
Lemma write_text {T : Type} buf off src (k : list Z -> comp T) :
  0 <= off -> off + blen src + 1 <= blen buf ->
  (let! b := wr_block buf off src in let! b := wr b (off + blen src) 0 in k b) =
  (let! b := wr_block buf off (src ++ [0]) in k b).
Proof.
  intros Ho Hl. rewrite <- (wr_block_app _ off src [0]) by (change (blen [0]) with 1; lia).
  unfold wr. by destruct (wr_block _ _ src).
Qed.

Section growth.
Context {A : Allocator} {G : Garbage}.

Definition starved : Prop := exists n, grants n = false.

(** Between [h] and the final heap the string [s'] replaces the block [b];
    the other blocks stay.  NULL leaves the block as it is, and some request
    was refused. *)
Definition outcome (h : heap) (b : Z) (rest : list Z) (P : sds -> Prop) (r : option sds * heap) : Prop :=
  match r with
  | (Some s', h') => P s' /\ acquires h (sblk s' :: rest) h'
  | (None, h') => acquires h (b :: rest) h' /\ starved
  end.

Lemma outcome_mono h b rest (P Q : sds -> Prop) r : outcome h b rest P r -> (forall s, P s -> Q s) -> outcome h b rest Q r.
Proof. destruct r as [[s|] h']; cbn; [intros [H1 H2] H; auto|done]. Qed.

Lemma new_bytes_ok b hdrlen n : 1 <= hdrlen <= 17 -> 0 <= n < 2 ^ 64 - 18 ->
  exists buf, new_bytes b hdrlen (u64 (hdrlen + n + 1)) = Ret buf /\ blen buf = n + 1 /\ Forall is_byte buf.
Proof.
  intros Hh Hn. unfold new_bytes, u64. rewrite Z.mod_small by lia. destruct (Z.ltb_spec (hdrlen + n + 1) hdrlen); [lia|].
  eexists. split; [reflexivity|]. split; [rewrite blen_fresh by lia; lia|apply fresh_bytes].
Qed.

(** The block that [realloc] returns starts with the old bytes. *)
Lemma realloc_bytes z c sl buf n : blen c <= n -> blen buf = n + 1 -> Forall is_byte (c ++ z :: sl) -> Forall is_byte buf ->
  exists sl', take (length buf) (c ++ z :: sl) ++ drop (length (c ++ z :: sl)) buf = c ++ z :: sl' /\
    blen c + blen sl' = n /\ Forall is_byte (c ++ z :: sl').
Proof.
  intros Hc Hb Hf1 Hf2.
  assert (take (length buf) (c ++ z :: sl) = c ++ z :: take (length buf - length c - 1) sl) as E.
  { rewrite take_app_ge by (unfold blen in *; lia). f_equal.
    destruct (length buf - length c)%nat eqn:El; [unfold blen in *; lia|]. cbn [take]. do 2 f_equal. lia. }
  exists (take (length buf - length c - 1) sl ++ drop (length (c ++ z :: sl)) buf). rewrite E, <- app_assoc. split; [done|].
  split.
  - rewrite blen_app, blen_take, blen_drop. unfold blen in *. rewrite length_app. cbn [length]. lia.
  - apply Forall_app in Hf1 as [Hf1 Hf3]. apply Forall_cons in Hf3 as [Hf3 Hf4].
    rewrite Forall_app, Forall_cons, Forall_app. split_and!; auto using Forall_take, Forall_drop.
Qed.

(** The two shapes of the new header. *)
Lemma resized z b type c newlen sl j1 j2 s' :
  blen c <= newlen -> blen c + blen sl = newlen -> Forall is_byte (c ++ z :: sl) ->
  (1 <= type <= 4 /\ newlen <= type_max type /\ s' = mkSds b type (blen c) newlen (c ++ z :: sl)) \/
  (type = 0 /\ newlen = blen c /\ newlen < 32 /\ s' = mkSds b (8 * blen c) j1 j2 (c ++ z :: sl)) ->
  (repz z s' c /\ sdsalloc s' = newlen /\ sds_type s' = type) /\ sblk s' = b.
Proof.
  intros Hn Hs Hf [(Ht & Hm & ->)|(-> & -> & Hl & ->)]; (split; [|done]).
  - assert (repz z (mkSds b type (blen c) newlen (c ++ z :: sl)) c) as Hr by (apply rep_wide; (done || lia)).
    split; [done|]. split; [|by apply type_of_wide].
    destruct (hdr_cases _ (rep_hdr _ _ Hr)) as [(Et & _)|(_ & _ & _ & Ea & _)]; [|done].
    rewrite type_of_wide in Et by lia. lia.
  - assert (repz z (mkSds b (8 * blen c) j1 j2 (c ++ z :: sl)) c) as Hr by (by apply rep_five).
    split; [done|]. pose proof (blen_nonneg c).
    destruct (hdr_cases _ (rep_hdr _ _ Hr)) as [(Et & _ & Ea & _)|(_ & Hf' & _)]; [|cbn [flags] in Hf'; lia].
    split; [|done]. rewrite Ea. cbn [flags]. rewrite Z.mul_comm. apply Z.div_mul. lia.
Qed.

Lemma same_type5 s a : sds_type s = 0 -> sdssetalloc s a = s.
Proof. intros E. unfold sdssetalloc. by rewrite E. Qed.

Lemma sds_resize_ok z h0 rest s c type newlen h :
  repz z s c -> acquires h0 (sblk s :: rest) h -> blen c <= newlen < 2 ^ 64 - 18 ->
  (1 <= type <= 4 /\ newlen <= type_max type) \/ (type = 0 /\ newlen = blen c /\ newlen < 32) ->
  yields (sds_resize s type newlen h)
    (outcome h0 (sblk s) rest (fun s' => repz z s' c /\ sdsalloc s' = newlen /\ sds_type s' = type)).
Proof.
  intros Hr Ha Hn Ht. pose proof (blen_nonneg c). unfold sds_resize.
  pose proof Hr as [Hh Hl (sl & Eb & Hs) Hf]. rewrite Eb in Hf.
  assert (1 <= sdsHdrSize type <= 17) as Hsz by (apply hdr_size; lia).
  destruct (Z.eqb_spec (sds_type s) type) as [Et|Et].
  - eapply yields_bind; [by apply realloc_first|]. intros [[b|] h1] H1; [|by apply yields_Ret].
    destruct (new_bytes_ok b (sdsHdrSize type) newlen Hsz ltac:(lia)) as (buf & -> & Hb1 & Hb2). cbn [cbind].
    rewrite Eb. destruct (realloc_bytes z c sl buf newlen ltac:(lia) Hb1 Hf Hb2) as (sl' & -> & E1 & E2).
    apply yields_Ret. unfold outcome.
    edestruct (resized z b type c newlen sl' (hlen s) (halloc s)) as [Hok Hblk]; [lia|done|done| |split; [exact Hok|by rewrite Hblk]].
    destruct (hdr_cases s Hh) as [(Et0 & El & _ & _ & _ & Ef)|(Ef & Hc & El & _)].
    + right. split; [lia|]. destruct Ht as [?|(_ & Hl2 & Hl3)]; [lia|]. split; [done|]. split; [done|].
      rewrite same_type5 by (rewrite sds_type_mod; cbn [flags]; by rewrite <- sds_type_mod). f_equal. lia.
    + left. destruct Ht as [[Ht Hm]|?]; [|lia]. split; [done|]. split; [done|]. rewrite <- Ef, Et, <- Hl, El. by apply set_alloc; lia.
  - pose proof (malloc_more h0 _ _ Ha) as Hm. destruct (malloc h) as [[b|] h1]; [|by apply yields_Ret].
    destruct (new_bytes_ok b (sdsHdrSize type) newlen Hsz ltac:(lia)) as (buf & -> & Hb1 & Hb2). cbn [cbind].
    assert (u64 (sdslen s + 1) = blen (c ++ [z])) as ->.
    { rewrite Hl, blen_app. unfold u64. rewrite Z.mod_small by lia. done. }
    rewrite Eb. change (c ++ z :: sl) with (c ++ [z] ++ sl). rewrite app_assoc.
    rewrite rd_block_0_app by (pose proof (blen_nonneg (c ++ [z])); lia). rewrite rd_block_0_all. cbn [cbind].
    rewrite wr_block_in_bounds by (rewrite ?blen_app; change (blen [z]) with 1; lia). cbn [cbind].
    eapply yields_bind; [by apply (free_acquired h0 [b] (sblk s) rest)|]. intros h2 H2. apply yields_Ret. rewrite Hl.
    set (sl' := drop (Z.to_nat (0 + blen (c ++ [z]))) buf). change (Z.to_nat 0) with 0%nat. cbn [take app]. rewrite <- app_assoc.
    apply Forall_app in Hf as [Hf1 Hf2]. apply Forall_cons in Hf2 as [Hf2 Hf3].
    edestruct (resized z b type c newlen sl' (u64 (junk b (-2))) (u64 (junk b (-1)))) as [Hok Hblk];
      [lia| | | |unfold outcome; split; [exact Hok|by rewrite Hblk]].
    + subst sl'. rewrite blen_drop, blen_app, Hb1. change (blen [z]) with 1. lia.
    + rewrite Forall_app, Forall_cons. split; [done|]. split; [done|]. by apply Forall_drop.
    + destruct Ht as [[Ht Hmx]|(-> & E & Hl3)]; [left|right]; (split; [done|]); [split; [done|]|split; [done|split; [done|]]].
      * apply set_both; lia.
      * apply set_type5. lia.
Qed.
Lemma sdsMakeRoomFor_ok z h0 rest s c addlen h :
  repz z s c -> acquires h0 (sblk s :: rest) h -> 0 <= addlen -> blen c + addlen < 2 ^ 63 ->
  yields (sdsMakeRoomFor s addlen h)
    (outcome h0 (sblk s) rest (fun s' => repz z s' c /\ addlen <= sdsavail s' /\ (0 < addlen -> sds_type s' <> 0))).
Proof.
  intros Hr Ha Hn Hl. pose proof (blen_nonneg c). unfold sdsMakeRoomFor. destruct (Z.leb_spec addlen (sdsavail s)).
  - apply yields_Ret. split; [|done]. split; [done|]. split; [done|]. intros Hp E.
    destruct (hdr_cases s (rep_hdr _ _ Hr)) as [(_ & _ & _ & Ev & _)|(Et & Hf & _)]; lia.
  - rewrite (rep_len _ _ Hr). set (nl := if _ <? _ then _ else _).
    assert (blen c + addlen <= nl < 2 ^ 64 - 18) as Hnl.
    { subst nl. unfold u64, SDS_MAX_PREALLOC. rewrite (Z.mod_small (blen c + addlen)) by lia.
      destruct (Z.ltb_spec (blen c + addlen) (1024 * 1024)); rewrite Z.mod_small by lia; lia. }
    clearbody nl. set (t := if _ =? SDS_TYPE_5 then _ else _).
    assert (1 <= t <= 4 /\ nl <= type_max t) as Ht.
    { subst t. destruct (sdsReqType_fits nl ltac:(lia)) as [(? & ->)|(? & ? & ?)]; [cbn; split; [done|unfold type_max; cbn; lia]|].
      destruct (Z.eqb_spec (sdsReqType nl) SDS_TYPE_5) as [E|_]; [unfold SDS_TYPE_5 in E; lia|done]. }
    eapply yields_mono; [apply sds_resize_ok; [done|done|lia|by left]|]. intros r Hout.
    eapply outcome_mono; [exact Hout|]. intros s' (R1 & R2 & R3). split; [done|].
    assert (sds_type s' <> 0) as Hnz by lia. split; [|done].
    rewrite hdr_avail by (apply R1 || done). rewrite R2, (rep_len _ _ R1). lia.
Qed.

Lemma sdsRemoveFreeSpace_ok h0 rest s c h :
  rep s c -> acquires h0 (sblk s :: rest) h -> blen c < 2 ^ 63 ->
  yields (sdsRemoveFreeSpace s h) (outcome h0 (sblk s) rest (fun s' => rep s' c /\ sdsalloc s' = blen c)).
Proof.
  intros Hr Ha Hl. pose proof (blen_nonneg c). unfold sdsRemoveFreeSpace. rewrite (rep_len _ _ Hr).
  eapply yields_mono; [apply sds_resize_ok; [done|done|lia|]|].
  - destruct (sdsReqType_fits (blen c) ltac:(lia)) as [(? & ->)|(? & ? & ?)]; [by right|by left].
  - intros r Hout. eapply outcome_mono; [exact Hout|]. by intros s' (? & ? & _).
Qed.

(** Writing [src] at [off] of the content: the bytes before it and behind it
    stay. *)
Lemma write_over c sl off src : 0 <= off <= blen c -> off + blen src <= blen (c ++ 0 :: sl) - 1 ->
  exists sl', wr_block (c ++ 0 :: sl) off (src ++ [0]) = Ret ((take (Z.to_nat off) c ++ src) ++ 0 :: sl') /\
    blen ((take (Z.to_nat off) c ++ src) ++ 0 :: sl') = blen (c ++ 0 :: sl) /\
    (Forall is_byte (c ++ 0 :: sl) -> Forall is_byte src -> Forall is_byte ((take (Z.to_nat off) c ++ src) ++ 0 :: sl')).
Proof.
  intros Ho Hb. assert (blen (src ++ [0]) = blen src + 1) as Es by (by rewrite blen_app).
  exists (drop (Z.to_nat (off + blen (src ++ [0]))) (c ++ 0 :: sl)).
  rewrite wr_block_in_bounds by lia. rewrite (take_app_le c) by (unfold blen in *; lia).
  split; [by rewrite <- !app_assoc|]. split.
  - rewrite !blen_app, blen_cons, blen_drop, blen_take, blen_app, blen_cons in *.
    autorewrite with blen_db in *. pose proof (blen_nonneg src). unfold blen in *. cbn [length] in *. lia.
  - intros Hf Hs. pose proof Hf as Hf'. apply Forall_app in Hf' as [H1 _]. rewrite !Forall_app, Forall_cons.
    split_and!; auto using Forall_take, Forall_drop. done.
Qed.

Lemma sdscatlen_ok h0 rest s c t len src h :
  rep s c -> acquires h0 (sblk s :: rest) h -> rd_block t 0 len = Ret src -> Forall is_byte src -> blen c + len < 2 ^ 63 ->
  yields (sdscatlen s t len h) (outcome h0 (sblk s) rest (fun s' => rep s' (c ++ src))).
Proof.
  intros Hr Ha Ht Hf Hl. pose proof (blen_rd_block _ _ _ _ Ht) as Hs. pose proof (blen_nonneg src). pose proof (blen_nonneg c).
  unfold sdscatlen. eapply yields_bind; [apply sdsMakeRoomFor_ok; [done|done|lia|lia]|].
  intros [[s'|] h'] Hout; [|by apply yields_Ret]. destruct Hout as ((R & Hv & _) & Ha').
  rewrite Ht. cbn [cbind]. rewrite (rep_len _ _ Hr). pose proof (rep_bounds _ _ R) as (B1 & B2 & B3).
  pose proof (rep_buf_len _ _ R) as B4. pose proof (rep_len _ _ R) as El. pose proof (rep_bytes _ _ R) as Hby.
  pose proof (rep_buf _ _ R) as (sl & Eb & _). rewrite Eb in *. unfold u64. rewrite Z.mod_small by lia.
  destruct (write_over c sl (blen c) src) as (sl' & Hw & Hw2 & Hw3); [lia|lia|]. rewrite blen_to_nat, take_ge in Hw, Hw2, Hw3 by done.
  match goal with |- yields ?m _ => assert (m = Ret (Some (sdssetlen (with_buf s' ((c ++ src) ++ 0 :: sl')) (blen c + len)), h')) as -> end.
  { pose proof (write_text (c ++ 0 :: sl) (blen c) src
      (fun b => Ret (Some (sdssetlen (with_buf s' b) (blen c + len)), h')) ltac:(lia) ltac:(lia)) as E.
    rewrite Hw, Hs in E. cbn [cbind] in E. rewrite <- E. destruct (wr_block _ _ src) as [b| |]; [|done..]. cbn [cbind].
    rewrite setlen_buf. cbn [sbuf with_buf]. destruct (wr b _ 0); [|done..]. cbn [cbind]. by rewrite with_buf_setlen. }
  apply yields_Ret. split; [|by rewrite setlen_blk].
  replace (blen c + len) with (blen (c ++ src)) by (rewrite blen_app; lia). apply (rep_put 0 0 s' c); [done|rewrite blen_app; lia|auto|].
  by rewrite Eb.
Qed.

Lemma strlen_ok t : 0 ∈ t -> strlen t = Ret (blen (cstr t)) /\ rd_block t 0 (blen (cstr t)) = Ret (cstr t).
Proof.
  intros Ht. unfold strlen. rewrite bool_decide_true by done. split; [done|].
  assert (exists r, t = cstr t ++ 0 :: r) as [r E].
  { induction t as [|c t IH]; [by apply elem_of_nil in Ht|]. cbn [cstr]. destruct (Z.eqb_spec c 0) as [->|Hc]; [by exists t|].
    apply elem_of_cons in Ht as [?|Ht]; [congruence|]. destruct (IH Ht) as [r E]. exists r. cbn [app]. by f_equal. }
  rewrite E at 1. rewrite rd_block_0_app by (pose proof (blen_nonneg (cstr t)); lia). apply rd_block_0_all.
Qed.

Lemma sdscat_ok h0 rest s c t h :
  rep s c -> acquires h0 (sblk s :: rest) h -> 0 ∈ t -> Forall is_byte t -> blen c + blen (cstr t) < 2 ^ 63 ->
  yields (sdscat s t h) (outcome h0 (sblk s) rest (fun s' => rep s' (c ++ cstr t))).
Proof.
  intros Hr Ha Ht Hf Hl. unfold sdscat. destruct (strlen_ok t Ht) as [-> Hb]. cbn [cbind].
  by apply sdscatlen_ok; [..|apply cstr_bytes|].
Qed.

Lemma rep_read s c : rep s c -> rd_block (sbuf s) 0 (sdslen s) = Ret c.
Proof.
  intros [_ -> (sl & -> & _) _]. rewrite rd_block_0_app by (pose proof (blen_nonneg c); lia). apply rd_block_0_all.
Qed.

Lemma sdscatsds_ok h0 rest s c t ct h :
  rep s c -> rep t ct -> acquires h0 (sblk s :: rest) h -> blen c + blen ct < 2 ^ 63 ->
  yields (sdscatsds s t h) (outcome h0 (sblk s) rest (fun s' => rep s' (c ++ ct))).
Proof.
  intros Hr Ht Ha Hl. unfold sdscatsds. apply sdscatlen_ok; [done|done|by apply rep_read|by eapply rep_content_bytes|].
  by rewrite (rep_len _ _ Ht).
Qed.

Lemma sdsgrowzero_ok h0 rest s c len h :
  rep s c -> acquires h0 (sblk s :: rest) h -> 0 <= len < 2 ^ 63 ->
  yields (sdsgrowzero s len h)
    (outcome h0 (sblk s) rest (fun s' => rep s' (c ++ replicate (Z.to_nat (len - blen c)) 0))).
Proof.
  intros Hr Ha Hl. unfold sdsgrowzero. rewrite (rep_len _ _ Hr). pose proof (blen_nonneg c). destruct (Z.leb_spec len (blen c)).
  { apply yields_Ret. split; [|done]. replace (Z.to_nat _) with 0%nat by lia. by rewrite app_nil_r. }
  eapply yields_bind; [apply sdsMakeRoomFor_ok; [done|done|lia|lia]|].
  intros [[s'|] h'] Hout; [|by apply yields_Ret]. destruct Hout as ((R & Hv & _) & Ha').
  pose proof (rep_bounds _ _ R) as (B1 & B2 & B3). pose proof (rep_buf_len _ _ R) as B4.
  pose proof (rep_len _ _ R) as El. pose proof (rep_bytes _ _ R) as Hby. pose proof (rep_buf _ _ R) as (sl & Eb & _).
  set (z := replicate (Z.to_nat (len - blen c)) 0). assert (blen z = len - blen c) as Ez by (subst z; unfold blen at 1; rewrite length_replicate; lia).
  assert (replicate (Z.to_nat (len - blen c + 1)) 0 = z ++ [0]) as ->.
  { subst z. replace (Z.to_nat (len - blen c + 1)) with (Z.to_nat (len - blen c) + 1)%nat by lia. by rewrite replicate_add. }
  rewrite Eb in *. destruct (write_over c sl (blen c) z) as (sl' & -> & Hw2 & Hw3); [lia|lia|].
  rewrite blen_to_nat, take_ge in * by done. cbn [cbind]. apply yields_Ret. split; [|by rewrite setlen_blk].
  replace len with (blen (c ++ z)) by (rewrite blen_app; lia). apply (rep_put 0 0 s' c); [done|rewrite blen_app; lia| |by rewrite Eb].
  apply Hw3; [done|]. subst z. by apply Forall_replicate.
Qed.

Lemma sdscpylen_ok h0 rest s c t len src h :
  rep s c -> acquires h0 (sblk s :: rest) h -> rd_block t 0 len = Ret src -> Forall is_byte src -> len < 2 ^ 63 ->
  yields (sdscpylen s t len h) (outcome h0 (sblk s) rest (fun s' => rep s' src)).
Proof.
  intros Hr Ha Ht Hf Hl. pose proof (blen_rd_block _ _ _ _ Ht) as Hs. pose proof (blen_nonneg src). pose proof (blen_nonneg c).
  pose proof (rep_bounds _ _ Hr) as (B1 & B2 & B3).
  unfold sdscpylen. eapply (yields_bind (outcome h0 (sblk s) rest (fun s' => rep s' c /\ len <= sdsalloc s'))).
  { destruct (Z.ltb_spec (sdsalloc s) len) as [Hlt|]; [|by apply yields_Ret].
    unfold u64. rewrite Z.mod_small by lia. rewrite (rep_len _ _ Hr) in *.
    eapply yields_mono; [apply (sdsMakeRoomFor_ok 0 h0 rest s c); [done|done|lia|lia]|]. intros r Hout. eapply outcome_mono; [exact Hout|].
    intros s' (R & Hv & _). split; [done|]. pose proof (rep_bounds _ _ R). pose proof (rep_len _ _ R). lia. }
  intros [[s'|] h'] Hout; [|by apply yields_Ret]. destruct Hout as ((R & Hv) & Ha'). rewrite Ht. cbn [cbind].
  pose proof (rep_buf_len _ _ R) as B4. pose proof (rep_bytes _ _ R) as Hby. pose proof (rep_buf _ _ R) as (sl & Eb & _).
  pose proof (write_text (sbuf s') 0 src (fun b => Ret (Some (sdssetlen (with_buf s' b) len), h')) ltac:(lia) ltac:(lia)) as E.
  rewrite Hs, Z.add_0_l in E. rewrite E, Eb in *. destruct (write_over c sl 0 src) as (sl' & -> & Hw2 & Hw3); [lia|lia|].
  change (take (Z.to_nat 0) c ++ src) with src in *. cbn [cbind]. apply yields_Ret. split; [|by rewrite setlen_blk].
  replace len with (blen src) by lia. apply (rep_put 0 0 s' c); [done|lia|auto|by rewrite Eb].
Qed.

(** A new block; NULL leaves the others. *)
Definition created (h : heap) (rest : list Z) (P : sds -> Prop) (r : option sds * heap) : Prop :=
  match r with
  | (Some s', h') => P s' /\ acquires h (sblk s' :: rest) h'
  | (None, h') => acquires h rest h' /\ starved
  end.

Lemma wr_end buf c : blen buf = blen c + 1 -> wr_block buf 0 (c ++ [0]) = Ret (c ++ 0 :: []).
Proof.
  intros E. rewrite wr_block_in_bounds by (rewrite ?blen_app; change (blen [0]) with 1; lia).
  rewrite drop_ge by (rewrite blen_app; change (blen [0]) with 1; unfold blen in *; lia). by rewrite app_nil_r.
Qed.

Lemma new_content_ok (init : option (list Z)) buf n c :
  blen buf = n + 1 -> 0 <= n ->
  match init with Some src => rd_block src 0 n = Ret c | None => c = replicate (Z.to_nat n) 0 end ->
  new_content init n buf = Ret (c ++ 0 :: []).
Proof.
  intros Hb Hn Hi. unfold new_content. destruct init as [src|]; cbn [cbind].
  - pose proof (blen_rd_block _ _ _ _ Hi) as Hc. destruct (Z.eqb_spec n 0) as [->|Hn0].
    + destruct c; [|rewrite blen_cons in Hc; pose proof (blen_nonneg c); lia]. cbn [cbind]. by apply (wr_end buf []).
    + rewrite Hi. cbn [cbind]. pose proof (write_text buf 0 c (fun b => Ret b) ltac:(lia) ltac:(lia)) as E.
      rewrite Z.add_0_l, Hc in E. rewrite (wr_end buf c) in E by lia. cbn [cbind] in E. rewrite <- E.
      destruct (wr_block buf 0 c) as [b| |]; [|done..]. cbn [cbind]. by destruct (wr _ _ _).
  - subst c. assert (map (fun _ => 0) buf = replicate (Z.to_nat n) 0 ++ [0]) as ->.
    { assert (length buf = (Z.to_nat n + 1)%nat) as El by (unfold blen in Hb; lia). clear -El.
      change [0] with (replicate 1 0). rewrite <- replicate_add, <- El. clear El. induction buf as [|x buf IH]; [done|]. cbn. by f_equal. }
    unfold wr. set (z := replicate (Z.to_nat n) 0). assert (blen z = n) as Ez by (subst z; unfold blen; rewrite length_replicate; lia).
    rewrite wr_block_in_bounds by (rewrite ?blen_app; change (blen [0]) with 1; lia).
    rewrite <- Ez at 1. rewrite blen_to_nat, take_app_length. rewrite drop_ge; [done|].
    rewrite length_app. change (blen [0]) with 1. unfold blen in *. cbn. lia.
Qed.

Lemma new_header_ok b t c sl : (1 <= t <= 4 /\ blen c <= type_max t) \/ (t = 0 /\ blen c < 32) ->
  Forall is_byte (c ++ 0 :: sl) -> rep (new_header b t (blen c) (c ++ 0 :: sl)) c /\ sblk (new_header b t (blen c) (c ++ 0 :: sl)) = b.
Proof.
  intros Ht Hf. pose proof (blen_nonneg c). pose proof (blen_nonneg sl). destruct Ht as [[Ht Hm]|[-> Hl]].
  - assert (new_header b t (blen c) (c ++ 0 :: sl) = mkSds b t (blen c) (blen c) (c ++ 0 :: sl)) as ->.
    { assert (t = 1 \/ t = 2 \/ t = 3 \/ t = 4) as Hc by lia. unfold new_header.
      destruct Hc as [->|[->|[->| ->]]]; cbn in Hm |- *; unfold u8, u16, u32, u64; by rewrite Z.mod_small by lia. }
    split; [|done]. apply rep_wide; (done || lia).
  - assert (new_header b 0 (blen c) (c ++ 0 :: sl) = mkSds b (8 * blen c) 0 0 (c ++ 0 :: sl)) as ->.
    { unfold new_header. rewrite Z.eqb_refl. f_equal. unfold SDS_TYPE_BITS. rewrite Z.lor_0_l, Z.shiftl_mul_pow2 by lia.
      change (2 ^ 3) with 8. unfold u64, u8. rewrite (Z.mod_small (blen c * 8)), Z.mod_small by lia. lia. }
    split; [|done]. by apply rep_five.
Qed.

Lemma sdsnewlen_ok h0 rest init n c h :
  acquires h0 rest h -> 0 <= n < 2 ^ 63 -> Forall is_byte c ->
  match init with Some src => rd_block src 0 n = Ret c | None => c = replicate (Z.to_nat n) 0 end ->
  yields (sdsnewlen init n h) (created h0 rest (fun s' => rep s' c)).
Proof.
  intros Ha Hn Hf Hi. unfold sdsnewlen.
  assert (blen c = n) as Hc.
  { destruct init; [by apply (blen_rd_block _ _ _ _ Hi)|]. subst c. unfold blen. rewrite length_replicate. lia. }
  set (t := if _ && _ then _ else _).
  assert (1 <= t <= 4 /\ n <= type_max t \/ t = 0 /\ n < 32) as Ht.
  { subst t. destruct (sdsReqType_fits n ltac:(lia)) as [(? & ->)|(? & ? & ?)].
    - change (0 =? SDS_TYPE_5) with true. cbn [andb]. destruct (Z.eqb_spec n 0); [left; cbn; split; [done|unfold type_max; cbn; lia]|by right].
    - left. destruct (Z.eqb_spec (sdsReqType n) SDS_TYPE_5) as [E|_]; [unfold SDS_TYPE_5 in E; lia|done]. }
  clearbody t. pose proof (malloc_more h0 _ _ Ha) as Hm. destruct (malloc h) as [[b|] h1]; [|by apply yields_Ret].
  destruct (new_bytes_ok b (sdsHdrSize t) n ltac:(apply hdr_size; lia) ltac:(lia)) as (buf & -> & Hb1 & Hb2). cbn [cbind].
  rewrite (new_content_ok init buf n c Hb1) by (done || lia). cbn [cbind]. rewrite <- Hc in *.
  destruct (new_header_ok b t c []) as [Hr Hb]; [done| |].
  { apply Forall_app. split; [done|]. by constructor. }
  apply yields_Ret. split; [done|]. by rewrite Hb.
Qed.

Lemma sdsempty_ok h0 rest h : acquires h0 rest h -> yields (sdsempty h) (created h0 rest (fun s' => rep s' [])).
Proof. intros Ha. by apply sdsnewlen_ok. Qed.

Lemma sdsdup_ok h0 rest s c h : acquires h0 rest h -> rep s c -> blen c < 2 ^ 63 ->
  yields (sdsdup s h) (created h0 rest (fun s' => rep s' c)).
Proof.
  intros Ha Hr Hc. pose proof (blen_nonneg c). unfold sdsdup. apply sdsnewlen_ok; [done|rewrite (rep_len _ _ Hr); lia| |by apply rep_read].
  by eapply rep_content_bytes.
Qed.

End growth.

(** ** Operations in place *)

(** [lia] on the lengths of concatenations. *)
Ltac blia :=
  repeat first [rewrite blen_app | rewrite blen_cons | rewrite blen_nil];
  repeat match goal with
  | |- context [blen ?l] => lazymatch goal with H : 0 <= blen l |- _ => fail | _ => pose proof (blen_nonneg l) end
  end; lia.

Definition edited (s : sds) (c' : list Z) (s' : sds) : Prop := rep s' c' /\ sblk s' = sblk s.

(** A text written over the content from [off] on, with its terminator. *)
Lemma edit_ok {T : Type} s c off src (k : sds -> comp T) (P : T -> Prop) :
  rep s c -> 0 <= off <= blen c -> off + blen src <= sdsalloc s -> Forall is_byte src ->
  (forall s', edited s (take (Z.to_nat off) c ++ src) s' -> yields (k s') P) ->
  yields (let! b := wr_block (sbuf s) off (src ++ [0]) in k (sdssetlen (with_buf s b) (off + blen src))) P.
Proof.
  intros Hr Ho Hb Hf Hk. pose proof (rep_bounds _ _ Hr) as (B1 & B2 & B3). pose proof (rep_buf_len _ _ Hr) as B4.
  pose proof (rep_bytes _ _ Hr) as Hby. pose proof (rep_buf _ _ Hr) as (sl & Eb & _). rewrite Eb in *.
  destruct (write_over c sl off src) as (sl' & -> & Hw2 & Hw3); [lia|lia|]. cbn [cbind]. apply Hk. split; [|by rewrite setlen_blk].
  assert (blen (take (Z.to_nat off) c ++ src) = off + blen src) as El by (rewrite blen_app, blen_take; lia).
  rewrite <- El. apply (rep_put 0 0 s c); [done|lia|auto|by rewrite Eb].
Qed.

Lemma with_buf_setlen' s b n : with_buf (sdssetlen s n) b = sdssetlen (with_buf s b) n.
Proof. rewrite <- (with_buf_setlen s (sbuf s) b n). by destruct s. Qed.

Lemma sdsclear_ok s c : rep s c -> yields (sdsclear s) (edited s []).
Proof.
  intros Hr. pose proof (rep_bounds _ _ Hr). unfold sdsclear. rewrite setlen_buf.
  pose proof (edit_ok s c 0 [] (fun s => Ret s) (edited s []) Hr) as H1. cbn [app] in H1.
  unfold wr. destruct H1 as (s' & E & Hs); [pose proof (blen_nonneg c); lia|change (blen []) with 0; lia|done|intros s' H1; by apply yields_Ret|].
  exists s'. split; [|done]. rewrite <- E. change (0 + blen []) with 0.
  destruct (wr_block _ _ _); [|done..]. cbn [cbind]. by rewrite with_buf_setlen'.
Qed.

Lemma cstr_app_nul c r : cstr (c ++ 0 :: r) = cstr c.
Proof. induction c as [|x c IH]; [done|]. cbn [cstr app]. destruct (x =? 0); [done|]. by rewrite IH. Qed.

Lemma cstr_split c : c = cstr c \/ exists r, c = cstr c ++ 0 :: r.
Proof.
  induction c as [|x c IH]; [by left|]. cbn [cstr]. destruct (Z.eqb_spec x 0) as [->|]; [right; by exists c|].
  destruct IH as [IH|[r IH]]; [left|right; exists r]; cbn [app]; by f_equal.
Qed.

Lemma sdsupdatelen_ok s c : rep s c -> blen c < 2 ^ 31 -> yields (sdsupdatelen s) (edited s (cstr c)).
Proof.
  intros Hr Hl. unfold sdsupdatelen. pose proof (rep_bounds _ _ Hr) as (B1 & B2 & B3). pose proof (rep_len _ _ Hr) as El.
  pose proof (rep_bytes _ _ Hr) as Hby. pose proof (rep_buf _ _ Hr) as (sl & Eb & Ha).
  assert (exists sl', sbuf s = cstr c ++ 0 :: sl' /\ blen (cstr c) <= blen c) as (sl' & Eb' & Hc).
  { destruct (cstr_split c) as [E|[r E]]; [rewrite <- E; eauto using Z.le_refl|]. exists (r ++ 0 :: sl). split.
    - rewrite Eb. rewrite E at 1. by rewrite <- app_assoc.
    - rewrite E at 2. rewrite blen_app. pose proof (blen_nonneg (0 :: r)). lia. }
  destruct (strlen_ok (sbuf s)) as [-> _]; [rewrite Eb; set_solver|]. cbn [cbind]. rewrite Eb at 1. rewrite cstr_app_nul.
  pose proof (blen_nonneg (cstr c)). rewrite i32_small by lia. unfold u64. rewrite Z.mod_small by lia.
  apply yields_Ret. split; [|by rewrite setlen_blk].
  assert (s = with_buf s (cstr c ++ 0 :: sl')) as E by (rewrite <- Eb'; by destruct s). rewrite E at 1.
  apply (rep_put 0 0 s c); [done|lia|by rewrite <- Eb'|by rewrite Eb'].
Qed.

(** *** Characters *)

Lemma map_bytes_ok f m : forall a r j, j = blen a ->
  map_bytes f (length m) (a ++ m ++ r) j = Ret (a ++ map f m ++ r).
Proof.
  induction m as [|x m IH]; intros a r j Hj; cbn [map_bytes length]; [done|]. subst j. cbn [app map].
  rewrite rd_app_mid. cbn [cbind]. unfold wr. pose proof (blen_nonneg a). pose proof (blen_nonneg (m ++ r)).
  rewrite wr_block_in_bounds by blia. cbn [cbind].
  rewrite blen_to_nat, take_app_length. change (blen [f x]) with 1.
  assert (drop (Z.to_nat (blen a + 1)) (a ++ x :: m ++ r) = m ++ r) as ->.
  { rewrite (cons_middle x a), app_assoc. apply drop_app_length'. unfold blen. rewrite length_app. cbn. lia. }
  rewrite app_assoc. rewrite IH by (by rewrite blen_app). by rewrite <- app_assoc.
Qed.

(** A content of the same length. *)
Lemma rep_same s c c' sl : rep s c -> sbuf s = c ++ 0 :: sl -> length c' = length c -> Forall is_byte c' ->
  edited s c' (with_buf s (c' ++ 0 :: sl)).
Proof.
  intros [Hh Hl (sl2 & Eb & Ha) Hf] E Hc Hf'. split; [|done]. assert (sl2 = sl) as -> by (rewrite Eb in E; by simplify_list_eq).
  assert (blen c' = blen c) as Eq by (unfold blen; by rewrite Hc).
  split; [done|by rewrite Eq| |].
  - exists sl. split; [done|]. by rewrite Eq.
  - rewrite Eb in Hf. apply Forall_app in Hf as [_ Hf]. by apply Forall_app.
Qed.

Lemma sds_map_ok f s c : rep s c -> blen c < 2 ^ 31 -> (forall b, is_byte b -> is_byte (f b)) ->
  yields (let! buf := map_bytes f (Z.to_nat (i32 (sdslen s))) (sbuf s) 0 in Ret (with_buf s buf)) (edited s (map f c)).
Proof.
  intros Hr Hl Hf. pose proof (rep_buf _ _ Hr) as (sl & Eb & _). rewrite (rep_len _ _ Hr). pose proof (blen_nonneg c).
  rewrite i32_small by lia. rewrite Eb, blen_to_nat, (map_bytes_ok f c [] (0 :: sl)) by done. apply yields_Ret.
  apply (rep_same s c); [done|done|by rewrite length_map|]. apply Forall_map. eapply Forall_impl; [by eapply rep_content_bytes|]. auto.
Qed.

Lemma toupper_byte b : is_byte b -> is_byte (toupper b).
Proof. unfold is_byte, toupper. intros. destruct (_ && _) eqn:E; zify_bool; lia. Qed.

Lemma tolower_byte b : is_byte b -> is_byte (tolower b).
Proof. unfold is_byte, tolower. intros. destruct (_ && _) eqn:E; zify_bool; lia. Qed.

Lemma sdstolower_ok s c : rep s c -> blen c < 2 ^ 31 -> yields (sdstolower s) (edited s (map tolower c)).
Proof. intros. by apply (sds_map_ok tolower); [..|apply tolower_byte]. Qed.

Lemma sdstoupper_ok s c : rep s c -> blen c < 2 ^ 31 -> yields (sdstoupper s) (edited s (map toupper c)).
Proof. intros. by apply (sds_map_ok toupper); [..|apply toupper_byte]. Qed.

(** The first place of a byte in [from] selects its replacement. *)
Fixpoint replace_byte (from to : list Z) (c : Z) : Z :=
  match from, to with
  | x :: from, y :: to => if c =? x then y else replace_byte from to c
  | _, _ => c
  end.

Lemma map_char_ok c : forall from to a b i, length from = length to -> i = blen a -> i = blen b ->
  map_char (length from) (a ++ from) (b ++ to) i c = Ret (replace_byte from to c).
Proof.
  induction from as [|x from IH]; intros [|y to] a b i Hl Ha Hb; try done. cbn [length map_char replace_byte].
  rewrite Ha at 1. rewrite rd_app_mid. cbn [cbind]. destruct (c =? x); [rewrite Hb; apply rd_app_mid|].
  rewrite (cons_middle x a), (cons_middle y b), !app_assoc. apply IH; [by injection Hl|blia..].
Qed.

Lemma mapchars_loop_ok from to m : length from = length to -> forall a r j, j = blen a ->
  mapchars_loop (length m) (blen from) from to (a ++ m ++ r) j = Ret (a ++ map (replace_byte from to) m ++ r).
Proof.
  intros Hl. assert (mapchars_loop_eq : forall k buf j, mapchars_loop k (blen from) from to buf j = map_bytes (replace_byte from to) k buf j).
  { induction k as [|k IH]; intros buf j; cbn [mapchars_loop map_bytes]; [done|]. destruct (rd buf j) as [c| |]; [|done..]. cbn [cbind].
    rewrite blen_to_nat, (map_char_ok c from to [] []) by done. cbn [cbind]. destruct (wr _ _ _); [|done..]. apply IH. }
  intros a r j Hj. rewrite mapchars_loop_eq. by apply map_bytes_ok.
Qed.

Lemma replace_byte_byte from to c : Forall is_byte to -> is_byte c -> is_byte (replace_byte from to c).
Proof.
  intros Hf Hc. revert to Hf. induction from as [|x from IH]; intros [|y to] Hf; cbn [replace_byte]; try done.
  apply Forall_cons in Hf as [? ?]. destruct (c =? x); auto.
Qed.

Lemma sdsmapchars_ok s c from to : rep s c -> length from = length to -> Forall is_byte to ->
  yields (sdsmapchars s from to (blen from)) (edited s (map (replace_byte from to) c)).
Proof.
  intros Hr Hl Hf. pose proof (rep_buf _ _ Hr) as (sl & Eb & _). unfold sdsmapchars. rewrite (rep_len _ _ Hr), Eb, blen_to_nat.
  rewrite (mapchars_loop_ok from to c Hl [] (0 :: sl)) by done. apply yields_Ret.
  apply (rep_same s c); [done|done|by rewrite length_map|]. apply Forall_map. eapply Forall_impl; [by eapply rep_content_bytes|].
  intros b Hb. by apply replace_byte_byte.
Qed.

(** *** Cutting *)

Fixpoint drop_set (cset l : list Z) : list Z :=
  match l with
  | c :: l' => if in_set cset c then drop_set cset l' else l
  | [] => []
  end.

(** Without the bytes of the set at both ends. *)
Definition trim_spec (cset c : list Z) : list Z := rev (drop_set cset (rev (drop_set cset c))).

Lemma drop_set_suffix cset l : exists a, l = a ++ drop_set cset l.
Proof.
  induction l as [|c l [a IH]]; [by exists []|]. cbn [drop_set]. destruct (in_set cset c); [|by exists []].
  exists (c :: a). cbn [app]. by f_equal.
Qed.

Lemma trim_left_ok cset l : forall fuel a r sp, sp = blen a -> (length l <= fuel)%nat ->
  trim_left fuel (a ++ l ++ r) cset sp (blen a + blen l - 1) = Ret (blen a + blen l - blen (drop_set cset l)).
Proof.
  induction l as [|c l IH]; intros fuel a r sp -> Hf.
  - destruct fuel; cbn [trim_left drop_set]; destruct (Z.leb_spec (blen a) (blen a + blen [] - 1)) as [H|_];
      rewrite ?blen_nil in *; try lia; f_equal; lia.
  - cbn [length] in Hf. destruct fuel as [|f]; [lia|]. cbn [trim_left drop_set app]. rewrite blen_cons. pose proof (blen_nonneg l).
    destruct (Z.leb_spec (blen a) (blen a + (1 + blen l) - 1)); [|lia]. rewrite rd_app_mid. cbn [cbind].
    destruct (in_set cset c); [|by rewrite blen_cons; f_equal; lia].
    rewrite (cons_middle c a), app_assoc. replace (blen a + (1 + blen l) - 1) with (blen (a ++ [c]) + blen l - 1) by blia.
    rewrite IH by (blia || lia). f_equal. blia.
Qed.

Lemma trim_right_ok cset x l : forall fuel a r, (length l <= fuel)%nat ->
  trim_right fuel (a ++ (x :: rev l) ++ r) cset (blen a) (blen a + blen l) = Ret (blen a + blen (drop_set cset l)).
Proof.
  induction l as [|c l IH]; intros fuel a r Hf.
  - destruct fuel; cbn [trim_right drop_set]; destruct (Z.ltb_spec (blen a) (blen a + blen [])) as [H|_]; rewrite ?blen_nil in *; try lia; done.
  - cbn [length] in Hf. destruct fuel as [|f]; [lia|]. cbn [trim_right drop_set]. pose proof (blen_nonneg l). rewrite blen_cons.
    destruct (Z.ltb_spec (blen a) (blen a + (1 + blen l))); [|lia].
    assert (a ++ (x :: rev (c :: l)) ++ r = (a ++ (x :: rev l)) ++ c :: r) as -> by (cbn [rev]; rewrite <- !app_assoc; cbn; by rewrite <- app_assoc).
    assert (blen (rev l) = blen l) as Er by (unfold blen; by rewrite length_rev).
    replace (blen a + (1 + blen l)) with (blen (a ++ (x :: rev l))) by (rewrite blen_app, blen_cons; lia).
    rewrite rd_app_mid. cbn [cbind]. destruct (in_set cset c).
    + rewrite <- app_assoc. replace (blen (a ++ (x :: rev l)) - 1) with (blen a + blen l) by (rewrite blen_app, blen_cons; lia).
      apply IH. lia.
    + f_equal. rewrite blen_app, !blen_cons. lia.
Qed.

Lemma drop_set_head cset l x m : drop_set cset l = x :: m -> in_set cset x = false.
Proof. induction l as [|c l IH]; cbn [drop_set]; [done|]. destruct (in_set cset c) eqn:E; [done|]. by intros [= <- _]. Qed.

Lemma trim_spec_cons cset x m : in_set cset x = false ->
  rev (drop_set cset (rev (x :: m))) = x :: rev (drop_set cset (rev m)).
Proof.
  intros Hx. cbn [rev]. assert (forall l, drop_set cset (l ++ [x]) = drop_set cset l ++ [x]) as ->.
  { induction l as [|c l IH]; cbn [drop_set app]; [by rewrite Hx|]. by destruct (in_set cset c). }
  by rewrite rev_app_distr.
Qed.

Lemma blen_rev l : blen (rev l) = blen l.
Proof. unfold blen. by rewrite length_rev. Qed.

(** Moving a part of the content to the front. *)
Lemma cut_ok s c off n : rep s c -> 0 <= off -> 0 <= n -> off + n <= blen c ->
  yields (let! buf := if (off =? 0) || (n =? 0) then Ret (sbuf s)
                      else let! src := rd_block (sbuf s) off n in wr_block (sbuf s) 0 src in
          let! buf := wr buf n 0 in Ret (sdssetlen (with_buf s buf) n)) (edited s (sub c off n)).
Proof.
  intros Hr Ho Hn Hl. pose proof (rep_buf _ _ Hr) as (sl & Eb & _). pose proof (rep_bounds _ _ Hr) as (B1 & _).
  rewrite (rep_len _ _ Hr) in B1. pose proof (rep_buf_len _ _ Hr) as B4.
  assert (blen (sub c off n) = n) as En by (apply blen_sub; lia).
  assert (rd_block (sbuf s) off n = Ret (sub c off n)) as Erd.
  { rewrite rd_block_in_bounds by lia. f_equal. rewrite Eb. unfold sub, blen in *. rewrite drop_app_le by lia.
    rewrite take_app_le by (rewrite length_drop; lia). done. }
  pose proof (edit_ok s c 0 (sub c off n) (fun s => Ret s) (edited s (sub c off n)) Hr ltac:(lia) ltac:(lia)) as H.
  cbv beta in H. specialize (H (sub_Forall _ _ _ _ (rep_content_bytes _ _ Hr)) (fun s' Hs => yields_Ret _ _ Hs)).
  rewrite <- (write_text (sbuf s) 0 (sub c off n) (fun b => Ret (sdssetlen (with_buf s b) (0 + blen (sub c off n))))) in H by lia.
  rewrite En, !Z.add_0_l in H. destruct (_ || _) eqn:E0; [|rewrite Erd; cbn [cbind]; by destruct (wr_block (sbuf s) 0 _)].
  assert (wr_block (sbuf s) 0 (sub c off n) = Ret (sbuf s)) as Hid; [|by rewrite Hid in H].
  rewrite wr_block_in_bounds by lia. f_equal. rewrite Z.add_0_l, En. destruct (Z.eqb_spec n 0) as [->|]; [by rewrite sub_0|].
  rewrite orb_false_r in E0. apply Z.eqb_eq in E0 as ->. unfold sub. rewrite Eb.
  change (Z.to_nat 0) with 0%nat. cbn [take drop app].
  rewrite <- (take_app_le c (0 :: sl)) by (unfold blen in *; lia). apply take_drop.
Qed.

Lemma sdstrim_ok s c cset : rep s c -> yields (sdstrim s cset) (edited s (trim_spec cset c)).
Proof.
  intros Hr. pose proof (rep_buf _ _ Hr) as (sl & Eb & _). unfold sdstrim. rewrite (rep_len _ _ Hr).
  assert (length c <= length (sbuf s))%nat as Hlen by (rewrite Eb, length_app; lia).
  pose proof (trim_left_ok cset c (length (sbuf s)) [] (0 :: sl) 0 eq_refl Hlen) as E1. cbn [app] in E1.
  rewrite <- Eb in E1. change (blen []) with 0 in E1. rewrite !Z.add_0_l in E1. rewrite E1. cbn [cbind]. clear E1.
  unfold trim_spec. destruct (drop_set_suffix cset c) as [a Ea]. pose proof (blen_nonneg a). destruct (drop_set cset c) as [|x m] eqn:Ed.
  - change (rev (drop_set cset (rev []))) with ([] : list Z). change (blen []) with 0. rewrite Z.sub_0_r.
    assert (forall f, trim_right f (sbuf s) cset (blen c) (blen c - 1) = Ret (blen c - 1)) as ->.
    { intros f. destruct f; cbn [trim_right]; by destruct (Z.ltb_spec (blen c) (blen c - 1)); [lia|]. }
    cbn [cbind]. destruct (Z.ltb_spec (blen c - 1) (blen c)); [|lia].
    pose proof (cut_ok s c (blen c) 0 Hr) as H1. rewrite orb_true_r in H1. rewrite sub_0 in H1.
    destruct (blen c =? 0); [apply H1; pose proof (blen_nonneg c); lia|].
    rewrite rd_block_in_bounds by (rewrite ?Eb; pose proof (blen_nonneg c); pose proof (blen_nonneg sl); blia).
    cbn [cbind]. rewrite sub_0, wr_block_in_bounds by (rewrite ?blen_nil; pose proof (blen_nonneg (sbuf s)); lia).
    apply H1; pose proof (blen_nonneg c); lia.
  - rewrite trim_spec_cons by (by eapply drop_set_head). set (m' := rev (drop_set cset (rev m))).
    assert (blen c - blen (x :: m) = blen a) as -> by (rewrite Ea, blen_app; lia).
    assert (length (rev m) <= length (sbuf s))%nat as Hlen2 by (rewrite length_rev; rewrite Ea, length_app in Hlen; cbn in Hlen; lia).
    pose proof (trim_right_ok cset x (rev m) (length (sbuf s)) a (0 :: sl) Hlen2) as E2.
    rewrite rev_involutive, app_assoc, <- Ea, <- Eb, blen_rev in E2.
    replace (blen c - 1) with (blen a + blen m) by (rewrite Ea, blen_app, blen_cons; lia). rewrite E2. cbn [cbind].
    assert (blen (drop_set cset (rev m)) = blen m') as -> by (subst m'; by rewrite blen_rev).
    pose proof (blen_nonneg m'). destruct (Z.ltb_spec (blen a + blen m') (blen a)); [lia|].
    replace (blen a + blen m' - blen a + 1) with (blen (x :: m')) by (rewrite blen_cons; lia).
    destruct (drop_set_suffix cset (rev m)) as [t Et].
    assert (m = m' ++ rev t) as Em by (subst m'; rewrite <- rev_app_distr, <- Et; by rewrite rev_involutive).
    assert (c = a ++ (x :: m') ++ rev t) as Ec by (rewrite Ea, Em; done).
    pose proof (cut_ok s c (blen a) (blen (x :: m')) Hr) as H2. rewrite Ec, sub_app_mid, !blen_app in H2.
    pose proof (blen_nonneg (rev t)). rewrite blen_cons in *. destruct (Z.eqb_spec (1 + blen m') 0); [lia|].
    rewrite orb_false_r in H2. apply H2; lia.
Qed.

(** The bytes from [start] to [e], both included; negative places count from
    the end, places before the start are the first byte. *)
Definition range_spec (c : list Z) (start e : Z) : list Z :=
  let place i := if i <? 0 then Z.max 0 (blen c + i) else i in
  sub c (place start) (Z.max 0 (Z.min (place e) (blen c - 1) - place start + 1)).

Lemma i64_u64 z : - 2 ^ 63 <= z < 2 ^ 63 -> i64 (u64 z) = z.
Proof. intros. unfold i64, swrap, u64. rewrite Zplus_mod_idemp_l, Z.mod_small by lia. lia. Qed.

Lemma sub_nil off n : sub [] off n = [].
Proof. unfold sub. by rewrite drop_nil, take_nil. Qed.

Lemma range_bounds_ok len start e : 0 < len < 2 ^ 63 -> - 2 ^ 63 <= start < 2 ^ 63 -> - 2 ^ 63 <= e < 2 ^ 63 - 1 ->
  let place i := if i <? 0 then Z.max 0 (len + i) else i in
  let n := Z.max 0 (Z.min (place e) (len - 1) - place start + 1) in
  exists st, range_bounds len start e = Ret (st, n) /\ 0 <= st /\ (st = place start \/ n = 0).
Proof.
  intros Hl Hs He place. unfold range_bounds. cbv zeta.
  assert (forall i, - 2 ^ 63 <= i < 2 ^ 63 -> (if i <? 0 then (if i64 (u64 (len + i)) <? 0 then 0 else i64 (u64 (len + i))) else i) = place i) as Hpl.
  { intros i Hi. subst place. cbv beta. destruct (Z.ltb_spec i 0); [|done]. rewrite i64_u64 by lia. destruct (Z.ltb_spec (len + i) 0); lia. }
  rewrite (Hpl start), (Hpl e) by lia. clear Hpl.
  assert (0 <= place start /\ 0 <= place e < 2 ^ 63 - 1) as [Hst Hen].
  { subst place. cbv beta. destruct (Z.ltb_spec start 0), (Z.ltb_spec e 0); lia. }
  cbv zeta. set (p := place start) in *. set (en := place e) in *. clearbody p en. clear place.
  set (n := Z.max 0 _). rename p into st.
  destruct (Z.ltb_spec en st); cbn [cbind].
  - exists 0. cbn [negb Z.eqb]. subst n. split; [do 2 f_equal; lia|]. split; [lia|right; lia].
  - unfold signed. destruct (Z.leb_spec (- 2 ^ (64 - 1)) (en - st + 1)); [|lia].
    destruct (Z.ltb_spec (en - st + 1) (2 ^ (64 - 1))); [|lia]. cbn [andb cbind]. exists st.
    destruct (Z.eqb_spec (en - st + 1) 0); [lia|]. cbn [negb]. split; [|split; [done|by left]].
    subst n. repeat case_goal; zify_bool; do 2 f_equal; lia.
Qed.

Lemma sdsrange_ok s c start e : rep s c -> blen c < 2 ^ 63 -> - 2 ^ 63 <= start < 2 ^ 63 -> - 2 ^ 63 <= e < 2 ^ 63 - 1 ->
  yields (sdsrange s start e) (fun r => fst r = 0 /\ edited s (range_spec c start e) (snd r)).
Proof.
  intros Hr Hc Hs He. unfold sdsrange, range_spec. rewrite (rep_len _ _ Hr). pose proof (blen_nonneg c).
  destruct (Z.ltb_spec SSIZE_MAX (blen c)); [unfold SSIZE_MAX in *; lia|].
  destruct (Z.eqb_spec (blen c) 0) as [E0|Hne].
  { apply yields_Ret. destruct c; [by rewrite sub_nil|rewrite blen_cons in E0; pose proof (blen_nonneg c); lia]. }
  pose proof (range_bounds_ok (blen c) start e ltac:(lia) ltac:(lia) ltac:(lia)) as Hb. cbv zeta in Hb |- *.
  destruct Hb as (st & -> & Hst & Hn). cbn [cbind]. set (p := if start <? 0 then _ else start) in *.
  set (n := Z.max 0 (Z.min _ _ - p + 1)) in *.
  assert (sub c p n = sub c (if n =? 0 then 0 else st) n) as ->.
  { destruct (Z.eqb_spec n 0) as [->|]; [by rewrite !sub_0|]. destruct Hn as [->|]; [done|lia]. }
  pose proof (cut_ok s c (if n =? 0 then 0 else st) n Hr) as H1.
  destruct H1 as (s' & E & Hs'); [destruct (Z.eqb_spec n 0); lia|lia|destruct (Z.eqb_spec n 0); lia|].
  exists (0, s'). split; [|done].
  assert (((if n =? 0 then 0 else st) =? 0) || (n =? 0) = negb (negb (st =? 0) && negb (n =? 0))) as Eb.
  { destruct (Z.eqb_spec n 0), (Z.eqb_spec st 0); done. }
  rewrite Eb in E. destruct (negb (st =? 0) && negb (n =? 0)) eqn:Ec; cbn [negb] in E.
  - destruct (Z.eqb_spec n 0); [by rewrite andb_false_r in Ec|]. destruct (rd_block _ _ _); [|done..]. cbn [cbind] in *.
    destruct (wr_block _ _ _); [|done..]. cbn [cbind] in *. destruct (wr _ _ _); [|done..]. cbn [cbind] in *. congruence.
  - cbn [cbind] in *. destruct (wr _ _ _); [|done..]. cbn [cbind] in *. congruence.
Qed.

(** *** Order *)

Fixpoint bytes_lt (a b : list Z) : bool :=
  match a, b with
  | x :: a, y :: b => (x <? y) || ((x =? y) && bytes_lt a b)
  | [], _ :: _ => true
  | _, [] => false
  end.

Lemma memcmp_min a : forall b, memcmp (take (length a `min` length b) a) (take (length a `min` length b) b) = memcmp a b.
Proof.
  induction a as [|x a IH]; intros [|y b]; try done. cbn [length Nat.min take memcmp]. by rewrite IH.
Qed.

Lemma memcmp_order a : forall b,
  let z := if memcmp a b =? 0 then blen a - blen b else memcmp a b in
  (z = 0 <-> a = b) /\ (z < 0 <-> bytes_lt a b = true).
Proof.
  induction a as [|x a IH]; intros [|y b]; cbn [memcmp bytes_lt]; cbv zeta.
  - done.
  - rewrite Z.eqb_refl, blen_cons, blen_nil. pose proof (blen_nonneg b). split; [split; [lia|done]|split; [done|lia]].
  - rewrite Z.eqb_refl, blen_cons, blen_nil. pose proof (blen_nonneg a). split; [split; [lia|done]|split; [lia|done]].
  - specialize (IH b). cbv zeta in IH. destruct (Z.eqb_spec x y) as [->|Hne].
    + rewrite Z.ltb_irrefl. cbn [orb andb]. rewrite !blen_cons. replace (1 + blen a - (1 + blen b)) with (blen a - blen b) by lia.
      destruct IH as [IH1 IH2]. split; [|done]. rewrite IH1. split; congruence.
    + cbn [andb]. rewrite orb_false_r. destruct (Z.ltb_spec x y); cbn; (split; [split; [done|congruence]|split; (done || lia)]).
Qed.

Lemma i32_u64 z : - 2 ^ 31 <= z < 2 ^ 31 -> i32 (u64 z) = z.
Proof.
  intros. unfold i32, swrap, u64. change (2 ^ 64) with (2 ^ 32 * 2 ^ 32). rewrite Z.rem_mul_r by lia.
  replace (z mod 2 ^ 32 + 2 ^ 32 * ((z / 2 ^ 32) mod 2 ^ 32) + 2 ^ (32 - 1)) with (z mod 2 ^ 32 + 2 ^ (32 - 1) + ((z / 2 ^ 32) mod 2 ^ 32) * 2 ^ 32) by lia.
  rewrite Z.mod_add by lia. rewrite Zplus_mod_idemp_l, Z.mod_small by lia. lia.
Qed.

(** *** The bytes that a caller wrote behind the content *)

Lemma sdsIncrLen_ok s c w buf : rep s c -> sds_type s <> 0 -> wr_block (sbuf s) (blen c) w = Ret buf ->
  blen w <= sdsavail s -> blen w < 2 ^ 31 -> Forall is_byte w ->
  yields (sdsIncrLen (with_buf s buf) (blen w)) (fun r => exists s', r = Some s' /\ edited s (c ++ w) s').
Proof.
  intros Hr Ht Hw Ha Hl Hf. pose proof (blen_nonneg w). pose proof (rep_hdr _ _ Hr) as Hh. pose proof (rep_len _ _ Hr) as El.
  pose proof (rep_bounds _ _ Hr) as (B1 & B2 & B3). pose proof (hdr_avail _ Hh Ht) as Ev.
  pose proof (edit_ok s c (blen c) w (fun s' => Ret (Some s')) (fun r => exists s', r = Some s' /\ edited s (c ++ w) s') Hr) as H1.
  rewrite blen_to_nat, take_ge in H1 by done. cbv beta in H1.
  specialize (H1 ltac:(lia) ltac:(lia) Hf ltac:(intros s' H'; apply yields_Ret; eauto)).
  rewrite <- (write_text (sbuf s) (blen c) w (fun b => Ret (Some (sdssetlen (with_buf s b) (blen c + blen w))))) in H1
    by (pose proof (rep_buf_len _ _ Hr); lia).
  rewrite Hw in H1. cbn [cbind] in H1.
  assert (sdsIncrLen (with_buf s buf) (blen w) =
    let! b := wr buf (blen c + blen w) 0 in Ret (Some (sdssetlen (with_buf s b) (blen c + blen w)))) as ->; [|done].
  destruct (hdr_cases _ Hh) as [(? & _)|(Et & Hc & El2 & Ea2 & _ & Hb & Hm)]; [done|].
  unfold sdsIncrLen. destruct (Z.ltb_spec (blen w) 0); [lia|]. cbn [cbind]. change (sds_type (with_buf s buf)) with (sds_type s).
  cbn [hlen halloc with_buf]. destruct (Z.leb_spec 0 (blen w)); [|lia]. rewrite <- El2, <- Ea2, El.
  assert (forall x, x = sdsalloc s - blen c -> (blen w <=? x) = true) as Hle by (intros; lia).
  assert (forall b, sdssetlen (with_buf s b) (blen c + blen w) = with_len (with_buf s b) (blen c + blen w)) as Hset.
  { intros b. apply setlen_wide; [done|done|]. change (sdsalloc (with_buf s b)) with (sdsalloc s). lia. }
  transitivity (let! b := wr buf (blen c + blen w) 0 in Ret (Some (with_len (with_buf s b) (blen c + blen w)))).
  2: { destruct (wr _ _ _); [|done..]. cbn [cbind]. by rewrite Hset. }
  rewrite Et. unfold u8, u16, u32, u64.
  destruct Hc as [E|[E|[E|E]]]; rewrite E in *; cbn in Hm |- *; rewrite ?(Z.mod_small (sdsalloc s - blen c)), ?Hle by lia;
    cbn; rewrite (Z.mod_small (blen c + blen w)) by lia; by destruct (wr _ _ _).
Qed.

(** *** Decimal text *)

Lemma put_digits_ok fuel : forall v a r, 0 <= v < 10 ^ Z.of_nat fuel -> (0 < fuel)%nat -> Z.of_nat fuel <= blen r ->
  exists ds r', put_digits fuel (a ++ r) (blen a) v = Ret (a ++ ds ++ r', blen a + blen ds) /\
    blen ds + blen r' = blen r /\ forall acc, dec_digits fuel v acc = rev ds ++ acc.
Proof.
  induction fuel as [|f IH]; intros v a r Hv Hf Hr; [lia|]. destruct r as [|x r]; [rewrite blen_nil in Hr; lia|].
  rewrite blen_cons in *. pose proof (blen_nonneg r). pose proof (blen_nonneg a). cbn [put_digits dec_digits]. unfold wr.
  rewrite wr_block_in_bounds by blia. cbn [cbind]. rewrite blen_to_nat, take_app_length. change (blen [48 + v mod 10]) with 1.
  assert (drop (Z.to_nat (blen a + 1)) (a ++ x :: r) = r) as ->.
  { rewrite (cons_middle x a), app_assoc. apply drop_app_length'. unfold blen. rewrite length_app. cbn. lia. }
  destruct (Z.ltb_spec v 10) as [Hl|Hl].
  - rewrite Z.div_small, Z.eqb_refl, Z.mod_small by lia. exists [48 + v], r. split; [done|]. split; [blia|done].
  - destruct (Z.eqb_spec (v / 10) 0) as [E|_]; [assert (1 <= v / 10) by (apply Z.div_le_lower_bound; lia); lia|].
    rewrite Nat2Z.inj_succ, Z.pow_succ_r in Hv by lia. destruct f as [|f]; [cbn in Hv; lia|].
    destruct (IH (v / 10) (a ++ [48 + v mod 10]) r) as (ds & r' & E & E2 & E3).
    { split; [apply Z.div_pos; lia|apply Z.div_lt_upper_bound; lia]. }
    { lia. } { lia. }
    exists ((48 + v mod 10) :: ds), r'. replace (blen a + 1) with (blen (a ++ [48 + v mod 10])) by blia.
    rewrite app_assoc, E. split; [rewrite <- app_assoc; do 2 f_equal; blia|]. split; [blia|].
    intros acc. rewrite E3. cbn [rev]. by rewrite <- app_assoc.
Qed.

Lemma wr_mid a x b r : wr (a ++ x :: r) (blen a) b = Ret (a ++ b :: r).
Proof.
  unfold wr. pose proof (blen_nonneg a). pose proof (blen_nonneg r). rewrite wr_block_in_bounds by blia.
  rewrite blen_to_nat, take_app_length. change (blen [b]) with 1. f_equal. cbn [app]. do 2 f_equal.
  rewrite (cons_middle x a), app_assoc. apply drop_app_length'. unfold blen. rewrite length_app. cbn. lia.
Qed.

Lemma reverse_in_ok fuel : forall l a r, (length l <= 2 * fuel + 1)%nat ->
  reverse_in fuel (a ++ l ++ r) (blen a) (blen a + blen l - 1) = Ret (a ++ rev l ++ r).
Proof.
  induction fuel as [|f IH]; intros l a r Hl; cbn [reverse_in].
  - destruct (Z.ltb_spec (blen a) (blen a + blen l - 1)) as [H|_]; [unfold blen in H; lia|].
    destruct l as [|x [|y l]]; [done|done|cbn in Hl; lia].
  - destruct (Z.ltb_spec (blen a) (blen a + blen l - 1)) as [H|H].
    + destruct l as [|x l]; [rewrite blen_nil in H; lia|]. destruct l as [|y m _] using rev_ind; [change (blen [x]) with 1 in H; lia|].
      cbn [rev]. rewrite rev_app_distr. cbn [rev app]. rewrite <- !app_assoc. cbn [app].
      replace (blen a + blen (x :: m ++ [y]) - 1) with (blen (a ++ x :: m)) by blia.
      rewrite rd_app_mid. cbn [cbind]. change (a ++ x :: m ++ y :: r) with (a ++ (x :: m) ++ y :: r). rewrite app_assoc, rd_app_mid. cbn [cbind].
      rewrite <- app_assoc. cbn [app]. rewrite wr_mid. cbn [cbind]. change (a ++ y :: m ++ y :: r) with (a ++ (y :: m) ++ y :: r).
      rewrite app_assoc. replace (blen (a ++ x :: m)) with (blen (a ++ y :: m)) by (rewrite !blen_app, !blen_cons; lia).
      rewrite wr_mid. cbn [cbind]. rewrite <- app_assoc. cbn [app].
      replace (blen a + 1) with (blen (a ++ [y])) by blia. replace (blen (a ++ y :: m) - 1) with (blen (a ++ [y]) + blen m - 1) by blia.
      rewrite (cons_middle y a), app_assoc. rewrite IH by (cbn [length] in Hl; rewrite length_app in Hl; cbn in Hl; lia).
      by rewrite <- !app_assoc.
    + destruct l as [|x [|y l]]; [done|done|]. rewrite !blen_cons in H. pose proof (blen_nonneg l). lia.
Qed.

(** The common end: the digits at the front are reversed behind a sign. *)
Lemma finish_number l r : (length l <= 20)%nat -> 1 <= blen r ->
  exists r', (let! buf := wr (l ++ r) (blen l) 0 in let! buf := reverse_in 10 buf 0 (blen l - 1) in Ret (i32 (blen l), buf)) =
    Ret (blen l, rev l ++ 0 :: r') /\ blen (rev l ++ 0 :: r') = blen (l ++ r).
Proof.
  intros Hl Hr. destruct r as [|x r]; [rewrite blen_nil in Hr; lia|]. rewrite wr_mid. cbn [cbind].
  pose proof (reverse_in_ok 10 l [] (0 :: r) ltac:(lia)) as E. change (blen []) with 0 in E. rewrite Z.add_0_l in E. cbn [app] in E.
  rewrite E. cbn [cbind]. exists r. rewrite i32_small by (unfold blen; lia). split; [done|]. rewrite !blen_app, !blen_cons, blen_rev. done.
Qed.

Lemma sdsull2str_ok buf v : 0 <= v < 2 ^ 64 -> 21 <= blen buf ->
  exists r, sdsull2str buf v = Ret (blen (dec v), dec v ++ 0 :: r) /\ blen (dec v ++ 0 :: r) = blen buf /\ blen (dec v) <= 20.
Proof.
  intros Hv Hb. destruct (put_digits_ok 20 v [] buf) as (ds & r & E & E2 & E3); [lia|lia|lia|].
  assert (dec v = rev ds) as Ed by (unfold dec; destruct (Z.ltb_spec v 0); [lia|]; by rewrite E3, app_nil_r).
  pose proof (blen_dec v 20 ltac:(lia) ltac:(lia)) as Hl. rewrite Ed, blen_rev in *. change (Z.of_nat 20) with 20 in Hl.
  cbn [app] in E. change (blen []) with 0 in E. rewrite Z.add_0_l in E. unfold sdsull2str. rewrite E. cbn [cbind].
  destruct (finish_number ds r) as (r' & -> & Hr'); [unfold blen in Hl; lia|lia|]. exists r'. split; [done|].
  rewrite Hr', blen_app. split; [lia|done].
Qed.

Lemma sdsll2str_ok buf v : - 2 ^ 63 < v < 2 ^ 63 -> 21 <= blen buf ->
  exists r, sdsll2str buf v = Ret (blen (dec v), dec v ++ 0 :: r) /\ blen (dec v ++ 0 :: r) = blen buf /\ blen (dec v) <= 20.
Proof.
  intros Hv Hb. unfold sdsll2str.
  assert ((if v <? 0 then signed 64 (- v) else Ret v) = Ret (Z.abs v)) as ->.
  { destruct (Z.ltb_spec v 0); [|f_equal; lia]. unfold signed. destruct (Z.leb_spec (- 2 ^ (64 - 1)) (- v)), (Z.ltb_spec (- v) (2 ^ (64 - 1))); try lia.
    cbn. f_equal. lia. }
  cbn [cbind]. destruct (put_digits_ok 20 (Z.abs v) [] buf) as (ds & r & E & E2 & E3); [lia|lia|lia|].
  pose proof (dec_digits_length 20 19 (Z.abs v) [] ltac:(lia) ltac:(lia)) as Hl. rewrite E3, app_nil_r, length_rev in Hl. cbn [length] in Hl.
  cbn [app] in E. change (blen []) with 0 in E. rewrite Z.add_0_l in E. rewrite E. cbn [cbind].
  assert (blen ds <= 19) as Hl' by (unfold blen; lia). clear E.
  assert (exists l r2, (if v <? 0 then let! buf := wr (ds ++ r) (blen ds) 45 in Ret (buf, blen ds + 1) else Ret (ds ++ r, blen ds)) = Ret (l ++ r2, blen l) /\
    dec v = rev l /\ blen l <= 20 /\ blen l + blen r2 = blen buf) as (l & r2 & -> & Ed & Hl2 & Hr2).
  { unfold dec. destruct (Z.ltb_spec v 0).
    - destruct r as [|x r]; [rewrite blen_nil in E2; lia|]. rewrite wr_mid. cbn [cbind]. exists (ds ++ [45]), r.
      split; [rewrite <- app_assoc; cbn [app]; do 2 f_equal; blia|]. replace (- v) with (Z.abs v) by lia.
      rewrite E3, app_nil_r, rev_app_distr. split; [done|]. rewrite blen_cons in E2. split; blia.
    - exists ds, r. rewrite <- (Z.abs_eq v) at 1 by lia. rewrite E3, app_nil_r. split; [done|]. split; [done|]. split; lia. }
  cbn [cbind]. rewrite Ed, blen_rev. destruct (finish_number l r2) as (r' & -> & Hr'); [unfold blen in Hl2; lia|lia|].
  exists r'. split; [done|]. rewrite Hr', blen_app. split; [lia|done].
Qed.

(** *** Formatted text *)

Lemma inclen_wide s l : hdr_ok s -> sds_type s <> 0 -> 0 <= l -> sdslen s + l <= sdsalloc s ->
  sdsinclen s l = sdssetlen s (sdslen s + l).
Proof.
  intros H Ht Hl Ha. rewrite setlen_wide by (done || pose proof (hdr_bounds s H); lia).
  destruct (hdr_cases s H) as [(Et & _)|(Et & Hf & El & Ea & Ev & Hb & Hm)]; [done|].
  rewrite El, Ea in *. unfold sdsinclen. rewrite Et. unfold type_max in Hm. unfold u8, u16, u32, u64.
  destruct Hf as [E|[E|[E|E]]]; rewrite E in *; cbn in Hm |- *; by rewrite (Z.mod_small l), Z.mod_small by lia.
Qed.

(** What an argument prints. *)
Definition text_of (s : sds) : list Z := take (Z.to_nat (sdslen s)) (sbuf s).

Definition arg_text (n : Z) (args : list fmt_arg) : option (list Z * list fmt_arg) :=
  if n =? 115 then match args with AStr p :: args => Some (cstr p, args) | _ => None end
  else if n =? 83 then match args with ASds s :: args => Some (text_of s, args) | _ => None end
  else if n =? 105 then match args with AInt z :: args => Some (dec z, args) | _ => None end
  else if n =? 73 then match args with ALongLong z :: args => Some (dec z, args) | _ => None end
  else if n =? 117 then match args with AUnsigned z :: args => Some (dec z, args) | _ => None end
  else if n =? 85 then match args with AUnsignedLL z :: args => Some (dec z, args) | _ => None end
  else Some ([n], args).

Definition arg_ok (a : fmt_arg) : Prop :=
  match a with
  | AStr p => 0 ∈ p /\ Forall is_byte p
  | ASds s => exists c, rep s c
  | AInt z => - 2 ^ 31 <= z < 2 ^ 31
  | ALongLong z => - 2 ^ 63 < z < 2 ^ 63
  | AUnsigned z => 0 <= z < 2 ^ 32
  | AUnsignedLL z => 0 <= z < 2 ^ 64
  end.

(** The text of a call; [None]: an argument of another type is taken, or the
    format ends behind a percent sign. *)
Fixpoint render (fmt : list Z) (args : list fmt_arg) : option (list Z) :=
  match fmt with
  | [] => Some []
  | c :: fmt =>
      if c =? 37 then
        match fmt with
        | [] => None
        | n :: fmt =>
            match arg_text n args with
            | None => None
            | Some (t, args) => app t <$> render fmt args
            end
        end
      else cons c <$> render fmt args
  end.

Section formatted.
Context {A : Allocator} {G : Garbage}.

(** Inside the loop the terminator is missing. *)
Definition open (h : heap) (rest : list Z) (c : list Z) (r : option (sds * Z) * heap) : Prop :=
  match r with
  | (Some (s, i), h') => (exists z, repz z s c) /\ sds_type s <> 0 /\ i = blen c /\ acquires h (sblk s :: rest) h'
  | (None, h') => (exists b', acquires h (b' :: rest) h') /\ starved
  end.

Lemma mid_write z c sl src : blen src <= blen sl ->
  exists z' sl', wr_block (c ++ z :: sl) (blen c) src = Ret ((c ++ src) ++ z' :: sl') /\
    blen ((c ++ src) ++ z' :: sl') = blen (c ++ z :: sl) /\
    (Forall is_byte (c ++ z :: sl) -> Forall is_byte src -> Forall is_byte ((c ++ src) ++ z' :: sl')).
Proof.
  intros Hl. pose proof (blen_nonneg c). pose proof (blen_nonneg src). rewrite wr_block_in_bounds by blia.
  rewrite blen_to_nat, take_app_length. set (r := drop _ _).
  assert (blen r = blen sl + 1 - blen src) as Hr.
  { subst r. rewrite blen_drop, blen_app, blen_cons. lia. }
  destruct r as [|z' sl'] eqn:Er; [rewrite blen_nil in Hr; lia|]. exists z', sl'. rewrite <- app_assoc. split; [done|].
  split; [rewrite blen_cons in Hr; blia|]. intros Hf Hs. pose proof Hf as Hf'. apply Forall_app in Hf' as [Hf' _].
  rewrite !Forall_app. split_and!; [done|done|]. rewrite <- Er. by apply Forall_drop.
Qed.

(** Writing behind the content and adding the length. *)
Lemma open_write z s c src : repz z s c -> sds_type s <> 0 -> blen src <= sdsavail s -> Forall is_byte src ->
  exists b, wr_block (sbuf s) (blen c) src = Ret b /\ (exists z', repz z' (sdsinclen (with_buf s b) (blen src)) (c ++ src)) /\
    sds_type (sdsinclen (with_buf s b) (blen src)) <> 0 /\ sblk (sdsinclen (with_buf s b) (blen src)) = sblk s.
Proof.
  intros Hr Ht Ha Hf. pose proof (rep_hdr _ _ Hr) as Hh. rewrite hdr_avail in Ha by done. pose proof (rep_len _ _ Hr) as El.
  pose proof (rep_bounds _ _ Hr) as (B1 & _). pose proof (rep_bytes _ _ Hr) as Hby. pose proof (rep_buf _ _ Hr) as (sl & Eb & Hsl).
  pose proof (blen_nonneg src). rewrite Eb in *.
  destruct (mid_write z c sl src) as (z' & sl' & Hw & Hw2 & Hw3); [lia|]. exists ((c ++ src) ++ z' :: sl'). split; [done|].
  assert (hdr_ok (with_buf s ((c ++ src) ++ z' :: sl'))) as Hh' by done.
  rewrite inclen_wide; [|done|done|done|change (sdslen s + blen src <= sdsalloc s); lia].
  change (sdslen (with_buf s ((c ++ src) ++ z' :: sl'))) with (sdslen s). rewrite setlen_blk.
  destruct (setlen_ok (with_buf s ((c ++ src) ++ z' :: sl')) (sdslen s + blen src) Hh') as (_ & _ & _ & _ & _ & Hty & _);
    [change (0 <= sdslen s + blen src <= sdsalloc s); lia|].
  split; [|by rewrite Hty]. exists z'. rewrite El, <- blen_app. apply (rep_put z' z s c); [done|blia|auto|by rewrite Eb].
Qed.

Lemma fmt_block_ok h0 rest z s c p l src h :
  repz z s c -> sds_type s <> 0 -> acquires h0 (sblk s :: rest) h -> rd_block p 0 l = Ret src -> Forall is_byte src ->
  blen c + l < 2 ^ 31 -> yields (fmt_block s (blen c) p l h) (open h0 rest (c ++ src)).
Proof.
  intros Hr Ht Ha Hp Hf Hl. pose proof (blen_rd_block _ _ _ _ Hp) as Hs. pose proof (blen_nonneg src). pose proof (blen_nonneg c).
  unfold fmt_block.
  eapply (yields_bind (outcome h0 (sblk s) rest (fun s' => repz z s' c /\ l <= sdsavail s' /\ sds_type s' <> 0))).
  { destruct (Z.ltb_spec (sdsavail s) l); [|by apply yields_Ret]. pose proof (rep_bounds _ _ Hr).
    eapply yields_mono; [apply (sdsMakeRoomFor_ok z h0 rest s c); [done|done|lia|lia]|]. intros r Hout.
    eapply outcome_mono; [exact Hout|]. intros s' (R1 & R2 & R3). split; [done|]. split; [done|]. apply R3. lia. }
  intros [[s'|] h'] Hout; [|destruct Hout; apply yields_Ret; split; eauto]. destruct Hout as ((R & Hv & Hty) & Ha').
  rewrite Hp. cbn [cbind]. rewrite <- Hs in Hv. destruct (open_write z s' c src R Hty Hv Hf) as (b & -> & Hr' & Hty' & Hb). cbn [cbind].
  rewrite <- Hs. apply yields_Ret. split; [done|]. split; [done|]. rewrite Hb. split; [|done]. rewrite i32_u64 by lia. blia.
Qed.

Lemma fmt_byte_ok h0 rest z s c x h :
  repz z s c -> sds_type s <> 0 -> 1 <= sdsavail s -> acquires h0 (sblk s :: rest) h -> is_byte x -> blen c + 1 < 2 ^ 31 ->
  yields (fmt_byte s (blen c) x h) (open h0 rest (c ++ [x])).
Proof.
  intros Hr Ht Hv Ha Hx Hl. unfold fmt_byte, wr. pose proof (blen_nonneg c).
  destruct (open_write z s c [x] Hr Ht Hv) as (b & -> & Hr' & Hty' & Hb); [by constructor|]. change (blen [x]) with 1 in *. cbn [cbind].
  unfold signed. destruct (Z.leb_spec (- 2 ^ (32 - 1)) (blen c + 1)), (Z.ltb_spec (blen c + 1) (2 ^ (32 - 1))); try lia. cbn [andb cbind].
  apply yields_Ret. split; [done|]. split; [done|]. rewrite Hb. split; [blia|done].
Qed.

Lemma ll_buf_len : blen ll_buf = 21.
Proof. by apply blen_fresh. Qed.

Lemma dec_bytes z : - 2 ^ 64 < z < 2 ^ 64 -> Forall is_byte (dec z).
Proof.
  intros Hz. assert (forall y, 0 <= y -> Forall is_byte (dec_digits 20 y [])) as H.
  { intros y Hy. eapply Forall_impl; [by apply dec_digits_isdigit|]. intros c Hc%isdigit_range. unfold is_byte. lia. }
  unfold dec. destruct (Z.ltb_spec z 0); [constructor; [unfold is_byte; lia|]|]; apply H; lia.
Qed.

(** A printed number is appended. *)
Lemma fmt_number_ok h0 rest z s c v h (conv : list Z -> Z -> comp (Z * list Z)) :
  (exists r, conv ll_buf v = Ret (blen (dec v), dec v ++ 0 :: r) /\ blen (dec v ++ 0 :: r) = blen ll_buf /\ blen (dec v) <= 20) ->
  - 2 ^ 64 < v < 2 ^ 64 ->
  repz z s c -> sds_type s <> 0 -> acquires h0 (sblk s :: rest) h -> blen c + blen (dec v) < 2 ^ 31 ->
  yields (let! '(l, buf) := conv ll_buf v in fmt_block s (blen c) buf (u64 l) h) (open h0 rest (c ++ dec v)).
Proof.
  intros (r & -> & _ & Hl20) Hv Hr Ht Ha Hl. cbn [cbind]. pose proof (blen_nonneg (dec v)). unfold u64. rewrite Z.mod_small by lia.
  eapply fmt_block_ok; [done|done|done| |by apply dec_bytes|done].
  rewrite rd_block_0_app by lia. apply rd_block_0_all.
Qed.

Lemma yields_args {B : Type} (m : comp B) (args : list fmt_arg) (P : B -> Prop) (Q : B * list fmt_arg -> Prop) :
  yields m P -> (forall b, P b -> Q (b, args)) -> yields (let! b := m in Ret (b, args)) Q.
Proof. intros Hm HQ. eapply yields_bind; [exact Hm|]. intros b Hb. apply yields_Ret. auto. Qed.

Lemma spec_number h0 rest z s c v args h (conv : list Z -> Z -> comp (Z * list Z)) :
  (exists r, conv ll_buf v = Ret (blen (dec v), dec v ++ 0 :: r) /\ blen (dec v ++ 0 :: r) = blen ll_buf /\ blen (dec v) <= 20) ->
  - 2 ^ 64 < v < 2 ^ 64 ->
  repz z s c -> sds_type s <> 0 -> acquires h0 (sblk s :: rest) h -> blen c + blen (dec v) < 2 ^ 31 -> Forall arg_ok args ->
  yields (let! '(l, buf) := conv ll_buf v in let! r := fmt_block s (blen c) buf (u64 l) h in Ret (r, args))
    (fun r => open h0 rest (c ++ dec v) (fst r) /\ snd r = args /\ Forall arg_ok args).
Proof.
  intros Hc Hv Hr Ht Ha Hl Hok. pose proof (fmt_number_ok h0 rest z s c v h conv Hc Hv Hr Ht Ha Hl) as H1.
  destruct Hc as (r & E & _). rewrite E in *. cbn [cbind] in *. eapply yields_args; [exact H1|auto].
Qed.

Lemma fmt_spec_ok h0 rest z s c n args t args' h :
  repz z s c -> sds_type s <> 0 -> 1 <= sdsavail s -> acquires h0 (sblk s :: rest) h -> is_byte n ->
  Forall arg_ok args -> arg_text n args = Some (t, args') -> blen c + blen t < 2 ^ 31 ->
  yields (fmt_spec s (blen c) n args h) (fun r => open h0 rest (c ++ t) (fst r) /\ snd r = args' /\ Forall arg_ok args').
Proof.
  intros Hr Ht Hv Ha Hn Hok. unfold arg_text, fmt_spec.
  destruct (Z.eqb_spec n 115).
  { destruct args as [|[p|?|?|?|?|?] args]; intros [= <- <-] Hl; try done. apply Forall_cons in Hok as [[Hp Hf] Hok].
    destruct (strlen_ok p Hp) as [-> Hb]. cbn [cbind]. eapply yields_args; [eapply fmt_block_ok; (done || eauto using cstr_bytes)|]. auto. }
  destruct (Z.eqb_spec n 83).
  { destruct args as [|[?|p|?|?|?|?] args]; intros [= <- <-] Hl; try done. apply Forall_cons in Hok as [[ct Hc] Hok].
    assert (text_of p = ct) as Et.
    { pose proof (rep_read _ _ Hc) as Hrd. unfold rd_block in Hrd. destruct (_ && _); [|done]. by injection Hrd. }
    rewrite Et in *. eapply yields_args; [eapply fmt_block_ok; [done|done|done|by apply rep_read|by eapply rep_content_bytes|]|auto].
    by rewrite (rep_len _ _ Hc). }
  destruct (Z.eqb_spec n 105).
  { cbn [orb]. destruct args as [|[?|?|v|?|?|?] args]; intros [= <- <-] Hl; try done. apply Forall_cons in Hok as [Hz Hok]. cbn in Hz.
    apply (spec_number h0 rest z s c v args h sdsll2str); (done || lia || apply sdsll2str_ok; rewrite ?ll_buf_len; lia). }
  destruct (Z.eqb_spec n 73).
  { cbn [orb]. destruct args as [|[?|?|?|v|?|?] args]; intros [= <- <-] Hl; try done. apply Forall_cons in Hok as [Hz Hok]. cbn in Hz.
    apply (spec_number h0 rest z s c v args h sdsll2str); (done || lia || apply sdsll2str_ok; rewrite ?ll_buf_len; lia). }
  destruct (Z.eqb_spec n 117).
  { cbn [orb]. destruct args as [|[?|?|?|?|v|?] args]; intros [= <- <-] Hl; try done. apply Forall_cons in Hok as [Hz Hok]. cbn in Hz.
    apply (spec_number h0 rest z s c v args h sdsull2str); (done || lia || apply sdsull2str_ok; rewrite ?ll_buf_len; lia). }
  destruct (Z.eqb_spec n 85).
  { cbn [orb]. destruct args as [|[?|?|?|?|?|v] args]; intros [= <- <-] Hl; try done. apply Forall_cons in Hok as [Hz Hok]. cbn in Hz.
    apply (spec_number h0 rest z s c v args h sdsull2str); (done || lia || apply sdsull2str_ok; rewrite ?ll_buf_len; lia). }
  intros [= <- <-] Hl. eapply yields_args; [by eapply fmt_byte_ok|auto].
Qed.

(** The same without a claim on the type, which the empty format keeps. *)
Definition open_done (h : heap) (rest : list Z) (c : list Z) (r : option (sds * Z) * heap) : Prop :=
  match r with
  | (Some (s, i), h') => (exists z, repz z s c) /\ i = blen c /\ acquires h (sblk s :: rest) h'
  | (None, h') => (exists b', acquires h (b' :: rest) h') /\ starved
  end.

(** One round: room for a byte, then a plain byte or an argument. *)
Lemma fmt_room_ok h0 rest z s c h : repz z s c -> acquires h0 (sblk s :: rest) h -> blen c < 2 ^ 31 ->
  yields (if sdsavail s =? 0 then sdsMakeRoomFor s 1 h else Ret (Some s, h))
    (outcome h0 (sblk s) rest (fun s' => repz z s' c /\ 1 <= sdsavail s' /\ sds_type s' <> 0)).
Proof.
  intros Hr Ha Hl. pose proof (rep_bounds _ _ Hr) as (_ & B & _). destruct (Z.eqb_spec (sdsavail s) 0).
  - eapply yields_mono; [apply (sdsMakeRoomFor_ok z h0 rest s c); [done|done|lia|lia]|]. intros r Hout.
    eapply outcome_mono; [exact Hout|]. intros s' (R1 & R2 & R3). split; [done|]. split; [done|]. by apply R3.
  - apply yields_Ret. split; [|done]. split; [done|]. split; [lia|]. intros E.
    destruct (hdr_cases _ (rep_hdr _ _ Hr)) as [(_ & _ & _ & Ev & _)|(Et & Hf & _)]; lia.
Qed.

Lemma fmt_loop_ok h0 rest : forall fuel z s c a fmt args t h,
  (length fmt <= fuel)%nat -> Forall (fun x => is_byte x /\ x <> 0) fmt -> render fmt args = Some t -> Forall arg_ok args ->
  repz z s c -> acquires h0 (sblk s :: rest) h -> blen c + blen t < 2 ^ 31 ->
  yields (fmt_loop fuel s (blen c) (a ++ fmt ++ [0]) (blen a) args h) (open_done h0 rest (c ++ t)).
Proof.
  induction fuel as [|f IH]; intros z s c a fmt args t h Hf Hb Ht Hok Hr Ha Hl;
    (destruct fmt as [|x fmt]; [cbn [fmt_loop app]; rewrite rd_app_mid; cbn [cbind]; rewrite Z.eqb_refl;
      injection Ht as <-; rewrite app_nil_r; apply yields_Ret; split; eauto|]); cbn [length] in Hf; [lia|].
  apply Forall_cons in Hb as [[Hx Hx0] Hb]. cbn [fmt_loop app]. rewrite rd_app_mid. cbn [cbind].
  destruct (Z.eqb_spec x 0) as [|_]; [done|]. cbn [render] in Ht.
  pose proof (blen_nonneg t).
  eapply yields_bind; [eapply fmt_room_ok; [done|done|lia]|].
  intros [[s'|] h'] Hout; [|destruct Hout; apply yields_Ret; split; eauto]. destruct Hout as ((R & Hv & Hty) & Ha').
  destruct (Z.eqb_spec x 37) as [->|Hx37].
  - destruct fmt as [|n fmt]; [done|]. apply Forall_cons in Hb as [[Hn Hn0] Hb]. cbn [length] in Hf.
    destruct (arg_text n args) as [[t1 args']|] eqn:Earg; [|done]. destruct (render fmt args') as [t2|] eqn:Er; [|done].
    injection Ht as <-. rewrite blen_app in Hl. pose proof (blen_nonneg t1). pose proof (blen_nonneg t2).
    rewrite (cons_middle 37 a), app_assoc. replace (blen a + 1) with (blen (a ++ [37])) by blia. cbn [app].
    rewrite rd_app_mid. cbn [cbind].
    destruct (fmt_spec_ok h0 rest z s' c n args t1 args' h') as ([[r h1] args1] & -> & Hop & Eargs & Hok'); [done..|lia|].
    cbn [cbind fst snd] in *. subst args1.
    destruct r as [[s1 i]|]; [|destruct Hop; apply yields_Ret; by split]. destruct Hop as ((z1 & R1) & Ht1 & -> & Ha1).
    rewrite (cons_middle n (a ++ [37])), app_assoc. replace (blen (a ++ [37]) + 1) with (blen ((a ++ [37]) ++ [n])) by blia. rewrite (app_assoc c).
    eapply IH; [lia|done|done|done|done|done|blia].
  - destruct (render fmt args) as [t2|] eqn:Er; [|done]. injection Ht as <-. rewrite blen_cons in Hl. pose proof (blen_nonneg t2).
    destruct (fmt_byte_ok h0 rest z s' c x h') as ([r h1] & -> & Hop); [done..|lia|]. cbn [cbind].
    destruct r as [[s1 i]|]; [|destruct Hop; apply yields_Ret; by split]. destruct Hop as ((z1 & R1) & Ht1 & -> & Ha1).
    rewrite (cons_middle x a), app_assoc. replace (blen a + 1) with (blen (a ++ [x])) by blia. replace (c ++ x :: t2) with ((c ++ [x]) ++ t2) by (by rewrite <- app_assoc).
    eapply IH; [lia|done|done|done|done|done|blia].
Qed.

Definition appended (h : heap) (rest : list Z) (c : list Z) (r : option sds * heap) : Prop :=
  match r with
  | (Some s, h') => rep s c /\ acquires h (sblk s :: rest) h'
  | (None, h') => (exists b', acquires h (b' :: rest) h') /\ starved
  end.

Lemma sdscatfmt_ok h0 rest s c fmt args t h :
  rep s c -> acquires h0 (sblk s :: rest) h -> Forall (fun x => is_byte x /\ x <> 0) fmt -> Forall arg_ok args ->
  render fmt args = Some t -> blen c + blen t < 2 ^ 31 ->
  yields (sdscatfmt s (fmt ++ [0]) args h) (appended h0 rest (c ++ t)).
Proof.
  intros Hr Ha Hb Hok Ht Hl. unfold sdscatfmt. rewrite (rep_len _ _ Hr). pose proof (blen_nonneg c). pose proof (blen_nonneg t).
  rewrite i32_small by lia.
  eapply yields_bind; [apply (fmt_loop_ok h0 rest (length (fmt ++ [0])) 0 s c [] fmt args t h); rewrite ?length_app; (done || lia)|].
  intros [[[s' i]|] h'] Hop; [|destruct Hop; apply yields_Ret; by split]. destruct Hop as ((z & R) & -> & Ha').
  pose proof (rep_buf _ _ R) as (sl & Eb & Hsl). rewrite Eb, wr_mid. cbn [cbind]. apply yields_Ret. split; [|done].
  destruct R as [Hh Hlen _ Hf]. split; [done|done| |].
  - exists sl. split; [done|]. exact Hsl.
  - rewrite Eb in Hf. apply Forall_app in Hf as [H1 H2]. apply Forall_cons in H2 as [_ H2]. apply Forall_app. split; [done|]. by constructor.
Qed.

(** *** [vsnprintf] and its buffer *)

Definition opt_blk (b : option Z) : list Z := match b with None => [] | Some b => [b] end.

(** A buffer that holds the text as a C string. *)
Definition holds (buf text : list Z) : Prop := 0 ∈ buf /\ cstr buf = text /\ Forall is_byte buf.

Lemma vsnprintf_step buf n text :
  blen buf = n -> 1024 <= n < 2 ^ 63 -> Forall is_byte buf -> Forall (fun x => is_byte x /\ x <> 0) text ->
  exists b, (let! buf := wr buf (u64 (n - 2)) 0 in vsnprintf buf n text) = Ret b /\
    if blen text + 2 <=? n then rd b (u64 (n - 2)) = Ret 0 /\ holds b text else exists x, rd b (u64 (n - 2)) = Ret x /\ x <> 0.
Proof.
  intros Hb Hn Hf Ht. unfold u64. rewrite Z.mod_small by lia. pose proof (blen_nonneg text).
  assert (Forall is_byte text /\ 0 ∉ text) as [Htb Ht0].
  { split; [eapply Forall_impl; [exact Ht|]; by intros x []|]. intros H0. by apply (proj1 (Forall_forall _ _) Ht) in H0 as []. }
  unfold wr at 1. rewrite wr_block_in_bounds by blia. cbn [cbind]. change (n - 2 + blen [0]) with (n - 2 + 1).
  set (b1 := take (Z.to_nat (n - 2)) buf ++ [0] ++ drop (Z.to_nat (n - 2 + 1)) buf).
  assert (blen b1 = n) as Hb1 by (subst b1; rewrite !blen_app, blen_take, blen_drop; change (blen [0]) with 1; lia).
  unfold vsnprintf. rewrite wr_block_in_bounds by (rewrite ?blen_app, ?blen_take; change (blen [0]) with 1; lia).
  change (take (Z.to_nat 0) b1) with ([] : list Z). cbn [app]. rewrite Z.add_0_l. eexists. split; [reflexivity|].
  destruct (Z.leb_spec (blen text + 2) n) as [Hle|Hgt].
  - rewrite (take_ge text) by (unfold blen in *; lia). rewrite <- app_assoc. cbn [app].
    rewrite blen_app. change (blen [0]) with 1. split; [|split; [set_solver|split; [by apply cstr_nul|]]].
    + destruct (Z.eq_dec (blen text) (n - 2)) as [E|Hne]; [rewrite <- E; apply rd_app_mid|].
      replace (n - 2) with (blen (text ++ 0 :: take (Z.to_nat (n - 3 - blen text)) (drop (Z.to_nat (blen text + 1)) b1))).
      2: { rewrite blen_app, blen_cons, blen_take, blen_drop, Hb1. lia. }
      assert (drop (Z.to_nat (blen text + 1)) b1 = take (Z.to_nat (n - 3 - blen text)) (drop (Z.to_nat (blen text + 1)) b1) ++ 0 :: drop (Z.to_nat (n - 2 + 1)) buf) as E.
      { rewrite <- (take_drop (Z.to_nat (n - 3 - blen text)) (drop (Z.to_nat (blen text + 1)) b1)) at 1. f_equal.
        rewrite drop_drop. subst b1. rewrite drop_app_length'; [done|]. rewrite length_take. unfold blen in *. lia. }
      rewrite E at 1. rewrite (app_comm_cons _ _ 0), app_assoc. apply rd_app_mid.
    + rewrite Forall_app, Forall_cons. split_and!; [done|done|]. apply Forall_drop. subst b1. rewrite !Forall_app, Forall_cons. 
      split_and!; auto using Forall_take, Forall_drop; done.
  - destruct (lookup_lt_is_Some_2 text (Z.to_nat (n - 2))) as [x Hx]; [unfold blen in *; lia|]. exists x.
    assert (is_byte x /\ x <> 0) as [_ Hx0] by (by eapply Forall_lookup_1 in Ht). split; [|done].
    unfold rd. destruct (Z.leb_spec 0 (n - 2)); [|lia]. rewrite <- app_assoc, lookup_app_l by (rewrite length_take; unfold blen in *; lia).
    rewrite lookup_take_lt by lia. by rewrite Hx.
Qed.

Lemma vprintf_loop_ok h0 rest text : Forall (fun x => is_byte x /\ x <> 0) text -> blen text < 2 ^ 61 ->
  forall fuel hb buf n h, blen buf = n -> 1024 <= n < 2 ^ 63 -> Forall is_byte buf -> blen text + 2 <= n * 2 ^ Z.of_nat fuel ->
  acquires h0 (opt_blk hb ++ rest) h ->
  yields (sds_vprintf_loop fuel hb buf n text h) (fun r =>
    match r with
    | (Some (hb', buf'), h') => holds buf' text /\ acquires h0 (opt_blk hb' ++ rest) h'
    | (None, h') => acquires h0 rest h' /\ starved
    end).
Proof.
  intros Ht Hl. induction fuel as [|f IH]; intros hb buf n h Hb Hn Hf Hfuel Ha; cbn [sds_vprintf_loop];
    destruct (vsnprintf_step buf n text Hb Hn Hf Ht) as (b & E & Hstep);
    (destruct (wr buf (u64 (n - 2)) 0) as [b1| |]; [|done..]); cbn [cbind] in *; rewrite E; cbn [cbind];
    destruct (Z.leb_spec (blen text + 2) n).
  - destruct Hstep as [-> Hh]. cbn [cbind]. by apply yields_Ret.
  - change (Z.of_nat 0) with 0 in Hfuel. lia.
  - destruct Hstep as [-> Hh]. cbn [cbind]. by apply yields_Ret.
  - destruct Hstep as (x & -> & Hx). cbn [cbind]. destruct (Z.eqb_spec x 0) as [|_]; [done|].
    eapply (yields_bind (acquires h0 rest)); [destruct hb; [by apply free_first|by apply yields_Ret]|]. intros h1 H1.
    pose proof (malloc_more h0 _ _ H1) as Hm. destruct (malloc h1) as [[b2|] h2]; [|by apply yields_Ret].
    unfold u64. rewrite Z.mod_small by lia. rewrite Nat2Z.inj_succ, Z.pow_succ_r in Hfuel by lia.
    apply IH; [apply blen_fresh; lia|lia|apply fresh_bytes|lia|done].
Qed.

Lemma sdscatprintf_ok h0 rest s c fmtlen text h :
  rep s c -> acquires h0 (sblk s :: rest) h -> 0 <= fmtlen < 2 ^ 61 -> Forall (fun x => is_byte x /\ x <> 0) text ->
  blen c + blen text < 2 ^ 61 ->
  yields (sdscatprintf s fmtlen text h) (outcome h0 (sblk s) rest (fun s' => rep s' (c ++ text))).
Proof.
  intros Hr Ha Hfl Ht Hl. unfold sdscatprintf, sdscatvprintf. pose proof (blen_nonneg c). pose proof (blen_nonneg text).
  unfold u64 at 1 2 3. rewrite Z.mod_small by lia.
  assert (forall hb buf n h1, blen buf = n -> 1024 <= n < 2 ^ 63 -> Forall is_byte buf -> acquires h0 (opt_blk hb ++ sblk s :: rest) h1 ->
    yields (let! '(r, h) := sds_vprintf_loop 64 hb buf n text h1 in
      match r with
      | Some (hb, buf) => let! '(t, h) := sdscat s buf h in let! h := match hb with Some b => free b h | None => Ret h end in Ret (t, h)
      | None => Ret (None, h)
      end) (outcome h0 (sblk s) rest (fun s' => rep s' (c ++ text)))) as Hmain.
  { intros hb buf n h1 Hb Hn Hf H1. eapply yields_bind; [apply (vprintf_loop_ok h0 (sblk s :: rest)); (done || lia)|].
    intros [[[hb' buf']|] h2]; [|by intros [? ?]; apply yields_Ret]. intros ((Hh1 & Hh2 & Hh3) & H2).
    eapply yields_bind; [apply (sdscat_ok h0 (opt_blk hb' ++ rest)); [done| |done|done|rewrite Hh2; lia]|].
    { eapply acquires_perm; [|exact H2]. apply Permutation_sym, Permutation_middle. }
    rewrite Hh2. intros [t h3] Ho. assert (exists b P, acquires h0 (b :: opt_blk hb' ++ rest) h3 /\
      (forall h4, acquires h0 (b :: rest) h4 -> outcome h0 (sblk s) rest P (t, h4)) /\ (P = fun s' => rep s' (c ++ text))) as (b & P & H3 & Hk & ->).
    { destruct t as [s'|]; destruct Ho as [Ho1 Ho2]; eexists _, (fun s' => rep s' (c ++ text)); (split; [by eassumption|split; [by intros; split|done]]). }
    destruct hb' as [b'|]; cbn [opt_blk app] in H3.
    - eapply yields_bind; [by apply (free_acquired h0 [b] b' rest)|]. intros h4 H4. apply yields_Ret. by apply Hk.
    - apply yields_Ret. by apply Hk. }
  destruct (Z.ltb_spec 1024 (fmtlen * 2)).
  - pose proof (malloc_more h0 _ _ Ha) as Hm. destruct (malloc h) as [[b|] h1]; [|by apply yields_Ret].
    apply Hmain; [apply blen_fresh; lia|lia|apply fresh_bytes|done].
  - apply Hmain; [by apply blen_fresh|lia|apply fresh_bytes|done].
Qed.

End formatted.

(** ** The string as an abstract type

    The calls that change a string, what they make of its content, and the
    sizes within which they are defined. *)

Inductive call : Type :=
| CatLen (t : list Z)
| Cat (t : list Z)
| CpyLen (t : list Z)
| CatPrintf (fmtlen : Z) (text : list Z)
| GrowZero (n : Z)
| Fill (w : list Z)
| MakeRoom (n : Z)
| RemoveFree
| Trim (cset : list Z)
| Range (start e : Z)
| Clear
| UpdateLen
| Lower
| Upper
| MapChars (from to : list Z).

Section calls.
Context {A : Allocator} {G : Garbage}.

Definition in_place (m : comp sds) (h : heap) : comp (option sds * heap) := let! s := m in Ret (Some s, h).

(** [Fill] is the use of [sdsMakeRoomFor] and [sdsIncrLen] around a read into
    the free space; a failed assertion is [Oob]. *)
Definition fill (s : sds) (w : list Z) (h : heap) : comp (option sds * heap) :=
  let! '(s, h) := sdsMakeRoomFor s (blen w) h in
  match s with
  | None => Ret (None, h)
  | Some s =>
      let! buf := wr_block (sbuf s) (sdslen s) w in
      let! r := sdsIncrLen (with_buf s buf) (blen w) in
      let! s := deref r in Ret (Some s, h)
  end.

Definition run (c : call) (s : sds) (h : heap) : comp (option sds * heap) :=
  match c with
  | CatLen t => sdscatlen s t (blen t) h
  | Cat t => sdscat s t h
  | CpyLen t => sdscpylen s t (blen t) h
  | CatPrintf n t => sdscatprintf s n t h
  | GrowZero n => sdsgrowzero s n h
  | Fill w => fill s w h
  | MakeRoom n => sdsMakeRoomFor s n h
  | RemoveFree => sdsRemoveFreeSpace s h
  | Trim cset => in_place (sdstrim s cset) h
  | Range st e => in_place (let! r := sdsrange s st e in Ret (snd r)) h
  | Clear => in_place (sdsclear s) h
  | UpdateLen => in_place (sdsupdatelen s) h
  | Lower => in_place (sdstolower s) h
  | Upper => in_place (sdstoupper s) h
  | MapChars from to => in_place (sdsmapchars s from to (blen from)) h
  end.

Definition effect (k : call) (c : list Z) : list Z :=
  match k with
  | CatLen t => c ++ t
  | Cat t => c ++ cstr t
  | CpyLen t => t
  | CatPrintf _ t => c ++ t
  | GrowZero n => c ++ replicate (Z.to_nat (n - blen c)) 0
  | Fill w => c ++ w
  | MakeRoom _ => c
  | RemoveFree => c
  | Trim cset => trim_spec cset c
  | Range st e => range_spec c st e
  | Clear => []
  | UpdateLen => cstr c
  | Lower => map tolower c
  | Upper => map toupper c
  | MapChars from to => map (replace_byte from to) c
  end.

Definition allowed (k : call) (c : list Z) : Prop :=
  match k with
  | CatLen t => Forall is_byte t /\ blen c + blen t < 2 ^ 63
  | Cat t => 0 ∈ t /\ Forall is_byte t /\ blen c + blen (cstr t) < 2 ^ 63
  | CpyLen t => Forall is_byte t /\ blen t < 2 ^ 63
  | CatPrintf n t => 0 <= n < 2 ^ 61 /\ Forall (fun x => is_byte x /\ x <> 0) t /\ blen c + blen t < 2 ^ 61
  | GrowZero n => 0 <= n < 2 ^ 63
  | Fill w => w <> [] /\ Forall is_byte w /\ blen w < 2 ^ 31 /\ blen c + blen w < 2 ^ 63
  | MakeRoom n => 0 <= n /\ blen c + n < 2 ^ 63
  | RemoveFree => blen c < 2 ^ 63
  | Trim _ => True
  | Range st e => blen c < 2 ^ 63 /\ - 2 ^ 63 <= st < 2 ^ 63 /\ - 2 ^ 63 <= e < 2 ^ 63 - 1
  | Clear => True
  | UpdateLen => blen c < 2 ^ 31
  | Lower => blen c < 2 ^ 31
  | Upper => blen c < 2 ^ 31
  | MapChars from to => length from = length to /\ Forall is_byte to
  end.

Lemma in_place_ok h0 rest s c m h : acquires h0 (sblk s :: rest) h -> yields m (edited s c) ->
  yields (in_place m h) (outcome h0 (sblk s) rest (fun s' => rep s' c)).
Proof.
  intros Ha Hm. eapply yields_bind; [exact Hm|]. intros s' [Hr Hb]. apply yields_Ret. split; [done|]. by rewrite Hb.
Qed.

Lemma fill_ok h0 rest s c w h : rep s c -> acquires h0 (sblk s :: rest) h -> allowed (Fill w) c ->
  yields (fill s w h) (outcome h0 (sblk s) rest (fun s' => rep s' (c ++ w))).
Proof.
  intros Hr Ha (Hw & Hf & Hl & Hs). pose proof (blen_nonneg w). unfold fill.
  assert (0 < blen w) by (destruct w; [done|rewrite blen_cons; pose proof (blen_nonneg w); lia]).
  eapply yields_bind; [eapply sdsMakeRoomFor_ok; [done|done|lia|lia]|]. intros [[s'|] h'] Hout; [|by apply yields_Ret].
  destruct Hout as ((R & Hv & Hty) & Ha'). specialize (Hty ltac:(lia)). pose proof (rep_len _ _ R) as El.
  pose proof (rep_bounds _ _ R) as (B1 & B2 & B3). pose proof (rep_buf_len _ _ R).
  destruct (wr_block (sbuf s') (sdslen s') w) as [buf| |] eqn:Ew; [|rewrite wr_block_in_bounds in Ew by lia; done..]. cbn [cbind].
  rewrite El in Ew. eapply yields_bind; [by apply (sdsIncrLen_ok s' c w buf)|]. intros r (s2 & -> & Hr2 & Hb2). cbn [deref cbind].
  apply yields_Ret. split; [done|]. by rewrite Hb2.
Qed.

Lemma rd_all t : rd_block t 0 (blen t) = Ret t.
Proof. apply rd_block_0_all. Qed.

Lemma run_ok h0 rest s c k h : rep s c -> acquires h0 (sblk s :: rest) h -> allowed k c ->
  yields (run k s h) (outcome h0 (sblk s) rest (fun s' => rep s' (effect k c))).
Proof.
  intros Hr Ha Hk. pose proof Hk as Hk'. destruct k; cbn [run effect allowed] in *; destruct_and?.
  - apply sdscatlen_ok; (done || apply rd_all).
  - by apply sdscat_ok.
  - eapply sdscpylen_ok; (done || apply rd_all).
  - by apply sdscatprintf_ok.
  - by apply sdsgrowzero_ok.
  - by apply fill_ok.
  - eapply yields_mono; [by apply sdsMakeRoomFor_ok|]. intros r Ho. eapply outcome_mono; [exact Ho|]. by intros ? [? _].
  - eapply yields_mono; [by apply sdsRemoveFreeSpace_ok|]. intros r Ho. eapply outcome_mono; [exact Ho|]. by intros ? [? _].
  - apply in_place_ok; [done|]. by apply sdstrim_ok.
  - apply in_place_ok; [done|]. eapply yields_bind; [by apply sdsrange_ok|]. intros r [_ Hed]. by apply yields_Ret.
  - apply in_place_ok; [done|]. by eapply sdsclear_ok.
  - apply in_place_ok; [done|]. by apply sdsupdatelen_ok.
  - apply in_place_ok; [done|]. by apply sdstolower_ok.
  - apply in_place_ok; [done|]. by apply sdstoupper_ok.
  - apply in_place_ok; [done|]. by apply sdsmapchars_ok.
Qed.

(** A string from birth: the first NULL ends the calls. *)
Fixpoint run_all (ks : list call) (s : sds) (h : heap) : comp (option sds * heap) :=
  match ks with
  | [] => Ret (Some s, h)
  | k :: ks =>
      let! '(s, h) := run k s h in
      match s with
      | None => Ret (None, h)
      | Some s => run_all ks s h
      end
  end.

Definition life (init : list Z) (ks : list call) (h : heap) : comp (option sds * heap) :=
  let! '(s, h) := sdsnewlen (Some init) (blen init) h in
  match s with
  | None => Ret (None, h)
  | Some s => run_all ks s h
  end.

Fixpoint all_allowed (ks : list call) (c : list Z) : Prop :=
  match ks with
  | [] => True
  | k :: ks => allowed k c /\ all_allowed ks (effect k c)
  end.

Lemma run_all_ok h0 rest ks : forall s c h, rep s c -> acquires h0 (sblk s :: rest) h -> all_allowed ks c ->
  yields (run_all ks s h) (appended h0 rest (fold_left (fun c k => effect k c) ks c)).
Proof.
  induction ks as [|k ks IH]; intros s c h Hr Ha Hk; cbn [run_all fold_left]; [by apply yields_Ret|]. destruct Hk as [Hk Hks].
  eapply yields_bind; [by apply run_ok|]. intros [[s'|] h'] Ho; [|destruct Ho; apply yields_Ret; split; eauto].
  destruct Ho as [R Ha']. by apply IH.
Qed.

(** C9: a string stays well-formed through every sequence of calls within the
    limits: no access outside its block, the header type fits length and
    size, the terminator stands behind the content, the content is the one of
    the list operations, and the heap holds one block for it; only a refused
    allocation gives NULL. *)
Theorem sds_life_typed (h : heap) (rest : list Z) (h1 : heap) (init : list Z) (ks : list call) :
  acquires h rest h1 -> Forall is_byte init -> blen init < 2 ^ 63 -> all_allowed ks init ->
  yields (life init ks h1) (fun r =>
    match r with
    | (Some s, h2) => rep s (fold_left (fun c k => effect k c) ks init) /\ acquires h (sblk s :: rest) h2
    | (None, h2) => (acquires h rest h2 \/ exists b, acquires h (b :: rest) h2) /\ starved
    end).
Proof.
  intros Ha Hf Hl Hk. pose proof (blen_nonneg init). unfold life.
  eapply yields_bind; [apply (sdsnewlen_ok h rest (Some init) (blen init) init); (done || lia || apply rd_all)|].
  intros [[s|] h2] Ho; [|destruct Ho; apply yields_Ret; split; auto]. destruct Ho as [R Ha2].
  eapply yields_mono; [by apply (run_all_ok h rest ks s init)|]. intros [[s'|] h3] Ho; destruct Ho; (split; [|done]); auto.
Qed.

(** [sdscmp] orders strings by their bytes, a prefix first, and tells
    equality. *)
Theorem sdscmp_orders (s1 s2 : sds) (c1 c2 : list Z) :
  rep s1 c1 -> rep s2 c2 -> blen c1 < 2 ^ 31 -> blen c2 < 2 ^ 31 ->
  yields (sdscmp s1 s2) (fun z => (z = 0 <-> c1 = c2) /\ (z < 0 <-> bytes_lt c1 c2 = true)).
Proof.
  intros R1 R2 H1 H2. pose proof (blen_nonneg c1). pose proof (blen_nonneg c2).
  pose proof (rep_buf _ _ R1) as (sl1 & E1 & _). pose proof (rep_buf _ _ R2) as (sl2 & E2 & _).
  unfold sdscmp. rewrite (rep_len _ _ R1), (rep_len _ _ R2).
  assert ((if blen c1 <? blen c2 then blen c1 else blen c2) = Z.of_nat (length c1 `min` length c2)) as ->
    by (unfold blen; destruct (Z.ltb_spec (Z.of_nat (length c1)) (Z.of_nat (length c2))); lia).
  assert (forall c n sl, (n <= length c)%nat -> rd_block (c ++ 0 :: sl) 0 (Z.of_nat n) = Ret (take n c)) as Hrd.
  { intros c n sl Hn. rewrite rd_block_0_app, rd_block_in_bounds by (unfold blen; lia). unfold sub. by rewrite Nat2Z.id, drop_0. }
  rewrite E1, E2, !Hrd by lia. cbn [cbind]. rewrite memcmp_min. apply yields_Ret.
  pose proof (memcmp_order c1 c2) as H'. cbv zeta in H'. destruct (memcmp c1 c2 =? 0); [|done]. by rewrite i32_u64 by lia.
Qed.

(** the text of a number is its decimal text, which [strtol] reads back:
    every [long long] but the least, whose negation overflows. *)
Theorem sdsfromlonglong_roundtrip (h : heap) (rest : list Z) (h1 : heap) (v : Z) :
  acquires h rest h1 ->
  (- 2 ^ 63 < v < 2 ^ 63 ->
   yields (sdsfromlonglong v h1) (fun r =>
     match r with
     | (Some s, h2) => rep s (dec v) /\ strtol10 (sbuf s) = Ret v /\ acquires h (sblk s :: rest) h2
     | (None, h2) => acquires h rest h2 /\ starved
     end)) /\ (v = - 2 ^ 63 -> sdsfromlonglong v h1 = Oob).
Proof.
  intros Ha. split; [|by intros ->]. intros Hv. unfold sdsfromlonglong.
  destruct (sdsll2str_ok ll_buf v Hv) as (r & -> & _ & Hl); [pose proof ll_buf_len; lia|]. cbn [cbind].
  pose proof (blen_nonneg (dec v)). unfold u64. rewrite Z.mod_small by lia.
  eapply yields_mono; [apply (sdsnewlen_ok h rest (Some (dec v ++ 0 :: r)) (blen (dec v)) (dec v)); [done|lia|apply dec_bytes; lia|]|].
  { rewrite rd_block_0_app by lia. apply rd_block_0_all. }
  intros [[s|] h2] Ho; [|done]. destruct Ho as [R Ha2]. split; [done|]. split; [|done].
  pose proof (rep_buf _ _ R) as (sl & -> & _). apply strtol10_dec; [unfold LONG_MIN, LONG_MAX; lia|by rewrite digit_value_nul].
Qed.

(** [sdscatfmt] appends what its format and arguments print: strings,
    signed and unsigned numbers of both sizes, other bytes as they are. *)
Theorem sdscatfmt_renders (h : heap) (rest : list Z) (h1 : heap) (s : sds) (c fmt : list Z) (args : list fmt_arg) (t : list Z) :
  rep s c -> acquires h (sblk s :: rest) h1 -> Forall (fun x => is_byte x /\ x <> 0) fmt -> Forall arg_ok args ->
  render fmt args = Some t -> blen c + blen t < 2 ^ 31 ->
  yields (sdscatfmt s (fmt ++ [0]) args h1) (fun r =>
    match r with
    | (Some s', h2) => rep s' (c ++ t) /\ acquires h (sblk s' :: rest) h2
    | (None, h2) => (exists b, acquires h (b :: rest) h2) /\ starved
    end).
Proof. intros. by apply sdscatfmt_ok. Qed.

(** A format that ends behind a percent sign is read past its terminator. *)
Lemma sdscatfmt_percent_overread (h : heap) (rest : list Z) (h1 : heap) (s : sds) (c : list Z) (args : list fmt_arg) :
  (forall n, grants n = true) -> rep s c -> acquires h (sblk s :: rest) h1 -> blen c < 2 ^ 30 ->
  sdscatfmt s [37; 0] args h1 = Oob.
Proof.
  intros Hg Hr Ha Hl. pose proof (blen_nonneg c). unfold sdscatfmt. rewrite (rep_len _ _ Hr), i32_small by lia. cbn [length fmt_loop].
  change (rd [37; 0] 0) with (Ret 37). cbn [cbind]. change (37 =? 0) with false. cbv iota.
  destruct (fmt_room_ok h rest 0 s c h1 Hr Ha) as ([[s'|] h'] & -> & Ho); [lia| |destruct Ho as [_ [n Hn]]; congruence].
  destruct Ho as ((R & Hv & Hty) & Ha').
  change (37 =? 37) with true. change (rd [37; 0] (0 + 1)) with (Ret 0). cbv iota. cbn [cbind].
  change (fmt_spec s' (blen c) 0 args h') with (let! r := fmt_byte s' (blen c) 0 h' in Ret (r, args)).
  destruct (fmt_byte_ok h rest 0 s' c 0 h') as ([r h2] & -> & Hop); [done..|unfold is_byte; lia|lia|]. cbn [cbind].
  destruct r as [[s2 i]|]; [done|]. destruct Hop as [_ [n Hn]]. congruence.
Qed.

(** The sum in [sdsMakeRoomFor] wraps: a request for nearly 2^64 bytes makes
    the block smaller than the text. *)
Lemma sdsMakeRoomFor_wraps (h : heap) (rest : list Z) (h1 : heap) (s : sds) (c : list Z) :
  (forall n, grants n = true) -> rep s c -> sds_type s = SDS_TYPE_8 -> c <> [] -> acquires h (sblk s :: rest) h1 ->
  yields (sdsMakeRoomFor s (2 ^ 64 - blen c) h1) (fun r =>
    exists s', fst r = Some s' /\ blen (sbuf s') = 1 /\ sdslen s' = blen c /\ 0 < sdslen s').
Proof.
  intros Hg Hr Hty Hc Ha. pose proof (rep_bounds _ _ Hr) as (B1 & B2 & B3). rewrite (rep_len _ _ Hr) in *.
  assert (0 < blen c) by (destruct c; [done|rewrite blen_cons; pose proof (blen_nonneg c); lia]).
  destruct (hdr_cases _ (rep_hdr _ _ Hr)) as [(Et & _)|(Et & _ & El & Ea & Ev & Hb & Hm)]; [by rewrite Et in Hty|].
  assert (flags s = 1) as Ef by (rewrite <- Et; exact Hty). rewrite Ef in Hm. change (type_max 1) with 255 in Hm.
  unfold sdsMakeRoomFor. destruct (Z.leb_spec (2 ^ 64 - blen c) (sdsavail s)); [lia|]. rewrite (rep_len _ _ Hr).
  replace (blen c + (2 ^ 64 - blen c)) with (2 ^ 64) by lia. change (if u64 (2 ^ 64) <? SDS_MAX_PREALLOC then _ else _) with 0.
  cbv zeta. change (if sdsReqType 0 =? SDS_TYPE_5 then SDS_TYPE_8 else sdsReqType 0) with 1. unfold sds_resize. rewrite Hty.
  change (SDS_TYPE_8 =? 1) with true. cbv iota. eapply yields_bind; [by apply realloc_first|].
  intros [[b|] h2] H1; [|destruct H1 as [_ [n Hn]]; congruence].
  change (new_bytes b (sdsHdrSize 1) (u64 (sdsHdrSize 1 + 0 + 1))) with (Ret (fresh b 1)). cbn [cbind]. apply yields_Ret.
  eexists. split; [reflexivity|]. rewrite Ef. rewrite set_alloc by (cbn; lia).
  destruct (rep_buf _ _ Hr) as (sl & Eb & _). cbn [sbuf]. rewrite blen_app, blen_take, blen_drop.
  assert (Z.of_nat (length (fresh b 1)) = 1) as -> by done. assert (blen (fresh b 1) = 1) as -> by done.
  assert (sdslen (mkSds b 1 (hlen s) 0 (take (length (fresh b 1)) (sbuf s) ++ drop (length (sbuf s)) (fresh b 1))) = hlen s) as -> by done.
  rewrite Eb. unfold blen at 1. rewrite !length_app. cbn [length]. unfold blen in *. rewrite (rep_len _ _ Hr) in El. unfold blen in El. split_and!; lia.
Qed.
End calls.

(** ** Witnesses *)

Definition no_blocks : heap := mkHeap 0 ∅.

Lemma no_blocks_ok : acquires no_blocks [] no_blocks.
Proof. apply acquires_nil. intros b Hb. set_solver. Qed.

#[local] Instance plenty_sds : Allocator := plenty.
#[local] Instance junk_sds : Garbage := fun _ _ => 170.

(** Growing over the type limit, trimming and cutting. *)
Definition some_calls : list call :=
  [CatLen [32; 32; 104; 105; 33]; Cat [32; 0; 7]; Trim [32; 0]; Upper; GrowZero 300; UpdateLen; RemoveFree; Fill [63; 63]; Range (-3) (-1)].

Example some_calls_run :
  match life [32] some_calls no_blocks with
  | Ret (Some s, h) => text_of s = [33; 63; 63] /\ sds_type s = 1 /\ size (live h) = 1%nat
  | _ => False
  end.
Proof. vm_compute. done. Qed.

Lemma sds_life_typed_witness :
  yields (life [32] some_calls no_blocks) (fun r =>
    match r with
    | (Some s, h2) => rep s (fold_left (fun c k => effect k c) some_calls [32]) /\ acquires no_blocks (sblk s :: []) h2
    | (None, h2) => (acquires no_blocks [] h2 \/ exists b, acquires no_blocks (b :: []) h2) /\ starved
    end).
Proof.
  apply sds_life_typed; [apply no_blocks_ok|solve_bytes|done|].
  cbn; split_and!; try done; try solve_bytes; try (unfold blen; cbn; lia).
  by do 2 constructor.
Defined.

Definition sds_of (l : list Z) : sds := mkSds 0 (8 * blen l) 0 0 (l ++ [0]).

Lemma sds_of_rep l : blen l < 32 -> Forall is_byte l -> rep (sds_of l) l.
Proof. intros Hl Hf. apply rep_five; [done|]. apply Forall_app. split; [done|]. by constructor. Qed.

Lemma sdscmp_orders_witness :
  yields (sdscmp (sds_of [97]) (sds_of [97; 0])) (fun z => (z = 0 <-> [97] = [97; 0]) /\ (z < 0 <-> bytes_lt [97] [97; 0] = true)).
Proof. apply sdscmp_orders; [apply sds_of_rep; [done|solve_bytes]|apply sds_of_rep; [done|solve_bytes]|done|done]. Defined.

Lemma sdsfromlonglong_roundtrip_witness :
  (- 2 ^ 63 < -120 < 2 ^ 63 ->
   yields (sdsfromlonglong (-120) no_blocks) (fun r =>
     match r with
     | (Some s, h2) => rep s (dec (-120)) /\ strtol10 (sbuf s) = Ret (-120) /\ acquires no_blocks (sblk s :: []) h2
     | (None, h2) => acquires no_blocks [] h2 /\ starved
     end)) /\ (-120 = - 2 ^ 63 -> sdsfromlonglong (-120) no_blocks = Oob).
Proof. apply sdsfromlonglong_roundtrip. apply no_blocks_ok. Defined.

(** A new string and the heap with its block. *)
Definition one_block : heap := mkHeap 1 {[0]}.

Lemma one_block_ok : acquires no_blocks [0] one_block.
Proof.
  pose proof (malloc_acquires no_blocks (acquires_ok _ _ _ no_blocks_ok)) as H.
  change (malloc no_blocks) with (Some 0, mkHeap 1 ({[0]} ∪ ∅)) in H. cbv beta iota in H.
  assert ({[0]} ∪ ∅ =@{gset Z} {[0]}) as E by set_solver. by rewrite E in H.
Qed.

(** [%i and %s] *)
Definition some_format : list Z := [37; 105; 32; 37; 115; 37; 37].

Lemma sdscatfmt_renders_witness :
  yields (sdscatfmt (sds_of [62]) (some_format ++ [0]) [AInt (-5); AStr [97; 98; 0]] one_block) (fun r =>
    match r with
    | (Some s', h2) => rep s' ([62] ++ [45; 53; 32; 97; 98; 37]) /\ acquires no_blocks (sblk s' :: []) h2
    | (None, h2) => (exists b, acquires no_blocks (b :: []) h2) /\ starved
    end).
Proof.
  apply sdscatfmt_renders.
  - apply sds_of_rep; [done|solve_bytes].
  - apply one_block_ok.
  - repeat (constructor; [split; [unfold is_byte; lia|done]|]). constructor.
  - repeat constructor; cbn; (lia || set_solver || done).
  - vm_compute. reflexivity.
  - done.
Defined.

(** ** Where the code and its comments part *)

(** NUL bytes at the ends are cut off although no set contains them. *)
Lemma sdstrim_cuts_nul (cset c : list Z) : trim_spec cset (0 :: c) = trim_spec cset c.
Proof. unfold trim_spec. cbn [drop_set]. unfold in_set at 1. by rewrite orb_true_r. Qed.

(** Nothing was read into the free space of a short string: the assertion
    fails. *)
Lemma sdsIncrLen_zero (l : list Z) : blen l < 32 -> sdsIncrLen (sds_of l) 0 = Ret None.
Proof.
  intros Hl. pose proof (blen_nonneg l). unfold sdsIncrLen.
  assert (sds_type (sds_of l) = 0) as -> by (rewrite sds_type_mod; cbn [flags sds_of]; rewrite Z.mul_comm; apply Z.mod_mul; lia).
  done.
Qed.
