(* ===== verification/SdsText.v ===== *)
(** * Dynamic strings: splitting, joining, quoting

    The rest of hiredis/sds.c: [sdssplitlen] and its inverse [sdsjoinsds],
    [sdscatrepr], which quotes a string, and [sdssplitargs], which reads a
    line of plain and quoted arguments.  Strings and their proofs come from
    [Sds]. *)

From stdpp Require Import gmap.
From S2P Require Import Prelude Cstdlib Heap Sds.

#[local] Open Scope Z_scope.
#[local] Set Warnings "-clear-no-such-hyp".

(** ** Splitting and joining *)

Section split.
Context {A : Allocator} {G : Garbage}.

(** What the C code calls [tokens], [slots]: the block of the array, the
    number of its entries and those that are set. *)
Record tokens := mkTokens { tblk : Z; slots : Z; toks : list sds }.

Definition cleanup (t : tokens) (h : heap) : comp heap :=
  let! h := for_each (fun s h => sdsfree (Some s) h) (toks t) h in free (tblk t) h.

(** [tokens[elements] = sdsnewlen (s + start, n); elements++]; NULL sends the
    caller to the cleanup. *)
Definition add_token (t : tokens) (s : list Z) (start n : Z) (h : heap) : comp (option tokens * heap) :=
  if Z.of_nat (length (toks t)) <? slots t then
    let! '(tok, h) := sdsnewlen (Some (drop (Z.to_nat start) s)) (u64 n) h in
    match tok with
    | None => let! h := cleanup t h in Ret (None, h)
    | Some tok => Ret (Some (mkTokens (tblk t) (slots t) (toks t ++ [tok])), h)
    end
  else Oob.

Definition sep_at (s : list Z) (j : Z) (sep : list Z) (seplen : Z) : comp bool :=
  let! c := rd s j in
  let! c0 := rd sep 0 in
  if (seplen =? 1) && (c =? c0) then Ret true
  else
    let! a := rd_block s j seplen in
    let! b := rd_block sep 0 seplen in
    Ret (memcmp a b =? 0).

(** Making room for the next element and the final one. *)
Definition grow_slots (t : tokens) (h : heap) : comp (option tokens * heap) :=
  let elements := Z.of_nat (length (toks t)) in
  if slots t <? elements + 2 then
    let! n := signed 32 (slots t * 2) in
    let! '(b, h) := realloc (tblk t) h in
    match b with
    | None => let! h := cleanup t h in Ret (None, h)
    | Some b => Ret (Some (mkTokens b n (toks t)), h)
    end
  else Ret (Some t, h).

Fixpoint split_loop (fuel : nat) (s : list Z) (len : Z) (sep : list Z) (seplen j start : Z) (t : tokens) (h : heap) :
    comp (option (tokens * Z) * heap) :=
  if j <? len - (seplen - 1) then
    match fuel with
    | O => NoFuel
    | S f =>
        let! '(t, h) := grow_slots t h in
        match t with
        | None => Ret (None, h)
        | Some t =>
            let! found := sep_at s j sep seplen in
            if found : bool then
              let! '(t, h) := add_token t s start (j - start) h in
              match t with
              | None => Ret (None, h)
              | Some t => split_loop f s len sep seplen (j + seplen - 1 + 1) (j + seplen) t h
              end
            else split_loop f s len sep seplen (j + 1) start t h
        end
    end
  else Ret (Some (t, start), h).

(** [len] and [seplen] are [int]s; the count is the number of the tokens. *)
Definition sdssplitlen (s : list Z) (len : Z) (sep : list Z) (seplen : Z) (h : heap) : comp (option tokens * heap) :=
  if (seplen <? 1) || (len <? 0) then Ret (None, h)
  else
    match malloc h with
    | (None, h) => Ret (None, h)
    | (Some b, h) =>
        let t := mkTokens b 5 [] in
        if len =? 0 then Ret (Some t, h)
        else
          let! '(r, h) := split_loop (Z.to_nat len) s len sep seplen 0 0 t h in
          match r with
          | None => Ret (None, h)
          | Some (t, start) => add_token t s start (len - start) h
          end
    end.

Definition sdsfreesplitres (t : option tokens) (h : heap) : comp heap :=
  match t with
  | None => Ret h
  | Some t =>
      let! h := for_each (fun s h => sdsfree (Some s) h) (rev (toks t)) h in free (tblk t) h
  end.

(** [join] may have become NULL. *)
Fixpoint join_loop {T : Type} (cat_arg : sds -> T -> heap -> comp (option sds * heap))
    (cat_sep : sds -> heap -> comp (option sds * heap)) (join : option sds) (argv : list T) (h : heap) :
    comp (option sds * heap) :=
  match argv with
  | [] => Ret (join, h)
  | x :: argv =>
      let! s := deref join in
      let! '(join, h) := cat_arg s x h in
      match argv with
      | [] => Ret (join, h)
      | _ :: _ =>
          let! s := deref join in
          let! '(join, h) := cat_sep s h in
          join_loop cat_arg cat_sep join argv h
      end
  end.

Definition sdsjoin (argv : list (list Z)) (sep : list Z) (h : heap) : comp (option sds * heap) :=
  let! '(join, h) := sdsempty h in
  join_loop sdscat (fun s h => sdscat s sep h) join argv h.

Definition sdsjoinsds (argv : list sds) (sep : list Z) (seplen : Z) (h : heap) : comp (option sds * heap) :=
  let! '(join, h) := sdsempty h in
  join_loop sdscatsds (fun s h => sdscatlen s sep seplen h) join argv h.

(** ** Quoted text *)

(** One byte of [sdscatrepr]. *)
Definition catrepr_byte (s : sds) (c : Z) (h : heap) : comp (option sds * heap) :=
  if (c =? 92) || (c =? 34) then sdscatprintf s 3 [92; c] h
  else if c =? 10 then sdscatlen s [92; 110] 2 h
  else if c =? 13 then sdscatlen s [92; 114] 2 h
  else if c =? 9 then sdscatlen s [92; 116] 2 h
  else if c =? 7 then sdscatlen s [92; 97] 2 h
  else if c =? 8 then sdscatlen s [92; 98] 2 h
  else if isprint c then sdscatprintf s 2 [c] h
  else sdscatprintf s 6 [92; 120; hex_digit (c / 16); hex_digit (c mod 16)] h.

Fixpoint catrepr_loop (s : option sds) (p : list Z) (len : nat) (h : heap) : comp (option sds * heap) :=
  match len with
  | O => Ret (s, h)
  | S len =>
      match p with
      | [] => Oob
      | c :: p =>
          let! s := deref s in
          let! '(s, h) := catrepr_byte s c h in
          catrepr_loop s p len h
      end
  end.

Definition sdscatrepr (s : sds) (p : list Z) (len : Z) (h : heap) : comp (option sds * heap) :=
  let! '(s, h) := sdscatlen s [34] 1 h in
  let! '(s, h) := catrepr_loop s p (Z.to_nat len) h in
  let! s := deref s in
  sdscatlen s [34] 1 h.

Definition hex_digit_to_int (c : Z) : Z :=
  if (48 <=? c) && (c <=? 57) then c - 48
  else if (97 <=? c) && (c <=? 102) then c - 87
  else if (65 <=? c) && (c <=? 70) then c - 55
  else 0.

(** [current = sdscatlen (current, &c, 1)] *)
Definition push (current : option sds) (c : Z) (h : heap) : comp (option sds * heap) :=
  let! s := deref current in sdscatlen s [c] 1 h.

(** One round of the loop over the characters of a token that neither ends it
    nor is an error: the place, the token and the two flags; otherwise [done]
    or [err]. *)
Inductive arg_step : Type :=
| AMore (p : Z) (current : option sds) (inq insq : bool) (h : heap)
| ADone (p : Z) (current : option sds) (h : heap)
| AErr (current : option sds) (h : heap).

Definition escape_char (c : Z) : Z :=
  if c =? 110 then 10 else if c =? 114 then 13 else if c =? 116 then 9
  else if c =? 98 then 8 else if c =? 97 then 7 else c.

(** A backslash, an x and two hexadecimal digits, tested in this order. *)
Definition hex_escape (line : list Z) (p c : Z) : comp bool :=
  if c =? 92 then
    let! c1 := rd line (p + 1) in
    if c1 =? 120 then
      let! c2 := rd line (p + 2) in
      if isxdigit c2 then let! c3 := rd line (p + 3) in Ret (isxdigit c3) else Ret false
    else Ret false
  else Ret false.

(** [p[1] && !isspace (p[1])] *)
Definition text_behind (line : list Z) (p : Z) : comp bool :=
  let! c := rd line (p + 1) in Ret (negb (c =? 0) && negb (isspace c)).

Definition in_quotes (line : list Z) (p c : Z) (current : option sds) (h : heap) : comp arg_step :=
  let! hex := hex_escape line p c in
  if hex : bool then
    let! c2 := rd line (p + 2) in
    let! c3 := rd line (p + 3) in
    let! '(current, h) := push current (u8 (hex_digit_to_int c2 * 16 + hex_digit_to_int c3)) h in
    Ret (AMore (p + 3) current true false h)
  else
    let! next := if c =? 92 then rd line (p + 1) else Ret 0 in
    if (c =? 92) && negb (next =? 0) then
      let! '(current, h) := push current (escape_char next) h in
      Ret (AMore (p + 1) current true false h)
    else if c =? 34 then
      let! bad := text_behind line p in
      Ret (if bad : bool then AErr current h else ADone p current h)
    else if c =? 0 then Ret (AErr current h)
    else
      let! '(current, h) := push current c h in
      Ret (AMore p current true false h).

Definition in_single_quotes (line : list Z) (p c : Z) (current : option sds) (h : heap) : comp arg_step :=
  let! next := if c =? 92 then rd line (p + 1) else Ret 0 in
  if (c =? 92) && (next =? 39) then
    let! '(current, h) := push current 39 h in
    Ret (AMore (p + 1) current false true h)
  else if c =? 39 then
    let! bad := text_behind line p in
    Ret (if bad : bool then AErr current h else ADone p current h)
  else if c =? 0 then Ret (AErr current h)
  else
    let! '(current, h) := push current c h in
    Ret (AMore p current false true h).

Definition unquoted (p c : Z) (current : option sds) (h : heap) : comp arg_step :=
  if (c =? 32) || (c =? 10) || (c =? 13) || (c =? 9) || (c =? 0) then Ret (ADone p current h)
  else if c =? 34 then Ret (AMore p current true false h)
  else if c =? 39 then Ret (AMore p current false true h)
  else
    let! '(current, h) := push current c h in
    Ret (AMore p current false false h).

(** [p] moves on unless it is at the terminator. *)
Definition advance (line : list Z) (p : Z) : comp Z :=
  let! c := rd line p in Ret (if c =? 0 then p else p + 1).

(** The token from [p] on, at most one round for each byte of the line. *)
Fixpoint arg_loop (fuel : nat) (line : list Z) (p : Z) (current : option sds) (inq insq : bool) (h : heap) :
    comp arg_step :=
  match fuel with
  | O => NoFuel
  | S f =>
      let! c := rd line p in
      let! r :=
        if inq then in_quotes line p c current h
        else if insq then in_single_quotes line p c current h
        else unquoted p c current h in
      match r with
      | AMore p current inq insq h => let! p := advance line p in arg_loop f line p current inq insq h
      | ADone p current h => let! p := advance line p in Ret (ADone p current h)
      | AErr current h => Ret (AErr current h)
      end
  end.

Fixpoint blanks_end (fuel : nat) (line : list Z) (p : Z) : comp Z :=
  let! c := rd line p in
  if negb (c =? 0) && isspace c then
    match fuel with
    | O => NoFuel
    | S f => blanks_end f line (p + 1)
    end
  else Ret p.

(** The arguments found so far: the block of the array and its entries, which
    may be NULL. *)
Definition args : Type := option Z * list (option sds).

Definition free_args (v : args) (h : heap) : comp heap :=
  let! h := for_each sdsfree (rev (snd v)) h in
  match fst v with
  | None => Ret h
  | Some b => free b h
  end.

(** [s_realloc (vector, ...)], of NULL at first; the token goes into it. *)
Definition add_arg (v : args) (current : option sds) (h : heap) : comp (option args * heap) :=
  let! '(b, h) := match fst v with None => Ret (malloc h) | Some b => realloc b h end in
  match b with
  | None =>
      let! h := match fst v with None => Ret h | Some b => free b h end in Ret (None, h)
  | Some b => Ret (Some (Some b, snd v ++ [current]), h)
  end.

Fixpoint args_loop (fuel : nat) (line : list Z) (p : Z) (v : args) (h : heap) : comp (option args * heap) :=
  match fuel with
  | O => NoFuel
  | S f =>
      let! p := blanks_end (length line) line p in
      let! c := rd line p in
      if c =? 0 then
        match fst v with
        | None =>
            (let '(b, h) := malloc h in
             match b with
             | None => Ret (None, h)
             | Some b => Ret (Some (Some b, snd v), h)
             end)
        | Some _ => Ret (Some v, h)
        end
      else
        let! '(current, h) := sdsempty h in
        let! r := arg_loop (S (length line)) line p current false false h in
        match r with
        | AErr current h =>
            let! h := free_args v h in
            let! h := sdsfree current h in Ret (None, h)
        | ADone p current h =>
            let! '(v, h) := add_arg v current h in
            match v with
            | None => Ret (None, h)
            | Some v => args_loop f line p v h
            end
        | AMore _ _ _ _ _ => NoFuel
        end
  end.

Definition sdssplitargs (line : list Z) (h : heap) : comp (option args * heap) :=
  args_loop (S (length line)) line 0 (None, []) h.

End split.


(** ** Arguments of a line, on lists

    The grammar that the comment of [sdssplitargs] describes: a token may
    start plain and go on in quotes, whose end must be followed by a space or
    nothing. *)

Inductive mode : Type := Plain | Quoted | Single.

Definition closed (l : list Z) : bool :=
  match l with
  | [] => true
  | d :: _ => isspace d
  end.

(** The letters behind a backslash and what they stand for. *)
Definition escape_table : list (Z * Z) := [(110, 10); (114, 13); (116, 9); (98, 8); (97, 7)].

Definition escape_meaning (x : Z) : Z :=
  match List.find (fun e => fst e =? x) escape_table with
  | Some e => snd e
  | None => x
  end.

(** The place of a character in a list, and the value of a hexadecimal digit. *)
Fixpoint place (c : Z) (l : list Z) : option Z :=
  match l with
  | [] => None
  | x :: l => if x =? c then Some 0 else Z.succ <$> place c l
  end.

Definition hex_value (c : Z) : option Z :=
  match place c [48; 49; 50; 51; 52; 53; 54; 55; 56; 57; 97; 98; 99; 100; 101; 102] with
  | Some v => Some v
  | None => place c [48; 49; 50; 51; 52; 53; 54; 55; 56; 57; 65; 66; 67; 68; 69; 70]
  end.

(** An x and two hexadecimal digits: a byte. *)
Definition hex_pair (x d1 d2 : Z) : option Z :=
  if x =? 120 then
    match hex_value d1, hex_value d2 with
    | Some a, Some b => Some (16 * a + b)
    | _, _ => None
    end
  else None.

(** The token and the text behind it. *)
Fixpoint token (m : mode) (acc l : list Z) : option (list Z * list Z) :=
  match l with
  | [] => match m with Plain => Some (acc, []) | _ => None end
  | c :: l1 =>
      match m with
      | Plain =>
          if (c =? 32) || (c =? 10) || (c =? 13) || (c =? 9) then Some (acc, l1)
          else if c =? 34 then token Quoted acc l1
          else if c =? 39 then token Single acc l1
          else token Plain (acc ++ [c]) l1
      | Quoted =>
          if c =? 92 then
            match l1 with
            | [] => None
            | x :: l2 =>
                match l2 with
                | d1 :: d2 :: l4 =>
                    match hex_pair x d1 d2 with
                    | Some b => token Quoted (acc ++ [b]) l4
                    | None => token Quoted (acc ++ [escape_meaning x]) l2
                    end
                | _ => token Quoted (acc ++ [escape_meaning x]) l2
                end
            end
          else if c =? 34 then (if closed l1 then Some (acc, l1) else None)
          else token Quoted (acc ++ [c]) l1
      | Single =>
          match l1 with
          | x :: l2 =>
              if (c =? 92) && (x =? 39) then token Single (acc ++ [39]) l2
              else if c =? 39 then (if closed l1 then Some (acc, l1) else None)
              else token Single (acc ++ [c]) l1
          | [] => if c =? 39 then Some (acc, []) else None
          end
      end
  end.

(** Every token takes a byte at least: the length of the line is fuel
    enough. *)
Fixpoint arguments (fuel : nat) (l : list Z) : option (list (list Z)) :=
  match fuel with
  | O => Some []
  | S f =>
      match drop_spaces l with
      | [] => Some []
      | l =>
          match token Plain [] l with
          | Some (t, l') => cons t <$> arguments f l'
          | None => None
          end
      end
  end.

Example arguments_example :
  arguments 20 [97; 32; 34; 98; 92; 120; 48; 48; 99; 34; 32; 39; 100; 92; 39; 101; 39] = Some [[97]; [98; 0; 99]; [100; 39; 101]].
Proof. reflexivity. Qed.

(** The tables of the code are those of the grammar. *)
Lemma escape_char_meaning x : escape_char x = escape_meaning x.
Proof.
  unfold escape_char, escape_meaning, escape_table. cbn [List.find fst snd].
  rewrite (Z.eqb_sym 110), (Z.eqb_sym 114), (Z.eqb_sym 116), (Z.eqb_sym 98), (Z.eqb_sym 97). by repeat case_match.
Qed.

Lemma place_None c l : c ∉ l -> place c l = None.
Proof.
  induction l as [|x l IH]; [done|]. rewrite not_elem_of_cons. intros [Hx Hl]. cbn [place].
  destruct (Z.eqb_spec x c); [congruence|]. by rewrite IH.
Qed.

Lemma hex_value_table :
  forallb (fun c => bool_decide (hex_value c = if isxdigit c then Some (hex_digit_to_int c) else None)) (seqZ 0 128) = true.
Proof. vm_compute. reflexivity. Qed.

Lemma hex_value_code c : hex_value c = if isxdigit c then Some (hex_digit_to_int c) else None.
Proof.
  destruct (decide (0 <= c < 128)) as [Hc|Hc].
  - pose proof hex_value_table as H. rewrite forallb_forall in H. specialize (H c).
    rewrite <- list_elem_of_In, elem_of_seqZ in H. apply (bool_decide_eq_true_1 _ (H ltac:(lia))).
  - unfold hex_value. rewrite !place_None by (rewrite !not_elem_of_cons; repeat split; try lia; apply not_elem_of_nil).
    assert (isxdigit c = false) as ->; [|done]. unfold isxdigit, isdigit. lia.
Qed.

Lemma token_backslash acc x l : token Quoted acc (92 :: x :: l) =
  match l with
  | d1 :: d2 :: l4 =>
      if (x =? 120) && isxdigit d1 && isxdigit d2
      then token Quoted (acc ++ [hex_digit_to_int d1 * 16 + hex_digit_to_int d2]) l4
      else token Quoted (acc ++ [escape_char x]) l
  | _ => token Quoted (acc ++ [escape_char x]) l
  end.
Proof.
  rewrite escape_char_meaning. cbn [token]. change (92 =? 92) with true. cbv iota. destruct l as [|d1 [|d2 l4]]; [done..|].
  unfold hex_pair. rewrite !hex_value_code. destruct (x =? 120); [|done]. destruct (isxdigit d1), (isxdigit d2); try done.
  cbn [andb]. by rewrite (Z.mul_comm 16).
Qed.

(** ** The line is read as the grammar says *)

Section reads.
Context {A : Allocator} {G : Garbage}.
Variable (h0 : heap) (rest : list Z).
Hypothesis memory : forall n, grants n = true.

Lemma granted b P m : yields m (outcome h0 b rest P) ->
  exists s' h', m = Ret (Some s', h') /\ P s' /\ acquires h0 (sblk s' :: rest) h'.
Proof.
  intros ([[s'|] h'] & -> & Ho); [destruct Ho; eauto|]. destruct Ho as [_ [n Hn]]. by rewrite memory in Hn.
Qed.

Lemma push_ok s c x h : rep s c -> acquires h0 (sblk s :: rest) h -> is_byte x -> blen c + 1 < 2 ^ 63 ->
  exists s' h', push (Some s) x h = Ret (Some s', h') /\ rep s' (c ++ [x]) /\ acquires h0 (sblk s' :: rest) h'.
Proof.
  intros Hr Ha Hx Hl. apply (granted (sblk s)). apply sdscatlen_ok; [done|done|done|by constructor|lia].
Qed.

Variable (line r : list Z).

Lemma advance_next p c t : at_pos line p (c :: t) -> c <> 0 -> advance line p = Ret (p + 1) /\ at_pos line (p + 1) t.
Proof.
  intros Hp Hc. unfold advance. rewrite (at_pos_rd _ _ _ _ Hp). cbn [cbind]. destruct (Z.eqb_spec c 0); [done|].
  split; [done|]. by apply (at_pos_next _ _ c).
Qed.

(** What stands in a C string behind a place. *)
Definition follows (l : list Z) : Z := match l with [] => 0 | x :: _ => x end.

Lemma at_pos_peek p l : at_pos line p (l ++ 0 :: r) -> rd line p = Ret (follows l).
Proof. destruct l; apply at_pos_rd. Qed.

Lemma at_pos_tail p x l : at_pos line p ((x :: l) ++ 0 :: r) -> at_pos line (p + 1) (l ++ 0 :: r).
Proof. apply at_pos_next. Qed.

Lemma hex_escape_ok p c l : at_pos line p ((c :: l) ++ 0 :: r) -> 0 ∉ l ->
  hex_escape line p c = Ret ((c =? 92) && match l with
    | x :: d1 :: d2 :: _ => (x =? 120) && isxdigit d1 && isxdigit d2
    | _ => false
    end).
Proof.
  intros Hp Hl. unfold hex_escape. destruct (c =? 92); [|done]. apply at_pos_tail in Hp. rewrite (at_pos_peek _ _ Hp). cbn [cbind andb].
  destruct l as [|x l]; [done|]. cbn [follows]. destruct (Z.eqb_spec x 120) as [->|Hx].
  2: { destruct l as [|d1 [|d2 l]]; done. }
  apply at_pos_tail in Hp. replace (p + 1 + 1) with (p + 2) in Hp by lia. rewrite (at_pos_peek _ _ Hp). cbn [cbind].
  destruct l as [|d1 l]; [done|]. cbn [follows]. destruct (isxdigit d1) eqn:E1; [|destruct l; done].
  apply at_pos_tail in Hp. replace (p + 2 + 1) with (p + 3) in Hp by lia. rewrite (at_pos_peek _ _ Hp). cbn [cbind].
  destruct l; done.
Qed.

Lemma text_behind_ok p c l : at_pos line p ((c :: l) ++ 0 :: r) -> 0 ∉ l -> text_behind line p = Ret (negb (closed l)).
Proof.
  intros Hp Hl. unfold text_behind. apply at_pos_tail in Hp. rewrite (at_pos_peek _ _ Hp). cbn [cbind].
  destruct l as [|d l]; [done|]. cbn [follows closed]. destruct (Z.eqb_spec d 0) as [->|]; [set_solver|done].
Qed.

Definition inq (m : mode) : bool := match m with Quoted => true | _ => false end.
Definition insq (m : mode) : bool := match m with Single => true | _ => false end.

(** The outcome of a token from the list function. *)
Definition token_result (o : option (list Z * list Z)) (m : comp arg_step) : Prop :=
  match o with
  | Some (t, l') => exists p' s' h', m = Ret (ADone p' (Some s') h') /\ at_pos line p' (l' ++ 0 :: r) /\ rep s' t /\
      acquires h0 (sblk s' :: rest) h'
  | None => exists s' h', m = Ret (AErr (Some s') h') /\ acquires h0 (sblk s' :: rest) h'
  end.

Lemma hex_byte d1 d2 : is_byte (hex_digit_to_int d1 * 16 + hex_digit_to_int d2).
Proof.
  assert (forall d, 0 <= hex_digit_to_int d < 16) as H.
  { intros d. unfold hex_digit_to_int. repeat case_goal; zify_bool; lia. }
  pose proof (H d1). pose proof (H d2). unfold is_byte. lia.
Qed.

Lemma escape_byte x : is_byte x -> is_byte (escape_char x).
Proof. unfold escape_char, is_byte. intros. repeat case_goal; lia. Qed.

(** One byte goes to the token, [k] bytes of the line are used. *)
Lemma push_round f p c t s acc x m h (Q : comp arg_step -> Prop) :
  rep s acc -> acquires h0 (sblk s :: rest) h -> is_byte x -> blen acc + 1 < 2 ^ 63 ->
  at_pos line p (c :: t) -> c <> 0 ->
  (forall s' h', rep s' (acc ++ [x]) -> acquires h0 (sblk s' :: rest) h' -> at_pos line (p + 1) t ->
    Q (arg_loop f line (p + 1) (Some s') (inq m) (insq m) h')) ->
  Q (let! r := (let! '(current, h) := push (Some s) x h in Ret (AMore p current (inq m) (insq m) h)) in
     match r with
     | AMore p current inq insq h => let! p := advance line p in arg_loop f line p current inq insq h
     | ADone p current h => let! p := advance line p in Ret (ADone p current h)
     | AErr current h => Ret (AErr current h)
     end).
Proof.
  intros Hr Ha Hx Hl Hp Hc HQ. destruct (push_ok s acc x h Hr Ha Hx Hl) as (s' & h' & -> & Hr' & Ha'). cbn [cbind].
  destruct (advance_next _ _ _ Hp Hc) as [-> Hp']. cbn [cbind]. by apply HQ.
Qed.

Definition token_ok (n : nat) : Prop := forall l f m p s acc h,
  (length l <= n)%nat -> (length l <= f)%nat -> 0 ∉ l -> Forall is_byte l -> rep s acc -> acquires h0 (sblk s :: rest) h ->
  blen acc + blen l < 2 ^ 62 -> at_pos line p (l ++ 0 :: r) ->
  token_result (token m acc l) (arg_loop (S f) line p (Some s) (inq m) (insq m) h).

(** The closing quote. *)
Lemma close_ok f p c l s acc h : rep s acc -> acquires h0 (sblk s :: rest) h -> at_pos line p ((c :: l) ++ 0 :: r) -> 0 ∉ c :: l ->
  token_result (if closed l then Some (acc, l) else None)
    (let! r := (let! bad := text_behind line p in Ret (if bad : bool then AErr (Some s) h else ADone p (Some s) h)) in
     match r with
     | AMore p current inq insq h => let! p := advance line p in arg_loop f line p current inq insq h
     | ADone p current h => let! p := advance line p in Ret (ADone p current h)
     | AErr current h => Ret (AErr current h)
     end).
Proof.
  intros Hr Ha Hp H0. apply not_elem_of_cons in H0 as [Hc Hl]. rewrite (text_behind_ok p c l Hp Hl). cbn [cbind].
  destruct (closed l); cbn [negb cbind].
  - destruct (advance_next p c (l ++ 0 :: r)) as [-> Hp']; [done|congruence|]. cbn [cbind]. exists (p + 1), s, h. done.
  - exists s, h. done.
Qed.

(** The end of the line: an error in quotes, the end of a plain token. *)
Lemma token_nil f m p s acc h : rep s acc -> acquires h0 (sblk s :: rest) h -> at_pos line p (0 :: r) ->
  token_result (token m acc []) (arg_loop (S f) line p (Some s) (inq m) (insq m) h).
Proof.
  intros Hr Ha Hp. cbn [arg_loop]. rewrite (at_pos_rd _ _ _ _ Hp). cbn [cbind]. destruct m; cbn [inq insq token].
  - change (unquoted p 0 (Some s) h) with (Ret (ADone p (Some s) h)). cbn [cbind]. unfold advance. rewrite (at_pos_rd _ _ _ _ Hp). cbn [cbind].
    exists p, s, h. done.
  - change (in_quotes line p 0 (Some s) h) with (Ret (AErr (Some s) h)). exists s, h. done.
  - change (in_single_quotes line p 0 (Some s) h) with (Ret (AErr (Some s) h)). exists s, h. done.
Qed.

Lemma token_plain n c l f p s acc h : token_ok n -> (length l <= n)%nat -> (length l < f)%nat -> 0 ∉ c :: l -> Forall is_byte (c :: l) ->
  rep s acc -> acquires h0 (sblk s :: rest) h -> blen acc + blen (c :: l) < 2 ^ 62 -> at_pos line p ((c :: l) ++ 0 :: r) ->
  token_result (token Plain acc (c :: l)) (arg_loop (S f) line p (Some s) false false h).
Proof.
  intros IH Hn Hf H0 Hb Hr Ha Hl Hp. pose proof Hp as Hp'. cbn [arg_loop app] in *. rewrite (at_pos_rd _ _ _ _ Hp). cbn [cbind token].
  apply not_elem_of_cons in H0 as [Hc H0]. apply Forall_cons in Hb as [Hcb Hb]. rewrite blen_cons in Hl. pose proof (blen_nonneg l).
  destruct (advance_next p c (l ++ 0 :: r) Hp) as [Eadv Hp1]; [congruence|]. unfold unquoted.
  destruct f as [|f]; [lia|]. destruct (Z.eqb_spec c 0) as [|_]; [congruence|]. rewrite orb_false_r.
  destruct ((c =? 32) || (c =? 10) || (c =? 13) || (c =? 9)); cbn [cbind].
  { rewrite Eadv. cbn [cbind]. exists (p + 1), s, h. done. }
  destruct (c =? 34); [cbn [cbind]; rewrite Eadv; apply (IH l f Quoted); (done || lia)|].
  destruct (c =? 39); [cbn [cbind]; rewrite Eadv; apply (IH l f Single); (done || lia)|].
  eapply (push_round (S f) p c (l ++ 0 :: r) s acc c Plain h (token_result _)); [done|done|done|lia|done|congruence|].
  intros s' h' Hr' Ha' _. apply (IH l f Plain); (done || lia || rewrite blen_app; change (blen [c]) with 1; lia).
Qed.

Lemma token_single n c l f p s acc h : token_ok n -> (length l <= n)%nat -> (length l < f)%nat -> 0 ∉ c :: l -> Forall is_byte (c :: l) ->
  rep s acc -> acquires h0 (sblk s :: rest) h -> blen acc + blen (c :: l) < 2 ^ 62 -> at_pos line p ((c :: l) ++ 0 :: r) ->
  token_result (token Single acc (c :: l)) (arg_loop (S f) line p (Some s) false true h).
Proof.
  intros IH Hn Hf H0 Hb Hr Ha Hl Hp. pose proof (close_ok (S (pred f)) p c l s acc h Hr Ha Hp H0) as Hclose.
  pose proof (at_pos_peek (p + 1) l (at_pos_tail _ _ _ Hp)) as Hnext.
  cbn [arg_loop app] in *. rewrite (at_pos_rd _ _ _ _ Hp). cbn [cbind token].
  apply not_elem_of_cons in H0 as [Hc H0]. apply Forall_cons in Hb as [Hcb Hb]. rewrite blen_cons in Hl. pose proof (blen_nonneg l).
  destruct (advance_next p c (l ++ 0 :: r) Hp) as [Eadv Hp1]; [congruence|].
  destruct f as [|f]; [lia|]. cbn [pred] in Hclose. unfold in_single_quotes.
  assert ((if c =? 92 then rd line (p + 1) else Ret 0) = Ret (if c =? 92 then follows l else 0)) as -> by (by destruct (c =? 92)).
  cbn [cbind]. destruct (Z.eqb_spec c 0) as [|_]; [congruence|].
  assert (token_result (if c =? 39 then (if closed l then Some (acc, l) else None) else token Single (acc ++ [c]) l)
    (let! r0 := (if c =? 39 then let! bad := text_behind line p in Ret (if bad : bool then AErr (Some s) h else ADone p (Some s) h)
                 else let! '(current, h1) := push (Some s) c h in Ret (AMore p current false true h1)) in
     match r0 with
     | AMore p current inq insq h => let! p := advance line p in arg_loop (S f) line p current inq insq h
     | ADone p current h => let! p := advance line p in Ret (ADone p current h)
     | AErr current h => Ret (AErr current h)
     end)) as Hplain.
  { destruct (c =? 39); [done|].
    eapply (push_round (S f) p c (l ++ 0 :: r) s acc c Single h (token_result _)); [done|done|done|lia|done|congruence|].
    intros s' h' Hr' Ha' _. apply (IH l f Single); (done || lia || rewrite blen_app; change (blen [c]) with 1; lia). }
  destruct l as [|x l].
  { replace ((c =? 92) && ((if c =? 92 then follows [] else 0) =? 39)) with false by (by destruct (c =? 92)). by destruct (c =? 39). }
  cbn [follows] in *. destruct (Z.eqb_spec c 92) as [->|Hc92]; [|exact Hplain]. cbn [andb].
  destruct (Z.eqb_spec x 39) as [->|Hx]; [|exact Hplain].
  eapply (push_round (S f) (p + 1) 39 (l ++ 0 :: r) s acc 39 Single h (token_result _)); [done|done|done|lia|done|done|].
  apply Forall_cons in Hb as [_ Hb]. rewrite blen_cons in *. apply not_elem_of_cons in H0 as [_ H0]. cbn [length] in *.
  intros s' h' Hr' Ha' Hp2. apply (IH l f Single); (done || lia || rewrite blen_app; change (blen [39]) with 1; lia).
Qed.

(** A backslash and what follows it in quotes. *)
Lemma token_escape n x l f p s acc h : token_ok n -> (S (length l) <= n)%nat -> (S (length l) < f)%nat -> 0 ∉ x :: l ->
  Forall is_byte (x :: l) -> rep s acc -> acquires h0 (sblk s :: rest) h -> blen acc + blen (92 :: x :: l) < 2 ^ 62 ->
  at_pos line p ((92 :: x :: l) ++ 0 :: r) ->
  token_result (token Quoted acc (92 :: x :: l)) (arg_loop (S f) line p (Some s) true false h).
Proof.
  intros IH Hn Hf H0 Hb Hr Ha Hl Hp. destruct f as [|f]; [lia|]. cbn [arg_loop]. rewrite (at_pos_peek _ _ Hp). cbn [cbind follows].
  unfold in_quotes. rewrite (hex_escape_ok p 92 (x :: l) Hp H0). cbn [cbind andb]. change (92 =? 92) with true. cbn [andb].
  pose proof Hb as Hb'. apply Forall_cons in Hb as [Hx Hb]. pose proof H0 as H0'. apply not_elem_of_cons in H0 as [Hx0 H0].
  rewrite !blen_cons in Hl. pose proof (blen_nonneg l). pose proof (at_pos_tail _ _ _ Hp) as Hp1.
  assert (token_result (token Quoted (acc ++ [escape_char x]) l)
    (let! r0 := (let! next := rd line (p + 1) in
       if negb (next =? 0) then let! '(current, h1) := push (Some s) (escape_char next) h in Ret (AMore (p + 1) current true false h1)
       else if 92 =? 34 then let! bad := text_behind line p in Ret (if bad : bool then AErr (Some s) h else ADone p (Some s) h)
       else if 92 =? 0 then Ret (AErr (Some s) h)
       else let! '(current, h1) := push (Some s) 92 h in Ret (AMore p current true false h1)) in
     match r0 with
     | AMore p current inq insq h => let! p := advance line p in arg_loop (S f) line p current inq insq h
     | ADone p current h => let! p := advance line p in Ret (ADone p current h)
     | AErr current h => Ret (AErr current h)
     end)) as Hesc.
  { rewrite (at_pos_peek _ _ Hp1). cbn [cbind follows]. destruct (Z.eqb_spec x 0); [congruence|]. cbn [negb].
    eapply (push_round (S f) (p + 1) x (l ++ 0 :: r) s acc (escape_char x) Quoted h (token_result _));
      [done|done|by apply escape_byte|lia|done|done|].
    intros s' h' Hr' Ha' Hp2. apply (IH l f Quoted); (done || lia || rewrite blen_app; change (blen [escape_char x]) with 1; lia). }
  rewrite token_backslash. destruct l as [|d1 [|d2 l4]]; [exact Hesc|exact Hesc|].
  destruct ((x =? 120) && isxdigit d1 && isxdigit d2) eqn:Ehex; [|exact Hesc].
  pose proof (at_pos_tail _ _ _ Hp1) as Hp2. pose proof (at_pos_tail _ _ _ Hp2) as Hp3.
  replace (p + 1 + 1) with (p + 2) in * by lia. replace (p + 2 + 1) with (p + 3) in * by lia.
  rewrite (at_pos_peek _ _ Hp2), (at_pos_peek _ _ Hp3). cbn [cbind follows].
  pose proof (hex_byte d1 d2) as Hhex. unfold u8. rewrite Z.mod_small by exact Hhex.
  rewrite !blen_cons in *. pose proof (blen_nonneg l4). cbn [length] in *.
  apply Forall_cons in Hb as [Hd1 Hb]. apply Forall_cons in Hb as [Hd2 Hb]. apply not_elem_of_cons in H0 as [H01 H0].
  apply not_elem_of_cons in H0 as [H02 H0].
  eapply (push_round (S f) (p + 3) d2 (l4 ++ 0 :: r) s acc _ Quoted h (token_result _)); [done|done|done|lia|done|congruence|].
  intros s' h' Hr' Ha' Hp4. apply (IH l4 f Quoted); (done || lia || rewrite blen_app; change (blen [_]) with 1; lia).
Qed.

Lemma token_quoted n c l f p s acc h : token_ok n -> (length l <= n)%nat -> (length l < f)%nat -> 0 ∉ c :: l -> Forall is_byte (c :: l) ->
  rep s acc -> acquires h0 (sblk s :: rest) h -> blen acc + blen (c :: l) < 2 ^ 62 -> at_pos line p ((c :: l) ++ 0 :: r) ->
  token_result (token Quoted acc (c :: l)) (arg_loop (S f) line p (Some s) true false h).
Proof.
  intros IH Hn Hf H0 Hb Hr Ha Hl Hp. destruct (decide (c = 92 /\ l <> [])) as [[-> Hne]|Hne].
  { destruct l as [|x l]; [done|]. apply Forall_cons in Hb as [_ Hb]. apply not_elem_of_cons in H0 as [_ H0].
    by apply (token_escape n). }
  pose proof (close_ok (S (pred f)) p c l s acc h Hr Ha Hp H0) as Hclose. pose proof (at_pos_peek (p + 1) l (at_pos_tail _ _ _ Hp)) as Hnext.
  pose proof H0 as H0'. apply not_elem_of_cons in H0 as [Hc H0]. pose proof (hex_escape_ok p c l Hp H0) as Eh.
  cbn [arg_loop]. rewrite (at_pos_peek _ _ Hp). cbn [cbind follows]. unfold in_quotes. rewrite Eh.
  assert ((c =? 92) && match l with x :: d1 :: d2 :: _ => (x =? 120) && isxdigit d1 && isxdigit d2 | _ => false end = false) as ->.
  { destruct (Z.eqb_spec c 92) as [->|]; [|done]. destruct l; [done|]. exfalso. by apply Hne. }
  cbn [cbind]. rewrite Hnext. apply Forall_cons in Hb as [Hcb Hb]. rewrite blen_cons in Hl. pose proof (blen_nonneg l).
  assert ((if c =? 92 then Ret (follows l) else Ret 0) = Ret 0) as ->.
  { destruct (Z.eqb_spec c 92) as [->|]; [|done]. destruct l; [done|]. exfalso. by apply Hne. }
  cbn [cbind]. change (negb (0 =? 0)) with false. rewrite andb_false_r. destruct (Z.eqb_spec c 0) as [|_]; [congruence|].
  destruct f as [|f]; [lia|]. cbn [pred] in Hclose.
  assert (token Quoted acc (c :: l) = if c =? 34 then (if closed l then Some (acc, l) else None) else token Quoted (acc ++ [c]) l) as ->.
  { cbn [token]. destruct (Z.eqb_spec c 92) as [->|]; [|done]. destruct l; [done|]. exfalso. by apply Hne. }
  destruct (c =? 34); [exact Hclose|].
  eapply (push_round (S f) p c (l ++ 0 :: r) s acc c Quoted h (token_result _)); [done|done|done|lia|done|congruence|].
  intros s' h' Hr' Ha' Hp1. apply (IH l f Quoted); (done || lia || rewrite blen_app; change (blen [c]) with 1; lia).
Qed.

Lemma all_tokens n : token_ok n.
Proof.
  induction n as [|n IH]; intros l f m p s acc h Hn Hf H0 Hb Hr Ha Hl Hp.
  - destruct l; [|cbn in Hn; lia]. by apply token_nil.
  - destruct l as [|c l]; [by apply token_nil|]. cbn [length] in *.
    destruct m; [apply (token_plain n)|apply (token_quoted n)|apply (token_single n)]; (done || lia).
Qed.

End reads.

(** A token uses at least a byte of the line. *)
Lemma token_suffix n : forall m acc l t l', (length l <= n)%nat -> token m acc l = Some (t, l') ->
  exists a, l = a ++ l' /\ (l <> [] -> a <> []).
Proof.
  induction n as [|n IH]; intros m acc l t l' Hn H.
  { destruct l; [|cbn in Hn; lia]. destruct m; [|done..]. injection H as <- <-. by exists []. }
  destruct l as [|c l]; [destruct m; [|done..]; injection H as <- <-; by exists []|]. cbn [length] in Hn.
  assert (forall m acc k l2, (length l2 <= n)%nat -> c :: l = k ++ l2 -> k <> [] -> token m acc l2 = Some (t, l') ->
    exists a, c :: l = a ++ l' /\ (c :: l <> [] -> a <> [])) as Hrec.
  { intros m2 acc2 k l2 Hl2 E Hk Ht. destruct (IH _ _ _ _ _ Hl2 Ht) as (a & -> & _). exists (k ++ a). rewrite E, app_assoc.
    split; [done|]. intros _. by destruct k. }
  assert (forall m acc, token m acc l = Some (t, l') -> exists a, c :: l = a ++ l' /\ (c :: l <> [] -> a <> [])) as Hnext
    by (intros; eapply (Hrec _ _ [c]); [|done|done|done]; lia).
  assert (forall (b : bool) acc, (if b then Some (acc, l) else None) = Some (t, l') -> exists a, c :: l = a ++ l' /\ (c :: l <> [] -> a <> [])) as Hclose
    by (intros [|] acc2 [= <- <-]; by exists [c]).
  destruct m; cbn [token] in H.
  - destruct (_ || _); [injection H as <- <-; by exists [c]|]. destruct (c =? 34); [by eapply Hnext|].
    destruct (c =? 39); by eapply Hnext.
  - destruct (c =? 92); [|destruct (c =? 34); [by eapply Hclose|by eapply Hnext]]. destruct l as [|x l]; [done|]. cbn [length] in Hn.
    destruct l as [|d1 [|d2 l]]; [by eapply (Hrec _ _ [c; x]); [|done|done|exact H]; cbn; lia..|]. cbn [length] in Hn.
    destruct (hex_pair _ _ _); [by eapply (Hrec _ _ [c; x; d1; d2]); [|done|done|exact H]; lia|].
    by eapply (Hrec _ _ [c; x]); [|done|done|exact H]; cbn [length]; lia.
  - destruct l as [|x l]; [destruct (c =? 39); [injection H as <- <-; by exists [c]|done]|]. cbn [length] in Hn.
    destruct (_ && _); [by eapply (Hrec _ _ [c; x]); [|done|done|exact H]; lia|].
    destruct (c =? 39); [by eapply Hclose|by eapply Hnext].
Qed.

Lemma drop_spaces_suffix l : exists a, l = a ++ drop_spaces l.
Proof.
  induction l as [|c l [a IH]]; [by exists []|]. cbn [drop_spaces]. destruct (isspace c); [|by exists []].
  exists (c :: a). cbn [app]. by f_equal.
Qed.

(** The blocks of an argument vector. *)
Definition arg_block (o : option sds) : list Z := match o with Some s => [sblk s] | None => [] end.
Definition arg_blocks (v : args) : list Z := opt_blk (fst v) ++ flat_map arg_block (snd v).

Lemma flat_map_rev {T : Type} (f : T -> list Z) l : flat_map f (rev l) ≡ₚ flat_map f l.
Proof.
  induction l as [|x l IH]; [done|]. cbn [rev flat_map]. rewrite flat_map_app. cbn [flat_map]. rewrite app_nil_r, IH.
  apply Permutation_app_comm.
Qed.

Section lines.
Context {A : Allocator} {G : Garbage}.
Variable (h0 : heap) (rest : list Z).
Hypothesis memory : forall n, grants n = true.

Lemma free_args_ok v bs h : acquires h0 (arg_blocks v ++ bs) h -> yields (free_args v h) (acquires h0 bs).
Proof.
  intros Ha. unfold free_args, arg_blocks in *. destruct v as [b l]. cbn [fst snd] in *.
  assert (acquires h0 (flat_map arg_block (rev l) ++ opt_blk b ++ bs) h) as Ha'.
  { eapply acquires_perm; [|exact Ha]. rewrite flat_map_rev, <- !app_assoc. apply Permutation_app_swap_app. }
  eapply yields_bind; [eapply (for_each_frees arg_block); [|exact Ha']|].
  - apply Forall_true. intros [s|] rest' h' H'; cbn in *; [by apply free_first|by apply yields_Ret].
  - intros h' H'. destruct b; cbn in H'; [by apply free_first|by apply yields_Ret].
Qed.

Lemma add_arg_ok v s t h : acquires h0 (sblk s :: arg_blocks v ++ rest) h -> rep s t ->
  exists b h', add_arg v (Some s) h = Ret (Some (Some b, snd v ++ [Some s]), h') /\
    acquires h0 (arg_blocks (Some b, snd v ++ [Some s]) ++ rest) h'.
Proof.
  intros Ha Hr. unfold add_arg, arg_blocks in *. destruct v as [b l]. cbn [fst snd] in *.
  assert (acquires h0 (opt_blk b ++ flat_map arg_block (l ++ [Some s]) ++ rest) h) as Ha'.
  { eapply acquires_perm; [|exact Ha]. rewrite flat_map_app. cbn. rewrite <- !app_assoc. cbn. rewrite Permutation_middle.
    apply Permutation_app_head. by rewrite Permutation_middle. }
  destruct b as [b|]; cbn [opt_blk app] in Ha'.
  - destruct (realloc_first h0 b _ h Ha') as ([[b'|] h'] & -> & H'); [|by destruct H' as [_ [n Hn]]; rewrite memory in Hn].
    cbn [cbind]. exists b', h'. done.
  - pose proof (malloc_more h0 _ h Ha') as Hm. destruct (malloc h) as [[b'|] h']; [|by destruct Hm as [_ [n Hn]]; rewrite memory in Hn].
    cbn [cbind]. exists b', h'. done.
Qed.

Variable (line r : list Z).

Lemma skip_blanks_ok l : forall fuel p, (length l <= fuel)%nat -> 0 ∉ l -> at_pos line p (l ++ 0 :: r) ->
  exists p', blanks_end fuel line p = Ret p' /\ at_pos line p' (drop_spaces l ++ 0 :: r).
Proof.
  induction l as [|c l IH]; intros fuel p Hf H0 Hp.
  - exists p. split; [|done]. destruct fuel; cbn [blanks_end]; by rewrite (at_pos_rd _ _ _ _ Hp).
  - apply not_elem_of_cons in H0 as [Hc H0]. cbn [length] in Hf. destruct fuel as [|f]; [lia|]. cbn [blanks_end drop_spaces].
    rewrite (at_pos_peek line r p (c :: l) Hp). cbn [cbind follows]. destruct (Z.eqb_spec c 0); [congruence|]. cbn [negb andb].
    destruct (isspace c); [|by exists p]. apply IH; [lia|done|]. by apply (at_pos_tail line r p c).
Qed.

Definition is_arg (o : option sds) (t : list Z) : Prop := exists s, o = Some s /\ rep s t.

Definition args_result (ts : list (list Z)) (o : option (list (list Z))) (m : comp (option args * heap)) : Prop :=
  match o with
  | Some ts' => exists v h', m = Ret (Some v, h') /\ fst v <> None /\ Forall2 is_arg (snd v) (ts ++ ts') /\ acquires h0 (arg_blocks v ++ rest) h'
  | None => exists h', m = Ret (None, h') /\ acquires h0 rest h'
  end.

(** No argument is left. *)
Lemma args_end v ts h : acquires h0 (arg_blocks v ++ rest) h -> Forall2 is_arg (snd v) ts ->
  args_result ts (Some []) (match fst v with
    | None => (let '(b, h) := malloc h in
               match b with None => Ret (None, h) | Some b => Ret (Some (Some b, snd v), h) end)
    | Some _ => Ret (Some v, h)
    end).
Proof.
  intros Ha Hv. unfold arg_blocks in Ha. destruct v as [[b|] l]; cbn [fst snd] in *.
  - exists (Some b, l), h. rewrite app_nil_r. done.
  - pose proof (malloc_more h0 _ h Ha) as Hm. destruct (malloc h) as [[b|] h']; [|by destruct Hm as [_ [n Hn]]; rewrite memory in Hn].
    exists (Some b, l), h'. rewrite app_nil_r. done.
Qed.

Lemma args_loop_ok n : forall f l p v ts h, (length l <= n)%nat -> (length l <= f)%nat -> (length l <= length line)%nat ->
  0 ∉ l -> Forall is_byte l -> blen l < 2 ^ 62 -> at_pos line p (l ++ 0 :: r) -> acquires h0 (arg_blocks v ++ rest) h ->
  Forall2 is_arg (snd v) ts -> args_result ts (arguments n l) (args_loop (S f) line p v h).
Proof.
  induction n as [|n IH]; intros f l p v ts h Hn Hf Hlen H0 Hb Hl Hp Ha Hv; cbn [args_loop arguments];
    destruct (skip_blanks_ok l (length line) p Hlen H0 Hp) as (p' & -> & Hp'); cbn [cbind]; rewrite (at_pos_peek _ _ _ _ Hp'); cbn [cbind].
  { destruct l; [|cbn in Hn; lia]. cbn [drop_spaces follows]. rewrite Z.eqb_refl. by apply args_end. }
  destruct (drop_spaces_suffix l) as [sp Esp]. assert (length (drop_spaces l) <= length l)%nat as Hd by (rewrite Esp at 2; rewrite length_app; lia).
  assert ((0 ∉ drop_spaces l) /\ Forall is_byte (drop_spaces l)) as [H0d Hbd].
  { rewrite Esp in H0, Hb. apply Forall_app in Hb as [_ Hb]. split; [set_solver|done]. }
  assert (blen (drop_spaces l) <= blen l) as Hld by (unfold blen; lia).
  destruct (drop_spaces l) as [|c l1]; [cbn [follows]; rewrite Z.eqb_refl; by apply args_end|]. cbn [follows].
  destruct (Z.eqb_spec c 0) as [->|Hc]; [set_solver|].
  destruct (sdsempty_ok h0 (arg_blocks v ++ rest) h Ha) as ([[s|] h1] & -> & H1); [|by destruct H1 as [_ [k Hk]]; rewrite memory in Hk].
  destruct H1 as [Hs H1]. cbn [cbind].
  pose proof (all_tokens h0 (arg_blocks v ++ rest) memory line r (length (c :: l1)) (c :: l1) (length line) Plain p' s [] h1) as Ht.
  specialize (Ht ltac:(lia) ltac:(lia) H0d Hbd Hs H1 ltac:(change (blen []) with 0; lia) Hp'). cbn [inq insq] in Ht.
  destruct (token Plain [] (c :: l1)) as [[t l']|] eqn:Etok; cbn [token_result] in Ht.
  - destruct Ht as (p2 & s2 & h2 & -> & Hp2 & Hr2 & H2). cbn [cbind].
    destruct (add_arg_ok v s2 t h2 H2 Hr2) as (b & h3 & -> & H3). cbn [cbind].
    destruct (token_suffix (length (c :: l1)) Plain [] (c :: l1) t l' ltac:(lia) Etok) as (a & Ea & Hane). specialize (Hane ltac:(done)).
    assert (length l' < length (c :: l1))%nat as Hl' by (rewrite Ea, length_app; destruct a; [done|cbn; lia]).
    rewrite Ea in H0d, Hbd. apply Forall_app in Hbd as [_ Hbd].
    destruct f as [|f]; [lia|].
    specialize (IH f l' p2 (Some b, snd v ++ [Some s2]) (ts ++ [t]) h3 ltac:(lia) ltac:(lia) ltac:(lia) ltac:(set_solver) Hbd ltac:(unfold blen in *; lia) Hp2 H3).
    specialize (IH ltac:(apply Forall2_app; [done|]; constructor; [by exists s2|constructor])).
    unfold args_result in *. destruct (arguments n l') as [ts'|]; cbn [fmap option_fmap option_map]; [|done].
    by rewrite <- app_assoc in IH.
  - destruct Ht as (s2 & h2 & -> & H2). cbn [cbind].
    destruct (free_args_ok v (sblk s2 :: rest) h2) as (h3 & -> & H3).
    { eapply acquires_perm; [|exact H2]. apply Permutation_middle. }
    cbn [cbind sdsfree]. destruct (free_first h0 _ _ _ H3) as (h4 & -> & H4). cbn [cbind]. by exists h4.
Qed.

End lines.

(** ** Quoting *)

Definition esc (c : Z) : list Z :=
  if (c =? 92) || (c =? 34) then [92; c]
  else if c =? 10 then [92; 110]
  else if c =? 13 then [92; 114]
  else if c =? 9 then [92; 116]
  else if c =? 7 then [92; 97]
  else if c =? 8 then [92; 98]
  else if isprint c then [c]
  else [92; 120; hex_digit (c / 16); hex_digit (c mod 16)].

Definition repr (p : list Z) : list Z := [34] ++ flat_map esc p ++ [34].

(** The arguments of a line, each behind a space; the whole line. *)
Definition quoted_rest (ps : list (list Z)) : list Z := flat_map (fun p => 32 :: repr p) ps.
Definition quoted_line (ps : list (list Z)) : list Z :=
  match ps with
  | [] => []
  | p :: ps => repr p ++ quoted_rest ps
  end.

Lemma hex_digit_char d : 0 <= d < 16 ->
  isxdigit (hex_digit d) = true /\ hex_digit_to_int (hex_digit d) = d /\ is_byte (hex_digit d) /\ hex_digit d <> 0.
Proof.
  intros Hd. unfold hex_digit, isxdigit, isdigit, hex_digit_to_int, is_byte.
  destruct (Z.ltb_spec d 10); split_and!; try lia; repeat (zcase; cbn [andb orb]); lia.
Qed.

Lemma esc_bytes c : is_byte c -> Forall (fun x => is_byte x /\ x <> 0) (esc c).
Proof.
  unfold is_byte. intros Hc. unfold esc, isprint.
  repeat case_goal; zify_bool; repeat (constructor; [unfold is_byte; split; [lia|lia]|]); try constructor.
  all: try (apply hex_digit_char; dlia). all: try lia.
  all: repeat constructor; try (apply hex_digit_char; dlia).
Qed.

Lemma blen_esc c : 1 <= blen (esc c) <= 4.
Proof. unfold esc. repeat case_goal; unfold blen; cbn; lia. Qed.

Lemma token_plain_char acc c r : c <> 92 -> c <> 34 -> token Quoted acc (c :: r) = token Quoted (acc ++ [c]) r.
Proof. intros H1 H2. cbn [token]. destruct (Z.eqb_spec c 92), (Z.eqb_spec c 34); done. Qed.

Lemma token_short_escape acc x r : x <> 120 -> r <> [] -> token Quoted acc (92 :: x :: r) = token Quoted (acc ++ [escape_char x]) r.
Proof.
  intros Hx Hr. rewrite token_backslash. destruct r as [|d1 [|d2 r]]; [done|done|].
  destruct (Z.eqb_spec x 120); done.
Qed.

(** Reading back one byte and a whole text. *)
Lemma token_esc acc c r : is_byte c -> r <> [] -> token Quoted acc (esc c ++ r) = token Quoted (acc ++ [c]) r.
Proof.
  intros Hc Hr. unfold esc. destruct ((c =? 92) || (c =? 34)) eqn:E1.
  { cbn [app]. rewrite token_short_escape by (done || (apply orb_prop in E1 as [?|?]; lia)).
    apply orb_prop in E1 as [->%Z.eqb_eq| ->%Z.eqb_eq]; done. }
  apply orb_false_elim in E1 as [E1 E2].
  repeat (match goal with |- context [if c =? ?k then _ else _] => destruct (Z.eqb_spec c k) as [->|?]; [cbn [app]; by rewrite token_short_escape|] end).
  destruct (isprint c); [apply token_plain_char; lia|]. unfold is_byte in Hc. cbn [app]. rewrite token_backslash.
  destruct (hex_digit_char (c / 16)) as (-> & -> & _); [dlia|]. destruct (hex_digit_char (c mod 16)) as (-> & -> & _); [dlia|].
  cbn [andb Z.eqb Pos.eqb]. do 3 f_equal. pose proof (Z.div_mod c 16). lia.
Qed.

Lemma token_text p r : Forall is_byte p -> forall acc, token Quoted acc (flat_map esc p ++ 34 :: r) = if closed r then Some (acc ++ p, r) else None.
Proof.
  induction 1 as [|c p Hc _ IH]; intros acc; [by rewrite app_nil_r|]. cbn [flat_map]. rewrite <- app_assoc, token_esc by (done || by destruct (flat_map esc p)).
  rewrite IH, <- app_assoc. done.
Qed.

Lemma token_repr p r : Forall is_byte p -> closed r = true -> token Plain [] (repr p ++ r) = Some (p, r).
Proof.
  intros Hp Hr. unfold repr. cbn [app]. rewrite <- app_assoc. cbn [app].
  change (token Plain [] (34 :: flat_map esc p ++ 34 :: r)) with (token Quoted [] (flat_map esc p ++ 34 :: r)).
  rewrite token_text by done. by rewrite Hr.
Qed.

Lemma closed_rest ps : closed (quoted_rest ps) = true.
Proof. by destruct ps. Qed.

Lemma arguments_repr n p ps : Forall is_byte p -> arguments (S n) (repr p ++ quoted_rest ps) = cons p <$> arguments n (quoted_rest ps).
Proof.
  intros Hp. cbn [arguments]. assert (drop_spaces (repr p ++ quoted_rest ps) = repr p ++ quoted_rest ps) as -> by done.
  pose proof (token_repr p (quoted_rest ps) Hp (closed_rest ps)) as E. cbn [repr app] in *. by rewrite E.
Qed.

Lemma arguments_rest ps : Forall (Forall is_byte) ps -> forall n, (length (quoted_rest ps) <= n)%nat -> arguments n (quoted_rest ps) = Some ps.
Proof.
  induction 1 as [|p ps Hp _ IH]; intros n Hn; [by destruct n|]. cbn [quoted_rest flat_map] in *. fold (quoted_rest ps) in *.
  cbn [app length] in Hn. rewrite length_app in Hn. destruct n as [|n]; [lia|].
  change (arguments (S n) ((32 :: repr p) ++ quoted_rest ps)) with (arguments (S n) (repr p ++ quoted_rest ps)).
  rewrite arguments_repr by done. rewrite IH; [done|]. lia.
Qed.

Lemma arguments_line ps n : Forall (Forall is_byte) ps -> (length (quoted_line ps) <= n)%nat -> arguments n (quoted_line ps) = Some ps.
Proof.
  intros Hps Hn. destruct Hps as [|p ps Hp Hps]; [by destruct n|]. cbn [quoted_line] in *. rewrite length_app in Hn.
  destruct n as [|n]; [cbn in Hn; lia|]. rewrite arguments_repr by done. rewrite arguments_rest; [done|done|]. cbn in Hn. lia.
Qed.

Lemma repr_bytes p : Forall is_byte p -> Forall (fun x => is_byte x /\ x <> 0) (repr p).
Proof.
  intros Hp. unfold repr. assert (Forall (fun x => is_byte x /\ x <> 0) [34]) as Hq by (repeat constructor; unfold is_byte; lia).
  rewrite !Forall_app. split_and!; [done| |done]. induction Hp; cbn [flat_map]; [constructor|]. apply Forall_app. split; [by apply esc_bytes|done].
Qed.

Lemma quoted_bytes ps : Forall (Forall is_byte) ps -> Forall (fun x => is_byte x /\ x <> 0) (quoted_line ps).
Proof.
  assert (forall ps, Forall (Forall is_byte) ps -> Forall (fun x => is_byte x /\ x <> 0) (quoted_rest ps)) as Hrest.
  { induction 1 as [|p qs Hp _ IH]; [constructor|]. cbn [quoted_rest flat_map app]. constructor; [unfold is_byte; lia|].
    apply Forall_app. split; [by apply repr_bytes|done]. }
  intros [|p qs Hp Hps]; [constructor|]. cbn [quoted_line]. apply Forall_app. split; [by apply repr_bytes|auto].
Qed.

Section quoting.
Context {A : Allocator} {G : Garbage}.
Variable (h0 : heap) (rest : list Z).
Hypothesis memory : forall n, grants n = true.

Lemma catlen_granted s c t h : rep s c -> acquires h0 (sblk s :: rest) h -> Forall is_byte t -> blen c + blen t < 2 ^ 63 ->
  exists s' h', sdscatlen s t (blen t) h = Ret (Some s', h') /\ rep s' (c ++ t) /\ acquires h0 (sblk s' :: rest) h'.
Proof. intros. apply (granted h0 rest memory (sblk s)). apply sdscatlen_ok; (done || apply rd_all). Qed.

Lemma catrepr_byte_ok s c x h : rep s c -> acquires h0 (sblk s :: rest) h -> is_byte x -> blen c + 4 < 2 ^ 61 ->
  exists s' h', catrepr_byte s x h = Ret (Some s', h') /\ rep s' (c ++ esc x) /\ acquires h0 (sblk s' :: rest) h'.
Proof.
  intros Hr Ha Hx Hl. pose proof (esc_bytes x Hx) as He. pose proof (blen_esc x) as Hb.
  assert (Forall is_byte (esc x)) as He' by (eapply Forall_impl; [exact He|by intros ? []]).
  assert (forall n, 0 <= n < 2 ^ 61 -> exists s' h', sdscatprintf s n (esc x) h = Ret (Some s', h') /\ rep s' (c ++ esc x) /\ acquires h0 (sblk s' :: rest) h') as Hp.
  { intros n Hn. apply (granted h0 rest memory (sblk s)). apply sdscatprintf_ok; (done || lia). }
  pose proof (catlen_granted s c (esc x) h Hr Ha He' ltac:(lia)) as Hc.
  unfold catrepr_byte. unfold esc in Hp, Hc |- *.
  repeat (match goal with |- context [if ?b then _ else _] => destruct b end; [solve [apply Hp; lia | exact Hc]|]).
  apply Hp. lia.
Qed.

Lemma catrepr_loop_ok p : forall s c h, rep s c -> acquires h0 (sblk s :: rest) h -> Forall is_byte p -> blen c + 4 * blen p + 4 < 2 ^ 61 ->
  exists s' h', catrepr_loop (Some s) p (length p) h = Ret (Some s', h') /\ rep s' (c ++ flat_map esc p) /\ acquires h0 (sblk s' :: rest) h'.
Proof.
  induction p as [|x p IH]; intros s c h Hr Ha Hp Hl; cbn [catrepr_loop length flat_map].
  { exists s, h. by rewrite app_nil_r. }
  apply Forall_cons in Hp as [Hx Hp]. rewrite blen_cons in Hl. pose proof (blen_nonneg p). cbn [deref cbind].
  destruct (catrepr_byte_ok s c x h Hr Ha Hx) as (s1 & h1 & -> & Hr1 & Ha1); [lia|]. cbn [cbind]. rewrite app_assoc.
  apply IH; [done|done|done|]. rewrite blen_app. pose proof (blen_esc x). lia.
Qed.

Lemma sdscatrepr_ok s c p h : rep s c -> acquires h0 (sblk s :: rest) h -> Forall is_byte p -> blen c + 4 * blen p + 8 < 2 ^ 61 ->
  exists s' h', sdscatrepr s p (blen p) h = Ret (Some s', h') /\ rep s' (c ++ repr p) /\ acquires h0 (sblk s' :: rest) h'.
Proof.
  intros Hr Ha Hp Hl. pose proof (blen_nonneg p). pose proof (blen_nonneg c). unfold sdscatrepr.
  assert (Forall is_byte [34]) as Hq by solve_bytes.
  destruct (catlen_granted s c [34] h Hr Ha Hq) as (s1 & h1 & E1 & Hr1 & Ha1); [change (blen [34]) with 1; lia|].
  change (blen [34]) with 1 in E1. rewrite E1. cbn [cbind]. rewrite blen_to_nat.
  destruct (catrepr_loop_ok p s1 (c ++ [34]) h1 Hr1 Ha1 Hp) as (s2 & h2 & -> & Hr2 & Ha2); [rewrite blen_app; change (blen [34]) with 1; lia|].
  cbn [cbind deref].
  assert (blen (flat_map esc p) <= 4 * blen p) as Hfm.
  { clear. induction p as [|x p IH]; [done|]. cbn [flat_map]. rewrite blen_app, blen_cons. pose proof (blen_esc x). lia. }
  destruct (catlen_granted s2 _ [34] h2 Hr2 Ha2 Hq) as (s3 & h3 & E3 & Hr3 & Ha3); [rewrite !blen_app; change (blen [34]) with 1; lia|].
  change (blen [34]) with 1 in E3. rewrite E3. exists s3, h3. split; [done|]. split; [|done]. unfold repr. by rewrite <- !app_assoc in *.
Qed.

(** Quoting a list of strings with spaces between them. *)
Fixpoint quote_more (s : sds) (ps : list (list Z)) (h : heap) : comp (option sds * heap) :=
  match ps with
  | [] => Ret (Some s, h)
  | p :: ps =>
      let! '(s, h) := sdscatlen s [32] 1 h in
      let! s := deref s in
      let! '(s, h) := sdscatrepr s p (blen p) h in
      let! s := deref s in
      quote_more s ps h
  end.

Definition quote_all (ps : list (list Z)) (h : heap) : comp (option sds * heap) :=
  let! '(s, h) := sdsempty h in
  let! s := deref s in
  match ps with
  | [] => Ret (Some s, h)
  | p :: ps =>
      let! '(s, h) := sdscatrepr s p (blen p) h in
      let! s := deref s in
      quote_more s ps h
  end.

Definition quoted_size (ps : list (list Z)) : Z := foldr (fun p n => 4 * blen p + 16 + n) 0 ps.

Lemma blen_repr p : blen (repr p) <= 4 * blen p + 2.
Proof.
  unfold repr. rewrite !blen_app. change (blen [34]) with 1. induction p as [|x p IH]; [done|]. cbn [flat_map].
  rewrite blen_app, blen_cons. pose proof (blen_esc x). lia.
Qed.

Lemma quoted_size_nonneg ps : 0 <= quoted_size ps.
Proof. induction ps as [|p ps IH]; cbn; [done|]. pose proof (blen_nonneg p). unfold quoted_size in IH. lia. Qed.

Lemma quote_more_ok ps : forall s c h, rep s c -> acquires h0 (sblk s :: rest) h -> Forall (Forall is_byte) ps -> blen c + quoted_size ps < 2 ^ 61 ->
  exists s' h', quote_more s ps h = Ret (Some s', h') /\ rep s' (c ++ quoted_rest ps) /\ acquires h0 (sblk s' :: rest) h'.
Proof.
  induction ps as [|p ps IH]; intros s c h Hr Ha Hp Hl; cbn [quote_more quoted_rest flat_map].
  { exists s, h. by rewrite app_nil_r. }
  apply Forall_cons in Hp as [Hp Hps]. change (quoted_size (p :: ps)) with (4 * blen p + 16 + quoted_size ps) in Hl.
  pose proof (quoted_size_nonneg ps). pose proof (blen_nonneg c). pose proof (blen_nonneg p).
  destruct (catlen_granted s c [32] h Hr Ha ltac:(solve_bytes)) as (s1 & h1 & E1 & Hr1 & Ha1); [change (blen [32]) with 1; lia|].
  change (blen [32]) with 1 in E1. rewrite E1. cbn [cbind deref].
  destruct (sdscatrepr_ok s1 _ p h1 Hr1 Ha1 Hp) as (s2 & h2 & -> & Hr2 & Ha2); [rewrite blen_app; change (blen [32]) with 1; lia|].
  cbn [cbind deref]. pose proof (blen_repr p).
  destruct (IH s2 ((c ++ [32]) ++ repr p) h2 Hr2 Ha2 Hps) as (s3 & h3 & -> & Hr3 & Ha3); [rewrite !blen_app; change (blen [32]) with 1; lia|].
  exists s3, h3. split; [done|]. split; [|done]. by rewrite <- !app_assoc in Hr3.
Qed.

Lemma quote_all_ok ps h : acquires h0 rest h -> Forall (Forall is_byte) ps -> quoted_size ps < 2 ^ 60 ->
  exists s h', quote_all ps h = Ret (Some s, h') /\ rep s (quoted_line ps) /\ acquires h0 (sblk s :: rest) h' /\ blen (quoted_line ps) < 2 ^ 61.
Proof.
  intros Ha Hp Hl. unfold quote_all. destruct (sdsempty_ok h0 rest h Ha) as ([[s|] h1] & -> & H1); [|by destruct H1 as [_ [k Hk]]; rewrite memory in Hk].
  destruct H1 as [Hr H1]. cbn [cbind deref]. destruct Hp as [|p ps Hp Hps]; [by exists s, h1|]. cbn [quoted_line].
  change (quoted_size (p :: ps)) with (4 * blen p + 16 + quoted_size ps) in Hl. pose proof (quoted_size_nonneg ps).
  destruct (sdscatrepr_ok s [] p h1 Hr H1 Hp) as (s2 & h2 & -> & Hr2 & Ha2); [change (blen []) with 0; lia|]. cbn [cbind deref app] in *.
  pose proof (blen_repr p). destruct (quote_more_ok ps s2 (repr p) h2 Hr2 Ha2 Hps) as (s3 & h3 & -> & Hr3 & Ha3); [lia|].
  exists s3, h3. split; [done|]. split; [done|]. split; [done|]. rewrite blen_app.
  assert (blen (quoted_rest ps) <= quoted_size ps) as Hle; [|lia].
  clear. induction ps as [|p ps IH]; [done|]. cbn [quoted_rest flat_map app]. fold (quoted_rest ps). rewrite blen_cons, blen_app.
  change (quoted_size (p :: ps)) with (4 * blen p + 16 + quoted_size ps). pose proof (blen_repr p). lia.
Qed.

(** C15: as long as memory is not refused, reading a line of arguments is the
    grammar on lists: every line is read to its end or refused, no access leaves
    it, a refused line leaves no block behind and an accepted one the array and
    its strings. *)
Theorem sdssplitargs_reads (h : heap) (l r : list Z) :
  acquires h0 rest h -> 0 ∉ l -> Forall is_byte l -> blen l < 2 ^ 62 ->
  match arguments (length l) l with
  | Some ts => exists v h', sdssplitargs (l ++ 0 :: r) h = Ret (Some v, h') /\ Forall2 is_arg (snd v) ts /\
      acquires h0 (arg_blocks v ++ rest) h'
  | None => exists h', sdssplitargs (l ++ 0 :: r) h = Ret (None, h') /\ acquires h0 rest h'
  end.
Proof.
  intros Ha H0 Hb Hl. unfold sdssplitargs.
  pose proof (args_loop_ok h0 rest memory (l ++ 0 :: r) r (length l) (length (l ++ 0 :: r)) l 0 (None, []) [] h) as H.
  rewrite length_app in H. specialize (H ltac:(lia) ltac:(lia) ltac:(lia) H0 Hb Hl (at_pos_0 _) Ha ltac:(constructor)).
  rewrite length_app. unfold args_result in H. destruct (arguments (length l) l); [|done].
  destruct H as (v & h' & ? & _ & ? & ?). eauto.
Qed.

(** C20: what [sdscatrepr] quotes, [sdssplitargs] reads back: any strings,
    whatever their bytes, quoted and separated by spaces. *)
Theorem sds_quoting_roundtrip (h : heap) (ps : list (list Z)) :
  acquires h0 rest h -> Forall (Forall is_byte) ps -> quoted_size ps < 2 ^ 60 ->
  exists s h1 v h2, quote_all ps h = Ret (Some s, h1) /\ sdssplitargs (sbuf s) h1 = Ret (Some v, h2) /\
    Forall2 is_arg (snd v) ps /\ acquires h0 (arg_blocks v ++ sblk s :: rest) h2.
Proof.
  intros Ha Hp Hl. destruct (quote_all_ok ps h Ha Hp Hl) as (s & h1 & Eq & Hr & H1 & Hlen). exists s, h1. rewrite Eq.
  pose proof (rep_buf _ _ Hr) as (sl & Eb & _). rewrite Eb.
  pose proof (quoted_bytes ps Hp) as Hqb.
  assert (0 ∉ quoted_line ps) as H0 by (intros H0; by apply (proj1 (Forall_forall _ _) Hqb) in H0 as []).
  assert (Forall is_byte (quoted_line ps)) as Hb by (eapply Forall_impl; [exact Hqb|by intros ? []]).
  pose proof (args_loop_ok h0 (sblk s :: rest) memory (quoted_line ps ++ 0 :: sl) sl (length (quoted_line ps))
    (length (quoted_line ps ++ 0 :: sl)) (quoted_line ps) 0 (None, []) [] h1) as H.
  rewrite length_app in H. specialize (H ltac:(lia) ltac:(lia) ltac:(lia) H0 Hb ltac:(lia) (at_pos_0 _) H1 ltac:(constructor)).
  rewrite arguments_line in H by (done || lia). destruct H as (v & h2 & E & _ & Hv & H2). exists v, h2.
  unfold sdssplitargs. rewrite length_app. done.
Qed.

End quoting.

(** ** Splitting and joining *)

Fixpoint join (sep : list Z) (ts : list (list Z)) : list Z :=
  match ts with
  | [] => []
  | [t] => t
  | t :: ts => t ++ sep ++ join sep ts
  end.

(** The pieces in front of the one that is being read. *)
Definition before (sep : list Z) (ts : list (list Z)) : list Z := flat_map (fun t => t ++ sep) ts.

Lemma join_snoc sep ts t : join sep (ts ++ [t]) = before sep ts ++ t.
Proof.
  induction ts as [|x ts IH]; [done|]. cbn [before flat_map]. fold (before sep ts). rewrite <- !app_assoc, <- IH. cbn [app].
  destruct ts; done.
Qed.

Lemma before_snoc sep ts t : before sep (ts ++ [t]) = before sep ts ++ t ++ sep.
Proof. unfold before. rewrite flat_map_app. cbn. by rewrite app_nil_r. Qed.

Definition occurs (sep t : list Z) : Prop := exists a b, t = a ++ sep ++ b.

(** The separator stands at a place. *)
Definition stands (sep s : list Z) (i : Z) : Prop := sub s i (blen sep) = sep.

Lemma memcmp_eq a : forall b, length a = length b -> memcmp a b = 0 -> a = b.
Proof.
  induction a as [|x a IH]; intros [|y b] Hl; try done. cbn [memcmp]. destruct (Z.eqb_spec x y) as [->|].
  - intros H. f_equal. apply IH; [by injection Hl|done].
  - destruct (x <? y); done.
Qed.

Lemma memcmp_refl a : memcmp a a = 0.
Proof. induction a as [|x a IH]; [done|]. cbn [memcmp]. by rewrite Z.eqb_refl. Qed.

Lemma sep_at_ok s j sep : 1 <= blen sep -> 0 <= j -> j + blen sep <= blen s ->
  exists b, sep_at s j sep (blen sep) = Ret b /\ (b = true <-> stands sep s j).
Proof.
  intros Hs Hj Hl. unfold sep_at, stands.
  destruct (rd_in_bounds s j ltac:(lia)) as [c Ec]. destruct (rd_in_bounds sep 0 ltac:(lia)) as [c0 Ec0]. rewrite Ec, Ec0. cbn [cbind].
  assert (rd_block s j (blen sep) = Ret (sub s j (blen sep))) as Erd by (apply rd_block_in_bounds; lia).
  rewrite Erd, rd_block_0_all. cbn [cbind]. assert (blen (sub s j (blen sep)) = blen sep) as Eln by (apply blen_sub; lia).
  destruct (Z.eqb_spec (blen sep) 1) as [E1|]; cbn [andb].
  - destruct sep as [|x [|y sep]]; [done| |rewrite !blen_cons in E1; pose proof (blen_nonneg sep); lia]. injection Ec0 as ->.
    assert (sub s j (blen [c0]) = [c]) as ->.
    { change (blen [c0]) with (0 + 1). rewrite (sub_snoc s j 0 c) by (rewrite ?Z.add_0_r; done || lia). by rewrite sub_0. }
    destruct (Z.eqb_spec c c0) as [->|Hne]; [by exists true|]. exists (memcmp [c] [c0] =? 0). split; [done|].
    cbn. destruct (Z.eqb_spec c c0); [done|]. destruct (c <? c0); (split; [done|congruence]).
  - exists (memcmp (sub s j (blen sep)) sep =? 0). split; [done|]. rewrite Z.eqb_eq. split.
    + apply memcmp_eq. unfold blen in *. lia.
    + intros E. rewrite E at 1. apply memcmp_refl.
Qed.

(** A piece in which the separator was looked for in vain. *)
Lemma no_occurrence sep a t b i0 : i0 = blen a -> 1 <= blen sep ->
  (forall i, i0 <= i -> i + blen sep <= i0 + blen t -> ~ stands sep (a ++ t ++ b) i) -> ~ occurs sep t.
Proof.
  intros -> Hs H (u & v & ->). pose proof (blen_nonneg u). pose proof (blen_nonneg v).
  apply (H (blen (a ++ u))); [blia|blia|]. unfold stands.
  replace (a ++ (u ++ sep ++ v) ++ b) with ((a ++ u) ++ sep ++ v ++ b) by (by rewrite <- !app_assoc). apply sub_app_mid.
Qed.

Section splitting.
Context {A : Allocator} {G : Garbage}.
Variable (h0 : heap) (rest : list Z).

Definition tok_blocks (t : tokens) : list Z := tblk t :: map sblk (toks t).

Lemma flat_map_single {T : Type} (f : T -> Z) l : flat_map (fun x => [f x]) l = map f l.
Proof. induction l as [|x l IH]; [done|]. cbn. by f_equal. Qed.

Lemma free_tokens l b bs h : acquires h0 (b :: map sblk l ++ bs) h ->
  yields (let! h := for_each (fun s h => sdsfree (Some s) h) l h in free b h) (acquires h0 bs).
Proof.
  intros Ha. assert (acquires h0 (flat_map (fun s => [sblk s]) l ++ b :: bs) h) as Ha'.
  { rewrite flat_map_single. eapply acquires_perm; [|exact Ha]. apply Permutation_middle. }
  eapply yields_bind; [eapply (for_each_frees (fun s => [sblk s])); [|exact Ha']|].
  - apply Forall_true. intros s rest' h' H'. by apply free_first.
  - intros h' H'. by apply free_first.
Qed.

Lemma cleanup_ok t h : acquires h0 (tok_blocks t ++ rest) h -> yields (cleanup t h) (acquires h0 rest).
Proof. apply (free_tokens (toks t) (tblk t)). Qed.

(** What a step that may run out of memory leaves. *)
Definition step_result {T : Type} (P : T -> heap -> Prop) (r : option T * heap) : Prop :=
  match r with
  | (Some x, h') => P x h'
  | (None, h') => acquires h0 rest h' /\ starved
  end.

Definition tok_state (s sep : list Z) (t : tokens) (ts : list (list Z)) : Prop :=
  Forall2 rep (toks t) ts /\ Forall (fun x => ~ occurs sep x) ts.

(** The place of the current piece: behind [length ts] pieces with their
    separators; the separator does not stand between [start] and [j]. *)
Record scanning (s sep : list Z) (j start : Z) (t : tokens) (ts : list (list Z)) : Prop := {
  sc_toks : Forall2 rep (toks t) ts;
  sc_free : Forall (fun x => ~ occurs sep x) ts;
  sc_pos : at_pos s start (drop (Z.to_nat start) s) /\ take (Z.to_nat start) s = before sep ts;
  sc_range : Z.of_nat (length ts) <= start <= j;
  sc_slots : Z.of_nat (length ts) + 1 <= slots t <= Z.max 5 (4 * (Z.of_nat (length ts) + 1));
  sc_none : forall i, start <= i < j -> ~ stands sep s i
}.

Lemma add_token_ok t ts s start n h : acquires h0 (tok_blocks t ++ rest) h -> Forall2 rep (toks t) ts ->
  Forall is_byte s -> 0 <= start -> 0 <= n -> start + n <= blen s -> blen s < 2 ^ 63 -> Z.of_nat (length ts) < slots t ->
  yields (add_token t s start n h) (step_result (fun t' h' =>
    acquires h0 (tok_blocks t' ++ rest) h' /\ Forall2 rep (toks t') (ts ++ [sub s start n]) /\ slots t' = slots t)).
Proof.
  intros Ha Ht Hb Hs Hn Hl Hl2 Hslots. unfold add_token. rewrite (Forall2_length _ _ _ Ht).
  destruct (Z.ltb_spec (Z.of_nat (length ts)) (slots t)); [|lia]. unfold u64. rewrite Z.mod_small by lia.
  assert (rd_block (drop (Z.to_nat start) s) 0 n = Ret (sub s start n)) as Erd.
  { rewrite rd_block_in_bounds by (rewrite ?blen_drop; lia). done. }
  eapply yields_bind; [apply (sdsnewlen_ok h0 (tok_blocks t ++ rest) (Some (drop (Z.to_nat start) s)) n (sub s start n));
    [done|lia|by apply sub_Forall|exact Erd]|].
  intros [[tok|] h1] Ho; destruct Ho as [H1 H2].
  - apply yields_Ret. split; [|split; [|done]].
    + assert (tok_blocks (mkTokens (tblk t) (slots t) (toks t ++ [tok])) ++ rest = tok_blocks t ++ sblk tok :: rest) as ->
        by (unfold tok_blocks; cbn; by rewrite map_app, <- app_assoc).
      eapply acquires_perm; [|exact H2]. apply (Permutation_middle (tok_blocks t) rest).
    + cbn [toks]. apply Forall2_app; [done|]. by constructor.
  - eapply yields_bind; [by apply cleanup_ok|]. intros h2 H3. by apply yields_Ret.
Qed.

Lemma grow_slots_ok s sep j start t ts h : acquires h0 (tok_blocks t ++ rest) h -> scanning s sep j start t ts -> start < 2 ^ 28 ->
  yields (grow_slots t h) (step_result (fun t' h' =>
    acquires h0 (tok_blocks t' ++ rest) h' /\ scanning s sep j start t' ts /\ Z.of_nat (length ts) + 2 <= slots t')).
Proof.
  intros Ha Hsc Hst. pose proof Hsc as [H1 H2 H3 H4 H5 H6]. unfold grow_slots. rewrite (Forall2_length _ _ _ H1).
  destruct (Z.ltb_spec (slots t) (Z.of_nat (length ts) + 2)); [|apply yields_Ret; split; [done|split; [done|lia]]].
  unfold signed. destruct (Z.leb_spec (- 2 ^ (32 - 1)) (slots t * 2)); [|lia]. destruct (Z.ltb_spec (slots t * 2) (2 ^ (32 - 1))); [|lia].
  cbn [andb cbind]. eapply yields_bind; [by apply (realloc_first h0 (tblk t) (map sblk (toks t) ++ rest))|]. intros [[b|] h1] Ho.
  - apply yields_Ret. split; [done|]. split; [|cbn [slots]; lia]. split; cbn [toks slots]; (done || lia).
  - destruct Ho as [Ho Hst']. eapply yields_bind; [by apply cleanup_ok|]. intros h2 Hc. by apply yields_Ret.
Qed.

(** A piece ends at a separator. *)
Lemma scanning_found s sep j start t ts t' : scanning s sep j start t ts -> 1 <= blen sep -> j + blen sep <= blen s -> stands sep s j ->
  Z.of_nat (length ts) + 2 <= slots t -> Forall2 rep (toks t') (ts ++ [sub s start (j - start)]) -> slots t' = slots t ->
  scanning s sep (j + blen sep) (j + blen sep) t' (ts ++ [sub s start (j - start)]).
Proof.
  intros [H1 H2 [H3 H3'] H4 H5 H6] Hs Hl Hst Hsl Ht' Hsl'.
  assert (take (Z.to_nat j) s = take (Z.to_nat start) s ++ sub s start (j - start)) as Etj.
  { unfold sub. replace (Z.to_nat j) with (Z.to_nat start + Z.to_nat (j - start))%nat by lia. by rewrite take_take_drop. }
  assert (take (Z.to_nat (j + blen sep)) s = take (Z.to_nat j) s ++ sep) as Etk.
  { replace (Z.to_nat (j + blen sep)) with (Z.to_nat j + Z.to_nat (blen sep))%nat by lia. rewrite <- take_take_drop. f_equal. exact Hst. }
  split; [done| | | | |].
  - apply Forall_app. split; [done|]. constructor; [|done].
    assert (blen (take (Z.to_nat start) s) = start) as Els by (rewrite blen_take; lia).
    assert (blen (sub s start (j - start)) = j - start) as Ele by (apply blen_sub; lia).
    apply (no_occurrence sep (take (Z.to_nat start) s) _ (drop (Z.to_nat j) s) start); [done|done|].
    rewrite app_assoc, <- Etj, take_drop, Ele. intros i Hi1 Hi2. apply H6. lia.
  - split; [|rewrite before_snoc, Etk, Etj, H3'; by rewrite <- app_assoc].
    split; [lia|done].
  - rewrite length_app. cbn [length]. lia.
  - rewrite Hsl', length_app. cbn [length]. lia.
  - intros i Hi. lia.
Qed.

Lemma scanning_next s sep j start t ts : scanning s sep j start t ts -> ~ stands sep s j -> scanning s sep (j + 1) start t ts.
Proof.
  intros [H1 H2 H3 H4 H5 H6] Hj. split; [done|done|done|lia|done|]. intros i Hi. destruct (Z.eq_dec i j) as [->|]; [done|]. apply H6. lia.
Qed.

Lemma split_loop_ok s sep : Forall is_byte s -> 1 <= blen sep -> blen s < 2 ^ 28 ->
  forall fuel j start t ts h, blen s <= j + Z.of_nat fuel -> acquires h0 (tok_blocks t ++ rest) h -> scanning s sep j start t ts ->
  yields (split_loop fuel s (blen s) sep (blen sep) j start t h) (step_result (fun r h' =>
    exists ts', acquires h0 (tok_blocks (fst r) ++ rest) h' /\
      scanning s sep (Z.max (blen s - (blen sep - 1)) (snd r)) (snd r) (fst r) ts' /\ snd r <= blen s)).
Proof.
  intros Hb Hs Hl. induction fuel as [|f IH]; intros j start t ts h Hf Ha Hsc; cbn [split_loop];
    destruct (Z.ltb_spec j (blen s - (blen sep - 1))) as [Hj|Hj].
  - lia.
  - apply yields_Ret. exists ts. split; [done|]. pose proof (at_pos_len _ _ _ (proj1 (sc_pos _ _ _ _ _ _ Hsc))) as Hlen.
    split; [|cbn [snd]; pose proof (blen_nonneg (drop (Z.to_nat start) s)); lia]. destruct Hsc as [H1 H2 H3 H4 H5 H6]. split; [done|done|done|cbn [snd]; lia|done|].
    intros i Hi. apply H6. cbn [snd] in Hi. lia.
  - pose proof (sc_range _ _ _ _ _ _ Hsc) as Hrg. eapply yields_bind; [apply (grow_slots_ok s sep j start t ts); (done || lia)|].
    intros [[t1|] h1] Hg; [|by apply yields_Ret]. destruct Hg as (Ha1 & Hsc1 & Hsl).
    destruct (sep_at_ok s j sep Hs ltac:(lia) ltac:(lia)) as ([|] & -> & Hb'); cbn [cbind].
    + pose proof (proj1 Hb' eq_refl) as Hst.
      eapply yields_bind; [apply (add_token_ok t1 ts s start (j - start)); [done|apply Hsc1|done|lia..]|].
      intros [[t2|] h2] Hadd; [|by apply yields_Ret]. destruct Hadd as (Ha2 & Ht2 & Hsl2).
      replace (j + blen sep - 1 + 1) with (j + blen sep) by lia. eapply IH; [lia|done|].
      eapply scanning_found; [exact Hsc1|done|lia|done|done|done|done].
    + eapply IH; [lia|done|]. apply scanning_next; [done|]. intros Hst. by apply Hb' in Hst.
  - apply yields_Ret. exists ts. split; [done|]. pose proof (at_pos_len _ _ _ (proj1 (sc_pos _ _ _ _ _ _ Hsc))) as Hlen.
    split; [|cbn [snd]; pose proof (blen_nonneg (drop (Z.to_nat start) s)); lia]. destruct Hsc as [H1 H2 H3 H4 H5 H6]. split; [done|done|done|cbn [snd]; lia|done|].
    intros i Hi. apply H6. cbn [snd] in Hi. lia.
Qed.
Lemma sub_rest s start : 0 <= start <= blen s -> sub s start (blen s - start) = drop (Z.to_nat start) s.
Proof. intros H. unfold sub. apply take_ge. rewrite length_drop. unfold blen in *. lia. Qed.

(** The pieces of a string: joined with the separator they are the string,
    and none contains the separator. *)
Definition pieces (s sep : list Z) (ts : list (list Z)) : Prop := join sep ts = s /\ Forall (fun x => ~ occurs sep x) ts.

Lemma sdssplitlen_ok s sep h : acquires h0 rest h -> Forall is_byte s -> 1 <= blen sep -> blen s < 2 ^ 28 ->
  yields (sdssplitlen s (blen s) sep (blen sep) h) (step_result (fun t h' =>
    exists ts, Forall2 rep (toks t) ts /\ pieces s sep ts /\ acquires h0 (tok_blocks t ++ rest) h')).
Proof.
  intros Ha Hb Hs Hl. pose proof (blen_nonneg s). unfold sdssplitlen.
  destruct (Z.ltb_spec (blen sep) 1); [lia|]. destruct (Z.ltb_spec (blen s) 0); [lia|]. cbn [orb].
  pose proof (malloc_more h0 _ _ Ha) as Hm. destruct (malloc h) as [[b|] h1]; [|by apply yields_Ret].
  destruct (Z.eqb_spec (blen s) 0) as [E0|Hne].
  { apply yields_Ret. exists []. split; [constructor|]. split; [|done]. split; [|constructor].
    destruct s; [done|rewrite blen_cons in E0; pose proof (blen_nonneg s); lia]. }
  assert (scanning s sep 0 0 (mkTokens b 5 []) []) as Hsc.
  { split; cbn; [constructor|constructor| |lia|lia|intros; lia]. split; [|done]. split; [lia|done]. }
  eapply yields_bind; [apply (split_loop_ok s sep Hb Hs Hl (Z.to_nat (blen s)) 0 0 _ [] h1); [lia|exact Hm|exact Hsc]|].
  intros [[[t start]|] h2] Hloop; [|by apply yields_Ret]. destruct Hloop as (ts & Ha2 & Hsc2 & Hst). cbn [fst snd] in *.
  pose proof Hsc2 as [S1 S2 [S3 S3'] S4 S5 S6].
  eapply yields_mono; [apply (add_token_ok t ts s start (blen s - start)); (done || lia)|].
  intros [[t'|] h3] Hadd; [|done]. destruct Hadd as (Ha3 & Ht3 & _). exists (ts ++ [sub s start (blen s - start)]).
  split; [done|]. split; [|done]. rewrite sub_rest in * by lia. split; [rewrite join_snoc, <- S3'; apply take_drop|].
  apply Forall_app. split; [done|]. constructor; [|constructor].
  apply (no_occurrence sep (take (Z.to_nat start) s) _ [] start); [rewrite blen_take; lia|done|].
  rewrite app_nil_r, take_drop, blen_drop. intros i Hi1 Hi2. apply S6. lia.
Qed.

Lemma sdsfreesplitres_ok t h : acquires h0 (tok_blocks t ++ rest) h -> yields (sdsfreesplitres (Some t) h) (acquires h0 rest).
Proof.
  intros Ha. unfold sdsfreesplitres. apply (free_tokens (rev (toks t)) (tblk t)). eapply acquires_perm; [|exact Ha].
  cbn. apply Permutation_skip, Permutation_app_tail. rewrite map_rev. apply Permutation_rev.
Qed.

Hypothesis memory : forall n, grants n = true.

Lemma join_loop_ok sep toks : Forall is_byte sep -> forall ts s c h, Forall2 rep toks ts -> rep s c -> acquires h0 (sblk s :: rest) h ->
  blen c + blen (join sep ts) < 2 ^ 62 ->
  exists s' h', join_loop sdscatsds (fun s h => sdscatlen s sep (blen sep) h) (Some s) toks h = Ret (Some s', h') /\
    rep s' (c ++ join sep ts) /\ acquires h0 (sblk s' :: rest) h'.
Proof.
  intros Hsep. induction toks as [|tok toks IH]; intros ts s c h Ht Hr Ha Hl; inversion Ht as [|? t ? ts' Hrt Ht']; subst; cbn [join_loop].
  { exists s, h. by rewrite app_nil_r. }
  cbn [deref cbind]. assert (blen t <= blen (join sep (t :: ts'))) as Hlt.
  { cbn [join]. destruct ts'; [lia|]. rewrite blen_app. pose proof (blen_nonneg (sep ++ join sep (l :: ts'))). lia. }
  destruct (granted h0 rest memory _ _ _ (sdscatsds_ok h0 rest s c tok t h Hr Hrt Ha ltac:(lia))) as (s1 & h1 & -> & Hr1 & Ha1). cbn [cbind].
  destruct toks as [|tok2 toks]; [inversion Ht'; subst; by exists s1, h1|]. destruct ts' as [|t2 ts']; [inversion Ht'|]. cbn [deref cbind].
  assert (join sep (t :: t2 :: ts') = t ++ sep ++ join sep (t2 :: ts')) as Ej by done. rewrite Ej, !blen_app in Hl.
  pose proof (blen_nonneg sep). pose proof (blen_nonneg (join sep (t2 :: ts'))).
  destruct (granted h0 rest memory _ _ _ (sdscatlen_ok h0 rest s1 (c ++ t) sep (blen sep) sep h1 Hr1 Ha1 (rd_all sep) Hsep ltac:(rewrite blen_app; lia)))
    as (s2 & h2 & -> & Hr2 & Ha2). cbn [cbind].
  destruct (IH (t2 :: ts') s2 ((c ++ t) ++ sep) h2 Ht' Hr2 Ha2) as (s3 & h3 & -> & Hr3 & Ha3); [rewrite !blen_app; lia|].
  exists s3, h3. split; [done|]. split; [|done]. rewrite Ej. by rewrite <- !app_assoc in *.
Qed.

Lemma sdsjoinsds_ok toks ts sep h : acquires h0 rest h -> Forall2 rep toks ts -> Forall is_byte sep -> blen (join sep ts) < 2 ^ 62 ->
  exists s' h', sdsjoinsds toks sep (blen sep) h = Ret (Some s', h') /\ rep s' (join sep ts) /\ acquires h0 (sblk s' :: rest) h'.
Proof.
  intros Ha Ht Hsep Hl. unfold sdsjoinsds. destruct (sdsempty_ok h0 rest h Ha) as ([[s|] h1] & -> & H1); [|by destruct H1 as [_ [k Hk]]; rewrite memory in Hk].
  destruct H1 as [Hr H1]. cbn [cbind]. by apply (join_loop_ok sep toks Hsep ts s [] h1).
Qed.
End splitting.

Section pieces.
Context {A : Allocator} {G : Garbage}.

(** [sdssplitlen] cuts a string into pieces that do not contain the
    separator and that [sdsjoinsds] joins to the string again;
    [sdsfreesplitres] gives every block of the pieces back. *)
Theorem sds_split_join (h0 : heap) (rest : list Z) (h : heap) (s sep : list Z) :
  (forall n, grants n = true) -> acquires h0 rest h -> Forall is_byte s -> Forall is_byte sep -> 1 <= blen sep -> blen s < 2 ^ 28 ->
  exists t h1 j h2 h3, sdssplitlen s (blen s) sep (blen sep) h = Ret (Some t, h1) /\
    sdsjoinsds (toks t) sep (blen sep) h1 = Ret (Some j, h2) /\ rep j s /\
    (exists ts, Forall2 rep (toks t) ts /\ Forall (fun x => ~ occurs sep x) ts) /\
    sdsfreesplitres (Some t) h2 = Ret h3 /\ acquires h0 (sblk j :: rest) h3.
Proof.
  intros Hm Ha Hb Hsep Hs Hl.
  destruct (sdssplitlen_ok h0 rest s sep h Ha Hb Hs Hl) as ([[t|] h1] & E1 & H1); [|by destruct H1 as [_ [n Hn]]; rewrite Hm in Hn].
  destruct H1 as (ts & Ht & [Hj Hf] & H1).
  destruct (sdsjoinsds_ok h0 (tok_blocks t ++ rest) Hm (toks t) ts sep h1 H1 Ht Hsep) as (j & h2 & E2 & Hr & H2); [rewrite Hj; lia|].
  assert (acquires h0 (tok_blocks t ++ sblk j :: rest) h2) as H2'.
  { eapply acquires_perm; [|exact H2]. apply (Permutation_middle (tok_blocks t) rest). }
  destruct (sdsfreesplitres_ok h0 (sblk j :: rest) t h2 H2') as (h3 & E3 & H3).
  exists t, h1, j, h2, h3. rewrite Hj in Hr. split; [done|]. split; [done|]. split; [done|]. split; [by exists ts|done].
Qed.
End pieces.

(** ** Witnesses *)

#[local] Instance plenty_text : Allocator := plenty.
#[local] Instance junk_text : Garbage := fun _ _ => 170.

Lemma sdssplitargs_reads_witness :
  exists v h', sdssplitargs ([97; 32; 34; 98; 92; 120; 48; 48; 34] ++ 0 :: []) no_blocks = Ret (Some v, h') /\
    Forall2 is_arg (snd v) [[97]; [98; 0]] /\ acquires no_blocks (arg_blocks v ++ []) h'.
Proof.
  apply (sdssplitargs_reads no_blocks [] (fun _ => eq_refl) no_blocks [97; 32; 34; 98; 92; 120; 48; 48; 34] []).
  - apply no_blocks_ok.
  - set_solver.
  - solve_bytes.
  - done.
Defined.

Lemma sds_quoting_roundtrip_witness :
  exists s h1 v h2, quote_all [[97; 0; 34]; []; [200; 32]] no_blocks = Ret (Some s, h1) /\ sdssplitargs (sbuf s) h1 = Ret (Some v, h2) /\
    Forall2 is_arg (snd v) [[97; 0; 34]; []; [200; 32]] /\ acquires no_blocks (arg_blocks v ++ sblk s :: []) h2.
Proof.
  apply (sds_quoting_roundtrip no_blocks [] (fun _ => eq_refl)).
  - apply no_blocks_ok.
  - repeat (constructor; [solve_bytes|]). constructor.
  - done.
Defined.

Lemma sds_split_join_witness :
  exists t h1 j h2 h3, sdssplitlen [97; 45; 95; 45; 98; 45; 95] 7 [45; 95] 2 no_blocks = Ret (Some t, h1) /\
    sdsjoinsds (toks t) [45; 95] 2 h1 = Ret (Some j, h2) /\ rep j [97; 45; 95; 45; 98; 45; 95] /\
    (exists ts, Forall2 rep (toks t) ts /\ Forall (fun x => ~ occurs [45; 95] x) ts) /\
    sdsfreesplitres (Some t) h2 = Ret h3 /\ acquires no_blocks (sblk j :: []) h3.
Proof.
  apply (sds_split_join no_blocks [] no_blocks [97; 45; 95; 45; 98; 45; 95] [45; 95]); [done|apply no_blocks_ok|solve_bytes|solve_bytes|done|done].
Defined.

(** ** Out of memory

    The array cannot be had: the text of the argument is lost.  The string
    cannot be had: NULL is followed. *)

Definition refuses (n : Z) : Allocator := fun k => negb (k =? n).

Lemma sdssplitargs_leaks :
  match @sdssplitargs (refuses 2) junk_text [97; 0] no_blocks with
  | Ret (None, h) => size (live h) = 1%nat
  | _ => False
  end.
Proof. vm_compute. reflexivity. Qed.

Lemma sdssplitargs_follows_null : @sdssplitargs (refuses 0) junk_text [97; 0] no_blocks = Oob.
Proof. vm_compute. reflexivity. Qed.
