(* ===== verification/Reader.v ===== *)
(** * The reply reader of hiredis

    hiredis/read.c: the parser that turns the bytes of a Redis connection,
    fed in any pieces, into replies made by the callbacks of
    [redisReplyObjectFunctions].  Memory is the heap and a state [S] of the
    callbacks; a pointer into the read buffer is an offset, a task points to
    its parent by its place on the task stack, and [Oob] also stands for a
    failed [assert] in a build without NDEBUG. *)

From stdpp Require Import gmap.
From Stdlib Require Import SpecFloat String Ascii.
From S2P Require Import Prelude Cstdlib Heap Sds.

#[local] Open Scope Z_scope.
#[local] Set Warnings "-clear-no-such-hyp".
#[local] Arguments cbind {A B} !m k /.

(** The bytes of a string literal. *)
Definition text (s : string) : list Z := map (fun a => Z.of_N (N_of_ascii a)) (list_ascii_of_string s).

(** Whether the build defines NDEBUG. *)
Class Ndebug := ndebug : bool.

Definition assert {N : Ndebug} (b : bool) : comp unit := if ndebug || b then Ret tt else Oob.

Definition REDIS_OK : Z := 0.
Definition REDIS_ERR : Z := -1.
Definition REDIS_ERR_PROTOCOL : Z := 4.
Definition REDIS_ERR_OOM : Z := 5.
Definition REDIS_REPLY_STRING : Z := 1.
Definition REDIS_REPLY_ARRAY : Z := 2.
Definition REDIS_REPLY_INTEGER : Z := 3.
Definition REDIS_REPLY_NIL : Z := 4.
Definition REDIS_REPLY_STATUS : Z := 5.
Definition REDIS_REPLY_ERROR : Z := 6.
Definition REDIS_REPLY_DOUBLE : Z := 7.
Definition REDIS_REPLY_BOOL : Z := 8.
Definition REDIS_REPLY_MAP : Z := 9.
Definition REDIS_REPLY_SET : Z := 10.
Definition REDIS_REPLY_PUSH : Z := 12.
Definition REDIS_REPLY_VERB : Z := 14.
Definition REDIS_READER_MAX_BUF : Z := 1024 * 16.
Definition REDIS_READER_MAX_ARRAY_ELEMENTS : Z := 2 ^ 32 - 1.
Definition REDIS_READER_STACK_SIZE : Z := 9.
Definition SIZE_MAX : Z := 2 ^ 64 - 1.
Definition ULLONG_MAX : Z := 2 ^ 64 - 1.
Definition LLONG_MAX : Z := 2 ^ 63 - 1.

(** A reply that is not NULL: the callbacks make blocks, and without
    callbacks it is the type of the item, cast to a pointer. *)
Inductive object : Type :=
| Tag (z : Z)
| Block (b : Z).

Record redisReadTask := mkTask {
  ttype : Z;
  telements : Z;
  tidx : Z;
  tobj : option object;
  tparent : option nat;
  tprivdata : Z
}.

(** [calloc] *)
Definition no_task : redisReadTask := mkTask 0 0 0 None None 0.

Definition with_type (t : redisReadTask) (x : Z) : redisReadTask :=
  mkTask x (telements t) (tidx t) (tobj t) (tparent t) (tprivdata t).

Section reader.
Context {A : Allocator} {G : Garbage} {N : Ndebug} {S : Type}.

Definition world : Type := heap * S.

Definition create : Type := redisReadTask -> option redisReadTask -> world -> comp (option object * world).

(** A callback gets the task and what its parent pointer leads to; a string is
    what follows the pointer, and its length. *)
Record redisReplyObjectFunctions := mkFunctions {
  createString : option (list Z -> Z -> create);
  createArray : option (Z -> create);
  createInteger : option (Z -> create);
  createDouble : option (spec_float -> list Z -> Z -> create);
  createNil : option create;
  createBool : option (Z -> create);
  freeObject : option (option object -> world -> comp world)
}.

(** The array of pointers, with its size, and the tasks they point to. *)
Record tasks := mkTasks {
  tblk : Z;
  tcap : Z;
  titems : list (Z * redisReadTask)
}.

Record redisReader := mkReader {
  rblk : Z;
  err : Z;
  errstr : list Z;
  buf : option sds;
  pos : Z;
  len : Z;
  maxbuf : Z;
  maxelements : Z;
  task : option tasks;
  ridx : Z;
  reply : option object;
  fn : option redisReplyObjectFunctions;
  privdata : Z
}.

Definition with_error (r : redisReader) (e : Z) (s : list Z) : redisReader :=
  mkReader (rblk r) e s (buf r) (pos r) (len r) (maxbuf r) (maxelements r) (task r) (ridx r) (reply r) (fn r) (privdata r).
Definition with_buffer (r : redisReader) (b : option sds) (p n : Z) : redisReader :=
  mkReader (rblk r) (err r) (errstr r) b p n (maxbuf r) (maxelements r) (task r) (ridx r) (reply r) (fn r) (privdata r).
Definition with_pos (r : redisReader) (p : Z) : redisReader := with_buffer r (buf r) p (len r).
Definition with_task (r : redisReader) (t : option tasks) : redisReader :=
  mkReader (rblk r) (err r) (errstr r) (buf r) (pos r) (len r) (maxbuf r) (maxelements r) t (ridx r) (reply r) (fn r) (privdata r).
Definition with_ridx (r : redisReader) (i : Z) : redisReader :=
  mkReader (rblk r) (err r) (errstr r) (buf r) (pos r) (len r) (maxbuf r) (maxelements r) (task r) i (reply r) (fn r) (privdata r).
Definition with_reply (r : redisReader) (o : option object) : redisReader :=
  mkReader (rblk r) (err r) (errstr r) (buf r) (pos r) (len r) (maxbuf r) (maxelements r) (task r) (ridx r) o (fn r) (privdata r).

(** [r->fn && r->fn->f] *)
Definition callback {C : Type} (r : redisReader) (f : redisReplyObjectFunctions -> option C) : option C :=
  match fn r with
  | Some fs => f fs
  | None => None
  end.

Definition free_object (r : redisReader) (o : option object) (w : world) : comp (option world) :=
  match callback r freeObject with
  | Some f => let! w := f o w in Ret (Some w)
  | None => Ret None
  end.

(** ** The task stack *)

Definition task_at (r : redisReader) (i : Z) : comp redisReadTask :=
  let! ts := deref (task r) in
  if 0 <=? i then let! t := deref (titems ts !! Z.to_nat i) in Ret t.2 else Oob.

Definition put_task (r : redisReader) (i : Z) (t : redisReadTask) : comp redisReader :=
  let! ts := deref (task r) in
  let! old := (if 0 <=? i then deref (titems ts !! Z.to_nat i) else Oob) in
  Ret (with_task r (Some (mkTasks (tblk ts) (tcap ts) (<[Z.to_nat i := (old.1, t)]> (titems ts))))).

(** [r->tasks], the number of tasks allocated. *)
Definition ntasks (r : redisReader) : Z :=
  match task r with
  | Some ts => Z.of_nat (length (titems ts))
  | None => 0
  end.

(** What a callback sees of the current task. *)
Definition current (r : redisReader) : comp (redisReadTask * option redisReadTask) :=
  let! cur := task_at r (ridx r) in
  match tparent cur with
  | None => Ret (cur, None)
  | Some i => let! p := task_at r (Z.of_nat i) in Ret (cur, Some p)
  end.

(** ** Errors *)

Definition __redisReaderSetError (r : redisReader) (type : Z) (str : list Z) (w : world) : comp (redisReader * world) :=
  let! '(r, w) :=
    match reply r with
    | Some o =>
        let! w' := free_object r (Some o) w in
        Ret (match w' with Some w' => (with_reply r None, w') | None => (r, w) end)
    | None => Ret (r, w)
    end in
  let! h := sdsfree (buf r) w.1 in
  let r := with_ridx (with_buffer r None 0 0) (-1) in
  let n := blen str in
  let n := if n <? 127 then n else 127 in
  Ret (with_error r type (sub str 0 n), (h, w.2)).

(** [snprintf] of at most [size] bytes: the text that is stored. *)
Definition snprintf (size : Z) (s : list Z) : list Z := sub s 0 (Z.min (blen s) (size - 1)).

(** The quoted character, as stored and its length. *)
Definition chrtos (size byte : Z) : list Z * Z :=
  let quoted s := (snprintf size ([34] ++ s ++ [34]), blen s + 2) in
  if (byte =? 92) || (byte =? 34) then quoted [92; byte]
  else if byte =? 10 then quoted (text "\n")
  else if byte =? 13 then quoted (text "\r")
  else if byte =? 9 then quoted (text "\t")
  else if byte =? 7 then quoted (text "\a")
  else if byte =? 8 then quoted (text "\b")
  else if isprint (i8 byte) then quoted [byte]
  else quoted (text "\x" ++ [hex_digit (byte / 16); hex_digit (byte mod 16)]).

(** The message of an unknown type byte. *)
Definition byte_error (byte : Z) : list Z :=
  snprintf 128 (text "Protocol error, got " ++ (chrtos 8 byte).1 ++ text " as reply type byte").

Definition __redisReaderSetErrorProtocolByte (r : redisReader) (byte : Z) (w : world) : comp (redisReader * world) :=
  __redisReaderSetError r REDIS_ERR_PROTOCOL (byte_error byte) w.

Definition __redisReaderSetErrorOOM (r : redisReader) (w : world) : comp (redisReader * world) :=
  __redisReaderSetError r REDIS_ERR_OOM (text "Out of memory") w.

(** The outcome of a step: status, reader and memory. *)
Definition step : Type := Z * redisReader * world.

Definition fails (m : comp (redisReader * world)) : comp step :=
  let! '(r, w) := m in Ret (REDIS_ERR, r, w).

Definition protocol_error (r : redisReader) (msg : string) (w : world) : comp step :=
  fails (__redisReaderSetError r REDIS_ERR_PROTOCOL (text msg) w).

(** ** Reading from the buffer *)

(** The bytes of the read buffer. *)
Definition bytes (r : redisReader) : comp (list Z) := let! s := deref (buf r) in Ret (sbuf s).

Definition readBytes (r : redisReader) (n : Z) : option Z * redisReader :=
  if n <=? u64 (len r - pos r) then (Some (pos r), with_pos r (u64 (pos r + n))) else (None, r).

End reader.

Section scan.
Context (b : list Z).

(** The loops of [seekNewline] on the bytes from [s] on. *)
Fixpoint seek_cr (fuel : nat) (s pos _len : Z) : comp Z :=
  match fuel with
  | O => NoFuel
  | S f =>
      if pos <? _len then
        let! c := rd b (s + pos) in
        if c =? 13 then Ret pos else seek_cr f s (pos + 1) _len
      else Ret pos
  end.

Fixpoint seek_loop (fuel : nat) (s pos _len : Z) : comp (option Z) :=
  match fuel with
  | O => NoFuel
  | S f =>
      if pos <? _len then
        let! pos := seek_cr (S f) s pos _len in
        if pos =? _len then Ret None
        else
          let! c := rd b (s + pos + 1) in
          if c =? 10 then Ret (Some (s + pos)) else seek_loop f s (pos + 1) _len
      else Ret None
  end.

Definition seekNewline (s len : Z) : comp (option Z) :=
  let _len := i32 (u64 (len - 1)) in
  seek_loop (S (Z.to_nat _len)) s 0 _len.

(** The digits from [p] on; [None] is an overflow of [unsigned long long]. *)
Fixpoint ll_digits (fuel : nat) (p plen slen v : Z) : comp (option (Z * Z)) :=
  match fuel with
  | O => NoFuel
  | S f =>
      if plen <? slen then
        let! c := rd b p in
        if isdigit c then
          if ULLONG_MAX / 10 <? v then Ret None
          else
            let v := u64 (v * 10) in
            if ULLONG_MAX - (c - 48) <? v then Ret None
            else ll_digits f (p + 1) (plen + 1) slen (u64 (v + (c - 48)))
        else Ret (Some (plen, v))
      else Ret (Some (plen, v))
  end.

(** The number, or [None] for REDIS_ERR; the callers all want the value. *)
Definition string2ll (s slen : Z) : comp (option Z) :=
  if 0 =? slen then Ret None
  else
    let! c0 := rd b s in
    if (slen =? 1) && (c0 =? 48) then Ret (Some 0)
    else
      let negative := c0 =? 45 in
      let p := if negative then s + 1 else s in
      let plen := if negative then 1 else 0 in
      if negative && (plen =? slen) then Ret None
      else
        let! c := rd b p in
        if (49 <=? c) && (c <=? 57) then
          let! d := ll_digits (Z.to_nat slen) (p + 1) (plen + 1) slen (c - 48) in
          match d with
          | None => Ret None
          | Some (plen, v) =>
              if plen <? slen then Ret None
              else if negative then
                if 2 ^ 63 <? v then Ret None else Ret (Some (i64 (u64 (- v))))
              else if LLONG_MAX <? v then Ret None
              else Ret (Some v)
          end
        else if (c =? 48) && (slen =? 1) then Ret (Some 0)
        else Ret None.

End scan.

Section reading.
Context {A : Allocator} {G : Garbage} {N : Ndebug} {S : Type}.
#[local] Abbreviation redisReader := (@redisReader S).
#[local] Abbreviation world := (@world S).
#[local] Abbreviation step := (@step S).

(** The line from [pos] on, without its end, and its length. *)
Definition readLine (r : redisReader) : comp (option (Z * Z) * redisReader) :=
  let! b := bytes r in
  let! s := seekNewline b (pos r) (u64 (len r - pos r)) in
  match s with
  | Some s =>
      let n := i32 (s - pos r) in
      Ret (Some (pos r, n), with_pos r (u64 (pos r + n + 2)))
  | None => Ret (None, r)
  end.

Definition is_aggregate (t : Z) : bool :=
  (t =? REDIS_REPLY_ARRAY) || (t =? REDIS_REPLY_MAP) || (t =? REDIS_REPLY_SET) || (t =? REDIS_REPLY_PUSH).

Fixpoint next_task (fuel : nat) (r : redisReader) : comp redisReader :=
  match fuel with
  | O => NoFuel
  | Datatypes.S f =>
      if 0 <=? ridx r then
        if ridx r =? 0 then Ret (with_ridx r (ridx r - 1))
        else
          let! cur := task_at r (ridx r) in
          let! prv := task_at r (ridx r - 1) in
          let! _ := assert (is_aggregate (ttype prv)) in
          if tidx cur =? telements prv - 1 then next_task f (with_ridx r (ridx r - 1))
          else
            let! _ := assert (tidx cur <? telements prv) in
            let! i := signed 32 (tidx cur + 1) in
            put_task r (ridx r) (mkTask (-1) (-1) i (tobj cur) (tparent cur) (tprivdata cur))
      else Ret r
  end.

Definition moveToNextTask (r : redisReader) : comp redisReader := next_task (Datatypes.S (Datatypes.S (Z.to_nat (ridx r)))) r.

(** A callback, or [dflt] where there is none. *)
Definition make (f : option create) (dflt : Z) (r : redisReader) (w : world) : comp (option object * world) :=
  match f with
  | Some f => let! '(cur, par) := current r in f cur par w
  | None => Ret (Some (Tag dflt), w)
  end.

(** The end of an item that is not an aggregate. *)
Definition item_done (r : redisReader) (obj : option object) (w : world) : comp step :=
  match obj with
  | None => fails (__redisReaderSetErrorOOM r w)
  | Some o =>
      let r := if ridx r =? 0 then with_reply r (Some o) else r in
      let! r := moveToNextTask r in
      Ret (REDIS_OK, r, w)
  end.

Definition isnan (d : spec_float) : bool := match d with S754_nan => true | _ => false end.

(** The value of a double: [str] is the text before the first NUL of a copy. *)
Definition double_value (str : list Z) : option spec_float :=
  if strcaseeq str (text ",inf") then Some (S754_infinity false)
  else if strcaseeq str (text ",-inf") then Some (S754_infinity true)
  else
    let '(e, d) := strtod_hex str in
    if bool_decide (str = []) || negb (bool_decide (e = [])) || isnan d then None else Some d.

Definition processLineItem (r : redisReader) (w : world) : comp step :=
  let! cur := task_at r (ridx r) in
  let! '(line, r) := readLine r in
  match line with
  | None => Ret (REDIS_ERR, r, w)
  | Some (p, len) =>
      let! b := bytes r in
      let finish f dflt := let! '(obj, w) := make f dflt r w in item_done r obj w in
      if ttype cur =? REDIS_REPLY_INTEGER then
        match callback r createInteger with
        | Some f =>
            let! v := string2ll b p len in
            match v with
            | None => protocol_error r "Bad integer value" w
            | Some v => finish (Some (f v)) REDIS_REPLY_INTEGER
            end
        | None => finish None REDIS_REPLY_INTEGER
        end
      else if ttype cur =? REDIS_REPLY_DOUBLE then
        match callback r createDouble with
        | Some f =>
            if 326 <=? u64 len then protocol_error r "Double value is too large" w
            else
              let! s := rd_block b p len in
              match double_value (cstr s) with
              | None => protocol_error r "Bad double value" w
              | Some d => finish (Some (f d (s ++ [0]) len)) REDIS_REPLY_DOUBLE
              end
        | None => finish None REDIS_REPLY_DOUBLE
        end
      else if ttype cur =? REDIS_REPLY_NIL then finish (callback r createNil) REDIS_REPLY_NIL
      else if ttype cur =? REDIS_REPLY_BOOL then
        let! c := rd b p in
        let bval := if (c =? 116) || (c =? 84) then 1 else 0 in
        finish ((fun f => f bval) <$> callback r createBool) REDIS_REPLY_BOOL
      else finish ((fun f => f (drop (Z.to_nat p) b) len) <$> callback r createString) (ttype cur)
  end.

(** What follows the length of a bulk item: [Some None] is NULL from a
    callback, [None] an incomplete item. *)
Definition processBulkItem (r : redisReader) (w : world) : comp step :=
  let! cur := task_at r (ridx r) in
  let! b := bytes r in
  let p := pos r in
  let! s := seekNewline b p (u64 (len r - pos r)) in
  match s with
  | None => Ret (REDIS_ERR, r, w)
  | Some s =>
      let bytelen := u64 (s - pos r + 2) in
      let! n := string2ll b p (u64 (bytelen - 2)) in
      let finish f dflt bytelen :=
        let! '(obj, w) := make f dflt r w in
        match obj with
        | None => fails (__redisReaderSetErrorOOM r w)
        | Some o => item_done (with_pos r (u64 (pos r + bytelen))) (Some o) w
        end in
      match n with
      | None => protocol_error r "Bad bulk string length" w
      | Some n =>
          if n <? -1 then protocol_error r "Bulk string length out of range" w
          else if n =? -1 then finish (callback r createNil) REDIS_REPLY_NIL bytelen
          else
            let bytelen := u64 (bytelen + u64 (i64 (n + 2))) in
            if u64 (pos r + bytelen) <=? len r then
              let! bad :=
                if ttype cur =? REDIS_REPLY_VERB then
                  if n <? 4 then Ret true else let! c := rd b (s + 5) in Ret (negb (c =? 58))
                else Ret false in
              if bad : bool then
                protocol_error r "Verbatim string 4 bytes of content type are missing or incorrectly encoded." w
              else finish ((fun f => f (drop (Z.to_nat (s + 2)) b) n) <$> callback r createString) (ttype cur) bytelen
            else Ret (REDIS_ERR, r, w)
      end
  end.

(** [while (r->tasks < newlen)] with a [calloc] for each task; [false] when one fails. *)
Fixpoint grow_loop (fuel : nat) (ts : tasks) (newlen : Z) (h : heap) : comp (bool * tasks * heap) :=
  match fuel with
  | O => NoFuel
  | Datatypes.S f =>
      if Z.of_nat (length (titems ts)) <? newlen then
        if Z.of_nat (length (titems ts)) <? tcap ts then
          match malloc h with
          | (Some b, h) => grow_loop f (mkTasks (tblk ts) (tcap ts) (titems ts ++ [(b, no_task)])) newlen h
          | (None, h) => Ret (false, ts, h)
          end
        else Oob
      else Ret (true, ts, h)
  end.

Definition redisReaderGrow (r : redisReader) (w : world) : comp step :=
  let! ts := deref (task r) in
  let! newlen := signed 32 (ntasks r + REDIS_READER_STACK_SIZE) in
  let! '(aux, h) := realloc (tblk ts) w.1 in
  match aux with
  | None => fails (__redisReaderSetErrorOOM r (h, w.2))
  | Some aux =>
      let! '(ok, ts, h) := grow_loop (Datatypes.S (Z.to_nat newlen)) (mkTasks aux newlen (titems ts)) newlen h in
      let r := with_task r (Some ts) in
      if ok : bool then Ret (REDIS_OK, r, (h, w.2)) else fails (__redisReaderSetErrorOOM r (h, w.2))
  end.

Definition processAggregateItem (r : redisReader) (w : world) : comp step :=
  let! cur := task_at r (ridx r) in
  let! '(ok, r, w) := if ridx r =? ntasks r - 1 then redisReaderGrow r w else Ret (REDIS_OK, r, w) in
  if ok =? REDIS_ERR then Ret (REDIS_ERR, r, w)
  else
    let! '(line, r) := readLine r in
    match line with
    | None => Ret (REDIS_ERR, r, w)
    | Some (p, len) =>
        let! b := bytes r in
        let! n := string2ll b p len in
        match n with
        | None => protocol_error r "Bad multi-bulk length" w
        | Some elements =>
            let root := ridx r =? 0 in
            let set_root r o := if root then with_reply r (Some o) else r in
            if (elements <? -1) || ((0 <? maxelements r) && (maxelements r <? elements)) then
              protocol_error r "Multi-bulk length out of range" w
            else if elements =? -1 then
              let! '(obj, w) := make (callback r createNil) REDIS_REPLY_NIL r w in
              match obj with
              | None => fails (__redisReaderSetErrorOOM r w)
              | Some o => let! r := moveToNextTask r in Ret (REDIS_OK, set_root r o, w)
              end
            else
              let! elements := if ttype cur =? REDIS_REPLY_MAP then signed 64 (elements * 2) else Ret elements in
              let! '(obj, w) := make ((fun f => f (u64 elements)) <$> callback r createArray) (ttype cur) r w in
              match obj with
              | None => fails (__redisReaderSetErrorOOM r w)
              | Some o =>
                  if 0 <? elements then
                    let! r := put_task r (ridx r) (mkTask (ttype cur) elements (tidx cur) (Some o) (tparent cur) (tprivdata cur)) in
                    let! i := signed 32 (ridx r + 1) in
                    let r := with_ridx r i in
                    let! r := put_task r i (mkTask (-1) (-1) 0 None (Some (Z.to_nat (i - 1))) (privdata r)) in
                    Ret (REDIS_OK, set_root r o, w)
                  else
                    let! r := moveToNextTask r in Ret (REDIS_OK, set_root r o, w)
              end
        end
    end.

(** The type that a type byte stands for. *)
Definition type_of_byte (c : Z) : option Z :=
  if c =? 45 then Some REDIS_REPLY_ERROR
  else if c =? 43 then Some REDIS_REPLY_STATUS
  else if c =? 58 then Some REDIS_REPLY_INTEGER
  else if c =? 44 then Some REDIS_REPLY_DOUBLE
  else if c =? 95 then Some REDIS_REPLY_NIL
  else if c =? 36 then Some REDIS_REPLY_STRING
  else if c =? 42 then Some REDIS_REPLY_ARRAY
  else if c =? 37 then Some REDIS_REPLY_MAP
  else if c =? 126 then Some REDIS_REPLY_SET
  else if c =? 35 then Some REDIS_REPLY_BOOL
  else if c =? 61 then Some REDIS_REPLY_VERB
  else if c =? 62 then Some REDIS_REPLY_PUSH
  else None.

(** The switch over the type of the current task. *)
Definition process_typed (type : Z) (r : redisReader) (w : world) : comp step :=
  if (type =? REDIS_REPLY_ERROR) || (type =? REDIS_REPLY_STATUS) || (type =? REDIS_REPLY_INTEGER) ||
     (type =? REDIS_REPLY_DOUBLE) || (type =? REDIS_REPLY_NIL) || (type =? REDIS_REPLY_BOOL) then processLineItem r w
  else if (type =? REDIS_REPLY_STRING) || (type =? REDIS_REPLY_VERB) then processBulkItem r w
  else if is_aggregate type then processAggregateItem r w
  else let! _ := assert false in Ret (REDIS_ERR, r, w).

Definition processItem (r : redisReader) (w : world) : comp step :=
  let! cur := task_at r (ridx r) in
  if ttype cur <? 0 then
    match readBytes r 1 with
    | (None, r) => Ret (REDIS_ERR, r, w)
    | (Some p, r) =>
        let! b := bytes r in
        let! c := rd b p in
        match type_of_byte c with
        | None => fails (__redisReaderSetErrorProtocolByte r c w)
        | Some t =>
            let! r := put_task r (ridx r) (with_type cur t) in
            process_typed t r w
        end
    end
  else process_typed (ttype cur) r w.

(** ** The interface *)

Definition hi_free_all (ts : list (Z * redisReadTask)) (h : heap) : comp heap := for_each (fun t h => free t.1 h) ts h.

Definition redisReaderFree (r : option redisReader) (w : world) : comp world :=
  match r with
  | None => Ret w
  | Some r =>
      let! w :=
        match reply r with
        | Some o => let! w' := free_object r (Some o) w in Ret (default w w')
        | None => Ret w
        end in
      let! h :=
        match task r with
        | Some ts => let! h := hi_free_all (titems ts) w.1 in free (tblk ts) h
        | None => Ret w.1
        end in
      let! h := sdsfree (buf r) h in
      let! h := free (rblk r) h in
      Ret (h, w.2)
  end.

Definition redisReaderCreateWithFunctions (fns : option redisReplyObjectFunctions) (w : world) : comp (option redisReader * world) :=
  match malloc w.1 with
  | (None, h) => Ret (None, (h, w.2))
  | (Some b, h) =>
      let r := mkReader b 0 [] None 0 0 0 0 None 0 None None 0 in
      let oom r h := let! w := redisReaderFree (Some r) (h, w.2) in Ret (None, w) in
      let! '(s, h) := sdsempty h in
      match s with
      | None => oom r h
      | Some s =>
          let r := with_buffer r (Some s) 0 0 in
          match malloc h with
          | (None, h) => oom r h
          | (Some tb, h) =>
              let! '(ok, ts, h) := grow_loop 10 (mkTasks tb REDIS_READER_STACK_SIZE []) REDIS_READER_STACK_SIZE h in
              let r := with_task r (Some ts) in
              if ok : bool then
                Ret (Some (mkReader (rblk r) (err r) (errstr r) (buf r) (pos r) (len r) REDIS_READER_MAX_BUF
                             REDIS_READER_MAX_ARRAY_ELEMENTS (task r) (-1) (reply r) fns (privdata r)), (h, w.2))
              else oom r h
          end
      end
  end.

(** [buf] is not NULL and holds at least [n] bytes. *)
Definition redisReaderFeed (r : redisReader) (data : option (list Z)) (n : Z) (w : world) : comp step :=
  if negb (err r =? 0) then Ret (REDIS_ERR, r, w)
  else
    match data with
    | Some data =>
        if 1 <=? n then
          let! s0 := deref (buf r) in
          let! '(r, h) :=
            if (len r =? 0) && negb (maxbuf r =? 0) && (maxbuf r <? sdsavail s0) then
              let! h := sdsfree (Some s0) w.1 in
              let! '(s, h) := sdsempty h in
              Ret (with_buffer r s (match s with Some _ => 0 | None => pos r end) (len r), h)
            else Ret (r, w.1) in
          match buf r with
          | None => fails (__redisReaderSetErrorOOM r (h, w.2))
          | Some s =>
              let! '(newbuf, h) := sdscatlen s data n h in
              match newbuf with
              | None => fails (__redisReaderSetErrorOOM r (h, w.2))
              | Some s => Ret (REDIS_OK, with_buffer r (Some s) (pos r) (sdslen s), (h, w.2))
              end
          end
        else Ret (REDIS_OK, r, w)
    | None => Ret (REDIS_OK, r, w)
    end.

(** [while (r->ridx >= 0) if (processItem(r) != REDIS_OK) break;] *)
Fixpoint process_items (fuel : nat) (r : redisReader) (w : world) : comp (redisReader * world) :=
  match fuel with
  | O => NoFuel
  | Datatypes.S f =>
      if 0 <=? ridx r then
        let! '(ok, r, w) := processItem r w in
        if ok =? REDIS_OK then process_items f r w else Ret (r, w)
      else Ret (r, w)
  end.

(** The reader may stop once per byte. *)
Definition item_rounds (r : redisReader) : nat := Datatypes.S (Datatypes.S (Z.to_nat (len r - pos r))).

(** Status and reply; [want] tells whether the caller gave a place for it. *)
Definition redisReaderGetReply (want : bool) (r : redisReader) (w : world) : comp (Z * option object * redisReader * world) :=
  if negb (err r =? 0) then Ret (REDIS_ERR, None, r, w)
  else if len r =? 0 then Ret (REDIS_OK, None, r, w)
  else
    let! r :=
      if ridx r =? -1 then
        let! r := put_task r 0 (mkTask (-1) (-1) (-1) None None (privdata r)) in
        Ret (with_ridx r 0)
      else Ret r in
    let! '(r, w) := process_items (item_rounds r) r w in
    if negb (err r =? 0) then Ret (REDIS_ERR, None, r, w)
    else
      let! '(ok, r) :=
        if 1024 <=? pos r then
          let! s := deref (buf r) in
          let! '(x, s) := sdsrange s (i64 (pos r)) (-1) in
          if x <? 0 then Ret (false, with_buffer r (Some s) (pos r) (len r))
          else Ret (true, with_buffer r (Some s) 0 (sdslen s))
        else Ret (true, r) in
      if negb (ok : bool) then Ret (REDIS_ERR, None, r, w)
      else if ridx r =? -1 then
        if want then Ret (REDIS_OK, reply r, with_reply r None, w)
        else
          let! w :=
            match reply r with
            | Some o => let! w' := free_object r (Some o) w in Ret (default w w')
            | None => Ret w
            end in
          Ret (REDIS_OK, None, with_reply r None, w)
      else Ret (REDIS_OK, None, r, w).

End reading.
