(* ===== verification/Reply.v ===== *)
(** * Reply objects of hiredis

    hiredis/hiredis.c, the functions that make and free the [redisReply]
    objects: the callbacks that [redisReaderCreate] gives to the reader.  The
    state of the callbacks is the store of the objects, by their block; the
    strings and element vectors are in the objects, with their own blocks. *)

From stdpp Require Import gmap.
From Stdlib Require Import SpecFloat.
From S2P Require Import Prelude Cstdlib Heap Sds Reader.

#[local] Open Scope Z_scope.
#[local] Set Warnings "-clear-no-such-hyp".
#[local] Arguments cbind {A B} !m k /.

Record redisReply := mkReply {
  rtype : Z;
  integer : Z;
  dval : spec_float;
  rlen : Z;
  str : option (Z * list Z);
  vtype : list Z;
  elements : Z;
  element : option (Z * list (option Z))
}.

Definition store : Type := gmap Z redisReply.

#[local] Abbreviation world := (@world store).

(** [calloc] *)
Definition zero_reply (type : Z) : redisReply := mkReply type 0 (S754_zero false) 0 None [0; 0; 0; 0] 0 None.

Definition with_integer (r : redisReply) (v : Z) : redisReply :=
  mkReply (rtype r) v (dval r) (rlen r) (str r) (vtype r) (elements r) (element r).
Definition with_dval (r : redisReply) (d : spec_float) : redisReply :=
  mkReply (rtype r) (integer r) d (rlen r) (str r) (vtype r) (elements r) (element r).
Definition with_str (r : redisReply) (n : Z) (s : option (Z * list Z)) : redisReply :=
  mkReply (rtype r) (integer r) (dval r) n s (vtype r) (elements r) (element r).
Definition with_vtype (r : redisReply) (v : list Z) : redisReply :=
  mkReply (rtype r) (integer r) (dval r) (rlen r) (str r) v (elements r) (element r).
Definition with_elements (r : redisReply) (n : Z) (e : option (Z * list (option Z))) : redisReply :=
  mkReply (rtype r) (integer r) (dval r) (rlen r) (str r) (vtype r) n e.

Definition put_reply (b : Z) (r : redisReply) (w : world) : world := (w.1, <[b := r]> w.2).

Definition has_str (type : Z) : bool :=
  (type =? REDIS_REPLY_ERROR) || (type =? REDIS_REPLY_STATUS) || (type =? REDIS_REPLY_STRING) ||
  (type =? REDIS_REPLY_DOUBLE) || (type =? REDIS_REPLY_VERB).

Section objects.
Context {A : Allocator} {G : Garbage} {N : Ndebug}.

(** [hi_calloc], which refuses sizes beyond [size_t]. *)
Definition hi_calloc (n size : Z) (h : heap) : option Z * heap :=
  if SIZE_MAX <? n * size then (None, h) else malloc h.

Definition hi_malloc (w : world) : option Z * world := let '(b, h) := malloc w.1 in (b, (h, w.2)).

Definition hi_free (b : Z) (w : world) : comp world := let! h := free b w.1 in Ret (h, w.2).

Definition createReplyObject (type : Z) (w : world) : option Z * world :=
  match hi_malloc w with
  | (Some b, w) => (Some b, put_reply b (zero_reply type) w)
  | (None, w) => (None, w)
  end.

(** [freeReplyObject] with the depth of the recursion as fuel; the inner loop
    runs over [element]. *)
Fixpoint free_reply (fuel : nat) (reply : option Z) (w : world) : comp world :=
  match fuel with
  | O => NoFuel
  | Datatypes.S f =>
      match reply with
      | None => Ret w
      | Some b =>
          let! r := deref (w.2 !! b) in
          let! w :=
            if is_aggregate (rtype r) then
              match element r with
              | Some (eb, ps) =>
                  let! w := (fix loop (k j : nat) (w : world) : comp world :=
                               match k with
                               | O => Ret w
                               | Datatypes.S k => let! p := deref (ps !! j) in let! w := free_reply f p w in loop k (Datatypes.S j) w
                               end) (Z.to_nat (elements r)) 0%nat w in
                  hi_free eb w
              | None => Ret w
              end
            else if has_str (rtype r) then
              match str r with
              | Some (sb, _) => hi_free sb w
              | None => Ret w
              end
            else Ret w in
          let! w := hi_free b w in
          Ret (w.1, delete b w.2)
      end
  end.

(** No recursion is deeper than the number of objects. *)
Definition freeReplyObject (reply : option Z) (w : world) : comp world := free_reply (Datatypes.S (size w.2)) reply w.

(** [parent->element[task->idx] = r] where the task has a parent; [push] tells
    whether the assertion lists REDIS_REPLY_PUSH. *)
Definition set_element (push : bool) (task : redisReadTask) (parent : option redisReadTask) (b : Z) (w : world) : comp world :=
  match parent with
  | None => Ret w
  | Some p =>
      let! o := deref (tobj p) in
      match o with
      | Tag _ => Oob
      | Block pb =>
          let! parent := deref (w.2 !! pb) in
          let! _ := assert (is_aggregate (rtype parent) && (push || negb (rtype parent =? REDIS_REPLY_PUSH))) in
          let! '(eb, ps) := deref (element parent) in
          if (0 <=? tidx task) && (tidx task <? Z.of_nat (length ps)) then
            Ret (put_reply pb (with_elements parent (elements parent) (Some (eb, <[Z.to_nat (tidx task) := Some b]> ps))) w)
          else Oob
      end
  end.

(** The common end of the callbacks: [b] becomes [r] and gets into its parent. *)
Definition created_reply (push : bool) (task : redisReadTask) (parent : option redisReadTask) (b : Z) (r : redisReply) (w : world) :
  comp (option object * world) :=
  let! w := set_element push task parent b (put_reply b r w) in Ret (Some (Block b), w).

Definition createStringObject (text : list Z) (len : Z) (task : redisReadTask) (parent : option redisReadTask) (w : world) :
  comp (option object * world) :=
  match createReplyObject (ttype task) w with
  | (None, w) => Ret (None, w)
  | (Some b, w) =>
      let! _ := assert ((ttype task =? REDIS_REPLY_ERROR) || (ttype task =? REDIS_REPLY_STATUS) ||
                        (ttype task =? REDIS_REPLY_STRING) || (ttype task =? REDIS_REPLY_VERB)) in
      let r := zero_reply (ttype task) in
      match hi_malloc w with
      | (None, w) => let! w := freeReplyObject (Some b) w in Ret (None, w)
      | (Some sb, w) =>
          if ttype task =? REDIS_REPLY_VERB then
            let! v := rd_block text 0 3 in
            let! s := rd_block text 4 (u64 (len - 4)) in
            created_reply true task parent b (with_str (with_vtype r (v ++ [0])) (u64 (len - 4)) (Some (sb, s ++ [0]))) w
          else
            let! s := rd_block text 0 len in
            created_reply true task parent b (with_str r len (Some (sb, s ++ [0]))) w
      end
  end.

Definition createArrayObject (n : Z) (task : redisReadTask) (parent : option redisReadTask) (w : world) : comp (option object * world) :=
  match createReplyObject (ttype task) w with
  | (None, w) => Ret (None, w)
  | (Some b, w) =>
      let r := zero_reply (ttype task) in
      if 0 <? n then
        match hi_calloc n 8 w.1 with
        | (None, h) => let! w := freeReplyObject (Some b) (h, w.2) in Ret (None, w)
        | (Some eb, h) =>
            created_reply true task parent b (with_elements r n (Some (eb, replicate (Z.to_nat n) None))) (h, w.2)
        end
      else created_reply true task parent b (with_elements r n None) w
  end.

Definition createIntegerObject (value : Z) (task : redisReadTask) (parent : option redisReadTask) (w : world) :
  comp (option object * world) :=
  match createReplyObject REDIS_REPLY_INTEGER w with
  | (None, w) => Ret (None, w)
  | (Some b, w) => created_reply true task parent b (with_integer (zero_reply REDIS_REPLY_INTEGER) value) w
  end.

Definition createDoubleObject (value : spec_float) (text : list Z) (len : Z) (task : redisReadTask) (parent : option redisReadTask)
  (w : world) : comp (option object * world) :=
  match createReplyObject REDIS_REPLY_DOUBLE w with
  | (None, w) => Ret (None, w)
  | (Some b, w) =>
      let r := with_dval (zero_reply REDIS_REPLY_DOUBLE) value in
      match hi_malloc w with
      | (None, w) => let! w := freeReplyObject (Some b) (put_reply b r w) in Ret (None, w)
      | (Some sb, w) =>
          let! s := rd_block text 0 len in
          created_reply false task parent b (with_str r 0 (Some (sb, s ++ [0]))) w
      end
  end.

Definition createNilObject (task : redisReadTask) (parent : option redisReadTask) (w : world) : comp (option object * world) :=
  match createReplyObject REDIS_REPLY_NIL w with
  | (None, w) => Ret (None, w)
  | (Some b, w) => created_reply false task parent b (zero_reply REDIS_REPLY_NIL) w
  end.

Definition createBoolObject (bval : Z) (task : redisReadTask) (parent : option redisReadTask) (w : world) : comp (option object * world) :=
  match createReplyObject REDIS_REPLY_BOOL w with
  | (None, w) => Ret (None, w)
  | (Some b, w) =>
      created_reply false task parent b (with_integer (zero_reply REDIS_REPLY_BOOL) (if bval =? 0 then 0 else 1)) w
  end.

Definition free_object_block (o : option object) (w : world) : comp world :=
  match o with
  | None => freeReplyObject None w
  | Some (Block b) => freeReplyObject (Some b) w
  | Some (Tag _) => Oob
  end.

Definition defaultFunctions : @redisReplyObjectFunctions store :=
  mkFunctions (Some createStringObject) (Some createArrayObject) (Some createIntegerObject) (Some createDoubleObject)
    (Some createNilObject) (Some createBoolObject) (Some free_object_block).

Definition redisReaderCreate (w : world) : comp (option (@redisReader store) * world) :=
  redisReaderCreateWithFunctions (Some defaultFunctions) w.

End objects.
