(* ===== verification/Resp.v ===== *)
(** * The RESP3 protocol

    What the reader of hiredis is to do, without its state: [parse_resp] reads
    one reply from the front of a text by recursive descent, [encode] writes
    one.  [answer] is the continuation of the parse from a stack of open
    aggregates, the link to the task stack of the reader. *)

From stdpp Require Import list.
From Stdlib Require Import SpecFloat String.
From S2P Require Import Prelude Cstdlib Sds Reader.

#[local] Open Scope Z_scope.
#[local] Set Warnings "-clear-no-such-hyp".

(** Replies.  [RText] has the type STRING, STATUS or ERROR, [RArray] one of
    the four aggregate types; a map has its keys and values in turn. *)
Inductive resp : Type :=
| RText (t : Z) (s : list Z)
| RVerb (format s : list Z)
| RInteger (z : Z)
| RDouble (d : spec_float) (s : list Z)
| RNil
| RBool (b : bool)
| RArray (t : Z) (l : list resp).

Fixpoint resp_rect' (P : resp -> Prop)
  (Ht : forall t s, P (RText t s)) (Hv : forall f s, P (RVerb f s)) (Hi : forall z, P (RInteger z))
  (Hd : forall d s, P (RDouble d s)) (Hn : P RNil) (Hb : forall b, P (RBool b))
  (Ha : forall t l, Forall P l -> P (RArray t l)) (v : resp) {struct v} : P v :=
  match v with
  | RText t s => Ht t s
  | RVerb f s => Hv f s
  | RInteger z => Hi z
  | RDouble d s => Hd d s
  | RNil => Hn
  | RBool b => Hb b
  | RArray t l =>
      Ha t l ((fix go l : Forall P l :=
                 match l with
                 | [] => Forall_nil_2 P
                 | x :: l => Forall_cons_2 P x l (resp_rect' P Ht Hv Hi Hd Hn Hb Ha x) (go l)
                 end) l)
  end.

(** What reading from a text gives: a value and the rest, nothing yet, or the
    message of a protocol error. *)
Inductive result (X : Type) : Type :=
| Done (x : X) (rest : list Z)
| More
| Bad (msg : list Z)
| Stuck.
Arguments Done {X} x rest.
Arguments More {X}.
Arguments Bad {X} msg.
Arguments Stuck {X}.

Definition rbind {X Y : Type} (m : result X) (k : X -> list Z -> result Y) : result Y :=
  match m with
  | Done x r => k x r
  | More => More
  | Bad e => Bad e
  | Stuck => Stuck
  end.

(** The type that a reply has by its first byte; attributes (|) and big numbers
    (left parenthesis) of RESP3 have none. *)
Definition reply_types : list (string * Z) :=
  [("+", REDIS_REPLY_STATUS); ("-", REDIS_REPLY_ERROR); (":", REDIS_REPLY_INTEGER); ("$", REDIS_REPLY_STRING);
   ("*", REDIS_REPLY_ARRAY); ("_", REDIS_REPLY_NIL); (",", REDIS_REPLY_DOUBLE); ("#", REDIS_REPLY_BOOL);
   ("=", REDIS_REPLY_VERB); ("%", REDIS_REPLY_MAP); ("~", REDIS_REPLY_SET); (">", REDIS_REPLY_PUSH)]%string.

Definition reply_type (c : Z) : option Z := snd <$> List.find (fun p => bool_decide (text p.1 = [c])) reply_types.

(** The message for any other byte, which is shown as in C. *)
Definition escapes : list (Z * Z) := [(7, 97); (8, 98); (9, 116); (10, 110); (13, 114); (34, 34); (92, 92)].

Definition shown (c : Z) : list Z :=
  match List.find (fun p => c =? p.1) escapes with
  | Some (_, e) => [92; e]
  | None =>
      let hex d := if d <? 10 then 48 + d else 97 + (d - 10) in
      if (32 <=? c mod 256) && (c mod 256 <? 127) then [c] else text "\x" ++ [hex (c / 16); hex (c mod 16)]
  end.

Definition unknown_type (c : Z) : list Z :=
  text "Protocol error, got " ++ [34] ++ shown c ++ [34] ++ text " as reply type byte".

(** The number of a double: what C reads from all of a text that is not empty,
    other than NaN.  Infinity may have a second comma. *)
Definition real (s : list Z) : option spec_float :=
  if bool_decide (map tolower s = text ",inf") then Some (S754_infinity false)
  else if bool_decide (map tolower s = text ",-inf") then Some (S754_infinity true)
  else
    match s, strtod_hex s with
    | _ :: _, ([], S754_nan) => None
    | _ :: _, ([], d) => Some d
    | _, _ => None
    end.

(** *** They are what the code has *)

Lemma reply_type_byte c : type_of_byte c = reply_type c.
Proof.
  unfold type_of_byte, reply_type. cbn [List.find reply_types fst].
  repeat match goal with |- context [bool_decide (text ?s = [c])] =>
    let v := eval vm_compute in (text s) in change (text s) with v end.
  repeat match goal with |- context [bool_decide ([?k] = [c])] =>
    replace (bool_decide ([k] = [c])) with (c =? k) by (destruct (Z.eqb_spec c k) as [->|]; [by rewrite bool_decide_true|by rewrite bool_decide_false by congruence]) end.
  repeat match goal with |- context [c =? ?k] => destruct (Z.eqb_spec c k) as [->|]; [reflexivity|] end. reflexivity.
Qed.

Lemma chrtos_shown c : (chrtos 8 c).1 = [34] ++ shown c ++ [34].
Proof.
  unfold chrtos, shown, escapes. cbn [List.find fst].
  repeat match goal with |- context [c =? ?k] => destruct (Z.eqb_spec c k) as [->|]; [reflexivity|] end. cbn [orb].
  assert (isprint (i8 c) = (32 <=? c mod 256) && (c mod 256 <? 127)) as ->.
  { unfold isprint, i8, swrap. change (2 ^ 8) with 256. change (2 ^ (8 - 1)) with 128. 
    assert ((c + 128) mod 256 = if c mod 256 <? 128 then c mod 256 + 128 else c mod 256 - 128) as ->
      by (destruct (Z.ltb_spec (c mod 256) 128); dlia).
    pose proof (Z.mod_pos_bound c 256 ltac:(lia)). destruct (Z.ltb_spec (c mod 256) 128); lia. }
  assert (forall d, hex_digit d = if d <? 10 then 48 + d else 97 + (d - 10)) as Eh by (intros d; unfold hex_digit; destruct (d <? 10); lia).
  rewrite !Eh. by destruct (_ && _).
Qed.

Lemma unknown_type_error c : byte_error c = unknown_type c.
Proof.
  unfold byte_error, unknown_type. rewrite chrtos_shown. unfold snprintf, sub. rewrite drop_0.
  rewrite <- !app_assoc. apply take_ge. set (m := _ ++ _). assert (blen m <= 127); [|unfold blen in *; lia].
  subst m. rewrite !blen_app. change (blen (text "Protocol error, got ")) with 20. change (blen (text " as reply type byte")) with 19.
  change (blen [34]) with 1. assert (blen (shown c) <= 4); [|lia].
  unfold shown. destruct (List.find _ _) as [[? ?]|]; [done|]. by destruct (_ && _).
Qed.

Lemma real_value s : double_value s = real s.
Proof.
  unfold double_value, real, strcaseeq. change (map tolower (text ",inf")) with (text ",inf"). change (map tolower (text ",-inf")) with (text ",-inf").
  case_bool_decide; [done|]. case_bool_decide; [done|]. destruct s as [|c s]; [by destruct (strtod_hex [])|].
  rewrite bool_decide_false by done. destruct (strtod_hex (c :: s)) as [[|e l] d]; [rewrite bool_decide_true by done|rewrite bool_decide_false by done; done].
  by destruct d.
Qed.

(** The text before the first CR LF, and what is behind it. *)
Fixpoint line (l : list Z) : option (list Z * list Z) :=
  match l with
  | [] => None
  | c :: l' =>
      if (c =? 13) && bool_decide (head l' = Some 10) then Some ([], tail l')
      else (fun p => (c :: p.1, p.2)) <$> line l'
  end.

(** The number that a text is the decimal text of, in the range of [long long]. *)
Definition integer (s : list Z) : option Z :=
  let v := match s with
           | 45 :: ds => - (dec_run ds 0 0).1.1
           | _ => (dec_run s 0 0).1.1
           end in
  if (- 2 ^ 63 <=? v) && (v <? 2 ^ 63) && bool_decide (dec v = s) then Some v else None.

(** The head of an item of type [t]: a value, or the start of an aggregate of
    [n] > 0 elements. *)
Inductive item : Type :=
| Value (v : resp)
| Open (n : Z).

Definition line_value (t : Z) (s : list Z) : resp + list Z :=
  if t =? REDIS_REPLY_INTEGER then
    match integer s with
    | Some z => inl (RInteger z)
    | None => inr (text "Bad integer value")
    end
  else if t =? REDIS_REPLY_DOUBLE then
    if 326 <=? blen s then inr (text "Double value is too large")
    else
      match real (cstr s) with
      | Some d => inl (RDouble d s)
      | None => inr (text "Bad double value")
      end
  else if t =? REDIS_REPLY_NIL then inl RNil
  else if t =? REDIS_REPLY_BOOL then
    inl (RBool (match head s with Some c => (c =? 116) || (c =? 84) | None => false end))
  else inl (RText t s).

(** The [n] bytes of a bulk item and the two behind them. *)
Definition bulk_value (t n : Z) (rest : list Z) : result item :=
  if blen rest <? n + 2 then More
  else
    let s := take (Z.to_nat n) rest in
    let rest := drop (Z.to_nat (n + 2)) rest in
    if t =? REDIS_REPLY_VERB then
      if (n <? 4) || negb (bool_decide (s !! 3%nat = Some 58)) then
        Bad (text "Verbatim string 4 bytes of content type are missing or incorrectly encoded.")
      else Done (Value (RVerb (take 3 s) (drop 4 s))) rest
    else Done (Value (RText t s)) rest.

Definition is_line (t : Z) : bool :=
  (t =? REDIS_REPLY_ERROR) || (t =? REDIS_REPLY_STATUS) || (t =? REDIS_REPLY_INTEGER) ||
  (t =? REDIS_REPLY_DOUBLE) || (t =? REDIS_REPLY_NIL) || (t =? REDIS_REPLY_BOOL).

Definition is_bulk (t : Z) : bool := (t =? REDIS_REPLY_STRING) || (t =? REDIS_REPLY_VERB).

Section parse.
(** The largest number of elements. *)
Context (maxe : Z).

Definition scan (t : Z) (l : list Z) : result item :=
  match line l with
  | None => More
  | Some (s, rest) =>
      if is_line t then
        match line_value t s with
        | inl v => Done (Value v) rest
        | inr e => Bad e
        end
      else if is_bulk t then
        match integer s with
        | None => Bad (text "Bad bulk string length")
        | Some n =>
            if n <? -1 then Bad (text "Bulk string length out of range")
            else if n =? -1 then Done (Value RNil) rest
            else bulk_value t n rest
        end
      else
        match integer s with
        | None => Bad (text "Bad multi-bulk length")
        | Some n =>
            if (n <? -1) || (maxe <? n) then Bad (text "Multi-bulk length out of range")
            else if n =? -1 then Done (Value RNil) rest
            else
              let n := if t =? REDIS_REPLY_MAP then 2 * n else n in
              Done (if n =? 0 then Value (RArray t []) else Open n) rest
        end
  end.

(** [n] values, after [acc]. *)
Fixpoint elems_with (value : list Z -> result resp) (k : nat) (n : Z) (acc : list resp) (l : list Z) : result (list resp) :=
  if n <=? 0 then Done acc l
  else
    match k with
    | O => Stuck
    | S k => rbind (value l) (fun v r => elems_with value k (n - 1) (acc ++ [v]) r)
    end.

Definition typed_with (value : list Z -> result resp) (t : Z) (l : list Z) : result resp :=
  rbind (scan t l) (fun i r =>
    match i with
    | Value v => Done v r
    | Open n => rbind (elems_with value (S (length r)) n [] r) (fun vs r => Done (RArray t vs) r)
    end).

Fixpoint parse (fuel : nat) (l : list Z) : result resp :=
  match fuel with
  | O => Stuck
  | S f =>
      match l with
      | [] => More
      | c :: l =>
          match reply_type c with
          | None => Bad (unknown_type c)
          | Some t => typed_with (parse f) t l
          end
      end
  end.

(** One value; every byte is looked at once. *)
Definition parse_resp (l : list Z) : result resp := parse (S (length l)) l.
Definition elems (n : Z) (acc : list resp) (l : list Z) : result (list resp) := elems_with parse_resp (S (length l)) n acc l.
Definition typed (t : Z) (l : list Z) : result resp := typed_with parse_resp t l.

(** All values of a text, and what is behind them. *)
Inductive ending : Type :=
| Waits
| Fails (msg : list Z).

Fixpoint parse_many (fuel : nat) (l : list Z) : list resp * ending :=
  match fuel with
  | O => ([], Waits)
  | S f =>
      match parse_resp l with
      | Done v r => let '(vs, e) := parse_many f r in (v :: vs, e)
      | Bad msg => ([], Fails msg)
      | _ => ([], Waits)
      end
  end.

Definition parse_all (l : list Z) : list resp * ending := parse_many (S (length l)) l.

(** ** The equations of the parser *)

Lemma line_rest l s r : line l = Some (s, r) -> l = s ++ 13 :: 10 :: r.
Proof.
  revert s. induction l as [|c l IH]; intros s; cbn [line]; [done|]. destruct (_ && _) eqn:E.
  - intros [= <- <-]. zify_bool. case_bool_decide; [|done]. destruct l; simplify_eq/=. done.
  - destruct (line l) as [[s' r']|]; [|done]. cbn. intros [= <- <-]. by rewrite (IH s').
Qed.

Lemma line_shorter l s r : line l = Some (s, r) -> (length r < length l)%nat.
Proof. intros ->%line_rest. rewrite length_app. cbn. lia. Qed.

Lemma line_app l s r x : line l = Some (s, r) -> line (l ++ x) = Some (s, r ++ x).
Proof.
  revert s. induction l as [|c l IH]; intros s; cbn [line app]; [done|].
  destruct l as [|d l]; [cbn; by rewrite andb_false_r|]. cbn [app head tail] in *.
  destruct (_ && _); [by intros [= <- <-]|]. destruct (line (d :: l)) as [[s' r']|]; [|done].
  intros [= <- <-]. by rewrite (IH s').
Qed.

Lemma scan_shorter t l i r : scan t l = Done i r -> (length r < length l)%nat.
Proof.
  unfold scan. destruct (line l) as [[s rest]|] eqn:E; [|done]. apply line_shorter in E.
  destruct (is_line t); [destruct (line_value t s); intros; simplify_eq; lia|].
  destruct (is_bulk t), (integer s) as [n|]; try done.
  - unfold bulk_value. repeat case_match; intros; simplify_eq; rewrite ?length_drop; lia.
  - repeat case_match; intros; simplify_eq; lia.
Qed.

Lemma scan_not_stuck t l : scan t l <> Stuck.
Proof. unfold scan, bulk_value. by repeat case_match. Qed.

(** What comes later does not change what has been scanned. *)
Lemma scan_app t l x : scan t l <> More ->
  scan t (l ++ x) = match scan t l with Done i r => Done i (r ++ x) | m => m end.
Proof.
  unfold scan. destruct (line l) as [[s rest]|] eqn:E; [|done]. rewrite (line_app _ _ _ x E).
  destruct (is_line t); [by destruct (line_value t s)|].
  destruct (is_bulk t), (integer s) as [n|]; try done.
  - destruct (Z.ltb_spec n (-1)); [done|]. destruct (Z.eqb_spec n (-1)); [done|]. unfold bulk_value.
    rewrite blen_app. pose proof (blen_nonneg x). destruct (Z.ltb_spec (blen rest) (n + 2)); [done|]. intros _.
    destruct (Z.ltb_spec (blen rest + blen x) (n + 2)); [lia|]. unfold blen in *. rewrite take_app_le, drop_app_le by lia.
    destruct (t =? REDIS_REPLY_VERB); [|done]. by destruct (_ || _).
  - destruct (_ || _); [done|]. by destruct (n =? -1).
Qed.

Definition shrinks (value : list Z -> result resp) : Prop := forall l v r, value l = Done v r -> (length r < length l)%nat.

Lemma elems_shorter value : shrinks value -> forall k n acc l vs r, elems_with value k n acc l = Done vs r -> (length r <= length l)%nat.
Proof.
  intros Hv. induction k as [|k IH]; intros n acc l vs r; cbn [elems_with]; destruct (n <=? 0); try (intros; simplify_eq; lia).
  destruct (value l) as [v r'| | |] eqn:E; cbn [rbind]; try done. intros H%IH. apply Hv in E. lia.
Qed.

Lemma typed_shorter value t l v r : shrinks value -> typed_with value t l = Done v r -> (length r < length l)%nat.
Proof.
  intros Hv. unfold typed_with. destruct (scan t l) as [[v'|n] r'| | |] eqn:E; cbn [rbind]; try done; apply scan_shorter in E.
  - intros [= <- <-]. done.
  - destruct (elems_with _ _ _ _ _) as [vs r2| | |] eqn:E2; cbn [rbind]; try done. intros [= <- <-].
    apply elems_shorter in E2; [lia|done].
Qed.

Lemma parse_shrinks fuel : shrinks (parse fuel).
Proof.
  induction fuel as [|f IH]; intros l v r; cbn [parse]; [done|]. destruct l as [|c l]; [done|].
  destruct (reply_type c); [|done]. intros H%typed_shorter; [cbn; lia|done].
Qed.

(** Enough fuel: two functions that agree on what is shorter. *)
Lemma elems_agree value value' m : shrinks value ->
  (forall l, (length l <= m)%nat -> value l = value' l) -> value' [] = More ->
  forall k k' n acc l, (length l <= m)%nat -> (length l < k)%nat -> (length l < k')%nat ->
    elems_with value k n acc l = elems_with value' k' n acc l.
Proof.
  intros Hs He H0. induction k as [|k IH]; intros k' n acc l Hm Hk Hk'; [lia|]. destruct k' as [|k']; [lia|].
  cbn [elems_with]. destruct (n <=? 0); [done|]. rewrite <- (He l) by done.
  destruct (value l) as [v r| | |] eqn:E; cbn [rbind]; try done. apply Hs in E. apply IH; lia.
Qed.

Lemma parse_agree m : forall l f f', (length l <= m)%nat -> (length l < f)%nat -> (length l < f')%nat -> parse f l = parse f' l.
Proof.
  induction m as [|m IH]; intros l f f' Hm Hf Hf'; (destruct f as [|f]; [lia|]); (destruct f' as [|f']; [lia|]); cbn [parse];
    (destruct l as [|c l]; [done|]); cbn [length] in *; [lia|].
  destruct (reply_type c) as [t|]; [|done]. unfold typed_with. destruct (scan t l) as [[v|n] r| | |] eqn:E; cbn [rbind]; try done.
  apply scan_shorter in E. destruct f' as [|f']; [lia|].
  erewrite (elems_agree (parse f) (parse (S f')) (length r)); [done|apply parse_shrinks| |done|lia..].
  intros l' Hl. apply IH; lia.
Qed.

Lemma parse_enough f l : (length l < f)%nat -> parse f l = parse_resp l.
Proof. intros. unfold parse_resp. apply (parse_agree (length l)); lia. Qed.

Lemma parse_resp_cons c l : parse_resp (c :: l) =
  match reply_type c with
  | None => Bad (unknown_type c)
  | Some t => typed t l
  end.
Proof.
  unfold parse_resp. change (length (c :: l)) with (S (length l)). cbn [parse]. destruct (reply_type c) as [t|]; [|done].
  unfold typed, typed_with. destruct (scan t l) as [[v|n] r| | |] eqn:E; cbn [rbind]; try done. apply scan_shorter in E.
  erewrite (elems_agree (parse (S (length l))) parse_resp (length r)); [done|apply parse_shrinks| |done|lia..].
  intros l' Hl. apply parse_enough. lia.
Qed.

Lemma parse_resp_nil : parse_resp [] = More.
Proof. done. Qed.

Lemma parse_resp_shrinks : shrinks parse_resp.
Proof. intros l v r. apply parse_shrinks. Qed.

Lemma elems_more n acc l : 0 < n -> elems n acc l = rbind (parse_resp l) (fun v r => elems (n - 1) (acc ++ [v]) r).
Proof.
  intros Hn. unfold elems at 1. cbn [elems_with]. destruct (Z.leb_spec n 0); [lia|].
  destruct (parse_resp l) as [v r| | |] eqn:E; cbn [rbind]; try done. apply parse_resp_shrinks in E. unfold elems.
  eapply (elems_agree parse_resp parse_resp (length r)); [apply parse_resp_shrinks|done|done|lia..].
Qed.

Lemma elems_none n acc l : n <= 0 -> elems n acc l = Done acc l.
Proof. intros Hn. unfold elems. cbn [elems_with]. by destruct (Z.leb_spec n 0); [|lia]. Qed.

Lemma typed_eq t l : typed t l =
  rbind (scan t l) (fun i r =>
    match i with
    | Value v => Done v r
    | Open n => rbind (elems n [] r) (fun vs r => Done (RArray t vs) r)
    end).
Proof. done. Qed.

End parse.

(** ** Writing replies *)

Definition crlf : list Z := [13; 10].

Definition type_byte (t : Z) : Z :=
  if t =? REDIS_REPLY_ERROR then 45
  else if t =? REDIS_REPLY_STATUS then 43
  else if t =? REDIS_REPLY_STRING then 36
  else if t =? REDIS_REPLY_MAP then 37
  else if t =? REDIS_REPLY_SET then 126
  else if t =? REDIS_REPLY_PUSH then 62
  else 42.

Definition count_of (t n : Z) : Z := if t =? REDIS_REPLY_MAP then n / 2 else n.

Fixpoint encode (v : resp) : list Z :=
  match v with
  | RText t s =>
      if t =? REDIS_REPLY_STRING then 36 :: dec (blen s) ++ crlf ++ s ++ crlf else type_byte t :: s ++ crlf
  | RVerb f s => 61 :: dec (blen s + 4) ++ crlf ++ f ++ [58] ++ s ++ crlf
  | RInteger z => 58 :: dec z ++ crlf
  | RDouble _ s => 44 :: s ++ crlf
  | RNil => 95 :: crlf
  | RBool b => 35 :: (if b then 116 else 102) :: crlf
  | RArray t l => type_byte t :: dec (count_of t (Z.of_nat (length l))) ++ crlf ++ concat (map encode l)
  end.

(** The replies that can be written: lines without CR, the text of a double,
    numbers and lengths in range, as many keys as values. *)
Fixpoint writable (maxe : Z) (v : resp) : Prop :=
  match v with
  | RText t s =>
      t = REDIS_REPLY_STRING /\ blen s < 2 ^ 62 \/ (t = REDIS_REPLY_STATUS \/ t = REDIS_REPLY_ERROR) /\ 13 ∉ s
  | RVerb f s => length f = 3%nat /\ blen s < 2 ^ 62
  | RInteger z => - 2 ^ 63 <= z < 2 ^ 63
  | RDouble d s => (13 ∉ s) /\ blen s < 326 /\ real (cstr s) = Some d
  | RNil | RBool _ => True
  | RArray t l =>
      is_aggregate t = true /\ count_of t (Z.of_nat (length l)) <= maxe /\
      (t = REDIS_REPLY_MAP -> Z.Even (Z.of_nat (length l))) /\
      (fix go l := match l with [] => True | v :: l => writable maxe v /\ go l end) l
  end.

Lemma writable_array maxe t l : writable maxe (RArray t l) <->
  is_aggregate t = true /\ count_of t (Z.of_nat (length l)) <= maxe /\
  (t = REDIS_REPLY_MAP -> Z.Even (Z.of_nat (length l))) /\ Forall (writable maxe) l.
Proof.
  cbn [writable]. assert (forall l, (fix go l := match l with [] => True | v :: l => writable maxe v /\ go l end) l <-> Forall (writable maxe) l) as H.
  { clear. induction l as [|v l IH]; [split; [constructor|done]|]. by rewrite Forall_cons, IH. }
  by rewrite H.
Qed.

(** *** Numbers *)

Lemma dec_signed z : - 2 ^ 63 <= z < 2 ^ 63 ->
  exists d ds, Forall (fun c => isdigit c = true) (d :: ds) /\ dec_run (d :: ds) 0 0 = (Z.abs z, blen (d :: ds), []) /\
    dec z = (if z <? 0 then [45] else []) ++ d :: ds.
Proof.
  intros Hz.
  assert (forall y, 0 <= y < 10 ^ 20 -> exists d ds, Forall (fun c => isdigit c = true) (d :: ds) /\
    dec_run (d :: ds) 0 0 = (y, blen (d :: ds), []) /\ dec_digits 20 y [] = d :: ds) as H.
  { intros y Hy. pose proof (dec_digits_isdigit 20 y [] ltac:(lia) (Forall_nil_2 _)) as Hd.
    destruct (dec_run_digits 20 y [] [] ltac:(lia) ltac:(lia) 0 0) as (n & E & Hn). rewrite !app_nil_r in E. cbn [app dec_run] in E.
    assert (forall l a k, Forall (fun c => isdigit c = true) l -> (dec_run l a k).1.2 = k + blen l) as Hlen.
    { clear. induction l as [|c l IH]; intros a k Hl; cbn [dec_run]; [rewrite blen_nil; cbn; lia|].
      apply Forall_cons in Hl as [-> Hl]. rewrite IH, blen_cons by done. lia. }
    specialize (Hlen (dec_digits 20 y []) 0 0 Hd). rewrite E in Hlen. cbn [fst snd] in Hlen.
    destruct (dec_digits 20 y []) as [|d ds] eqn:Ed; [rewrite blen_nil in Hlen; lia|]. exists d, ds. split; [done|]. split; [|done].
    rewrite E. f_equal. f_equal; lia. }
  unfold dec. destruct (Z.ltb_spec z 0).
  - destruct (H (- z)) as (d & ds & H1 & H2 & ->); [lia|]. exists d, ds. split; [done|]. split; [|done]. rewrite H2. do 2 f_equal. lia.
  - destruct (H z) as (d & ds & H1 & H2 & ->); [lia|]. exists d, ds. split; [done|]. split; [|done]. rewrite H2. do 2 f_equal. lia.
Qed.

Lemma dec_no_cr z : - 2 ^ 63 <= z < 2 ^ 63 -> 13 ∉ dec z.
Proof.
  intros Hz. destruct (dec_signed z Hz) as (d & ds & Hd & _ & ->). rewrite Forall_forall in Hd.
  intros [H|H%Hd]%elem_of_app; [|done]. destruct (z <? 0); [apply list_elem_of_singleton in H; lia|by apply elem_of_nil in H].
Qed.

(** [integer] inverts [dec]. *)
Lemma integer_spec s z : integer s = Some z <-> - 2 ^ 63 <= z < 2 ^ 63 /\ s = dec z.
Proof.
  unfold integer. set (v := match s with 45 :: _ => _ | _ => _ end). split.
  - destruct (Z.leb_spec (- 2 ^ 63) v); [|done]. destruct (Z.ltb_spec v (2 ^ 63)); [|done]. cbn [andb].
    case_bool_decide; [|done]. intros [= <-]. done.
  - intros [Hz ->]. destruct (dec_signed z Hz) as (d & ds & Hd & Hr & E).
    assert (v = z) as ->.
    { subst v. rewrite E. destruct (Z.ltb_spec z 0); cbn [app]; [rewrite Hr; cbn [fst]; lia|].
      apply Forall_cons in Hd as [Hd _]. apply isdigit_range in Hd.
      assert (forall X (a b : X), (match d with 45 => a | _ => b end) = b) as -> by (intros; repeat case_match; lia || done).
      rewrite Hr. cbn [fst]. lia. }
    destruct (Z.leb_spec (- 2 ^ 63) z); [|lia]. destruct (Z.ltb_spec z (2 ^ 63)); [|lia]. by rewrite bool_decide_true.
Qed.

Lemma integer_dec z : - 2 ^ 63 <= z < 2 ^ 63 -> integer (dec z) = Some z.
Proof. intros. by apply integer_spec. Qed.

(** *** Reading back *)

Lemma line_crlf s x : 13 ∉ s -> line (s ++ crlf ++ x) = Some (s, x).
Proof.
  induction s as [|c s IH]; [done|]. rewrite not_elem_of_cons. intros [Hc Hs]. cbn [app line].
  destruct (Z.eqb_spec c 13); [congruence|]. cbn [andb]. by rewrite IH.
Qed.

Lemma bulk_value_done t s x : is_bulk t = true -> t <> REDIS_REPLY_VERB ->
  bulk_value t (blen s) (s ++ crlf ++ x) = Done (Value (RText t s)) x.
Proof.
  intros _ Ht. unfold bulk_value. rewrite !blen_app. change (blen crlf) with 2. pose proof (blen_nonneg x).
  destruct (Z.ltb_spec (blen s + (2 + blen x)) (blen s + 2)); [lia|]. destruct (Z.eqb_spec t REDIS_REPLY_VERB); [done|].
  rewrite blen_to_nat, take_app_length. f_equal. replace (Z.to_nat (blen s + 2)) with (length s + 2)%nat by (unfold blen; lia).
  rewrite <- drop_drop, drop_app_length. done.
Qed.

Lemma verb_value_done f s x : length f = 3%nat ->
  bulk_value REDIS_REPLY_VERB (blen s + 4) (f ++ 58 :: s ++ crlf ++ x) = Done (Value (RVerb f s)) x.
Proof.
  intros Hf. destruct f as [|a [|b [|c [|]]]]; try done. unfold bulk_value. cbn [app]. rewrite !blen_cons, blen_app. change (blen crlf) with 2.
  pose proof (blen_nonneg x). pose proof (blen_nonneg s). rewrite blen_app. change (blen crlf) with 2.
  destruct (Z.ltb_spec (1 + (1 + (1 + (1 + (blen s + (2 + blen x)))))) (blen s + 4 + 2)); [lia|].
  rewrite Z.eqb_refl. destruct (Z.ltb_spec (blen s + 4) 4); [lia|].
  replace (Z.to_nat (blen s + 4)) with (4 + length s)%nat by (unfold blen; lia).
  replace (Z.to_nat (blen s + 4 + 2)) with (4 + (length s + 2))%nat by (unfold blen; lia). cbn [take drop lookup list_lookup Nat.add].
  rewrite bool_decide_true by done. cbn [orb negb]. rewrite take_app_length. rewrite <- drop_drop, drop_app_length. done.
Qed.

Lemma aggregate_cases t : is_aggregate t = true ->
  t = REDIS_REPLY_ARRAY \/ t = REDIS_REPLY_MAP \/ t = REDIS_REPLY_SET \/ t = REDIS_REPLY_PUSH.
Proof. unfold is_aggregate. rewrite !orb_true_iff, !Z.eqb_eq. tauto. Qed.

Section back.
Context (maxe : Z).

(** The head of an aggregate. *)
Lemma scan_array t n x : is_aggregate t = true -> 0 <= n -> count_of t n <= maxe -> n < 2 ^ 63 ->
  (t = REDIS_REPLY_MAP -> Z.Even n) ->
  scan maxe t (dec (count_of t n) ++ crlf ++ x) = Done (if n =? 0 then Value (RArray t []) else Open n) x.
Proof.
  intros Ht Hn Hm Hb He. unfold scan, count_of in *.
  assert (0 <= (if t =? REDIS_REPLY_MAP then n / 2 else n) < 2 ^ 63) as Hc by (destruct (t =? _); dlia).
  rewrite line_crlf by (apply dec_no_cr; lia).
  assert (is_line t = false /\ is_bulk t = false) as [-> ->].
  { by destruct (aggregate_cases t Ht) as [-> |[-> |[-> | ->]]]. }
  rewrite integer_dec by lia. destruct (Z.ltb_spec (if t =? REDIS_REPLY_MAP then n / 2 else n) (-1)); [lia|].
  destruct (Z.ltb_spec maxe (if t =? REDIS_REPLY_MAP then n / 2 else n)); [lia|]. cbn [orb].
  destruct (Z.eqb_spec (if t =? REDIS_REPLY_MAP then n / 2 else n) (-1)); [lia|].
  destruct (Z.eqb_spec t REDIS_REPLY_MAP) as [->|]; [|done]. destruct (He eq_refl) as [k ->].
  by replace (2 * k / 2) with k by dlia.
Qed.

Lemma type_byte_agg t : is_aggregate t = true -> reply_type (type_byte t) = Some t.
Proof. by intros [-> |[-> |[-> | ->]]]%aggregate_cases. Qed.

Lemma elems_concat l : Forall (fun v => forall x, parse_resp maxe (encode v ++ x) = Done v x) l ->
  forall acc x, elems maxe (Z.of_nat (length l)) acc (concat (map encode l) ++ x) = Done (acc ++ l) x.
Proof.
  induction 1 as [|v l Hv Hl IH]; intros acc x; [rewrite elems_none by done; by rewrite app_nil_r|].
  rewrite elems_more by (cbn [length]; lia). cbn [map concat]. rewrite <- app_assoc, Hv. cbn [rbind].
  replace (Z.of_nat (length (v :: l)) - 1) with (Z.of_nat (length l)) by (cbn [length]; lia).
  by rewrite IH, <- app_assoc.
Qed.

(** Reads the type byte of a text. *)
Ltac reply_head t :=
  rewrite parse_resp_cons;
  match goal with |- context [reply_type ?c] => change (reply_type c) with (Some t) end;
  cbv beta iota; rewrite typed_eq; unfold scan.

Lemma parse_encode v : Z.of_nat (length (encode v)) < 2 ^ 63 -> writable maxe v -> forall x, parse_resp maxe (encode v ++ x) = Done v x.
Proof.
  induction v as [t s|f s|z|d s| |b|t l IH] using resp_rect'; intros Hlen Hw x; cbn [encode app].
  - cbn [writable] in Hw. pose proof (blen_nonneg s). destruct Hw as [[-> Hs]|[Ht Hs]].
    + rewrite Z.eqb_refl. cbn [app]. rewrite <- !app_assoc. reply_head REDIS_REPLY_STRING. rewrite line_crlf by (apply dec_no_cr; lia). cbn [is_line is_bulk]. rewrite integer_dec by lia.
      change (is_line REDIS_REPLY_STRING) with false. change (is_bulk REDIS_REPLY_STRING) with true. cbv iota.
      destruct (Z.ltb_spec (blen s) (-1)); [lia|]. destruct (Z.eqb_spec (blen s) (-1)); [lia|]. by rewrite bulk_value_done.
    + destruct Ht as [-> | ->]; (match goal with |- context [?a =? ?b] => change (a =? b) with false end); cbv iota; cbn [app]; rewrite <- app_assoc; [reply_head REDIS_REPLY_STATUS|reply_head REDIS_REPLY_ERROR]; by rewrite line_crlf.
  - cbn [writable] in Hw. destruct Hw as [Hf Hs]. pose proof (blen_nonneg s). rewrite <- !app_assoc. reply_head REDIS_REPLY_VERB. rewrite line_crlf by (apply dec_no_cr; lia).
    rewrite integer_dec by lia. change (is_line REDIS_REPLY_VERB) with false. change (is_bulk REDIS_REPLY_VERB) with true. cbv iota.
    destruct (Z.ltb_spec (blen s + 4) (-1)); [lia|]. destruct (Z.eqb_spec (blen s + 4) (-1)); [lia|].
    cbn [app]. by rewrite <- app_assoc, verb_value_done.
  - cbn [writable] in Hw. rewrite <- app_assoc. reply_head REDIS_REPLY_INTEGER. rewrite line_crlf by (by apply dec_no_cr). cbn [is_line]. unfold line_value. by rewrite integer_dec.
  - cbn [writable] in Hw. destruct Hw as (Hs & Hl & Hd). rewrite <- app_assoc. reply_head REDIS_REPLY_DOUBLE. rewrite line_crlf by done.
    change (is_line REDIS_REPLY_DOUBLE) with true. unfold line_value. cbv iota. change (REDIS_REPLY_DOUBLE =? REDIS_REPLY_INTEGER) with false.
    change (REDIS_REPLY_DOUBLE =? REDIS_REPLY_DOUBLE) with true. cbv iota. destruct (Z.leb_spec 326 (blen s)); [lia|]. by rewrite Hd.
  - done.
  - by destruct b.
  - apply writable_array in Hw as (Ht & Hm & He & Hl). rewrite <- !app_assoc, parse_resp_cons, type_byte_agg by done. rewrite typed_eq.
    cbn [encode] in Hlen. cbn [length] in Hlen. rewrite !length_app in Hlen.
    assert (forall v, In v l -> (length (encode v) <= length (concat (map encode l)))%nat) as Hin.
    { clear. induction l as [|w l IH]; intros v; [done|]. intros [->|H]; cbn [map concat]; rewrite length_app; [lia|]. apply IH in H. lia. }
    assert (length l <= length (concat (map encode l)))%nat as Hll.
    { clear. induction l as [|w l IH]; [done|]. cbn [map concat length]. rewrite length_app.
      assert (1 <= length (encode w))%nat; [|lia]. destruct w; cbn [encode]; repeat case_match; cbn [length]; lia. }
    rewrite scan_array by (done || lia). cbn [rbind]. destruct (Z.eqb_spec (Z.of_nat (length l)) 0) as [E|E].
    + destruct l; [done|cbn in E; lia].
    + rewrite elems_concat; [done|]. rewrite Forall_forall in IH, Hl |- *. intros v Hv. apply IH; [done| |by apply Hl].
      apply list_elem_of_In in Hv. apply Hin in Hv. lia.
Qed.

End back.

(** ** Open aggregates

    The aggregates that are being read, the innermost first, with the object
    that stands for each, its type, the number of its elements and the values
    read so far; [plug] adds a value, which may complete some of them. *)
Record frame := mkFrame {
  fobj : object;
  ftype : Z;
  fcount : Z;
  fdone : list resp
}.

Definition nread (f : frame) : Z := Z.of_nat (length (fdone f)).

Definition add_done (f : frame) (v : resp) : frame := mkFrame (fobj f) (ftype f) (fcount f) (fdone f ++ [v]).

Fixpoint plug (v : resp) (fs : list frame) : resp + list frame :=
  match fs with
  | [] => inl v
  | f :: fs => if nread f =? fcount f - 1 then plug (RArray (ftype f) (fdone f ++ [v])) fs else inr (add_done f v :: fs)
  end.

Definition frame_ok (f : frame) : Prop := nread f < fcount f.

Lemma plug_ok v fs fs' : Forall frame_ok fs -> plug v fs = inr fs' -> Forall frame_ok fs'.
Proof.
  revert v. induction fs as [|f fs IH]; intros v Hfs; cbn [plug]; [done|]. apply Forall_cons in Hfs as [Hf Hfs].
  destruct (Z.eqb_spec (nread f) (fcount f - 1)); [by apply IH|]. intros [= <-]. constructor; [|done].
  unfold frame_ok, nread in *. cbn [fdone add_done fcount]. rewrite length_app. cbn. lia.
Qed.

Section answer.
Context (maxe : Z).

(** The rest of an aggregate after its next element. *)
Definition close (m : result resp) (f : frame) : result resp :=
  rbind m (fun v r => rbind (elems maxe (fcount f - 1 - nread f) (fdone f ++ [v]) r) (fun vs r => Done (RArray (ftype f) vs) r)).

Definition resume (fs : list frame) (m : result resp) : result resp := fold_left close fs m.

(** The next value, whose type byte may have been read. *)
Definition next (pt : option Z) (l : list Z) : result resp :=
  match pt with
  | None => parse_resp maxe l
  | Some t => typed maxe t l
  end.

Definition answer (fs : list frame) (pt : option Z) (l : list Z) : result resp := resume fs (next pt l).

Lemma resume_more fs : resume fs More = More.
Proof. by induction fs. Qed.

Lemma resume_bad fs e : resume fs (Bad e) = Bad e.
Proof. by induction fs. Qed.

Lemma resume_plug v fs r : Forall frame_ok fs ->
  resume fs (Done v r) = match plug v fs with
                         | inl v' => Done v' r
                         | inr fs' => answer fs' None r
                         end.
Proof.
  revert v. induction fs as [|f fs IH]; intros v Hfs; [done|]. apply Forall_cons in Hfs as [Hf Hfs].
  cbn [plug]. unfold resume. cbn [fold_left]. unfold close at 2. cbn [rbind]. unfold frame_ok in Hf.
  destruct (Z.eqb_spec (nread f) (fcount f - 1)) as [E|E].
  - rewrite elems_none by lia. cbn [rbind]. by apply IH.
  - rewrite elems_more by lia. unfold answer, resume, next. cbn [fold_left]. f_equal. unfold close. cbn [add_done fdone fcount ftype].
    destruct (parse_resp maxe r) as [v' r'| | |]; cbn [rbind]; try done. do 2 f_equal. unfold nread. cbn [fdone add_done].
    rewrite length_app. cbn [length]. lia.
Qed.

(** The steps of the parse. *)
Lemma answer_type fs c l : answer fs None (c :: l) =
  match reply_type c with
  | None => Bad (unknown_type c)
  | Some t => answer fs (Some t) l
  end.
Proof.
  unfold answer, next. rewrite parse_resp_cons. destruct (reply_type c); [done|]. apply resume_bad.
Qed.

Lemma answer_scan fs t l : Forall frame_ok fs -> answer fs (Some t) l =
  match scan maxe t l with
  | Done (Value v) r => match plug v fs with inl v' => Done v' r | inr fs' => answer fs' None r end
  | Done (Open n) r => answer (mkFrame (Tag 0) t n [] :: fs) None r
  | More => More
  | Bad e => Bad e
  | Stuck => Stuck
  end.
Proof.
  intros Hfs. unfold answer at 1, next. rewrite typed_eq. destruct (scan maxe t l) as [[v|n] r| | |] eqn:E; cbn [rbind].
  - by apply resume_plug.
  - assert (0 < n) as Hn.
    { revert E. unfold scan, bulk_value. repeat case_match; intros; simplify_eq; zify_bool; lia. }
    rewrite elems_more by done. unfold answer, resume. cbn [fold_left next]. f_equal. unfold close. cbn [fdone fcount ftype].
    destruct (parse_resp maxe r) as [v' r'| | |]; cbn [rbind]; try done. do 2 f_equal. unfold nread. cbn. lia.
  - apply resume_more.
  - apply resume_bad.
  - by apply scan_not_stuck in E.
Qed.

(** The objects of the frames do not matter. *)
Definition same_frame (f g : frame) : Prop := ftype f = ftype g /\ fcount f = fcount g /\ fdone f = fdone g.

Lemma answer_same fs gs pt l : Forall2 same_frame fs gs -> answer fs pt l = answer gs pt l.
Proof.
  unfold answer, resume. generalize (next pt l). intros m H. revert m.
  induction H as [|f g fs gs (H1 & H2 & H3) Hfs IH]; intros m; [done|]. cbn [fold_left]. rewrite IH. f_equal.
  unfold close, nread. by rewrite H1, H2, H3.
Qed.

(** A parse always ends. *)
Lemma parse_resp_total l : parse_resp maxe l <> Stuck.
Proof.
  remember (length l) as m eqn:Em. revert l Em. induction (lt_wf m) as [m _ IH]. intros [|c l] ->; [done|].
  rewrite parse_resp_cons. destruct (reply_type c) as [t|]; [|done]. rewrite typed_eq.
  destruct (scan maxe t l) as [[v|n] r| | |] eqn:E; cbn [rbind]; try done; [|by apply scan_not_stuck in E].
  apply scan_shorter in E.
  assert (forall k n acc r, (length r <= k)%nat -> (length r < length (c :: l))%nat -> elems maxe n acc r <> Stuck) as H.
  { clear -IH. intros k. induction k as [|k IHk]; intros n acc r Hk Hr;
      (destruct (Z_le_gt_dec n 0); [by rewrite elems_none|]); rewrite elems_more by lia.
    - by destruct r; [|cbn in Hk; lia].
    - specialize (IH _ Hr r eq_refl). destruct (parse_resp maxe r) as [v' r'| | |] eqn:E; cbn [rbind]; try done.
      apply parse_resp_shrinks in E. apply IHk; lia. }
  specialize (H (length r) n [] r (le_n _)). cbn [length] in H. specialize (H ltac:(lia)).
  by destruct (elems maxe n [] r).
Qed.

(** *** All values of a text *)

Definition after (m : result resp) : list resp * ending :=
  match m with
  | Done v r => (v :: (parse_all maxe r).1, (parse_all maxe r).2)
  | Bad e => ([], Fails e)
  | _ => ([], Waits)
  end.

Lemma parse_many_agree m : forall l f f', (length l <= m)%nat -> (length l < f)%nat -> (length l < f')%nat ->
  parse_many maxe f l = parse_many maxe f' l.
Proof.
  induction m as [|m IH]; intros l f f' Hm Hf Hf'; (destruct f as [|f]; [lia|]); (destruct f' as [|f']; [lia|]); cbn [parse_many].
  - by destruct l; [|cbn in Hm; lia].
  - destruct (parse_resp maxe l) as [v r| | |] eqn:E; try done. apply parse_resp_shrinks in E. rewrite (IH r f f') by lia. done.
Qed.

Lemma parse_all_eq l : parse_all maxe l = after (parse_resp maxe l).
Proof.
  unfold parse_all. cbn [parse_many]. destruct (parse_resp maxe l) as [v r| | |] eqn:E; try done. apply parse_resp_shrinks in E.
  cbn [after]. unfold parse_all. rewrite (parse_many_agree (length r) r (length l) (S (length r))) by lia.
  by destruct (parse_many maxe (S (length r)) r).
Qed.

Lemma parse_all_encode vs l : Forall (fun v => Z.of_nat (length (encode v)) < 2 ^ 63 /\ writable maxe v) vs ->
  parse_all maxe (concat (map encode vs) ++ l) = (vs ++ (parse_all maxe l).1, (parse_all maxe l).2).
Proof.
  induction 1 as [|v vs [Hl Hw] Hvs IH]; cbn [map concat app]; [by destruct (parse_all maxe l)|].
  rewrite <- app_assoc, parse_all_eq, parse_encode by done. cbn [after]. by rewrite IH.
Qed.

End answer.
