(* ===== verification/ReaderScan.v ===== *)
(** * The scanning functions of the reader

    [seekNewline] finds what [line] finds, [string2ll] accepts exactly the
    decimal texts of the numbers of [long long], the error messages fit their
    buffers. *)

From stdpp Require Import list.
From Stdlib Require Import SpecFloat String.
From S2P Require Import Prelude Cstdlib Reader Resp.

#[local] Open Scope Z_scope.
#[local] Set Warnings "-clear-no-such-hyp".
#[local] Arguments cbind {A B} !m k /.

(** [at_off b i l]: the bytes of [b] from [i] on start with [l]. *)
Definition at_off (b : list Z) (i : Z) (l : list Z) : Prop := exists x, at_pos b i (l ++ x).

Lemma at_off_rd b i c l : at_off b i (c :: l) -> rd b i = Ret c.
Proof. intros [x H]. by eapply at_pos_rd. Qed.

Lemma at_off_app b i a l : at_off b i (a ++ l) -> at_off b (i + blen a) l.
Proof. intros [x H]. exists x. rewrite <- app_assoc in H. by apply at_pos_app. Qed.

Lemma at_off_next b i c l : at_off b i (c :: l) -> at_off b (i + 1) l.
Proof. apply (at_off_app b i [c]). Qed.

Lemma at_off_prefix b i a l : at_off b i (a ++ l) -> at_off b i a.
Proof. intros [x H]. exists (l ++ x). by rewrite app_assoc. Qed.

Lemma at_off_block b i l : at_off b i l -> rd_block b i (blen l) = Ret l.
Proof. intros [x H]. by eapply at_pos_block. Qed.

Lemma at_off_drop b i l : at_off b i l -> exists x, drop (Z.to_nat i) b = l ++ x.
Proof. intros (x & _ & H). by exists x. Qed.

(** ** Lines *)

Lemma line_skip a l : 13 ∉ a -> line (a ++ l) = (fun p => (a ++ p.1, p.2)) <$> line l.
Proof.
  induction a as [|c a IH]; [intros _; cbn [app]; destruct (line l) as [[]|]; done|]. rewrite not_elem_of_cons. intros [Hc Ha]. cbn [app line].
  destruct (Z.eqb_spec c 13); [congruence|]. cbn [andb]. rewrite IH by done. by destruct (line l).
Qed.

Lemma line_cr d l : line (13 :: d :: l) = if d =? 10 then Some ([], l) else (fun p => (13 :: p.1, p.2)) <$> line (d :: l).
Proof.
  change (line (13 :: d :: l)) with (if bool_decide (Some d = Some 10) then Some ([], l) else (fun p => (13 :: p.1, p.2)) <$> line (d :: l)).
  destruct (Z.eqb_spec d 10) as [->|]; [by rewrite bool_decide_true|]. by rewrite bool_decide_false by congruence.
Qed.

Lemma seek_cr_spec b s _len : forall l fuel pos,
  at_off b (s + pos) l -> blen l = _len + 1 - pos -> pos <= _len -> (Z.to_nat (_len - pos) < fuel)%nat ->
  exists a l2, l = a ++ l2 /\ seek_cr b fuel s pos _len = Ret (pos + blen a) /\ (13 ∉ a) /\
    (pos + blen a = _len \/ pos + blen a < _len /\ exists l3, l2 = 13 :: l3).
Proof.
  induction l as [|c l IH]; intros fuel pos Ha Hl Hp Hf; [rewrite blen_nil in Hl; lia|]. destruct fuel as [|fuel]; [lia|].
  cbn [seek_cr]. rewrite blen_cons in Hl. destruct (Z.ltb_spec pos _len) as [H|H].
  - rewrite (at_off_rd _ _ _ _ Ha). cbn [cbind]. destruct (Z.eqb_spec c 13) as [->|Hc].
    + exists [], (13 :: l). rewrite blen_nil, Z.add_0_r. split; [done|]. split; [done|]. split; [by apply not_elem_of_nil|]. eauto.
    + apply at_off_next in Ha. rewrite <- Z.add_assoc in Ha.
      destruct (IH fuel (pos + 1) Ha ltac:(lia) ltac:(lia) ltac:(lia)) as (a & l2 & -> & -> & Hn & Hcase).
      exists (c :: a), l2. rewrite blen_cons. split; [done|]. split; [f_equal; lia|]. split; [|by rewrite Z.add_assoc].
      by apply not_elem_of_cons.
  - exists [], (c :: l). rewrite blen_nil, Z.add_0_r. split; [done|]. split; [done|]. split; [by apply not_elem_of_nil|]. left. lia.
Qed.

Lemma seek_loop_spec b s _len : forall fuel l pos,
  at_off b (s + pos) l -> blen l = _len + 1 - pos -> pos <= _len -> (Z.to_nat (_len - pos) < fuel)%nat ->
  seek_loop b fuel s pos _len = Ret ((fun p => s + pos + blen p.1) <$> line l).
Proof.
  induction fuel as [|fuel IH]; intros l pos Ha Hl Hp Hf; [lia|]. cbn [seek_loop].
  destruct (Z.ltb_spec pos _len) as [H|H].
  - destruct (seek_cr_spec b s _len l (S fuel) pos Ha Hl Hp Hf) as (a & l2 & -> & -> & Hn & Hcase). cbn [cbind].
    rewrite line_skip by done. apply at_off_app in Ha. rewrite <- Z.add_assoc in Ha. rewrite blen_app in Hl. pose proof (blen_nonneg a).
    destruct (Z.eqb_spec (pos + blen a) _len) as [E|E].
    + destruct l2 as [|x [|y l2]]; cbn [line]; rewrite ?blen_nil, ?blen_cons in Hl; [done| |pose proof (blen_nonneg l2); lia].
      cbn. by rewrite andb_false_r.
    + destruct Hcase as [|(_ & l3 & ->)]; [lia|]. pose proof (at_off_next _ _ _ _ Ha) as Ha'.
      rewrite blen_cons in Hl. destruct l3 as [|d l3]; [rewrite blen_nil in Hl; lia|].
      rewrite (at_off_rd _ _ _ _ Ha'). rewrite line_cr. cbn [cbind].
      destruct (Z.eqb_spec d 10) as [->|Hd].
      * cbn. do 2 f_equal. rewrite app_nil_r. lia.
      * assert (1 <= blen (d :: l3)) by (rewrite blen_cons; pose proof (blen_nonneg l3); lia). rewrite (IH (d :: l3) (pos + blen a + 1)); [|by rewrite !Z.add_assoc in *|lia..].
        destruct (line (d :: l3)) as [[s' r']|]; cbn; [|done]. do 2 f_equal. rewrite blen_app, blen_cons. lia.
  - destruct l as [|x [|y l]]; rewrite ?blen_nil, ?blen_cons in Hl; [lia| |pose proof (blen_nonneg l); lia].
    cbn. by rewrite andb_false_r.
Qed.

Lemma seekNewline_line b s l : at_off b s l -> blen l < 2 ^ 31 ->
  seekNewline b s (blen l) = Ret ((fun p => s + blen p.1) <$> line l).
Proof.
  intros Ha Hl. pose proof (blen_nonneg l). unfold seekNewline.
  assert (i32 (u64 (blen l - 1)) = blen l - 1) as ->.
  { destruct (Z.eq_dec (blen l) 0) as [->|]; [done|]. unfold u64. rewrite Z.mod_small by lia. apply i32_small. lia. }
  destruct (Z.eq_dec (blen l) 0) as [E|E].
  - destruct l; [done|rewrite blen_cons in E; pose proof (blen_nonneg l); lia].
  - rewrite (seek_loop_spec b s (blen l - 1) _ l 0); [|by rewrite Z.add_0_r|lia..]. by rewrite Z.add_0_r.
Qed.

(** ** Numbers *)

Lemma dec_run_mono l : forall a k, 0 <= a -> a <= (dec_run l a k).1.1.
Proof.
  induction l as [|c l IH]; intros a k Ha; cbn [dec_run]; [cbn; lia|]. destruct (isdigit c) eqn:Hc; [|cbn; lia].
  apply isdigit_range in Hc. specialize (IH (10 * a + (c - 48)) (k + 1) ltac:(lia)). lia.
Qed.

Lemma dec_run_count l : forall a k, dec_run l a k = ((dec_run l a 0).1.1, k + (dec_run l a 0).1.2, (dec_run l a 0).2).
Proof.
  induction l as [|c l IH]; intros a k; cbn [dec_run]; [cbn; f_equal; f_equal; lia|]. destruct (isdigit c); [|cbn; f_equal; f_equal; lia].
  rewrite (IH _ (k + 1)), (IH _ (0 + 1)). cbn [fst snd]. f_equal. f_equal. lia.
Qed.

(** The loop runs over the digits unless the value leaves [unsigned long long]. *)
Lemma ll_digits_spec b slen : forall l fuel p plen v,
  at_off b p l -> blen l = slen - plen -> 0 <= v <= ULLONG_MAX -> (length l < fuel)%nat ->
  ll_digits b fuel p plen slen v =
    Ret (if (dec_run l v 0).1.1 <=? ULLONG_MAX then Some (plen + (dec_run l v 0).1.2, (dec_run l v 0).1.1) else None).
Proof.
  induction l as [|c l IH]; intros fuel p plen v Ha Hl Hv Hf; (destruct fuel as [|fuel]; [lia|]); cbn [ll_digits].
  - rewrite blen_nil in Hl. destruct (Z.ltb_spec plen slen); [lia|]. cbn [dec_run fst snd]. destruct (Z.leb_spec v ULLONG_MAX); [|lia].
    do 3 f_equal. lia.
  - rewrite blen_cons in Hl. pose proof (blen_nonneg l). destruct (Z.ltb_spec plen slen); [|lia].
    rewrite (at_off_rd _ _ _ _ Ha). cbn [cbind dec_run]. destruct (isdigit c) eqn:Hc; cbn [fst snd].
    2: { destruct (Z.leb_spec v ULLONG_MAX); [|lia]. do 3 f_equal. lia. }
    apply isdigit_range in Hc. pose proof (dec_run_mono l (10 * v + (c - 48)) (0 + 1) ltac:(lia)) as Hm.
    unfold ULLONG_MAX in *. change ((2 ^ 64 - 1) / 10) with 1844674407370955161. destruct (Z.ltb_spec 1844674407370955161 v).
    { destruct (Z.leb_spec (dec_run l (10 * v + (c - 48)) (0 + 1)).1.1 (2 ^ 64 - 1)); [lia|done]. }
    unfold u64. rewrite (Z.mod_small (v * 10)) by lia. destruct (Z.ltb_spec (2 ^ 64 - 1 - (c - 48)) (v * 10)).
    { destruct (Z.leb_spec (dec_run l (10 * v + (c - 48)) (0 + 1)).1.1 (2 ^ 64 - 1)); [lia|done]. }
    rewrite Z.mod_small by lia. apply at_off_next in Ha. cbn [length] in Hf.
    rewrite (IH fuel (p + 1) (plen + 1) (v * 10 + (c - 48)) Ha) by lia. replace (v * 10 + (c - 48)) with (10 * v + (c - 48)) by lia.
    rewrite (dec_run_count l _ (0 + 1)). cbn [fst snd]. destruct (_ <=? _); [|done]. do 3 f_equal. lia.
Qed.

Lemma dec_run_le l : forall a k, (dec_run l a k).1.2 <= k + blen l.
Proof.
  induction l as [|c l IH]; intros a k; cbn [dec_run]; [rewrite blen_nil; cbn; lia|]. rewrite blen_cons. pose proof (blen_nonneg l).
  destruct (isdigit c); [|cbn; lia]. specialize (IH (10 * a + (c - 48)) (k + 1)). lia.
Qed.

Lemma dec_run_all l : forall a k, (dec_run l a k).1.2 = k + blen l -> Forall (fun c => isdigit c = true) l.
Proof.
  induction l as [|c l IH]; intros a k; cbn [dec_run]; [constructor|]. rewrite blen_cons. pose proof (blen_nonneg l).
  destruct (isdigit c) eqn:Hc; [|cbn; lia]. intros H1. constructor; [done|]. apply (IH (10 * a + (c - 48)) (k + 1)). lia.
Qed.

Lemma dec_run_snoc l c : forall a k, Forall (fun c => isdigit c = true) l -> isdigit c = true ->
  (dec_run (l ++ [c]) a k).1.1 = 10 * (dec_run l a k).1.1 + (c - 48).
Proof.
  induction l as [|d l IH]; intros a k Hl Hc; cbn [app dec_run]; [by rewrite Hc|].
  apply Forall_cons in Hl as [-> Hl]. by apply IH.
Qed.

(** The text of a number is the only one without leading zeros. *)
Lemma dec_digits_unique d ds : forall fuel acc, 49 <= d <= 57 -> Forall (fun c => isdigit c = true) ds ->
  (dec_run (d :: ds) 0 0).1.1 < 10 ^ Z.of_nat fuel -> dec_digits fuel (dec_run (d :: ds) 0 0).1.1 acc = d :: ds ++ acc.
Proof.
  intros fuel acc Hd. assert (isdigit d = true) as Hdd by (unfold isdigit; lia). revert fuel acc.
  induction ds as [|c ds IH] using rev_ind; intros fuel acc Hds Hv.
  - cbn [dec_run] in *. rewrite Hdd in *. cbn [fst] in *. destruct fuel as [|fuel]; [cbn in Hv; lia|]. cbn [dec_digits].
    destruct (Z.ltb_spec (10 * 0 + (d - 48)) 10); [|lia]. cbn [app]. f_equal. lia.
  - apply Forall_app in Hds as [Hds Hc]. apply Forall_cons in Hc as [Hc _].
    change (d :: ds ++ [c]) with ((d :: ds) ++ [c]) in *. rewrite dec_run_snoc in * by (done || by constructor).
    pose proof (isdigit_range c Hc) as Hr. set (v := (dec_run (d :: ds) 0 0).1.1) in *.
    assert (1 <= v) as Hv1.
    { subst v. cbn [dec_run]. rewrite Hdd. pose proof (dec_run_mono ds (10 * 0 + (d - 48)) (0 + 1) ltac:(lia)). lia. }
    destruct fuel as [|fuel]; [cbn in Hv; lia|]. rewrite Nat2Z.inj_succ, Z.pow_succ_r in Hv by lia. cbn [dec_digits].
    destruct (Z.ltb_spec (10 * v + (c - 48)) 10); [lia|].
    replace ((10 * v + (c - 48)) / 10) with v by dlia. replace ((10 * v + (c - 48)) mod 10) with (c - 48) by dlia.
    rewrite IH by (done || lia). rewrite <- app_assoc. cbn [app]. do 3 f_equal. lia.
Qed.

Lemma dec_positive z : 0 < z < 10 ^ 20 -> exists d ds, dec z = d :: ds /\ 49 <= d <= 57.
Proof.
  intros Hz. unfold dec. destruct (Z.ltb_spec z 0); [lia|]. destruct (dec_digits_head 20 z []) as (d & ds & -> & Hd); [lia|]. eauto.
Qed.

(** The digits after the sign. *)
Lemma magnitude b p plen slen c l :
  at_off b p (c :: l) -> 1 + blen l = slen - plen -> 49 <= c <= 57 -> 0 <= plen ->
  ll_digits b (Z.to_nat slen) (p + 1) (plen + 1) slen (c - 48) =
    Ret (if (dec_run (c :: l) 0 0).1.1 <=? ULLONG_MAX then Some (plen + (dec_run (c :: l) 0 0).1.2, (dec_run (c :: l) 0 0).1.1) else None).
Proof.
  intros Ha Hl Hc Hp. pose proof (blen_nonneg l).
  rewrite (ll_digits_spec b slen l) by (first [by eapply at_off_next|unfold ULLONG_MAX, blen in *; lia]).
  cbn [dec_run]. assert (isdigit c = true) as -> by (unfold isdigit; lia). rewrite (dec_run_count l _ (0 + 1)). cbn [fst snd].
  change (10 * 0 + (c - 48)) with (0 + (c - 48)). rewrite Z.add_0_l. destruct (_ <=? _); [|done]. do 3 f_equal. lia.
Qed.

Definition sign (neg : bool) : list Z := if neg then [45] else [].

(** A text that starts with a digit that is not 0. *)
Lemma integer_digits neg c l : 49 <= c <= 57 ->
  integer (sign neg ++ c :: l) =
    let v := (dec_run (c :: l) 0 0).1.1 in
    if ((dec_run (c :: l) 0 0).1.2 =? 1 + blen l) && (if neg then v <=? 2 ^ 63 else v <? 2 ^ 63)
    then Some (if neg then - v else v) else None.
Proof.
  intros Hc. cbv zeta. set (v := (dec_run (c :: l) 0 0).1.1). destruct (_ && _) eqn:E.
  - apply andb_prop in E as [E1 E2]. apply Z.eqb_eq in E1.
    assert (1 <= v <= 2 ^ 63 /\ (neg = false -> v < 2 ^ 63)) as [Hv Hv'].
    { split; [split|].
      - subst v. cbn [dec_run]. assert (isdigit c = true) as -> by (unfold isdigit; lia).
        pose proof (dec_run_mono l (10 * 0 + (c - 48)) (0 + 1) ltac:(lia)). lia.
      - destruct neg; lia.
      - intros ->. lia. }
    rewrite <- (blen_cons c l) in E1. apply (dec_run_all (c :: l) 0 0) in E1. apply Forall_cons in E1 as [_ Hl].
    pose proof (dec_digits_unique c l 20 [] Hc Hl ltac:(subst v; lia)) as Hd. rewrite app_nil_r in Hd. fold v in Hd.
    apply integer_spec. destruct neg; cbn [sign app].
    + split; [lia|]. unfold dec. destruct (Z.ltb_spec (- v) 0); [|lia]. by rewrite Z.opp_involutive, Hd.
    + specialize (Hv' eq_refl). split; [lia|]. unfold dec. destruct (Z.ltb_spec v 0); [lia|]. by rewrite Hd.
  - destruct (integer _) as [z|] eqn:Ez; [exfalso|done]. apply integer_spec in Ez as [Hz Hs].
    destruct (dec_signed z Hz) as (d & ds & Hd & Hr & Hdec). rewrite Hdec in Hs.
    apply Forall_cons in Hd as [Hd _]. apply isdigit_range in Hd.
    assert (neg = (z <? 0) /\ c :: l = d :: ds) as [-> E2].
    { destruct neg, (z <? 0); cbn [sign app] in Hs; simplify_eq; (done || lia). }
    subst v. rewrite E2, Hr in E. cbn [fst snd] in E. injection E2 as -> ->. rewrite blen_cons, Z.eqb_refl in E. cbn [andb] in E.
    destruct (Z.ltb_spec z 0); lia.
Qed.

(** Any other text but the one of 0. *)
Lemma integer_other neg l : match l with c :: _ => ~ 49 <= c <= 57 /\ (neg = false -> c <> 45 /\ l <> [48]) | [] => True end ->
  integer (sign neg ++ l) = None.
Proof.
  intros Hl. destruct (integer _) as [z|] eqn:Ez; [exfalso|done]. apply integer_spec in Ez as [Hz Hs].
  destruct (dec_signed z Hz) as (d & ds & Hd & _ & Hdec). apply Forall_cons in Hd as [Hd _]. apply isdigit_range in Hd.
  destruct (Z_lt_ge_dec z 0) as [Hn|Hn].
  - destruct (dec_positive (- z)) as (e & es & He & Hr); [lia|].
    assert (dec z = 45 :: e :: es) as E.
    { rewrite <- He. unfold dec. destruct (Z.ltb_spec z 0), (Z.ltb_spec (- z) 0); (lia || done). }
    rewrite E in Hs. destruct neg, l; cbn [sign app] in Hs; simplify_eq; [lia|]. destruct Hl as [_ Hl]. by destruct (Hl eq_refl).
  - destruct (Z.eq_dec z 0) as [->|Hz0].
    + change (dec 0) with [48] in Hs. destruct neg, l; cbn [sign app] in Hs; simplify_eq. destruct Hl as [_ Hl]. by destruct (Hl eq_refl).
    + destruct (dec_positive z) as (e & es & He & Hr); [lia|]. rewrite He in Hs. destruct neg, l; cbn [sign app] in Hs; simplify_eq; lia.
Qed.

(** The end of [string2ll]: the digits and the range. *)
Lemma number_spec b p neg c l slen :
  at_off b p (c :: l) -> slen = blen (sign neg ++ c :: l) -> 49 <= c <= 57 ->
  (let! d := ll_digits b (Z.to_nat slen) (p + 1) ((if neg then 1 else 0) + 1) slen (c - 48) in
   match d with
   | None => Ret None
   | Some (plen, v) =>
       if plen <? slen then Ret None
       else if neg then if 2 ^ 63 <? v then Ret None else Ret (Some (i64 (u64 (- v))))
       else if LLONG_MAX <? v then Ret None
       else Ret (Some v)
   end) = Ret (integer (sign neg ++ c :: l)).
Proof.
  intros Ha -> Hc. rewrite integer_digits by done. cbv zeta.
  assert (blen (sign neg ++ c :: l) = (if neg then 1 else 0) + (1 + blen l)) as Hb.
  { rewrite blen_app, blen_cons. by destruct neg. }
  rewrite (magnitude b p _ _ c l Ha) by (rewrite ?Hb; destruct neg; lia). cbn [cbind].
  pose proof (dec_run_mono (c :: l) 0 0 ltac:(lia)) as Hm. set (v := (dec_run (c :: l) 0 0).1.1) in *.
  assert ((dec_run (c :: l) 0 0).1.2 <= 1 + blen l) as Hn.
  { rewrite <- (blen_cons c l). apply (dec_run_le (c :: l) 0 0). }
  set (n := (dec_run (c :: l) 0 0).1.2) in *. rewrite Hb. unfold ULLONG_MAX, LLONG_MAX. destruct (Z.leb_spec v (2 ^ 64 - 1)); cbn [cbind].
  - destruct (Z.ltb_spec ((if neg then 1 else 0) + n) ((if neg then 1 else 0) + (1 + blen l))), (Z.eqb_spec n (1 + blen l)); try lia; cbn [andb];
      [done|]. destruct neg.
    + destruct (Z.ltb_spec (2 ^ 63) v), (Z.leb_spec v (2 ^ 63)); try lia; [done|]. do 2 f_equal. unfold i64, swrap, u64.
      destruct (Z.eq_dec v 0) as [->|]; [done|]. replace (- v) with (2 ^ 64 - v + - 1 * 2 ^ 64) by lia. rewrite Z.mod_add, (Z.mod_small (2 ^ 64 - v)) by lia.
      change (2 ^ (64 - 1)) with (2 ^ 63). replace (2 ^ 64 - v + 2 ^ 63) with (2 ^ 63 - v + 1 * 2 ^ 64) by lia. rewrite Z.mod_add, Z.mod_small by lia. lia.
    + destruct (Z.ltb_spec (2 ^ 63 - 1) v), (Z.ltb_spec v (2 ^ 63)); try lia; done.
  - destruct (n =? 1 + blen l); [|done]. cbn [andb]. destruct neg.
    + destruct (Z.leb_spec v (2 ^ 63)); [lia|done].
    + destruct (Z.ltb_spec v (2 ^ 63)); [lia|done].
Qed.

Lemma string2ll_integer b s str : at_off b s str -> string2ll b s (blen str) = Ret (integer str).
Proof.
  intros Ha. unfold string2ll. destruct str as [|c0 l]; [done|]. rewrite blen_cons. pose proof (blen_nonneg l) as Hl0.
  destruct (Z.eqb_spec 0 (1 + blen l)); [lia|]. rewrite (at_off_rd _ _ _ _ Ha). cbn [cbind].
  destruct ((1 + blen l =? 1) && (c0 =? 48)) eqn:E0.
  { apply andb_prop in E0 as [E1%Z.eqb_eq ->%Z.eqb_eq]. destruct l; [done|rewrite blen_cons in E1; pose proof (blen_nonneg l); lia]. }
  destruct (Z.eqb_spec c0 45) as [->|Hc0].
  - destruct l as [|c l]; [done|]. rewrite blen_cons in *. pose proof (blen_nonneg l). destruct (Z.eqb_spec 1 (1 + (1 + blen l))); [lia|]. cbn [andb].
    apply at_off_next in Ha. rewrite (at_off_rd _ _ _ _ Ha). cbn [cbind]. destruct ((49 <=? c) && (c <=? 57)) eqn:Ec.
    + apply (number_spec b (s + 1) true c l); [done|by rewrite blen_app, blen_cons|]. lia.
    + destruct (Z.eqb_spec (1 + (1 + blen l)) 1); [lia|]. rewrite andb_false_r. change (45 :: c :: l) with (sign true ++ c :: l).
      rewrite integer_other; [done|]. split; [lia|done].
  - cbn [andb]. rewrite (at_off_rd _ _ _ _ Ha). cbn [cbind]. destruct ((49 <=? c0) && (c0 <=? 57)) eqn:Ec.
    + apply (number_spec b s false c0 l); [done|by rewrite blen_app, blen_cons|]. lia.
    + change (c0 :: l) with (sign false ++ c0 :: l). rewrite integer_other.
      * destruct (Z.eqb_spec c0 48), (Z.eqb_spec (1 + blen l) 1); cbn [andb] in *; done.
      * split; [lia|]. intros _. split; [done|]. intros [= -> ->]. done.
Qed.

(** C34: [string2ll] accepts exactly the decimal texts of the 64-bit integers, as
    [dec] writes them (no leading zero, no plus sign), and gives their value;
    it reads nothing beyond the text and never overflows. *)
Theorem string2ll_exact b s str : at_off b s str ->
  exists r, string2ll b s (blen str) = Ret r /\ forall z, r = Some z <-> - 2 ^ 63 <= z < 2 ^ 63 /\ str = dec z.
Proof. intros Ha. exists (integer str). split; [by apply string2ll_integer|]. intros z. apply integer_spec. Qed.

Definition lowest : list Z := dec (- 2 ^ 63).

Lemma string2ll_exact_witness :
  exists r, string2ll (lowest ++ [13; 10]) 0 (blen lowest) = Ret r /\ forall z, r = Some z <-> - 2 ^ 63 <= z < 2 ^ 63 /\ lowest = dec z.
Proof. apply (string2ll_exact (lowest ++ [13; 10]) 0 lowest). exists [13; 10]. split; [done|reflexivity]. Defined.
