(* ===== verification/ReaderProof.v ===== *)
(** * The reader refines the parser of RESP3

    [ReplyLaws] is what the reader relies on from its callbacks: each makes
    the object of a value, attached to the innermost open aggregate, or
    nothing, and what is made can be freed.  Against it every step of the
    reader is a step of [answer] on the bytes that are left. *)

From stdpp Require Import gmap.
From Stdlib Require Import SpecFloat String.
From S2P Require Import Prelude Cstdlib Heap Sds Reader Resp ReaderScan.

#[local] Open Scope Z_scope.
#[local] Set Warnings "-clear-no-such-hyp".
#[local] Arguments cbind {A B} !m k /.

(** ** The interface of the callbacks *)

Section interface.
Context {A : Allocator} {G : Garbage} {N : Ndebug} {S : Type}.
#[local] Abbreviation world := (@world S).

(** The callbacks own some blocks, others are owned by [bs]. *)
Definition held (h0 : heap) (bs : list Z) (P : list Z -> S -> Prop) (w : world) : Prop :=
  exists obs, P obs w.2 /\ acquires h0 (bs ++ obs) w.1.

(** A build without NDEBUG fails on some elements of a push. *)
Definition tolerant (fs : list frame) : Prop := ndebug = true \/ Forall (fun f => ftype f <> REDIS_REPLY_PUSH) fs.

(** Index in the parent and parent of the item that is being read. *)
Definition place (fs : list frame) : Z :=
  match fs with
  | [] => -1
  | f :: _ => nread f
  end.

Definition above (fs : list frame) : option nat :=
  match fs with
  | [] => None
  | _ :: fs => Some (length fs)
  end.

(** The task of a callback and its parent's. *)
Definition task_for (fs : list frame) (cur : redisReadTask) (par : option redisReadTask) : Prop :=
  match fs with
  | [] => par = None
  | f :: _ => tidx cur = nread f /\ exists p, par = Some p /\ tobj p = Some (fobj f)
  end.

Definition built (objects : list Z -> S -> Prop) (made : object -> list Z -> S -> Prop) (h0 : heap) (bs : list Z)
  (r : option object * world) : Prop :=
  match r with
  | (Some o, w) => held h0 bs (made o) w
  | (None, w) => held h0 bs objects w /\ starved
  end.

Class ReplyLaws (F : @redisReplyObjectFunctions S) := {
  objects : list (object * resp) -> list frame -> list Z -> S -> Prop;
  made : list (object * resp) -> list frame -> object -> resp -> list Z -> S -> Prop;
  (** [f] makes the object of [v] for a task that satisfies [P]. *)
  makes (P : redisReadTask -> Prop) (v : resp) (f : create) : Prop :=
    forall h0 bs gs fs w cur par, Forall frame_ok fs -> tolerant fs -> task_for fs cur par -> P cur ->
      held h0 bs (objects gs fs) w ->
      yields (f cur par w) (built (objects gs fs) (fun o => made gs fs o v) h0 bs);
  law_string : exists f, createString F = Some f /\
    (forall t s x, t = REDIS_REPLY_STRING \/ t = REDIS_REPLY_STATUS \/ t = REDIS_REPLY_ERROR ->
       makes (fun cur => ttype cur = t) (RText t s) (f (s ++ x) (blen s))) /\
    (forall s x, 4 <= blen s < 2 ^ 63 -> makes (fun cur => ttype cur = REDIS_REPLY_VERB) (RVerb (take 3 s) (drop 4 s)) (f (s ++ x) (blen s)));
  law_integer : exists f, createInteger F = Some f /\ forall z, makes (fun _ => True) (RInteger z) (f z);
  law_double : exists f, createDouble F = Some f /\
    forall d s, makes (fun _ => True) (RDouble d s) (f d (s ++ [0]) (blen s));
  law_nil : exists f, createNil F = Some f /\ makes (fun _ => True) RNil f;
  law_bool : exists f, createBool F = Some f /\ forall b : bool, makes (fun _ => True) (RBool b) (f (if b then 1 else 0));
  law_array : exists f, createArray F = Some f /\
    forall h0 bs gs fs w cur par n, 0 <= n < 2 ^ 60 -> is_aggregate (ttype cur) = true -> Forall frame_ok fs -> tolerant fs ->
      task_for fs cur par -> held h0 bs (objects gs fs) w ->
      yields (f n cur par w)
        (built (objects gs fs)
           (fun o => if n =? 0 then made gs fs o (RArray (ttype cur) []) else objects gs (mkFrame o (ttype cur) n [] :: fs)) h0 bs);
  (** A value that is attached is an element read; the last element makes the
      aggregate a value of its parent. *)
  law_plug gs f fs o v obs s : made gs (f :: fs) o v obs s -> frame_ok f ->
    if nread f =? fcount f - 1 then made gs fs (fobj f) (RArray (ftype f) (fdone f ++ [v])) obs s
    else objects gs (add_done f v :: fs) obs s;
  (** A value without a parent is a reply of its own. *)
  law_emit gs o v obs s : made gs [] o v obs s -> objects (gs ++ [(o, v)]) [] obs s;
  law_free : exists f, freeObject F = Some f /\
    (forall h0 bs gs fs f0 w, last fs = Some f0 -> held h0 bs (objects gs fs) w ->
       yields (f (Some (fobj f0)) w) (held h0 bs (objects gs []))) /\
    (forall h0 bs gs1 o v gs2 fs w, held h0 bs (objects (gs1 ++ (o, v) :: gs2) fs) w ->
       yields (f (Some o) w) (held h0 bs (objects (gs1 ++ gs2) fs)))
}.

Lemma held_perm h0 bs bs' P w : bs ≡ₚ bs' -> held h0 bs P w -> held h0 bs' P w.
Proof. intros E (obs & H1 & H2). exists obs. split; [done|]. eapply acquires_perm; [|done]. by rewrite E. Qed.

Lemma held_mono h0 bs (P Q : list Z -> S -> Prop) w : (forall obs s, P obs s -> Q obs s) -> held h0 bs P w -> held h0 bs Q w.
Proof. intros H (obs & H1 & H2). exists obs. auto. Qed.

End interface.

(** ** The invariant *)

Section proof.
Context {A : Allocator} {G : Garbage} {N : Ndebug} {S : Type} (F : @redisReplyObjectFunctions S) `{!ReplyLaws F}.
Context (h0 : heap) (maxe : Z).
#[local] Abbreviation world := (@world S).
#[local] Abbreviation redisReader := (@redisReader S).
#[local] Abbreviation step := (@step S).

(** The tasks of the open aggregates. *)
Fixpoint stack_ok (fs : list frame) (ts : list redisReadTask) : Prop :=
  match fs with
  | [] => True
  | f :: fs =>
      (exists t, ts !! length fs = Some t /\ ttype t = ftype f /\ telements t = fcount f /\ tobj t = Some (fobj f) /\
         tidx t = place fs /\ tparent t = above fs) /\ stack_ok fs ts
  end.

Definition pending (pt : option Z) : Z := default (-1) pt.

(** The task of the next item. *)
Definition top_ok (fs : list frame) (pt : option Z) (ts : list redisReadTask) : Prop :=
  exists t, ts !! length fs = Some t /\ ttype t = pending pt /\ tidx t = place fs /\ tparent t = above fs.

Definition item_type (t : Z) : Prop := exists c, type_of_byte c = Some t.

(** The blocks of a reader. *)
Definition own (r : redisReader) : list Z :=
  rblk r :: match buf r with Some s => [sblk s] | None => [] end ++
  match task r with Some ts => tblk ts :: (titems ts).*1 | None => [] end.

(** The bytes that are left are [l]. *)
Definition left_in (r : redisReader) (l : list Z) : Prop :=
  exists s c, buf r = Some s /\ rep s c /\ len r = blen c /\ 0 <= pos r <= blen c /\ drop (Z.to_nat (pos r)) c = l.

(** The fields that do not change while replies are read. *)
Definition settled (r : redisReader) : Prop := err r = 0 /\ fn r = Some F /\ maxelements r = maxe /\ 0 < maxe < 2 ^ 40.

(** Sizes: [used] bytes are consumed, everything fits an [int]. *)
Definition fits (r : redisReader) (fs : list frame) (l : list Z) (used : Z) : Prop :=
  0 <= pos r <= used /\ used + blen l < 2 ^ 31 - 2 ^ 10 /\ Z.of_nat (length fs) <= used /\ Forall (fun f => nread f <= used) fs /\
  0 < ntasks r <= used + 10.

(** No push where elements of it may fail an assertion. *)
Definition calm (fs : list frame) (pt : option Z) (l : list Z) : Prop :=
  ndebug = true \/ (62 ∉ l) /\ pt <> Some REDIS_REPLY_PUSH /\ Forall (fun f => ftype f <> REDIS_REPLY_PUSH) fs.

Record reading (r : redisReader) (w : world) (fs : list frame) (pt : option Z) (l : list Z) (used : Z) (P : list Z -> S -> Prop) : Prop := {
  rd_settled : settled r;
  rd_left : left_in r l;
  rd_tasks : exists ts, task r = Some ts /\ stack_ok fs (titems ts).*2 /\ top_ok fs pt (titems ts).*2;
  rd_ridx : ridx r = Z.of_nat (length fs);
  rd_reply : reply r = fobj <$> last fs;
  rd_frames : Forall frame_ok fs /\ Forall (fun f => is_aggregate (ftype f) = true) fs;
  rd_type : forall t, pt = Some t -> item_type t;
  rd_fits : fits r fs l used;
  rd_calm : calm fs pt l;
  rd_mem : held h0 (own r) P w
}.

(** Between two replies. *)
Record resting (r : redisReader) (w : world) (l : list Z) (used : Z) (P : list Z -> S -> Prop) : Prop := {
  rs_settled : settled r;
  rs_left : left_in r l;
  rs_tasks : exists ts, task r = Some ts;
  rs_ridx : ridx r = -1;
  rs_fits : fits r [] l used;
  rs_calm : calm [] None l;
  rs_mem : held h0 (own r) P w
}.

(** After an error. *)
Record broken (r : redisReader) (w : world) (gs : list (object * resp)) : Prop := {
  bk_buf : buf r = None;
  bk_reply : reply r = None;
  bk_fn : fn r = Some F;
  bk_mem : held h0 (own r) (objects gs []) w
}.

Lemma stack_insert fs ts i t : stack_ok fs ts -> (length fs <= i)%nat -> stack_ok fs (<[i := t]> ts).
Proof.
  induction fs as [|f fs IH]; cbn [stack_ok length]; [done|]. intros [(t' & H1 & H2) Hfs] Hi. split; [|apply IH; [done|lia]].
  exists t'. rewrite list_lookup_insert_ne by lia. done.
Qed.

Lemma stack_app fs ts x : stack_ok fs ts -> stack_ok fs (ts ++ x).
Proof.
  induction fs as [|f fs IH]; cbn [stack_ok]; [done|]. intros [(t' & H1 & H2) Hfs]. split; [|by apply IH].
  exists t'. split; [by apply lookup_app_l_Some|done].
Qed.

Lemma above_frame f fs : above (f :: fs) = Some (length fs).
Proof. done. Qed.

(** *** The next task *)

Lemma task_at_ok (r : redisReader) ts i t : task r = Some ts -> (titems ts).*2 !! i = Some t -> task_at r (Z.of_nat i) = Ret t.
Proof.
  intros Ht Hi. unfold task_at. rewrite Ht. cbn [deref cbind]. destruct (Z.leb_spec 0 (Z.of_nat i)); [|lia]. rewrite Nat2Z.id.
  rewrite list_lookup_fmap in Hi. destruct (titems ts !! i) as [[b t']|]; cbn in Hi; simplify_eq. done.
Qed.

Lemma put_task_ok (r : redisReader) ts i t t' : task r = Some ts -> (titems ts).*2 !! i = Some t ->
  exists its, put_task r (Z.of_nat i) t' = Ret (with_task r (Some (mkTasks (tblk ts) (tcap ts) its))) /\
    its.*1 = (titems ts).*1 /\ its.*2 = <[i := t']> ((titems ts).*2).
Proof.
  intros Ht Hi. rewrite list_lookup_fmap in Hi. destruct (titems ts !! i) as [[b u]|] eqn:E; cbn in Hi; simplify_eq.
  exists (<[i := (b, t')]> (titems ts)). split; [|split].
  - unfold put_task. rewrite Ht. cbn [deref cbind]. destruct (Z.leb_spec 0 (Z.of_nat i)); [|lia]. by rewrite Nat2Z.id, E.
  - rewrite list_fmap_insert. cbn [fst]. apply list_insert_id. by rewrite list_lookup_fmap, E.
  - by rewrite list_fmap_insert.
Qed.

(** What [moveToNextTask] makes of the stack. *)
Definition moved (r r' : redisReader) (v : resp) (fs : list frame) : Prop :=
  match plug v fs with
  | inl _ => r' = with_ridx r (-1)
  | inr fs' =>
      exists ts its, task r = Some ts /\ its.*1 = (titems ts).*1 /\ stack_ok fs' its.*2 /\ top_ok fs' None its.*2 /\
        r' = with_ridx (with_task r (Some (mkTasks (tblk ts) (tcap ts) its))) (Z.of_nat (length fs'))
  end.

Lemma with_ridx_twice (r : redisReader) i j : with_ridx (with_ridx r i) j = with_ridx r j.
Proof. done. Qed.

Lemma next_task_ok fs : forall fuel (r : redisReader) ts v cur,
  task r = Some ts -> stack_ok fs (titems ts).*2 -> (titems ts).*2 !! length fs = Some cur -> tidx cur = place fs -> tparent cur = above fs ->
  ridx r = Z.of_nat (length fs) -> Forall frame_ok fs -> Forall (fun f => is_aggregate (ftype f) = true) fs ->
  Forall (fun f => nread f < 2 ^ 31 - 1) fs -> (length fs < fuel)%nat ->
  yields (next_task fuel r) (fun r' => moved r r' v fs).
Proof.
  induction fs as [|f fs IH]; intros fuel r ts v cur Ht Hst Hcur Hi Hp Hr Hok Hag Hsm Hf; (destruct fuel as [|fuel]; [cbn in Hf; lia|]);
    cbn [next_task].
  { rewrite Hr. apply yields_Ret. done. }
  cbn [length] in *. destruct Hst as [(p & P1 & P2 & P3 & P4 & P5 & P6) Hst].
  apply Forall_cons in Hok as [Hok Hoks], Hag as [Hag Hags], Hsm as [Hsm Hsms]. unfold frame_ok in Hok.
  destruct (Z.leb_spec 0 (ridx r)); [|lia]. destruct (Z.eqb_spec (ridx r) 0); [lia|].
  rewrite Hr. rewrite (task_at_ok r ts _ cur) by done. cbn [cbind].
  replace (Z.of_nat (Datatypes.S (length fs)) - 1) with (Z.of_nat (length fs)) by lia. rewrite (task_at_ok r ts _ p) by done. cbn [cbind].
  rewrite P2, Hag. unfold assert. rewrite orb_true_r. cbn [cbind]. rewrite Hi, P3. cbn [place]. unfold moved. cbn [plug].
  destruct (Z.eqb_spec (nread f) (fcount f - 1)) as [E|E].
  - eapply yields_mono; [eapply (IH fuel (with_ridx r (Z.of_nat (length fs))) ts (RArray (ftype f) (fdone f ++ [v])) p); (done || lia)|].
    unfold moved. intros r' Hm. by destruct (plug _ fs).
  - destruct (Z.ltb_spec (nread f) (fcount f)); [|lia]. rewrite orb_true_r. cbn [cbind]. unfold signed.
    unfold nread in Hsm |- *. destruct (Z.leb_spec (- 2 ^ (32 - 1)) (Z.of_nat (length (fdone f)) + 1)); [|lia].
    destruct (Z.ltb_spec (Z.of_nat (length (fdone f)) + 1) (2 ^ (32 - 1))); [|lia]. cbn [andb cbind].
    match goal with |- yields (put_task _ _ ?t') _ => destruct (put_task_ok r ts (Datatypes.S (length fs)) cur t' Ht Hcur) as (its & -> & I1 & I2) end.
    apply yields_Ret. exists ts, its. split; [done|]. split; [done|]. rewrite I2. split; [|split].
    + split; [|apply stack_insert; [done|lia]]. exists p. rewrite list_lookup_insert_ne by lia. done.
    + eexists. cbn [length]. rewrite list_lookup_insert_eq by (by eapply lookup_lt_Some). split; [reflexivity|]. cbn [ttype tidx tparent pending place above].
      split; [done|]. split; [|done]. unfold nread. cbn [fdone add_done]. rewrite length_app. cbn. lia.
    + cbn [length]. rewrite <- Hr. by destruct r.
Qed.

(** *** Objects *)

Lemma made_plug gs fs : forall o v obs s, made gs fs o v obs s -> Forall frame_ok fs ->
  match plug v fs with
  | inl v' => made gs [] (default o (fobj <$> last fs)) v' obs s
  | inr fs' => objects gs fs' obs s
  end.
Proof.
  induction fs as [|f fs IH]; intros o v obs s Hm Hok; [done|]. apply Forall_cons in Hok as [Hf Hok].
  pose proof (law_plug gs f fs o v obs s Hm Hf) as Hl. cbn [plug]. destruct (nread f =? fcount f - 1); [|done].
  specialize (IH _ _ _ _ Hl Hok). destruct (plug _ fs); [|done]. destruct fs as [|g fs]; [done|].
  rewrite last_cons_cons. by destruct (last (g :: fs)) eqn:E; [|by apply last_None in E].
Qed.

(** What [plug] leaves open. *)
Lemma plug_frames v fs fs' : plug v fs = inr fs' -> exists hs f v' gs, fs = hs ++ f :: gs /\ fs' = add_done f v' :: gs.
Proof.
  revert v. induction fs as [|f fs IH]; intros v; cbn [plug]; [done|]. destruct (nread f =? fcount f - 1).
  - intros (hs & g & v' & gs & -> & ->)%IH. by exists (f :: hs), g, v', gs.
  - intros [= <-]. by exists [], f, v, fs.
Qed.

Lemma plug_last v fs fs' : plug v fs = inr fs' -> fobj <$> last fs' = fobj <$> last fs.
Proof.
  intros (hs & f & v' & gs & -> & ->)%plug_frames. rewrite last_app. destruct gs as [|g gs]; [done|].
  rewrite !last_cons_cons. by destruct (last (g :: gs)) eqn:E; [|by apply last_None in E].
Qed.

(** ** Steps *)

Lemma held_own (r r' : redisReader) (P : list Z -> S -> Prop) w : own r = own r' -> held h0 (own r) P w -> held h0 (own r') P w.
Proof. by intros ->. Qed.

(** Consuming a part of what is left. *)
Lemma reading_advance (r : redisReader) w fs pt a l used P : reading r w fs pt (a ++ l) used P ->
  reading (with_pos r (pos r + blen a)) w fs pt l (used + blen a) P /\ u64 (pos r + blen a) = pos r + blen a.
Proof.
  intros [H1 (s & c & B1 & B2 & B3 & B4 & B5) H3 H4 H5 H6 H7 (F1 & F2 & F3 & F4 & F5) H9 H10].
  pose proof (blen_nonneg a). pose proof (blen_nonneg l). rewrite blen_app in F2.
  assert (blen c = pos r + (blen a + blen l)) as Hc.
  { rewrite <- blen_app, <- B5, blen_drop. unfold blen in *. lia. }
  split; [|unfold u64; apply Z.mod_small; lia]. split; try done.
  - exists s, c. cbn [buf with_pos with_buffer len pos]. split; [done|]. split; [done|]. split; [done|]. split; [lia|].
    replace (Z.to_nat (pos r + blen a)) with (Z.to_nat (pos r) + length a)%nat by (unfold blen in *; lia).
    rewrite <- drop_drop, B5. apply drop_app_length.
  - cbn [pos with_pos with_buffer]. split; [cbn; lia|]. split; [lia|]. split; [lia|]. split; [|change (ntasks (with_pos r (pos r + blen a))) with (ntasks r); lia].
    eapply Forall_impl; [exact F4|]. cbn. intros f Hf. lia.
  - destruct H9 as [|(C1 & C2 & C3)]; [by left|right]. split; [|done]. intros H62. apply C1. apply elem_of_app. by right.
Qed.

(** The text in the buffer. *)
Lemma reading_at (r : redisReader) l : left_in r l ->
  exists s, buf r = Some s /\ bytes r = Ret (sbuf s) /\ at_off (sbuf s) (pos r) l /\ len r = pos r + blen l.
Proof.
  intros (s & c & B1 & B2 & B3 & B4 & B5). exists s. unfold bytes. rewrite B1. split; [done|]. split; [done|].
  assert (blen c = pos r + blen l) as Hc by (rewrite <- B5, blen_drop; unfold blen in *; lia).
  split; [|lia]. destruct (rep_buf _ _ B2) as (sl & E & _). exists (0 :: sl). rewrite E. split.
  - rewrite blen_app. pose proof (blen_nonneg (0 :: sl)). lia.
  - rewrite drop_app_le by (unfold blen in *; lia). by rewrite B5.
Qed.

Lemma reading_size (r : redisReader) w fs pt l used P : reading r w fs pt l used P ->
  u64 (len r - pos r) = blen l /\ 0 <= blen l < 2 ^ 31 - 2 ^ 10 /\ 0 <= pos r < 2 ^ 31 - 2 ^ 10.
Proof.
  intros H. pose proof (rd_fits _ _ _ _ _ _ _ H) as (F1 & F2 & _). destruct (reading_at r l (rd_left _ _ _ _ _ _ _ H)) as (s & _ & _ & _ & ->).
  pose proof (blen_nonneg l). replace (pos r + blen l - pos r) with (blen l) by lia. unfold u64. rewrite Z.mod_small by lia. lia.
Qed.

Lemma readLine_ok (r : redisReader) w fs pt l used P : reading r w fs pt l used P ->
  readLine r = Ret match line l with
                   | Some (s, rest) => (Some (pos r, blen s), with_pos r (pos r + blen (s ++ crlf)))
                   | None => (None, r)
                   end.
Proof.
  intros H. destruct (reading_size _ _ _ _ _ _ _ H) as (E & Hl & Hp). destruct (reading_at r l (rd_left _ _ _ _ _ _ _ H)) as (s & Hb & Hby & Hat & _).
  unfold readLine. rewrite Hby. cbn [cbind]. rewrite E, (seekNewline_line _ _ l Hat) by lia. cbn [cbind].
  destruct (line l) as [[t rest]|] eqn:El; cbn; [|done]. apply line_rest in El. pose proof (blen_nonneg t).
  assert (blen l = blen t + (2 + blen rest)) as Hbl by (rewrite El, blen_app, !blen_cons; lia). pose proof (blen_nonneg rest).
  replace (pos r + blen t - pos r) with (blen t) by lia. rewrite i32_small by lia. do 3 f_equal.
  unfold u64. rewrite Z.mod_small by lia. rewrite blen_app. change (blen crlf) with 2. lia.
Qed.

Lemma reading_mem (r : redisReader) w w' fs pt l used P Q : reading r w fs pt l used P -> held h0 (own r) Q w' -> reading r w' fs pt l used Q.
Proof. intros [? ? ? ? ? ? ? ? ? ?] H. by split. Qed.

(** *** Errors *)

Lemma held_free b bs P (w : world) : held h0 (b :: bs) P w -> yields (free b w.1) (fun h => held h0 bs P (h, w.2)).
Proof.
  intros (obs & H1 & H2). eapply yields_mono; [by apply (free_first h0 b (bs ++ obs))|]. intros h Hh. by exists obs.
Qed.

Lemma set_error_ok (r : redisReader) w gs fs type msg : fn r = Some F -> reply r = fobj <$> last fs -> held h0 (own r) (objects gs fs) w ->
  blen msg <= 127 ->
  yields (__redisReaderSetError r type msg w) (fun '(r', w') => broken r' w' gs /\ err r' = type /\ errstr r' = msg).
Proof.
  intros Hf Hr Hm Hl. destruct law_free as (ff & Ef & Hfree & _). unfold __redisReaderSetError.
  eapply (yields_bind (fun '(r1, w1) => reply r1 = None /\ buf r1 = buf r /\ fn r1 = Some F /\ own r1 = own r /\ held h0 (own r) (objects gs []) w1)).
  { rewrite Hr. destruct (last fs) as [f0|] eqn:El; cbn [fmap option_fmap option_map].
    - unfold free_object, callback. rewrite Hf, Ef. destruct (Hfree h0 (own r) gs fs f0 w El Hm) as (w1 & -> & H1). cbn [cbind].
      by apply yields_Ret.
    - apply last_None in El as ->. by apply yields_Ret. }
  intros [r1 w1] (R1 & R2 & R3 & R4 & R5).
  eapply (yields_bind (fun h => held h0 (rblk r :: match task r with Some ts => tblk ts :: (titems ts).*1 | None => [] end) (objects gs []) (h, w1.2))).
  { rewrite R2. unfold own in R5. destruct (buf r) as [s|]; cbn [sdsfree app] in *.
    - apply held_free. eapply held_perm; [|exact R5]. by apply perm_swap.
    - by apply yields_Ret. }
  intros h Hh. apply yields_Ret. split; [|split; [done|]].
  - split; try done. eapply (held_mono _ _ (objects gs [])); [done|]. revert Hh. unfold own in R4 |- *.
    cbn [rblk buf task with_error with_ridx with_buffer app]. injection R4 as -> R4. rewrite R2 in R4. apply app_inv_head in R4. by rewrite R4.
  - cbn [errstr with_error]. replace (if blen msg <? 127 then blen msg else 127) with (blen msg) by (destruct (Z.ltb_spec (blen msg) 127); lia).
    pose proof (blen_nonneg msg). unfold sub. rewrite drop_0, blen_to_nat. by apply take_ge.
Qed.

(** What a failing step gives. *)
Definition failed (gs : list (object * resp)) (type : Z) (msg : list Z) (res : step) : Prop :=
  let '(ok, r, w) := res in ok = REDIS_ERR /\ broken r w gs /\ err r = type /\ errstr r = msg.

Lemma fails_ok (r : redisReader) w gs fs type msg : fn r = Some F -> reply r = fobj <$> last fs -> held h0 (own r) (objects gs fs) w ->
  blen msg <= 127 -> yields (fails (__redisReaderSetError r type msg w)) (failed gs type msg).
Proof.
  intros ? ? ? ?. unfold fails. eapply yields_bind; [by eapply set_error_ok|]. intros [r' w'] (E1 & E2 & E3). by apply yields_Ret.
Qed.

Lemma reading_fails (r : redisReader) w gs fs pt l used type msg : reading r w fs pt l used (objects gs fs) -> blen msg <= 127 ->
  yields (fails (__redisReaderSetError r type msg w)) (failed gs type msg).
Proof. intros [(_ & H & _) ? ? ? ? ? ? ? ? ?] Hl. by eapply fails_ok. Qed.

(** *** The callbacks *)

Lemma current_ok (r : redisReader) w fs pt l used P : reading r w fs pt l used P ->
  exists cur par, current r = Ret (cur, par) /\ task_at r (ridx r) = Ret cur /\ task_for fs cur par /\ ttype cur = pending pt /\
    tidx cur = place fs /\ tparent cur = above fs.
Proof.
  intros [? ? (ts & Ht & Hst & t & T1 & T2 & T3 & T4) Hi ? ? ? ? ? ?]. exists t. unfold current.
  rewrite Hi, (task_at_ok r ts _ t) by done. cbn [cbind]. rewrite T4. destruct fs as [|f fs]; cbn [above task_for] in *.
  - exists None. done.
  - destruct Hst as [(p & P1 & P2 & P3 & P4 & _) _]. exists (Some p). rewrite (task_at_ok r ts _ p) by done. cbn [cbind].
    split; [done|]. split; [done|]. split; [split; [done|by exists p]|]. done.
Qed.

Lemma calm_tolerant fs pt l : calm fs pt l -> tolerant fs.
Proof. intros [H|(_ & _ & H)]; [by left|by right]. Qed.

Lemma make_ok (r : redisReader) w gs fs pt l used T v f d : reading r w fs pt l used (objects gs fs) ->
  makes T v f -> (forall cur, ttype cur = pending pt -> T cur) ->
  yields (make (Some f) d r w) (built (objects gs fs) (fun o => made gs fs o v) h0 (own r)).
Proof.
  intros H Hm HT. destruct (current_ok _ _ _ _ _ _ _ H) as (cur & par & E & _ & Htask & Hty & _). unfold make. rewrite E. cbn [cbind].
  apply Hm; [apply H|eapply calm_tolerant, H|done|by apply HT|apply H].
Qed.

(** *** The end of an item *)

(** What an item that is complete leads to. *)
Definition advanced (gs : list (object * resp)) (fs : list frame) (v : resp) (l : list Z) (used : Z) (r : redisReader) (w : world) : Prop :=
  match plug v fs with
  | inl v' => exists o, resting r w l used (made gs [] o v') /\ reply r = Some o
  | inr fs' => reading r w fs' None l used (objects gs fs')
  end.

Definition starves (gs : list (object * resp)) (res : step) : Prop := failed gs REDIS_ERR_OOM (text "Out of memory") res /\ starved.

Definition finished (gs : list (object * resp)) (fs : list frame) (v : resp) (l : list Z) (used : Z) (res : step) : Prop :=
  let '(ok, r, w) := res in (ok = REDIS_OK /\ advanced gs fs v l used r w) \/ starves gs res.

(** Room for one more element. *)
Definition room (fs : list frame) (used : Z) : Prop := Forall (fun f => nread f < used) fs /\ Z.of_nat (length fs) < used.

(** The root object becomes the reply. *)
Definition rooted (r : redisReader) (o : object) : redisReader := if ridx r =? 0 then with_reply r (Some o) else r.

Lemma plug_room v fs fs' used : plug v fs = inr fs' -> room fs used ->
  Forall (fun f => nread f <= used) fs' /\ Z.of_nat (length fs') <= used.
Proof.
  intros (hs & f & v' & gs & -> & ->)%plug_frames [H1 H2]. apply Forall_app in H1 as [_ H1]. apply Forall_cons in H1 as [H1 H3].
  rewrite length_app in H2. cbn [length] in *. split; [|lia]. constructor.
  - unfold nread in *. cbn [fdone add_done]. rewrite length_app. cbn. lia.
  - eapply Forall_impl; [exact H3|]. cbn. intros g Hg. lia.
Qed.

Lemma plug_types v fs fs' (P : Z -> Prop) : plug v fs = inr fs' -> Forall (fun f => P (ftype f)) fs -> Forall (fun f => P (ftype f)) fs'.
Proof.
  intros (hs & f & v' & gs & -> & ->)%plug_frames H. apply Forall_app in H as [_ H]. by apply Forall_cons in H as [? ?]; constructor.
Qed.

Lemma moved_ok (r r' : redisReader) w gs fs pt l used o v : reading r w fs pt l used (made gs fs o v) -> room fs used ->
  moved (rooted r o) r' v fs -> advanced gs fs v l used r' w.
Proof.
  intros [H1 H2 (ts & Ht & _) H4 H5 [H6 H6'] _ (F1 & F2 & F3 & F4 & F5) H9 H10] Hroom. unfold moved, advanced.
  assert (held h0 (own r) (fun obs s => match plug v fs with
                                        | inl v' => made gs [] (default o (fobj <$> last fs)) v' obs s
                                        | inr fs' => objects gs fs' obs s
                                        end) w) as Hm.
  { eapply held_mono; [|exact H10]. intros obs s Hob. by apply made_plug. }
  assert (rooted r o = with_reply r (if ridx r =? 0 then Some o else reply r)) as ->.
  { unfold rooted. destruct (ridx r =? 0); [done|]. by destruct r. }
  destruct (plug v fs) as [v'|fs'] eqn:Ep.
  - intros ->. exists (default o (fobj <$> last fs)). split.
    + split; try done; [by exists ts| |].
      * split; [done|]. split; [done|]. split; [cbn; lia|]. done.
      * destruct H9 as [|(C1 & _)]; [by left|right]. done.
    + cbn [reply with_ridx with_reply]. rewrite H4. destruct fs as [|f fs]; [done|].
      destruct (Z.eqb_spec (Z.of_nat (length (f :: fs))) 0); [done|]. rewrite H5. by destruct (last (f :: fs)) eqn:E; [|by apply last_None in E].
  - intros (ts' & its & Ht' & I1 & I2 & I3 & ->). cbn [task with_reply] in Ht'. rewrite Ht in Ht'. injection Ht' as <-.
    destruct (plug_room _ _ _ _ Ep Hroom) as [P1 P2]. split; try done.
    + by exists (mkTasks (tblk ts) (tcap ts) its).
    + cbn [reply with_ridx with_task with_reply]. rewrite (plug_last _ _ _ Ep), H4, H5. by destruct fs.
    + split; [by eapply plug_ok|]. by eapply (plug_types _ _ _ (fun t => is_aggregate t = true)).
    + split; [done|]. split; [done|]. split; [done|]. split; [done|]. unfold ntasks in *. cbn [task with_ridx with_task titems].
      rewrite Ht in F5. by rewrite <- (length_fmap fst its), I1, length_fmap.
    + destruct H9 as [|(C1 & C2 & C3)]; [by left|right]. split; [done|]. split; [done|].
      by eapply (plug_types _ _ _ (fun t => t <> REDIS_REPLY_PUSH)).
    + revert Hm. unfold own. cbn [rblk buf task with_ridx with_task with_reply tblk titems]. by rewrite Ht, I1.
Qed.

Lemma move_ok (r : redisReader) w gs fs pt l used o v : reading r w fs pt l used (made gs fs o v) -> room fs used ->
  yields (moveToNextTask (rooted r o)) (fun r' => advanced gs fs v l used r' w).
Proof.
  intros H Hroom. pose proof H as [_ _ (ts & Ht & Hst & t & T1 & T2 & T3 & T4) H4 _ [H6 H6'] _ (F1 & F2 & F3 & F4 & F5) _ _].
  eapply yields_mono; [|intros r'; by eapply moved_ok].
  assert (ridx (rooted r o) = Z.of_nat (length fs)) as Hi by (unfold rooted; by destruct (ridx r =? 0)).
  unfold moveToNextTask. rewrite Hi. apply (next_task_ok fs _ _ ts v t); try done.
  - unfold rooted. by destruct (ridx r =? 0).
  - eapply Forall_impl; [exact F4|]. cbn. intros f Hf. pose proof (blen_nonneg l). lia.
  - lia.
Qed.

(** [item_done] on an object that was made. *)
Lemma item_done_ok (r : redisReader) w gs fs pt l used o v : reading r w fs pt l used (made gs fs o v) -> room fs used ->
  yields (item_done r (Some o) w) (finished gs fs v l used).
Proof.
  intros H Hroom. unfold item_done. change (if ridx r =? 0 then with_reply r (Some o) else r) with (rooted r o).
  eapply yields_bind; [by eapply move_ok|]. intros r' H'. apply yields_Ret. by left.
Qed.

Lemma finish_ok (r : redisReader) w gs fs pt l used T v f d : reading r w fs pt l used (objects gs fs) -> room fs used ->
  makes T v f -> (forall cur, ttype cur = pending pt -> T cur) ->
  yields (let! '(obj, w) := make (Some f) d r w in item_done r obj w) (finished gs fs v l used).
Proof.
  intros H Hroom Hm HT. eapply yields_bind; [by eapply make_ok|]. intros [[o|] w']; cbn [built].
  - intros Hb. eapply item_done_ok; [|done]. by eapply reading_mem.
  - intros [Hb Hs]. unfold item_done. eapply yields_mono; [eapply (reading_fails r w' gs fs pt l used); [by eapply reading_mem|]|].
    { vm_compute. done. }
    intros [[ok r'] w''] Hf. right. by split.
Qed.

(** ** Items *)

(** What a step on an item of type [t] with the bytes [l] left gives: what
    [scan] says, or it runs out of memory. *)
Definition scanned (gs : list (object * resp)) (fs : list frame) (t : Z) (l : list Z) (used : Z) (res : step) : Prop :=
  starves gs res \/
  match scan maxe t l with
  | Done (Value v) rest => finished gs fs v rest (used + (blen l - blen rest)) res
  | Done (Open n) rest =>
      let '(ok, r, w) := res in
      ok = REDIS_OK /\ exists o, let fs' := mkFrame o t n [] :: fs in reading r w fs' None rest (used + (blen l - blen rest)) (objects gs fs')
  | More => let '(ok, r, w) := res in ok = REDIS_ERR /\ reading r w fs (Some t) l used (objects gs fs)
  | Bad e => failed gs REDIS_ERR_PROTOCOL e res
  | Stuck => False
  end.

Lemma room_more (r : redisReader) fs l used used' : fits r fs l used -> used < used' -> room fs used'.
Proof.
  intros (_ & _ & F3 & F4 & _) Hu. split; [|lia]. eapply Forall_impl; [exact F4|]. cbn. intros f Hf. lia.
Qed.

(** A line that was read: where it is, and the reader behind it. *)
Lemma line_read (r : redisReader) w fs pt l used P s rest : reading r w fs pt l used P -> line l = Some (s, rest) ->
  let r' := with_pos r (pos r + blen (s ++ crlf)) in
  exists b x, bytes r' = Ret b /\ at_off b (pos r) (s ++ 13 :: x) /\
    reading r' w fs pt rest (used + (blen l - blen rest)) P /\ room fs (used + (blen l - blen rest)) /\ 0 <= blen s < 2 ^ 31.
Proof.
  intros H Hl. apply line_rest in Hl. destruct (reading_at r l (rd_left _ _ _ _ _ _ _ H)) as (sb & Hb & Hby & Hat & _).
  exists (sbuf sb), (10 :: rest). split; [exact Hby|]. rewrite Hl in Hat. split; [done|].
  assert (blen l - blen rest = blen (s ++ crlf)) as ->.
  { rewrite Hl, !blen_app, !blen_cons. change (blen crlf) with 2. lia. }
  assert (l = (s ++ crlf) ++ rest) as E by (by rewrite <- app_assoc).
  destruct (reading_size _ _ _ _ _ _ _ H) as (_ & Hbl & _). pose proof (blen_nonneg s). pose proof (blen_nonneg rest).
  split; [apply reading_advance; by rewrite <- E|]. split.
  - eapply room_more; [apply (rd_fits _ _ _ _ _ _ _ H)|]. rewrite blen_app. change (blen crlf) with 2. lia.
  - rewrite E, !blen_app in Hbl. change (blen crlf) with 2 in Hbl. lia.
Qed.

Lemma protocol_ok (r : redisReader) w gs fs pt l used msg : reading r w fs pt l used (objects gs fs) -> blen (text msg) <= 127 ->
  yields (protocol_error r msg w) (failed gs REDIS_ERR_PROTOCOL (text msg)).
Proof. intros. unfold protocol_error. by eapply reading_fails. Qed.

Lemma callback_ok {C : Type} (r : redisReader) (g : redisReplyObjectFunctions -> option C) f : fn r = Some F -> g F = Some f ->
  callback r g = Some f.
Proof. intros E Eg. unfold callback. by rewrite E. Qed.

Lemma processLineItem_ok (r : redisReader) w gs fs t l used : reading r w fs (Some t) l used (objects gs fs) -> is_line t = true ->
  yields (processLineItem r w) (scanned gs fs t l used).
Proof.
  intros H Ht. destruct (current_ok _ _ _ _ _ _ _ H) as (cur & _ & _ & Hcur & _ & Hty & _). unfold processLineItem. rewrite Hcur. cbn [cbind].
  rewrite (readLine_ok _ _ _ _ _ _ _ H). unfold scanned, scan. rewrite Ht. destruct (line l) as [[s rest]|] eqn:El; cbn [cbind].
  2: { apply yields_Ret. by right. }
  destruct (line_read _ _ _ _ _ _ _ _ _ H El) as (b & x & Hby & Hat & H' & Hroom & Hs). cbn [cbind].
  set (r' := with_pos r (pos r + blen (s ++ crlf))) in *. rewrite Hby. cbn [cbind]. rewrite Hty. change (pending (Some t)) with t.
  pose proof (rd_settled _ _ _ _ _ _ _ H') as (_ & Hfn & _). unfold line_value.
  assert (forall T v f d, makes T v f -> (forall cur, ttype cur = t -> T cur) ->
    yields (let! '(obj, w) := make (Some f) d r' w in item_done r' obj w)
      (fun res => starves gs res \/ finished gs fs v rest (used + (blen l - blen rest)) res)) as Hfin.
  { intros T v f d Hm HT. eapply yields_mono; [eapply finish_ok; [exact H'|exact Hroom|exact Hm|exact HT]|]. by right. }
  destruct (t =? REDIS_REPLY_INTEGER) eqn:E1.
  { destruct law_integer as (f & Ef & Hf). rewrite (callback_ok _ _ f) by done.
    rewrite (string2ll_integer b (pos r) s) by (by eapply at_off_prefix). cbn [cbind]. destruct (integer s) as [z|].
    - by apply (Hfin _ _ _ _ (Hf z)).
    - eapply yields_mono; [by eapply protocol_ok|]. by right. }
  destruct (t =? REDIS_REPLY_DOUBLE) eqn:E2.
  { destruct law_double as (f & Ef & Hf). rewrite (callback_ok _ _ f) by done. unfold u64 at 1. rewrite (Z.mod_small (blen s)) by lia.
    destruct (326 <=? blen s).
    { eapply yields_mono; [by eapply protocol_ok|]. by right. }
    rewrite (at_off_block b (pos r) s) by (by eapply at_off_prefix). cbn [cbind]. rewrite real_value. destruct (real (cstr s)) as [d|].
    - by apply (Hfin _ _ _ _ (Hf d s)).
    - eapply yields_mono; [by eapply protocol_ok|]. by right. }
  destruct (t =? REDIS_REPLY_NIL) eqn:E3.
  { destruct law_nil as (f & Ef & Hf). rewrite (callback_ok _ _ f) by done. by apply (Hfin _ _ _ _ Hf). }
  destruct (t =? REDIS_REPLY_BOOL) eqn:E4.
  { destruct law_bool as (f & Ef & Hf). rewrite (callback_ok _ _ f) by done.
    destruct s as [|c s]; cbn [app head] in *; rewrite (at_off_rd _ _ _ _ Hat); cbn [cbind fmap option_fmap option_map].
    - by apply (Hfin _ _ _ _ (Hf false)).
    - by apply (Hfin _ _ _ _ (Hf ((c =? 116) || (c =? 84)))). }
  destruct law_string as (f & Ef & Hf & _). rewrite (callback_ok _ _ f) by done. cbn [fmap option_fmap option_map].
  destruct (at_off_drop _ _ _ Hat) as (y & ->). rewrite <- app_assoc. refine (Hfin _ _ _ _ (Hf t s _ _) _); [|done].
  unfold is_line in Ht. rewrite E1, E2, E3, E4, !orb_false_r in Ht. apply orb_prop in Ht as [->%Z.eqb_eq| ->%Z.eqb_eq]; auto.
Qed.

Lemma u64_i64 z : u64 (i64 z) = u64 z.
Proof.
  unfold u64, i64, swrap. rewrite Zminus_mod, Zmod_mod, <- Zminus_mod. f_equal. lia.
Qed.

(** The end of a bulk item: the bytes [a] are consumed when there is an object. *)
Lemma bulk_finish_ok (r : redisReader) w gs fs t a l used n T v f d : reading r w fs (Some t) (a ++ l) used (objects gs fs) -> n = blen a ->
  0 < n -> makes T v f -> (forall cur, ttype cur = t -> T cur) ->
  yields (let! '(obj, w) := make (Some f) d r w in
          match obj with
          | None => fails (__redisReaderSetErrorOOM r w)
          | Some o => item_done (with_pos r (u64 (pos r + n))) (Some o) w
          end) (fun res => starves gs res \/ finished gs fs v l (used + (blen (a ++ l) - blen l)) res).
Proof.
  intros H -> Ha Hm HT. replace (blen (a ++ l) - blen l) with (blen a) by (rewrite blen_app; lia).
  eapply yields_bind; [by eapply make_ok|]. intros [[o|] w']; cbn [built].
  - intros Hb. pose proof (reading_mem _ _ _ _ _ _ _ _ _ H Hb) as H'. destruct (reading_advance _ _ _ _ _ _ _ _ H') as [H2 ->].
    eapply yields_mono; [eapply item_done_ok; [exact H2|]|by right].
    eapply room_more; [apply (rd_fits _ _ _ _ _ _ _ H)|]. lia.
  - intros [Hb Hs]. eapply yields_mono; [eapply (reading_fails r w' gs fs (Some t)); [by eapply reading_mem|]|].
    { vm_compute. done. }
    intros res Hf. left. by split.
Qed.

Lemma processBulkItem_ok (r : redisReader) w gs fs t l used : reading r w fs (Some t) l used (objects gs fs) -> is_bulk t = true ->
  yields (processBulkItem r w) (scanned gs fs t l used).
Proof.
  intros H Ht. destruct (current_ok _ _ _ _ _ _ _ H) as (cur & _ & _ & Hcur & _ & Hty & _). unfold processBulkItem. rewrite Hcur. cbn [cbind].
  destruct (reading_at r l (rd_left _ _ _ _ _ _ _ H)) as (sb & _ & Hby & Hat & Hlen).
  destruct (reading_size _ _ _ _ _ _ _ H) as (Hsz & Hbl & Hpos). rewrite Hby. cbn [cbind]. rewrite Hsz, (seekNewline_line _ _ l) by (done || lia).
  cbn [cbind]. assert (is_line t = false) as Hnl.
  { unfold is_bulk in Ht. apply orb_prop in Ht as [->%Z.eqb_eq| ->%Z.eqb_eq]; done. }
  unfold scanned, scan. rewrite Hnl, Ht. destruct (line l) as [[s rest]|] eqn:El; cbn [fmap option_fmap option_map].
  2: { apply yields_Ret. by right. }
  cbn [fst]. apply line_rest in El. assert (l = (s ++ crlf) ++ rest) as El2 by (by rewrite <- app_assoc).
  pose proof (blen_nonneg s). pose proof (blen_nonneg rest).
  assert (blen l = blen s + 2 + blen rest) as Hbl2 by (rewrite El2, !blen_app; change (blen crlf) with 2; lia).
  replace (pos r + blen s - pos r + 2) with (blen s + 2) by lia.
  assert (u64 (blen s + 2) = blen s + 2) as -> by (unfold u64; apply Z.mod_small; lia).
  assert (u64 (blen s + 2 - 2) = blen s) as -> by (unfold u64; rewrite Z.mod_small; lia).
  assert (at_off (sbuf sb) (pos r) (s ++ 13 :: 10 :: rest)) as Hat' by (by rewrite <- El).
  rewrite (string2ll_integer _ _ s) by (by eapply at_off_prefix). cbn [cbind].
  pose proof (rd_settled _ _ _ _ _ _ _ H) as (_ & Hfn & _).
  assert (forall msg, blen (text msg) <= 127 ->
    yields (protocol_error r msg w) (fun res => starves gs res \/ failed gs REDIS_ERR_PROTOCOL (text msg) res)) as Hbad.
  { intros msg Hm. eapply yields_mono; [by eapply protocol_ok|]. by right. }
  destruct (integer s) as [n|] eqn:En; [|by apply Hbad]. apply integer_spec in En as [Hn _].
  destruct (Z.ltb_spec n (-1)); [by apply Hbad|]. destruct (Z.eqb_spec n (-1)) as [->|Hn1].
  { destruct law_nil as (f & Ef & Hf). rewrite (callback_ok _ _ f) by done. rewrite El2 in H |- *.
    refine (bulk_finish_ok r w gs fs t (s ++ crlf) rest used (blen s + 2) _ _ _ _ H _ _ Hf _); [by rewrite blen_app|lia|done]. }
  rewrite u64_i64. assert (u64 (n + 2) = n + 2) as -> by (unfold u64; apply Z.mod_small; lia).
  assert (u64 (blen s + 2 + (n + 2)) = blen s + 2 + (n + 2)) as -> by (unfold u64; apply Z.mod_small; lia).
  assert (u64 (pos r + (blen s + 2 + (n + 2))) = pos r + (blen s + 2 + (n + 2))) as Hu by (unfold u64; apply Z.mod_small; lia).
  rewrite Hu at 1. unfold bulk_value. destruct (Z.ltb_spec (blen rest) (n + 2)).
  { destruct (Z.leb_spec (pos r + (blen s + 2 + (n + 2))) (len r)); [lia|]. apply yields_Ret. by right. }
  destruct (Z.leb_spec (pos r + (blen s + 2 + (n + 2))) (len r)); [|lia]. rewrite Hty. change (pending (Some t)) with t.
  set (v := take (Z.to_nat n) rest). assert (blen v = n) as Hv by (subst v; rewrite blen_take; lia).
  assert (at_off (sbuf sb) (pos r + blen s + 2) rest) as Hat2.
  { rewrite <- Z.add_assoc. replace (blen s + 2) with (blen (s ++ crlf)) by (by rewrite blen_app). apply at_off_app. by rewrite <- El2. }
  destruct (at_off_drop _ _ _ Hat2) as (y & Hy).
  assert (rest = v ++ drop (Z.to_nat n) rest) as Hrest by (symmetry; apply take_drop).
  assert (l = (s ++ crlf ++ take (Z.to_nat (n + 2)) rest) ++ drop (Z.to_nat (n + 2)) rest) as El3.
  { rewrite <- !app_assoc, take_drop. by rewrite app_assoc. }
  assert (blen (s ++ crlf ++ take (Z.to_nat (n + 2)) rest) = blen s + 2 + (n + 2)) as Hbl3.
  { rewrite !blen_app, blen_take. change (blen crlf) with 2. lia. }
  destruct law_string as (f & Ef & Hf & Hfv). rewrite (callback_ok _ _ f) by done. cbn [fmap option_fmap option_map].
  rewrite Hy. replace (rest ++ y) with (v ++ drop (Z.to_nat n) rest ++ y) by (by rewrite app_assoc, <- Hrest).
  destruct (Z.eqb_spec t REDIS_REPLY_VERB) as [->|Htv].
  - destruct (Z.ltb_spec n 4); cbn [cbind orb]; [by apply Hbad|].
    destruct (rest !! 3%nat) as [c|] eqn:Ec; [|apply lookup_ge_None in Ec; unfold blen in *; lia].
    assert (rd (sbuf sb) (pos r + blen s + 5) = Ret c) as ->.
    { replace (pos r + blen s + 5) with (pos r + blen s + 2 + blen (take 3 rest)) by (rewrite blen_take; lia).
      eapply at_off_rd. apply at_off_app. rewrite <- (take_drop_middle rest 3 c Ec) in Hat2. exact Hat2. }
    cbn [cbind]. assert (v !! 3%nat = Some c) as -> by (subst v; by rewrite lookup_take_lt by lia).
    destruct (Z.eqb_spec c 58) as [->|Hc]; cbn [negb].
    + rewrite bool_decide_true by done. cbn [negb]. pose proof (Hfv v (drop (Z.to_nat n) rest ++ y) ltac:(lia)) as Hm.
      rewrite Hv in Hm. rewrite El3 in H |- *. by refine (bulk_finish_ok r w gs fs _ _ _ used _ _ _ _ _ H _ _ Hm _); [|lia|].
    + rewrite bool_decide_false by congruence. by apply Hbad.
  - cbn [cbind]. assert (t = REDIS_REPLY_STRING) as Hts.
    { unfold is_bulk in Ht. destruct (Z.eqb_spec t REDIS_REPLY_VERB); [done|]. rewrite orb_false_r in Ht. by apply Z.eqb_eq in Ht. }
    pose proof (Hf t v (drop (Z.to_nat n) rest ++ y) (or_introl Hts)) as Hm. rewrite Hv in Hm. rewrite El3 in H |- *.
    by refine (bulk_finish_ok r w gs fs _ _ _ used _ _ _ _ _ H _ _ Hm _); [|lia|].
Qed.

(** *** Aggregates *)

Lemma held_malloc bs P h (s : S) : held h0 bs P (h, s) ->
  match malloc h with
  | (Some b, h') => held h0 (b :: bs) P (h', s)
  | (None, h') => held h0 bs P (h', s) /\ starved
  end.
Proof.
  intros (obs & H1 & H2). pose proof (malloc_more h0 _ _ H2) as Hm. cbn [fst snd] in *. destruct (malloc h) as [[b|] h'].
  - by exists obs.
  - destruct Hm as [Hm Hs]. split; [by exists obs|done].
Qed.

Lemma grow_loop_ok bs P newlen (s : S) : forall fuel (ts : tasks) h, tcap ts = newlen -> Z.of_nat (length (titems ts)) <= newlen ->
  (Z.to_nat newlen < fuel + length (titems ts))%nat ->
  held h0 (tblk ts :: (titems ts).*1 ++ bs) P (h, s) ->
  yields (grow_loop fuel ts newlen h) (fun '(ok, ts', h') =>
    (exists x, titems ts' = titems ts ++ x) /\ held h0 (tblk ts' :: (titems ts').*1 ++ bs) P (h', s) /\
    if (ok : bool) then Z.of_nat (length (titems ts')) = newlen else starved).
Proof.
  induction fuel as [|fuel IH]; intros ts h Hc Hn Hf Hm; [lia|]. cbn [grow_loop].
  destruct (Z.ltb_spec (Z.of_nat (length (titems ts))) newlen) as [Hl|Hl].
  2: { apply yields_Ret. split; [exists []; by rewrite app_nil_r|]. split; [done|lia]. }
  rewrite Hc. destruct (Z.ltb_spec (Z.of_nat (length (titems ts))) newlen); [|lia].
  pose proof (held_malloc _ _ _ _ Hm) as Ha. destruct (malloc h) as [[b|] h'].
  - eapply yields_mono; [apply (IH (mkTasks (tblk ts) newlen (titems ts ++ [(b, no_task)])) h'); cbn [tblk tcap titems]; [done| | |]|].
    + rewrite length_app. cbn. lia.
    + rewrite length_app. cbn. lia.
    + eapply held_perm; [|exact Ha]. rewrite fmap_app. cbn [fmap list_fmap fst]. rewrite <- app_assoc. cbn [app].
      rewrite perm_swap. apply Permutation_skip. apply Permutation_middle.
    + intros [[ok ts'] h2] ((x & Hx) & H2). split; [|done]. cbn [titems] in Hx. exists ([(b, no_task)] ++ x). by rewrite app_assoc.
  - apply yields_Ret. split; [exists []; by rewrite app_nil_r|]. done.
Qed.

Lemma own_tasks (r : redisReader) ts : task r = Some ts ->
  own r ≡ₚ tblk ts :: (titems ts).*1 ++ rblk r :: match buf r with Some s => [sblk s] | None => [] end.
Proof.
  intros Ht. unfold own. rewrite Ht. change (rblk r :: match buf r with Some s => [sblk s] | None => [] end ++ tblk ts :: (titems ts).*1)
    with ((rblk r :: match buf r with Some s => [sblk s] | None => [] end) ++ (tblk ts :: (titems ts).*1)).
  by rewrite Permutation_app_comm.
Qed.

(** The stack grown by tasks that are not in use. *)
Lemma reading_grown (r : redisReader) w w' fs pt l used P Q ts ts' x : reading r w fs pt l used P -> task r = Some ts -> titems ts' = titems ts ++ x ->
  ntasks (with_task r (Some ts')) <= used + 10 -> held h0 (own (with_task r (Some ts'))) Q w' -> reading (with_task r (Some ts')) w' fs pt l used Q.
Proof.
  intros [H1 H2 (ts0 & Ht0 & Hst & t & T1 & T2) H4 H5 H6 H7 (F1 & F2 & F3 & F4 & F5) H9 H10] Ht Hx Hn Hm. rewrite Ht in Ht0. injection Ht0 as <-.
  split; try done.
  - exists ts'. split; [done|]. rewrite Hx, fmap_app. split; [by apply stack_app|]. exists t. split; [by apply lookup_app_l_Some|done].
  - split; [done|]. split; [done|]. split; [done|]. split; [done|]. split; [|done]. unfold ntasks in *. cbn [task with_task].
    rewrite Ht in F5. rewrite Hx, length_app. lia.
Qed.

Definition grown (gs : list (object * resp)) (fs : list frame) (pt : option Z) (l : list Z) (used : Z) (res : step) : Prop :=
  let '(ok, r, w) := res in
  starves gs res \/ ok = REDIS_OK /\ reading r w fs pt l used (objects gs fs) /\ Z.of_nat (length fs) + 1 < ntasks r.

Lemma redisReaderGrow_ok (r : redisReader) w gs fs pt l used : reading r w fs pt l used (objects gs fs) -> ridx r = ntasks r - 1 ->
  yields (redisReaderGrow r w) (grown gs fs pt l used).
Proof.
  intros H Hi. pose proof H as [_ _ (ts & Ht & _) Hr _ _ _ (F1 & F2 & F3 & F4 & F5) _ Hm]. unfold redisReaderGrow. rewrite Ht. cbn [deref cbind].
  pose proof (blen_nonneg l). unfold signed, REDIS_READER_STACK_SIZE. destruct (Z.leb_spec (- 2 ^ (32 - 1)) (ntasks r + 9)); [|lia].
  destruct (Z.ltb_spec (ntasks r + 9) (2 ^ (32 - 1))); [|lia]. cbn [andb cbind].
  pose proof (held_perm _ _ _ _ _ (own_tasks r ts Ht) Hm) as (obs & Ho & Ha). destruct w as [h s]. cbn [fst snd] in *.
  eapply yields_bind; [by apply (realloc_first h0 (tblk ts))|]. intros [[aux|] h1] Hr1.
  - eapply yields_bind.
    { apply (grow_loop_ok (rblk r :: match buf r with Some s => [sblk s] | None => [] end) (objects gs fs) (ntasks r + 9) s); cbn [tcap tblk titems].
      - done.
      - unfold ntasks. rewrite Ht. lia.
      - lia.
      - by exists obs. }
    intros [[ok ts'] h2] ((x & Hx) & Hm2 & Hok). cbn [titems] in Hx.
    eapply held_perm in Hm2; [|symmetry; by apply (own_tasks (with_task r (Some ts')))]. destruct ok.
    + apply yields_Ret. right. split; [done|]. assert (ntasks (with_task r (Some ts')) = ntasks r + 9) as Hn by (unfold ntasks at 1; exact Hok).
      split; [|lia]. eapply reading_grown; [exact H|done|exact Hx|lia|exact Hm2].
    + eapply yields_mono; [eapply (fails_ok _ _ gs fs)|].
      * apply (rd_settled _ _ _ _ _ _ _ H).
      * apply (rd_reply _ _ _ _ _ _ _ H).
      * exact Hm2.
      * by vm_compute.
      * intros [[ok' r'] w'] Hf. left. by split.
  - destruct Hr1 as [Hr1 Hs]. eapply yields_mono; [eapply (reading_fails r (h1, s) gs fs pt l used); [eapply reading_mem; [exact H|]|]|].
    + eapply held_perm; [symmetry; by apply own_tasks|]. by exists obs.
    + by vm_compute.
    + intros [[ok' r'] w'] Hf. left. by split.
Qed.

(** [moveToNextTask] before the root object is stored. *)
Lemma move_root_ok (r : redisReader) w gs fs pt l used o v : reading r w fs pt l used (made gs fs o v) -> room fs used ->
  yields (let! r' := moveToNextTask r in Ret (REDIS_OK, if ridx r =? 0 then with_reply r' (Some o) else r', w)) (finished gs fs v l used).
Proof.
  intros H Hroom. pose proof (rd_ridx _ _ _ _ _ _ _ H) as Hi. destruct fs as [|f fs].
  - assert (moveToNextTask r = Ret (with_ridx r (-1))) as -> by (unfold moveToNextTask; cbn [next_task]; rewrite Hi; done).
    cbn [cbind]. rewrite Hi. apply yields_Ret. left. split; [done|].
    eapply moved_ok; [exact H|done|]. unfold moved, rooted. cbn [plug]. rewrite Hi. by destruct r.
  - pose proof (move_ok _ _ _ _ _ _ _ _ _ H Hroom) as Hm. unfold rooted in Hm. destruct (Z.eqb_spec (ridx r) 0) as [E|E]; [cbn [length] in Hi; lia|].
    eapply yields_bind; [exact Hm|]. intros r' Hr'. apply yields_Ret. by left.
Qed.

(** The new task of an aggregate that has elements. *)
Definition pushed (r : redisReader) (t n : Z) (cur : redisReadTask) (o : object) (w : world) : comp step :=
  let! r' := put_task r (ridx r) (mkTask t n (tidx cur) (Some o) (tparent cur) (tprivdata cur)) in
  let! i := signed 32 (ridx r' + 1) in
  let r' := with_ridx r' i in
  let! r' := put_task r' i (mkTask (-1) (-1) 0 None (Some (Z.to_nat (i - 1))) (privdata r')) in
  Ret (REDIS_OK, if ridx r =? 0 then with_reply r' (Some o) else r', w).

Lemma pushed_ok (r : redisReader) w gs fs t l used n cur o : let fs' := mkFrame o t n [] :: fs in
  reading r w fs (Some t) l used (objects gs fs') -> is_aggregate t = true -> 0 < n -> Z.of_nat (length fs) + 1 < ntasks r -> room fs used ->
  tidx cur = place fs -> tparent cur = above fs ->
  yields (pushed r t n cur o w) (fun '(ok, r', w') => ok = REDIS_OK /\ reading r' w' fs' None l used (objects gs fs')).
Proof.
  intros fs' [H1 H2 (ts & Ht & Hst & u & U1 & _) Hr Hrep [H6 H6'] _ (F1 & F2 & F3 & F4 & F5) H9 Hm] Hag Hn Hnt Hroom Hidx Hpar.
  unfold pushed. rewrite Hr. destruct (put_task_ok r ts _ u (mkTask t n (tidx cur) (Some o) (tparent cur) (tprivdata cur)) Ht U1) as (its & -> & I1 & I2).
  cbn [cbind]. cbn [ridx with_task]. rewrite Hr. pose proof (blen_nonneg l). unfold signed.
  destruct (Z.leb_spec (- 2 ^ (32 - 1)) (Z.of_nat (length fs) + 1)); [|lia].
  destruct (Z.ltb_spec (Z.of_nat (length fs) + 1) (2 ^ (32 - 1))); [|lia]. cbn [andb cbind].
  replace (Z.of_nat (length fs) + 1) with (Z.of_nat (Datatypes.S (length fs))) by lia. set (r1 := with_ridx _ _).
  set (ts1 := mkTasks (tblk ts) (tcap ts) its). assert (task r1 = Some ts1) as Ht1 by done.
  assert (length its = length (titems ts)) as Hlen by (by rewrite <- (length_fmap fst its), I1, length_fmap).
  destruct (lookup_lt_is_Some_2 ((titems ts1).*2) (Datatypes.S (length fs))) as [u1 Hu1].
  { rewrite length_fmap. cbn [titems ts1]. unfold ntasks in Hnt. rewrite Ht in Hnt. lia. }
  replace (Z.to_nat (Z.of_nat (Datatypes.S (length fs)) - 1)) with (length fs) by lia.
  destruct (put_task_ok r1 ts1 _ u1 (mkTask (-1) (-1) 0 None (Some (length fs)) (privdata r1)) Ht1 Hu1) as (its2 & -> & J1 & J2).
  cbn [cbind]. apply yields_Ret. split; [done|].
  assert (forall r2 rep, r2 = with_reply (with_task r1 (Some (mkTasks (tblk ts1) (tcap ts1) its2))) rep -> rep = fobj <$> last fs' ->
    reading r2 w fs' None l used (objects gs fs')) as Hgoal.
  { intros r2 rep -> ->. cbn [titems ts1] in J1, J2. split; try done.
    - exists (mkTasks (tblk ts1) (tcap ts1) its2). split; [done|]. cbn [titems]. rewrite J2, I2. cbn [fs' stack_ok top_ok length]. split; [split|].
      + eexists. rewrite list_lookup_insert_ne by lia. rewrite list_lookup_insert_eq by (by eapply lookup_lt_Some). split; [reflexivity|]. done.
      + apply stack_insert; [|lia]. apply stack_insert; [done|lia].
      + eexists. rewrite list_lookup_insert_eq; [split; [reflexivity|done]|]. rewrite length_insert, length_fmap.
        unfold ntasks in Hnt. rewrite Ht in Hnt. lia.
    - by split; [constructor|constructor].
    - destruct Hroom as [_ Hroom]. split; [done|]. split; [done|]. split; [cbn [length fs']; lia|]. split.
      + constructor; [|done]. unfold nread. cbn. lia.
      + unfold ntasks in *. cbn [task with_reply with_task titems]. rewrite Ht in F5.
        rewrite <- (length_fmap fst its2), J1, length_fmap, Hlen. done.
    - destruct H9 as [|(C1 & C2 & C3)]; [by left|right]. split; [done|]. split; [done|]. constructor; [|done]. cbn. congruence.
    - revert Hm. unfold own. cbn [rblk buf task with_reply with_task with_ridx tblk titems ts1]. by rewrite Ht, J1, I1. }
  destruct (Z.eqb_spec (Z.of_nat (length fs)) 0) as [E|E].
  - destruct fs; [|cbn in E; lia]. by eapply Hgoal.
  - apply (Hgoal _ (reply r)); [by destruct r|]. rewrite Hrep. subst fs'. destruct fs as [|f fs]; [done|]. by rewrite last_cons_cons.
Qed.

Lemma grow_if_needed (r : redisReader) w gs fs t l used : reading r w fs (Some t) l used (objects gs fs) ->
  yields (if ridx r =? ntasks r - 1 then redisReaderGrow r w else Ret (REDIS_OK, r, w)) (grown gs fs (Some t) l used).
Proof.
  intros H. destruct (Z.eqb_spec (ridx r) (ntasks r - 1)) as [E|E]; [by apply redisReaderGrow_ok|]. apply yields_Ret. right.
  split; [done|]. split; [done|]. pose proof H as [_ _ (ts & Ht & _ & u & U1 & _) Hr _ _ _ _ _ _]. apply lookup_lt_Some in U1.
  rewrite length_fmap in U1. unfold ntasks in *. rewrite Ht in *. lia.
Qed.

Lemma processAggregateItem_ok (r : redisReader) w gs fs t l used : reading r w fs (Some t) l used (objects gs fs) -> is_aggregate t = true ->
  yields (processAggregateItem r w) (scanned gs fs t l used).
Proof.
  intros H Ht. destruct (current_ok _ _ _ _ _ _ _ H) as (cur & _ & _ & Hcur & _ & Hty & Hidx & Hpar). unfold processAggregateItem. rewrite Hcur.
  cbn [cbind]. eapply yields_bind; [by apply grow_if_needed|]. clear H Hcur. intros [[ok r1] w1] [Hst|(-> & H & Hnt)].
  { destruct Hst as [(-> & Hb) Hs]. apply yields_Ret. left. by split. }
  change (REDIS_OK =? REDIS_ERR) with false. cbv iota. rewrite (readLine_ok _ _ _ _ _ _ _ H). unfold scanned, scan.
  assert (is_line t = false /\ is_bulk t = false) as [-> ->] by (by destruct (aggregate_cases t Ht) as [-> |[-> |[-> | ->]]]).
  destruct (line l) as [[s rest]|] eqn:El; cbn [cbind].
  2: { apply yields_Ret. by right. }
  destruct (line_read _ _ _ _ _ _ _ _ _ H El) as (b & x & Hby & Hat & H' & Hroom & Hs). cbn [cbind].
  set (r' := with_pos r1 (pos r1 + blen (s ++ crlf))) in *. rewrite Hby. cbn [cbind].
  rewrite (string2ll_integer b (pos r1) s) by (by eapply at_off_prefix). cbn [cbind].
  pose proof (rd_settled _ _ _ _ _ _ _ H') as (_ & Hfn & Hmx & Hmaxe). rewrite Hmx.
  assert (forall msg, blen (text msg) <= 127 ->
    yields (protocol_error r' msg w1) (fun res => starves gs res \/ failed gs REDIS_ERR_PROTOCOL (text msg) res)) as Hbad.
  { intros msg Hm. eapply yields_mono; [by eapply protocol_ok|]. by right. }
  destruct (integer s) as [n|] eqn:En; [|by apply Hbad]. destruct (Z.ltb_spec 0 maxe); [|lia]. cbn [andb].
  destruct ((n <? -1) || (maxe <? n)) eqn:Er; [by apply Hbad|]. apply orb_false_elim in Er as [Er1%Z.ltb_ge Er2%Z.ltb_ge].
  rewrite Hty. change (pending (Some t)) with t.
  assert (forall w2, held h0 (own r') (objects gs fs) w2 -> starved ->
    yields (fails (__redisReaderSetErrorOOM r' w2)) (starves gs)) as Hoom.
  { intros w2 Hb Hsv. eapply yields_mono; [eapply (reading_fails r' w2 gs fs); [by eapply reading_mem|by vm_compute]|]. intros res Hf. by split. }
  destruct (Z.eqb_spec n (-1)) as [->|Hn1].
  { destruct law_nil as (f & Ef & Hf). rewrite (callback_ok _ _ f) by done. eapply yields_bind; [eapply make_ok; [exact H'|exact Hf|done]|].
    intros [[o|] w2]; cbn [built].
    - intros Hb. eapply yields_mono; [eapply move_root_ok; [by eapply reading_mem|done]|]. by right.
    - intros [Hb Hsv]. eapply yields_mono; [by apply Hoom|]. by left. }
  set (n' := if t =? REDIS_REPLY_MAP then 2 * n else n). assert (0 <= n' < 2 ^ 42) as Hn' by (subst n'; destruct (t =? _); lia).
  assert ((if t =? REDIS_REPLY_MAP then signed 64 (n * 2) else Ret n) = Ret n') as ->.
  { subst n'. destruct (t =? REDIS_REPLY_MAP); [|done]. unfold signed. destruct (Z.leb_spec (- 2 ^ (64 - 1)) (n * 2)); [|lia].
    destruct (Z.ltb_spec (n * 2) (2 ^ (64 - 1))); [|lia]. cbn [andb]. f_equal. lia. }
  cbn [cbind]. destruct law_array as (f & Ef & Hf). rewrite (callback_ok _ _ f) by done. cbn [fmap option_fmap option_map].
  assert (u64 n' = n') as -> by (unfold u64; apply Z.mod_small; lia).
  destruct (current_ok _ _ _ _ _ _ _ H') as (cur' & par & E & _ & Htask & Hty' & _). change (pending (Some t)) with t in Hty'.
  pose proof (Hf h0 (own r') gs fs w1 cur' par n' ltac:(lia) ltac:(by rewrite Hty') (proj1 (rd_frames _ _ _ _ _ _ _ H'))
    (calm_tolerant _ _ _ (rd_calm _ _ _ _ _ _ _ H')) Htask (rd_mem _ _ _ _ _ _ _ H')) as Hb.
  rewrite Hty' in Hb. eapply yields_bind; [unfold make; rewrite E; exact Hb|]. clear Hb. intros [[o|] w2]; cbn [built].
  - destruct (Z.eqb_spec n' 0) as [E0|E0]; intros Hb.
    + destruct (Z.ltb_spec 0 n'); [lia|]. eapply yields_mono; [eapply move_root_ok; [by eapply reading_mem|done]|]. by right.
    + destruct (Z.ltb_spec 0 n'); [|lia]. eapply yields_mono; [apply (pushed_ok r' w2 gs fs t rest (used + (blen l - blen rest)) n' cur o)|].
      * by eapply reading_mem.
      * done.
      * lia.
      * done.
      * done.
      * done.
      * done.
      * intros [[ok r2] w3] [-> Hok]. right. split; [done|]. by exists o.
  - intros [Hb Hsv]. eapply yields_mono; [by apply Hoom|]. by left.
Qed.

(** *** One step of the loop *)

#[local] Abbreviation answer := (answer maxe).

(** A step of the reader is a step of the parse, whatever bytes [x] follow:
    the item is done, and a reply is complete or the parse goes on; more bytes
    are needed; the text is wrong; or memory ran out. *)
Definition stepped (gs : list (object * resp)) (fs : list frame) (pt : option Z) (l : list Z) (used : Z) (res : step) : Prop :=
  let '(ok, r, w) := res in
  starves gs res \/
  (ok = REDIS_OK /\ exists l', (length l' < length l)%nat /\
     ((exists fs', reading r w fs' None l' (used + (blen l - blen l')) (objects gs fs') /\
        forall x, answer fs pt (l ++ x) = answer fs' None (l' ++ x)) \/
      (exists o v, resting r w l' (used + (blen l - blen l')) (made gs [] o v) /\ reply r = Some o /\
        forall x, answer fs pt (l ++ x) = Done v (l' ++ x)))) \/
  (ok = REDIS_ERR /\ exists pt' l', (length l' <= length l)%nat /\ reading r w fs pt' l' (used + (blen l - blen l')) (objects gs fs) /\ answer fs pt' l' = More /\
     forall x, answer fs pt (l ++ x) = answer fs pt' (l' ++ x)) \/
  exists e, failed gs REDIS_ERR_PROTOCOL e res /\ forall x, answer fs pt (l ++ x) = Bad e.

Lemma type_kinds t : item_type t -> is_line t = true \/ is_line t = false /\ is_bulk t = true \/
  is_line t = false /\ is_bulk t = false /\ is_aggregate t = true.
Proof.
  intros [c Hc]. unfold type_of_byte in Hc. repeat (case_match; [injection Hc as <-; vm_compute; auto|]). done.
Qed.

Lemma process_typed_ok (r : redisReader) w gs fs t l used : reading r w fs (Some t) l used (objects gs fs) ->
  yields (process_typed t r w) (scanned gs fs t l used).
Proof.
  intros H. pose proof (type_kinds t (rd_type _ _ _ _ _ _ _ H t eq_refl)) as Hk. unfold process_typed.
  change (_ || _ || _ || _ || _ || (t =? REDIS_REPLY_BOOL)) with (is_line t).
  change ((t =? REDIS_REPLY_STRING) || (t =? REDIS_REPLY_VERB)) with (is_bulk t).
  destruct Hk as [Hk|[[Hk1 Hk2]|(Hk1 & Hk2 & Hk3)]].
  - rewrite Hk. by apply processLineItem_ok.
  - rewrite Hk1, Hk2. by apply processBulkItem_ok.
  - rewrite Hk1, Hk2, Hk3. by apply processAggregateItem_ok.
Qed.

Lemma scanned_stepped (r : redisReader) w gs fs t l used res : reading r w fs (Some t) l used (objects gs fs) ->
  scanned gs fs t l used res -> stepped gs fs (Some t) l used res.
Proof.
  intros H. pose proof (proj1 (rd_frames _ _ _ _ _ _ _ H)) as Hok. destruct res as [[ok r'] w']. unfold scanned, stepped.
  intros [Hs|Hs]; [by left|].
  assert (scan maxe t l <> More -> forall x, answer fs (Some t) (l ++ x) =
    match scan maxe t l with
    | Done (Value v) r => match plug v fs with inl v' => Done v' (r ++ x) | inr fs' => answer fs' None (r ++ x) end
    | Done (Open n) r => answer (mkFrame (Tag 0) t n [] :: fs) None (r ++ x)
    | More => More
    | Bad e => Bad e
    | Stuck => Stuck
    end) as Ha.
  { intros Hm x. rewrite answer_scan, scan_app by done. by destruct (scan maxe t l). }
  destruct (scan maxe t l) as [[v|n] rest| |e|] eqn:Es; [| | | |done].
  - destruct Hs as [[-> Hs]|Hs]; [|by left]. right. left. split; [done|]. exists rest. split; [by eapply scan_shorter|].
    specialize (Ha ltac:(done)). unfold advanced in Hs. destruct (plug v fs) as [v'|fs'].
    + destruct Hs as (o & Ho & Hr). right. by exists o, v'.
    + left. by exists fs'.
  - destruct Hs as (-> & o & Hs). right. left. split; [done|]. exists rest. split; [by eapply scan_shorter|]. left.
    exists (mkFrame o t n [] :: fs). split; [done|]. intros x. rewrite (Ha ltac:(done)). apply answer_same. constructor; [done|].
    clear. by induction fs; constructor.
  - destruct Hs as [-> Hs]. right. right. left. split; [done|]. exists (Some t), l. rewrite Z.sub_diag, Z.add_0_r. split; [done|]. split; [done|].
    split; [|done]. rewrite answer_scan by done. by rewrite Es.
  - right. right. right. exists e. split; [done|]. by apply Ha.
Qed.

Lemma byte_error_length c : blen (byte_error c) <= 127.
Proof.
  unfold byte_error, snprintf. set (m := text _ ++ _). unfold sub. rewrite drop_0, blen_take. pose proof (blen_nonneg m). lia.
Qed.

(** The task with its type. *)
Lemma reading_typed (r : redisReader) w gs fs cur t l used : reading r w fs None l used (objects gs fs) -> task_at r (ridx r) = Ret cur ->
  item_type t -> (ndebug = true \/ t <> REDIS_REPLY_PUSH) ->
  yields (put_task r (ridx r) (with_type cur t)) (fun r' => reading r' w fs (Some t) l used (objects gs fs)).
Proof.
  intros [H1 H2 (ts & Ht & Hst & u & U1 & U2 & U3 & U4) Hr Hrep H6 H7 H8 H9 H10] Hc Hty Hp. rewrite Hr in *.
  rewrite (task_at_ok r ts _ u) in Hc by done. injection Hc as <-.
  destruct (put_task_ok r ts _ u (with_type u t) Ht U1) as (its & -> & I1 & I2). apply yields_Ret. split; try done.
  - exists (mkTasks (tblk ts) (tcap ts) its). split; [done|]. cbn [titems]. rewrite I2. split; [by apply stack_insert|].
    exists (with_type u t). split; [|done]. rewrite list_lookup_insert_eq; [done|]. by eapply lookup_lt_Some.
  - by intros ? [= <-].
  - destruct H8 as (F1 & F2 & F3 & F4 & F5). split; [done|]. split; [done|]. split; [done|]. split; [done|]. unfold ntasks in *.
    cbn [task with_task titems]. rewrite Ht in F5. by rewrite <- (length_fmap fst its), I1, length_fmap.
  - destruct H9 as [|(C1 & C2 & C3)]; [by left|]. destruct Hp as [|Hp]; [by left|right]. split; [done|]. split; [congruence|done].
  - revert H10. unfold own. cbn [rblk buf task with_task tblk titems]. by rewrite Ht, I1.
Qed.

Lemma processItem_ok (r : redisReader) w gs fs pt l used : reading r w fs pt l used (objects gs fs) ->
  yields (processItem r w) (stepped gs fs pt l used).
Proof.
  intros H. destruct (current_ok _ _ _ _ _ _ _ H) as (cur & _ & _ & Hcur & _ & Hty & _). unfold processItem. rewrite Hcur. cbn [cbind].
  rewrite Hty. destruct pt as [t|].
  - change (pending (Some t)) with t. assert ((t <? 0) = false) as ->.
    { destruct (rd_type _ _ _ _ _ _ _ H t eq_refl) as [c Hc]. unfold type_of_byte in Hc. by repeat (case_match; [injection Hc as <-; done|]). }
    eapply yields_mono; [by eapply process_typed_ok|]. intros res. by eapply scanned_stepped.
  - change (pending None <? 0) with true. cbv iota. unfold readBytes. destruct (reading_size _ _ _ _ _ _ _ H) as (-> & Hbl & Hpos).
    destruct l as [|c l].
    { apply yields_Ret. right. right. left. split; [done|]. exists None, []. rewrite Z.add_0_r. split; [done|]. split; [done|].
      split; [|done]. apply resume_more. }
    destruct (Z.leb_spec 1 (blen (c :: l))) as [Hl|Hl]; [|rewrite blen_cons in Hl; pose proof (blen_nonneg l); lia].
    destruct (reading_at r _ (rd_left _ _ _ _ _ _ _ H)) as (sb & Hb & Hby & Hat & _).
    destruct (reading_advance r w fs None [c] l used _ H) as [H' Hu]. change (blen [c]) with 1 in *. rewrite Hu. set (r' := with_pos r (pos r + 1)) in *.
    assert (bytes r' = Ret (sbuf sb)) as -> by exact Hby. cbn [cbind]. rewrite (at_off_rd _ _ _ _ Hat). cbn [cbind].
    destruct (type_of_byte c) as [t|] eqn:Et.
    + assert (ndebug = true \/ t <> REDIS_REPLY_PUSH) as Hp.
      { destruct (rd_calm _ _ _ _ _ _ _ H) as [|(C1 & _)]; [by left|right]. intros ->. apply C1.
        assert (c = 62) as ->; [|by left]. revert Et. unfold type_of_byte. repeat (case_match; [done|]). by destruct (Z.eqb_spec c 62). }
      eapply yields_bind; [eapply (reading_typed r'); [exact H'|exact Hcur|by exists c|done]|]. intros r2 H2.
      eapply yields_mono; [apply (process_typed_ok _ _ _ _ _ _ _ H2)|]. intros [[ok r3] w3] Hst%(scanned_stepped _ _ _ _ _ _ _ _ H2).
      assert (forall x, answer fs None ((c :: l) ++ x) = answer fs (Some t) (l ++ x)) as Ha.
      { intros x. cbn [app]. rewrite answer_type, <- reply_type_byte. by rewrite Et. }
      assert (forall l', used + 1 + (blen l - blen l') = used + (blen (c :: l) - blen l')) as Hus by (intros; rewrite blen_cons; lia).
      destruct Hst as [Hst|[(-> & l' & Hl' & Hst)|[(-> & pt' & l' & Hl' & Hrd & Hmore & Hx)|(e & He & Hx)]]]; [by left|right; left|right; right; left|right; right; right].
      * split; [done|]. exists l'. split; [cbn; lia|]. rewrite <- Hus. destruct Hst as [(fs' & Hrd & Hx)|(o & v & Hrd & Hrep & Hx)].
        -- left. exists fs'. split; [done|]. intros x. by rewrite Ha.
        -- right. exists o, v. split; [done|]. split; [done|]. intros x. by rewrite Ha.
      * split; [done|]. exists pt', l'. rewrite <- Hus. split; [cbn; lia|]. split; [done|]. split; [done|]. intros x. by rewrite Ha.
      * exists e. split; [done|]. intros x. by rewrite Ha.
    + eapply yields_mono; [eapply (reading_fails r' w gs fs None l (used + 1)); [exact H'|apply byte_error_length]|].
      intros [[ok r3] w3] Hf. right. right. right. exists (byte_error c). split; [exact Hf|]. intros x. cbn [app]. rewrite answer_type, <- reply_type_byte.
      by rewrite Et, unknown_type_error.
Qed.

End proof.
