(* ===== verification/ReaderApi.v ===== *)
(** * The calls of the reader

    [redisReaderFeed], [redisReaderGetReply], [redisReaderFree] and the
    creation of a reader, against the interface of the callbacks: a call on a
    reader that is [ready] gives what [answer] says of the bytes fed so far,
    or leaves it [broken]. *)

From stdpp Require Import gmap.
From Stdlib Require Import SpecFloat String.
From S2P Require Import Prelude Cstdlib Heap Sds Reader Resp ReaderScan ReaderProof.

#[local] Open Scope Z_scope.
#[local] Set Warnings "-clear-no-such-hyp".
#[local] Arguments cbind {A B} !m k /.

Section api.
Context {A : Allocator} {G : Garbage} {N : Ndebug} {S : Type} (F : @redisReplyObjectFunctions S) `{!ReplyLaws F}.
Context (h0 : heap) (maxe : Z).
#[local] Abbreviation world := (@world S).
#[local] Abbreviation redisReader := (@redisReader S).
#[local] Abbreviation step := (@step S).
#[local] Abbreviation reading := (reading F h0 maxe).
#[local] Abbreviation resting := (resting F h0 maxe).
#[local] Abbreviation broken := (broken F h0).
#[local] Abbreviation answer := (answer maxe).

(** Why a reader is broken. *)
Definition starved_out (r : redisReader) (w : world) (gs : list (object * resp)) : Prop :=
  broken r w gs /\ err r = REDIS_ERR_OOM /\ starved.

Definition refused (r : redisReader) (w : world) (gs : list (object * resp)) (m : list Z -> result resp) : Prop :=
  broken r w gs /\ err r = REDIS_ERR_PROTOCOL /\ forall x, m x = Bad (errstr r).

(** ** The loop *)

Definition ended (gs : list (object * resp)) (fs : list frame) (pt : option Z) (l : list Z) (used : Z) (rw : redisReader * world) : Prop :=
  let '(r, w) := rw in
  starved_out r w gs \/
  (exists o v l', (length l' < length l)%nat /\ resting r w l' (used + (blen l - blen l')) (made gs [] o v) /\ reply r = Some o /\
     forall x, answer fs pt (l ++ x) = Done v (l' ++ x)) \/
  (exists fs' pt' l', (length l' <= length l)%nat /\ reading r w fs' pt' l' (used + (blen l - blen l')) (objects gs fs') /\ answer fs' pt' l' = More /\
     forall x, answer fs pt (l ++ x) = answer fs' pt' (l' ++ x)) \/
  refused r w gs (fun x => answer fs pt (l ++ x)).

Lemma process_items_ok : forall fuel (r : redisReader) w gs fs pt l used, reading r w fs pt l used (objects gs fs) ->
  (length l < fuel)%nat -> yields (process_items fuel r w) (ended gs fs pt l used).
Proof.
  induction fuel as [|fuel IH]; intros r w gs fs pt l used H Hf; [lia|]. cbn [process_items].
  rewrite (rd_ridx _ _ _ _ _ _ _ _ _ _ H). destruct (Z.leb_spec 0 (Z.of_nat (length fs))); [|lia].
  eapply yields_bind; [by apply processItem_ok|]. intros [[ok r1] w1] Hst.
  destruct Hst as [Hst|[(-> & l' & Hl & Hst)|[(-> & pt' & l' & Hl & Hrd & Hmore & Hx)|(e & He & Hx)]]].
  - destruct Hst as [(-> & Hb & He & _) Hs]. change (REDIS_ERR =? REDIS_OK) with false. cbv iota. apply yields_Ret. by left.
  - change (REDIS_OK =? REDIS_OK) with true. cbv iota. destruct Hst as [(fs' & Hrd & Hx)|(o & v & Hrs & Hrep & Hx)].
    + eapply yields_mono; [apply (IH r1 w1 gs fs' None l' _ Hrd); lia|]. intros [r2 w2].
      assert (forall l2, used + (blen l - blen l') + (blen l' - blen l2) = used + (blen l - blen l2)) as Hus by (intros; lia).
      unfold ended. intros [He|[(o & v & l2 & Hl2 & Hrs & Hrep & Hx2)|[(fs2 & pt2 & l2 & Hl2 & Hrd2 & Hm & Hx2)|(Hb & He & Hx2)]]].
      * by left.
      * right. left. exists o, v, l2. rewrite Hus in Hrs. split; [lia|]. split; [done|]. split; [done|]. intros x. by rewrite Hx.
      * right. right. left. exists fs2, pt2, l2. rewrite Hus in Hrd2. split; [lia|]. split; [done|]. split; [done|]. intros x. by rewrite Hx.
      * right. right. right. split; [done|]. split; [done|]. intros x. by rewrite Hx.
    + destruct fuel as [|fuel]; [lia|]. cbn [process_items]. rewrite (rs_ridx _ _ _ _ _ _ _ _ Hrs). apply yields_Ret.
      right. left. by exists o, v, l'.
  - change (REDIS_ERR =? REDIS_OK) with false. cbv iota. apply yields_Ret. right. right. left. exists fs, pt', l'. done.
  - destruct He as (-> & Hb & He & Hmsg). change (REDIS_ERR =? REDIS_OK) with false. cbv iota. apply yields_Ret. right. right. right. split; [done|]. split; [done|]. by rewrite Hmsg.
Qed.

(** ** Readers between the calls *)

Inductive ready (r : redisReader) (w : world) (gs : list (object * resp)) : list frame -> option Z -> list Z -> Z -> Prop :=
| ready_rest l used : resting r w l used (objects gs []) -> reply r = None -> ready r w gs [] None l used
| ready_read fs pt l used : reading r w fs pt l used (objects gs fs) -> ready r w gs fs pt l used.

(** What the two states have in common. *)
Record open (r : redisReader) (w : world) (gs : list (object * resp)) (fs : list frame) (pt : option Z) (l : list Z) (used : Z) : Prop := {
  op_settled : settled F maxe r;
  op_left : left_in r l;
  op_reply : reply r = fobj <$> last fs;
  op_fits : fits r fs l used;
  op_calm : calm fs pt l;
  op_mem : held h0 (own r) (objects gs fs) w
}.

Lemma ready_open (r : redisReader) w gs fs pt l used : ready r w gs fs pt l used -> open r w gs fs pt l used.
Proof. intros [l' used' [] Hr|fs' pt' l' used' []]; by split. Qed.

(** A new read buffer. *)
Lemma ready_buffer (r : redisReader) w w' gs fs pt l l' used used' b p n :
  let r' := with_buffer r b p n in
  ready r w gs fs pt l used -> left_in r' l' -> 0 <= p <= used' -> used <= used' -> used' + blen l' < 2 ^ 31 - 2 ^ 10 ->
  (ndebug = true \/ 62 ∉ l') -> held h0 (own r') (objects gs fs) w' -> ready r' w' gs fs pt l' used'.
Proof.
  intros r' H Hl Hp Hu Hb Hc Hm.
  assert (fits r fs l used -> fits r' fs l' used') as Hfits.
  { intros (F1 & F2 & F3 & F4 & F5). split; [done|]. split; [done|]. split; [lia|]. split.
    - eapply Forall_impl; [exact F4|]. cbn. intros f Hf. lia.
    - change (ntasks r') with (ntasks r). lia. }
  assert (calm fs pt l -> calm fs pt l') as Hcalm.
  { intros [|(C1 & C2)]; [by left|]. destruct Hc; [by left|by right]. }
  destruct H as [l used [R1 R2 R3 R4 R5 R6 R7] Hr|fs pt l used [R1 R2 R3 R4 R5 R6 R7 R8 R9 R10]].
  - apply ready_rest; [|done]. split; try done; auto.
  - apply ready_read. split; try done; auto.
Qed.

Lemma answer_empty fs pt : answer fs pt [] = More.
Proof. destruct pt; apply resume_more. Qed.

(** ** redisReaderGetReply *)

(** The first task. *)
Lemma start_ok (r : redisReader) w gs l used : resting r w l used (objects gs []) -> reply r = None ->
  yields (let! r := put_task r 0 (mkTask (-1) (-1) (-1) None None (privdata r)) in Ret (with_ridx r 0))
    (fun r' => reading r' w [] None l used (objects gs []) /\ len r' = len r /\ pos r' = pos r).
Proof.
  intros [R1 R2 (ts & Ht) R4 R5 R6 R7] Hr. pose proof R5 as (F1 & F2 & F3 & F4 & F5).
  destruct (lookup_lt_is_Some_2 ((titems ts).*2) 0) as [u Hu].
  { rewrite length_fmap. unfold ntasks in F5. rewrite Ht in F5. lia. }
  destruct (put_task_ok r ts 0 u (mkTask (-1) (-1) (-1) None None (privdata r)) Ht Hu) as (its & E & I1 & I2).
  change (Z.of_nat 0) with 0 in E. rewrite E. cbn [cbind]. apply yields_Ret. split; [|done]. split; try done.
  - exists (mkTasks (tblk ts) (tcap ts) its). split; [done|]. split; [done|]. eexists. cbn [titems length]. rewrite I2.
    rewrite list_lookup_insert_eq by (by eapply lookup_lt_Some). split; [reflexivity|]. done.
  - split; [done|]. split; [done|]. split; [done|]. split; [done|]. unfold ntasks in *. cbn [task with_ridx with_task titems]. rewrite Ht in F5.
    by rewrite <- (length_fmap fst its), I1, length_fmap.
  - revert R7. unfold own. cbn [rblk buf task with_ridx with_task tblk titems]. by rewrite Ht, I1.
Qed.

(** The part of the buffer that was consumed is discarded. *)
Definition trimmed (r : redisReader) : comp (bool * redisReader) :=
  if 1024 <=? pos r then
    let! s := deref (buf r) in
    let! '(x, s) := sdsrange s (i64 (pos r)) (-1) in
    if x <? 0 then Ret (false, with_buffer r (Some s) (pos r) (len r))
    else Ret (true, with_buffer r (Some s) 0 (sdslen s))
  else Ret (true, r).

Lemma range_rest c p : 0 <= p <= blen c -> range_spec c p (-1) = drop (Z.to_nat p) c.
Proof.
  intros Hp. unfold range_spec. change (-1 <? 0) with true. cbv iota. destruct (Z.ltb_spec p 0); [lia|].
  destruct (Z.leb_spec (blen c) 0).
  - replace (Z.max 0 _) with 0 by lia. rewrite sub_0. symmetry. apply drop_ge. unfold blen in *. lia.
  - unfold sub. apply take_ge. rewrite length_drop. unfold blen in *. lia.
Qed.

Lemma trimmed_ok (r : redisReader) l used : left_in r l -> 0 <= pos r <= used -> used + blen l < 2 ^ 31 - 2 ^ 10 ->
  yields (trimmed r) (fun '(ok, r') => ok = true /\ exists b p n, r' = with_buffer r b p n /\ left_in r' l /\ 0 <= p <= used /\ own r' = own r).
Proof.
  intros Hl Hp Hb. pose proof Hl as (s & c & B1 & B2 & B3 & B4 & B5). unfold trimmed. pose proof (blen_nonneg l).
  assert (blen c = pos r + blen l) as Hc by (rewrite <- B5, blen_drop; unfold blen in *; lia).
  destruct (Z.leb_spec 1024 (pos r)).
  - rewrite B1. cbn [deref cbind]. assert (i64 (pos r) = pos r) as -> by (unfold i64, swrap; rewrite Z.mod_small; lia).
    eapply yields_bind; [apply (sdsrange_ok s c); [done|lia..]|]. intros [x s'] (Hx & Hs' & Hblk). cbn [fst snd] in *. subst x.
    apply yields_Ret. split; [done|]. exists (Some s'), 0, (sdslen s'). split; [done|]. rewrite range_rest, B5 in Hs' by done. split; [|split].
    + exists s', l. cbn [buf len pos with_buffer]. split; [done|]. split; [done|]. split; [exact (rep_len _ _ Hs')|]. split; [lia|]. by rewrite drop_0.
    + lia.
    + unfold own. cbn [rblk buf task with_buffer]. by rewrite B1, Hblk.
  - apply yields_Ret. split; [done|]. exists (buf r), (pos r), (len r). split; [by destruct r|]. split; [done|]. split; [lia|done].
Qed.

(** What a call gives; without [want] the reply is freed. *)
Definition replied (want : bool) (gs : list (object * resp)) (fs : list frame) (pt : option Z) (l : list Z) (used : Z)
  (res : Z * option object * redisReader * world) : Prop :=
  let '(ok, o, r, w) := res in
  (ok = REDIS_ERR /\ o = None /\ (starved_out r w gs \/ refused r w gs (fun x => answer fs pt (l ++ x)))) \/
  (ok = REDIS_OK /\ exists l', let used' := used + (blen l - blen l') in (length l' <= length l)%nat /\
    ((exists o' v, o = (if want then Some o' else None) /\ ready r w (gs ++ if want then [(o', v)] else []) [] None l' used' /\ (length l' < length l)%nat /\
        forall x, answer fs pt (l ++ x) = Done v (l' ++ x)) \/
     (exists fs' pt', o = None /\ ready r w gs fs' pt' l' used' /\ answer fs' pt' l' = More /\
        forall x, answer fs pt (l ++ x) = answer fs' pt' (l' ++ x)))).

Lemma broken_err (r : redisReader) w gs : starved_out r w gs \/ (exists m, refused r w gs m) -> err r <> 0.
Proof. by intros [(_ & -> & _)|(m & _ & -> & _)]. Qed.

Lemma getreply_ok want (r : redisReader) w gs fs pt l used : ready r w gs fs pt l used ->
  yields (redisReaderGetReply want r w) (replied want gs fs pt l used).
Proof.
  intros H. pose proof (ready_open _ _ _ _ _ _ _ H) as [(O1 & _) O2 O3 O4 O5 O6]. unfold redisReaderGetReply. rewrite O1. cbn [Z.eqb negb].
  destruct (Z.eqb_spec (len r) 0) as [E|E].
  { apply yields_Ret. right. split; [done|]. exists l. split; [done|]. right. exists fs, pt. rewrite Z.sub_diag, Z.add_0_r.
    destruct (reading_at r l O2) as (_ & _ & _ & _ & Hl). pose proof (blen_nonneg l). destruct O4 as (F1 & _).
    destruct l; [|rewrite blen_cons in *; pose proof (blen_nonneg l); lia]. split; [done|]. split; [done|]. split; [apply answer_empty|done]. }
  eapply (yields_bind (fun r1 => reading r1 w fs pt l used (objects gs fs))).
  { destruct H as [l used H Hr|fs pt l used H].
    - rewrite (rs_ridx _ _ _ _ _ _ _ _ H). eapply yields_mono; [by eapply start_ok|]. by intros r1 (H1 & _).
    - rewrite (rd_ridx _ _ _ _ _ _ _ _ _ _ H). destruct (Z.eqb_spec (Z.of_nat (length fs)) (-1)); [lia|]. by apply yields_Ret. }
  clear H O1 O2 O3 O4 O5 O6 E. intros r1 H. destruct (reading_at r1 l (rd_left _ _ _ _ _ _ _ _ _ _ H)) as (_ & _ & _ & _ & Hlen).
  eapply yields_bind; [eapply (process_items_ok (item_rounds r1)); [exact H|unfold item_rounds, blen in *; lia]|]. clear H Hlen r.
  intros [r w2] [Hs|[(o & v & l' & Hl & H & Hr & Hx)|[(fs' & pt' & l' & Hl & H & Hm & Hx)|Hs]]].
  - destruct (Z.eqb_spec (err r) 0) as [E|E]; [|apply yields_Ret; left; auto]. by destruct (broken_err r w2 gs (or_introl Hs)).
  - rewrite (proj1 (rs_settled _ _ _ _ _ _ _ _ H)). cbn [Z.eqb negb]. fold (trimmed r). pose proof (rs_fits _ _ _ _ _ _ _ _ H) as (F1 & F2 & _).
    eapply yields_bind; [eapply (trimmed_ok r l'); [apply (rs_left _ _ _ _ _ _ _ _ H)|exact F1|exact F2]|].
    intros [ok r3] (-> & b & p & n & -> & Hleft & Hp & Hown). cbn [negb]. cbn [ridx with_buffer]. rewrite (rs_ridx _ _ _ _ _ _ _ _ H). cbn [Z.eqb].
    pose proof (rs_mem _ _ _ _ _ _ _ _ H) as Hm. apply (held_mono _ _ _ (objects (gs ++ [(o, v)]) [])) in Hm; [|intros obs s; apply law_emit].
    assert (forall w3 gs', held h0 (own r) (objects gs' []) w3 ->
      ready (with_reply (with_buffer r b p n) None) w3 gs' [] None l' (used + (blen l - blen l'))) as Hready.
    { intros w3 gs' Hg. eapply (ready_buffer (with_reply r None) w3 w3 _ _ _ l' l'); [apply ready_rest; [|done]|done|done|done|done| |].
      - destruct H as [R1 R2 R3 R4 R5 R6 R7]. by split.
      - destruct (rs_calm _ _ _ _ _ _ _ _ H) as [|(C1 & _)]; auto.
      - by rewrite <- Hown in Hg. }
    cbn [reply with_buffer]. rewrite Hr. destruct want.
    + apply yields_Ret. right. split; [done|]. exists l'. split; [lia|]. left. exists o, v. split; [done|]. split; [by apply Hready|done].
    + destruct law_free as (ff & Ef & _ & Hfree). unfold free_object, callback. cbn [fn with_buffer]. rewrite (proj1 (proj2 (rs_settled _ _ _ _ _ _ _ _ H))), Ef.
      destruct (Hfree h0 (own r) gs o v [] [] w2 Hm) as (w3 & -> & H3). cbn [cbind default].
      apply yields_Ret. right. split; [done|]. exists l'. split; [lia|]. left. exists o, v. split; [done|]. split; [by apply Hready|done].
  - rewrite (proj1 (rd_settled _ _ _ _ _ _ _ _ _ _ H)). cbn [Z.eqb negb]. fold (trimmed r). pose proof (rd_fits _ _ _ _ _ _ _ _ _ _ H) as (F1 & F2 & _).
    eapply yields_bind; [eapply (trimmed_ok r l'); [apply (rd_left _ _ _ _ _ _ _ _ _ _ H)|exact F1|exact F2]|].
    intros [ok r3] (-> & b & p & n & -> & Hleft & Hp & Hown). cbn [negb]. cbn [ridx with_buffer]. rewrite (rd_ridx _ _ _ _ _ _ _ _ _ _ H).
    destruct (Z.eqb_spec (Z.of_nat (length fs')) (-1)); [lia|]. apply yields_Ret. right. split; [done|]. exists l'. split; [done|]. right. exists fs', pt'.
    split; [done|]. split; [|done]. eapply (ready_buffer r w2 w2 _ _ _ l' l'); [by apply ready_read|done|done|done|done| |].
    + destruct (rd_calm _ _ _ _ _ _ _ _ _ _ H) as [|(C1 & _)]; auto.
    + rewrite Hown. apply (rd_mem _ _ _ _ _ _ _ _ _ _ H).
  - destruct (Z.eqb_spec (err r) 0) as [E|E]; [|apply yields_Ret; left; auto]. by destruct (broken_err r w2 gs (or_intror (ex_intro _ _ Hs))).
Qed.

(** ** redisReaderFeed *)

Lemma open_fails (r : redisReader) w gs fs pt l used b p n w' : open r w gs fs pt l used -> held h0 (own (with_buffer r b p n)) (objects gs fs) w' ->
  starved ->
  yields (fails (__redisReaderSetErrorOOM (with_buffer r b p n) w')) (fun '(ok, r', w') => ok = REDIS_ERR /\ starved_out r' w' gs).
Proof.
  intros [(O1 & O2 & _) _ O3 _ _ _] Hm Hs. eapply yields_mono; [eapply (fails_ok F h0 (with_buffer r b p n) w' gs fs); [exact O2|exact O3|exact Hm|by vm_compute]|].
  by intros [[ok r'] w2] (-> & Hb & He & _).
Qed.

Definition fed (gs : list (object * resp)) (fs : list frame) (pt : option Z) (l d : list Z) (used : Z) (res : step) : Prop :=
  let '(ok, r, w) := res in
  (ok = REDIS_OK /\ ready r w gs fs pt (l ++ d) used) \/ (ok = REDIS_ERR /\ starved_out r w gs).

Lemma own_buffer (r : redisReader) b p n : own (with_buffer r b p n) ≡ₚ
  match b with Some s => [sblk s] | None => [] end ++ rblk r :: match task r with Some ts => tblk ts :: (titems ts).*1 | None => [] end.
Proof. unfold own. cbn [rblk buf task with_buffer]. destruct b; cbn [app]; [apply perm_swap|done]. Qed.

(** Appending to the buffer. *)
Lemma feed_append (r : redisReader) w w' gs fs pt l used s c d p n :
  let r' := with_buffer r (Some s) p n in
  ready r w gs fs pt l used -> rep s c -> 0 <= p <= blen c -> drop (Z.to_nat p) c = l -> p <= used ->
  Forall is_byte d -> used + blen (l ++ d) < 2 ^ 31 - 2 ^ 10 -> (ndebug = true \/ 62 ∉ d) -> held h0 (own r') (objects gs fs) w' ->
  yields (let! '(newbuf, h) := sdscatlen s d (blen d) w'.1 in
          match newbuf with
          | None => fails (__redisReaderSetErrorOOM r' (h, w'.2))
          | Some s => Ret (REDIS_OK, with_buffer r' (Some s) (pos r') (sdslen s), (h, w'.2))
          end) (fed gs fs pt l d used).
Proof.
  intros r' H Hs Hp Hl Hu Hd Hb Hc Hm. pose proof (ready_open _ _ _ _ _ _ _ H) as Ho.
  set (tb := rblk r :: match task r with Some ts => tblk ts :: (titems ts).*1 | None => [] end).
  pose proof (held_perm _ _ _ _ _ (own_buffer r (Some s) p n) Hm) as (obs & Hob & Ha). cbn [app] in Ha.
  rewrite blen_app in Hb. pose proof (blen_nonneg l). pose proof (blen_nonneg d).
  assert (blen c = p + blen l) as Hc2 by (rewrite <- Hl, blen_drop; unfold blen in *; lia).
  eapply yields_bind; [apply (sdscatlen_ok h0 (tb ++ obs) s c d (blen d) d w'.1 Hs Ha); [apply rd_block_0_all|done|lia]|].
  intros [[s2|] h2]; cbn [outcome].
  - intros [Hs2 Ha2]. apply yields_Ret. left. split; [done|]. change (with_buffer r' (Some s2) (pos r') (sdslen s2)) with (with_buffer r (Some s2) p (sdslen s2)).
    eapply (ready_buffer r w (h2, w'.2)); [exact H| |lia|done|rewrite blen_app; lia| |].
    + exists s2, (c ++ d). cbn [buf len pos with_buffer]. split; [done|]. split; [done|]. split; [exact (rep_len _ _ Hs2)|]. split; [rewrite blen_app; lia|].
      rewrite drop_app_le by (unfold blen in *; lia). by rewrite Hl.
    + destruct Hc as [|Hc]; [by left|]. destruct (op_calm _ _ _ _ _ _ _ Ho) as [|(C1 & _)]; [by left|right]. by rewrite elem_of_app; intros [|].
    + eapply held_perm; [symmetry; apply own_buffer|]. exists obs. by split.
  - intros [Ha2 Hsv]. eapply yields_mono; [eapply (open_fails r w gs fs pt l used (Some s) p n (h2, w'.2)); [exact Ho| |done]|].
    + eapply held_perm; [symmetry; apply own_buffer|]. exists obs. by split.
    + intros [[ok r2] w2] Hr2. by right.
Qed.

Lemma feed_ok (r : redisReader) w gs fs pt l d used : ready r w gs fs pt l used -> Forall is_byte d ->
  used + blen (l ++ d) < 2 ^ 31 - 2 ^ 10 -> (ndebug = true \/ 62 ∉ d) ->
  yields (redisReaderFeed r (Some d) (blen d) w) (fed gs fs pt l d used).
Proof.
  intros H Hd Hb Hc. pose proof (ready_open _ _ _ _ _ _ _ H) as Ho. pose proof Ho as [(O1 & _) (s & c & B1 & B2 & B3 & B4 & B5) O3 O4 O5 O6].
  pose proof O4 as (F1 & F2 & _). unfold redisReaderFeed. rewrite O1. cbn [Z.eqb negb]. destruct (Z.leb_spec 1 (blen d)) as [E|E].
  2: { apply yields_Ret. left. split; [done|]. destruct d; [by rewrite app_nil_r|rewrite blen_cons in E; pose proof (blen_nonneg d); lia]. }
  rewrite B1. cbn [deref cbind]. destruct (_ && _) eqn:Eb.
  - apply andb_prop in Eb as [Eb _]. apply andb_prop in Eb as [Eb%Z.eqb_eq _].
    assert (c = []) as -> by (destruct c; [done|rewrite blen_cons in *; pose proof (blen_nonneg c); lia]).
    assert (r = with_buffer r (Some s) (pos r) (len r)) as Er by (destruct r; cbn in *; by rewrite B1). rewrite Er in O6.
    pose proof (held_perm _ _ _ _ _ (own_buffer r (Some s) _ _) O6) as Hm. cbn [app] in Hm. cbn [sdsfree].
    eapply yields_bind; [eapply yields_bind; [by apply held_free|]|].
    { intros h1 (obs & Hob & Ha). eapply yields_bind; [apply (sdsempty_ok h0 _ h1 Ha)|]. intros [s2 h2] Hcr. apply yields_Ret.
      instantiate (1 := fun '(r1, h2) => exists s2 p, r1 = with_buffer r s2 p (len r) /\
        match s2 with
        | Some s2 => rep s2 [] /\ p = 0 /\ held h0 (own r1) (objects gs fs) (h2, w.2)
        | None => held h0 (own r1) (objects gs fs) (h2, w.2) /\ starved
        end). cbn beta iota. exists s2. destruct s2 as [s2|]; cbn [created] in Hcr; eexists; (split; [reflexivity|]).
      - destruct Hcr as [Hs2 Ha2]. split; [done|]. split; [done|]. eapply held_perm; [symmetry; apply own_buffer|]. exists obs. by split.
      - destruct Hcr as [Ha2 Hsv]. split; [|done]. eapply held_perm; [symmetry; apply own_buffer|]. exists obs. by split. }
    intros [r1 h2] (s2 & p & -> & Hs2). cbn [buf with_buffer]. destruct s2 as [s2|].
    + destruct Hs2 as (R & -> & Hm2). assert (l = []) as -> by (subst l; by rewrite drop_nil).
      apply (feed_append r w (h2, w.2) gs fs pt [] used s2 [] d 0 (len r)); [done|done|done|done|lia|done|done|done|exact Hm2].
    + destruct Hs2 as [Hm2 Hsv]. eapply yields_mono; [eapply (open_fails r w gs fs pt l used None p (len r) (h2, w.2)); done|].
      intros [[ok r2] w2] Hr2. by right.
  - cbn [cbind]. rewrite B1. assert (r = with_buffer r (Some s) (pos r) (len r)) as Er by (destruct r; cbn in *; by rewrite B1).
    pose proof (feed_append r w w gs fs pt l used s c d (pos r) (len r)) as Hf. cbv zeta in Hf. rewrite <- Er in Hf. apply Hf; (done || lia).
Qed.

(** ** redisReaderFree *)

Lemma free_all_ok (ts : list (Z * redisReadTask)) bs (P : list Z -> S -> Prop) (s : S) : forall h, held h0 (ts.*1 ++ bs) P (h, s) ->
  yields (hi_free_all ts h) (fun h' => held h0 bs P (h', s)).
Proof.
  unfold hi_free_all. induction ts as [|t ts IH]; intros h Hm; cbn [for_each fmap list_fmap app] in *; [by apply yields_Ret|].
  eapply yields_bind; [apply (held_free h0 t.1 (ts.*1 ++ bs) P (h, s)); exact Hm|]. exact IH.
Qed.

(** The blocks of a reader whose reply is gone. *)
Lemma free_blocks_ok (r : redisReader) (P : list Z -> S -> Prop) (w : world) : held h0 (own r) P w ->
  yields (let! h := match task r with
                    | Some ts => let! h := hi_free_all (titems ts) w.1 in free (tblk ts) h
                    | None => Ret w.1
                    end in
          let! h := sdsfree (buf r) h in
          let! h := free (rblk r) h in
          Ret (h, w.2)) (held h0 [] P).
Proof.
  intros Hm. destruct w as [h s]. cbn [fst snd]. set (bb := match buf r with Some s => [sblk s] | None => [] end).
  eapply (yields_bind (fun h => held h0 (bb ++ [rblk r]) P (h, s))).
  { unfold own in Hm. fold bb in Hm. destruct (task r) as [ts|].
    - eapply yields_bind; [eapply (free_all_ok _ (tblk ts :: bb ++ [rblk r]) P s)|].
      + eapply held_perm; [|exact Hm]. change (rblk r :: bb ++ tblk ts :: (titems ts).*1) with ((rblk r :: bb) ++ (tblk ts :: (titems ts).*1)).
        rewrite (Permutation_app_comm (rblk r :: bb)). cbn [app]. rewrite Permutation_middle. apply Permutation_app_head, Permutation_skip.
        apply Permutation_cons_append.
      + intros h1 H1. by apply (held_free h0 (tblk ts) (bb ++ [rblk r]) P (h1, s)).
    - apply yields_Ret. eapply held_perm; [|exact Hm]. rewrite app_nil_r. apply Permutation_cons_append. }
  intros h1 H1. eapply (yields_bind (fun h => held h0 [rblk r] P (h, s))).
  { subst bb. destruct (buf r) as [sb|]; cbn [sdsfree app] in *; [|by apply yields_Ret]. by apply (held_free h0 (sblk sb) [rblk r] P (h1, s)). }
  intros h2 H2. eapply yields_bind; [by apply (held_free h0 (rblk r) [] P (h2, s))|]. intros h3 H3. by apply yields_Ret.
Qed.

Lemma reader_free_ok (r : redisReader) w gs fs : reply r = fobj <$> last fs -> (fs = [] \/ fn r = Some F) -> held h0 (own r) (objects gs fs) w ->
  yields (redisReaderFree (Some r) w) (held h0 [] (objects gs [])).
Proof.
  intros Hr Hf Hm. unfold redisReaderFree. eapply (yields_bind (fun w => held h0 (own r) (objects gs []) w)).
  - rewrite Hr. destruct (last fs) as [f0|] eqn:El; cbn [fmap option_fmap option_map].
    + destruct Hf as [->|Hf]; [done|]. destruct law_free as (ff & Ef & Hfree & _). unfold free_object, callback. rewrite Hf, Ef.
      destruct (Hfree h0 (own r) gs fs f0 w El Hm) as (w1 & -> & H1). cbn [cbind default]. by apply yields_Ret.
    + apply last_None in El as ->. by apply yields_Ret.
  - intros w1 H1. by apply free_blocks_ok.
Qed.

End api.

(** ** Creation *)

Section session.
Context {A : Allocator} {G : Garbage} {N : Ndebug} {S : Type} (F : @redisReplyObjectFunctions S) `{!ReplyLaws F}.
Context (h0 : heap).
#[local] Abbreviation world := (@world S).
#[local] Abbreviation redisReader := (@redisReader S).
#[local] Abbreviation maxe := REDIS_READER_MAX_ARRAY_ELEMENTS.
#[local] Abbreviation ready := (ready F h0 maxe).
#[local] Abbreviation broken := (broken F h0).
#[local] Abbreviation answer := (answer maxe).

(** NULL after a refused allocation leaves no block behind. *)
Definition not_created (res : option redisReader * world) : Prop :=
  res.1 = None /\ held h0 [] (objects [] []) res.2 /\ starved.

Lemma create_oom (r : redisReader) w : reply r = None -> held h0 (own r) (objects [] []) w -> starved ->
  yields (let! w := redisReaderFree (Some r) w in Ret (None, w)) not_created.
Proof.
  intros Hr Hm Hs. eapply yields_bind; [eapply (reader_free_ok F h0 r w [] []); auto|]. intros w' H'. by apply yields_Ret.
Qed.

Lemma create_ok (w : world) : held h0 [] (objects [] []) w ->
  yields (redisReaderCreateWithFunctions (Some F) w) (fun res =>
    match res.1 with
    | Some r => ready r res.2 [] [] None [] 0
    | None => not_created res
    end).
Proof.
  destruct w as [h s]. intros Hm. unfold redisReaderCreateWithFunctions. cbn [fst snd]. pose proof (held_malloc h0 [] _ h s Hm) as Ha.
  destruct (malloc h) as [[b|] h1]; [|by apply yields_Ret].
  destruct Ha as (obs & Hob & Ha). cbn [fst snd] in *. eapply yields_bind; [apply (sdsempty_ok h0 _ h1 Ha)|].
  assert (forall (m : comp (option redisReader * world)), yields m not_created ->
    yields m (fun res => match res.1 with Some r => ready r res.2 [] [] None [] 0 | None => not_created res end)) as Hnone.
  { intros m Hx. eapply yields_mono; [exact Hx|]. intros [o w2] (E & Hy). cbn in E. by subst o. }
  intros [[sb|] h2]; cbn [created]; [intros [Hrep Ha2]|intros [Ha2 Hs]].
  2: { apply Hnone. apply create_oom; [done| |done]. by exists obs. }
  assert (held h0 [sblk sb; b] (objects [] []) (h2, s)) as Hm2 by (by exists obs). apply held_malloc in Hm2.
  destruct (malloc h2) as [[tb|] h3].
  2: { destruct Hm2 as [Hm2 Hs]. apply Hnone. apply create_oom; [done| |done]. eapply held_perm; [|exact Hm2]. apply perm_swap. }
  eapply yields_bind; [apply (grow_loop_ok h0 [sblk sb; b] (objects [] []) REDIS_READER_STACK_SIZE s 10 (mkTasks tb REDIS_READER_STACK_SIZE []) h3);
    [done|done|vm_compute; lia|exact Hm2]|].
  intros [[ok ts] h4] ((x & Hx) & Hm4 & Hok).
  assert (tblk ts :: (titems ts).*1 ++ [sblk sb; b] ≡ₚ b :: sblk sb :: tblk ts :: (titems ts).*1) as Hp.
  { rewrite app_comm_cons, Permutation_app_comm. apply perm_swap. }
  destruct ok.
  - apply yields_Ret. cbn [fst snd]. apply ready_rest; [|done]. split; try done.
    + exists sb, []. by split_and!.
    + by exists ts.
    + split; [done|]. split; [done|]. split; [done|]. split; [constructor|]. unfold ntasks. cbn. rewrite Hok. done.
    + right. by split_and!; [apply not_elem_of_nil| |constructor].
    + eapply held_perm; [exact Hp|exact Hm4].
  - apply Hnone. apply create_oom; [done| |done]. eapply held_perm; [exact Hp|exact Hm4].
Qed.

(** ** A client

    It feeds what arrives piece by piece and takes the replies after each
    piece, as redisBufferRead and redisGetReplyFromReader do. *)
Fixpoint drain (fuel : nat) (r : redisReader) (w : world) : comp (Z * list object * redisReader * world) :=
  match fuel with
  | O => NoFuel
  | Datatypes.S f =>
      let! '(ok, o, r, w) := redisReaderGetReply true r w in
      match o with
      | Some o =>
          let! '(ok, os, r, w) := drain f r w in
          Ret (ok, o :: os, r, w)
      | None => Ret (ok, [], r, w)
      end
  end.

Definition reply_rounds (r : redisReader) : nat := Datatypes.S (Datatypes.S (Z.to_nat (len r - pos r))).

Fixpoint read_pieces (ds : list (list Z)) (r : redisReader) (w : world) : comp (Z * list object * redisReader * world) :=
  match ds with
  | [] => Ret (REDIS_OK, [], r, w)
  | d :: ds =>
      let! '(ok, r, w) := redisReaderFeed r (Some d) (blen d) w in
      if ok =? REDIS_ERR then Ret (ok, [], r, w)
      else
        let! '(ok, os, r, w) := drain (reply_rounds r) r w in
        if ok =? REDIS_ERR then Ret (ok, os, r, w)
        else
          let! '(ok, os', r, w) := read_pieces ds r w in
          Ret (ok, os ++ os', r, w)
  end.

(** The replies so far and the state, against the parse of what was fed and of
    any bytes [x] to come. *)
Definition served (gs : list (object * resp)) (fs : list frame) (pt : option Z) (l : list Z) (used : Z)
  (res : Z * list object * redisReader * world) : Prop :=
  let '(ok, os, r, w) := res in
  exists new, os = new.*1 /\
    ((ok = REDIS_ERR /\ broken r w (gs ++ new) /\
        ((err r = REDIS_ERR_OOM /\ starved /\ forall x, exists vs, (after maxe (answer fs pt (l ++ x))).1 = new.*2 ++ vs) \/
         (err r = REDIS_ERR_PROTOCOL /\ forall x, after maxe (answer fs pt (l ++ x)) = (new.*2, Fails (errstr r))))) \/
     (ok = REDIS_OK /\ exists fs' pt' l', let used' := used + (blen l - blen l') in
        ready r w (gs ++ new) fs' pt' l' used' /\ answer fs' pt' l' = More /\
        forall x, after maxe (answer fs pt (l ++ x)) =
          (new.*2 ++ (after maxe (answer fs' pt' (l' ++ x))).1, (after maxe (answer fs' pt' (l' ++ x))).2))).

(** Replies in front. *)
Lemma served_more gs fs pt l used o v l2 used2 ok os (r : redisReader) (w : world) :
  used2 = used + (blen l - blen l2) -> (forall x, answer fs pt (l ++ x) = Done v (l2 ++ x)) ->
  served (gs ++ [(o, v)]) [] None l2 used2 (ok, os, r, w) -> served gs fs pt l used (ok, o :: os, r, w).
Proof.
  intros -> Ha (new & -> & Hs). exists ((o, v) :: new). split; [done|]. rewrite <- app_assoc in Hs. cbn [app] in Hs.
  assert (forall x, after maxe (answer fs pt (l ++ x)) =
    (v :: (after maxe (answer [] None (l2 ++ x))).1, (after maxe (answer [] None (l2 ++ x))).2)) as Hx.
  { intros x. rewrite Ha. cbn [after]. by rewrite parse_all_eq. }
  destruct Hs as [(-> & Hb & Hs)|(-> & fs' & pt' & l' & Hr & Hm & Hs)]; [left|right].
  - split; [done|]. split; [done|]. destruct Hs as [(He & Hst & Hs)|(He & Hs)]; [left|right].
    + split; [done|]. split; [done|]. intros x. destruct (Hs x) as [vs Hvs]. exists vs. rewrite Hx. cbn [fst]. by rewrite Hvs.
    + split; [done|]. intros x. by rewrite Hx, Hs.
  - split; [done|]. exists fs', pt', l'. split; [|split; [done|]].
    + replace (used + (blen l - blen l')) with (used + (blen l - blen l2) + (blen l2 - blen l')) by lia. done.
    + intros x. by rewrite Hx, Hs.
Qed.

Lemma drain_ok : forall fuel (r : redisReader) w gs fs pt l used, ready r w gs fs pt l used -> (length l < fuel)%nat ->
  yields (drain fuel r w) (served gs fs pt l used).
Proof.
  induction fuel as [|fuel IH]; intros r w gs fs pt l used H Hf; [lia|]. cbn [drain].
  eapply yields_bind; [by eapply getreply_ok|].
  intros [[[ok o] r1] w1] [(-> & -> & Hb)|(-> & l2 & Hl & [(o' & v & -> & Hr & Hl2 & Hx)|(fs' & pt' & -> & Hr & Hm & Hx)])].
  - apply yields_Ret. exists []. split; [done|]. left. rewrite app_nil_r. destruct Hb as [(Hb & He & Hs)|(Hb & He & Hx)].
    + split; [done|]. split; [done|]. left. split; [done|]. split; [done|]. intros x. by eexists.
    + split; [done|]. split; [done|]. right. split; [done|]. intros x. by rewrite Hx.
  - eapply yields_bind; [apply (IH r1 w1 (gs ++ [(o', v)]) [] None l2 _ Hr); lia|]. intros [[[ok os] r2] w2] Hs. apply yields_Ret.
    by eapply served_more.
  - apply yields_Ret. exists []. split; [done|]. right. rewrite app_nil_r. split; [done|]. exists fs', pt', l2. split; [done|]. split; [done|].
    intros x. rewrite Hx. by destruct (after maxe _).
Qed.

Lemma read_pieces_ok ds : forall (r : redisReader) w gs fs pt l used, ready r w gs fs pt l used -> answer fs pt l = More ->
  Forall (Forall is_byte) ds -> used + blen (l ++ concat ds) < 2 ^ 31 - 2 ^ 10 -> (ndebug = true \/ 62 ∉ concat ds) ->
  yields (read_pieces ds r w) (served gs fs pt (l ++ concat ds) used).
Proof.
  induction ds as [|d ds IH]; intros r w gs fs pt l used H Hm Hd Hb Hc; cbn [read_pieces concat].
  { apply yields_Ret. exists []. split; [done|]. right. rewrite !app_nil_r. split; [done|]. exists fs, pt, l. rewrite Z.sub_diag, Z.add_0_r.
    split; [done|]. split; [done|]. intros x. by destruct (after maxe _). }
  cbn [concat] in *. apply Forall_cons in Hd as [Hd Hds]. rewrite app_assoc in Hb.
  assert (ndebug = true \/ (62 ∉ d) /\ 62 ∉ concat ds) as Hc2.
  { destruct Hc as [|Hc]; [by left|right]. split; intros ?; apply Hc; apply elem_of_app; auto. }
  rewrite blen_app in Hb. pose proof (blen_nonneg (concat ds)).
  eapply yields_bind; [eapply feed_ok; [exact H|done|lia|tauto]|].
  intros [[ok r1] w1] [(-> & Hr)|(-> & Hb1 & He & Hs)].
  2: { change (REDIS_ERR =? REDIS_ERR) with true. cbv iota. apply yields_Ret. exists []. split; [done|]. left. rewrite app_nil_r.
       split; [done|]. split; [done|]. left. split; [done|]. split; [done|]. intros x. by eexists. }
  change (REDIS_OK =? REDIS_ERR) with false. cbv iota. pose proof (ready_open _ _ _ _ _ _ _ _ _ _ Hr) as Ho.
  destruct (reading_at r1 _ (op_left _ _ _ _ _ _ _ _ _ _ Ho)) as (_ & _ & _ & _ & Hlen).
  eapply yields_bind; [eapply (drain_ok (reply_rounds r1)); [exact Hr|unfold reply_rounds, blen in *; lia]|].
  intros [[[ok os] r2] w2] (new & -> & Hs). rewrite app_assoc. destruct Hs as [(-> & Hb2 & Hs)|(-> & fs' & pt' & l' & Hr2 & Hm2 & Hx)].
  - change (REDIS_ERR =? REDIS_ERR) with true. cbv iota. apply yields_Ret. exists new. split; [done|]. left. split; [done|]. split; [done|].
    destruct Hs as [(He & Hs & Hx)|(He & Hx)]; [left|right].
    + split; [done|]. split; [done|]. intros x. rewrite <- app_assoc. apply Hx.
    + split; [done|]. intros x. rewrite <- app_assoc. apply Hx.
  - change (REDIS_OK =? REDIS_ERR) with false. cbv iota.
    eapply yields_bind; [apply (IH r2 w2 (gs ++ new) fs' pt' l' (used + (blen (l ++ d) - blen l')) Hr2 Hm2 Hds); [rewrite (blen_app l'); lia|tauto]|].
    intros [[[ok os] r3] w3] (new2 & -> & Hs). apply yields_Ret. exists (new ++ new2). rewrite !fmap_app. split; [done|].
    assert (forall x, after maxe (answer fs pt (((l ++ d) ++ concat ds) ++ x)) =
      (new.*2 ++ (after maxe (answer fs' pt' ((l' ++ concat ds) ++ x))).1, (after maxe (answer fs' pt' ((l' ++ concat ds) ++ x))).2)) as Hx'.
    { intros x. rewrite <- !(app_assoc _ (concat ds)). apply Hx. }
    rewrite <- app_assoc in Hs. destruct Hs as [(-> & Hb3 & Hs)|(-> & fs2 & pt2 & l2 & Hr3 & Hm3 & Hx3)]; [left|right].
    + split; [done|]. split; [done|]. destruct Hs as [(He & Hs & Hx3)|(He & Hx3)]; [left|right].
      * split; [done|]. split; [done|]. intros x. destruct (Hx3 x) as [vs Hvs]. exists vs. rewrite Hx'. cbn [fst].
        by rewrite Hvs, app_assoc.
      * split; [done|]. intros x. by rewrite Hx', Hx3.
    + split; [done|]. exists fs2, pt2, l2. split; [|split; [done|]].
      * replace (used + (blen ((l ++ d) ++ concat ds) - blen l2)) with (used + (blen (l ++ d) - blen l') + (blen (l' ++ concat ds) - blen l2)); [done|].
        rewrite !blen_app. lia.
      * intros x. rewrite Hx', Hx3. cbn [fst snd]. by rewrite app_assoc.
Qed.

End session.
