(* ===== verification/ReplyProof.v ===== *)
(** * The reply objects keep the contract of the reader

    A reply is a tree of objects with its strings and vectors; [tree] says
    that the objects of a list are the tree of a value, [pstack] that they are
    open aggregates with the elements read so far.  The callbacks of
    [defaultFunctions] build them, [freeReplyObject] frees exactly them. *)

From stdpp Require Import gmap.
From Stdlib Require Import SpecFloat.
From S2P Require Import Prelude Cstdlib Heap Sds Reader Reply Resp ReaderProof.

#[local] Open Scope Z_scope.
#[local] Set Warnings "-clear-no-such-hyp".
#[local] Arguments cbind {A B} !m k /.

#[local] Abbreviation world := (@world store).

(** Objects by their block, and the blocks they own. *)
Definition objs : Type := list (Z * redisReply).

Definition oblocks (o : Z * redisReply) : list Z :=
  o.1 :: match str o.2 with Some (b, _) => [b] | None => [] end ++ match element o.2 with Some (b, _) => [b] | None => [] end.

Definition text_reply (t : Z) (sb : Z) (s : list Z) : redisReply := with_str (zero_reply t) (blen s) (Some (sb, s ++ [0])).

Definition verb_reply (sb : Z) (f s : list Z) : redisReply :=
  with_str (with_vtype (zero_reply REDIS_REPLY_VERB) (f ++ [0])) (blen s) (Some (sb, s ++ [0])).

Definition double_reply (sb : Z) (d : spec_float) (s : list Z) : redisReply :=
  with_str (with_dval (zero_reply REDIS_REPLY_DOUBLE) d) 0 (Some (sb, s ++ [0])).

Definition integer_reply (t z : Z) : redisReply := with_integer (zero_reply t) z.

Definition array_reply (t n : Z) (e : option (Z * list (option Z))) : redisReply := with_elements (zero_reply t) n e.

(** [tree v p os]: [os] are the objects of the value [v], whose root is [p]. *)
Fixpoint tree (v : resp) (p : Z) (os : objs) : Prop :=
  match v with
  | RText t s => exists sb, (t = REDIS_REPLY_STRING \/ t = REDIS_REPLY_STATUS \/ t = REDIS_REPLY_ERROR) /\ os = [(p, text_reply t sb s)]
  | RVerb f s => exists sb, os = [(p, verb_reply sb f s)]
  | RInteger z => os = [(p, integer_reply REDIS_REPLY_INTEGER z)]
  | RDouble d s => exists sb, os = [(p, double_reply sb d s)]
  | RNil => os = [(p, zero_reply REDIS_REPLY_NIL)]
  | RBool b => os = [(p, integer_reply REDIS_REPLY_BOOL (if b then 1 else 0))]
  | RArray t l =>
      is_aggregate t = true /\
      exists e ps oss, os = (p, array_reply t (Z.of_nat (length l)) e) :: concat oss /\
        match l with
        | [] => e = None
        | _ => exists eb, e = Some (eb, Some <$> ps)
        end /\
        (fix go l ps oss :=
           match l, ps, oss with
           | [], [], [] => True
           | v :: l, p :: ps, os :: oss => tree v p os /\ go l ps oss
           | _, _, _ => False
           end) l ps oss
  end.

Fixpoint trees (l : list resp) (ps : list Z) (oss : list objs) : Prop :=
  match l, ps, oss with
  | [], [], [] => True
  | v :: l, p :: ps, os :: oss => tree v p os /\ trees l ps oss
  | _, _, _ => False
  end.

Lemma reply_tree_array t l p os : tree (RArray t l) p os <->
  is_aggregate t = true /\
  exists e ps oss, os = (p, array_reply t (Z.of_nat (length l)) e) :: concat oss /\
    match l with [] => e = None | _ => exists eb, e = Some (eb, Some <$> ps) end /\ trees l ps oss.
Proof.
  cbn [tree]. assert (forall l ps oss, (fix go l ps oss :=
           match l, ps, oss with
           | [], [], [] => True
           | v :: l, p :: ps, os :: oss => tree v p os /\ go l ps oss
           | _, _, _ => False
           end) l ps oss <-> trees l ps oss) as H.
  { clear. induction l as [|v l IH]; intros [|p ps] [|os oss]; cbn [trees]; try done. by rewrite IH. }
  split; intros (Ht & e & ps & oss & E & He & Hl); (split; [done|]); exists e, ps, oss; (split; [done|]); (split; [done|]); by apply H.
Qed.

Lemma trees_app l1 ps1 oss1 l2 ps2 oss2 : trees l1 ps1 oss1 -> trees l2 ps2 oss2 -> trees (l1 ++ l2) (ps1 ++ ps2) (oss1 ++ oss2).
Proof.
  revert ps1 oss1. induction l1 as [|v l1 IH]; intros [|p ps1] [|os oss1] H1 H2; cbn [trees app] in *; try done.
  destruct H1 as [Hv H1]. split; [done|]. by apply IH.
Qed.

Lemma trees_length l ps oss : trees l ps oss -> length ps = length l.
Proof.
  revert ps oss. induction l as [|v l IH]; intros [|p ps] [|os oss] H; cbn [trees] in *; try done. destruct H as [_ H]. cbn. f_equal. by eapply IH.
Qed.

(** The objects of the replies handed out. *)
Fixpoint given (gs : list (object * resp)) (os : objs) : Prop :=
  match gs with
  | [] => os = []
  | (o, v) :: gs => exists p os1 os2, o = Block p /\ tree v p os1 /\ given gs os2 /\ os = os1 ++ os2
  end.

(** The open aggregates; the innermost may have one more element [child]. *)
Fixpoint pstack (fs : list frame) (child : option Z) (os : objs) : Prop :=
  match fs with
  | [] => os = []
  | f :: fs =>
      exists p eb ps oss os' k,
        fobj f = Block p /\ is_aggregate (ftype f) = true /\ trees (fdone f) ps oss /\
        nread f + (match child with Some _ => 1 | None => 0 end) + Z.of_nat k = fcount f /\ pstack fs (Some p) os' /\
        os = (p, array_reply (ftype f) (fcount f)
                   (Some (eb, (Some <$> ps) ++ match child with Some c => [Some c] | None => [] end ++ replicate k None))) :: concat oss ++ os'
  end.

Lemma given_app gs1 gs2 os1 os2 : given gs1 os1 -> given gs2 os2 -> given (gs1 ++ gs2) (os1 ++ os2).
Proof.
  revert os1. induction gs1 as [|[o v] gs1 IH]; intros os1; cbn [given app]; [by intros ->|].
  intros (p & a & b & -> & Hv & Hg & ->) H2. exists p, a, (b ++ os2). rewrite app_assoc. auto.
Qed.

Lemma given_app_inv gs1 gs2 os : given (gs1 ++ gs2) os -> exists os1 os2, given gs1 os1 /\ given gs2 os2 /\ os = os1 ++ os2.
Proof.
  revert os. induction gs1 as [|[o v] gs1 IH]; intros os; cbn [given app]; [intros H; by exists [], os|].
  intros (p & a & b & -> & Hv & (o1 & o2 & H1 & H2 & ->)%IH & ->). exists (a ++ o1), o2. rewrite app_assoc. split; [|done].
  by exists p, a, o1.
Qed.

(** ** Memory *)

Section mem.
Context {A : Allocator} {G : Garbage} {N : Ndebug} (h0 : heap).

(** The store holds the objects [os], whose blocks are in use, and so are [bs]. *)
Definition mem (bs : list Z) (os : objs) (w : world) : Prop :=
  NoDup os.*1 /\ w.2 = list_to_map os /\ acquires h0 (bs ++ flat_map oblocks os) w.1.

Lemma flat_map_perm {X Y : Type} (f : X -> list Y) l l' : l ≡ₚ l' -> flat_map f l ≡ₚ flat_map f l'.
Proof.
  induction 1 as [|x l l' _ IH|x y l|l1 l2 l3 _ IH1 _ IH2]; cbn [flat_map]; [done|by rewrite IH| |by rewrite IH1].
  rewrite !app_assoc. by rewrite (Permutation_app_comm (f y)).
Qed.

Lemma mem_perm bs bs' os os' w : bs ≡ₚ bs' -> os ≡ₚ os' -> mem bs os w -> mem bs' os' w.
Proof.
  intros Eb Eo (H1 & H2 & H3). assert (os.*1 ≡ₚ os'.*1) as E1 by (by rewrite Eo). split; [by rewrite <- E1|]. split.
  - rewrite H2. by apply list_to_map_proper.
  - eapply acquires_perm; [|exact H3]. by rewrite Eb, (flat_map_perm _ _ _ Eo).
Qed.

Lemma mem_fresh bs os h s : mem bs os (h, s) ->
  match malloc h with
  | (Some b, h') => (b ∉ os.*1) /\ mem (b :: bs) os (h', s)
  | (None, h') => mem bs os (h', s) /\ starved
  end.
Proof.
  intros (H1 & H2 & H3). cbn [fst snd] in *. pose proof (malloc_more h0 _ _ H3) as Hm. destruct (malloc h) as [[b|] h'].
  - split; [|by split]. destruct Hm as (_ & _ & Hd & _). apply NoDup_cons in Hd as [Hd _]. intros Hb. apply Hd.
    apply elem_of_app. right. apply list_elem_of_fmap in Hb as (o & -> & Ho). apply list_elem_of_In, in_flat_map.
    exists o. split; [by apply list_elem_of_In|]. by left.
  - destruct Hm as [Hm Hs]. split; [by split|done].
Qed.

(** Changing an object, which takes over the blocks [xs]. *)
Lemma mem_put xs bs os1 b r r' os2 w : mem (xs ++ bs) (os1 ++ (b, r) :: os2) w -> oblocks (b, r') ≡ₚ xs ++ oblocks (b, r) ->
  mem bs (os1 ++ (b, r') :: os2) (put_reply b r' w).
Proof.
  intros (H1 & H2 & H3) Hb. assert ((os1 ++ (b, r) :: os2).*1 = (os1 ++ (b, r') :: os2).*1) as E by (by rewrite !fmap_app).
  split; [by rewrite <- E|]. unfold put_reply. cbn [fst snd]. split.
  - assert (forall r, (os1 ++ (b, r) :: os2).*1 = (os1 ++ (b, r') :: os2).*1 ->
      list_to_map (os1 ++ (b, r) :: os2) = (<[b:=r]> (list_to_map (os1 ++ os2)) : store)) as Hs.
    { intros r0 E0. etransitivity; [apply (list_to_map_proper _ ((b, r0) :: os1 ++ os2))|by apply list_to_map_cons].
      - by rewrite E0, <- E.
      - by rewrite <- Permutation_middle. }
    rewrite H2, (Hs r), (Hs r') by done. apply insert_insert_eq.
  - eapply acquires_perm; [|exact H3]. rewrite !flat_map_app. cbn [flat_map]. rewrite Hb.
    rewrite (Permutation_app_comm xs bs), <- !app_assoc. apply Permutation_app_head. rewrite !app_assoc.
    apply Permutation_app_tail, Permutation_app_tail. apply Permutation_app_comm.
Qed.

Lemma mem_new bs b r os w : mem (b :: bs) os w -> b ∉ os.*1 -> str r = None -> element r = None -> mem bs ((b, r) :: os) (put_reply b r w).
Proof.
  intros (H1 & H2 & H3) Hb Hs He. split; [by apply NoDup_cons|]. split; [cbn; by rewrite H2|].
  assert (oblocks (b, r) = [b]) as E by (unfold oblocks; cbn [fst snd]; by rewrite Hs, He).
  eapply acquires_perm; [|exact H3]. cbn [flat_map]. rewrite E. cbn [app]. apply Permutation_middle.
Qed.

Lemma mem_lookup bs os1 b r os2 w : mem bs (os1 ++ (b, r) :: os2) w -> w.2 !! b = Some r.
Proof.
  intros (H1 & -> & _). apply elem_of_list_to_map; [done|]. apply elem_of_app. right. by left.
Qed.

Lemma mem_object bs b r os w : mem bs ((b, r) :: os) w -> w.2 !! b = Some r.
Proof. apply (mem_lookup bs []). Qed.

Lemma createReplyObject_ok bs os t w : mem bs os w ->
  match createReplyObject t w with
  | (Some b, w') => mem bs ((b, zero_reply t) :: os) w'
  | (None, w') => mem bs os w' /\ starved
  end.
Proof.
  destruct w as [h s]. intros H. unfold createReplyObject, hi_malloc. cbn [fst snd]. pose proof (mem_fresh _ _ _ _ H) as Hm.
  destruct (malloc h) as [[b|] h']; [|done]. destruct Hm as [Hb Hm]. by apply mem_new.
Qed.

Lemma malloc_block_ok bs os w : mem bs os w ->
  match hi_malloc w with
  | (Some b, w') => mem (b :: bs) os w'
  | (None, w') => mem bs os w' /\ starved
  end.
Proof.
  destruct w as [h s]. intros H. unfold hi_malloc. cbn [fst snd]. pose proof (mem_fresh _ _ _ _ H) as Hm.
  destruct (malloc h) as [[b|] h']; [|done]. by destruct Hm.
Qed.

(** ** Freeing *)

(** The blocks that the switch of [freeReplyObject] frees. *)
Definition reply_ok (r : redisReply) : Prop :=
  if is_aggregate (rtype r) then
    str r = None /\ match element r with Some (_, ps) => elements r = Z.of_nat (length ps) | None => True end
  else element r = None /\ (has_str (rtype r) = true \/ str r = None).

Definition kids (r : redisReply) : list Z :=
  if is_aggregate (rtype r) then match element r with Some (_, ps) => omap id ps | None => [] end else [].

(** [os] is a tree of objects with the root [p], of depth at most [n]. *)
Fixpoint freeable (n : nat) (p : Z) (os : objs) : Prop :=
  match n with
  | O => False
  | S n => exists r oss, os = (p, r) :: concat oss /\ reply_ok r /\ Forall2 (freeable n) (kids r) oss
  end.

Lemma freeable_mono n m p os : (n <= m)%nat -> freeable n p os -> freeable m p os.
Proof.
  revert m p os. induction n as [|n IH]; intros m p os Hm; [done|]. destruct m as [|m]; [lia|]. cbn [freeable].
  intros (r & oss & E & Hr & Hk). exists r, oss. split; [done|]. split; [done|]. eapply Forall2_impl; [exact Hk|].
  intros q o. apply IH. lia.
Qed.

Lemma freeable_length n p os : freeable n p os -> freeable (length os) p os.
Proof.
  revert p os. induction n as [|n IH]; intros p os; [done|]. cbn [freeable]. intros (r & oss & -> & Hr & Hk). cbn [length freeable].
  exists r, oss. split; [done|]. split; [done|].
  assert (forall m, (length (concat oss) <= m)%nat -> Forall2 (freeable m) (kids r) oss) as H; [|by apply H].
  clear Hr. revert Hk. generalize (kids r) as qs. intros qs Hk. induction Hk as [|q o qs oss Hq Hk IHk]; intros m Hm; constructor.
  - eapply freeable_mono; [|by apply IH]. cbn [concat] in Hm. rewrite length_app in Hm. lia.
  - apply IHk. cbn [concat] in Hm. rewrite length_app in Hm. lia.
Qed.

Lemma free_in l b l' h : acquires h0 l h -> l ≡ₚ b :: l' -> yields (free b h) (acquires h0 l').
Proof. intros H E. apply free_first. by eapply acquires_perm. Qed.

(** The loop over the elements frees the objects of the elements. *)
Lemma free_elements_ok (f : option Z -> world -> comp world) bs : f None = Ret ->
  forall ps0 ps oss os w, Forall2 (fun q o => forall os w, mem bs (o ++ os) w -> yields (f (Some q) w) (mem bs os)) (omap id ps) oss ->
  mem bs (concat oss ++ os) w ->
  yields ((fix loop (k j : nat) (w : world) : comp world :=
             match k with
             | O => Ret w
             | Datatypes.S k => let! p := deref ((ps0 ++ ps) !! j) in let! w := f p w in loop k (Datatypes.S j) w
             end) (length ps) (length ps0) w) (mem bs os).
Proof.
  intros Hn ps0 ps. revert ps0. induction ps as [|p ps IH]; intros ps0 oss os w Hf Hm.
  { cbn in Hf. apply Forall2_nil_inv_l in Hf as ->. by apply yields_Ret. }
  cbn [length]. rewrite list_lookup_middle by done. cbn [deref cbind].
  replace (ps0 ++ p :: ps) with ((ps0 ++ [p]) ++ ps) by (by rewrite <- app_assoc).
  replace (Datatypes.S (length ps0)) with (length (ps0 ++ [p])) by (rewrite length_app; cbn; lia).
  destruct p as [q|]; cbn [omap list_omap id] in Hf.
  - apply Forall2_cons_inv_l in Hf as (o & oss' & Ho & Hf & ->). cbn [concat] in Hm. rewrite <- app_assoc in Hm.
    eapply yields_bind; [apply (Ho _ _ Hm)|]. intros w1 H1. by eapply IH.
  - rewrite Hn. cbn [cbind]. by eapply IH.
Qed.

(** The object [p] whose own blocks but its record are free. *)
Definition emptied (bs : list Z) (p : Z) (os : objs) (w : world) : Prop :=
  (p ∉ os.*1) /\ NoDup os.*1 /\ (exists r, w.2 = <[p := r]> (list_to_map os)) /\ acquires h0 (bs ++ p :: flat_map oblocks os) w.1.

Lemma emptied_none bs p r os w : mem bs ((p, r) :: os) w -> oblocks (p, r) = [p] -> emptied bs p os w.
Proof.
  intros (H1 & H2 & H3) Hb. cbn [fmap list_fmap fst] in H1. apply NoDup_cons in H1 as [Hp H1]. split; [done|]. split; [done|]. split.
  - exists r. rewrite H2. apply list_to_map_cons.
  - cbn [flat_map] in H3. by rewrite Hb in H3.
Qed.

Lemma emptied_one bs p r os w x : mem bs ((p, r) :: os) w -> oblocks (p, r) = [p; x] -> yields (hi_free x w) (emptied bs p os).
Proof.
  intros (H1 & H2 & H3) Hb. cbn [fmap list_fmap fst] in H1. apply NoDup_cons in H1 as [Hp H1]. unfold hi_free.
  cbn [flat_map] in H3. rewrite Hb in H3. cbn [app] in H3.
  eapply yields_bind; [eapply (free_in _ x (bs ++ p :: flat_map oblocks os)); [exact H3|]|].
  - rewrite (perm_swap x p). symmetry. apply Permutation_middle.
  - intros h Hh. apply yields_Ret. split; [done|]. split; [done|]. split; [|done]. exists r. cbn [snd]. rewrite H2. apply list_to_map_cons.
Qed.

Lemma emptied_last bs p os w : emptied bs p os w -> yields (let! w := hi_free p w in Ret (w.1, delete p w.2)) (mem bs os).
Proof.
  intros (Hp & H1 & (r & H2) & H3). unfold hi_free. destruct w as [h s]. cbn [fst snd] in *.
  destruct (free_in _ p (bs ++ flat_map oblocks os) h H3) as (h' & -> & Hh); [symmetry; apply Permutation_middle|]. cbn [cbind].
  apply yields_Ret. split; [done|]. split; [|done]. cbn [fst snd]. rewrite H2. apply delete_insert_id. by apply not_elem_of_list_to_map_1.
Qed.

Lemma free_reply_ok bs : forall n p os, freeable n p os -> forall fuel os' w, (n < fuel)%nat -> mem bs (os ++ os') w ->
  yields (free_reply fuel (Some p) w) (mem bs os').
Proof.
  induction n as [|n IH]; intros p os; [done|]. cbn [freeable]. intros (r & oss & -> & Hr & Hk) fuel os' w Hf Hm.
  destruct fuel as [|fuel]; [lia|]. cbn [free_reply]. cbn [app] in Hm. rewrite (mem_object _ _ _ _ _ Hm). cbn [deref cbind].
  unfold reply_ok in Hr. unfold kids in Hk.
  eapply (yields_bind (emptied bs p os')); [|intros w1 H1; by apply emptied_last].
  destruct (is_aggregate (rtype r)).
  - destruct Hr as [Hs He]. destruct (element r) as [[eb ps]|] eqn:Ee.
    + rewrite He, Nat2Z.id. eapply yields_bind.
      * apply (free_elements_ok (free_reply fuel) bs) with (ps0 := []) (oss := oss) (os := (p, r) :: os'); [by destruct fuel; [lia|]| |].
        -- cbn [app]. eapply Forall2_impl; [exact Hk|]. intros q o Ho os2 w2. apply IH; [done|lia].
        -- eapply mem_perm; [done| |exact Hm]. apply Permutation_middle.
      * intros w1 H1. eapply emptied_one; [exact H1|]. unfold oblocks. cbn [fst snd]. by rewrite Hs, Ee.
    + apply Forall2_nil_inv_l in Hk as ->. apply yields_Ret. eapply emptied_none; [exact Hm|]. unfold oblocks. cbn [fst snd]. by rewrite Hs, Ee.
  - apply Forall2_nil_inv_l in Hk as ->. destruct Hr as [He Hs]. destruct (has_str (rtype r)).
    + destruct (str r) as [[sb t]|] eqn:Es.
      * eapply emptied_one; [exact Hm|]. unfold oblocks. cbn [fst snd]. by rewrite Es, He.
      * apply yields_Ret. eapply emptied_none; [exact Hm|]. unfold oblocks. cbn [fst snd]. by rewrite Es, He.
    + destruct Hs as [|Hs]; [done|]. apply yields_Ret. eapply emptied_none; [exact Hm|]. unfold oblocks. cbn [fst snd]. by rewrite Hs, He.
Qed.

Lemma mem_size bs os w : mem bs os w -> size w.2 = length os.
Proof.
  intros (H1 & -> & _). revert H1. induction os as [|[i x] l IH]; intros H; [done|]. cbn [fmap list_fmap fst] in H.
  apply NoDup_cons in H as [Hi H]. etransitivity; [apply (f_equal (size (C := store))), list_to_map_cons|].
  etransitivity; [apply map_size_insert_None; by apply not_elem_of_list_to_map_1|]. cbn [length]. f_equal. by apply IH.
Qed.

Lemma freeReplyObject_ok bs n p os os' w : freeable n p os -> mem bs (os ++ os') w -> yields (freeReplyObject (Some p) w) (mem bs os').
Proof.
  intros Hf%freeable_length Hm. unfold freeReplyObject. eapply free_reply_ok; [exact Hf| |exact Hm].
  rewrite (mem_size _ _ _ Hm), length_app. lia.
Qed.

(** *** What can be freed *)

Lemma freeable_bound (ps : list Z) oss : Forall2 (fun p os => exists n, freeable n p os) ps oss -> exists n, Forall2 (freeable n) ps oss.
Proof.
  induction 1 as [|p os ps oss [n Hn] _ [m Hm]]; [by exists 0%nat|]. exists (n + m)%nat. constructor; [eapply freeable_mono; [|exact Hn]; lia|].
  eapply Forall2_impl; [exact Hm|]. intros q o. apply freeable_mono. lia.
Qed.

Lemma omap_some (ps : list Z) : omap id (Some <$> ps) = ps.
Proof. induction ps as [|p ps IH]; [done|]. cbn. by f_equal. Qed.

Lemma omap_none k : omap id (replicate k (None : option Z)) = [].
Proof. by induction k. Qed.

Lemma trees_all (Q : resp -> Prop) (R : Z -> objs -> Prop) l : forall ps oss, (forall v p os, Q v -> tree v p os -> R p os) -> Forall Q l -> trees l ps oss ->
  Forall2 R ps oss.
Proof.
  induction l as [|v l IH]; intros [|p ps] [|os oss] H HQ Ht; cbn [trees] in Ht; try done.
  apply Forall_cons in HQ as [Hv HQ]. destruct Ht as [H1 H2]. constructor; [by eapply H|]. by eapply IH.
Qed.

(** An object without elements. *)
Lemma leaf_freeable p r : element r = None -> is_aggregate (rtype r) = false /\ has_str (rtype r) = true \/ str r = None -> freeable 1 p [(p, r)].
Proof.
  intros He Hs. exists r, []. split; [done|]. unfold reply_ok, kids. rewrite He.
  destruct (is_aggregate (rtype r)); (split; [|constructor]); (split; [|tauto]); destruct Hs as [[]|]; done.
Qed.

Lemma tree_freeable v : forall p os, tree v p os -> exists n, freeable n p os.
Proof.
  induction v as [t s|f s|z|d s| |b|t l IH] using resp_rect'; intros p os.
  - intros (sb & Ht & ->). exists 1%nat. destruct Ht as [->|[->| ->]]; apply leaf_freeable; auto.
  - intros (sb & ->). exists 1%nat. apply leaf_freeable; auto.
  - intros ->. exists 1%nat. apply leaf_freeable; auto.
  - intros (sb & ->). exists 1%nat. apply leaf_freeable; auto.
  - intros ->. exists 1%nat. apply leaf_freeable; auto.
  - intros ->. exists 1%nat. apply leaf_freeable; auto.
  - intros (Ht & e & ps & oss & -> & He & Hl)%reply_tree_array. pose proof (trees_length _ _ _ Hl) as Hlen.
    destruct (freeable_bound ps oss) as [n Hn].
    { eapply (trees_all (fun v => forall p os, tree v p os -> exists n, freeable n p os)); [intros v q o H1; apply H1|exact IH|exact Hl]. }
    exists (Datatypes.S n), (array_reply t (Z.of_nat (length l)) e), oss. split; [done|]. unfold reply_ok, kids.
    cbn [array_reply rtype with_elements zero_reply str element elements]. rewrite Ht. destruct l as [|v l].
    + subst e. destruct ps; [|done]. apply Forall2_nil_inv_l in Hn as ->. split; [done|constructor].
    + destruct He as (eb & ->). rewrite omap_some. split; [|done]. split; [done|]. by rewrite length_fmap, Hlen.
Qed.

(** The node of an open aggregate with a child that can be freed. *)
Lemma frame_freeable f p eb ps oss child n fc k :
  is_aggregate (ftype f) = true -> trees (fdone f) ps oss ->
  nread f + (match child with Some _ => 1 | None => 0 end) + Z.of_nat k = fcount f ->
  match child with Some c => freeable n c fc | None => fc = [] end ->
  exists m os, os ≡ₚ (p, array_reply (ftype f) (fcount f)
    (Some (eb, (Some <$> ps) ++ match child with Some c => [Some c] | None => [] end ++ replicate k None))) :: concat oss ++ fc /\ freeable m p os.
Proof.
  intros Ha Ht Hk Hc. set (r := array_reply _ _ _). destruct (freeable_bound ps oss) as [n1 Hn].
  { eapply (trees_all (fun _ => True)); [|by apply Forall_true|exact Ht]. intros v q os _. apply tree_freeable. }
  pose proof (trees_length _ _ _ Ht) as Hlen.
  assert (reply_ok r) as Hr.
  { unfold reply_ok. subst r. cbn [array_reply rtype with_elements zero_reply str element elements]. rewrite Ha. split; [done|].
    rewrite !length_app, length_fmap, length_replicate. unfold nread in Hk. rewrite <- Hk, Hlen. destruct child; cbn [length]; lia. }
  assert (kids r = ps ++ match child with Some c => [c] | None => [] end) as Hkids.
  { unfold kids. subst r. cbn [array_reply rtype with_elements zero_reply element]. rewrite Ha, !omap_app, omap_some, omap_none.
    destruct child; cbn; by rewrite ?app_nil_r. }
  exists (Datatypes.S (n1 + n)), ((p, r) :: concat (oss ++ match child with Some _ => [fc] | None => [] end)). split.
  - rewrite concat_app. apply Permutation_skip. destruct child; [cbn; by rewrite app_nil_r|]. by rewrite Hc.
  - exists r, (oss ++ match child with Some _ => [fc] | None => [] end). split; [done|]. split; [done|]. rewrite Hkids. apply Forall2_app.
    + eapply Forall2_impl; [exact Hn|]. intros q o. apply freeable_mono. lia.
    + destruct child; [|done]. constructor; [|done]. eapply freeable_mono; [|exact Hc]. lia.
Qed.

Lemma pstack_freeable fs : forall child os n fc f0, last fs = Some f0 -> pstack fs child os ->
  match child with Some c => freeable n c fc | None => fc = [] end ->
  exists m p os', fobj f0 = Block p /\ os' ≡ₚ os ++ fc /\ freeable m p os'.
Proof.
  induction fs as [|f fs IH]; intros child os n fc f0 Hl Hp Hc; [done|]. cbn [pstack] in Hp.
  destruct Hp as (p & eb & ps & oss & os' & k & Hf & Ha & Ht & Hk & Hp & ->).
  destruct (frame_freeable f p eb ps oss child n fc k Ha Ht Hk Hc) as (m & os1 & E1 & Hfr). destruct fs as [|g fs].
  - injection Hl as <-. cbn [pstack] in Hp. subst os'. exists m, p, os1. split; [done|]. split; [|done]. by rewrite app_nil_r, E1.
  - rewrite last_cons_cons in Hl. destruct (IH (Some p) os' m os1 f0 Hl Hp Hfr) as (m2 & q & os2 & Hq & E2 & Hfr2). exists m2, q, os2.
    split; [done|]. split; [|done]. rewrite E2, E1. cbn [app]. rewrite <- Permutation_middle. apply Permutation_skip.
    rewrite (app_assoc os'), (Permutation_app_comm os'). done.
Qed.

(** ** Building *)

Lemma insert_hole {X : Type} (l : list X) x y k : <[length l := y]> (l ++ replicate (Datatypes.S k) x) = l ++ [y] ++ replicate k x.
Proof. cbn [replicate app]. by rewrite insert_app_r_alt, Nat.sub_diag. Qed.

(** The new object becomes an element of the innermost aggregate. *)
Lemma set_element_ok push fs cur par b os1 os w bs : Forall frame_ok fs -> task_for fs cur par -> (push = true \/ tolerant fs) ->
  pstack fs None os -> mem bs (os1 ++ os) w ->
  yields (set_element push cur par b w) (fun w' => exists os', pstack fs (Some b) os' /\ mem bs (os1 ++ os') w').
Proof.
  intros Hok Htask Htol Hst Hm. unfold set_element. destruct fs as [|f fs]; cbn [task_for] in Htask.
  { subst par. apply yields_Ret. by exists os. }
  destruct Htask as (Hidx & q & -> & Hobj). destruct Hst as (p & eb & ps & oss & os' & k & Hf & Ha & Ht & Hk & Hst & ->).
  rewrite Hobj, Hf. cbn [deref cbind]. set (r := array_reply _ _ _) in Hm. rewrite (mem_lookup _ _ _ _ _ _ Hm). cbn [deref cbind].
  assert (assert (is_aggregate (rtype r) && (push || negb (rtype r =? REDIS_REPLY_PUSH))) = Ret tt) as ->.
  { unfold assert. subst r. cbn [array_reply rtype with_elements zero_reply]. rewrite Ha. destruct Htol as [->|[->|Htol]]; [by rewrite orb_true_r|done|].
    apply Forall_cons in Htol as [Htol _]. destruct (Z.eqb_spec (ftype f) REDIS_REPLY_PUSH); [done|]. by rewrite !orb_true_r. }
  cbn [cbind]. subst r. cbn [array_reply element with_elements elements deref cbind]. apply Forall_cons in Hok as [Hok _]. unfold frame_ok in Hok.
  pose proof (trees_length _ _ _ Ht) as Hlen. destruct k as [|k]; [lia|]. cbn [app] in *.
  rewrite Hidx. rewrite length_app, length_fmap, length_replicate. unfold nread in *.
  destruct (Z.leb_spec 0 (Z.of_nat (length (fdone f)))); [|lia].
  destruct (Z.ltb_spec (Z.of_nat (length (fdone f))) (Z.of_nat (length ps + Datatypes.S k))); [|lia]. cbn [andb]. apply yields_Ret.
  rewrite Nat2Z.id. assert (length (fdone f) = length (Some <$> ps)) as -> by (by rewrite length_fmap). rewrite insert_hole. cbn [app].
  eexists. split.
  - exists p, eb, ps, oss, os', k. split; [done|]. split; [done|]. split; [done|]. split; [unfold nread; lia|]. split; [done|]. reflexivity.
  - eapply (mem_put []); [exact Hm|]. done.
Qed.

(** The objects and other blocks behind [held]. *)
Definition objects_in (gs : list (object * resp)) (fs : list frame) (obs : list Z) (s : store) : Prop :=
  exists og os, given gs og /\ pstack fs None os /\ NoDup (og ++ os).*1 /\ s = list_to_map (og ++ os) /\ obs ≡ₚ flat_map oblocks (og ++ os).

Definition made_in (gs : list (object * resp)) (fs : list frame) (o : object) (v : resp) (obs : list Z) (s : store) : Prop :=
  exists c ov og os, o = Block c /\ tree v c ov /\ given gs og /\ pstack fs (Some c) os /\ NoDup (ov ++ og ++ os).*1 /\
    s = list_to_map (ov ++ og ++ os) /\ obs ≡ₚ flat_map oblocks (ov ++ og ++ os).

Lemma held_objects bs gs fs w : held h0 bs (objects_in gs fs) w <-> exists og os, given gs og /\ pstack fs None os /\ mem bs (og ++ os) w.
Proof.
  split.
  - intros (obs & (og & os & H1 & H2 & H3 & H4 & E) & H5). exists og, os. split; [done|]. split; [done|]. split; [done|]. split; [done|]. eapply acquires_perm; [|exact H5]. by rewrite E.
  - intros (og & os & H1 & H2 & H3 & H4 & H5). exists (flat_map oblocks (og ++ os)). split; [|done]. by exists og, os.
Qed.

Lemma held_made bs gs fs c v ov og os w : tree v c ov -> given gs og -> pstack fs (Some c) os -> mem bs (ov ++ og ++ os) w ->
  held h0 bs (made_in gs fs (Block c) v) w.
Proof.
  intros H1 H2 H3 (H4 & H5 & H6). exists (flat_map oblocks (ov ++ og ++ os)). split; [|done]. by exists c, ov, og, os.
Qed.

(** The end of the callbacks. *)
Lemma created_reply_ok push fs cur par b r0 r xs bs gs og os w v : Forall frame_ok fs -> task_for fs cur par -> (push = true \/ tolerant fs) ->
  given gs og -> pstack fs None os -> mem (xs ++ bs) ((b, r0) :: og ++ os) w -> oblocks (b, r) ≡ₚ xs ++ oblocks (b, r0) -> tree v b [(b, r)] ->
  yields (created_reply push cur par b r w) (built (objects_in gs fs) (fun o => made_in gs fs o v) h0 bs).
Proof.
  intros Hok Htask Htol Hg Hst Hm Hb Hv. unfold created_reply. apply (mem_put _ _ [] b r0 r) in Hm; [|done].
  eapply yields_bind; [apply (set_element_ok push fs cur par b ([(b, r)] ++ og) os); [done|done|done|done|by rewrite <- app_assoc]|].
  intros w' (os' & H1 & H2). apply yields_Ret. cbn [built]. rewrite <- app_assoc in H2. by eapply held_made.
Qed.

(** A callback that makes one object and, unless it is [None], a string. *)
Lemma one_object bs gs fs og os w r0 b : given gs og -> pstack fs None os -> mem bs ((b, r0) :: og ++ os) w ->
  element r0 = None -> str r0 = None ->
  yields (let! w := freeReplyObject (Some b) w in Ret (None, w)) (fun res : option object * world => res.1 = None /\ held h0 bs (objects_in gs fs) res.2).
Proof.
  intros Hg Hst Hm He Hs. eapply yields_bind; [eapply (freeReplyObject_ok bs 1 b [(b, r0)] (og ++ os)); [|exact Hm]|].
  - apply leaf_freeable; auto.
  - intros w' Hw. apply yields_Ret. split; [done|]. apply held_objects. by exists og, os.
Qed.

Lemma simple_ok push t r v gs fs w cur par bs : Forall frame_ok fs -> task_for fs cur par -> (push = true \/ tolerant fs) ->
  str r = None -> element r = None -> (forall b, tree v b [(b, r)]) -> held h0 bs (objects_in gs fs) w ->
  yields (match createReplyObject t w with
          | (None, w) => Ret (None, w)
          | (Some b, w) => created_reply push cur par b r w
          end) (built (objects_in gs fs) (fun o => made_in gs fs o v) h0 bs).
Proof.
  intros Hok Htask Htol Hs He Hv (og & os & Hg & Hst & Hm)%held_objects. apply (createReplyObject_ok _ _ t) in Hm.
  destruct (createReplyObject t w) as [[b|] w'].
  - apply (created_reply_ok push fs cur par b (zero_reply t) r [] bs gs og os); try done.
    unfold oblocks. cbn [fst snd]. by rewrite Hs, He.
  - destruct Hm as [Hm Hsv]. apply yields_Ret. split; [|done]. apply held_objects. by exists og, os.
Qed.

(** With a string, which is asked for after the object. *)
Lemma stringy_ok push t (r : Z -> redisReply) r0 v gs fs w cur par bs (k : Z -> world -> world) : Forall frame_ok fs -> task_for fs cur par ->
  (push = true \/ tolerant fs) -> (forall b sb, oblocks (b, r sb) = [b; sb]) -> (forall b sb, tree v b [(b, r sb)]) ->
  str r0 = None -> element r0 = None ->
  (forall b os w, mem bs ((b, zero_reply t) :: os) w -> mem bs ((b, r0) :: os) (k b w)) -> held h0 bs (objects_in gs fs) w ->
  yields (match createReplyObject t w with
          | (None, w) => Ret (None, w)
          | (Some b, w) =>
              match hi_malloc w with
              | (None, w) => let! w := freeReplyObject (Some b) (k b w) in Ret (None, w)
              | (Some sb, w) => created_reply push cur par b (r sb) w
              end
          end) (built (objects_in gs fs) (fun o => made_in gs fs o v) h0 bs).
Proof.
  intros Hok Htask Htol Hb Hv Hs He Hk (og & os & Hg & Hst & Hm)%held_objects. apply (createReplyObject_ok _ _ t) in Hm.
  destruct (createReplyObject t w) as [[b|] w1].
  - apply malloc_block_ok in Hm. destruct (hi_malloc w1) as [[sb|] w2].
    + apply (created_reply_ok push fs cur par b (zero_reply t) (r sb) [sb] bs gs og os); try done. rewrite Hb. apply perm_swap.
    + destruct Hm as [Hm Hsv]. apply Hk in Hm.
      eapply yields_mono; [by eapply (one_object bs gs fs og os)|]. intros [o w3] [E H3]. cbn in E. by subst o.
  - destruct Hm as [Hm Hsv]. apply yields_Ret. split; [|done]. apply held_objects. by exists og, os.
Qed.

Lemma put_double bs b d os w : mem bs ((b, zero_reply REDIS_REPLY_DOUBLE) :: os) w ->
  mem bs ((b, with_dval (zero_reply REDIS_REPLY_DOUBLE) d) :: os) (put_reply b (with_dval (zero_reply REDIS_REPLY_DOUBLE) d) w).
Proof. intros Hm. by apply (mem_put [] bs [] b (zero_reply REDIS_REPLY_DOUBLE)). Qed.

End mem.

(** ** The contract *)

Section laws.
Context {A : Allocator} {G : Garbage} {N : Ndebug}.

(** What a callback makes is the value, for any open aggregates. *)
Definition makes_in (P : redisReadTask -> Prop) (v : resp) (f : create) : Prop :=
  forall h0 bs gs fs w cur par, Forall frame_ok fs -> tolerant fs -> task_for fs cur par -> P cur -> held h0 bs (objects_in gs fs) w ->
    yields (f cur par w) (built (objects_in gs fs) (fun o => made_in gs fs o v) h0 bs).

Lemma rd_prefix s x : rd_block (s ++ x) 0 (blen s) = Ret s.
Proof. rewrite rd_block_0_app by (pose proof (blen_nonneg s); lia). apply rd_block_0_all. Qed.

Lemma string_made t s x : t = REDIS_REPLY_STRING \/ t = REDIS_REPLY_STATUS \/ t = REDIS_REPLY_ERROR ->
  makes_in (fun cur => ttype cur = t) (RText t s) (createStringObject (s ++ x) (blen s)).
Proof.
  intros Ht h0 bs gs fs w cur par Hok Htol Htask Hcur Hh. unfold createStringObject. rewrite Hcur.
  assert (assert ((t =? REDIS_REPLY_ERROR) || (t =? REDIS_REPLY_STATUS) || (t =? REDIS_REPLY_STRING) || (t =? REDIS_REPLY_VERB)) = Ret tt) as ->.
  { unfold assert. by destruct Ht as [->|[->| ->]]; rewrite orb_true_r. }
  assert ((t =? REDIS_REPLY_VERB) = false) as -> by (by destruct Ht as [->|[->| ->]]). rewrite rd_prefix. cbn [cbind].
  apply (stringy_ok h0 true t (fun sb => text_reply t sb s) (zero_reply t) (RText t s) gs fs w cur par bs (fun _ w => w)); try done.
  - by left.
  - intros b sb. by exists sb.
Qed.

Lemma verb_made s x : 4 <= blen s < 2 ^ 63 ->
  makes_in (fun cur => ttype cur = REDIS_REPLY_VERB) (RVerb (take 3 s) (drop 4 s)) (createStringObject (s ++ x) (blen s)).
Proof.
  intros Hs h0 bs gs fs w cur par Hok Htol Htask Hcur Hh. unfold createStringObject. rewrite Hcur.
  assert (assert ((REDIS_REPLY_VERB =? REDIS_REPLY_ERROR) || (REDIS_REPLY_VERB =? REDIS_REPLY_STATUS) || (REDIS_REPLY_VERB =? REDIS_REPLY_STRING) ||
    (REDIS_REPLY_VERB =? REDIS_REPLY_VERB)) = Ret tt) as -> by (unfold assert; by rewrite orb_true_r).
  change (REDIS_REPLY_VERB =? REDIS_REPLY_VERB) with true. cbv iota. assert (u64 (blen s - 4) = blen s - 4) as -> by (unfold u64; apply Z.mod_small; lia).
  assert (blen (drop 4 s) = blen s - 4) as Hd by (rewrite blen_drop; lia).
  assert (s = take 3 s ++ drop 3 s) as E3 by (symmetry; apply take_drop). assert (s = take 4 s ++ drop 4 s) as E4 by (symmetry; apply take_drop).
  assert (rd_block (s ++ x) 0 3 = Ret (take 3 s)) as ->.
  { rewrite E3 at 1. rewrite <- app_assoc. replace 3 with (blen (take 3 s)) by (rewrite blen_take; lia). apply rd_prefix. }
  assert (rd_block (s ++ x) 4 (blen s - 4) = Ret (drop 4 s)) as ->.
  { rewrite E4 at 1. rewrite <- app_assoc, <- Hd. replace 4 with (blen (take 4 s)) by (rewrite blen_take; lia). apply rd_block_app_mid. }
  cbn [cbind]. rewrite <- Hd.
  apply (stringy_ok h0 true REDIS_REPLY_VERB (fun sb => verb_reply sb (take 3 s) (drop 4 s)) (zero_reply REDIS_REPLY_VERB) _ gs fs w cur par bs (fun _ w => w));
    try done; [by left|]. intros b sb. by exists sb.
Qed.

Lemma double_made d s : makes_in (fun _ => True) (RDouble d s) (createDoubleObject d (s ++ [0]) (blen s)).
Proof.
  intros h0 bs gs fs w cur par Hok Htol Htask _ Hh. unfold createDoubleObject. rewrite rd_prefix. cbn [cbind].
  apply (stringy_ok h0 false REDIS_REPLY_DOUBLE (fun sb => double_reply sb d s) (with_dval (zero_reply REDIS_REPLY_DOUBLE) d) _ gs fs w cur par bs
    (fun b => put_reply b (with_dval (zero_reply REDIS_REPLY_DOUBLE) d))); try done.
  - by right.
  - intros b sb. by exists sb.
  - intros b os w'. apply put_double.
Qed.

Lemma integer_made z : makes_in (fun _ => True) (RInteger z) (createIntegerObject z).
Proof.
  intros h0 bs gs fs w cur par Hok Htol Htask _ Hh. unfold createIntegerObject.
  apply (simple_ok h0 true REDIS_REPLY_INTEGER); try done. by left.
Qed.

Lemma nil_made : makes_in (fun _ => True) RNil createNilObject.
Proof.
  intros h0 bs gs fs w cur par Hok Htol Htask _ Hh. unfold createNilObject. apply (simple_ok h0 false REDIS_REPLY_NIL); try done. by right.
Qed.

Lemma bool_made (b : bool) : makes_in (fun _ => True) (RBool b) (createBoolObject (if b then 1 else 0)).
Proof.
  intros h0 bs gs fs w cur par Hok Htol Htask _ Hh. unfold createBoolObject. apply (simple_ok h0 false REDIS_REPLY_BOOL); try done; [by right|].
  by destruct b.
Qed.

Lemma array_made h0 bs gs fs w cur par n : 0 <= n < 2 ^ 60 -> is_aggregate (ttype cur) = true -> Forall frame_ok fs -> tolerant fs ->
  task_for fs cur par -> held h0 bs (objects_in gs fs) w ->
  yields (createArrayObject n cur par w)
    (built (objects_in gs fs)
       (fun o => if n =? 0 then made_in gs fs o (RArray (ttype cur) []) else objects_in gs (mkFrame o (ttype cur) n [] :: fs)) h0 bs).
Proof.
  intros Hn Ha Hok Htol Htask Hh. unfold createArrayObject. destruct (Z.ltb_spec 0 n) as [Hp|Hp].
  - destruct (Z.eqb_spec n 0); [lia|]. apply held_objects in Hh as (og & os & Hg & Hst & Hm). apply (createReplyObject_ok h0 _ _ (ttype cur)) in Hm.
    destruct (createReplyObject (ttype cur) w) as [[b|] w1].
    2: { destruct Hm as [Hm Hsv]. apply yields_Ret. split; [|done]. apply held_objects. by exists og, os. }
    unfold hi_calloc, SIZE_MAX. destruct (Z.ltb_spec (2 ^ 64 - 1) (n * 8)); [lia|]. destruct w1 as [h1 s1]. cbn [fst snd].
    apply mem_fresh in Hm. destruct (malloc h1) as [[eb|] h2].
    + destruct Hm as [_ Hm]. unfold created_reply. set (r := array_reply (ttype cur) n (Some (eb, replicate (Z.to_nat n) None))).
      apply (mem_put h0 [eb] bs [] b _ r) in Hm; [|apply perm_swap]. eapply yields_bind; [apply (set_element_ok h0 true fs cur par b ((b, r) :: og) os);
        [done|done|by left|done|exact Hm]|].
      intros w' (os' & H1 & H2). apply yields_Ret. cbn [built]. apply held_objects. exists og, ((b, r) :: os'). split; [done|]. split.
      * exists b, eb, [], [], os', (Z.to_nat n). cbn [fobj ftype fcount fdone]. split_and!; try done. unfold nread. cbn. lia.
      * eapply mem_perm; [done| |exact H2]. apply Permutation_middle.
    + destruct Hm as [Hm Hsv]. eapply yields_mono; [by eapply (one_object h0 bs gs fs og os (h2, s1) (zero_reply (ttype cur)) b)|].
      intros [o w3] [E H3]. cbn in E. by subst o.
  - assert (n = 0) as -> by lia. change (0 =? 0) with true. cbv iota.
    apply (simple_ok h0 true (ttype cur) (array_reply (ttype cur) 0 None)); try done; [by left|].
    intros b. apply reply_tree_array. split; [done|]. by exists None, [], [].
Qed.

(** [list_to_map] and the blocks do not depend on the order. *)
Lemma objs_perm (os os' : objs) (s : store) obs : os ≡ₚ os' -> NoDup os.*1 /\ s = list_to_map os /\ obs ≡ₚ flat_map oblocks os ->
  NoDup os'.*1 /\ s = list_to_map os' /\ obs ≡ₚ flat_map oblocks os'.
Proof.
  intros E (H1 & H2 & H3). split; [by rewrite <- E|]. split; [rewrite H2; by apply list_to_map_proper|]. by rewrite H3, (flat_map_perm _ _ _ E).
Qed.

Lemma plug_made gs f fs o v obs s : made_in gs (f :: fs) o v obs s -> frame_ok f ->
  if nread f =? fcount f - 1 then made_in gs fs (fobj f) (RArray (ftype f) (fdone f ++ [v])) obs s
  else objects_in gs (add_done f v :: fs) obs s.
Proof.
  intros (c & ov & og & os & -> & Hv & Hg & (p & eb & ps & oss & os' & k & Hf & Ha & Ht & Hk & Hst & ->) & Hm) Hok.
  assert (trees (fdone f ++ [v]) (ps ++ [c]) (oss ++ [ov])) as Ht' by (by apply trees_app; [|split]).
  set (r := array_reply _ _ _) in Hm.
  destruct (Z.eqb_spec (nread f) (fcount f - 1)) as [E|E].
  - assert (k = 0%nat) as -> by lia. rewrite Hf. exists p, ((p, r) :: concat (oss ++ [ov])), og, os'. split; [done|]. split.
    + apply reply_tree_array. split; [done|]. exists (Some (eb, Some <$> (ps ++ [c]))), (ps ++ [c]), (oss ++ [ov]). split.
      * subst r. cbn [replicate]. rewrite app_nil_r, fmap_app. do 3 f_equal. rewrite length_app. unfold nread in *. cbn [length]. lia.
      * split; [|done]. destruct (fdone f ++ [v]) eqn:Ed; [by destruct (fdone f)|]. by exists eb.
    + split; [done|]. split; [done|]. revert Hm. apply objs_perm. rewrite concat_app. cbn [concat]. rewrite app_nil_r. cbn [app].
      rewrite (app_assoc ov og), <- (Permutation_middle (ov ++ og)). apply Permutation_skip.
      rewrite (app_assoc (ov ++ og)), (Permutation_app_comm (ov ++ og)), <- !app_assoc. done.
  - destruct k as [|k]; [unfold frame_ok in Hok; lia|].
    exists og, ((p, r) :: concat (oss ++ [ov]) ++ os'). split; [done|]. split.
    + exists p, eb, (ps ++ [c]), (oss ++ [ov]), os', (Datatypes.S k). cbn [fobj ftype fcount fdone add_done]. split_and!; try done.
      * unfold nread in *. cbn [fdone add_done]. rewrite length_app. cbn [length]. lia.
      * subst r. rewrite fmap_app, <- app_assoc. done.
    + revert Hm. apply objs_perm. rewrite concat_app. cbn [concat]. rewrite app_nil_r.
      rewrite (app_assoc ov og), <- (Permutation_middle (ov ++ og)), <- (Permutation_middle og). apply Permutation_skip.
      rewrite (Permutation_app_comm ov og), <- !app_assoc. apply Permutation_app_head. rewrite !app_assoc. by rewrite (Permutation_app_comm ov).
Qed.

Lemma emit_made gs o v obs s : made_in gs [] o v obs s -> objects_in (gs ++ [(o, v)]) [] obs s.
Proof.
  intros (c & ov & og & os & -> & Hv & Hg & -> & Hm). exists (og ++ ov), []. split.
  - apply given_app; [done|]. exists c, ov, []. by rewrite app_nil_r.
  - split; [done|]. revert Hm. apply objs_perm. rewrite !app_nil_r. apply Permutation_app_comm.
Qed.

Lemma free_open h0 bs gs fs f0 w : last fs = Some f0 -> held h0 bs (objects_in gs fs) w ->
  yields (free_object_block (Some (fobj f0)) w) (held h0 bs (objects_in gs [])).
Proof.
  intros Hl (og & os & Hg & Hst & Hm)%held_objects. destruct (pstack_freeable fs None os 0 [] f0 Hl Hst eq_refl) as (m & p & os' & Ef & E & Hfr).
  unfold free_object_block. rewrite Ef. eapply yields_mono; [eapply (freeReplyObject_ok h0 bs m p os' og); [done|]|].
  - eapply mem_perm; [done| |exact Hm]. rewrite E, app_nil_r. apply Permutation_app_comm.
  - intros w' H'. apply held_objects. exists og, []. rewrite app_nil_r. done.
Qed.

Lemma free_given h0 bs gs1 o v gs2 fs w : held h0 bs (objects_in (gs1 ++ (o, v) :: gs2) fs) w ->
  yields (free_object_block (Some o) w) (held h0 bs (objects_in (gs1 ++ gs2) fs)).
Proof.
  intros (og & os & Hg & Hst & Hm)%held_objects. apply given_app_inv in Hg as (o1 & o2 & G1 & (p & a & b & -> & Hv & G2 & ->) & ->).
  destruct (tree_freeable v p a Hv) as [n Hn]. unfold free_object_block.
  eapply yields_mono; [eapply (freeReplyObject_ok h0 bs n p a ((o1 ++ b) ++ os)); [done|]|].
  - eapply mem_perm; [done| |exact Hm]. rewrite <- !app_assoc. rewrite (app_assoc o1), (Permutation_app_comm o1), <- app_assoc. done.
  - intros w' H'. apply held_objects. exists (o1 ++ b), os. split; [by apply given_app|done].
Qed.

#[global] Instance default_laws : ReplyLaws defaultFunctions.
Proof.
  refine {| objects := objects_in; made := made_in |}.
  - exists createStringObject. split; [done|]. split; [apply string_made|apply verb_made].
  - exists createIntegerObject. split; [done|]. apply integer_made.
  - exists createDoubleObject. split; [done|]. apply double_made.
  - exists createNilObject. split; [done|]. apply nil_made.
  - exists createBoolObject. split; [done|]. apply bool_made.
  - exists createArrayObject. split; [done|]. apply array_made.
  - apply plug_made.
  - apply emit_made.
  - exists free_object_block. split; [done|]. split; [apply free_open|apply free_given].
Defined.

End laws.
