(* ===== verification/ReaderSession.v ===== *)
(** * Sessions with a reader

    A client of hiredis: it feeds bytes, takes replies, looks at them, frees
    them, in any order, and gives everything back in the end.  What it sees is
    what [parse_resp] says of the bytes that were fed, in whatever pieces. *)

From stdpp Require Import gmap.
From Stdlib Require Import SpecFloat String.
From S2P Require Import Prelude Cstdlib Heap Sds Reader Reply Resp ReaderScan ReaderProof ReaderApi ReplyProof.

#[local] Open Scope Z_scope.
#[local] Set Warnings "-clear-no-such-hyp".
#[local] Arguments cbind {A B} !m k /.

#[local] Abbreviation world := (@world store).
#[local] Abbreviation redisReader := (@redisReader store).
#[local] Abbreviation maxe := REDIS_READER_MAX_ARRAY_ELEMENTS.

(** ** What a client sees of a reply *)

Fixpoint view (fuel : nat) (s : store) (p : Z) : option resp :=
  match fuel with
  | O => None
  | Datatypes.S f =>
      r ← s !! p;
      let t := rtype r in
      if is_aggregate t then
        ps ← match element r with
             | Some (_, ps) => Some (take (Z.to_nat (elements r)) ps)
             | None => if elements r =? 0 then Some [] else None
             end;
        vs ← mapM (fun q => q ← q; view f s q) ps;
        Some (RArray t vs)
      else if t =? REDIS_REPLY_INTEGER then Some (RInteger (Reply.integer r))
      else if t =? REDIS_REPLY_BOOL then Some (RBool (negb (Reply.integer r =? 0)))
      else if t =? REDIS_REPLY_NIL then Some RNil
      else if t =? REDIS_REPLY_DOUBLE then
        '(_, b) ← str r; Some (RDouble (dval r) (removelast b))
      else
        '(_, b) ← str r;
        let s := sub b 0 (rlen r) in
        Some (if t =? REDIS_REPLY_VERB then RVerb (removelast (vtype r)) s else RText t s)
  end.

Definition view_reply (s : store) (o : object) : option resp :=
  match o with
  | Block p => view (size s) s p
  | Tag _ => None
  end.

(** The objects of a list are in the store. *)
Definition stored (s : store) (os : objs) : Prop := forall b r, (b, r) ∈ os -> s !! b = Some r.

Lemma view_trees fuel s l : forall ps oss,
  Forall (fun v => forall p os, tree v p os -> stored s os -> (length os <= fuel)%nat -> view fuel s p = Some v) l ->
  trees l ps oss -> stored s (concat oss) -> (length (concat oss) <= fuel)%nat ->
  mapM (fun q => q ← q; view fuel s q) (Some <$> ps) = Some l.
Proof.
  induction l as [|v l IH]; intros [|p ps] [|os oss] HF Ht Hs Hl; cbn [trees concat] in *; try done.
  apply Forall_cons in HF as [Hv HF]. destruct Ht as [Ht1 Ht2]. rewrite length_app in Hl. cbn [fmap list_fmap mapM].
  assert (stored s os /\ stored s (concat oss)) as [Hs1 Hs2] by (split; intros b r H; apply Hs, elem_of_app; auto).
  cbn [mbind option_bind]. rewrite (Hv p os Ht1 Hs1) by lia. cbn [mbind option_bind]. rewrite (IH ps oss HF Ht2 Hs2) by lia. done.
Qed.

Lemma sub_text s : sub (s ++ [0]) 0 (blen s) = s.
Proof. unfold sub. cbn [Z.to_nat]. rewrite drop_0, blen_to_nat. apply take_app_length. Qed.

(** Looking at an object without elements. *)
Ltac view_leaf Hs Hl :=
  match type of Hl with
  | (_ <= ?fuel)%nat => destruct fuel; cbn [length] in Hl; [lia|]; cbn [view]; rewrite (Hs _ _ (list_elem_of_here _ _)); cbn
  end.

Lemma view_tree s v : forall fuel p os, tree v p os -> stored s os -> (length os <= fuel)%nat -> view fuel s p = Some v.
Proof.
  induction v as [t x|f x|z|d x| |b|t l IH] using resp_rect'; intros fuel p os Ht Hs Hl.
  - destruct Ht as (sb & Ht & ->). view_leaf Hs Hl. by destruct Ht as [->|[->| ->]]; cbn; rewrite sub_text.
  - destruct Ht as (sb & ->). view_leaf Hs Hl. by rewrite sub_text, removelast_last.
  - cbn [tree] in Ht. subst os. by view_leaf Hs Hl.
  - destruct Ht as (sb & ->). view_leaf Hs Hl. by rewrite removelast_last.
  - cbn [tree] in Ht. subst os. by view_leaf Hs Hl.
  - cbn [tree] in Ht. subst os. view_leaf Hs Hl. by destruct b.
  - apply reply_tree_array in Ht as (Ha & e & ps & oss & -> & He & Ht). cbn [length] in Hl. destruct fuel as [|fuel]; [lia|]. cbn [view].
    rewrite (Hs p _ (list_elem_of_here _ _)). cbn [mbind option_bind array_reply rtype with_elements zero_reply element elements]. rewrite Ha.
    pose proof (trees_length _ _ _ Ht) as Hps.
    assert (mapM (fun q => q ← q; view fuel s q) (Some <$> ps) = Some l) as Hm.
    { eapply view_trees; [|exact Ht| |lia].
      - eapply Forall_impl; [exact IH|]. intros v Hv q os. apply Hv.
      - intros b r H. apply Hs. by right. }
    destruct l as [|v l].
    + subst e. cbn [length]. change (Z.of_nat 0 =? 0) with true. cbv iota. done.
    + destruct He as [eb ->]. rewrite Nat2Z.id, take_ge by (rewrite length_fmap, Hps; done). cbn [mbind option_bind]. by rewrite Hm.
Qed.

(** ** A session *)

Section session.
Context {A : Allocator} {G : Garbage} {N : Ndebug}.

(** [FreeReply i] frees the [i]-th of the replies that the client has. *)
Inductive call : Type :=
| Feed (d : list Z)
| GetReply (want : bool)
| FreeReply (i : nat).

(** What the client learns from a call: the status, the reply (of
    [FreeReply], how it looks before it is freed), and [err] with [errstr]. *)
Definition observed : Type := Z * option resp * option (Z * list Z).

Definition reason (r : redisReader) : option (Z * list Z) := if err r =? 0 then None else Some (err r, errstr r).

Definition client : Type := redisReader * list object * world.

Definition perform (c : call) (st : client) : comp (observed * client) :=
  let '(r, os, w) := st in
  match c with
  | Feed d =>
      let! '(ok, r, w) := redisReaderFeed r (Some d) (blen d) w in
      Ret ((ok, None, reason r), (r, os, w))
  | GetReply want =>
      let! '(ok, o, r, w) := redisReaderGetReply want r w in
      Ret ((ok, o ← o; view_reply w.2 o, reason r), (r, os ++ option_list o, w))
  | FreeReply i =>
      match os !! i with
      | None => Ret ((REDIS_OK, None, reason r), (r, os, w))
      | Some o =>
          let v := view_reply w.2 o in
          let! w := free_object_block (Some o) w in
          Ret ((REDIS_OK, v, reason r), (r, delete i os, w))
      end
  end.

Fixpoint run (cs : list call) (st : client) : comp (list observed * client) :=
  match cs with
  | [] => Ret ([], st)
  | c :: cs =>
      let! '(a, st) := perform c st in
      let! '(l, st) := run cs st in
      Ret (a :: l, st)
  end.

Fixpoint free_replies (os : list object) (w : world) : comp world :=
  match os with
  | [] => Ret w
  | o :: os => let! w := free_object_block (Some o) w in free_replies os w
  end.

(** The answers, and the memory when everything has been given back; no
    answers when the reader could not be made. *)
Definition session (cs : list call) (h : heap) : comp (option (list observed) * world) :=
  let! '(r, w) := redisReaderCreate (h, ∅) in
  match r with
  | None => Ret (None, w)
  | Some r =>
      let! '(l, (r, os, w)) := run cs (r, [], w) in
      let! w := redisReaderFree (Some r) w in
      let! w := free_replies os w in
      Ret (Some l, w)
  end.

(** *** What it is to do

    The bytes that were fed and are not part of a reply yet, or the error
    that the reader has stopped with, and the replies that the client has. *)
Record spec := mkSpec {
  waiting : list Z + Z * list Z;
  replies : list resp
}.

Definition failed (e : Z * list Z) : observed := (REDIS_ERR, None, Some e).

Inductive spec_step : call -> spec -> observed -> spec -> Prop :=
| spec_feed d l vs : spec_step (Feed d) (mkSpec (inl l) vs) (REDIS_OK, None, None) (mkSpec (inl (l ++ d)) vs)
| spec_reply want l v l' vs : parse_resp maxe l = Done v l' ->
    spec_step (GetReply want) (mkSpec (inl l) vs) (REDIS_OK, if want then Some v else None, None)
      (mkSpec (inl l') (vs ++ if want then [v] else []))
| spec_more want l vs : parse_resp maxe l = More ->
    spec_step (GetReply want) (mkSpec (inl l) vs) (REDIS_OK, None, None) (mkSpec (inl l) vs)
| spec_refused want l msg vs : parse_resp maxe l = Bad msg ->
    spec_step (GetReply want) (mkSpec (inl l) vs) (failed (REDIS_ERR_PROTOCOL, msg)) (mkSpec (inr (REDIS_ERR_PROTOCOL, msg)) vs)
| spec_free i s vs :
    spec_step (FreeReply i) (mkSpec s vs) (REDIS_OK, vs !! i, match s with inl _ => None | inr e => Some e end) (mkSpec s (delete i vs))
| spec_fed_failed d e vs : spec_step (Feed d) (mkSpec (inr e) vs) (failed e) (mkSpec (inr e) vs)
| spec_get_failed want e vs : spec_step (GetReply want) (mkSpec (inr e) vs) (failed e) (mkSpec (inr e) vs)
| spec_fed_starved d l m vs : starved ->
    spec_step (Feed d) (mkSpec (inl l) vs) (failed (REDIS_ERR_OOM, m)) (mkSpec (inr (REDIS_ERR_OOM, m)) vs)
| spec_get_starved want l m vs : starved ->
    spec_step (GetReply want) (mkSpec (inl l) vs) (failed (REDIS_ERR_OOM, m)) (mkSpec (inr (REDIS_ERR_OOM, m)) vs).

Fixpoint spec_run (cs : list call) (s : spec) (l : list observed) (s' : spec) : Prop :=
  match cs, l with
  | [], [] => s' = s
  | c :: cs, a :: l => exists s1, spec_step c s a s1 /\ spec_run cs s1 l s'
  | _, _ => False
  end.

Definition spec_start : spec := mkSpec (inl []) [].

(** All the bytes that the calls feed. *)
Fixpoint fed_bytes (cs : list call) : list Z :=
  match cs with
  | [] => []
  | Feed d :: cs => d ++ fed_bytes cs
  | _ :: cs => fed_bytes cs
  end.

(** ** The session does it *)

Context (h0 : heap).
#[local] Abbreviation ready := (ready defaultFunctions h0 maxe).
#[local] Abbreviation broken := (broken defaultFunctions h0).

Lemma given_view bs gs1 o v gs2 fs w : held h0 bs (objects (gs1 ++ (o, v) :: gs2) fs) w -> view_reply w.2 o = Some v.
Proof.
  intros (og & os & Hg & _ & Hm)%held_objects. apply given_app_inv in Hg as (o1 & o2 & _ & (p & a & b & -> & Hv & _ & ->) & ->).
  cbn [view_reply]. rewrite (mem_size _ _ _ _ Hm). eapply view_tree; [exact Hv| |].
  - intros i r Hi. destruct Hm as (H1 & -> & _). apply elem_of_list_to_map; [done|]. rewrite !elem_of_app. tauto.
  - rewrite !length_app. lia.
Qed.

(** The store may change as long as it holds the objects. *)
Lemma ready_objects (r : redisReader) w w' gs gs' fs pt l used : ready r w gs fs pt l used -> held h0 (own r) (objects gs' fs) w' ->
  ready r w' gs' fs pt l used.
Proof.
  intros [l' used' [R1 R2 R3 R4 R5 R6 R7] Hr|fs' pt' l' used' [R1 R2 R3 R4 R5 R6 R7 R8 R9 R10]] Hm.
  - apply ready_rest; [by split|done].
  - apply ready_read. by split.
Qed.

(** The client and the reader after [n] bytes. *)
Definition state_ok (n : Z) (st : client) (s : spec) : Prop :=
  let '(r, os, w) := st in
  exists gs, os = gs.*1 /\ replies s = gs.*2 /\
    match waiting s with
    | inl L => exists fs pt l used, ready r w gs fs pt l used /\ used + blen l = n /\
        forall x, parse_resp maxe (L ++ x) = answer maxe fs pt (l ++ x)
    | inr e => broken r w gs /\ err r <> 0 /\ reason r = Some e
    end.

Lemma ready_reason (r : redisReader) w gs fs pt l used : ready r w gs fs pt l used -> reason r = None.
Proof. intros H. destruct (ready_open _ _ _ _ _ _ _ _ _ _ H) as [(O1 & _) _ _ _ _ _]. unfold reason. by rewrite O1. Qed.

Lemma broken_reason (r : redisReader) e : err r = e -> e <> 0 -> err r <> 0 /\ reason r = Some (e, errstr r).
Proof. intros <- He. split; [done|]. unfold reason. by destruct (Z.eqb_spec (err r) 0). Qed.

(** What a call may add to the bytes. *)
Definition call_ok (n : Z) (c : call) : Prop :=
  Forall is_byte (fed_bytes [c]) /\ n + blen (fed_bytes [c]) < 2 ^ 31 - 2 ^ 10 /\ (ndebug = true \/ 62 ∉ fed_bytes [c]).

Definition performed (n : Z) (c : call) (s : spec) (res : observed * client) : Prop :=
  exists s', spec_step c s res.1 s' /\ state_ok (n + blen (fed_bytes [c])) res.2 s'.

Lemma state_failed n (r : redisReader) w gs e : broken r w gs -> err r = e -> e <> 0 -> state_ok n (r, gs.*1, w) (mkSpec (inr (e, errstr r)) gs.*2).
Proof. intros Hb He Hne. exists gs. cbn. pose proof (broken_reason r e He Hne). tauto. Qed.

Lemma perform_feed n d st s : state_ok n st s -> call_ok n (Feed d) -> yields (perform (Feed d) st) (performed n (Feed d) s).
Proof.
  destruct st as [[r os] w], s as [[L|e] vs]. all: intros (gs & -> & Hvs & Hst) (Hd & Hb & Hc); cbn in Hvs, Hst; subst vs; cbn [fed_bytes] in *;
    rewrite app_nil_r in *; cbn [perform].
  - destruct Hst as (fs & pt & l & used & Hr & Hn & Hx).
    eapply yields_bind; [eapply (feed_ok defaultFunctions h0 maxe); [exact Hr|exact Hd|rewrite blen_app; lia|exact Hc]|].
    intros [[ok r1] w1] [(-> & Hr1)|(-> & Hb1 & He & Hs)]; apply yields_Ret; unfold performed; cbn [fst snd fed_bytes]; rewrite app_nil_r.
    + rewrite (ready_reason _ _ _ _ _ _ _ Hr1). exists (mkSpec (inl (L ++ d)) gs.*2). split; [constructor|]. exists gs. split; [done|]. split; [done|]. cbn.
      exists fs, pt, (l ++ d), used. split; [done|]. split; [rewrite blen_app; lia|]. intros x. by rewrite <- !app_assoc.
    + destruct (broken_reason r1 _ He ltac:(done)) as [_ ->]. eexists. split; [by apply spec_fed_starved|]. by apply state_failed.
  - destruct Hst as (Hbr & Hne & He). unfold redisReaderFeed. destruct (Z.eqb_spec (err r) 0) as [E|_]; [done|].
    apply yields_Ret. eexists. cbn [fst snd]. rewrite He. split; [constructor|]. exists gs. split; [done|]. split; [done|]. done.
Qed.

Lemma perform_get n want st s : state_ok n st s -> yields (perform (GetReply want) st) (performed n (GetReply want) s).
Proof.
  destruct st as [[r os] w], s as [[L|e] vs]. all: intros (gs & -> & Hvs & Hst); cbn in Hvs, Hst; subst vs; cbn [perform].
  - destruct Hst as (fs & pt & l & used & Hr & Hn & Hx).
    assert (forall x, parse_resp maxe (L ++ x) = answer maxe fs pt (l ++ x)) as Hx0 by exact Hx. specialize (Hx0 []). rewrite !app_nil_r in Hx0.
    eapply yields_bind; [by eapply (getreply_ok defaultFunctions h0 maxe)|].
    intros [[[ok o] r1] w1] [(-> & -> & Hb)|(-> & l2 & Hl & [(o' & v & -> & Hr2 & Hl2 & Hx2)|(fs' & pt' & -> & Hr2 & Hm & Hx2)])];
      apply yields_Ret; unfold performed; cbn [fst snd fed_bytes mbind option_bind option_list]; rewrite Z.add_0_r.
    + rewrite app_nil_r. destruct Hb as [(Hb & He & Hs)|(Hb & He & Hm)]; destruct (broken_reason r1 _ He ltac:(done)) as [_ ->]; eexists.
      * split; [by apply spec_get_starved|]. by apply state_failed.
      * split; [apply spec_refused|by apply state_failed]. specialize (Hm []). rewrite app_nil_r in Hm. by rewrite Hx0.
    + rewrite (ready_reason _ _ _ _ _ _ _ Hr2). exists (mkSpec (inl l2) (gs.*2 ++ if want then [v] else [])). split.
      * assert ((o ← if want then Some o' else None; view_reply w1.2 o) = (if want then Some v else None)) as Ev.
        { destruct want; [|done]. destruct (ready_open _ _ _ _ _ _ _ _ _ _ Hr2) as [_ _ _ _ _ Hm]. by apply given_view in Hm. }
        cbn [mbind option_bind] in Ev. rewrite Ev. constructor. specialize (Hx2 []). rewrite !app_nil_r in Hx2. by rewrite Hx0.
      * exists (gs ++ if want then [(o', v)] else []). rewrite !fmap_app. split; [by destruct want|]. split; [by destruct want|]. cbn.
        exists [], None, l2, (used + (blen l - blen l2)). split; [done|]. split; [lia|done].
    + rewrite app_nil_r, (ready_reason _ _ _ _ _ _ _ Hr2). exists (mkSpec (inl L) gs.*2). split.
      * constructor. specialize (Hx2 []). rewrite !app_nil_r in Hx2. by rewrite Hx0, Hx2.
      * exists gs. split; [done|]. split; [done|]. cbn. exists fs', pt', l2, (used + (blen l - blen l2)). split; [done|]. split; [lia|].
        intros x. by rewrite Hx, Hx2.
  - destruct Hst as (Hbr & Hne & He). unfold redisReaderGetReply. destruct (Z.eqb_spec (err r) 0) as [E|_]; [done|].
    apply yields_Ret. eexists. cbn [fst snd mbind option_bind option_list fed_bytes]. rewrite He, app_nil_r, Z.add_0_r. split; [constructor|].
    exists gs. split; [done|]. split; [done|]. done.
Qed.

Lemma given_free bs gs1 o v gs2 fs w : held h0 bs (objects (gs1 ++ (o, v) :: gs2) fs) w ->
  yields (free_object_block (Some o) w) (held h0 bs (objects (gs1 ++ gs2) fs)).
Proof. apply free_given. Qed.

(** The memory of a client, in any state. *)
Lemma state_held n r os w s : state_ok n (r, os, w) s -> exists gs fs, os = gs.*1 /\ replies s = gs.*2 /\
  reply r = fobj <$> last fs /\ (fs = [] \/ fn r = Some defaultFunctions) /\ held h0 (own r) (objects gs fs) w /\
  forall gs' w', held h0 (own r) (objects gs' fs) w' -> state_ok n (r, gs'.*1, w') (mkSpec (waiting s) gs'.*2).
Proof.
  intros (gs & -> & Hvs & Hst). destruct s as [[L|e] vs]; cbn in Hvs, Hst; subst vs; cbn [waiting replies].
  - destruct Hst as (fs & pt & l & used & Hr & Hn & Hx). destruct (ready_open _ _ _ _ _ _ _ _ _ _ Hr) as [(_ & O2 & _) _ O4 _ _ O6].
    exists gs, fs. split_and!; try done; [by right|]. intros gs' w' Hm. exists gs'. split; [done|]. split; [done|]. cbn.
    exists fs, pt, l, used. split; [|done]. by eapply ready_objects.
  - destruct Hst as ([B1 B2 B3 B4] & Hne & He). exists gs, []. split_and!; try done; [by left|]. intros gs' w' Hm.
    exists gs'. split; [done|]. split; [done|]. cbn. split; [by split|done].
Qed.

Lemma perform_free n i st s : state_ok n st s -> yields (perform (FreeReply i) st) (performed n (FreeReply i) s).
Proof.
  destruct st as [[r os] w]. intros H. destruct (state_held _ _ _ _ _ H) as (gs & fs & -> & Hvs & _ & _ & Hm & Hst). cbn [perform].
  assert (reason r = match waiting s with inl _ => None | inr e => Some e end) as Er.
  { destruct H as (gs' & _ & _ & H). destruct (waiting s) as [?|?]; [|apply H]. destruct H as (? & ? & ? & ? & H & _). by eapply ready_reason. }
  destruct s as [q vs]. cbn [waiting replies] in *. subst vs. unfold performed. cbn [fed_bytes]. rewrite list_lookup_fmap. destruct (gs !! i) as [[o v]|] eqn:Eg; cbn [fmap option_fmap option_map fst].
  - pose proof (take_drop_middle gs i (o, v) Eg) as E. rewrite <- E in Hm. rewrite (given_view _ _ _ _ _ _ _ Hm).
    eapply yields_bind; [by eapply given_free|]. intros w' Hm'. rewrite <- delete_take_drop in Hm'. apply yields_Ret. cbn [fst snd].
    exists (mkSpec q (delete i gs.*2)). rewrite Er, Z.add_0_r, <- !list_fmap_delete. split; [|by apply Hst].
    rewrite list_fmap_delete. replace (Some v) with (gs.*2 !! i) by (by rewrite list_lookup_fmap, Eg). constructor.
  - apply yields_Ret. cbn [fst snd]. exists (mkSpec q (delete i gs.*2)). rewrite Er, Z.add_0_r.
    assert (delete i gs.*2 = gs.*2) as E by (rewrite delete_take_drop, take_ge, drop_ge, app_nil_r; [done|rewrite length_fmap; apply lookup_ge_None in Eg; lia..]). split.
    + replace None with (gs.*2 !! i) at 1 by (by rewrite list_lookup_fmap, Eg). constructor.
    + rewrite E. by apply Hst.
Qed.

Lemma calls_ok cs : forall n st s, state_ok n st s -> Forall is_byte (fed_bytes cs) -> n + blen (fed_bytes cs) < 2 ^ 31 - 2 ^ 10 ->
  (ndebug = true \/ 62 ∉ fed_bytes cs) -> yields (run cs st) (fun '(l, st') => exists s', spec_run cs s l s' /\ state_ok (n + blen (fed_bytes cs)) st' s').
Proof.
  induction cs as [|c cs IH]; intros n st s H Hd Hb Hc; cbn [run].
  { apply yields_Ret. exists s. split; [done|]. cbn [fed_bytes]. by rewrite blen_nil, Z.add_0_r. }
  assert (fed_bytes (c :: cs) = fed_bytes [c] ++ fed_bytes cs) as E by (destruct c; cbn [fed_bytes]; by rewrite ?app_nil_r).
  rewrite E in *. apply Forall_app in Hd as [Hd Hds]. rewrite blen_app in *. pose proof (blen_nonneg (fed_bytes cs)).
  assert (ndebug = true \/ (62 ∉ fed_bytes [c]) /\ 62 ∉ fed_bytes cs) as Hc2.
  { destruct Hc as [|Hc]; [by left|right]. split; intros Hx; apply Hc, elem_of_app; auto. }
  eapply (yields_bind (performed n c s)).
  { destruct c as [d|want|i]; [apply perform_feed; [done|]|by apply perform_get|by apply perform_free]. split; [done|]. split; [lia|tauto]. }
  intros [a st1] (s1 & Hs & H1). eapply yields_bind; [apply (IH _ _ _ H1 Hds); [lia|tauto]|]. intros [l st2] (s2 & Hrun & H2).
  apply yields_Ret. exists s2. split; [by exists s1|]. by rewrite Z.add_assoc.
Qed.

Lemma free_replies_ok gs : forall w, held h0 [] (objects gs []) w -> yields (free_replies gs.*1 w) (held h0 [] (objects [] [])).
Proof.
  induction gs as [|[o v] gs IH]; intros w Hm; cbn [fmap list_fmap free_replies fst]; [by apply yields_Ret|].
  eapply yields_bind; [by apply (given_free [] [] o v gs [])|]. exact IH.
Qed.

(** Nothing is left. *)
Lemma held_nothing w : held h0 [] (objects [] []) w -> live w.1 = live h0 /\ w.2 = ∅.
Proof.
  intros (og & os & -> & -> & (_ & H2 & H3))%held_objects. destruct H3 as [H3 _]. rewrite H3, H2. split; [set_solver|done].
Qed.

Lemma held_start : heap_ok h0 -> held h0 [] (objects [] []) (h0, ∅).
Proof.
  intros Hh. apply held_objects. exists [], []. split; [done|]. split; [done|]. split; [constructor|]. split; [done|]. by apply acquires_nil.
Qed.

Lemma given_views bs gs fs w : held h0 bs (objects gs fs) w -> map (view_reply w.2) gs.*1 = Some <$> gs.*2.
Proof.
  intros Hm. assert (Forall (fun ov => view_reply w.2 ov.1 = Some ov.2) gs) as H.
  { apply Forall_forall. intros [o v] (g1 & g2 & ->)%list_elem_of_split. by eapply given_view. }
  clear Hm. induction H as [|[o v] gs Hv _ IH]; [done|]. cbn [map fmap list_fmap fst snd] in *. by rewrite Hv, IH.
Qed.

(** ** Reading what arrives *)

(** The client that feeds pieces and takes all replies after each: the status,
    how the replies look when the reader is gone, and the error. *)
Definition read_all (ds : list (list Z)) (h : heap) : comp (option (Z * list (option resp) * option (Z * list Z)) * world) :=
  let! '(r, w) := redisReaderCreate (h, ∅) in
  match r with
  | None => Ret (None, w)
  | Some r =>
      let! '(ok, os, r, w) := read_pieces ds r w in
      let why := reason r in
      let! w := redisReaderFree (Some r) w in
      let vs := map (view_reply w.2) os in
      let! w := free_replies os w in
      Ret (Some (ok, vs, why), w)
  end.

(** The result for the bytes [l]. *)
Definition reads (l : list Z) (res : Z * list (option resp) * option (Z * list Z)) : Prop :=
  let '(ok, vs, why) := res in
  let '(ws, e) := parse_all maxe l in
  match why with
  | None => ok = REDIS_OK /\ vs = Some <$> ws /\ e = Waits
  | Some (code, msg) =>
      ok = REDIS_ERR /\
      (code = REDIS_ERR_PROTOCOL /\ vs = Some <$> ws /\ e = Fails msg \/
       code = REDIS_ERR_OOM /\ starved /\ exists us us', ws = us ++ us' /\ vs = Some <$> us)
  end.

Definition given_back (w : world) : Prop := live w.1 = live h0 /\ w.2 = ∅.

Lemma read_all_ok ds : heap_ok h0 -> Forall (Forall is_byte) ds -> blen (concat ds) < 2 ^ 31 - 2 ^ 10 -> (ndebug = true \/ 62 ∉ concat ds) ->
  yields (read_all ds h0) (fun '(res, w) => given_back w /\ match res with Some x => reads (concat ds) x | None => starved end).
Proof.
  intros Hh Hd Hb Hc. unfold read_all, redisReaderCreate.
  eapply yields_bind; [eapply (create_ok defaultFunctions h0); by apply held_start|]. intros [[r|] w]; cbn [fst snd].
  2: { intros (_ & Hm & Hs). apply yields_Ret. split; [by apply held_nothing|done]. }
  intros Hr. eapply yields_bind; [apply (read_pieces_ok defaultFunctions h0 ds r w [] [] None [] 0 Hr eq_refl Hd Hb Hc)|].
  intros [[[ok os] r1] w1] (new & -> & Hs). cbn [app] in Hs.
  assert (exists fs, reply r1 = fobj <$> last fs /\ (fs = [] \/ fn r1 = Some defaultFunctions) /\ held h0 (own r1) (objects new fs) w1 /\
    forall vs, vs = Some <$> new.*2 -> reads (concat ds) (ok, vs, reason r1)) as (fs & Hrep & Hfn & Hm & Hres).
  { assert (after maxe (answer maxe [] None (concat ds ++ [])) = parse_all maxe (concat ds)) as Ep by (by rewrite app_nil_r, parse_all_eq).
    unfold reads. rewrite <- Ep. destruct Hs as [(-> & [B1 B2 B3 B4] & Hs)|(-> & fs & pt & l & Hr1 & Hmore & Hx)].
    - exists []. split; [done|]. split; [by left|]. split; [done|]. intros vs ->. destruct Hs as [(He & Hs & Hx)|(He & Hx)].
      + destruct (broken_reason r1 _ He ltac:(done)) as [_ ->]. destruct (Hx []) as [us Hus]. destruct (after maxe _) as [ws e]. cbn in Hus. subst ws.
        split; [done|]. right. split; [done|]. split; [done|]. by exists new.*2, us.
      + destruct (broken_reason r1 _ He ltac:(done)) as [_ ->]. rewrite Hx. split; [done|]. by left.
    - destruct (ready_open _ _ _ _ _ _ _ _ _ _ Hr1) as [(_ & O2 & _) _ O4 _ _ O6]. exists fs. split; [done|]. split; [by right|]. split; [done|].
      intros vs ->. rewrite (ready_reason _ _ _ _ _ _ _ Hr1), Hx, app_nil_r, Hmore. cbn [after fst snd]. by rewrite app_nil_r. }
  eapply yields_bind; [by eapply (reader_free_ok defaultFunctions h0 r1 w1 new fs)|]. intros w2 H2.
  eapply yields_bind; [by apply (free_replies_ok new w2)|]. intros w3 H3. apply yields_Ret. split; [by apply held_nothing|].
  apply Hres. by eapply given_views.
Qed.

End session.

(** C5: a client may feed bytes, take replies and free them in any order: no
    call reads or writes out of bounds, every answer is the one that the
    grammar ([parse_resp]: the types of [reply_types], without the attributes
    and big numbers of RESP3, which are protocol errors) gives for the bytes fed
    so far, replies keep their value until they are freed, and after the last
    free nothing is left allocated.  Only a refused allocation stops the reader
    otherwise.  The build has NDEBUG, or no byte is '>': the default build
    aborts on a push with a nil, double or bool in it ([push_of_nil_aborts]). *)
Theorem reader_session {A : Allocator} {G : Garbage} {N : Ndebug} cs h : heap_ok h ->
  Forall is_byte (fed_bytes cs) -> blen (fed_bytes cs) < 2 ^ 31 - 2 ^ 10 -> (ndebug = true \/ 62 ∉ fed_bytes cs) ->
  yields (session cs h) (fun '(res, w) => live w.1 = live h /\ w.2 = ∅ /\
    match res with
    | Some l => exists s', spec_run cs spec_start l s'
    | None => starved
    end).
Proof.
  intros Hh Hd Hb Hc. unfold session, redisReaderCreate.
  eapply yields_bind; [eapply (create_ok defaultFunctions h); by apply held_start|]. intros [[r|] w]; cbn [fst snd].
  2: { intros (_ & Hm & Hs). apply yields_Ret. destruct (held_nothing h _ Hm). done. }
  intros Hr. eapply (yields_bind (fun '(l, st') => exists s', spec_run cs spec_start l s' /\ state_ok h (0 + blen (fed_bytes cs)) st' s')).
  { apply (calls_ok h cs 0 (r, [], w) spec_start); [|done..]. exists []. split; [done|]. split; [done|]. cbn.
    exists [], None, [], 0. split; [done|]. by split. }
  intros [l [[r1 os] w1]] (s' & Hs & Hst). destruct (state_held _ _ _ _ _ _ Hst) as (gs & fs & -> & _ & Hrep & Hfn & Hm & _).
  eapply yields_bind; [by eapply (reader_free_ok defaultFunctions h r1 w1 gs fs)|]. intros w2 H2.
  eapply yields_bind; [by apply (free_replies_ok h gs w2)|]. intros w3 H3. apply yields_Ret. destruct (held_nothing h _ H3) as [-> ->].
  split; [done|]. split; [done|]. by exists s'.
Qed.

(** C17: however the bytes of a connection are cut into pieces, the replies that
    the reader makes are those of the grammar ([parse_resp]) on the whole text,
    with the same error message where it does not parse, unless an allocation
    is refused; the replies outlive the reader and every block is given back.
    The build has NDEBUG, or no byte is '>'. *)
Theorem reader_pieces {A : Allocator} {G : Garbage} {N : Ndebug} ds h : heap_ok h -> Forall (Forall is_byte) ds ->
  blen (concat ds) < 2 ^ 31 - 2 ^ 10 -> (ndebug = true \/ 62 ∉ concat ds) ->
  yields (read_all ds h) (fun '(res, w) => given_back h w /\ match res with Some x => reads (concat ds) x | None => starved end).
Proof. apply read_all_ok. Qed.

(** C19: replies of the grammar's types that are written in the protocol and
    arrive in any pieces are read back as they were, when memory suffices, and
    every block is given back.  The build has NDEBUG, or no byte is '>'. *)
Theorem reader_roundtrip {A : Allocator} {G : Garbage} {N : Ndebug} vs ds h : heap_ok h -> (forall n, grants n = true) ->
  concat ds = concat (map encode vs) -> Forall (writable maxe) vs -> Forall (Forall is_byte) ds ->
  blen (concat ds) < 2 ^ 31 - 2 ^ 10 -> (ndebug = true \/ 62 ∉ concat ds) ->
  yields (read_all ds h) (fun '(res, w) => given_back h w /\ res = Some (REDIS_OK, Some <$> vs, None)).
Proof.
  intros Hh Hg E Hw Hd Hb Hc. assert (starved -> False) as Hns by (intros [n Hn]; by rewrite Hg in Hn).
  eapply yields_mono; [by apply read_all_ok|]. intros [res w] [Hgb Hr]. split; [done|].
  destruct res as [[[ok us] why]|]; [|done]. unfold reads in Hr.
  assert (parse_all maxe (concat ds) = (vs, Waits)) as Ep.
  { rewrite E, <- (app_nil_r (concat (map encode vs))), parse_all_encode; [change (parse_all maxe []) with (([] : list resp), Waits); cbn [fst snd]; by rewrite app_nil_r|].
    rewrite E in Hb. clear -Hb Hw. induction vs as [|v vs IH]; constructor; cbn [map concat] in Hb; rewrite blen_app in Hb; unfold blen in *; apply Forall_cons in Hw as [Hv Hw].
    - split; [lia|done].
    - apply IH; [done|lia]. }
  rewrite Ep in Hr. destruct why as [[code msg]|]; [|by destruct Hr as (-> & -> & _)]. destruct Hr as (_ & [(_ & _ & Hf)|(_ & Hs & _)]); [done|by apply Hns in Hs].
Qed.

(** ** Concrete sessions *)

Definition no_junk : Garbage := fun _ _ => 0.
Definition empty_heap : heap := mkHeap 1 ∅.

Lemma empty_heap_ok : heap_ok empty_heap.
Proof. intros b Hb. by apply not_elem_of_empty in Hb. Qed.

(** An array of an integer and a string, in two pieces, and a bad line. *)
Definition demo_value : resp := RArray REDIS_REPLY_ARRAY [RInteger (-5); RText REDIS_REPLY_STRING (text "foo")].
Definition demo_front : list Z := text "*2" ++ crlf ++ text ":-5" ++ crlf ++ text "$3" ++ crlf ++ text "f".
Definition demo_back : list Z := text "oo" ++ crlf ++ text ":05" ++ crlf.
Definition demo_calls : list call :=
  [Feed demo_front; GetReply true; Feed demo_back; GetReply true; GetReply true; FreeReply 0; GetReply false].

Definition demo_error : Z * list Z := (REDIS_ERR_PROTOCOL, text "Bad integer value").

Lemma reader_session_demo :
  (let! '(res, _) := @session plenty no_junk false demo_calls empty_heap in Ret res) =
  Ret (Some [(REDIS_OK, None, None); (REDIS_OK, None, None); (REDIS_OK, None, None); (REDIS_OK, Some demo_value, None);
             (REDIS_ERR, None, Some demo_error); (REDIS_OK, Some demo_value, Some demo_error); (REDIS_ERR, None, Some demo_error)]).
Proof. vm_compute. reflexivity. Qed.


Lemma reader_session_witness :
  yields (@session plenty no_junk false demo_calls empty_heap) (fun '(res, w) => live w.1 = live empty_heap /\ w.2 = ∅ /\
    match res with
    | Some l => exists s', @spec_run plenty demo_calls spec_start l s'
    | None => @starved plenty
    end).
Proof.
  apply (@reader_session plenty no_junk false demo_calls empty_heap empty_heap_ok).
  - apply bytes_decided. reflexivity.
  - reflexivity.
  - right. apply (bool_decide_unpack _). vm_compute. exact I.
Defined.

Lemma reader_pieces_witness :
  yields (@read_all plenty no_junk false [demo_front; demo_back] empty_heap) (fun '(res, w) => given_back empty_heap w /\
    match res with Some x => @reads plenty (concat [demo_front; demo_back]) x | None => @starved plenty end).
Proof.
  apply (@reader_pieces plenty no_junk false [demo_front; demo_back] empty_heap empty_heap_ok).
  - apply pieces_decided. reflexivity.
  - reflexivity.
  - right. apply (bool_decide_unpack _). vm_compute. exact I.
Defined.

Definition demo_text : list Z := encode demo_value.

Lemma reader_roundtrip_witness :
  yields (@read_all plenty no_junk false [take 9 demo_text; drop 9 demo_text] empty_heap) (fun '(res, w) => given_back empty_heap w /\
    res = Some (REDIS_OK, Some <$> [demo_value], None)).
Proof.
  apply (@reader_roundtrip plenty no_junk false [demo_value] [take 9 demo_text; drop 9 demo_text] empty_heap empty_heap_ok).
  - done.
  - reflexivity.
  - constructor; [|constructor]. apply writable_array. split; [done|]. split; [done|]. split; [done|].
    constructor; [|constructor; [left|constructor]]; done.
  - apply pieces_decided. reflexivity.
  - reflexivity.
  - right. apply (bool_decide_unpack _). vm_compute. exact I.
Defined.

(** A push with a nil: a build without NDEBUG fails its assertion, a build
    with NDEBUG reads it. *)
Definition push_nil : list Z := text ">1" ++ crlf ++ text "_" ++ crlf.

Lemma push_of_nil_aborts :
  @read_all plenty no_junk false [push_nil] empty_heap = Oob /\
  (let! '(res, _) := @read_all plenty no_junk true [push_nil] empty_heap in Ret res) =
    Ret (Some (REDIS_OK, [Some (RArray REDIS_REPLY_PUSH [RNil])], None)).
Proof. split; vm_compute; reflexivity. Qed.
