(* ===== verification/Command.v ===== *)
(** * Writing commands

    hiredis/hiredis.c, the functions that write a command in the protocol of
    redis: [redisvFormatCommand], which reads a format with interpolated
    arguments, [redisFormatCommandArgv] and [redisFormatSdsCommandArgv] for
    arguments in arrays.  A variable argument list is a list of typed values:
    to take one of another type is undefined ([Oob]).  What a conversion of
    printf prints is the parameter [printed]. *)

From stdpp Require Import gmap.
From Stdlib Require Import SpecFloat String.
From S2P Require Import Prelude Cstdlib Heap Sds Reader.

#[local] Open Scope Z_scope.
#[local] Set Warnings "-clear-no-such-hyp".
#[local] Arguments cbind {A B} !m k /.

(** ** Sizes *)

(** [for (;;)]: four digits are taken off in a round. *)
Fixpoint count_loop (fuel : nat) (v result : Z) : comp Z :=
  match fuel with
  | O => NoFuel
  | S f =>
      if v <? 10 then Ret result
      else if v <? 100 then Ret (u32 (result + 1))
      else if v <? 1000 then Ret (u32 (result + 2))
      else if v <? 10000 then Ret (u32 (result + 3))
      else count_loop f (v / 10000) (u32 (result + 4))
  end.

(** [uint64_t v] has at most 20 digits. *)
Definition countDigits (v : Z) : comp Z := count_loop 5 v 1.

Definition bulklen (len : Z) : comp Z :=
  let! n := countDigits (u64 len) in Ret (u64 (u32 (1 + n + 2) + len + 2)).

Section command.
Context {A : Allocator} {G : Garbage} {N : Ndebug}.

(** ** Writing into the buffer

    [sprintf (cmd + pos, ...)] of a text, with its terminator. *)
Definition put_text (cmd : list Z) (pos : Z) (t : list Z) : comp (list Z * Z) :=
  let! cmd := wr_block cmd pos (t ++ [0]) in
  let! pos := signed 32 (pos + blen t) in
  Ret (cmd, pos).

(** [cmd[pos++] = c] *)
Definition put_byte (cmd : list Z) (pos c : Z) : comp (list Z * Z) :=
  let! cmd := wr cmd pos c in
  let! pos := signed 32 (pos + 1) in
  Ret (cmd, pos).

(** The length of an argument and its [len] bytes at [src]. *)
Definition put_data (cmd : list Z) (pos : Z) (src : list Z) (len : Z) : comp (list Z * Z) :=
  let! '(cmd, pos) := put_text cmd pos ([36] ++ dec len ++ [13; 10]) in
  let! t := rd_block src 0 len in
  let! cmd := wr_block cmd pos t in
  Ret (cmd, i32 (u64 (pos + len))).

Definition put_crlf (cmd : list Z) (pos : Z) : comp (list Z * Z) :=
  let! '(cmd, pos) := put_byte cmd pos 13 in
  put_byte cmd pos 10.

(** ** Arguments in arrays *)

(** [argvlen ? argvlen[j] : strlen (argv[j])] *)
Definition arg_len (argv : list (list Z)) (argvlen : option (list Z)) (j : nat) : comp Z :=
  match argvlen with
  | Some l => deref (l !! j)
  | None => let! a := deref (argv !! j) in strlen a
  end.

(** The loop that adds up the sizes from [j] on, [wrap] being the conversion
    to the type of the total. *)
Fixpoint total_loop (wrap : Z -> Z) (k j : nat) (argv : list (list Z)) (argvlen : option (list Z)) (totlen : Z) : comp Z :=
  match k with
  | O => Ret totlen
  | Datatypes.S k =>
      let! len := arg_len argv argvlen j in
      let! n := bulklen len in
      total_loop wrap k (Datatypes.S j) argv argvlen (wrap (u64 (totlen + n)))
  end.

Fixpoint put_args (k j : nat) (argv : list (list Z)) (argvlen : option (list Z)) (cmd : list Z) (pos : Z) : comp (list Z * Z) :=
  match k with
  | O => Ret (cmd, pos)
  | Datatypes.S k =>
      let! len := arg_len argv argvlen j in
      let! a := deref (argv !! j) in
      let! '(cmd, pos) := put_data cmd pos a len in
      let! '(cmd, pos) := put_crlf cmd pos in
      put_args k (Datatypes.S j) argv argvlen cmd pos
  end.

(** The status and what is stored through [target]; [target] says whether it
    is not NULL. *)
Definition redisFormatCommandArgv (target : bool) (argc : Z) (argv : list (list Z)) (argvlen : option (list Z)) (h : heap) :
    comp (Z * option (Z * list Z) * heap) :=
  if negb target then Ret (-1, None, h)
  else
    let! n := countDigits (u64 argc) in
    let! totlen := total_loop i32 (Z.to_nat argc) 0 argv argvlen (i32 (u32 (1 + n + 2))) in
    let! size := signed 32 (totlen + 1) in
    match malloc h with
    | (None, h) => Ret (-1, None, h)
    | (Some b, h) =>
        let cmd := fresh b (u64 size) in
        let! '(cmd, pos) := put_text cmd 0 ([42] ++ dec argc ++ [13; 10]) in
        let! '(cmd, pos) := put_args (Z.to_nat argc) 0 argv argvlen cmd pos in
        let! _ := assert (pos =? totlen) in
        let! cmd := wr cmd pos 0 in
        Ret (totlen, Some (b, cmd), h)
    end.

Definition redisFreeCommand (cmd : Z) (h : heap) : comp heap := free cmd h.

(** A [size_t] that is taken as an [unsigned int]: its low half. *)
Definition size_as_uint (n : Z) : fmt_arg := AUnsigned (u32 n).

Fixpoint cat_args (k j : nat) (argv : list (list Z)) (argvlen : option (list Z)) (cmd : option sds) (h : heap) : comp (option sds * heap) :=
  match k with
  | O => Ret (cmd, h)
  | Datatypes.S k =>
      let! len := arg_len argv argvlen j in
      let! s := deref cmd in
      let! '(cmd, h) := sdscatfmt s [36; 37; 117; 13; 10; 0] [size_as_uint len] h in
      let! s := deref cmd in
      let! a := deref (argv !! j) in
      let! '(cmd, h) := sdscatlen s a len h in
      let! s := deref cmd in
      let! '(cmd, h) := sdscatlen s [13; 10; 0] 2 h in
      cat_args k (Datatypes.S j) argv argvlen cmd h
  end.

Definition redisFormatSdsCommandArgv (target : bool) (argc : Z) (argv : list (list Z)) (argvlen : option (list Z)) (h : heap) :
    comp (Z * option sds * heap) :=
  if negb target then Ret (-1, None, h)
  else
    let! n := countDigits (u64 argc) in
    let! totlen := total_loop u64 (Z.to_nat argc) 0 argv argvlen (u32 (1 + n + 2)) in
    let! '(cmd, h) := sdsempty h in
    match cmd with
    | None => Ret (-1, None, h)
    | Some cmd =>
        let! '(aux, h) := sdsMakeRoomFor cmd totlen h in
        match aux with
        | None => let! h := sdsfree (Some cmd) h in Ret (-1, None, h)
        | Some cmd =>
            let! '(cmd, h) := sdscatfmt cmd [42; 37; 105; 13; 10; 0] [AInt argc] h in
            let! '(cmd, h) := cat_args (Z.to_nat argc) 0 argv argvlen cmd h in
            let! s := deref cmd in
            let! _ := assert (sdslen s =? totlen) in
            Ret (i32 totlen, Some s, h)
        end
    end.

Definition redisFreeSdsCommand (cmd : option sds) (h : heap) : comp heap := sdsfree cmd h.

(** ** Formats *)

(** The arguments of a call, as they are passed. *)
Inductive va : Type :=
| VStr (p : list Z)
| VSize (n : Z)
| VInt (z : Z)
| VLong (z : Z)
| VLongLong (z : Z)
| VDouble (d : spec_float).

Inductive va_type : Type := Int | Long | LongLong | Double.

(** [va_arg] for the types of the conversions. *)
Definition va_take (t : va_type) (args : list va) : comp (va * list va) :=
  match t, args with
  | Int, (VInt _ as a) :: args | Long, (VLong _ as a) :: args
  | LongLong, (VLongLong _ as a) :: args | Double, (VDouble _ as a) :: args => Ret (a, args)
  | _, _ => Oob
  end.

Section format.
(** What [vsnprintf] prints for a format with one conversion. *)
Context (printed : list Z -> va -> list Z).
(** The format with its terminator. *)
Context (fmt : list Z).

Definition intfmts : list Z := text "diouxX" ++ [0].
Definition flag_chars : list Z := text "#0-+ " ++ [0].
Definition dblfmts : list Z := text "eEfFgGaA" ++ [0].

(** [while ( *_p != '\0' && P ( *_p)) _p++] *)
Fixpoint skip_while (P : Z -> bool) (fuel : nat) (p : Z) : comp Z :=
  match fuel with
  | O => NoFuel
  | S f =>
      let! c := rd fmt p in
      if negb (c =? 0) && P c then skip_while P f (p + 1) else Ret p
  end.

Definition skip_run (P : Z -> bool) (p : Z) : comp Z := skip_while P (length fmt) p.

(** Behind the modifiers: an integer conversion. *)
Definition sized (t : va_type) (p : Z) : comp (option (va_type * Z)) :=
  let! c := rd fmt p in
  Ret (if negb (c =? 0) && in_set intfmts c then Some (t, p) else None).

(** The type of the argument and the last character of the conversion; [None]
    is [fmt_invalid]. *)
Definition conversion (p : Z) : comp (option (va_type * Z)) :=
  let! c := rd fmt p in
  if in_set intfmts c then Ret (Some (Int, p))
  else if in_set dblfmts c then Ret (Some (Double, p))
  else if c =? 104 then
    let! c1 := rd fmt (p + 1) in
    if c1 =? 104 then sized Int (p + 2) else sized Int (p + 1)
  else if c =? 108 then
    let! c1 := rd fmt (p + 1) in
    if c1 =? 108 then sized LongLong (p + 2) else sized Long (p + 1)
  else Ret None.

(** The default case of the switch, [c] being the place of the percent sign:
    the new argument, the place before the next character, and the arguments
    left; [None] is a format error. *)
Definition printf_arg (c : Z) (args : list va) (s : sds) (h : heap) : comp (option (option sds * Z * list va) * heap) :=
  let! p := skip_run (in_set flag_chars) (c + 1) in
  let! p := skip_run isdigit p in
  let! d := rd fmt p in
  let! p := if d =? 46 then skip_run isdigit (p + 1) else Ret p in
  let! t := conversion p in
  match t with
  | None => Ret (None, h)
  | Some (t, p) =>
      let! '(a, args) := va_take t args in
      let l := p + 1 - c in
      if l <? 14 then
        let! f := rd_block fmt c l in
        let f := cstr (f ++ [0]) in
        let! '(s, h) := sdscatvprintf s (blen f) (printed f a) h in
        Ret (Some (s, p - 1, args), h)
      else Ret (Some (Some s, c, args), h)
  end.

(** The switch over the character behind the percent sign. *)
Definition interpolate (c : Z) (args : list va) (s : sds) (h : heap) : comp (option (option sds * Z * list va) * heap) :=
  let! n := rd fmt (c + 1) in
  if n =? 115 then
    match args with
    | VStr p :: args =>
        let! size := strlen p in
        let! '(s, h) := if 0 <? size then sdscatlen s p size h else Ret (Some s, h) in
        Ret (Some (s, c, args), h)
    | _ => Oob
    end
  else if n =? 98 then
    match args with
    | VStr p :: VSize size :: args =>
        let! '(s, h) := if 0 <? size then sdscatlen s p size h else Ret (Some s, h) in
        Ret (Some (s, c, args), h)
    | _ => Oob
    end
  else if n =? 37 then
    let! '(s, h) := sdscat s [37; 0] h in
    Ret (Some (s, c, args), h)
  else printf_arg c args s h.

(** [curargv] with its [argc] strings, and the size of the command. *)
Record argv := mkArgv {
  vblk : option Z;
  vargs : list sds;
  vtot : Z
}.

(** The current argument is put into [curargv]; [false] is a memory error. *)
Definition end_arg (v : argv) (s : sds) (h : heap) : comp (bool * argv * heap) :=
  let! argc := signed 32 (Z.of_nat (length (vargs v)) + 1) in
  let! '(b, h) := match vblk v with None => Ret (malloc h) | Some b => realloc b h end in
  match b with
  | None => Ret (false, v, h)
  | Some b =>
      let! n := bulklen (sdslen s) in
      Ret (true, mkArgv (Some b) (vargs v ++ [s]) (i32 (u64 (vtot v + n))), h)
  end.

(** The state behind the loop: [error_type], [curarg], [touched], [curargv]. *)
Definition parsed : Type := Z * option sds * bool * argv * heap.

(** One round for a character or a conversion. *)
Fixpoint format_loop (fuel : nat) (c : Z) (args : list va) (s : sds) (touched : bool) (v : argv) (h : heap) : comp parsed :=
  let! b := rd fmt c in
  if b =? 0 then Ret (0, Some s, touched, v, h)
  else
    match fuel with
    | O => NoFuel
    | S fuel =>
        let! plain := if b =? 37 then let! n := rd fmt (c + 1) in Ret (n =? 0) else Ret true in
        if plain : bool then
          if b =? 32 then
            if touched then
              let! '(ok, v, h) := end_arg v s h in
              if ok : bool then
                let! '(s, h) := sdsempty h in
                match s with
                | None => Ret (-1, None, touched, v, h)
                | Some s => format_loop fuel (c + 1) args s false v h
                end
              else Ret (-1, Some s, touched, v, h)
            else format_loop fuel (c + 1) args s touched v h
          else
            let! '(newarg, h) := sdscatlen s (drop (Z.to_nat c) fmt) 1 h in
            match newarg with
            | None => Ret (-1, Some s, touched, v, h)
            | Some s => format_loop fuel (c + 1) args s true v h
            end
        else
          let! '(r, h) := interpolate c args s h in
          match r with
          | None => Ret (-2, Some s, touched, v, h)
          | Some (None, _, _) => Ret (-1, Some s, touched, v, h)
          | Some (Some s, c, args) => format_loop fuel (c + 2) args s true v h
          end
    end.

(** [cleanup] *)
Definition format_cleanup (v : argv) (s : option sds) (h : heap) : comp heap :=
  let! h :=
    match vblk v with
    | None => Ret h
    | Some b => let! h := for_each (fun s h => sdsfree (Some s) h) (rev (vargs v)) h in free b h
    end in
  sdsfree s h.

(** The loop that writes the arguments and frees them. *)
Fixpoint put_freed (l : list sds) (cmd : list Z) (pos : Z) (h : heap) : comp (list Z * Z * heap) :=
  match l with
  | [] => Ret (cmd, pos, h)
  | s :: l =>
      let! '(cmd, pos) := put_data cmd pos (sbuf s) (sdslen s) in
      let! h := sdsfree (Some s) h in
      let! '(cmd, pos) := put_crlf cmd pos in
      put_freed l cmd pos h
  end.

Definition format_build (v : argv) (h : heap) : comp (Z * option (Z * list Z) * heap) :=
  let argc := Z.of_nat (length (vargs v)) in
  let! n := countDigits (u64 argc) in
  let totlen := i32 (u32 (vtot v + u32 (1 + n + 2))) in
  let! size := signed 32 (totlen + 1) in
  match malloc h with
  | (None, h) => let! h := format_cleanup v None h in Ret (-1, None, h)
  | (Some b, h) =>
      let! '(cmd, pos) := put_text (fresh b (u64 size)) 0 ([42] ++ dec argc ++ [13; 10]) in
      let! '(cmd, pos, h) := put_freed (vargs v) cmd pos h in
      let! _ := assert (pos =? totlen) in
      let! cmd := wr cmd pos 0 in
      let! h := match vblk v with None => Ret h | Some vb => free vb h end in
      Ret (totlen, Some (b, cmd), h)
  end.

Definition redisvFormatCommand (target : bool) (args : list va) (h : heap) : comp (Z * option (Z * list Z) * heap) :=
  if negb target then Ret (-1, None, h)
  else
    let! '(s, h) := sdsempty h in
    match s with
    | None => Ret (-1, None, h)
    | Some s =>
        let! '(e, s, touched, v, h) := format_loop (length fmt) 0 args s false (mkArgv None [] 0) h in
        if e =? 0 then
          let! '(ok, s, v, h) :=
            if touched : bool then
              let! s' := deref s in
              let! '(ok, v, h) := end_arg v s' h in Ret (ok, s, v, h)
            else let! h := sdsfree s h in Ret (true, None, v, h) in
          if ok : bool then format_build v h
          else let! h := format_cleanup v s h in Ret (-1, None, h)
        else let! h := format_cleanup v s h in Ret (e, None, h)
    end.

Definition redisFormatCommand (target : bool) (args : list va) (h : heap) : comp (Z * option (Z * list Z) * heap) :=
  let! '(len, cmd, h) := redisvFormatCommand target args h in
  Ret (if len <? 0 then -1 else len, cmd, h).

End format.
End command.
