(* ===== verification/CommandProof.v ===== *)
(** * Commands are written as the protocol has them

    [command ws] is the text of the command with the arguments [ws]; the
    three functions of [Command] store it in a block of exactly its size.
    For a format, [meaning] says which arguments it stands for. *)

From stdpp Require Import gmap.
From Stdlib Require Import SpecFloat String.
From S2P Require Import Prelude Cstdlib Heap Sds SdsText Reader Resp Command.

#[local] Open Scope Z_scope.
#[local] Set Warnings "-clear-no-such-hyp".
#[local] Arguments cbind {A B} !m k /.

Definition bulk (s : list Z) : list Z := encode (RText REDIS_REPLY_STRING s).

Definition command (ws : list (list Z)) : list Z := encode (RArray REDIS_REPLY_ARRAY (map (RText REDIS_REPLY_STRING) ws)).

Definition head_text (n : Z) : list Z := [42] ++ dec n ++ [13; 10].

Lemma bulk_eq s : bulk s = ([36] ++ dec (blen s) ++ [13; 10]) ++ s ++ [13; 10].
Proof. unfold bulk. cbn [encode]. rewrite Z.eqb_refl. cbn [app]. by rewrite <- app_assoc. Qed.

Lemma command_eq ws : command ws = head_text (Z.of_nat (length ws)) ++ concat (map bulk ws).
Proof.
  unfold command, head_text. cbn [encode]. rewrite length_map, map_map. change (type_byte REDIS_REPLY_ARRAY) with 42.
  change (count_of REDIS_REPLY_ARRAY (Z.of_nat (length ws))) with (Z.of_nat (length ws)). cbn [app]. by rewrite <- app_assoc.
Qed.

(** ** Numbers of digits *)

(** [k] is the number of decimal digits of [v]. *)
Definition digits_of (v k : Z) : Prop := 1 <= k /\ v < 10 ^ k /\ (k = 1 \/ 10 ^ (k - 1) <= v).

Lemma digits_unique v j k : digits_of v j -> digits_of v k -> j = k.
Proof.
  assert (forall a b, digits_of v a -> digits_of v b -> a < b -> False) as H.
  { intros a b (Ha1 & Ha2 & _) (_ & _ & Hb) Hab. destruct Hb as [->|Hb]; [lia|].
    pose proof (Z.pow_le_mono_r 10 a (b - 1) ltac:(lia) ltac:(lia)). lia. }
  intros Hj Hk. destruct (Z.lt_trichotomy j k) as [Hl|[->|Hl]]; [|done|]; exfalso; eauto.
Qed.

Lemma digits_more v d e j k : digits_of (v / e) k -> e = 10 ^ d -> 0 < d -> 0 <= v -> e <= v -> j = k + d -> digits_of v j.
Proof.
  intros (H1 & H2 & H3) -> Hd Hv He ->. pose proof (Z.pow_pos_nonneg 10 d ltac:(lia) ltac:(lia)) as Hp.
  split; [lia|]. rewrite Z.pow_add_r by lia. split.
  - pose proof (Z.div_mod v (10 ^ d) ltac:(lia)). pose proof (Z.mod_pos_bound v (10 ^ d) ltac:(lia)). nia.
  - right. destruct H3 as [->|H3]; [by replace (1 + d - 1) with d by lia|].
    replace (k + d - 1) with (k - 1 + d) by lia. rewrite Z.pow_add_r by lia.
    pose proof (Z.mul_div_le v (10 ^ d) ltac:(lia)). nia.
Qed.

Lemma dec_digits_count fuel : forall v acc, 0 <= v < 10 ^ Z.of_nat fuel -> (0 < fuel)%nat ->
  exists k, blen (dec_digits fuel v acc) = blen acc + k /\ digits_of v k.
Proof.
  induction fuel as [|f IH]; intros v acc Hv Hf; [lia|]. cbn [dec_digits]. destruct (Z.ltb_spec v 10).
  - exists 1. rewrite blen_cons. split; [lia|]. split; [lia|]. split; [lia|by left].
  - rewrite Nat2Z.inj_succ, Z.pow_succ_r in Hv by lia. destruct f as [|f]; [cbn in Hv; lia|].
    destruct (IH (v / 10) (48 + v mod 10 :: acc)) as (k & E & Hk); [split; [dlia|apply Z.div_lt_upper_bound; lia]|lia|].
    exists (k + 1). rewrite E, blen_cons. split; [lia|]. apply (digits_more v 1 10 _ k); (done || lia).
Qed.

Lemma count_loop_ok fuel : forall v r, 0 <= v < 10 ^ (4 * Z.of_nat fuel) -> (0 < fuel)%nat -> 0 <= r -> r + 4 * Z.of_nat fuel < 2 ^ 32 ->
  exists k, count_loop fuel v r = Ret (r + k - 1) /\ digits_of v k.
Proof.
  induction fuel as [|f IH]; intros v r Hv Hf Hr Hb; [lia|]. cbn [count_loop].
  assert (forall a, 0 <= a <= 4 -> u32 (r + a) = r + a) as Hu by (intros; unfold u32; rewrite Z.mod_small; lia).
  destruct (Z.ltb_spec v 10); [exists 1; split; [f_equal; lia|split; [lia|split; [lia|by left]]]|].
  destruct (Z.ltb_spec v 100); [exists 2; split; [rewrite Hu by lia; f_equal; lia|split; [lia|split; [lia|right; lia]]]|].
  destruct (Z.ltb_spec v 1000); [exists 3; split; [rewrite Hu by lia; f_equal; lia|split; [lia|split; [lia|right; lia]]]|].
  destruct (Z.ltb_spec v 10000); [exists 4; split; [rewrite Hu by lia; f_equal; lia|split; [lia|split; [lia|right; lia]]]|].
  replace (4 * Z.of_nat (S f)) with (4 + 4 * Z.of_nat f) in Hv by lia. rewrite Z.pow_add_r in Hv by lia. change (10 ^ 4) with 10000 in Hv.
  destruct f as [|f]; [cbn in Hv; lia|].
  destruct (IH (v / 10000) (u32 (r + 4))) as (k & E & Hk); [split; [dlia|apply Z.div_lt_upper_bound; lia]|lia|rewrite Hu; lia..|].
  exists (k + 4). rewrite E, Hu by lia. split; [f_equal; lia|]. apply (digits_more v 4 10000 _ k); (done || lia).
Qed.

Lemma countDigits_dec v : 0 <= v < 2 ^ 64 -> countDigits v = Ret (blen (dec v)).
Proof.
  intros Hv. destruct (count_loop_ok 5 v 1) as (k & E & Hk); [lia..|]. unfold countDigits. rewrite E. f_equal.
  unfold dec. destruct (Z.ltb_spec v 0); [lia|]. destruct (dec_digits_count 20 v []) as (j & -> & Hj); [lia..|].
  rewrite (digits_unique v j k Hj Hk), blen_nil. lia.
Qed.

Lemma dec_size v : 0 <= v < 2 ^ 64 -> 1 <= blen (dec v) <= 20.
Proof. intros Hv. destruct (dec_nonneg v) as (d & ds & -> & _ & H & _); [lia|]. rewrite blen_cons. pose proof (blen_nonneg ds). lia. Qed.

Lemma bulklen_ok s : blen s < 2 ^ 62 -> bulklen (blen s) = Ret (blen (bulk s)).
Proof.
  intros Hs. pose proof (blen_nonneg s). unfold bulklen. unfold u64 at 1. rewrite Z.mod_small by lia. rewrite countDigits_dec by lia. cbn [cbind].
  pose proof (dec_size (blen s) ltac:(lia)). unfold u32, u64. rewrite (Z.mod_small (1 + _ + 2)) by lia. rewrite Z.mod_small by lia.
  rewrite bulk_eq. f_equal. rewrite !blen_app. change (blen [36]) with 1. change (blen [13; 10]) with 2. lia.
Qed.

Lemma blen_bulk s : blen s + 5 <= blen (bulk s).
Proof.
  rewrite bulk_eq, !blen_app. change (blen [36]) with 1. change (blen [13; 10]) with 2. pose proof (blen_nonneg (dec (blen s))). lia.
Qed.

(** ** The buffer

    The first bytes of a buffer of [n] bytes. *)
Definition written (n : Z) (pre : list Z) (res : list Z * Z) : Prop :=
  (exists r, res.1 = pre ++ r) /\ blen res.1 = n /\ res.2 = blen pre.

Lemma wr_block_end pre r t : blen t <= blen r -> exists r', wr_block (pre ++ r) (blen pre) t = Ret (pre ++ t ++ r') /\ blen (pre ++ t ++ r') = blen (pre ++ r).
Proof.
  intros Ht. pose proof (blen_nonneg pre). rewrite wr_block_in_bounds by (rewrite ?blen_app; lia). exists (drop (Z.to_nat (blen pre + blen t)) (pre ++ r)).
  rewrite blen_to_nat, take_app_length. split; [done|]. rewrite !blen_app, blen_drop, blen_app. pose proof (blen_nonneg t). lia.
Qed.

Section written.
Context (n : Z).

Lemma put_text_ok pre cmd t : written n pre (cmd, blen pre) -> blen pre + blen t < n -> n < 2 ^ 31 ->
  yields (put_text cmd (blen pre) t) (written n (pre ++ t)).
Proof.
  intros ([r Er] & Hn & _) Hl Hb. cbn [fst] in *. subst cmd. pose proof (blen_nonneg pre). pose proof (blen_nonneg t). unfold put_text.
  rewrite blen_app in Hn. destruct (wr_block_end pre r (t ++ [0])) as (r' & -> & Hr); [rewrite blen_app; change (blen [0]) with 1; lia|].
  cbn [cbind]. unfold signed. change (2 ^ (32 - 1)) with (2 ^ 31).
  destruct (Z.leb_spec (- 2 ^ 31) (blen pre + blen t)); [|lia]. destruct (Z.ltb_spec (blen pre + blen t) (2 ^ 31)); [|lia]. cbn [andb cbind].
  apply yields_Ret. split; [|split; cbn [fst snd]].
  - exists ([0] ++ r'). cbn [fst]. by rewrite <- !app_assoc.
  - rewrite Hr, blen_app. lia.
  - by rewrite blen_app.
Qed.

Lemma put_byte_ok pre cmd c : written n pre (cmd, blen pre) -> blen pre + 1 < n -> n < 2 ^ 31 ->
  yields (put_byte cmd (blen pre) c) (written n (pre ++ [c])).
Proof.
  intros ([r Er] & Hn & _) Hl Hb. cbn [fst] in *. subst cmd. pose proof (blen_nonneg pre). unfold put_byte, wr.
  rewrite blen_app in Hn. destruct (wr_block_end pre r [c]) as (r' & -> & Hr); [change (blen [c]) with 1; lia|].
  cbn [cbind]. unfold signed. change (2 ^ (32 - 1)) with (2 ^ 31).
  destruct (Z.leb_spec (- 2 ^ 31) (blen pre + 1)); [|lia]. destruct (Z.ltb_spec (blen pre + 1) (2 ^ 31)); [|lia]. cbn [andb cbind].
  apply yields_Ret. split; [|split; cbn [fst snd]].
  - exists r'. cbn [fst]. by rewrite <- !app_assoc.
  - rewrite Hr, blen_app. lia.
  - by rewrite blen_app.
Qed.

Lemma put_crlf_ok pre cmd : written n pre (cmd, blen pre) -> blen pre + 2 < n -> n < 2 ^ 31 ->
  yields (put_crlf cmd (blen pre)) (written n (pre ++ [13; 10])).
Proof.
  intros Hw Hl Hb. unfold put_crlf. eapply yields_bind; [by apply put_byte_ok; [done|lia|]|]. intros [cmd1 p1] H1.
  pose proof H1 as (_ & _ & E). cbn [snd] in E. subst p1. rewrite blen_app. change (blen [13]) with 1.
  replace (blen pre + 1) with (blen (pre ++ [13])) by (rewrite blen_app; done).
  replace (pre ++ [13; 10]) with ((pre ++ [13]) ++ [10]) by (by rewrite <- app_assoc).
  apply put_byte_ok; [|rewrite blen_app; change (blen [13]) with 1; lia|done]. replace (blen (pre ++ [13])) with (blen pre + 1) by (by rewrite blen_app).
  by rewrite blen_app in H1.
Qed.

Lemma put_data_ok pre cmd src s : written n pre (cmd, blen pre) -> rd_block src 0 (blen s) = Ret s -> blen (pre ++ bulk s) < n -> n < 2 ^ 31 ->
  yields (put_data cmd (blen pre) src (blen s)) (written n (pre ++ ([36] ++ dec (blen s) ++ [13; 10]) ++ s)).
Proof.
  intros Hw Hs Hl Hb. set (t := [36] ++ dec (blen s) ++ [13; 10]). unfold put_data. fold t. pose proof (blen_nonneg pre). pose proof (blen_nonneg s). pose proof (blen_nonneg t).
  rewrite bulk_eq in Hl. fold t in Hl. rewrite !blen_app in Hl. change (blen [13; 10]) with 2 in Hl.
  eapply yields_bind; [by apply put_text_ok; [done|lia|]|]. intros [cmd1 p1] ([r Er] & Hn & E). cbn [fst snd] in *. subst cmd1 p1.
  rewrite Hs. cbn [cbind]. destruct (wr_block_end (pre ++ t) r s) as (r' & -> & Hr); [rewrite blen_app, blen_app in Hn; lia|].
  cbn [cbind]. apply yields_Ret. unfold u64. rewrite blen_app. rewrite Z.mod_small, i32_small by lia. split; [|split; cbn [fst snd]].
  - exists r'. cbn [fst]. by rewrite <- !app_assoc.
  - by rewrite Hr.
  - rewrite !blen_app. lia.
Qed.

(** The end of an argument. *)
Lemma put_rest_ok pre s cmd pos : written n (pre ++ ([36] ++ dec (blen s) ++ [13; 10]) ++ s) (cmd, pos) -> blen (pre ++ bulk s) < n -> n < 2 ^ 31 ->
  yields (put_crlf cmd pos) (written n (pre ++ bulk s)).
Proof.
  intros H1 Hl Hb. rewrite bulk_eq in *. set (t := [36] ++ _) in *. pose proof H1 as (_ & _ & E). cbn [snd] in E. subst pos.
  replace (pre ++ t ++ s ++ [13; 10]) with ((pre ++ t ++ s) ++ [13; 10]) by (by rewrite <- !app_assoc).
  apply put_crlf_ok; [done| |done]. rewrite !blen_app in *. change (blen [13; 10]) with 2 in Hl. lia.
Qed.

(** The terminator behind the text. *)
Lemma put_end pre cmd : written n pre (cmd, blen pre) -> blen pre + 1 = n -> wr cmd (blen pre) 0 = Ret (pre ++ [0]).
Proof.
  intros ([r Er] & Hn & _) Hl. cbn [fst] in *. subst cmd. rewrite blen_app in Hn. unfold wr.
  rewrite wr_block_in_bounds by (rewrite ?blen_app; change (blen [0]) with 1; pose proof (blen_nonneg pre); lia).
  change (blen [0]) with 1. rewrite blen_to_nat, take_app_length, drop_ge; [done|]. rewrite length_app. unfold blen in *. lia.
Qed.

End written.

(** ** Arguments in arrays *)

(** What the arrays pass: with lengths, the blocks start with the arguments;
    without, they are C strings. *)
Definition passes (argv : list (list Z)) (argvlen : option (list Z)) (ws : list (list Z)) : Prop :=
  match argvlen with
  | Some l => l = map blen ws /\ Forall2 (fun a w => exists r, a = w ++ r) argv ws
  | None => Forall2 (fun a w => (0 ∈ a) /\ cstr a = w) argv ws
  end.

Section arrays.
Context (argv : list (list Z)) (argvlen : option (list Z)) (ws : list (list Z)) (Hp : passes argv argvlen ws).

Lemma passes_at j w : ws !! j = Some w -> exists a, argv !! j = Some a /\ arg_len argv argvlen j = Ret (blen w) /\ rd_block a 0 (blen w) = Ret w.
Proof.
  intros Hj. unfold passes, arg_len in *. destruct argvlen as [l|].
  - destruct Hp as (-> & H). destruct (Forall2_lookup_r _ _ _ _ _ H Hj) as (a & Ha & (r & ->)). exists (w ++ r). split; [done|].
    change (map blen ws) with (blen <$> ws). rewrite list_lookup_fmap, Hj. split; [done|]. rewrite rd_block_0_app by (pose proof (blen_nonneg w); lia). apply rd_block_0_all.
  - destruct (Forall2_lookup_r _ _ _ _ _ Hp Hj) as (a & Ha & H0 & <-). exists a. split; [done|]. rewrite Ha. cbn [deref cbind].
    destruct (strlen_ok a H0) as [-> ->]. done.
Qed.

Lemma rest_at j w l : drop j ws = w :: l -> ws !! j = Some w /\ drop (S j) ws = l.
Proof.
  intros E. assert (ws !! j = Some w) as Hj by (by rewrite <- (Nat.add_0_r j), <- lookup_drop, E). split; [done|].
  rewrite (drop_S _ _ _ Hj) in E. by injection E.
Qed.

Lemma concat_bulk_bound w l : blen w + 5 + blen (concat (map bulk l)) <= blen (concat (map bulk (w :: l))).
Proof. cbn [map concat]. rewrite blen_app. pose proof (blen_bulk w). lia. Qed.

Lemma total_loop_ok (wrap : Z -> Z) max : (forall z, 0 <= z < max -> wrap z = z) -> max <= 2 ^ 62 ->
  forall l j tot, drop j ws = l -> 0 <= tot -> tot + blen (concat (map bulk l)) < max ->
  total_loop wrap (length l) j argv argvlen tot = Ret (tot + blen (concat (map bulk l))).
Proof.
  intros Hwrap Hmax. induction l as [|w l IH]; intros j tot Hl H0 Hb; cbn [length total_loop].
  - cbn. by rewrite blen_nil, Z.add_0_r.
  - destruct (rest_at _ _ _ Hl) as [Hj Hl']. destruct (passes_at _ _ Hj) as (a & _ & -> & _). cbn [cbind].
    pose proof (concat_bulk_bound w l). pose proof (blen_nonneg (concat (map bulk l))). pose proof (blen_nonneg w). pose proof (blen_nonneg (bulk w)).
    rewrite bulklen_ok by lia. cbn [map concat] in *. rewrite blen_app in *. cbn [cbind]. unfold u64. rewrite Z.mod_small by lia. rewrite Hwrap by lia.
    rewrite (IH (S j)) by (done || lia). f_equal. lia.
Qed.

Lemma put_args_ok n : n < 2 ^ 31 -> forall l j pre cmd, drop j ws = l -> written n pre (cmd, blen pre) -> blen (pre ++ concat (map bulk l)) < n ->
  yields (put_args (length l) j argv argvlen cmd (blen pre)) (written n (pre ++ concat (map bulk l))).
Proof.
  intros Hn. induction l as [|w l IH]; intros j pre cmd Hl Hw Hb; cbn [length put_args map concat].
  - apply yields_Ret. by rewrite app_nil_r.
  - destruct (rest_at _ _ _ Hl) as [Hj Hl']. destruct (passes_at _ _ Hj) as (a & Ha & -> & Hrd). cbn [cbind]. rewrite Ha. cbn [deref cbind].
    cbn [map concat] in Hb. rewrite app_assoc in Hb |- *.
    assert (blen (pre ++ bulk w) < n) as Hb1 by (rewrite blen_app in Hb; pose proof (blen_nonneg (concat (map bulk l))); lia).
    eapply yields_bind; [by apply (put_data_ok n pre cmd a w)|]. intros [cmd1 p1] H1.
    eapply yields_bind; [by apply (put_rest_ok n pre w)|]. intros [cmd2 p2] H2. pose proof H2 as (_ & _ & E). cbn [snd] in E. subst p2. by apply IH.
Qed.

End arrays.

Lemma count_bulks ws : 5 * Z.of_nat (length ws) <= blen (concat (map bulk ws)).
Proof. induction ws as [|w ws IH]; [done|]. pose proof (concat_bulk_bound w ws). pose proof (blen_nonneg w). cbn [length]. lia. Qed.

Lemma blen_command ws : blen (command ws) = 1 + blen (dec (Z.of_nat (length ws))) + 2 + blen (concat (map bulk ws)).
Proof. rewrite command_eq. unfold head_text. rewrite !blen_app. change (blen [42]) with 1. change (blen [13; 10]) with 2. lia. Qed.

(** The number of arguments of a command that fits. *)
Lemma command_count ws : blen (command ws) < 2 ^ 31 -> 0 <= Z.of_nat (length ws) < 2 ^ 31.
Proof. intros H. rewrite blen_command in H. pose proof (count_bulks ws). pose proof (blen_nonneg (dec (Z.of_nat (length ws)))). lia. Qed.

Section arrays_ok.
Context {A : Allocator} {G : Garbage} {N : Ndebug} (h0 : heap) (rest : list Z).

(** A block with the command, or -1 and nothing. *)
Definition stored (ws : list (list Z)) (res : Z * option (Z * list Z) * heap) : Prop :=
  let '(len, cmd, h) := res in
  exists b, len = blen (command ws) /\ cmd = Some (b, command ws ++ [0]) /\ acquires h0 (b :: rest) h.

Definition no_memory {T : Type} (res : Z * option T * heap) : Prop :=
  let '(len, cmd, h) := res in len = -1 /\ cmd = None /\ acquires h0 rest h /\ starved.

Lemma assert_eqb (x y : Z) : x = y -> assert (x =? y) = Ret tt.
Proof. intros ->. unfold assert. rewrite Z.eqb_refl. by rewrite orb_true_r. Qed.

Lemma blen_head n : blen (head_text n) = 1 + blen (dec n) + 2.
Proof. unfold head_text. rewrite !blen_app. change (blen [42]) with 1. change (blen [13; 10]) with 2. lia. Qed.

(** The first line in a new block. *)
Lemma put_head_ok b n k : blen (head_text k) < n -> n < 2 ^ 31 -> yields (put_text (fresh b n) 0 (head_text k)) (written n (head_text k)).
Proof.
  intros Hl Hn. pose proof (blen_nonneg (head_text k)). apply (put_text_ok n [] (fresh b n) (head_text k)); [|rewrite blen_nil; lia|done].
  split; [by exists (fresh b n)|]. split; [apply blen_fresh; lia|done].
Qed.

Lemma argv_ok argv argvlen ws h : passes argv argvlen ws -> acquires h0 rest h -> blen (command ws) < 2 ^ 31 - 1 ->
  yields (redisFormatCommandArgv true (Z.of_nat (length ws)) argv argvlen h) (fun res => no_memory res \/ stored ws res).
Proof.
  intros Hp Ha Hb. pose proof (command_count ws ltac:(lia)) as Hc. pose proof (dec_size (Z.of_nat (length ws)) ltac:(lia)).
  unfold redisFormatCommandArgv. cbn [negb]. unfold u64 at 1. rewrite Z.mod_small by lia. rewrite countDigits_dec by lia. cbn [cbind].
  rewrite blen_command in Hb. pose proof (blen_nonneg (concat (map bulk ws))). unfold u32. rewrite Z.mod_small, i32_small by lia. rewrite Nat2Z.id.
  rewrite (total_loop_ok argv argvlen ws Hp i32 (2 ^ 31)) by (done || lia || (intros; apply i32_small; lia)). cbn [cbind]. rewrite <- blen_command in *.
  unfold signed. change (2 ^ (32 - 1)) with (2 ^ 31). pose proof (blen_nonneg (command ws)).
  destruct (Z.leb_spec (- 2 ^ 31) (blen (command ws) + 1)); [|lia]. destruct (Z.ltb_spec (blen (command ws) + 1) (2 ^ 31)); [|lia]. cbn [andb cbind].
  pose proof (malloc_more h0 _ _ Ha) as Hm. destruct (malloc h) as [[b|] h1]; [|apply yields_Ret; by left].
  unfold u64. rewrite Z.mod_small by lia. set (n := blen (command ws) + 1) in *. fold (head_text (Z.of_nat (length ws))).
  assert (blen (command ws) < n) as Hn by (subst n; lia). rewrite command_eq in Hn.
  assert (blen (head_text (Z.of_nat (length ws))) < n) as Hh by (rewrite blen_app in Hn; lia).
  eapply yields_bind; [by apply put_head_ok|]. intros [cmd1 p1] Hw1. pose proof Hw1 as (_ & _ & E). cbn [snd] in E. subst p1.
  eapply yields_bind; [by apply (put_args_ok argv argvlen ws Hp n)|]. intros [cmd2 p2] Hw2. rewrite <- command_eq in *.
  pose proof Hw2 as (_ & _ & E). cbn [snd] in E. subst p2. rewrite assert_eqb by done. cbn [cbind]. rewrite (put_end n (command ws)) by done.
  cbn [cbind]. apply yields_Ret. right. by exists b.
Qed.

(** *** As a string of hiredis *)

Hypothesis memory : forall n, grants n = true.

Lemma not_starved : ~ starved.
Proof. intros [n Hn]. by rewrite memory in Hn. Qed.

(** Appending with enough memory. *)
Lemma cat_ok s c t len src h : rep s c -> acquires h0 (sblk s :: rest) h -> rd_block t 0 len = Ret src -> Forall is_byte src -> blen c + len < 2 ^ 63 ->
  yields (sdscatlen s t len h) (fun '(r, h') => exists s', r = Some s' /\ rep s' (c ++ src) /\ acquires h0 (sblk s' :: rest) h').
Proof.
  intros Hr Ha Ht Hf Hl. eapply yields_mono; [by eapply sdscatlen_ok|]. intros [[s'|] h']; [intros [H1 H2]; by exists s'|intros [_ Hs]; by apply not_starved in Hs].
Qed.

Lemma catfmt_ok s c fmt args t h : rep s c -> acquires h0 (sblk s :: rest) h -> Forall (fun x => is_byte x /\ x <> 0) fmt -> Forall arg_ok args ->
  render fmt args = Some t -> blen c + blen t < 2 ^ 31 ->
  yields (sdscatfmt s (fmt ++ [0]) args h) (fun '(r, h') => exists s', r = Some s' /\ rep s' (c ++ t) /\ acquires h0 (sblk s' :: rest) h').
Proof.
  intros Hr Ha Hf Hok Ht Hl. eapply yields_mono; [by eapply sdscatfmt_ok|]. intros [[s'|] h']; [intros [H1 H2]; by exists s'|intros [_ Hs]; by apply not_starved in Hs].
Qed.

Ltac fmt_bytes := repeat (constructor; [split; [unfold is_byte; lia|lia]|]); constructor.

Lemma cat_args_ok argv argvlen ws : passes argv argvlen ws -> Forall (Forall is_byte) ws -> forall l j c s h,
  drop j ws = l -> rep s c -> acquires h0 (sblk s :: rest) h -> blen (c ++ concat (map bulk l)) < 2 ^ 31 ->
  yields (cat_args (length l) j argv argvlen (Some s) h)
    (fun '(r, h') => exists s', r = Some s' /\ rep s' (c ++ concat (map bulk l)) /\ acquires h0 (sblk s' :: rest) h').
Proof.
  intros Hp Hby. induction l as [|w l IH]; intros j c s h Hl Hr Ha Hb; cbn [length cat_args map concat].
  { apply yields_Ret. exists s. by rewrite app_nil_r. }
  destruct (rest_at _ _ _ _ Hl) as [Hj Hl']. destruct (passes_at argv argvlen ws Hp _ _ Hj) as (a & Hat & -> & Hrd). cbn [cbind deref].
  cbn [map concat] in Hb. rewrite app_assoc in Hb |- *. rewrite bulk_eq in *. rewrite !blen_app in Hb. change (blen [36]) with 1 in Hb. change (blen [13; 10]) with 2 in Hb.
  pose proof (blen_nonneg w). pose proof (blen_nonneg c). pose proof (blen_nonneg (concat (map bulk l))). pose proof (blen_nonneg (dec (blen w))).
  unfold size_as_uint, u32. rewrite Z.mod_small by lia.
  eapply yields_bind; [apply (catfmt_ok s c [36; 37; 117; 13; 10] [AUnsigned (blen w)] ([36] ++ dec (blen w) ++ [13; 10])); [done|done|fmt_bytes| |done|]|].
  - constructor; [cbn; lia|constructor].
  - rewrite !blen_app. change (blen [36]) with 1. change (blen [13; 10]) with 2. lia.
  - intros [cmd1 h1] (s1 & -> & R1 & Ha1). cbn [fst snd deref cbind] in *. rewrite Hat. cbn [deref cbind].
    eapply yields_bind; [eapply (cat_ok s1 _ a (blen w) w); [done|done|done| |]|].
    + by eapply (Forall_lookup_1 _ _ _ _ Hby).
    + rewrite !blen_app. change (blen [36]) with 1. change (blen [13; 10]) with 2. lia.
    + intros [cmd2 h2] (s2 & -> & R2 & Ha2). cbn [fst snd deref cbind] in *.
      eapply yields_bind; [eapply (cat_ok s2 _ [13; 10; 0] 2 [13; 10]); [done|done|done|solve_bytes|]|].
      * rewrite !blen_app. change (blen [36]) with 1. change (blen [13; 10]) with 2. lia.
      * intros [cmd3 h3] (s3 & -> & R3 & Ha3). cbn [fst snd] in *. rewrite <- !(app_assoc c) in R3. rewrite <- !(app_assoc c).
        assert ((([36] ++ dec (blen w) ++ [13; 10]) ++ w) ++ [13; 10] = ([36] ++ dec (blen w) ++ [13; 10]) ++ w ++ [13; 10]) as E by (by rewrite <- !app_assoc).
        rewrite E in R3. rewrite app_assoc. apply IH; [done|done|done|]. rewrite !blen_app. change (blen [36]) with 1. change (blen [13; 10]) with 2. lia.
Qed.

Lemma sds_argv_ok argv argvlen ws h : passes argv argvlen ws -> Forall (Forall is_byte) ws -> acquires h0 rest h -> blen (command ws) < 2 ^ 31 ->
  yields (redisFormatSdsCommandArgv true (Z.of_nat (length ws)) argv argvlen h)
    (fun '(len, cmd, h') => len = blen (command ws) /\ exists s, cmd = Some s /\ rep s (command ws) /\ acquires h0 (sblk s :: rest) h').
Proof.
  intros Hp Hby Ha Hb. pose proof (command_count ws ltac:(lia)) as Hc. pose proof (dec_size (Z.of_nat (length ws)) ltac:(lia)).
  unfold redisFormatSdsCommandArgv. cbn [negb]. unfold u64 at 1. rewrite Z.mod_small by lia. rewrite countDigits_dec by lia. cbn [cbind].
  pose proof Hb as Hb'. rewrite blen_command in Hb'. pose proof (blen_nonneg (concat (map bulk ws))). unfold u32. rewrite Z.mod_small by lia. rewrite Nat2Z.id.
  rewrite (total_loop_ok argv argvlen ws Hp u64 (2 ^ 62)) by (done || lia || (intros; unfold u64; apply Z.mod_small; lia)). cbn [cbind]. rewrite <- blen_command.
  eapply yields_bind; [by apply (sdsempty_ok h0 rest)|]. intros [[s|] h1]; [|intros [_ Hs]; by apply not_starved in Hs]. intros [R1 Ha1].
  eapply yields_bind; [apply (sdsMakeRoomFor_ok 0 h0 rest s [] (blen (command ws))); [done|done|pose proof (blen_nonneg (command ws)); lia|rewrite blen_nil; lia]|].
  intros [[s1|] h2]; [|intros [_ Hs]; by apply not_starved in Hs]. intros [(R2 & _) Ha2].
  eapply yields_bind; [apply (catfmt_ok s1 [] [42; 37; 105; 13; 10] [AInt (Z.of_nat (length ws))] (head_text (Z.of_nat (length ws)))); [done|done|fmt_bytes| |done|]|].
  - constructor; [cbn; lia|constructor].
  - rewrite blen_nil, blen_head. lia.
  - intros [cmd h3] (s2 & -> & R3 & Ha3). cbn [fst snd app] in *. rewrite command_eq in Hb |- *.
    eapply yields_bind; [by apply (cat_args_ok argv argvlen ws Hp Hby ws 0)|]. intros [cmd h4] (s3 & -> & R4 & Ha4). cbn [fst snd deref cbind] in *.
    rewrite assert_eqb by apply (rep_len _ _ R4). cbn [cbind]. apply yields_Ret. rewrite i32_small by (pose proof (blen_nonneg (head_text (Z.of_nat (length ws)) ++ concat (map bulk ws))); lia).
    split; [done|]. by exists s3.
Qed.

End arrays_ok.

(** A command is an array of strings for the reader. *)
Lemma command_parsed ws x : blen (command ws) < 2 ^ 31 ->
  parse_resp REDIS_READER_MAX_ARRAY_ELEMENTS (command ws ++ x) = Done (RArray REDIS_REPLY_ARRAY (map (RText REDIS_REPLY_STRING) ws)) x.
Proof.
  intros Hb. pose proof (command_count ws Hb) as Hc. unfold command in *. apply parse_encode; [unfold blen in Hb; lia|]. apply writable_array. split; [done|].
  rewrite length_map. split; [unfold count_of; cbn; unfold REDIS_READER_MAX_ARRAY_ELEMENTS; lia|]. split; [done|].
  assert (Forall (fun w => blen w < 2 ^ 31) ws) as Hw.
  { fold (command ws) in Hb. rewrite blen_command in Hb. pose proof (blen_nonneg (dec (Z.of_nat (length ws)))).
    assert (blen (concat (map bulk ws)) < 2 ^ 31) as Hl by lia. clear -Hl. induction ws as [|w ws IH]; constructor; pose proof (concat_bulk_bound w ws).
    - pose proof (blen_nonneg (concat (map bulk ws))). lia.
    - apply IH. pose proof (blen_nonneg w). lia. }
  clear -Hw. induction Hw as [|w ws H _ IH]; constructor; [|done]. left. split; [done|lia].
Qed.

(** C33: [redisFormatCommandArgv] stores the command with exactly the arguments
    it is given, in a block of its size, or returns -1 when memory is short;
    [redisFormatSdsCommandArgv] makes the same text; the reader reads the
    arguments back from it, whatever follows. *)
Theorem command_argv {A : Allocator} {G : Garbage} {N : Ndebug} argv argvlen ws h : heap_ok h -> passes argv argvlen ws ->
  Forall (Forall is_byte) ws -> blen (command ws) < 2 ^ 31 - 1 ->
  yields (redisFormatCommandArgv true (Z.of_nat (length ws)) argv argvlen h) (fun res => no_memory h [] res \/ stored h [] ws res) /\
  ((forall n, grants n = true) -> yields (redisFormatSdsCommandArgv true (Z.of_nat (length ws)) argv argvlen h)
     (fun '(len, cmd, h') => len = blen (command ws) /\ exists s, cmd = Some s /\ rep s (command ws) /\ acquires h [sblk s] h')) /\
  (forall x, parse_resp REDIS_READER_MAX_ARRAY_ELEMENTS (command ws ++ x) = Done (RArray REDIS_REPLY_ARRAY (map (RText REDIS_REPLY_STRING) ws)) x).
Proof.
  intros Hh Hp Hw Hb. split; [|split].
  - apply argv_ok; [done|by apply acquires_nil|done].
  - intros Hm. apply sds_argv_ok; [done|done|done|by apply acquires_nil|lia].
  - intros x. apply command_parsed. lia.
Qed.

(** SET with a key and a binary value. *)
Definition set_words : list (list Z) := [text "SET"; text "key"; [0; 255; 13; 10]].

Definition start_heap : heap := mkHeap 0 ∅.

Lemma command_argv_witness :
  yields (@redisFormatCommandArgv plenty (fun _ _ => 0) false true 3 set_words (Some [3; 3; 4]) start_heap)
    (fun res => @no_memory plenty start_heap [] _ res \/ stored start_heap [] set_words res) /\
  ((forall n, @grants plenty n = true) -> yields (@redisFormatSdsCommandArgv plenty (fun _ _ => 0) false true 3 set_words (Some [3; 3; 4]) start_heap)
     (fun '(len, cmd, h') => len = blen (command set_words) /\ exists s, cmd = Some s /\ rep s (command set_words) /\ acquires start_heap [sblk s] h')) /\
  (forall x, parse_resp REDIS_READER_MAX_ARRAY_ELEMENTS (command set_words ++ x) =
     Done (RArray REDIS_REPLY_ARRAY (map (RText REDIS_REPLY_STRING) set_words)) x).
Proof.
  apply (@command_argv plenty (fun _ _ => 0) false set_words (Some [3; 3; 4]) set_words start_heap).
  - intros b Hb. by apply not_elem_of_empty in Hb.
  - split; [done|]. repeat constructor; by exists [].
  - apply pieces_decided. reflexivity.
  - done.
Defined.
