(* ===== verification/Format.v ===== *)
(** * The meaning of a command format

    [meaning] splits a format into the arguments it stands for;
    [redisvFormatCommand] stores the command with these arguments, or reports
    that the format is not one or that memory is short, and leaves no block
    behind. *)

From stdpp Require Import gmap.
From Stdlib Require Import SpecFloat String.
From S2P Require Import Prelude Cstdlib Heap Sds SdsText Reader Resp Command CommandProof.

#[local] Open Scope Z_scope.
#[local] Set Warnings "-clear-no-such-hyp".
#[local] Arguments cbind {A B} !m k /.

(** ** The specification *)

Fixpoint drop_while (P : Z -> bool) (l : list Z) : list Z :=
  match l with
  | c :: l' => if P c then drop_while P l' else l
  | [] => []
  end.

(** The conversions of an integer and of a double, and the flags (C11,
    7.21.6.1). *)
Definition among (set : string) (c : Z) : bool := bool_decide (c ∈ text set).
Definition int_conversion : Z -> bool := among "diouxX".
Definition double_conversion : Z -> bool := among "eEfFgGaA".
Definition flag : Z -> bool := among "#0-+ ".

Definition int_char (l : list Z) (t : va_type) : option (va_type * list Z) :=
  match l with
  | c :: l => if int_conversion c then Some (t, l) else None
  | [] => None
  end.

(** [h], [l] or the same twice before an integer conversion. *)
Definition modified (b : Z) (twice once : va_type) (l : list Z) : option (va_type * list Z) :=
  match l with
  | x :: l' => if x =? b then int_char l' twice else int_char l once
  | [] => None
  end.

(** A conversion behind its flags, width and precision: the type of its
    argument and the text behind it. *)
Definition conv_char (l : list Z) : option (va_type * list Z) :=
  match l with
  | [] => None
  | c :: l =>
      if int_conversion c then Some (Int, l)
      else if double_conversion c then Some (Double, l)
      else if c =? 104 then modified 104 Int Int l
      else if c =? 108 then modified 108 LongLong Long l
      else None
  end.

(** A precision is skipped. *)
Definition drop_precision (l : list Z) : list Z :=
  match l with
  | c :: l' => if c =? 46 then drop_while isdigit l' else l
  | [] => []
  end.

(** Flags, width and precision of a conversion are skipped. *)
Definition conv_flags (l : list Z) : list Z := drop_precision (drop_while isdigit (drop_while flag l)).

(** The next variable argument, when it has the type. *)
Definition next_arg (t : va_type) (args : list va) : option (va * list va) :=
  match args with
  | VInt z :: args => match t with Int => Some (VInt z, args) | _ => None end
  | VLong z :: args => match t with Long => Some (VLong z, args) | _ => None end
  | VLongLong z :: args => match t with LongLong => Some (VLongLong z, args) | _ => None end
  | VDouble d :: args => match t with Double => Some (VDouble d, args) | _ => None end
  | _ => None
  end.

(** The arguments, a format that is not one, or something else that the
    caller must not do: arguments of other types, a conversion that is cut
    off by the end or has 14 characters or more, a command beyond the range of
    [int]. *)
Inductive meant : Type :=
| Words (ws : list (list Z))
| Not_format
| Outside.

Section meaning.
Context (printed : list Z -> va -> list Z).

(** What the characters behind a percent sign stand for: a text, the format
    and the arguments behind it. *)
Inductive substituted : Type :=
| Subst (t l : list Z) (args : list va)
| Invalid
| Undefined.

Definition substitute (l : list Z) (args : list va) : substituted :=
  match l with
  | [] => Undefined
  | n :: l' =>
      if n =? 115 then
        match args with
        | VStr p :: args => if bool_decide (0 ∈ p) then Subst (cstr p) l' args else Undefined
        | _ => Undefined
        end
      else if n =? 98 then
        match args with
        | VStr p :: VSize n :: args => if (0 <=? n) && (n <=? blen p) then Subst (take (Z.to_nat n) p) l' args else Undefined
        | _ => Undefined
        end
      else if n =? 37 then Subst [37] l' args
      else if bool_decide (conv_flags l = []) then Undefined
      else
        match conv_char (conv_flags l) with
        | None => Invalid
        | Some (t, rest) =>
            match next_arg t args with
            | Some (a, args) =>
                let conv := 37 :: take (length l - length rest) l in
                if blen conv <? 14 then Subst (printed conv a) rest args else Undefined
            | None => Undefined
            end
        end
  end.

(** [cur] is the current argument, [ds] are those before it. *)
Fixpoint words (fuel : nat) (l : list Z) (args : list va) (cur : list Z) (touched : bool) (ds : list (list Z)) : meant :=
  match fuel with
  | O => Outside
  | S f =>
      if 2 ^ 31 - 64 <=? blen (command (ds ++ [cur])) then Outside
      else
        match l with
        | [] => Words (ds ++ if touched then [cur] else [])
        | c :: l =>
            if (c =? 37) && negb (bool_decide (l = [])) then
              match substitute l args with
              | Subst t l args => words f l args (cur ++ t) true ds
              | Invalid => Not_format
              | Undefined => Outside
              end
            else if c =? 32 then
              if touched then words f l args [] false (ds ++ [cur]) else words f l args cur touched ds
            else words f l args (cur ++ [c]) true ds
        end
  end.

(** Every round takes a character. *)
Definition meaning (l : list Z) (args : list va) : meant := words (S (length l)) l args [] false [].

(** The arguments that a caller may pass. *)
Definition va_ok (a : va) : Prop := match a with VStr p => Forall is_byte p | _ => True end.

End meaning.

Definition print_int (f : list Z) (a : va) : list Z := match a with VInt z => dec z | _ => [] end.

Example meaning_set : meaning print_int (text "SET k%d  %b") [VInt 12; VStr [1; 0; 2; 3]; VSize 3] = Words [text "SET"; text "k12"; [1; 0; 2]].
Proof. vm_compute. reflexivity. Qed.

Example meaning_empty : meaning print_int (text "GET %s") [VStr [0]] = Words [text "GET"; []].
Proof. vm_compute. reflexivity. Qed.

Example meaning_not : meaning print_int (text "GET %q") [] = Not_format.
Proof. vm_compute. reflexivity. Qed.

(** ** The tables of the code *)

Lemma in_set_among set c : 0 ∉ text set -> c <> 0 -> in_set (text set ++ [0]) c = among set c.
Proof.
  intros H0 Hc. unfold in_set, among. rewrite cstr_nul by done. destruct (Z.eqb_spec c 0); [done|]. apply orb_false_r.
Qed.

Lemma int_set c : c <> 0 -> in_set intfmts c = int_conversion c.
Proof. apply in_set_among. by apply (bool_decide_unpack _). Qed.

Lemma double_set c : c <> 0 -> in_set dblfmts c = double_conversion c.
Proof. apply in_set_among. by apply (bool_decide_unpack _). Qed.

Lemma flag_set l : 0 ∉ l -> drop_while (in_set flag_chars) l = drop_while flag l.
Proof.
  induction l as [|c l IH]; [done|]. rewrite not_elem_of_cons. intros [Hc Hl]. cbn [drop_while].
  assert (in_set flag_chars c = flag c) as -> by (apply in_set_among; [by apply (bool_decide_unpack _)|done]).
  by rewrite IH.
Qed.

Lemma va_take_next t args : va_take t args = match next_arg t args with Some r => Ret r | None => Oob end.
Proof. by destruct t, args as [|[] ?]. Qed.

(** ** Reading a conversion *)

Section scan.
Context (fmt r : list Z).
#[local] Abbreviation at_text p l := (at_pos fmt p (l ++ 0 :: r)).

Lemma at_text_rd p l : at_text p l -> rd fmt p = Ret (follows l).
Proof. destruct l; apply at_pos_rd. Qed.

Lemma at_text_next p c l : at_text p (c :: l) -> at_text (p + 1) l.
Proof. apply at_pos_next. Qed.

Lemma follows_nonzero l : 0 ∉ l -> (follows l =? 0) = bool_decide (l = []).
Proof.
  intros H. destruct l as [|c l]; [done|]. cbn [follows]. rewrite bool_decide_false by done. apply Z.eqb_neq. intros ->. apply H. by left.
Qed.

Lemma skip_while_ok P l : forall fuel p, (length l < fuel)%nat -> 0 ∉ l -> at_text p l ->
  exists p', skip_while fmt P fuel p = Ret p' /\ at_text p' (drop_while P l).
Proof.
  induction l as [|c l IH]; intros fuel p Hf H0 Hp; (destruct fuel as [|fuel]; [cbn in Hf; lia|]); cbn [skip_while drop_while];
    rewrite (at_text_rd _ _ Hp); cbn [cbind follows].
  - by exists p.
  - apply not_elem_of_cons in H0 as [Hc H0]. destruct (Z.eqb_spec c 0); [congruence|]. cbn [negb andb]. destruct (P c); [|by exists p].
    cbn [length] in Hf. apply IH; [lia|done|]. by apply at_text_next in Hp.
Qed.

Lemma skip_run_ok P p l : 0 ∉ l -> at_text p l -> exists p', skip_run fmt P p = Ret p' /\ at_text p' (drop_while P l).
Proof.
  intros H0 Hp. apply skip_while_ok; [|done|done]. apply at_pos_len in Hp as Hlen. rewrite blen_app, blen_cons in Hlen. destruct Hp as [Hi _].
  pose proof (blen_nonneg r). unfold blen in *. lia.
Qed.

Lemma drop_while_suffix P l : exists a, l = a ++ drop_while P l.
Proof.
  induction l as [|c l [a IH]]; [by exists []|]. cbn [drop_while]. destruct (P c); [|by exists []]. exists (c :: a). cbn [app]. by f_equal.
Qed.

Lemma drop_precision_suffix l : exists a, l = a ++ drop_precision l.
Proof.
  destruct l as [|c l]; [by exists []|]. cbn [drop_precision]. destruct (c =? 46); [|by exists []].
  destruct (drop_while_suffix isdigit l) as [a Ea]. exists (c :: a). cbn [app]. by f_equal.
Qed.

Lemma conv_flags_suffix l : exists a, l = a ++ conv_flags l.
Proof.
  unfold conv_flags. destruct (drop_while_suffix flag l) as [a Ea]. set (l1 := drop_while _ l) in *.
  destruct (drop_while_suffix isdigit l1) as [b Eb]. set (l2 := drop_while isdigit l1) in *.
  destruct (drop_precision_suffix l2) as [x Ex]. exists (a ++ b ++ x). rewrite <- !app_assoc. by rewrite <- Ex, <- Eb.
Qed.

(** A position behind the flags, width and precision. *)
Lemma conv_flags_ok p l : 0 ∉ l -> at_text p l -> exists p',
  (let! p := skip_run fmt (in_set flag_chars) p in
   let! p := skip_run fmt isdigit p in
   let! d := rd fmt p in
   if d =? 46 then skip_run fmt isdigit (p + 1) else Ret p) = Ret p' /\ at_text p' (conv_flags l).
Proof.
  intros H0 Hp. unfold conv_flags. destruct (skip_run_ok (in_set flag_chars) p l H0 Hp) as (p1 & -> & Hp1). cbn [cbind].
  rewrite flag_set in Hp1 by done. destruct (drop_while_suffix flag l) as [a Ea]. set (l1 := drop_while _ l) in *.
  assert (0 ∉ l1) as H1 by (rewrite Ea in H0; intros ?; apply H0, elem_of_app; by right).
  destruct (skip_run_ok isdigit p1 l1 H1 Hp1) as (p2 & -> & Hp2). cbn [cbind].
  destruct (drop_while_suffix isdigit l1) as [b Eb]. set (l2 := drop_while isdigit l1) in *.
  assert (0 ∉ l2) as H2 by (rewrite Eb in H1; intros ?; apply H1, elem_of_app; by right). rewrite (at_text_rd _ _ Hp2). cbn [cbind].
  destruct l2 as [|c l3]; [by exists p2|]. cbn [follows drop_precision]. destruct (c =? 46); [|by exists p2].
  apply skip_run_ok; [|by apply at_text_next in Hp2]. intros ?; apply H2. by right.
Qed.

Definition conv_found (o : option (va_type * Z)) (s : option (va_type * list Z)) : Prop :=
  match o, s with
  | Some (t, p), Some (t', l) => t = t' /\ at_text (p + 1) l
  | None, None => True
  | _, _ => False
  end.

Lemma sized_ok t p l : 0 ∉ l -> at_text p l -> exists o, sized fmt t p = Ret o /\ conv_found o (int_char l t).
Proof.
  intros H0 Hp. unfold sized. rewrite (at_text_rd _ _ Hp). cbn [cbind]. eexists. split; [reflexivity|].
  rewrite follows_nonzero by done. destruct l as [|c l]; [done|]. rewrite bool_decide_false by done. cbn [negb andb follows int_char].
  apply not_elem_of_cons in H0 as [Hc0 _]. rewrite int_set by done. destruct (int_conversion c); [|done]. split; [done|]. by apply at_text_next in Hp.
Qed.

Lemma modified_ok b twice once p l : b <> 0 -> 0 ∉ l -> at_text (p + 1) l ->
  exists o, (let! c := rd fmt (p + 1) in if c =? b then sized fmt twice (p + 2) else sized fmt once (p + 1)) = Ret o /\
    conv_found o (modified b twice once l).
Proof.
  intros Hb H0 Hp. rewrite (at_text_rd _ _ Hp). cbn [cbind]. destruct l as [|x l]; cbn [follows modified].
  - destruct (Z.eqb_spec 0 b); [congruence|]. by apply (sized_ok once (p + 1) []).
  - destruct (x =? b); [|by apply sized_ok]. apply not_elem_of_cons in H0 as [_ H0]. apply sized_ok; [done|].
    apply at_text_next in Hp. by replace (p + 2) with (p + 1 + 1) by lia.
Qed.

Lemma conversion_ok p l : 0 ∉ l -> l <> [] -> at_text p l -> exists o, conversion fmt p = Ret o /\ conv_found o (conv_char l).
Proof.
  intros H0 Hl Hp. unfold conversion. rewrite (at_text_rd _ _ Hp). cbn [cbind]. destruct l as [|c l]; [done|]. cbn [follows conv_char].
  apply not_elem_of_cons in H0 as [Hc0 H0]. pose proof (at_text_next _ _ _ Hp) as Hp1. rewrite int_set, double_set by done.
  destruct (int_conversion c); [by eexists|]. destruct (double_conversion c); [by eexists|].
  destruct (Z.eqb_spec c 104); [by apply modified_ok|]. destruct (Z.eqb_spec c 108); [by apply modified_ok|]. by eexists.
Qed.

End scan.

Lemma conv_char_suffix l t l' : conv_char l = Some (t, l') -> exists a, l = a ++ l'.
Proof.
  assert (forall l t0, int_char l t0 = Some (t, l') -> exists a, l = a ++ l') as Hi.
  { intros [|c l0] t0; cbn [int_char]; [done|]. destruct (int_conversion c); [|done]. intros [= _ <-]. by exists [c]. }
  assert (forall b t1 t2 l, modified b t1 t2 l = Some (t, l') -> exists a, l = a ++ l') as Hm.
  { intros b t1 t2 [|x l0]; cbn [modified]; [done|]. destruct (x =? b); [|apply Hi]. intros [a ->]%Hi. by exists (x :: a). }
  destruct l as [|c l]; cbn [conv_char]; [done|].
  destruct (int_conversion c); [intros [= _ <-]; by exists [c]|]. destruct (double_conversion c); [intros [= _ <-]; by exists [c]|].
  destruct (c =? 104); [intros [a ->]%Hm; by exists (c :: a)|]. destruct (c =? 108); [intros [a ->]%Hm; by exists (c :: a)|done].
Qed.

(** ** A percent sign *)

Section loop.
Context {A : Allocator} {G : Garbage} {N : Ndebug} (h0 : heap).
Context (printed : list Z -> va -> list Z) (fmt r : list Z).
Hypothesis Hprinted : forall f a, Forall (fun x => is_byte x /\ x <> 0) (printed f a).
#[local] Abbreviation at_text p l := (at_pos fmt p (l ++ 0 :: r)).

(** The argument with the text, or a refused allocation. *)
Definition replaced (cur t l : list Z) (args : list va) (s : sds) (bs : list Z) (res : option (option sds * Z * list va) * heap) : Prop :=
  match res with
  | (Some (Some s', c, args'), h) => args' = args /\ rep s' (cur ++ t) /\ acquires h0 (sblk s' :: bs) h /\ at_text (c + 2) l
  | (Some (None, _, _), h) => acquires h0 (sblk s :: bs) h /\ starved
  | (None, _) => False
  end.

Definition interpolated (cur l : list Z) (args : list va) (s : sds) (bs : list Z) (res : option (option sds * Z * list va) * heap) : Prop :=
  match substitute printed l args with
  | Subst t l args => replaced cur t l args s bs res
  | Invalid => exists h, res = (None, h) /\ acquires h0 (sblk s :: bs) h
  | Undefined => False
  end.

(** Appending [t] to the current argument. *)
Lemma append_ok (m : comp (option sds * heap)) cur t l args s bs c : yields m (outcome h0 (sblk s) bs (fun s' => rep s' (cur ++ t))) -> at_text (c + 2) l ->
  yields (let! '(s, h) := m in Ret (Some (s, c, args), h)) (replaced cur t l args s bs).
Proof.
  intros Hm Hc. eapply yields_bind; [exact Hm|]. intros [[s'|] h'] Ho; apply yields_Ret; cbn; [|done].
  destruct Ho as [H1 H2]. done.
Qed.

Lemma unless_empty s t p size h bs cur : rep s cur -> acquires h0 (sblk s :: bs) h -> rd_block p 0 size = Ret t -> Forall is_byte t -> blen cur + blen t < 2 ^ 63 ->
  yields (if 0 <? size then sdscatlen s p size h else Ret (Some s, h)) (outcome h0 (sblk s) bs (fun s' => rep s' (cur ++ t))).
Proof.
  intros Hr Ha Ht Hb Hl. pose proof (blen_rd_block _ _ _ _ Ht) as Hn. destruct (Z.ltb_spec 0 size); [apply sdscatlen_ok; (done || lia)|].
  apply yields_Ret. destruct t; [by rewrite app_nil_r|rewrite blen_cons in Hn; pose proof (blen_nonneg t); lia].
Qed.

Lemma printf_arg_ok c l args s h bs cur : at_text c (37 :: l) -> 0 ∉ l -> rep s cur -> acquires h0 (sblk s :: bs) h ->
  (match l with n :: _ => (n =? 115) = false /\ (n =? 98) = false /\ (n =? 37) = false | [] => False end) ->
  substitute printed l args <> Undefined -> (forall t l' args', substitute printed l args = Subst t l' args' -> blen cur + blen t < 2 ^ 60) ->
  yields (printf_arg printed fmt c args s h) (interpolated cur l args s bs).
Proof.
  intros Hc H0 Hr Ha Hn Hu Hb. unfold interpolated. destruct l as [|n l0]; [done|]. destruct Hn as (E1 & E2 & E3). set (l := n :: l0) in *.
  assert (substitute printed l args = if bool_decide (conv_flags l = []) then Undefined
    else match conv_char (conv_flags l) with
         | None => Invalid
         | Some (t, rest) => match next_arg t args with
             | Some (a, args) => let conv := 37 :: take (length l - length rest) l in
                 if blen conv <? 14 then Subst (printed conv a) rest args else Undefined
             | None => Undefined end end) as Es by (subst l; cbn [substitute]; by rewrite E1, E2, E3).
  rewrite Es in *. clear Es. pose proof (at_text_next _ _ _ _ _ Hc) as Hc1. unfold printf_arg.
  destruct (conv_flags_ok fmt r (c + 1) l H0 Hc1) as (p & Ep & Hp). destruct (conv_flags_suffix l) as [a Ea].
  case_bool_decide as Hnil; [done|]. 
  assert (0 ∉ conv_flags l) as H0c by (rewrite Ea in H0; intros ?; apply H0, elem_of_app; by right).
  destruct (conversion_ok fmt r p _ H0c Hnil Hp) as (o & Eo & Ho).
  assert (forall k : Z -> comp (option (option sds * Z * list va) * heap),
    (let! p := skip_run fmt (in_set flag_chars) (c + 1) in let! p := skip_run fmt isdigit p in let! d := rd fmt p in
     let! p := if d =? 46 then skip_run fmt isdigit (p + 1) else Ret p in k p) = k p) as Ek.
  { intros k. revert Ep. destruct (skip_run fmt _ (c + 1)) as [p1| |]; [|done..]. cbn [cbind]. destruct (skip_run fmt isdigit p1) as [p2| |]; [|done..]. cbn [cbind].
    destruct (rd fmt p2) as [d| |]; [|done..]. cbn [cbind]. intros ->. done. }
  rewrite Ek, Eo. cbn [cbind]. clear Ek Ep Eo. destruct (conv_char (conv_flags l)) as [[t rest]|] eqn:Ec, o as [[t' p2]|]; cbn [conv_found] in Ho; try done.
  2: { apply yields_Ret. by exists h. }
  destruct Ho as [-> Hp2]. destruct (conv_char_suffix _ _ _ Ec) as [a2 Ea2].
  rewrite va_take_next. destruct (next_arg t args) as [[v args']|]; [|done]. cbn [cbind]. rewrite Ea2, app_assoc in Ea.
  assert (take (length l - length rest) l = a ++ a2) as Et.
  { rewrite Ea, (length_app _ rest), Nat.add_sub. apply take_app_length. }
  assert (p2 + 1 = c + blen (37 :: a ++ a2)) as Ep2.
  { apply at_pos_len in Hc, Hp2. rewrite Hc in Hp2. rewrite Ea in Hp2. cbn [app] in Hp2. rewrite !blen_cons, <- !app_assoc, !blen_app in Hp2. rewrite blen_cons, blen_app. lia. }
  rewrite Et. cbn zeta. rewrite Ep2, Z.add_simpl_l. rewrite Et in Hb, Hu. cbn zeta in Hb, Hu. destruct (Z.ltb_spec (blen (37 :: a ++ a2)) 14) as [Hlt|Hge].
  - rewrite (at_pos_block fmt c (37 :: a ++ a2) (rest ++ 0 :: r)) by (by rewrite Ea, app_comm_cons, <- (app_assoc (37 :: a ++ a2)) in Hc).
    cbn [cbind]. rewrite cstr_nul.
    + apply append_ok; [|replace (p2 - 1 + 2) with (p2 + 1) by lia; by rewrite Ep2 in Hp2 |- *].
      pose proof (blen_nonneg (37 :: a ++ a2)). apply sdscatprintf_ok; [done|done|lia|apply Hprinted|]. specialize (Hb _ _ _ eq_refl). lia.
    + rewrite Ea in H0. rewrite not_elem_of_cons. split; [done|]. intros ?; apply H0, elem_of_app. by left.
  - done.
Qed.

Lemma interpolate_ok c l args s h bs cur : at_text c (37 :: l) -> 0 ∉ l -> l <> [] -> rep s cur -> acquires h0 (sblk s :: bs) h ->
  Forall va_ok args -> substitute printed l args <> Undefined -> (forall t l' args', substitute printed l args = Subst t l' args' -> blen cur + blen t < 2 ^ 60) ->
  yields (interpolate printed fmt c args s h) (interpolated cur l args s bs).
Proof.
  intros Hc H0 Hl Hr Ha Hok Hu Hb. pose proof (at_text_next _ _ _ _ _ Hc) as Hc1. unfold interpolate. rewrite (at_text_rd _ _ _ _ Hc1). cbn [cbind].
  destruct l as [|n l]; [done|]. cbn [follows].
  assert (at_text (c + 2) l) as Hc2 by (apply at_text_next in Hc1; by replace (c + 2) with (c + 1 + 1) by lia).
  destruct (n =? 115) eqn:E1; [|destruct (n =? 98) eqn:E2; [|destruct (n =? 37) eqn:E3; [|by apply printf_arg_ok]]]; unfold interpolated;
    cbn [substitute] in Hu, Hb |- *; rewrite ?E1, ?E2, ?E3 in *.
  - destruct args as [|[p|n0|z|z|z|d] args]; try done. case_bool_decide as Hp; [|done]. apply Forall_cons in Hok as [Hok _]. cbn in Hok.
    destruct (strlen_ok p Hp) as [-> Hrd]. cbn [cbind]. apply append_ok; [|done]. specialize (Hb _ _ _ eq_refl).
    apply unless_empty; [done|done|done|by apply cstr_bytes|lia].
  - destruct args as [|[p|n0|z|z|z|d] [|[p1|n1|z1|z1|z1|d1] args]]; try done. destruct ((0 <=? n1) && (n1 <=? blen p)) eqn:Ep; [|done].
    apply andb_prop in Ep as [Ep1%Z.leb_le Ep2%Z.leb_le]. apply Forall_cons in Hok as [Hok _]. cbn in Hok. specialize (Hb _ _ _ eq_refl).
    apply append_ok; [|done]. apply unless_empty; [done|done| |by apply Forall_take|lia]. rewrite rd_block_in_bounds by lia. done.
  - specialize (Hb _ _ _ eq_refl). apply append_ok; [|done]. change [37] with (cstr [37; 0]). apply sdscat_ok; [done|done|by (right; left)|solve_bytes|cbn in *; lia].
Qed.

(** The arguments of the format that are left are those of the caller. *)
Lemma substitute_args l args t l' args' : substitute printed l args = Subst t l' args' -> Forall va_ok args -> Forall va_ok args'.
Proof.
  assert (forall t0 a args2, next_arg t0 args = Some (a, args2) -> Forall va_ok args -> Forall va_ok args2) as Hv.
  { intros t0 a args2 H Hok. destruct t0, args as [|[] args]; try done; cbn in H; injection H as <- <-; by apply Forall_cons in Hok as [_ Hok]. }
  destruct l as [|n l]; cbn [substitute]; [done|]. repeat case_match; intros; simplify_eq; try done;
    repeat match goal with H : Forall va_ok (_ :: _) |- _ => apply Forall_cons in H as [_ H] end; eauto.
Qed.

(** The text behind a substitution is part of the text. *)
Lemma substitute_rest l args t l' args' : substitute printed l args = Subst t l' args' -> exists a, l = a ++ l'.
Proof.
  destruct l as [|n l]; cbn [substitute]; [done|]. intros H.
  assert (forall l2 t0, conv_char (conv_flags (n :: l)) = Some (t0, l2) -> exists a, n :: l = a ++ l2) as Hs.
  { intros l2 t0 Hc. destruct (conv_flags_suffix (n :: l)) as [a Ea]. apply conv_char_suffix in Hc as [a2 E2]. exists (a ++ a2). by rewrite <- app_assoc, <- E2. }
  repeat case_match; simplify_eq; first [by exists [n]|by eapply Hs|done].
Qed.

(** ** The arguments so far *)

Definition args_state (v : Command.argv) (ds : list (list Z)) : Prop :=
  Forall2 rep (vargs v) ds /\ vtot v = blen (concat (map bulk ds)) /\ (vblk v = None -> vargs v = []).

Definition owned (v : Command.argv) : list Z := opt_blk (vblk v) ++ map sblk (vargs v).

Definition limit : Z := 2 ^ 31 - 64.

Lemma command_app ds cur : blen (concat (map bulk ds)) + blen (bulk cur) <= blen (command (ds ++ [cur])) /\ blen cur + 5 <= blen (bulk cur).
Proof.
  split; [|apply blen_bulk]. rewrite blen_command, map_app, concat_app. cbn [map concat]. rewrite app_nil_r, blen_app.
  pose proof (blen_nonneg (dec (Z.of_nat (length (ds ++ [cur]))))). lia.
Qed.

Lemma end_arg_ok v ds s cur h : args_state v ds -> rep s cur -> acquires h0 (sblk s :: owned v) h -> blen (command (ds ++ [cur])) < limit ->
  yields (end_arg v s h) (fun '(ok, v', h') =>
    if ok : bool then args_state v' (ds ++ [cur]) /\ acquires h0 (owned v') h' /\ vblk v' <> None
    else v' = v /\ acquires h0 (sblk s :: owned v) h' /\ starved).
Proof.
  intros (Hv & Ht & Hn) Hr Ha Hl. destruct (command_app ds cur) as [Hb1 Hb2]. unfold limit in Hl. pose proof (blen_nonneg cur).
  pose proof (count_bulks ds) as Hc. pose proof (Forall2_length _ _ _ Hv) as Hlen. pose proof (blen_nonneg (bulk cur)). pose proof (blen_nonneg (concat (map bulk ds))).
  unfold end_arg, signed. rewrite Hlen. change (2 ^ (32 - 1)) with (2 ^ 31).
  destruct (Z.leb_spec (- 2 ^ 31) (Z.of_nat (length ds) + 1)); [|lia]. destruct (Z.ltb_spec (Z.of_nat (length ds) + 1) (2 ^ 31)); [|lia]. cbn [andb cbind].
  eapply (yields_bind (fun '(b, h') =>
    match b with
    | Some b => acquires h0 (b :: map sblk (vargs v ++ [s])) h'
    | None => acquires h0 (sblk s :: owned v) h' /\ starved
    end)).
  - assert (sblk s :: map sblk (vargs v) ≡ₚ map sblk (vargs v ++ [s])) as Ep by (rewrite map_app; cbn [map]; apply Permutation_cons_append).
    unfold owned in *. destruct (vblk v) as [b|]; cbn [opt_blk app] in *.
    + eapply yields_mono; [eapply (realloc_first h0 b (map sblk (vargs v ++ [s]))); eapply acquires_perm; [|exact Ha]; by rewrite perm_swap, Ep|].
      intros [[b'|] h']; [done|]. intros [Ha' Hs]. split; [|done]. eapply acquires_perm; [|exact Ha']. by rewrite <- Ep, perm_swap.
    + apply yields_Ret. pose proof (malloc_more h0 _ _ Ha) as Hm. destruct (malloc h) as [[b|] h']; [|done].
      eapply acquires_perm; [|exact Hm]. by rewrite Ep.
  - intros [[b|] h'] Hb; [|apply yields_Ret; by destruct Hb]. rewrite (rep_len _ _ Hr), bulklen_ok by lia. cbn [cbind]. apply yields_Ret.
    rewrite Ht. unfold u64. rewrite Z.mod_small, i32_small by lia. split; [|split; [|done]].
    + split; [cbn; apply Forall2_app; [done|by constructor]|]. split; [|done]. cbn [vtot]. rewrite map_app, concat_app. cbn [map concat]. by rewrite app_nil_r, blen_app.
    + by unfold owned; cbn [vblk opt_blk vargs app].
Qed.

Lemma format_cleanup_ok v ds s h : args_state v ds -> acquires h0 (arg_block s ++ owned v) h -> yields (format_cleanup v s h) (acquires h0 []).
Proof.
  intros (_ & _ & Hn) Ha. unfold format_cleanup, owned in *. eapply (yields_bind (acquires h0 (arg_block s))).
  - destruct (vblk v) as [b|]; cbn [opt_blk app] in Ha.
      eapply (free_tokens h0 (rev (vargs v)) b (arg_block s)). eapply acquires_perm; [|exact Ha].
      rewrite map_rev, <- Permutation_rev, Permutation_app_comm. done.
    + apply yields_Ret. rewrite (Hn eq_refl) in Ha. cbn in Ha. by rewrite app_nil_r in Ha.
  - intros h1 H1. destruct s as [s|]; cbn [sdsfree arg_block] in *; [by apply free_first|by apply yields_Ret].
Qed.

(** ** The loop *)

Definition parsed_ok (m : meant) (res : parsed) : Prop :=
  let '(e, s', touched, v, h) := res in
  acquires h0 (arg_block s' ++ owned v) h /\
  exists ds, args_state v ds /\
    ((e = -1 /\ starved) \/ (e = -2 /\ m = Not_format) \/
     (e = 0 /\ exists s cur, s' = Some s /\ rep s cur /\ m = Words (ds ++ if touched : bool then [cur] else []) /\ blen (command (ds ++ [cur])) < limit)).

Lemma words_bound f l args cur touched ds : words printed f l args cur touched ds <> Outside -> blen (command (ds ++ [cur])) < limit.
Proof. destruct f as [|f]; cbn [words]; [done|]. unfold limit. by destruct (Z.leb_spec (2 ^ 31 - 64) (blen (command (ds ++ [cur])))). Qed.

Lemma words_cons f c l args cur touched ds : words printed (S f) (c :: l) args cur touched ds <> Outside ->
  words printed (S f) (c :: l) args cur touched ds =
    if (c =? 37) && negb (bool_decide (l = [])) then
      match substitute printed l args with
      | Subst t l args => words printed f l args (cur ++ t) true ds
      | Invalid => Not_format
      | Undefined => Outside
      end
    else if c =? 32 then
      if touched then words printed f l args [] false (ds ++ [cur]) else words printed f l args cur touched ds
    else words printed f l args (cur ++ [c]) true ds.
Proof. cbn [words]. by destruct (2 ^ 31 - 64 <=? _). Qed.

Lemma current_bound f l args cur touched ds : words printed f l args cur touched ds <> Outside -> blen cur < 2 ^ 31.
Proof. intros H%words_bound. unfold limit in H. destruct (command_app ds cur). pose proof (blen_nonneg (concat (map bulk ds))). lia. Qed.

Lemma format_loop_ok f1 : forall l f2 c args s cur touched v ds h, at_text c l -> 0 ∉ l -> Forall is_byte l -> rep s cur -> args_state v ds ->
  acquires h0 (sblk s :: owned v) h -> Forall va_ok args -> (f1 <= f2)%nat -> words printed f1 l args cur touched ds <> Outside ->
  yields (format_loop printed fmt f2 c args s touched v h) (parsed_ok (words printed f1 l args cur touched ds)).
Proof.
  induction f1 as [|f1 IH]; intros l f2 c args s cur touched v ds h Hc H0 Hl Hr Hv Ha Hok Hf Hm; [done|]. destruct f2 as [|f2]; [lia|].
  pose proof (words_bound _ _ _ _ _ _ Hm) as Hb. cbn [format_loop]. rewrite (at_text_rd _ _ _ _ Hc). cbn [cbind]. rewrite follows_nonzero by done.
  destruct l as [|b l].
  { rewrite bool_decide_true by done. apply yields_Ret. split; [done|]. exists ds. split; [done|]. right. right. split; [done|]. exists s, cur.
    split; [done|]. split; [done|]. split; [|done]. cbn [words] in *. by destruct (2 ^ 31 - 64 <=? _). }
  rewrite bool_decide_false by done. cbn [follows]. pose proof (at_text_next _ _ _ _ _ Hc) as Hc1. rewrite words_cons in Hm |- * by done.
  apply not_elem_of_cons in H0 as [Hb0 H0]. apply Forall_cons in Hl as [Hlb Hl].
  assert ((let! plain := if b =? 37 then let! n := rd fmt (c + 1) in Ret (n =? 0) else Ret true in Ret plain) = Ret (negb ((b =? 37) && negb (bool_decide (l = []))))) as Ep.
  { destruct (b =? 37); [|done]. rewrite (at_text_rd _ _ _ _ Hc1). cbn [cbind]. rewrite follows_nonzero by done. by destruct (bool_decide (l = [])). }
  destruct (if b =? 37 then _ else _) as [plain| |]; cbn [cbind] in Ep |- *; [|done..]. injection Ep as ->.
  destruct ((b =? 37) && negb (bool_decide (l = []))) eqn:E; cbn [negb].
  - apply andb_prop in E as [->%Z.eqb_eq Hl0]. apply negb_true_iff, bool_decide_eq_false in Hl0.
    eapply yields_bind; [apply (interpolate_ok c l args s h (owned v) cur); try done|].
    + intros Hu. by rewrite Hu in Hm.
    + intros t l' args' Es. rewrite Es in Hm. apply current_bound in Hm. rewrite blen_app in Hm. lia.
    + unfold interpolated. intros res Hres. destruct (substitute printed l args) as [t l' args'| |] eqn:Es; [|destruct Hres as (h1 & -> & H1)|done].
      * destruct res as [[[[[s1|] c1] args1]|] h1]; cbn [replaced] in Hres; [| |done].
        -- destruct Hres as (-> & R1 & H1 & Hc2). destruct (substitute_rest _ _ _ _ _ Es) as [a ->]. apply Forall_app in Hl as [_ Hl].
           apply IH; try done; [|by eapply substitute_args|lia]. intros ?; apply H0, elem_of_app; by right.
        -- destruct Hres as [H1 Hs]. apply yields_Ret. split; [done|]. exists ds. split; [done|]. left. done.
      * apply yields_Ret. split; [done|]. exists ds. split; [done|]. right. left. done.
  - destruct (Z.eqb_spec b 32) as [->|Hne].
    + destruct touched; [|apply IH; try done; lia].
      eapply yields_bind; [by apply (end_arg_ok v ds s cur)|]. intros [[[] v1] h1].
      * intros (Hv1 & H1 & Hn1). eapply yields_bind; [by apply (sdsempty_ok h0 (owned v1))|]. intros [[s1|] h2].
        -- intros [R2 H2]. apply IH; try done; lia.
        -- intros [H2 Hs]. apply yields_Ret. split; [done|]. exists (ds ++ [cur]). split; [done|]. by left.
      * intros (-> & H1 & Hs). apply yields_Ret. split; [done|]. exists ds. split; [done|]. by left.
    + pose proof (current_bound _ _ _ _ _ _ Hm) as Hcb. rewrite blen_app in Hcb.
      eapply yields_bind; [apply (sdscatlen_ok h0 (owned v) s cur (drop (Z.to_nat c) fmt) 1 [b]); [done|done| |by constructor|change (blen [b]) with 1 in Hcb; lia]|].
      * destruct Hc as [Hc Hd]. rewrite Hd. cbn [app]. by apply (rd_block_0_app [b]).
      * intros [[s1|] h1]; [intros [R1 H1]; apply IH; try done; lia|].
        intros [H1 Hs]. apply yields_Ret. split; [done|]. exists ds. split; [done|]. by left.
Qed.

(** ** Building the command *)

Lemma put_freed_ok n bs : n < 2 ^ 31 -> forall l ds pre cmd h, Forall2 rep l ds -> written n pre (cmd, blen pre) ->
  blen (pre ++ concat (map bulk ds)) < n -> acquires h0 (map sblk l ++ bs) h ->
  yields (put_freed l cmd (blen pre) h) (fun '(cmd', pos, h') => written n (pre ++ concat (map bulk ds)) (cmd', pos) /\ acquires h0 bs h').
Proof.
  intros Hn. induction l as [|s l IH]; intros ds pre cmd h Hl Hw Hb Ha; cbn [put_freed].
  { apply Forall2_nil_inv_l in Hl as ->. apply yields_Ret. cbn [map concat]. by rewrite app_nil_r. }
  apply Forall2_cons_inv_l in Hl as (d & ds' & Hr & Hl & ->). cbn [map concat] in Hb, Ha |- *. rewrite app_assoc in Hb |- *.
  assert (blen (pre ++ bulk d) < n) as Hb1 by (rewrite blen_app in Hb; pose proof (blen_nonneg (concat (map bulk ds'))); lia).
  pose proof (rep_read _ _ Hr) as Hrd. rewrite (rep_len _ _ Hr) in *.
  eapply yields_bind; [by apply (put_data_ok n pre cmd (sbuf s) d)|]. intros [cmd1 p1] H1. cbn [sdsfree].
  eapply yields_bind; [by apply (free_first h0 (sblk s) (map sblk l ++ bs))|]. intros h1 Ha1.
  eapply yields_bind; [by apply (put_rest_ok n pre d)|]. intros [cmd2 p2] H2. pose proof H2 as (_ & _ & E). cbn [snd] in E. subst p2. by apply IH.
Qed.

Lemma format_build_ok v ds h : args_state v ds -> acquires h0 (owned v) h -> blen (command ds) < 2 ^ 31 - 1 ->
  yields (format_build v h) (fun res => no_memory h0 [] res \/ stored h0 [] ds res).
Proof.
  intros Hv Ha Hl. pose proof (command_count ds ltac:(lia)) as Hc. pose proof (dec_size (Z.of_nat (length ds)) ltac:(lia)).
  pose proof Hv as (Hv1 & Hv2 & Hv3). unfold format_build. rewrite (Forall2_length _ _ _ Hv1), Hv2. pose proof Hl as Hl'. rewrite blen_command in Hl'.
  pose proof (blen_nonneg (concat (map bulk ds))). unfold u64 at 1. rewrite Z.mod_small by lia. rewrite countDigits_dec by lia. cbn [cbind].
  unfold u32. rewrite (Z.mod_small (1 + _ + 2)) by lia. rewrite Z.mod_small by lia. rewrite i32_small by lia.
  replace (blen (concat (map bulk ds)) + (1 + blen (dec (Z.of_nat (length ds))) + 2)) with (blen (command ds)) by (rewrite blen_command; lia).
  unfold signed. change (2 ^ (32 - 1)) with (2 ^ 31). pose proof (blen_nonneg (command ds)).
  destruct (Z.leb_spec (- 2 ^ 31) (blen (command ds) + 1)); [|lia]. destruct (Z.ltb_spec (blen (command ds) + 1) (2 ^ 31)); [|lia]. cbn [andb cbind].
  pose proof (malloc_more h0 _ _ Ha) as Hm. destruct (malloc h) as [[b|] h1].
  2: { destruct Hm as [Hm Hs]. eapply yields_bind; [by apply (format_cleanup_ok v ds None)|]. intros h2 Hh2. apply yields_Ret. by left. }
  unfold u64. rewrite Z.mod_small by lia. set (n := blen (command ds) + 1) in *. fold (head_text (Z.of_nat (length ds))).
  assert (blen (command ds) < n) as Hn by (subst n; lia). rewrite command_eq in Hn.
  assert (blen (head_text (Z.of_nat (length ds))) < n) as Hh by (rewrite blen_app in Hn; lia).
  eapply yields_bind; [by apply put_head_ok|]. intros [cmd1 p1] Hw1. pose proof Hw1 as (_ & _ & E). cbn [snd] in E. subst p1.
  eapply yields_bind; [eapply (put_freed_ok n (b :: opt_blk (vblk v))); [done|exact Hv1|exact Hw1|exact Hn|]|].
  { eapply acquires_perm; [|exact Hm]. unfold owned. rewrite <- Permutation_middle. apply Permutation_skip, Permutation_app_comm. }
  intros [[cmd2 p2] h2] [Hw2 Ha2]. rewrite <- command_eq in *. pose proof Hw2 as (_ & _ & E). cbn [snd] in E. subst p2.
  rewrite assert_eqb by done. cbn [cbind]. rewrite (put_end n (command ds)) by done. cbn [cbind].
  eapply (yields_bind (acquires h0 [b])).
  - destruct (vblk v) as [vb|]; cbn [opt_blk] in Ha2; [|by apply yields_Ret]. apply free_first. eapply acquires_perm; [|exact Ha2]. apply perm_swap.
  - intros h3 Hh3. apply yields_Ret. right. by exists b.
Qed.

(** The result for a format that means [m]. *)
Definition formatted (bad : Z) (m : meant) (res : Z * option (Z * list Z) * heap) : Prop :=
  no_memory h0 [] res \/
  match m with
  | Words ws => stored h0 [] ws res
  | Not_format => exists h, res = (bad, None, h) /\ acquires h0 [] h
  | Outside => False
  end.

Lemma vformat_ok l args : fmt = l ++ 0 :: r -> heap_ok h0 -> 0 ∉ l -> Forall is_byte l -> Forall va_ok args -> meaning printed l args <> Outside ->
  yields (redisvFormatCommand printed fmt true args h0) (formatted (-2) (meaning printed l args)).
Proof.
  intros Ef Hh H0 Hl Hok Hm. unfold redisvFormatCommand. cbn [negb].
  eapply yields_bind; [by apply (sdsempty_ok h0 []), acquires_nil|]. intros [[s|] h1]; [intros [Hr Ha]|intros [Ha Hs]; apply yields_Ret; by left].
  assert (args_state (mkArgv None [] 0) []) as Hv by (split; [constructor|by split]).
  eapply yields_bind; [apply (format_loop_ok (S (length l)) l (length fmt) 0 args s [] false (mkArgv None [] 0) [] h1); try done|].
  - rewrite <- Ef. apply at_pos_0.
  - rewrite Ef, length_app. cbn [length]. lia.
  - unfold parsed_ok. intros [[[[e s'] touched] v] h2] (Ha2 & ds & Hv2 & He). fold (meaning printed l args) in He.
    destruct He as [(-> & Hs)|[(-> & ->)|(-> & s1 & cur & -> & Hr1 & -> & Hb)]].
    + change (-1 =? 0) with false. cbv iota. eapply yields_bind; [by eapply format_cleanup_ok|]. intros h3 H3. apply yields_Ret. by left.
    + change (-2 =? 0) with false. cbv iota. eapply yields_bind; [by eapply format_cleanup_ok|]. intros h3 H3. apply yields_Ret. right. by exists h3.
    + change (0 =? 0) with true. cbv iota. cbn [arg_block app] in Ha2. destruct touched.
      * cbn [deref cbind]. eapply (yields_bind (fun '(ok, s, v', h') => if ok : bool then args_state v' (ds ++ [cur]) /\ acquires h0 (owned v') h'
          else s = Some s1 /\ v' = v /\ acquires h0 (sblk s1 :: owned v) h' /\ starved)).
        -- eapply yields_bind; [by apply (end_arg_ok v ds s1 cur)|]. intros [[ok v1] h3] Hx. apply yields_Ret. destruct ok; naive_solver.
        -- intros [[[ok s2] v1] h3] Hx. destruct ok.
           ++ destruct Hx as [Hv3 Ha3]. unfold limit in Hb. eapply yields_mono; [apply (format_build_ok v1 (ds ++ [cur])); [done|done|lia]|]. intros res [Hres|Hres]; [by left|by right].
           ++ destruct Hx as (-> & -> & Ha3 & Hs). eapply yields_bind; [by apply (format_cleanup_ok v ds (Some s1))|]. intros h4 H4. apply yields_Ret. by left.
      * eapply (yields_bind (fun '(ok, s, v', h') => ok = true /\ v' = v /\ acquires h0 (owned v) h')).
        -- cbn [sdsfree]. eapply yields_bind; [by apply (free_first h0 (sblk s1))|]. intros h3 H3. by apply yields_Ret.
        -- intros [[[ok s2] v1] h3] (-> & -> & Ha3). rewrite app_nil_r. eapply yields_mono; [apply (format_build_ok v ds); [done|done|]|].
           ++ destruct (command_app ds cur) as [Hb1 Hb2]. unfold limit in Hb. pose proof (count_bulks ds). pose proof (blen_nonneg cur). rewrite blen_command.
              pose proof (dec_size (Z.of_nat (length ds)) ltac:(lia)). lia.
           ++ intros res [Hres|Hres]; [by left|by right].
Qed.

End loop.

(** C32: for every format that means something, [redisvFormatCommand] stores the
    command with the arguments the format means, in a block of its size;
    a format with an unknown conversion gives -2, a refused allocation -1, and
    then no block is left; [redisFormatCommand] does the same with -1 for
    both. *)
Theorem command_format {A : Allocator} {G : Garbage} {N : Ndebug} printed l r args h :
  (forall f a, Forall (fun x => is_byte x /\ x <> 0) (printed f a)) -> heap_ok h -> 0 ∉ l -> Forall is_byte l -> Forall va_ok args ->
  meaning printed l args <> Outside ->
  yields (redisvFormatCommand printed (l ++ 0 :: r) true args h) (formatted h (-2) (meaning printed l args)) /\
  yields (redisFormatCommand printed (l ++ 0 :: r) true args h) (formatted h (-1) (meaning printed l args)).
Proof.
  intros Hp Hh H0 Hl Hok Hm. pose proof (vformat_ok h printed (l ++ 0 :: r) r Hp l args eq_refl Hh H0 Hl Hok Hm) as Hv. split; [done|].
  unfold redisFormatCommand. eapply yields_bind; [exact Hv|]. intros [[len cmd] h'] [Hn|Hf]; apply yields_Ret.
  - destruct Hn as (-> & -> & Ha & Hs). by left.
  - right. destruct (meaning printed l args) as [ws| |]; [| |done].
    + destruct Hf as (b & -> & -> & Ha). pose proof (blen_nonneg (command ws)). destruct (Z.ltb_spec (blen (command ws)) 0); [lia|]. by exists b.
    + destruct Hf as (h2 & [= -> -> ->] & Ha). change (-2 <? 0) with true. cbv iota. by exists h2.
Qed.

Lemma print_int_nonzero f a : Forall (fun x => is_byte x /\ x <> 0) (print_int f a).
Proof.
  assert (forall z, Forall (fun x => is_byte x /\ x <> 0) (dec z)) as Hd.
  { intros z. assert (forall y, 0 <= y -> Forall (fun x => is_byte x /\ x <> 0) (dec_digits 20 y [])) as H.
    { intros y Hy. eapply Forall_impl; [by apply (dec_digits_isdigit 20 y [])|]. intros x Hx%isdigit_range. unfold is_byte. lia. }
    unfold dec. destruct (Z.ltb_spec z 0); [constructor; [by split|]; apply H; lia|apply H; lia]. }
  destruct a; try constructor. apply Hd.
Qed.

(** An argument with a number inside, a binary and an empty one. *)
Definition some_command : list Z := text "SET k%d %b %s".
Definition some_args : list va := [VInt 12; VStr [1; 0; 2; 3]; VSize 3; VStr [0]].

Lemma command_format_witness :
  yields (@redisvFormatCommand plenty (fun _ _ => 0) false print_int (some_command ++ [0]) true some_args start_heap)
    (@formatted plenty start_heap (-2) (meaning print_int some_command some_args)) /\
  yields (@redisFormatCommand plenty (fun _ _ => 0) false print_int (some_command ++ [0]) true some_args start_heap)
    (@formatted plenty start_heap (-1) (meaning print_int some_command some_args)).
Proof.
  apply (@command_format plenty (fun _ _ => 0) false print_int some_command [] some_args start_heap).
  - exact print_int_nonzero.
  - intros b Hb. by apply not_elem_of_empty in Hb.
  - apply (bool_decide_unpack _). vm_compute. exact I.
  - apply bytes_decided. reflexivity.
  - constructor; [done|]. constructor; [apply bytes_decided; reflexivity|]. constructor; [done|]. constructor; [apply bytes_decided; reflexivity|constructor].
  - vm_compute. discriminate.
Defined.

(** A conversion that the end of the format cuts off: [strchr] finds the
    terminator among the conversion characters, and the loop goes on behind
    the end of the format. *)
Lemma format_cut_off :
  @redisvFormatCommand plenty (fun _ _ => 0) false print_int (text "SET %5" ++ [0]) true [VInt 7] start_heap = Oob.
Proof. vm_compute. reflexivity. Qed.

(** A conversion of 14 characters or more is taken for literal text. *)
Lemma format_long_conversion :
  (let! '(len, cmd, h) := @redisvFormatCommand plenty (fun _ _ => 0) false print_int (text "GET %000000000000d" ++ [0]) true [VInt 7] start_heap in
   Ret (len, snd <$> cmd)) = Ret (32, Some (command [text "GET"; text "00000000000d"] ++ [0])).
Proof. vm_compute. reflexivity. Qed.
