(* ===== verification/CmdParse.v ===== *)
(** * Commands of the cluster client

    hiredis/command.c and command.h: [redis_parse_cmd] finds the verb and the
    keys of a command in the protocol of redis, with one state of its machine
    after the other; [command_get] makes the command objects.  Pointers into the text of a command are indices. *)

From stdpp Require Import gmap.
From Stdlib Require Import String.
From S2P Require Import Prelude Cstdlib Heap Sds Reader Hiarray.

#[local] Open Scope Z_scope.
#[local] Set Warnings "-clear-no-such-hyp".
#[local] Arguments cbind {A B} !m k /.

(** ** Data *)

Inductive cmd_parse_result := CMD_PARSE_OK | CMD_PARSE_ENOMEM | CMD_PARSE_ERROR | CMD_PARSE_REPAIR | CMD_PARSE_AGAIN.

Inductive cmd_type : Type :=
| CMD_UNKNOWN
| CMD_REQ_REDIS_DEL
| CMD_REQ_REDIS_EXISTS
| CMD_REQ_REDIS_EXPIRE
| CMD_REQ_REDIS_EXPIREAT
| CMD_REQ_REDIS_PEXPIRE
| CMD_REQ_REDIS_PEXPIREAT
| CMD_REQ_REDIS_PERSIST
| CMD_REQ_REDIS_PTTL
| CMD_REQ_REDIS_SORT
| CMD_REQ_REDIS_TTL
| CMD_REQ_REDIS_TYPE
| CMD_REQ_REDIS_APPEND
| CMD_REQ_REDIS_BITCOUNT
| CMD_REQ_REDIS_DECR
| CMD_REQ_REDIS_DECRBY
| CMD_REQ_REDIS_DUMP
| CMD_REQ_REDIS_GET
| CMD_REQ_REDIS_GETBIT
| CMD_REQ_REDIS_GETRANGE
| CMD_REQ_REDIS_GETSET
| CMD_REQ_REDIS_INCR
| CMD_REQ_REDIS_INCRBY
| CMD_REQ_REDIS_INCRBYFLOAT
| CMD_REQ_REDIS_MGET
| CMD_REQ_REDIS_MSET
| CMD_REQ_REDIS_PSETEX
| CMD_REQ_REDIS_RESTORE
| CMD_REQ_REDIS_SET
| CMD_REQ_REDIS_SETBIT
| CMD_REQ_REDIS_SETEX
| CMD_REQ_REDIS_SETNX
| CMD_REQ_REDIS_SETRANGE
| CMD_REQ_REDIS_STRLEN
| CMD_REQ_REDIS_HDEL
| CMD_REQ_REDIS_HEXISTS
| CMD_REQ_REDIS_HGET
| CMD_REQ_REDIS_HGETALL
| CMD_REQ_REDIS_HINCRBY
| CMD_REQ_REDIS_HINCRBYFLOAT
| CMD_REQ_REDIS_HKEYS
| CMD_REQ_REDIS_HLEN
| CMD_REQ_REDIS_HMGET
| CMD_REQ_REDIS_HMSET
| CMD_REQ_REDIS_HSET
| CMD_REQ_REDIS_HSETNX
| CMD_REQ_REDIS_HSCAN
| CMD_REQ_REDIS_HVALS
| CMD_REQ_REDIS_LINDEX
| CMD_REQ_REDIS_LINSERT
| CMD_REQ_REDIS_LLEN
| CMD_REQ_REDIS_LPOP
| CMD_REQ_REDIS_LPUSH
| CMD_REQ_REDIS_LPUSHX
| CMD_REQ_REDIS_LRANGE
| CMD_REQ_REDIS_LREM
| CMD_REQ_REDIS_LSET
| CMD_REQ_REDIS_LTRIM
| CMD_REQ_REDIS_PFADD
| CMD_REQ_REDIS_PFCOUNT
| CMD_REQ_REDIS_PFMERGE
| CMD_REQ_REDIS_RPOP
| CMD_REQ_REDIS_RPOPLPUSH
| CMD_REQ_REDIS_RPUSH
| CMD_REQ_REDIS_RPUSHX
| CMD_REQ_REDIS_SADD
| CMD_REQ_REDIS_SCARD
| CMD_REQ_REDIS_SDIFF
| CMD_REQ_REDIS_SDIFFSTORE
| CMD_REQ_REDIS_SINTER
| CMD_REQ_REDIS_SINTERSTORE
| CMD_REQ_REDIS_SISMEMBER
| CMD_REQ_REDIS_SMEMBERS
| CMD_REQ_REDIS_SMOVE
| CMD_REQ_REDIS_SPOP
| CMD_REQ_REDIS_SRANDMEMBER
| CMD_REQ_REDIS_SREM
| CMD_REQ_REDIS_SUNION
| CMD_REQ_REDIS_SUNIONSTORE
| CMD_REQ_REDIS_SSCAN
| CMD_REQ_REDIS_XACK
| CMD_REQ_REDIS_XADD
| CMD_REQ_REDIS_XAUTOCLAIM
| CMD_REQ_REDIS_XCLAIM
| CMD_REQ_REDIS_XDEL
| CMD_REQ_REDIS_XGROUP
| CMD_REQ_REDIS_XINFO
| CMD_REQ_REDIS_XLEN
| CMD_REQ_REDIS_XPENDING
| CMD_REQ_REDIS_XRANGE
| CMD_REQ_REDIS_XREVRANGE
| CMD_REQ_REDIS_XTRIM
| CMD_REQ_REDIS_ZADD
| CMD_REQ_REDIS_ZCARD
| CMD_REQ_REDIS_ZCOUNT
| CMD_REQ_REDIS_ZINCRBY
| CMD_REQ_REDIS_ZINTERSTORE
| CMD_REQ_REDIS_ZLEXCOUNT
| CMD_REQ_REDIS_ZRANGE
| CMD_REQ_REDIS_ZRANGEBYLEX
| CMD_REQ_REDIS_ZRANGEBYSCORE
| CMD_REQ_REDIS_ZRANK
| CMD_REQ_REDIS_ZREM
| CMD_REQ_REDIS_ZREMRANGEBYRANK
| CMD_REQ_REDIS_ZREMRANGEBYLEX
| CMD_REQ_REDIS_ZREMRANGEBYSCORE
| CMD_REQ_REDIS_ZREVRANGE
| CMD_REQ_REDIS_ZREVRANGEBYSCORE
| CMD_REQ_REDIS_ZREVRANK
| CMD_REQ_REDIS_ZSCORE
| CMD_REQ_REDIS_ZUNIONSTORE
| CMD_REQ_REDIS_ZSCAN
| CMD_REQ_REDIS_EVAL
| CMD_REQ_REDIS_EVALSHA
| CMD_REQ_REDIS_PING
| CMD_REQ_REDIS_QUIT
| CMD_REQ_REDIS_AUTH
| CMD_RSP_REDIS_STATUS
| CMD_RSP_REDIS_ERROR
| CMD_RSP_REDIS_INTEGER
| CMD_RSP_REDIS_BULK
| CMD_RSP_REDIS_MULTIBULK
| CMD_SENTINEL.

(** The numbers of the enumeration, as an error message shows them. *)
Definition cmd_types : list cmd_type :=
  [
   CMD_UNKNOWN; CMD_REQ_REDIS_DEL; CMD_REQ_REDIS_EXISTS; CMD_REQ_REDIS_EXPIRE; CMD_REQ_REDIS_EXPIREAT;
   CMD_REQ_REDIS_PEXPIRE; CMD_REQ_REDIS_PEXPIREAT; CMD_REQ_REDIS_PERSIST; CMD_REQ_REDIS_PTTL; CMD_REQ_REDIS_SORT;
   CMD_REQ_REDIS_TTL; CMD_REQ_REDIS_TYPE; CMD_REQ_REDIS_APPEND; CMD_REQ_REDIS_BITCOUNT; CMD_REQ_REDIS_DECR;
   CMD_REQ_REDIS_DECRBY; CMD_REQ_REDIS_DUMP; CMD_REQ_REDIS_GET; CMD_REQ_REDIS_GETBIT; CMD_REQ_REDIS_GETRANGE;
   CMD_REQ_REDIS_GETSET; CMD_REQ_REDIS_INCR; CMD_REQ_REDIS_INCRBY; CMD_REQ_REDIS_INCRBYFLOAT; CMD_REQ_REDIS_MGET;
   CMD_REQ_REDIS_MSET; CMD_REQ_REDIS_PSETEX; CMD_REQ_REDIS_RESTORE; CMD_REQ_REDIS_SET; CMD_REQ_REDIS_SETBIT;
   CMD_REQ_REDIS_SETEX; CMD_REQ_REDIS_SETNX; CMD_REQ_REDIS_SETRANGE; CMD_REQ_REDIS_STRLEN; CMD_REQ_REDIS_HDEL;
   CMD_REQ_REDIS_HEXISTS; CMD_REQ_REDIS_HGET; CMD_REQ_REDIS_HGETALL; CMD_REQ_REDIS_HINCRBY;
   CMD_REQ_REDIS_HINCRBYFLOAT; CMD_REQ_REDIS_HKEYS; CMD_REQ_REDIS_HLEN; CMD_REQ_REDIS_HMGET; CMD_REQ_REDIS_HMSET;
   CMD_REQ_REDIS_HSET; CMD_REQ_REDIS_HSETNX; CMD_REQ_REDIS_HSCAN; CMD_REQ_REDIS_HVALS; CMD_REQ_REDIS_LINDEX;
   CMD_REQ_REDIS_LINSERT; CMD_REQ_REDIS_LLEN; CMD_REQ_REDIS_LPOP; CMD_REQ_REDIS_LPUSH; CMD_REQ_REDIS_LPUSHX;
   CMD_REQ_REDIS_LRANGE; CMD_REQ_REDIS_LREM; CMD_REQ_REDIS_LSET; CMD_REQ_REDIS_LTRIM; CMD_REQ_REDIS_PFADD;
   CMD_REQ_REDIS_PFCOUNT; CMD_REQ_REDIS_PFMERGE; CMD_REQ_REDIS_RPOP; CMD_REQ_REDIS_RPOPLPUSH; CMD_REQ_REDIS_RPUSH;
   CMD_REQ_REDIS_RPUSHX; CMD_REQ_REDIS_SADD; CMD_REQ_REDIS_SCARD; CMD_REQ_REDIS_SDIFF; CMD_REQ_REDIS_SDIFFSTORE;
   CMD_REQ_REDIS_SINTER; CMD_REQ_REDIS_SINTERSTORE; CMD_REQ_REDIS_SISMEMBER; CMD_REQ_REDIS_SMEMBERS;
   CMD_REQ_REDIS_SMOVE; CMD_REQ_REDIS_SPOP; CMD_REQ_REDIS_SRANDMEMBER; CMD_REQ_REDIS_SREM; CMD_REQ_REDIS_SUNION;
   CMD_REQ_REDIS_SUNIONSTORE; CMD_REQ_REDIS_SSCAN; CMD_REQ_REDIS_XACK; CMD_REQ_REDIS_XADD; CMD_REQ_REDIS_XAUTOCLAIM;
   CMD_REQ_REDIS_XCLAIM; CMD_REQ_REDIS_XDEL; CMD_REQ_REDIS_XGROUP; CMD_REQ_REDIS_XINFO; CMD_REQ_REDIS_XLEN;
   CMD_REQ_REDIS_XPENDING; CMD_REQ_REDIS_XRANGE; CMD_REQ_REDIS_XREVRANGE; CMD_REQ_REDIS_XTRIM; CMD_REQ_REDIS_ZADD;
   CMD_REQ_REDIS_ZCARD; CMD_REQ_REDIS_ZCOUNT; CMD_REQ_REDIS_ZINCRBY; CMD_REQ_REDIS_ZINTERSTORE;
   CMD_REQ_REDIS_ZLEXCOUNT; CMD_REQ_REDIS_ZRANGE; CMD_REQ_REDIS_ZRANGEBYLEX; CMD_REQ_REDIS_ZRANGEBYSCORE;
   CMD_REQ_REDIS_ZRANK; CMD_REQ_REDIS_ZREM; CMD_REQ_REDIS_ZREMRANGEBYRANK; CMD_REQ_REDIS_ZREMRANGEBYLEX;
   CMD_REQ_REDIS_ZREMRANGEBYSCORE; CMD_REQ_REDIS_ZREVRANGE; CMD_REQ_REDIS_ZREVRANGEBYSCORE; CMD_REQ_REDIS_ZREVRANK;
   CMD_REQ_REDIS_ZSCORE; CMD_REQ_REDIS_ZUNIONSTORE; CMD_REQ_REDIS_ZSCAN; CMD_REQ_REDIS_EVAL; CMD_REQ_REDIS_EVALSHA;
   CMD_REQ_REDIS_PING; CMD_REQ_REDIS_QUIT; CMD_REQ_REDIS_AUTH; CMD_RSP_REDIS_STATUS; CMD_RSP_REDIS_ERROR;
   CMD_RSP_REDIS_INTEGER; CMD_RSP_REDIS_BULK; CMD_RSP_REDIS_MULTIBULK; CMD_SENTINEL].


#[export] Instance cmd_type_eq_dec : EqDecision cmd_type.
Proof. solve_decision. Defined.

Fixpoint number {X : Type} {E : EqDecision X} (x : X) (l : list X) : Z :=
  match l with
  | [] => 0
  | y :: l => if decide (x = y) then 0 else 1 + number x l
  end.

Definition type_number (t : cmd_type) : Z := number t cmd_types.

Record keypos := mkKey { kstart : Z; kend : Z; remain_len : Z }.

(** [cmd_ptr] is a block or belongs to the caller; [reply], [sub_commands] and the
    elements of [frag_seq] are blocks. *)
Record cmd := mkCmd {
  id : Z;
  result : cmd_parse_result;
  errstr : option (Z * list Z);
  type : cmd_type;
  cmd_ptr : option (Z * list Z);
  clen : Z;
  keys : option (hiarray keypos);
  narg_start : option Z;
  narg_end : option Z;
  narg : Z;
  quit : Z;
  noforward : Z;
  slot_num : Z;
  node_addr : option sds;
  frag_seq : option (Z * list (option Z));
  reply : option Z;
  sub_commands : option Z
}.

Definition with_result (x : cmd_parse_result) (r : cmd) : cmd :=
  mkCmd (id r) x (errstr r) (type r) (cmd_ptr r) (clen r) (keys r) (narg_start r) (narg_end r) (narg r) (quit r)
    (noforward r) (slot_num r) (node_addr r) (frag_seq r) (reply r) (sub_commands r).
Definition with_errstr (x : option (Z * list Z)) (r : cmd) : cmd :=
  mkCmd (id r) (result r) x (type r) (cmd_ptr r) (clen r) (keys r) (narg_start r) (narg_end r) (narg r) (quit r)
    (noforward r) (slot_num r) (node_addr r) (frag_seq r) (reply r) (sub_commands r).
Definition with_type (x : cmd_type) (r : cmd) : cmd :=
  mkCmd (id r) (result r) (errstr r) x (cmd_ptr r) (clen r) (keys r) (narg_start r) (narg_end r) (narg r) (quit r)
    (noforward r) (slot_num r) (node_addr r) (frag_seq r) (reply r) (sub_commands r).
Definition with_cmd (x : option (Z * list Z)) (n : Z) (r : cmd) : cmd :=
  mkCmd (id r) (result r) (errstr r) (type r) x n (keys r) (narg_start r) (narg_end r) (narg r) (quit r)
    (noforward r) (slot_num r) (node_addr r) (frag_seq r) (reply r) (sub_commands r).
Definition with_keys (x : option (hiarray keypos)) (r : cmd) : cmd :=
  mkCmd (id r) (result r) (errstr r) (type r) (cmd_ptr r) (clen r) x (narg_start r) (narg_end r) (narg r) (quit r)
    (noforward r) (slot_num r) (node_addr r) (frag_seq r) (reply r) (sub_commands r).
Definition with_narg (s e : option Z) (x : Z) (r : cmd) : cmd :=
  mkCmd (id r) (result r) (errstr r) (type r) (cmd_ptr r) (clen r) (keys r) s e x (quit r)
    (noforward r) (slot_num r) (node_addr r) (frag_seq r) (reply r) (sub_commands r).
Definition with_slot (x : Z) (r : cmd) : cmd :=
  mkCmd (id r) (result r) (errstr r) (type r) (cmd_ptr r) (clen r) (keys r) (narg_start r) (narg_end r) (narg r) (quit r)
    (noforward r) x (node_addr r) (frag_seq r) (reply r) (sub_commands r).
Definition with_frag (x : option (Z * list (option Z))) (r : cmd) : cmd :=
  mkCmd (id r) (result r) (errstr r) (type r) (cmd_ptr r) (clen r) (keys r) (narg_start r) (narg_end r) (narg r) (quit r)
    (noforward r) (slot_num r) (node_addr r) x (reply r) (sub_commands r).
Definition with_reply (x : option Z) (r : cmd) : cmd :=
  mkCmd (id r) (result r) (errstr r) (type r) (cmd_ptr r) (clen r) (keys r) (narg_start r) (narg_end r) (narg r) (quit r)
    (noforward r) (slot_num r) (node_addr r) (frag_seq r) x (sub_commands r).
Definition with_subs (x : option Z) (r : cmd) : cmd :=
  mkCmd (id r) (result r) (errstr r) (type r) (cmd_ptr r) (clen r) (keys r) (narg_start r) (narg_end r) (narg r) (quit r)
    (noforward r) (slot_num r) (node_addr r) (frag_seq r) (reply r) x.

(** ** The kinds of commands *)

(** Commands without a key. *)
Definition redis_argz (type : cmd_type) : bool :=
  match type with
  | CMD_REQ_REDIS_PING | CMD_REQ_REDIS_QUIT => true
  | _ => false
  end.

(** [command key] *)
Definition redis_arg0 (type : cmd_type) : bool :=
  match type with
  | CMD_REQ_REDIS_PERSIST | CMD_REQ_REDIS_PTTL | CMD_REQ_REDIS_SORT | CMD_REQ_REDIS_TTL | CMD_REQ_REDIS_TYPE
  | CMD_REQ_REDIS_DUMP | CMD_REQ_REDIS_DECR | CMD_REQ_REDIS_GET | CMD_REQ_REDIS_INCR | CMD_REQ_REDIS_STRLEN
  | CMD_REQ_REDIS_HGETALL | CMD_REQ_REDIS_HKEYS | CMD_REQ_REDIS_HLEN | CMD_REQ_REDIS_HVALS | CMD_REQ_REDIS_LLEN
  | CMD_REQ_REDIS_LPOP | CMD_REQ_REDIS_RPOP | CMD_REQ_REDIS_SCARD | CMD_REQ_REDIS_SMEMBERS | CMD_REQ_REDIS_SPOP
  | CMD_REQ_REDIS_XLEN | CMD_REQ_REDIS_ZCARD | CMD_REQ_REDIS_PFCOUNT | CMD_REQ_REDIS_AUTH => true
  | _ => false
  end.

(** [command key arg] *)
Definition redis_arg1 (type : cmd_type) : bool :=
  match type with
  | CMD_REQ_REDIS_EXPIRE | CMD_REQ_REDIS_EXPIREAT | CMD_REQ_REDIS_PEXPIRE | CMD_REQ_REDIS_PEXPIREAT
  | CMD_REQ_REDIS_APPEND | CMD_REQ_REDIS_DECRBY | CMD_REQ_REDIS_GETBIT | CMD_REQ_REDIS_GETSET
  | CMD_REQ_REDIS_INCRBY | CMD_REQ_REDIS_INCRBYFLOAT | CMD_REQ_REDIS_SETNX | CMD_REQ_REDIS_HEXISTS
  | CMD_REQ_REDIS_HGET | CMD_REQ_REDIS_LINDEX | CMD_REQ_REDIS_LPUSHX | CMD_REQ_REDIS_RPOPLPUSH
  | CMD_REQ_REDIS_RPUSHX | CMD_REQ_REDIS_SISMEMBER | CMD_REQ_REDIS_ZRANK | CMD_REQ_REDIS_ZREVRANK
  | CMD_REQ_REDIS_ZSCORE => true
  | _ => false
  end.

(** [command key arg1 arg2] *)
Definition redis_arg2 (type : cmd_type) : bool :=
  match type with
  | CMD_REQ_REDIS_GETRANGE | CMD_REQ_REDIS_PSETEX | CMD_REQ_REDIS_SETBIT | CMD_REQ_REDIS_SETEX
  | CMD_REQ_REDIS_SETRANGE | CMD_REQ_REDIS_HINCRBY | CMD_REQ_REDIS_HINCRBYFLOAT | CMD_REQ_REDIS_HSET
  | CMD_REQ_REDIS_HSETNX | CMD_REQ_REDIS_LRANGE | CMD_REQ_REDIS_LREM | CMD_REQ_REDIS_LSET | CMD_REQ_REDIS_LTRIM
  | CMD_REQ_REDIS_SMOVE | CMD_REQ_REDIS_ZCOUNT | CMD_REQ_REDIS_ZLEXCOUNT | CMD_REQ_REDIS_ZINCRBY
  | CMD_REQ_REDIS_ZREMRANGEBYLEX | CMD_REQ_REDIS_ZREMRANGEBYRANK | CMD_REQ_REDIS_ZREMRANGEBYSCORE
  | CMD_REQ_REDIS_RESTORE => true
  | _ => false
  end.

(** [command key arg1 arg2 arg3] *)
Definition redis_arg3 (type : cmd_type) : bool :=
  match type with
  | CMD_REQ_REDIS_LINSERT => true
  | _ => false
  end.

(** [command key [arg ...]] *)
Definition redis_argn (type : cmd_type) : bool :=
  match type with
  | CMD_REQ_REDIS_BITCOUNT | CMD_REQ_REDIS_SET | CMD_REQ_REDIS_HDEL | CMD_REQ_REDIS_HMGET | CMD_REQ_REDIS_HMSET
  | CMD_REQ_REDIS_HSCAN | CMD_REQ_REDIS_LPUSH | CMD_REQ_REDIS_RPUSH | CMD_REQ_REDIS_SADD | CMD_REQ_REDIS_SDIFF
  | CMD_REQ_REDIS_SDIFFSTORE | CMD_REQ_REDIS_SINTER | CMD_REQ_REDIS_SINTERSTORE | CMD_REQ_REDIS_SREM
  | CMD_REQ_REDIS_SUNION | CMD_REQ_REDIS_SUNIONSTORE | CMD_REQ_REDIS_SRANDMEMBER | CMD_REQ_REDIS_SSCAN
  | CMD_REQ_REDIS_PFADD | CMD_REQ_REDIS_PFMERGE | CMD_REQ_REDIS_XACK | CMD_REQ_REDIS_XADD
  | CMD_REQ_REDIS_XAUTOCLAIM | CMD_REQ_REDIS_XCLAIM | CMD_REQ_REDIS_XDEL | CMD_REQ_REDIS_XPENDING
  | CMD_REQ_REDIS_XRANGE | CMD_REQ_REDIS_XREVRANGE | CMD_REQ_REDIS_XTRIM | CMD_REQ_REDIS_ZADD
  | CMD_REQ_REDIS_ZINTERSTORE | CMD_REQ_REDIS_ZRANGE | CMD_REQ_REDIS_ZRANGEBYSCORE | CMD_REQ_REDIS_ZREM
  | CMD_REQ_REDIS_ZREVRANGE | CMD_REQ_REDIS_ZRANGEBYLEX | CMD_REQ_REDIS_ZREVRANGEBYSCORE
  | CMD_REQ_REDIS_ZUNIONSTORE | CMD_REQ_REDIS_ZSCAN => true
  | _ => false
  end.

(** [command key [key ...]] *)
Definition redis_argx (type : cmd_type) : bool :=
  match type with
  | CMD_REQ_REDIS_EXISTS | CMD_REQ_REDIS_MGET | CMD_REQ_REDIS_DEL => true
  | _ => false
  end.

(** [command key value [key value ...]] *)
Definition redis_argkvx (type : cmd_type) : bool :=
  match type with
  | CMD_REQ_REDIS_MSET => true
  | _ => false
  end.

(** [command subcommand key [arg ...]] *)
Definition redis_argsub (type : cmd_type) : bool :=
  match type with
  | CMD_REQ_REDIS_XGROUP | CMD_REQ_REDIS_XINFO => true
  | _ => false
  end.

(** EVAL and EVALSHA. *)
Definition redis_argeval (type : cmd_type) : bool :=
  match type with
  | CMD_REQ_REDIS_EVAL | CMD_REQ_REDIS_EVALSHA => true
  | _ => false
  end.

(** The verbs of a length, in the order of the comparisons. *)
Definition verbs (len : Z) : list (list Z * cmd_type) :=
  match len with
  | 3 =>
      [(text "get", CMD_REQ_REDIS_GET); (text "set", CMD_REQ_REDIS_SET); (text "ttl", CMD_REQ_REDIS_TTL);
       (text "del", CMD_REQ_REDIS_DEL)]
  | 4 =>
      [(text "pttl", CMD_REQ_REDIS_PTTL); (text "decr", CMD_REQ_REDIS_DECR); (text "dump", CMD_REQ_REDIS_DUMP);
       (text "hdel", CMD_REQ_REDIS_HDEL); (text "hget", CMD_REQ_REDIS_HGET); (text "hlen", CMD_REQ_REDIS_HLEN);
       (text "hset", CMD_REQ_REDIS_HSET); (text "incr", CMD_REQ_REDIS_INCR); (text "llen", CMD_REQ_REDIS_LLEN);
       (text "lpop", CMD_REQ_REDIS_LPOP); (text "lrem", CMD_REQ_REDIS_LREM); (text "lset", CMD_REQ_REDIS_LSET);
       (text "rpop", CMD_REQ_REDIS_RPOP); (text "sadd", CMD_REQ_REDIS_SADD); (text "spop", CMD_REQ_REDIS_SPOP);
       (text "srem", CMD_REQ_REDIS_SREM); (text "type", CMD_REQ_REDIS_TYPE); (text "mget", CMD_REQ_REDIS_MGET);
       (text "mset", CMD_REQ_REDIS_MSET); (text "xack", CMD_REQ_REDIS_XACK); (text "xadd", CMD_REQ_REDIS_XADD);
       (text "xdel", CMD_REQ_REDIS_XDEL); (text "xlen", CMD_REQ_REDIS_XLEN); (text "zadd", CMD_REQ_REDIS_ZADD);
       (text "zrem", CMD_REQ_REDIS_ZREM); (text "eval", CMD_REQ_REDIS_EVAL); (text "sort", CMD_REQ_REDIS_SORT);
       (text "ping", CMD_REQ_REDIS_PING); (text "quit", CMD_REQ_REDIS_QUIT); (text "auth", CMD_REQ_REDIS_AUTH)]
  | 5 =>
      [(text "hkeys", CMD_REQ_REDIS_HKEYS); (text "hmget", CMD_REQ_REDIS_HMGET); (text "hmset", CMD_REQ_REDIS_HMSET);
       (text "hvals", CMD_REQ_REDIS_HVALS); (text "hscan", CMD_REQ_REDIS_HSCAN); (text "lpush", CMD_REQ_REDIS_LPUSH);
       (text "ltrim", CMD_REQ_REDIS_LTRIM); (text "rpush", CMD_REQ_REDIS_RPUSH); (text "scard", CMD_REQ_REDIS_SCARD);
       (text "sdiff", CMD_REQ_REDIS_SDIFF); (text "setex", CMD_REQ_REDIS_SETEX); (text "setnx", CMD_REQ_REDIS_SETNX);
       (text "smove", CMD_REQ_REDIS_SMOVE); (text "sscan", CMD_REQ_REDIS_SSCAN); (text "xinfo", CMD_REQ_REDIS_XINFO);
       (text "xtrim", CMD_REQ_REDIS_XTRIM); (text "zcard", CMD_REQ_REDIS_ZCARD); (text "zrank", CMD_REQ_REDIS_ZRANK);
       (text "zscan", CMD_REQ_REDIS_ZSCAN); (text "pfadd", CMD_REQ_REDIS_PFADD)]
  | 6 =>
      [(text "append", CMD_REQ_REDIS_APPEND); (text "decrby", CMD_REQ_REDIS_DECRBY);
       (text "exists", CMD_REQ_REDIS_EXISTS); (text "expire", CMD_REQ_REDIS_EXPIRE);
       (text "getbit", CMD_REQ_REDIS_GETBIT); (text "getset", CMD_REQ_REDIS_GETSET);
       (text "psetex", CMD_REQ_REDIS_PSETEX); (text "hsetnx", CMD_REQ_REDIS_HSETNX);
       (text "incrby", CMD_REQ_REDIS_INCRBY); (text "lindex", CMD_REQ_REDIS_LINDEX);
       (text "lpushx", CMD_REQ_REDIS_LPUSHX); (text "lrange", CMD_REQ_REDIS_LRANGE);
       (text "rpushx", CMD_REQ_REDIS_RPUSHX); (text "setbit", CMD_REQ_REDIS_SETBIT);
       (text "sinter", CMD_REQ_REDIS_SINTER); (text "strlen", CMD_REQ_REDIS_STRLEN);
       (text "sunion", CMD_REQ_REDIS_SUNION); (text "xclaim", CMD_REQ_REDIS_XCLAIM);
       (text "xgroup", CMD_REQ_REDIS_XGROUP); (text "xrange", CMD_REQ_REDIS_XRANGE);
       (text "zcount", CMD_REQ_REDIS_ZCOUNT); (text "zrange", CMD_REQ_REDIS_ZRANGE);
       (text "zscore", CMD_REQ_REDIS_ZSCORE)]
  | 7 =>
      [(text "persist", CMD_REQ_REDIS_PERSIST); (text "pexpire", CMD_REQ_REDIS_PEXPIRE);
       (text "hexists", CMD_REQ_REDIS_HEXISTS); (text "hgetall", CMD_REQ_REDIS_HGETALL);
       (text "hincrby", CMD_REQ_REDIS_HINCRBY); (text "linsert", CMD_REQ_REDIS_LINSERT);
       (text "zincrby", CMD_REQ_REDIS_ZINCRBY); (text "evalsha", CMD_REQ_REDIS_EVALSHA);
       (text "restore", CMD_REQ_REDIS_RESTORE); (text "pfcount", CMD_REQ_REDIS_PFCOUNT);
       (text "pfmerge", CMD_REQ_REDIS_PFMERGE)]
  | 8 =>
      [(text "expireat", CMD_REQ_REDIS_EXPIREAT); (text "bitcount", CMD_REQ_REDIS_BITCOUNT);
       (text "getrange", CMD_REQ_REDIS_GETRANGE); (text "setrange", CMD_REQ_REDIS_SETRANGE);
       (text "smembers", CMD_REQ_REDIS_SMEMBERS); (text "xpending", CMD_REQ_REDIS_XPENDING);
       (text "zrevrank", CMD_REQ_REDIS_ZREVRANK)]
  | 9 =>
      [(text "pexpireat", CMD_REQ_REDIS_PEXPIREAT); (text "rpoplpush", CMD_REQ_REDIS_RPOPLPUSH);
       (text "sismember", CMD_REQ_REDIS_SISMEMBER); (text "xrevrange", CMD_REQ_REDIS_XREVRANGE);
       (text "zrevrange", CMD_REQ_REDIS_ZREVRANGE); (text "zlexcount", CMD_REQ_REDIS_ZLEXCOUNT)]
  | 10 =>
      [(text "sdiffstore", CMD_REQ_REDIS_SDIFFSTORE); (text "xautoclaim", CMD_REQ_REDIS_XAUTOCLAIM)]
  | 11 =>
      [(text "incrbyfloat", CMD_REQ_REDIS_INCRBYFLOAT); (text "sinterstore", CMD_REQ_REDIS_SINTERSTORE);
       (text "srandmember", CMD_REQ_REDIS_SRANDMEMBER); (text "sunionstore", CMD_REQ_REDIS_SUNIONSTORE);
       (text "zinterstore", CMD_REQ_REDIS_ZINTERSTORE); (text "zunionstore", CMD_REQ_REDIS_ZUNIONSTORE);
       (text "zrangebylex", CMD_REQ_REDIS_ZRANGEBYLEX)]
  | 12 =>
      [(text "hincrbyfloat", CMD_REQ_REDIS_HINCRBYFLOAT)]
  | 13 =>
      [(text "zrangebyscore", CMD_REQ_REDIS_ZRANGEBYSCORE)]
  | 14 =>
      [(text "zremrangebylex", CMD_REQ_REDIS_ZREMRANGEBYLEX)]
  | 15 =>
      [(text "zremrangebyrank", CMD_REQ_REDIS_ZREMRANGEBYRANK)]
  | 16 =>
      [(text "zremrangebyscore", CMD_REQ_REDIS_ZREMRANGEBYSCORE);
       (text "zrevrangebyscore", CMD_REQ_REDIS_ZREVRANGEBYSCORE)]
  | _ => []
  end.

Fixpoint first_verb (m : list Z) (len : Z) (l : list (list Z * cmd_type)) : comp cmd_type :=
  match l with
  | [] => Ret CMD_UNKNOWN
  | (v, t) :: l => let! same := strncaseeq m v len in if same : bool then Ret t else first_verb m len l
  end.

Definition redis_parse_cmd_verb (m : list Z) (len : Z) : comp cmd_type := first_verb m len (verbs len).

(** ** The machine *)

Inductive state :=
  SW_START | SW_NARG | SW_NARG_LF | SW_CMD_TYPE_LEN | SW_CMD_TYPE_LEN_LF | SW_CMD_TYPE | SW_CMD_TYPE_LF
| SW_KEY_LEN | SW_KEY_LEN_LF | SW_KEY | SW_KEY_LF | SW_ARG1_LEN | SW_ARG1_LEN_LF | SW_ARG1 | SW_ARG1_LF
| SW_ARG2_LEN | SW_ARG2_LEN_LF | SW_ARG2 | SW_ARG2_LF | SW_ARG3_LEN | SW_ARG3_LEN_LF | SW_ARG3 | SW_ARG3_LF
| SW_ARGN_LEN | SW_ARGN_LEN_LF | SW_ARGN | SW_ARGN_LF | SW_SENTINEL.

#[export] Instance state_eq_dec : EqDecision state.
Proof. solve_decision. Defined.

Definition states : list state :=
  [SW_START; SW_NARG; SW_NARG_LF; SW_CMD_TYPE_LEN; SW_CMD_TYPE_LEN_LF; SW_CMD_TYPE; SW_CMD_TYPE_LF;
   SW_KEY_LEN; SW_KEY_LEN_LF; SW_KEY; SW_KEY_LF; SW_ARG1_LEN; SW_ARG1_LEN_LF; SW_ARG1; SW_ARG1_LF;
   SW_ARG2_LEN; SW_ARG2_LEN_LF; SW_ARG2; SW_ARG2_LF; SW_ARG3_LEN; SW_ARG3_LEN_LF; SW_ARG3; SW_ARG3_LF;
   SW_ARGN_LEN; SW_ARGN_LEN_LF; SW_ARGN; SW_ARGN_LF; SW_SENTINEL].

Definition state_number (s : state) : Z := number s states.

(** The variables of [redis_parse_cmd]. *)
Record fsa := mkFsa { p : Z; token : option Z; rlen : Z; rnarg : Z; sw : state; req : cmd }.

(** How a round ends: [break] or one of the labels. *)
Inductive act := Next (s : fsa) | Finish (s : fsa) | Error (s : fsa) | Oom (s : fsa).

Definition with_token (t : option Z) (s : fsa) : fsa := mkFsa (p s) t (rlen s) (rnarg s) (sw s) (req s).
Definition with_rlen (n : Z) (s : fsa) : fsa := mkFsa (p s) (token s) n (rnarg s) (sw s) (req s).
Definition with_rnarg (n : Z) (s : fsa) : fsa := mkFsa (p s) (token s) (rlen s) n (sw s) (req s).
Definition with_p (i : Z) (s : fsa) : fsa := mkFsa i (token s) (rlen s) (rnarg s) (sw s) (req s).
Definition with_req (r : cmd) (s : fsa) : fsa := mkFsa (p s) (token s) (rlen s) (rnarg s) (sw s) r.
Definition goto (q : state) (s : fsa) : fsa := mkFsa (p s) (token s) (rlen s) (rnarg s) q (req s).

Definition CR : Z := 13.
Definition LF : Z := 10.

Section machine.
Context {A : Allocator} {G : Garbage} {U : Uninit keypos} {P : HiAssert}.
Context (buf : list Z) (cmd_end : Z).

(** [n * 10 + (uint32_t)(ch - '0')] *)
Definition shift_digit (n ch : Z) : Z := u32 (n * 10 + u32 (ch - 48)).

Definition sw_narg (ch : Z) (s : fsa) : act :=
  match token s with
  | None =>
      if negb (ch =? 42) then Error s
      else
        let r := with_narg (Some (p s)) (narg_end (req s)) (narg (req s)) (req s) in
        Next (goto SW_NARG (with_rnarg 0 (with_token (Some (p s)) (with_req r s))))
  | Some _ =>
      if isdigit ch then Next (with_rnarg (shift_digit (rnarg s) ch) s)
      else if ch =? CR then
        if rnarg s =? 0 then Error s
        else
          let r := with_narg (narg_start (req s)) (Some (p s)) (rnarg s) (req s) in
          Next (goto SW_NARG_LF (with_token None (with_req r s)))
      else Error s
  end.

(** The states that wait for one LF. *)
Definition sw_lf (next : state) (ch : Z) (s : fsa) : act := if ch =? LF then Next (goto next s) else Error s.

(** The states that read the length of a word; [bad] is the test at its CR. *)
Definition sw_len (bad : fsa -> Z -> bool) (next : state) (ch : Z) (s : fsa) : act :=
  match token s with
  | None => if negb (ch =? 36) then Error s else Next (with_rlen 0 (with_token (Some (p s)) s))
  | Some t =>
      if isdigit ch then Next (with_rlen (shift_digit (rlen s) ch) s)
      else if ch =? CR then
        if bad s t then Error s else Next (goto next (with_token None (with_rnarg (u32 (rnarg s - 1)) s)))
      else Error s
  end.

Definition sw_cmd_type_len (ch : Z) (s : fsa) : act := sw_len (fun s _ => (rlen s =? 0) || (rnarg s =? 0)) SW_CMD_TYPE_LEN_LF ch s.
Definition sw_key_len (ch : Z) (s : fsa) : act := sw_len (fun s _ => rnarg s =? 0) SW_KEY_LEN_LF ch s.
Definition sw_arg_len (next : state) (ch : Z) (s : fsa) : act := sw_len (fun s t => (p s - t <=? 1) || (rnarg s =? 0)) next ch s.

(** The end [m] of a word that starts at [i]: it is in the text and has a CR. *)
Definition word_end (i : Z) (s : fsa) : comp (option Z) :=
  let m := i + rlen s in
  if cmd_end <=? m then Ret None
  else let! c := rd buf m in Ret (if c =? CR then Some m else None).

Definition sw_cmd_type (s : fsa) : comp act :=
  let t := default (p s) (token s) in
  let s := with_token (Some t) s in
  let! m := word_end t s in
  match m with
  | None => Ret (Error s)
  | Some m =>
      let s := with_token None (with_rlen 0 (with_p m s)) in
      let! type := redis_parse_cmd_verb (drop (Z.to_nat t) buf) (m - t) in
      let s := with_req (with_type type (req s)) s in
      Ret (if bool_decide (type = CMD_UNKNOWN) then Error s else Next (goto SW_CMD_TYPE_LF s))
  end.

Definition sw_cmd_type_lf (ch : Z) (s : fsa) : act :=
  let t := type (req s) in
  if negb (ch =? LF) then Error s
  else if redis_argz t then Finish s
  else if redis_argeval t || redis_argsub t then Next (goto SW_ARG1_LEN s)
  else Next (goto SW_KEY_LEN s).

(** [remain_len] of the new element is not set. *)
Definition sw_key (s : fsa) (h : heap) : comp (act * heap) :=
  let t := default (p s) (token s) in
  let s := with_token (Some t) s in
  let! m := word_end t s in
  match m with
  | None => Ret (Error s, h)
  | Some m =>
      let s := with_token None (with_rlen 0 (with_p m s)) in
      let! a := deref (keys (req s)) in
      let! '(kpos, a, h) := hiarray_push a h in
      match kpos with
      | None => Ret (Oom (with_req (with_keys (Some a) (req s)) s), h)
      | Some i =>
          let! k := load_elem a i in
          let! a := store_elem a i (mkKey t m (remain_len k)) in
          Ret (Next (goto SW_KEY_LF (with_req (with_keys (Some a) (req s)) s)), h)
      end
  end.

Definition sw_key_lf (ch : Z) (s : fsa) : act :=
  let t := type (req s) in
  let n := rnarg s in
  if negb (ch =? LF) then Error s
  else if redis_arg0 t then if negb (n =? 0) then Error s else Finish s
  else if redis_arg1 t then if negb (n =? 1) then Error s else Next (goto SW_ARG1_LEN s)
  else if redis_arg2 t then if negb (n =? 2) then Error s else Next (goto SW_ARG1_LEN s)
  else if redis_arg3 t then if negb (n =? 3) then Error s else Next (goto SW_ARG1_LEN s)
  else if redis_argn t then if n =? 0 then Finish s else Next (goto SW_ARG1_LEN s)
  else if redis_argx t then if n =? 0 then Finish s else Next (goto SW_KEY_LEN s)
  else if redis_argkvx t then
    if n =? 0 then Finish s else if narg (req s) mod 2 =? 0 then Error s else Next (goto SW_ARG1_LEN s)
  else if redis_argeval t || redis_argsub t then if n =? 0 then Finish s else Next (goto SW_ARGN_LEN s)
  else Error s.

(** SW_ARG1, SW_ARG3 and SW_ARGN. *)
Definition sw_arg (next : state) (s : fsa) : comp act :=
  let! m := word_end (p s) s in
  match m with
  | None => Ret (Error s)
  | Some m => Ret (Next (goto next (with_rlen 0 (with_p m s))))
  end.

Definition sw_arg1_lf (ch : Z) (s : fsa) : act :=
  let t := type (req s) in
  let n := rnarg s in
  if negb (ch =? LF) then Error s
  else if redis_arg1 t then if negb (n =? 0) then Error s else Finish s
  else if redis_arg2 t then if negb (n =? 1) then Error s else Next (goto SW_ARG2_LEN s)
  else if redis_arg3 t then if negb (n =? 2) then Error s else Next (goto SW_ARG2_LEN s)
  else if redis_argn t then if n =? 0 then Finish s else Next (goto SW_ARGN_LEN s)
  else if redis_argeval t then if n <? 2 then Error s else Next (goto SW_ARG2_LEN s)
  else if redis_argsub t then if n <? 1 then Error s else Next (goto SW_KEY_LEN s)
  else if redis_argkvx t then if n =? 0 then Finish s else Next (goto SW_KEY_LEN s)
  else Error s.

(** The number in the characters from [chp] to [e], or None at another one. *)
Fixpoint scan_nkey (k : nat) (chp nkey : Z) : comp (option Z) :=
  match k with
  | O => Ret (Some nkey)
  | Datatypes.S k =>
      let! c := rd buf chp in
      if isdigit c then scan_nkey k (chp + 1) (shift_digit nkey c) else Ret None
  end.

Definition sw_arg2 (s : fsa) : comp act :=
  let s :=
    match token s with
    | None => if redis_argeval (type (req s)) then with_token (Some (p s)) s else s
    | Some _ => s
    end in
  let! m := word_end (p s) s in
  match m with
  | None => Ret (Error s)
  | Some m =>
      let s := with_rlen 0 (with_p m s) in
      if redis_argeval (type (req s)) then
        let! t := deref (token s) in
        if p s - t <? 1 then Ret (Error s)
        else
          let! nkey := scan_nkey (Z.to_nat (p s - t)) t 0 in
          match nkey with
          | None => Ret (Error s)
          | Some n => Ret (if n =? 0 then Error s else Next (goto SW_ARG2_LF (with_token None s)))
          end
      else Ret (Next (goto SW_ARG2_LF s))
  end.

Definition sw_arg2_lf (ch : Z) (s : fsa) : act :=
  let t := type (req s) in
  let n := rnarg s in
  if negb (ch =? LF) then Error s
  else if redis_arg2 t then if negb (n =? 0) then Error s else Finish s
  else if redis_arg3 t then if negb (n =? 1) then Error s else Next (goto SW_ARG3_LEN s)
  else if redis_argn t then if n =? 0 then Finish s else Next (goto SW_ARGN_LEN s)
  else if redis_argeval t then if n <? 1 then Error s else Next (goto SW_KEY_LEN s)
  else Error s.

Definition sw_arg3_lf (ch : Z) (s : fsa) : act :=
  let t := type (req s) in
  let n := rnarg s in
  if negb (ch =? LF) then Error s
  else if redis_arg3 t then if negb (n =? 0) then Error s else Finish s
  else if redis_argn t then if n =? 0 then Finish s else Next (goto SW_ARGN_LEN s)
  else Error s.

Definition sw_argn_lf (ch : Z) (s : fsa) : act :=
  let t := type (req s) in
  if negb (ch =? LF) then Error s
  else if redis_argn t || redis_argeval t || redis_argsub t then
    if rnarg s =? 0 then Finish s else Next (goto SW_ARGN_LEN s)
  else Error s.

(** [switch (state)] *)
Definition switch (ch : Z) (s : fsa) (h : heap) : comp (act * heap) :=
  match sw s with
  | SW_START | SW_NARG => Ret (sw_narg ch s, h)
  | SW_NARG_LF => Ret (sw_lf SW_CMD_TYPE_LEN ch s, h)
  | SW_CMD_TYPE_LEN => Ret (sw_cmd_type_len ch s, h)
  | SW_CMD_TYPE_LEN_LF => Ret (sw_lf SW_CMD_TYPE ch s, h)
  | SW_CMD_TYPE => let! a := sw_cmd_type s in Ret (a, h)
  | SW_CMD_TYPE_LF => Ret (sw_cmd_type_lf ch s, h)
  | SW_KEY_LEN => Ret (sw_key_len ch s, h)
  | SW_KEY_LEN_LF => Ret (sw_lf SW_KEY ch s, h)
  | SW_KEY => sw_key s h
  | SW_KEY_LF => Ret (sw_key_lf ch s, h)
  | SW_ARG1_LEN => Ret (sw_arg_len SW_ARG1_LEN_LF ch s, h)
  | SW_ARG1_LEN_LF => Ret (sw_lf SW_ARG1 ch s, h)
  | SW_ARG1 => let! a := sw_arg SW_ARG1_LF s in Ret (a, h)
  | SW_ARG1_LF => Ret (sw_arg1_lf ch s, h)
  | SW_ARG2_LEN => Ret (sw_arg_len SW_ARG2_LEN_LF ch s, h)
  | SW_ARG2_LEN_LF => Ret (sw_lf SW_ARG2 ch s, h)
  | SW_ARG2 => let! a := sw_arg2 s in Ret (a, h)
  | SW_ARG2_LF => Ret (sw_arg2_lf ch s, h)
  | SW_ARG3_LEN => Ret (sw_arg_len SW_ARG3_LEN_LF ch s, h)
  | SW_ARG3_LEN_LF => Ret (sw_lf SW_ARG3 ch s, h)
  | SW_ARG3 => let! a := sw_arg SW_ARG3_LF s in Ret (a, h)
  | SW_ARG3_LF => Ret (sw_arg3_lf ch s, h)
  | SW_ARGN_LEN => Ret (sw_arg_len SW_ARGN_LEN_LF ch s, h)
  | SW_ARGN_LEN_LF => Ret (sw_lf SW_ARGN ch s, h)
  | SW_ARGN => let! a := sw_arg SW_ARGN_LF s in Ret (a, h)
  | SW_ARGN_LF => Ret (sw_argn_lf ch s, h)
  | SW_SENTINEL => let! _ := ASSERT false in Ret (Next s, h)
  end.

(** The loop, which ends with [Next] after the last byte. *)
Fixpoint parse_loop (fuel : nat) (s : fsa) (h : heap) : comp (act * heap) :=
  if p s <? cmd_end then
    match fuel with
    | O => NoFuel
    | Datatypes.S f =>
        let! ch := rd buf (p s) in
        let! '(a, h) := switch ch s h in
        match a with
        | Next s => parse_loop f (with_p (p s + 1) s) h
        | _ => Ret (a, h)
        end
    end
  else Ret (Next s, h).
End machine.

Section command.
Context {A : Allocator} {G : Garbage} {U : Uninit keypos} {P : HiAssert}.

Definition error_text (s : fsa) : list Z :=
  text "Parse command error. Cmd type: " ++ dec (type_number (type (req s))) ++ text ", state: " ++
  dec (state_number (sw s)) ++ text ", break position: " ++ dec (i32 (p s)) ++ text ".".

(** [_scnprintf (b, size, ...)] and its result. *)
Definition scnprintf (b : list Z) (size : Z) (t : list Z) : comp (list Z * Z) :=
  let! b := wr_block b 0 (take (Z.to_nat (size - 1)) t ++ [0]) in
  Ret (b, if blen t <? size then blen t else size - 1).

(** The labels [error] and [oom]. *)
Definition parse_error (s : fsa) (h : heap) : comp (cmd * heap) :=
  let r := with_result CMD_PARSE_ERROR (req s) in
  let '(e, h) :=
    match errstr r with
    | Some e => (Some e, h)
    | None =>
        match malloc h with
        | (Some b, h) => (Some (b, fresh b 100), h)
        | (None, h) => (None, h)
        end
    end in
  match e with
  | None => Ret (with_result CMD_PARSE_ENOMEM r, h)
  | Some (b, t) =>
      let! '(t, len) := scnprintf t 100 (error_text s) in
      let! t := wr t len 0 in
      Ret (with_errstr (Some (b, t)) r, h)
  end.

Definition redis_parse_cmd (r : cmd) (h : heap) : comp (cmd * heap) :=
  let cmd_end := clen r in
  let s := mkFsa 0 None 0 0 SW_START r in
  let! _ := ASSERT ((state_number SW_START <=? state_number (sw s)) && (state_number (sw s) <? state_number SW_SENTINEL)) in
  let! _ := ASSERT (bool_decide (is_Some (cmd_ptr r)) && (0 <? clen r)) in
  let buf := match cmd_ptr r with Some (_, buf) => buf | None => [] end in
  let! '(a, h) := parse_loop buf cmd_end (Z.to_nat cmd_end) s h in
  match a with
  | Next s => let! _ := ASSERT (p s =? cmd_end) in Ret (req s, h)
  | Finish s =>
      let t := type_number (type (req s)) in
      let! _ := ASSERT ((type_number CMD_UNKNOWN <? t) && (t <? type_number CMD_SENTINEL)) in
      Ret (with_result CMD_PARSE_OK (req s), h)
  | Error s => parse_error s h
  | Oom s => Ret (with_result CMD_PARSE_ENOMEM (req s), h)
  end.

Definition sizeof_keypos : Z := 24.

(** [cmd_id] is the counter of the file. *)
Definition command_get (cmd_id : Z) (h : heap) : comp (option (Z * cmd) * Z * heap) :=
  match malloc h with
  | (None, h) => Ret (None, cmd_id, h)
  | (Some b, h) =>
      let cmd_id := u64 (cmd_id + 1) in
      let! '(k, h) := hiarray_create 1 sizeof_keypos h in
      match k with
      | None => let! h := free b h in Ret (None, cmd_id, h)
      | Some a =>
          Ret (Some (b, mkCmd cmd_id CMD_PARSE_OK None CMD_UNKNOWN None 0 (Some a) None None 0 0 0 (-1) None None None None),
               cmd_id, h)
      end
  end.
End command.
