(* ===== verification/CmdProof.v ===== *)
(** * The keys of a command

    [redis_parse_cmd] of [CmdParse]: on any text it returns, stays inside the
    text and records keys in order ([parse_cmd_safe]); on the text that the
    command writer makes for a list of words it records the words that are
    keys by the layout of the command ([parse_cmd_keys]). *)

From stdpp Require Import gmap.
From Stdlib Require Import String Sorted.
From S2P Require Import Prelude Cstdlib Heap Sds Reader Resp CommandProof Hiarray CmdParse.

#[local] Open Scope Z_scope.
#[local] Set Warnings "-clear-no-such-hyp".
#[local] Arguments cbind {A B} !m k /.

(** ** Verbs *)

Lemma first_verb_ret m len l : 0 <= len -> len <= blen m -> Forall (fun v => blen v.1 = len) l -> returns (first_verb m len l).
Proof.
  intros H0 Hm. induction 1 as [|[v t] l Hv _ IH]; cbn [first_verb]; [apply returns_Ret|]. cbn in Hv.
  apply returns_bind; [by apply strncaseeq_ret; lia|]. intros [|] _; [apply returns_Ret|done].
Qed.

Lemma verbs_length len : Forall (fun v => blen v.1 = len) (verbs len).
Proof.
  unfold verbs. repeat match goal with |- context [match ?x with _ => _ end] => is_var x; destruct x; try apply Forall_nil_2 end;
    repeat (apply Forall_cons; split; [reflexivity|]); apply Forall_nil_2; done.
Qed.

Lemma verb_ret m len : 0 <= len -> len <= blen m -> returns (redis_parse_cmd_verb m len).
Proof. intros. apply first_verb_ret; [done..|apply verbs_length]. Qed.

(** The verb of a word, whatever the case of its letters. *)
Definition find_verb (w : list Z) (l : list (list Z * cmd_type)) : cmd_type :=
  match filter (fun v => strcaseeq w v.1 = true) l with
  | (_, t) :: _ => t
  | [] => CMD_UNKNOWN
  end.

Definition verb_of (w : list Z) : cmd_type := find_verb w (verbs (blen w)).

Lemma tolower_0 c : tolower c = 0 -> c = 0.
Proof. unfold tolower. destruct ((65 <=? c) && (c <=? 90)) eqn:E; zify_bool; lia. Qed.

Lemma cstr_shorter w : 0 ∈ w -> blen (cstr w) < blen w.
Proof.
  unfold blen. induction w as [|c w IH]; cbn; [by intros ?%elem_of_nil|]. destruct (Z.eqb_spec c 0); cbn; [lia|].
  rewrite elem_of_cons. intros [?|H%IH]; [congruence|lia].
Qed.

(** A NUL in the word does not make it match. *)
Lemma caseeq_cstr w v : 0 ∉ v -> blen v = blen w -> strcaseeq (cstr w) v = strcaseeq w v.
Proof.
  intros Hv Hl. destruct (decide (0 ∈ w)) as [H|H]; [|by rewrite cstr_no_nul].
  pose proof (cstr_shorter w H) as Hs. unfold strcaseeq. rewrite !bool_decide_false; [done| |].
  - intros E. apply Hv.  assert (0 ∈ map tolower w) as H0 by (apply list_elem_of_fmap; by exists 0). rewrite E in H0.
    apply list_elem_of_fmap in H0 as (c & Hc & Hin). by rewrite <- (tolower_0 c).
  - intros E. apply (f_equal length) in E. rewrite !length_map in E. unfold blen in *. lia.
Qed.

Lemma first_verb_spec w rest l : Forall (fun v => blen v.1 = blen w /\ 0 ∉ v.1) l ->
  first_verb (w ++ rest) (blen w) l = Ret (find_verb w l).
Proof.
  unfold find_verb. induction 1 as [|[v t] l [Hl Hv] _ IH]; cbn [first_verb]; [done|]. cbn in Hl, Hv.
  unfold strncaseeq. pose proof (blen_nonneg w). rewrite rd_block_0_app, rd_block_0_all by lia. rewrite <- Hl, rd_block_0_all, Hl.
  cbn [cbind]. rewrite (cstr_no_nul v), caseeq_cstr by done. rewrite filter_cons. cbn. by destruct (strcaseeq w v); [|rewrite IH].
Qed.

Lemma verbs_text len : Forall (fun v => 0 ∉ v.1) (verbs len).
Proof.
  unfold verbs. repeat match goal with |- context [match ?x with _ => _ end] => is_var x; destruct x; try apply Forall_nil_2 end;
    repeat (apply Forall_cons; split; [by apply (bool_decide_unpack (0 ∉ _))|]); apply Forall_nil_2; done.
Qed.

Lemma parse_verb w rest : redis_parse_cmd_verb (w ++ rest) (blen w) = Ret (verb_of w).
Proof. apply first_verb_spec. apply Forall_and. split; [apply verbs_length|apply verbs_text]. Qed.

(** ** Any text *)

Section any.
Context {A : Allocator} {G : Garbage} {U : Uninit keypos} {P : HiAssert}.
Context (buf : list Z) (cmd_end : Z).
Hypothesis Hend : cmd_end <= blen buf < 2 ^ 31.
Context (h0 : heap) (rest : list Z) (r0 : cmd).

(** A word between its start and its CR, before [hi]. *)
Definition key_in (hi : Z) (k : keypos) : Prop := 0 <= kstart k <= kend k /\ kend k < hi /\ rd buf (kend k) = Ret CR.

(** Keys one behind the other. *)
Definition keys_ok (hi : Z) (l : list keypos) : Prop :=
  StronglySorted (fun k k' => kend k < kstart k') l /\ Forall (key_in hi) l /\ Z.of_nat (length l) <= hi.

Lemma keys_ok_mono hi hi' l : keys_ok hi l -> hi <= hi' -> keys_ok hi' l.
Proof.
  intros (H1 & H2 & H3) H. split; [done|]. split; [|lia]. eapply Forall_impl; [done|]. intros k (K1 & K2 & K3). split; [done|]. split; [lia|done].
Qed.

Lemma keys_ok_snoc hi l t m x : keys_ok hi l -> hi <= t <= m -> 0 <= t -> rd buf m = Ret CR -> keys_ok (m + 1) (l ++ [mkKey t m x]).
Proof.
  intros (H1 & H2 & H3) Ht H0 Hm. split; [|split].
  - clear H3. induction l as [|k l IH]; cbn [app]; [by repeat constructor|]. apply Forall_cons in H2 as [(K1 & K2 & K3) H2].
    apply StronglySorted_inv in H1 as [H1 H1']. constructor; [by apply IH|]. apply Forall_app. split; [done|]. repeat constructor. cbn. lia.
  - apply Forall_app. split; [apply (keys_ok_mono hi (m + 1) l); [done|lia]|]. repeat constructor; cbn; (done || lia).
  - rewrite length_app. cbn. lia.
Qed.

(** The request has the fields of [r0] except those that the parser sets. *)
Definition from_r0 (a : hiarray keypos) (r : cmd) : Prop :=
  exists ty ns ne n, r = with_keys (Some a) (with_type ty (with_narg ns ne n r0)).

(** The keys found before [hi], and the memory they take. *)
Definition held (hi : Z) (r : cmd) (h : heap) : Prop :=
  exists a l, from_r0 a r /\ array_ok a l /\ esize a = sizeof_keypos /\ keys_ok hi l /\ acquires h0 (array_blocks a ++ rest) h.

Definition sw_has_token (q : state) : bool :=
  match q with
  | SW_START | SW_NARG | SW_CMD_TYPE_LEN | SW_KEY_LEN | SW_ARG1_LEN | SW_ARG2_LEN | SW_ARG3_LEN | SW_ARGN_LEN => true
  | _ => false
  end.

Record inv (s : fsa) (h : heap) : Prop := {
  inv_p : 0 <= p s;
  inv_token : if sw_has_token (sw s) then True else token s = None;
  inv_sw : sw s <> SW_SENTINEL;
  inv_rlen : 0 <= rlen s;
  inv_held : held (p s) (req s) h
}.

(** A type of the enumeration that is not the unknown one. *)
Definition known (t : cmd_type) : Prop := (type_number CMD_UNKNOWN <? type_number t) && (type_number t <? type_number CMD_SENTINEL) = true.

Lemma known_test t :
  Forall (fun f : cmd_type -> bool => f t = true -> known t)
    [redis_argz; redis_arg0; redis_arg1; redis_arg2; redis_arg3; redis_argn; redis_argx; redis_argkvx; redis_argsub; redis_argeval].
Proof. destruct t; repeat (apply Forall_cons; split; [done|]); done. Qed.

(** What a round leaves. *)
Definition round_ok (p0 : Z) (a : act) (h : heap) : Prop :=
  match a with
  | Next s => p0 <= p s < cmd_end /\ inv (with_p (p s + 1) s) h
  | Finish s => p0 <= p s < cmd_end /\ held cmd_end (req s) h /\ known (type (req s))
  | Error s => p0 <= p s < cmd_end /\ held cmd_end (req s) h
  | Oom s => held cmd_end (req s) h /\ exists n, grants n = false
  end.

Lemma held_later hi hi' r h : held hi r h -> hi <= hi' -> held hi' r h.
Proof. intros (a & l & H1 & H2 & H3 & H4 & H5) H. exists a, l. split; [done|]. split; [done|]. split; [done|]. split; [by eapply keys_ok_mono|done]. Qed.

Lemma held_type hi r h ty : held hi r h -> held hi (with_type ty r) h.
Proof. intros (a & l & (ty' & ns' & ne' & n' & ->) & H). exists a, l. split; [by repeat eexists|done]. Qed.

Lemma held_narg hi r h ns ne n : held hi r h -> held hi (with_narg ns ne n r) h.
Proof. intros (a & l & (ty' & ns' & ne' & n' & ->) & H). exists a, l. split; [by repeat eexists|done]. Qed.

Lemma shift_digit_range n c : 0 <= shift_digit n c < 2 ^ 32.
Proof. unfold shift_digit, u32. apply Z.mod_pos_bound. lia. Qed.

Lemma word_end_ok i s : 0 <= i -> 0 <= rlen s ->
  yields (word_end buf cmd_end i s) (fun m =>
    match m with
    | Some m => m = i + rlen s /\ m < cmd_end /\ rd buf m = Ret CR
    | None => True
    end).
Proof.
  intros Hi Hr. unfold word_end. destruct (Z.leb_spec cmd_end (i + rlen s)); [by apply yields_Ret|].
  destruct (rd_in_bounds buf (i + rlen s)) as [c Hc]; [lia|]. rewrite Hc. apply yields_Ret.
  destruct (Z.eqb_spec c CR) as [->|]; done.
Qed.

Lemma next_ok p0 s h q tk n k : inv s h -> p0 <= p s < cmd_end -> (if sw_has_token q then True else tk = None) -> q <> SW_SENTINEL -> 0 <= n ->
  round_ok p0 (Next (mkFsa (p s) tk n k q (req s))) h.
Proof.
  intros [I1 I2 I0 I3 I4] Hp Ht Hq Hn. split; [done|]. split; cbn; [lia|done|done|done|]. eapply held_later; [done|lia].
Qed.

Lemma error_ok p0 s h : inv s h -> p0 <= p s < cmd_end -> round_ok p0 (Error s) h.
Proof. intros [I1 I2 I0 I3 I4] Hp. split; [done|]. eapply held_later; [done|lia]. Qed.

Lemma finish_round_ok p0 s h : inv s h -> p0 <= p s < cmd_end -> known (type (req s)) -> round_ok p0 (Finish s) h.
Proof. intros [I1 I2 I0 I3 I4] Hp Hk. split; [done|]. split; [eapply held_later; [done|lia]|done]. Qed.

(** A test of the type that holds. *)
Ltac known_type :=
  match goal with |- known ?t => pose proof (known_test t) end;
  repeat match goal with H : _ || _ = true |- _ => apply orb_prop in H as [H|H] end;
  repeat match goal with
  | H : Forall (fun f => f ?t = true -> _) _ |- _ => apply Forall_cons in H as [? H]
  | H : ?f ?t = true -> known ?t |- known ?t => first [exact (H ltac:(assumption))|clear H]
  end.

(** The handlers that only read the byte: every branch ends in one of the
    three lemmas. *)
Ltac branches :=
  repeat first
    [ apply error_ok; assumption
    | apply finish_round_ok; [assumption|assumption|known_type]
    | match goal with Hi : inv ?s ?h |- _ => apply (next_ok _ s h) end; [assumption|assumption|done|done|first [lia|apply shift_digit_range|by eapply inv_rlen]]
    | case_goal ].

Lemma sw_narg_ok ch s h : inv s h -> sw_has_token (sw s) = true -> p s < cmd_end -> round_ok (p s) (sw_narg ch s) h.
Proof.
  intros Hi Hq Hp. assert (Hr : p s <= p s < cmd_end) by lia. pose proof Hi as [I1 I2 I0 I3 I4]. unfold sw_narg.
  destruct (token s) eqn:Et; repeat case_goal; try (apply error_ok; assumption).
  - split; [done|]. split; cbn; [lia|by rewrite Hq|done|done|]. eapply held_later; [done|lia].
  - split; [done|]. split; cbn; [lia|done|done|done|]. eapply held_later; [by apply held_narg|lia].
  - split; [done|]. split; cbn; [lia|done|done|done|]. eapply held_later; [by apply held_narg|lia].
Qed.

Lemma sw_lf_ok next ch s h : next <> SW_SENTINEL -> inv s h -> sw_has_token (sw s) = false -> p s < cmd_end -> round_ok (p s) (sw_lf next ch s) h.
Proof.
  intros Hnext Hi Hq Hp. assert (Hr : p s <= p s < cmd_end) by lia. pose proof (inv_token _ _ Hi) as Ht. rewrite Hq in Ht.
  unfold sw_lf. case_goal; [|by apply error_ok]. apply next_ok; [done|done|by destruct (sw_has_token next)|done|by eapply inv_rlen].
Qed.

Lemma sw_len_ok bad next ch s h : next <> SW_SENTINEL -> inv s h -> sw_has_token (sw s) = true -> sw_has_token next = false -> p s < cmd_end ->
  round_ok (p s) (sw_len bad next ch s) h.
Proof.
  intros Hnext Hi Hq Hn Hp. assert (Hr : p s <= p s < cmd_end) by lia. unfold sw_len. pose proof (inv_sw _ _ Hi).
  destruct (token s) eqn:Et; repeat case_goal; try (by apply error_ok); apply (next_ok (p s) s h); try done; cbn [sw goto with_token with_rnarg with_rlen rlen token]; rewrite ?Hq, ?Hn; try done;
    first [lia|apply shift_digit_range|by eapply inv_rlen].
Qed.

Lemma lf_tests_ok ch s h (f : Z -> fsa -> act) : In f [sw_cmd_type_lf; sw_key_lf; sw_arg1_lf; sw_arg2_lf; sw_arg3_lf; sw_argn_lf] ->
  inv s h -> p s < cmd_end -> sw_has_token (sw s) = false -> round_ok (p s) (f ch s) h.
Proof.
  intros Hf Hi Hp Hq. assert (Hr : p s <= p s < cmd_end) by lia.
  cbn in Hf. unfold sw_cmd_type_lf, sw_key_lf, sw_arg1_lf, sw_arg2_lf, sw_arg3_lf, sw_argn_lf in Hf.
  repeat destruct Hf as [<-|Hf]; [branches..|done].
Qed.

Lemma sw_cmd_type_ok s h : inv s h -> sw s = SW_CMD_TYPE -> p s < cmd_end ->
  yields (sw_cmd_type buf cmd_end s) (fun a => round_ok (p s) a h).
Proof.
  intros Hi Hq Hp. pose proof Hi as [I1 I2 I0 I3 I4]. rewrite Hq in I2. unfold sw_cmd_type. rewrite I2. cbn [default].
  eapply yields_bind; [apply (word_end_ok (p s) (with_token (Some (p s)) s)); done|]. intros [m|] Hm.
  - destruct Hm as (Em & Hm & Hc). cbn in Em.
    destruct (verb_ret (drop (Z.to_nat (p s)) buf) (m - p s)) as [t ->]; [lia|rewrite blen_drop; lia|].
    cbn [cbind]. apply yields_Ret. case_goal; split; cbn; try lia.
    + eapply held_later; [by apply held_type|lia].
    + split; cbn; [lia|done|done|lia|]. eapply held_later; [by apply held_type|lia].
  - apply yields_Ret. split; [cbn; lia|]. eapply held_later; [done|lia].
Qed.

Lemma sw_arg_ok next s h : next <> SW_SENTINEL -> inv s h -> sw_has_token (sw s) = false -> p s < cmd_end ->
  yields (sw_arg buf cmd_end next s) (fun a => round_ok (p s) a h).
Proof.
  intros Hnext Hi Hq Hp. pose proof Hi as [I1 I2 I0 I3 I4]. rewrite Hq in I2. unfold sw_arg.
  eapply yields_bind; [apply (word_end_ok (p s) s); done|]. intros [m|] Hm; [|by apply yields_Ret, error_ok; [|lia]].
  destruct Hm as (-> & Hm & Hc). apply yields_Ret. split; [cbn; lia|]. split; cbn; [lia|by destruct (sw_has_token next)|done|lia|].
  eapply held_later; [done|lia].
Qed.

Lemma sw_key_ok s h : inv s h -> sw s = SW_KEY -> p s < cmd_end ->
  yields (sw_key buf cmd_end s h) (fun '(a, h') => round_ok (p s) a h').
Proof.
  intros Hi Hq Hp. pose proof Hi as [I1 I2 I0 I3 I4]. rewrite Hq in I2. unfold sw_key. rewrite I2. cbn [default].
  eapply yields_bind; [apply (word_end_ok (p s) (with_token (Some (p s)) s)); done|]. intros [m|] Hm.
  2: { apply yields_Ret. split; [cbn; lia|]. eapply held_later; [done|lia]. }
  destruct Hm as (Em & Hm & Hc). cbn in Em. destruct I4 as (a & l & (ty & ns & ne & n & Er) & Ha & Hz & Hk & Hh).
  cbn [req with_token with_rlen with_p]. rewrite Er at 1. cbn [keys with_keys deref cbind].
  pose proof (ok_nelem _ _ Ha) as Hn. pose proof Hk as (_ & _ & Hl).
  eapply yields_bind; [apply (push_slot a l h0 rest h); [done|lia|rewrite Hz; unfold sizeof_keypos; lia|done]|].
  intros [[[i|] a1] h1] (E1 & _ & H1 & Hst).
  - destruct Hst as [[x ->] Hst]. cbn [cbind]. eapply yields_bind; [apply Hst|]. intros a2 (S1 & S2 & S3 & S4).
    apply yields_Ret. split; [cbn; lia|]. split; cbn; [lia|done|done|lia|].
    exists a2, (l ++ [mkKey (p s) m (remain_len x)]). split; [rewrite Er; by repeat eexists|]. split; [done|].
    split; [congruence|]. split; [apply (keys_ok_snoc (p s)); (done || lia)|by rewrite S4].
  - destruct Hst as [-> Hg]. apply yields_Ret. split; [|done]. exists a, l. split; [rewrite Er; by repeat eexists|].
    split; [done|]. split; [done|]. split; [eapply keys_ok_mono; [done|lia]|done].
Qed.

Lemma scan_nkey_ret k : forall c n, 0 <= c -> c + Z.of_nat k <= blen buf -> returns (scan_nkey buf k c n).
Proof.
  induction k as [|k IH]; intros c n Hc Hk; cbn [scan_nkey]; [apply returns_Ret|].
  destruct (rd_in_bounds buf c) as [x ->]; [lia|]. cbn [cbind]. case_goal; [apply IH; lia|apply returns_Ret].
Qed.

Lemma sw_arg2_ok s h : inv s h -> sw s = SW_ARG2 -> p s < cmd_end ->
  yields (sw_arg2 buf cmd_end s) (fun a => round_ok (p s) a h).
Proof.
  intros Hi Hq Hp. pose proof Hi as [I1 I2 I0 I3 I4]. rewrite Hq in I2. unfold sw_arg2. rewrite I2.
  destruct (redis_argeval (type (req s))) eqn:Et.
  - eapply yields_bind; [apply (word_end_ok (p s) (with_token (Some (p s)) s)); done|]. intros [m|] Hm.
    2: { apply yields_Ret. split; [cbn; lia|]. eapply held_later; [done|lia]. }
    destruct Hm as (Em & Hm & Hc). cbn in Em. cbn [req p token with_rlen with_p with_token]. rewrite Et. cbn [deref cbind].
    assert (Herr : forall q, round_ok (p s) (Error (mkFsa m (Some (p s)) 0 (rnarg s) q (req s))) h).
    { intros q. split; [cbn; lia|]. eapply held_later; [done|lia]. }
    case_goal; [apply yields_Ret, Herr|]. destruct (scan_nkey_ret (Z.to_nat (m - p s)) (p s) 0) as [nk ->]; [lia|lia|]. cbn [cbind].
    destruct nk as [nk|]; [|apply yields_Ret, Herr]. apply yields_Ret. case_goal; [apply Herr|].
    split; [cbn; lia|]. split; cbn; [lia|done|done|lia|]. eapply held_later; [done|lia].
  - eapply yields_bind; [apply (word_end_ok (p s) s); done|]. intros [m|] Hm.
    2: { apply yields_Ret. split; [cbn; lia|]. eapply held_later; [done|lia]. }
    destruct Hm as (Em & Hm & Hc). cbn [req with_rlen with_p]. rewrite Et. apply yields_Ret.
    split; [cbn; lia|]. split; cbn; [lia|done|done|lia|]. eapply held_later; [done|lia].
Qed.

Lemma switch_ok ch s h : inv s h -> p s < cmd_end -> yields (switch buf cmd_end ch s h) (fun '(a, h') => round_ok (p s) a h').
Proof.
  intros Hi Hp. assert (Hpure : forall a, yields a (fun a => round_ok (p s) a h) -> yields (let! a := a in Ret (a, h)) (fun '(a, h') => round_ok (p s) a h')).
  { intros a H. eapply yields_bind; [exact H|]. intros x Hx. by apply yields_Ret. }
  unfold switch. destruct (sw s) eqn:Eq;
    first
      [ apply yields_Ret, sw_narg_ok; [done|by rewrite Eq|done]
      | apply yields_Ret, sw_lf_ok; [done|done|by rewrite Eq|done]
      | apply yields_Ret, sw_len_ok; [done|done|by rewrite Eq|done|done]
      | apply yields_Ret; apply (lf_tests_ok ch s h); [cbn; tauto|done|done|by rewrite Eq]
      | apply Hpure, sw_cmd_type_ok; done
      | apply sw_key_ok; done
      | apply Hpure, sw_arg2_ok; done
      | apply Hpure, sw_arg_ok; [done|done|by rewrite Eq|done]
      | by destruct (inv_sw _ _ Hi) ].
Qed.

Lemma parse_loop_ok fuel : forall s h, inv s h -> cmd_end - p s <= Z.of_nat fuel -> p s <= cmd_end ->
  yields (parse_loop buf cmd_end fuel s h) (fun '(a, h') =>
    match a with
    | Oom s' => held cmd_end (req s') h' /\ exists n, grants n = false
    | Next s' => held cmd_end (req s') h' /\ p s' = cmd_end
    | Finish s' => held cmd_end (req s') h' /\ known (type (req s'))
    | Error s' => held cmd_end (req s') h' /\ 0 <= p s' < cmd_end
    end).
Proof.
  induction fuel as [|f IH]; intros s h Hi Hf Hle; pose proof (inv_p _ _ Hi); cbn [parse_loop]; destruct (Z.ltb_spec (p s) cmd_end); try lia.
  1, 3: apply yields_Ret; split; [eapply held_later; [by eapply inv_held|lia]|lia].
  destruct (rd_in_bounds buf (p s)) as [ch ->]; [lia|]. cbn [cbind].
  eapply yields_bind; [by apply switch_ok|]. intros [[s'|s'|s'|s'] h'] Hr.
  - destruct Hr as [Hp' Hi']. apply IH; [done|cbn; lia|cbn; lia].
  - destruct Hr as (Hp' & Hi' & Hk). by apply yields_Ret.
  - destruct Hr as [Hp' Hi']. apply yields_Ret. split; [done|lia].
  - apply yields_Ret. exact Hr.
Qed.
End any.

(** ** The message of an error *)

Lemma number_range {X : Type} {E : EqDecision X} (x : X) l : 0 <= number x l <= Z.of_nat (length l).
Proof. induction l as [|y l IH]; cbn [number length]; [lia|]. destruct (decide (x = y)); lia. Qed.

Lemma dec_no_nul z : 0 <= z -> 0 ∉ dec z.
Proof.
  intros Hz H. unfold dec in H. destruct (Z.ltb_spec z 0); [lia|].
  pose proof (dec_digits_isdigit 20 z [] Hz (Forall_nil_2 _)) as Hd. rewrite Forall_forall in Hd. by apply Hd in H.
Qed.

Lemma error_text_ok s : 0 <= p s < 2 ^ 31 -> blen (error_text s) < 100 /\ 0 ∉ error_text s.
Proof.
  intros Hp. unfold error_text. rewrite i32_small by lia.
  pose proof (number_range (type (req s)) cmd_types) as H1. change (length cmd_types) with 123%nat in H1.
  pose proof (number_range (sw s) states) as H2. change (length states) with 28%nat in H2.
  unfold type_number, state_number. split.
  - pose proof (blen_dec (number (type (req s)) cmd_types) 3 ltac:(lia) ltac:(lia)).
    pose proof (blen_dec (number (sw s) states) 2 ltac:(lia) ltac:(lia)).
    pose proof (blen_dec (p s) 10 ltac:(lia) ltac:(lia)). rewrite !blen_app.
    change (blen (text "Parse command error. Cmd type: ")) with 31. change (blen (text ", state: ")) with 9.
    change (blen (text ", break position: ")) with 18. change (blen (text ".")) with 1. lia.
  - rewrite !not_elem_of_app. repeat split; try (apply dec_no_nul; lia); by apply (bool_decide_unpack (0 ∉ _)).
Qed.

Section message.
Context {A : Allocator} {G : Garbage} {U : Uninit keypos} {P : HiAssert}.

Lemma wr_same t c r : wr (t ++ c :: r) (blen t) c = Ret (t ++ c :: r).
Proof.
  pose proof (blen_nonneg t). pose proof (blen_nonneg r). unfold wr.
  rewrite wr_block_in_bounds by (rewrite ?blen_app, ?blen_cons, ?blen_nil; lia). change (blen [c]) with 1.
  rewrite blen_to_nat, take_app_length, drop_app_ge by (unfold blen; lia).
  replace (Z.to_nat (blen t + 1) - length t)%nat with 1%nat by (unfold blen; lia). done.
Qed.

Lemma scnprintf_ok b t : blen b = 100 -> blen t < 100 -> 0 ∉ t ->
  yields (scnprintf b 100 t) (fun '(b', n) => n = blen t /\ blen b' = 100 /\ exists r, b' = t ++ 0 :: r).
Proof.
  intros Hb Ht H0. unfold scnprintf. pose proof (blen_nonneg t).
  rewrite take_ge by (unfold blen in *; lia). rewrite (proj2 (Z.ltb_lt _ _)) by lia.
  rewrite wr_block_in_bounds by (rewrite ?blen_app, ?blen_cons, ?blen_nil; lia). apply yields_Ret. split; [done|]. split.
  - change (take (Z.to_nat 0) b) with (@nil Z). cbn [app]. rewrite blen_app, blen_drop, blen_app. change (blen [0]) with 1. lia.
  - eexists. change (take (Z.to_nat 0) b) with (@nil Z). cbn [app]. by rewrite <- app_assoc.
Qed.

Lemma parse_error_ok s h0 rest h : acquires h0 rest h -> errstr (req s) = None -> 0 <= p s < 2 ^ 31 ->
  yields (parse_error s h) (fun '(r, h') =>
    (exists b t, r = with_errstr (Some (b, t)) (with_result CMD_PARSE_ERROR (req s)) /\ blen t = 100 /\ cstr t = error_text s /\ acquires h0 (b :: rest) h') \/
    (r = with_result CMD_PARSE_ENOMEM (req s) /\ acquires h0 rest h' /\ exists n, grants n = false)).
Proof.
  intros H He Hp. unfold parse_error. cbn [errstr with_result]. rewrite He. destruct (error_text_ok s Hp) as [Ht H0].
  pose proof (malloc_more h0 rest h H) as Hm. destruct (malloc h) as [[b|] h1].
  - eapply yields_bind; [apply (scnprintf_ok (fresh b 100) (error_text s)); [by apply blen_fresh|done|done]|].
    intros [t n] (-> & Hl & r & Et). pose proof (blen_nonneg (error_text s)).
    assert (wr t (blen (error_text s)) 0 = Ret t) as ->.
    { subst t. apply wr_same. }
    cbn [cbind]. apply yields_Ret. left. exists b, t. split; [done|]. split; [done|]. split; [by rewrite Et, cstr_nul|done].
  - apply yields_Ret. right. split; [|exact Hm]. done.
Qed.
End message.

(** ** Safety *)

Section safety.
Context {A : Allocator} {G : Garbage} {U : Uninit keypos} {P : HiAssert}.

(** A command from [command_get] that was given its text. *)
Definition new_command (r : cmd) (a : hiarray keypos) (blk : Z) (buf : list Z) : Prop :=
  cmd_ptr r = Some (blk, buf) /\ clen r = blen buf /\ keys r = Some a /\ array_ok a [] /\ esize a = sizeof_keypos /\
  result r = CMD_PARSE_OK /\ errstr r = None.

Lemma command_get_ok cmd_id h0 rest h blk buf : acquires h0 rest h ->
  yields (command_get cmd_id h) (fun '(c, _, h') =>
    match c with
    | Some (b, r) => exists a, new_command (with_cmd (Some (blk, buf)) (blen buf) r) a blk buf /\
        acquires h0 (array_blocks a ++ b :: rest) h' /\ type r = CMD_UNKNOWN /\ reply r = None /\ sub_commands r = None /\
        frag_seq r = None /\ node_addr r = None /\ cmd_ptr r = None /\ clen r = 0 /\ narg r = 0 /\ slot_num r = -1
    | None => acquires h0 rest h' /\ exists n, grants n = false
    end).
Proof.
  intros H. unfold command_get. pose proof (malloc_more h0 rest h H) as Hm. destruct (malloc h) as [[b|] h1]; [|by apply yields_Ret].
  eapply yields_bind; [by apply (array_create_ok 1 sizeof_keypos h0 (b :: rest) h1)|]. intros [[a|] h2].
  - intros (Ha & _ & Hz & H2). apply yields_Ret. exists a. unfold new_command. cbn. split_and!; done.
  - intros [H2 Hg]. eapply yields_bind; [by eapply free_first|]. intros h3 H3. by apply yields_Ret.
Qed.

(** The start of the machine on a text, and the message for a stop at [i]. *)
Definition machine_run (r : cmd) (buf : list Z) (h : heap) : comp (act * heap) :=
  parse_loop buf (blen buf) (Z.to_nat (blen buf)) (mkFsa 0 None 0 0 SW_START r) h.

Definition message (t : cmd_type) (q : state) (i : Z) : list Z :=
  text "Parse command error. Cmd type: " ++ dec (type_number t) ++ text ", state: " ++ dec (state_number q) ++
  text ", break position: " ++ dec i ++ text ".".

(** How the machine stopped, the keys it had found by then, and what the
    parser says of it. *)
Definition parsed_ok (h0 : heap) (rest : list Z) (r : cmd) (buf : list Z) (h : heap) (res : cmd * heap) : Prop :=
  let '(r', h') := res in
  exists stop h1 a l, machine_run r buf h = Ret (stop, h1) /\
    from_r0 r a (with_errstr (errstr r) (with_result (result r) r')) /\ array_ok a l /\ keys_ok buf (blen buf) l /\
    match stop with
    | Next _ | Finish _ => result r' = CMD_PARSE_OK /\ errstr r' = None /\ acquires h0 (array_blocks a ++ rest) h'
    | Oom _ => result r' = CMD_PARSE_ENOMEM /\ errstr r' = None /\ acquires h0 (array_blocks a ++ rest) h' /\ exists n, grants n = false
    | Error s => 0 <= p s < blen buf /\
        (result r' = CMD_PARSE_ERROR /\
         (exists b t, errstr r' = Some (b, t) /\ blen t = 100 /\ cstr t = message (type r') (sw s) (p s) /\
            acquires h0 (b :: array_blocks a ++ rest) h') \/
         result r' = CMD_PARSE_ENOMEM /\ errstr r' = None /\ acquires h0 (array_blocks a ++ rest) h' /\ exists n, grants n = false)
    end.

Lemma parse_cmd_ok h0 rest r a blk buf h : new_command r a blk buf -> panics = false \/ 0 < blen buf -> blen buf < 2 ^ 31 ->
  acquires h0 (array_blocks a ++ rest) h -> yields (redis_parse_cmd r h) (parsed_ok h0 rest r buf h).
Proof.
  intros (H1 & H2 & H3 & H4 & H5 & H6 & H7) Hne Hb H. unfold redis_parse_cmd. cbv zeta. rewrite H1, H2. cbn [sw].
  rewrite (ASSERT_true _ eq_refl). cbn [cbind].
  assert (ASSERT (bool_decide (is_Some (Some (blk, buf))) && (0 <? blen buf)) = Ret tt) as ->.
  { unfold ASSERT. rewrite bool_decide_true by eauto. destruct Hne as [->|Hne]; [done|]. rewrite (proj2 (Z.ltb_lt _ _)) by done. by destruct panics. }
  cbn [cbind]. pose proof (blen_nonneg buf). unfold parsed_ok. fold (machine_run r buf h).
  assert (yields (machine_run r buf h) (fun '(a, h') =>
    match a with
    | Oom s' => held buf h0 rest r (blen buf) (req s') h' /\ exists n, grants n = false
    | Next s' => held buf h0 rest r (blen buf) (req s') h' /\ p s' = blen buf
    | Finish s' => held buf h0 rest r (blen buf) (req s') h' /\ known (type (req s'))
    | Error s' => held buf h0 rest r (blen buf) (req s') h' /\ 0 <= p s' < blen buf
    end)) as ([stop h1] & E & Hstop).
  { apply (parse_loop_ok buf (blen buf) ltac:(lia) h0 rest r); [|cbn; lia|cbn; lia].
    split; cbn; [lia|done|done|lia|]. exists a, []. split; [|split; [done|split; [done|split; [|done]]]].
    + exists (type r), (narg_start r), (narg_end r), (narg r). destruct r; cbn in *. by subst.
    + split; [constructor|]. split; [constructor|cbn; lia]. }
  rewrite E. cbn [cbind]. destruct stop as [s|s|s|s]; destruct Hstop as [(a1 & l & (ty & ns & ne & n & Er) & Ha & Hz & Hk & Hh) Hx].
  - rewrite ASSERT_true by lia. apply yields_Ret. exists (Next s), h1, a1, l. split; [done|]. rewrite Er. cbn. split; [by repeat eexists|]. by rewrite H6.
  - rewrite (ASSERT_true _ Hx). apply yields_Ret. exists (Finish s), h1, a1, l. split; [done|]. rewrite Er. cbn. split; [by repeat eexists|done].
  - assert (errstr (req s) = None) as He by (by rewrite Er).
    eapply yields_mono; [apply (parse_error_ok s h0 (array_blocks a1 ++ rest) h1 Hh He); lia|].
    intros [r' h'] [(b & t & -> & Hl & Ht & Hh')|(-> & Hh' & Hg)]; exists (Error s), h1, a1, l; rewrite Er.
    + split; [done|]. cbn. split; [by repeat eexists|]. split; [done|]. split; [done|]. split; [lia|]. left. split; [done|]. exists b, t.
      split; [done|]. split; [done|]. split; [|done]. rewrite Ht. unfold error_text. rewrite Er, i32_small by lia. done.
    + split; [done|]. cbn. split; [by repeat eexists|]. split; [done|]. split; [done|]. split; [lia|]. by right.
  - apply yields_Ret. exists (Oom s), h1, a1, l. split; [done|]. rewrite Er. cbn. split; [by repeat eexists|done].
Qed.

(** A command object for a text, as redisClusterFormattedCommand makes it. *)
Definition parse_text (blk : Z) (buf : list Z) (h : heap) : comp (option (Z * cmd) * heap) :=
  let! '(c, _, h) := command_get 0 h in
  match c with
  | None => Ret (None, h)
  | Some (b, r) => let! '(r, h) := redis_parse_cmd (with_cmd (Some (blk, buf)) (blen buf) r) h in Ret (Some (b, r), h)
  end.

(** C18: on any text, not empty where assertions stop the program,
    [redis_parse_cmd] returns without an access outside the text, the array of
    keys or their blocks and without a failed assertion; what it records are
    disjoint words of the text in order, each followed by its CR.  An error comes
    with a terminated message that names the type, the state and the position
    where the machine stopped; ENOMEM with a refused request. *)
Theorem parse_cmd_safe blk buf h : heap_ok h -> panics = false \/ 0 < blen buf -> blen buf < 2 ^ 31 ->
  yields (parse_text blk buf h) (fun '(c, h') =>
    match c with
    | None => acquires h [] h' /\ exists n, grants n = false
    | Some (b, r') => exists r a n h1, command_get 0 h = Ret (Some (b, r), n, h1) /\
        let r := with_cmd (Some (blk, buf)) (blen buf) r in
        new_command r a blk buf /\ parsed_ok h [b] r buf h1 (r', h')
    end).
Proof.
  intros Hh Hne Hb. unfold parse_text.
  destruct (command_get_ok 0 h [] h blk buf) as ([[c n] h1] & E & Hc); [by apply acquires_nil|]. rewrite E. cbn [cbind].
  destruct c as [[b r]|]; [|by apply yields_Ret]. destruct Hc as (a & Hr & H1 & _).
  eapply yields_bind; [by apply (parse_cmd_ok h [b] (with_cmd (Some (blk, buf)) (blen buf) r) a blk buf h1)|].
  intros [r' h'] Hp. apply yields_Ret. by exists r, a, n, h1.
Qed.
End safety.

(** A text that ends within the length of the second word. *)
Definition cut_text : list Z := text "*2" ++ [13; 10] ++ text "$3" ++ [13; 10] ++ text "GET" ++ [13; 10] ++ text "$".

Lemma parse_cmd_safe_witness :
  yields (@parse_text plenty (fun _ _ => 0) (fun _ _ => mkKey 0 0 0) true 7 cut_text start_heap)
    (fun '(c, h') =>
    match c with
    | None => acquires start_heap [] h' /\ exists n, @grants plenty n = false
    | Some (b, r') => exists r a n h1, @command_get plenty (fun _ _ => mkKey 0 0 0) true 0 start_heap = Ret (Some (b, r), n, h1) /\
        let r := with_cmd (Some (7, cut_text)) (blen cut_text) r in
        new_command r a 7 cut_text /\ @parsed_ok plenty (fun _ _ => mkKey 0 0 0) true start_heap [b] r cut_text h1 (r', h')
    end).
Proof.
  apply (@parse_cmd_safe plenty (fun _ _ => 0) (fun _ _ => mkKey 0 0 0) true).
  - intros b Hb. by apply not_elem_of_empty in Hb.
  - right. reflexivity.
  - reflexivity.
Defined.
