(* ===== verification/CmdKeys.v ===== *)
(** * The keys of a written command

    On the text that the command writer makes for a list of words
    ([CommandProof.command]), [redis_parse_cmd] records exactly the words that
    are keys by the layout of the command ([key_words]).  The proof walks over
    the words with [wp], the outcomes of the loop from a state. *)

From stdpp Require Import gmap.
From Stdlib Require Import String.
From S2P Require Import Prelude Cstdlib Heap Sds Reader Resp CommandProof Hiarray CmdParse CmdProof.

#[local] Open Scope Z_scope.
#[local] Set Warnings "-clear-no-such-hyp".
#[local] Arguments cbind {A B} !m k /.

(** ** The specification

    The commands by name: their type and how their words are laid out, as the
    comments of command.c tell. *)
Inductive shape :=
| NoKey                (* command, whatever its words *)
| Fixed (k : nat)      (* command key, and k arguments *)
| Rest                 (* command key [arg ...] *)
| Keys                 (* command key [key ...] *)
| Pairs                (* command key value [key value ...] *)
| SubKey               (* command subcommand key [arg ...] *)
| NumKeys.             (* command script number key [key ...] [arg ...] *)

#[export] Instance shape_eq_dec : EqDecision shape.
Proof. solve_decision. Defined.

Definition commands : list (string * cmd_type * shape) :=
  [
   ("get", CMD_REQ_REDIS_GET, Fixed 0); ("set", CMD_REQ_REDIS_SET, Rest); ("ttl", CMD_REQ_REDIS_TTL, Fixed 0);
   ("del", CMD_REQ_REDIS_DEL, Keys); ("pttl", CMD_REQ_REDIS_PTTL, Fixed 0); ("decr", CMD_REQ_REDIS_DECR, Fixed 0);
   ("dump", CMD_REQ_REDIS_DUMP, Fixed 0); ("hdel", CMD_REQ_REDIS_HDEL, Rest); ("hget", CMD_REQ_REDIS_HGET, Fixed 1);
   ("hlen", CMD_REQ_REDIS_HLEN, Fixed 0); ("hset", CMD_REQ_REDIS_HSET, Fixed 2);
   ("incr", CMD_REQ_REDIS_INCR, Fixed 0); ("llen", CMD_REQ_REDIS_LLEN, Fixed 0);
   ("lpop", CMD_REQ_REDIS_LPOP, Fixed 0); ("lrem", CMD_REQ_REDIS_LREM, Fixed 2);
   ("lset", CMD_REQ_REDIS_LSET, Fixed 2); ("rpop", CMD_REQ_REDIS_RPOP, Fixed 0); ("sadd", CMD_REQ_REDIS_SADD, Rest);
   ("spop", CMD_REQ_REDIS_SPOP, Fixed 0); ("srem", CMD_REQ_REDIS_SREM, Rest); ("type", CMD_REQ_REDIS_TYPE, Fixed 0);
   ("mget", CMD_REQ_REDIS_MGET, Keys); ("mset", CMD_REQ_REDIS_MSET, Pairs); ("xack", CMD_REQ_REDIS_XACK, Rest);
   ("xadd", CMD_REQ_REDIS_XADD, Rest); ("xdel", CMD_REQ_REDIS_XDEL, Rest); ("xlen", CMD_REQ_REDIS_XLEN, Fixed 0);
   ("zadd", CMD_REQ_REDIS_ZADD, Rest); ("zrem", CMD_REQ_REDIS_ZREM, Rest); ("eval", CMD_REQ_REDIS_EVAL, NumKeys);
   ("sort", CMD_REQ_REDIS_SORT, Fixed 0); ("ping", CMD_REQ_REDIS_PING, NoKey); ("quit", CMD_REQ_REDIS_QUIT, NoKey);
   ("auth", CMD_REQ_REDIS_AUTH, Fixed 0); ("hkeys", CMD_REQ_REDIS_HKEYS, Fixed 0);
   ("hmget", CMD_REQ_REDIS_HMGET, Rest); ("hmset", CMD_REQ_REDIS_HMSET, Rest);
   ("hvals", CMD_REQ_REDIS_HVALS, Fixed 0); ("hscan", CMD_REQ_REDIS_HSCAN, Rest);
   ("lpush", CMD_REQ_REDIS_LPUSH, Rest); ("ltrim", CMD_REQ_REDIS_LTRIM, Fixed 2);
   ("rpush", CMD_REQ_REDIS_RPUSH, Rest); ("scard", CMD_REQ_REDIS_SCARD, Fixed 0);
   ("sdiff", CMD_REQ_REDIS_SDIFF, Rest); ("setex", CMD_REQ_REDIS_SETEX, Fixed 2);
   ("setnx", CMD_REQ_REDIS_SETNX, Fixed 1); ("smove", CMD_REQ_REDIS_SMOVE, Fixed 2);
   ("sscan", CMD_REQ_REDIS_SSCAN, Rest); ("xinfo", CMD_REQ_REDIS_XINFO, SubKey);
   ("xtrim", CMD_REQ_REDIS_XTRIM, Rest); ("zcard", CMD_REQ_REDIS_ZCARD, Fixed 0);
   ("zrank", CMD_REQ_REDIS_ZRANK, Fixed 1); ("zscan", CMD_REQ_REDIS_ZSCAN, Rest);
   ("pfadd", CMD_REQ_REDIS_PFADD, Rest); ("append", CMD_REQ_REDIS_APPEND, Fixed 1);
   ("decrby", CMD_REQ_REDIS_DECRBY, Fixed 1); ("exists", CMD_REQ_REDIS_EXISTS, Keys);
   ("expire", CMD_REQ_REDIS_EXPIRE, Fixed 1); ("getbit", CMD_REQ_REDIS_GETBIT, Fixed 1);
   ("getset", CMD_REQ_REDIS_GETSET, Fixed 1); ("psetex", CMD_REQ_REDIS_PSETEX, Fixed 2);
   ("hsetnx", CMD_REQ_REDIS_HSETNX, Fixed 2); ("incrby", CMD_REQ_REDIS_INCRBY, Fixed 1);
   ("lindex", CMD_REQ_REDIS_LINDEX, Fixed 1); ("lpushx", CMD_REQ_REDIS_LPUSHX, Fixed 1);
   ("lrange", CMD_REQ_REDIS_LRANGE, Fixed 2); ("rpushx", CMD_REQ_REDIS_RPUSHX, Fixed 1);
   ("setbit", CMD_REQ_REDIS_SETBIT, Fixed 2); ("sinter", CMD_REQ_REDIS_SINTER, Rest);
   ("strlen", CMD_REQ_REDIS_STRLEN, Fixed 0); ("sunion", CMD_REQ_REDIS_SUNION, Rest);
   ("xclaim", CMD_REQ_REDIS_XCLAIM, Rest); ("xgroup", CMD_REQ_REDIS_XGROUP, SubKey);
   ("xrange", CMD_REQ_REDIS_XRANGE, Rest); ("zcount", CMD_REQ_REDIS_ZCOUNT, Fixed 2);
   ("zrange", CMD_REQ_REDIS_ZRANGE, Rest); ("zscore", CMD_REQ_REDIS_ZSCORE, Fixed 1);
   ("persist", CMD_REQ_REDIS_PERSIST, Fixed 0); ("pexpire", CMD_REQ_REDIS_PEXPIRE, Fixed 1);
   ("hexists", CMD_REQ_REDIS_HEXISTS, Fixed 1); ("hgetall", CMD_REQ_REDIS_HGETALL, Fixed 0);
   ("hincrby", CMD_REQ_REDIS_HINCRBY, Fixed 2); ("linsert", CMD_REQ_REDIS_LINSERT, Fixed 3);
   ("zincrby", CMD_REQ_REDIS_ZINCRBY, Fixed 2); ("evalsha", CMD_REQ_REDIS_EVALSHA, NumKeys);
   ("restore", CMD_REQ_REDIS_RESTORE, Fixed 2); ("pfcount", CMD_REQ_REDIS_PFCOUNT, Fixed 0);
   ("pfmerge", CMD_REQ_REDIS_PFMERGE, Rest); ("expireat", CMD_REQ_REDIS_EXPIREAT, Fixed 1);
   ("bitcount", CMD_REQ_REDIS_BITCOUNT, Rest); ("getrange", CMD_REQ_REDIS_GETRANGE, Fixed 2);
   ("setrange", CMD_REQ_REDIS_SETRANGE, Fixed 2); ("smembers", CMD_REQ_REDIS_SMEMBERS, Fixed 0);
   ("xpending", CMD_REQ_REDIS_XPENDING, Rest); ("zrevrank", CMD_REQ_REDIS_ZREVRANK, Fixed 1);
   ("pexpireat", CMD_REQ_REDIS_PEXPIREAT, Fixed 1); ("rpoplpush", CMD_REQ_REDIS_RPOPLPUSH, Fixed 1);
   ("sismember", CMD_REQ_REDIS_SISMEMBER, Fixed 1); ("xrevrange", CMD_REQ_REDIS_XREVRANGE, Rest);
   ("zrevrange", CMD_REQ_REDIS_ZREVRANGE, Rest); ("zlexcount", CMD_REQ_REDIS_ZLEXCOUNT, Fixed 2);
   ("sdiffstore", CMD_REQ_REDIS_SDIFFSTORE, Rest); ("xautoclaim", CMD_REQ_REDIS_XAUTOCLAIM, Rest);
   ("incrbyfloat", CMD_REQ_REDIS_INCRBYFLOAT, Fixed 1); ("sinterstore", CMD_REQ_REDIS_SINTERSTORE, Rest);
   ("srandmember", CMD_REQ_REDIS_SRANDMEMBER, Rest); ("sunionstore", CMD_REQ_REDIS_SUNIONSTORE, Rest);
   ("zinterstore", CMD_REQ_REDIS_ZINTERSTORE, Rest); ("zunionstore", CMD_REQ_REDIS_ZUNIONSTORE, Rest);
   ("zrangebylex", CMD_REQ_REDIS_ZRANGEBYLEX, Rest); ("hincrbyfloat", CMD_REQ_REDIS_HINCRBYFLOAT, Fixed 2);
   ("zrangebyscore", CMD_REQ_REDIS_ZRANGEBYSCORE, Rest); ("zremrangebylex", CMD_REQ_REDIS_ZREMRANGEBYLEX, Fixed 2);
   ("zremrangebyrank", CMD_REQ_REDIS_ZREMRANGEBYRANK, Fixed 2);
   ("zremrangebyscore", CMD_REQ_REDIS_ZREMRANGEBYSCORE, Fixed 2);
   ("zrevrangebyscore", CMD_REQ_REDIS_ZREVRANGEBYSCORE, Rest)]%string.

Definition lower (c : Z) : Z := if (65 <=? c) && (c <=? 90) then c + 32 else c.

(** The command of a verb, whatever the case of its letters. *)
Definition command_of (w : list Z) : option (cmd_type * shape) :=
  (fun c => (snd (fst c), snd c)) <$> List.find (fun c => bool_decide (map lower w = text (fst (fst c)))) commands.

(** A decimal number. *)
Definition decimal (w : list Z) : option Z :=
  if negb (bool_decide (w = [])) && forallb (fun c => (48 <=? c) && (c <=? 57)) w
  then Some (fold_left (fun a c => 10 * a + (c - 48)) w 0) else None.

Definition odd_words (i : nat) : list nat := map (fun i => 2 * i + 1)%nat (seq 0 i).

(** The words that are keys by the layout, as numbers of words; None for a
    command that does not have it. *)
Definition documented (s : shape) (args : list (list Z)) : option (list nat) :=
  let n := length args in
  match s with
  | NoKey => Some []
  | Fixed k => if (n =? k + 1)%nat then Some [1%nat] else None
  | Rest => if (1 <=? n)%nat then Some [1%nat] else None
  | Keys => if (1 <=? n)%nat then Some (seq 1 n) else None
  | Pairs => if (2 <=? n)%nat && Nat.even n then Some (odd_words (n / 2)) else None
  | SubKey => if (2 <=? n)%nat then Some [2%nat] else None
  | NumKeys =>
      match args with
      | _ :: w :: keys =>
          match decimal w with
          | Some m => if (1 <=? m) && (m <=? Z.of_nat (length keys)) then Some (seq 3 (Z.to_nat m)) else None
          | None => None
          end
      | _ => None
      end
  end.

(** What the parser records.  It differs in that a verb alone has no key, a
    pair may lack its value when it is the only one, and of the keys of an EVAL
    only the first is recorded and their number is just not 0 modulo 2^32. *)
Definition recorded (s : shape) (args : list (list Z)) : option (list nat) :=
  match args, s with
  | [], _ => Some []
  | [_], Pairs => Some [1%nat]
  | _ :: w :: _ :: _, NumKeys =>
      match decimal w with
      | Some m => if m mod 2 ^ 32 =? 0 then None else Some [3%nat]
      | None => None
      end
  | _, NumKeys => None
  | _, _ => documented s args
  end.

Definition key_words (ws : list (list Z)) : option (list nat) :=
  match ws with
  | [] => None
  | w :: args =>
      match command_of w with
      | Some (_, s) => recorded s args
      | None => None
      end
  end.

(** Of a command with its documented layout, at most 2^32 - 1 keys, the keys are
    recorded; of an EVAL, the first. *)
Lemma documented_recorded w args t s js :
  command_of w = Some (t, s) -> documented s args = Some js -> Z.of_nat (length args) < 2 ^ 32 ->
  key_words (w :: args) = Some (match s with NumKeys => take 1 js | _ => js end).
Proof.
  intros Hw Hd Hn. unfold key_words. rewrite Hw. destruct args as [|x args].
  - destruct s as [|k| | | | |]; cbn in Hd |- *; [congruence| |congruence..]. destruct k; cbn in Hd; congruence.
  - destruct (decide (s = NumKeys)) as [->|Hs];
      [|destruct s; try done; cbn [recorded]; destruct args as [|y [|z args]]; by rewrite ?Hd].
    destruct args as [|y [|z args]]; [done|..].
    + cbn [documented] in Hd. destruct (decimal y) as [m|]; [|done]. destruct (Z.leb_spec 1 m), (Z.leb_spec m (Z.of_nat (length (@nil (list Z))))); cbn in *; try done; lia.
    + cbn [documented recorded] in *. destruct (decimal y) as [m|]; [|done].
      destruct (Z.leb_spec 1 m), (Z.leb_spec m (Z.of_nat (length (z :: args)))); try done. injection Hd as <-.
      cbn [length] in *. rewrite Z.mod_small by lia. destruct (Z.eqb_spec m 0); [lia|]. by replace (Z.to_nat m) with (S (Z.to_nat m - 1)) by lia.
Qed.

(** ** Layouts by the tests of the code

    The number of an EVAL: digits, not zero as a [uint32_t]. *)
Definition number_of (w : list Z) : Z := foldl shift_digit 0 w.

Definition counts_keys (w : list Z) : bool :=
  negb (blen w =? 0) && forallb isdigit w && negb (number_of w =? 0).

(** Which words are keys, as numbers of words, for a verb and its arguments;
    None for a command that is refused.  A verb without any argument is taken
    to have no key. *)
Definition code_layout (t : cmd_type) (args : list (list Z)) : option (list nat) :=
  let n := length args in
  if redis_argz t then Some []
  else if (n =? 0)%nat then Some []
  else if redis_argeval t then
    match args with
    | _ :: w :: _ :: _ => if counts_keys w then Some [3%nat] else None
    | _ => None
    end
  else if redis_argsub t then if (n =? 1)%nat then None else Some [2%nat]
  else if redis_arg0 t then if (n =? 1)%nat then Some [1%nat] else None
  else if redis_arg1 t then if (n =? 2)%nat then Some [1%nat] else None
  else if redis_arg2 t then if (n =? 3)%nat then Some [1%nat] else None
  else if redis_arg3 t then if (n =? 4)%nat then Some [1%nat] else None
  else if redis_argn t then Some [1%nat]
  else if redis_argx t then Some (seq 1 n)
  else if redis_argkvx t then
    if (n =? 1)%nat then Some [1%nat]
    else if Nat.even n then Some (odd_words (Nat.div2 n)) else None
  else None.

Definition code_words (ws : list (list Z)) : option (list nat) :=
  match ws with
  | [] => None
  | w :: args => if bool_decide (verb_of w = CMD_UNKNOWN) then None else code_layout (verb_of w) args
  end.

(** *** The tables of the code are those of the specification *)

Definition same_kinds (c : string * cmd_type * shape) : bool :=
  let t := snd (fst c) in
  let has s := match snd c, s with
              | NoKey, NoKey | Rest, Rest | Keys, Keys | Pairs, Pairs | SubKey, SubKey | NumKeys, NumKeys => true
              | Fixed k, Fixed k' => (k =? k')%nat
              | _, _ => false
              end in
  eqb (redis_argz t) (has NoKey) && eqb (redis_arg0 t) (has (Fixed 0)) && eqb (redis_arg1 t) (has (Fixed 1)) &&
  eqb (redis_arg2 t) (has (Fixed 2)) && eqb (redis_arg3 t) (has (Fixed 3)) && eqb (redis_argn t) (has Rest) &&
  eqb (redis_argx t) (has Keys) && eqb (redis_argkvx t) (has Pairs) && eqb (redis_argsub t) (has SubKey) &&
  eqb (redis_argeval t) (has NumKeys) && negb (bool_decide (t = CMD_UNKNOWN)) &&
  match snd c with Fixed k => (k <? 4)%nat | _ => true end.

Lemma commands_kinds : forallb same_kinds commands = true.
Proof. vm_compute. reflexivity. Qed.

Definition named (c : string * cmd_type * shape) : list Z * cmd_type := (text (fst (fst c)), snd (fst c)).

Lemma verbs_commands len : verbs len = filter (fun v => blen v.1 = len) (map named commands).
Proof.
  destruct (decide (0 <= len <= 16)) as [Hl|Hl].
  - assert (exists k, (k <= 16)%nat /\ len = Z.of_nat k) as (k & Hk & ->) by (exists (Z.to_nat len); lia).
    do 17 (destruct k as [|k]; [vm_compute; reflexivity|]). lia.
  - replace (verbs len) with (@nil (list Z * cmd_type)).
    + symmetry. assert (Forall (fun v => blen v.1 <= 16) (map named commands)) as H
        by (apply (bool_decide_unpack _); vm_compute; exact I).
      induction H as [|v l Hv _ IH]; [done|]. rewrite filter_cons_False; [exact IH|]. pose proof (blen_nonneg v.1). lia.
    + unfold verbs. destruct len as [|q|q]; [lia| |done].
      do 17 (destruct q as [q|q|]; try (exfalso; lia); try reflexivity).
Qed.

Lemma find_command w l : Forall (fun c => map tolower (text (fst (fst c))) = text (fst (fst c))) l ->
  find_verb w (filter (fun v => blen v.1 = blen w) (map named l)) =
  match List.find (fun c => bool_decide (map lower w = text (fst (fst c)))) l with Some c => snd (fst c) | None => CMD_UNKNOWN end.
Proof.
  change lower with tolower. unfold find_verb. induction 1 as [|[[v t] s] l Hv _ IH]; [done|]. cbn [map List.find named fst snd] in *.
  case_bool_decide as E.
  - rewrite filter_cons_True by (unfold named, blen; cbn [fst]; apply (f_equal Datatypes.length) in E; rewrite length_map in E; lia).
    rewrite filter_cons_True; [done|]. cbn [named fst snd]. unfold strcaseeq. by rewrite bool_decide_true by congruence.
  - rewrite filter_cons. destruct (decide _); [|exact IH]. rewrite filter_cons_False; [exact IH|]. cbn [named fst snd]. unfold strcaseeq.
    by rewrite bool_decide_false by congruence.
Qed.

Lemma command_verb w : verb_of w = match command_of w with Some (t, _) => t | None => CMD_UNKNOWN end.
Proof.
  unfold verb_of, command_of. rewrite verbs_commands, find_command by (apply (bool_decide_unpack _); vm_compute; exact I).
  by destruct (List.find _ commands).
Qed.

Lemma fold_shift w : Forall (fun c => isdigit c = true) w -> forall a b, a = b mod 2 ^ 32 ->
  foldl shift_digit a w = fold_left (fun a c => 10 * a + (c - 48)) w b mod 2 ^ 32.
Proof.
  induction 1 as [|c w Hc _ IH]; intros a b E; [done|]. cbn [foldl fold_left]. apply IH.
  apply isdigit_range in Hc. unfold shift_digit, u32. rewrite (Z.mod_small (c - 48)) by lia.
  rewrite E, Z.mul_comm, <- Z.add_mod_idemp_l, Z.mul_mod_idemp_r, Z.add_mod_idemp_l by lia. done.
Qed.

Lemma counts_decimal w : counts_keys w = match decimal w with Some m => negb (m mod 2 ^ 32 =? 0) | None => false end.
Proof.
  unfold counts_keys, decimal. change (fun c => (48 <=? c) && (c <=? 57)) with isdigit.
  assert ((blen w =? 0) = bool_decide (w = [])) as ->.
  { destruct w as [|c w]; [done|]. rewrite bool_decide_false, blen_cons by done. pose proof (blen_nonneg w). by apply Z.eqb_neq; lia. }
  destruct (bool_decide (w = [])); [done|]. destruct (forallb isdigit w) eqn:Ed; [|done]. cbn [negb andb].
  unfold number_of. rewrite (fold_shift w) with (b := 0); [done| |done].
  apply Forall_forall. intros c Hc. rewrite forallb_forall in Ed. by apply Ed, list_elem_of_In.
Qed.

Lemma code_layout_recorded n t s args : same_kinds (n, t, s) = true -> code_layout t args = recorded s args.
Proof.
  unfold same_kinds. cbn [fst snd]. intros H.
  repeat match goal with H : _ && _ = true |- _ => apply andb_prop in H as [H ?] end.
  repeat match goal with H : eqb _ _ = true |- _ => apply eqb_prop in H end.
  unfold code_layout. repeat match goal with H : ?f t = _ |- _ => rewrite H; clear H end.
  destruct s as [|k| | | | |]; try (by destruct args as [|? [|? [|? ?]]]).
  - destruct args as [|x args]; [done|]. destruct k as [|[|[|[|k]]]]; [| | | |discriminate]; cbn [recorded documented Nat.eqb];
      by destruct args as [|? [|? [|? [|? ?]]]].
  - destruct args as [|x [|y args]]; [done..|]. cbn [recorded documented length Nat.eqb]. rewrite Nat.div2_div.
    by destruct args.
  - destruct args as [|x [|y [|z args]]]; [done..|]. cbn [recorded length Nat.eqb]. rewrite counts_decimal.
    destruct (decimal y) as [m|]; [|done]. by destruct (m mod 2 ^ 32 =? 0).
Qed.

Lemma code_words_key_words ws : code_words ws = key_words ws.
Proof.
  destruct ws as [|w args]; [done|]. unfold code_words, key_words. rewrite command_verb. unfold command_of.
  destruct (List.find _ commands) as [[[n t] s]|] eqn:E; cbn [fmap option_fmap option_map fst snd]; [|by rewrite bool_decide_true].
  apply List.find_some in E as [E _]. pose proof commands_kinds as H. rewrite forallb_forall in H. specialize (H _ E).
  rewrite bool_decide_false; [by eapply code_layout_recorded|]. unfold same_kinds in H. cbn [fst snd] in H.
  apply andb_prop in H as [H _]. apply andb_prop in H as [_ H]. apply negb_true_iff, bool_decide_eq_false in H. done.
Qed.

Lemma code_words_type ws w js : code_words ws = Some js -> head ws = Some w -> fst <$> command_of w = Some (verb_of w).
Proof.
  destruct ws as [|w' args]; [done|]. cbn [head]. intros Hk [= ->]. unfold code_words in Hk. rewrite command_verb in *.
  by destruct (command_of w) as [[t s]|].
Qed.

(** ** Numbers *)

Lemma shift_digit_val n c : 0 <= n -> isdigit c = true -> n * 10 + (c - 48) < 2 ^ 32 -> shift_digit n c = n * 10 + (c - 48).
Proof. intros Hn Hc%isdigit_range H. unfold shift_digit, u32. rewrite (Z.mod_small (c - 48)) by lia. apply Z.mod_small. lia. Qed.

Lemma fold_dec_digits fuel : forall z acc, 0 <= z < 10 ^ Z.of_nat fuel -> z < 2 ^ 32 -> (0 < fuel)%nat ->
  foldl shift_digit 0 (dec_digits fuel z acc) = foldl shift_digit z acc.
Proof.
  induction fuel as [|f IH]; intros z acc Hz H32 Hf; [lia|]. cbn [dec_digits].
  destruct (Z.ltb_spec z 10).
  - cbn [foldl]. rewrite shift_digit_val by (unfold isdigit; lia). f_equal. lia.
  - rewrite Nat2Z.inj_succ, Z.pow_succ_r in Hz by lia. destruct f as [|f]; [simpl in Hz; lia|].
    pose proof (Z.mod_pos_bound z 10 ltac:(lia)). pose proof (Z.div_mod z 10 ltac:(lia)).
    rewrite IH; [|split; [apply Z.div_pos; lia|apply Z.div_lt_upper_bound; lia]|apply Z.div_lt_upper_bound; lia|lia].
    cbn [foldl]. rewrite shift_digit_val; [f_equal; lia|lia|unfold isdigit; lia|lia].
Qed.

Lemma number_dec z : 0 <= z < 2 ^ 32 -> number_of (dec z) = z /\ Forall (fun c => isdigit c = true) (dec z) /\ 0 < blen (dec z).
Proof.
  intros Hz. destruct (dec_nonneg z) as (d & ds & E & Hd & _); [lia|]. rewrite E. split; [|split; [done|rewrite blen_cons; pose proof (blen_nonneg ds); lia]].
  rewrite <- E. unfold dec. destruct (Z.ltb_spec z 0); [lia|]. unfold number_of. apply (fold_dec_digits 20 z []); lia.
Qed.

(** ** Outcomes of the loop *)

Section outcomes.
Context {A : Allocator} {U : Uninit keypos} {P : HiAssert}.
Context (buf : list Z).

#[local] Abbreviation switch := (switch buf (blen buf)).

Definition wp (s : fsa) (h : heap) (Q : act -> heap -> Prop) : Prop :=
  forall fuel, blen buf - p s <= Z.of_nat fuel -> yields (parse_loop buf (blen buf) fuel s h) (fun '(a, h') => Q a h').

Lemma wp_step s h Q ch a h' : rd buf (p s) = Ret ch -> 0 <= p s < blen buf -> switch ch s h = Ret (a, h') ->
  match a with
  | Next s' => p s <= p s' /\ wp (with_p (p s' + 1) s') h' Q
  | _ => Q a h'
  end -> wp s h Q.
Proof.
  intros Hr Hp Hs Ha fuel Hf. destruct fuel as [|f]; [lia|]. cbn [parse_loop]. rewrite (proj2 (Z.ltb_lt _ _)) by lia.
  rewrite Hr. cbn [cbind]. rewrite Hs. cbn [cbind]. destruct a as [s'|s'|s'|s']; try by apply yields_Ret.
  destruct Ha as [Hle Ha]. apply Ha. cbn. lia.
Qed.

Lemma wp_end s h (Q : act -> heap -> Prop) : blen buf <= p s -> Q (Next s) h -> wp s h Q.
Proof.
  intros Hp HQ fuel Hf. destruct fuel as [|f]; cbn [parse_loop]; rewrite (proj2 (Z.ltb_ge _ _)) by lia; by apply yields_Ret.
Qed.

Lemma at_pos_range i c l : at_pos buf i (c :: l) -> 0 <= i < blen buf.
Proof. intros H. pose proof (at_pos_len _ _ _ H) as E. rewrite blen_cons in E. pose proof (blen_nonneg l). destruct H as [H _]. lia. Qed.

Lemma at_pos_head i w c l : at_pos buf i (w ++ c :: l) -> exists ch, rd buf i = Ret ch /\ 0 <= i < blen buf.
Proof. destruct w as [|x w]; cbn [app]; intros H; eexists; (split; [by eapply at_pos_rd|by eapply at_pos_range]). Qed.

(** Digits of a length. *)
Lemma wp_digits bad q1 h Q ds : forall s rest t,
  Forall (fun c => isdigit c = true) ds -> token s = Some t -> at_pos buf (p s) (ds ++ rest) ->
  (forall ch n i, switch ch (with_p i (with_rlen n s)) h = Ret (sw_len bad q1 ch (with_p i (with_rlen n s)), h)) ->
  wp (with_p (p s + blen ds) (with_rlen (foldl shift_digit (rlen s) ds) s)) h Q -> wp s h Q.
Proof.
  induction ds as [|d ds IH]; intros s rest t Hd Ht Hp Hs Hw.
  - replace s with (with_p (p s + blen []) (with_rlen (foldl shift_digit (rlen s) []) s)); [done|].
    destruct s; unfold with_p, with_rlen; cbn. f_equal. rewrite blen_nil. lia.
  - apply Forall_cons in Hd as [Hd Hds]. pose proof (at_pos_range _ _ _ Hp) as Hr.
    eapply (wp_step s h Q d); [by eapply at_pos_rd|done| |].
    + specialize (Hs d (rlen s) (p s)). replace (with_p (p s) (with_rlen (rlen s) s)) with s in Hs by (by destruct s).
      rewrite Hs. unfold sw_len. rewrite Ht, Hd. reflexivity.
    + cbn [p with_rlen]. split; [lia|]. apply (IH _ rest t); try done.
      * cbn. eapply at_pos_next. exact Hp.
      * cbn in *. rewrite blen_cons in Hw. replace (p s + 1 + blen ds) with (p s + (1 + blen ds)) by lia. exact Hw.
Qed.
End outcomes.

(** ** Walking over the words *)

Section words.
Context {A : Allocator} {G : Garbage} {U : Uninit keypos} {P : HiAssert}.
Context (ws : list (list Z)) (h0 : heap) (rest : list Z) (r0 : cmd).

#[local] Abbreviation buf := (command ws).
#[local] Abbreviation n := (Z.of_nat (length ws)).
#[local] Abbreviation wp := (wp (command ws)).
#[local] Abbreviation switch := (switch (command ws) (blen (command ws))).

Hypothesis Hlen : blen buf < 2 ^ 31.

(** Where word [j] starts: its length line, and its bytes. *)
Definition word_line (j : nat) : Z := blen (head_text n ++ concat (map bulk (take j ws))).
Definition word_start (j : nat) (w : list Z) : Z := word_line j + (1 + blen (dec (blen w)) + 2).

Definition at_word (k : keypos) (j : nat) : Prop :=
  exists w, ws !! j = Some w /\ kstart k = word_start j w /\ kend k = kstart k + blen w.

(** Before word [j], in its bytes, and at the LF behind it. *)
Definition before (q : state) (j : nat) (r : cmd) : fsa := mkFsa (word_line j) None 0 (n - Z.of_nat j) q r.
Definition inside (q : state) (j : nat) (w : list Z) (r : cmd) : fsa := mkFsa (word_start j w) None (blen w) (n - Z.of_nat (S j)) q r.
Definition behind (q : state) (j : nat) (r : cmd) : fsa := mkFsa (word_line (S j) - 1) None 0 (n - Z.of_nat (S j)) q r.

Lemma at_line j w : ws !! j = Some w ->
  at_pos buf (word_line j) (([36] ++ dec (blen w) ++ [13; 10]) ++ w ++ [13; 10] ++ concat (map bulk (drop (S j) ws))).
Proof.
  intros Hj. unfold word_line. assert (Hb : buf = (head_text n ++ concat (map bulk (take j ws))) ++ concat (map bulk (drop j ws))).
  { rewrite command_eq, <- app_assoc. f_equal. rewrite <- concat_app, <- map_app, take_drop. done. }
  split; [rewrite Hb; rewrite (blen_app (head_text n ++ _)); pose proof (blen_nonneg (concat (map bulk (drop j ws)))); pose proof (blen_nonneg (head_text n ++ concat (map bulk (take j ws)))); lia|].
  rewrite Hb, blen_to_nat, drop_app_length. rewrite (drop_S _ _ _ Hj). cbn [map concat]. rewrite bulk_eq. by rewrite <- !app_assoc.
Qed.

Lemma word_line_S j w : ws !! j = Some w -> word_line (S j) = word_start j w + blen w + 2.
Proof.
  intros Hj. unfold word_start, word_line. rewrite (take_S_r _ _ _ Hj), map_app, concat_app. cbn [map concat]. rewrite app_nil_r, app_assoc.
  rewrite (blen_app (_ ++ _)), bulk_eq, !blen_app. change (blen [36]) with 1. change (blen [13; 10]) with 2. lia.
Qed.

Lemma at_bytes j w : ws !! j = Some w -> at_pos buf (word_start j w) (w ++ [13; 10] ++ concat (map bulk (drop (S j) ws))).
Proof.
  intros Hj. pose proof (at_pos_app _ _ _ _ (at_line j w Hj)) as H. unfold word_start.
  rewrite !blen_app in H. change (blen [36]) with 1 in H. change (blen [13; 10]) with 2 in H.
  replace (1 + blen (dec (blen w)) + 2) with (1 + (blen (dec (blen w)) + 2)) by lia. exact H.
Qed.

Lemma at_end j w : ws !! j = Some w -> at_pos buf (word_start j w + blen w) ([13; 10] ++ concat (map bulk (drop (S j) ws))).
Proof. intros Hj. apply at_pos_app. by apply at_bytes. Qed.

(** A key is a word of the text. *)
Lemma at_word_text k j w : at_word k j -> ws !! j = Some w -> rd_block buf (kstart k) (kend k - kstart k) = Ret w.
Proof.
  intros (w' & Hj & -> & ->) E. rewrite Hj in E. injection E as <-. replace (word_start j w' + blen w' - word_start j w') with (blen w') by lia.
  eapply at_pos_block. by apply at_bytes.
Qed.

Lemma word_bound j w : ws !! j = Some w -> 0 <= blen w < 2 ^ 31 /\ 0 <= word_line j /\ word_line j + 5 + blen w < blen buf + 1.
Proof.
  intros Hj. pose proof (at_pos_len _ _ _ (at_line j w Hj)) as H. rewrite !blen_app in H. change (blen [36]) with 1 in H. change (blen [13; 10]) with 2 in H.
  pose proof (blen_nonneg w). pose proof (blen_nonneg (concat (map bulk (drop (S j) ws)))). pose proof (blen_nonneg (dec (blen w))).
  assert (0 <= word_line j) by apply blen_nonneg. lia.
Qed.

(** The length line of a word. *)
Lemma wp_len_test q q1 q2 bad j w r h Q : ws !! j = Some w ->
  (forall ch s, sw s = q -> switch ch s h = Ret (sw_len bad q1 ch s, h)) ->
  (forall ch s, sw s = q1 -> switch ch s h = Ret (sw_lf q2 ch s, h)) ->
  (forall s, p s = word_start j w - 2 -> rlen s = blen w -> rnarg s = n - Z.of_nat j -> 1 < p s - word_line j -> 0 <= p s < blen buf ->
     if bad s (word_line j) then Q (Error s) h else wp (inside q2 j w r) h Q) ->
  wp (before q j r) h Q.
Proof.
  intros Hj Hq Hq1 Hbad. pose proof (word_bound j w Hj) as (B1 & B2 & B3). pose proof (lookup_lt_Some _ _ _ Hj) as Hjn.
  destruct (number_dec (blen w)) as (N1 & N2 & N3); [lia|].
  pose proof (at_line j w Hj) as Hp. cbn [app] in Hp.
  eapply (wp_step _ _ _ _ 36); [by eapply at_pos_rd|by eapply at_pos_range|by apply Hq|]. cbn.
  split; [lia|]. apply at_pos_next in Hp. rewrite <- app_assoc in Hp.
  eapply (wp_digits _ bad q1 h Q (dec (blen w))); [done|reflexivity|exact Hp|intros; by apply Hq|].
  cbn. unfold with_p, with_rlen. cbn. fold (number_of (dec (blen w))). rewrite N1.
  apply at_pos_app in Hp. cbn [app] in Hp.
  pose proof (at_pos_range _ _ _ _ Hp) as Hr. set (s0 := mkFsa _ (Some (word_line j)) (blen w) _ _ _).
  assert (Hs0 : if bad s0 (word_line j) then Q (Error s0) h else wp (inside q2 j w r) h Q)
    by (apply Hbad; cbn [p rlen rnarg s0]; unfold word_start; (done || lia)).
  eapply (wp_step _ _ _ _ 13); [by eapply at_pos_rd|exact Hr|by apply Hq|]. unfold sw_len. cbn [token s0].
  change (isdigit 13) with false. change (13 =? CR) with true. cbv iota. fold s0. destruct (bad s0 (word_line j)); [exact Hs0|].
  cbn. split; [lia|]. apply at_pos_next in Hp.
  eapply (wp_step _ _ _ _ 10); [by eapply at_pos_rd|by eapply at_pos_range|by apply Hq1|]. cbn. split; [lia|].
  unfold inside, with_p in *. cbn.
  replace (word_line j + 1 + blen (dec (blen w)) + 1 + 1) with (word_start j w) by (unfold word_start; lia).
  replace (u32 (n - Z.of_nat j - 1)) with (n - Z.of_nat (S j)); [exact Hs0|].
  unfold u32. rewrite Z.mod_small; [lia|]. pose proof (command_count ws Hlen). lia.
Qed.

Lemma wp_len q q1 q2 bad j w r h Q : ws !! j = Some w ->
  (forall ch s, sw s = q -> switch ch s h = Ret (sw_len bad q1 ch s, h)) ->
  (forall ch s, sw s = q1 -> switch ch s h = Ret (sw_lf q2 ch s, h)) ->
  (forall s, p s = word_start j w - 2 -> rlen s = blen w -> rnarg s = n - Z.of_nat j -> 1 < p s - word_line j -> bad s (word_line j) = false) ->
  wp (inside q2 j w r) h Q -> wp (before q j r) h Q.
Proof.
  intros Hj Hq Hq1 Hbad Hw. apply (wp_len_test q q1 q2 bad j w); [done..|]. intros s H1 H2 H3 H4 _. by rewrite Hbad.
Qed.

Lemma word_end_at j w s : ws !! j = Some w -> rlen s = blen w -> word_end buf (blen buf) (word_start j w) s = Ret (Some (word_start j w + blen w)).
Proof.
  intros Hj Hr. pose proof (at_end j w Hj) as Hp. unfold word_end. rewrite Hr.
  pose proof (at_pos_range _ _ _ _ Hp). rewrite (proj2 (Z.leb_gt _ _)) by lia. by rewrite (at_pos_rd _ _ _ _ Hp).
Qed.

(** The request in the middle of the command, and the keys it has. *)
Definition req_with (t : cmd_type) (a : hiarray keypos) : cmd :=
  with_keys (Some a) (with_type t (with_narg (Some 0) (Some (1 + blen (dec n))) n r0)).

Definition holding (a : hiarray keypos) (js : list nat) (h : heap) : Prop :=
  exists l, array_ok a l /\ esize a = sizeof_keypos /\ Forall2 at_word l js /\ acquires h0 (array_blocks a ++ rest) h.

(** The last step on a word: at its LF. *)
Lemma wp_lf f q j r h Q : (j < length ws)%nat -> (forall ch s, sw s = q -> switch ch s h = Ret (f ch s, h)) ->
  match f LF (behind q j r) with
  | Next s => s = goto (sw s) (behind q j r) /\ wp (before (sw s) (S j) r) h Q
  | a => Q a h
  end -> wp (behind q j r) h Q.
Proof.
  intros Hj Hq Hf. destruct (lookup_lt_is_Some_2 ws j Hj) as [w Hw]. pose proof (at_end j w Hw) as Hp. cbn [app] in Hp.
  apply at_pos_next in Hp. pose proof (word_line_S j w Hw) as E.
  replace (word_start j w + blen w + 1) with (p (behind q j r)) in Hp by (cbn; lia).
  eapply (wp_step _ _ _ _ 10); [by eapply at_pos_rd|by eapply at_pos_range|by apply Hq|]. change 10 with LF.
  destruct (f LF (behind q j r)) as [s'|s'|s'|s']; try done. destruct Hf as [Es Hw']. rewrite Es. cbn. split; [lia|].
  unfold before, with_p in *. cbn. by replace (word_line (S j) - 1 + 1) with (word_line (S j)) by lia.
Qed.

(** The bytes of an argument. *)
Lemma wp_arg q q' j w r h Q : ws !! j = Some w ->
  (forall ch s, sw s = q -> switch ch s h = let! a := sw_arg buf (blen buf) q' s in Ret (a, h)) ->
  wp (behind q' j r) h Q -> wp (inside q j w r) h Q.
Proof.
  intros Hj Hq Hw. pose proof (at_bytes j w Hj) as Hp. destruct (at_pos_head _ _ _ _ _ Hp) as (ch & Hc & Hr).
  eapply (wp_step _ _ _ _ ch); [exact Hc|exact Hr| |].
  - rewrite Hq by done. unfold sw_arg. cbn [p inside]. rewrite (word_end_at j w) by done. reflexivity.
  - cbn. split; [pose proof (blen_nonneg w); lia|]. unfold behind, inside, with_p, with_rlen, goto in *. cbn.
    by rewrite (word_line_S j w Hj), <- (Z.add_sub_assoc _ 2 1) in Hw.
Qed.

(** The bytes of a key: it is recorded, or memory ran out. *)
Lemma wp_key j w t a js h Q : ws !! j = Some w -> holding a js h -> (length js <= j)%nat ->
  (forall a' h', holding a' (js ++ [j]) h' -> wp (behind SW_KEY_LF j (req_with t a')) h' Q) ->
  (forall s h', req s = req_with t a -> holding a js h' -> (exists m, grants m = false) -> Q (Oom s) h') ->
  wp (inside SW_KEY j w (req_with t a)) h Q.
Proof.
  intros Hj (l & Ha & Hz & Hl & Hh) Hjs Hw Hoom. pose proof (at_bytes j w Hj) as Hp. destruct (at_pos_head _ _ _ _ _ Hp) as (ch & Hc & Hr).
  pose proof (Forall2_length _ _ _ Hl) as El. pose proof (ok_nelem _ _ Ha) as Hn. pose proof (lookup_lt_Some _ _ _ Hj) as Hjn.
  pose proof (command_count ws Hlen) as Hcnt.
  destruct (push_slot a l h0 rest h Ha ltac:(lia) ltac:(rewrite Hz; unfold sizeof_keypos; lia) Hh) as ([[i a1] h1] & Ep & E1 & _ & H1 & Hst).
  assert (Hsw : switch ch (inside SW_KEY j w (req_with t a)) h =
    match i with
    | None => Ret (Oom (mkFsa (word_start j w + blen w) None 0 (n - Z.of_nat (S j)) SW_KEY (req_with t a1)), h1)
    | Some i => let! k := load_elem a1 i in let! a2 := store_elem a1 i (mkKey (word_start j w) (word_start j w + blen w) (remain_len k)) in
        Ret (Next (mkFsa (word_start j w + blen w) None 0 (n - Z.of_nat (S j)) SW_KEY_LF (req_with t a2)), h1)
    end).
  { unfold CmdParse.switch. cbn [sw inside]. unfold sw_key. cbn [token inside default p]. rewrite (word_end_at j w) by done. cbn [cbind].
    unfold req_with at 1. cbn [req keys with_keys with_token with_rlen with_p deref cbind inside]. rewrite Ep. cbn [cbind]. by destruct i. }
  destruct i as [i|].
  - destruct Hst as [[k Hk] Hst]. destruct (Hst (mkKey (word_start j w) (word_start j w + blen w) (remain_len k))) as (a2 & Es & S1 & _ & S3 & S4).
    eapply (wp_step _ _ _ _ ch); [exact Hc|exact Hr|rewrite Hsw, Hk; cbn [cbind]; rewrite Es; reflexivity|]. cbn [p inside]. split; [pose proof (blen_nonneg w); lia|].
    specialize (Hw a2 h1). unfold behind, with_p in *. cbn [rnarg sw req token rlen]. rewrite (word_line_S j w Hj), <- (Z.add_sub_assoc _ 2 1) in Hw.
    apply Hw. exists (l ++ [mkKey (word_start j w) (word_start j w + blen w) (remain_len k)]). split; [done|]. split; [congruence|].
    split; [|by rewrite S4]. apply Forall2_app; [done|]. constructor; [by exists w|constructor].
  - destruct Hst as [-> Hg]. eapply (wp_step _ _ _ _ ch); [exact Hc|exact Hr|exact Hsw|]. apply Hoom; [done|by exists l|done].
Qed.

(** The second argument, which an EVAL reads as a number. *)
Lemma scan_nkey_spec w : forall c k x l, at_pos buf c (w ++ l) -> k = length w ->
  scan_nkey buf k c x = Ret (if forallb isdigit w then Some (foldl shift_digit x w) else None).
Proof.
  induction w as [|d w IH]; intros c k x l Hp ->; cbn [length scan_nkey forallb foldl]; [done|].
  rewrite (at_pos_rd _ _ _ _ Hp). cbn [cbind]. destruct (isdigit d); [|done]. cbn [andb]. apply (IH (c + 1) _ _ l); [|done]. by eapply at_pos_next.
Qed.

Lemma wp_arg2 q' j w r h Q : ws !! j = Some w -> q' = SW_ARG2_LF ->
  match redis_argeval (type r), counts_keys w with
  | true, false => forall s, 0 <= p s < blen buf -> Q (Error s) h
  | _, _ => wp (behind q' j r) h Q
  end -> wp (inside SW_ARG2 j w r) h Q.
Proof.
  intros Hj -> Hw. pose proof (at_bytes j w Hj) as Hp. destruct (at_pos_head _ _ _ _ _ Hp) as (ch & Hc & Hr).
  pose proof (blen_nonneg w) as Hn. pose proof (at_pos_range _ _ _ _ (at_end j w Hj)) as He.
  assert (Hend : wp (behind SW_ARG2_LF j r) h Q ->
    wp (with_p (word_start j w + blen w + 1) (mkFsa (word_start j w + blen w) None 0 (n - Z.of_nat (S j)) SW_ARG2_LF r)) h Q).
  { unfold behind, with_p. cbn. by rewrite (word_line_S j w Hj), <- (Z.add_sub_assoc _ 2 1). }
  assert (Hsw : forall a, sw_arg2 buf (blen buf) (inside SW_ARG2 j w r) = Ret a -> switch ch (inside SW_ARG2 j w r) h = Ret (a, h))
    by (intros a Ea; unfold CmdParse.switch; cbn [sw inside]; by rewrite Ea).
  unfold sw_arg2 in Hsw. cbn [token inside req] in Hsw. destruct (redis_argeval (type r)) eqn:Et.
  - cbn [p with_token inside] in Hsw. rewrite (word_end_at j w) in Hsw by done.
    cbn [cbind req with_rlen with_p with_token token deref p inside] in Hsw. rewrite Et in Hsw.
    cbn [cbind deref] in Hsw. assert (word_start j w + blen w - word_start j w = blen w) as Ew by lia. rewrite Ew in Hsw.
    rewrite (scan_nkey_spec w _ _ _ _ Hp (blen_to_nat w)) in Hsw. fold (number_of w) in Hsw. unfold counts_keys in Hw.
    destruct (Z.ltb_spec (blen w) 1), (Z.eqb_spec (blen w) 0); try lia; cbn [negb andb] in Hw.
    + eapply wp_step; [exact Hc|exact Hr|by apply Hsw|]. apply Hw. exact He.
    + cbn [cbind] in Hsw. destruct (forallb isdigit w); cbn [andb] in Hw.
      * destruct (number_of w =? 0); (eapply wp_step; [exact Hc|exact Hr|by apply Hsw|]); [apply Hw; exact He|].
        cbn. split; [lia|]. by apply Hend.
      * eapply wp_step; [exact Hc|exact Hr|by apply Hsw|]. apply Hw. exact He.
  - cbn [p inside] in Hsw. rewrite (word_end_at j w) in Hsw by done. cbn [cbind req with_rlen with_p inside] in Hsw. rewrite Et in Hsw.
    eapply wp_step; [exact Hc|exact Hr|by apply Hsw|]. cbn. split; [lia|]. by apply Hend.
Qed.

(** What the loop may end with. *)
Definition outcome (a : act) (h : heap) : Prop :=
  match a with
  | Finish s | Next s => exists js a t, code_words ws = Some js /\ head ws = Some t /\ req s = req_with (verb_of t) a /\ holding a js h
  | Error s => code_words ws = None /\ 0 <= p s < blen buf
  | Oom s => exists m, grants m = false
  end.

(** From the word [j] on, with the keys [js] found. *)
Definition goes_on (q : state) (j : nat) (t : cmd_type) (js : list nat) : Prop :=
  forall a h, holding a js h -> wp (before q j (req_with t a)) h outcome.

Section verb.
Context (t : cmd_type) (w0 : list Z).
Hypothesis Hhead : head ws = Some w0.
Hypothesis Hverb : verb_of w0 = t.

Lemma finished js a h s : code_words ws = Some js -> req s = req_with t a -> holding a js h -> outcome (Finish s) h.
Proof. intros. exists js, a, w0. rewrite Hverb. done. Qed.

Lemma refused q j r h : (j < length ws)%nat -> code_words ws = None -> outcome (Error (behind q j r)) h.
Proof.
  intros Hj Hk. split; [done|]. destruct (lookup_lt_is_Some_2 ws j Hj) as [w Hw]. cbn [p behind]. rewrite (word_line_S j w Hw).
  pose proof (at_pos_range _ _ _ _ (at_end j w Hw)). pose proof (at_pos_range _ _ _ _ (at_pos_next _ _ _ _ (at_end j w Hw))). lia.
Qed.

(** The text ends behind the words. *)
Lemma wp_out q js : code_words ws = Some js -> goes_on q (length ws) t js.
Proof.
  intros Hk a h Hh. apply wp_end; [|by exists js, a, w0; rewrite Hverb].
  cbn [p before]. unfold word_line. rewrite take_ge by lia. rewrite command_eq. lia.
Qed.

(** A key: the state behind it decides. *)
Lemma key_goes j js : (j < length ws)%nat -> (length js <= j)%nat ->
  (forall a h, holding a (js ++ [j]) h ->
     match sw_key_lf LF (behind SW_KEY_LF j (req_with t a)) with
     | Next s => s = goto (sw s) (behind SW_KEY_LF j (req_with t a)) /\ goes_on (sw s) (S j) t (js ++ [j])
     | x => outcome x h
     end) -> goes_on SW_KEY_LEN j t js.
Proof.
  intros Hj Hjs Hf a h Hh. destruct (lookup_lt_is_Some_2 ws j Hj) as [w Hw].
  apply (wp_len SW_KEY_LEN SW_KEY_LEN_LF SW_KEY (fun s _ => rnarg s =? 0) j w); [done|by intros ch s Hs; unfold CmdParse.switch; rewrite Hs..| |].
  - intros s _ _ -> _. lia.
  - apply (wp_key j w t a js); [done|done|done| |].
    + intros a' h' Hh'. apply (wp_lf sw_key_lf SW_KEY_LF j); [done|by intros ch s Hs; unfold CmdParse.switch; rewrite Hs|].
      specialize (Hf a' h' Hh'). destruct (sw_key_lf _ _); try done. destruct Hf as [E Hf]. split; [exact E|]. by apply Hf.
    + intros s h' _ _ Hg. exact Hg.
Qed.

(** An argument that is read in the states [q] .. [q3], whose last handler is [f]. *)
Lemma arg_goes q q1 q2 q3 f j js : (j < length ws)%nat ->
  (q, q1, q2, q3) = (SW_ARG1_LEN, SW_ARG1_LEN_LF, SW_ARG1, SW_ARG1_LF) /\ f = sw_arg1_lf \/
  (q, q1, q2, q3) = (SW_ARG3_LEN, SW_ARG3_LEN_LF, SW_ARG3, SW_ARG3_LF) /\ f = sw_arg3_lf \/
  (q, q1, q2, q3) = (SW_ARGN_LEN, SW_ARGN_LEN_LF, SW_ARGN, SW_ARGN_LF) /\ f = sw_argn_lf \/
  (q, q1, q2, q3) = (SW_ARG2_LEN, SW_ARG2_LEN_LF, SW_ARG2, SW_ARG2_LF) /\ f = sw_arg2_lf /\ redis_argeval t = false ->
  (forall a h, holding a js h ->
     match f LF (behind q3 j (req_with t a)) with
     | Next s => s = goto (sw s) (behind q3 j (req_with t a)) /\ goes_on (sw s) (S j) t js
     | x => outcome x h
     end) -> goes_on q j t js.
Proof.
  intros Hj Hq Hf a h Hh. destruct (lookup_lt_is_Some_2 ws j Hj) as [w Hw]. specialize (Hf a h Hh).
  assert (Hlf : wp (behind q3 j (req_with t a)) h outcome).
  { apply (wp_lf f q3 j); [done| |].
    - intros ch s Hs. unfold CmdParse.switch. rewrite Hs. by destruct Hq as [[[= -> -> -> ->] ->]|[[[= -> -> -> ->] ->]|[[[= -> -> -> ->] ->]|([= -> -> -> ->] & -> & _)]]].
    - destruct (f _ _); try done. destruct Hf as [E Hf]. split; [exact E|]. by apply Hf. }
  apply (wp_len q q1 q2 (fun s t => (p s - t <=? 1) || (rnarg s =? 0)) j w).
  1: done.
  1, 2: intros ch s Hs; unfold CmdParse.switch; rewrite Hs; by destruct Hq as [[[= -> -> -> ->] ->]|[[[= -> -> -> ->] ->]|[[[= -> -> -> ->] ->]|([= -> -> -> ->] & -> & _)]]].
  { intros s _ _ -> Hp. lia. }
  destruct Hq as [[[= -> -> -> ->] ->]|[[[= -> -> -> ->] ->]|[[[= -> -> -> ->] ->]|([= -> -> -> ->] & -> & Ht)]]].
  1-3: eapply wp_arg; [exact Hw| |exact Hlf]; intros ch s Hs; unfold CmdParse.switch; by rewrite Hs.
  apply (wp_arg2 SW_ARG2_LF j w); [done|done|]. cbn [type req_with with_keys with_type with_narg]. by rewrite Ht.
Qed.

Hypothesis Hknown : t <> CMD_UNKNOWN.

Lemma code_words_layout : code_words ws = code_layout t (tail ws) /\ length (tail ws) = (length ws - 1)%nat.
Proof.
  revert Hhead. destruct ws as [|w l]; cbn; [discriminate|]. intros [= ->]. rewrite Hverb, bool_decide_false by done. split; [done|lia].
Qed.

Ltac at_lf f :=
  unfold f; change (LF =? LF) with true; cbn [negb rnarg req type narg behind req_with with_keys with_type with_narg].

(** The code_layout of the verb, with the kinds that are known and the numbers of
    words compared. *)
Ltac by_layout :=
  rewrite (proj1 code_words_layout); unfold code_layout; rewrite ?(proj2 code_words_layout);
  repeat match goal with H : ?f t = _ |- _ => rewrite H end;
  repeat (let E := fresh in destruct (Nat.eqb_spec (length ws - 1) _) as [E|E]; [|]; try lia); done.

(** Rewrites with what is known of the kind of the verb. *)
Ltac by_kind := destruct_and?; repeat match goal with H : ?f t = _ |- context [?f t] => rewrite H end; cbn [orb].

(** Decides the first comparison of the goal. *)
Ltac compare_yes := match goal with |- context [?x =? ?y] => rewrite (proj2 (Z.eqb_eq x y)) by lia end; cbn [negb].
Ltac compare_no := match goal with |- context [?x =? ?y] => rewrite (proj2 (Z.eqb_neq x y)) by lia end; cbn [negb].

Lemma argn_goes js : redis_argn t || redis_argeval t || redis_argsub t = true -> code_words ws = Some js ->
  forall k j, length ws = (j + S k)%nat -> goes_on SW_ARGN_LEN j t js.
Proof.
  intros Ht Hk k. induction k as [|k IH]; intros j Hj;
    (eapply (arg_goes _ SW_ARGN_LEN_LF SW_ARGN SW_ARGN_LF sw_argn_lf); [lia|tauto|]; intros a h Hh; at_lf sw_argn_lf; rewrite Ht).
  - rewrite (proj2 (Z.eqb_eq _ 0)) by lia. by apply (finished js a).
  - rewrite (proj2 (Z.eqb_neq _ 0)) by lia. split; [done|]. apply IH. lia.
Qed.

(** Commands with a number of arguments that is fixed: [i] behind the key. *)
Definition fixed_kind (i : nat) : Prop :=
  redis_argz t = false /\ redis_argeval t = false /\ redis_argsub t = false /\
  match i with
  | O => redis_arg0 t = true
  | 1%nat => redis_arg0 t = false /\ redis_arg1 t = true
  | 2%nat => redis_arg0 t = false /\ redis_arg1 t = false /\ redis_arg2 t = true
  | 3%nat => redis_arg0 t = false /\ redis_arg1 t = false /\ redis_arg2 t = false /\ redis_arg3 t = true
  | _ => False
  end.

Lemma fixed_layout i : fixed_kind i -> (1 < length ws)%nat ->
  code_words ws = if (length ws =? i + 2)%nat then Some [1%nat] else None.
Proof.
  intros (Hz & He & Hs & Hi) Hl. rewrite (proj1 code_words_layout). unfold code_layout. rewrite (proj2 code_words_layout), Hz, He, Hs.
  destruct (Nat.eqb_spec (length ws - 1) 0); [lia|].
  destruct i as [|[|[|[|i]]]]; [| | | |done]; by_kind;
    repeat match goal with |- context [(?x =? ?y)%nat] => destruct (Nat.eqb_spec x y); try lia end; done.
Qed.

Lemma fixed_goes i : fixed_kind i -> (1 < length ws)%nat -> goes_on SW_KEY_LEN 1 t [].
Proof.
  intros Hi Hl. pose proof (fixed_layout i Hi Hl) as Hk. destruct Hi as (Hz & He & Hs & Hi). apply key_goes; [lia|cbn; lia|].
  intros a h Hh. at_lf sw_key_lf. cbn [app].
  assert (Hfin : length ws = (i + 2)%nat -> forall q, outcome (Finish (behind q (S i) (req_with t a))) h).
  { intros E q. apply (finished [1%nat] a); [|done|done]. rewrite Hk, E. by rewrite Nat.eqb_refl. }
  assert (Hno : length ws <> (i + 2)%nat -> outcome (Error (behind SW_KEY_LF 1 (req_with t a))) h).
  { intros E. apply refused; [lia|]. rewrite Hk. by destruct (Nat.eqb_spec (length ws) (i + 2)). }
  destruct i as [|[|[|[|i]]]]; [| | | |done].
  - by_kind. destruct (Z.eqb_spec (n - Z.of_nat 2) 0); cbn [negb]; [apply Hfin; lia|apply Hno; lia].
  - by_kind. destruct (Z.eqb_spec (n - Z.of_nat 2) 1); cbn [negb]; [|apply Hno; lia]. split; [done|].
    eapply (arg_goes _ _ _ _ sw_arg1_lf); [lia|by left|]. intros a1 h1 Hh1. at_lf sw_arg1_lf. by_kind. compare_yes.
    apply (finished [1%nat] a1); [|done|done]. by rewrite Hk, (proj2 (Nat.eqb_eq _ _)) by lia.
  - by_kind. destruct (Z.eqb_spec (n - Z.of_nat 2) 2); cbn [negb]; [|apply Hno; lia]. split; [done|].
    eapply (arg_goes _ _ _ _ sw_arg1_lf); [lia|by left|]. intros a1 h1 Hh1. at_lf sw_arg1_lf. by_kind. compare_yes.
    split; [done|].
    eapply (arg_goes _ _ _ _ sw_arg2_lf); [lia|right; right; right; by split_and!|]. intros a2 h2 Hh2. at_lf sw_arg2_lf. by_kind. compare_yes.
    apply (finished [1%nat] a2); [|done|done]. by rewrite Hk, (proj2 (Nat.eqb_eq _ _)) by lia.
  - by_kind. destruct (Z.eqb_spec (n - Z.of_nat 2) 3); cbn [negb]; [|apply Hno; lia]. split; [done|].
    eapply (arg_goes _ _ _ _ sw_arg1_lf); [lia|by left|]. intros a1 h1 Hh1. at_lf sw_arg1_lf. by_kind. compare_yes.
    split; [done|].
    eapply (arg_goes _ _ _ _ sw_arg2_lf); [lia|right; right; right; by split_and!|]. intros a2 h2 Hh2. at_lf sw_arg2_lf. by_kind. compare_yes.
    split; [done|].
    eapply (arg_goes _ _ _ _ sw_arg3_lf); [lia|right; by left|]. intros a3 h3 Hh3. at_lf sw_arg3_lf. by_kind. compare_yes.
    apply (finished [1%nat] a3); [|done|done]. by rewrite Hk, (proj2 (Nat.eqb_eq _ _)) by lia.
Qed.

(** No kind before [argn]. *)
Definition late_kind : Prop :=
  redis_argz t = false /\ redis_arg0 t = false /\ redis_arg1 t = false /\ redis_arg2 t = false /\ redis_arg3 t = false.

Ltac layout_cases :=
  rewrite (proj1 code_words_layout); unfold code_layout; rewrite (proj2 code_words_layout); by_kind;
  repeat match goal with |- context [(?x =? ?y)%nat] => let E := fresh "E" in destruct (Nat.eqb_spec x y) as [E|E]; try lia end; try done.

Lemma argn_kind_goes : late_kind -> redis_argeval t = false -> redis_argsub t = false -> redis_argn t = true ->
  (1 < length ws)%nat -> goes_on SW_KEY_LEN 1 t [].
Proof.
  intros Hk He Hs Hn Hl. unfold late_kind in Hk. assert (Hw : code_words ws = Some [1%nat]) by layout_cases.
  apply key_goes; [lia|cbn; lia|]. intros a h Hh. at_lf sw_key_lf. by_kind. cbn [app].
  destruct (Z.eqb_spec (n - Z.of_nat 2) 0) as [E2|E2]; [by apply (finished [1%nat] a)|]. split; [done|].
  eapply (arg_goes _ _ _ _ sw_arg1_lf); [lia|by left|]. intros a1 h1 Hh1. at_lf sw_arg1_lf. by_kind.
  destruct (Z.eqb_spec (n - Z.of_nat 3) 0) as [E3|E3]; [by apply (finished [1%nat] a1)|]. split; [done|].
  apply (argn_goes [1%nat]) with (k := (length ws - 4)%nat); [by_kind; done|done|lia].
Qed.

Lemma argx_goes : late_kind -> redis_argeval t = false -> redis_argsub t = false -> redis_argn t = false -> redis_argx t = true ->
  forall k m, length ws = (S m + S k)%nat -> goes_on SW_KEY_LEN (S m) t (seq 1 m).
Proof.
  intros Hk He Hs Hn Hx k. unfold late_kind in Hk.
  induction k as [|k IH]; intros m Hm; (apply key_goes; [lia|rewrite length_seq; lia|]); intros a h Hh; at_lf sw_key_lf; by_kind;
    change [S m] with (seq (1 + m) 1) in *; rewrite <- seq_app, Nat.add_1_r in *.
  - compare_yes. apply (finished (seq 1 (S m)) a); [|done|done]. replace (S m) with (length ws - 1)%nat by lia. layout_cases.
  - compare_no. split; [done|]. apply IH. lia.
Qed.

Lemma pairs_goes d : late_kind -> redis_argeval t = false -> redis_argsub t = false -> redis_argn t = false -> redis_argx t = false ->
  redis_argkvx t = true -> length ws = (2 * d + 1)%nat -> forall k i, (i + S k = d)%nat -> goes_on SW_KEY_LEN (2 * i + 1) t (odd_words i).
Proof.
  intros Hk He Hs Hn Hx Hv Hl k. unfold late_kind in Hk.
  assert (Hw : code_words ws = Some (odd_words d) \/ (d = 0)%nat).
  { destruct d as [|d]; [by right|left]. layout_cases. replace (length ws - 1)%nat with (2 * S d)%nat by lia.
    by rewrite Nat.even_mul, Nat.div2_double. }
  assert (Hsnoc : forall i, odd_words i ++ [(2 * i + 1)%nat] = odd_words (S i)) by (intros i; unfold odd_words; by rewrite seq_S, map_app).
  induction k as [|k IH]; intros i Hi; (apply key_goes; [lia|unfold odd_words; rewrite length_map, length_seq; lia|]);
    intros a h Hh; at_lf sw_key_lf; by_kind; compare_no; rewrite Hsnoc in *;
    (assert (n mod 2 = 1) as -> by (rewrite Hl; replace (Z.of_nat (2 * d + 1)) with (1 + Z.of_nat d * 2) by lia; by rewrite Z.mod_add));
    change (1 =? 0) with false; cbv iota; (split; [done|]);
    (eapply (arg_goes _ _ _ _ sw_arg1_lf); [lia|by left|]); intros a1 h1 Hh1; at_lf sw_arg1_lf; by_kind.
  - compare_yes. apply (finished (odd_words (S i)) a1); [|done|done]. destruct Hw as [->|]; [|lia]. do 2 f_equal. lia.
  - compare_no. split; [done|]. replace (S (S (2 * i + 1))) with (2 * S i + 1)%nat by lia. apply IH. lia.
Qed.

Lemma argkvx_goes : late_kind -> redis_argeval t = false -> redis_argsub t = false -> redis_argn t = false -> redis_argx t = false ->
  redis_argkvx t = true -> (1 < length ws)%nat -> goes_on SW_KEY_LEN 1 t [].
Proof.
  intros Hk He Hs Hn Hx Hv Hl. destruct (Nat.Even_or_Odd (length ws)) as [[d Hd]|[d Hd]].
  - unfold late_kind in Hk. apply key_goes; [lia|cbn; lia|]. intros a h Hh. at_lf sw_key_lf. by_kind.
    destruct (Z.eqb_spec (n - Z.of_nat 2) 0) as [E2|E2].
    + apply (finished [1%nat] a); [|done|done]. layout_cases.
    + rewrite Hd. replace (Z.of_nat (2 * d)) with (0 + Z.of_nat d * 2) by lia. rewrite Z.mod_add by lia.
      change (0 mod 2 =? 0) with true. cbv iota. apply refused; [lia|]. layout_cases.
      replace (length ws - 1)%nat with (S (2 * (d - 1))) by lia. by rewrite Nat.even_succ, Nat.odd_mul.
  - apply (pairs_goes d) with (k := (d - 1)%nat) (i := 0%nat); (done || lia).
Qed.

(** EVAL: the second argument is the number of keys. *)
Lemma numkeys_goes j w : ws !! j = Some w -> redis_argeval t = true ->
  (counts_keys w = false -> code_words ws = None) ->
  (forall a h, holding a [] h -> counts_keys w = true ->
     match sw_arg2_lf LF (behind SW_ARG2_LF j (req_with t a)) with
     | Next s => s = goto (sw s) (behind SW_ARG2_LF j (req_with t a)) /\ goes_on (sw s) (S j) t []
     | x => outcome x h
     end) -> goes_on SW_ARG2_LEN j t [].
Proof.
  intros Hw He Hno Hf a h Hh. specialize (Hf a h Hh).
  apply (wp_len SW_ARG2_LEN SW_ARG2_LEN_LF SW_ARG2 (fun s t => (p s - t <=? 1) || (rnarg s =? 0)) j w); [done|by intros ch s Hs; unfold CmdParse.switch; rewrite Hs..| |].
  { intros s _ _ -> Hp. pose proof (lookup_lt_Some _ _ _ Hw). lia. }
  apply (wp_arg2 SW_ARG2_LF j w); [done|done|]. cbn [type req_with with_keys with_type with_narg]. rewrite He.
  destruct (counts_keys w); [|intros s Hs; split; [by apply Hno|done]]. specialize (Hf eq_refl).
  apply (wp_lf sw_arg2_lf SW_ARG2_LF j); [by eapply lookup_lt_Some|by intros ch s Hs; unfold CmdParse.switch; rewrite Hs|].
  destruct (sw_arg2_lf _ _); try done. destruct Hf as [E Hf]. split; [exact E|]. by apply Hf.
Qed.

Lemma lookup_tail_third (l : list (list Z)) w : l !! 2%nat = Some w -> (4 <= length l)%nat -> nth 1 (tail l) [] = w.
Proof. destruct l as [|? [|? [|? l]]]; cbn; try lia. by intros [= ->]. Qed.

Lemma eval_goes : late_kind -> redis_argn t = false -> redis_argx t = false -> redis_argkvx t = false -> redis_argeval t = true ->
  (1 < length ws)%nat -> goes_on SW_ARG1_LEN 1 t [].
Proof.
  intros Hk Hn Hx Hv He Hl. unfold late_kind in Hk.
  assert (Hw : code_words ws = match tail ws with _ :: w :: _ :: _ => if counts_keys w then Some [3%nat] else None | _ => None end) by layout_cases.
  eapply (arg_goes _ _ _ _ sw_arg1_lf); [lia|by left|]. intros a h Hh. at_lf sw_arg1_lf. by_kind.
  destruct (Z.ltb_spec (n - Z.of_nat 2) 2) as [E|E].
  { apply refused; [lia|]. rewrite Hw. pose proof (proj2 code_words_layout) as Hlt. destruct (tail ws) as [|? [|? [|? ?]]]; [done..|].
    cbn [length] in Hlt. lia. }
  split; [done|]. destruct (lookup_lt_is_Some_2 ws 2%nat) as [w E2]; [lia|].
  assert (Hw2 : code_words ws = if counts_keys w then Some [3%nat] else None).
  { rewrite Hw. pose proof (proj2 code_words_layout) as Hlt. rewrite <- (lookup_tail_third _ _ E2) by lia.
    by destruct (tail ws) as [|? [|? [|? ?]]]; cbn in Hlt; try lia. }
  apply (numkeys_goes 2 w); [done|done|intros E3; by rewrite Hw2, E3|]. intros a1 h1 Hh1 E3. rewrite E3 in Hw2.
  at_lf sw_arg2_lf. by_kind. rewrite (proj2 (Z.ltb_ge _ _)) by lia. split; [done|].
  apply key_goes; [lia|cbn; lia|]. intros a2 h2 Hh2. at_lf sw_key_lf. by_kind. cbn [app].
  destruct (Z.eqb_spec (n - Z.of_nat 4) 0) as [E4|E4]; [by apply (finished [3%nat] a2)|]. split; [done|].
  apply (argn_goes [3%nat]) with (k := (length ws - 5)%nat); [by_kind; by destruct (redis_argn t)|done|lia].
Qed.

Lemma sub_goes : late_kind -> redis_argn t = false -> redis_argx t = false -> redis_argkvx t = false -> redis_argeval t = false ->
  redis_argsub t = true -> (1 < length ws)%nat -> goes_on SW_ARG1_LEN 1 t [].
Proof.
  intros Hk Hn Hx Hv He Hs Hl. unfold late_kind in Hk.
  eapply (arg_goes _ _ _ _ sw_arg1_lf); [lia|by left|]. intros a h Hh. at_lf sw_arg1_lf. by_kind.
  destruct (Z.ltb_spec (n - Z.of_nat 2) 1) as [E|E]; [apply refused; [lia|]; layout_cases|]. split; [done|].
  assert (Hw : code_words ws = Some [2%nat]) by layout_cases.
  apply key_goes; [lia|cbn; lia|]. intros a2 h2 Hh2. at_lf sw_key_lf. by_kind. cbn [app].
  destruct (Z.eqb_spec (n - Z.of_nat 3) 0) as [E4|E4]; [by apply (finished [2%nat] a2)|]. split; [done|].
  apply (argn_goes [2%nat]) with (k := (length ws - 4)%nat); [by_kind; by destruct (redis_argn t)|done|lia].
Qed.

(** A verb of the table that is of no kind: there is none, but the code asks. *)
Lemma no_kind_goes : late_kind -> redis_argn t = false -> redis_argx t = false -> redis_argkvx t = false -> redis_argeval t = false ->
  redis_argsub t = false -> (1 < length ws)%nat -> goes_on SW_KEY_LEN 1 t [].
Proof.
  intros Hk Hn Hx Hv He Hs Hl. unfold late_kind in Hk. apply key_goes; [lia|cbn; lia|]. intros a h Hh. at_lf sw_key_lf. by_kind.
  apply refused; [lia|]. layout_cases.
Qed.

Lemma eval_kind : redis_argeval t = true -> late_kind /\ redis_argn t = false /\ redis_argx t = false /\ redis_argkvx t = false /\ redis_argsub t = false.
Proof. unfold late_kind. destruct t; try discriminate; repeat split. Qed.

Lemma sub_kind : redis_argsub t = true -> late_kind /\ redis_argn t = false /\ redis_argx t = false /\ redis_argkvx t = false /\ redis_argeval t = false.
Proof. unfold late_kind. destruct t; try discriminate; repeat split. Qed.

(** Behind the verb. *)
Lemma verb_goes a h : holding a [] h -> (0 < length ws)%nat ->
  match sw_cmd_type_lf LF (behind SW_CMD_TYPE_LF 0 (req_with t a)) with
  | Next s => s = goto (sw s) (behind SW_CMD_TYPE_LF 0 (req_with t a)) /\ goes_on (sw s) 1 t []
  | x => outcome x h
  end.
Proof.
  intros Hh Hl. at_lf sw_cmd_type_lf. destruct (redis_argz t) eqn:Ez; [apply (finished [] a); [layout_cases|done|done]|].
  destruct (decide (length ws = 1)%nat) as [E1|E1].
  { assert (Hw : code_words ws = Some []) by layout_cases. rewrite <- E1. destruct (_ || _); (split; [done|]); by apply (wp_out _ []). }
  destruct (redis_argeval t) eqn:Ee.
  { destruct (eval_kind Ee) as (K1 & K2 & K3 & K4 & K5). split; [done|]. apply eval_goes; (done || lia). }
  destruct (redis_argsub t) eqn:Es.
  { destruct (sub_kind Es) as (K1 & K2 & K3 & K4 & K5). split; [done|]. apply sub_goes; (done || lia). }
  split; [done|]. cbn [orb sw goto].
  destruct (redis_arg0 t) eqn:E0; [apply (fixed_goes 0); [by repeat split|lia]|].
  destruct (redis_arg1 t) eqn:Ea1; [apply (fixed_goes 1); [by repeat split|lia]|].
  destruct (redis_arg2 t) eqn:Ea2; [apply (fixed_goes 2); [by repeat split|lia]|].
  destruct (redis_arg3 t) eqn:Ea3; [apply (fixed_goes 3); [by repeat split|lia]|].
  assert (Hk : late_kind) by by repeat split.
  destruct (redis_argn t) eqn:En; [apply argn_kind_goes; (done || lia)|].
  destruct (redis_argx t) eqn:Ex; [apply (argx_goes Hk Ee Es En Ex (length ws - 2)%nat 0%nat); lia|].
  destruct (redis_argkvx t) eqn:Ev; [apply argkvx_goes; (done || lia)|]. apply no_kind_goes; (done || lia).
Qed.
End verb.

(** *** From the first byte *)

Lemma wp_count h Q ds : forall s l t, (sw s = SW_NARG) -> Forall (fun c => isdigit c = true) ds -> token s = Some t -> at_pos buf (p s) (ds ++ l) ->
  wp (with_p (p s + blen ds) (with_rnarg (foldl shift_digit (rnarg s) ds) s)) h Q -> wp s h Q.
Proof.
  induction ds as [|d ds IH]; intros s l t Hs Hd Ht Hp Hw.
  - replace s with (with_p (p s + blen []) (with_rnarg (foldl shift_digit (rnarg s) []) s)); [done|].
    destruct s; unfold with_p, with_rnarg; cbn. f_equal. rewrite blen_nil. lia.
  - apply Forall_cons in Hd as [Hd Hds]. eapply (wp_step _ s h Q d); [by eapply at_pos_rd|by eapply at_pos_range| |].
    + unfold CmdParse.switch. rewrite Hs. unfold sw_narg. rewrite Ht, Hd. reflexivity.
    + cbn [p with_rnarg]. split; [lia|]. apply (IH _ l t); try done.
      * cbn. eapply at_pos_next. exact Hp.
      * cbn in *. rewrite blen_cons in Hw. replace (p s + 1 + blen ds) with (p s + (1 + blen ds)) by lia. exact Hw.
Qed.

(** The request behind the count. *)
Definition counted (r : cmd) : cmd := with_narg (Some 0) (Some (1 + blen (dec n))) n r.

Lemma count_goes h Q : 
  (ws = [] -> forall s, 0 <= p s < blen buf -> Q (Error s) h) ->
  (ws <> [] -> wp (before SW_CMD_TYPE_LEN 0 (counted r0)) h Q) -> wp (mkFsa 0 None 0 0 SW_START r0) h Q.
Proof.
  intros He Hw. pose proof (command_count ws Hlen) as Hn. destruct (number_dec n) as (N1 & N2 & N3); [lia|].
  pose proof (at_pos_0 buf) as Hp. rewrite command_eq in Hp at 2. unfold head_text in Hp. rewrite <- !app_assoc in Hp. cbn [app] in Hp.
  eapply (wp_step _ _ _ _ 42 (Next (mkFsa 0 (Some 0) 0 0 SW_NARG (with_narg (Some 0) (narg_end r0) (narg r0) r0))) h);
    [by eapply at_pos_rd|by eapply at_pos_range|reflexivity|]. cbn [p]. split; [lia|].
  apply at_pos_next in Hp. eapply (wp_count h Q (dec n)); [done|done|reflexivity|exact Hp|]. cbn [rnarg p with_p].
  fold (number_of (dec n)). rewrite N1. apply at_pos_app in Hp. pose proof (at_pos_range _ _ _ _ Hp) as Hr.
  unfold with_p, with_rnarg. cbn [rnarg token rlen sw req p].
  set (s1 := mkFsa _ (Some 0) _ _ _ _). assert (Hsw : switch 13 s1 h = Ret (sw_narg 13 s1, h)) by done. unfold sw_narg in Hsw. cbn [token rnarg s1] in Hsw.
  change (isdigit 13) with false in Hsw. change (13 =? CR) with true in Hsw. cbv iota in Hsw. destruct (Z.eqb_spec n 0) as [E|E].
  - eapply (wp_step _ _ _ _ 13); [by eapply at_pos_rd|exact Hr|exact Hsw|]. apply He; [by destruct ws; cbn in *; [|lia]|exact Hr].
  - eapply (wp_step _ _ _ _ 13); [by eapply at_pos_rd|exact Hr|exact Hsw|].
    cbn [p goto with_token with_req s1]. split; [lia|]. apply at_pos_next in Hp.
    assert (ws <> []) as Hne by (intros ->; done). specialize (Hw Hne).
    unfold before, counted, word_line, head_text in Hw. rewrite take_0 in Hw. cbn [map concat] in Hw. rewrite app_nil_r in Hw.
    cbn [app] in Hw. rewrite blen_cons, blen_app, Z.sub_0_r in Hw. change (blen [13; 10]) with 2 in Hw.
    eapply (wp_step _ _ _ _ 10 (Next (mkFsa (0 + 1 + blen (dec n) + 1) None 0 n SW_CMD_TYPE_LEN (with_narg (Some 0) (Some (1 + blen (dec n))) n r0))) h);
      [by eapply at_pos_rd|by eapply at_pos_range|reflexivity|]. cbn [p with_p]. split; [lia|]. unfold with_p. cbn [token rlen rnarg sw req].
    by replace (0 + 1 + blen (dec n) + 1 + 1) with (1 + (blen (dec n) + 2)) by lia.
Qed.

Lemma unknown_verb l w : head l = Some w -> verb_of w = CMD_UNKNOWN -> code_words l = None.
Proof. destruct l as [|x l]; cbn; [done|]. intros [= ->] E. by rewrite bool_decide_true. Qed.

Lemma start_goes a h : keys r0 = Some a -> holding a [] h -> wp (mkFsa 0 None 0 0 SW_START r0) h outcome.
Proof.
  intros Hk Hh. apply count_goes.
  { intros E s Hs. split; [by rewrite E|done]. }
  intros Hne. assert (Hl : (0 < length ws)%nat) by (destruct ws; cbn; [done|lia]).
  destruct (lookup_lt_is_Some_2 ws 0%nat Hl) as [w0 Hj]. assert (Hhd : head ws = Some w0) by (by rewrite head_lookup).
  pose proof (unknown_verb ws w0 Hhd) as Hun.
  apply (wp_len_test SW_CMD_TYPE_LEN SW_CMD_TYPE_LEN_LF SW_CMD_TYPE (fun s _ => (rlen s =? 0) || (rnarg s =? 0)) 0 w0);
    [done|by intros ch s Hs; unfold CmdParse.switch; rewrite Hs..|].
  intros s _ -> -> _ Hp. rewrite (proj2 (Z.eqb_neq (n - Z.of_nat 0) 0)), orb_false_r by lia. destruct (Z.eqb_spec (blen w0) 0) as [E|E].
  { split; [|done]. apply Hun. by rewrite (nil_length_inv w0) by (unfold blen in E; lia). }
  pose proof (at_bytes 0 w0 Hj) as Hb. destruct (at_pos_head _ _ _ _ _ Hb) as (ch & Hc & Hr). pose proof (blen_nonneg w0).
  pose proof (at_pos_range _ _ _ _ (at_end 0 w0 Hj)) as He.
  assert (Hsw : switch ch (inside SW_CMD_TYPE 0 w0 (counted r0)) h =
    Ret (let s := mkFsa (word_start 0 w0 + blen w0) None 0 (n - Z.of_nat 1) SW_CMD_TYPE (with_type (verb_of w0) (counted r0)) in
         if bool_decide (verb_of w0 = CMD_UNKNOWN) then Error s else Next (goto SW_CMD_TYPE_LF s), h)).
  { unfold CmdParse.switch. cbn [sw inside]. unfold sw_cmd_type. cbn [token inside default p]. rewrite (word_end_at 0 w0) by done. cbn [cbind].
    replace (word_start 0 w0 + blen w0 - word_start 0 w0) with (blen w0) by lia. rewrite (proj2 Hb), parse_verb. reflexivity. }
  eapply wp_step; [exact Hc|exact Hr|exact Hsw|]. cbv zeta. destruct (bool_decide_reflect (verb_of w0 = CMD_UNKNOWN)) as [Eu|Eu].
  { split; [by apply Hun|exact He]. }
  cbn [p goto inside]. split; [lia|]. assert (Er : with_type (verb_of w0) (counted r0) = req_with (verb_of w0) a).
  { unfold req_with, counted. destruct r0; cbn in *. by rewrite Hk. }
  rewrite Er. replace (with_p _ _) with (behind SW_CMD_TYPE_LF 0 (req_with (verb_of w0) a))
    by (unfold behind, with_p; cbn [token rlen rnarg sw req goto]; f_equal; rewrite (word_line_S 0 w0 Hj); lia).
  apply (wp_lf sw_cmd_type_lf SW_CMD_TYPE_LF 0); [done|by intros c s' Hs; unfold CmdParse.switch; rewrite Hs|].
  pose proof (verb_goes (verb_of w0) w0 Hhd eq_refl Eu a h Hh Hl) as Hv.
  destruct (sw_cmd_type_lf _ _); try done. destruct Hv as [Es Hv]. split; [exact Es|]. by apply Hv.
Qed.
End words.

(** What the parser finds in the command [ws]. *)
Definition finds (ws : list (list Z)) (r' : cmd) : Prop :=
  match key_words ws with
  | Some js => result r' = CMD_PARSE_OK /\ Some (type r') = fst <$> (head ws ≫= command_of) /\ narg r' = Z.of_nat (length ws) /\
      exists a l, keys r' = Some a /\ array_ok a l /\ Forall2 (at_word ws) l js
  | None => result r' = CMD_PARSE_ERROR
  end.

Section written.
Context {A : Allocator} {G : Garbage} {U : Uninit keypos} {P : HiAssert}.

Lemma outcome_finds ws h0 rest r s h : result r = CMD_PARSE_OK -> outcome ws h0 rest r (Next s) h ->
  finds ws (req s) /\ finds ws (with_result CMD_PARSE_OK (req s)).
Proof.
  intros Hr (js & a & w & Hk & Hw & -> & (l & L1 & L2 & L3 & L4)). unfold finds. rewrite <- code_words_key_words, Hk, Hw.
  pose proof (code_words_type ws w js Hk Hw) as Ht. cbn in Ht |- *. rewrite Ht.
  split; (split; [done|]; split; [done|]; split; [done|]; by exists a, l).
Qed.

Lemma command_not_empty ws : 0 < blen (command ws).
Proof. rewrite command_eq. unfold head_text. rewrite !blen_app. change (blen [42]) with 1.
  pose proof (blen_nonneg (dec (Z.of_nat (length ws)))). pose proof (blen_nonneg [13; 10]). pose proof (blen_nonneg (concat (map bulk ws))). lia.
Qed.

Lemma parse_finds ws h0 rest r a blk h : blen (command ws) < 2 ^ 31 -> new_command r a blk (command ws) ->
  acquires h0 (array_blocks a ++ rest) h ->
  yields (redis_parse_cmd r h) (fun '(r', _) => (result r' = CMD_PARSE_ENOMEM /\ exists n, grants n = false) \/ finds ws r').
Proof.
  intros Hb Hr H.
  destruct (parse_cmd_ok h0 rest r a blk (command ws) h Hr ltac:(right; apply command_not_empty) Hb H) as ([r' h'] & E & stop & h1 & a' & l & Hm & _ & _ & _ & Hstop).
  destruct Hr as (H1 & H2 & H3 & H4 & H5 & H6 & H7). pose proof (blen_nonneg (command ws)) as H0.
  assert (Hh : holding ws h0 rest a [] h) by (exists []; split_and!; done).
  destruct (start_goes ws h0 rest r Hb a h H3 Hh (Z.to_nat (blen (command ws)))) as ([x h2] & Er & Ho); [cbn [p]; lia|].
  unfold machine_run in Hm. rewrite Hm in Er. injection Er as <- <-. exists (r', h'). split; [done|].
  revert E. unfold redis_parse_cmd. cbv zeta. rewrite H1, H2. cbn [sw]. rewrite (ASSERT_true _ eq_refl). cbn [cbind].
  rewrite ASSERT_true by (rewrite bool_decide_true by eauto; apply Z.ltb_lt, command_not_empty). cbn [cbind]. rewrite Hm. cbn [cbind].
  destruct stop as [s|s|s|s]; intros E.
  - apply cbind_Ret_inv in E as (? & _ & [= <- <-]). right. by apply (outcome_finds ws h0 rest r s h1).
  - apply cbind_Ret_inv in E as (? & _ & [= <- <-]). right. by apply (outcome_finds ws h0 rest r s h1).
  - destruct Ho as [Hk _]. destruct Hstop as [_ [[Hs _]|(Hs & _ & _ & Hg)]]; [right|by left].
    unfold finds. by rewrite <- code_words_key_words, Hk.
  - left. by destruct Hstop as (? & _ & _ & ?).
Qed.

End written.

(** MSET of two keys: words 1 and 3. *)
Definition mset_words : list (list Z) := [text "mset"; text "a{x}"; text "1"; text "b"; text "2"].


(** A command whose text is cut off behind its second key is taken for
    complete, with the keys so far: the loop ends without a result, and the
    result stays CMD_PARSE_OK, not CMD_PARSE_AGAIN. *)
Theorem incomplete_accepted :
  exists r h, @redis_parse_cmd plenty (fun _ _ => 0) (fun _ _ => mkKey 0 0 0) true
    (mkCmd 1 CMD_PARSE_OK None CMD_UNKNOWN (Some (9, take 38 (command mset_words))) 38
       (Some (mkArray 1 0 (Some 0) [mkKey 0 0 0] 24 1)) None None 0 0 0 (-1) None None None None) (mkHeap 2 {[0; 1]}) = Ret (r, h) /\
    result r = CMD_PARSE_OK /\ narg r = 5 /\ (nelem <$> keys r) = Some 2.
Proof. eexists _, _. split; [vm_compute; reflexivity|]. by vm_compute. Qed.
