(* ===== verification/Msgqueue.v ===== *)
(** * The message queue

    workflow/src/linux/kernel/msgqueue.c: the queue between the poller threads
    and the handler threads, two linked lists with a mutex and a condition
    variable each.  Producers append to the put list, the consumer that finds
    the get list empty swaps the two.

    Threads interleave at every access to the shared queue.  A thread is the
    statement it executes next with its local variables; mutexes and
    conditions behave as POSIX says, spurious wake-ups included.  The memory is
    sequentially consistent; this matters only for [nonblock], the one field
    that is written outside the mutexes. *)

From stdpp Require Import gmap.
From S2P Require Import Prelude.

#[local] Open Scope Z_scope.
#[local] Set Warnings "-clear-no-such-hyp".

(** ** The shared queue *)

(** A [void **]: the address of a head, or of the link of a message. *)
Inductive cell := Head1 | Head2 | Link (a : Z).

#[export] Instance cell_eq_dec : EqDecision cell.
Proof. solve_decision. Defined.

(** struct __msgqueue with the mutexes (the thread that holds them) and the
    links of the messages that were handed to the queue.  A link holds the
    address of the next link, [None] for NULL. *)
Record msgqueue := Msgqueue {
  msg_max : Z;
  msg_cnt : Z;
  linkoff : Z;
  nonblock : Z;
  head1 : option Z;
  head2 : option Z;
  get_head : cell;
  put_head : cell;
  put_tail : cell;
  get_mutex : option nat;
  put_mutex : option nat;
  links : gmap Z (option Z)
}.

Definition set_msg_cnt (v : Z) (q : msgqueue) : msgqueue :=
  Msgqueue (msg_max q) v (linkoff q) (nonblock q) (head1 q) (head2 q) (get_head q) (put_head q)
    (put_tail q) (get_mutex q) (put_mutex q) (links q).
Definition set_nonblock (v : Z) (q : msgqueue) : msgqueue :=
  Msgqueue (msg_max q) (msg_cnt q) (linkoff q) v (head1 q) (head2 q) (get_head q) (put_head q)
    (put_tail q) (get_mutex q) (put_mutex q) (links q).
Definition set_heads (v1 v2 : option Z) (q : msgqueue) : msgqueue :=
  Msgqueue (msg_max q) (msg_cnt q) (linkoff q) (nonblock q) v1 v2 (get_head q) (put_head q)
    (put_tail q) (get_mutex q) (put_mutex q) (links q).
Definition set_get_head (c : cell) (q : msgqueue) : msgqueue :=
  Msgqueue (msg_max q) (msg_cnt q) (linkoff q) (nonblock q) (head1 q) (head2 q) c (put_head q)
    (put_tail q) (get_mutex q) (put_mutex q) (links q).
Definition set_put_head (c : cell) (q : msgqueue) : msgqueue :=
  Msgqueue (msg_max q) (msg_cnt q) (linkoff q) (nonblock q) (head1 q) (head2 q) (get_head q) c
    (put_tail q) (get_mutex q) (put_mutex q) (links q).
Definition set_put_tail (c : cell) (q : msgqueue) : msgqueue :=
  Msgqueue (msg_max q) (msg_cnt q) (linkoff q) (nonblock q) (head1 q) (head2 q) (get_head q) (put_head q)
    c (get_mutex q) (put_mutex q) (links q).
Definition set_get_mutex (m : option nat) (q : msgqueue) : msgqueue :=
  Msgqueue (msg_max q) (msg_cnt q) (linkoff q) (nonblock q) (head1 q) (head2 q) (get_head q) (put_head q)
    (put_tail q) m (put_mutex q) (links q).
Definition set_put_mutex (m : option nat) (q : msgqueue) : msgqueue :=
  Msgqueue (msg_max q) (msg_cnt q) (linkoff q) (nonblock q) (head1 q) (head2 q) (get_head q) (put_head q)
    (put_tail q) (get_mutex q) m (links q).
Definition set_links (l : gmap Z (option Z)) (q : msgqueue) : msgqueue :=
  Msgqueue (msg_max q) (msg_cnt q) (linkoff q) (nonblock q) (head1 q) (head2 q) (get_head q) (put_head q)
    (put_tail q) (get_mutex q) (put_mutex q) l.

(** [*c] and [*c = v]; the link of a message the queue does not have is not
    to be touched. *)
Definition load (c : cell) (q : msgqueue) : comp (option Z) :=
  match c with
  | Head1 => Ret (head1 q)
  | Head2 => Ret (head2 q)
  | Link a => match links q !! a with Some v => Ret v | None => Oob end
  end.

Definition store (c : cell) (v : option Z) (q : msgqueue) : comp msgqueue :=
  match c with
  | Head1 => Ret (set_heads v (head2 q) q)
  | Head2 => Ret (set_heads (head1 q) v q)
  | Link a => match links q !! a with Some _ => Ret (set_links (<[a := v]> (links q)) q) | None => Oob end
  end.

(** [pthread_mutex_lock]: [None] while another thread holds the mutex.
    [pthread_mutex_unlock] is for the thread that holds it. *)
Definition lock_get (t : nat) (q : msgqueue) : option msgqueue :=
  match get_mutex q with None => Some (set_get_mutex (Some t) q) | Some _ => None end.
Definition lock_put (t : nat) (q : msgqueue) : option msgqueue :=
  match put_mutex q with None => Some (set_put_mutex (Some t) q) | Some _ => None end.
Definition unlock_get (t : nat) (q : msgqueue) : comp msgqueue :=
  if bool_decide (get_mutex q = Some t) then Ret (set_get_mutex None q) else Oob.
Definition unlock_put (t : nat) (q : msgqueue) : comp msgqueue :=
  if bool_decide (put_mutex q = Some t) then Ret (set_put_mutex None q) else Oob.

(** ** Threads *)

Inductive condition := get_cond | put_cond.
Inductive wakeup := NoWake | Signal (c : condition) | Broadcast (c : condition).

#[export] Instance condition_eq_dec : EqDecision condition.
Proof. solve_decision. Defined.
#[export] Instance wakeup_eq_dec : EqDecision wakeup.
Proof. solve_decision. Defined.

(** Where a call of msgqueue_put is. *)
Inductive put_pc :=
| PutClear | PutLock
| PutTest   (* the condition of the while *)
| PutWait   (* asleep in pthread_cond_wait *)
| PutWake   (* awake, still without the mutex *)
| PutLink | PutTail | PutCount | PutUnlock | PutSignal.

(** __msgqueue_swap, with its locals [get_head] and [cnt]. *)
Inductive swap_pc :=
| SwapSave
| SwapHead (local : cell)
| SwapLock (local : cell)
| SwapTest (local : cell)
| SwapWait (local : cell)
| SwapWake (local : cell)
| SwapCast (local : cell) (cnt : Z)
| SwapPutHead (local : cell) (cnt : Z)
| SwapPutTail (local : cell) (cnt : Z)
| SwapReset (cnt : Z)
| SwapUnlock (cnt : Z).

(** msgqueue_get, with its local [msg]. *)
Inductive get_pc :=
| GetLock | GetTest
| GetSwap (p : swap_pc)
| GetMsg
| GetNext (msg : Z)
| GetUnlock (msg : option Z).

Inductive nonblock_pc := NonblockSet | NonblockLock | NonblockSignal | NonblockCast | NonblockUnlock.

(** A thread: outside the queue, in one of its functions, or about to return
    from it with a result. *)
Inductive pc :=
| Idle
| Put (msg : Z) (p : put_pc)
| Get (p : get_pc)
| Nonblock (p : nonblock_pc)
| Block
| Done (r : option Z).

(** What a step of a thread comes to: [Ret None] if it has to wait. *)
Definition stepped : Type := comp (option (pc * msgqueue * wakeup)).

Definition go (p : pc) (q : msgqueue) : stepped := Ret (Some (p, q, NoWake)).

Definition blocking (m : option msgqueue) (k : msgqueue -> stepped) : stepped :=
  match m with Some q => k q | None => Ret None end.

(** The queue is full: [msg_cnt > msg_max - 1] on [size_t]. *)
Definition full (q : msgqueue) : bool := u64 (msg_max q - 1) <? msg_cnt q.

Definition msgqueue_put (t : nat) (msg : Z) (p : put_pc) (q : msgqueue) : stepped :=
  let link := msg + linkoff q in
  match p with
  | PutClear => let! q := store (Link link) None q in go (Put msg PutLock) q
  | PutLock | PutWake => blocking (lock_put t q) (go (Put msg PutTest))
  | PutTest =>
      if full q && (nonblock q =? 0)
      then let! q := unlock_put t q in go (Put msg PutWait) q
      else go (Put msg PutLink) q
  | PutWait => Ret None
  | PutLink => let! q := store (put_tail q) (Some link) q in go (Put msg PutTail) q
  | PutTail => go (Put msg PutCount) (set_put_tail (Link link) q)
  | PutCount => go (Put msg PutUnlock) (set_msg_cnt (u64 (msg_cnt q + 1)) q)
  | PutUnlock => let! q := unlock_put t q in go (Put msg PutSignal) q
  | PutSignal => Ret (Some (Done None, q, Signal get_cond))
  end.

(** The steps of __msgqueue_swap, and its return value. *)
Definition msgqueue_swap (t : nat) (p : swap_pc) (q : msgqueue) :
  comp (option ((swap_pc + Z) * msgqueue * wakeup)) :=
  match p with
  | SwapSave => Ret (Some (inl (SwapHead (get_head q)), q, NoWake))
  | SwapHead local => Ret (Some (inl (SwapLock local), set_get_head (put_head q) q, NoWake))
  | SwapLock local | SwapWake local =>
      match lock_put t q with Some q => Ret (Some (inl (SwapTest local), q, NoWake)) | None => Ret None end
  | SwapTest local =>
      if (msg_cnt q =? 0) && (nonblock q =? 0)
      then let! q := unlock_put t q in Ret (Some (inl (SwapWait local), q, NoWake))
      else Ret (Some (inl (SwapCast local (msg_cnt q)), q, NoWake))
  | SwapWait _ => Ret None
  | SwapCast local cnt =>
      Ret (Some (inl (SwapPutHead local cnt), q,
                 if u64 (msg_max q - 1) <? cnt then Broadcast put_cond else NoWake))
  | SwapPutHead local cnt => Ret (Some (inl (SwapPutTail local cnt), set_put_head local q, NoWake))
  | SwapPutTail local cnt => Ret (Some (inl (SwapReset cnt), set_put_tail local q, NoWake))
  | SwapReset cnt => Ret (Some (inl (SwapUnlock cnt), set_msg_cnt 0 q, NoWake))
  | SwapUnlock cnt => let! q := unlock_put t q in Ret (Some (inr cnt, q, NoWake))
  end.

Definition msgqueue_get (t : nat) (p : get_pc) (q : msgqueue) : stepped :=
  match p with
  | GetLock => blocking (lock_get t q) (go (Get GetTest))
  | GetTest =>
      let! first := load (get_head q) q in
      go (Get (match first with Some _ => GetMsg | None => GetSwap SwapSave end)) q
  | GetSwap p =>
      let! r := msgqueue_swap t p q in
      match r with
      | Some (inl p, q, w) => Ret (Some (Get (GetSwap p), q, w))
      | Some (inr cnt, q, w) => Ret (Some (Get (if cnt >? 0 then GetMsg else GetUnlock None), q, w))
      | None => Ret None
      end
  | GetMsg =>
      let! first := load (get_head q) q in
      match first with
      | Some a => go (Get (GetNext (a - linkoff q))) q
      | None => Oob
      end
  | GetNext msg =>
      let! first := load (get_head q) q in
      match first with
      | Some a =>
          let! next := load (Link a) q in
          let! q := store (get_head q) next q in go (Get (GetUnlock (Some msg))) q
      | None => Oob
      end
  | GetUnlock msg => let! q := unlock_get t q in go (Done msg) q
  end.

Definition msgqueue_set_nonblock (t : nat) (p : nonblock_pc) (q : msgqueue) : stepped :=
  match p with
  | NonblockSet => go (Nonblock NonblockLock) (set_nonblock 1 q)
  | NonblockLock => blocking (lock_put t q) (go (Nonblock NonblockSignal))
  | NonblockSignal => Ret (Some (Nonblock NonblockCast, q, Signal get_cond))
  | NonblockCast => Ret (Some (Nonblock NonblockUnlock, q, Broadcast put_cond))
  | NonblockUnlock => let! q := unlock_put t q in go (Done None) q
  end.

Definition msgqueue_set_block (q : msgqueue) : stepped := go (Done None) (set_nonblock 0 q).

(** The next step of thread [t]. *)
Definition thread_step (t : nat) (p : pc) (q : msgqueue) : stepped :=
  match p with
  | Idle | Done _ => Ret None
  | Put msg p => msgqueue_put t msg p q
  | Get p => msgqueue_get t p q
  | Nonblock p => msgqueue_set_nonblock t p q
  | Block => msgqueue_set_block q
  end.

(** *** Conditions *)

Definition waiting (c : condition) (p : pc) : bool :=
  match c, p with
  | get_cond, Get (GetSwap (SwapWait _)) => true
  | put_cond, Put _ PutWait => true
  | _, _ => false
  end.

Definition wake (p : pc) : pc :=
  match p with
  | Get (GetSwap (SwapWait local)) => Get (GetSwap (SwapWake local))
  | Put msg PutWait => Put msg PutWake
  | p => p
  end.

(** A signal wakes a thread that waits for the condition, if there is one; a
    broadcast wakes them all. *)
Inductive wakes : wakeup -> list pc -> list pc -> Prop :=
| wakes_none ts : wakes NoWake ts ts
| wakes_nobody c ts : (forall p, p ∈ ts -> waiting c p = false) -> wakes (Signal c) ts ts
| wakes_one c ts t p : ts !! t = Some p -> waiting c p = true -> wakes (Signal c) ts (<[t := wake p]> ts)
| wakes_all c ts : wakes (Broadcast c) ts ((fun p => if waiting c p then wake p else p) <$> ts).

(** *** Calls

    The client calls a function from a thread that is outside the queue.  A
    message it puts is an object the queue does not have; with the call the
    queue gets its link, and with the return of msgqueue_get the client has
    the message back. *)

Inductive operation := OpPut (msg : Z) | OpGet | OpNonblock | OpBlock.

Definition start (o : operation) : pc :=
  match o with
  | OpPut msg => Put msg PutClear
  | OpGet => Get GetLock
  | OpNonblock => Nonblock NonblockSet
  | OpBlock => Block
  end.

Definition callable (o : operation) (q : msgqueue) : Prop :=
  match o with
  | OpPut msg => 0 < msg < 2 ^ 64 /\ links q !! (msg + linkoff q) = None
  | _ => True
  end.

Definition hand_over (o : operation) (v : option Z) (q : msgqueue) : msgqueue :=
  match o with
  | OpPut msg => set_links (<[msg + linkoff q := v]> (links q)) q
  | _ => q
  end.

Definition give_back (r : option Z) (q : msgqueue) : msgqueue :=
  match r with
  | Some msg => set_links (delete (msg + linkoff q) (links q)) q
  | None => q
  end.

Record system := System { queue : msgqueue; threads : list pc }.

Inductive label :=
| Call (t : nat) (o : operation)
| Return (t : nat) (r : option Z)
| Run (t : nat)
| Spurious (t : nat).

Inductive step : system -> label -> system -> Prop :=
| step_call t o v q ts : ts !! t = Some Idle -> callable o q ->
    step (System q ts) (Call t o) (System (hand_over o v q) (<[t := start o]> ts))
| step_return t r q ts : ts !! t = Some (Done r) ->
    step (System q ts) (Return t r) (System (give_back r q) (<[t := Idle]> ts))
| step_run t p p' q q' w ts ts' : ts !! t = Some p -> thread_step t p q = Ret (Some (p', q', w)) ->
    wakes w (<[t := p']> ts) ts' -> step (System q ts) (Run t) (System q' ts')
| step_spurious t p c q ts : ts !! t = Some p -> waiting c p = true ->
    step (System q ts) (Spurious t) (System q (<[t := wake p]> ts)).

Inductive execution : system -> list label -> system -> Prop :=
| execution_nil s : execution s [] s
| execution_snoc s ls s1 l s2 : execution s ls s1 -> step s1 l s2 -> execution s (ls ++ [l]) s2.

(** *** Creation

    msgqueue_create: the results of [malloc] and of the four initialisations
    are parameters.  A failure destroys in the reverse order what was
    initialised before it. *)

Inductive primitive := GetMutex | PutMutex | GetCond | PutCond.

(** The queue, [errno] and the primitives left initialised. *)
Definition msgqueue_create (malloc_ok : bool) (init : primitive -> Z) (maxlen off : Z) :
  option msgqueue * Z * list primitive :=
  if negb malloc_ok then (None, 0, []) else
  let ret := init GetMutex in
  if ret =? 0 then
    let live := [GetMutex] in
    let ret := init PutMutex in
    if ret =? 0 then
      let live := PutMutex :: live in
      let ret := init GetCond in
      if ret =? 0 then
        let live := GetCond :: live in
        let ret := init PutCond in
        if ret =? 0 then
          (Some (Msgqueue maxlen 0 off 0 None None Head1 Head2 Head2 None None ∅), 0, PutCond :: live)
        else (None, ret, tail (tail (tail live)))
      else (None, ret, tail (tail live))
    else (None, ret, tail live)
  else (None, ret, []).

(** ** The abstract queue

    One atomic queue shared by all threads: a call takes effect at one moment
    between call and return. *)

Inductive status := Ready | Pending (o : operation) | Finished (r : option Z).

Record fifo := Fifo { items : list Z; nonblocking : bool; stats : list status }.

(** The effect of an operation, with its result.  A get without a message
    comes back only from an empty queue in nonblocking mode. *)
Inductive effect : operation -> list Z * bool -> list Z * bool -> option Z -> Prop :=
| effect_put m l b : effect (OpPut m) (l, b) (l ++ [m], b) None
| effect_get m l b : effect OpGet (m :: l, b) (l, b) (Some m)
| effect_empty : effect OpGet ([], true) ([], true) None
| effect_nonblock l b : effect OpNonblock (l, b) (l, true) None
| effect_block l b : effect OpBlock (l, b) (l, false) None.

Inductive fifo_step : fifo -> option label -> fifo -> Prop :=
| fifo_call t o l b ss : ss !! t = Some Ready ->
    fifo_step (Fifo l b ss) (Some (Call t o)) (Fifo l b (<[t := Pending o]> ss))
| fifo_effect t o r l b l' b' ss : ss !! t = Some (Pending o) -> effect o (l, b) (l', b') r ->
    fifo_step (Fifo l b ss) None (Fifo l' b' (<[t := Finished r]> ss))
| fifo_return t r l b ss : ss !! t = Some (Finished r) ->
    fifo_step (Fifo l b ss) (Some (Return t r)) (Fifo l b (<[t := Ready]> ss)).

Definition visible (l : label) : bool :=
  match l with Call _ _ | Return _ _ => true | _ => false end.

(** The calls and returns of an execution. *)
Definition history (ls : list label) : list label := filter (fun l => visible l = true) ls.

(** Executions of the abstract queue with their calls and returns. *)
Inductive fifo_execution : fifo -> list label -> fifo -> Prop :=
| fifo_nil a : fifo_execution a [] a
| fifo_visible a ls a1 l a2 : fifo_execution a ls a1 -> fifo_step a1 (Some l) a2 ->
    fifo_execution a (ls ++ [l]) a2
| fifo_silent a ls a1 a2 : fifo_execution a ls a1 -> fifo_step a1 None a2 -> fifo_execution a ls a2.

(** ** Invariant *)

(** The threads that hold the mutexes. *)
Definition in_get (p : pc) : bool :=
  match p with
  | Get GetLock => false
  | Get _ => true
  | _ => false
  end.

Definition in_put (p : pc) : bool :=
  match p with
  | Put _ (PutTest | PutLink | PutTail | PutCount | PutUnlock) => true
  | Get (GetSwap (SwapTest _ | SwapCast _ _ | SwapPutHead _ _ | SwapPutTail _ _ | SwapReset _ | SwapUnlock _)) => true
  | Nonblock (NonblockSignal | NonblockCast | NonblockUnlock) => true
  | _ => false
  end.

(** [chain q c l]: from cell [c] the links lead through the messages [l] to
    NULL. *)
Fixpoint chain (q : msgqueue) (c : cell) (l : list Z) : Prop :=
  match l with
  | [] => load c q = Ret None
  | m :: l => load c q = Ret (Some (m + linkoff q)) /\ chain q (Link (m + linkoff q)) l
  end.

Definition tail_of (q : msgqueue) (c : cell) (l : list Z) : cell :=
  match last l with Some m => Link (m + linkoff q) | None => c end.

Definition heads (c d : cell) : Prop := (c = Head1 /\ d = Head2) \/ (c = Head2 /\ d = Head1).

Definition put_normal (q : msgqueue) (lp : list Z) : Prop :=
  put_tail q = tail_of q (put_head q) lp /\ msg_cnt q = blen lp.

(** What the thread that holds the put mutex knows of the put list [lp] ... *)
Definition put_local (q : msgqueue) (lg lp : list Z) (p : pc) : Prop :=
  match p with
  | Put m PutTail => exists l, lp = l ++ [m] /\ put_tail q = tail_of q (put_head q) l /\ msg_cnt q = blen l
  | Put m PutCount => put_tail q = tail_of q (put_head q) lp /\ msg_cnt q + 1 = blen lp
  | Get (GetSwap (SwapCast _ cnt | SwapPutHead _ cnt)) => put_normal q lp /\ cnt = blen lp
  | Get (GetSwap (SwapPutTail local cnt)) => lp = [] /\ local = put_head q /\ cnt = blen lg
  | Get (GetSwap (SwapReset cnt)) => lp = [] /\ put_tail q = put_head q /\ cnt = blen lg
  | Get (GetSwap (SwapUnlock cnt)) => put_normal q lp /\ cnt = blen lg
  | _ => put_normal q lp
  end.

(** ... and the one that holds the get mutex of the get list [lg], which
    starts at [g]. *)
Definition get_local (q : msgqueue) (g : cell) (lg : list Z) (p : pc) : Prop :=
  match p with
  | Get (GetSwap SwapSave) => get_head q = g /\ lg = []
  | Get (GetSwap (SwapHead local)) => get_head q = g /\ local = g /\ lg = []
  | Get (GetSwap (SwapLock local | SwapTest local | SwapWait local | SwapWake local
                  | SwapCast local _ | SwapPutHead local _)) =>
      get_head q = put_head q /\ local = g /\ lg = []
  | Get GetMsg => get_head q = g /\ lg <> []
  | Get (GetNext m) => get_head q = g /\ exists l, lg = m :: l
  | _ => get_head q = g
  end.

(** The messages a thread has outside the lists, and what it knows of their
    links. *)
Definition held (p : pc) : list Z :=
  match p with
  | Put m (PutClear | PutLock | PutTest | PutWait | PutWake | PutLink) => [m]
  | Get (GetUnlock (Some m)) | Done (Some m) => [m]
  | _ => []
  end.

Definition link_local (q : msgqueue) (p : pc) : Prop :=
  match p with
  | Put m (PutLock | PutTest | PutWait | PutWake | PutLink) => links q !! (m + linkoff q) = Some None
  | _ => forall m, m ∈ held p -> is_Some (links q !! (m + linkoff q))
  end.

(** A mutex is held by the thread whose next statement is in its critical
    section. *)
Definition mutex_ok {A : Type} (owner : option nat) (critical : A -> bool) (ts : list A) : Prop :=
  (forall t p, ts !! t = Some p -> critical p = true <-> owner = Some t) /\
  (forall t, owner = Some t -> is_Some (ts !! t)).

Definition knows (q : msgqueue) (g : cell) (lg lp : list Z) (p : pc) : Prop :=
  (in_put p = true -> put_local q lg lp p) /\ (in_get p = true -> get_local q g lg p) /\ link_local q p.

(** The messages of the queue: the ones of the threads and of the lists. *)
Definition inventory (ts : list pc) (lg lp : list Z) : list Z := (ts ≫= held) ++ lg ++ lp.

Record inv (q : msgqueue) (ts : list pc) (g : cell) (lg lp : list Z) : Prop := {
  inv_heads : heads g (put_head q);
  inv_get : chain q g lg;
  inv_put : chain q (put_head q) lp;
  inv_nodup : NoDup (inventory ts lg lp);
  inv_range : Forall (fun m => 0 < m < 2 ^ 64) (inventory ts lg lp);
  inv_get_mutex : mutex_ok (get_mutex q) in_get ts;
  inv_put_mutex : mutex_ok (put_mutex q) in_put ts;
  inv_get_free : get_mutex q = None -> get_head q = g;
  inv_put_free : put_mutex q = None -> put_normal q lp;
  inv_knows : forall t p, ts !! t = Some p -> knows q g lg lp p
}.

(** *** Lists of threads *)

Lemma delete_insert_list {A} (l : list A) i x : delete i (<[i := x]> l) = delete i l.
Proof. revert i. induction l as [|y l IH]; intros [|i]; cbn; [done..|]. f_equal. apply IH. Qed.

Lemma bind_insert {A B} (f : A -> list B) (l : list A) i x y : l !! i = Some x ->
  exists r, l ≫= f ≡ₚ f x ++ r /\ <[i := y]> l ≫= f ≡ₚ f y ++ r.
Proof.
  intros Hi. exists (delete i l ≫= f). split.
  - rewrite (delete_Permutation l i x Hi) at 1. done.
  - rewrite (delete_Permutation (<[i := y]> l) i y) at 1; [by rewrite delete_insert_list|].
    apply list_lookup_insert_eq. by apply lookup_lt_Some in Hi.
Qed.

Lemma inventory_insert ts t p p' lg lp lg' lp' : ts !! t = Some p ->
  held p' ++ lg' ++ lp' ≡ₚ held p ++ lg ++ lp -> inventory (<[t := p']> ts) lg' lp' ≡ₚ inventory ts lg lp.
Proof.
  intros Ht E. destruct (bind_insert held ts t p p' Ht) as (r & E1 & E2). unfold inventory. rewrite E1, E2.
  rewrite <- !app_assoc, !(Permutation_app_swap_app _ r). by rewrite E.
Qed.

Lemma mutex_keep {A : Type} owner (crit : A -> bool) ts t p p' : mutex_ok owner crit ts -> ts !! t = Some p -> crit p' = crit p ->
  mutex_ok owner crit (<[t := p']> ts).
Proof.
  intros [H1 H2] Ht Hc. split.
  - intros t' p'' [(-> & <- & _)|(Hne & H)]%list_lookup_insert_Some; [rewrite Hc|]; auto.
  - intros t' E%H2. apply lookup_lt_is_Some. rewrite length_insert. by apply lookup_lt_is_Some.
Qed.

Lemma mutex_lock {A : Type} (crit : A -> bool) ts t p p' : mutex_ok None crit ts -> ts !! t = Some p -> crit p' = true ->
  mutex_ok (Some t) crit (<[t := p']> ts).
Proof.
  intros [H1 H2] Ht Hc. split.
  - intros t' p'' [(-> & <- & _)|(Hne & H)]%list_lookup_insert_Some; [done|]. apply H1 in H. naive_solver.
  - intros t' [= <-]. apply lookup_lt_is_Some. rewrite length_insert. by eapply lookup_lt_Some.
Qed.

Lemma mutex_unlock {A : Type} (crit : A -> bool) ts t p p' : mutex_ok (Some t) crit ts -> ts !! t = Some p -> crit p' = false ->
  mutex_ok None crit (<[t := p']> ts).
Proof.
  intros [H1 H2] Ht Hc. split; [|done]. intros t' p'' [(-> & <- & _)|(Hne & H)]%list_lookup_insert_Some.
  - by rewrite Hc.
  - apply H1 in H. naive_solver.
Qed.

Lemma mutex_other {A : Type} owner (crit : A -> bool) ts t t' p p' : mutex_ok owner crit ts -> ts !! t = Some p -> ts !! t' = Some p' ->
  t' <> t -> crit p = true -> crit p' = false.
Proof.
  intros [H1 _] Ht Ht' Hne Hp. apply (H1 t p) in Hp; [|done]. destruct (crit p') eqn:E; [|done].
  apply (H1 t' p') in E; [|done]. congruence.
Qed.

(** What a step of thread [t] from [p] to [p'] does to a mutex. *)
Inductive mutex_step {A : Type} (t : nat) (crit : A -> bool) (p p' : A) : option nat -> option nat -> Prop :=
| mutex_step_keep o : crit p' = crit p -> mutex_step t crit p p' o o
| mutex_step_lock : crit p = false -> crit p' = true -> mutex_step t crit p p' None (Some t)
| mutex_step_unlock : crit p = true -> crit p' = false -> mutex_step t crit p p' (Some t) None.

Lemma mutex_stepped {A : Type} owner owner' (crit : A -> bool) ts t p p' : mutex_ok owner crit ts -> ts !! t = Some p ->
  mutex_step t crit p p' owner owner' -> mutex_ok owner' crit (<[t := p']> ts).
Proof. intros H Ht M. revert H. destruct M; intros Hm; [eapply mutex_keep|eapply mutex_lock|eapply mutex_unlock]; eauto. Qed.

(** The invariant after a step of one thread. *)
Lemma inv_update q ts g lg lp t p q' g' lg' lp' p' : inv q ts g lg lp -> ts !! t = Some p ->
  heads g' (put_head q') -> chain q' g' lg' -> chain q' (put_head q') lp' ->
  held p' ++ lg' ++ lp' ≡ₚ held p ++ lg ++ lp ->
  mutex_step t in_get p p' (get_mutex q) (get_mutex q') -> mutex_step t in_put p p' (put_mutex q) (put_mutex q') ->
  (get_mutex q' = None -> get_head q' = g') -> (put_mutex q' = None -> put_normal q' lp') ->
  knows q' g' lg' lp' p' ->
  (forall t' p'', t' <> t -> ts !! t' = Some p'' -> knows q g lg lp p'' -> knows q' g' lg' lp' p'') ->
  inv q' (<[t := p']> ts) g' lg' lp'.
Proof.
  intros [I1 I2 I3 I4 I5 I6 I7 I8 I9 I10] Ht Hh Hg Hp Hperm Mg Mp Fg Fp Hk Ho.
  pose proof (inventory_insert ts t p p' lg lp lg' lp' Ht Hperm) as E.
  constructor; try done.
  - by rewrite E.
  - by rewrite E.
  - by eapply mutex_stepped.
  - by eapply mutex_stepped.
  - intros t' p'' [(-> & <- & _)|(Hne & H)]%list_lookup_insert_Some; [done|]. eauto.
Qed.

(** *** Steps that leave the data alone

    They move the program counter, take or release a mutex, or change
    [nonblock]. *)
Definition same_data (q q' : msgqueue) : Prop :=
  msg_cnt q' = msg_cnt q /\ linkoff q' = linkoff q /\ head1 q' = head1 q /\ head2 q' = head2 q /\
  get_head q' = get_head q /\ put_head q' = put_head q /\ put_tail q' = put_tail q /\ links q' = links q.

Lemma same_data_refl q : same_data q q.
Proof. by repeat split. Qed.

Lemma chain_same q q' c l : linkoff q' = linkoff q -> (forall d, load d q' = load d q) -> chain q c l -> chain q' c l.
Proof.
  intros Eo El. revert c. induction l as [|m l IH]; intros c; cbn; rewrite El, ?Eo; [done|]. intros [H1 H2]. auto.
Qed.

Lemma load_same q q' d : same_data q q' -> load d q' = load d q.
Proof. intros (_ & _ & E1 & E2 & _ & _ & _ & E). destruct d; cbn; by rewrite ?E1, ?E2, ?E. Qed.

Lemma tail_of_same q q' c l : linkoff q' = linkoff q -> tail_of q' c l = tail_of q c l.
Proof. unfold tail_of. by intros ->. Qed.

Lemma put_normal_same q q' lp : linkoff q' = linkoff q -> put_head q' = put_head q -> put_tail q' = put_tail q ->
  msg_cnt q' = msg_cnt q -> put_normal q lp -> put_normal q' lp.
Proof. unfold put_normal. intros E1 -> -> ->. by rewrite (tail_of_same q q'). Qed.

Lemma put_local_same q q' lg lp p : linkoff q' = linkoff q -> put_head q' = put_head q -> put_tail q' = put_tail q ->
  msg_cnt q' = msg_cnt q -> put_local q lg lp p -> put_local q' lg lp p.
Proof.
  intros E1 E2 E3 E4. assert (forall c l, tail_of q' c l = tail_of q c l) as E5 by (intros; by apply tail_of_same).
  unfold put_local, put_normal. destruct p as [|m []|[]| | |]; try destruct p; rewrite ?E2, ?E3, ?E4, ?E5; try done.
  intros (l & ? & ? & ?). exists l. by rewrite E5.
Qed.

Lemma get_local_same q q' g lg p : get_head q' = get_head q -> put_head q' = put_head q ->
  get_local q g lg p -> get_local q' g lg p.
Proof. intros E1 E2. unfold get_local. destruct p as [|m []|[]| | |]; try destruct p; by rewrite ?E1, ?E2. Qed.

Lemma link_local_same q q' p : linkoff q' = linkoff q -> links q' = links q -> link_local q p -> link_local q' p.
Proof. intros E1 E2. unfold link_local. destruct p as [|m []|[]| | |]; by rewrite ?E1, ?E2. Qed.

Lemma knows_same q q' g lg lp p : same_data q q' -> knows q g lg lp p -> knows q' g lg lp p.
Proof.
  intros (? & ? & ? & ? & ? & ? & ? & ?) (K1 & K2 & K3). split; [|split].
  - intros Hp. eapply put_local_same; eauto.
  - intros Hp. eapply get_local_same; eauto.
  - by eapply link_local_same.
Qed.

Lemma inv_control q ts g lg lp t p q' p' : inv q ts g lg lp -> ts !! t = Some p -> same_data q q' -> held p' = held p ->
  mutex_step t in_get p p' (get_mutex q) (get_mutex q') -> mutex_step t in_put p p' (put_mutex q) (put_mutex q') ->
  (get_mutex q' = None -> get_head q = g) -> (put_mutex q' = None -> put_normal q lp) ->
  knows q g lg lp p' -> inv q' (<[t := p']> ts) g lg lp.
Proof.
  intros HI Ht HD Hheld Mg Mp Fg Fp Hk. pose proof HD as (E1 & E2 & E3 & E4 & E5 & E6 & E7 & E8).
  assert (forall d, load d q' = load d q) as El by (intros; by apply load_same).
  eapply (inv_update q ts g lg lp t p q' g lg lp p'); eauto.
  - rewrite E6. apply HI.
  - eapply chain_same; eauto. apply HI.
  - rewrite E6. eapply chain_same; eauto. apply HI.
  - by rewrite Hheld.
  - rewrite E5. done.
  - intros H. eapply put_normal_same; eauto.
  - by eapply knows_same.
  - intros. by eapply knows_same.
Qed.

(** *** What the thread at hand knows *)

Section Facts.
Context q ts g lg lp t p (HI : inv q ts g lg lp) (Ht : ts !! t = Some p).

Lemma at_put : in_put p = true -> put_mutex q = Some t /\ put_local q lg lp p.
Proof. intros H. split; [by apply (proj1 (inv_put_mutex _ _ _ _ _ HI) t p Ht)|]. by apply (inv_knows _ _ _ _ _ HI t p Ht). Qed.

Lemma at_get : in_get p = true -> get_mutex q = Some t /\ get_local q g lg p.
Proof. intros H. split; [by apply (proj1 (inv_get_mutex _ _ _ _ _ HI) t p Ht)|]. by apply (inv_knows _ _ _ _ _ HI t p Ht). Qed.

Lemma at_link : link_local q p.
Proof. by apply (inv_knows _ _ _ _ _ HI t p Ht). Qed.

End Facts.

(** Messages of the queue are distinct, so are their links. *)
Lemma count_bound l : NoDup l -> Forall (fun m => 0 < m < 2 ^ 64) l -> blen l < 2 ^ 64.
Proof.
  intros Hd Hf. unfold blen. assert (l ⊆+ seqZ 1 (2 ^ 64 - 1)) as Hs.
  { apply NoDup_submseteq; [done|]. intros x Hx. rewrite Forall_forall in Hf. apply Hf in Hx. apply elem_of_seqZ. lia. }
  apply submseteq_length in Hs. rewrite length_seqZ in Hs. lia.
Qed.

(** What a step means for the abstract queue. *)
Definition status_of (p : pc) : status :=
  match p with
  | Idle => Ready
  | Put m (PutClear | PutLock | PutTest | PutWait | PutWake | PutLink) => Pending (OpPut m)
  | Put _ _ => Finished None
  | Get (GetUnlock r) => Finished r
  | Get (GetSwap (SwapCast _ cnt | SwapPutHead _ cnt | SwapPutTail _ cnt | SwapReset cnt | SwapUnlock cnt)) =>
      if cnt =? 0 then Finished None else Pending OpGet
  | Get _ => Pending OpGet
  | Nonblock NonblockSet => Pending OpNonblock
  | Nonblock _ => Finished None
  | Block => Pending OpBlock
  | Done r => Finished r
  end.

Definition blocks_not (q : msgqueue) : bool := negb (nonblock q =? 0).

Definition simulated (l : list Z) (q : msgqueue) (p : pc) (l' : list Z) (q' : msgqueue) (p' : pc) : Prop :=
  (l' = l /\ blocks_not q' = blocks_not q /\ status_of p' = status_of p) \/
  (exists o r, status_of p = Pending o /\ status_of p' = Finished r /\ effect o (l, blocks_not q) (l', blocks_not q') r).

Definition good_step (q : msgqueue) (ts : list pc) (t : nat) (lg lp : list Z) (p : pc) (q' : msgqueue) (p' : pc) : Prop :=
  exists g' lg' lp', inv q' (<[t := p']> ts) g' lg' lp' /\ simulated (lg ++ lp) q p (lg' ++ lp') q' p'.

Lemma good_control q ts g lg lp t p q' p' : inv q ts g lg lp -> ts !! t = Some p -> same_data q q' -> nonblock q' = nonblock q ->
  held p' = held p -> status_of p' = status_of p ->
  mutex_step t in_get p p' (get_mutex q) (get_mutex q') -> mutex_step t in_put p p' (put_mutex q) (put_mutex q') ->
  (get_mutex q' = None -> get_head q = g) -> (put_mutex q' = None -> put_normal q lp) ->
  knows q g lg lp p' -> good_step q ts t lg lp p q' p'.
Proof.
  intros. exists g, lg, lp. split; [by eapply inv_control|]. left. unfold blocks_not. split; [done|]. split; congruence.
Qed.

(** *** Memory *)

(** All but the memory cells. *)
Definition same_fields (q q' : msgqueue) : Prop :=
  msg_max q' = msg_max q /\ msg_cnt q' = msg_cnt q /\ linkoff q' = linkoff q /\ nonblock q' = nonblock q /\
  get_head q' = get_head q /\ put_head q' = put_head q /\ put_tail q' = put_tail q /\
  get_mutex q' = get_mutex q /\ put_mutex q' = put_mutex q.

Lemma store_spec c v q q' : store c v q = Ret q' ->
  same_fields q q' /\ load c q' = Ret v /\ (forall d, d <> c -> load d q' = load d q) /\
  (forall a, is_Some (links q !! a) -> is_Some (links q' !! a)).
Proof.
  unfold store. destruct c as [| |a]; [intros [= <-]..|destruct (links q !! a) eqn:E; intros [= <-]].
  - split; [by repeat split|]. split; [done|]. split; [|done]. by intros [].
  - split; [by repeat split|]. split; [done|]. split; [|done]. by intros [].
  - split; [by repeat split|]. split; [cbn; by rewrite lookup_insert_eq|]. split.
    + intros [| |b] Hd; [done..|]. cbn. rewrite lookup_insert_ne; [done|congruence].
    + intros b Hb. cbn. destruct (decide (a = b)) as [->|]; [by rewrite lookup_insert_eq|by rewrite lookup_insert_ne].
Qed.

Lemma store_total c v q w : load c q = Ret w -> exists q', store c v q = Ret q'.
Proof. destruct c as [| |a]; cbn; [by eexists..|]. destruct (links q !! a); [by eexists|done]. Qed.

Lemma load_link q a : load (Link a) q = match links q !! a with Some v => Ret v | None => Oob end.
Proof. done. Qed.

Lemma links_agree q q' a : load (Link a) q' = load (Link a) q -> links q' !! a = links q !! a.
Proof. rewrite !load_link. destruct (links q' !! a), (links q !! a); congruence. Qed.

Lemma chain_agree q q' c l : linkoff q' = linkoff q -> load c q' = load c q ->
  (forall m, m ∈ l -> load (Link (m + linkoff q)) q' = load (Link (m + linkoff q)) q) -> chain q c l -> chain q' c l.
Proof.
  intros Eo. revert c. induction l as [|m l IH]; intros c Ec Hl; cbn [chain]; rewrite Ec, ?Eo; [done|].
  intros [H1 H2]. split; [done|]. apply IH; [apply Hl; set_solver| |done]. intros m' Hm'. apply Hl. set_solver.
Qed.

Lemma chain_links q c l m : chain q c l -> m ∈ l -> is_Some (links q !! (m + linkoff q)).
Proof.
  revert c. induction l as [|m' l IH]; intros c; cbn [chain]; [set_solver|]. intros [_ H] [->|Hm]%list_elem_of_In; [|].
  - destruct l; cbn in H; [|destruct H as [H _]]; destruct (links q !! _); [by eexists|done..].
  - apply (IH _ H). by apply list_elem_of_In.
Qed.

Lemma tail_of_cons q c m l : tail_of q c (m :: l) = tail_of q (Link (m + linkoff q)) l.
Proof. unfold tail_of. rewrite last_cons. by destruct (last l). Qed.

Lemma tail_of_snoc q c m l : tail_of q c (l ++ [m]) = Link (m + linkoff q).
Proof. unfold tail_of. by rewrite last_snoc. Qed.

Lemma tail_of_cases q c l : (tail_of q c l = c /\ l = []) \/ exists m, m ∈ l /\ tail_of q c l = Link (m + linkoff q).
Proof.
  unfold tail_of. destruct (last l) as [m|] eqn:E; [|apply last_None in E; by left].
  right. exists m. split; [|done]. apply last_Some in E as (l' & ->). set_solver.
Qed.

(** The chain ends at its tail. *)
Lemma chain_tail q c l : chain q c l -> load (tail_of q c l) q = Ret None.
Proof.
  revert c. induction l as [|m l IH]; intros c; cbn [chain]; [done|]. intros [_ H]. rewrite tail_of_cons. by apply IH.
Qed.

(** Linking a message behind the tail. *)
Lemma chain_append q q' c l m : chain q c l -> store (tail_of q c l) (Some (m + linkoff q)) q = Ret q' ->
  links q !! (m + linkoff q) = Some None -> NoDup (l ++ [m]) ->
  (forall m', m' ∈ l ++ [m] -> c <> Link (m' + linkoff q)) -> chain q' c (l ++ [m]).
Proof.
  intros Hc Hs. destruct (store_spec _ _ _ _ Hs) as ((_ & _ & Eo & _) & Hw & Hf & _). intros Hm.
  revert c Hc Hs Hw Hf. induction l as [|m0 l IH]; intros c Hc Hs Hw Hf Hd Hne.
  - cbn [app chain] in *. rewrite Eo. split; [done|]. rewrite Hf; [by rewrite load_link, Hm|].
    unfold tail_of. cbn. intros E. by apply (Hne m); [set_solver|].
  - cbn [app chain] in *. destruct Hc as [Hc1 Hc2]. rewrite tail_of_cons in *. rewrite Eo.
    apply NoDup_cons in Hd as [Hd1 Hd2]. split; [rewrite Hf; [done|]|].
    + destruct (tail_of_cases q (Link (m0 + linkoff q)) l) as [[-> _]|(m1 & H1 & ->)]; apply Hne; set_solver.
    + apply IH; try done. intros m' Hm' E. assert (m0 = m') as -> by (injection E; lia). by apply Hd1.
Qed.

Lemma heads_head c d : heads c d -> (forall a, c <> Link a) /\ (forall a, d <> Link a) /\ c <> d /\ heads d c.
Proof. unfold heads. intros [[-> ->]|[-> ->]]; naive_solver. Qed.

Lemma link_local_agree q q' p : linkoff q' = linkoff q ->
  (forall m, m ∈ held p -> load (Link (m + linkoff q)) q' = load (Link (m + linkoff q)) q) ->
  link_local q p -> link_local q' p.
Proof.
  intros Eo Hl. assert (forall m, m ∈ held p -> links q' !! (m + linkoff q) = links q !! (m + linkoff q)) as El.
  { intros m Hm. by apply links_agree, Hl. }
  unfold link_local. destruct p as [|m []|[]| | |]; rewrite ?Eo; try (rewrite El by (cbn; set_solver); done);
    intros H m' Hm'; rewrite El by done; by apply H.
Qed.

(** Messages of different threads and lists are different. *)
Lemma inventory_at ts t p lg lp : ts !! t = Some p -> exists r, inventory ts lg lp ≡ₚ held p ++ r ++ lg ++ lp /\
  (forall t' p' m, t' <> t -> ts !! t' = Some p' -> m ∈ held p' -> m ∈ r).
Proof.
  intros Ht. exists (delete t ts ≫= held). split.
  - unfold inventory. rewrite (delete_Permutation ts t p Ht) at 1. cbn. by rewrite <- app_assoc.
  - intros t' p' m Hne Ht' Hm. apply list_elem_of_bind. exists p'. split; [done|].
    destruct (decide (t' < t)%nat).
    + apply list_elem_of_lookup. exists t'. by rewrite list_lookup_delete_lt.
    + apply list_elem_of_lookup. exists (pred t'). rewrite list_lookup_delete_ge by lia.
      by replace (S (pred t')) with t' by lia.
Qed.

Lemma inv_distinct q ts g lg lp t p : inv q ts g lg lp -> ts !! t = Some p ->
  NoDup (held p ++ lg ++ lp) /\ (forall t' p' m, t' <> t -> ts !! t' = Some p' -> m ∈ held p' -> m ∉ held p ++ lg ++ lp).
Proof.
  intros HI Ht. destruct (inventory_at ts t p lg lp Ht) as (r & E & Hr). pose proof (inv_nodup _ _ _ _ _ HI) as Hd.
  rewrite E, !NoDup_app in Hd. destruct Hd as (D1 & D2 & D3 & D4 & D5 & D6 & D7). split.
  - rewrite !NoDup_app. set_solver.
  - intros t' p' m Hne Ht' Hm. specialize (Hr t' p' m Hne Ht' Hm). rewrite elem_of_app. set_solver.
Qed.

(** *** The steps of msgqueue_put *)

Ltac mutex_move := cbn; repeat match goal with E : _ = None |- _ => rewrite E | E : _ = Some _ |- _ => rewrite E end;
  first [by apply mutex_step_keep | by apply mutex_step_lock | by apply mutex_step_unlock].

(** A step that leaves the data alone, with what is left to show. *)
Ltac control HI Ht :=
  eapply (good_control _ _ _ _ _ _ _ _ _ HI Ht); [by repeat split|done|done|try done|mutex_move|mutex_move|cbn|cbn|].

Ltac facts HI Ht :=
  try (destruct (at_put _ _ _ _ _ _ _ HI Ht eq_refl) as [Mp Lp]);
  try (destruct (at_get _ _ _ _ _ _ _ HI Ht eq_refl) as [Mg Lg]);
  pose proof (at_link _ _ _ _ _ _ _ HI Ht) as Ll;
  pose proof (inv_get_free _ _ _ _ _ HI) as Fg; pose proof (inv_put_free _ _ _ _ _ HI) as Fp;
  cbn [put_local get_local link_local held] in *.

Lemma link_nothing q p : held p = [] -> link_local q p.
Proof. unfold link_local. destruct p as [|m []|[]| | |]; intros E; try discriminate E; rewrite E; set_solver. Qed.

(** A step in the critical section of the put mutex that does not concern the
    get list. *)
Lemma inv_put_step q ts g lg lp lp' t p q' p' : inv q ts g lg lp -> ts !! t = Some p ->
  in_put p = true -> in_put p' = true -> in_get p' = in_get p ->
  linkoff q' = linkoff q -> get_head q' = get_head q -> put_head q' = put_head q ->
  get_mutex q' = get_mutex q -> put_mutex q' = put_mutex q ->
  held p' ++ lg ++ lp' ≡ₚ held p ++ lg ++ lp ->
  (forall d, d = g \/ (exists m, m ∈ lg /\ d = Link (m + linkoff q)) \/
     (exists t' p'' m, t' <> t /\ ts !! t' = Some p'' /\ m ∈ held p'' /\ d = Link (m + linkoff q)) ->
     load d q' = load d q) ->
  chain q' (put_head q) lp' -> put_local q' lg lp' p' -> (in_get p = true -> get_local q' g lg p') -> link_local q' p' ->
  inv q' (<[t := p']> ts) g lg lp'.
Proof.
  intros HI Ht Cp Cp' Cg Eo Eg Ep Em Em' Hperm Hl Hc Lp Lg Ll.
  destruct (at_put _ _ _ _ _ _ _ HI Ht Cp) as [Mp _].
  eapply (inv_update q ts g lg lp t p q' g lg lp' p'); eauto.
  - rewrite Ep. apply HI.
  - apply (chain_agree q q'); [done|apply Hl; eauto| |apply HI]. intros m Hm. apply Hl. eauto.
  - by rewrite Ep.
  - rewrite Em. by apply mutex_step_keep.
  - rewrite Em'. apply mutex_step_keep. congruence.
  - rewrite Em, Eg. apply HI.
  - rewrite Em', Mp. done.
  - split; [done|]. split; [by rewrite Cg|done].
  - intros t' p'' Hne Ht' (K1 & K2 & K3). split; [|split].
    + intros Cp''. by rewrite (mutex_other _ _ _ _ _ _ _ (inv_put_mutex _ _ _ _ _ HI) Ht Ht' Hne Cp) in Cp''.
    + intros Cg''. apply (get_local_same q q'); auto.
    + apply (link_local_agree q q'); [done| |done]. intros m Hm. apply Hl. right. right. eauto 10.
Qed.

Lemma put_clear_step q ts g lg lp t m q' : inv q ts g lg lp -> ts !! t = Some (Put m PutClear) ->
  store (Link (m + linkoff q)) None q = Ret q' -> good_step q ts t lg lp (Put m PutClear) q' (Put m PutLock).
Proof.
  intros HI Ht Hs. destruct (store_spec _ _ _ _ Hs) as ((_ & E1 & Eo & E2 & E3 & E4 & E5 & E6 & E7) & Hw & Hf & _).
  destruct (inv_distinct _ _ _ _ _ _ _ HI Ht) as [Hd Ho]. cbn [held] in *. apply NoDup_cons in Hd as [Hm Hd].
  destruct (heads_head _ _ (inv_heads _ _ _ _ _ HI)) as (H1 & H2 & _).
  assert (forall m', m' ∈ lg ++ lp -> load (Link (m' + linkoff q)) q' = load (Link (m' + linkoff q)) q) as Hl.
  { intros m' Hm'. apply Hf. intros E. assert (m' = m) as -> by (injection E; lia). done. }
  exists g, lg, lp. split; [|left; unfold blocks_not; by rewrite E2].
  eapply (inv_update q ts g lg lp t _ q' g lg lp); eauto.
  - rewrite E4. apply HI.
  - apply (chain_agree q q'); [done|apply Hf, H1| |apply HI]. intros m' Hm'. apply Hl. set_solver.
  - rewrite E4. apply (chain_agree q q'); [done|apply Hf, H2| |apply HI]. intros m' Hm'. apply Hl. set_solver.
  - rewrite E6. by apply mutex_step_keep.
  - rewrite E7. by apply mutex_step_keep.
  - rewrite E3, E6. apply HI.
  - rewrite E7. intros H. apply (put_normal_same q q'); try done. by apply HI.
  - split; [done|]. split; [done|]. cbn. rewrite Eo. rewrite load_link in Hw. by destruct (links q' !! _); simplify_eq.
  - intros t' p'' Hne Ht' (K1 & K2 & K3). split; [|split].
    + intros. apply (put_local_same q q'); auto.
    + intros. apply (get_local_same q q'); auto.
    + apply (link_local_agree q q'); [done| |done]. intros m' Hm'. apply Hf. intros E.
      assert (m' = m) as -> by (injection E; lia). specialize (Ho t' p'' m Hne Ht' Hm'). set_solver.
Qed.

Lemma put_link_step q ts g lg lp t m q' : inv q ts g lg lp -> ts !! t = Some (Put m PutLink) ->
  store (put_tail q) (Some (m + linkoff q)) q = Ret q' -> good_step q ts t lg lp (Put m PutLink) q' (Put m PutTail).
Proof.
  intros HI Ht Hs. facts HI Ht. destruct Lp as [Et Ec]. destruct (store_spec _ _ _ _ Hs) as ((_ & E1 & Eo & E2 & E3 & E4 & E5 & E6 & E7) & Hw & Hf & _).
  destruct (inv_distinct _ _ _ _ _ _ _ HI Ht) as [Hd Ho]. cbn [held] in *. apply NoDup_cons in Hd as [Hm Hd].
  destruct (heads_head _ _ (inv_heads _ _ _ _ _ HI)) as (H1 & H2 & H3 & _).
  exists g, lg, (lp ++ [m]). split.
  - apply (inv_put_step q ts g lg lp (lp ++ [m]) t (Put m PutLink)); try done.
    + cbn. rewrite app_assoc. by rewrite Permutation_app_comm.
    + intros d Hd'. apply Hf. rewrite Et. destruct (tail_of_cases q (put_head q) lp) as [[-> _]|(m1 & Hm1 & ->)].
      * destruct Hd' as [->|[(m2 & _ & ->)|(? & ? & m2 & _ & _ & _ & ->)]]; try done; apply not_eq_sym, H2.
      * rewrite NoDup_app in Hd. destruct Hd as (_ & Hd & _).
        destruct Hd' as [->|[(m2 & Hm2 & ->)|(t' & p' & m2 & Hne & Ht' & Hm2 & ->)]]; [apply H1|..]; intros E;
          assert (m2 = m1) as -> by (injection E; lia); [by apply (Hd m1)|].
        specialize (Ho t' p' m1 Hne Ht' Hm2). set_solver.
    + rewrite Et in Hs. apply (chain_append q q'); try done; [apply HI|].
      apply NoDup_app in Hd as (_ & _ & Hd). apply NoDup_app. split; [done|]. split; [|apply NoDup_singleton].
      intros x Hx ->%list_elem_of_singleton. set_solver.
    + cbn. exists lp. rewrite E5, E1, E4. unfold tail_of. by rewrite Eo.
    + by apply link_nothing.
  - right. exists (OpPut m), None. split; [done|]. split; [done|]. unfold blocks_not. rewrite E2, app_assoc. constructor.
Qed.

Lemma put_tail_step q ts g lg lp t m : inv q ts g lg lp -> ts !! t = Some (Put m PutTail) ->
  good_step q ts t lg lp (Put m PutTail) (set_put_tail (Link (m + linkoff q)) q) (Put m PutCount).
Proof.
  intros HI Ht. facts HI Ht. destruct Lp as (l & -> & Et & Ec). exists g, lg, (l ++ [m]). split; [|by left].
  apply (inv_put_step q ts g lg (l ++ [m]) (l ++ [m]) t (Put m PutTail)); try done.
  - apply (chain_same q); [done|by intros []|apply HI].
  - cbn. rewrite blen_app, tail_of_snoc. split; [done|]. rewrite Ec. done.
Qed.

Lemma put_count_bound q ts g lg lp : inv q ts g lg lp -> blen lp < 2 ^ 64.
Proof.
  intros HI. pose proof (inv_nodup _ _ _ _ _ HI) as Hd. pose proof (inv_range _ _ _ _ _ HI) as Hr.
  unfold inventory in *. rewrite !NoDup_app in Hd. rewrite !Forall_app in Hr. apply count_bound; naive_solver.
Qed.

Lemma put_count_step q ts g lg lp t m : inv q ts g lg lp -> ts !! t = Some (Put m PutCount) ->
  good_step q ts t lg lp (Put m PutCount) (set_msg_cnt (u64 (msg_cnt q + 1)) q) (Put m PutUnlock).
Proof.
  intros HI Ht. facts HI Ht. destruct Lp as (Et & Ec). exists g, lg, lp. split; [|by left].
  apply (inv_put_step q ts g lg lp lp t (Put m PutCount)); try done.
  - apply (chain_same q); [done|by intros []|apply HI].
  - split; [done|]. cbn. rewrite Ec. unfold u64. apply Z.mod_small. split; [unfold blen; lia|]. by eapply put_count_bound.
Qed.

Lemma put_step q ts g lg lp t m p p' q' w : inv q ts g lg lp -> ts !! t = Some (Put m p) ->
  msgqueue_put t m p q = Ret (Some (p', q', w)) -> good_step q ts t lg lp (Put m p) q' p'.
Proof.
  intros HI Ht. unfold msgqueue_put, go, blocking, lock_put, unlock_put. destruct p; intros H; inv_bind.
  - by eapply put_clear_step.
  - destruct (put_mutex q) eqn:E; simplify_eq. facts HI Ht. control HI Ht; [done|done|]. split; [cbn; auto|done].
  - destruct (_ && _); [|simplify_eq]; facts HI Ht.
    + rewrite Mp, bool_decide_true in H by done. cbn in H. simplify_eq. control HI Ht; [done|done|]. by split.
    + control HI Ht; [done|by rewrite Mp|]. by split.
  - destruct (put_mutex q) eqn:E; simplify_eq. facts HI Ht. control HI Ht; [done|done|]. split; [cbn; auto|done].
  - by eapply put_link_step.
  - by eapply put_tail_step.
  - by eapply put_count_step.
  - facts HI Ht. rewrite Mp, bool_decide_true in Hb by done. simplify_eq. control HI Ht; [done|done|]. split; [done|]. split; [done|by apply link_nothing].
  - facts HI Ht. control HI Ht; [done|done|]. split; [done|]. split; [done|by apply link_nothing].
Qed.

(** *** The steps of msgqueue_get *)

(** A step in the critical section of the get mutex alone. *)
Lemma inv_get_step q ts g lg lg' lp t p q' p' : inv q ts g lg lp -> ts !! t = Some p ->
  in_get p = true -> in_get p' = true -> in_put p' = in_put p ->
  linkoff q' = linkoff q -> put_head q' = put_head q -> put_tail q' = put_tail q -> msg_cnt q' = msg_cnt q ->
  get_mutex q' = get_mutex q -> put_mutex q' = put_mutex q ->
  held p' ++ lg' ++ lp ≡ₚ held p ++ lg ++ lp -> (forall d, d <> g -> load d q' = load d q) ->
  chain q' g lg' -> (in_put p = true -> put_local q' lg' lp p') -> get_local q' g lg' p' -> link_local q' p' ->
  inv q' (<[t := p']> ts) g lg' lp.
Proof.
  intros HI Ht Cg Cg' Cp Eo Eh Et Ec Em Em' Hperm Hl Hc Lp Lg Ll.
  destruct (at_get _ _ _ _ _ _ _ HI Ht Cg) as [Mg _].
  destruct (heads_head _ _ (inv_heads _ _ _ _ _ HI)) as (H1 & H2 & H3 & _).
  eapply (inv_update q ts g lg lp t p q' g lg' lp p'); eauto.
  - rewrite Eh. apply HI.
  - rewrite Eh. apply (chain_agree q q'); [done|by apply Hl, not_eq_sym| |apply HI]. intros m _. by apply Hl, not_eq_sym.
  - rewrite Em. apply mutex_step_keep. congruence.
  - rewrite Em'. by apply mutex_step_keep.
  - by rewrite Em, Mg.
  - rewrite Em'. intros E. apply (put_normal_same q q'); try done. by apply HI.
  - split; [by rewrite Cp|]. split; [done|done].
  - intros t' p'' Hne Ht' (K1 & K2 & K3). split; [|split].
    + intros Cp''. assert (in_get p'' = false) as Hg by apply (mutex_other _ _ _ _ _ _ _ (inv_get_mutex _ _ _ _ _ HI) Ht Ht' Hne Cg).
      apply (put_local_same q q'); auto. apply K1 in Cp''.
      clear -K1 Hg Cp''. destruct p'' as [|? []|[| |[]| | |]| | |]; done.
    + intros Cg''. by rewrite (mutex_other _ _ _ _ _ _ _ (inv_get_mutex _ _ _ _ _ HI) Ht Ht' Hne Cg) in Cg''.
    + apply (link_local_agree q q'); [done| |done]. intros m _. by apply Hl, not_eq_sym.
Qed.

Lemma swap_head_step q ts g lg lp t local : inv q ts g lg lp -> ts !! t = Some (Get (GetSwap (SwapHead local))) ->
  good_step q ts t lg lp (Get (GetSwap (SwapHead local))) (set_get_head (put_head q) q) (Get (GetSwap (SwapLock local))).
Proof.
  intros HI Ht. facts HI Ht. destruct Lg as (Eg & -> & ->). exists g, [], lp. split; [|by left].
  apply (inv_get_step q ts g [] [] lp t (Get (GetSwap (SwapHead g)))); try done; first [apply HI|by apply link_nothing].
Qed.

Lemma swap_put_head_step q ts g lg lp t local cnt : inv q ts g lg lp ->
  ts !! t = Some (Get (GetSwap (SwapPutHead local cnt))) ->
  good_step q ts t lg lp (Get (GetSwap (SwapPutHead local cnt))) (set_put_head local q) (Get (GetSwap (SwapPutTail local cnt))).
Proof.
  intros HI Ht. facts HI Ht. destruct Lg as (Eg & -> & ->), Lp as [Hn Hcnt].
  exists (put_head q), lp, []. split; [|left; by rewrite app_nil_r].
  eapply (inv_update q ts g [] lp t _ _ (put_head q) lp []); eauto.
  - by apply heads_head, HI.
  - apply (chain_same q); [done|by intros []|apply HI].
  - apply (chain_same q); [done|by intros []|apply HI].
  - cbn. by rewrite app_nil_r.
  - by apply mutex_step_keep.
  - by apply mutex_step_keep.
  - cbn. by rewrite Mp.
  - split; [done|]. split; [done|by apply link_nothing].
  - intros t' p'' Hne Ht' (K1 & K2 & K3). split; [|split].
    + intros C. by rewrite (mutex_other _ _ _ _ _ _ _ (inv_put_mutex _ _ _ _ _ HI) Ht Ht' Hne eq_refl) in C.
    + intros C. by rewrite (mutex_other _ _ _ _ _ _ _ (inv_get_mutex _ _ _ _ _ HI) Ht Ht' Hne eq_refl) in C.
    + by apply (link_local_same q).
Qed.

Lemma swap_tail_step q ts g lg lp t local cnt : inv q ts g lg lp ->
  ts !! t = Some (Get (GetSwap (SwapPutTail local cnt))) ->
  good_step q ts t lg lp (Get (GetSwap (SwapPutTail local cnt))) (set_put_tail local q) (Get (GetSwap (SwapReset cnt))).
Proof.
  intros HI Ht. facts HI Ht. destruct Lp as (-> & -> & Hcnt). exists g, lg, []. split; [|by left].
  apply (inv_put_step q ts g lg [] [] t (Get (GetSwap (SwapPutTail (put_head q) cnt)))); try done; [|by apply link_nothing..].
  apply (chain_same q); [done|by intros []|apply HI].
Qed.

Lemma swap_reset_step q ts g lg lp t cnt : inv q ts g lg lp -> ts !! t = Some (Get (GetSwap (SwapReset cnt))) ->
  good_step q ts t lg lp (Get (GetSwap (SwapReset cnt))) (set_msg_cnt 0 q) (Get (GetSwap (SwapUnlock cnt))).
Proof.
  intros HI Ht. facts HI Ht. destruct Lp as (-> & Et & Hcnt). exists g, lg, []. split; [|by left].
  apply (inv_put_step q ts g lg [] [] t (Get (GetSwap (SwapReset cnt)))); try done; [|by apply link_nothing..].
  apply (chain_same q); [done|by intros []|apply HI].
Qed.

Lemma swap_test_step q ts g lg lp t local : inv q ts g lg lp -> ts !! t = Some (Get (GetSwap (SwapTest local))) ->
  (msg_cnt q =? 0) && (nonblock q =? 0) = false ->
  good_step q ts t lg lp (Get (GetSwap (SwapTest local))) q (Get (GetSwap (SwapCast local (msg_cnt q)))).
Proof.
  intros HI Ht E. facts HI Ht. destruct Lg as (Eg & -> & ->). pose proof Lp as [_ Hcnt]. exists g, [], lp. split.
  - eapply (inv_control _ _ _ _ _ _ _ _ _ HI Ht); [by repeat split|done|mutex_move|mutex_move|by rewrite Mg|by rewrite Mp|].
    split; [done|]. split; [done|by apply link_nothing].
  - unfold simulated. cbn [status_of]. destruct (Z.eqb_spec (msg_cnt q) 0) as [E0|]; [|by left].
    right. exists OpGet, None. split; [done|]. split; [done|]. destruct lp; [|unfold blen in Hcnt; cbn in *; lia].
    unfold blocks_not. cbn in E. rewrite E. constructor.
Qed.

Lemma get_test_step q ts g lg lp t first : inv q ts g lg lp -> ts !! t = Some (Get GetTest) ->
  load (get_head q) q = Ret first ->
  good_step q ts t lg lp (Get GetTest) q (Get (match first with Some _ => GetMsg | None => GetSwap SwapSave end)).
Proof.
  intros HI Ht E. facts HI Ht. rewrite Lg in E. pose proof (inv_get _ _ _ _ _ HI) as Hc.
  destruct lg as [|m lg]; cbn in Hc; [|destruct Hc as [Hc _]]; rewrite Hc in E; injection E as <-.
  - control HI Ht; [by rewrite Mg|done|]. split; [done|]. split; [done|by apply link_nothing].
  - control HI Ht; [by rewrite Mg|done|]. split; [done|]. split; [done|by apply link_nothing].
Qed.

Lemma get_next_step q ts g lg lp t m a next q' : inv q ts g lg lp -> ts !! t = Some (Get (GetNext m)) ->
  load (get_head q) q = Ret (Some a) -> load (Link a) q = Ret next -> store (get_head q) next q = Ret q' ->
  good_step q ts t lg lp (Get (GetNext m)) q' (Get (GetUnlock (Some m))).
Proof.
  intros HI Ht E1 E2 Hs. facts HI Ht. destruct Lg as (Eg & l & ->). rewrite Eg in *.
  destruct (inv_get _ _ _ _ _ HI) as [Hc1 Hc2]. rewrite Hc1 in E1. injection E1 as <-.
  destruct (store_spec _ _ _ _ Hs) as ((_ & F1 & F2 & F3 & F4 & F5 & F6 & F7 & F8) & Hw & Hf & Hl).
  destruct (heads_head _ _ (inv_heads _ _ _ _ _ HI)) as (H1 & H2 & H3 & _). exists g, l, lp. split.
  - apply (inv_get_step q ts g (m :: l) l lp t (Get (GetNext m))); try done.
    + destruct l as [|m1 l]; cbn [chain] in Hc2 |- *.
      * congruence.
      * destruct Hc2 as [Hc2 Hc3]. split; [rewrite F2; congruence|]. rewrite F2.
        apply (chain_agree q q'); [done|by apply Hf, not_eq_sym| |done]. intros ? _. by apply Hf, not_eq_sym.
    + cbn. congruence.
    + cbn [link_local held]. intros x ->%list_elem_of_singleton. rewrite F2. apply Hl. rewrite load_link in E2. by destruct (links q !! _); [eexists|].
  - right. exists OpGet, (Some m). split; [done|]. split; [done|]. unfold blocks_not. rewrite F3. constructor.
Qed.

Lemma get_msg_step q ts g lg lp t a : inv q ts g lg lp -> ts !! t = Some (Get GetMsg) ->
  load (get_head q) q = Ret (Some a) -> good_step q ts t lg lp (Get GetMsg) q (Get (GetNext (a - linkoff q))).
Proof.
  intros HI Ht E. facts HI Ht. destruct Lg as (Eg & Hne). rewrite Eg in E. pose proof (inv_get _ _ _ _ _ HI) as Hc.
  destruct lg as [|m lg]; [done|]. destruct Hc as [Hc _]. rewrite Hc in E. injection E as <-.
  replace (m + linkoff q - linkoff q) with m by lia.
  control HI Ht; [by rewrite Mg|done|]. split; [done|]. split; [intros _; cbn; eauto|by apply link_nothing].
Qed.

Lemma swap_unlock_step q ts g lg lp t cnt : inv q ts g lg lp -> ts !! t = Some (Get (GetSwap (SwapUnlock cnt))) ->
  good_step q ts t lg lp (Get (GetSwap (SwapUnlock cnt))) (set_put_mutex None q)
    (Get (if cnt >? 0 then GetMsg else GetUnlock None)).
Proof.
  intros HI Ht. facts HI Ht. destruct Lp as [Hn ->]. destruct lg as [|m lg].
  - control HI Ht; [by rewrite Mg|done|]. split; [done|]. split; [done|by apply link_nothing].
  - assert (0 < blen (m :: lg)) as Hpos by (unfold blen; cbn [length]; lia).
    assert ((blen (m :: lg) >? 0) = true) as E2 by lia.
    rewrite E2. control HI Ht; [by rewrite Mg|done|]. split; [done|]. split; [done|by apply link_nothing].
Qed.

Lemma swap_step q ts g lg lp t p r q' w : inv q ts g lg lp -> ts !! t = Some (Get (GetSwap p)) ->
  msgqueue_swap t p q = Ret (Some (r, q', w)) ->
  good_step q ts t lg lp (Get (GetSwap p)) q'
    (Get (match r with inl p' => GetSwap p' | inr cnt => if cnt >? 0 then GetMsg else GetUnlock None end)).
Proof.
  intros HI Ht. unfold msgqueue_swap, lock_put, unlock_put. destruct p; intros H; inv_bind.
  - facts HI Ht. destruct Lg as [Eg ->]. control HI Ht; [by rewrite Mg|done|]. split; [done|]. split; [done|by apply link_nothing].
  - by eapply swap_head_step.
  - destruct (put_mutex q) eqn:E; simplify_eq. facts HI Ht. control HI Ht; [by rewrite Mg|done|].
    split; [cbn; auto|]. split; [done|by apply link_nothing].
  - destruct (_ && _) eqn:E; [|simplify_eq; by eapply swap_test_step]. facts HI Ht.
    rewrite Mp, bool_decide_true in H by done. cbn in H. simplify_eq. control HI Ht; [by rewrite Mg|done|].
    split; [done|]. split; [done|by apply link_nothing].
  - destruct (put_mutex q) eqn:E; simplify_eq. facts HI Ht. control HI Ht; [by rewrite Mg|done|].
    split; [cbn; auto|]. split; [done|by apply link_nothing].
  - facts HI Ht. control HI Ht; [by rewrite Mg|by rewrite Mp|]. split; [done|]. split; [done|by apply link_nothing].
  - by eapply swap_put_head_step.
  - by eapply swap_tail_step.
  - by eapply swap_reset_step.
  - facts HI Ht. rewrite Mp, bool_decide_true in Hb by done. simplify_eq. by eapply swap_unlock_step.
Qed.

Lemma get_step q ts g lg lp t p p' q' w : inv q ts g lg lp -> ts !! t = Some (Get p) ->
  msgqueue_get t p q = Ret (Some (p', q', w)) -> good_step q ts t lg lp (Get p) q' p'.
Proof.
  intros HI Ht. unfold msgqueue_get, go, blocking, lock_get, unlock_get. destruct p as [| |p| |msg|msg]; intros H; inv_bind.
  - destruct (get_mutex q) eqn:E; simplify_eq. facts HI Ht. control HI Ht; [done|done|].
    split; [done|]. split; [cbn; auto|by apply link_nothing].
  - by eapply get_test_step.
  - destruct v as [[[[p1|cnt] q1] w1]|]; simplify_eq; exact (swap_step _ _ _ _ _ _ _ _ _ _ HI Ht Hb).
  - destruct v; simplify_eq. by eapply get_msg_step.
  - destruct v as [a|]; [|done]. inv_bind. by eapply get_next_step.
  - facts HI Ht. rewrite Mg, bool_decide_true in Hb by done. simplify_eq.
    control HI Ht; [done|done|]. split; [done|]. split; [done|]. by destruct msg.
Qed.

Lemma nonblock_step q ts g lg lp t p p' q' w : inv q ts g lg lp -> ts !! t = Some (Nonblock p) ->
  msgqueue_set_nonblock t p q = Ret (Some (p', q', w)) -> good_step q ts t lg lp (Nonblock p) q' p'.
Proof.
  intros HI Ht. unfold msgqueue_set_nonblock, go, blocking, lock_put, unlock_put. destruct p; intros H; inv_bind; facts HI Ht.
  - exists g, lg, lp. split; [|right; exists OpNonblock, None; by repeat split; constructor].
    eapply (inv_control _ _ _ _ _ _ _ _ _ HI Ht); [by repeat split|done|mutex_move|mutex_move|done|done|].
    split; [done|]. split; [done|by apply link_nothing].
  - destruct (put_mutex q) eqn:E; simplify_eq. control HI Ht; [done|done|]. split; [cbn; auto|]. split; [done|by apply link_nothing].
  - control HI Ht; [done|by rewrite Mp|]. split; [done|]. split; [done|by apply link_nothing].
  - control HI Ht; [done|by rewrite Mp|]. split; [done|]. split; [done|by apply link_nothing].
  - rewrite Mp, bool_decide_true in Hb by done. simplify_eq. control HI Ht; [done|done|].
    split; [done|]. split; [done|by apply link_nothing].
Qed.

Lemma block_step q ts g lg lp t : inv q ts g lg lp -> ts !! t = Some Block ->
  good_step q ts t lg lp Block (set_nonblock 0 q) (Done None).
Proof.
  intros HI Ht. facts HI Ht. exists g, lg, lp. split; [|right; exists OpBlock, None; by repeat split; constructor].
  eapply (inv_control _ _ _ _ _ _ _ _ _ HI Ht); [by repeat split|done|mutex_move|mutex_move|done|done|].
  split; [done|]. split; [done|by apply link_nothing].
Qed.

(** Every step of a thread keeps the invariant and is a step of the abstract
    queue, or none. *)
Lemma thread_step_good q ts g lg lp t p p' q' w : inv q ts g lg lp -> ts !! t = Some p ->
  thread_step t p q = Ret (Some (p', q', w)) -> good_step q ts t lg lp p q' p'.
Proof.
  intros HI Ht H. destruct p; cbn in H; [done|..|done].
  - by eapply put_step.
  - by eapply get_step.
  - by eapply nonblock_step.
  - unfold msgqueue_set_block, go in H. simplify_eq. by eapply block_step.
Qed.

(** *** Waking, calling and returning *)

Definition woken (p p' : pc) : Prop := p' = p \/ p' = wake p.

Lemma wakes_woken w ts ts' : wakes w ts ts' -> Forall2 woken ts ts'.
Proof.
  intros [ts0|c ts0 _|c ts0 t p Ht _|c ts0].
  - apply Forall_Forall2_diag. apply Forall_true. by left.
  - apply Forall_Forall2_diag. apply Forall_true. by left.
  - apply Forall2_same_length_lookup_2; [by rewrite length_insert|]. intros i x y Hx Hy.
    apply list_lookup_insert_Some in Hy as [(-> & <- & _)|(_ & Hy)]; [right; congruence|left; congruence].
  - apply Forall2_fmap_r, Forall_Forall2_diag, Forall_true. intros p. unfold woken. cbn. destruct (waiting c p); auto.
Qed.

Lemma woken_same p p' : woken p p' -> in_get p' = in_get p /\ in_put p' = in_put p /\ held p' = held p /\
  status_of p' = status_of p /\ forall q g lg lp, knows q g lg lp p -> knows q g lg lp p'.
Proof.
  intros [-> | ->]; [done|]. destruct p as [|m []|[]| | |]; try done. by destruct p.
Qed.

Lemma woken_lookup ts ts' t p' : Forall2 woken ts ts' -> ts' !! t = Some p' -> exists p, ts !! t = Some p /\ woken p p'.
Proof. intros H Ht. destruct (Forall2_lookup_r _ _ _ _ _ H Ht) as (p & Hp & Hw). eauto. Qed.

Lemma mutex_woken o crit ts ts' : Forall2 woken ts ts' -> (forall p p', woken p p' -> crit p' = crit p) ->
  mutex_ok o crit ts -> mutex_ok o crit ts'.
Proof.
  intros H Hc [H1 H2]. split.
  - intros t p' Ht. destruct (woken_lookup _ _ _ _ H Ht) as (p & Hp & Hw). rewrite (Hc _ _ Hw). by apply H1.
  - intros t Ho%H2. apply lookup_lt_is_Some. rewrite <- (Forall2_length _ _ _ H). by apply lookup_lt_is_Some.
Qed.

Lemma inventory_woken ts ts' lg lp : Forall2 woken ts ts' -> inventory ts' lg lp = inventory ts lg lp.
Proof.
  intros H. unfold inventory. f_equal. induction H as [|p p' ts ts' Hw _ IH]; [done|]. cbn. rewrite IH. f_equal. by apply woken_same.
Qed.

Lemma inv_woken q ts ts' g lg lp : Forall2 woken ts ts' -> inv q ts g lg lp -> inv q ts' g lg lp.
Proof.
  intros H [I1 I2 I3 I4 I5 I6 I7 I8 I9 I10]. pose proof (inventory_woken ts ts' lg lp H) as E.
  constructor; try done.
  - by rewrite E.
  - by rewrite E.
  - eapply mutex_woken; [done| |done]. intros p p' Hw. by apply woken_same.
  - eapply mutex_woken; [done| |done]. intros p p' Hw. by apply woken_same.
  - intros t p' Ht. destruct (woken_lookup _ _ _ _ H Ht) as (p & Hp & Hw). apply (woken_same p p' Hw). by apply (I10 t).
Qed.

Lemma status_woken ts ts' : Forall2 woken ts ts' -> status_of <$> ts' = status_of <$> ts.
Proof. induction 1 as [|p p' ts ts' Hw _ IH]; [done|]. cbn. rewrite IH. f_equal. by apply woken_same. Qed.

(** The links of the messages of the queue are there. *)
Lemma inventory_links q ts g lg lp m : inv q ts g lg lp -> m ∈ inventory ts lg lp -> is_Some (links q !! (m + linkoff q)).
Proof.
  intros HI. unfold inventory. rewrite !elem_of_app. intros [Hm|[Hm|Hm]].
  - apply list_elem_of_bind in Hm as (p & Hm & Hp). apply list_elem_of_lookup in Hp as [t Ht].
    destruct (inv_knows _ _ _ _ _ HI t p Ht) as (_ & _ & K). unfold link_local in K.
    destruct p as [|m' []|[]| | |]; first [by apply K | cbn in Hm; apply list_elem_of_singleton in Hm as ->; by eexists].
  - apply (chain_links q g lg); [apply HI|done].
  - apply (chain_links q (put_head q) lp); [apply HI|done].
Qed.

(** The memory of a message that comes or goes. *)
Lemma inv_links q ts g lg lp t p p' a f : inv q ts g lg lp -> ts !! t = Some p ->
  in_get p = false -> in_put p = false -> in_get p' = false -> in_put p' = false ->
  NoDup (inventory (<[t := p']> ts) lg lp) -> Forall (fun m => 0 < m < 2 ^ 64) (inventory (<[t := p']> ts) lg lp) ->
  (forall b, b <> a -> f !! b = links q !! b) ->
  (forall m, m ∈ lg ++ lp -> m + linkoff q <> a) ->
  (forall t' p'' m, t' <> t -> ts !! t' = Some p'' -> m ∈ held p'' -> m + linkoff q <> a) ->
  link_local (set_links f q) p' -> inv (set_links f q) (<[t := p']> ts) g lg lp.
Proof.
  intros HI Ht C1 C2 C3 C4 Hd Hr Hf Hl Ho Hk. destruct (heads_head _ _ (inv_heads _ _ _ _ _ HI)) as (H1 & H2 & _).
  assert (forall c, (forall b, c <> Link b) -> load c (set_links f q) = load c q) as Hh by (intros []; naive_solver).
  assert (forall m, m ∈ lg ++ lp -> load (Link (m + linkoff q)) (set_links f q) = load (Link (m + linkoff q)) q) as Hm.
  { intros m Hm. rewrite !load_link. cbn. by rewrite Hf by auto. }
  constructor; try done.
  - apply HI.
  - apply (chain_agree q); [done|by apply Hh| |apply HI]. intros m ?. apply Hm. set_solver.
  - apply (chain_agree q); [done|by apply Hh| |apply HI]. intros m ?. apply Hm. set_solver.
  - eapply mutex_keep; [apply HI|done|congruence].
  - eapply mutex_keep; [apply HI|done|congruence].
  - apply HI.
  - intros E. apply (put_normal_same q); try done. by apply HI.
  - intros t' p'' [(-> & <- & _)|(Hne & H)]%list_lookup_insert_Some.
    + split; [congruence|]. split; [congruence|done].
    + destruct (inv_knows _ _ _ _ _ HI t' p'' H) as (K1 & K2 & K3). split; [|split].
      * intros C. apply (put_local_same q); auto.
      * intros C. apply (get_local_same q); auto.
      * apply (link_local_agree q); [done| |done]. intros m Hm'. rewrite !load_link. cbn. rewrite Hf; [done|]. eauto.
Qed.

Lemma inventory_cons ts t p p' lg lp l : ts !! t = Some p -> held p' = l ++ held p ->
  inventory (<[t := p']> ts) lg lp ≡ₚ l ++ inventory ts lg lp.
Proof.
  intros Ht E. destruct (bind_insert held ts t p p' Ht) as (r & E1 & E2). unfold inventory. rewrite E1, E2, E. by rewrite !app_assoc.
Qed.

Lemma call_inv q ts g lg lp t o v : inv q ts g lg lp -> ts !! t = Some Idle -> callable o q ->
  inv (hand_over o v q) (<[t := start o]> ts) g lg lp.
Proof.
  intros HI Ht Hc. destruct o as [m| | |]; cbn [hand_over start].
  2-4: eapply (inv_control q); [exact HI|exact Ht|by repeat split|done|by apply mutex_step_keep|by apply mutex_step_keep|apply HI|apply HI|];
    split; [done|]; split; [done|by apply link_nothing].
  destruct Hc as [Hm Hn]. pose proof (inventory_cons ts t Idle (Put m PutClear) lg lp [m] Ht eq_refl) as E.
  assert (m ∉ inventory ts lg lp) as Hfresh.
  { intros H. apply (inventory_links _ _ _ _ _ _ HI) in H as [x Hx]. congruence. }
  assert (forall m', m' ∈ inventory ts lg lp -> m' + linkoff q <> m + linkoff q) as Hne.
  { intros m' H' E'. assert (m' = m) as -> by lia. done. }
  apply (inv_links q ts g lg lp t Idle _ (m + linkoff q)); try done.
  - rewrite E. cbn. apply NoDup_cons. split; [done|apply HI].
  - rewrite E. cbn. apply Forall_cons. split; [done|apply HI].
  - intros b Hb. by apply lookup_insert_ne.
  - intros m' H'. apply Hne. unfold inventory. set_solver.
  - intros t' p m' _ Hp H'. apply Hne. unfold inventory. apply elem_of_app. left. apply list_elem_of_bind.
    exists p. split; [done|]. by eapply list_elem_of_lookup_2.
  - intros m' ->%list_elem_of_singleton. cbn. rewrite lookup_insert_eq. by eexists.
Qed.

Lemma return_inv q ts g lg lp t r : inv q ts g lg lp -> ts !! t = Some (Done r) ->
  inv (give_back r q) (<[t := Idle]> ts) g lg lp.
Proof.
  intros HI Ht. destruct r as [m|]; cbn [give_back].
  2: eapply (inv_control q); [exact HI|exact Ht|by repeat split|done|by apply mutex_step_keep|by apply mutex_step_keep|apply HI|apply HI|];
    split; [done|]; split; [done|by apply link_nothing].
  assert (Permutation (inventory ts lg lp) (m :: inventory (<[t := Idle]> ts) lg lp)) as E.
  { destruct (bind_insert held ts t (Done (Some m)) Idle Ht) as (r & E1 & E2). unfold inventory. by rewrite E1, E2. }
  pose proof (inv_nodup _ _ _ _ _ HI) as Hd. pose proof (inv_range _ _ _ _ _ HI) as Hr. rewrite E in Hd, Hr.
  apply NoDup_cons in Hd as [Hm Hd]. apply Forall_cons in Hr as [_ Hr].
  assert (forall m', m' ∈ inventory (<[t := Idle]> ts) lg lp -> m' + linkoff q <> m + linkoff q) as Hne.
  { intros m' H' E'. assert (m' = m) as -> by lia. done. }
  apply (inv_links q ts g lg lp t (Done (Some m)) _ (m + linkoff q)); try done.
  - intros b Hb. by apply lookup_delete_ne.
  - intros m' H'. apply Hne. unfold inventory. set_solver.
  - intros t' p m' Hne' Hp H'. apply Hne. unfold inventory. apply elem_of_app. left. apply list_elem_of_bind.
    exists p. split; [done|]. apply (list_elem_of_lookup_2 _ t'). by rewrite list_lookup_insert_ne.
  - by apply link_nothing.
Qed.

(** *** Executions *)

Definition initial (s : system) : Prop :=
  (exists malloc_ok init maxlen off e live, msgqueue_create malloc_ok init maxlen off = (Some (queue s), e, live)) /\
  Forall (eq Idle) (threads s).

Definition related (s : system) (a : fifo) : Prop :=
  exists g lg lp, inv (queue s) (threads s) g lg lp /\
    a = Fifo (lg ++ lp) (blocks_not (queue s)) (status_of <$> threads s).

Lemma create_some malloc_ok init maxlen off q e live : msgqueue_create malloc_ok init maxlen off = (Some q, e, live) ->
  q = Msgqueue maxlen 0 off 0 None None Head1 Head2 Head2 None None ∅.
Proof. unfold msgqueue_create. repeat case_match; congruence. Qed.

Lemma initial_related s : initial s -> related s (Fifo [] false (replicate (length (threads s)) Ready)).
Proof.
  intros [(m & i & x & o & e & l & Hc%create_some) Hi]. destruct s as [q ts]. cbn in *. subst q.
  assert (ts = replicate (length ts) Idle) as -> by (by symmetry; apply replicate_as_Forall_2).
  exists Head1, [], []. rewrite length_replicate. cbn [queue threads]. split; [|by rewrite fmap_replicate].
  assert (inventory (replicate (length ts) Idle) [] [] = []) as E by (generalize (length ts); induction n; done).
  constructor; try done.
  - by left.
  - rewrite E. constructor.
  - rewrite E. constructor.
  - split; [|done]. by intros t p [-> _]%lookup_replicate.
  - split; [|done]. by intros t p [-> _]%lookup_replicate.
  - intros t p [-> _]%lookup_replicate. by repeat split; try apply link_nothing.
Qed.

(** A step of the program is a step of the abstract queue: the same one if it
    is a call or a return. *)
Lemma step_related s l s' a : step s l s' -> related s a ->
  exists a', related s' a' /\ (if visible l then fifo_step a (Some l) a' else a' = a \/ fifo_step a None a').
Proof.
  intros Hs (g & lg & lp & HI & ->). destruct Hs as [t o v q ts Ht Hc|t r q ts Ht|t p p' q q' w ts ts' Ht Hr Hw|t p c q ts Ht Hc];
    cbn [queue threads] in *.
  - eexists. split; [exists g, lg, lp; split; [by apply call_inv|done]|]. cbn. rewrite list_fmap_insert.
    replace (status_of (start o)) with (Pending o) by by destruct o. replace (blocks_not (hand_over o v q)) with (blocks_not q) by by destruct o.
    constructor. by rewrite list_lookup_fmap, Ht.
  - eexists. split; [exists g, lg, lp; split; [by apply return_inv|done]|]. cbn. rewrite list_fmap_insert.
    replace (blocks_not (give_back r q)) with (blocks_not q) by by destruct r.
    constructor. by rewrite list_lookup_fmap, Ht.
  - destruct (thread_step_good _ _ _ _ _ _ _ _ _ _ HI Ht Hr) as (g' & lg' & lp' & HI' & Hsim).
    apply wakes_woken in Hw. eexists. split; [exists g', lg', lp'; split; [by eapply inv_woken|done]|]. cbn.
    rewrite (status_woken _ _ Hw), list_fmap_insert. destruct Hsim as [(-> & -> & E)|(o & r & E1 & E2 & Hf)].
    + left. rewrite list_insert_id; [done|]. by rewrite list_lookup_fmap, Ht, E.
    + right. rewrite E2. eapply fifo_effect; [|done]. by rewrite list_lookup_fmap, Ht, <- E1.
  - assert (Forall2 woken ts (<[t := wake p]> ts)) as Hw by (by eapply wakes_woken, wakes_one).
    eexists. split; [exists g, lg, lp; split; [by eapply inv_woken|done]|]. left. cbn. by rewrite (status_woken _ _ Hw).
Qed.

Lemma execution_related s ls s' : execution s ls s' -> initial s -> exists a,
  related s' a /\ fifo_execution (Fifo [] false (replicate (length (threads s)) Ready)) (history ls) a.
Proof.
  induction 1 as [s|s ls s1 l s2 _ IH Hs]; intros Hi; [eexists; split; [by apply initial_related|constructor]|].
  destruct (IH Hi) as (a & Ha & He). destruct (step_related _ _ _ _ Hs Ha) as (a' & Ha' & Hv).
  exists a'. split; [done|]. unfold history. rewrite filter_app. destruct (visible l) eqn:E.
  - rewrite filter_cons_True by done. by eapply fifo_visible.
  - rewrite filter_cons_False by (by rewrite E). rewrite app_nil_r.
    destruct Hv as [->|Hv]; [done|by eapply fifo_silent].
Qed.

(** C2: For every number of threads, every interleaving of their statements and
    every spurious wake-up, the calls and returns of an execution are those of
    one atomic first-in first-out queue: no message is lost, returned twice or
    overtaken, and msgqueue_get returns NULL only from an empty queue in
    nonblocking mode. *)
Theorem msgqueue_linearizable (s s' : system) (ls : list label) (Hi : initial s) (He : execution s ls s') :
  exists a, fifo_execution (Fifo [] false (replicate (length (threads s)) Ready)) (history ls) a.
Proof. destruct (execution_related s ls s' He Hi) as (a & _ & Ha). by exists a. Qed.

(** ** Memory safety *)

Lemma swap_returns q ts g lg lp t p : inv q ts g lg lp -> ts !! t = Some (Get (GetSwap p)) -> returns (msgqueue_swap t p q).
Proof.
  intros HI Ht. unfold msgqueue_swap, unlock_put. destruct p; facts HI Ht; try (eexists; reflexivity);
    try (destruct (lock_put t q); eexists; reflexivity);
    rewrite Mp, bool_decide_true by done; [destruct (_ && _)|]; eexists; reflexivity.
Qed.

Lemma thread_step_returns q ts g lg lp t p : inv q ts g lg lp -> ts !! t = Some p -> returns (thread_step t p q).
Proof.
  intros HI Ht. pose proof (inv_get _ _ _ _ _ HI) as Hg.
  destruct p as [|m p|p|p| |r]; [eexists; reflexivity|..|eexists; reflexivity|eexists; reflexivity]; cbn [thread_step].
  - unfold msgqueue_put, blocking, unlock_put, go. destruct p; facts HI Ht.
    + destruct (Ll m) as [v Hv]; [set_solver|]. cbn. rewrite Hv. eexists; reflexivity.
    + destruct (lock_put t q); eexists; reflexivity.
    + rewrite Mp, bool_decide_true by done. destruct (_ && _); eexists; reflexivity.
    + eexists; reflexivity.
    + destruct (lock_put t q); eexists; reflexivity.
    + destruct Lp as [-> _]. destruct (store_total (tail_of q (put_head q) lp) (Some (m + linkoff q)) q None) as [q' ->];
        [by apply chain_tail, HI|eexists; reflexivity].
    + eexists; reflexivity.
    + eexists; reflexivity.
    + rewrite Mp, bool_decide_true by done. eexists; reflexivity.
    + eexists; reflexivity.
  - unfold msgqueue_get, blocking, unlock_get, go. destruct p as [| |p| |m|r]; [| | |facts HI Ht..]; [facts HI Ht|facts HI Ht| | | |].
    + destruct (lock_get t q); eexists; reflexivity.
    + rewrite Lg. destruct lg; cbn [chain] in Hg; [rewrite Hg|destruct Hg as [-> _]]; eexists; reflexivity.
    + destruct (swap_returns _ _ _ _ _ _ _ HI Ht) as [r ->]. cbn [cbind]. destruct r as [[[[?|?] ?] ?]|]; eexists; reflexivity.
    + destruct Lg as [-> Hne]. destruct lg; [done|]. destruct Hg as [-> _]. eexists; reflexivity.
    + destruct Lg as (-> & l & ->). destruct Hg as [Hg1 Hg2]. rewrite Hg1. cbn [cbind].
      assert (exists next, load (Link (m + linkoff q)) q = Ret next) as [next ->] by (destruct l; cbn [chain] in Hg2; [|destruct Hg2]; eauto).
      cbn [cbind]. destruct (store_total g next q _ Hg1) as [q' ->]. eexists; reflexivity.
    + rewrite Mg, bool_decide_true by done. eexists; reflexivity.
  - unfold msgqueue_set_nonblock, blocking, unlock_put, go. destruct p; facts HI Ht; try (eexists; reflexivity).
    + destruct (lock_put t q); eexists; reflexivity.
    + rewrite Mp, bool_decide_true by done. eexists; reflexivity.
Qed.

Lemma reachable_inv s ls s' : initial s -> execution s ls s' -> exists g lg lp, inv (queue s') (threads s') g lg lp.
Proof.
  intros Hi He. destruct (execution_related s ls s' He Hi) as (a & (g & lg & lp & H & _) & _). by exists g, lg, lp.
Qed.

(** In no execution does a thread follow a NULL link, touch the link of a
    message that its owner has got back, or release a mutex it does not hold. *)
Theorem msgqueue_safe (s s' : system) (ls : list label) (t : nat) (p : pc)
  (Hi : initial s) (He : execution s ls s') (Ht : threads s' !! t = Some p) : returns (thread_step t p (queue s')).
Proof. destruct (reachable_inv s ls s' Hi He) as (g & lg & lp & HI). by eapply thread_step_returns. Qed.

(** ** Liveness *)

(** A bound on the steps the calls in progress still take, apart from
    spurious wake-ups; a broadcast may wake [n] threads. *)
Definition weight (n : nat) (p : pc) : nat :=
  match p with
  | Idle => 0
  | Done _ => 1
  | Put _ p =>
      match p with
      | PutClear => 11 | PutLock => 10 | PutTest => 9 | PutWait => 8 | PutWake => 10 | PutLink => 8
      | PutTail => 7 | PutCount => 6 | PutUnlock => 5 | PutSignal => 4
      end
  | Get p =>
      match p with
      | GetLock => 15 + 2 * n | GetTest => 14 + 2 * n
      | GetSwap p =>
          match p with
          | SwapSave => 13 + 2 * n | SwapHead _ => 12 + 2 * n | SwapLock _ => 11 + 2 * n | SwapTest _ => 10 + 2 * n
          | SwapWait _ => 9 + 2 * n | SwapWake _ => 11 + 2 * n | SwapCast _ _ => 9 + 2 * n
          | SwapPutHead _ _ => 8 | SwapPutTail _ _ => 7 | SwapReset _ => 6 | SwapUnlock _ => 5
          end
      | GetMsg => 4 | GetNext _ => 3 | GetUnlock _ => 2
      end
  | Nonblock p =>
      match p with
      | NonblockSet => 8 + 2 * n | NonblockLock => 7 + 2 * n | NonblockSignal => 6 + 2 * n | NonblockCast => 3 + 2 * n
      | NonblockUnlock => 2
      end
  | Block => 2
  end%nat.

Definition potential (ts : list pc) : nat := sum_list_with (weight (length ts)) ts.

Definition spurious (ls : list label) : nat :=
  sum_list_with (fun l => match l with Spurious _ => 1 | _ => 0 end)%nat ls.

Definition woken_by (n : nat) (w : wakeup) : nat :=
  match w with NoWake => 0 | Signal _ => 1 | Broadcast _ => n end.

Lemma thread_step_weight n t p q p' q' w : thread_step t p q = Ret (Some (p', q', w)) ->
  (weight n p' + 2 * woken_by n w < weight n p)%nat.
Proof.
  unfold thread_step, msgqueue_put, msgqueue_get, msgqueue_set_nonblock, msgqueue_set_block, msgqueue_swap, blocking,
    lock_put, lock_get, go. intros H.
  repeat (case_match; inv_bind; simplify_eq/=); try lia.
Qed.

Lemma sum_insert (f : pc -> nat) ts t p p' : ts !! t = Some p ->
  (sum_list_with f (<[t := p']> ts) + f p = sum_list_with f ts + f p')%nat.
Proof.
  revert t. induction ts as [|x ts IH]; intros [|t] Ht; [done|done|injection Ht as ->; cbn; lia|].
  specialize (IH t Ht). change (<[S t := p']> (x :: ts)) with (x :: <[t := p']> ts). cbn [sum_list_with]. lia.
Qed.

Lemma weight_wake n p : (weight n (wake p) <= weight n p + 2)%nat.
Proof. destruct p as [|m []|[| |[]| | |]| | |]; cbn; lia. Qed.

Lemma wakes_potential n w ts ts' : wakes w ts ts' ->
  (sum_list_with (weight n) ts' <= sum_list_with (weight n) ts + 2 * woken_by (length ts) w)%nat.
Proof.
  intros [ts0|c ts0 _|c ts0 t p Ht _|c ts0]; cbn [woken_by]; [lia|lia| |].
  - pose proof (sum_insert (weight n) ts0 t p (wake p) Ht). pose proof (weight_wake n p). lia.
  - induction ts0 as [|p ts0 IH]; cbn; [lia|]. pose proof (weight_wake n p). destruct (waiting c p); cbn in *; lia.
Qed.

Lemma step_potential s l s' : step s l s' -> (forall t o, l <> Call t o) ->
  (potential (threads s') + 1 <= potential (threads s) + match l with Spurious _ => 3 | _ => 0 end)%nat.
Proof.
  intros Hs Hc. unfold potential. destruct Hs as [t o v q ts Ht _|t r q ts Ht|t p p' q q' w ts ts' Ht Hr Hw|t p c q ts Ht Hw];
    cbn [threads]; [by edestruct Hc|..].
  - rewrite length_insert. pose proof (sum_insert (weight (length ts)) ts t _ Idle Ht). cbn in *. lia.
  - pose proof (wakes_potential (length ts) _ _ _ Hw). pose proof (Forall2_length _ _ _ (wakes_woken _ _ _ Hw)) as E.
    rewrite length_insert in *. rewrite <- E. pose proof (sum_insert (weight (length ts)) ts t p p' Ht).
    pose proof (thread_step_weight (length ts) _ _ _ _ _ _ Hr). lia.
  - rewrite length_insert. pose proof (sum_insert (weight (length ts)) ts t p (wake p) Ht).
    pose proof (weight_wake (length ts) p). lia.
Qed.

Lemma execution_bound s ls s' : execution s ls s' -> (forall t o, Call t o ∉ ls) ->
  (length ls + potential (threads s') <= potential (threads s) + 3 * spurious ls)%nat.
Proof.
  induction 1 as [s|s ls s1 l s2 _ IH Hs]; intros Hc; [cbn; lia|].
  assert (forall t o, Call t o ∉ ls) as Hc1 by (intros t o H; apply (Hc t o); set_solver).
  assert (forall t o, l <> Call t o) as Hc2 by (intros t o ->; apply (Hc t o); set_solver).
  specialize (IH Hc1). pose proof (step_potential _ _ _ Hs Hc2). rewrite length_app. unfold spurious in *.
  rewrite sum_list_with_app. destruct l; cbn [sum_list_with length] in *; lia.
Qed.

(** *** No wake-up is lost *)

Definition some_thread (f : pc -> bool) (ts : list pc) : Prop := exists t p, ts !! t = Some p /\ f p = true.

(** A thread that is going to signal [get_cond], or to broadcast [put_cond]. *)
Definition will_signal (p : pc) : bool :=
  match p with
  | Put _ (PutUnlock | PutSignal) | Nonblock (NonblockLock | NonblockSignal) => true
  | _ => false
  end.

Definition will_cast (p : pc) : bool :=
  match p with Nonblock (NonblockLock | NonblockSignal | NonblockCast) => true | _ => false end.

(** The swap is past its broadcast, and the count not yet reset. *)
Definition past_cast (p : pc) : bool :=
  match p with Get (GetSwap (SwapPutHead _ _ | SwapPutTail _ _ | SwapReset _)) => true | _ => false end.

(** A thread sleeps only while it has a reason to, or is going to be woken. *)
Definition justified (q : msgqueue) (ts : list pc) : Prop :=
  (some_thread (waiting get_cond) ts -> (msg_cnt q = 0 /\ nonblock q = 0) \/ some_thread will_signal ts) /\
  (some_thread (waiting put_cond) ts ->
    (full q = true /\ nonblock q = 0 /\ ~ some_thread past_cast ts) \/ some_thread will_cast ts).

Lemma some_insert f ts t p p' : ts !! t = Some p -> (f p = true -> f p' = true) -> some_thread f ts ->
  some_thread f (<[t := p']> ts).
Proof.
  intros Ht Hf (t' & p'' & H & Hp). destruct (decide (t' = t)) as [->|Hne].
  - exists t, p'. split; [apply list_lookup_insert_eq; by eapply lookup_lt_Some|]. apply Hf. congruence.
  - exists t', p''. by rewrite list_lookup_insert_ne.
Qed.

Lemma some_here (f : pc -> bool) ts t p p' : ts !! t = Some p -> f p' = true -> some_thread f (<[t := p']> ts).
Proof. intros Ht Hf. exists t, p'. split; [apply list_lookup_insert_eq; by eapply lookup_lt_Some|done]. Qed.

Lemma some_insert_inv f ts t p' : some_thread f (<[t := p']> ts) ->
  f p' = true \/ exists t' p, t' <> t /\ ts !! t' = Some p /\ f p = true.
Proof. intros (t' & p & [(-> & <- & _)|(Hne & H)]%list_lookup_insert_Some & Hf); [by left|right; eauto 10]. Qed.

Lemma some_wakes f w ts ts' : wakes w ts ts' -> (forall p, f p = true -> wake p = p) -> some_thread f ts -> some_thread f ts'.
Proof.
  intros Hw Hf (t & p & Ht & Hp). destruct (Forall2_lookup_l _ _ _ _ _ (wakes_woken _ _ _ Hw) Ht) as (p' & Ht' & [->| ->]).
  - by exists t, p.
  - exists t, p. by rewrite <- (Hf p Hp) at 1.
Qed.

Lemma some_wakes_inv f w ts ts' : wakes w ts ts' -> (forall p, f (wake p) = true -> f p = true) ->
  some_thread f ts' -> some_thread f ts.
Proof.
  intros Hw Hf (t & p' & Ht & Hp). destruct (woken_lookup _ _ _ _ (wakes_woken _ _ _ Hw) Ht) as (p & Ht' & [->| ->]); exists t, p; auto.
Qed.

Lemma waiting_wake c p : waiting c (wake p) = false.
Proof. by destruct c, p as [|m []|[| |[]| | |]| | |]. Qed.

(** After a broadcast nobody sleeps; after a signal to a condition with one
    sleeper at most, neither. *)
Lemma broadcast_all c ts ts' : wakes (Broadcast c) ts ts' -> ~ some_thread (waiting c) ts'.
Proof.
  intros Hw (t & p & Ht & Hp). inversion Hw; subst. apply list_lookup_fmap_Some in Ht as (p0 & -> & Ht).
  destruct (waiting c p0) eqn:E; [|congruence]. by rewrite waiting_wake in Hp.
Qed.

Lemma signal_one c ts ts' : wakes (Signal c) ts ts' ->
  (forall t p t' p', ts !! t = Some p -> ts !! t' = Some p' -> waiting c p = true -> waiting c p' = true -> t = t') ->
  ~ some_thread (waiting c) ts'.
Proof.
  intros Hw Hu (t & p & Ht & Hp). inversion Hw as [|c0 ts0 H|c0 ts0 t1 p1 H1 H2|]; subst.
  - apply list_elem_of_lookup_2, H in Ht. congruence.
  - apply list_lookup_insert_Some in Ht as [(-> & <- & _)|(Hne & Ht)]; [by rewrite waiting_wake in Hp|]. by apply Hne, (Hu _ _ _ _ H1 Ht).
Qed.

(** What a step does to the count and to [nonblock]. *)
Inductive shared_step (q : msgqueue) : pc -> msgqueue -> pc -> wakeup -> Prop :=
| shared_keep p q' p' w : msg_cnt q' = msg_cnt q -> nonblock q' = nonblock q -> msg_max q' = msg_max q ->
    (waiting get_cond p' = true -> msg_cnt q = 0 /\ nonblock q = 0) ->
    (waiting put_cond p' = true -> full q = true /\ nonblock q = 0 /\ in_put p = true /\ past_cast p = false) ->
    (will_signal p = true -> will_signal p' = true \/ w = Signal get_cond) ->
    (will_cast p = true -> will_cast p' = true \/ w = Broadcast put_cond) ->
    (past_cast p' = true -> past_cast p = true \/ w = Broadcast put_cond \/
       exists local cnt, p = Get (GetSwap (SwapCast local cnt)) /\ cnt <= u64 (msg_max q - 1)) ->
    w <> Signal put_cond -> shared_step q p q' p' w
| shared_count m : shared_step q (Put m PutCount) (set_msg_cnt (u64 (msg_cnt q + 1)) q) (Put m PutUnlock) NoWake
| shared_reset cnt : shared_step q (Get (GetSwap (SwapReset cnt))) (set_msg_cnt 0 q) (Get (GetSwap (SwapUnlock cnt))) NoWake
| shared_nonblock : shared_step q (Nonblock NonblockSet) (set_nonblock 1 q) (Nonblock NonblockLock) NoWake
| shared_block : shared_step q Block (set_nonblock 0 q) (Done None) NoWake.

Lemma store_shared c v q q' : store c v q = Ret q' -> msg_cnt q' = msg_cnt q /\ nonblock q' = nonblock q /\ msg_max q' = msg_max q.
Proof. intros H. destruct (store_spec _ _ _ _ H) as ((? & ? & ? & ? & _) & _). done. Qed.

Ltac keep := apply shared_keep; try done; intros; zify_bool; first [done | by auto | by right; right; eauto].
Ltac shared_cases := inv_bind; repeat (case_match; inv_bind; simplify_eq/=);
  first [apply shared_count | apply shared_reset | apply shared_nonblock | apply shared_block | keep].

Lemma swap_shared t q p r q' w : msgqueue_swap t p q = Ret (Some (r, q', w)) ->
  shared_step q (Get (GetSwap p)) q'
    (Get (match r with inl p' => GetSwap p' | inr cnt => if cnt >? 0 then GetMsg else GetUnlock None end)) w.
Proof. unfold msgqueue_swap, lock_put, unlock_put. intros H. destruct p; shared_cases. Qed.

Lemma put_shared t q m p p' q' w : msgqueue_put t m p q = Ret (Some (p', q', w)) -> shared_step q (Put m p) q' p' w.
Proof.
  unfold msgqueue_put, go, blocking, lock_put, unlock_put. intros H.
  destruct p; inv_bind; try (destruct (store_shared _ _ _ _ Hb) as (? & ? & ?)); shared_cases.
Qed.

Lemma get_shared t q p p' q' w : msgqueue_get t p q = Ret (Some (p', q', w)) -> shared_step q (Get p) q' p' w.
Proof.
  unfold msgqueue_get, go, blocking, lock_get, unlock_get. intros H. destruct p as [| |p| |m|r]; inv_bind.
  - shared_cases.
  - shared_cases.
  - destruct v as [[[[p1|cnt] q1] w1]|]; simplify_eq; exact (swap_shared _ _ _ _ _ _ Hb).
  - shared_cases.
  - destruct v; inv_bind. destruct (store_shared _ _ _ _ Hb1) as (? & ? & ?). shared_cases.
  - shared_cases.
Qed.

Lemma step_shared t q p p' q' w : thread_step t p q = Ret (Some (p', q', w)) -> shared_step q p q' p' w.
Proof.
  destruct p; cbn [thread_step]; [done|by apply put_shared|by apply get_shared| |unfold msgqueue_set_block, go; intros; shared_cases|done].
  unfold msgqueue_set_nonblock, go, blocking, lock_put, unlock_put. intros H. destruct p; shared_cases.
Qed.

Lemma past_cast_in p : past_cast p = true -> in_put p = true.
Proof. by destruct p as [|m []|[| |[]| | |]| | |]. Qed.

Lemma waiting_get p : waiting get_cond p = true -> in_get p = true.
Proof. by destruct p as [|m []|[| |[]| | |]| | |]. Qed.

Section Justified.
Context (q q' : msgqueue) (ts ts' : list pc) (g : cell) (lg lp : list Z) (t : nat) (p p' : pc) (w : wakeup)
  (HI : inv q ts g lg lp) (HI' : exists g' lg' lp', inv q' (<[t := p']> ts) g' lg' lp') (Ht : ts !! t = Some p)
  (Hs : shared_step q p q' p' w) (Hw : wakes w (<[t := p']> ts) ts') (HJ : justified q ts).

Lemma wake_stays f : (forall p, f p = true -> wake p = p) -> some_thread f (<[t := p']> ts) -> some_thread f ts'.
Proof. by apply (some_wakes f w). Qed.

(** A sleeper after the step slept before it, or is the thread itself. *)
Lemma sleeper c : some_thread (waiting c) ts' ->
  waiting c p' = true \/ exists t' p'', t' <> t /\ ts !! t' = Some p'' /\ waiting c p'' = true.
Proof.
  intros H. apply (some_insert_inv _ ts t). eapply some_wakes_inv; [exact Hw| |exact H]. intros p0. by rewrite waiting_wake.
Qed.

Lemma one_getter : w = Signal get_cond -> ~ some_thread (waiting get_cond) ts'.
Proof.
  intros ->. eapply signal_one; [exact Hw|]. destruct HI' as (g' & lg' & lp' & H).
  intros t1 p1 t2 p2 H1 H2 W1%waiting_get W2%waiting_get.
  apply (proj1 (inv_get_mutex _ _ _ _ _ H) _ _ H1) in W1. apply (proj1 (inv_get_mutex _ _ _ _ _ H) _ _ H2) in W2. congruence.
Qed.

Lemma justified_get : some_thread (waiting get_cond) ts' ->
  (msg_cnt q' = 0 /\ nonblock q' = 0) \/ some_thread will_signal ts'.
Proof.
  intros Hsl. destruct (decide (w = Signal get_cond)) as [E|Hne]; [by destruct (one_getter E)|].
  assert (forall f, (forall p, f p = true -> wake p = p) -> some_thread f (<[t := p']> ts) -> some_thread f ts') as Hst by apply wake_stays.
  assert (forall p0, will_signal p0 = true -> wake p0 = p0) as Hwk by (by intros [|m []|[| |[]| | |]| | |]).
  destruct (sleeper _ Hsl) as [Hp|(t' & p'' & Ht' & Hp'' & Hw'')].
  - destruct Hs; try done. left. destruct H2 as [? ?]; [done|]. split; congruence.
  - assert (some_thread (waiting get_cond) ts) as [[E1 E2]|Hsig]%HJ by (by exists t', p'').
    + destruct Hs; try (left; cbn; by split; congruence); right; apply Hst; try done; by eapply some_here.
    + destruct (will_signal p) eqn:E.
      * right. apply Hst; [done|]. eapply some_here; [done|]. destruct Hs; try done. by destruct (H4 E).
      * right. apply Hst; [done|]. by eapply some_insert; [done|congruence|].
Qed.

Lemma past_cast_after : ~ some_thread past_cast ts -> past_cast p' = false -> ~ some_thread past_cast ts'.
Proof.
  intros Hn Hp' H. assert (some_thread past_cast (<[t := p']> ts)) as H'.
  { eapply some_wakes_inv; [exact Hw| |exact H]. by intros [|m []|[| |[]| | |]| | |]. }
  apply some_insert_inv in H' as [E|(t1 & p1 & _ & H1 & E)]; [congruence|]. apply Hn. by exists t1, p1.
Qed.

Lemma in_put_past_cast : in_put p = true -> past_cast p = false -> ~ some_thread past_cast ts.
Proof.
  intros Hp Hn (t1 & p1 & H1 & E). destruct (decide (t1 = t)) as [->|Hne]; [congruence|].
  apply past_cast_in in E. by rewrite (mutex_other _ _ _ _ _ _ _ (inv_put_mutex _ _ _ _ _ HI) Ht H1 Hne Hp) in E.
Qed.

Lemma full_after : full q = true -> nonblock q = 0 -> ~ some_thread past_cast ts -> w <> Broadcast put_cond ->
  (full q' = true /\ nonblock q' = 0 /\ ~ some_thread past_cast ts') \/ some_thread will_cast ts'.
Proof.
  intros Hf Hn Hp Hne. assert (past_cast p = false) as Hpp.
  { apply not_true_iff_false. intros E. apply Hp. by exists t, p. }
  assert ((full q' = true /\ nonblock q' = 0 /\ past_cast p' = false) \/ will_cast p' = true) as [(? & ? & ?)|H].
  - clear Hw. destruct Hs as [p q' p' w E1 E2 E3 _ _ _ _ Hpc _|m|cnt| |]; try done; try (by right).
    + left. unfold full in *. rewrite E1, E2, E3. split; [done|]. split; [done|].
      apply not_true_iff_false. intros [|[|(local & cnt & -> & Hle)]]%Hpc; [congruence|done|].
      destruct (at_put _ _ _ _ _ _ _ HI Ht eq_refl) as [_ [[_ Lp] ->]]. lia.
    + left. split; [|done]. unfold full in *. cbn. pose proof (put_count_bound _ _ _ _ _ HI).
      destruct (at_put _ _ _ _ _ _ _ HI Ht eq_refl) as [_ [_ Lp]]. unfold u64 at 2. rewrite Z.mod_small; [lia|].
      pose proof (blen_nonneg lp). lia.
    + by left.
  - left. split; [done|]. split; [done|]. by apply past_cast_after.
  - right. apply wake_stays; [by intros [|m []|[| |[]| | |]| | |]|]. by eapply some_here.
Qed.

Lemma justified_put : some_thread (waiting put_cond) ts' ->
  (full q' = true /\ nonblock q' = 0 /\ ~ some_thread past_cast ts') \/ some_thread will_cast ts'.
Proof.
  intros Hsl. destruct (decide (w = Broadcast put_cond)) as [E|Hne]; [subst w; by destruct (broadcast_all _ _ _ Hw)|].
  destruct (sleeper _ Hsl) as [Hp|(t' & p'' & Ht' & Hp'' & Hw'')].
  - assert (full q = true /\ nonblock q = 0 /\ in_put p = true /\ past_cast p = false) as (? & ? & ? & ?) by (destruct Hs; [auto|done..]).
    apply full_after; try done. by apply in_put_past_cast.
  - assert (some_thread (waiting put_cond) ts) as [(E1 & E2 & E3)|Hcast]%HJ by (by exists t', p''); [by apply full_after|].
    right. apply wake_stays; [by intros [|m []|[| |[]| | |]| | |]|].
    destruct (will_cast p) eqn:E; [|by eapply some_insert; [done|congruence|]].
    eapply some_here; [done|]. destruct Hs; try done. by destruct (H5 E).
Qed.
End Justified.

(** Calls, returns and spurious wake-ups. *)
Lemma justified_insert q q' ts t p p' : justified q ts -> ts !! t = Some p -> msg_cnt q' = msg_cnt q ->
  nonblock q' = nonblock q -> msg_max q' = msg_max q -> (forall c, waiting c p' = false) ->
  will_signal p = false -> will_cast p = false -> past_cast p' = false -> justified q' (<[t := p']> ts).
Proof.
  intros [J1 J2] Ht E1 E2 E3 Hp Hs Hc Hpc. assert (forall c, some_thread (waiting c) (<[t := p']> ts) -> some_thread (waiting c) ts) as Hw.
  { intros c [H|(t1 & p1 & _ & H1 & E)]%some_insert_inv; [by rewrite Hp in H|by exists t1, p1]. }
  unfold justified, full. rewrite E1, E2, E3. split; intros H%Hw.
  - destruct (J1 H) as [H1|H1]; [by left|right]. eapply some_insert; [done|congruence|done].
  - destruct (J2 H) as [(H1 & H2 & H3)|H1]; [left|right; eapply some_insert; [done|congruence|done]].
    split; [done|]. split; [done|]. intros [H4|(t1 & p1 & _ & H4 & E)]%some_insert_inv; [congruence|]. apply H3. by exists t1, p1.
Qed.

Lemma step_justified s l s' g lg lp : step s l s' -> inv (queue s) (threads s) g lg lp ->
  justified (queue s) (threads s) -> justified (queue s') (threads s').
Proof.
  intros Hs HI HJ. destruct Hs as [t o v q ts Ht Hc|t r q ts Ht|t p p' q q' w ts ts' Ht Hr Hw|t p c q ts Ht Hc]; cbn [queue threads] in *.
  - apply (justified_insert _ _ _ _ _ _ HJ Ht); try done; first [by destruct o | by intros []; destruct o].
  - apply (justified_insert _ _ _ _ _ _ HJ Ht); try done; [by destruct r..|by intros []].
  - destruct (thread_step_good _ _ _ _ _ _ _ _ _ _ HI Ht Hr) as (g' & lg' & lp' & HI' & _). apply step_shared in Hr.
    assert (exists g' lg' lp', inv q' (<[t := p']> ts) g' lg' lp') as HI'' by eauto.
    split; [intros H; by eapply justified_get|intros H; eapply justified_put; [exact HI|..]; done].
  - apply (justified_insert _ _ _ _ _ _ HJ Ht); try done; [intros; apply waiting_wake|..]; by destruct c, p as [|m []|[| |[]| | |]| | |].
Qed.

Lemma execution_justified s ls s' : execution s ls s' -> initial s -> justified (queue s') (threads s').
Proof.
  intros He Hi. induction He as [s|s ls s1 l s2 He IH Hs].
  - destruct Hi as [_ Hi]. split; intros (t & p & Ht & Hp); rewrite Forall_forall in Hi;
      by rewrite <- (Hi p) in Hp by (by eapply list_elem_of_lookup_2).
  - destruct (reachable_inv _ _ _ Hi He) as (g & lg & lp & HI). eapply step_justified; eauto.
Qed.

(** *** Where executions end *)

(** No thread can go on without a call or a spurious wake-up. *)
Definition stuck (s : system) : Prop :=
  forall l s', step s l s' -> match l with Call _ _ | Spurious _ => True | _ => False end.

(** All threads are outside the queue; or the queue is empty and the others are
    in msgqueue_get; or it is full and the others are in msgqueue_put. *)
Definition at_rest (s : system) : Prop :=
  (forall p, p ∈ threads s -> p = Idle) \/
  (nonblock (queue s) = 0 /\ msg_cnt (queue s) = 0 /\ head1 (queue s) = None /\ head2 (queue s) = None /\
   forall p, p ∈ threads s -> p = Idle \/ p = Get GetLock \/ exists local, p = Get (GetSwap (SwapWait local))) \/
  (nonblock (queue s) = 0 /\ full (queue s) = true /\ forall p, p ∈ threads s -> p = Idle \/ exists m, p = Put m PutWait).

Lemma wakes_exists w ts : exists ts', wakes w ts ts'.
Proof.
  destruct w as [|c|c]; [eexists; constructor| |eexists; constructor].
  destruct (decide (Exists (fun p => waiting c p = true) ts)) as [H|H].
  - apply Exists_exists in H as (p & Hp & Hw). apply list_elem_of_lookup in Hp as [t Ht]. eexists. by eapply wakes_one.
  - exists ts. constructor. intros p Hp. apply not_true_iff_false. intros E. apply H, Exists_exists. eauto.
Qed.

(** The statements that take the put mutex. *)
Definition wants_put (p : pc) : bool :=
  match p with
  | Put _ (PutLock | PutWake) | Get (GetSwap (SwapLock _ | SwapWake _)) | Nonblock NonblockLock => true
  | _ => false
  end.

(** A thread that cannot step waits for a condition or a mutex. *)
Lemma blocked t p q : thread_step t p q = Ret None ->
  p = Idle \/ (exists r, p = Done r) \/ (exists c, waiting c p = true) \/ (wants_put p = true /\ put_mutex q <> None) \/
  (p = Get GetLock /\ get_mutex q <> None).
Proof.
  destruct p as [|m p|p|p| |r]; cbn [thread_step]; [by left| | | |done|right; left; by eexists].
  - unfold msgqueue_put, go, blocking, lock_put, unlock_put. intros H.
    destruct p; try (right; right; left; by exists put_cond); inv_bind; repeat (case_match; inv_bind; simplify_eq/=); auto 10.
  - unfold msgqueue_get, go, blocking, lock_get, unlock_get, msgqueue_swap, lock_put, unlock_put. intros H.
    destruct p as [| |[]| |m|r]; try (right; right; left; by exists get_cond);
      inv_bind; repeat (case_match; inv_bind; simplify_eq/=); auto 10.
  - unfold msgqueue_set_nonblock, go, blocking, lock_put, unlock_put. intros H.
    destruct p; inv_bind; repeat (case_match; inv_bind; simplify_eq/=); auto 10.
Qed.

Section Stuck.
Context (q : msgqueue) (ts : list pc) (g : cell) (lg lp : list Z) (HI : inv q ts g lg lp) (Hst : stuck (System q ts)).

Lemma stuck_blocked t p : ts !! t = Some p -> thread_step t p q = Ret None /\ (forall r, p <> Done r).
Proof.
  intros Ht. split.
  - destruct (thread_step_returns _ _ _ _ _ _ _ HI Ht) as [[[[p' q'] w]|] Hr]; [|done].
    destruct (wakes_exists w (<[t := p']> ts)) as [ts' Hw]. by destruct (Hst (Run t) _ (step_run _ _ _ _ _ _ _ _ Ht Hr Hw)).
  - intros r ->. by destruct (Hst (Return t r) _ (step_return _ _ _ _ Ht)).
Qed.

Lemma stuck_put_free : put_mutex q = None.
Proof.
  destruct (put_mutex q) as [t|] eqn:E; [|done]. destruct (proj2 (inv_put_mutex _ _ _ _ _ HI) t E) as [p Ht].
  pose proof E as Hp. apply (proj1 (inv_put_mutex _ _ _ _ _ HI) t p Ht) in Hp.
  destruct (stuck_blocked t p Ht) as [Hb Hd]. exfalso.
  destruct (blocked _ _ _ Hb) as [->|[[r ->]|[[[] H]|[[H _]|[-> _]]]]]; try done;
    by destruct p as [|m []|[| |[]| | |]|[]| |].
Qed.

Lemma stuck_waits p : p ∈ ts -> p = Idle \/ p = Get GetLock /\ get_mutex q <> None \/
  (exists local, p = Get (GetSwap (SwapWait local))) \/ exists m, p = Put m PutWait.
Proof.
  intros Hp. apply list_elem_of_lookup in Hp as [t Ht]. destruct (stuck_blocked t p Ht) as [Hb Hd].
  destruct (blocked _ _ _ Hb) as [->|[[r ->]|[[c H]|[[_ H]|[-> H]]]]]; [by left|by destruct (Hd r)| | |by auto].
  - destruct c, p as [|m []|[| |[]| | |]| | |]; try done; eauto 10.
  - exfalso. by apply H, stuck_put_free.
Qed.

(** A call of msgqueue_get in progress sleeps, or waits for one that does. *)
Lemma stuck_getter p : p ∈ ts -> (forall m, p <> Put m PutWait) -> p <> Idle -> some_thread (waiting get_cond) ts.
Proof.
  intros Hp Hnp Hni. destruct (stuck_waits p Hp) as [->|[[-> Hg]|[[local ->]|[m ->]]]]; [done| | |by destruct (Hnp m)].
  - destruct (get_mutex q) as [t|] eqn:E; [|done]. destruct (proj2 (inv_get_mutex _ _ _ _ _ HI) t E) as [p Ht].
    pose proof E as Hin. apply (proj1 (inv_get_mutex _ _ _ _ _ HI) t p Ht) in Hin.
    destruct (stuck_waits p) as [->|[[-> _]|[[local ->]|[m ->]]]]; try done; [by eapply list_elem_of_lookup_2|]. eexists; eauto.
  - apply list_elem_of_lookup in Hp as [t Ht]. eexists; eauto.
Qed.

Lemma stuck_quiet f : f Idle = false -> f (Get GetLock) = false -> (forall l, f (Get (GetSwap (SwapWait l))) = false) ->
  (forall m, f (Put m PutWait) = false) -> ~ some_thread f ts.
Proof.
  intros F1 F2 F3 F4 (t & p & Ht & Hp). apply list_elem_of_lookup_2 in Ht.
  destruct (stuck_waits p Ht) as [->|[[-> _]|[[local ->]|[m ->]]]]; congruence.
Qed.

Lemma stuck_empty : some_thread (waiting get_cond) ts -> msg_cnt q = 0 -> head1 q = None /\ head2 q = None.
Proof.
  pose proof stuck_put_free as Hfree. intros (t & p & Ht & Hp) Hc. destruct p as [|m []|[| |[]| | |]| | |]; try done. facts HI Ht. destruct Lg as (Eg & -> & ->).
  destruct (Fp Hfree) as [_ Hl]. destruct lp as [|m l]; [|unfold blen in Hl; cbn [length] in Hl; lia].
  pose proof (inv_get _ _ _ _ _ HI) as Hg. pose proof (inv_put _ _ _ _ _ HI) as Hpt. cbn [chain] in *.
  destruct (inv_heads _ _ _ _ _ HI) as [[-> E]|[-> E]]; rewrite E in Hpt; cbn in *; split; congruence.
Qed.

Lemma stuck_at_rest : justified q ts -> at_rest (System q ts).
Proof.
  intros [J1 J2]. assert (~ some_thread will_signal ts) as Hns by (by apply stuck_quiet).
  assert (~ some_thread will_cast ts) as Hnc by (by apply stuck_quiet).
  destruct (decide (Exists (fun p => waiting get_cond p = true) ts)) as [Hg|Hg].
  - right. left. apply Exists_exists in Hg as (p & Hp & Hw). apply list_elem_of_lookup in Hp as [t Ht].
    assert (some_thread (waiting get_cond) ts) as Hs by (by exists t, p). destruct (J1 Hs) as [[E1 E2]|]; [|done].
    destruct (stuck_empty Hs E1) as [E3 E4]. cbn [queue threads]. split; [done|]. split; [done|]. split; [done|]. split; [done|].
    intros p' Hp'. destruct (stuck_waits p' Hp') as [->|[[-> _]|[[local ->]|[m ->]]]]; eauto.
    exfalso. apply list_elem_of_lookup in Hp' as [t' Ht']. destruct J2 as [(Hf & _)|]; [by exists t', (Put m PutWait)| |done].
    unfold full, u64 in Hf. rewrite E1 in Hf. pose proof (Z.mod_pos_bound (msg_max q - 1) (2 ^ 64)). lia.
  - assert (forall p, p ∈ ts -> p = Idle \/ exists m, p = Put m PutWait) as Hall.
    { intros p Hp. destruct (stuck_waits p Hp) as [->|[[-> Hq]|[[local ->]|[m ->]]]]; [by left| | |right; by eexists]; exfalso; apply Hg.
      - destruct (stuck_getter _ Hp) as (t & p & Ht & Hw); [done..|]. apply Exists_exists. exists p. split; [by eapply list_elem_of_lookup_2|done].
      - apply Exists_exists. by eexists. }
    destruct (decide (Exists (fun p => waiting put_cond p = true) ts)) as [Hw|Hw].
    + right. right. apply Exists_exists in Hw as (p & Hp & Hw). apply list_elem_of_lookup in Hp as [t Ht].
      destruct J2 as [(E1 & E2 & _)|]; [by exists t, p| |done]. done.
    + left. intros p Hp. destruct (Hall p Hp) as [->|[m ->]]; [done|]. destruct Hw. apply Exists_exists. by eexists.
Qed.
End Stuck.

(** C23: Calls come to an end: without new calls an execution from a reachable
    state has at most [potential] steps and three for every spurious wake-up,
    whatever the interleaving; and where no thread can go on, all calls have
    returned, or the queue is empty and the rest waits in msgqueue_get, or it
    is full and the rest waits in msgqueue_put.  No wake-up is lost and there
    is no deadlock. *)
Theorem msgqueue_live (s s' : system) (ls : list label) (Hi : initial s) (He : execution s ls s') :
  (forall ls' s'', execution s' ls' s'' -> (forall t o, Call t o ∉ ls') ->
     (length ls' <= potential (threads s') + 3 * spurious ls')%nat) /\
  (stuck s' -> at_rest s').
Proof.
  split.
  - intros ls' s'' He' Hc. pose proof (execution_bound _ _ _ He' Hc). lia.
  - intros Hs. destruct (reachable_inv s ls s' Hi He) as (g & lg & lp & HI). destruct s' as [q ts].
    eapply stuck_at_rest; eauto. by apply (execution_justified _ _ _ He Hi).
Qed.

(** ** Examples

    A scheduler: [play] performs one labelled step; a signal wakes the first
    thread that waits. *)
Fixpoint wake_first (c : condition) (ts : list pc) : list pc :=
  match ts with
  | [] => []
  | p :: ts => if waiting c p then wake p :: ts else p :: wake_first c ts
  end.

Definition wake_up (w : wakeup) (ts : list pc) : list pc :=
  match w with
  | NoWake => ts
  | Signal c => wake_first c ts
  | Broadcast c => (fun p => if waiting c p then wake p else p) <$> ts
  end.

Definition callable_b (o : operation) (q : msgqueue) : bool :=
  match o with
  | OpPut msg => (0 <? msg) && (msg <? 2 ^ 64) && bool_decide (links q !! (msg + linkoff q) = None)
  | _ => true
  end.

Definition play (l : label) (s : system) : option system :=
  let (q, ts) := s in
  match l with
  | Call t o =>
      match ts !! t with
      | Some Idle => if callable_b o q then Some (System (hand_over o (Some 1) q) (<[t := start o]> ts)) else None
      | _ => None
      end
  | Return t _ =>
      match ts !! t with
      | Some (Done r) => Some (System (give_back r q) (<[t := Idle]> ts))
      | _ => None
      end
  | Run t =>
      match ts !! t with
      | Some p =>
          match thread_step t p q with
          | Ret (Some (p', q', w)) => Some (System q' (wake_up w (<[t := p']> ts)))
          | _ => None
          end
      | None => None
      end
  | Spurious _ => None
  end.

(** Every thread of the list in turn, until its call is done. *)
Fixpoint plays (ls : list label) (s : system) : option system :=
  match ls with
  | [] => Some s
  | l :: ls => match play l s with Some s => plays ls s | None => None end
  end.

Definition returned (l : label) (s : system) : label :=
  match l with
  | Return t _ => match threads s !! t with Some (Done r) => Return t r | _ => l end
  | l => l
  end.

Fixpoint labels (ls : list label) (s : system) : list label :=
  match ls with
  | [] => []
  | l :: ls => returned l s :: match play l s with Some s => labels ls s | None => [] end
  end.

Lemma wake_first_wakes c ts : wakes (Signal c) ts (wake_first c ts).
Proof.
  assert ((forall p, p ∈ ts -> waiting c p = false) /\ wake_first c ts = ts \/
    exists t p, ts !! t = Some p /\ waiting c p = true /\ wake_first c ts = <[t := wake p]> ts) as [[H ->]|(t & p & Ht & Hp & ->)].
  { induction ts as [|p ts IH]; [left; set_solver|]. cbn. destruct (waiting c p) eqn:E; [right; by exists 0%nat, p|].
    destruct IH as [[H ->]|(t & p' & Ht & Hp & ->)]; [left|right; by exists (S t), p'].
    split; [|done]. intros p' [->|H']%elem_of_cons; auto. }
  - by constructor.
  - by constructor.
Qed.

Lemma wake_up_wakes w ts : wakes w ts (wake_up w ts).
Proof. destruct w; [constructor|apply wake_first_wakes|constructor]. Qed.

Lemma play_step l s s' : play l s = Some s' -> step s (returned l s) s'.
Proof.
  destruct s as [q ts], l as [t o|t r|t|t]; cbn; [..|done].
  - destruct (ts !! t) as [[]|] eqn:Ht; try done. destruct (callable_b o q) eqn:E; [|done]. intros [= <-]. constructor; [done|].
    destruct o as [m| | |]; try done. cbn in E. zify_bool. split; [lia|]. by eapply bool_decide_eq_true_1.
  - destruct (ts !! t) as [[]|] eqn:Ht; try done. intros [= <-]. by constructor.
  - destruct (ts !! t) as [p|] eqn:Ht; [|done]. destruct (thread_step t p q) as [[[[p' q'] w]|]| |] eqn:E; try done.
    intros [= <-]. econstructor; [done|done|apply wake_up_wakes].
Qed.

Lemma plays_execution ls s s' : plays ls s = Some s' -> execution s (labels ls s) s'.
Proof.
  assert (forall s0 ls0, execution s0 ls0 s -> plays ls s = Some s' -> execution s0 (ls0 ++ labels ls s) s') as H.
  { induction ls as [|l ls IH] in s |- *; intros s0 ls0 He; cbn [plays labels].
    - intros [= <-]. by rewrite app_nil_r.
    - destruct (play l s) as [s1|] eqn:E; [|done]. intros Hp. replace (ls0 ++ returned l s :: labels ls s1)
        with ((ls0 ++ [returned l s]) ++ labels ls s1) by by rewrite <- app_assoc.
      apply (IH s1); [|done]. eapply execution_snoc; [done|]. by apply play_step. }
  intros Hp. apply (H s []); [constructor|done].
Qed.

(** Two threads on a queue for one message: the consumer falls asleep on the
    empty queue, the producer wakes it up. *)
Definition sample_start : system :=
  match msgqueue_create true (fun _ => 0) 1 8 with
  | (Some q, _, _) => System q [Idle; Idle]
  | _ => System (Msgqueue 0 0 0 0 None None Head1 Head2 Head2 None None ∅) []
  end.

Definition sample_run : list label :=
  Call 1 OpGet :: replicate 6 (Run 1) ++ Call 0 (OpPut 4096) :: replicate 8 (Run 0) ++ [Return 0 None] ++
  replicate 10 (Run 1) ++ [Return 1 None].

Definition sample_end : system := default sample_start (plays sample_run sample_start).

Example sample_plays : plays sample_run sample_start = Some sample_end.
Proof. vm_compute. reflexivity. Qed.

Example sample_history :
  history (labels sample_run sample_start) =
    [Call 1 OpGet; Call 0 (OpPut 4096); Return 0 None; Return 1 (Some 4096)].
Proof. vm_compute. reflexivity. Qed.

Lemma sample_initial : initial sample_start.
Proof. split; [by exists true, (fun _ => 0), 1, 8, 0, [PutCond; GetCond; PutMutex; GetMutex]|by repeat constructor]. Qed.

Lemma msgqueue_linearizable_witness :
  exists a, fifo_execution (Fifo [] false [Ready; Ready])
    [Call 1 OpGet; Call 0 (OpPut 4096); Return 0 None; Return 1 (Some 4096)] a.
Proof.
  rewrite <- sample_history.
  exact (msgqueue_linearizable sample_start sample_end _ sample_initial (plays_execution _ _ _ sample_plays)).
Defined.

(** The consumer asleep, the producer about to link its message. *)
Definition sample_middle : system := default sample_start (plays (take 12 sample_run) sample_start).

Lemma msgqueue_safe_witness : threads sample_middle !! 0%nat = Some (Put 4096 PutTail) /\
  returns (thread_step 0 (Put 4096 PutTail) (queue sample_middle)).
Proof.
  split; [vm_compute; reflexivity|].
  apply (msgqueue_safe sample_start sample_middle (labels (take 12 sample_run) sample_start) 0);
    [apply sample_initial|apply plays_execution|]; vm_compute; reflexivity.
Defined.

(** The consumer asleep on the empty queue. *)
Definition sample_asleep : system := default sample_start (plays (take 7 sample_run) sample_start).

Lemma msgqueue_live_witness :
  (forall ls' s'', execution sample_asleep ls' s'' -> (forall t o, Call t o ∉ ls') ->
     (length ls' <= potential (threads sample_asleep) + 3 * spurious ls')%nat) /\
  (stuck sample_asleep -> at_rest sample_asleep).
Proof.
  apply (msgqueue_live sample_start sample_asleep (labels (take 7 sample_run) sample_start)); [apply sample_initial|].
  apply plays_execution. vm_compute. reflexivity.
Defined.
