(* ===== verification/Thrdpool.v ===== *)
(** * The thread pool

    workflow/src/linux/kernel/thrdpool.c: threads that take tasks from a
    message queue.  The pool may be destroyed from outside or by one of its
    own tasks; the threads that end join each other in a chain, and whoever
    destroys the pool joins the last one.

    Threads interleave at every access to the pool.  A thread is a client of
    the pool or runs [__thrdpool_routine]; either may be inside a call of the
    interface.  The queue is the first-in-first-out queue that [Msgqueue]
    proves its implementation to be: one atomic [effect] per call.  Threads,
    mutex and condition behave as POSIX says, spurious wake-ups included; a
    thread is named by its place in the list of all threads, the zero
    [pthread_t] is [None].  [Oob] stands for everything that must not happen:
    access to memory or objects that are gone, joining a thread twice or
    joining a detached one, unlocking the mutex of another thread, signalling
    a condition that is not there any more. *)

From stdpp Require Import gmap.
From S2P Require Import Prelude Msgqueue.

#[local] Open Scope Z_scope.

(** ** The pool and its threads *)

Inductive resource := PoolMemory | PoolQueue | PoolMutex | PoolKey.

#[export] Instance resource_eq : EqDecision resource.
Proof. solve_decision. Defined.

Record thrdpool := Thrdpool {
  nthreads : Z;
  tid : option nat;
  mutex : option nat;        (* the thread that holds it *)
  terminate : option nat     (* the thread whose frame holds the condition *)
}.

(** The next statement of [__thrdpool_routine], with its local variables. *)
Inductive routine_pc :=
| RoutineStart
| RoutineTest
| RoutineGet
| RoutineFree (entry : Z)
| RoutineTask (task : Z)
| RoutineCheck
| RoutineRelease
| RoutineLock
| RoutineSave
| RoutineSet (old : option nat)
| RoutineCount (old : option nat)
| RoutineSignal (old : option nat)
| RoutineUnlock (old : option nat)
| RoutineJoin (old : nat).

Inductive term_pc :=
| TermLock
| TermNonblock
| TermSet
| TermDetach
| TermCount
| TermTest
| TermWait
| TermWake
| TermUnlock
| TermTid
| TermJoin (last : nat).

(** Who called [__thrdpool_terminate], and so who cleans up. *)
Inductive frame := InCreate | InDestroy (in_pool : bool).

Inductive call_pc :=
| ScheduleMalloc (task : Z)
| ScheduleStore (task buf : Z)
| SchedulePut (buf : Z)
| IncreaseAttr
| IncreaseLock
| IncreaseCreate
| IncreaseCount
| IncreaseUnlock (ret : Z)
| CreateMalloc (n : Z)
| CreateQueue (n : Z)
| CreateMutex (n : Z)
| CreateKey (n : Z)
| CreateFields (n : Z)
| CreateAttr (n : Z)
| CreateThread (n : Z)
| CreateCount (n : Z)
| CreateEnd (n : Z)
| DestroyTest
| Terminate (f : frame) (p : term_pc)
| DestroyGet (in_pool : bool)
| DestroyPending (in_pool : bool) (entry : Z)
| DeleteKey (f : frame)
| DestroyMutex (f : frame)
| DestroyQueue (f : frame)
| FreePool (f : frame)
| Returned (r : Z).

Inductive work_pc := Client | Routine (p : routine_pc) | Ended.
Inductive lifetime := Joinable | Detached | Joined.

Record thread := Thread {
  work : work_pc;
  call : option call_pc;
  life : lifetime;
  specific : bool            (* pthread_getspecific(pool->key) == pool *)
}.

(** What the users of the pool know about it. *)
Inductive stage := Absent | Creating (t : nat) | Open | Closing (t : nat) | Gone (t : nat).

(** [entries] is the memory of the task entries, [None] while it is not
    written.  The last four fields are history: the tasks that were put into
    the queue, taken from it, begun by a thread of the pool and handed to
    [pending]. *)
Record state := State {
  resources : list resource;
  pool : thrdpool;
  messages : list Z * bool;
  entries : gmap Z (option Z);
  pthreads : list thread;
  phase : stage;
  scheduled : list Z;
  taken : list Z;
  begun : list Z;
  handed : list Z
}.

Definition set_resources v s := State v (pool s) (messages s) (entries s) (pthreads s) (phase s) (scheduled s) (taken s) (begun s) (handed s).
Definition set_pool v s := State (resources s) v (messages s) (entries s) (pthreads s) (phase s) (scheduled s) (taken s) (begun s) (handed s).
Definition set_messages v s := State (resources s) (pool s) v (entries s) (pthreads s) (phase s) (scheduled s) (taken s) (begun s) (handed s).
Definition set_entries v s := State (resources s) (pool s) (messages s) v (pthreads s) (phase s) (scheduled s) (taken s) (begun s) (handed s).
Definition set_pthreads v s := State (resources s) (pool s) (messages s) (entries s) v (phase s) (scheduled s) (taken s) (begun s) (handed s).
Definition set_phase v s := State (resources s) (pool s) (messages s) (entries s) (pthreads s) v (scheduled s) (taken s) (begun s) (handed s).
Definition log_put v s := State (resources s) (pool s) (messages s) (entries s) (pthreads s) (phase s) (scheduled s ++ [v]) (taken s) (begun s) (handed s).
Definition log_take v s := State (resources s) (pool s) (messages s) (entries s) (pthreads s) (phase s) (scheduled s) (taken s ++ [v]) (begun s) (handed s).
Definition log_begin v s := State (resources s) (pool s) (messages s) (entries s) (pthreads s) (phase s) (scheduled s) (taken s) (begun s ++ [v]) (handed s).
Definition log_hand v s := State (resources s) (pool s) (messages s) (entries s) (pthreads s) (phase s) (scheduled s) (taken s) (begun s) (handed s ++ [v]).

Definition set_nthreads v p := Thrdpool v (tid p) (mutex p) (terminate p).
Definition set_tid v p := Thrdpool (nthreads p) v (mutex p) (terminate p).
Definition set_mutex v p := Thrdpool (nthreads p) (tid p) v (terminate p).
Definition set_terminate v p := Thrdpool (nthreads p) (tid p) (mutex p) v.

Definition set_work v th := Thread v (call th) (life th) (specific th).
Definition set_call v th := Thread (work th) v (life th) (specific th).
Definition set_life v th := Thread (work th) (call th) v (specific th).
Definition set_specific v th := Thread (work th) (call th) (life th) v.

Fixpoint remove_one (r : resource) (l : list resource) : list resource :=
  match l with
  | [] => []
  | x :: l => if decide (x = r) then l else x :: remove_one r l
  end.

(** An access to the pool, or to an object in it. *)
Definition has (r : resource) (s : state) : bool := bool_decide (r ∈ resources s).

Definition needs {A} (r : resource) (s : state) (k : comp A) : comp A := if has r s then k else Oob.

(** *** Locks, threads, conditions *)

(** The result of a statement: the thread and the rest of the state after it,
    or [None] while the thread has to wait. *)
Definition stepped : Type := comp (option (thread * state)).

Definition goes (th : thread) (s : state) : stepped := Ret (Some (th, s)).
Definition blocked : stepped := Ret None.

Definition pthread_mutex_lock (t : nat) (s : state) : comp (option state) :=
  needs PoolMemory s (needs PoolMutex s
    match mutex (pool s) with
    | None => Ret (Some (set_pool (set_mutex (Some t) (pool s)) s))
    | Some _ => Ret None
    end).

Definition pthread_mutex_unlock (t : nat) (s : state) : comp state :=
  needs PoolMemory s (needs PoolMutex s
    (if bool_decide (mutex (pool s) = Some t) then Ret (set_pool (set_mutex None (pool s)) s) else Oob)).

Definition pthread_create (s : state) : state :=
  set_pthreads (pthreads s ++ [Thread (Routine RoutineStart) None Joinable false]) s.

(** Whether the thread [u] can be joined now. *)
Definition pthread_join (t u : nat) (s : state) : comp (option state) :=
  if decide (u = t) then Oob
  else
    match pthreads s !! u with
    | Some th =>
        match life th, work th with
        | Joinable, Ended => Ret (Some (set_pthreads (<[u := set_life Joined th]> (pthreads s)) s))
        | Joinable, _ => Ret None
        | _, _ => Oob
        end
    | None => Oob
    end.

(** [pthread_cond_signal(pool->terminate)]: the condition is a variable of
    [__thrdpool_terminate], so this function must not have returned. *)
Definition pthread_cond_signal (s : state) : comp state :=
  match terminate (pool s) with
  | None => Oob
  | Some d =>
      match pthreads s !! d with
      | Some th =>
          match call th with
          | Some (Terminate f TermWait) => Ret (set_pthreads (<[d := set_call (Some (Terminate f TermWake)) th]> (pthreads s)) s)
          | Some (Terminate _ _) => Ret s
          | _ => Oob
          end
      | None => Oob
      end
  end.

(** *** The queue and the entries *)

Definition queue_put (m : Z) (q : list Z * bool) : list Z * bool := (q.1 ++ [m], q.2).

Definition queue_get (q : list Z * bool) : option (option Z * (list Z * bool)) :=
  match q with
  | (m :: l, b) => Some (Some m, (l, b))
  | ([], true) => Some (None, ([], true))
  | ([], false) => None
  end.

(** They are the atomic operations that [Msgqueue] refines, [msgqueue_get]
    waiting where there is none; the maximum length is [(size_t)-1], so
    [msgqueue_put] never waits. *)
Lemma queue_put_effect m q : effect (OpPut m) q (queue_put m q) None.
Proof. destruct q. constructor. Qed.

Lemma queue_get_effect q q' r : queue_get q = Some (r, q') <-> effect OpGet q q' r.
Proof.
  split.
  - destruct q as [[|m l] []]; cbn; try done; intros [= <- <-]; constructor.
  - intros H. by inversion H.
Qed.

Lemma queue_nonblock_effect q : effect OpNonblock q (q.1, true) None.
Proof. destruct q. constructor. Qed.

(** The task in an entry that is in use and written. *)
Definition task_of (e : gmap Z (option Z)) (entry : Z) : comp Z :=
  match e !! entry with Some (Some task) => Ret task | _ => Oob end.

(** The same for the history, which does not stop the program. *)
Definition task_in (e : gmap Z (option Z)) (entry : Z) : Z := default 0 (default None (e !! entry)).

(** msgqueue_get: waits while the queue is empty and blocking. *)
Definition get (s : state) (found : Z -> state -> stepped) (empty : state -> stepped) : stepped :=
  needs PoolMemory s (needs PoolQueue s
    match queue_get (messages s) with
    | None => blocked
    | Some (None, q) => empty (set_messages q s)
    | Some (Some e, q) => found e (log_take (task_in (entries s) e) (set_messages q s))
    end).

(** [free] of an entry. *)
Definition free_entry (entry : Z) (s : state) : comp state :=
  match entries s !! entry with
  | Some _ => Ret (set_entries (delete entry (entries s)) s)
  | None => Oob
  end.

(** *** The statements

    What the system answers to a statement is a choice: whether a call
    succeeds, and the address [malloc] returns. *)
Record choice := Choice { success : bool; address : option Z }.

Definition at_call (pc : call_pc) (th : thread) : thread := set_call (Some pc) th.
Definition at_work (pc : routine_pc) (th : thread) : thread := set_work (Routine pc) th.

(** __thrdpool_routine *)
Definition routine_step (t : nat) (p : routine_pc) (th : thread) (s : state) : stepped :=
  match p with
  | RoutineStart => needs PoolMemory s (needs PoolKey s (goes (at_work RoutineTest (set_specific true th)) s))
  | RoutineTest =>
      needs PoolMemory s
        (goes (at_work (match terminate (pool s) with None => RoutineGet | Some _ => RoutineLock end) th) s)
  | RoutineGet => get s (fun e s => goes (at_work (RoutineFree e) th) s) (fun s => goes (at_work RoutineLock th) s)
  | RoutineFree entry =>
      let! task := task_of (entries s) entry in
      let! s := free_entry entry s in
      goes (at_work (RoutineTask task) th) (log_begin task s)
  | RoutineTask _ => blocked
  | RoutineCheck =>
      needs PoolMemory s (goes (at_work (if nthreads (pool s) =? 0 then RoutineRelease else RoutineTest) th) s)
  | RoutineRelease =>
      needs PoolMemory s (goes (set_work Ended th) (set_resources (remove_one PoolMemory (resources s)) s))
  | RoutineLock =>
      let! r := pthread_mutex_lock t s in
      match r with Some s => goes (at_work RoutineSave th) s | None => blocked end
  | RoutineSave => needs PoolMemory s (goes (at_work (RoutineSet (tid (pool s))) th) s)
  | RoutineSet old => needs PoolMemory s (goes (at_work (RoutineCount old) th) (set_pool (set_tid (Some t) (pool s)) s))
  | RoutineCount old =>
      needs PoolMemory s
        (let n := u64 (nthreads (pool s) - 1) in
         goes (at_work (if n =? 0 then RoutineSignal old else RoutineUnlock old) th) (set_pool (set_nthreads n (pool s)) s))
  | RoutineSignal old =>
      needs PoolMemory s (let! s := pthread_cond_signal s in goes (at_work (RoutineUnlock old) th) s)
  | RoutineUnlock old =>
      let! s := pthread_mutex_unlock t s in
      match old with
      | Some u => goes (at_work (RoutineJoin u) th) s
      | None => goes (set_work Ended th) s
      end
  | RoutineJoin old =>
      let! r := pthread_join t old s in
      match r with Some s => goes (set_work Ended th) s | None => blocked end
  end.

(** What follows __thrdpool_terminate. *)
Definition after_terminate (f : frame) : call_pc :=
  match f with InCreate => DeleteKey InCreate | InDestroy b => DestroyGet b end.

(** __thrdpool_terminate *)
Definition term_step (t : nat) (f : frame) (p : term_pc) (th : thread) (s : state) : stepped :=
  let next p := at_call (Terminate f p) th in
  match p with
  | TermLock =>
      let! r := pthread_mutex_lock t s in
      match r with Some s => goes (next TermNonblock) s | None => blocked end
  | TermNonblock =>
      needs PoolMemory s (needs PoolQueue s (goes (next TermSet) (set_messages ((messages s).1, true) s)))
  | TermSet =>
      needs PoolMemory s
        (goes (next (match f with InDestroy true => TermDetach | _ => TermTest end))
           (set_pool (set_terminate (Some t) (pool s)) s))
  | TermDetach =>
      match life th with
      | Joinable => goes (set_life Detached (next TermCount)) s
      | _ => Oob
      end
  | TermCount =>
      needs PoolMemory s (goes (next TermTest) (set_pool (set_nthreads (u64 (nthreads (pool s) - 1)) (pool s)) s))
  | TermTest =>
      needs PoolMemory s
        (if 0 <? nthreads (pool s)
         then let! s := pthread_mutex_unlock t s in goes (next TermWait) s
         else goes (next TermUnlock) s)
  | TermWait => blocked
  | TermWake =>
      let! r := pthread_mutex_lock t s in
      match r with Some s => goes (next TermTest) s | None => blocked end
  | TermUnlock => let! s := pthread_mutex_unlock t s in goes (next TermTid) s
  | TermTid =>
      needs PoolMemory s
        (goes (match tid (pool s) with Some u => next (TermJoin u) | None => at_call (after_terminate f) th end) s)
  | TermJoin last =>
      let! r := pthread_join t last s in
      match r with Some s => goes (at_call (after_terminate f) th) s | None => blocked end
  end.

(** What thrdpool_create and thrdpool_destroy release at the end. *)
Definition release_step (r : resource) (pc : call_pc) (th : thread) (s : state) : stepped :=
  needs PoolMemory s (needs r s (goes (at_call pc th) (set_resources (remove_one r (resources s)) s))).

Definition return_of (f : frame) : Z := match f with InCreate => -1 | InDestroy _ => 0 end.

(** thrdpool_schedule *)
Definition schedule_step (c : choice) (pc : call_pc) (th : thread) (s : state) : stepped :=
  match pc with
  | ScheduleMalloc task =>
      match address c with
      | Some a =>
          if bool_decide (entries s !! a = None)
          then goes (at_call (ScheduleStore task a) th) (set_entries (<[a := None]> (entries s)) s)
          else blocked
      | None => goes (at_call (Returned (-1)) th) s
      end
  | ScheduleStore task buf =>
      match entries s !! buf with
      | Some _ => goes (at_call (SchedulePut buf) th) (set_entries (<[buf := Some task]> (entries s)) s)
      | None => Oob
      end
  | SchedulePut buf =>
      needs PoolMemory s (needs PoolQueue s
        (goes (at_call (Returned 0) th) (log_put (task_in (entries s) buf) (set_messages (queue_put buf (messages s)) s))))
  | _ => blocked
  end.

(** thrdpool_increase *)
Definition increase_step (t : nat) (c : choice) (pc : call_pc) (th : thread) (s : state) : stepped :=
  match pc with
  | IncreaseAttr => goes (at_call (if success c then IncreaseLock else Returned (-1)) th) s
  | IncreaseLock =>
      let! r := pthread_mutex_lock t s in
      match r with Some s => goes (at_call IncreaseCreate th) s | None => blocked end
  | IncreaseCreate =>
      if success c then goes (at_call IncreaseCount th) (pthread_create s) else goes (at_call (IncreaseUnlock (-1)) th) s
  | IncreaseCount =>
      needs PoolMemory s
        (goes (at_call (IncreaseUnlock 0) th) (set_pool (set_nthreads (u64 (nthreads (pool s) + 1)) (pool s)) s))
  | IncreaseUnlock ret => let! s := pthread_mutex_unlock t s in goes (at_call (Returned ret) th) s
  | _ => blocked
  end.

(** thrdpool_create and __thrdpool_create_threads; what malloc returns is not
    initialised, so the fields keep what they had. *)
Definition create_step (c : choice) (pc : call_pc) (th : thread) (s : state) : stepped :=
  let acquire r next :=
    goes (at_call next th) (set_resources (r :: resources s) s) in
  match pc with
  | CreateMalloc n => if success c then acquire PoolMemory (CreateQueue n) else goes (at_call (Returned (-1)) th) s
  | CreateQueue n =>
      needs PoolMemory s
        (if success c
         then goes (at_call (CreateMutex n) th) (set_messages ([], false) (set_resources (PoolQueue :: resources s) s))
         else goes (at_call (FreePool InCreate) th) s)
  | CreateMutex n =>
      needs PoolMemory s
        (if success c
         then goes (at_call (CreateKey n) th) (set_pool (set_mutex None (pool s)) (set_resources (PoolMutex :: resources s) s))
         else goes (at_call (DestroyQueue InCreate) th) s)
  | CreateKey n =>
      needs PoolMemory s
        (if success c then acquire PoolKey (CreateFields n) else goes (at_call (DestroyMutex InCreate) th) s)
  | CreateFields n =>
      needs PoolMemory s
        (goes (at_call (CreateAttr n) th) (set_pool (set_nthreads 0 (set_tid None (set_terminate None (pool s)))) s))
  | CreateAttr n => goes (at_call (if success c then CreateThread n else DeleteKey InCreate) th) s
  | CreateThread n =>
      needs PoolMemory s
        (if nthreads (pool s) <? n
         then if success c then goes (at_call (CreateCount n) th) (pthread_create s) else goes (at_call (CreateEnd n) th) s
         else goes (at_call (CreateEnd n) th) s)
  | CreateCount n =>
      needs PoolMemory s
        (goes (at_call (CreateThread n) th) (set_pool (set_nthreads (u64 (nthreads (pool s) + 1)) (pool s)) s))
  | CreateEnd n =>
      needs PoolMemory s
        (goes (at_call (if nthreads (pool s) =? n then Returned 0 else Terminate InCreate TermLock) th) s)
  | _ => blocked
  end.

(** thrdpool_destroy, and the end of thrdpool_create when it fails *)
Definition destroy_step (pc : call_pc) (th : thread) (s : state) : stepped :=
  match pc with
  | DestroyTest =>
      needs PoolMemory s (needs PoolKey s (goes (at_call (Terminate (InDestroy (specific th)) TermLock) th) s))
  | DestroyGet b =>
      get s (fun e s => goes (at_call (DestroyPending b e) th) s) (fun s => goes (at_call (DeleteKey (InDestroy b)) th) s)
  | DestroyPending b entry =>
      let! task := task_of (entries s) entry in
      let! s := free_entry entry s in
      goes (at_call (DestroyGet b) th) (log_hand task s)
  | DeleteKey f => release_step PoolKey (DestroyMutex f) th s
  | DestroyMutex f => release_step PoolMutex (DestroyQueue f) th s
  | DestroyQueue f => release_step PoolQueue (FreePool f) th s
  | FreePool f =>
      match f with
      | InDestroy true => goes (at_call (Returned 0) th) s
      | _ =>
          needs PoolMemory s
            (goes (at_call (Returned (return_of f)) th) (set_resources (remove_one PoolMemory (resources s)) s))
      end
  | _ => blocked
  end.

Definition call_step (t : nat) (c : choice) (pc : call_pc) (th : thread) (s : state) : stepped :=
  match pc with
  | ScheduleMalloc _ | ScheduleStore _ _ | SchedulePut _ => schedule_step c pc th s
  | IncreaseAttr | IncreaseLock | IncreaseCreate | IncreaseCount | IncreaseUnlock _ => increase_step t c pc th s
  | CreateMalloc _ | CreateQueue _ | CreateMutex _ | CreateKey _ | CreateFields _ | CreateAttr _ | CreateThread _
  | CreateCount _ | CreateEnd _ => create_step c pc th s
  | Terminate f p => term_step t f p th s
  | DestroyTest | DestroyGet _ | DestroyPending _ _ | DeleteKey _ | DestroyMutex _ | DestroyQueue _ | FreePool _ =>
      destroy_step pc th s
  | Returned _ => blocked
  end.

(** One statement of a thread: of the call it is in, or of its routine. *)
Definition thread_step (t : nat) (c : choice) (th : thread) (s : state) : stepped :=
  match call th with
  | Some pc => call_step t c pc th s
  | None => match work th with Routine p => routine_step t p th s | _ => blocked end
  end.

(** ** Executions

    The users call the interface, return, end their tasks; the threads run.
    A call is possible where the contract of the interface allows it: from a
    client or from a task, one pool, no call of a client during or after
    [thrdpool_destroy]; tasks that still run may go on to schedule and to
    increase.  A client may increase a pool that has a thread; see
    [thrdpool_increase_empty]. *)

Inductive operation := PoolCreate (n : Z) | PoolSchedule (task : Z) | PoolIncrease | PoolDestroy.

Definition start (o : operation) : call_pc :=
  match o with
  | PoolCreate n => CreateMalloc n
  | PoolSchedule task => ScheduleMalloc task
  | PoolIncrease => IncreaseAttr
  | PoolDestroy => DestroyTest
  end.

Definition is_task (th : thread) : bool := match work th with Routine (RoutineTask _) => true | _ => false end.
Definition is_client (th : thread) : bool := match work th with Client => true | _ => false end.
Definition idle (th : thread) : bool := match call th with None => true | Some _ => false end.

Definition opened (t : nat) (th : thread) (s : state) : bool :=
  match phase s with
  | Open => true
  | Closing d => is_task th && negb (bool_decide (d = t))
  | _ => false
  end.

Definition quiet (th : thread) : bool := is_client th && idle th.

Definition callable (t : nat) (o : operation) (th : thread) (s : state) : bool :=
  idle th && (is_client th || is_task th) &&
  match o with
  | PoolCreate n => match phase s with Absent => (0 <=? n) && (n <? 2 ^ 64) | _ => false end
  | PoolSchedule _ => opened t th s
  | PoolIncrease => opened t th s && (is_task th || (0 <? nthreads (pool s)))
  | PoolDestroy =>
      match phase s with
      | Open => forallb (fun u => negb (is_client u) || idle u) (pthreads s)
      | _ => false
      end
  end.

(** What the users know after a call and after a return. *)
Definition called (t : nat) (o : operation) (s : state) : state :=
  match o with
  | PoolCreate _ => set_phase (Creating t) s
  | PoolDestroy => set_phase (Closing t) s
  | _ => s
  end.

Definition returned (t : nat) (r : Z) (s : state) : state :=
  match phase s with
  | Creating d => if bool_decide (d = t) then set_phase (if r =? 0 then Open else Gone t) s else s
  | Closing d => if bool_decide (d = t) then set_phase (Gone t) s else s
  | _ => s
  end.

Definition set_thread (t : nat) (th : thread) (s : state) : state := set_pthreads (<[t := th]> (pthreads s)) s.

Inductive event :=
| EvCall (t : nat) (o : operation)
| EvReturn (t : nat) (r : Z)
| EvTaskEnd (t : nat)
| EvRun (t : nat) (c : choice)
| EvSpurious (t : nat).

Inductive moves : state -> event -> state -> Prop :=
| moves_call t o th s : pthreads s !! t = Some th -> callable t o th s = true ->
    moves s (EvCall t o) (set_thread t (at_call (start o) th) (called t o s))
| moves_return t r th s : pthreads s !! t = Some th -> call th = Some (Returned r) ->
    moves s (EvReturn t r) (set_thread t (set_call None th) (returned t r s))
| moves_end t th s : pthreads s !! t = Some th -> idle th = true -> is_task th = true ->
    moves s (EvTaskEnd t) (set_thread t (at_work RoutineCheck th) s)
| moves_run t c th th' s s' : pthreads s !! t = Some th -> thread_step t c th s = Ret (Some (th', s')) ->
    moves s (EvRun t c) (set_thread t th' s')
| moves_spurious t f th s : pthreads s !! t = Some th -> call th = Some (Terminate f TermWait) ->
    moves s (EvSpurious t) (set_thread t (at_call (Terminate f TermWake) th) s).

Inductive run : state -> list event -> state -> Prop :=
| run_nil s : run s [] s
| run_snoc s ls s1 l s2 : run s ls s1 -> moves s1 l s2 -> run s (ls ++ [l]) s2.

Definition initial_state (s : state) : Prop :=
  resources s = [] /\ entries s = ∅ /\ phase s = Absent /\ mutex (pool s) = None /\ messages s = ([], false) /\
  Forall (fun th => th = Thread Client None Joinable false) (pthreads s) /\
  scheduled s = [] /\ taken s = [] /\ begun s = [] /\ handed s = [].
