(* ===== verification/ThrdpoolInv.v ===== *)
(** * The thread pool: the invariant

    What holds in every state that an execution of [Thrdpool] reaches
    ([sound]), and that it survives the statements of the users and of the
    threads of the pool.  [ThrdpoolSafe] has the thread that creates or
    destroys the pool, and the theorems. *)

From stdpp Require Import gmap.
From S2P Require Import Prelude Msgqueue Thrdpool.

#[local] Open Scope Z_scope.
#[local] Set Warnings "-clear-no-such-hyp".

(** ** Where the pool stands

    The level follows from the stage and from the statement of the thread
    that creates or destroys the pool. *)

Inductive level := Setup | Serving | Marked | Waiting | Draining | Finished.

Definition level_term (p : term_pc) : level :=
  match p with
  | TermLock | TermNonblock => Serving
  | TermSet => Marked
  | TermDetach | TermCount | TermTest | TermWait | TermWake => Waiting
  | TermUnlock | TermTid | TermJoin _ => Draining
  end.

Definition level_create (pc : call_pc) : level :=
  match pc with
  | CreateMalloc _ | CreateQueue _ | CreateMutex _ | CreateKey _ | CreateFields _ | CreateAttr _ => Setup
  | CreateThread _ | CreateCount _ | CreateEnd _ => Serving
  | Terminate _ p => level_term p
  | Returned r => if r =? 0 then Serving else Finished
  | _ => Finished
  end.

Definition level_destroy (pc : call_pc) : level :=
  match pc with
  | DestroyTest => Serving
  | Terminate _ p => level_term p
  | _ => Finished
  end.

Definition call_at (s : state) (t : nat) : option call_pc := pthreads s !! t ≫= call.

Definition level_of (s : state) : level :=
  match phase s with
  | Absent => Setup
  | Creating d => from_option level_create Finished (call_at s d)
  | Open => Serving
  | Closing d => from_option level_destroy Finished (call_at s d)
  | Gone _ => Finished
  end.

Definition owner (ph : stage) : option nat :=
  match ph with Creating d | Closing d | Gone d => Some d | _ => None end.

(** ** What holds of one thread *)

(** The statements of a thread of the pool, by level. *)
Definition routine_ok (lv : level) (p : routine_pc) : bool :=
  match lv, p with
  | (Serving | Marked | Waiting), (RoutineStart | RoutineTest | RoutineGet | RoutineFree _ | RoutineTask _ | RoutineCheck) => true
  | (Marked | Waiting), RoutineLock => true
  | Waiting, (RoutineSave | RoutineSet _ | RoutineCount _ | RoutineSignal _ | RoutineUnlock _ | RoutineJoin _) => true
  | Draining, RoutineJoin _ => true
  | _, _ => false
  end.

Definition touches_task (p : routine_pc) : bool :=
  match p with RoutineFree _ | RoutineTask _ | RoutineCheck => true | _ => false end.

(** The calls of the users of the pool, of the creator, of the destroyer. *)
Definition use_pc (pc : call_pc) : bool :=
  match pc with
  | ScheduleMalloc _ | ScheduleStore _ _ | SchedulePut _
  | IncreaseAttr | IncreaseLock | IncreaseCreate | IncreaseCount | IncreaseUnlock _ | Returned _ => true
  | _ => false
  end.

Definition increase_pc (pc : call_pc) : bool :=
  match pc with IncreaseAttr | IncreaseLock | IncreaseCreate | IncreaseCount | IncreaseUnlock _ => true | _ => false end.

Definition in_pool_pc (p : term_pc) : bool := match p with TermDetach | TermCount => true | _ => false end.

Definition create_pc (pc : call_pc) : bool :=
  match pc with
  | CreateMalloc n | CreateQueue n | CreateMutex n | CreateKey n | CreateFields n | CreateAttr n | CreateThread n
  | CreateCount n | CreateEnd n => (0 <=? n) && (n <? 2 ^ 64)
  | Terminate InCreate p => negb (in_pool_pc p)
  | DeleteKey InCreate | DestroyMutex InCreate | DestroyQueue InCreate | FreePool InCreate | Returned _ => true
  | _ => false
  end.

Definition destroy_pc (b : bool) (pc : call_pc) : bool :=
  match pc with
  | DestroyTest | Returned _ => true
  | Terminate (InDestroy b') p => eqb b b' && (b || negb (in_pool_pc p))
  | DeleteKey (InDestroy b') | DestroyMutex (InDestroy b') | DestroyQueue (InDestroy b') | FreePool (InDestroy b')
  | DestroyGet b' | DestroyPending b' _ => eqb b b'
  | _ => false
  end.

(** Whether the destroying task has detached itself, and uncounted itself. *)
Definition detached_pc (pc : call_pc) : bool :=
  match pc with
  | DestroyTest | Terminate _ (TermLock | TermNonblock | TermSet | TermDetach) => false
  | _ => true
  end.

Definition client_ok (ph : stage) (n : Z) (t : nat) (c : option call_pc) : Prop :=
  match c with
  | None => match ph with Creating d | Closing d => d <> t | _ => True end
  | Some pc =>
      match ph with
      | Creating d => d = t /\ create_pc pc = true
      | Open => use_pc pc = true /\ (increase_pc pc = true -> 0 < n)
      | Closing d => d = t /\ destroy_pc false pc = true
      | _ => False
      end
  end.

(** A thread of the pool that is not the one that destroys it. *)
Definition worker_ok (ph : stage) (lv : level) (p : routine_pc) (c : option call_pc) : Prop :=
  routine_ok lv p = true /\
  match ph with Creating _ => touches_task p = false | Absent => False | _ => True end /\
  match c with None => True | Some pc => use_pc pc = true /\ exists task, p = RoutineTask task end.

Definition is_start (p : routine_pc) : bool := match p with RoutineStart => true | _ => false end.

Definition routine_fine (ph : stage) (lv : level) (t : nat) (p : routine_pc) (th : thread) : Prop :=
  match ph with
  | Creating d => d <> t /\ life th = Joinable /\ worker_ok ph lv p (call th)
  | Closing d =>
      (d <> t /\ life th = Joinable /\ worker_ok ph lv p (call th)) \/
      (d = t /\ exists task pc, p = RoutineTask task /\ call th = Some pc /\ destroy_pc true pc = true /\
         life th = if detached_pc pc then Detached else Joinable)
  | Gone d =>
      d = t /\ call th = None /\ life th = Detached /\
      match p with RoutineTask _ | RoutineCheck | RoutineRelease => True | _ => False end
  | _ => life th = Joinable /\ worker_ok ph lv p (call th)
  end.

Definition fine (ph : stage) (lv : level) (n : Z) (t : nat) (th : thread) : Prop :=
  match work th with
  | Client => life th = Joinable /\ specific th = false /\ client_ok ph n t (call th)
  | Routine p => specific th = negb (is_start p) /\ routine_fine ph lv t p th
  | Ended =>
      call th = None /\ lv <> Setup /\
      match life th with
      | Detached => ph = Gone t
      | _ => match ph with Absent => False | Creating d | Closing d => d <> t | _ => True end
      end
  end.

(** ** What holds of the state *)

Definition critical_call (pc : call_pc) : bool :=
  match pc with
  | IncreaseCreate | IncreaseCount | IncreaseUnlock _
  | Terminate _ (TermNonblock | TermSet | TermDetach | TermCount | TermTest | TermUnlock) => true
  | _ => false
  end.

Definition critical_routine (p : routine_pc) : bool :=
  match p with
  | RoutineSave | RoutineSet _ | RoutineCount _ | RoutineSignal _ | RoutineUnlock _ => true
  | _ => false
  end.

(** Whether the next statement is in a critical section. *)
Definition critical (th : thread) : bool :=
  match call th with
  | Some pc => critical_call pc
  | None => match work th with Routine p => critical_routine p | _ => false end
  end.

Definition all_resources : list resource := [PoolKey; PoolMutex; PoolQueue; PoolMemory].

Definition resources_at (pc : call_pc) : list resource :=
  match pc with
  | CreateMalloc _ => []
  | CreateQueue _ | FreePool _ => [PoolMemory]
  | CreateMutex _ | DestroyQueue _ => [PoolQueue; PoolMemory]
  | CreateKey _ | DestroyMutex _ => [PoolMutex; PoolQueue; PoolMemory]
  | _ => all_resources
  end.

Definition resources_of (s : state) : list resource :=
  match phase s with
  | Absent => []
  | Creating d =>
      match call_at s d with
      | Some (Returned r) => if r =? 0 then all_resources else []
      | Some pc => resources_at pc
      | None => []
      end
  | Open => all_resources
  | Closing d =>
      match call_at s d with
      | Some (Returned _) => if from_option is_task false (pthreads s !! d) then [PoolMemory] else []
      | Some pc => resources_at pc
      | None => []
      end
  | Gone d => match work <$> pthreads s !! d with Some (Routine _) => [PoolMemory] | _ => [] end
  end.

(** From when on the fields of the pool are set. *)
Definition counted (s : state) : bool :=
  match phase s with
  | Absent => false
  | Creating d =>
      match call_at s d with
      | Some (CreateAttr _ | CreateThread _ | CreateCount _ | CreateEnd _ | Terminate _ _) => true
      | Some (Returned r) => r =? 0
      | _ => false
      end
  | Open | Closing _ => true
  | Gone d => match work <$> pthreads s !! d with Some (Routine _) => true | _ => false end
  end.

(** [nthreads] and [terminate] by level. *)
Definition level_ok (lv : level) (cd : bool) (ph : stage) (m : list Z * bool) (p : thrdpool) : Prop :=
  match lv with
  | Setup => m.2 = false /\ (cd = true -> terminate p = None)
  | Serving => m.2 = false /\ terminate p = None
  | Marked => m.2 = true /\ terminate p = None
  | Waiting | Draining => m.2 = true /\ terminate p = owner ph
  | Finished => match ph with Closing _ => m.2 = true | _ => True end
  end.

(** A thread that exists but is not counted yet, and one that counts. *)
Definition counting (th : thread) : nat :=
  match call th with Some (IncreaseCount | CreateCount _) => 1 | _ => 0 end.

Definition before_count (p : routine_pc) : bool :=
  match p with RoutineSignal _ | RoutineUnlock _ | RoutineJoin _ => false | _ => true end.

Definition counted_out (th : thread) : bool :=
  match life th, call th with
  | Detached, Some (Terminate _ TermCount) => false
  | Detached, _ => true
  | _, _ => false
  end.

Definition alive (th : thread) : nat :=
  match work th with
  | Routine p => if before_count p && negb (counted_out th) then 1 else 0
  | _ => 0
  end.

Definition total (f : thread -> nat) (ts : list thread) : Z := Z.of_nat (sum_list_with f ts).

(** *** The chain of joins

    The threads that have put themselves into [pool->tid], the last one
    first; each joins the next one of the list. *)
Definition exited (th : thread) : bool :=
  match work th, life th with
  | Routine (RoutineCount _ | RoutineSignal _ | RoutineUnlock _ | RoutineJoin _), _ => true
  | Ended, Detached => false
  | Ended, _ => true
  | _, _ => false
  end.

Definition living (l : lifetime) (ts : list thread) (u : option nat) : Prop :=
  match u with Some u => exists th, ts !! u = Some th /\ life th = l | None => True end.

Definition link_ok (ts : list thread) (prev : option nat) (th : thread) : Prop :=
  match work th with
  | Routine (RoutineCount old | RoutineSignal old | RoutineUnlock old) => old = prev /\ living Joinable ts prev
  | Routine (RoutineJoin old) => Some old = prev /\ living Joinable ts prev
  | _ => living Joined ts prev
  end.

Record chained (s : state) (ch : list nat) : Prop := {
  chain_nodup : NoDup ch;
  chain_exited t : t ∈ ch <-> exists th, pthreads s !! t = Some th /\ exited th = true;
  chain_tid : counted s = true -> tid (pool s) = head ch;
  chain_link i t th : ch !! i = Some t -> pthreads s !! t = Some th -> link_ok (pthreads s) (ch !! S i) th;
  chain_head : level_of s <> Finished -> living Joinable (pthreads s) (head ch);
  chain_old t th old : pthreads s !! t = Some th -> work th = Routine (RoutineSet old) -> old = tid (pool s);
  chain_last t th f u : pthreads s !! t = Some th -> call th = Some (Terminate f (TermJoin u)) -> tid (pool s) = Some u
}.

(** *** The entries of the tasks *)
Definition holds (th : thread) : list Z :=
  match call th with
  | Some (ScheduleStore _ b | SchedulePut b | DestroyPending _ b) => [b]
  | _ => []
  end ++
  match work th with Routine (RoutineFree b) => [b] | _ => [] end.

(** The entries a thread has taken from the queue. *)
Definition removed (th : thread) : list Z :=
  match call th with Some (DestroyPending _ b) => [b] | _ => [] end ++
  match work th with Routine (RoutineFree b) => [b] | _ => [] end.

Definition filled (th : thread) : list Z :=
  match call th with
  | Some (SchedulePut b | DestroyPending _ b) => [b]
  | _ => []
  end ++
  match work th with Routine (RoutineFree b) => [b] | _ => [] end.

Definition stock (m : list Z * bool) (ts : list thread) : list Z := m.1 ++ (ts ≫= holds).

(** When the queue is known to be empty. *)
Definition drained (s : state) : bool :=
  match phase s with
  | Absent | Creating _ | Gone _ => true
  | Open => false
  | Closing d =>
      match call_at s d with
      | Some (DeleteKey _ | DestroyMutex _ | DestroyQueue _ | FreePool _ | Returned _) => true
      | _ => false
      end
  end.

Record stocked (s : state) : Prop := {
  stock_nodup : NoDup (stock (messages s) (pthreads s));
  stock_entries e : e ∈ stock (messages s) (pthreads s) <-> is_Some (entries s !! e);
  stock_filled e : e ∈ (messages s).1 ++ (pthreads s ≫= filled) -> exists task, entries s !! e = Some (Some task);
  stock_scheduled : scheduled s = taken s ++ (task_in (entries s) <$> (messages s).1);
  stock_taken : taken s ≡ₚ begun s ++ handed s ++ (task_in (entries s) <$> (pthreads s ≫= removed));
  stock_drained : drained s = true -> (messages s).1 = []
}.

(** The destroyer that sleeps will be woken. *)
Definition awaited (s : state) : Prop :=
  forall t th f, pthreads s !! t = Some th -> call th = Some (Terminate f TermWait) ->
    0 < nthreads (pool s) \/ exists u uh old, pthreads s !! u = Some uh /\ work uh = Routine (RoutineSignal old).

(** [k] threads are not counted yet that should be; 0 between the steps. *)
Record base_by (k : Z) (s : state) : Prop := {
  sound_mutex : mutex_ok (mutex (pool s)) critical (pthreads s);
  sound_fine t th : pthreads s !! t = Some th -> fine (phase s) (level_of s) (nthreads (pool s)) t th;
  sound_resources : resources s = resources_of s;
  sound_level : level_ok (level_of s) (counted s) (phase s) (messages s) (pool s);
  sound_count : counted s = true -> nthreads (pool s) + total counting (pthreads s) = total alive (pthreads s) + k;
  sound_awaited : awaited s;
  sound_owner d : owner (phase s) = Some d -> is_Some (pthreads s !! d);
  sound_stock : stocked s
}.

Record sound_by (k : Z) (s : state) : Prop := {
  sound_base :> base_by k s;
  sound_chain : exists ch, chained s ch
}.
Arguments sound_resources {k} s _.
Arguments sound_level {k} s _.
Arguments sound_count {k} s _.
Arguments sound_awaited {k} s _.
Arguments sound_stock {k} s _.
Arguments sound_chain {k} s _.
Arguments sound_mutex {k} s _.
Arguments sound_owner {k} s _ d.
Arguments sound_fine {k} s _ t th.

#[local] Abbreviation sound := (sound_by 0).

(** ** Lists of threads *)

Lemma total_insert f ts t th th' : ts !! t = Some th ->
  total f (<[t := th']> ts) + Z.of_nat (f th) = total f ts + Z.of_nat (f th').
Proof.
  unfold total. revert t. induction ts as [|x ts IH]; intros [|t] Ht; try done.
  - injection Ht as ->. change (<[0%nat := th']> (th :: ts)) with (th' :: ts). cbn [sum_list_with]. lia.
  - change (<[S t := th']> (x :: ts)) with (x :: <[t := th']> ts). cbn [sum_list_with]. specialize (IH t Ht). lia.
Qed.

Lemma total_snoc f ts th : total f (ts ++ [th]) = total f ts + Z.of_nat (f th).
Proof. unfold total. rewrite sum_list_with_app. cbn. lia. Qed.

Lemma total_at f ts t th : ts !! t = Some th -> Z.of_nat (f th) <= total f ts.
Proof.
  unfold total. revert t. induction ts as [|x ts IH]; intros [|t] Ht; try done; cbn in Ht |- *.
  - injection Ht as ->. lia.
  - specialize (IH t Ht). lia.
Qed.

Lemma total_two f ts t u th uh : ts !! t = Some th -> ts !! u = Some uh -> t <> u ->
  Z.of_nat (f th) + Z.of_nat (f uh) <= total f ts.
Proof.
  unfold total. revert t u. induction ts as [|x ts IH]; intros [|t] [|u] Ht Hu Hn; try done; cbn in Ht, Hu |- *.
  - injection Ht as ->. pose proof (total_at f ts u uh Hu) as H. unfold total in H. lia.
  - injection Hu as ->. pose proof (total_at f ts t th Ht) as H. unfold total in H. lia.
  - specialize (IH t u Ht Hu). lia.
Qed.

Lemma total_zero f ts : total f ts <= 0 -> forall t th, ts !! t = Some th -> f th = 0%nat.
Proof. intros H t th Ht. pose proof (total_at f ts t th Ht). lia. Qed.

Lemma total_zero_iff f ts : (forall t th, ts !! t = Some th -> f th = 0%nat) -> total f ts = 0.
Proof.
  unfold total. induction ts as [|x ts IH]; intros H; [done|]. cbn. pose proof (H 0%nat x eq_refl).
  specialize (IH (fun t th Ht => H (S t) th Ht)). lia.
Qed.

Lemma total_pos f ts : total f ts <> 0 -> exists t th, ts !! t = Some th /\ f th <> 0%nat.
Proof.
  unfold total. induction ts as [|x ts IH]; cbn [sum_list_with]; [done|]. intros H. destruct (decide (f x = 0%nat)) as [E|E].
  - destruct IH as (t & th & Ht & Hf); [lia|]. by exists (S t), th.
  - by exists 0%nat, x.
Qed.

Lemma total_bound f ts k : (forall th, (f th <= k)%nat) -> 0 <= total f ts <= Z.of_nat k * Z.of_nat (length ts).
Proof. unfold total. intros H. induction ts as [|x ts IH]; cbn [sum_list_with length]; [lia|]. specialize (H x). nia. Qed.

Lemma alive_one th : (alive th <= 1)%nat.
Proof. unfold alive. destruct (work th); [lia| |lia]. destruct (_ && _); lia. Qed.

Lemma insert_cases (ts : list thread) t th' u uh : <[t := th']> ts !! u = Some uh ->
  (u = t /\ uh = th' /\ is_Some (ts !! t)) \/ (u <> t /\ ts !! u = Some uh).
Proof.
  intros [(-> & <- & H)|[H1 H2]]%list_lookup_insert_Some; [left|right]; split; try done.
  split; [done|]. by apply lookup_lt_is_Some.
Qed.

(** ** The view of the owner *)

(** Being woken up is no change of the view. *)
Definition same_call (c c' : option call_pc) : Prop :=
  c' = c \/ exists f, c = Some (Terminate f TermWait) /\ c' = Some (Terminate f TermWake).

Definition same_view (a b : option thread) : Prop :=
  match a, b with
  | Some x, Some y => work y = work x /\ same_call (call x) (call y)
  | None, None => True
  | _, _ => False
  end.

Lemma same_view_refl a : same_view a a.
Proof. destruct a; [split; [done|by left]|done]. Qed.

Lemma view_kept s s' : phase s' = phase s ->
  (forall d, owner (phase s) = Some d -> same_view (pthreads s !! d) (pthreads s' !! d)) ->
  level_of s' = level_of s /\ resources_of s' = resources_of s /\ counted s' = counted s /\ drained s' = drained s.
Proof.
  intros Hp Hv. unfold level_of, resources_of, counted, drained, call_at. rewrite Hp.
  destruct (phase s) as [|d| |d|d]; try done; specialize (Hv d eq_refl); unfold same_view in Hv;
    destruct (pthreads s !! d) as [x|], (pthreads s' !! d) as [y|]; try done; cbn;
    destruct Hv as [Hw [Hc|(f & Hc & Hc')]]; unfold is_task; rewrite ?Hw, ?Hc, ?Hc'; done.
Qed.

(** The facts of a thread outlive a change of [nthreads]. *)
Lemma fine_count ph lv n n' t th : (0 < n -> 0 < n') \/ ph <> Open -> fine ph lv n t th -> fine ph lv n' t th.
Proof.
  unfold fine, client_ok. destruct (work th); [|done..]. intros Hn (H1 & H2 & H3). repeat split; try done.
  destruct (call th); [|done]. destruct ph; try done. naive_solver.
Qed.

Lemma waiting_not_open s : level_of s = Waiting \/ level_of s = Marked \/ level_of s = Draining -> phase s <> Open.
Proof. unfold level_of. destruct (phase s); try done. intros [?|[?|?]]; done. Qed.

(** ** Steps of the users

    A statement of a thread that neither creates nor destroys the pool, and
    changes no other thread. *)

Lemma not_owner_view s t th' d : owner (phase s) <> Some t -> owner (phase s) = Some d ->
  same_view (pthreads s !! d) (<[t := th']> (pthreads s) !! d).
Proof. intros Ho Hd. rewrite list_lookup_insert_ne by congruence. apply same_view_refl. Qed.

Lemma awaited_kept s s' t th th' : awaited s -> pthreads s !! t = Some th -> pthreads s' = <[t := th']> (pthreads s) ->
  (forall f, call th' = Some (Terminate f TermWait) -> 0 < nthreads (pool s') \/ call th = Some (Terminate f TermWait)) ->
  (forall old, work th <> Routine (RoutineSignal old)) ->
  (0 < nthreads (pool s) -> 0 < nthreads (pool s') \/ exists old, work th' = Routine (RoutineSignal old)) -> awaited s'.
Proof.
  intros Ha Ht Ep Hc Hs Hn u uh f Hu Hw. rewrite Ep in Hu.
  assert ((exists v vh f, pthreads s !! v = Some vh /\ call vh = Some (Terminate f TermWait)) \/ 0 < nthreads (pool s'))
    as [(v & vh & f' & Hv & Hvc)|H]; [|destruct (Ha _ _ _ Hv Hvc) as [H|(w & wh & old & Hwl & Hws)]|by left].
  { apply insert_cases in Hu as [(-> & -> & _)|[Hne Hu]]; [|left; eauto]. destruct (Hc f Hw); eauto 7. }
  - destruct (Hn H) as [|[old Hold]]; [by left|right]. exists t, th', old. split; [|done]. rewrite Ep.
    apply list_lookup_insert_eq. by eapply lookup_lt_Some.
  - right. exists w, wh, old. split; [|done]. rewrite Ep. rewrite list_lookup_insert_ne; [done|]. intros ->. naive_solver.
Qed.

Lemma user_base k s s' t th th' : base_by 0 s -> pthreads s !! t = Some th ->
  pthreads s' = <[t := th']> (pthreads s) -> phase s' = phase s -> owner (phase s) <> Some t ->
  resources s' = resources s ->
  mutex_step t critical th th' (mutex (pool s)) (mutex (pool s')) ->
  fine (phase s) (level_of s) (nthreads (pool s')) t th' ->
  (0 < nthreads (pool s) -> 0 < nthreads (pool s')) \/ phase s <> Open ->
  level_ok (level_of s) (counted s) (phase s) (messages s') (pool s') ->
  (counted s = true -> nthreads (pool s') + Z.of_nat (counting th') + Z.of_nat (alive th) =
     nthreads (pool s) + Z.of_nat (counting th) + Z.of_nat (alive th') + k) ->
  awaited s' -> stocked s' -> base_by k s'.
Proof.
  intros [H1 H2 H3 H4 H5 H6 H7 H8] Ht Ep Eph Ho Er Hm Hf Hn Hl Hc Ha Hs.
  destruct (view_kept s s' Eph) as (El & Ers & Ec & Ed); [intros d Hd; rewrite Ep; by apply not_owner_view|].
  constructor; rewrite ?El, ?Eph, ?Ers, ?Ec; try done.
  - rewrite Ep. by eapply mutex_stepped.
  - intros u uh Hu. rewrite Ep in Hu. apply insert_cases in Hu as [(-> & -> & _)|[Hne Hu]]; [done|].
    eapply fine_count; [done|]. auto.
  - congruence.
  - intros Hcd. specialize (H5 Hcd). specialize (Hc Hcd). rewrite Ep.
    pose proof (total_insert counting _ _ _ th' Ht). pose proof (total_insert alive _ _ _ th' Ht). lia.
  - intros d Hd%H7. rewrite Ep. apply lookup_lt_is_Some. rewrite length_insert. by apply lookup_lt_is_Some.
Qed.

Lemma user_step k s s' t th th' : sound s -> pthreads s !! t = Some th ->
  pthreads s' = <[t := th']> (pthreads s) -> phase s' = phase s -> owner (phase s) <> Some t ->
  resources s' = resources s ->
  mutex_step t critical th th' (mutex (pool s)) (mutex (pool s')) ->
  fine (phase s) (level_of s) (nthreads (pool s')) t th' ->
  (0 < nthreads (pool s) -> 0 < nthreads (pool s')) \/ phase s <> Open ->
  level_ok (level_of s) (counted s) (phase s) (messages s') (pool s') ->
  (counted s = true -> nthreads (pool s') + Z.of_nat (counting th') + Z.of_nat (alive th) =
     nthreads (pool s) + Z.of_nat (counting th) + Z.of_nat (alive th') + k) ->
  awaited s' -> stocked s' -> (exists ch, chained s' ch) -> sound_by k s'.
Proof. intros [Hs _] **. split; [|done]. by eapply user_base. Qed.

(** *** The chain under a step of one thread *)

Lemma living_kept l ts ts' u : (forall v th, u = Some v -> ts !! v = Some th -> exists th', ts' !! v = Some th' /\ life th' = life th) ->
  living l ts u -> living l ts' u.
Proof.
  unfold living. destruct u as [v|]; [|done]. intros H (th & Hv & Hl). destruct (H v th eq_refl Hv) as (th' & Hv' & E).
  exists th'. split; [done|congruence].
Qed.

Lemma link_kept ts ts' u th : (forall l, living l ts u -> living l ts' u) -> link_ok ts u th -> link_ok ts' u th.
Proof. unfold link_ok. intros H. destruct (work th) as [|[]|]; naive_solver. Qed.

Lemma chain_kept s s' ch t th th' : chained s ch -> pthreads s !! t = Some th ->
  pthreads s' = <[t := th']> (pthreads s) -> exited th' = exited th ->
  (life th' = life th \/ exited th = false) ->
  (forall ts prev, exited th = true -> link_ok ts prev th -> link_ok ts prev th') ->
  (counted s' = true -> tid (pool s') = tid (pool s) /\ counted s = true) ->
  (level_of s' <> Finished -> level_of s <> Finished) ->
  (forall u uh old, u <> t -> pthreads s !! u = Some uh -> work uh = Routine (RoutineSet old) -> tid (pool s') = tid (pool s)) ->
  (forall u uh f v, u <> t -> pthreads s !! u = Some uh -> call uh = Some (Terminate f (TermJoin v)) -> tid (pool s') = tid (pool s)) ->
  (forall old, work th' = Routine (RoutineSet old) -> old = tid (pool s')) ->
  (forall f u, call th' = Some (Terminate f (TermJoin u)) -> tid (pool s') = Some u) ->
  chained s' ch.
Proof.
  intros [C1 C2 C3 C4 C5 C6 C7] Ht Ep Ee El Hk Hc Hlv Hot1 Hot2 Hs Hj.
  assert (forall l u, (forall v, u = Some v -> v ∈ ch) -> living l (pthreads s) u -> living l (pthreads s') u) as Hliv.
  { intros l u Hu. apply living_kept. intros v vh -> Hv. rewrite Ep. destruct (decide (v = t)) as [->|Hne].
    - exists th'. rewrite list_lookup_insert_eq by (by eapply lookup_lt_Some). split; [done|].
      assert (vh = th) as -> by congruence. destruct El as [E|E]; [done|].
      destruct (C2 t) as [H _]. destruct (H (Hu t eq_refl)) as (th0 & H0 & H1). congruence.
    - exists vh. by rewrite list_lookup_insert_ne. }
  constructor.
  - done.
  - intros u. rewrite C2, Ep. split; intros (uh & Hu & He).
    + destruct (decide (u = t)) as [->|Hne].
      * exists th'. rewrite list_lookup_insert_eq by (by eapply lookup_lt_Some). split; [done|]. congruence.
      * exists uh. by rewrite list_lookup_insert_ne.
    + apply insert_cases in Hu as [(-> & -> & _)|[Hne Hu]]; [|eauto]. exists th. split; [done|congruence].
  - intros [-> H]%Hc. auto.
  - intros i u uh Hi Hu. rewrite Ep in Hu.
    assert (forall v, ch !! S i = Some v -> v ∈ ch) as Hin by (intros v Hv; by eapply list_elem_of_lookup_2).
    apply insert_cases in Hu as [(-> & -> & _)|[Hne Hu]].
    + assert (exited th = true) as He by (destruct (C2 t) as [H _]; destruct H as (th0 & H0 & H1); [by eapply list_elem_of_lookup_2|congruence]).
      apply Hk; [done|]. eapply link_kept; [|by eapply C4]. intros l. by apply Hliv.
    + eapply link_kept; [|by eapply C4]. intros l. by apply Hliv.
  - intros H%Hlv. apply Hliv; [|auto]. intros v Hv. destruct ch as [|c ch]; [done|]. injection Hv as ->. apply list_elem_of_here.
  - intros u uh old Hu Hw. rewrite Ep in Hu. apply insert_cases in Hu as [(-> & -> & _)|[Hne Hu]]; [by apply Hs|].
    rewrite (Hot1 u uh old Hne Hu Hw). eauto.
  - intros u uh f v Hu Hw. rewrite Ep in Hu. apply insert_cases in Hu as [(-> & -> & _)|[Hne Hu]]; [by eapply Hj|].
    rewrite (Hot2 u uh f v Hne Hu Hw). eauto.
Qed.

(** *** The entries under a step of one thread *)

Lemma bind_kept {B} (f : thread -> list B) ts t th th' : ts !! t = Some th -> f th' = f th ->
  <[t := th']> ts ≫= f = ts ≫= f.
Proof.
  revert t. induction ts as [|x ts IH]; intros [|t] Ht E; try done.
  - injection Ht as ->. change (<[0%nat := th']> (th :: ts)) with (th' :: ts). cbn. by rewrite E.
  - change (<[S t := th']> (x :: ts)) with (x :: <[t := th']> ts). cbn. f_equal. by apply IH.
Qed.

Lemma stock_kept s s' t th th' : stocked s -> pthreads s !! t = Some th -> pthreads s' = <[t := th']> (pthreads s) ->
  (messages s').1 = (messages s).1 -> entries s' = entries s -> scheduled s' = scheduled s -> taken s' = taken s ->
  begun s' = begun s -> handed s' = handed s ->
  holds th' = holds th -> removed th' = removed th -> filled th' = filled th ->
  (drained s' = true -> drained s = true \/ (messages s).1 = []) -> stocked s'.
Proof.
  intros [S1 S2 S3 S4 S5 S6] Ht Ep Em Ee Es Eta Eb Eh Hh Hr Hf Hd.
  assert (stock (messages s') (pthreads s') = stock (messages s) (pthreads s)) as E
    by (unfold stock; rewrite Em, Ep; by erewrite bind_kept).
  constructor; rewrite ?E, ?Ee, ?Es, ?Eta, ?Eb, ?Eh, ?Em; try done.
  - rewrite Ep. by erewrite bind_kept.
  - rewrite Ep. by erewrite bind_kept.
  - intros [H|H]%Hd; auto.
Qed.

Lemma task_in_other es es' (l : list Z) : (forall e, e ∈ l -> es' !! e = es !! e) -> task_in es' <$> l = task_in es <$> l.
Proof. intros H. apply list_fmap_ext. intros i e Hi. unfold task_in. rewrite H; [done|]. by eapply list_elem_of_lookup_2. Qed.

Lemma removed_filled th e : e ∈ removed th -> e ∈ filled th.
Proof. unfold removed, filled. rewrite !elem_of_app. destruct (call th) as [[]|]; set_solver. Qed.

Lemma filled_holds th e : e ∈ filled th -> e ∈ holds th.
Proof. unfold filled, holds. rewrite !elem_of_app. destruct (call th) as [[]|]; set_solver. Qed.

Lemma bind_sub (f g : thread -> list Z) ts e : (forall th, e ∈ f th -> e ∈ g th) -> e ∈ ts ≫= f -> e ∈ ts ≫= g.
Proof. intros H (th & He & Hin)%list_elem_of_bind. apply list_elem_of_bind. exists th. split; auto. Qed.

(** Thread [t] takes hold of a new entry. *)
Lemma stock_malloc s s' t th th' a : stocked s -> pthreads s !! t = Some th -> pthreads s' = <[t := th']> (pthreads s) ->
  entries s !! a = None -> messages s' = messages s -> entries s' = <[a := None]> (entries s) ->
  scheduled s' = scheduled s -> taken s' = taken s -> begun s' = begun s -> handed s' = handed s ->
  holds th' = a :: holds th -> removed th' = removed th -> filled th' = filled th -> drained s' = drained s -> stocked s'.
Proof.
  intros [S1 S2 S3 S4 S5 S6] Ht Ep Ha Em Ee Es Eta Eb Eh Hh Hr Hf Hd.
  destruct (bind_insert holds _ _ _ th' Ht) as (r & R1 & R2).
  assert (stock (messages s') (pthreads s') ≡ₚ a :: stock (messages s) (pthreads s)) as E.
  { unfold stock. rewrite Em, Ep, R2, R1, Hh. cbn [app]. symmetry. apply Permutation_middle. }
  assert (a ∉ stock (messages s) (pthreads s)) as Hn by (intros [x Hx]%S2; congruence).
  assert (forall e, e ∈ (messages s).1 ++ (pthreads s ≫= filled) -> e <> a) as Hne.
  { intros e He ->. apply S3 in He as [task He]. congruence. }
  constructor.
  - rewrite E. by apply NoDup_cons.
  - intros e. rewrite E, elem_of_cons, S2, Ee. rewrite lookup_insert_is_Some. destruct (decide (e = a)); naive_solver.
  - intros e. rewrite Em, Ep. erewrite bind_kept by done. intros He. destruct (S3 e He) as [task Htask].
    exists task. rewrite Ee, lookup_insert_ne; [done|]. intros <-. by apply (Hne a).
  - rewrite Es, Eta, Em, S4. f_equal. symmetry. apply task_in_other. intros e He. rewrite Ee, lookup_insert_ne; [done|].
    intros <-. apply (Hne a); [set_solver|done].
  - rewrite Eta, Eb, Eh, Ep, S5. erewrite (bind_kept removed) by done. do 2 f_equiv. 
    erewrite task_in_other; [done|]. intros e He. rewrite Ee, lookup_insert_ne; [done|].
    intros <-. apply (Hne a); [|done]. apply elem_of_app. right. eapply bind_sub, He. intros; by apply removed_filled.
  - by rewrite Hd, Em.
Qed.

(** The task is written into an entry that is not in the queue yet. *)
Lemma stock_store s s' t th th' a task : stocked s -> pthreads s !! t = Some th -> pthreads s' = <[t := th']> (pthreads s) ->
  messages s' = messages s -> entries s' = <[a := Some task]> (entries s) ->
  scheduled s' = scheduled s -> taken s' = taken s -> begun s' = begun s -> handed s' = handed s ->
  holds th = [a] -> holds th' = [a] -> removed th = [] -> removed th' = [] -> filled th' = [a] -> drained s' = drained s -> stocked s'.
Proof.
  intros [S1 S2 S3 S4 S5 S6] Ht Ep Em Ee Es Eta Eb Eh Hh Hh' Hr Hr' Hf Hd.
  assert (stock (messages s') (pthreads s') = stock (messages s) (pthreads s)) as E.
  { unfold stock. rewrite Em, Ep. by erewrite bind_kept by (done || congruence). }
  assert (is_Some (entries s !! a)) as Ha.
  { apply S2. unfold stock. apply elem_of_app. right. apply list_elem_of_bind. exists th. split; [rewrite Hh; set_solver|].
    by eapply list_elem_of_lookup_2. }
  assert (forall e u uh, e ∈ holds uh -> pthreads s !! u = Some uh -> u <> t -> e <> a) as Hoth.
  { intros e u uh He Hu Hne ->. apply NoDup_app in S1 as (_ & _ & S1).
    destruct (bind_insert holds _ _ _ th' Ht) as (r & R1 & R2). rewrite (delete_Permutation _ _ _ Ht) in S1.
    cbn in S1. rewrite Hh in S1. cbn [app] in S1. apply NoDup_cons in S1 as [S1 _]. apply S1. apply list_elem_of_bind.
    exists uh. split; [done|]. apply list_elem_of_lookup.
    destruct (decide (u < t)%nat); [exists u; by rewrite list_lookup_delete_lt|].
    exists (u - 1)%nat. rewrite list_lookup_delete_ge by lia. by replace (S (u - 1)) with u by lia. }
  assert (forall e, e ∈ (messages s).1 -> e <> a) as Hq.
  { intros e He ->. apply NoDup_app in S1 as (_ & S1 & _). apply (S1 a He). apply list_elem_of_bind. exists th.
    split; [rewrite Hh; set_solver|]. by eapply list_elem_of_lookup_2. }
  constructor.
  - by rewrite E.
  - intros e. rewrite E, S2, Ee, lookup_insert_is_Some. destruct (decide (a = e)) as [->|]; naive_solver.
  - intros e. rewrite Ee. destruct (decide (e = a)) as [->|Hne]; [rewrite lookup_insert_eq; eauto|].
    rewrite lookup_insert_ne by done. rewrite Em, Ep. intros [He|(uh & He & Hin)%list_elem_of_bind]%elem_of_app.
    + apply S3. set_solver.
    + apply list_elem_of_lookup in Hin as [u Hu]. apply insert_cases in Hu as [(-> & -> & _)|[Hun Hu]].
      * rewrite Hf in He. set_solver.
      * apply S3, elem_of_app. right. apply list_elem_of_bind. exists uh. split; [done|]. by eapply list_elem_of_lookup_2.
  - rewrite Es, Eta, Em, S4. f_equal. symmetry. apply task_in_other. intros e He%Hq. by rewrite Ee, lookup_insert_ne.
  - rewrite Eta, Eb, Eh, Ep, S5. erewrite (bind_kept removed) by (done || congruence). do 2 f_equiv.
    erewrite task_in_other; [done|]. intros e (uh & He & Hin)%list_elem_of_bind. apply list_elem_of_lookup in Hin as [u Hu].
    rewrite Ee, lookup_insert_ne; [done|]. intros <-. destruct (decide (u = t)) as [->|Hne].
    + assert (uh = th) as -> by congruence. rewrite Hr in He. set_solver.
    + exact (Hoth a u uh (filled_holds _ _ (removed_filled _ _ He)) Hu Hne eq_refl).
  - by rewrite Hd, Em.
Qed.

(** An entry goes from a thread to the queue. *)
Lemma stock_put s s' t th th' a : stocked s -> pthreads s !! t = Some th -> pthreads s' = <[t := th']> (pthreads s) ->
  (messages s').1 = (messages s).1 ++ [a] -> entries s' = entries s ->
  scheduled s' = scheduled s ++ [task_in (entries s) a] -> taken s' = taken s -> begun s' = begun s -> handed s' = handed s ->
  holds th = [a] -> holds th' = [] -> removed th = [] -> removed th' = [] -> filled th = [a] -> filled th' = [] ->
  drained s' = false -> stocked s'.
Proof.
  intros [S1 S2 S3 S4 S5 S6] Ht Ep Em Ee Es Eta Eb Eh Hh Hh' Hr Hr' Hf Hf' Hd.
  destruct (bind_insert holds _ _ _ th' Ht) as (r & R1 & R2). destruct (bind_insert filled _ _ _ th' Ht) as (r' & F1 & F2).
  assert (stock (messages s') (pthreads s') ≡ₚ stock (messages s) (pthreads s)) as E.
  { unfold stock. rewrite Em, Ep, R2, R1, Hh, Hh', <- app_assoc. done. }
  constructor; rewrite ?Ee; [by rewrite E|intros e; by rewrite E| | | |congruence].
  - intros e. rewrite Em, Ep, F2, Hf'. intros He. apply S3. rewrite F1, Hf. set_solver.
  - rewrite Es, Eta, Em, S4, fmap_app, app_assoc. done.
  - rewrite Eta, Eb, Eh, Ep, S5. erewrite (bind_kept removed) by (done || congruence). done.
Qed.

(** An entry goes from the queue to a thread. *)
Lemma stock_take s s' t th th' a l : stocked s -> pthreads s !! t = Some th -> pthreads s' = <[t := th']> (pthreads s) ->
  (messages s).1 = a :: l -> (messages s').1 = l -> entries s' = entries s ->
  scheduled s' = scheduled s -> taken s' = taken s ++ [task_in (entries s) a] -> begun s' = begun s -> handed s' = handed s ->
  holds th = [] -> holds th' = [a] -> removed th = [] -> removed th' = [a] -> filled th = [] -> filled th' = [a] ->
  drained s' = false -> stocked s'.
Proof.
  intros [S1 S2 S3 S4 S5 S6] Ht Ep El Em Ee Es Eta Eb Eh Hh Hh' Hr Hr' Hf Hf' Hd.
  destruct (bind_insert holds _ _ _ th' Ht) as (r & R1 & R2). destruct (bind_insert filled _ _ _ th' Ht) as (r' & F1 & F2).
  destruct (bind_insert removed _ _ _ th' Ht) as (r'' & M1 & M2).
  assert (stock (messages s') (pthreads s') ≡ₚ stock (messages s) (pthreads s)) as E.
  { unfold stock. rewrite Em, El, Ep, R2, R1, Hh, Hh'. cbn [app]. symmetry. apply Permutation_middle. }
  constructor; rewrite ?Ee; [by rewrite E|intros e; by rewrite E| | | |congruence].
  - intros e. rewrite Em, Ep, F2, Hf'. intros He. apply S3. rewrite El, F1, Hf. set_solver.
  - rewrite Es, Eta, Em, S4, El. cbn. by rewrite <- app_assoc.
  - rewrite Eta, Eb, Eh, Ep, S5, M1, M2, Hr, Hr'. cbn [app fmap list_fmap].
    rewrite <- !app_assoc. do 2 f_equiv. by rewrite Permutation_app_comm.
Qed.

(** A thread frees the entry it took; the task is begun or handed over. *)
Lemma stock_free s s' t th th' a : stocked s -> pthreads s !! t = Some th -> pthreads s' = <[t := th']> (pthreads s) ->
  messages s' = messages s -> entries s' = delete a (entries s) ->
  scheduled s' = scheduled s -> taken s' = taken s ->
  begun s' ++ handed s' ≡ₚ task_in (entries s) a :: begun s ++ handed s ->
  holds th = [a] -> holds th' = [] -> removed th = [a] -> removed th' = [] -> filled th = [a] -> filled th' = [] ->
  drained s' = drained s -> stocked s'.
Proof.
  intros [S1 S2 S3 S4 S5 S6] Ht Ep Em Ee Es Eta Eb Hh Hh' Hr Hr' Hf Hf' Hd.
  destruct (bind_insert holds _ _ _ th' Ht) as (r & R1 & R2). destruct (bind_insert filled _ _ _ th' Ht) as (r' & F1 & F2).
  destruct (bind_insert removed _ _ _ th' Ht) as (r'' & M1 & M2).
  assert (stock (messages s) (pthreads s) ≡ₚ a :: stock (messages s') (pthreads s')) as E.
  { unfold stock. rewrite Em, Ep, R2, R1, Hh, Hh'. cbn [app]. symmetry. apply Permutation_middle. }
  rewrite E in S1. apply NoDup_cons in S1 as [Ha S1].
  assert (forall e, e ∈ (messages s).1 -> e <> a) as Hq by (intros e He ->; apply Ha; unfold stock; rewrite Em; set_solver).
  assert (forall f, (forall x e, e ∈ f x -> e ∈ holds x) -> forall r, <[t := th']> (pthreads s) ≫= f ≡ₚ r -> forall e, e ∈ r -> e <> a) as Ho.
  { intros f Hsub rr Hrr e He ->. apply Ha. unfold stock. apply elem_of_app. right. rewrite Ep.
    eapply (bind_sub f); [intros x; by apply Hsub|]. by rewrite Hrr. }
  constructor; rewrite ?Ee.
  - done.
  - intros e. rewrite lookup_delete_is_Some. split.
    + intros He. split; [congruence|]. apply S2. rewrite E. set_solver.
    + intros [Hne He%S2]. rewrite E in He. set_solver.
  - intros e. rewrite Em, Ep. intros [He|He]%elem_of_app.
    + rewrite lookup_delete_ne by (intros <-; by apply (Hq a)). apply S3. set_solver.
    + pose proof (Ho filled filled_holds _ (reflexivity _) e He). rewrite F2, Hf' in He.
      rewrite lookup_delete_ne by done. apply S3. rewrite F1, Hf. set_solver.
  - rewrite Es, Eta, Em, S4. f_equal. symmetry. apply task_in_other. intros e He%Hq. by rewrite lookup_delete_ne.
  - rewrite Eta, Ep, M2, Hr', S5, M1, Hr. cbn [app fmap list_fmap]. rewrite !app_assoc, Eb.
    rewrite (task_in_other (entries s) (delete a (entries s)) r'').
    + cbn [app]. symmetry. by rewrite <- Permutation_middle.
    + intros e He. rewrite lookup_delete_ne; [done|]. intros <-.
      eapply (Ho removed); [intros x e He'; by apply filled_holds, removed_filled| |exact He|done]. by rewrite M2, Hr'.
  - by rewrite Hd, Em.
Qed.

(** ** The thread inside a call *)

Definition user_at (ph : stage) (lv : level) (n : Z) (pc : call_pc) (th : thread) : Prop :=
  (work th = Client /\ specific th = false /\ ph = Open /\ (increase_pc pc = true -> 0 < n)) \/
  (exists task, work th = Routine (RoutineTask task) /\ specific th = true /\ routine_ok lv (RoutineTask task) = true /\
     (ph = Open \/ exists d, ph = Closing d)).

Definition destroyer_at (pc : call_pc) (th : thread) : Prop :=
  (work th = Client /\ destroy_pc false pc = true /\ life th = Joinable /\ specific th = false) \/
  (exists task, work th = Routine (RoutineTask task) /\ destroy_pc true pc = true /\ specific th = true /\
     life th = if detached_pc pc then Detached else Joinable).

Lemma call_cases ph lv n t th pc : fine ph lv n t th -> call th = Some pc ->
  (owner ph <> Some t /\ use_pc pc = true /\ life th = Joinable /\ user_at ph lv n pc th) \/
  (ph = Creating t /\ work th = Client /\ life th = Joinable /\ specific th = false /\ create_pc pc = true) \/
  (ph = Closing t /\ destroyer_at pc th).
Proof.
  unfold fine, client_ok, routine_fine, worker_ok, user_at, destroyer_at. intros H Hc. rewrite Hc in H.
  destruct (work th) as [|p|] eqn:Ew.
  - destruct H as (H1 & H2 & H3). destruct ph as [|d| |d|d]; [done| | | |done].
    + right; left. naive_solver.
    + left. naive_solver.
    + right; right. naive_solver.
  - destruct H as [Hs H]. destruct ph as [|d| |d|d]; cbn [owner].
    + naive_solver.
    + destruct H as (Hd & Hl & Hr & Htt & Hu & task & ->). done.
    + destruct H as (Hl & Hr & _ & Hu & task & ->). left. split; [done|]. split; [done|]. split; [done|]. right. exists task. auto.
    + destruct H as [(Hd & Hl & Hr & _ & Hu & task & ->)|(-> & task & pc' & -> & [= <-] & Hpc & Hl)].
      * left. split; [congruence|]. split; [done|]. split; [done|]. right. exists task. eauto 6.
      * right; right. split; [done|]. right. exists task. auto.
    + naive_solver.
  - naive_solver.
Qed.

(** While the pool serves, all of it is there. *)
Definition busy (lv : level) : bool := match lv with Serving | Marked | Waiting | Draining => true | _ => false end.

Lemma busy_ok s : busy (level_of s) = true -> resources_of s = all_resources /\ counted s = true.
Proof.
  unfold level_of, resources_of, counted. destruct (phase s) as [|d| |d|d]; try done.
  - destruct (call_at s d) as [[]|]; cbn; try done. destruct (r =? 0); done.
  - destruct (call_at s d) as [[]|]; cbn; done.
Qed.

Lemma busy_open s : busy (level_of s) = true -> phase s = Open \/ (exists d, phase s = Closing d) -> drained s = false.
Proof.
  unfold level_of, drained. intros Hb [E|[d E]]; rewrite E in *; [done|]. revert Hb. destruct (call_at s d) as [[]|]; done.
Qed.

Lemma needs_ok {A} r s (k : comp A) : r ∈ resources s -> needs r s k = k.
Proof. intros H. unfold needs, has. by rewrite bool_decide_eq_true_2. Qed.

Lemma lock_ok t s : PoolMemory ∈ resources s -> PoolMutex ∈ resources s ->
  pthread_mutex_lock t s =
    Ret match mutex (pool s) with None => Some (set_pool (set_mutex (Some t) (pool s)) s) | Some _ => None end.
Proof. intros H1 H2. unfold pthread_mutex_lock. rewrite !needs_ok by done. by destruct (mutex (pool s)). Qed.

Lemma unlock_ok t s : PoolMemory ∈ resources s -> PoolMutex ∈ resources s -> mutex (pool s) = Some t ->
  pthread_mutex_unlock t s = Ret (set_pool (set_mutex None (pool s)) s).
Proof. intros H1 H2 H3. unfold pthread_mutex_unlock. rewrite !needs_ok by done. by rewrite H3, bool_decide_eq_true_2. Qed.

Lemma critical_owner s t th : sound s -> pthreads s !! t = Some th -> critical th = true -> mutex (pool s) = Some t.
Proof. intros [[[H _] _ _ _ _ _ _ _] _] Ht Hc. by apply (H t th Ht). Qed.

(** What a statement leads to, if it is not blocked. *)
Definition leads (t : nat) (m : stepped) : Prop :=
  yields m (fun r => match r with Some (th', s') => sound (set_thread t th' s') | None => True end).

Lemma leads_goes t th s : sound (set_thread t th s) -> leads t (goes th s).
Proof. intros H. by apply yields_Ret. Qed.

Lemma leads_blocked t : leads t blocked.
Proof. by apply yields_Ret. Qed.

(** A statement of a user of the pool. *)
Lemma use_step_by k s s' t th pc pc' : sound s -> pthreads s !! t = Some th -> call th = Some pc -> 
  owner (phase s) <> Some t -> user_at (phase s) (level_of s) (nthreads (pool s)) pc th -> life th = Joinable ->
  pthreads s' = <[t := at_call pc' th]> (pthreads s) -> phase s' = phase s -> resources s' = resources s ->
  tid (pool s') = tid (pool s) -> terminate (pool s') = terminate (pool s) -> (messages s').2 = (messages s).2 ->
  use_pc pc = true -> use_pc pc' = true -> (increase_pc pc' = true -> increase_pc pc = true) ->
  mutex_step t critical th (at_call pc' th) (mutex (pool s)) (mutex (pool s')) ->
  (0 < nthreads (pool s) -> 0 < nthreads (pool s')) ->
  nthreads (pool s') + Z.of_nat (counting (at_call pc' th)) = nthreads (pool s) + Z.of_nat (counting th) + k ->
  stocked s' -> sound_by k s'.
Proof.
  intros Hs Ht Hc Ho Hu Hlf Ep Eph Er Etid Eterm Em Huse Huse' Hi Hm Hn Hcnt Hst.
  assert (busy (level_of s) = true) as Hb.
  { destruct Hu as [(_ & _ & Hph & _)|(task & _ & _ & Hr & _)]; [unfold level_of; by rewrite Hph|]. by destruct (level_of s). }
  destruct (busy_ok s Hb) as [Eres Ecnt]. destruct (sound_chain s Hs) as [ch Hch].
  assert (forall f v, pc' <> Terminate f v) as Hpt by (intros f v ->; done).
  assert (exited th = false /\ exited (at_call pc' th) = false) as [Hx Hx'].
  { unfold exited, at_call. cbn. destruct Hu as [(-> & _)|(task & -> & _)]; done. }
  eapply user_step; try done.
  - unfold fine. destruct Hu as [(Hw & Hsp & Hph & Hinc)|(task & Hw & Hsp & Hr & Hph)]; cbn; rewrite Hw, Hsp.
    + split; [done|]. split; [done|]. unfold client_ok. rewrite Hph. split; [done|]. intros H%Hi%Hinc. auto.
    + split; [done|]. unfold routine_fine, worker_ok. cbn. rewrite Hlf.
      destruct Hph as [Hph|[d Hph]]; rewrite Hph in *.
      * repeat split; try done. by exists task.
      * left. cbn in Ho. split; [congruence|]. repeat split; try done. by exists task.
  - by left.
  - pose proof (sound_level s Hs) as HL. unfold level_ok in HL |- *.
    destruct (level_of s); try done; rewrite Eterm, Em; done.
  - intros _. rewrite Hcnt. assert (alive (at_call pc' th) = alive th) as ->; [|lia].
    unfold alive, counted_out. cbn. by rewrite Hlf.
  - eapply awaited_kept; try done.
    + apply (sound_awaited s Hs).
    + intros f [= E]. by destruct (Hpt f TermWait).
    + intros old E. destruct Hu as [(Hw & _)|(task & Hw & _)]; congruence.
    + auto.
  - exists ch. destruct (view_kept s s' Eph) as (El & Ers & Ec & Ed); [intros d Hd; rewrite Ep; by apply not_owner_view|].
    eapply chain_kept; try done; rewrite ?El, ?Ec; try done.
    + by left.
    + intros old E. cbn in E. destruct Hu as [(Hw & _)|(task & Hw & _)]; congruence.
    + intros f u [= E]. by destruct (Hpt f (TermJoin u)).
Qed.

Ltac in_all := match goal with |- _ ∈ resources ?s => match goal with H : resources s = _ |- _ => rewrite H; unfold all_resources; set_solver end end.

Lemma user_resources s th pc : sound s -> user_at (phase s) (level_of s) (nthreads (pool s)) pc th ->
  resources s = all_resources.
Proof.
  intros Hs Hu. rewrite (sound_resources s Hs). apply busy_ok.
  destruct Hu as [(_ & _ & Hph & _)|(task & _ & _ & Hr & _)]; [unfold level_of; by rewrite Hph|]. by destruct (level_of s).
Qed.

Lemma user_drained s th pc : sound s -> user_at (phase s) (level_of s) (nthreads (pool s)) pc th -> drained s = false.
Proof.
  intros Hs Hu. apply busy_open.
  - destruct Hu as [(_ & _ & Hph & _)|(task & _ & _ & Hr & _)]; [unfold level_of; by rewrite Hph|]. by destruct (level_of s).
  - destruct Hu as [(_ & _ & Hph & _)|(task & _ & _ & Hr & Hph)]; auto.
Qed.

Lemma drained_kept s s' t th th' : pthreads s !! t = Some th -> owner (phase s) <> Some t ->
  pthreads s' = <[t := th']> (pthreads s) -> phase s' = phase s -> drained s' = drained s.
Proof. intros Ht Ho Ep Eph. apply view_kept; [done|]. intros d Hd. rewrite Ep. by apply not_owner_view. Qed.

Lemma holds_work th : (exists task, work th = Routine (RoutineTask task)) \/ work th = Client -> forall pc,
  call th = Some pc ->
  holds th = match pc with ScheduleStore _ b | SchedulePut b | DestroyPending _ b => [b] | _ => [] end /\
  removed th = match pc with DestroyPending _ b => [b] | _ => [] end /\
  filled th = match pc with SchedulePut b | DestroyPending _ b => [b] | _ => [] end.
Proof. unfold holds, removed, filled. intros [[task ->]| ->] pc ->; by rewrite !app_nil_r. Qed.

Lemma user_work ph lv n pc th : user_at ph lv n pc th -> (exists task, work th = Routine (RoutineTask task)) \/ work th = Client.
Proof. intros [(H & _)|(task & H & _)]; eauto. Qed.

Lemma schedule_leads s t th pc c : sound s -> pthreads s !! t = Some th -> call th = Some pc ->
  owner (phase s) <> Some t -> user_at (phase s) (level_of s) (nthreads (pool s)) pc th -> life th = Joinable ->
  match pc with ScheduleMalloc _ | ScheduleStore _ _ | SchedulePut _ => true | _ => false end = true ->
  leads t (schedule_step c pc th s).
Proof.
  intros Hs Ht Hc Ho Hu Hl Hpc. pose proof (user_resources s th pc Hs Hu) as Hr.
  pose proof (user_drained s th pc Hs Hu) as Hd.
  destruct (holds_work th (user_work _ _ _ _ _ Hu) pc Hc) as (Hh & Hrm & Hf).
  assert (forall pc', let th' := at_call pc' th in holds th' = match pc' with ScheduleStore _ b | SchedulePut b | DestroyPending _ b => [b] | _ => [] end /\
    removed th' = match pc' with DestroyPending _ b => [b] | _ => [] end /\
    filled th' = match pc' with SchedulePut b | DestroyPending _ b => [b] | _ => [] end) as Hh'.
  { intros pc'. cbn zeta. apply holds_work; [|done]. unfold at_call. cbn. by eapply user_work. }
  assert (critical th = critical_call pc) as Hcr by (unfold critical; by rewrite Hc).
  assert (counting th = 0%nat) as Hcn by (unfold counting; rewrite Hc; by destruct pc).
  pose proof (sound_stock s Hs) as Hst.
  destruct pc; try done; cbn [schedule_step].
  - destruct (address c) as [a|]; [case_bool_decide as Ha; [|apply leads_blocked]|]; apply leads_goes; eapply (use_step_by 0); try done.
    + constructor. by rewrite Hcr.
    + rewrite Hcn. cbn. lia.
    + destruct (Hh' (ScheduleStore task a)) as (E1 & E2 & E3).
      eapply stock_malloc; try eapply drained_kept; try done; try (rewrite E1, Hh; done); congruence.
    + constructor. by rewrite Hcr.
    + rewrite Hcn. cbn. lia.
    + destruct (Hh' (Returned (-1))) as (E1 & E2 & E3).
      eapply stock_kept; [done|exact Ht|reflexivity..|congruence|congruence|congruence|].
      erewrite drained_kept by done. by left.
  - destruct (entries s !! buf) as [v|] eqn:Eb.
    + apply leads_goes. eapply (use_step_by 0); try done; [constructor; by rewrite Hcr|rewrite Hcn; cbn; lia|].
      destruct (Hh' (SchedulePut buf)) as (E1 & E2 & E3).
      eapply stock_store; [done|exact Ht|reflexivity..|done|done|done|done|done|]. by eapply drained_kept.
    + exfalso. destruct (stock_entries s Hst buf) as [H _]. rewrite Eb in H. destruct H as [? ?]; [|done].
      unfold stock. apply elem_of_app. right. apply list_elem_of_bind. exists th. rewrite Hh.
      split; [set_solver|]. by eapply list_elem_of_lookup_2.
  - rewrite !needs_ok by in_all. apply leads_goes. eapply (use_step_by 0); try done; [constructor; by rewrite Hcr|rewrite Hcn; cbn; lia|].
    destruct (Hh' (Returned 0)) as (E1 & E2 & E3).
    eapply stock_put; [done|exact Ht|reflexivity..|done|done|done|done|done|done|].
    erewrite drained_kept by done. done.
Qed.

(** *** A new thread *)

Definition new_thread : thread := Thread (Routine RoutineStart) None Joinable false.

Lemma snoc_cases (ts : list thread) x u uh : (ts ++ [x]) !! u = Some uh ->
  ts !! u = Some uh \/ (u = length ts /\ uh = x).
Proof. rewrite lookup_snoc_Some. intros [[_ ?]|[-> <-]]; auto. Qed.

Lemma living_snoc l ts x u : living l ts u -> living l (ts ++ [x]) u.
Proof. apply living_kept. intros v th _ Hv. exists th. split; [by apply lookup_app_l_Some|done]. Qed.

Lemma spawn s : sound_by 1 s -> routine_ok (level_of s) RoutineStart = true -> counted s = true ->
  match phase s with Creating _ | Open | Closing _ => True | _ => False end -> sound (pthread_create s).
Proof.
  intros [[H1 H2 H3 H4 H5 H6 H7 H8] [ch H9]] Hr Hcd Hph. set (s' := pthread_create s).
  assert (forall t th, pthreads s !! t = Some th -> pthreads s' !! t = Some th) as Hl by (intros; by apply lookup_app_l_Some).
  assert (owner (phase s) <> Some (length (pthreads s))) as Hnew.
  { intros E. apply H7 in E as [x Hx]. apply lookup_lt_Some in Hx. lia. }
  destruct (view_kept s s' eq_refl) as (El & Ers & Ec & Ed).
  { intros d Hd. destruct (H7 d Hd) as [x Hx]. rewrite Hx, (Hl _ _ Hx). split; [done|by left]. }
  split; [constructor; rewrite ?El, ?Ers, ?Ec|].
  - destruct H1 as [M1 M2]. split.
    + intros t th [Ht|[-> ->]]%snoc_cases; [by apply M1|]. split; [done|]. intros E%M2.
      destruct E as [x Hx%lookup_lt_Some]. lia.
    + intros t [x Hx]%M2. exists x. by apply Hl.
  - intros t th [Ht|[-> ->]]%snoc_cases; [by apply (H2 t th)|]. cbn. split; [done|].
    unfold routine_fine, worker_ok. cbn. change (phase s') with (phase s). destruct (phase s) as [|d| |d|d]; try done.
    + split; [|done]. cbn in Hnew. congruence.
    + left. split; [|done]. cbn in Hnew. congruence.
  - done.
  - done.
  - intros _. specialize (H5 Hcd). cbn. rewrite !total_snoc. cbn. lia.
  - intros t th f [Ht|[-> ->]]%snoc_cases Hc; [|done]. destruct (H6 t th f Ht Hc) as [H|(u & uh & old & Hu & Hs)]; [by left|].
    right. exists u, uh, old. auto.
  - intros d [x Hx]%H7. exists x. by apply Hl.
  - destruct H8 as [S1 S2 S3 S4 S5 S6].
    assert (forall f : thread -> list Z, f new_thread = [] -> pthreads s' ≫= f = pthreads s ≫= f) as E
      by (intros f Hf; cbn; rewrite bind_app; cbn; fold new_thread; rewrite Hf; by rewrite !app_nil_r).
    constructor; unfold stock; rewrite ?E, ?Ed by done; done.
  - exists ch. destruct H9 as [C1 C2 C3 C4 C5 C6 C7]. constructor; rewrite ?Ec, ?El; try done.
    + intros t. rewrite C2. split; intros (th & Ht & He); [eauto|]. apply snoc_cases in Ht as [Ht|[-> ->]]; [eauto|done].
    + intros i t th Hi Ht. apply snoc_cases in Ht as [Ht|[-> ->]].
      * eapply link_kept; [|by eapply C4]. intros l. apply living_snoc.
      * exfalso. assert (length (pthreads s) ∈ ch) as Hin by (by eapply list_elem_of_lookup_2).
        apply C2 in Hin as (th & Hth%lookup_lt_Some & _). lia.
    + intros H. by apply living_snoc, C5.
    + intros t th old Ht. apply snoc_cases in Ht as [Ht|[-> ->]]; [by eapply C6|done].
    + intros t th f u Ht. apply snoc_cases in Ht as [Ht|[-> ->]]; [by eapply C7|done].
Qed.

Lemma spawn_set t th th' s : pthreads s !! t = Some th ->
  set_thread t th' (pthread_create s) = pthread_create (set_thread t th' s).
Proof.
  intros Ht. unfold set_thread, pthread_create, set_pthreads. cbn. f_equal. apply insert_app_l. by eapply lookup_lt_Some.
Qed.

(** What [nthreads] is worth to the thread that is in the critical section. *)
Lemma user_busy s th pc : user_at (phase s) (level_of s) (nthreads (pool s)) pc th -> 
  routine_ok (level_of s) RoutineStart = true /\ busy (level_of s) = true /\
  match phase s with Creating _ | Open | Closing _ => True | _ => False end.
Proof.
  intros [(_ & _ & Hph & _)|(task & _ & _ & Hr & [Hph|[d Hph]])].
  - unfold level_of. by rewrite Hph.
  - unfold level_of. by rewrite Hph.
  - rewrite Hph. by destruct (level_of s).
Qed.

Lemma count_bounds s : sound s -> counted s = true -> Z.of_nat (length (pthreads s)) < 2 ^ 64 ->
  nthreads (pool s) + total counting (pthreads s) = total alive (pthreads s) /\ 0 <= total alive (pthreads s) < 2 ^ 64 /\
  0 <= total counting (pthreads s).
Proof.
  intros Hs Hc Hlen. pose proof (sound_count s Hs Hc). pose proof (total_bound alive (pthreads s) 1 alive_one).
  split; [lia|]. split; [lia|]. unfold total. lia.
Qed.

(** Only the thread in the critical section, or the creator, has a thread to count. *)
Lemma counting_critical s : sound s -> mutex (pool s) <> None -> (forall d, phase s <> Creating d) ->
  forall t th, pthreads s !! t = Some th -> mutex (pool s) <> Some t -> counting th = 0%nat.
Proof.
  intros Hs _ Hph t th Ht Hm. pose proof (sound_fine s Hs t th Ht) as Hf. unfold counting.
  destruct (call th) as [pc|] eqn:Hc; [|done]. destruct pc; try done.
  - exfalso. apply Hm. eapply critical_owner; [done..|]. unfold critical. by rewrite Hc.
  - destruct (call_cases _ _ _ _ _ _ Hf Hc) as [(_ & ? & _)|[(E & _)|(E & [(_ & ? & _)|(? & _ & ? & _)])]]; try done.
    by destruct (Hph t).
Qed.

Lemma counting_alone s t th : sound s -> pthreads s !! t = Some th -> mutex (pool s) = Some t -> (forall d, phase s <> Creating d) ->
  total counting (pthreads s) = Z.of_nat (counting th).
Proof.
  intros Hs Ht Hm Hph.
  pose proof (total_insert counting (pthreads s) t th (set_call None th) Ht) as E.
  rewrite (total_zero_iff counting (<[t := set_call None th]> (pthreads s))) in E; [cbn in E; lia|].
  intros u uh Hu. apply insert_cases in Hu as [(-> & -> & _)|[Hne Hu]]; [done|].
  eapply (counting_critical s Hs); [congruence|done|exact Hu|congruence].
Qed.

Lemma increase_leads s t th pc c : sound s -> pthreads s !! t = Some th -> call th = Some pc ->
  owner (phase s) <> Some t -> user_at (phase s) (level_of s) (nthreads (pool s)) pc th -> life th = Joinable ->
  Z.of_nat (length (pthreads s)) < 2 ^ 64 -> increase_pc pc = true -> leads t (increase_step t c pc th s).
Proof.
  intros Hs Ht Hc Ho Hu Hl Hlen Hpc. pose proof (user_resources s th pc Hs Hu) as Hr.
  destruct (user_busy s th pc Hu) as (Hst & Hb & Hph). destruct (busy_ok s Hb) as [_ Hcd].
  pose proof (user_drained s th pc Hs Hu) as Hd.
  assert (critical th = critical_call pc) as Hcr by (unfold critical; by rewrite Hc).
  assert (critical_call pc = true -> mutex (pool s) = Some t) as Hown.
  { intros E. eapply critical_owner; [done|done|congruence]. }
  assert (counting th = match pc with IncreaseCount => 1%nat | _ => 0%nat end) as Hcn by (unfold counting; rewrite Hc; by destruct pc).
  assert (forall s' pc', pthreads s' = <[t := at_call pc' th]> (pthreads s) -> phase s' = phase s -> messages s' = messages s ->
    entries s' = entries s -> scheduled s' = scheduled s -> taken s' = taken s -> begun s' = begun s -> handed s' = handed s ->
    increase_pc pc' = true \/ (exists r, pc' = Returned r) -> stocked s') as Hstk.
  { intros s' pc' Ep Eph Em Ee Es Eta Eb Eh Hpc'. destruct (holds_work th (user_work _ _ _ _ _ Hu) pc Hc) as (E1 & E2 & E3).
    destruct (holds_work (at_call pc' th) (user_work _ _ _ _ _ Hu) pc' eq_refl) as (F1 & F2 & F3).
    eapply (stock_kept s); try done; [apply (sound_stock s Hs)|by rewrite Em|..].
    - rewrite E1, F1. destruct pc; try done; destruct Hpc' as [|[r ->]]; try done; by destruct pc'.
    - rewrite E2, F2. destruct pc; try done; destruct Hpc' as [|[r ->]]; try done; by destruct pc'.
    - rewrite E3, F3. destruct pc; try done; destruct Hpc' as [|[r ->]]; try done; by destruct pc'.
    - erewrite drained_kept by done. by left. }
  destruct pc; try done; cbn [increase_step].
  - destruct (success c); apply leads_goes; eapply (use_step_by 0); try done; try (rewrite Hcn; cbn; lia);
      try (constructor; by rewrite Hcr); eapply Hstk; try done; eauto.
  - rewrite lock_ok by in_all. destruct (mutex (pool s)) eqn:Em; [apply leads_blocked|]. apply leads_goes.
    eapply (use_step_by 0); try done; [cbn; rewrite Em; constructor; by rewrite ?Hcr|rewrite Hcn; cbn; lia|].
    eapply Hstk; try done; eauto.
  - destruct (success c); apply leads_goes.
    + rewrite (spawn_set t th) by done. 
      assert (sound_by 1 (set_thread t (at_call IncreaseCount th) s)) as H1.
      { eapply (use_step_by 1); try done; [constructor; by rewrite Hcr|rewrite Hcn; cbn; lia|]. eapply Hstk; try done; eauto. }
      destruct (view_kept s (set_thread t (at_call IncreaseCount th) s) eq_refl) as (El & _ & Ec & _).
      { intros d Hd'. by apply not_owner_view. }
      apply spawn; [done|by rewrite El|by rewrite Ec|done].
    + eapply (use_step_by 0); try done; [constructor; by rewrite Hcr|rewrite Hcn; cbn; lia|]. eapply Hstk; try done; eauto.
  - rewrite needs_ok by in_all. destruct (count_bounds s Hs Hcd Hlen) as (E1 & E2 & E3).
    rewrite (counting_alone s t th Hs Ht (Hown eq_refl)), Hcn in E1.
    + unfold u64. rewrite Z.mod_small by lia. apply leads_goes.
      eapply (use_step_by 0); try done; [constructor; by rewrite Hcr|cbn; lia|rewrite Hcn; cbn; lia|]. eapply Hstk; try done; eauto.
    + intros d E. destruct Hu as [(_ & _ & E' & _)|(task & _ & _ & _ & [E'|[d' E']])]; congruence.
  - rewrite unlock_ok by (in_all || by apply Hown). apply leads_goes.
    eapply (use_step_by 0); try done; [cbn; rewrite Hown by done; constructor; by rewrite ?Hcr|rewrite Hcn; cbn; lia|].
    eapply Hstk; try done; eauto.
Qed.

(** ** The threads of the pool *)

Definition working (s : state) (t : nat) (p : routine_pc) (th : thread) : Prop :=
  pthreads s !! t = Some th /\ call th = None /\ work th = Routine p /\ owner (phase s) <> Some t /\ life th = Joinable /\
  specific th = negb (is_start p) /\ worker_ok (phase s) (level_of s) p None /\
  match phase s with Creating _ | Open | Closing _ => True | _ => False end.

Lemma routine_cases s t th p : sound s -> pthreads s !! t = Some th -> call th = None -> work th = Routine p ->
  working s t p th \/
  (phase s = Gone t /\ life th = Detached /\ match p with RoutineTask _ | RoutineCheck | RoutineRelease => True | _ => False end).
Proof.
  intros Hs Ht Hc Hw. pose proof (sound_fine s Hs t th Ht) as Hf. unfold fine in Hf. rewrite Hw in Hf.
  destruct Hf as [Hsp Hf]. unfold working. unfold routine_fine in Hf. rewrite Hc in Hf.
  destruct (phase s) as [|d| |d|d] eqn:Ep; cbn [owner].
  - destruct Hf as (_ & _ & [] & _).
  - destruct Hf as (Hd & Hl & Hr). left. repeat split; try done; [congruence|apply Hr..].
  - destruct Hf as (Hl & Hr). left. repeat split; try done; apply Hr.
  - destruct Hf as [(Hd & Hl & Hr)|(-> & task & pc & _ & H & _)]; [|done]. left. repeat split; try done; [congruence|apply Hr..].
  - destruct Hf as (-> & _ & Hl & Hp). right. auto.
Qed.

Lemma working_busy s t p th : working s t p th -> busy (level_of s) = true.
Proof. intros (_ & _ & _ & _ & _ & _ & [Hr _] & _). by destruct (level_of s), p. Qed.

Definition worker (p : routine_pc) : thread := Thread (Routine p) None Joinable (negb (is_start p)).

Lemma working_eq s t p th : working s t p th -> th = worker p.
Proof. destruct th as [w c l sp]. intros (_ & Hc & Hw & _ & Hl & Hsp & _). cbn in *. by subst. Qed.

(** A statement of a thread of the pool. *)
Lemma work_step s s' t p p' : sound s -> working s t p (worker p) ->
  pthreads s' = <[t := worker p']> (pthreads s) -> phase s' = phase s -> resources s' = resources s ->
  terminate (pool s') = terminate (pool s) -> (messages s').2 = (messages s).2 ->
  worker_ok (phase s) (level_of s) p' None ->
  mutex_step t critical (worker p) (worker p') (mutex (pool s)) (mutex (pool s')) ->
  (0 < nthreads (pool s) -> 0 < nthreads (pool s')) \/ phase s <> Open ->
  nthreads (pool s') + Z.of_nat (alive (worker p)) = nthreads (pool s) + Z.of_nat (alive (worker p')) ->
  awaited s' -> stocked s' -> (exists ch, chained s' ch) -> sound s'.
Proof.
  intros Hs Hw Ep Eph Er Et Em Hok Hm Hn Hc Ha Hst Hch. pose proof (working_busy _ _ _ _ Hw) as Hb.
  destruct Hw as (Ht & _ & _ & Ho & _ & _ & _ & Hph). eapply (user_step 0); try done.
  - unfold fine. cbn. split; [done|]. unfold routine_fine. destruct (phase s) as [|d| |d|d]; try done; cbn [owner] in Ho.
    + split; [congruence|]. done.
    + left. split; [congruence|]. done.
  - pose proof (sound_level s Hs) as HL. unfold level_ok in HL |- *. destruct (level_of s); try done; rewrite Et, Em; done.
  - intros _. change (counting (worker p')) with 0%nat. change (counting (worker p)) with 0%nat. lia.
Qed.

Lemma working_drained s t p th : working s t p th -> phase s <> Creating t -> (forall d, phase s <> Creating d) -> drained s = false.
Proof.
  intros Hw _ Hd. pose proof (working_busy _ _ _ _ Hw). apply busy_open; [done|].
  destruct Hw as (_ & _ & _ & _ & _ & _ & _ & Hph). destruct (phase s) as [|d| |d|d]; try done; eauto. by destruct (Hd d).
Qed.

Definition exit_pc (p : routine_pc) : bool :=
  match p with RoutineCount _ | RoutineSignal _ | RoutineUnlock _ | RoutineJoin _ => true | _ => false end.

Lemma exited_worker p : exited (worker p) = exit_pc p.
Proof. by destruct p. Qed.

Definition entry_pc (p : routine_pc) : list Z := match p with RoutineFree b => [b] | _ => [] end.

Lemma worker_entries p : holds (worker p) = entry_pc p /\ removed (worker p) = entry_pc p /\ filled (worker p) = entry_pc p.
Proof. by destruct p. Qed.

Definition old_of (p : routine_pc) : option (option nat) :=
  match p with RoutineCount old | RoutineSignal old | RoutineUnlock old => Some old | RoutineJoin old => Some (Some old) | _ => None end.

Definition set_pc (p : routine_pc) : bool := match p with RoutineSet _ => true | _ => false end.

(** A step that neither changes the entries nor joins nor counts. *)
Lemma calm_step s s' t p p' : sound s -> working s t p (worker p) ->
  pthreads s' = <[t := worker p']> (pthreads s) -> phase s' = phase s -> resources s' = resources s ->
  set_mutex None (pool s') = set_mutex None (pool s) -> messages s' = messages s -> entries s' = entries s -> scheduled s' = scheduled s ->
  taken s' = taken s -> begun s' = begun s -> handed s' = handed s ->
  worker_ok (phase s) (level_of s) p' None -> entry_pc p' = entry_pc p -> before_count p' = before_count p ->
  exit_pc p' = exit_pc p -> old_of p' = old_of p -> (forall old, p' = RoutineSet old -> old = tid (pool s)) ->
  (forall old, p <> RoutineSignal old) \/ (forall u uh f, pthreads s !! u = Some uh -> call uh <> Some (Terminate f TermWait)) ->
  mutex_step t critical (worker p) (worker p') (mutex (pool s)) (mutex (pool s')) -> sound s'.
Proof.
  intros Hs Hw Ep Eph Er Epl Em Ee Es Eta Eb Eh Hok Hen Hbc Hx Hold Hset Hsig Hm.
  pose proof Hw as (Ht & _ & _ & Ho & _). destruct (sound_chain s Hs) as [ch Hch].
  injection Epl as En Etid Etm. destruct (worker_entries p) as (W1 & W2 & W3), (worker_entries p') as (W1' & W2' & W3').
  destruct (view_kept s s' Eph) as (El & Ers & Ec & Ed); [intros d Hd; rewrite Ep; by apply not_owner_view|].
  eapply work_step; try done.
  - by rewrite Em.
  - left. by rewrite En.
  - rewrite En. unfold alive. cbn. by rewrite Hbc.
  - destruct Hsig as [Hsig|Hnone].
    + eapply awaited_kept; try done; [apply (sound_awaited s Hs)| |rewrite En; auto].
      intros old [= E]. by apply (Hsig old).
    + intros u uh f Hu Hc. rewrite Ep in Hu. apply insert_cases in Hu as [(-> & -> & _)|[_ Hu]]; [done|].
      by destruct (Hnone u uh f Hu).
  - eapply (stock_kept s); try done; [apply (sound_stock s Hs)|by rewrite Em|congruence..|]. rewrite Ed. auto.
  - exists ch. eapply chain_kept; try done; rewrite ?El, ?Ec, ?exited_worker; try done.
    + by left.
    + intros ts prev _. unfold link_ok. destruct p, p'; cbn in *; simplify_eq; done.
    + cbn. intros old [= ->]. rewrite Etid. by apply Hset.
Qed.

(** The owner that is in [__thrdpool_terminate]. *)
Lemma terminating s u uh f p : base_by 0 s -> pthreads s !! u = Some uh -> call uh = Some (Terminate f p) ->
  owner (phase s) = Some u /\ (phase s = Creating u \/ phase s = Closing u) /\ level_of s = level_term p.
Proof.
  intros Hs Ht Hc. destruct (call_cases _ _ _ _ _ _ (sound_fine s Hs u uh Ht) Hc) as [(_ & E & _)|[(E & _)|(E & _)]]; [done|..];
    unfold level_of, call_at; rewrite E, Ht; cbn; rewrite Hc; cbn; auto.
Qed.

(** The sleeper wakes up, by a signal or spuriously. *)
Lemma terminator s d th f : sound s -> pthreads s !! d = Some th -> call th = Some (Terminate f TermWait) ->
  owner (phase s) = Some d /\ (phase s = Creating d \/ phase s = Closing d) /\ level_of s = Waiting.
Proof. intros [Hs _]. by apply terminating. Qed.

Lemma wake_sound s d th f : sound s -> pthreads s !! d = Some th -> call th = Some (Terminate f TermWait) ->
  sound (set_thread d (at_call (Terminate f TermWake) th) s).
Proof.
  intros Hs Ht Hc. destruct (terminator s d th f Hs Ht Hc) as (Ho & Hph & Hlv). set (s' := set_thread d _ s).
  assert (d < length (pthreads s))%nat as Hlt by (by eapply lookup_lt_Some).
  destruct (view_kept s s' eq_refl) as (El & Ers & Ec & Ed).
  { intros d' E. assert (d' = d) as -> by congruence. cbn. rewrite list_lookup_insert_eq, Ht by done.
    split; [done|]. right. by exists f. }
  destruct Hs as [[H1 H2 H3 H4 H5 H6 H7 H8] [ch H9]]. split; [constructor; rewrite ?El, ?Ers, ?Ec|]; try done.
  - eapply mutex_keep; [done|done|]. unfold critical. cbn. by rewrite Hc.
  - intros u uh Hu. apply insert_cases in Hu as [(-> & -> & _)|[_ Hu]]; [|by apply H2].
    specialize (H2 d th Ht). revert H2. unfold fine. cbn. destruct (work th) as [|p|]; rewrite ?Hc.
    + intros (E1 & E2 & E3). split; [done|]. split; [done|]. revert E3. unfold client_ok.
      destruct Hph as [-> | ->]; cbn; by destruct f.
    + intros (E1 & E2). split; [done|]. revert E2. unfold routine_fine, worker_ok. cbn. rewrite Hc.
      destruct Hph as [-> | ->]; cbn.
      * intros (_ & _ & _ & _ & E & _). done.
      * intros [(E & _)|(_ & task & pc & -> & [= <-] & E & E')]; [done|]. right. split; [done|].
        exists task, (Terminate f TermWake). auto.
    + by intros [? _].
  - intros Hcd%H5. cbn.
    pose proof (total_insert counting _ _ _ (at_call (Terminate f TermWake) th) Ht) as T1.
    pose proof (total_insert alive _ _ _ (at_call (Terminate f TermWake) th) Ht) as T2.
    assert (counting th = 0%nat) as E1 by (unfold counting; by rewrite Hc).
    assert (alive (at_call (Terminate f TermWake) th) = alive th) as E2.
    { unfold alive, counted_out. cbn. by rewrite Hc. }
    change (counting (at_call (Terminate f TermWake) th)) with 0%nat in T1. lia.
  - eapply awaited_kept; try done.
    + intros old Hw. specialize (H2 d th Ht). unfold fine, routine_fine, worker_ok in H2. rewrite Hw, Hc in H2.
      destruct H2 as [_ H2]. destruct Hph as [Hph|Hph]; rewrite Hph in H2; cbn in H2.
      * destruct H2 as (_ & _ & _ & _ & E & _). done.
      * destruct H2 as [(E & _)|(_ & task & pc & E & _)]; done.
    + auto.
  - intros d' [x Hx]%H7. cbn. apply lookup_lt_is_Some. rewrite length_insert. by eapply lookup_lt_Some.
  - eapply (stock_kept s); try done; try (unfold holds, removed, filled; cbn; by rewrite Hc). rewrite Ed. auto.
  - exists ch. eapply (chain_kept s); try done; rewrite ?El, ?Ec; try done.
    + by left.
    + intros old Hw. cbn in Hw. by apply (chain_old s ch H9 d th).
Qed.

Lemma working_resources s t p th : sound s -> working s t p th -> resources s = all_resources /\ counted s = true.
Proof.
  intros Hs Hw. pose proof (working_busy s t p th Hw) as Hb. destruct (busy_ok s Hb) as [E ->].
  by rewrite (sound_resources s Hs).
Qed.

Lemma working_critical s t p : sound s -> working s t p (worker p) -> critical_routine p = true -> mutex (pool s) = Some t.
Proof. intros Hs (Ht & _) Hc. eapply critical_owner; [done|exact Ht|done]. Qed.

(** The levels at which a thread leaves the pool. *)
Definition leaving (p : routine_pc) : bool :=
  match p with
  | RoutineSave | RoutineSet _ | RoutineCount _ | RoutineSignal _ | RoutineUnlock _ => true
  | _ => false
  end.

Lemma leaving_waiting s t p th : working s t p th -> leaving p = true -> level_of s = Waiting.
Proof. intros (_ & _ & _ & _ & _ & _ & [Hr _] & _) Hp. by destruct (level_of s), p. Qed.

(** From here on the thread goes on as at the old statement. *)
Lemma worker_ok_next ph lv p p' : worker_ok ph lv p None -> (routine_ok lv p = true -> routine_ok lv p' = true) ->
  (touches_task p' = true -> touches_task p = true) -> worker_ok ph lv p' None.
Proof.
  intros (H1 & H2 & _) Hr Ht. split; [auto|]. split; [|done]. destruct ph; try done.
  destruct (touches_task p'); [|done]. by rewrite Ht in H2.
Qed.

(** Only a task is in a call. *)
Lemma routine_idle s u uh p : sound s -> pthreads s !! u = Some uh -> work uh = Routine p -> (forall task, p <> RoutineTask task) ->
  call uh = None.
Proof.
  intros Hs Hu Hw Hp. destruct (call uh) as [pc|] eqn:Hc; [|done]. exfalso.
  destruct (call_cases _ _ _ _ _ _ (sound_fine s Hs u uh Hu) Hc)
    as [(_ & _ & _ & [(E & _)|(task & E & _)])|[(_ & E & _)|(_ & [(E & _)|(task & E & _)])]]; try congruence.
Qed.

Lemma set_sound s t old : sound s -> working s t (RoutineSet old) (worker (RoutineSet old)) ->
  sound (set_thread t (worker (RoutineCount old)) (set_pool (set_tid (Some t) (pool s)) s)).
Proof.
  intros Hs Hw. pose proof Hw as (Ht & _ & _ & Ho & _ & _ & Hok & _). set (s' := set_thread t _ _).
  destruct (view_kept s s' eq_refl) as (El & Ers & Ec & Ed); [intros d Hd; exact (not_owner_view s t _ d Ho Hd)|].
  pose proof (leaving_waiting s t _ _ Hw eq_refl) as Hlv.
  assert (mutex (pool s) = Some t) as Hm by (by eapply working_critical).
  destruct (sound_chain s Hs) as [ch Hch]. pose proof Hch as [C1 C2 C3 C4 C5 C6 C7].
  eapply (work_step s s'); try done.
  - by constructor.
  - by left.
  - eapply awaited_kept; try done; [apply (sound_awaited s Hs)|]. auto.
  - eapply (stock_kept s); try done; [apply (sound_stock s Hs)|]. rewrite Ed. auto.
  - assert (t ∉ ch) as Hnew by (intros (th & E & Hx)%C2; rewrite Ht in E; by injection E as <-).
    assert (old = head ch) as ->.
    { rewrite <- C3 by (eapply working_resources; done). by eapply C6. }
    assert (forall l u, (forall v, u = Some v -> v <> t) -> living l (pthreads s) u -> living l (pthreads s') u) as Hliv.
    { intros l u Hu. apply living_kept. intros v vh -> Hv. exists vh. split; [|done]. cbn. rewrite list_lookup_insert_ne; [done|].
      intros ->. by apply (Hu v). }
    assert (forall v, v ∈ ch -> v <> t) as Hin by (intros v Hv ->; done).
    exists (t :: ch). constructor; rewrite ?El.
    + by apply NoDup_cons.
    + intros u. rewrite elem_of_cons, C2. split.
      * intros [->|(uh & Hu & Hx)]; [exists (worker (RoutineCount (head ch))); split; [|done]; cbn; apply list_lookup_insert_eq; by eapply lookup_lt_Some|].
        exists uh. split; [|done]. cbn. rewrite list_lookup_insert_ne; [done|]. intros <-. rewrite Ht in Hu. by injection Hu as <-.
      * intros (uh & Hu & Hx). apply insert_cases in Hu as [(-> & -> & _)|[Hne Hu]]; [by left|right; eauto].
    + done.
    + intros [|i] u uh Hi Hu; cbn in Hi.
      * injection Hi as ->. apply insert_cases in Hu as [(_ & -> & _)|[Hne _]]; [|done]. cbn.
        replace (ch !! 0%nat) with (head ch) by (by destruct ch). split; [done|]. apply Hliv; [|apply C5; by rewrite Hlv].
        intros v Hv. apply Hin. destruct ch as [|c ch]; [done|]. injection Hv as ->. apply list_elem_of_here.
      * assert (u ∈ ch) as Huc by (by eapply list_elem_of_lookup_2).
        apply insert_cases in Hu as [(-> & _)|[Hne Hu]]; [done|]. eapply link_kept; [|by eapply C4].
        intros l. apply Hliv. intros v Hv. apply Hin. by eapply list_elem_of_lookup_2.
    + intros _. exists (worker (RoutineCount (head ch))). split; [|done]. cbn. apply list_lookup_insert_eq. by eapply lookup_lt_Some.
    + intros u uh old Hu Hset. apply insert_cases in Hu as [(-> & -> & _)|[Hne Hu]]; [done|].
      exfalso. apply Hne. enough (mutex (pool s) = Some u) by congruence. eapply critical_owner; [done|exact Hu|].
      unfold critical. by rewrite Hset, (routine_idle s u uh _ Hs Hu Hset).
    + intros u uh f v Hu Hcall. apply insert_cases in Hu as [(-> & -> & _)|[Hne Hu]]; [done|].
      destruct (terminating s u uh f _ Hs Hu Hcall) as (_ & _ & E). rewrite Hlv in E. done.
Qed.

(** The thread in the critical section knows how many threads there are. *)
Lemma counting_none s t p : sound s -> working s t p (worker p) -> leaving p = true -> p <> RoutineSave -> mutex (pool s) = Some t ->
  total counting (pthreads s) = 0.
Proof.
  intros Hs Hw Hp _ Hm. apply total_zero_iff. intros u uh Hu. unfold counting.
  destruct (call uh) as [pc|] eqn:Hc; [|done]. pose proof (leaving_waiting s t p _ Hw Hp) as Hlv.
  destruct pc; try done; exfalso.
  - assert (mutex (pool s) = Some u) as E by (eapply critical_owner; [done|exact Hu|]; unfold critical; by rewrite Hc).
    assert (u = t) as -> by congruence. destruct Hw as (Ht & Hcall & _). cbn in Hcall. rewrite Ht in Hu. by injection Hu as <-.
  - destruct (call_cases _ _ _ _ _ _ (sound_fine s Hs u uh Hu) Hc) as [(_ & ? & _)|[(E & _)|(E & [(_ & ? & _)|(? & _ & ? & _)])]]; try done.
    unfold level_of, call_at in Hlv. rewrite E, Hu in Hlv. cbn in Hlv. by rewrite Hc in Hlv.
Qed.

Lemma kept_counters s s' t th' : phase s' = phase s -> owner (phase s) <> Some t -> pthreads s' = <[t := th']> (pthreads s) ->
  level_of s' = level_of s /\ counted s' = counted s /\ drained s' = drained s.
Proof.
  intros Eph Ho Ep. destruct (view_kept s s' Eph) as (El & _ & Ec & Ed); [|auto].
  intros d Hd. rewrite Ep. by apply not_owner_view.
Qed.

Lemma count_sound s t old : sound s -> working s t (RoutineCount old) (worker (RoutineCount old)) ->
  Z.of_nat (length (pthreads s)) < 2 ^ 64 ->
  let n := u64 (nthreads (pool s) - 1) in
  sound (set_thread t (worker (if n =? 0 then RoutineSignal old else RoutineUnlock old)) (set_pool (set_nthreads n (pool s)) s)).
Proof.
  intros Hs Hw Hlen. pose proof Hw as (Ht & _ & _ & Ho & _ & _ & Hok & _).
  pose proof (leaving_waiting s t _ _ Hw eq_refl) as Hlv. destruct (working_resources s t _ _ Hs Hw) as [Hr Hcd].
  assert (mutex (pool s) = Some t) as Hm by (by eapply working_critical).
  destruct (count_bounds s Hs Hcd Hlen) as (E1 & E2 & E3).
  rewrite (counting_none s t _ Hs Hw eq_refl) in E1 by done. pose proof (total_at alive _ _ _ Ht) as E4. cbn in E4.
  cbn zeta. unfold u64. rewrite Z.mod_small by lia. set (p' := if _ =? 0 then _ else _).
  assert (before_count p' = false /\ exit_pc p' = true /\ old_of p' = Some old /\ critical_routine p' = true /\ set_pc p' = false)
    as (F1 & F2 & F3 & F4 & F5) by (subst p'; by destruct (_ =? 0)).
  set (s' := set_thread t _ _). destruct (kept_counters s s' t _ eq_refl Ho eq_refl) as (El & Ec & Ed).
  eapply (work_step s s'); try done.
  - eapply worker_ok_next; [done|rewrite Hlv; subst p'; by destruct (_ =? 0)|subst p'; by destruct (_ =? 0)].
  - cbn. rewrite Hm. constructor. unfold critical. cbn. by rewrite F4.
  - right. apply waiting_not_open. auto.
  - unfold alive. cbn. rewrite F1. cbn. lia.
  - eapply awaited_kept; try done; [apply (sound_awaited s Hs)|].
    intros _. cbn. subst p'. destruct (Z.eqb_spec (nthreads (pool s) - 1) 0); [right; eauto|left; lia].
  - destruct (worker_entries p') as (W1 & W2 & W3). eapply (stock_kept s); try done; [apply (sound_stock s Hs)|..].
    + subst p'. by destruct (_ =? 0).
    + subst p'. by destruct (_ =? 0).
    + subst p'. by destruct (_ =? 0).
    + rewrite Ed. auto.
  - destruct (sound_chain s Hs) as [ch Hch]. exists ch. eapply (chain_kept s); try done; rewrite ?El, ?Ec, ?exited_worker; try done.
    + by left.
    + intros ts prev _. subst p'. by destruct (_ =? 0).
    + subst p'. intros o. by destruct (_ =? 0).
Qed.

Lemma working_kept s s' t p d th' : working s t p (worker p) -> d <> t -> pthreads s' = <[d := th']> (pthreads s) -> phase s' = phase s ->
  level_of s' = level_of s -> working s' t p (worker p).
Proof.
  intros (Ht & Hw) Hd Ep Eph El. split; [by rewrite Ep, list_lookup_insert_ne|]. by rewrite Eph, El.
Qed.

(** A statement of a thread of the pool that is calm once the sleeper, if any, is awake. *)
Lemma signal_leads s t old : sound s -> working s t (RoutineSignal old) (worker (RoutineSignal old)) ->
  leads t (let! s := pthread_cond_signal s in goes (worker (RoutineUnlock old)) s).
Proof.
  intros Hs Hw. pose proof Hw as (Ht & _ & _ & Ho & _ & _ & Hok & Hph).
  pose proof (leaving_waiting s t _ _ Hw eq_refl) as Hlv.
  pose proof (sound_level s Hs) as HL. rewrite Hlv in HL. cbn in HL. destruct HL as [Hnb Hterm].
  unfold pthread_cond_signal. rewrite Hterm.
  assert (exists d, owner (phase s) = Some d /\ (phase s = Creating d \/ phase s = Closing d)) as (d & Hd & Hd').
  { unfold level_of in Hlv. destruct (phase s) as [|d| |d|d]; try done; exists d; auto. }
  rewrite Hd. destruct (sound_owner s Hs d Hd) as [th Hth]. rewrite Hth.
  assert (exists f p, call th = Some (Terminate f p) /\ level_term p = Waiting) as (f & p & Hc & Hp).
  { unfold level_of, call_at in Hlv. destruct Hd' as [E|E]; rewrite E, Hth in Hlv; cbn in Hlv;
      destruct (call th) as [[]|]; cbn in Hlv; try done; eauto. by destruct (r =? 0). }
  rewrite Hc. assert (d <> t) as Hne by congruence.
  assert (forall s1, sound s1 -> working s1 t (RoutineSignal old) (worker (RoutineSignal old)) ->
    (forall u uh f, pthreads s1 !! u = Some uh -> call uh <> Some (Terminate f TermWait)) ->
    sound (set_thread t (worker (RoutineUnlock old)) s1)) as Hgo.
  { intros s1 Hs1 Hw1 Hnone. pose proof Hw1 as (_ & _ & _ & _ & _ & _ & Hok1 & _).
    pose proof (leaving_waiting s1 t _ _ Hw1 eq_refl) as Hlv1.
    eapply (calm_step s1); try done; try (by right); try (by constructor). }
  assert (forall u uh f, pthreads s !! u = Some uh -> call uh = Some (Terminate f TermWait) -> u = d) as Honly.
  { intros u uh f' Hu Hcu. destruct (terminating s u uh f' _ Hs Hu Hcu) as [E _]. congruence. }
  assert (p <> TermWait -> leads t (goes (worker (RoutineUnlock old)) s)) as Hother.
  { intros Hnw. apply leads_goes. apply Hgo; [done|done|]. intros u uh f' Hu Hcu.
    assert (u = d) as -> by (by eapply Honly). congruence. }
  destruct p; try done; cbn [cbind]; [by apply Hother..| |by apply Hother].
  apply leads_goes. pose proof (wake_sound s d th f Hs Hth Hc) as Hws.
  apply (Hgo (set_thread d (at_call (Terminate f TermWake) th) s)); [done| |].
  - eapply working_kept; [done|done|reflexivity|done|]. eapply view_kept; [done|].
    intros d' Ed'. assert (d' = d) as -> by congruence. cbn. rewrite list_lookup_insert_eq, Hth by (by eapply lookup_lt_Some).
    split; [done|]. right. by exists f.
  - intros u uh f' Hu Hcu. apply insert_cases in Hu as [(-> & -> & _)|[Hu' Hu]]; [done|]. by apply Hu', (Honly u uh f').
Qed.

(** *** Joining *)

Lemma ended_call ph lv n t th : fine ph lv n t th -> work th = Ended -> call th = None.
Proof. unfold fine. intros H E. rewrite E in H. by destruct H. Qed.

(** An ended thread that nobody has joined is not the owner while the pool is
    in use. *)
Lemma ended_not_owner s u uh : sound s -> busy (level_of s) = true -> pthreads s !! u = Some uh -> work uh = Ended -> 
  owner (phase s) <> Some u.
Proof.
  intros Hs Hb Hu Hw Ho. pose proof (sound_fine s Hs u uh Hu) as Hf. unfold fine in Hf. rewrite Hw in Hf.
  destruct Hf as (_ & _ & Hf). unfold level_of in Hb. destruct (phase s); try done; cbn in Ho, Hf; destruct (life uh); congruence.
Qed.

Lemma retire s u uh : base_by 0 s -> pthreads s !! u = Some uh -> work uh = Ended -> life uh = Joinable -> call uh = None ->
  owner (phase s) <> Some u -> base_by 0 (set_thread u (set_life Joined uh) s).
Proof.
  intros Hs Hu Hw Hl Hc Ho. set (s' := set_thread _ _ _).
  destruct (kept_counters s s' u _ eq_refl Ho eq_refl) as (El & Ec & Ed).
  eapply (user_base 0 s s'); try done.
  - constructor. unfold critical. cbn. by rewrite Hc.
  - pose proof (sound_fine s Hs u uh Hu) as Hf. unfold fine in Hf |- *. cbn. rewrite Hw, Hl in *. done.
  - by left.
  - apply (sound_level s Hs).
  - intros _. unfold counting, alive. cbn. rewrite Hc, Hw. lia.
  - eapply awaited_kept; try done; [apply (sound_awaited s Hs)|..|auto]; intros ?; cbn; [by rewrite Hc|by rewrite Hw].
  - eapply (stock_kept s); try done; [apply (sound_stock s Hs)|]. rewrite Ed. auto.
Qed.

(** The last of the chain that a thread waits for. *)
Lemma chain_pred s ch i t th u : chained s ch -> ch !! i = Some t -> pthreads s !! t = Some th ->
  ch !! S i = Some u -> u <> t.
Proof.
  intros [C1 _ _ _ _ _ _] Hi _ Hu ->. pose proof (NoDup_lookup _ _ _ _ C1 Hi Hu). lia.
Qed.

(** One thread of the chain joins the next. *)
Lemma chain_join s s' ch i t th th' u uh : chained s ch -> ch !! i = Some t -> ch !! S i = Some u ->
  pthreads s !! t = Some th -> pthreads s !! u = Some uh -> work uh = Ended -> call uh = None -> life uh = Joinable ->
  pthreads s' = <[t := th']> (<[u := set_life Joined uh]> (pthreads s)) ->
  work th' = Ended -> call th' = None -> life th' = life th -> life th = Joinable ->
  counted s' = counted s -> tid (pool s') = tid (pool s) -> level_of s' = level_of s -> chained s' ch.
Proof.
  intros Hch Hi Hi' Ht Hu Hwu Hcu Hlu Ep Hwt Hct El Elt Ec Etid Elv. pose proof (chain_pred s ch i t th u Hch Hi Ht Hi') as Hut.
  destruct Hch as [C1 C2 C3 C4 C5 C6 C7].
  assert (t < length (pthreads s) /\ u < length (pthreads s))%nat as [Lt Lu] by (split; by eapply lookup_lt_Some).
  assert (pthreads s' !! t = Some th') as Gt by (rewrite Ep; apply list_lookup_insert_eq; by rewrite length_insert).
  assert (pthreads s' !! u = Some (set_life Joined uh)) as Gu
    by (rewrite Ep, list_lookup_insert_ne by done; by apply list_lookup_insert_eq).
  assert (forall v, v <> t -> v <> u -> pthreads s' !! v = pthreads s !! v) as Go by (intros; by rewrite Ep, !list_lookup_insert_ne).
  assert (forall l v, v <> Some u -> living l (pthreads s) v -> living l (pthreads s') v) as Hliv.
  { intros l v Hv. apply living_kept. intros w wh -> Hw. destruct (decide (w = t)) as [->|Hwt'].
    - exists th'. split; [done|congruence].
    - exists wh. split; [|done]. rewrite Go; congruence. }
  assert (forall j, ch !! j = Some u -> j = S i) as Hj by (intros j Hj; by eapply NoDup_lookup).
  constructor; rewrite ?Ec, ?Etid, ?Elv; try done.
  - intros v. rewrite C2. destruct (decide (v = t)) as [->|Hvt]; [|destruct (decide (v = u)) as [->|Hvu]].
    + rewrite Gt, Ht. split; intros _.
      * exists th'. unfold exited. by rewrite Hwt, El, Elt.
      * destruct (C2 t) as [H _]. destruct H as (x & Hx & He); [by eapply list_elem_of_lookup_2|]. exists x. split; [congruence|done].
    + rewrite Gu, Hu. split; intros _.
      * exists (set_life Joined uh). unfold exited. cbn. by rewrite Hwu.
      * exists uh. unfold exited. by rewrite Hwu, Hlu.
    + by rewrite Go.
  - intros j v vh Hjv Hv. destruct (decide (v = t)) as [->|Hvt]; [|destruct (decide (v = u)) as [->|Hvu]].
    + rewrite Gt in Hv. injection Hv as <-. assert (j = i) as -> by (by eapply NoDup_lookup). rewrite Hi'.
      unfold link_ok. rewrite Hwt. eexists. split; [exact Gu|done].
    + rewrite Gu in Hv. injection Hv as <-. rewrite (Hj j Hjv). unfold link_ok. cbn. rewrite Hwu.
      apply Hliv; [intros E; apply Hj in E; lia|]. pose proof (C4 (S i) u uh Hi' Hu) as H. unfold link_ok in H. by rewrite Hwu in H.
    + rewrite Go in Hv by done. pose proof (C4 j v vh Hjv Hv) as H. eapply link_kept; [|exact H].
      intros l. apply Hliv. intros E%Hj. assert (j = i) as -> by lia. congruence.
  - intros H. apply Hliv; [|auto]. intros E. assert (0%nat = S i) by (apply (NoDup_lookup ch _ _ u C1); [by destruct ch|done]). done.
  - intros v vh old Hv Hw. destruct (decide (v = t)) as [->|Hvt]; [congruence|destruct (decide (v = u)) as [->|Hvu]].
    + rewrite Gu in Hv. injection Hv as <-. cbn in Hw. congruence.
    + rewrite Go in Hv by done. by eapply C6.
  - intros v vh f w Hv Hw. destruct (decide (v = t)) as [->|Hvt]; [congruence|destruct (decide (v = u)) as [->|Hvu]].
    + rewrite Gu in Hv. injection Hv as <-. cbn in Hw. congruence.
    + rewrite Go in Hv by done. by eapply C7.
Qed.

Definition ended : thread := Thread Ended None Joinable true.

(** A thread of the pool ends. *)
Lemma end_base s s' t p : base_by 0 s -> working s t p (worker p) -> 
  pthreads s' = <[t := ended]> (pthreads s) -> phase s' = phase s -> resources s' = resources s ->
  nthreads (pool s') = nthreads (pool s) -> terminate (pool s') = terminate (pool s) -> messages s' = messages s ->
  entries s' = entries s -> scheduled s' = scheduled s -> taken s' = taken s -> begun s' = begun s -> handed s' = handed s ->
  before_count p = false -> (forall old, p <> RoutineSignal old) -> entry_pc p = [] ->
  mutex_step t critical (worker p) ended (mutex (pool s)) (mutex (pool s')) -> base_by 0 s'.
Proof.
  intros Hs Hw Ep Eph Er En Et Em Ee Es Eta Eb Eh Hbc Hsig Hen Hm. pose proof (working_busy _ _ _ _ Hw) as Hb.
  pose proof Hw as (Ht & _ & _ & Ho & _ & _ & _ & Hph). destruct (worker_entries p) as (W1 & W2 & W3).
  destruct (kept_counters s s' t _ Eph Ho Ep) as (El & Ec & Ed).
  eapply (user_base 0 s s'); try done.
  - unfold fine. cbn. split; [done|]. split; [by intros E; rewrite E in Hb|]. destruct (phase s); try done; cbn in Ho; congruence.
  - left. by rewrite En.
  - rewrite Em. pose proof (sound_level s Hs) as HL. unfold level_ok in HL |- *. destruct (level_of s); try done; by rewrite Et.
  - intros _. rewrite En. unfold alive, counted_out. cbn. rewrite Hbc. cbn. lia.
  - eapply awaited_kept; try done; [apply (sound_awaited s Hs)| |rewrite En; auto]. intros old [= E]. by apply (Hsig old).
  - eapply (stock_kept s); try done; [apply (sound_stock s Hs)|by rewrite Em|rewrite Ed; auto].
Qed.

Lemma end_sound s s' t p : sound s -> working s t p (worker p) -> (p = RoutineUnlock None) ->
  s' = set_thread t ended (set_pool (set_mutex None (pool s)) s) -> sound s'.
Proof.
  intros Hs Hw -> ->. pose proof Hw as (Ht & _ & _ & Ho & _).
  assert (mutex (pool s) = Some t) as Hm by (by eapply working_critical). split.
  - eapply (end_base s); try done; [apply Hs|]. cbn. rewrite Hm. by constructor.
  - set (s' := set_thread _ _ _). destruct (kept_counters s s' t _ eq_refl Ho eq_refl) as (El & Ec & Ed).
    destruct (sound_chain s Hs) as [ch Hch]. exists ch. eapply (chain_kept s); try done; rewrite ?El, ?Ec; try done.
    + by left.
    + intros ts prev _ [<- _]. done.
Qed.

Lemma join_leads s t old : sound s -> working s t (RoutineJoin old) (worker (RoutineJoin old)) ->
  leads t (let! r := pthread_join t old s in match r with Some s => goes ended s | None => blocked end).
Proof.
  intros Hs Hw. pose proof Hw as (Ht & _ & _ & Ho & _ & _ & _ & _). pose proof (working_busy _ _ _ _ Hw) as Hb.
  destruct (sound_chain s Hs) as [ch Hch].
  assert (t ∈ ch) as [i Hi]%list_elem_of_lookup by (apply (chain_exited s ch Hch); by exists (worker (RoutineJoin old))).
  pose proof (chain_link s ch Hch i t _ Hi Ht) as [Hold Hlive]. rewrite <- Hold in Hlive. destruct Hlive as (uh & Hu & Hlu).
  symmetry in Hold. pose proof (chain_pred s ch i t _ old Hch Hi Ht Hold) as Hne.
  unfold pthread_join. rewrite decide_False by done. rewrite Hu, Hlu. destruct (work uh) as [|p|] eqn:Hwu; cbn [cbind]; try apply leads_blocked.
  apply leads_goes. pose proof (ended_call _ _ _ _ _ (sound_fine s Hs old uh Hu) Hwu) as Hcu.
  pose proof (ended_not_owner s old uh Hs Hb Hu Hwu) as Ho'.
  pose proof (retire s old uh Hs Hu Hwu Hlu Hcu Ho') as Hs1. set (s1 := set_thread old _ s) in Hs1.
  destruct (kept_counters s s1 old _ eq_refl Ho' eq_refl) as (El & Ec & _).
  assert (working s1 t (RoutineJoin old) (worker (RoutineJoin old))) as Hw1 by (by eapply working_kept).
  change (set_pthreads _ s) with s1. set (s2 := set_thread t ended s1).
  destruct (kept_counters s1 s2 t _ eq_refl Ho eq_refl) as (El2 & Ec2 & _). split.
  - eapply (end_base s1); try done. by constructor.
  - exists ch. eapply (chain_join s s2 ch i t _ ended old uh); try done; [by rewrite Ec2|by rewrite El2].
Qed.

Lemma entry_written s e : stocked s -> e ∈ (messages s).1 ++ (pthreads s ≫= filled) -> 
  exists task, entries s !! e = Some (Some task) /\ task_of (entries s) e = Ret task /\ task_in (entries s) e = task.
Proof.
  intros Hst [task Ht]%(stock_filled s Hst). exists task. unfold task_of, task_in. by rewrite Ht.
Qed.

Lemma get_leads s t th f e : PoolMemory ∈ resources s -> PoolQueue ∈ resources s ->
  (forall m l, messages s = (m :: l, (messages s).2) -> leads t (f m (log_take (task_in (entries s) m) (set_messages (l, (messages s).2) s)))) ->
  (messages s = ([], true) -> leads t (e (set_messages ([], true) s))) -> pthreads s !! t = Some th -> leads t (get s f e).
Proof.
  intros H1 H2 Hf He _. unfold get. rewrite !needs_ok by done. destruct (messages s) as [[|m l] b] eqn:Em.
  - destruct b; cbn; [by apply He|apply leads_blocked].
  - cbn. by apply Hf.
Qed.

Lemma take_sound s t m l : sound s -> working s t RoutineGet (worker RoutineGet) -> messages s = (m :: l, (messages s).2) ->
  sound (set_thread t (worker (RoutineFree m)) (log_take (task_in (entries s) m) (set_messages (l, (messages s).2) s))).
Proof.
  intros Hs Hw Em. pose proof Hw as (Ht & _ & _ & Ho & _ & _ & Hok & _). set (s' := set_thread _ _ _).
  destruct (kept_counters s s' t _ eq_refl Ho eq_refl) as (El & Ec & Ed).
  assert (drained s = false) as Hd.
  { destruct (drained s) eqn:E; [|done]. apply (stock_drained s (sound_stock s Hs)) in E. by rewrite Em in E. }
  eapply (work_step s s'); try done.
  - destruct Hok as (K1 & K2 & _). split; [by destruct (level_of s)|]. split; [|done].
    unfold drained in Hd. by destruct (phase s).
  - by constructor.
  - by left.
  - eapply awaited_kept; try done; [apply (sound_awaited s Hs)|]. auto.
  - eapply (stock_take s); try done; [apply (sound_stock s Hs)|by rewrite Em|congruence].
  - destruct (sound_chain s Hs) as [ch Hch]. exists ch. eapply (chain_kept s); try done; rewrite ?El, ?Ec; try done. by left.
Qed.

Lemma free_sound s t e task : sound s -> working s t (RoutineFree e) (worker (RoutineFree e)) -> task_in (entries s) e = task ->
  sound (set_thread t (worker (RoutineTask task)) (log_begin task (set_entries (delete e (entries s)) s))).
Proof.
  intros Hs Hw Et. pose proof Hw as (Ht & _ & _ & Ho & _ & _ & Hok & _). set (s' := set_thread _ _ _).
  destruct (kept_counters s s' t _ eq_refl Ho eq_refl) as (El & Ec & Ed).
  eapply (work_step s s'); try done.
  - by constructor.
  - by left.
  - eapply awaited_kept; try done; [apply (sound_awaited s Hs)|]. auto.
  - eapply (stock_free s); try done; [apply (sound_stock s Hs)|]. cbn. rewrite Et. 
    rewrite <- app_assoc. cbn [app]. symmetry. apply Permutation_middle.
  - destruct (sound_chain s Hs) as [ch Hch]. exists ch. eapply (chain_kept s); try done; rewrite ?El, ?Ec; try done. by left.
Qed.

(** A thread that has just run a task finds that the pool still counts it. *)
Lemma check_counted s t : sound s -> working s t RoutineCheck (worker RoutineCheck) ->
  Z.of_nat (length (pthreads s)) < 2 ^ 64 -> nthreads (pool s) <> 0.
Proof.
  intros Hs Hw Hlen. pose proof Hw as (Ht & _ & _ & Ho & _ & _ & Hok & Hph).
  destruct (working_resources s t _ _ Hs Hw) as [_ Hcd]. destruct (count_bounds s Hs Hcd Hlen) as (E1 & E2 & E3).
  pose proof (total_at alive _ _ _ Ht) as E4. cbn in E4.
  destruct (Z.eq_dec (total counting (pthreads s)) 0) as [E0|E0]; [lia|].
  destruct (total_pos counting (pthreads s) E0) as (u & uh & Hu & Hcu).
  assert (forall d, phase s <> Creating d) as Hnc by (intros d E; destruct Hok as (_ & K & _); by rewrite E in K).
  assert (u <> t) as Hne by (intros ->; rewrite Ht in Hu; by injection Hu as <-).
  destruct (call uh) as [pc|] eqn:Hc; [|unfold counting in Hcu; by rewrite Hc in Hcu].
  destruct (call_cases _ _ _ _ _ _ (sound_fine s Hs u uh Hu) Hc) as [(_ & Hpc & Hl & Hua)|[(E & _)|(E & Hd)]].
  - assert (pc = IncreaseCount) as -> by (unfold counting in Hcu; rewrite Hc in Hcu; by destruct pc).
    destruct Hua as [(_ & _ & _ & Hn)|(task & Hwu & _)]; [specialize (Hn eq_refl); lia|].
    assert (mutex (pool s) = Some u) as Hm by (eapply critical_owner; [done|exact Hu|]; unfold critical; by rewrite Hc).
    rewrite (counting_alone s u uh Hs Hu Hm Hnc) in E1. unfold counting in E1. rewrite Hc in E1.
    pose proof (total_two alive _ t u _ uh Ht Hu (not_eq_sym Hne)) as E5.
    assert (alive uh = 1%nat) as E6 by (unfold alive, counted_out; by rewrite Hwu, Hl). rewrite E6 in E5. cbn in E5. lia.
  - by destruct (Hnc u).
  - exfalso. apply Hcu. unfold counting. rewrite Hc. destruct Hd as [(_ & Hd & _)|(task & _ & Hd & _)]; by destruct pc.
Qed.

(** *** The task that has destroyed the pool *)

Definition gone_pc (p : work_pc) : bool :=
  match p with Ended | Routine (RoutineTask _ | RoutineCheck | RoutineRelease) => true | _ => false end.

Lemma gone_others s t u uh : sound s -> phase s = Gone t -> pthreads s !! u = Some uh ->
  call uh = None /\ (u <> t -> forall p, work uh <> Routine p).
Proof.
  intros Hs Hp Hu. pose proof (sound_fine s Hs u uh Hu) as Hf. unfold fine, client_ok, routine_fine in Hf. rewrite Hp in Hf.
  destruct (work uh) as [|p|].
  - destruct Hf as (_ & _ & Hf). by destruct (call uh).
  - destruct Hf as (_ & -> & Hc & _). done.
  - by destruct Hf as [? _].
Qed.

Lemma gone_sound s t th p p' v : sound s -> pthreads s !! t = Some th -> phase s = Gone t -> work th = Routine p ->
  life th = Detached -> gone_pc p' = true ->
  v = match p' with Routine _ => resources s | _ => [] end ->
  sound (set_thread t (set_work p' th) (set_resources v s)).
Proof.
  intros Hs Ht Hph Hw Hl Hp' ->. set (s' := set_thread _ _ _). destruct (gone_others s t t th Hs Hph Ht) as [Hc _].
  assert (t < length (pthreads s))%nat as Hlt by (by eapply lookup_lt_Some).
  assert (pthreads s' !! t = Some (set_work p' th)) as Ht' by (by apply list_lookup_insert_eq).
  assert (counted s = true) as Hcd by (unfold counted; by rewrite Hph, Ht; cbn; rewrite Hw).
  destruct Hs as [[H1 H2 H3 H4 H5 H6 H7 H8] [ch H9]]. specialize (H5 Hcd). pose proof (H2 t th Ht) as Hf.
  unfold fine in Hf. rewrite Hw in Hf. destruct Hf as [Hsp Hf]. unfold routine_fine in Hf. rewrite Hph in Hf.
  assert (gone_pc (Routine p) = true) as Hg by (by destruct Hf as (_ & _ & _ & ?), p). clear Hf.
  assert (is_start p = false) as Hst by (by destruct p).
  assert (level_of s' = level_of s) as El by (unfold level_of; cbn; by rewrite Hph).
  split; [constructor|].
  - eapply mutex_keep; [done|done|]. unfold critical. cbn. rewrite Hc, Hw. destruct p' as [|[]|], p; done.
  - intros u uh Hu. apply insert_cases in Hu as [(-> & -> & _)|[Hne Hu]]; [|rewrite El; exact (H2 u uh Hu)].
    unfold fine, routine_fine. cbn. rewrite Hph, Hsp, Hst. unfold level_of. cbn. rewrite Hph.
    destruct p' as [|[]|]; try done; rewrite Hc, Hl; done.
  - unfold resources_of. cbn. rewrite Hph. change (phase s') with (phase s). rewrite H3. unfold resources_of. rewrite Hph, Ht.
    cbn. rewrite Hw. rewrite list_lookup_insert_eq by done. by destruct p'.
  - unfold level_of. cbn. by rewrite Hph.
  - intros _. cbn. pose proof (total_insert counting _ _ _ (set_work p' th) Ht) as T1.
    pose proof (total_insert alive _ _ _ (set_work p' th) Ht) as T2.
    assert (alive th = 0%nat) as E1 by (unfold alive, counted_out; rewrite Hw, Hl, Hc; by rewrite andb_false_r).
    assert (alive (set_work p' th) = 0%nat) as E2
      by (unfold alive, counted_out; cbn; rewrite Hl, Hc; destruct p' as [|p''|]; try done; by rewrite andb_false_r).
    assert (counting (set_work p' th) = counting th) as E3 by done. lia.
  - eapply awaited_kept; try done; [by right|intros old; rewrite Hw; intros [= ->]; done|auto].
  - intros d [x Hx]%H7. apply lookup_lt_is_Some. cbn. rewrite length_insert. by eapply lookup_lt_Some.
  - eapply (stock_kept s); try done.
    + unfold holds. cbn. rewrite Hc, Hw. destruct p' as [|[]|], p; done.
    + unfold removed. cbn. rewrite Hc, Hw. destruct p' as [|[]|], p; done.
    + unfold filled. cbn. rewrite Hc, Hw. destruct p' as [|[]|], p; done.
    + left. unfold drained. by rewrite Hph.
  - exists ch. assert (exited th = false) as Ex by (unfold exited; rewrite Hw; by destruct p).
    eapply (chain_kept s); try done.
    + unfold exited. cbn. rewrite Hw, Hl. destruct p' as [|[]|], p; done.
    + by left.
    + intros ts prev E. congruence.
    + unfold level_of. cbn. by rewrite Hph.
    + cbn. by destruct p' as [|[]|].
    + cbn. by rewrite Hc.
Qed.

Lemma gone_uncounted s t th p : sound s -> pthreads s !! t = Some th -> phase s = Gone t -> work th = Routine p -> life th = Detached ->
  nthreads (pool s) = 0 /\ resources s = [PoolMemory].
Proof.
  intros Hs Ht Hph Hw Hl. split.
  - assert (counted s = true) as Hcd by (unfold counted; by rewrite Hph, Ht; cbn; rewrite Hw).
    pose proof (sound_count s Hs Hcd) as E. rewrite !total_zero_iff in E; [lia|..].
    + intros u uh Hu. destruct (gone_others s t u uh Hs Hph Hu) as [_ Hn]. unfold alive.
      destruct (work uh) as [|q|] eqn:Hq; try done. destruct (decide (u = t)) as [->|Hne]; [|by destruct (Hn Hne q)].
      assert (uh = th) as -> by congruence. destruct (gone_others s t t th Hs Hph Ht) as [Hc _].
      unfold counted_out. rewrite Hl, Hc. by rewrite andb_false_r.
    + intros u uh Hu. destruct (gone_others s t u uh Hs Hph Hu) as [Hc _]. unfold counting. by rewrite Hc.
  - rewrite (sound_resources s Hs). unfold resources_of. rewrite Hph, Ht. cbn. by rewrite Hw.
Qed.

Lemma set_resources_same s : set_resources (resources s) s = s.
Proof. by destruct s. Qed.

Lemma marked_locked s : sound s -> level_of s = Marked -> mutex (pool s) <> None.
Proof.
  intros Hs Hlv. unfold level_of, call_at in Hlv.
  assert (forall d, pthreads s !! d ≫= call = Some (Terminate InCreate TermSet) \/
    (exists b, pthreads s !! d ≫= call = Some (Terminate (InDestroy b) TermSet)) -> mutex (pool s) <> None) as H.
  { intros d H. assert (exists th f, pthreads s !! d = Some th /\ call th = Some (Terminate f TermSet)) as (th & f & Ht & Hc).
    { destruct H as [H|[b H]]; apply bind_Some in H as (th & ? & ?); eauto. }
    erewrite (critical_owner s d th); [done|done|done|]. unfold critical. by rewrite Hc. }
  destruct (phase s) as [|d| |d|d]; try done; apply (H d); destruct (pthreads s !! d ≫= call) as [[]|] eqn:E; cbn in Hlv; try done.
  - destruct p; try done. destruct f as [|b]; eauto.
  - by destruct (r =? 0).
  - destruct p; try done. destruct f as [|b]; eauto.
Qed.

Ltac calm s := eapply (calm_step s); try done; try (by left); try (by constructor).

Lemma worker_leads s t p : sound s -> working s t p (worker p) -> Z.of_nat (length (pthreads s)) < 2 ^ 64 ->
  leads t (routine_step t p (worker p) s).
Proof.
  intros Hs Hw Hlen. destruct (working_resources s t _ _ Hs Hw) as [Hr Hcd]. pose proof Hw as (Ht & _ & _ & Ho & _ & _ & Hok & Hph).
  pose proof Hok as (Hrt & _ & _). pose proof (sound_level s Hs) as HL.
  destruct p; cbn [routine_step].
  - rewrite !needs_ok by in_all. apply leads_goes. change (at_work _ _) with (worker RoutineTest). calm s.
  - rewrite !needs_ok by in_all. apply leads_goes.
    destruct (terminate (pool s)) eqn:Et; [change (at_work _ _) with (worker RoutineLock)|change (at_work _ _) with (worker RoutineGet)]; calm s.
    eapply worker_ok_next; [done| |done]. intros _. destruct (level_of s); try done; cbn in HL; destruct HL; congruence.
  - eapply get_leads; [in_all|in_all| | |done].
    + intros m l Em. apply leads_goes. change (at_work _ _) with (worker (RoutineFree m)). by apply take_sound.
    + intros Em. apply leads_goes. change (at_work _ _) with (worker RoutineLock). calm s.
      eapply worker_ok_next; [done| |done]. intros _. rewrite Em in HL. destruct (level_of s); try done; by destruct HL.
  - destruct (entry_written s entry (sound_stock s Hs)) as (task & E1 & E2 & E3).
    { apply elem_of_app. right. apply list_elem_of_bind. exists (worker (RoutineFree entry)). split; [set_solver|by eapply list_elem_of_lookup_2]. }
    rewrite E2. unfold free_entry. rewrite E1. cbn [cbind]. apply leads_goes. change (at_work _ _) with (worker (RoutineTask task)).
    by apply free_sound.
  - apply leads_blocked.
  - rewrite needs_ok by in_all. apply leads_goes. pose proof (check_counted s t Hs Hw Hlen) as Hn.
    destruct (Z.eqb_spec (nthreads (pool s)) 0); [done|]. change (at_work _ _) with (worker RoutineTest). calm s.
    eapply worker_ok_next; done.
  - by destruct (level_of s).
  - rewrite lock_ok by in_all. destruct (mutex (pool s)) eqn:Em; [apply leads_blocked|]. apply leads_goes.
    change (at_work _ _) with (worker RoutineSave). eapply (calm_step s); try done; [|by left|cbn; rewrite Em; by constructor].
    destruct (level_of s) eqn:Elv; try done. exfalso. by apply (marked_locked s Hs Elv).
  - rewrite needs_ok by in_all. apply leads_goes. change (at_work _ _) with (worker (RoutineSet (tid (pool s)))). calm s.
    intros old. congruence.
  - rewrite needs_ok by in_all. apply leads_goes. by apply set_sound.
  - rewrite needs_ok by in_all. apply leads_goes.
    assert (forall b : bool, at_work (if b then RoutineSignal old else RoutineUnlock old) (worker (RoutineCount old)) =
      worker (if b then RoutineSignal old else RoutineUnlock old)) as -> by (by intros []).
    by apply count_sound.
  - rewrite needs_ok by in_all. by apply signal_leads.
  - assert (mutex (pool s) = Some t) as Hm by (by eapply working_critical). rewrite unlock_ok by (in_all || done). cbn [cbind].
    destruct old as [u|]; apply leads_goes; [|by eapply end_sound].
    change (at_work _ _) with (worker (RoutineJoin u)). eapply (calm_step s); try done; try (by left); [|cbn; rewrite Hm; by constructor].
    eapply worker_ok_next; [done| |done]. by rewrite (leaving_waiting s t _ _ Hw eq_refl).
  - by apply join_leads.
Qed.
