(* ===== verification/ThrdpoolSafe.v ===== *)
(** * The thread pool: the theorems

    The steps of the thread that creates or destroys the pool keep the
    invariant of [ThrdpoolInv] too.  So no execution that keeps to the
    contract touches what is gone, every task is begun once or handed back
    once, and destroying the pool never hangs. *)

From stdpp Require Import gmap.
From S2P Require Import Prelude Msgqueue Thrdpool ThrdpoolInv.

#[local] Open Scope Z_scope.
#[local] Set Warnings "-clear-no-such-hyp".
#[local] Abbreviation sound := (sound_by 0).

(** ** The thread that creates or destroys the pool *)

Definition owning (t : nat) (s : state) : Prop := phase s = Creating t \/ phase s = Closing t.

Definition own_level (ph : stage) (pc : call_pc) : level :=
  match ph with Creating _ => level_create pc | _ => level_destroy pc end.

Definition own_resources (ph : stage) (task : bool) (pc : call_pc) : list resource :=
  match ph, pc with
  | Creating _, Returned r => if r =? 0 then all_resources else []
  | _, Returned _ => if task then [PoolMemory] else []
  | _, _ => resources_at pc
  end.

Definition own_counted (ph : stage) (pc : call_pc) : bool :=
  match ph with
  | Creating _ =>
      match pc with
      | CreateAttr _ | CreateThread _ | CreateCount _ | CreateEnd _ | Terminate _ _ => true
      | Returned r => r =? 0
      | _ => false
      end
  | _ => true
  end.

Definition own_drained (ph : stage) (pc : call_pc) : bool :=
  match ph, pc with
  | Creating _, _ => true
  | _, (DeleteKey _ | DestroyMutex _ | DestroyQueue _ | FreePool _ | Returned _) => true
  | _, _ => false
  end.

Lemma own_facts s t th pc : owning t s -> pthreads s !! t = Some th -> call th = Some pc ->
  level_of s = own_level (phase s) pc /\ resources_of s = own_resources (phase s) (is_task th) pc /\
  counted s = own_counted (phase s) pc /\ drained s = own_drained (phase s) pc.
Proof.
  unfold level_of, resources_of, counted, drained, own_level, own_resources, own_counted, own_drained, call_at.
  intros [E|E] Ht Hc; rewrite E, Ht; cbn; rewrite Hc; cbn; repeat split; try done; by destruct pc.
Qed.

Lemma fine_level ph lv lv' n n' t u uh : (ph = Creating t \/ ph = Closing t) -> u <> t ->
  (forall p, work uh = Routine p -> routine_ok lv p = true -> routine_ok lv' p = true) -> (lv' = Setup -> lv = Setup) ->
  fine ph lv n u uh -> fine ph lv' n' u uh.
Proof.
  intros Hph Hne Hr Hlv. unfold fine. destruct (work uh) as [|p|].
  - intros (H1 & H2 & H3). repeat split; try done. unfold client_ok in *. destruct (call uh); by destruct Hph as [-> | ->].
  - intros (H1 & H2). split; [done|]. unfold routine_fine, worker_ok in *. destruct Hph as [-> | ->].
    + destruct H2 as (E1 & E2 & E3 & E4). repeat split; try done; [by apply Hr|apply E4..].
    + destruct H2 as [(E1 & E2 & E3 & E4)|(-> & _)]; [|done]. left. repeat split; try done; [by apply Hr|apply E4..].
  - intros (H1 & H2 & H3). repeat split; try done. auto.
Qed.

Lemma own_step k s s' t th th' pc pc' : base_by 0 s -> pthreads s !! t = Some th -> call th = Some pc -> owning t s ->
  pthreads s' = <[t := th']> (pthreads s) -> phase s' = phase s -> call th' = Some pc' ->
  resources s' = own_resources (phase s) (is_task th') pc' ->
  mutex_step t critical th th' (mutex (pool s)) (mutex (pool s')) ->
  fine (phase s) (own_level (phase s) pc') (nthreads (pool s')) t th' ->
  (forall u uh p, u <> t -> pthreads s !! u = Some uh -> work uh = Routine p ->
     routine_ok (own_level (phase s) pc) p = true -> routine_ok (own_level (phase s) pc') p = true) ->
  (own_level (phase s) pc' = Setup -> own_level (phase s) pc = Setup) ->
  level_ok (own_level (phase s) pc') (own_counted (phase s) pc') (phase s) (messages s') (pool s') ->
  (own_counted (phase s) pc' = true -> nthreads (pool s') + total counting (<[t := th']> (pthreads s)) =
     total alive (<[t := th']> (pthreads s)) + k) ->
  (forall f, pc' = Terminate f TermWait -> 0 < nthreads (pool s')) ->
  stocked s' -> (exists ch, chained s' ch) -> sound_by k s'.
Proof.
  intros Hs Ht Hc Ho Ep Eph Hc' Er Hm Hf Hoth Hlv Hl Hcnt Hw Hst Hch.
  assert (t < length (pthreads s))%nat as Hlt by (by eapply lookup_lt_Some).
  assert (pthreads s' !! t = Some th') as Ht' by (rewrite Ep; by apply list_lookup_insert_eq).
  assert (owner (phase s) = Some t) as How by (destruct Ho as [-> | ->]; done).
  assert (owning t s') as Ho' by (unfold owning; by rewrite Eph).
  destruct (own_facts s t th pc Ho Ht Hc) as (El & _ & _ & _). destruct (own_facts s' t th' pc' Ho' Ht' Hc') as (El' & Er' & Ec' & _).
  rewrite Eph in El', Er', Ec'. split; [|done]. constructor; rewrite ?El', ?Er', ?Ec', ?Eph; try done.
  - rewrite Ep. eapply mutex_stepped; [apply (sound_mutex s Hs)|done|done].
  - intros u uh Hu. rewrite Ep in Hu. apply insert_cases in Hu as [(-> & -> & _)|[Hne Hu]]; [done|].
    pose proof (sound_fine s Hs u uh Hu) as Hfu. rewrite El in Hfu. eapply fine_level; [exact Ho|done| |exact Hlv|exact Hfu]. eauto.
  - by rewrite Ep.
  - intros u uh f Hu Hcu. left. rewrite Ep in Hu. apply insert_cases in Hu as [(-> & -> & _)|[Hne Hu]].
    + apply (Hw f). congruence.
    + exfalso. destruct (terminating s u uh f _ Hs Hu Hcu) as [E _]. congruence.
  - intros d E. rewrite How in E. injection E as <-. eauto.
Qed.

Lemma alive_same th th' : work th' = work th -> counted_out th' = counted_out th -> alive th' = alive th.
Proof. unfold alive. by intros -> ->. Qed.

Definition no_entry (pc : call_pc) : bool :=
  match pc with ScheduleStore _ _ | SchedulePut _ | DestroyPending _ _ => false | _ => true end.

Definition own_work (w : work_pc) : Prop := (exists task, w = Routine (RoutineTask task)) \/ w = Client.

Lemma own_entries th pc : own_work (work th) -> call th = Some pc -> no_entry pc = true ->
  holds th = [] /\ removed th = [] /\ filled th = [].
Proof.
  intros Hw Hc Hn. destruct (holds_work th Hw pc Hc) as (-> & -> & ->). by destruct pc.
Qed.

Lemma own_exited th : own_work (work th) -> exited th = false.
Proof. unfold exited. by intros [[task ->]| ->]. Qed.

(** The owner goes on without an entry changing hands, nobody exits. *)
Lemma own_calm k s s' t th th' pc pc' : sound s -> pthreads s !! t = Some th -> call th = Some pc -> owning t s ->
  own_work (work th) -> no_entry pc = true -> no_entry pc' = true -> work th' = work th -> 
  pthreads s' = <[t := th']> (pthreads s) -> phase s' = phase s -> call th' = Some pc' ->
  resources s' = own_resources (phase s) (is_task th') pc' ->
  (messages s').1 = (messages s).1 -> entries s' = entries s -> scheduled s' = scheduled s -> taken s' = taken s ->
  begun s' = begun s -> handed s' = handed s ->
  mutex_step t critical th th' (mutex (pool s)) (mutex (pool s')) ->
  fine (phase s) (own_level (phase s) pc') (nthreads (pool s')) t th' ->
  (forall u uh p, u <> t -> pthreads s !! u = Some uh -> work uh = Routine p ->
     routine_ok (own_level (phase s) pc) p = true -> routine_ok (own_level (phase s) pc') p = true) ->
  (own_level (phase s) pc' = Setup -> own_level (phase s) pc = Setup) ->
  level_ok (own_level (phase s) pc') (own_counted (phase s) pc') (phase s) (messages s') (pool s') ->
  (own_counted (phase s) pc' = true -> own_counted (phase s) pc = true /\ tid (pool s') = tid (pool s) /\
     nthreads (pool s') + Z.of_nat (counting th') + Z.of_nat (alive th) = nthreads (pool s) + Z.of_nat (counting th) + Z.of_nat (alive th') + k) ->
  (forall f, pc' = Terminate f TermWait -> 0 < nthreads (pool s')) ->
  (forall f u, pc' = Terminate f (TermJoin u) -> tid (pool s') = Some u) ->
  (own_level (phase s) pc' <> Finished -> own_level (phase s) pc <> Finished) ->
  (own_drained (phase s) pc' = true -> own_drained (phase s) pc = true \/ (messages s).1 = []) ->
  (tid (pool s') = tid (pool s) \/ own_level (phase s) pc = Setup) -> sound_by k s'.
Proof.
  intros Hs Ht Hc Ho Hw Hn Hn' Ew Ep Eph Hc' Er Em Ee Es Eta Eb Eh Hm Hf Hoth Hlv Hl Hcnt Hwt Hj Hfin Hdr Htid.
  assert (t < length (pthreads s))%nat as Hlt by (by eapply lookup_lt_Some).
  assert (pthreads s' !! t = Some th') as Ht' by (rewrite Ep; by apply list_lookup_insert_eq).
  assert (owner (phase s) = Some t) as How by (destruct Ho as [-> | ->]; done).
  assert (owning t s') as Ho' by (unfold owning; by rewrite Eph).
  assert (own_work (work th')) as Hw' by (by rewrite Ew).
  destruct (own_facts s t th pc Ho Ht Hc) as (El & _ & Ec & Ed). destruct (own_facts s' t th' pc' Ho' Ht' Hc') as (El' & _ & Ec' & Ed').
  rewrite Eph in El', Ec', Ed'. eapply (own_step k s s' t th th' pc pc'); try done.
  - apply Hs.
  - intros [Hcd [_ E]]%Hcnt. rewrite <- Ec in Hcd. pose proof (sound_count s Hs Hcd).
    pose proof (total_insert counting _ _ _ th' Ht). pose proof (total_insert alive _ _ _ th' Ht). lia.
  - destruct (own_entries th pc Hw Hc Hn) as (F1 & F2 & F3), (own_entries th' pc' Hw' Hc' Hn') as (G1 & G2 & G3).
    eapply (stock_kept s); try done; [apply (sound_stock s Hs)|congruence..|]. by rewrite Ed, Ed'.
  - destruct (sound_chain s Hs) as [ch Hch]. exists ch.
    assert (forall u uh old, u <> t -> pthreads s !! u = Some uh -> work uh = Routine (RoutineSet old) -> own_level (phase s) pc <> Setup) as Hset.
    { intros u uh old Hne Hu Hwu E. pose proof (sound_fine s Hs u uh Hu) as Hfu. rewrite El, E in Hfu.
      unfold fine, routine_fine, worker_ok in Hfu. rewrite Hwu in Hfu. destruct Hfu as [_ Hfu].
      destruct Ho as [Ho|Ho]; rewrite Ho in Hfu; cbn in Hfu; naive_solver. }
    eapply (chain_kept s); try done; rewrite ?El, ?El', ?Ec, ?Ec'; try done.
    + by rewrite !own_exited.
    + right. by apply own_exited.
    + intros ts prev E. by rewrite own_exited in E.
    + intros [H1 [H2 _]]%Hcnt. done.
    + intros u uh old Hne Hu Hwu. destruct Htid as [|E]; [done|]. by destruct (Hset u uh old Hne Hu Hwu).
    + intros u uh f v Hne Hu Hcu. exfalso. destruct (terminating s u uh f _ Hs Hu Hcu) as [E _]. congruence.
    + intros old E. rewrite Ew in E. destruct Hw as [[task Hw]|Hw]; congruence.
    + intros f u E. rewrite Hc' in E. injection E as ->. by eapply Hj.
Qed.

(** *** thrdpool_create *)

Lemma creating_others s t u uh : sound s -> phase s = Creating t -> pthreads s !! u = Some uh -> u <> t -> call uh = None.
Proof.
  intros Hs Hp Hu Hne. destruct (call uh) as [pc|] eqn:Hc; [|done].
  destruct (call_cases _ _ _ _ _ _ (sound_fine s Hs u uh Hu) Hc) as [(_ & _ & _ & [(_ & _ & E & _)|(task & _ & _ & _ & [E|[d E]])])|[(E & _)|(E & _)]];
    congruence.
Qed.

Lemma creating_counting s t th : sound s -> phase s = Creating t -> pthreads s !! t = Some th ->
  total counting (pthreads s) = Z.of_nat (counting th).
Proof.
  intros Hs Hp Ht. pose proof (total_insert counting (pthreads s) t th (set_call None th) Ht) as E.
  rewrite (total_zero_iff counting (<[t := set_call None th]> (pthreads s))) in E; [cbn in E; lia|].
  intros u uh Hu. apply insert_cases in Hu as [(-> & -> & _)|[Hne Hu]]; [done|]. unfold counting.
  by rewrite (creating_others s t u uh).
Qed.

Lemma setup_clients s u uh : sound s -> level_of s = Setup -> pthreads s !! u = Some uh -> work uh = Client.
Proof.
  intros Hs Hl Hu. pose proof (sound_fine s Hs u uh Hu) as Hf. unfold fine in Hf. rewrite Hl in Hf.
  destruct (work uh) as [|p|]; [done|..].
  - destruct Hf as [_ Hf]. unfold routine_fine, worker_ok in Hf. unfold level_of in Hl.
    destruct (phase s) as [|d| |d|d]; try done; try naive_solver. destruct Hf as [Hf|(-> & task & pc & _ & Hc & _)]; [naive_solver|].
    unfold call_at in Hl. rewrite Hu in Hl. cbn in Hl. rewrite Hc in Hl. destruct pc as [| | | | | | | | | | | | | | | | | |f q| | | | | | |]; try done. by destruct q.
  - by destruct Hf as (_ & ? & _).
Qed.

Lemma setup_unlocked s t : sound s -> phase s = Creating t -> level_of s = Setup -> mutex (pool s) = None.
Proof.
  intros Hs Hp Hl. destruct (mutex (pool s)) as [u|] eqn:Hm; [|done]. exfalso.
  destruct (sound_mutex s Hs) as [M1 M2]. destruct (M2 u Hm) as [uh Hu]. apply (M1 u uh Hu) in Hm.
  unfold critical in Hm. rewrite (setup_clients s u uh Hs Hl Hu) in Hm.
  destruct (decide (u = t)) as [->|Hne]; [|by rewrite (creating_others s t u uh) in Hm].
  unfold level_of, call_at in Hl. rewrite Hp, Hu in Hl. cbn in Hl. destruct (call uh) as [[]|]; try done. cbn in Hl, Hm.
  by destruct p.
Qed.

Section create.

Variables (s : state) (t : nat) (th : thread) (c : choice).
Hypotheses (Hs : sound s) (Ht : pthreads s !! t = Some th) (Hph : phase s = Creating t).
Hypotheses (Hw : work th = Client) (Hlf : life th = Joinable) (Hsp : specific th = false).

Lemma create_own pc : call th = Some pc -> level_of s = level_create pc /\
  resources s = own_resources (phase s) (is_task th) pc /\ counted s = own_counted (phase s) pc.
Proof.
  intros Hc. destruct (own_facts s t th pc (or_introl Hph) Ht Hc) as (El & Er & Ec & _). rewrite (sound_resources s Hs).
  split; [|auto]. by rewrite Hph in El.
Qed.

(** A statement of the creator that changes neither [nthreads] nor [tid]. *)
Lemma create_step_ok k s' pc pc' : call th = Some pc -> pthreads s' = <[t := at_call pc' th]> (pthreads s) -> phase s' = phase s ->
  resources s' = own_resources (phase s) false pc' -> create_pc pc = true -> create_pc pc' = true ->
  (messages s').1 = (messages s).1 -> entries s' = entries s -> scheduled s' = scheduled s -> taken s' = taken s ->
  begun s' = begun s -> handed s' = handed s -> tid (pool s') = tid (pool s) ->
  mutex_step t critical th (at_call pc' th) (mutex (pool s)) (mutex (pool s')) ->
  (forall p, routine_ok (level_create pc) p = true -> routine_ok (level_create pc') p = true) ->
  (level_create pc' = Setup -> level_create pc = Setup) -> (level_create pc' <> Finished -> level_create pc <> Finished) ->
  level_ok (level_create pc') (own_counted (phase s) pc') (phase s) (messages s') (pool s') ->
  (own_counted (phase s) pc' = true -> own_counted (phase s) pc = true /\
     nthreads (pool s') + Z.of_nat (counting (at_call pc' th)) = nthreads (pool s) + Z.of_nat (counting th) + k) ->
  (forall f p, pc' = Terminate f p -> p <> TermWait /\ forall u, p <> TermJoin u) -> sound_by k s'.
Proof.
  intros Hc Ep Eph Er Hpc Hpc' Em Ee Es Eta Eb Eh Etid Hm Hr Hl1 Hl2 Hlo Hcn Hterm.
  assert (forall q, create_pc q = true -> no_entry q = true) as Hne by (by intros []).
  eapply (own_calm k s s' t th (at_call pc' th)); try done; try rewrite !Hph; try by auto.
  - by left.
  - by right.
  - by rewrite Er, Hph.
  - unfold fine. cbn. rewrite Hw. split; [done|]. split; [done|]. done.
  - rewrite Hph in Hlo. exact Hlo.
  - rewrite Hph in Hcn. intros [H1 H2]%Hcn. split; [done|]. split; [done|].
    rewrite (alive_same th (at_call pc' th)); [lia|done|]. unfold counted_out. cbn. by rewrite Hlf.
  - intros f ->. by destruct (Hterm f TermWait eq_refl).
  - intros f u ->. destruct (Hterm f (TermJoin u) eq_refl) as [_ H]. by destruct (H u).
Qed.

End create.

(** The fields of the pool are set: nobody has looked at them before. *)
Lemma fields_sound s t th n : sound s -> pthreads s !! t = Some th -> phase s = Creating t ->
  work th = Client -> life th = Joinable -> specific th = false -> call th = Some (CreateFields n) -> create_pc (CreateFields n) = true ->
  sound (set_thread t (at_call (CreateAttr n) th) (set_pool (set_nthreads 0 (set_tid None (set_terminate None (pool s)))) s)).
Proof.
  intros Hs Ht Hph Hw Hlf Hsp Hc Hpc. set (s' := set_thread _ _ _). 
  destruct (own_facts s t th _ (or_introl Hph) Ht Hc) as (El & Er & _ & Ed). rewrite Hph in El, Er, Ed. cbn in El, Er, Ed.
  assert (forall u uh, pthreads s' !! u = Some uh -> work uh = Client) as Hall.
  { intros u uh Hu. apply insert_cases in Hu as [(-> & -> & _)|[Hne Hu]]; [done|by eapply setup_clients]. }
  assert (forall u uh, pthreads s' !! u = Some uh -> counting uh = 0%nat /\ alive uh = 0%nat) as H0.
  { intros u uh Hu. pose proof (Hall u uh Hu) as Hwu. split; [|unfold alive; by rewrite Hwu].
    apply insert_cases in Hu as [(-> & -> & _)|[Hne Hu]]; [done|]. unfold counting.
    by rewrite (creating_others s t u uh Hs Hph Hu Hne). }
  eapply (own_step 0 s s' t th _ (CreateFields n) (CreateAttr n)); try done; rewrite ?Hph; try done.
  - apply Hs.
  - by left.
  - cbn. rewrite (sound_resources s Hs). by rewrite Er.
  - constructor. unfold critical. cbn. by rewrite Hc.
  - unfold fine. cbn. by rewrite Hw.
  - cbn. split; [|done]. pose proof (sound_level s Hs) as HL. rewrite El in HL. by destruct HL.
  - intros _. cbn. rewrite !total_zero_iff; [done|..]; intros u uh Hu; by destruct (H0 u uh Hu).
  - destruct (own_entries th (CreateFields n)) as (F1 & F2 & F3); [by right|done|done|].
    destruct (own_entries (at_call (CreateAttr n) th) (CreateAttr n)) as (G1 & G2 & G3); [by right|done|done|].
    eapply (stock_kept s); try done; [apply (sound_stock s Hs)|congruence..|]. auto.
  - exists []. constructor; try done.
    + apply NoDup_nil_2.
    + intros u. split; [by intros ?%elem_of_nil|]. intros (uh & Hu & Hx). unfold exited in Hx. by rewrite (Hall u uh Hu) in Hx.
    + intros u uh old Hu Hwu. by rewrite (Hall u uh Hu) in Hwu.
    + intros u uh f v Hu Hcu. apply insert_cases in Hu as [(-> & -> & _)|[Hne Hu]]; [done|].
      by rewrite (creating_others s t u uh Hs Hph Hu Hne) in Hcu.
Qed.

(** A statement of the creator, up to what it does to the pool. *)
Ltac own_go s t th Hph Er Hcrit Hcn HL :=
  apply leads_goes; eapply (create_step_ok s t th); try done; cbn; rewrite ?Hph, ?Er; try done;
    try (constructor; by rewrite Hcrit); try (intros; by split); try (rewrite Hcn; cbn; by split; [|lia]);
    try (destruct HL; split; by auto).

Lemma create_leads s t th pc c : sound s -> pthreads s !! t = Some th -> call th = Some pc -> phase s = Creating t ->
  work th = Client -> life th = Joinable -> specific th = false -> create_pc pc = true -> Z.of_nat (length (pthreads s)) < 2 ^ 64 ->
  match pc with
  | CreateMalloc _ | CreateQueue _ | CreateMutex _ | CreateKey _ | CreateFields _ | CreateAttr _ | CreateThread _
  | CreateCount _ | CreateEnd _ => true
  | _ => false
  end = true -> leads t (create_step c pc th s).
Proof.
  intros Hs Ht Hc Hph Hw Hlf Hsp Hpc Hlen Hcr. destruct (create_own s t th Hs Ht Hph pc Hc) as (El & Er & Ec).
  rewrite Hph in Er, Ec. pose proof (sound_level s Hs) as HL. rewrite El in HL.
  assert (critical th = critical_call pc) as Hcrit by (unfold critical; by rewrite Hc).
  assert (counting th = match pc with CreateCount _ => 1%nat | _ => 0%nat end) as Hcn by (unfold counting; rewrite Hc; by destruct pc).
  assert ((messages s).1 = []) as Hm by (apply (stock_drained s (sound_stock s Hs)); unfold drained; by rewrite Hph).
  destruct pc; try done; cbn [create_step]; cbn in Er, Ec, HL; rewrite ?needs_ok by (rewrite Er; set_solver);
    rewrite ?Er.
  - destruct (success c); own_go s t th Hph Er Hcrit Hcn HL.
  - destruct (success c); own_go s t th Hph Er Hcrit Hcn HL.
  - pose proof (setup_unlocked s t Hs Hph El) as Hmu. destruct (success c); own_go s t th Hph Er Hcrit Hcn HL.
    rewrite Hmu. constructor. by rewrite Hcrit.
  - destruct (success c); own_go s t th Hph Er Hcrit Hcn HL.
  - apply leads_goes. by eapply fields_sound.
  - destruct (success c); own_go s t th Hph Er Hcrit Hcn HL.
  - destruct (Z.ltb_spec (nthreads (pool s)) n); [destruct (success c)|]; [|own_go s t th Hph Er Hcrit Hcn HL..].
    apply leads_goes. rewrite (spawn_set t th) by done.
    assert (sound_by 1 (set_thread t (at_call (CreateCount n) th) s)) as H1 by
      (eapply (create_step_ok s t th); try done; cbn; rewrite ?Hph, ?Er; try done; try (constructor; by rewrite Hcrit);
       rewrite Hcn; cbn; split; [done|lia]).
    destruct (own_facts (set_thread t (at_call (CreateCount n) th) s) t (at_call (CreateCount n) th) (CreateCount n))
      as (El' & _ & Ec' & _); [by left|apply list_lookup_insert_eq; by eapply lookup_lt_Some|done|].
    cbn in El', Ec'. rewrite Hph in El', Ec'. apply spawn; [done|by rewrite El'|by rewrite Ec'|cbn; by rewrite Hph].
  - destruct (count_bounds s Hs) as (E1 & E2 & E3); [by rewrite Ec|done|].
    rewrite (creating_counting s t th Hs Hph Ht), Hcn in E1. unfold u64. rewrite Z.mod_small by lia.
    own_go s t th Hph Er Hcrit Hcn HL.
  - destruct (Z.eqb_spec (nthreads (pool s)) n); own_go s t th Hph Er Hcrit Hcn HL. 
    all: intros f p [= <- <-]; split; [done|by intros u].
Qed.

(** *** thrdpool_destroy *)

Lemma close_fine t lv n th pc : destroyer_at pc th -> call th = Some pc -> fine (Closing t) lv n t th.
Proof.
  unfold fine, destroyer_at. intros [(Hw & Hp & Hl & Hs)|(task & Hw & Hp & Hs & Hl)] Hc; rewrite Hw, Hs.
  - split; [done|]. split; [done|]. rewrite Hc. done.
  - split; [done|]. right. split; [done|]. by exists task, pc.
Qed.

Lemma destroyer_work pc th : destroyer_at pc th -> own_work (work th).
Proof. intros [(-> & _)|(task & -> & _)]; [by right|left; eauto]. Qed.

Lemma destroyer_next pc pc' th : destroyer_at pc th -> (forall b, destroy_pc b pc = true -> destroy_pc b pc' = true) ->
  detached_pc pc' = detached_pc pc -> destroyer_at pc' (at_call pc' th).
Proof.
  intros [(Hw & Hp & Hl & Hs)|(task & Hw & Hp & Hs & Hl)] Hd E; [left|right; exists task]; cbn; repeat split; auto. by rewrite E.
Qed.

(** Whether the destroying task still counts itself. *)
Definition count_pc (pc : call_pc) : bool := match pc with Terminate _ TermCount => true | _ => false end.

Lemma close_step_ok s s' t th pc pc' : sound s -> pthreads s !! t = Some th -> call th = Some pc -> phase s = Closing t ->
  destroyer_at pc th -> pthreads s' = <[t := at_call pc' th]> (pthreads s) -> phase s' = phase s ->
  resources s' = own_resources (phase s) (is_task th) pc' ->
  (forall b, destroy_pc b pc = true -> destroy_pc b pc' = true) -> detached_pc pc' = detached_pc pc ->
  no_entry pc = true -> no_entry pc' = true -> count_pc pc = false -> count_pc pc' = false ->
  (messages s').1 = (messages s).1 -> entries s' = entries s -> scheduled s' = scheduled s -> taken s' = taken s ->
  begun s' = begun s -> handed s' = handed s -> tid (pool s') = tid (pool s) -> nthreads (pool s') = nthreads (pool s) ->
  mutex_step t critical th (at_call pc' th) (mutex (pool s)) (mutex (pool s')) ->
  (forall u uh p, u <> t -> pthreads s !! u = Some uh -> work uh = Routine p ->
     routine_ok (level_destroy pc) p = true -> routine_ok (level_destroy pc') p = true) ->
  level_destroy pc' <> Setup -> (level_destroy pc' <> Finished -> level_destroy pc <> Finished) ->
  level_ok (level_destroy pc') true (Closing t) (messages s') (pool s') ->
  (forall f, pc' = Terminate f TermWait -> 0 < nthreads (pool s')) ->
  (forall f u, pc' = Terminate f (TermJoin u) -> tid (pool s') = Some u) ->
  (own_drained (phase s) pc' = true -> own_drained (phase s) pc = true \/ (messages s).1 = []) -> sound s'.
Proof.
  intros Hs Ht Hc Hph Hd Ep Eph Er Hpc Hdt Hn Hn' Hcp Hcp' Em Ee Es Eta Eb Eh Etid Enth Hm Hr Hl1 Hl2 Hlo Hwt Hj Hdr.
  pose proof (destroyer_next pc pc' th Hd Hpc Hdt) as Hd'.
  eapply (own_calm 0 s s' t th (at_call pc' th)); try done; rewrite ?Hph in *; try done.
  - by right.
  - by eapply destroyer_work.
  - by eapply close_fine.
  - intros _. split; [done|]. split; [done|].
    assert (alive (at_call pc' th) = alive th) as ->.
    { apply alive_same; [done|]. unfold counted_out. cbn. rewrite Hc. destruct (life th); try done.
      destruct pc as [| | | | | | | | | | | | | | | | | |f q| | | | | | |]; try destruct q; try done;
      destruct pc' as [| | | | | | | | | | | | | | | | | |f' q'| | | | | | |]; try destruct q'; done. }
    assert (counting th = 0%nat) as ->.
    { unfold counting. rewrite Hc. destruct Hd as [(_ & E & _)|(task & _ & E & _)]; by destruct pc. }
    assert (counting (at_call pc' th) = 0%nat) as ->.
    { unfold counting. cbn. destruct Hd' as [(_ & E & _)|(task & _ & E & _)]; by destruct pc'. }
    lia.
  - by left.
Qed.

(** *** __thrdpool_terminate *)

Definition owner_ok (ph : stage) (t : nat) (pc : call_pc) (th : thread) : Prop :=
  (ph = Creating t /\ work th = Client /\ life th = Joinable /\ specific th = false /\ create_pc pc = true) \/
  (ph = Closing t /\ destroyer_at pc th).

Lemma owner_fine ph t lv n th pc : owner_ok ph t pc th -> call th = Some pc -> fine ph lv n t th.
Proof.
  intros [(-> & Hw & Hl & Hs & Hp)|[-> Hd]] Hc; [|by eapply close_fine]. unfold fine. rewrite Hw, Hs, Hc. done.
Qed.

Lemma owner_owning s t pc th : owner_ok (phase s) t pc th -> owning t s /\ own_work (work th) /\ owner (phase s) = Some t.
Proof.
  intros [(E & Hw & _)|[E Hd]]; unfold owning; rewrite E; split; auto; (split; [|done]); [by right|by eapply destroyer_work].
Qed.

(** The thread keeps what it is, at another statement. *)
Lemma owner_next ph t f p p' th : owner_ok ph t (Terminate f p) th -> (in_pool_pc p' = true -> f = InDestroy true) ->
  (f = InDestroy true -> detached_pc (Terminate f p') = detached_pc (Terminate f p)) ->
  owner_ok ph t (Terminate f p') (at_call (Terminate f p') th).
Proof.
  intros [(-> & Hw & Hl & Hs & Hp)|[-> Hd]] Hin Hdt; [left|right]; repeat split; try done.
  - cbn in *. destruct f; [|done]. destruct (in_pool_pc p'); [by specialize (Hin eq_refl)|done].
  - destruct Hd as [(Hw & Hp & Hl & Hs)|(task & Hw & Hp & Hs & Hl)]; cbn [destroy_pc] in Hp; destruct f as [|[]]; try done;
      [left|right; exists task]; cbn; repeat split; try done.
    + destruct (in_pool_pc p'); [by specialize (Hin eq_refl)|done].
    + rewrite Hl. specialize (Hdt eq_refl). cbn in Hdt. by rewrite Hdt.
Qed.

Definition safe_term (p : term_pc) : bool := match p with TermWait | TermJoin _ => false | _ => true end.

Lemma term_own s t th f p : owning t s -> pthreads s !! t = Some th -> call th = Some (Terminate f p) ->
  level_of s = level_term p /\ resources_of s = all_resources /\ counted s = true.
Proof.
  intros Ho Ht Hc. destruct (own_facts s t th _ Ho Ht Hc) as (-> & -> & -> & _).
  unfold own_level, own_resources, own_counted. by destruct Ho as [-> | ->].
Qed.

Lemma term_calm s s' t th th' f p p' : sound s -> pthreads s !! t = Some th -> call th = Some (Terminate f p) ->
  owner_ok (phase s) t (Terminate f p) th -> owner_ok (phase s) t (Terminate f p') th' -> work th' = work th ->
  call th' = Some (Terminate f p') ->
  pthreads s' = <[t := th']> (pthreads s) -> phase s' = phase s -> resources s' = resources s -> (messages s').1 = (messages s).1 ->
  entries s' = entries s -> scheduled s' = scheduled s -> taken s' = taken s -> begun s' = begun s -> handed s' = handed s ->
  tid (pool s') = tid (pool s) -> mutex_step t critical th th' (mutex (pool s)) (mutex (pool s')) ->
  (forall u uh q, u <> t -> pthreads s !! u = Some uh -> work uh = Routine q ->
     routine_ok (level_term p) q = true -> routine_ok (level_term p') q = true) ->
  level_ok (level_term p') true (phase s) (messages s') (pool s') ->
  nthreads (pool s') + Z.of_nat (alive th) = nthreads (pool s) + Z.of_nat (alive th') ->
  (p' = TermWait -> 0 < nthreads (pool s')) -> (forall u, p' = TermJoin u -> tid (pool s) = Some u) -> sound s'.
Proof.
  intros Hs Ht Hc Hok Hok' Hw Hc' Ep Eph Er Em Ee Es Eta Eb Eh Etid Hm Hr Hlo Hcnt Hwt Hj.
  destruct (owner_owning s t _ th Hok) as (Ho & How & _).
  assert (forall q, own_level (phase s) (Terminate f q) = level_term q) as El by (intros q; unfold own_level; by destruct Ho as [-> | ->]).
  assert (forall q, own_counted (phase s) (Terminate f q) = true) as Ec by (intros q; unfold own_counted; by destruct Ho as [-> | ->]).
  assert (forall q, own_drained (phase s) (Terminate f q) = own_drained (phase s) (Terminate f p)) as Ed
    by (intros q; unfold own_drained; by destruct Ho as [-> | ->]).
  eapply (own_calm 0 s s' t th th'); try done; rewrite ?El, ?Ec; try done.
  - rewrite Er, (sound_resources s Hs). destruct (term_own s t th f p Ho Ht Hc) as (_ & -> & _).
    unfold own_resources. by destruct Ho as [-> | ->].
  - by eapply owner_fine.
  - by destruct p'.
  - intros _. split; [done|]. split; [done|]. unfold counting. rewrite Hc, Hc'. lia.
  - intros f' [= -> ->]. auto.
  - intros f' u [= -> ->]. rewrite Etid. by apply Hj.
  - intros _. by destruct p.
  - rewrite Ed. auto.
  - by left.
Qed.

Lemma terminating_counting s t th f p : sound s -> pthreads s !! t = Some th -> call th = Some (Terminate f p) -> owning t s ->
  critical_call (Terminate f p) = true -> total counting (pthreads s) = 0.
Proof.
  intros Hs Ht Hc Ho Hcr.
  assert (mutex (pool s) = Some t) as Hm by (eapply critical_owner; [done|exact Ht|]; unfold critical; by rewrite Hc).
  apply total_zero_iff. intros v vh Hv. unfold counting. destruct (call vh) as [pc|] eqn:Hcv; [|done]. destruct pc; try done; exfalso.
  - assert (mutex (pool s) = Some v) as E by (eapply critical_owner; [done|exact Hv|]; unfold critical; by rewrite Hcv).
    assert (v = t) as -> by congruence. congruence.
  - destruct (call_cases _ _ _ _ _ _ (sound_fine s Hs v vh Hv) Hcv) as [(_ & ? & _)|[(E & _)|(E & [(_ & ? & _)|(? & _ & ? & _)])]]; try done.
    assert (v = t) as -> by (destruct Ho; congruence). congruence.
Qed.

(** Once nobody is counted, the others are beyond their critical section. *)
Lemma uncounted_out s t th f : sound s -> pthreads s !! t = Some th -> call th = Some (Terminate f TermTest) -> owning t s ->
  Z.of_nat (length (pthreads s)) < 2 ^ 64 -> nthreads (pool s) <= 0 ->
  forall u uh q, u <> t -> pthreads s !! u = Some uh -> work uh = Routine q -> routine_ok Waiting q = true -> routine_ok Draining q = true.
Proof.
  intros Hs Ht Hc Ho Hlen Hn u uh q Hne Hu Hw Hq. destruct (term_own s t th f _ Ho Ht Hc) as (_ & _ & Hcd).
  destruct (count_bounds s Hs Hcd Hlen) as (E1 & E2 & E3).
  assert (mutex (pool s) = Some t) as Hm by (eapply critical_owner; [done|exact Ht|]; unfold critical; by rewrite Hc).
  pose proof (terminating_counting s t th f _ Hs Ht Hc Ho eq_refl) as E0.
  pose proof (total_zero alive (pthreads s) ltac:(lia) u uh Hu) as Ha.
  assert (life uh = Joinable) as Hl.
  { pose proof (sound_fine s Hs u uh Hu) as Hf. unfold fine, routine_fine in Hf. rewrite Hw in Hf. destruct Hf as [_ Hf].
    destruct Ho as [Ho|Ho]; rewrite Ho in Hf; [apply Hf|]. destruct Hf as [(_ & H & _)|(E & _)]; [done|congruence]. }
  unfold alive, counted_out in Ha. rewrite Hw, Hl in Ha.
  assert (before_count q = false) as Hb by (by destruct (before_count q)).
  destruct q; try done; exfalso; apply Hne; enough (mutex (pool s) = Some u) by congruence; (eapply critical_owner; [done|exact Hu|]);
    unfold critical; by rewrite (routine_idle s u uh _ Hs Hu Hw), Hw.
Qed.

(** When the last thread of the chain has ended, all of them have. *)
Lemma chain_ended s ch : sound s -> chained s ch -> (forall u uh, head ch = Some u -> pthreads s !! u = Some uh -> work uh = Ended) ->
  forall i u uh, ch !! i = Some u -> pthreads s !! u = Some uh -> work uh = Ended.
Proof.
  intros Hs Hch H0. induction i as [|i IH]; intros u uh Hi Hu; [apply (H0 u uh); [by destruct ch|done]|].
  destruct (lookup_lt_is_Some_2 ch i) as [v Hv]; [apply lookup_lt_Some in Hi; lia|].
  assert (exists vh, pthreads s !! v = Some vh /\ exited vh = true) as (vh & Hvh & _)
    by (apply (chain_exited s ch Hch); by eapply list_elem_of_lookup_2).
  pose proof (chain_link s ch Hch i v vh Hv Hvh) as Hl. unfold link_ok in Hl. rewrite (IH v vh Hv Hvh), Hi in Hl.
  destruct Hl as (x & Hx & Hxl). assert (x = uh) as -> by congruence.
  pose proof (sound_fine s Hs u uh Hu) as Hf. unfold fine, routine_fine in Hf. destruct (work uh) as [|p|]; [..|done].
  - destruct Hf as [Hf _]. congruence.
  - destruct Hf as [_ Hf]. destruct (phase s).
    + destruct Hf as [Hf _]. congruence.
    + destruct Hf as (_ & Hf & _). congruence.
    + destruct Hf as [Hf _]. congruence.
    + destruct Hf as [(_ & Hf & _)|(_ & task & pc & _ & _ & _ & Hf)]; [congruence|]. rewrite Hxl in Hf. by destruct (detached_pc pc).
    + destruct Hf as (_ & _ & Hf & _). congruence.
Qed.

(** So the level may become [Finished]. *)
Lemma all_ended s t : sound s -> level_of s = Draining -> owning t s ->
  (forall ch u uh, chained s ch -> head ch = Some u -> pthreads s !! u = Some uh -> work uh = Ended) ->
  forall u uh q, u <> t -> pthreads s !! u = Some uh -> work uh = Routine q -> routine_ok Draining q = true -> False.
Proof.
  intros Hs Hlv Ho Hlast u uh q Hne Hu Hw Hq. destruct (sound_chain s Hs) as [ch Hch]. destruct q; try done.
  assert (u ∈ ch) as [i Hi]%list_elem_of_lookup by (apply (chain_exited s ch Hch); exists uh; unfold exited; by rewrite Hw).
  pose proof (chain_ended s ch Hs Hch ltac:(eauto) i u uh Hi Hu). congruence.
Qed.

Lemma chain_finish s s' ch t th th' u uh : chained s ch -> head ch = Some u -> u <> t ->
  pthreads s !! t = Some th -> pthreads s !! u = Some uh -> work uh = Ended -> call uh = None -> life uh = Joinable ->
  pthreads s' = <[t := th']> (<[u := set_life Joined uh]> (pthreads s)) ->
  exited th = false -> work th' = work th -> life th' = life th -> (forall f v, call th' <> Some (Terminate f (TermJoin v))) ->
  (counted s' = true -> counted s = true) -> tid (pool s') = tid (pool s) -> level_of s' = Finished -> chained s' ch.
Proof.
  intros Hch Hh Hut Ht Hu Hwu Hcu Hlu Ep Hx Hw Hl Hc Ec Etid Elv. destruct Hch as [C1 C2 C3 C4 C5 C6 C7].
  assert (t < length (pthreads s) /\ u < length (pthreads s))%nat as [Lt Lu] by (split; by eapply lookup_lt_Some).
  assert (pthreads s' !! t = Some th') as Gt by (rewrite Ep; apply list_lookup_insert_eq; by rewrite length_insert).
  assert (pthreads s' !! u = Some (set_life Joined uh)) as Gu
    by (rewrite Ep, list_lookup_insert_ne by done; by apply list_lookup_insert_eq).
  assert (forall v, v <> t -> v <> u -> pthreads s' !! v = pthreads s !! v) as Go by (intros; by rewrite Ep, !list_lookup_insert_ne).
  assert (exited th' = false) as Hx' by (revert Hx; unfold exited; by rewrite Hw, Hl).
  assert (t ∉ ch) as Hnt by (intros (x & Hx1 & Hx2)%C2; congruence).
  assert (ch !! 0%nat = Some u) as H0 by (by destruct ch).
  assert (forall l i v, ch !! S i = v -> living l (pthreads s) v -> living l (pthreads s') v) as Hliv.
  { intros l i v Hv. apply living_kept. intros w wh -> Hw'. exists wh. split; [|done]. rewrite Go; [done|..].
    - intros ->. apply Hnt. by eapply list_elem_of_lookup_2.
    - intros ->. pose proof (NoDup_lookup _ _ _ _ C1 Hv H0). done. }
  constructor; rewrite ?Etid; try done; try auto.
  - intros v. rewrite C2. destruct (decide (v = t)) as [->|Hvt]; [|destruct (decide (v = u)) as [->|Hvu]].
    + rewrite Gt, Ht. split; intros (x & [= <-] & E); congruence.
    + rewrite Gu, Hu. split; intros _; eexists; (split; [done|]); unfold exited; cbn; by rewrite Hwu, ?Hlu.
    + by rewrite Go.
  - intros i v vh Hi Hv. destruct (decide (v = t)) as [->|Hvt]; [|destruct (decide (v = u)) as [->|Hvu]].
    + destruct Hnt. by eapply list_elem_of_lookup_2.
    + rewrite Gu in Hv. injection Hv as <-. unfold link_ok. cbn. rewrite Hwu. eapply Hliv; [done|].
      pose proof (C4 i u uh Hi Hu) as H. unfold link_ok in H. by rewrite Hwu in H.
    + rewrite Go in Hv by done. eapply link_kept; [|by eapply C4]. intros l. by eapply Hliv.
  - intros v vh old Hv Hwv. destruct (decide (v = t)) as [->|Hvt]; [|destruct (decide (v = u)) as [->|Hvu]].
    + rewrite Gt in Hv. injection Hv as <-. rewrite Hw in Hwv. by apply (C6 t th).
    + rewrite Gu in Hv. injection Hv as <-. cbn in Hwv. congruence.
    + rewrite Go in Hv by done. by eapply C6.
  - intros v vh f w Hv Hwv. destruct (decide (v = t)) as [->|Hvt]; [|destruct (decide (v = u)) as [->|Hvu]].
    + rewrite Gt in Hv. injection Hv as <-. by destruct (Hc f w).
    + rewrite Gu in Hv. injection Hv as <-. cbn in Hwv. congruence.
    + rewrite Go in Hv by done. by eapply C7.
Qed.

(** What follows the threads' end. *)
Lemma after_ok ph t f p th : owner_ok ph t (Terminate f p) th -> level_term p = Draining ->
  owner_ok ph t (after_terminate f) (at_call (after_terminate f) th).
Proof.
  intros [(-> & Hw & Hl & Hs & Hp)|[-> Hd]] Hlv; [left|right]; repeat split; try done.
  - cbn in Hp. by destruct f.
  - assert (detached_pc (Terminate f p) = true) as E by (by destruct p).
    destruct Hd as [(Hw & Hp & Hl & Hs)|(task & Hw & Hp & Hs & Hl)]; cbn in Hp; destruct f as [|[]]; try done;
      [left|right; exists task]; cbn; repeat split; try done. by rewrite Hl, E.
Qed.

Lemma owner_task ph t f p th : owner_ok ph t (Terminate f p) th -> own_resources ph (is_task th) (after_terminate f) = all_resources.
Proof. intros [(-> & _)|[-> Hd]]; by destruct f. Qed.

(** Leaving [__thrdpool_terminate]. *)
Lemma leave_base s s' t th f p : base_by 0 s -> pthreads s !! t = Some th -> call th = Some (Terminate f p) -> level_term p = Draining ->
  owner_ok (phase s) t (Terminate f p) th -> critical_call (Terminate f p) = false ->
  pthreads s' = <[t := at_call (after_terminate f) th]> (pthreads s) -> phase s' = phase s -> resources s' = resources s ->
  pool s' = pool s -> messages s' = messages s -> entries s' = entries s -> scheduled s' = scheduled s -> taken s' = taken s ->
  begun s' = begun s -> handed s' = handed s ->
  (forall u uh q, u <> t -> pthreads s !! u = Some uh -> work uh = Routine q -> routine_ok Draining q = true -> False) ->
  (exists ch, chained s' ch) -> sound s'.
Proof.
  intros Hs Ht Hc Hlv Hok Hcr Ep Eph Er Epl Em Ee Es Eta Eb Eh Hall Hch.
  destruct (owner_owning s t _ th Hok) as (Ho & Hwk & _). destruct (term_own s t th f p Ho Ht Hc) as (El & Eres & Ecd).
  pose proof (after_ok _ _ _ _ _ Hok Hlv) as Hok'.
  assert (forall q, own_level (phase s) (Terminate f q) = level_term q) as Elq by (intros q; unfold own_level; by destruct Ho as [-> | ->]).
  assert (own_level (phase s) (after_terminate f) = Finished) as Eaf by (unfold own_level; destruct Ho as [-> | ->]; by destruct f).
  assert (no_entry (after_terminate f) = true) as Hne by (by destruct f).
  pose proof (sound_level s Hs) as HL. rewrite El, Hlv in HL.
  eapply (own_step 0 s s' t th (at_call (after_terminate f) th) (Terminate f p) (after_terminate f)); try done; rewrite ?Eaf, ?Elq, ?Hlv, ?Epl, ?Em; try done.
  - cbn [at_call set_call]. rewrite Er, (sound_resources s Hs), Eres. symmetry.
    replace (is_task (at_call (after_terminate f) th)) with (is_task th) by done. by eapply owner_task.
  - constructor. unfold critical. cbn [call at_call set_call]. rewrite Hc, Hcr. by destruct f.
  - by eapply owner_fine.
  - intros u uh q Hne' Hu Hwu Hq. by destruct (Hall u uh q).
  - destruct HL as [HL _]. unfold level_ok. by destruct (phase s).
  - intros _. pose proof (sound_count s Hs Ecd). pose proof (total_insert counting _ _ _ (at_call (after_terminate f) th) Ht).
    pose proof (total_insert alive _ _ _ (at_call (after_terminate f) th) Ht).
    assert (counting th = 0%nat) as E1 by (unfold counting; by rewrite Hc).
    assert (counting (at_call (after_terminate f) th) = 0%nat) as E2 by (unfold counting; cbn; by destruct f).
    assert (alive (at_call (after_terminate f) th) = alive th) as E3.
    { apply alive_same; [done|]. unfold counted_out. cbn. rewrite Hc. destruct (life th); try done. destruct f, p; done. }
    lia.
  - intros g E. by destruct f.
  - destruct (own_entries th _ Hwk Hc eq_refl) as (F1 & F2 & F3).
    destruct (own_entries (at_call (after_terminate f) th) (after_terminate f) Hwk eq_refl Hne) as (G1 & G2 & G3).
    assert (owning t s') as Ho' by (unfold owning; by rewrite Eph).
    assert (pthreads s' !! t = Some (at_call (after_terminate f) th)) as Ht' by (rewrite Ep; apply list_lookup_insert_eq; by eapply lookup_lt_Some).
    eapply (stock_kept s); try done; [apply (sound_stock s Hs)|by rewrite Em|congruence..|].
    destruct (own_facts s' t _ _ Ho' Ht' eq_refl) as (_ & _ & _ & ->). destruct (own_facts s t _ _ Ho Ht Hc) as (_ & _ & _ & ->).
    rewrite Eph. unfold own_drained. destruct Ho as [E0|E0]; rewrite E0; [auto|]. destruct Hok as [(E & _)|[E Hd]]; [congruence|].
    destruct Hd as [(_ & E' & _)|(task & _ & E' & _)]; cbn in E'; by destruct f.
Qed.

Lemma last_live s t th f u : sound s -> pthreads s !! t = Some th -> call th = Some (Terminate f (TermJoin u)) ->
  own_work (work th) -> exists ch uh, chained s ch /\ head ch = Some u /\ u <> t /\ pthreads s !! u = Some uh /\ life uh = Joinable.
Proof.
  intros Hs Ht Hc Hw. destruct (sound_chain s Hs) as [ch Hch]. destruct (terminating s t th f _ Hs Ht Hc) as (_ & Hph & Hlv).
  destruct (term_own s t th f _ Hph Ht Hc) as (_ & _ & Hcd).
  assert (head ch = Some u) as Hh by (rewrite <- (chain_tid s ch Hch Hcd); by apply (chain_last s ch Hch t th f)).
  pose proof (chain_head s ch Hch) as Hl. rewrite Hlv, Hh in Hl. destruct Hl as (uh & Hu & Hl); [done|].
  exists ch, uh. do 2 (split; [done|]). split; [|done]. intros ->.
  assert (t ∈ ch) as (x & Hx & He)%(chain_exited s ch Hch) by (destruct ch; [done|injection Hh as ->; apply list_elem_of_here]).
  assert (x = th) as -> by congruence. by rewrite own_exited in He.
Qed.

Lemma term_join_leads s t th f u : sound s -> pthreads s !! t = Some th -> call th = Some (Terminate f (TermJoin u)) ->
  owner_ok (phase s) t (Terminate f (TermJoin u)) th ->
  leads t (let! r := pthread_join t u s in match r with Some s => goes (at_call (after_terminate f) th) s | None => blocked end).
Proof.
  intros Hs Ht Hc Hok. destruct (owner_owning s t _ th Hok) as (Ho & Hwk & How).
  destruct (last_live s t th f u Hs Ht Hc Hwk) as (ch & uh & Hch & Hh & Hne & Hu & Hlu).
  unfold pthread_join. rewrite decide_False by done. rewrite Hu, Hlu. destruct (work uh) as [|p|] eqn:Hwu; cbn [cbind]; try apply leads_blocked.
  apply leads_goes. pose proof (ended_call _ _ _ _ _ (sound_fine s Hs u uh Hu) Hwu) as Hcu.
  assert (owner (phase s) <> Some u) as Ho' by congruence. destruct (term_own s t th f _ Ho Ht Hc) as (El & _ & Ecd).
  set (s1 := set_thread u (set_life Joined uh) s). pose proof (retire s u uh Hs Hu Hwu Hlu Hcu Ho') as Hs1.
  assert (pthreads s1 !! t = Some th) as Ht1 by (cbn; by rewrite list_lookup_insert_ne).
  set (s' := set_thread _ _ _). assert (chained s' ch) as Hch'.
  { eapply (chain_finish s s' ch t th (at_call (after_terminate f) th) u uh); try done.
    - by apply own_exited.
    - intros g v. cbn. by destruct f.
    - assert (owning t s') as Hos by done.
      destruct (own_facts s' t (at_call (after_terminate f) th) (after_terminate f) Hos) as (-> & _); [|done|].
      + cbn. apply list_lookup_insert_eq. rewrite length_insert. by eapply lookup_lt_Some.
      + unfold own_level. cbn. destruct Ho as [-> | ->]; by destruct f. }
  eapply (leave_base s1 s' t th f (TermJoin u)); try done; [|by eexists].
  intros v vh q Hv Hvh Hwv Hq. destruct (decide (v = u)) as [->|Hvu].
  - cbn in Hvh. rewrite list_lookup_insert_eq in Hvh by (by eapply lookup_lt_Some). injection Hvh as <-. cbn in Hwv. congruence.
  - cbn in Hvh. rewrite list_lookup_insert_ne in Hvh by done. eapply (all_ended s t Hs El Ho); [|exact Hv|exact Hvh|exact Hwv|exact Hq].
    intros ch' x xh Hch'' Hx Hxh. assert (x = u) as ->; [|congruence].
    pose proof (chain_tid s ch' Hch'' Ecd) as E1. pose proof (chain_tid s ch Hch Ecd) as E2. congruence.
Qed.

Lemma term_leads s t th f p : sound s -> pthreads s !! t = Some th -> call th = Some (Terminate f p) ->
  owner_ok (phase s) t (Terminate f p) th -> Z.of_nat (length (pthreads s)) < 2 ^ 64 -> leads t (term_step t f p th s).
Proof.
  intros Hs Ht Hc Hok Hlen. destruct (owner_owning s t _ th Hok) as (Ho & Hwk & How).
  destruct (term_own s t th f p Ho Ht Hc) as (El & Eres & Ecd). pose proof (sound_resources s Hs) as Er. rewrite Eres in Er.
  pose proof (sound_level s Hs) as HL. rewrite El in HL.
  assert (critical th = critical_call (Terminate f p)) as Hcr by (unfold critical; by rewrite Hc).
  assert (critical_call (Terminate f p) = true -> mutex (pool s) = Some t) as Hown by (intros E; eapply critical_owner; [done|done|congruence]).
  assert (forall p', in_pool_pc p' = false -> count_pc (Terminate f p) = false -> alive (at_call (Terminate f p') th) = alive th) as Hal.
  { intros p' Hp Hq. apply alive_same; [done|]. unfold counted_out. cbn. rewrite Hc. destruct (life th), p', p; done. }
  assert (forall p' : term_pc, call (at_call (Terminate f p') th) = Some (Terminate f p')) as Hcall by done.
  destruct p; cbn [term_step].
  - rewrite lock_ok by in_all. destruct (mutex (pool s)) eqn:Em; [apply leads_blocked|]. apply leads_goes.
    eapply (term_calm s _ t th (at_call (Terminate f TermNonblock) th) f TermLock TermNonblock); try done.
    + cbn. rewrite Em. by constructor.
    + cbn. by rewrite Hal.
  - rewrite !needs_ok by in_all. apply leads_goes.
    eapply (term_calm s _ t th (at_call (Terminate f TermSet) th) f TermNonblock TermSet); try done.
    + by constructor.
    + intros u uh q _ _ _. by destruct q.
    + cbn. split; [done|]. by destruct HL.
    + cbn. by rewrite Hal.
  - rewrite !needs_ok by in_all. apply leads_goes.
    eapply (term_calm s _ t th (at_call (Terminate f (match f with InDestroy true => TermDetach | _ => TermTest end)) th) f TermSet (match f with InDestroy true => TermDetach | _ => TermTest end)); try done.
    + eapply owner_next; [done|by destruct f as [|[]]|by intros ->].
    + constructor. rewrite Hcr. by destruct f as [|[]].
    + intros u uh q _ _ _. destruct f as [|[]]; by destruct q.
    + destruct f as [|[]]; (split; [by destruct HL|]); cbn; by rewrite How.
    + cbn. destruct f as [|[]]; try (by rewrite Hal). unfold alive, counted_out. cbn. rewrite Hc.
      destruct Hok as [(_ & _ & -> & _)|[_ [(_ & _ & -> & _)|(task & _ & _ & _ & ->)]]]; done.
    + by destruct f as [|[]].
    + by destruct f as [|[]].
  - assert (f = InDestroy true /\ life th = Joinable /\ phase s = Closing t /\ destroyer_at (Terminate f TermDetach) th) as (-> & Hl & Hph & Hd).
    { destruct Hok as [(_ & _ & _ & _ & E)|[E Hd]]; [by destruct f|]. split_and!; try done;
        destruct Hd as [(_ & E' & _)|(task & _ & E' & _ & E'')]; cbn in E'; try (cbn in E''); by destruct f as [|[]]. }
    rewrite Hl. apply leads_goes.
    eapply (term_calm s _ t th (set_life Detached (at_call (Terminate (InDestroy true) TermCount) th)) (InDestroy true) TermDetach TermCount); try done.
    + right. split; [done|]. right. destruct Hd as [(_ & E & _)|(task & Hw & _ & Hsp & _)]; [done|]. by exists task.
    + by constructor.
    + cbn. assert (alive (set_life Detached (at_call (Terminate (InDestroy true) TermCount) th)) = alive th) as ->; [|done].
      unfold alive, counted_out. cbn. by rewrite Hl.
  - assert (f = InDestroy true /\ phase s = Closing t /\ destroyer_at (Terminate f TermCount) th) as (-> & Hph & Hd).
    { destruct Hok as [(_ & _ & _ & _ & E)|[E Hd]]; [by destruct f|]. split_and!; try done;
        destruct Hd as [(_ & E' & _)|(task & _ & E' & _ & E'')]; cbn in E'; by destruct f as [|[]]. }
    assert (exists task, work th = Routine (RoutineTask task) /\ life th = Detached) as (task & Hw & Hl).
    { destruct Hd as [(_ & E & _)|(task & Hw & _ & _ & Hl)]; [done|by exists task]. }
    assert (alive th = 1%nat /\ alive (at_call (Terminate (InDestroy true) TermTest) th) = 0%nat) as [A1 A2].
    { unfold alive, counted_out. cbn. by rewrite Hw, Hl, Hc. }
    rewrite needs_ok by in_all. destruct (count_bounds s Hs Ecd Hlen) as (E1 & E2 & E3).
    rewrite (terminating_counting s t th _ _ Hs Ht Hc Ho eq_refl) in E1. pose proof (total_at alive _ _ _ Ht) as E4. rewrite A1 in E4.
    unfold u64. rewrite Z.mod_small by lia. apply leads_goes.
    eapply (term_calm s _ t th (at_call (Terminate (InDestroy true) TermTest) th) (InDestroy true) TermCount TermTest); try done.
    + by constructor.
    + cbn. lia.
  - rewrite needs_ok by in_all. destruct (Z.ltb_spec 0 (nthreads (pool s))) as [Hn|Hn].
    + rewrite unlock_ok by (in_all || by apply Hown). cbn [cbind]. apply leads_goes.
      eapply (term_calm s _ t th (at_call (Terminate f TermWait) th) f TermTest TermWait); try done.
      * cbn. rewrite Hown by done. by constructor.
      * cbn. by rewrite Hal.
    + apply leads_goes. eapply (term_calm s _ t th (at_call (Terminate f TermUnlock) th) f TermTest TermUnlock); try done.
      * by constructor.
      * intros u uh q Hne Hu Hw Hq. eapply (uncounted_out s t th f); done.
      * cbn. by rewrite Hal.
  - apply leads_blocked.
  - rewrite lock_ok by in_all. destruct (mutex (pool s)) eqn:Em; [apply leads_blocked|]. apply leads_goes.
    eapply (term_calm s _ t th (at_call (Terminate f TermTest) th) f TermWake TermTest); try done.
    + cbn. rewrite Em. by constructor.
    + cbn. by rewrite Hal.
  - rewrite unlock_ok by (in_all || by apply Hown). cbn [cbind]. apply leads_goes.
    eapply (term_calm s _ t th (at_call (Terminate f TermTid) th) f TermUnlock TermTid); try done.
    + cbn. rewrite Hown by done. by constructor.
    + cbn. by rewrite Hal.
  - rewrite needs_ok by in_all. destruct (tid (pool s)) as [u|] eqn:Et; apply leads_goes.
    + eapply (term_calm s _ t th (at_call (Terminate f (TermJoin u)) th) f TermTid (TermJoin u)); try done.
      * by constructor.
      * cbn. by rewrite Hal.
      * congruence.
    + destruct (sound_chain s Hs) as [ch Hch].
      assert (forall ch, chained s ch -> head ch = None) as Hnil by (intros ch' Hch'; by rewrite <- (chain_tid s ch' Hch' Ecd)).
      set (s' := set_thread _ _ _). assert (level_of s' = Finished /\ (counted s' = true -> counted s = true)) as [El' Ec'].
      { destruct (own_facts s' t (at_call (after_terminate f) th) (after_terminate f) Ho) as (-> & _); [|done|].
        - cbn. apply list_lookup_insert_eq. by eapply lookup_lt_Some.
        - split; [|done]. unfold own_level. cbn. destruct Ho as [-> | ->]; by destruct f. }
      eapply (leave_base s s' t th f TermTid); try done; [apply Hs|..].
      * intros u uh q Hne Hu Hwu Hq. eapply (all_ended s t Hs El Ho); [|exact Hne|exact Hu|exact Hwu|exact Hq].
        intros ch' x xh Hch' Hx. rewrite (Hnil ch' Hch') in Hx. done.
      * exists ch. eapply (chain_kept s s' ch t th (at_call (after_terminate f) th)); try done.
        -- by left.
        -- intros old. cbn. by destruct Hwk as [[task ->]| ->].
        -- intros g u. cbn. by destruct f.
  - by apply term_join_leads.
Qed.

(** *** The end of thrdpool_create and thrdpool_destroy *)

(** A statement of the owner behind [__thrdpool_terminate]. *)
Definition end_pc (pc : call_pc) : bool :=
  match pc with DestroyGet _ | DeleteKey _ | DestroyMutex _ | DestroyQueue _ | FreePool _ => true | _ => false end.

Lemma finish_step s s' t th pc pc' : sound s -> pthreads s !! t = Some th -> call th = Some pc ->
  owner_ok (phase s) t pc th -> owner_ok (phase s) t pc' (at_call pc' th) -> end_pc pc = true -> own_level (phase s) pc' = Finished ->
  no_entry pc' = true -> critical_call pc' = false -> match pc' with CreateCount _ | IncreaseCount => false | _ => true end = true ->
  pthreads s' = <[t := at_call pc' th]> (pthreads s) -> phase s' = phase s -> pool s' = pool s ->
  resources s' = own_resources (phase s) (is_task th) pc' -> messages s' = messages s -> entries s' = entries s ->
  scheduled s' = scheduled s -> taken s' = taken s -> begun s' = begun s -> handed s' = handed s ->
  (own_counted (phase s) pc' = true -> own_counted (phase s) pc = true) ->
  (own_drained (phase s) pc' = true -> own_drained (phase s) pc = true \/ (messages s).1 = []) -> sound s'.
Proof.
  intros Hs Ht Hc Hok Hok' Hend Hfin Hne Hcr Hcnt Ep Eph Epl Er Em Ee Es Eta Eb Eh Hcd Hd.
  destruct (owner_owning s t _ th Hok) as (Ho & Hwk & How). destruct (own_facts s t th pc Ho Ht Hc) as (El & _ & _ & _).
  assert (own_level (phase s) pc = Finished) as Hfin' by (unfold own_level; destruct Ho as [-> | ->]; by destruct pc).
  rewrite Hfin' in El. pose proof (sound_level s Hs) as HL. rewrite El in HL.
  eapply (own_calm 0 s s' t th (at_call pc' th) pc pc'); try done; rewrite ?Hfin, ?Hfin', ?Em, ?Epl; try done.
  - by destruct pc.
  - constructor. unfold critical. cbn [call at_call set_call]. rewrite Hc, Hcr. by destruct pc.
  - by eapply owner_fine.
  - intros H. split; [auto|]. split; [done|].
    assert (counting th = 0%nat) as -> by (unfold counting; rewrite Hc; by destruct pc).
    assert (counting (at_call pc' th) = 0%nat) as -> by (unfold counting; cbn; by destruct pc').
    assert (alive (at_call pc' th) = alive th) as ->; [|lia].
    apply alive_same; [done|]. unfold counted_out. cbn. rewrite Hc. destruct (life th); try done.
    assert (count_pc pc' = false) as Hcp.
    { destruct pc' as [| | | | | | | | | | | | | | | | | |f' q'| | | | | | |]; try done. by destruct q'. }
    destruct pc as [| | | | | | | | | | | | | | | | | |f q| | | | | | |]; try done;
      destruct pc' as [| | | | | | | | | | | | | | | | | |f' q'| | | | | | |]; try done; by destruct q'.
  - intros f E. subst pc'. unfold own_level in Hfin. by destruct Ho as [Ho|Ho]; rewrite Ho in Hfin.
  - intros f u E. subst pc'. unfold own_level in Hfin. by destruct Ho as [Ho|Ho]; rewrite Ho in Hfin.
  - by left.
Qed.

(** The facts of the owner at a statement of the same call. *)
Lemma end_ok ph t th pc pc' : owner_ok ph t pc th -> detached_pc pc = true -> detached_pc pc' = true ->
  (create_pc pc = true -> create_pc pc' = true) -> (forall b, destroy_pc b pc = true -> destroy_pc b pc' = true) ->
  owner_ok ph t pc' (at_call pc' th).
Proof.
  intros [(-> & Hw & Hl & Hs & Hp)|[-> Hd]] H1 H2 Hcp Hdp; [left|right]; repeat split; try done; [auto|].
  eapply destroyer_next; [done|done|congruence].
Qed.

Lemma own_here s t th pc : owning t s -> sound s -> pthreads s !! t = Some th -> call th = Some pc ->
  resources s = own_resources (phase s) (is_task th) pc.
Proof. intros Ho Hs Ht Hc. rewrite (sound_resources s Hs). by destruct (own_facts s t th pc Ho Ht Hc) as (_ & ? & _). Qed.

Lemma release_leads s t th pc pc' r : sound s -> pthreads s !! t = Some th -> call th = Some pc ->
  owner_ok (phase s) t pc th ->
  match pc, pc' with
  | DeleteKey f, DestroyMutex f' => f = f' /\ r = PoolKey
  | DestroyMutex f, DestroyQueue f' => f = f' /\ r = PoolMutex
  | DestroyQueue f, FreePool f' => f = f' /\ r = PoolQueue
  | _, _ => False
  end -> leads t (release_step r pc' th s).
Proof.
  intros Hs Ht Hc Hok Hpc. destruct (owner_owning s t _ th Hok) as (Ho & Hwk & How).
  pose proof (own_here s t th pc Ho Hs Ht Hc) as Er.
  assert (resources s = resources_at pc) as Er'.
  { rewrite Er. unfold own_resources. destruct pc; try done; by destruct Ho as [-> | ->]. }
  unfold release_step. rewrite !needs_ok by (rewrite Er'; destruct pc, pc'; try done; destruct Hpc as [_ ->]; unfold resources_at, all_resources; set_solver).
  apply leads_goes. eapply (finish_step s _ t th pc pc'); try done.
  - eapply end_ok; try done; destruct pc, pc'; try done; by destruct Hpc as [-> _].
  - by destruct pc.
  - unfold own_level. destruct Ho as [-> | ->]; by destruct pc, pc'.
  - by destruct pc, pc'.
  - by destruct pc, pc'.
  - by destruct pc, pc'.
  - cbn [set_resources resources set_thread set_pthreads]. rewrite Er'. unfold own_resources.
    destruct pc, pc'; try done; destruct Hpc as [_ ->]; destruct Ho as [-> | ->]; done.
  - unfold own_counted. destruct Ho as [-> | ->]; by destruct pc, pc'.
  - left. unfold own_drained. destruct Ho as [-> | ->]; by destruct pc.
Qed.

Lemma owner_closing s t th pc b : owner_ok (phase s) t pc th -> (pc = DestroyTest \/ pc = DestroyGet b \/ exists e, pc = DestroyPending b e) ->
  phase s = Closing t /\ destroyer_at pc th.
Proof.
  intros [(_ & _ & _ & _ & Hp)|H] Hpc; [|done]. by destruct Hpc as [->|[->|[e ->]]].
Qed.

Lemma drain_sound s s' t th pc pc' : sound s -> pthreads s !! t = Some th -> call th = Some pc -> phase s = Closing t ->
  destroyer_at pc th -> detached_pc pc = true -> detached_pc pc' = true -> (forall b, destroy_pc b pc = true -> destroy_pc b pc' = true) ->
  (exists b, pc = DestroyGet b /\ (exists e, pc' = DestroyPending b e) \/ pc' = DestroyGet b /\ exists e, pc = DestroyPending b e) ->
  pthreads s' = <[t := at_call pc' th]> (pthreads s) -> phase s' = phase s -> pool s' = pool s -> resources s' = resources s ->
  (messages s').2 = (messages s).2 -> stocked s' -> sound s'.
Proof.
  intros Hs Ht Hc Hph Hd Hdt Hdt' Hdp Hpc Ep Eph Epl Er Em Hst.
  assert (owner_ok (phase s) t pc th) as Hok by (by right).
  destruct (owner_owning s t _ th Hok) as (Ho & Hwk & How). destruct (own_facts s t th pc Ho Ht Hc) as (El & Eres & Ecd & _).
  assert (owner_ok (phase s) t pc' (at_call pc' th)) as Hok' by (rewrite Hph in *; eapply end_ok; try done; destruct Hpc as [b [[-> _]|[_ [e ->]]]]; done).
  assert (level_destroy pc = Finished /\ level_destroy pc' = Finished /\ resources_at pc = all_resources /\ resources_at pc' = all_resources /\
    critical_call pc = false /\ critical_call pc' = false /\ count_pc pc = false /\ count_pc pc' = false) as (F1 & F2 & F3 & F4 & F5 & F6 & F7 & F8)
    by (destruct Hpc as [b [[-> [e ->]]|[-> [e ->]]]]; done).
  rewrite Hph in El, Eres, Ecd. cbn in El, Eres, Ecd. rewrite F1 in El.
  pose proof (sound_level s Hs) as HL. rewrite El in HL.
  destruct (own_facts s' t (at_call pc' th) pc') as (El' & _ & Ec' & _);
    [unfold owning; by rewrite Eph|rewrite Ep; apply list_lookup_insert_eq; by eapply lookup_lt_Some|done|].
  rewrite Eph, Hph in El', Ec'. cbn in El', Ec'. rewrite F2 in El'.
  eapply (own_step 0 s s' t th (at_call pc' th) pc pc'); try done; rewrite ?Hph, ?Epl; try done.
  - apply Hs.
  - rewrite Er, (sound_resources s Hs), Eres. destruct Hpc as [b [[-> [e ->]]|[-> [e ->]]]]; done.
  - constructor. unfold critical. cbn [call at_call set_call]. by rewrite Hc, F5.
  - rewrite <- Hph. by eapply owner_fine.
  - cbn. rewrite F1, F2. done.
  - cbn. by rewrite F2.
  - cbn. rewrite F2. unfold level_ok in *. rewrite Hph in HL. congruence.
  - intros _. pose proof (sound_count s Hs Ecd) as E.
    pose proof (total_insert counting _ _ _ (at_call pc' th) Ht). pose proof (total_insert alive _ _ _ (at_call pc' th) Ht).
    assert (counting th = 0%nat) as E1 by (unfold counting; rewrite Hc; destruct Hpc as [b [[-> _]|[_ [e ->]]]]; done).
    assert (counting (at_call pc' th) = 0%nat) as E2 by (unfold counting; cbn; destruct Hpc as [b [[_ [e ->]]|[-> _]]]; done).
    assert (alive (at_call pc' th) = alive th) as E3; [|lia].
    apply alive_same; [done|]. unfold counted_out. cbn. rewrite Hc. destruct Hpc as [b [[-> [e ->]]|[-> [e ->]]]]; done.
  - intros f E. destruct Hpc as [b [[_ [e ->]]|[-> _]]]; done.
  - destruct (sound_chain s Hs) as [ch Hch]. exists ch.
    eapply (chain_kept s s' ch t th (at_call pc' th)); try done; rewrite ?El, ?El', ?Ec', ?Epl; try done.
    + by left.
    + intros old. cbn. by destruct Hwk as [[task ->]| ->].
    + intros f u. cbn. destruct Hpc as [b [[_ [e ->]]|[-> _]]]; done.
Qed.

Lemma destroy_leads s t th pc : sound s -> pthreads s !! t = Some th -> call th = Some pc -> owner_ok (phase s) t pc th ->
  match pc with DestroyTest | DestroyPending _ _ => true | _ => end_pc pc end = true -> leads t (destroy_step pc th s).
Proof.
  intros Hs Ht Hc Hok Hpc. destruct (owner_owning s t _ th Hok) as (Ho & Hwk & How).
  pose proof (own_here s t th pc Ho Hs Ht Hc) as Er. pose proof (sound_stock s Hs) as Hst.
  destruct (own_facts s t th pc Ho Ht Hc) as (El & _ & Ecd & _). pose proof (sound_level s Hs) as HL. rewrite El in HL.
  destruct (holds_work th Hwk pc Hc) as (Hh & Hrm & Hf).
  assert (forall pc', let th' := at_call pc' th in holds th' = match pc' with ScheduleStore _ b | SchedulePut b | DestroyPending _ b => [b] | _ => [] end /\
    removed th' = match pc' with DestroyPending _ b => [b] | _ => [] end /\
    filled th' = match pc' with SchedulePut b | DestroyPending _ b => [b] | _ => [] end) as Hh' by (intros pc'; by apply holds_work).
  destruct pc; try done; cbn [destroy_step].
  - destruct (owner_closing s t th _ true Hok (or_introl eq_refl)) as [Hph Hd]. rewrite Hph in Er, HL. cbn in Er, HL.
    rewrite !needs_ok by in_all. apply leads_goes.
    assert (specific th = is_task th) as ->.
    { unfold is_task. destruct Hd as [(-> & _ & _ & ->)|(task & -> & _ & -> & _)]; done. }
    assert (destroyer_at (Terminate (InDestroy (is_task th)) TermLock) (at_call (Terminate (InDestroy (is_task th)) TermLock) th)) as Hd'.
    { unfold is_task. destruct Hd as [(Hw & Hp & Hl & Hsp)|(task & Hw & Hp & Hsp & Hl)]; rewrite Hw; [left|right; exists task]; done. }
    eapply (own_calm 0 s _ t th (at_call (Terminate (InDestroy (is_task th)) TermLock) th) DestroyTest (Terminate (InDestroy (is_task th)) TermLock)); try done; rewrite ?Hph; try done.
    + constructor. unfold critical. cbn. by rewrite Hc.
    + by eapply close_fine.
    + intros _. split; [done|]. split; [done|]. unfold counting. rewrite Hc. cbn.
      assert (alive (at_call (Terminate (InDestroy (is_task th)) TermLock) th) = alive th) as ->; [|lia].
      apply alive_same; [done|]. unfold counted_out. cbn. rewrite Hc. by destruct (life th).
    + by left.
  - destruct (owner_closing s t th _ in_pool Hok) as [Hph Hd]; [eauto|]. rewrite Hph in Er, HL. cbn in Er, HL.
    eapply get_leads; [in_all|in_all| | |done].
    + intros m l Em. apply leads_goes. destruct (Hh' (DestroyPending in_pool m)) as (E1 & E2 & E3).
      eapply (drain_sound s _ t th _ (DestroyPending in_pool m)); try done; [by exists in_pool; left; eauto|].
      eapply (stock_take s); try done; [by rewrite Em|].
      unfold drained, call_at. cbn. rewrite Hph, list_lookup_insert_eq by (by eapply lookup_lt_Some). done.
    + intros Em. apply leads_goes.
      eapply (finish_step s _ t th (DestroyGet in_pool) (DeleteKey (InDestroy in_pool))); try done; rewrite ?Hph.
      * done.
      * exact Er.
      * right. by rewrite Em.
  - destruct (owner_closing s t th _ in_pool Hok) as [Hph Hd]; [eauto|]. 
    destruct (entry_written s entry Hst) as (task & E1 & E2 & E3).
    { apply elem_of_app. right. apply list_elem_of_bind. exists th. rewrite Hf. split; [set_solver|by eapply list_elem_of_lookup_2]. }
    rewrite E2. unfold free_entry. rewrite E1. cbn [cbind]. apply leads_goes. destruct (Hh' (DestroyGet in_pool)) as (G1 & G2 & G3).
    eapply (drain_sound s _ t th _ (DestroyGet in_pool)); try done; [by exists in_pool; right; eauto|].
    eapply (stock_free s); try done; [cbn; rewrite E3, app_assoc; by rewrite (Permutation_app_comm _ [task])|].
    unfold drained, call_at. cbn. rewrite Hph, Ht. cbn. rewrite Hc, list_lookup_insert_eq by (by eapply lookup_lt_Some). done.
  - by eapply release_leads.
  - by eapply release_leads.
  - by eapply release_leads.
  - assert (resources s = [PoolMemory]) as Er' by (rewrite Er; unfold own_resources; by destruct Ho as [-> | ->]).
    assert (forall s', resources s' = own_resources (phase s) (is_task th) (Returned (return_of f)) -> pthreads s' = <[t := at_call (Returned (return_of f)) th]> (pthreads s) ->
      phase s' = phase s -> pool s' = pool s -> messages s' = messages s -> entries s' = entries s ->
      scheduled s' = scheduled s -> taken s' = taken s -> begun s' = begun s -> handed s' = handed s -> sound s') as Hgo.
    { intros s' Es1 Es2 Es3 Es4 Es5 Es6 Es7 Es8 Es9 Es10. eapply (finish_step s s' t th (FreePool f) (Returned (return_of f))); try done.
      - eapply end_ok; try done.
      - unfold own_level. destruct Hok as [(-> & _ & _ & _ & Hp)|[-> _]]; [|done]. cbn in Hp. by destruct f.
      - unfold own_counted. destruct Hok as [(-> & _ & _ & _ & Hp)|[-> _]]; [|done]. cbn in Hp. by destruct f.
      - left. unfold own_drained. by destruct Ho as [-> | ->]. }
    destruct Hok as [(Hph & Hw & _ & _ & Hp)|[Hph Hd]].
    + cbn in Hp. destruct f; [|done]. rewrite needs_ok by (rewrite Er'; set_solver). apply leads_goes.
      apply Hgo; try done. rewrite Hph. cbn. by rewrite Er'.
    + unfold is_task in Hgo. destruct Hd as [(Hw & Hp & _)|(task & Hw & Hp & _)]; rewrite Hw in Hgo; cbn in Hp; destruct f as [|[]]; try done;
        rewrite ?needs_ok by (rewrite Er'; set_solver); apply leads_goes; apply Hgo; try done; rewrite Hph; cbn; by rewrite Er'.
Qed.

(** ** Every step *)

Lemma run_leads s t th c : sound s -> pthreads s !! t = Some th -> Z.of_nat (length (pthreads s)) < 2 ^ 64 ->
  leads t (thread_step t c th s).
Proof.
  intros Hs Ht Hlen. unfold thread_step. destruct (call th) as [pc|] eqn:Hc.
  - destruct (call_cases _ _ _ _ _ _ (sound_fine s Hs t th Ht) Hc) as [(Ho & Hu & Hl & Hua)|H].
    + destruct pc; try done; cbn [call_step]; first [by apply schedule_leads|by apply increase_leads|apply leads_blocked].
    + assert (owner_ok (phase s) t pc th) as Hok by (destruct H as [(E & ? & ? & ? & ?)|[E ?]]; [left|right]; auto). clear H.
      destruct pc; cbn [call_step]; try apply leads_blocked; try (by apply destroy_leads); try (by apply term_leads);
        destruct Hok as [(Hph & Hw & Hl & Hsp & Hp)|[Hph [(_ & Hp & _)|(tk & _ & Hp & _)]]]; try done; by apply create_leads.
  - destruct (work th) as [|p|] eqn:Hw; try apply leads_blocked.
    destruct (routine_cases s t th p Hs Ht Hc Hw) as [H|(Hph & Hl & Hp)].
    + pose proof (working_eq _ _ _ _ H) as ->. by apply worker_leads.
    + destruct (gone_uncounted s t th p Hs Ht Hph Hw Hl) as [Hn Hr]. destruct p; try done; cbn [routine_step].
      * apply leads_blocked.
      * rewrite needs_ok by (rewrite Hr; set_solver). rewrite Hn. apply leads_goes.
        pose proof (gone_sound s t th _ (Routine RoutineRelease) _ Hs Ht Hph Hw Hl eq_refl eq_refl) as H. by rewrite set_resources_same in H.
      * rewrite needs_ok by (rewrite Hr; set_solver). apply leads_goes. rewrite Hr.
        exact (gone_sound s t th _ Ended _ Hs Ht Hph Hw Hl eq_refl eq_refl).
Qed.

Lemma end_task_sound s t th : sound s -> pthreads s !! t = Some th -> idle th = true -> is_task th = true ->
  sound (set_thread t (at_work RoutineCheck th) s).
Proof.
  unfold idle, is_task. intros Hs Ht Hi Hk. destruct (call th) eqn:Hc; [done|]. destruct (work th) as [|p|] eqn:Hw; try done.
  destruct p as [| | | |task| | | | | | | | |]; try done. destruct (routine_cases s t th _ Hs Ht Hc Hw) as [H|(Hph & Hl & _)].
  - pose proof (working_eq _ _ _ _ H) as ->. change (at_work _ _) with (worker RoutineCheck).
    eapply (calm_step s); try done; [eapply worker_ok_next; [apply H|done|done]|by left|by constructor].
  - pose proof (gone_sound s t th _ (Routine RoutineCheck) _ Hs Ht Hph Hw Hl eq_refl eq_refl) as H. by rewrite set_resources_same in H.
Qed.

(** *** Calls and returns *)

Definition neutral (c : option call_pc) : bool :=
  match c with
  | None | Some (Returned _ | ScheduleMalloc _ | IncreaseAttr | CreateMalloc _ | DestroyTest) => true
  | _ => false
  end.

Lemma neutral_facts th c : own_work (work th) -> neutral (call th) = true -> neutral c = true ->
  critical th = false /\ critical (set_call c th) = false /\ counting th = 0%nat /\ counting (set_call c th) = 0%nat /\
  alive (set_call c th) = alive th /\ holds (set_call c th) = holds th /\ removed (set_call c th) = removed th /\
  filled (set_call c th) = filled th.
Proof.
  unfold critical, counting, alive, counted_out, holds, removed, filled. cbn. intros Hw Hn Hn'.
  destruct Hw as [[task ->]| ->], (call th) as [[]|], c as [[]|], (life th); done.
Qed.

(** A call or a return, with what the users then know of the pool. *)
Lemma phase_step s t th c ph : sound s -> pthreads s !! t = Some th -> own_work (work th) ->
  neutral (call th) = true -> neutral c = true ->
  let s' := set_thread t (set_call c th) (set_phase ph s) in
  (forall u uh, pthreads s' !! u = Some uh -> fine ph (level_of s') (nthreads (pool s)) u uh) ->
  resources s = resources_of s' -> level_ok (level_of s') (counted s') ph (messages s) (pool s) ->
  (counted s' = true -> counted s = true) -> (forall d, owner ph = Some d -> is_Some (pthreads s !! d)) ->
  (level_of s' <> Finished -> level_of s <> Finished) -> (drained s' = true -> drained s = true \/ (messages s).1 = []) -> sound s'.
Proof.
  intros Hs Ht Hw Hn Hn' s' Hf Hr Hl Hc Ho Hlv Hd.
  destruct (neutral_facts th c Hw Hn Hn') as (F1 & F2 & F3 & F4 & F5 & F6 & F7 & F8).
  assert (forall f p, c <> Some (Terminate f p)) as Hnt by (intros f p ->; done).
  assert (forall old, work (set_call c th) <> Routine (RoutineSet old)) as Hns by (cbn; by destruct Hw as [[task ->]| ->]).
  split; [constructor; try done|].
  - eapply mutex_keep; [apply (sound_mutex s Hs)|done|congruence].
  - intros Hcd%Hc%(sound_count s Hs). cbn. pose proof (total_insert counting _ _ _ (set_call c th) Ht).
    pose proof (total_insert alive _ _ _ (set_call c th) Ht). lia.
  - eapply (awaited_kept s s' t th (set_call c th)); try done; [apply (sound_awaited s Hs)|..|auto].
    + intros f E. by destruct (Hnt f TermWait).
    + intros old. by destruct Hw as [[task ->]| ->].
  - intros d [x Hx]%Ho. cbn. apply lookup_lt_is_Some. rewrite length_insert. by eapply lookup_lt_Some.
  - eapply (stock_kept s s' t th (set_call c th)); try done. apply (sound_stock s Hs).
  - destruct (sound_chain s Hs) as [ch Hch]. exists ch.
    eapply (chain_kept s s' ch t th (set_call c th)); try done.
    + by left.
    + auto.
    + intros old E. by destruct (Hns old).
    + intros f u E. by destruct (Hnt f (TermJoin u)).
Qed.

(** The facts of a user before and after its call. *)
Lemma user_call s t th c : sound s -> pthreads s !! t = Some th -> own_work (work th) -> owner (phase s) <> Some t ->
  neutral (call th) = true -> neutral c = true -> fine (phase s) (level_of s) (nthreads (pool s)) t (set_call c th) ->
  sound (set_thread t (set_call c th) s).
Proof.
  intros Hs Ht Hw Ho Hn Hn' Hf.
  assert (set_thread t (set_call c th) s = set_thread t (set_call c th) (set_phase (phase s) s)) as -> by (by destruct s).
  destruct (kept_counters s (set_thread t (set_call c th) (set_phase (phase s) s)) t (set_call c th)) as (El & Ec & Ed); try done.
  assert (resources_of (set_thread t (set_call c th) (set_phase (phase s) s)) = resources_of s) as Er.
  { apply view_kept; [done|]. intros d Hd. exact (not_owner_view s t _ d Ho Hd). }
  apply phase_step; try done; rewrite ?El, ?Ec, ?Ed, ?Er; try done; try auto.
  - intros u uh Hu. apply insert_cases in Hu as [(-> & -> & _)|[Hne Hu]]; [done|by apply (sound_fine s Hs)].
  - apply (sound_resources s Hs).
  - apply (sound_level s Hs).
  - apply (sound_owner s Hs).
Qed.

Lemma callable_idle t o th s : callable t o th s = true -> call th = None /\ own_work (work th).
Proof.
  unfold callable, idle, is_client, is_task. intros [[H1 H2]%andb_true_iff _]%andb_true_iff.
  split; [by destruct (call th)|]. destruct (work th) as [|[]|]; try done; [by right|left; eauto].
Qed.

(** What an idle user of the pool may call. *)
Lemma user_fine s t th pc : sound s -> pthreads s !! t = Some th -> call th = None -> own_work (work th) -> opened t th s = true ->
  use_pc pc = true -> (increase_pc pc = true -> is_task th = true \/ 0 < nthreads (pool s)) ->
  owner (phase s) <> Some t /\ fine (phase s) (level_of s) (nthreads (pool s)) t (at_call pc th).
Proof.
  intros Hs Ht Hc Hw Hop Hp Hi. pose proof (sound_fine s Hs t th Ht) as Hf. unfold fine in Hf |- *. cbn. unfold opened in Hop.
  assert (owner (phase s) <> Some t) as Ho.
  { destruct (phase s); try done; cbn. apply andb_true_iff in Hop as [_ Hop%negb_true_iff%bool_decide_eq_false]. congruence. }
  split; [done|]. destruct Hw as [[task Hw]|Hw]; rewrite Hw in Hf |- *.
  - destruct Hf as [Hsp Hf]. split; [done|]. unfold routine_fine, worker_ok in *. cbn. destruct (phase s) as [|d| |d|d]; try done.
    + destruct Hf as (E1 & E2 & _ & _). eauto 8.
    + destruct Hf as [(E1 & E2 & E3 & _ & _)|(-> & _)]; [|by destruct Ho]. left. eauto 8.
  - destruct Hf as (E1 & E2 & E3). split; [done|]. split; [done|]. unfold client_ok, is_task in *. rewrite Hw in Hi, Hop.
    destruct (phase s); try done. split; [done|]. intros [?|?]%Hi; done.
Qed.

Lemma call_sound s t o th : sound s -> pthreads s !! t = Some th -> callable t o th s = true ->
  sound (set_thread t (at_call (start o) th) (called t o s)).
Proof.
  intros Hs Ht Hcall. destruct (callable_idle _ _ _ _ Hcall) as [Hc Hw].
  assert (neutral (call th) = true) as Hn by (by rewrite Hc).
  unfold callable in Hcall. apply andb_true_iff in Hcall as [_ Hcall].
  assert (t < length (pthreads s))%nat as Hlt by (by eapply lookup_lt_Some).
  destruct o as [n|task| |]; cbn [start called].
  - destruct (phase s) eqn:Hph; try done.
    assert (forall u uh, pthreads s !! u = Some uh -> work uh = Client /\ call uh = None /\ life uh = Joinable /\ specific uh = false) as Hall.
    { intros u uh Hu. pose proof (sound_fine s Hs u uh Hu) as Hf. unfold fine, level_of in Hf. rewrite Hph in Hf.
      destruct (work uh) as [|p|].
      - destruct Hf as (E1 & E2 & E3). cbn in E3. by destruct (call uh).
      - destruct Hf as (_ & _ & _ & [] & _).
      - by destruct Hf as (_ & ? & _). }
    destruct (Hall t th Ht) as (Hwt & _ & Hlt' & Hst).
    pose proof (sound_resources s Hs) as Er. unfold resources_of in Er. rewrite Hph in Er.
    pose proof (sound_level s Hs) as HL. unfold level_of in HL. rewrite Hph in HL.
    set (s' := set_thread _ _ _). destruct (own_facts s' t (at_call (CreateMalloc n) th) (CreateMalloc n)) as (El & Er' & Ec & Ed);
      [by left|by apply list_lookup_insert_eq|done|]. change (phase s') with (Creating t) in *. cbn [own_level level_create level_destroy own_resources resources_at own_counted own_drained] in El, Er', Ec, Ed.
    apply (phase_step s t th (Some (CreateMalloc n)) (Creating t)); try done;
      change (set_thread t (set_call (Some (CreateMalloc n)) th) (set_phase (Creating t) s)) with s'; rewrite ?El, ?Er', ?Ec, ?Ed; try done.
    + intros u uh Hu. apply insert_cases in Hu as [(-> & -> & _)|[Hne Hu]].
      * unfold fine. cbn. rewrite Hwt. done.
      * destruct (Hall u uh Hu) as (E1 & E2 & E3 & E4). unfold fine. rewrite E1. split_and!; try done. rewrite E2. cbn. congruence.
    + split; [by destruct HL|done].
    + intros d [= <-]. eauto.
    + intros _. unfold level_of. by rewrite Hph.
    + left. unfold drained. by rewrite Hph.
  - destruct (user_fine s t th (ScheduleMalloc task)) as [Ho Hf]; try done. by apply user_call.
  - apply andb_true_iff in Hcall as [Hop Hn']. destruct (user_fine s t th IncreaseAttr) as [Ho Hf]; try done; [|by apply user_call].
    intros _. apply orb_true_iff in Hn' as [?|?]; [by left|right; lia].
  - destruct (phase s) eqn:Hph; try done. rewrite forallb_forall in Hcall.
    pose proof (sound_resources s Hs) as Er. unfold resources_of in Er. rewrite Hph in Er.
    pose proof (sound_level s Hs) as HL. unfold level_of in HL. rewrite Hph in HL.
    pose proof (sound_fine s Hs t th Ht) as Hft. unfold fine, level_of in Hft. rewrite Hph in Hft.
    set (s' := set_thread _ _ _). destruct (own_facts s' t (at_call DestroyTest th) DestroyTest) as (El & Er' & Ec & Ed);
      [by right|by apply list_lookup_insert_eq|done|]. change (phase s') with (Closing t) in *. cbn [own_level level_create level_destroy own_resources resources_at own_counted own_drained] in El, Er', Ec, Ed.
    apply (phase_step s t th (Some DestroyTest) (Closing t)); try done;
      change (set_thread t (set_call (Some DestroyTest) th) (set_phase (Closing t) s)) with s'; rewrite ?El, ?Er', ?Ec, ?Ed; try done.
    + intros u uh Hu. apply insert_cases in Hu as [(-> & -> & _)|[Hne Hu]].
      * apply (close_fine _ _ _ _ DestroyTest); [|done]. destruct Hw as [[task Hw]|Hw]; rewrite Hw in Hft.
        -- right. exists task. destruct Hft as (E1 & E2 & _). done.
        -- left. destruct Hft as (E1 & E2 & _). done.
      * pose proof (sound_fine s Hs u uh Hu) as Hf. unfold fine, level_of in Hf |- *. rewrite Hph in Hf. destruct (work uh) as [|p|] eqn:Hwu.
        -- destruct Hf as (E1 & E2 & E3). split_and!; try done. assert (call uh = None) as ->; [|cbn; congruence].
           assert (negb (is_client uh) || idle uh = true) as H by (apply Hcall, list_elem_of_In; by eapply list_elem_of_lookup_2).
           unfold is_client, idle in H. rewrite Hwu in H. by destruct (call uh).
        -- destruct Hf as (E1 & E2 & E3). split; [done|]. left. split; [congruence|]. split; [done|]. done.
        -- destruct Hf as (E1 & E2 & E3). split_and!; try done. destruct (life uh); congruence.
    + intros _. unfold counted. by rewrite Hph.
    + intros d [= <-]. eauto.
    + intros _. unfold level_of. by rewrite Hph.
Qed.

Lemma return_sound s t th r : sound s -> pthreads s !! t = Some th -> call th = Some (Returned r) ->
  sound (set_thread t (set_call None th) (returned t r s)).
Proof.
  intros Hs Ht Hc. assert (t < length (pthreads s))%nat as Hlt by (by eapply lookup_lt_Some).
  assert (neutral (call th) = true) as Hn by (by rewrite Hc). unfold returned.
  destruct (call_cases _ _ _ _ _ _ (sound_fine s Hs t th Ht) Hc) as [(Ho & _ & Hl & Hu)|Hown].
  - assert (set_thread t (set_call None th) match phase s with
      | Creating d => if bool_decide (d = t) then set_phase (if r =? 0 then Open else Gone t) s else s
      | Closing d => if bool_decide (d = t) then set_phase (Gone t) s else s
      | _ => s end = set_thread t (set_call None th) s) as ->.
    { destruct (phase s); try done; rewrite bool_decide_eq_false_2; try done; cbn in Ho; congruence. }
    apply user_call; try done; [by destruct (user_work _ _ _ _ _ Hu) as [[task E]|E]; [left; eauto|right]|].
    unfold fine. cbn. destruct Hu as [(Hw & Hsp & Hph & _)|(task & Hw & Hsp & Hr & Hph)]; rewrite Hw, Hsp.
    + split_and!; try done. by rewrite Hph.
    + split; [done|]. unfold routine_fine, worker_ok. cbn. destruct Hph as [Hph|[d Hph]]; rewrite Hph in *; [done|]. 
      left. cbn in Ho. split; [congruence|]. done.
  - assert (owner_ok (phase s) t (Returned r) th) as Hok by (destruct Hown as [(E & ? & ? & ? & ?)|[E ?]]; [left|right]; auto).
    destruct (owner_owning s t _ th Hok) as (Ho & Hwk & How). destruct (own_facts s t th _ Ho Ht Hc) as (El & Er & Ec & Ed).
    pose proof (sound_resources s Hs) as Er'. rewrite Er in Er'. pose proof (sound_level s Hs) as HL.
    destruct Hok as [(Hph & Hw & Hl & Hsp & _)|[Hph Hd]]; rewrite Hph, bool_decide_eq_true_2 by done; rewrite Hph in El, Er', Ec, Ed, HL;
      cbn in El, Er', Ec, Ed; rewrite El, Ec in HL.
    + apply (phase_step s t th None (if r =? 0 then Open else Gone t)); try done.
      * intros u uh Hu. apply insert_cases in Hu as [(-> & -> & _)|[Hne Hu]].
        -- unfold fine. cbn. rewrite Hw. split_and!; try done. by destruct (r =? 0).
        -- pose proof (sound_fine s Hs u uh Hu) as Hf. pose proof (creating_others s t u uh Hs Hph Hu Hne) as Hcu.
           unfold fine in Hf |- *. unfold level_of. cbn. rewrite Hph, El in Hf. destruct (work uh) as [|p|].
           ++ destruct Hf as (E1 & E2 & E3). split_and!; try done. rewrite Hcu. by destruct (r =? 0).
           ++ destruct Hf as (E1 & E2 & E3 & E4 & E5 & _). split; [done|]. destruct (r =? 0); [|done].
              split; [done|]. rewrite Hcu. done.
           ++ destruct Hf as (E1 & E2 & E3). split_and!; try done; [by destruct (r =? 0)|]. destruct (life uh), (r =? 0); try done; congruence.
      * unfold resources_of. cbn. destruct (r =? 0); [done|]. rewrite list_lookup_insert_eq by done. cbn. by rewrite Hw.
      * unfold level_of, counted. cbn. destruct (r =? 0); done.
      * unfold counted at 1. cbn. rewrite Ec. destruct (r =? 0); [done|]. rewrite list_lookup_insert_eq by done. cbn. by rewrite Hw.
      * intros d E. destruct (r =? 0); [done|]. injection E as <-. eauto.
      * unfold level_of at 1. cbn. rewrite El. by destruct (r =? 0).
      * intros _. left. by rewrite Ed.
    + apply (phase_step s t th None (Gone t)); try done.
      * intros u uh Hu. apply insert_cases in Hu as [(-> & -> & _)|[Hne Hu]].
        -- unfold fine. cbn. destruct Hd as [(-> & _ & -> & ->)|(task & -> & _ & -> & Hl)]; [done|]. split; [done|]. by rewrite Hl.
        -- pose proof (sound_fine s Hs u uh Hu) as Hf. unfold fine in Hf |- *. unfold level_of. cbn. rewrite Hph, El in Hf.
           destruct (work uh) as [|p|].
           ++ destruct Hf as (E1 & E2 & E3). split_and!; try done. destruct (call uh); [|done]. destruct E3 as [E3 _]. congruence.
           ++ destruct Hf as (E1 & [(_ & _ & E3 & _)|(E3 & _)]); [done|congruence].
           ++ destruct Hf as (E1 & E2 & E3). split_and!; try done; destruct (r =? 0); try done; destruct (life uh); try done; congruence.
      * unfold resources_of. cbn. rewrite list_lookup_insert_eq by done. rewrite Er'. cbn. unfold is_task.
        destruct Hd as [(-> & _)|(task & -> & _)]; done.
      * intros d [= <-]. eauto.
      * intros _. left. by rewrite Ed.
Qed.

Lemma moves_sound s l s' : sound s -> moves s l s' -> Z.of_nat (length (pthreads s)) < 2 ^ 64 -> sound s'.
Proof.
  intros Hs Hm Hlen. destruct Hm as [t o th s Ht Hc|t r th s Ht Hc|t th s Ht Hi Hk|t c th th' s s' Ht E|t f th s Ht Hc].
  - by apply call_sound.
  - by apply return_sound.
  - by apply end_task_sound.
  - destruct (run_leads s t th c Hs Ht Hlen) as ([[x y]|] & E' & H); rewrite E in E'; [|done]. by injection E' as <- <-.
  - by apply wake_sound.
Qed.

(** ** Executions *)

(** Threads do not disappear from the list. *)
Lemma inv_needs {A} r s (k : comp A) a : needs r s k = Ret a -> k = Ret a.
Proof. unfold needs. by destruct (has r s). Qed.

Ltac step_inv :=
  repeat match goal with
  | H : Oob = Ret _ |- _ => discriminate H
  | H : blocked = Ret (Some _) |- _ => discriminate H
  | H : needs _ _ _ = Ret _ |- _ => apply inv_needs in H
  | H : goes _ _ = Ret (Some _) |- _ => injection H as <- <-
  | H : Ret _ = Ret _ |- _ => injection H as <-
  | H : Ret None = Ret (Some _) |- _ => discriminate H
  | H : Ret (Some _) = Ret (Some _) |- _ => injection H as <-
  | H : cbind ?m _ = Ret _ |- _ => let E := fresh "E" in destruct m eqn:E; cbn [cbind] in H; try discriminate H
  | H : match ?x with _ => _ end = Ret _ |- _ => let E := fresh "E" in destruct x eqn:E; try discriminate H
  | H : (if ?b then _ else _) = Ret _ |- _ => let E := fresh "E" in destruct b eqn:E; try discriminate H
  end.

Definition grows (s : state) (m : stepped) : Prop :=
  forall th' s', m = Ret (Some (th', s')) -> (length (pthreads s) <= length (pthreads s'))%nat.

Lemma lock_length t s r : pthread_mutex_lock t s = Ret (Some r) -> pthreads r = pthreads s.
Proof. unfold pthread_mutex_lock. intros H. step_inv. done. Qed.

Lemma unlock_length t s r : pthread_mutex_unlock t s = Ret r -> pthreads r = pthreads s.
Proof. unfold pthread_mutex_unlock. intros H. step_inv. done. Qed.

Lemma join_length t u s r : pthread_join t u s = Ret (Some r) -> length (pthreads r) = length (pthreads s).
Proof. unfold pthread_join. intros H. step_inv. cbn. by rewrite length_insert. Qed.

Lemma signal_length s r : pthread_cond_signal s = Ret r -> length (pthreads r) = length (pthreads s).
Proof. unfold pthread_cond_signal. intros H. step_inv; cbn; by rewrite ?length_insert. Qed.

Lemma free_length e s r : free_entry e s = Ret r -> pthreads r = pthreads s.
Proof. unfold free_entry. intros H. step_inv. done. Qed.

Ltac grow :=
  unfold get in *; step_inv;
  repeat match goal with
  | H : pthread_mutex_lock _ _ = Ret (Some _) |- _ => apply lock_length in H; rewrite <- H
  | H : pthread_mutex_unlock _ _ = Ret _ |- _ => apply unlock_length in H; rewrite <- H
  | H : pthread_join _ _ _ = Ret (Some _) |- _ => apply join_length in H; rewrite <- H
  | H : pthread_cond_signal _ = Ret _ |- _ => apply signal_length in H; rewrite <- H
  | H : free_entry _ _ = Ret _ |- _ => apply free_length in H; rewrite <- H
  end; cbn; rewrite ?length_app; cbn; lia.

Lemma thread_step_length t c th s : grows s (thread_step t c th s).
Proof.
  intros th' s' H. unfold thread_step in H. destruct (call th) as [pc|]; [destruct pc; try destruct p|destruct (work th) as [|p|]; [| destruct p|]]; 
    cbn [call_step schedule_step increase_step create_step term_step destroy_step routine_step] in H; unfold release_step in H; grow.
Qed.

Lemma moves_length s l s' : moves s l s' -> (length (pthreads s) <= length (pthreads s'))%nat.
Proof.
  intros [t o th s0 Ht Hc|t r th s0 Ht Hc|t th s0 Ht Hi Hk|t c th th' s0 s1 Ht E|t f th s0 Ht Hc]; cbn; rewrite length_insert; try done.
  - by destruct o.
  - unfold returned. destruct (phase s0); try done; by destruct (bool_decide _).
  - by eapply thread_step_length.
Qed.

Lemma initial_sound s : initial_state s -> sound s.
Proof.
  intros (Er & Ee & Eph & Em & Eq & Hts & Esch & Etk & Ebg & Ehd). rewrite Forall_forall in Hts.
  assert (forall t th, pthreads s !! t = Some th -> th = Thread Client None Joinable false) as Hall.
  { intros t th Ht. apply Hts. by eapply list_elem_of_lookup_2. }
  assert (forall f : thread -> list Z, f (Thread Client None Joinable false) = [] -> pthreads s ≫= f = []) as Hb.
  { intros f Hf. clear Hall. induction (pthreads s) as [|x l IH]; [done|]. cbn. rewrite (Hts x), Hf by apply list_elem_of_here.
    apply IH. intros y Hy. apply Hts. by apply list_elem_of_further. }
  assert (level_of s = Setup) as El by (unfold level_of; by rewrite Eph).
  assert (counted s = false) as Ec by (unfold counted; by rewrite Eph).
  split; [constructor|].
  - rewrite Em. split; [|done]. by intros t th ->%Hall.
  - intros t th ->%Hall. rewrite Eph. done.
  - rewrite Er. unfold resources_of. by rewrite Eph.
  - by rewrite El, Eq, Ec.
  - by rewrite Ec.
  - by intros t th f ->%Hall.
  - by rewrite Eph.
  - constructor; unfold stock; rewrite ?Hb, ?Eq, ?Esch, ?Etk, ?Ebg, ?Ehd by done; cbn; try done.
    + apply NoDup_nil_2.
    + intros e. rewrite Ee, lookup_empty. split; [by intros ?%elem_of_nil|by intros [? ?]].
    + by intros e ?%elem_of_nil.
  - exists []. constructor; try done; rewrite ?Ec; try done.
    + apply NoDup_nil_2.
    + intros t. split; [by intros ?%elem_of_nil|]. by intros (th & ->%Hall & ?).
    + by intros t th old ->%Hall.
    + by intros t th f u ->%Hall.
Qed.

(** The invariant of the executions. *)
Lemma run_sound s ls s' : initial_state s -> run s ls s' -> Z.of_nat (length (pthreads s')) < 2 ^ 64 -> sound s'.
Proof.
  intros Hi Hr. induction Hr as [|s ls s1 l s2 Hr IH Hm]; intros Hlen; [by apply initial_sound|].
  pose proof (moves_length _ _ _ Hm). eapply moves_sound; [|exact Hm|]; [apply IH|]; lia || done.
Qed.

(** *** Nobody waits for ever *)

Definition not_ended (u : nat) (s : state) : Prop := exists uh, pthreads s !! u = Some uh /\ work uh <> Ended.

(** What a thread waits for. *)
Definition waits (s : state) (th : thread) : Prop :=
  match call th with
  | Some (Returned _ | Terminate _ TermWait) => True
  | Some (IncreaseLock | Terminate _ (TermLock | TermWake)) => mutex (pool s) <> None
  | Some (Terminate _ (TermJoin u)) => not_ended u s
  | Some (DestroyGet _) => messages s = ([], false)
  | Some _ => False
  | None =>
      match work th with
      | Routine (RoutineTask _) => True
      | Routine RoutineGet => messages s = ([], false)
      | Routine RoutineLock => mutex (pool s) <> None
      | Routine (RoutineJoin u) => not_ended u s
      | Routine _ => False
      | _ => True
      end
  end.

Lemma lock_waits t s : pthread_mutex_lock t s = Ret None -> mutex (pool s) <> None.
Proof. unfold pthread_mutex_lock. intros H. step_inv. congruence. Qed.

Lemma join_waits t u s : pthread_join t u s = Ret None -> not_ended u s.
Proof. unfold pthread_join. intros H. step_inv; eexists; (split; [eassumption|congruence]). Qed.

Lemma get_waits s f e : (forall m s', f m s' <> blocked) -> (forall s', e s' <> blocked) -> get s f e = Ret None -> messages s = ([], false).
Proof.
  unfold get. intros Hf He H. apply inv_needs, inv_needs in H. destruct (messages s) as [[|m l] []]; cbn in H; try done.
  - by destruct (He _ H).
  - by destruct (Hf _ _ H).
  - by destruct (Hf _ _ H).
Qed.

(** Without luck a thread stops only where it has to wait. *)
Definition no_luck : choice := Choice false None.

Lemma blocked_waits s t th : thread_step t no_luck th s = Ret None -> waits s th.
Proof.
  unfold thread_step, waits. intros H.
  destruct (call th) as [pc|]; [destruct pc; try destruct p|destruct (work th) as [|p|]; [| destruct p|]];
    cbn [call_step schedule_step increase_step create_step term_step destroy_step routine_step no_luck success address] in H;
    unfold release_step, goes in H; try done; try (by eapply get_waits, H); step_inv; try done;
    try (by eapply lock_waits); try (by eapply join_waits).
Qed.

(** No thread can go on, however lucky. *)
Definition stuck_state (s : state) : Prop :=
  forall t th c th' s', pthreads s !! t = Some th -> thread_step t c th s <> Ret (Some (th', s')).

Section stuck.

Variables (s : state).
Hypotheses (Hs : sound s) (Hlen : Z.of_nat (length (pthreads s)) < 2 ^ 64) (Hst : stuck_state s).

Lemma stuck_thread_waits t th : pthreads s !! t = Some th -> waits s th.
Proof.
  intros Ht. apply (blocked_waits s t). destruct (run_leads s t th no_luck Hs Ht Hlen) as ([[th' s']|] & E & _); [|done].
  by destruct (Hst t th no_luck th' s' Ht).
Qed.

Lemma stuck_unlocked : mutex (pool s) = None.
Proof.
  destruct (mutex (pool s)) as [u|] eqn:Hm; [|done]. exfalso. destruct (sound_mutex s Hs) as [M1 M2].
  destruct (M2 u Hm) as [uh Hu]. apply (M1 u uh Hu) in Hm. pose proof (stuck_thread_waits u uh Hu) as Hw.
  unfold critical, waits in Hm, Hw. destruct (call uh) as [[]|]; try done; [by destruct p|]. destruct (work uh) as [|[]|]; done.
Qed.

Lemma stuck_chain ch : chained s ch -> forall n i u uh, (length ch <= n + i)%nat -> ch !! i = Some u -> pthreads s !! u = Some uh -> work uh = Ended.
Proof.
  intros Hch. induction n as [|n IH]; intros i u uh Hn Hi Hu; [apply lookup_lt_Some in Hi; lia|].
  assert (exited uh = true) as Hx.
  { assert (u ∈ ch) as (x & Hx & ?)%(chain_exited s ch Hch) by (by eapply list_elem_of_lookup_2). congruence. }
  pose proof (chain_link s ch Hch i u uh Hi Hu) as Hl. pose proof (stuck_thread_waits u uh Hu) as Hw.
  unfold exited in Hx. unfold link_ok in Hl. unfold waits in Hw. destruct (work uh) as [|p|] eqn:Hwu; [done| |done].
  assert (call uh = None) as Hc by (eapply (routine_idle s u uh p); [done|done|done|by intros task ->]).
  rewrite Hc in Hw. destruct p; try done. destruct Hl as [Hl _]. destruct Hw as (vh & Hv & Hnv). exfalso. apply Hnv.
  eapply (IH (S i) old); [lia|done|done].
Qed.

Lemma stuck_ended u uh : pthreads s !! u = Some uh -> exited uh = true -> work uh = Ended.
Proof.
  intros Hu Hx. destruct (sound_chain s Hs) as [ch Hch].
  assert (u ∈ ch) as [i Hi]%list_elem_of_lookup by (apply (chain_exited s ch Hch); eauto).
  eapply (stuck_chain ch Hch (length ch) i u); [lia|done|done].
Qed.

Lemma stuck_routine t th p : pthreads s !! t = Some th -> work th = Routine p ->
  (exists task, p = RoutineTask task) \/ (p = RoutineGet /\ messages s = ([], false)).
Proof.
  intros Ht Hw. destruct p; try (left; by eexists);
    (assert (call th = None) as Hc by (by eapply (routine_idle s t th)));
    pose proof (stuck_thread_waits t th Ht) as H; unfold waits in H; rewrite Hc, Hw in H; try done.
  - by right.
  - by rewrite stuck_unlocked in H.
  - assert (work th = Ended) as E by (apply (stuck_ended t th Ht); unfold exited; by rewrite Hw). congruence.
Qed.

Lemma stuck_call t th pc : pthreads s !! t = Some th -> call th = Some pc ->
  (exists r, pc = Returned r) \/
  (exists f, pc = Terminate f TermWait /\ exists u uh, u <> t /\ pthreads s !! u = Some uh /\ is_task uh = true).
Proof.
  intros Ht Hc. pose proof (stuck_thread_waits t th Ht) as H. unfold waits in H. rewrite Hc in H.
  destruct pc; try done; try (by left; eexists); try (by rewrite stuck_unlocked in H).
  - right. destruct p as [| | | | | | | | | |w]; try done; try (by rewrite stuck_unlocked in H).
    + exists f. split; [done|]. destruct (terminating s t th f _ Hs Ht Hc) as (_ & Ho & Hlv). destruct (term_own s t th f _ Ho Ht Hc) as (_ & _ & Hcd).
      destruct (sound_awaited s Hs t th f Ht Hc) as [Hn|(u & uh & old & Hu & Hw)].
      * pose proof (sound_count s Hs Hcd) as E.
        destruct (total_pos alive (pthreads s)) as (u & uh & Hu & Ha); [unfold total in *; lia|]. exists u, uh.
        unfold alive in Ha. destruct (work uh) as [|p|] eqn:Hw; try done. destruct (before_count p && negb (counted_out uh)) eqn:Hb; [|done].
        apply andb_true_iff in Hb as [_ Hb].
        destruct (stuck_routine u uh p Hu Hw) as [[task ->]|[_ Hm]].
        -- assert (u <> t) as Hne; [|split_and!; try done; unfold is_task; by rewrite Hw].
           intros ->. assert (uh = th) as -> by congruence. unfold counted_out in Hb. rewrite Hc in Hb.
           destruct (call_cases _ _ _ _ _ _ (sound_fine s Hs t th Ht) Hc) as [(_ & E' & _)|[(_ & E' & _)|(_ & [(E' & _)|(tk & _ & _ & _ & E')])]];
             try done; try congruence. by rewrite E' in Hb.
        -- pose proof (sound_level s Hs) as HL. rewrite Hlv, Hm in HL. by destruct HL.
      * destruct (stuck_routine u uh _ Hu Hw) as [[task E]|[E _]]; done.
    + destruct H as (uh & Hu & Hn). destruct (last_live s t th f w Hs Ht Hc) as (ch & vh & Hch & Hh & _ & Hv & _).
      { destruct (call_cases _ _ _ _ _ _ (sound_fine s Hs t th Ht) Hc) as [(_ & E & _)|[(_ & E & _)|(_ & E)]]; [done|by right|by eapply destroyer_work]. }
      exfalso. apply Hn. apply (stuck_ended w uh Hu).
      assert (w ∈ ch) as (x & Hx & ?)%(chain_exited s ch Hch) by (destruct ch; [done|injection Hh as ->; apply list_elem_of_here]). congruence.
  - exfalso. destruct (call_cases _ _ _ _ _ _ (sound_fine s Hs t th Ht) Hc) as [(_ & E & _)|[(_ & _ & _ & _ & E)|(E & _)]]; try done.
    pose proof (sound_level s Hs) as HL. rewrite H in HL. unfold level_of, call_at in HL. rewrite E, Ht in HL. cbn in HL. by rewrite Hc in HL.
Qed.

End stuck.

(** ** The theorems *)

(** What a thread [t] may do next, whatever malloc and pthread_create answer
    it, is defined: no freed or foreign memory is touched. *)
Definition safe_state (s : state) : Prop :=
  forall t th c, pthreads s !! t = Some th -> returns (thread_step t c th s).

(** C8: in no execution that keeps to the contract does a statement touch the
    pool, the queue, the mutex or a task entry after it is gone, join a thread
    twice, unlock a mutex it does not hold or signal a condition that is not
    there: the next statement of every thread either waits or is done. *)
Theorem thrdpool_safe (s s' : state) (ls : list event)
  (Hi : initial_state s) (Hr : run s ls s') (Hlen : Z.of_nat (length (pthreads s')) < 2 ^ 64) : safe_state s'.
Proof.
  intros t th c Ht. destruct (run_leads s' t th c (run_sound s ls s' Hi Hr Hlen) Ht Hlen) as (r & E & _). rewrite E. apply returns_Ret.
Qed.

(** The tasks whose entries threads have taken out of the queue and not freed yet. *)
Definition in_flight (s : state) : list Z := task_in (entries s) <$> (pthreads s ≫= removed).

(** C3: tasks leave the queue in the order they were scheduled in; each is
    begun once by a thread of the pool or handed back once; and when
    thrdpool_destroy has returned, none is left, nothing is left allocated but
    the pool itself while the destroying task still runs, and all other
    threads of the pool have ended. *)
Theorem thrdpool_tasks (s s' : state) (ls : list event)
  (Hi : initial_state s) (Hr : run s ls s') (Hlen : Z.of_nat (length (pthreads s')) < 2 ^ 64) :
  scheduled s' = taken s' ++ (task_in (entries s') <$> (messages s').1) /\
  taken s' ≡ₚ begun s' ++ handed s' ++ in_flight s' /\
  forall d, phase s' = Gone d ->
    scheduled s' ≡ₚ begun s' ++ handed s' /\ entries s' = ∅ /\
    (forall u uh, pthreads s' !! u = Some uh -> u <> d -> work uh = Client \/ work uh = Ended) /\
    (resources s' = [] \/ resources s' = [PoolMemory] /\ exists dh p, pthreads s' !! d = Some dh /\ work dh = Routine p).
Proof.
  pose proof (run_sound s ls s' Hi Hr Hlen) as Hs. pose proof (sound_stock s' Hs) as [S1 S2 S3 S4 S5 S6].
  split; [done|]. split; [done|]. intros d Hph.
  assert (forall u uh, pthreads s' !! u = Some uh -> holds uh = [] /\ removed uh = [] /\ (u <> d -> work uh = Client \/ work uh = Ended)) as Hall.
  { intros u uh Hu. pose proof (sound_fine s' Hs u uh Hu) as Hf. destruct (gone_others s' d u uh Hs Hph Hu) as [Hc Hn].
    unfold holds, removed. rewrite Hc. unfold fine in Hf. destruct (work uh) as [|p|] eqn:Hw; [auto| |auto].
    destruct Hf as [_ Hf]. unfold routine_fine in Hf. rewrite Hph in Hf. destruct Hf as (-> & _ & _ & Hp). destruct p; done. }
  assert (forall f : thread -> list Z, (forall u uh, pthreads s' !! u = Some uh -> f uh = []) -> pthreads s' ≫= f = []) as Hb.
  { intros f Hf. apply elem_of_nil_inv. intros e (uh & He & [u Hu]%list_elem_of_lookup)%list_elem_of_bind. rewrite (Hf u uh Hu) in He. by apply elem_of_nil in He. }
  assert ((messages s').1 = []) as Hm by (apply S6; unfold drained; by rewrite Hph). split_and!.
  - rewrite S4, Hm, S5, (Hb removed) by (intros u uh Hu; apply (Hall u uh Hu)). cbn. by rewrite !app_nil_r.
  - apply map_eq. intros e. rewrite lookup_empty. destruct (entries s' !! e) as [v|] eqn:He; [|done]. exfalso.
    assert (e ∈ stock (messages s') (pthreads s')) as H by (apply S2; eauto). unfold stock in H.
    rewrite Hm, (Hb holds) in H by (intros u uh Hu; apply (Hall u uh Hu)). by apply elem_of_nil in H.
  - intros u uh Hu Hne. by apply (Hall u uh Hu).
  - rewrite (sound_resources s' Hs). unfold resources_of. rewrite Hph.
    destruct (pthreads s' !! d) as [dh|] eqn:Hd; cbn; [|by left]. destruct (work dh) eqn:Hw; [by left|right|by left]. eauto.
Qed.

(** C22: nobody hangs: where no thread can go on, every call has returned,
    except a thrdpool_destroy that waits for a task which another thread is
    running; and a thread of the pool runs a task or waits on the empty queue
    (so no task waits while a thread does). *)
Theorem thrdpool_live (s s' : state) (ls : list event)
  (Hi : initial_state s) (Hr : run s ls s') (Hlen : Z.of_nat (length (pthreads s')) < 2 ^ 64) (Hst : stuck_state s') :
  (forall t th pc, pthreads s' !! t = Some th -> call th = Some pc ->
     (exists r, pc = Returned r) \/
     (exists f, pc = Terminate f TermWait /\ exists u uh, u <> t /\ pthreads s' !! u = Some uh /\ is_task uh = true)) /\
  (forall t th p, pthreads s' !! t = Some th -> work th = Routine p ->
     (exists task, p = RoutineTask task) \/ (p = RoutineGet /\ messages s' = ([], false))).
Proof.
  pose proof (run_sound s ls s' Hi Hr Hlen) as Hs. split; intros t th.
  - intros pc. by apply stuck_call.
  - intros p. by apply stuck_routine.
Qed.

(** ** Examples

    [play] performs one event; a list of events is a schedule. *)
Definition play_pool (e : event) (s : state) : option state :=
  match e with
  | EvCall t o =>
      th ← pthreads s !! t; if callable t o th s then Some (set_thread t (at_call (start o) th) (called t o s)) else None
  | EvReturn t r =>
      th ← pthreads s !! t;
      match call th with Some (Returned r') => if r' =? r then Some (set_thread t (set_call None th) (returned t r s)) else None | _ => None end
  | EvTaskEnd t => th ← pthreads s !! t; if idle th && is_task th then Some (set_thread t (at_work RoutineCheck th) s) else None
  | EvRun t c =>
      th ← pthreads s !! t;
      match thread_step t c th s with Ret (Some (th', s')) => Some (set_thread t th' s') | _ => None end
  | EvSpurious t => None
  end.

Fixpoint plays_pool (es : list event) (s : state) : option state :=
  match es with [] => Some s | e :: es => play_pool e s ≫= plays_pool es end.

Lemma play_pool_moves e s s' : play_pool e s = Some s' -> moves s e s'.
Proof.
  destruct e as [t o|t r|t|t c|t]; cbn; [..|done]; intros (th & Ht & H)%bind_Some.
  - destruct (callable t o th s) eqn:E; [|done]. injection H as <-. by constructor.
  - destruct (call th) as [[]|] eqn:E; try done. destruct (Z.eqb_spec r0 r) as [->|]; [|done]. injection H as <-. by constructor.
  - destruct (idle th && is_task th) eqn:E; [|done]. apply andb_true_iff in E as [? ?]. injection H as <-. by constructor.
  - destruct (thread_step t c th s) as [[[th' s1]|]| |] eqn:E; try done. injection H as <-. by econstructor.
Qed.

Lemma plays_pool_run es s s' : plays_pool es s = Some s' -> run s es s'.
Proof.
  assert (forall s0 es0, run s0 es0 s -> plays_pool es s = Some s' -> run s0 (es0 ++ es) s') as H.
  { induction es as [|e es IH] in s |- *; intros s0 es0 Hr; cbn [plays_pool].
    - intros [= <-]. by rewrite app_nil_r.
    - intros (s1 & Hp%play_pool_moves & Hrest)%bind_Some. replace (es0 ++ e :: es) with ((es0 ++ [e]) ++ es) by by rewrite <- app_assoc.
      eapply IH; [|exact Hrest]. by econstructor. }
  intros Hp. apply (H s []); [constructor|done].
Qed.

Definition good : choice := Choice true (Some 4096).
Definition runs_on (n : nat) (t : nat) : list event := replicate n (EvRun t good).

Definition no_pool : state :=
  State [] (Thrdpool 0 None None None) ([], false) ∅ [Thread Client None Joinable false] Absent [] [] [] [].

(** A pool of one thread; it runs task 7 while task 8 is scheduled and the
    pool destroyed: task 8 is handed back. *)
Definition sample_pool : list event :=
  EvCall 0 (PoolCreate 1) :: runs_on 10 0 ++ [EvReturn 0 0; EvCall 0 (PoolSchedule 7)] ++ runs_on 3 0 ++
  [EvReturn 0 0] ++ runs_on 4 1 ++ [EvCall 0 (PoolSchedule 8)] ++ runs_on 3 0 ++ [EvReturn 0 0; EvCall 0 PoolDestroy] ++
  runs_on 5 0 ++ EvTaskEnd 1 :: runs_on 8 1 ++ runs_on 12 0 ++ [EvReturn 0 0].

Definition sample_gone : state := default no_pool (plays_pool sample_pool no_pool).

(** The same pool while its thread waits for the next task. *)
Definition sample_idle : state :=
  default no_pool (plays_pool (take 21 sample_pool ++ EvTaskEnd 1 :: runs_on 2 1) no_pool).

Lemma no_pool_initial : initial_state no_pool.
Proof. unfold initial_state, no_pool. cbn. repeat split. by repeat constructor. Qed.

Lemma sample_gone_run : run no_pool sample_pool sample_gone.
Proof. apply plays_pool_run. vm_compute. reflexivity. Qed.

Lemma sample_idle_run : run no_pool (take 21 sample_pool ++ EvTaskEnd 1 :: runs_on 2 1) sample_idle.
Proof. apply plays_pool_run. vm_compute. reflexivity. Qed.

Lemma sample_idle_stuck : stuck_state sample_idle.
Proof.
  assert (pthreads sample_idle = [Thread Client None Joinable false; Thread (Routine RoutineGet) None Joinable true]) as Ep
    by (vm_compute; reflexivity).
  assert (messages sample_idle = ([], false)) as Em by (vm_compute; reflexivity).
  assert (resources sample_idle = all_resources) as Er by (vm_compute; reflexivity).
  generalize dependent sample_idle. intros s Ep Em Er t th c th' s' Ht. rewrite Ep in Ht. unfold thread_step.
  destruct t as [|[|t]]; cbn in Ht; [injection Ht as <-; done|injection Ht as <-|done].
  cbn. unfold get. rewrite !needs_ok by (rewrite Er; unfold all_resources; set_solver). by rewrite Em.
Qed.

Lemma thrdpool_safe_witness : safe_state sample_idle.
Proof.
  apply (thrdpool_safe no_pool sample_idle (take 21 sample_pool ++ EvTaskEnd 1 :: runs_on 2 1));
    [apply no_pool_initial|apply sample_idle_run|vm_compute; reflexivity..].
Defined.

Lemma thrdpool_tasks_witness : scheduled sample_gone = [7; 8] /\ [7; 8] ≡ₚ [7] ++ [8] /\ entries sample_gone = ∅.
Proof.
  destruct (thrdpool_tasks no_pool sample_gone sample_pool) as (_ & _ & H);
    [apply no_pool_initial|apply sample_gone_run|vm_compute; reflexivity|].
  destruct (H 0%nat) as (E & Ee & _); [vm_compute; reflexivity|]. split; [vm_compute; reflexivity|]. split; [exact E|exact Ee].
Defined.

Lemma thrdpool_live_witness :
  (exists task, RoutineGet = RoutineTask task) \/ (RoutineGet = RoutineGet /\ messages sample_idle = ([], false)).
Proof.
  apply (proj2 (thrdpool_live no_pool sample_idle (take 21 sample_pool ++ EvTaskEnd 1 :: runs_on 2 1)
    no_pool_initial sample_idle_run ltac:(vm_compute; reflexivity) sample_idle_stuck) 1%nat (Thread (Routine RoutineGet) None Joinable true));
    vm_compute; reflexivity.
Defined.

(** *** Increasing a pool without threads

    thrdpool_increase starts the thread before it counts it.  In a pool that
    was created with 0 threads and has a task waiting, the new thread can run
    the task and find [nthreads == 0] before the caller gets to
    [pool->nthreads++]: it takes the pool for one that the task has destroyed
    and frees it. *)
Definition empty_pool : list event :=
  EvCall 0 (PoolCreate 0) :: runs_on 8 0 ++ [EvReturn 0 0; EvCall 0 (PoolSchedule 7)] ++ runs_on 3 0 ++ [EvReturn 0 0].

Definition empty_increase : list event := runs_on 3 0 ++ runs_on 4 1 ++ EvTaskEnd 1 :: runs_on 2 1.

Definition increasing (s : state) : state := set_thread 0 (Thread Client (Some IncreaseAttr) Joinable false) s.

Definition empty_state : state := default no_pool (plays_pool empty_pool no_pool).
Definition race_state : state := default no_pool (plays_pool empty_increase (increasing empty_state)).

Lemma empty_pool_plays : plays_pool empty_pool no_pool = Some empty_state.
Proof. vm_compute. reflexivity. Qed.

Lemma empty_increase_plays : plays_pool empty_increase (increasing empty_state) = Some race_state.
Proof. vm_compute. reflexivity. Qed.

Theorem thrdpool_increase_empty :
  (run no_pool empty_pool empty_state /\ phase empty_state = Open /\ nthreads (pool empty_state) = 0 /\
   pthreads empty_state !! 0%nat = Some (Thread Client None Joinable false)) /\
  run (increasing empty_state) empty_increase race_state /\
  exists th, pthreads race_state !! 0%nat = Some th /\ thread_step 0 good th race_state = Oob.
Proof.
  split; [split; [exact (plays_pool_run _ _ _ empty_pool_plays)|vm_compute; auto]|].
  split; [exact (plays_pool_run _ _ _ empty_increase_plays)|].
  exists (Thread Client (Some IncreaseCount) Joinable false). split; vm_compute; reflexivity.
Qed.
