(* ===== verification/JsonValue.v ===== *)
(** * JSON values

    workflow/src/linux/util/json_parser.c, the data: values, objects and
    arrays, and the operations of json_parser.h on them.

    An object keeps its members twice, in a list in document order and in a
    red-black tree ordered by name.  A [list_head] list is the list of its
    entries; a member or element is known by its block, and a pointer to it
    (to its value, its name or its [list] field) is that block, [None] for
    NULL or for the head of the list. *)

From stdpp Require Import gmap sorting.
From Stdlib Require Import SpecFloat.
From S2P Require Import Prelude Cstdlib Heap Rbtree.

#[local] Open Scope Z_scope.
#[local] Set Warnings "-clear-no-such-hyp".
#[local] Arguments cbind {A B} !m k /.

(** ** Data *)

Record json_member_of (V : Type) := mkMember { m_block : Z; m_name : list Z; m_value : V }.
Arguments mkMember {V}.
Arguments m_block {V}.
Arguments m_name {V}.
Arguments m_value {V}.

Record json_object_of (V : Type) := mkObject { o_head : list (json_member_of V); o_root : rb_store; o_size : Z }.
Arguments mkObject {V}.
Arguments o_head {V}.
Arguments o_root {V}.
Arguments o_size {V}.

Record json_element_of (V : Type) := mkElement { e_block : Z; e_value : V }.
Arguments mkElement {V}.
Arguments e_block {V}.
Arguments e_value {V}.

Record json_array_of (V : Type) := mkArray { a_head : list (json_element_of V); a_size : Z }.
Arguments mkArray {V}.
Arguments a_head {V}.
Arguments a_size {V}.

(** A number is a double, given by its IEEE value; a string has a block of
    its own. *)
#[warnings="-register-all"]
Inductive json_value : Type :=
| JString (block : Z) (text : list Z)
| JNumber (number : spec_float)
| JObject (object : json_object_of json_value)
| JArray (array : json_array_of json_value)
| JTrue
| JFalse
| JNull.

#[local] Abbreviation json_member := (json_member_of json_value).
#[local] Abbreviation json_object := (json_object_of json_value).
#[local] Abbreviation json_element := (json_element_of json_value).
#[local] Abbreviation json_array := (json_array_of json_value).

Definition JSON_VALUE_STRING : Z := 1.
Definition JSON_VALUE_NUMBER : Z := 2.
Definition JSON_VALUE_OBJECT : Z := 3.
Definition JSON_VALUE_ARRAY : Z := 4.
Definition JSON_VALUE_TRUE : Z := 5.
Definition JSON_VALUE_FALSE : Z := 6.
Definition JSON_VALUE_NULL : Z := 7.

Definition json_value_type (v : json_value) : Z :=
  match v with
  | JString _ _ => JSON_VALUE_STRING
  | JNumber _ => JSON_VALUE_NUMBER
  | JObject _ => JSON_VALUE_OBJECT
  | JArray _ => JSON_VALUE_ARRAY
  | JTrue => JSON_VALUE_TRUE
  | JFalse => JSON_VALUE_FALSE
  | JNull => JSON_VALUE_NULL
  end.

Definition json_value_string (v : json_value) : option (list Z) :=
  match v with JString _ s => Some s | _ => None end.

(** NAN for a value that is no number. *)
Definition json_value_number (v : json_value) : spec_float :=
  match v with JNumber d => d | _ => S754_nan end.

Definition json_value_object (v : json_value) : option json_object :=
  match v with JObject o => Some o | _ => None end.

Definition json_value_array (v : json_value) : option json_array :=
  match v with JArray a => Some a | _ => None end.

(** ** Lists

    [list_head] lists: a position is an entry, or [None] for the head. *)
Section List.
Context {E : Type} (block : E -> Z).

Fixpoint list_next (b : Z) (l : list E) : comp (option E) :=
  match l with
  | [] => Oob
  | e :: l => if block e =? b then Ret (head l) else list_next b l
  end.

(** [pos->next] *)
Definition next_of (pos : option Z) (l : list E) : comp (option E) :=
  match pos with
  | None => Ret (head l)
  | Some b => list_next b l
  end.

(** [pos->prev] *)
Definition prev_of (pos : option Z) (l : list E) : comp (option E) := next_of pos (reverse l).

(** [list_add (e, pos)] *)
Fixpoint list_insert (e : E) (b : Z) (l : list E) : comp (list E) :=
  match l with
  | [] => Oob
  | x :: l => if block x =? b then Ret (x :: e :: l) else let! l := list_insert e b l in Ret (x :: l)
  end.

Definition list_add (e : E) (pos : option Z) (l : list E) : comp (list E) :=
  match pos with
  | None => Ret (e :: l)
  | Some b => list_insert e b l
  end.

(** [list_add_tail (e, head)] *)
Definition list_add_tail (e : E) (l : list E) : list E := l ++ [e].

(** [list_del] *)
Fixpoint list_del (b : Z) (l : list E) : comp (list E) :=
  match l with
  | [] => Oob
  | x :: l => if block x =? b then Ret l else let! l := list_del b l in Ret (x :: l)
  end.

(** [list_entry]: the entry of a block. *)
Fixpoint list_entry (b : Z) (l : list E) : comp E :=
  match l with
  | [] => Oob
  | x :: l => if block x =? b then Ret x else list_entry b l
  end.
End List.

(** ** Members of an object *)

(** The descent of [__insert_json_member]: [link] is the slot [p] points
    to, [cur] is [*p]. *)
Fixpoint insert_search {V : Type} (fuel : nat) (name : list Z) (link : option (Z * side)) (cur : option Z)
    (o : json_object_of V) : comp (option (Z * side)) :=
  match fuel with
  | O => NoFuel
  | S f =>
      match cur with
      | None => Ret link
      | Some parent =>
          let! entry := list_entry m_block parent (o_head o) in
          let! n := load parent (o_root o) in
          if strcmp name (m_name entry) <? 0
          then insert_search f name (Some (parent, LEFT)) (rb_left n) o
          else insert_search f name (Some (parent, RIGHT)) (rb_right n) o
      end
  end.

Definition insert_json_member {V : Type} (memb : json_member_of V) (pos : option Z) (o : json_object_of V) :
    comp (json_object_of V) :=
  let! link := insert_search (rounds (o_root o)) (m_name memb) None (rb_root (o_root o)) o in
  let! root := rb_link_node (m_block memb) link (o_root o) in
  let! root := rb_insert_color (m_block memb) root in
  let! l := list_add m_block memb pos (o_head o) in
  Ret (mkObject l root (o_size o)).

Fixpoint find_loop {V : Type} (fuel : nat) (name : list Z) (p : option Z) (o : json_object_of V) :
    comp (option (json_member_of V)) :=
  match fuel with
  | O => NoFuel
  | S f =>
      match p with
      | None => Ret None
      | Some a =>
          let! memb := list_entry m_block a (o_head o) in
          let! nd := load a (o_root o) in
          let n := strcmp name (m_name memb) in
          if n <? 0 then find_loop f name (rb_left nd) o
          else if 0 <? n then find_loop f name (rb_right nd) o
          else Ret (Some memb)
      end
  end.

(** Returns the member whose value is meant. *)
Definition json_object_find {V : Type} (name : list Z) (o : json_object_of V) : comp (option (json_member_of V)) :=
  find_loop (rounds (o_root o)) name (rb_root (o_root o)) o.

Definition json_object_size {V : Type} (o : json_object_of V) : Z := o_size o.

(** A name or value handle is the block of its member. *)
Definition json_object_next_name {V : Type} (name : option Z) (o : json_object_of V) : comp (option (json_member_of V)) :=
  next_of m_block name (o_head o).
Definition json_object_next_value {V : Type} (val : option Z) (o : json_object_of V) : comp (option (json_member_of V)) :=
  next_of m_block val (o_head o).
Definition json_object_prev_name {V : Type} (name : option Z) (o : json_object_of V) : comp (option (json_member_of V)) :=
  prev_of m_block name (o_head o).
Definition json_object_prev_value {V : Type} (val : option Z) (o : json_object_of V) : comp (option (json_member_of V)) :=
  prev_of m_block val (o_head o).

Definition json_array_size {V : Type} (a : json_array_of V) : Z := a_size a.
Definition json_array_next_value {V : Type} (val : option Z) (a : json_array_of V) : comp (option (json_element_of V)) :=
  next_of e_block val (a_head a).
Definition json_array_prev_value {V : Type} (val : option Z) (a : json_array_of V) : comp (option (json_element_of V)) :=
  prev_of e_block val (a_head a).

(** [INIT_LIST_HEAD] and an empty root. *)
Definition empty_object {V : Type} : json_object_of V := mkObject [] RB_ROOT 0.
Definition empty_array {V : Type} : json_array_of V := mkArray [] 0.

(** ** Creation and destruction *)

(** Moving a value: strings change their owner, lists are spliced into a
    new head. *)
Definition move_json_value (src : json_value) : json_value :=
  match src with
  | JObject o => JObject (mkObject (o_head o ++ []) (o_root o) (o_size o))
  | JArray a => JArray (mkArray (a_head a ++ []) (a_size a))
  | v => v
  end.

(** The variable arguments: what follows [type]. *)
Inductive json_arg : Type :=
| ArgValue (block : Z) (src : json_value)
| ArgString (str : list Z)
| ArgNumber (number : spec_float)
| ArgObject
| ArgArray
| ArgTrue
| ArgFalse
| ArgNull.

Fixpoint destroy_json_value (v : json_value) (h : heap) : comp heap :=
  match v with
  | JString b _ => free b h
  | JObject (mkObject l _ _) =>
      for_each (fun m h => match m with mkMember b _ v => let! h := destroy_json_value v h in free b h end) l h
  | JArray (mkArray l _) =>
      for_each (fun e h => match e with mkElement b v => let! h := destroy_json_value v h in free b h end) l h
  | _ => Ret h
  end.

Definition destroy_json_members (l : list json_member) (h : heap) : comp heap :=
  for_each (fun m h => match m with mkMember b _ v => let! h := destroy_json_value v h in free b h end) l h.

Definition destroy_json_elements (l : list json_element) (h : heap) : comp heap :=
  for_each (fun e h => match e with mkElement b v => let! h := destroy_json_value v h in free b h end) l h.

Definition json_value_destroy (b : Z) (v : json_value) (h : heap) : comp heap :=
  let! h := destroy_json_value v h in free b h.

Section Alloc.
Context {A : Allocator}.

(** [None] is the return value -1. *)
Definition set_json_value (arg : json_arg) (h : heap) : comp (option json_value * heap) :=
  match arg with
  | ArgValue b src => let! h := free b h in Ret (Some (move_json_value src), h)
  | ArgString str =>
      match malloc h with
      | (Some b, h) => Ret (Some (JString b (cstr str)), h)
      | (None, h) => Ret (None, h)
      end
  | ArgNumber d => Ret (Some (JNumber d), h)
  | ArgObject => Ret (Some (JObject empty_object), h)
  | ArgArray => Ret (Some (JArray empty_array), h)
  | ArgTrue => Ret (Some JTrue, h)
  | ArgFalse => Ret (Some JFalse, h)
  | ArgNull => Ret (Some JNull, h)
  end.

Definition json_value_create (arg : json_arg) (h : heap) : comp (option (Z * json_value) * heap) :=
  match malloc h with
  | (None, h) => Ret (None, h)
  | (Some b, h) =>
      let! '(r, h) := set_json_value arg h in
      match r with
      | None => let! h := free b h in Ret (None, h)
      | Some v => Ret (Some (b, v), h)
      end
  end.

(** Returns the new member, [None] for NULL. *)
Definition json_object_insert (name : list Z) (arg : json_arg) (pos : option Z) (o : json_object) (h : heap) :
    comp (option json_member * json_object * heap) :=
  match malloc h with
  | (None, h) => Ret (None, o, h)
  | (Some b, h) =>
      let! '(r, h) := set_json_value arg h in
      match r with
      | None => let! h := free b h in Ret (None, o, h)
      | Some v =>
          let memb := mkMember b (cstr name) v in
          let! o := insert_json_member memb pos o in
          Ret (Some memb, mkObject (o_head o) (o_root o) (i32 (o_size o + 1)), h)
      end
  end.

Definition json_object_append (o : json_object) (name : list Z) (arg : json_arg) (h : heap) :
    comp (option json_member * json_object * heap) :=
  let! last := prev_of m_block None (o_head o) in
  json_object_insert name arg (m_block <$> last) o h.

Definition json_object_insert_after (val : option Z) (o : json_object) (name : list Z) (arg : json_arg) (h : heap) :
    comp (option json_member * json_object * heap) :=
  json_object_insert name arg val o h.

Definition json_object_insert_before (val : option Z) (o : json_object) (name : list Z) (arg : json_arg) (h : heap) :
    comp (option json_member * json_object * heap) :=
  let! prev := prev_of m_block val (o_head o) in
  json_object_insert name arg (m_block <$> prev) o h.

Definition json_object_remove (val : Z) (o : json_object) (h : heap) :
    comp (option (Z * json_value) * json_object * heap) :=
  match malloc h with
  | (None, h) => Ret (None, o, h)
  | (Some b, h) =>
      let! memb := list_entry m_block val (o_head o) in
      let! l := list_del m_block val (o_head o) in
      let! root := rb_erase val (o_root o) in
      let! h := free val h in
      Ret (Some (b, move_json_value (m_value memb)), mkObject l root (i32 (o_size o - 1)), h)
  end.

Definition json_array_insert (arg : json_arg) (pos : option Z) (a : json_array) (h : heap) :
    comp (option json_element * json_array * heap) :=
  match malloc h with
  | (None, h) => Ret (None, a, h)
  | (Some b, h) =>
      let! '(r, h) := set_json_value arg h in
      match r with
      | None => let! h := free b h in Ret (None, a, h)
      | Some v =>
          let elem := mkElement b v in
          let! l := list_add e_block elem pos (a_head a) in
          Ret (Some elem, mkArray l (i32 (a_size a + 1)), h)
      end
  end.

Definition json_array_append (a : json_array) (arg : json_arg) (h : heap) :
    comp (option json_element * json_array * heap) :=
  let! last := prev_of e_block None (a_head a) in
  json_array_insert arg (e_block <$> last) a h.

Definition json_array_insert_after (val : option Z) (a : json_array) (arg : json_arg) (h : heap) :
    comp (option json_element * json_array * heap) :=
  json_array_insert arg val a h.

Definition json_array_insert_before (val : option Z) (a : json_array) (arg : json_arg) (h : heap) :
    comp (option json_element * json_array * heap) :=
  let! prev := prev_of e_block val (a_head a) in
  json_array_insert arg (e_block <$> prev) a h.

Definition json_array_remove (val : Z) (a : json_array) (h : heap) :
    comp (option (Z * json_value) * json_array * heap) :=
  match malloc h with
  | (None, h) => Ret (None, a, h)
  | (Some b, h) =>
      let! elem := list_entry e_block val (a_head a) in
      let! l := list_del e_block val (a_head a) in
      let! h := free val h in
      Ret (Some (b, move_json_value (e_value elem)), mkArray l (i32 (a_size a - 1)), h)
  end.
End Alloc.

(** ** Lists *)
Section ListLemmas.
Context {E : Type} (block : E -> Z).
#[local] Abbreviation blocks_of l := (block <$> l).

Lemma list_entry_middle l1 e l2 : NoDup (blocks_of (l1 ++ e :: l2)) -> list_entry block (block e) (l1 ++ e :: l2) = Ret e.
Proof.
  induction l1 as [|x l1 IH]; cbn [app fmap list_fmap list_entry]; [by rewrite Z.eqb_refl|].
  rewrite NoDup_cons. intros [Hx Hnd]. destruct (Z.eqb_spec (block x) (block e)) as [Heq|_]; [|by apply IH].
  destruct Hx. rewrite Heq. apply list_elem_of_fmap_2. set_solver.
Qed.

Lemma list_entry_in b l e : list_entry block b l = Ret e -> e ∈ l /\ block e = b.
Proof.
  induction l as [|x l IH]; cbn [list_entry]; [done|]. destruct (Z.eqb_spec (block x) b); [intros [= ->]; set_solver|].
  intros H%IH. set_solver.
Qed.

Lemma list_entry_ret b l : b ∈ blocks_of l -> returns (list_entry block b l).
Proof.
  induction l as [|x l IH]; cbn [fmap list_fmap list_entry]; [set_solver|]. destruct (Z.eqb_spec (block x) b); [intros; by eexists|].
  intros [->|H]%elem_of_cons; [done|auto].
Qed.

Lemma list_del_middle l1 e l2 : NoDup (blocks_of (l1 ++ e :: l2)) -> list_del block (block e) (l1 ++ e :: l2) = Ret (l1 ++ l2).
Proof.
  induction l1 as [|x l1 IH]; cbn [app fmap list_fmap list_del]; [by rewrite Z.eqb_refl|].
  rewrite NoDup_cons. intros [Hx Hnd]. destruct (Z.eqb_spec (block x) (block e)) as [Heq|_]; [|by rewrite IH].
  destruct Hx. rewrite Heq. apply list_elem_of_fmap_2. set_solver.
Qed.

Lemma next_of_middle l1 e l2 : NoDup (blocks_of (l1 ++ e :: l2)) -> next_of block (Some (block e)) (l1 ++ e :: l2) = Ret (head l2).
Proof.
  cbn [next_of]. induction l1 as [|x l1 IH]; cbn [app fmap list_fmap list_next]; [by rewrite Z.eqb_refl|].
  rewrite NoDup_cons. intros [Hx Hnd]. destruct (Z.eqb_spec (block x) (block e)) as [Heq|_]; [|by apply IH].
  destruct Hx. rewrite Heq. apply list_elem_of_fmap_2. set_solver.
Qed.

Lemma prev_of_middle l1 e l2 : NoDup (blocks_of (l1 ++ e :: l2)) -> prev_of block (Some (block e)) (l1 ++ e :: l2) = Ret (last l1).
Proof.
  intros Hnd. unfold prev_of. rewrite reverse_app, reverse_cons, <- app_assoc. cbn [app].
  rewrite next_of_middle; [by rewrite head_reverse|]. change (e :: reverse l1) with ([e] ++ reverse l1).
  rewrite app_assoc, <- reverse_cons, <- reverse_app, fmap_reverse. by rewrite (reverse_Permutation (block <$> _)).
Qed.

Lemma prev_of_head l : prev_of block None l = Ret (last l).
Proof. unfold prev_of. cbn [next_of]. by rewrite head_reverse. Qed.

(** A position: the entries up to it and behind it. *)
Definition at_position (pos : option Z) (l1 l2 : list E) : Prop :=
  match pos with
  | None => l1 = []
  | Some b => exists e l, l1 = l ++ [e] /\ block e = b
  end.

Lemma list_add_at e pos l1 l2 : NoDup (blocks_of (l1 ++ l2)) -> at_position pos l1 l2 ->
  list_add block e pos (l1 ++ l2) = Ret (l1 ++ e :: l2).
Proof.
  destruct pos as [b|]; cbn [at_position list_add]; [|by intros _ ->]. intros Hnd (x & l & -> & <-).
  rewrite <- app_assoc in *. cbn [app] in *. induction l as [|y l IH]; cbn [app fmap list_fmap list_insert] in *; [by rewrite Z.eqb_refl|].
  rewrite NoDup_cons in Hnd. destruct Hnd as [Hy Hnd]. destruct (Z.eqb_spec (block y) (block x)) as [Heq|_]; [|by rewrite IH].
  destruct Hy. rewrite Heq. apply list_elem_of_fmap_2. set_solver.
Qed.

(** Every pointer to an entry, and NULL, is a position. *)
Lemma position_exists pos l : (forall b, pos = Some b -> b ∈ blocks_of l) -> exists l1 l2, l = l1 ++ l2 /\ at_position pos l1 l2.
Proof.
  destruct pos as [b|]; intros Hp; [|by exists [], l]. specialize (Hp b eq_refl). apply list_elem_of_fmap in Hp as (e & -> & He).
  apply list_elem_of_split in He as (l1 & l2 & ->). exists (l1 ++ [e]), l2. rewrite <- app_assoc. split; [done|]. by exists e, l1.
Qed.
End ListLemmas.

Lemma i32_mod z : i32 z mod 2 ^ 32 = z mod 2 ^ 32.
Proof. unfold i32, swrap. rewrite Zminus_mod_idemp_l. f_equal. lia. Qed.

Lemma i32_add a d : i32 (i32 a + d) = i32 (a + d).
Proof.
  unfold i32 at 1 3, swrap. f_equal. rewrite <- !Z.add_assoc.
  rewrite <- (Z.add_mod_idemp_l (i32 a)), i32_mod by lia. by rewrite Z.add_mod_idemp_l by lia.
Qed.

(** ** The invariant of an object *)

Section Object.
Context {V : Type}.
Implicit Types (o : json_object_of V) (l : list (json_member_of V)) (memb : json_member_of V).

(** The name of a node of the tree. *)
Definition name_at l (a : Z) : list Z :=
  match list_entry m_block a l with
  | Ret m => m_name m
  | _ => []
  end.

Definition name_le l (a b : Z) : Prop := strcmp (name_at l a) (name_at l b) <= 0.

(** List and tree hold the same members; the tree is balanced and ordered by
    name; the size is their number. *)
Definition object_ok o : Prop :=
  NoDup (m_block <$> o_head o) /\ Forall (fun m => Forall is_byte (m_name m)) (o_head o) /\
  o_size o = i32 (Z.of_nat (length (o_head o))) /\
  exists t, represents (o_root o) t /\ balanced t /\ ids t ≡ₚ (m_block <$> o_head o) /\
    StronglySorted (name_le (o_head o)) (ids t).

Lemma name_at_in l memb : NoDup (m_block <$> l) -> memb ∈ l -> name_at l (m_block memb) = m_name memb.
Proof.
  intros Hnd (l1 & l2 & ->)%list_elem_of_split. unfold name_at. by rewrite list_entry_middle.
Qed.

Lemma name_at_bytes l a : Forall (fun m => Forall is_byte (m_name m)) l -> Forall is_byte (name_at l a).
Proof.
  intros Hl. unfold name_at. destruct (list_entry m_block a l) as [m| |] eqn:E; [|done..].
  apply list_entry_in in E as [Hm _]. rewrite Forall_forall in Hl. by apply Hl.
Qed.

Lemma strcmp_trans a b c : Forall is_byte a -> Forall is_byte b -> Forall is_byte c ->
  strcmp a b <= 0 -> strcmp b c <= 0 -> strcmp a c <= 0 /\ (strcmp a b < 0 \/ strcmp b c < 0 -> strcmp a c < 0).
Proof. intros. apply (bytes_compare_trans _ (cstr b)); auto using cstr_pos. Qed.

Lemma strcmp_sym a b : strcmp b a = - strcmp a b.
Proof. apply bytes_compare_antisym. Qed.

Lemma strcmp_eq a b : Forall is_byte a -> Forall is_byte b -> strcmp a b = 0 <-> cstr a = cstr b.
Proof. intros. apply bytes_compare_eq; by apply cstr_pos. Qed.

(** Looking up a node of the tree in the list. *)
Lemma node_entry l a : a ∈ m_block <$> l -> exists m, list_entry m_block a l = Ret m /\ m_name m = name_at l a /\ m_block m = a /\ m ∈ l.
Proof.
  intros H. destruct (list_entry_ret m_block a l H) as [m Hm]. exists m. split; [done|]. unfold name_at. rewrite Hm.
  apply list_entry_in in Hm as [? ?]. auto.
Qed.

(** The descent ends at the place of the name. *)
Lemma insert_search_at o name : Forall is_byte name -> Forall (fun m => Forall is_byte (m_name m)) (o_head o) ->
  forall fuel t p, (depth t < fuel)%nat -> represents (o_root o) (plug t p) ->
  (forall a, a ∈ ids t -> a ∈ m_block <$> o_head o) -> StronglySorted (name_le (o_head o)) (ids t) ->
  Forall (fun a => 0 <= strcmp name (name_at (o_head o) a)) (before p) ->
  Forall (fun a => strcmp name (name_at (o_head o) a) < 0) (after p) ->
  yields (insert_search fuel name (link_of p) (root_of t) o) (fun link => exists p', link = link_of p' /\
    plug t p = plug Leaf p' /\ Forall (fun a => 0 <= strcmp name (name_at (o_head o) a)) (before p') /\
    Forall (fun a => strcmp name (name_at (o_head o) a) < 0) (after p')).
Proof.
  intros Hname Hbytes. induction fuel as [|f IH]; intros t p Hf H Hin Hs Hb Ha; [lia|]. cbn [insert_search].
  destruct t as [|c l a r]; cbn [root_of]; [apply yields_Ret; eauto|]. cbn [depth ids] in *.
  destruct (node_entry (o_head o) a) as (m & -> & Hm & _); [apply Hin; set_solver|]. cbn [cbind]. rb_load H p. rewrite Hm.
  apply StronglySorted_app in Hs as (Hlr & Hsl & Hsr). apply StronglySorted_inv in Hsr as [Hsr Har].
  pose proof (fun x => name_at_bytes (o_head o) x Hbytes) as Hnb.
  destruct (Z.ltb_spec (strcmp name (name_at (o_head o) a)) 0) as [Hlt|Hge].
  - apply (IH l (FL c a r :: p)); [lia|exact H|intros; apply Hin; set_solver|done|cbn; by rewrite app_nil_r|].
    cbn [after frame_after]. rewrite Forall_app, Forall_cons. split; [split; [done|]|done].
    eapply Forall_impl; [exact Har|]. intros b Hab. unfold name_le in Hab.
    destruct (strcmp_trans name (name_at (o_head o) a) (name_at (o_head o) b)); auto; lia.
  - apply (IH r (FR c l a :: p)); [lia|exact H|intros; apply Hin; set_solver|done| |done].
    cbn [before frame_before]. rewrite !Forall_app, Forall_singleton. split; [done|]. split; [|done].
    apply Forall_forall. intros b Hbl. specialize (Hlr b a Hbl ltac:(set_solver)). unfold name_le in Hlr.
    destruct (Z.le_gt_cases 0 (strcmp name (name_at (o_head o) b))); [done|].
    destruct (strcmp_trans name (name_at (o_head o) b) (name_at (o_head o) a)); auto; lia.
Qed.

(** Adding an entry does not change the names of the others. *)
Lemma name_at_add l1 l2 memb a : a <> m_block memb -> name_at (l1 ++ memb :: l2) a = name_at (l1 ++ l2) a.
Proof.
  intros Hne. unfold name_at. induction l1 as [|x l1 IH]; cbn [app list_entry].
  - by destruct (Z.eqb_spec (m_block memb) a).
  - by destruct (m_block x =? a).
Qed.

Lemma sorted_impl {X : Type} (R S : X -> X -> Prop) (k : list X) :
  (forall x y, x ∈ k -> y ∈ k -> R x y -> S x y) -> StronglySorted R k -> StronglySorted S k.
Proof.
  intros HRS. induction 1 as [|x k Hk IH Hx]; [constructor|]. constructor; [apply IH; set_solver|].
  rewrite Forall_forall in *. intros y Hy. apply HRS; set_solver.
Qed.

Lemma insert_member_at o memb pos l1 l2 : object_ok o -> o_head o = l1 ++ l2 -> at_position m_block pos l1 l2 ->
  (m_block memb ∉ m_block <$> o_head o) -> Forall is_byte (m_name memb) ->
  yields (insert_json_member memb pos o)
    (fun o' => object_ok (mkObject (o_head o') (o_root o') (i32 (o_size o + 1))) /\
      o_head o' = l1 ++ memb :: l2 /\ o_size o' = o_size o).
Proof.
  intros (Hnd & Hbytes & Hsize & t & Ht & Hbal & Hperm & Hsort) El Hpos Hnew Hname. unfold insert_json_member.
  pose proof Ht as (_ & Hroot & _). rewrite Hroot.
  destruct (insert_search_at o (m_name memb) Hname Hbytes (rounds (o_root o)) t []) as (link & Hlink & p & -> & Et & Hb & Ha).
  { apply (subtree_rounds _ t [] Ht). }
  { done. }
  { intros a. by rewrite Hperm. }
  { done. }
  { constructor. }
  { constructor. }
  cbn [link_of] in Hlink. rewrite Hlink. cbn [cbind]. cbn [plug] in Et. subst t.
  assert (m_block memb ∉ ids (plug Leaf p)) as Hx by (by rewrite Hperm).
  destruct (insert_at (o_root o) p (m_block memb) Ht Hbal Hx) as (root & E & t' & Ht' & Hbal' & Eids).
  apply cbind_Ret_inv in E as (root1 & -> & E). cbn [cbind]. rewrite E. cbn [cbind]. rewrite El in *.
  rewrite (list_add_at m_block memb pos l1 l2 Hnd Hpos). cbn [cbind]. apply yields_Ret. cbn [o_head o_root o_size].
  rewrite ids_plug in *. cbn [ids app] in *.
  assert (forall a, a ∈ before p ++ after p -> name_at (l1 ++ memb :: l2) a = name_at (l1 ++ l2) a) as Hsame.
  { intros a Hin. apply name_at_add. intros ->. done. }
  assert (NoDup (m_block <$> l1 ++ memb :: l2)) as Hnd'.
  { rewrite fmap_app, fmap_cons in *. rewrite NoDup_app, NoDup_cons. rewrite NoDup_app in Hnd. set_solver. }
  assert (name_at (l1 ++ memb :: l2) (m_block memb) = m_name memb) as Hown by (apply name_at_in; [done|set_solver]).
  split; [|done]. split; [done|]. split; [|split; [|exists t'; split; [done|split; [done|split]]]]; cbn [o_head o_size o_root].
  - rewrite Forall_app, Forall_cons. by apply Forall_app in Hbytes as [? ?].
  - rewrite Hsize, i32_add. f_equal. rewrite !length_app. cbn [length]. lia.
  - rewrite Eids, fmap_app, fmap_cons. rewrite <- !Permutation_middle. rewrite fmap_app in Hperm. by rewrite Hperm.
  - rewrite Eids. rewrite StronglySorted_app in Hsort |- *. destruct Hsort as (H1 & H2 & H3).
    rewrite Forall_forall in Hb, Ha. split; [|split].
    + intros a b Hin [->|Hin2]%elem_of_cons; unfold name_le.
      * rewrite Hown, Hsame by set_solver. specialize (Hb a Hin). rewrite strcmp_sym. lia.
      * rewrite !Hsame by set_solver. by apply H1.
    + eapply sorted_impl; [|exact H2]. intros a b ? ?. unfold name_le. by rewrite !Hsame by set_solver.
    + constructor; [eapply sorted_impl; [|exact H3]; intros a b ? ?; unfold name_le; by rewrite !Hsame by set_solver|].
      apply Forall_forall. intros a Hin. unfold name_le. rewrite Hown, Hsame by set_solver. specialize (Ha a Hin). lia.
Qed.

Lemma find_loop_at o name : Forall is_byte name -> Forall (fun m => Forall is_byte (m_name m)) (o_head o) ->
  forall fuel t p, (depth t < fuel)%nat -> represents (o_root o) (plug t p) ->
  (forall a, a ∈ ids t -> a ∈ m_block <$> o_head o) -> StronglySorted (name_le (o_head o)) (ids t) ->
  yields (find_loop fuel name (root_of t) o) (fun r =>
    match r with
    | Some m => m ∈ o_head o /\ strcmp name (m_name m) = 0
    | None => forall a, a ∈ ids t -> strcmp name (name_at (o_head o) a) <> 0
    end).
Proof.
  intros Hname Hbytes. induction fuel as [|f IH]; intros t p Hf H Hin Hs; [lia|]. cbn [find_loop].
  destruct t as [|c l a r]; cbn [root_of]; [apply yields_Ret; set_solver|]. cbn [depth ids] in *.
  destruct (node_entry (o_head o) a) as (m & -> & Hm & _ & Hmin); [apply Hin; set_solver|]. cbn [cbind]. rb_load H p. rewrite Hm.
  apply StronglySorted_app in Hs as (Hlr & Hsl & Hsr). apply StronglySorted_inv in Hsr as [Hsr Har]. rewrite Forall_forall in Har.
  pose proof (fun x => name_at_bytes (o_head o) x Hbytes) as Hnb.
  destruct (Z.ltb_spec (strcmp name (name_at (o_head o) a)) 0) as [Hlt|Hge];
    [|destruct (Z.ltb_spec 0 (strcmp name (name_at (o_head o) a))) as [Hgt|Heq]].
  - eapply yields_mono; [apply (IH l (FL c a r :: p)); [lia|exact H|intros; apply Hin; set_solver|done]|].
    intros [m'|]; [done|]. intros Hl b Hb. apply elem_of_app in Hb as [Hb|Hb]; [by apply Hl|].
    apply elem_of_cons in Hb as [->|Hb]; [lia|]. specialize (Har b Hb). unfold name_le in Har.
    destruct (strcmp_trans name (name_at (o_head o) a) (name_at (o_head o) b)); auto; lia.
  - eapply yields_mono; [apply (IH r (FR c l a :: p)); [lia|exact H|intros; apply Hin; set_solver|done]|].
    intros [m'|]; [done|]. intros Hr b Hb. apply elem_of_app in Hb as [Hb|Hb].
    + specialize (Hlr b a Hb ltac:(set_solver)). unfold name_le in Hlr. intros E0.
      destruct (strcmp_trans name (name_at (o_head o) b) (name_at (o_head o) a)); auto; lia.
    + apply elem_of_cons in Hb as [->|Hb]; [lia|]. by apply Hr.
  - apply yields_Ret. split; [done|]. rewrite Hm. lia.
Qed.

(** Finding in a well-formed object. *)
Lemma find_member o name : object_ok o -> Forall is_byte name ->
  yields (json_object_find name o) (fun r =>
    match r with
    | Some m => m ∈ o_head o /\ strcmp name (m_name m) = 0
    | None => forall m, m ∈ o_head o -> strcmp name (m_name m) <> 0
    end).
Proof.
  intros (Hnd & Hbytes & _ & t & Ht & _ & Hperm & Hsort) Hname. unfold json_object_find.
  pose proof Ht as (_ & -> & _). eapply yields_mono; [apply (find_loop_at o name Hname Hbytes _ t [])|].
  - apply (subtree_rounds _ t [] Ht).
  - done.
  - intros a. by rewrite Hperm.
  - done.
  - intros [m|]; [done|]. intros Hno m Hm. rewrite <- (name_at_in (o_head o) m Hnd Hm). apply Hno.
    rewrite Hperm. by apply list_elem_of_fmap_2.
Qed.

Lemma remove_member o l1 memb l2 : object_ok o -> o_head o = l1 ++ memb :: l2 ->
  list_entry m_block (m_block memb) (o_head o) = Ret memb /\ list_del m_block (m_block memb) (o_head o) = Ret (l1 ++ l2) /\
  yields (rb_erase (m_block memb) (o_root o)) (fun root => object_ok (mkObject (l1 ++ l2) root (i32 (o_size o - 1)))).
Proof.
  intros (Hnd & Hbytes & Hsize & t & Ht & Hbal & Hperm & Hsort) El. rewrite El in *.
  split; [by apply list_entry_middle|]. split; [by apply list_del_middle|].
  assert (m_block memb ∈ ids t) as (k1 & k2 & Ek)%list_elem_of_split.
  { rewrite Hperm. apply list_elem_of_fmap_2. set_solver. }
  eapply yields_mono; [by apply (erase_split _ t k1 _ k2 Ht Hbal)|]. intros root (t' & Ht' & Hbal' & Eids).
  rewrite fmap_app, fmap_cons in Hnd, Hperm. rewrite Ek in Hperm, Hsort. rewrite <- !Permutation_middle in Hperm.
  apply Permutation_cons_inv in Hperm. pose proof Hnd as Hnd'. rewrite NoDup_app, NoDup_cons in Hnd'. destruct Hnd' as (N1 & N2 & N3 & N4).
  assert (m_block memb ∉ k1 ++ k2) as Hout by (rewrite Hperm; set_solver).
  assert (forall a, a ∈ k1 ++ k2 -> name_at (l1 ++ l2) a = name_at (l1 ++ memb :: l2) a) as Hsame.
  { intros a Ha. symmetry. apply name_at_add. intros ->. done. }
  split; [|split; [|split; [|exists t'; split; [done|split; [done|split]]]]]; cbn [o_head o_size o_root].
  - rewrite fmap_app, NoDup_app. set_solver.
  - rewrite Forall_app, Forall_cons in Hbytes. rewrite Forall_app. naive_solver.
  - rewrite Hsize, <- Z.add_opp_r, i32_add. f_equal. rewrite !length_app. cbn [length]. lia.
  - by rewrite Eids, fmap_app.
  - rewrite Eids. apply StronglySorted_app in Hsort as (H1 & H2 & H3). apply StronglySorted_inv in H3 as [H3 _].
    eapply sorted_impl; [|apply StronglySorted_app; split; [|split; [exact H2|exact H3]]].
    + intros a b ? ?. unfold name_le. by rewrite !Hsame by done.
    + intros. apply H1; set_solver.
Qed.

Lemma empty_object_ok : object_ok empty_object.
Proof.
  split; [constructor|]. split; [constructor|]. split; [done|]. exists Leaf.
  split; [split; [done|split; [done|constructor]]|]. split; [by exists 0%nat; constructor|].
  split; [done|constructor].
Qed.
End Object.

(** ** Ownership of values *)

(** The blocks a value consists of, in the order they are freed. *)
Fixpoint blocks (v : json_value) : list Z :=
  match v with
  | JString b _ => [b]
  | JObject (mkObject l _ _) => flat_map (fun m => match m with mkMember b _ v => blocks v ++ [b] end) l
  | JArray (mkArray l _) => flat_map (fun e => match e with mkElement b v => blocks v ++ [b] end) l
  | _ => []
  end.

Definition member_blocks (m : json_member) : list Z := blocks (m_value m) ++ [m_block m].
Definition element_blocks (e : json_element) : list Z := blocks (e_value e) ++ [e_block e].

Lemma blocks_object o : blocks (JObject o) = flat_map member_blocks (o_head o).
Proof. destruct o as [l r s]. cbn [blocks o_head]. apply flat_map_ext. by intros []. Qed.

Lemma blocks_array a : blocks (JArray a) = flat_map element_blocks (a_head a).
Proof. destruct a as [l s]. cbn [blocks a_head]. apply flat_map_ext. by intros []. Qed.

Definition array_ok {V : Type} (a : json_array_of V) : Prop :=
  NoDup (e_block <$> a_head a) /\ a_size a = i32 (Z.of_nat (length (a_head a))).

(** A value all of whose objects and arrays are well-formed. *)
Fixpoint value_ok (v : json_value) : Prop :=
  match v with
  | JObject (mkObject l r s) =>
      object_ok (mkObject l r s) /\ foldr (fun m P => match m with mkMember _ _ v => value_ok v end /\ P) True l
  | JArray (mkArray l s) =>
      array_ok (mkArray l s) /\ foldr (fun e P => match e with mkElement _ v => value_ok v end /\ P) True l
  | _ => True
  end.

Lemma value_ok_object o : value_ok (JObject o) <-> object_ok o /\ Forall (fun m => value_ok (m_value m)) (o_head o).
Proof.
  destruct o as [l r s]. cbn [value_ok o_head]. f_equiv. clear r s.
  induction l as [|[b n v] l IH]; cbn [foldr]; [split; auto|]. by rewrite Forall_cons, IH.
Qed.

Lemma value_ok_array a : value_ok (JArray a) <-> array_ok a /\ Forall (fun e => value_ok (e_value e)) (a_head a).
Proof.
  destruct a as [l s]. cbn [value_ok a_head]. f_equiv. clear s.
  induction l as [|[b v] l IH]; cbn [foldr]; [split; auto|]. by rewrite Forall_cons, IH.
Qed.

(** Induction on a value and the values in it. *)
Lemma json_value_nested_ind (P : json_value -> Prop) :
  (forall b s, P (JString b s)) -> (forall d, P (JNumber d)) ->
  (forall o, Forall (fun m => P (m_value m)) (o_head o) -> P (JObject o)) ->
  (forall a, Forall (fun e => P (e_value e)) (a_head a) -> P (JArray a)) ->
  P JTrue -> P JFalse -> P JNull -> forall v, P v.
Proof.
  intros Hs Hn Ho Ha Ht Hf H0. fix IH 1. intros [b s|d|[l r s]|[l s]| | |]; [apply Hs|apply Hn| | |done..].
  - apply Ho. cbn [o_head]. induction l as [|[b n v] l IHl]; constructor; [apply IH|done].
  - apply Ha. cbn [a_head]. induction l as [|[b v] l IHl]; constructor; [apply IH|done].
Qed.

(** Destroying a value gives back all its blocks, each once. *)
Lemma destroy_frees v : forall rest h h', acquires h (blocks v ++ rest) h' ->
  yields (destroy_json_value v h') (acquires h rest).
Proof.
  induction v as [b s|d|o IH|a IH| | |] using json_value_nested_ind; intros rest h h' H;
    try (by apply yields_Ret); [by apply free_first| |].
  - rewrite blocks_object in H. destruct o as [l r s]. cbn [destroy_json_value o_head] in *.
    apply (for_each_frees member_blocks); [|done]. eapply Forall_impl; [exact IH|]. intros [b n v] Hv rest1 h1 H1.
    unfold member_blocks in H1. cbn [m_value m_block] in *. rewrite <- app_assoc in H1.
    eapply yields_bind; [by apply Hv|]. intros h2. apply free_first.
  - rewrite blocks_array in H. destruct a as [l s]. cbn [destroy_json_value a_head] in *.
    apply (for_each_frees element_blocks); [|done]. eapply Forall_impl; [exact IH|]. intros [b v] Hv rest1 h1 H1.
    unfold element_blocks in H1. cbn [e_value e_block] in *. rewrite <- app_assoc in H1.
    eapply yields_bind; [by apply Hv|]. intros h2. apply free_first.
Qed.

Lemma destroy_members_frees l rest h h' : acquires h (flat_map member_blocks l ++ rest) h' ->
  yields (destroy_json_members l h') (acquires h rest).
Proof. intros H. apply (destroy_frees (JObject (mkObject l RB_ROOT 0))). by rewrite blocks_object. Qed.

Lemma destroy_elements_frees l rest h h' : acquires h (flat_map element_blocks l ++ rest) h' ->
  yields (destroy_json_elements l h') (acquires h rest).
Proof. intros H. apply (destroy_frees (JArray (mkArray l 0))). by rewrite blocks_array. Qed.

Lemma move_value_id v : move_json_value v = v.
Proof. destruct v as [| |[l r s]|[l s]| | |]; cbn [move_json_value o_head o_root o_size a_head a_size]; by rewrite ?app_nil_r. Qed.

(** ** Arguments *)

Definition arg_blocks (arg : json_arg) : list Z :=
  match arg with
  | ArgValue b v => b :: blocks v
  | _ => []
  end.

Definition arg_ok (arg : json_arg) : Prop :=
  match arg with
  | ArgValue _ v => value_ok v
  | _ => True
  end.

(** The value an argument stands for. *)
Definition arg_value (arg : json_arg) (v : json_value) : Prop :=
  match arg with
  | ArgValue _ src => v = src
  | ArgString s => exists b, v = JString b (cstr s)
  | ArgNumber d => v = JNumber d
  | ArgObject => v = JObject empty_object
  | ArgArray => v = JArray empty_array
  | ArgTrue => v = JTrue
  | ArgFalse => v = JFalse
  | ArgNull => v = JNull
  end.

Lemma arg_value_ok arg v : arg_ok arg -> arg_value arg v -> value_ok v.
Proof.
  destruct arg; cbn [arg_ok arg_value]; intros Hok; [by intros ->|by intros [b ->]|by intros ->| | |by intros ->..].
  - intros ->. split; [apply empty_object_ok|done].
  - intros ->. split; [split; [constructor|done]|done].
Qed.

Lemma set_value_spec {A : Allocator} arg h0 rest h : acquires h0 (arg_blocks arg ++ rest) h ->
  yields (set_json_value arg h) (fun '(r, h') =>
    match r with
    | Some v => arg_value arg v /\ acquires h0 (blocks v ++ rest) h'
    | None => acquires h0 (arg_blocks arg ++ rest) h'
    end).
Proof.
  intros H. destruct arg; cbn [set_json_value arg_blocks app] in *; try (apply yields_Ret; by split).
  - eapply yields_bind; [by apply free_first|]. intros h1 H1. apply yields_Ret. by rewrite move_value_id.
  - pose proof (malloc_acquires h (acquires_ok _ _ _ H)) as Hm. destruct (malloc h) as [[b|] h1]; apply yields_Ret.
    + split; [by exists b|]. eapply acquires_perm; [|by eapply acquires_trans]. by rewrite Permutation_app_comm.
    + rewrite <- (app_nil_r rest). by eapply acquires_trans.
Qed.

(** ** Insertion and removal *)

(** The three ways of the interface to name a place, NULL included. *)
Inductive insertion : Type :=
| Append
| After (val : option Z)
| Before (val : option Z).

(** The place splits the list in the entries before and behind it. *)
Definition place {E : Type} (block : E -> Z) (w : insertion) (l1 l2 : list E) : Prop :=
  match w with
  | Append | Before None => l2 = []
  | After None => l1 = []
  | After (Some b) => exists l e, l1 = l ++ [e] /\ block e = b
  | Before (Some b) => exists e l, l2 = e :: l /\ block e = b
  end.

Section Operations.
Context {A : Allocator}.

Definition object_insert (w : insertion) (o : json_object) (name : list Z) (arg : json_arg) (h : heap) :
    comp (option json_member * json_object * heap) :=
  match w with
  | Append => json_object_append o name arg h
  | After val => json_object_insert_after val o name arg h
  | Before val => json_object_insert_before val o name arg h
  end.

Definition array_insert (w : insertion) (a : json_array) (arg : json_arg) (h : heap) :
    comp (option json_element * json_array * heap) :=
  match w with
  | Append => json_array_append a arg h
  | After val => json_array_insert_after val a arg h
  | Before val => json_array_insert_before val a arg h
  end.

(** The position that [list_add] gets for a place. *)
Definition place_position {E : Type} (block : E -> Z) (w : insertion) (l : list E) : comp (option Z) :=
  match w with
  | Append => let! e := prev_of block None l in Ret (block <$> e)
  | After val => Ret val
  | Before val => let! e := prev_of block val l in Ret (block <$> e)
  end.

Lemma place_at_position {E : Type} (block : E -> Z) w l1 l2 : NoDup (block <$> l1 ++ l2) -> place block w l1 l2 ->
  yields (place_position block w (l1 ++ l2)) (fun pos => at_position block pos l1 l2).
Proof.
  intros Hnd Hw.
  assert (at_position block (block <$> last l1) l1 l2) as Hlast.
  { destruct l1 as [|e l _] using rev_ind; [done|]. rewrite last_snoc. by exists e, l. }
  destruct w as [|[b|]|[b|]]; cbn [place place_position] in *; rewrite ?prev_of_head.
  - subst l2. rewrite app_nil_r. by apply yields_Ret.
  - destruct Hw as (l & e & -> & <-). apply yields_Ret. by exists e, l.
  - by apply yields_Ret.
  - destruct Hw as (e & l & -> & <-). rewrite prev_of_middle by done. by apply yields_Ret.
  - subst l2. rewrite app_nil_r. by apply yields_Ret.
Qed.

Lemma object_insert_position w o name arg h :
  object_insert w o name arg h = let! pos := place_position m_block w (o_head o) in json_object_insert name arg pos o h.
Proof.
  destruct w; cbn [object_insert place_position cbind]; unfold json_object_append, json_object_insert_before; [|done|];
    by destruct (prev_of m_block _ _).
Qed.

Lemma array_insert_position w a arg h :
  array_insert w a arg h = let! pos := place_position e_block w (a_head a) in json_array_insert arg pos a h.
Proof.
  destruct w; cbn [array_insert place_position cbind]; unfold json_array_append, json_array_insert_before; [|done|];
    by destruct (prev_of e_block _ _).
Qed.

(** The two allocations of an insertion: the entry's block, and the value. *)
Lemma insert_allocates arg h0 rest h : acquires h0 (arg_blocks arg ++ rest) h ->
  match malloc h with
  | (Some b, h1) => yields (set_json_value arg h1) (fun '(r, h2) =>
      match r with
      | Some v => arg_value arg v /\ acquires h0 (blocks v ++ [b] ++ rest) h2
      | None => yields (free b h2) (acquires h0 (arg_blocks arg ++ rest))
      end) /\ (b ∉ arg_blocks arg ++ rest)
  | (None, h1) => acquires h0 (arg_blocks arg ++ rest) h1
  end.
Proof.
  intros H. pose proof (malloc_acquires h (acquires_ok _ _ _ H)) as Hm. destruct (malloc h) as [[b|] h1].
  - assert (acquires h0 (arg_blocks arg ++ b :: rest) h1) as H1.
    { eapply acquires_perm; [|by eapply acquires_trans]. rewrite <- app_assoc. apply Permutation_app; [done|]. by rewrite Permutation_app_comm. }
    split.
    + eapply yields_mono; [by apply (set_value_spec arg h0 (b :: rest))|]. intros [[v|] h2]; [done|]. apply free_acquired.
    + destruct H1 as (_ & _ & Hnd & _). rewrite NoDup_app, NoDup_cons in Hnd. set_solver.
  - rewrite <- (app_nil_r (arg_blocks arg ++ rest)). by eapply acquires_trans.
Qed.

Lemma member_blocks_fresh b o : b ∉ blocks (JObject o) -> b ∉ m_block <$> o_head o.
Proof.
  rewrite blocks_object. intros H (m & -> & Hm)%list_elem_of_fmap. apply H. apply list_elem_of_In, in_flat_map.
  exists m. split; [by apply list_elem_of_In|]. apply list_elem_of_In. unfold member_blocks. set_solver.
Qed.

Lemma element_blocks_fresh b a : b ∉ blocks (JArray a) -> b ∉ e_block <$> a_head a.
Proof.
  rewrite blocks_array. intros H (e & -> & He)%list_elem_of_fmap. apply H. apply list_elem_of_In, in_flat_map.
  exists e. split; [by apply list_elem_of_In|]. apply list_elem_of_In. unfold element_blocks. set_solver.
Qed.

(** C29: appending and inserting before or behind a member: the new member
    stands at this place of the list, is found in the tree, holds a copy of
    the argument and owns exactly the new blocks; when memory runs out the
    object, the argument and the heap's blocks are as before. *)
Theorem json_object_insert_places w o name arg l1 l2 h0 rest h :
  value_ok (JObject o) -> arg_ok arg -> Forall is_byte name -> o_head o = l1 ++ l2 -> place m_block w l1 l2 ->
  acquires h0 (arg_blocks arg ++ blocks (JObject o) ++ rest) h ->
  yields (object_insert w o name arg h) (fun '(r, o', h') =>
    match r with
    | Some m => m_name m = cstr name /\ arg_value arg (m_value m) /\ o_head o' = l1 ++ m :: l2 /\
        value_ok (JObject o') /\ acquires h0 (blocks (JObject o') ++ rest) h'
    | None => o' = o /\ acquires h0 (arg_blocks arg ++ blocks (JObject o) ++ rest) h'
    end).
Proof.
  intros Hok Harg Hname El Hw H. rewrite object_insert_position, El. apply value_ok_object in Hok as [Hok Hvals].
  eapply yields_bind; [apply place_at_position; [rewrite <- El; apply Hok|done]|]. intros pos Hpos. unfold json_object_insert.
  pose proof (insert_allocates arg h0 _ h H) as Hm. destruct (malloc h) as [[b|] h1]; [|by apply yields_Ret].
  destruct Hm as [Hset Hb]. eapply yields_bind; [exact Hset|]. intros [[v|] h2]; cbn beta iota;
    [intros [Hv H2]|intros Hfree; eapply yields_bind; [exact Hfree|]; intros h3 H3; by apply yields_Ret].
  eapply yields_bind; [apply (insert_member_at o (mkMember b (cstr name) v) pos l1 l2); cbn [m_block m_name];
    [done|done|done|apply member_blocks_fresh; set_solver|by apply cstr_bytes]|].
  intros o' (Hok' & El' & Es). apply yields_Ret. cbn [m_name m_value o_head]. split; [done|]. split; [done|]. split; [done|].
  split.
  - apply value_ok_object. cbn [o_head]. rewrite Es, El'. split; [by rewrite El' in Hok'|]. rewrite Forall_app, Forall_cons.
    rewrite El in Hvals. apply Forall_app in Hvals as [? ?]. split; [done|]. split; [by eapply arg_value_ok|done].
  - eapply acquires_perm; [|exact H2]. rewrite !blocks_object, El. cbn [o_head]. rewrite El', !flat_map_app. cbn [flat_map member_blocks m_value m_block].
    solve_Permutation.
Qed.

(** removing a member takes it out of list and tree and hands its value
    over in a new block; the other members stay in order. *)
Theorem json_object_remove_takes o l1 m l2 h0 rest h :
  value_ok (JObject o) -> o_head o = l1 ++ m :: l2 -> acquires h0 (blocks (JObject o) ++ rest) h ->
  yields (json_object_remove (m_block m) o h) (fun '(r, o', h') =>
    match r with
    | Some (b, v) => v = m_value m /\ o_head o' = l1 ++ l2 /\ value_ok (JObject o') /\ value_ok v /\
        acquires h0 (b :: blocks v ++ blocks (JObject o') ++ rest) h'
    | None => o' = o /\ acquires h0 (blocks (JObject o) ++ rest) h'
    end).
Proof.
  intros Hok El H. apply value_ok_object in Hok as [Hok Hvals]. unfold json_object_remove.
  pose proof (malloc_acquires h (acquires_ok _ _ _ H)) as Hm. destruct (malloc h) as [[b|] h1].
  - destruct (remove_member o l1 m l2 Hok El) as (E1 & E2 & Herase). rewrite E1. cbn [cbind]. rewrite E2. cbn [cbind].
    eapply yields_bind; [exact Herase|]. intros root Hok'.
    assert (acquires h0 (m_block m :: b :: blocks (m_value m) ++ flat_map member_blocks (l1 ++ l2) ++ rest) h1) as H1.
    { eapply acquires_perm; [|by eapply acquires_trans]. rewrite blocks_object, El, !flat_map_app. cbn [flat_map].
      unfold member_blocks at 2. solve_Permutation. }
    eapply yields_bind; [by apply free_first|]. intros h2 H2. apply yields_Ret. rewrite move_value_id, blocks_object. cbn [o_head].
    rewrite El, Forall_app, Forall_cons in Hvals. destruct Hvals as (? & ? & ?). split; [done|]. split; [done|].
    split; [|done]. apply value_ok_object. split; [done|]. by apply Forall_app.
  - apply yields_Ret. split; [done|]. rewrite <- (app_nil_r (blocks _ ++ rest)). by eapply acquires_trans.
Qed.

(** the same for arrays: inserting at a place and removing an element are
    insertion into and removal from the list of values; the size is its
    length and no block is lost or freed twice. *)
Theorem json_array_insert_places w a arg l1 l2 h0 rest h :
  value_ok (JArray a) -> arg_ok arg -> a_head a = l1 ++ l2 -> place e_block w l1 l2 ->
  acquires h0 (arg_blocks arg ++ blocks (JArray a) ++ rest) h ->
  yields (array_insert w a arg h) (fun '(r, a', h') =>
    match r with
    | Some e => arg_value arg (e_value e) /\ a_head a' = l1 ++ e :: l2 /\ value_ok (JArray a') /\
        acquires h0 (blocks (JArray a') ++ rest) h'
    | None => a' = a /\ acquires h0 (arg_blocks arg ++ blocks (JArray a) ++ rest) h'
    end).
Proof.
  intros Hok Harg El Hw H. rewrite array_insert_position, El. apply value_ok_array in Hok as [[Hnd Hsize] Hvals].
  eapply yields_bind; [apply place_at_position; [by rewrite <- El|done]|]. intros pos Hpos. unfold json_array_insert.
  pose proof (insert_allocates arg h0 _ h H) as Hm. destruct (malloc h) as [[b|] h1]; [|by apply yields_Ret].
  destruct Hm as [Hset Hb]. eapply yields_bind; [exact Hset|]. intros [[v|] h2]; cbn beta iota;
    [intros [Hv H2]|intros Hfree; eapply yields_bind; [exact Hfree|]; intros h3 H3; by apply yields_Ret].
  rewrite El in *. rewrite (list_add_at e_block _ pos l1 l2) by done. cbn [cbind]. apply yields_Ret. cbn [e_value a_head].
  split; [done|]. split; [done|]. split.
  - apply value_ok_array. cbn [a_head]. rewrite Forall_app, Forall_cons. apply Forall_app in Hvals as [? ?].
    split; [|split; [done|split; [by eapply arg_value_ok|done]]]. split; cbn [a_head a_size].
    + assert (b ∉ e_block <$> l1 ++ l2) as Hfresh by (rewrite <- El; apply element_blocks_fresh; set_solver).
      rewrite fmap_app, fmap_cons in *. rewrite NoDup_app, NoDup_cons in *. cbn [e_block]. set_solver.
    + rewrite Hsize, i32_add. f_equal. rewrite !length_app. cbn [length]. lia.
  - eapply acquires_perm; [|exact H2]. rewrite !blocks_array, El. cbn [a_head]. rewrite !flat_map_app. cbn [flat_map element_blocks e_value e_block].
    solve_Permutation.
Qed.

Lemma json_array_remove_takes a l1 e l2 h0 rest h :
  value_ok (JArray a) -> a_head a = l1 ++ e :: l2 -> acquires h0 (blocks (JArray a) ++ rest) h ->
  yields (json_array_remove (e_block e) a h) (fun '(r, a', h') =>
    match r with
    | Some (b, v) => v = e_value e /\ a_head a' = l1 ++ l2 /\ value_ok (JArray a') /\ value_ok v /\
        acquires h0 (b :: blocks v ++ blocks (JArray a') ++ rest) h'
    | None => a' = a /\ acquires h0 (blocks (JArray a) ++ rest) h'
    end).
Proof.
  intros Hok El H. apply value_ok_array in Hok as [[Hnd Hsize] Hvals]. unfold json_array_remove.
  pose proof (malloc_acquires h (acquires_ok _ _ _ H)) as Hm. destruct (malloc h) as [[b|] h1].
  - rewrite El in *. rewrite list_entry_middle, list_del_middle by done. cbn [cbind].
    assert (acquires h0 (e_block e :: b :: blocks (e_value e) ++ flat_map element_blocks (l1 ++ l2) ++ rest) h1) as H1.
    { eapply acquires_perm; [|by eapply acquires_trans]. rewrite blocks_array, El, !flat_map_app. cbn [flat_map].
      unfold element_blocks at 2. solve_Permutation. }
    eapply yields_bind; [by apply free_first|]. intros h2 H2. apply yields_Ret. rewrite move_value_id, blocks_array. cbn [a_head].
    rewrite Forall_app, Forall_cons in Hvals. destruct Hvals as (? & ? & ?). split; [done|]. split; [done|].
    split; [|done]. apply value_ok_array. cbn [a_head]. rewrite Forall_app. split; [|done]. split; cbn [a_head a_size].
    + rewrite fmap_app, fmap_cons in *. rewrite NoDup_app, NoDup_cons in *. set_solver.
    + rewrite Hsize, <- Z.add_opp_r, i32_add. f_equal. rewrite !length_app. cbn [length]. lia.
  - apply yields_Ret. split; [done|]. rewrite <- (app_nil_r (blocks _ ++ rest)). by eapply acquires_trans.
Qed.
End Operations.

(** C37: [json_value_destroy] frees every block of a value, each exactly once:
    the heap holds afterwards what it held before the value was built. *)
Theorem json_destroy_releases v b h h' : acquires h (blocks v ++ [b]) h' ->
  exists h'', json_value_destroy b v h' = Ret h'' /\ live h'' = live h.
Proof.
  intros H. destruct (destroy_frees v [b] h h' H) as (h1 & E1 & H1). destruct (free_first h b [] h1 H1) as (h2 & E2 & (H2 & _)).
  exists h2. unfold json_value_destroy. rewrite E1. cbn [cbind]. split; [done|]. rewrite H2. set_solver.
Qed.

(** [json_object_find] on a well-formed object returns a member of the
    name, whenever there is one: comparing ends at the first NUL, as [strcmp]
    does; the descent through the tree meets no missing node. *)
Theorem json_object_find_spec {V : Type} (o : json_object_of V) name : object_ok o -> Forall is_byte name ->
  exists r, json_object_find name o = Ret r /\
    match r with
    | Some m => m ∈ o_head o /\ cstr (m_name m) = cstr name
    | None => forall m, m ∈ o_head o -> cstr (m_name m) <> cstr name
    end.
Proof.
  intros Hok Hname. destruct (find_member o name Hok Hname) as (r & E & Hr). exists r. split; [done|].
  destruct Hok as (_ & Hbytes & _). rewrite Forall_forall in Hbytes. destruct r as [m|].
  - destruct Hr as [Hm E0]. split; [done|]. symmetry. by apply strcmp_eq; auto.
  - intros m Hm E0. apply (Hr m Hm). apply strcmp_eq; auto.
Qed.

(** [json_object_next_value], [json_object_prev_value] and their kin run
    through the members (elements) in list order, both ways, NULL at the
    ends. *)
Theorem json_neighbours {V : Type} (o : json_object_of V) l1 m l2 : object_ok o -> o_head o = l1 ++ m :: l2 ->
  json_object_next_value (Some (m_block m)) o = Ret (head l2) /\ json_object_prev_value (Some (m_block m)) o = Ret (last l1) /\
  json_object_next_value None o = Ret (head (o_head o)) /\ json_object_prev_value None o = Ret (last (o_head o)).
Proof.
  intros [Hnd _] El. unfold json_object_next_value, json_object_prev_value. rewrite prev_of_head. rewrite El in *.
  by rewrite next_of_middle, prev_of_middle.
Qed.

(** ** A concrete object

    Its members are b and a, in this order. *)
Definition sample_member : json_member := mkMember 0 [98] JTrue.

Definition sample_object : json_object :=
  mkObject [sample_member; mkMember 1 [97] (JString 2 [120])]
    (mkStore {[0 := mkNode None None (Some 1) RB_BLACK; 1 := mkNode (Some 0) None None RB_RED]} (Some 0)) 2.

Definition empty_heap : heap := mkHeap 0 ∅.
Definition sample_heap : heap := mkHeap 3 {[0; 1; 2]}.

Lemma sample_object_ok : value_ok (JObject sample_object).
Proof.
  apply value_ok_object. split; [|repeat constructor]. split; [by apply (bool_decide_unpack _)|].
  split; [repeat (constructor; [cbn; solve_bytes|]); constructor|]. split; [done|].
  exists (Node RB_BLACK (Node RB_RED Leaf 1 Leaf) 0 Leaf). split; [split; [vm_compute; tauto|split; [done|by apply (bool_decide_unpack _)]]|].
  split; [exists 1%nat; repeat econstructor|]. split; [apply Permutation_swap|].
  repeat constructor; unfold name_le; vm_compute; discriminate.
Qed.

Lemma sample_acquires : acquires empty_heap [0; 2; 1] sample_heap.
Proof.
  split; [cbn; set_solver|]. split; [done|]. split; [by apply (bool_decide_unpack _)|]. split; [|cbn; set_solver].
  intros b Hb. cbn. rewrite !elem_of_cons in Hb. set_solver by lia.
Qed.

Example sample_find : json_object_find [97] sample_object = Ret (Some (mkMember 1 [97] (JString 2 [120]))).
Proof. vm_compute. reflexivity. Qed.

Lemma json_object_insert_places_witness : yields (object_insert (A := plenty) (Before (Some 1)) sample_object [97] (ArgNumber (S754_zero false)) sample_heap)
  (fun '(r, o', h') => match r with
    | Some m => m_name m = [97] /\ arg_value (ArgNumber (S754_zero false)) (m_value m) /\
        o_head o' = [sample_member] ++ m :: [mkMember 1 [97] (JString 2 [120])] /\ value_ok (JObject o') /\
        acquires empty_heap (blocks (JObject o') ++ []) h'
    | None => o' = sample_object /\ acquires empty_heap (arg_blocks (ArgNumber (S754_zero false)) ++ blocks (JObject sample_object) ++ []) h'
    end).
Proof.
  apply (json_object_insert_places (A := plenty) (Before (Some 1)) sample_object [97] (ArgNumber (S754_zero false))
    [sample_member] [mkMember 1 [97] (JString 2 [120])] empty_heap [] sample_heap);
    [exact sample_object_ok|exact I|solve_bytes|reflexivity|by eexists _, []|exact sample_acquires].
Defined.

Lemma json_object_remove_takes_witness : yields (json_object_remove (A := plenty) 0 sample_object sample_heap)
  (fun '(r, o', h') => match r with
    | Some (b, v) => v = JTrue /\ o_head o' = [] ++ [mkMember 1 [97] (JString 2 [120])] /\ value_ok (JObject o') /\ value_ok v /\
        acquires empty_heap (b :: blocks v ++ blocks (JObject o') ++ []) h'
    | None => o' = sample_object /\ acquires empty_heap (blocks (JObject sample_object) ++ []) h'
    end).
Proof.
  apply (json_object_remove_takes (A := plenty) sample_object [] sample_member [mkMember 1 [97] (JString 2 [120])] empty_heap [] sample_heap);
    [exact sample_object_ok|reflexivity|exact sample_acquires].
Defined.

Lemma sample_array_acquires : acquires empty_heap [2; 1] (mkHeap 3 {[1; 2]}).
Proof.
  split; [cbn; set_solver|]. split; [done|]. split; [by apply (bool_decide_unpack _)|]. split; [|cbn; set_solver].
  intros b Hb. cbn. rewrite !elem_of_cons in Hb. set_solver by lia.
Qed.

Lemma json_array_insert_places_witness :
  yields (array_insert (A := plenty) (After None) (mkArray [mkElement 1 (JString 2 [120])] 1) ArgArray (mkHeap 3 {[1; 2]}))
  (fun '(r, a', h') => match r with
    | Some e => arg_value ArgArray (e_value e) /\ a_head a' = [] ++ e :: [mkElement 1 (JString 2 [120])] /\ value_ok (JArray a') /\
        acquires empty_heap (blocks (JArray a') ++ []) h'
    | None => a' = mkArray [mkElement 1 (JString 2 [120])] 1 /\
        acquires empty_heap (arg_blocks ArgArray ++ blocks (JArray (mkArray [mkElement 1 (JString 2 [120])] 1)) ++ []) h'
    end).
Proof.
  apply (json_array_insert_places (A := plenty) (After None) (mkArray [mkElement 1 (JString 2 [120])] 1) ArgArray
    [] [mkElement 1 (JString 2 [120])] empty_heap [] (mkHeap 3 {[1; 2]})).
  - apply value_ok_array. split; [|repeat constructor]. split; [by apply (bool_decide_unpack _)|done].
  - exact I.
  - reflexivity.
  - reflexivity.
  - exact sample_array_acquires.
Defined.

Lemma json_destroy_releases_witness :
  exists h'', json_value_destroy 1 (JString 2 [120]) (mkHeap 3 {[1; 2]}) = Ret h'' /\ live h'' = live empty_heap.
Proof. apply (json_destroy_releases (JString 2 [120]) 1 empty_heap). exact sample_array_acquires. Defined.

Lemma json_object_find_spec_witness : exists r, json_object_find [97] sample_object = Ret r /\
  match r with
  | Some m => m ∈ o_head sample_object /\ cstr (m_name m) = cstr [97]
  | None => forall m, m ∈ o_head sample_object -> cstr (m_name m) <> cstr [97]
  end.
Proof.
  apply (json_object_find_spec sample_object [97]); [|solve_bytes].
  apply (proj1 (proj1 (value_ok_object sample_object) sample_object_ok)).
Defined.

Lemma json_neighbours_witness : json_object_next_value (Some 0) sample_object = Ret (Some (mkMember 1 [97] (JString 2 [120]))) /\
  json_object_prev_value (Some 0) sample_object = Ret None /\
  json_object_next_value None sample_object = Ret (head (o_head sample_object)) /\
  json_object_prev_value None sample_object = Ret (last (o_head sample_object)).
Proof.
  apply (json_neighbours sample_object [] sample_member [mkMember 1 [97] (JString 2 [120])]); [|reflexivity].
  apply (proj1 (proj1 (value_ok_object sample_object) sample_object_ok)).
Defined.
