(* ===== verification/JsonParser.v ===== *)
(** * The JSON parser

    workflow/src/linux/util/json_parser.c, [json_value_parse] and what it
    calls.  The document is a buffer [buf] that ends with the terminator of
    the C string; a cursor is an index.  A negative return value is [Err], and
    a block that is written without bounds in C has its size here. *)

From stdpp Require Import gmap sorting.
From Stdlib Require Import SpecFloat.
From S2P Require Import Prelude Cstdlib Heap Rbtree JsonValue.

#[local] Open Scope Z_scope.
#[local] Set Warnings "-clear-no-such-hyp".
#[local] Arguments cbind {A B} !m k /.

#[local] Abbreviation json_member := (json_member_of json_value).
#[local] Abbreviation json_object := (json_object_of json_value).
#[local] Abbreviation json_element := (json_element_of json_value).
#[local] Abbreviation json_array := (json_array_of json_value).

Inductive outcome (T : Type) : Type :=
| Err (code : Z)
| Ok (x : T).
Arguments Err {T} code.
Arguments Ok {T} x.

Definition JSON_DEPTH_LIMIT : Z := 1024.

(** Writing at the end of what is in a block of [size] bytes. *)
Definition put (size : Z) (str bs : list Z) : comp (list Z) :=
  if blen str + blen bs <=? size then Ret (str ++ bs) else Oob.

Section Text.
Context (buf : list Z).

(** Loops over the text make at most one round per byte. *)
Definition text_rounds : nat := S (length buf).

(** [while (isspace( *cursor )) cursor++;] *)
Fixpoint skip_space (fuel : nat) (cursor : Z) : comp Z :=
  match fuel with
  | O => NoFuel
  | S f =>
      let! c := rd buf cursor in
      if isspace c then skip_space f (cursor + 1) else Ret cursor
  end.

Fixpoint string_length (fuel : nat) (cursor len : Z) : comp (outcome Z) :=
  match fuel with
  | O => NoFuel
  | S f =>
      let! c := rd buf cursor in
      if c =? 34 then Ret (Ok len)
      else if c <? 32 then Ret (Err (-2))
      else
        let cursor := cursor + 1 in
        if c =? 92 then
          let! e := rd buf cursor in
          if e =? 0 then Ret (Err (-2)) else string_length f (cursor + 1) (i32 (len + 1))
        else string_length f cursor (i32 (len + 1))
  end.

Definition json_string_length (cursor : Z) : comp (outcome Z) := string_length text_rounds cursor 0.

Definition hex_value (c : Z) : option Z :=
  if (48 <=? c) && (c <=? 57) then Some (c - 48)
  else if (65 <=? c) && (c <=? 70) then Some (c - 65 + 10)
  else if (97 <=? c) && (c <=? 102) then Some (c - 97 + 10)
  else None.

Fixpoint hex_loop (i : nat) (cursor code : Z) : comp (outcome (Z * Z)) :=
  match i with
  | O => Ret (Ok (code, cursor))
  | S i =>
      let! c := rd buf cursor in
      match hex_value c with
      | Some hex => hex_loop i (cursor + 1) (u32 (u32 (Z.shiftl code 4) + hex))
      | None => Ret (Err (-2))
      end
  end.

Definition parse_json_hex4 (cursor : Z) : comp (outcome (Z * Z)) := hex_loop 4 cursor 0.

Definition utf8_bytes (code : Z) : list Z :=
  if code <=? 127 then [code]
  else if code <=? 2047 then [u8 (Z.lor 192 (Z.shiftr code 6)); u8 (Z.lor 128 (Z.land code 63))]
  else if code <=? 65535 then
    [u8 (Z.lor 224 (Z.shiftr code 12)); u8 (Z.lor 128 (Z.land (Z.shiftr code 6) 63)); u8 (Z.lor 128 (Z.land code 63))]
  else
    [u8 (Z.lor 240 (Z.shiftr code 18)); u8 (Z.lor 128 (Z.land (Z.shiftr code 12) 63));
     u8 (Z.lor 128 (Z.land (Z.shiftr code 6) 63)); u8 (Z.lor 128 (Z.land code 63))].

(** The bytes of the character and the end of the escape. *)
Definition parse_json_unicode (cursor : Z) : comp (outcome (list Z * Z)) :=
  let! r := parse_json_hex4 cursor in
  match r with
  | Err e => Ret (Err e)
  | Ok (code, last) =>
      if (56320 <=? code) && (code <=? 57343) then Ret (Err (-2))
      else if (55296 <=? code) && (code <=? 56319) then
        let! c := rd buf last in
        if negb (c =? 92) then Ret (Err (-2))
        else
          let! c := rd buf (last + 1) in
          if negb (c =? 117) then Ret (Err (-2))
          else
            let! r := parse_json_hex4 (last + 2) in
            match r with
            | Err e => Ret (Err e)
            | Ok (next, last) =>
                if (next <? 56320) || (57343 <? next) then Ret (Err (-2))
                else
                  let code := u32 (Z.lor (Z.shiftl (Z.land code 1023) 10) (Z.land next 1023) + 65536) in
                  Ret (Ok (utf8_bytes code, last))
            end
      else Ret (Ok (utf8_bytes code, last))
  end.

(** The character of a one-letter escape. *)
Definition escaped (c : Z) : option Z :=
  if c =? 34 then Some 34
  else if c =? 92 then Some 92
  else if c =? 47 then Some 47
  else if c =? 98 then Some 8
  else if c =? 102 then Some 12
  else if c =? 110 then Some 10
  else if c =? 114 then Some 13
  else if c =? 116 then Some 9
  else None.

(** [str] is what is written to the block so far. *)
Fixpoint string_loop (fuel : nat) (size cursor : Z) (str : list Z) : comp (outcome (list Z * Z)) :=
  match fuel with
  | O => NoFuel
  | S f =>
      let! c := rd buf cursor in
      if c =? 34 then
        let! _ := put size str [0] in Ret (Ok (str, cursor + 1))
      else if c =? 92 then
        let cursor := cursor + 1 in
        let! c := rd buf cursor in
        match escaped c with
        | Some e => let! str := put size str [e] in string_loop f size (cursor + 1) str
        | None =>
            if c =? 117 then
              let! r := parse_json_unicode (cursor + 1) in
              match r with
              | Err e => Ret (Err e)
              | Ok (bs, cursor) => let! str := put size str bs in string_loop f size cursor str
              end
            else Ret (Err (-2))
        end
      else let! str := put size str [c] in string_loop f size (cursor + 1) str
  end.

Definition parse_json_string (size cursor : Z) : comp (outcome (list Z * Z)) := string_loop text_rounds size cursor [].

Definition parse_json_number (cursor : Z) : comp (outcome (spec_float * Z)) :=
  let! c := rd buf cursor in
  let p := if c =? 45 then cursor + 1 else cursor in
  let! c := rd buf p in
  let! bad := if c =? 48 then let! d := rd buf (p + 1) in Ret (isdigit d || (d =? 88) || (d =? 120)) else Ret false in
  if bad : bool then Ret (Err (-2))
  else
    let text := cstr (drop (Z.to_nat cursor) buf) in
    let '(rest, num) := strtod text in
    let last := cursor + (blen text - blen rest) in
    if last =? cursor then Ret (Err (-2)) else Ret (Ok (num, last)).

(** [strncmp (cursor, text, strlen (text)) == 0] *)
Fixpoint starts_with (cursor : Z) (text : list Z) : comp bool :=
  match text with
  | [] => Ret true
  | t :: text =>
      let! c := rd buf cursor in
      if c =? t then starts_with (cursor + 1) text else Ret false
  end.

(** ** Values

    [value] parses a value at a depth and a position. *)
Section Nested.
Context {A : Allocator} (value : Z -> Z -> heap -> comp (outcome (json_value * Z) * heap)).

(** The loop of [__parse_json_elements]; [l] is the list so far, also when it
    fails. *)
Fixpoint elements_loop (fuel : nat) (depth cursor cnt : Z) (l : list json_element) (h : heap) :
    comp (outcome (Z * Z) * list json_element * heap) :=
  match fuel with
  | O => NoFuel
  | S f =>
      match malloc h with
      | (None, h) => Ret (Err (-1), l, h)
      | (Some b, h) =>
          let! '(r, h) := value depth cursor h in
          match r with
          | Err e => let! h := free b h in Ret (Err e, l, h)
          | Ok (v, cursor) =>
              let l := list_add_tail (mkElement b v) l in
              let cnt := i32 (cnt + 1) in
              let! cursor := skip_space text_rounds cursor in
              let! c := rd buf cursor in
              if c =? 44 then
                let! cursor := skip_space text_rounds (cursor + 1) in
                elements_loop f depth cursor cnt l h
              else if c =? 93 then Ret (Ok (cnt, cursor + 1), l, h)
              else Ret (Err (-2), l, h)
          end
      end
  end.

Definition parse_json_elements (depth cursor : Z) (h : heap) : comp (outcome (Z * Z) * list json_element * heap) :=
  let! cursor := skip_space text_rounds cursor in
  let! c := rd buf cursor in
  if c =? 93 then Ret (Ok (0, cursor + 1), [], h)
  else elements_loop text_rounds depth cursor 0 [] h.

Definition parse_json_array (depth cursor : Z) (h : heap) : comp (outcome (json_array * Z) * heap) :=
  if depth =? JSON_DEPTH_LIMIT then Ret (Err (-3), h)
  else
    let! '(r, l, h) := parse_json_elements (depth + 1) cursor h in
    match r with
    | Err e => let! h := destroy_json_elements l h in Ret (Err e, h)
    | Ok (cnt, last) => Ret (Ok (mkArray l cnt, last), h)
    end.

(** Name, value and end of a member; [size] is the size of the name's block. *)
Definition parse_json_member (size depth cursor : Z) (h : heap) : comp (outcome (list Z * json_value * Z) * heap) :=
  let! r := parse_json_string size cursor in
  match r with
  | Err e => Ret (Err e, h)
  | Ok (name, cursor) =>
      let! cursor := skip_space text_rounds cursor in
      let! c := rd buf cursor in
      if negb (c =? 58) then Ret (Err (-2), h)
      else
        let! cursor := skip_space text_rounds (cursor + 1) in
        let! '(r, h) := value depth cursor h in
        match r with
        | Err e => Ret (Err e, h)
        | Ok (v, cursor) => Ret (Ok (name, v, cursor), h)
        end
  end.

Fixpoint members_loop (fuel : nat) (depth cursor cnt : Z) (o : json_object) (h : heap) :
    comp (outcome (Z * Z) * json_object * heap) :=
  match fuel with
  | O => NoFuel
  | S f =>
      let! c := rd buf cursor in
      if negb (c =? 34) then Ret (Err (-2), o, h)
      else
        let cursor := cursor + 1 in
        let! r := json_string_length cursor in
        match r with
        | Err e => Ret (Err e, o, h)
        | Ok len =>
            match malloc h with
            | (None, h) => Ret (Err (-1), o, h)
            | (Some b, h) =>
                let! '(r, h) := parse_json_member (len + 1) depth cursor h in
                match r with
                | Err e => let! h := free b h in Ret (Err e, o, h)
                | Ok (name, v, cursor) =>
                    let! prev := prev_of m_block None (o_head o) in
                    let! o := insert_json_member (mkMember b name v) (m_block <$> prev) o in
                    let cnt := i32 (cnt + 1) in
                    let! cursor := skip_space text_rounds cursor in
                    let! c := rd buf cursor in
                    if c =? 44 then
                      let! cursor := skip_space text_rounds (cursor + 1) in
                      members_loop f depth cursor cnt o h
                    else if c =? 125 then Ret (Ok (cnt, cursor + 1), o, h)
                    else Ret (Err (-2), o, h)
                end
            end
        end
  end.

Definition parse_json_members (depth cursor : Z) (h : heap) : comp (outcome (Z * Z) * json_object * heap) :=
  let! cursor := skip_space text_rounds cursor in
  let! c := rd buf cursor in
  if c =? 125 then Ret (Ok (0, cursor + 1), empty_object, h)
  else members_loop text_rounds depth cursor 0 empty_object h.

Definition parse_json_object (depth cursor : Z) (h : heap) : comp (outcome (json_object * Z) * heap) :=
  if depth =? JSON_DEPTH_LIMIT then Ret (Err (-3), h)
  else
    let! '(r, o, h) := parse_json_members (depth + 1) cursor h in
    match r with
    | Err e => let! h := destroy_json_members (o_head o) h in Ret (Err e, h)
    | Ok (cnt, last) => Ret (Ok (mkObject (o_head o) (o_root o) cnt, last), h)
    end.

(** One of the three words. *)
Definition parse_word (text : list Z) (v : json_value) (cursor : Z) (h : heap) : comp (outcome (json_value * Z) * heap) :=
  let! ok := starts_with cursor text in
  if ok : bool then Ret (Ok (v, cursor + blen text), h) else Ret (Err (-2), h).

Definition json_value_switch (depth cursor : Z) (h : heap) : comp (outcome (json_value * Z) * heap) :=
  let! c := rd buf cursor in
  if c =? 34 then
    let cursor := cursor + 1 in
    let! r := json_string_length cursor in
    match r with
    | Err e => Ret (Err e, h)
    | Ok len =>
        match malloc h with
        | (None, h) => Ret (Err (-1), h)
        | (Some b, h) =>
            let! r := parse_json_string (len + 1) cursor in
            match r with
            | Err e => let! h := free b h in Ret (Err e, h)
            | Ok (s, last) => Ret (Ok (JString b s, last), h)
            end
        end
    end
  else if (c =? 45) || isdigit c then
    let! r := parse_json_number cursor in
    match r with
    | Err e => Ret (Err e, h)
    | Ok (d, last) => Ret (Ok (JNumber d, last), h)
    end
  else if c =? 123 then
    let! '(r, h) := parse_json_object depth (cursor + 1) h in
    match r with
    | Err e => Ret (Err e, h)
    | Ok (o, last) => Ret (Ok (JObject o, last), h)
    end
  else if c =? 91 then
    let! '(r, h) := parse_json_array depth (cursor + 1) h in
    match r with
    | Err e => Ret (Err e, h)
    | Ok (a, last) => Ret (Ok (JArray a, last), h)
    end
  else if c =? 116 then parse_word [116; 114; 117; 101] JTrue cursor h
  else if c =? 102 then parse_word [102; 97; 108; 115; 101] JFalse cursor h
  else if c =? 110 then parse_word [110; 117; 108; 108] JNull cursor h
  else Ret (Err (-2), h).
End Nested.

(** The fuel bounds the nesting. *)
Fixpoint parse_json_value {A : Allocator} (fuel : nat) (depth cursor : Z) (h : heap) : comp (outcome (json_value * Z) * heap) :=
  match fuel with
  | O => NoFuel
  | S f => json_value_switch (parse_json_value f) depth cursor h
  end.

(** Arrays and objects open at most down to the limit. *)
Definition depth_rounds : nat := 1026.

Definition json_value_parse {A : Allocator} (h : heap) : comp (option (Z * json_value) * heap) :=
  match malloc h with
  | (None, h) => Ret (None, h)
  | (Some b, h) =>
      let! cursor := skip_space text_rounds 0 in
      let! '(r, h) := parse_json_value depth_rounds 0 cursor h in
      match r with
      | Err _ => let! h := free b h in Ret (None, h)
      | Ok (v, cursor) =>
          let! cursor := skip_space text_rounds cursor in
          let! c := rd buf cursor in
          if c =? 0 then Ret (Some (b, v), h)
          else
            let! h := destroy_json_value v h in
            let! h := free b h in
            Ret (None, h)
      end
  end.
End Text.

(** ** Safety *)

Section Safety.
Context (doc : list Z) (Hdoc : Forall is_byte doc) (Hnul : 0 ∉ doc) (Hlen : blen doc < 2 ^ 31 - 1).
#[local] Abbreviation text := (doc ++ [0]).

(** A position in the text, the terminator included. *)
Definition inside (i : Z) : Prop := 0 <= i <= blen doc.

(** More rounds than bytes are left. *)
Definition enough (fuel : nat) (i : Z) : Prop := blen doc - i < Z.of_nat fuel.

Lemma rd_inside i : inside i ->
  exists c, rd text i = Ret c /\ is_byte c /\ (c <> 0 -> inside (i + 1)).
Proof.
  unfold inside. intros Hi. destruct (decide (i = blen doc)) as [->|Hne].
  - exists 0. split; [apply (rd_app_mid doc 0 [])|]. split; [unfold is_byte; lia|done].
  - destruct (rd_in_bounds doc i) as [c Hc]; [lia|]. exists c. rewrite rd_app_l by lia. split; [done|].
    split; [|lia]. apply rd_Ret_inv in Hc as [_ Hc]. rewrite Forall_forall in Hdoc. apply Hdoc. by eapply list_elem_of_lookup_2.
Qed.

Lemma enough_text i : inside i -> enough (text_rounds text) i.
Proof. unfold inside, enough, text_rounds, blen. rewrite length_app. cbn [length]. lia. Qed.

Lemma skip_space_inside fuel : forall i, enough fuel i -> inside i ->
  yields (skip_space text fuel i) (fun j => i <= j /\ inside j).
Proof.
  induction fuel as [|f IH]; intros i Hf Hi; [unfold enough, inside in *; lia|]. cbn [skip_space].
  destruct (rd_inside i Hi) as (c & -> & _ & Hnext). cbn [cbind]. destruct (isspace c) eqn:Es; [|apply yields_Ret; split; [lia|done]].
  assert (c <> 0) as Hc by (intros ->; done). eapply yields_mono; [apply IH; [unfold enough in *; lia|by apply Hnext]|].
  intros j [? ?]. split; [lia|done].
Qed.

Lemma skip_inside i : inside i -> yields (skip_space text (text_rounds text) i) (fun j => i <= j /\ inside j).
Proof. intros Hi. apply skip_space_inside; [by apply enough_text|done]. Qed.

(** [closes i n]: from [i] on the text has [n] characters or escapes and
    then a quote. *)
Inductive closes : Z -> Z -> Prop :=
| closes_quote i : rd text i = Ret 34 -> closes i 0
| closes_char i c n : rd text i = Ret c -> 32 <= c -> c <> 34 -> c <> 92 -> closes (i + 1) n -> closes i (n + 1)
| closes_escape i e n : rd text i = Ret 92 -> rd text (i + 1) = Ret e -> e <> 0 -> closes (i + 2) n -> closes i (n + 1).

Lemma closes_inside i n : closes i n -> 0 <= n /\ 0 <= i /\ i + n < blen doc.
Proof.
  induction 1 as [i H|i c n H ? ? ? _ IH|i e n H ? ? _ IH]; [|apply rd_Ret_inv in H; lia..].
  pose proof (rd_Ret_inv _ _ _ H) as [Hi _]. rewrite blen_app in Hi. change (blen [0]) with 1 in Hi.
  destruct (decide (i = blen doc)) as [->|]; [|lia]. by rewrite (rd_app_mid doc 0 []) in H.
Qed.

Lemma string_length_closes fuel : forall i len, enough fuel i -> inside i -> 0 <= len <= i ->
  yields (string_length text fuel i len) (fun r => match r with Ok m => closes i (m - len) | Err _ => True end).
Proof.
  induction fuel as [|f IH]; intros i len Hf Hi Hl; [unfold enough, inside in *; lia|]. cbn [string_length].
  destruct (rd_inside i Hi) as (c & E & Hc & Hnext). rewrite E. cbn [cbind].
  destruct (Z.eqb_spec c 34) as [->|H34]; [apply yields_Ret; replace (len - len) with 0 by lia; by constructor|].
  destruct (Z.ltb_spec c 32) as [|H32]; [by apply yields_Ret|]. specialize (Hnext ltac:(lia)).
  assert (i32 (len + 1) = len + 1) as Ei by (apply i32_small; unfold inside in *; lia). rewrite Ei.
  destruct (Z.eqb_spec c 92) as [->|H92].
  - destruct (rd_inside (i + 1) Hnext) as (e & Ee & He & Hnext2). rewrite Ee. cbn [cbind].
    destruct (Z.eqb_spec e 0) as [|He0]; [by apply yields_Ret|]. specialize (Hnext2 He0).
    eapply yields_mono; [apply IH; [unfold enough in *; lia|done|lia]|]. intros [|m]; [done|]. intros Hm.
    replace (m - len) with (m - (len + 1) + 1) by lia. eapply closes_escape; eauto. by replace (i + 2) with (i + 1 + 1) by lia.
  - eapply yields_mono; [apply IH; [unfold enough in *; lia|done|lia]|]. intros [|m]; [done|]. intros Hm.
    replace (m - len) with (m - (len + 1) + 1) by lia. eapply closes_char; eauto.
Qed.

Lemma json_string_length_closes i : inside i ->
  yields (json_string_length text i) (fun r => match r with Ok m => closes i m | Err _ => True end).
Proof.
  intros Hi. eapply yields_mono; [apply string_length_closes; [by apply enough_text|done|unfold inside in *; lia]|].
  intros [|m]; [done|]. by rewrite Z.sub_0_r.
Qed.

(** A character that is no quote and no backslash. *)
Lemma closes_next i n c : closes i n -> rd text i = Ret c -> c <> 34 -> c <> 92 -> closes (i + 1) (n - 1).
Proof.
  intros Hc E H34 H92. inversion Hc as [? Hq|? c' m Hq ? ? ? Hm|? e m Hq]; subst; try congruence.
  by replace (m + 1 - 1) with m by lia.
Qed.

Lemma hex_value_char c h : hex_value c = Some h -> 0 <= h < 16 /\ c <> 34 /\ c <> 92.
Proof. unfold hex_value. repeat case_match; intros; simplify_eq; zify_bool; lia. Qed.

Lemma hex_loop_closes k : forall i n code, closes i n ->
  yields (hex_loop text k i code) (fun r =>
    match r with
    | Ok (v, j) => j = i + Z.of_nat k /\ closes j (n - Z.of_nat k)
    | Err _ => True
    end).
Proof.
  induction k as [|k IH]; intros i n code Hc; cbn [hex_loop].
  - apply yields_Ret. rewrite Z.add_0_r, Z.sub_0_r. done.
  - destruct (closes_inside _ _ Hc) as (? & ? & ?). destruct (rd_inside i) as (c & E & _); [unfold inside; lia|]. rewrite E. cbn [cbind].
    destruct (hex_value c) as [h|] eqn:Eh; [|by apply yields_Ret]. apply hex_value_char in Eh as (_ & Hq1 & Hq2).
    eapply yields_mono; [apply (IH _ (n - 1)); by eapply closes_next|]. intros [|[v j]]; [done|]. intros [-> Hj].
    split; [lia|]. by replace (n - Z.of_nat (S k)) with (n - 1 - Z.of_nat k) by lia.
Qed.

Lemma utf8_length code : 1 <= blen (utf8_bytes code) <= 4 /\ (code <= 65535 -> blen (utf8_bytes code) <= 3).
Proof. unfold utf8_bytes. repeat case_match; zify_bool; rewrite ?blen_cons, ?blen_nil; lia. Qed.

Lemma hex_value_range c h : hex_value c = Some h -> 0 <= h < 16.
Proof. intros H%hex_value_char. tauto. Qed.

(** Four hexadecimal digits make a 16-bit code. *)
Lemma hex_loop_range k : forall i code j v, (k <= 8)%nat -> 0 <= code < 16 ^ (4 - Z.of_nat k) -> (k <= 4)%nat ->
  hex_loop text k i code = Ret (Ok (v, j)) -> 0 <= v < 65536.
Proof.
  induction k as [|k IH]; intros i code j v Hk8 Hc Hk; cbn [hex_loop]; [intros [= -> ->]; cbn in Hc; lia|].
  intros H. inv_bind. destruct (hex_value _) as [h|] eqn:Eh; [|discriminate]. apply hex_value_range in Eh.
  apply IH in H; [done|lia| |lia]. assert (16 ^ (4 - Z.of_nat k) = 16 * 16 ^ (4 - Z.of_nat (S k))) as E16.
  { rewrite <- Z.pow_succ_r by lia. f_equal. lia. }
  assert (16 ^ (4 - Z.of_nat (S k)) <= 16 ^ 3) by (apply Z.pow_le_mono_r; lia).
  unfold u32. rewrite Z.shiftl_mul_pow2 by lia. change (2 ^ 4) with 16. rewrite (Z.mod_small (code * 16)) by lia.
  rewrite Z.mod_small by lia. lia.
Qed.

Lemma unicode_closes i n : closes i n ->
  yields (parse_json_unicode text i) (fun r =>
    match r with
    | Ok (bs, j) => i < j /\ exists m, closes j m /\ blen bs + m <= n /\ 1 <= blen bs
    | Err _ => True
    end).
Proof.
  intros Hc. unfold parse_json_unicode, parse_json_hex4. destruct (hex_loop_closes 4 i n 0 Hc) as (r & E & Hr). rewrite E. cbn [cbind].
  destruct r as [|[code last]]; [by apply yields_Ret|]. destruct Hr as [-> Hr]. 
  assert (0 <= code < 65536) by (apply (hex_loop_range 4 i 0 (i + Z.of_nat 4)); [lia|cbn; lia|lia|exact E]). change (Z.of_nat 4) with 4 in *.
  destruct (_ && _); [by apply yields_Ret|]. destruct (utf8_length code) as [Hu1 Hu2].
  destruct (_ && _); [|apply yields_Ret; split; [lia|]; exists (n - 4); split; [exact Hr|]; lia].
  destruct (closes_inside _ _ Hr) as (? & ? & ?). destruct (rd_inside (i + 4)) as (c & Ec & _ & Hin); [unfold inside; lia|]. rewrite Ec. cbn [cbind].
  destruct (Z.eqb_spec c 92) as [->|]; [|by apply yields_Ret]. cbn [negb]. specialize (Hin ltac:(lia)).
  destruct (rd_inside (i + 4 + 1) Hin) as (d & Ed & _). rewrite Ed. cbn [cbind].
  destruct (Z.eqb_spec d 117) as [->|]; [|by apply yields_Ret]. cbn [negb].
  assert (closes (i + 4 + 2) (n - 5)) as Hc2.
  { inversion Hr as [? Hq|? c' m Hq|? e m Hq]; subst; try congruence. by replace (n - 5) with m by lia. }
  destruct (hex_loop_closes 4 _ _ 0 Hc2) as (r & E2 & Hr2). rewrite E2. cbn [cbind].
  destruct r as [|[next last]]; [by apply yields_Ret|]. destruct Hr2 as [-> Hr2]. destruct (_ || _); [by apply yields_Ret|].
  apply yields_Ret. split; [lia|]. exists (n - 9). split; [by replace (n - 9) with (n - 5 - 4) by lia|].
  pose proof (proj1 (utf8_length (u32 (Z.lor (Z.shiftl (Z.land code 1023) 10) (Z.land next 1023) + 65536)))). lia.
Qed.

Lemma utf8_is_bytes code : 0 <= code -> Forall is_byte (utf8_bytes code).
Proof.
  intros Hc. unfold utf8_bytes, u8. repeat case_match; zify_bool; repeat constructor; unfold is_byte;
    try (apply Z.mod_pos_bound; lia); lia.
Qed.

Lemma hex_loop_nonneg k : forall i code j v, 0 <= code -> hex_loop text k i code = Ret (Ok (v, j)) -> 0 <= v.
Proof.
  induction k as [|k IH]; intros i code j v Hc; cbn [hex_loop]; [intros [= -> ->]; done|]. intros H. inv_bind.
  destruct (hex_value _) as [h|]; [|discriminate]. eapply IH; [|exact H]. unfold u32. apply Z.mod_pos_bound. lia.
Qed.

Lemma unicode_bytes i bs j : parse_json_unicode text i = Ret (Ok (bs, j)) -> Forall is_byte bs.
Proof.
  unfold parse_json_unicode. intros H. inv_bind. destruct v as [|[code last]]; [discriminate|].
  apply hex_loop_nonneg in Hb; [|lia]. destruct (_ && _); [discriminate|]. destruct (_ && _); [|injection H as <- <-; by apply utf8_is_bytes].
  inv_bind. destruct (negb _); [discriminate|]. inv_bind. destruct (negb _); [discriminate|]. inv_bind.
  destruct v1 as [|[next last']]; [discriminate|]. destruct (_ || _); [discriminate|]. injection H as <- <-. apply utf8_is_bytes.
  unfold u32. apply Z.mod_pos_bound. lia.
Qed.

Lemma put_fits size str bs : blen str + blen bs <= size -> put size str bs = Ret (str ++ bs).
Proof. intros H. unfold put. by destruct (Z.leb_spec (blen str + blen bs) size); [|lia]. Qed.

(** The string that fits its block: what is written and what is still to come
    leaves room for the terminator. *)
Lemma string_loop_closes fuel : forall size i str n, enough fuel i -> closes i n -> blen str + n < size -> Forall is_byte str ->
  yields (string_loop text fuel size i str) (fun r =>
    match r with
    | Ok (s, j) => i < j /\ inside j /\ Forall is_byte s
    | Err _ => True
    end).
Proof.
  induction fuel as [|f IH]; intros size i str n Hf Hc Hs Hb; [destruct (closes_inside _ _ Hc); unfold enough in *; lia|].
  cbn [string_loop]. destruct (closes_inside _ _ Hc) as (Hn0 & Hi0 & Hin0). inversion Hc as [? Hq|? c m Hq Hc32 Hc34 Hc92 Hm|? e m Hq He He0 Hm]; subst; rewrite Hq; cbn [cbind].
  - cbn [Z.eqb Pos.eqb]. rewrite put_fits by (change (blen [0]) with 1; lia). cbn [cbind]. apply yields_Ret. split; [lia|].
    split; [|done]. unfold inside. lia.
  - destruct (Z.eqb_spec c 34), (Z.eqb_spec c 92); try lia. rewrite put_fits by (change (blen [c]) with 1; lia). cbn [cbind].
    assert (is_byte c) as Hcb by (destruct (rd_inside i) as (c' & E & Hc' & _); [unfold inside; lia|congruence]).
    eapply yields_mono; [apply (IH _ _ _ m); [unfold enough in *; lia|done|rewrite blen_app; change (blen [c]) with 1; lia|]|].
    + rewrite Forall_app, Forall_singleton. done.
    + intros [|[s j]]; [done|]. intros (? & ? & ?). split; [lia|done].
  - cbn [Z.eqb Pos.eqb]. rewrite He. cbn [cbind]. pose proof (closes_inside _ _ Hm) as (? & ? & ?).
    destruct (escaped e) as [x|] eqn:Ex.
    + rewrite put_fits by (change (blen [x]) with 1; lia). cbn [cbind].
      eapply yields_mono; [apply (IH _ _ _ m); [unfold enough in *; lia|by replace (i + 1 + 1) with (i + 2) by lia|rewrite blen_app; change (blen [x]) with 1; lia|]|].
      * rewrite Forall_app, Forall_singleton. split; [done|]. unfold escaped in Ex. repeat case_match; simplify_eq; unfold is_byte; lia.
      * intros [|[s j]]; [done|]. intros (? & ? & ?). split; [lia|done].
    + destruct (Z.eqb_spec e 117) as [->|]; [|by apply yields_Ret]. replace (i + 1 + 1) with (i + 2) by lia.
      destruct (unicode_closes _ _ Hm) as (r & E & Hr). rewrite E. cbn [cbind]. destruct r as [|[bs j]]; [by apply yields_Ret|].
      destruct Hr as (Hij & k & Hk & Hsum & Hpos). pose proof (closes_inside _ _ Hk) as (? & ? & ?). rewrite put_fits by lia. cbn [cbind].
      eapply yields_mono; [apply (IH _ _ _ k); [unfold enough in *; lia|done|rewrite blen_app; lia|]|].
      * rewrite Forall_app. split; [done|]. by eapply unicode_bytes.
      * intros [|[s j']]; [done|]. intros (? & ? & ?). split; [lia|done].
Qed.

Lemma parse_string_closes i n : closes i n ->
  yields (parse_json_string text (n + 1) i) (fun r =>
    match r with
    | Ok (s, j) => i < j /\ inside j /\ Forall is_byte s
    | Err _ => True
    end).
Proof.
  intros Hc. destruct (closes_inside _ _ Hc) as (? & ? & ?). unfold parse_json_string.
  apply (string_loop_closes _ _ _ _ n); [apply enough_text; unfold inside; lia|done|rewrite blen_nil; lia|done].
Qed.

Lemma cstr_drop i : inside i -> cstr (drop (Z.to_nat i) text) = drop (Z.to_nat i) doc.
Proof.
  intros Hi. unfold inside, blen in Hi. rewrite drop_app_le by lia. apply cstr_nul. intros H. apply Hnul.
  by apply subseteq_drop in H.
Qed.

Lemma parse_number_inside i : inside i -> (forall c, rd text i = Ret c -> c <> 0) ->
  yields (parse_json_number text i) (fun r => match r with Ok (_, j) => i < j /\ inside j | Err _ => True end).
Proof.
  intros Hi Hc0. unfold parse_json_number. destruct (rd_inside i Hi) as (c & E & _ & Hnext). specialize (Hc0 c E). rewrite E. cbn [cbind].
  set (p := if c =? 45 then i + 1 else i). assert (inside p) as Hp by (subst p; destruct (c =? 45); auto).
  destruct (rd_inside p Hp) as (d & Ed & _ & Hnext2). rewrite Ed. cbn [cbind].
  assert (yields (if d =? 48 then let! d := rd text (p + 1) in Ret (isdigit d || (d =? 88) || (d =? 120)) else Ret false) (fun _ => True)) as Hbad.
  { destruct (Z.eqb_spec d 48) as [->|]; [|by apply yields_Ret]. destruct (rd_inside (p + 1)) as (x & -> & _); [apply Hnext2; lia|].
    by apply yields_Ret. }
  eapply yields_bind; [exact Hbad|]. intros [|] _; [by apply yields_Ret|]. rewrite cstr_drop by done.
  pose proof (strtod_length (drop (Z.to_nat i) doc)) as Hl. destruct (strtod _) as [rest num]. cbn [fst] in Hl.
  rewrite length_drop in Hl. rewrite blen_drop. unfold inside, blen in *.
  destruct (Z.eqb_spec (i + (Z.max 0 (Z.of_nat (length doc) - Z.of_nat (Z.to_nat i)) - Z.of_nat (length rest))) i); apply yields_Ret; [done|lia].
Qed.

Lemma starts_with_inside w : forall i, inside i -> 0 ∉ w ->
  yields (starts_with text i w) (fun b => b = true -> inside (i + blen w)).
Proof.
  induction w as [|t w IH]; intros i Hi Hw; cbn [starts_with]; [apply yields_Ret; by rewrite blen_nil, Z.add_0_r|].
  apply not_elem_of_cons in Hw as [Ht Hw]. destruct (rd_inside i Hi) as (c & -> & _ & Hnext). cbn [cbind].
  destruct (Z.eqb_spec c t) as [->|]; [|by apply yields_Ret]. eapply yields_mono; [apply IH; [apply Hnext; congruence|done]|].
  intros b Hb Eb. rewrite blen_cons. replace (i + (1 + blen w)) with (i + 1 + blen w) by lia. auto.
Qed.

(** ** Values *)

(** How deep arrays and objects nest. *)
Fixpoint nesting (v : json_value) : Z :=
  match v with
  | JObject (mkObject l _ _) => 1 + foldr (fun m n => Z.max (match m with mkMember _ _ v => nesting v end) n) 0 l
  | JArray (mkArray l _) => 1 + foldr (fun e n => Z.max (match e with mkElement _ v => nesting v end) n) 0 l
  | _ => 0
  end.

Lemma nesting_array l s d : 0 <= d -> Forall (fun e => nesting (e_value e) <= d) l -> nesting (JArray (mkArray l s)) <= 1 + d.
Proof.
  intros Hd Hl. cbn [nesting]. enough (foldr (fun e n => Z.max (match e with mkElement _ v => nesting v end) n) 0 l <= d) by lia.
  induction Hl as [|[b v] l Hv _ IH]; cbn [foldr] in *; [done|]. cbn [e_value] in Hv. lia.
Qed.

Lemma nesting_object l r s d : 0 <= d -> Forall (fun m => nesting (m_value m) <= d) l -> nesting (JObject (mkObject l r s)) <= 1 + d.
Proof.
  intros Hd Hl. cbn [nesting]. enough (foldr (fun m n => Z.max (match m with mkMember _ _ v => nesting v end) n) 0 l <= d) by lia.
  induction Hl as [|[b x v] l Hv _ IH]; cbn [foldr] in *; [done|]. cbn [m_value] in Hv. lia.
Qed.

Section Values.
Context {A : Allocator}.

(** What a parser of values at [depth] does: nothing stays allocated when it
    fails; otherwise the value owns exactly the new blocks. *)
Definition parses (depth : Z) (p : Z -> heap -> comp (outcome (json_value * Z) * heap)) : Prop :=
  forall i h0 rest h, inside i -> acquires h0 rest h ->
  yields (p i h) (fun '(r, h') =>
    match r with
    | Err _ => acquires h0 rest h'
    | Ok (v, j) => value_ok v /\ nesting v <= JSON_DEPTH_LIMIT - depth /\ i < j /\ inside j /\ acquires h0 (blocks v ++ rest) h'
    end).

Definition element_fine (depth : Z) (e : json_element) : Prop := value_ok (e_value e) /\ nesting (e_value e) <= JSON_DEPTH_LIMIT - depth.
Definition member_fine (depth : Z) (m : json_member) : Prop := value_ok (m_value m) /\ nesting (m_value m) <= JSON_DEPTH_LIMIT - depth.

Lemma malloc_fresh h0 bs h : acquires h0 bs h ->
  match malloc h with
  | (Some b, h1) => acquires h0 (b :: bs) h1 /\ (b ∉ bs)
  | (None, h1) => acquires h0 bs h1
  end.
Proof.
  intros H. pose proof (malloc_acquires h (acquires_ok _ _ _ H)) as Hm. destruct (malloc h) as [[b|] h1].
  - assert (acquires h0 (b :: bs) h1) as H1 by (eapply acquires_perm; [|by eapply acquires_trans]; by rewrite Permutation_app_comm).
    split; [done|]. destruct H1 as (_ & _ & Hnd & _). by apply NoDup_cons in Hnd as [? _].
  - rewrite <- (app_nil_r bs). by eapply acquires_trans.
Qed.

Lemma elements_loop_spec value depth : parses depth (value depth) ->
  forall fuel i cnt l h0 rest h, enough fuel i -> inside i -> acquires h0 (flat_map element_blocks l ++ rest) h ->
  Forall (element_fine depth) l -> cnt = i32 (Z.of_nat (length l)) ->
  yields (elements_loop text value fuel depth i cnt l h) (fun '(r, l', h') =>
    acquires h0 (flat_map element_blocks l' ++ rest) h' /\ Forall (element_fine depth) l' /\
    match r with
    | Err _ => True
    | Ok (cnt', j) => cnt' = i32 (Z.of_nat (length l')) /\ i < j /\ inside j
    end).
Proof.
  intros Hvalue. induction fuel as [|f IH]; intros i cnt l h0 rest h Hf Hi H Hl Hcnt; [unfold enough, inside in *; lia|].
  cbn [elements_loop]. pose proof (malloc_fresh _ _ _ H) as Hm. destruct (malloc h) as [[b|] h1]; [|by apply yields_Ret].
  destruct Hm as [H1 _]. eapply yields_bind; [by apply (Hvalue i h0 (b :: flat_map element_blocks l ++ rest) h1)|]. intros [[e|[v j]] h2]; cbn beta iota.
  { intros H2. eapply yields_bind; [by apply free_first|]. intros h3 H3. by apply yields_Ret. }
  intros (Hv & Hn & Hij & Hj & H2). unfold list_add_tail. set (l2 := l ++ [mkElement b v]).
  assert (acquires h0 (flat_map element_blocks l2 ++ rest) h2) as H3.
  { eapply acquires_perm; [|exact H2]. subst l2. rewrite flat_map_app. cbn [flat_map element_blocks e_value e_block]. solve_Permutation. }
  assert (Forall (element_fine depth) l2) as Hl2 by (apply Forall_app; split; [done|by apply Forall_singleton]).
  assert (i32 (cnt + 1) = i32 (Z.of_nat (length l2))) as Hcnt2 by (subst cnt l2; rewrite i32_add, length_app; f_equal; cbn [length]; lia).
  eapply yields_bind; [by apply skip_inside|]. intros k [Hk1 Hk2]. destruct (rd_inside k Hk2) as (c & -> & _ & Hnext). cbn [cbind].
  destruct (Z.eqb_spec c 44) as [->|]; [|destruct (Z.eqb_spec c 93) as [->|]; apply yields_Ret; [|done]].
  - eapply yields_bind; [apply skip_inside, Hnext; lia|]. intros k2 [Hk3 Hk4].
    eapply yields_mono; [apply (IH k2 _ l2 h0 rest h2); [unfold enough in *; lia|done..]|].
    intros [[[e|[cnt' j']] l'] h']; [done|]. intros (? & ? & ? & ? & ?).
    split; [done|]. split; [done|]. split; [done|]. split; [lia|done].
  - split; [done|]. split; [done|]. split; [done|]. split; [lia|]. apply Hnext. lia.
Qed.

(** Every block of a value is there once; so are the blocks of the entries. *)
Lemma nodup_elements l rest : NoDup (flat_map element_blocks l ++ rest) -> NoDup (e_block <$> l).
Proof.
  induction l as [|e l IH]; cbn [flat_map fmap list_fmap]; [constructor|]. rewrite <- app_assoc. intros Hnd.
  apply NoDup_app in Hnd as (_ & Hout & Hnd). constructor; [|by apply IH]. intros (e' & Ee & He')%list_elem_of_fmap.
  apply (Hout (e_block e)); [unfold element_blocks; set_solver|]. apply elem_of_app; left. apply list_elem_of_In, in_flat_map.
  exists e'. split; [by apply list_elem_of_In|]. apply list_elem_of_In. unfold element_blocks. set_solver.
Qed.

Lemma json_array_spec value depth : 0 <= depth <= JSON_DEPTH_LIMIT ->
  (depth < JSON_DEPTH_LIMIT -> parses (depth + 1) (value (depth + 1))) ->
  forall i h0 rest h, inside i -> acquires h0 rest h ->
  yields (parse_json_array text value depth i h) (fun '(r, h') =>
    match r with
    | Err _ => acquires h0 rest h'
    | Ok (a, j) => value_ok (JArray a) /\ nesting (JArray a) <= JSON_DEPTH_LIMIT - depth /\ i < j /\ inside j /\
        acquires h0 (blocks (JArray a) ++ rest) h'
    end).
Proof.
  intros Hd Hvalue i h0 rest h Hi H. unfold parse_json_array. destruct (Z.eqb_spec depth JSON_DEPTH_LIMIT); [by apply yields_Ret|].
  specialize (Hvalue ltac:(lia)). eapply (yields_bind (fun '(r, l, h') =>
    acquires h0 (flat_map element_blocks l ++ rest) h' /\ Forall (element_fine (depth + 1)) l /\
    match r with Err _ => True | Ok (cnt, j) => cnt = i32 (Z.of_nat (length l)) /\ i < j /\ inside j end)).
  - unfold parse_json_elements. eapply yields_bind; [by apply skip_inside|]. intros k [Hk1 Hk2].
    destruct (rd_inside k Hk2) as (c & -> & _ & Hnext). cbn [cbind]. destruct (Z.eqb_spec c 93) as [->|].
    + apply yields_Ret. split; [done|]. split; [constructor|]. split; [done|]. split; [lia|]. apply Hnext. lia.
    + eapply yields_mono; [eapply (elements_loop_spec value _ Hvalue _ k 0 [] h0 rest h); [by apply enough_text|done|done|constructor|done]|].
      intros [[[e|[cnt j]] l] h']; [done|]. intros (? & ? & ? & ? & ?).
      split; [done|]. split; [done|]. split; [done|]. split; [lia|done].
  - intros [[[e|[cnt j]] l] h'] (H1 & Hl & Hr).
    + eapply yields_bind; [by apply destroy_elements_frees|]. intros h2 H2. by apply yields_Ret.
    + destruct Hr as (-> & Hij & Hj). apply yields_Ret. split; [|split; [|split; [done|split; [done|by rewrite blocks_array]]]].
      * apply value_ok_array. cbn [a_head]. split; [split; [|done]|eapply Forall_impl; [exact Hl|by intros ? [? ?]]].
        destruct H1 as (_ & _ & Hnd & _). by eapply nodup_elements.
      * replace (JSON_DEPTH_LIMIT - depth) with (1 + (JSON_DEPTH_LIMIT - (depth + 1))) by lia.
        apply nesting_array; [lia|]. eapply Forall_impl; [exact Hl|by intros ? [? ?]].
Qed.

(** While an object is parsed its size field is not set. *)
Lemma insert_search_size {V : Type} fuel : forall name link cur (o : json_object_of V) s,
  insert_search fuel name link cur (mkObject (o_head o) (o_root o) s) = insert_search fuel name link cur o.
Proof.
  induction fuel as [|f IH]; intros name link [p|] o s; try done. cbn [insert_search o_head o_root].
  destruct (list_entry m_block p (o_head o)); try done. cbn [cbind]. destruct (load p (o_root o)); try done. cbn [cbind].
  destruct (_ <? 0); apply IH.
Qed.

Lemma insert_member_size {V : Type} memb pos (o : json_object_of V) s :
  insert_json_member memb pos o =
    let! o' := insert_json_member memb pos (mkObject (o_head o) (o_root o) s) in Ret (mkObject (o_head o') (o_root o') (o_size o)).
Proof.
  unfold insert_json_member. cbn [o_head o_root o_size]. rewrite insert_search_size.
  destruct (insert_search _ _ _ _ _); try done. cbn [cbind]. destruct (rb_link_node _ _ _); try done. cbn [cbind].
  destruct (rb_insert_color _ _); try done. cbn [cbind]. by destruct (list_add _ _ _ _).
Qed.

Lemma append_member_spec {V : Type} (o : json_object_of V) cnt memb : object_ok (mkObject (o_head o) (o_root o) cnt) ->
  (m_block memb ∉ m_block <$> o_head o) -> Forall is_byte (m_name memb) ->
  yields (let! prev := prev_of m_block None (o_head o) in insert_json_member memb (m_block <$> prev) o)
    (fun o' => object_ok (mkObject (o_head o') (o_root o') (i32 (cnt + 1))) /\ o_head o' = o_head o ++ [memb]).
Proof.
  intros Hok Hfresh Hname. pose proof Hok as (Hnd & _). cbn [o_head] in Hnd.
  destruct (place_at_position m_block Append (o_head o) []) as (pos & E & Hpos); [by rewrite app_nil_r|done|].
  cbn [place_position] in E. rewrite app_nil_r in E. apply cbind_Ret_inv in E as (prev & -> & [= <-]). cbn [cbind].
  rewrite (insert_member_size _ _ _ cnt).
  destruct (insert_member_at (mkObject (o_head o) (o_root o) cnt) memb (m_block <$> prev) (o_head o) []) as (o' & -> & Hok' & El & Es);
    cbn [o_head]; [done|by rewrite app_nil_r|done|done|done|].
  cbn [cbind]. apply yields_Ret. cbn [o_head o_root o_size] in *. done.
Qed.

Lemma parse_member_spec value depth : parses depth (value depth) ->
  forall n i h0 rest h, closes i n -> acquires h0 rest h ->
  yields (parse_json_member text value (n + 1) depth i h) (fun '(r, h') =>
    match r with
    | Err _ => acquires h0 rest h'
    | Ok (name, v, j) => Forall is_byte name /\ value_ok v /\ nesting v <= JSON_DEPTH_LIMIT - depth /\ i < j /\ inside j /\
        acquires h0 (blocks v ++ rest) h'
    end).
Proof.
  intros Hvalue n i h0 rest h Hc H. unfold parse_json_member.
  eapply yields_bind; [by apply parse_string_closes|]. intros [e|[name k]]; cbn beta iota; [intros _; by apply yields_Ret|].
  intros (Hik & Hk & Hname). eapply yields_bind; [by apply skip_inside|]. intros k1 [Hk1 Hk1i].
  destruct (rd_inside k1 Hk1i) as (c & -> & _ & Hnext). cbn [cbind]. destruct (Z.eqb_spec c 58) as [->|]; [|by apply yields_Ret].
  cbn [negb]. eapply yields_bind; [apply skip_inside, Hnext; lia|]. intros k2 [Hk2 Hk2i].
  eapply yields_bind; [by apply (Hvalue k2 h0 rest h)|]. intros [[e|[v j]] h1]; cbn beta iota; [intros H1; by apply yields_Ret|].
  intros (Hv & Hn & Hij & Hj & H1). apply yields_Ret. split; [done|]. split; [done|]. split; [done|]. split; [lia|done].
Qed.

(** The state of the members' loop. *)
Definition object_so_far (depth cnt : Z) (o : json_object) : Prop :=
  object_ok (mkObject (o_head o) (o_root o) cnt) /\ Forall (member_fine depth) (o_head o).

Lemma members_loop_spec value depth : parses depth (value depth) ->
  forall fuel i cnt o h0 rest h, enough fuel i -> inside i -> acquires h0 (flat_map member_blocks (o_head o) ++ rest) h ->
  object_so_far depth cnt o ->
  yields (members_loop text value fuel depth i cnt o h) (fun '(r, o', h') =>
    acquires h0 (flat_map member_blocks (o_head o') ++ rest) h' /\
    match r with
    | Err _ => True
    | Ok (cnt', j) => object_so_far depth cnt' o' /\ i < j /\ inside j
    end).
Proof.
  intros Hvalue. induction fuel as [|f IH]; intros i cnt o h0 rest h Hf Hi H [Hok Hfine]; [unfold enough, inside in *; lia|].
  cbn [members_loop]. destruct (rd_inside i Hi) as (c & -> & _ & Hnext). cbn [cbind].
  destruct (Z.eqb_spec c 34) as [->|]; cbn [negb]; [|by apply yields_Ret].
  eapply yields_bind; [apply json_string_length_closes, Hnext; lia|]. intros [e|n]; [intros _; by apply yields_Ret|]. intros Hc.
  pose proof (malloc_fresh _ _ _ H) as Hm. destruct (malloc h) as [[b|] h1]; [|by apply yields_Ret]. destruct Hm as [H1 Hb].
  eapply yields_bind; [by apply (parse_member_spec value depth Hvalue n (i + 1) h0 (b :: flat_map member_blocks (o_head o) ++ rest) h1)|].
  intros [[e|[[name v] j]] h2]; cbn beta iota.
  { intros H2. eapply yields_bind; [by apply free_first|]. intros h3 H3. by apply yields_Ret. }
  intros (Hname & Hv & Hn & Hij & Hj & H2).
  assert (b ∉ m_block <$> o_head o) as Hfresh by (apply member_blocks_fresh; rewrite blocks_object; set_solver).
  destruct (append_member_spec o cnt (mkMember b name v) Hok Hfresh Hname) as (o2 & E & Hok2 & El).
  apply cbind_Ret_inv in E as (prev & -> & E). cbn [cbind]. rewrite E. cbn [cbind].
  assert (acquires h0 (flat_map member_blocks (o_head o2) ++ rest) h2) as H3.
  { eapply acquires_perm; [|exact H2]. rewrite El, flat_map_app. cbn [flat_map member_blocks m_value m_block]. solve_Permutation. }
  assert (object_so_far depth (i32 (cnt + 1)) o2) as Hso2.
  { split; [done|]. rewrite El, Forall_app, Forall_singleton. done. }
  eapply yields_bind; [by apply skip_inside|]. intros k [Hk1 Hk2]. destruct (rd_inside k Hk2) as (c & -> & _ & Hnext2). cbn [cbind].
  destruct (Z.eqb_spec c 44) as [->|]; [|destruct (Z.eqb_spec c 125) as [->|]; apply yields_Ret; [|done]].
  - eapply yields_bind; [apply skip_inside, Hnext2; lia|]. intros k2 [Hk3 Hk4].
    eapply yields_mono; [apply (IH k2 _ o2 h0 rest h2); [unfold enough in *; lia|done..]|].
    intros [[[e|[cnt' j']] o'] h']; [done|]. intros (? & ? & ? & ?). split; [done|]. split; [done|]. split; [lia|done].
  - split; [done|]. split; [done|]. split; [lia|]. apply Hnext2. lia.
Qed.

Lemma parse_object_spec value depth : 0 <= depth <= JSON_DEPTH_LIMIT ->
  (depth < JSON_DEPTH_LIMIT -> parses (depth + 1) (value (depth + 1))) ->
  forall i h0 rest h, inside i -> acquires h0 rest h ->
  yields (parse_json_object text value depth i h) (fun '(r, h') =>
    match r with
    | Err _ => acquires h0 rest h'
    | Ok (o, j) => value_ok (JObject o) /\ nesting (JObject o) <= JSON_DEPTH_LIMIT - depth /\ i < j /\ inside j /\
        acquires h0 (blocks (JObject o) ++ rest) h'
    end).
Proof.
  intros Hd Hvalue i h0 rest h Hi H. unfold parse_json_object. destruct (Z.eqb_spec depth JSON_DEPTH_LIMIT); [by apply yields_Ret|].
  specialize (Hvalue ltac:(lia)). eapply (yields_bind (fun '(r, o, h') =>
    acquires h0 (flat_map member_blocks (o_head o) ++ rest) h' /\
    match r with Err _ => True | Ok (cnt, j) => object_so_far (depth + 1) cnt o /\ i < j /\ inside j end)).
  - unfold parse_json_members. eapply yields_bind; [by apply skip_inside|]. intros k [Hk1 Hk2].
    assert (object_so_far (depth + 1) 0 empty_object) as Hempty by (split; [apply empty_object_ok|constructor]).
    destruct (rd_inside k Hk2) as (c & -> & _ & Hnext). cbn [cbind]. destruct (Z.eqb_spec c 125) as [->|].
    + apply yields_Ret. split; [done|]. split; [done|]. split; [lia|]. apply Hnext. lia.
    + eapply yields_mono; [eapply (members_loop_spec value _ Hvalue _ k 0 empty_object h0 rest h); [by apply enough_text|done..]|].
      intros [[[e|[cnt j]] o] h']; [done|]. intros (? & ? & ? & ?). split; [done|]. split; [done|]. split; [lia|done].
  - intros [[[e|[cnt j]] o] h'] (H1 & Hr).
    + eapply yields_bind; [by apply destroy_members_frees|]. intros h2 H2. by apply yields_Ret.
    + destruct Hr as ([Hok Hfine] & Hij & Hj). apply yields_Ret. split; [|split; [|split; [done|split; [done|by rewrite blocks_object]]]].
      * apply value_ok_object. split; [done|]. eapply Forall_impl; [exact Hfine|by intros ? [? ?]].
      * replace (JSON_DEPTH_LIMIT - depth) with (1 + (JSON_DEPTH_LIMIT - (depth + 1))) by lia.
        apply nesting_object; [lia|]. eapply Forall_impl; [exact Hfine|by intros ? [? ?]].
Qed.

Lemma parse_word_spec w v depth i h0 rest h : inside i -> acquires h0 rest h -> 0 ∉ w -> 0 < blen w -> value_ok v -> blocks v = [] ->
  nesting v = 0 -> 0 <= depth <= JSON_DEPTH_LIMIT ->
  yields (parse_word text w v i h) (fun '(r, h') =>
    match r with
    | Err _ => acquires h0 rest h'
    | Ok (v', j) => value_ok v' /\ nesting v' <= JSON_DEPTH_LIMIT - depth /\ i < j /\ inside j /\ acquires h0 (blocks v' ++ rest) h'
    end).
Proof.
  intros Hi H Hw Hlen2 Hv Hb Hn Hd. unfold parse_word. eapply yields_bind; [by apply starts_with_inside|].
  intros [|] Hin; apply yields_Ret; [|done]. split; [done|]. split; [lia|]. split; [lia|]. split; [by apply Hin|]. by rewrite Hb.
Qed.

Lemma value_switch_spec value depth : 0 <= depth <= JSON_DEPTH_LIMIT ->
  (depth < JSON_DEPTH_LIMIT -> parses (depth + 1) (value (depth + 1))) -> parses depth (json_value_switch text value depth).
Proof.
  intros Hd Hvalue i h0 rest h Hi H. unfold json_value_switch. destruct (rd_inside i Hi) as (c & E & _ & Hnext). rewrite E. cbn [cbind].
  destruct (Z.eqb_spec c 34) as [->|].
  { eapply yields_bind; [apply json_string_length_closes, Hnext; lia|]. intros [e|n]; [intros _; by apply yields_Ret|]. intros Hc.
    pose proof (malloc_fresh _ _ _ H) as Hm. destruct (malloc h) as [[b|] h1]; [|by apply yields_Ret]. destruct Hm as [H1 _].
    eapply yields_bind; [by apply parse_string_closes|]. intros [e|[s j]]; cbn beta iota.
    - intros _. eapply yields_bind; [by apply free_first|]. intros h2 H2. by apply yields_Ret.
    - intros (Hij & Hj & _). apply yields_Ret. split; [done|]. split; [cbn; lia|]. split; [lia|done]. }
  destruct ((c =? 45) || isdigit c) eqn:Enum.
  { eapply yields_bind; [apply parse_number_inside; [done|]|].
    - intros c' E'. rewrite E in E'. injection E' as <-. by intros ->.
    - intros [e|[d j]]; cbn beta iota; intros Hr; apply yields_Ret; [done|]. destruct Hr. split; [done|]. split; [cbn; lia|done]. }
  destruct (Z.eqb_spec c 123) as [->|].
  { eapply yields_bind; [apply (parse_object_spec value depth Hd Hvalue (i + 1) h0 rest h); [apply Hnext; lia|done]|].
    intros [[e|[o j]] h1]; cbn beta iota; intros H1; apply yields_Ret; [done|]. destruct H1 as (? & ? & ? & ? & ?).
    split; [done|]. split; [done|]. split; [lia|done]. }
  destruct (Z.eqb_spec c 91) as [->|].
  { eapply yields_bind; [apply (json_array_spec value depth Hd Hvalue (i + 1) h0 rest h); [apply Hnext; lia|done]|].
    intros [[e|[a j]] h1]; cbn beta iota; intros H1; apply yields_Ret; [done|]. destruct H1 as (? & ? & ? & ? & ?).
    split; [done|]. split; [done|]. split; [lia|done]. }
  destruct (Z.eqb_spec c 116); [apply parse_word_spec; try done; set_solver|].
  destruct (Z.eqb_spec c 102); [apply parse_word_spec; try done; set_solver|].
  destruct (Z.eqb_spec c 110); [apply parse_word_spec; try done; set_solver|]. by apply yields_Ret.
Qed.

Lemma parse_value_spec fuel : forall depth, 0 <= depth <= JSON_DEPTH_LIMIT -> JSON_DEPTH_LIMIT - depth < Z.of_nat fuel ->
  parses depth (parse_json_value text fuel depth).
Proof.
  induction fuel as [|f IH]; intros depth Hd Hf; [lia|]. cbn [parse_json_value].
  intros i h0 rest h Hi H. apply value_switch_spec; try done. intros Hlt. apply IH; lia.
Qed.
End Values.
End Safety.

(** ** Theorems *)

(** C1: [json_value_parse] is safe on every document: it returns, reads nothing
    behind the terminator, writes strings and names only inside their blocks,
    and frees nothing twice.  When it returns NULL no block stays allocated;
    otherwise the value is well-formed (lists and trees of all objects agree),
    nests at most 1024 deep, and owns exactly the blocks that were
    allocated. *)
Theorem json_parse_safe {A : Allocator} doc h : Forall is_byte doc -> 0 ∉ doc -> blen doc < 2 ^ 31 - 1 -> heap_ok h ->
  exists r h', json_value_parse (doc ++ [0]) h = Ret (r, h') /\
    match r with
    | None => live h' = live h
    | Some (b, v) => value_ok v /\ nesting v <= JSON_DEPTH_LIMIT /\ acquires h (blocks v ++ [b]) h'
    end.
Proof.
  intros Hdoc Hnul Hlen Hh.
  enough (yields (json_value_parse (doc ++ [0]) h) (fun '(r, h') =>
    match r with
    | None => acquires h [] h'
    | Some (b, v) => value_ok v /\ nesting v <= JSON_DEPTH_LIMIT /\ acquires h (blocks v ++ [b]) h'
    end)) as ([r h'] & E & Hr).
  { exists r, h'. split; [done|]. destruct r as [[b v]|]; [done|]. destruct Hr as (-> & _). set_solver. }
  unfold json_value_parse. pose proof (malloc_fresh h [] h (acquires_nil h Hh)) as Hm. destruct (malloc h) as [[b|] h1]; [|by apply yields_Ret].
  destruct Hm as [H1 _]. eapply yields_bind; [apply (skip_inside doc Hdoc 0); unfold inside; pose proof (blen_nonneg doc); lia|].
  intros i [_ Hi]. eapply yields_bind; [by apply (parse_value_spec doc Hdoc Hnul Hlen depth_rounds 0 ltac:(done) ltac:(done) i h [b])|].
  intros [[e|[v j]] h2]; cbn beta iota.
  - intros H2. eapply yields_bind; [by apply (free_first h b [])|]. intros h3 H3. by apply yields_Ret.
  - intros (Hv & Hn & _ & Hj & H2). eapply yields_bind; [by apply (skip_inside doc Hdoc j)|]. intros k [_ Hk].
    destruct (rd_inside doc Hdoc k Hk) as (c & -> & _). cbn [cbind]. rewrite Z.sub_0_r in Hn. destruct (c =? 0); [by apply yields_Ret|].
    eapply yields_bind; [by apply destroy_frees|]. intros h3 H3. eapply yields_bind; [by apply (free_first h b [])|].
    intros h4 H4. by apply yields_Ret.
Qed.

(** Too many brackets fail, whatever follows. *)
Lemma brackets_fail {A : Allocator} doc (Hdoc : Forall is_byte doc) (Hnul : 0 ∉ doc) (Hlen : blen doc < 2 ^ 31 - 1) fuel :
  forall depth n i t h0 rest h, 0 <= depth <= JSON_DEPTH_LIMIT -> JSON_DEPTH_LIMIT - depth < Z.of_nat n ->
  JSON_DEPTH_LIMIT - depth < Z.of_nat fuel -> at_pos (doc ++ [0]) i (replicate n 91 ++ t) -> acquires h0 rest h ->
  yields (parse_json_value (doc ++ [0]) fuel depth i h) (fun '(r, h') => exists e, r = Err e /\ acquires h0 rest h').
Proof.
  induction fuel as [|f IH]; intros depth n i t h0 rest h Hd Hn Hf Hp H; [lia|]. cbn [parse_json_value]. unfold json_value_switch.
  destruct n as [|n]; [lia|]. cbn [replicate app] in Hp. rewrite (at_pos_rd _ _ _ _ Hp). cbn [Z.eqb Pos.eqb cbind orb].
  change (isdigit 91) with false. cbn iota. apply at_pos_next in Hp. unfold parse_json_array.
  destruct (Z.eqb_spec depth JSON_DEPTH_LIMIT); [apply yields_Ret; eauto|]. destruct n as [|n]; [lia|]. cbn [replicate app] in Hp.
  unfold parse_json_elements. unfold text_rounds at 1. cbn [skip_space]. rewrite (at_pos_rd _ _ _ _ Hp). cbn [cbind].
  change (isspace 91) with false. cbn iota. cbn [cbind]. rewrite (at_pos_rd _ _ _ _ Hp). cbn [Z.eqb Pos.eqb cbind].
  unfold text_rounds. cbn [elements_loop]. pose proof (malloc_fresh _ _ _ H) as Hm. destruct (malloc h) as [[b|] h1]; cbn [cbind].
  - destruct Hm as [H1 _]. destruct (IH (depth + 1) (S n) (i + 1) t h0 (b :: rest) h1) as ([r h2] & -> & e & -> & H2); [lia|lia|lia|exact Hp|exact H1|].
    cbn [cbind]. destruct (free_first _ _ _ _ H2) as (h3 & -> & H3). apply yields_Ret. eauto.
  - apply yields_Ret. eauto.
Qed.

(** C39: a document that opens more than 1024 arrays is refused: NULL is
    returned and nothing stays allocated, whatever follows the brackets. *)
Theorem json_depth_limit {A : Allocator} n t h : Forall is_byte t -> 0 ∉ t -> (1025 <= n)%nat ->
  Z.of_nat n + blen t < 2 ^ 31 - 1 -> heap_ok h ->
  exists h', json_value_parse ((replicate n 91 ++ t) ++ [0]) h = Ret (None, h') /\ live h' = live h.
Proof.
  intros Ht H0 Hn Hlen Hh.
  assert (Forall is_byte (replicate n 91 ++ t)) as Hdoc by (apply Forall_app; split; [by apply Forall_replicate; unfold is_byte|done]).
  assert (0 ∉ replicate n 91 ++ t) as Hnul by (intros [H%elem_of_replicate|H]%elem_of_app; [by destruct H|done]).
  assert (blen (replicate n 91 ++ t) < 2 ^ 31 - 1) as Hlen2 by (rewrite blen_app; unfold blen at 1; rewrite length_replicate; lia).
  unfold json_value_parse. pose proof (malloc_fresh h [] h (acquires_nil h Hh)) as Hm.
  destruct (malloc h) as [[b|] h1]; [|eexists; split; [done|]; destruct Hm as (-> & _); set_solver]. destruct Hm as [H1 _].
  pose proof (at_pos_0 ((replicate n 91 ++ t) ++ [0])) as Hp. rewrite <- app_assoc in Hp at 2.
  assert (skip_space ((replicate n 91 ++ t) ++ [0]) (text_rounds ((replicate n 91 ++ t) ++ [0])) 0 = Ret 0) as ->.
  { destruct n as [|n]; [lia|]. unfold text_rounds. cbn [skip_space]. by rewrite (at_pos_rd _ _ _ _ Hp). }
  cbn [cbind]. destruct (brackets_fail _ Hdoc Hnul Hlen2 depth_rounds 0 n 0 (t ++ [0]) h [b] h1) as ([r h2] & -> & e & -> & H2);
    [done|unfold JSON_DEPTH_LIMIT; lia|done|exact Hp|done|].
  cbn [cbind]. destruct (free_first h b [] h2 H2) as (h3 & -> & (H3 & _)). exists h3. split; [done|]. rewrite H3. set_solver.
Qed.

(** ** Unicode escapes *)

(** The UTF-8 form of a code point. *)
Definition utf8 (code : Z) : list Z :=
  if code <? 128 then [code]
  else if code <? 2048 then [192 + code / 64; 128 + code mod 64]
  else if code <? 65536 then [224 + code / 4096; 128 + code / 64 mod 64; 128 + code mod 64]
  else [240 + code / 262144; 128 + code / 4096 mod 64; 128 + code / 64 mod 64; 128 + code mod 64].

(** A hexadecimal digit, in either case, and its value. *)
Inductive hex_char : Z -> Z -> Prop :=
| hex_dec d : 0 <= d < 10 -> hex_char (48 + d) d
| hex_lower d : 10 <= d < 16 -> hex_char (97 + (d - 10)) d
| hex_upper d : 10 <= d < 16 -> hex_char (65 + (d - 10)) d.

(** Four digits of a UTF-16 unit. *)
Definition hex4_text (txt : list Z) (unit : Z) : Prop :=
  exists a b c d x y z w, txt = [a; b; c; d] /\ hex_char a x /\ hex_char b y /\ hex_char c z /\ hex_char d w /\
    unit = ((x * 16 + y) * 16 + z) * 16 + w.

(** Any escape of a code point: the digits in either case. *)
Definition escapes (txt : list Z) (code : Z) : Prop :=
  code < 65536 /\ hex4_text txt code \/
  65536 <= code /\ exists hi lo, hex4_text hi (55296 + (code - 65536) / 1024) /\
    hex4_text lo (56320 + (code - 65536) mod 1024) /\ txt = hi ++ [92; 117] ++ lo.

Lemma hex_value_iff c v : hex_value c = Some v <-> hex_char c v.
Proof.
  unfold hex_value. split.
  - intros H.
    destruct (Z.leb_spec 48 c), (Z.leb_spec c 57), (Z.leb_spec 65 c), (Z.leb_spec c 70),
      (Z.leb_spec 97 c), (Z.leb_spec c 102); cbn [andb] in H; try lia; try discriminate; injection H as <-.
    all: first
      [ (pose proof (hex_dec (c - 48) ltac:(lia)) as X; by replace (48 + (c - 48)) with c in X by lia)
      | (pose proof (hex_upper (c - 65 + 10) ltac:(lia)) as X; by replace (65 + (c - 65 + 10 - 10)) with c in X by lia)
      | (pose proof (hex_lower (c - 97 + 10) ltac:(lia)) as X; by replace (97 + (c - 97 + 10 - 10)) with c in X by lia) ].
  - intros []; repeat (zcase; cbn [andb]); f_equal; lia.
Qed.

Lemma hex_char_range c v : hex_char c v -> 0 <= v < 16.
Proof. intros []; lia. Qed.

Lemma hex_loop_step buf k i code h c l : at_pos buf i (c :: l) -> hex_char c h ->
  hex_loop buf (S k) i code = hex_loop buf k (i + 1) (u32 (u32 (Z.shiftl code 4) + h)).
Proof.
  intros Hp Hh. cbn [hex_loop]. rewrite (at_pos_rd _ _ _ _ Hp). cbn [cbind]. apply hex_value_iff in Hh. by rewrite Hh.
Qed.

Lemma hex_shift code h : 0 <= code < 2 ^ 28 -> 0 <= h < 16 -> u32 (u32 (Z.shiftl code 4) + h) = 16 * code + h.
Proof.
  intros Hc Hh. unfold u32. rewrite Z.shiftl_mul_pow2 by lia. change (2 ^ 4) with 16. rewrite (Z.mod_small (code * 16)) by lia.
  rewrite Z.mod_small by lia. lia.
Qed.

Lemma hex4_text_read buf i txt unit t : hex4_text txt unit -> at_pos buf i (txt ++ t) ->
  parse_json_hex4 buf i = Ret (Ok (unit, i + 4)) /\ at_pos buf (i + 4) t /\ 0 <= unit < 65536.
Proof.
  intros (a & b & c & d & x & y & z & w & -> & Hx & Hy & Hz & Hw & ->) H0.
  pose proof (hex_char_range _ _ Hx). pose proof (hex_char_range _ _ Hy).
  pose proof (hex_char_range _ _ Hz). pose proof (hex_char_range _ _ Hw).
  split; [|split; [by apply (at_pos_app _ _ [a; b; c; d]) in H0|lia]]. unfold parse_json_hex4. cbn [app] in H0.
  pose proof (at_pos_next _ _ _ _ H0) as H1'. pose proof (at_pos_next _ _ _ _ H1') as H2'. pose proof (at_pos_next _ _ _ _ H2') as H3'.
  rewrite (hex_loop_step buf 3 i 0 _ _ _ H0 Hx), hex_shift by lia.
  rewrite (hex_loop_step buf 2 _ _ _ _ _ H1' Hy), hex_shift by lia.
  rewrite (hex_loop_step buf 1 _ _ _ _ _ H2' Hz), hex_shift by lia.
  rewrite (hex_loop_step buf 0 _ _ _ _ _ H3' Hw), hex_shift by lia.
  cbn [hex_loop]. do 3 f_equal; lia.
Qed.

(** A byte that is no digit among the four. *)
Lemma hex_loop_bad buf c t : (forall v, ~ hex_char c v) -> forall pre k i code,
  Forall (fun d => exists v, hex_char d v) pre -> (length pre < k)%nat -> at_pos buf i (pre ++ c :: t) ->
  hex_loop buf k i code = Ret (Err (-2)).
Proof.
  intros Hc pre. induction pre as [|d pre IH]; intros k i code Hpre Hk Hp; (destruct k as [|k]; [simpl in Hk; lia|]).
  - cbn [hex_loop]. cbn [app] in Hp. rewrite (at_pos_rd _ _ _ _ Hp). cbn [cbind].
    destruct (hex_value c) as [v|] eqn:E; [|done]. apply hex_value_iff in E. by destruct (Hc v).
  - apply Forall_cons in Hpre as [[v Hv] Hpre]. cbn [app] in Hp. rewrite (hex_loop_step buf k i code v d _ Hp Hv).
    apply IH; [done|simpl in Hk; lia|by apply at_pos_next in Hp].
Qed.

(** Disjoint bits. *)
Lemma land_63 x : Z.land x 63 = x mod 64.
Proof. change 63 with (Z.ones 6). by rewrite Z.land_ones. Qed.

Lemma utf8_lead x : (0 <= x < 32 -> Z.lor 192 x = 192 + x) /\ (0 <= x < 16 -> Z.lor 224 x = 224 + x) /\
  (0 <= x < 8 -> Z.lor 240 x = 240 + x) /\ (0 <= x < 64 -> Z.lor 128 x = 128 + x).
Proof.
  split; [exact (lor_add 6 5 x ltac:(lia))|]. split; [exact (lor_add 14 4 x ltac:(lia))|].
  split; [exact (lor_add 30 3 x ltac:(lia))|exact (lor_add 2 6 x ltac:(lia))].
Qed.

Lemma utf8_bytes_utf8 code : 0 <= code < 1114112 -> utf8_bytes code = utf8 code.
Proof.
  intros Hc. unfold utf8_bytes, utf8. rewrite !land_63, !Z.shiftr_div_pow2 by lia.
  change (2 ^ 6) with 64. change (2 ^ 12) with 4096. change (2 ^ 18) with 262144.
  assert (forall y, Z.lor 128 (y mod 64) = 128 + y mod 64) as Hlow by (intros y; apply utf8_lead, Z.mod_pos_bound; lia).
  rewrite !Hlow. unfold u8. change (2 ^ 8) with 256.
  destruct (Z.leb_spec code 127), (Z.ltb_spec code 128); try lia; [done|].
  destruct (Z.leb_spec code 2047), (Z.ltb_spec code 2048); try lia; [|destruct (Z.leb_spec code 65535), (Z.ltb_spec code 65536); try lia].
  - rewrite (proj1 (utf8_lead _)) by dlia. repeat (f_equal; try dlia).
  - rewrite (proj1 (proj2 (utf8_lead _))) by dlia. repeat (f_equal; try dlia).
  - rewrite (proj1 (proj2 (proj2 (utf8_lead _)))) by dlia. repeat (f_equal; try dlia).
Qed.

Lemma surrogates_join code : 65536 <= code < 1114112 ->
  u32 (Z.lor (Z.shiftl (Z.land (55296 + (code - 65536) / 1024) 1023) 10) (Z.land (56320 + (code - 65536) mod 1024) 1023) + 65536) = code.
Proof.
  intros Hc. change 1023 with (Z.ones 10). rewrite !Z.land_ones, Z.shiftl_mul_pow2 by lia.
  rewrite lor_add by (try apply Z.mod_pos_bound; lia). change (2 ^ 10) with 1024. unfold u32. rewrite Z.mod_small; dlia.
Qed.

(** A high surrogate and a second unit. *)
Lemma unicode_second buf i txt hi txt2 unit t : 55296 <= hi < 56320 -> hex4_text txt hi -> hex4_text txt2 unit ->
  at_pos buf i (txt ++ [92; 117] ++ txt2 ++ t) ->
  parse_json_unicode buf i =
    (if (unit <? 56320) || (57343 <? unit) then Ret (Err (-2))
     else Ret (Ok (utf8_bytes (u32 (Z.lor (Z.shiftl (Z.land hi 1023) 10) (Z.land unit 1023) + 65536)), i + 10))).
Proof.
  intros Hhi Hh Hu Hp. unfold parse_json_unicode. destruct (hex4_text_read buf i txt hi _ Hh Hp) as (-> & Hp2 & _). cbn [cbind].
  destruct (Z.leb_spec 56320 hi); [lia|]. destruct (Z.leb_spec 55296 hi), (Z.leb_spec hi 56319); try lia. cbn [andb].
  cbn [app] in Hp2. rewrite (at_pos_rd _ _ _ _ Hp2). cbn [cbind Z.eqb Pos.eqb negb]. apply at_pos_next in Hp2.
  rewrite (at_pos_rd _ _ _ _ Hp2). cbn [cbind Z.eqb Pos.eqb negb]. apply at_pos_next in Hp2. replace (i + 4 + 2) with (i + 4 + 1 + 1) by lia.
  destruct (hex4_text_read buf _ txt2 unit _ Hu Hp2) as (-> & _). cbn [cbind]. by replace (i + 4 + 1 + 1 + 4) with (i + 10) by lia.
Qed.

Lemma escapes_read buf i code txt t : 0 <= code < 1114112 -> ~ (55296 <= code < 57344) -> escapes txt code ->
  at_pos buf i (txt ++ t) -> parse_json_unicode buf i = Ret (Ok (utf8_bytes code, i + blen txt)).
Proof.
  intros Hc Hs [[Hlt Htxt]|(Hge & hi & lo & Hhi & Hlo & ->)] Hp.
  - assert (blen txt = 4) as -> by (by destruct Htxt as (? & ? & ? & ? & ? & ? & ? & ? & -> & _)).
    unfold parse_json_unicode. destruct (hex4_text_read buf i txt code t Htxt Hp) as (-> & _). cbn [cbind].
    destruct (Z.leb_spec 56320 code), (Z.leb_spec code 57343), (Z.leb_spec 55296 code), (Z.leb_spec code 56319); try lia; done.
  - rewrite <- !app_assoc in Hp. rewrite (unicode_second buf i hi (55296 + (code - 65536) / 1024) lo _ t ltac:(dlia) Hhi Hlo Hp).
    destruct (Z.ltb_spec (56320 + (code - 65536) mod 1024) 56320), (Z.ltb_spec 57343 (56320 + (code - 65536) mod 1024)); try dlia.
    cbn [orb]. rewrite surrogates_join by lia.
    assert (blen (hi ++ [92; 117] ++ lo) = 10) as ->; [|done].
    destruct Hhi as (? & ? & ? & ? & ? & ? & ? & ? & -> & _), Hlo as (? & ? & ? & ? & ? & ? & ? & ? & -> & _). done.
Qed.

(** A high surrogate without the second escape. *)
Lemma unicode_alone buf i txt hi t : 55296 <= hi < 56320 -> hex4_text txt hi -> at_pos buf i (txt ++ t) ->
  (exists c t', t = c :: t' /\ c <> 92) \/ (exists c t', t = 92 :: c :: t' /\ c <> 117) ->
  parse_json_unicode buf i = Ret (Err (-2)).
Proof.
  intros Hhi Hh Hp Ht. unfold parse_json_unicode. destruct (hex4_text_read buf i txt hi _ Hh Hp) as (-> & Hp2 & _). cbn [cbind].
  destruct (Z.leb_spec 56320 hi); [lia|]. destruct (Z.leb_spec 55296 hi), (Z.leb_spec hi 56319); try lia. cbn [andb].
  destruct Ht as [(c & t' & -> & Hc)|(c & t' & -> & Hc)]; rewrite (at_pos_rd _ _ _ _ Hp2); cbn [cbind].
  - by destruct (Z.eqb_spec c 92).
  - cbn [Z.eqb Pos.eqb negb]. apply at_pos_next in Hp2. rewrite (at_pos_rd _ _ _ _ Hp2). cbn [cbind].
    by destruct (Z.eqb_spec c 117).
Qed.

(** C38: the escape of every Unicode code point, one UTF-16 unit or a
    surrogate pair with digits in either case, is read as the UTF-8 form of
    this code point.  Refused are a lone low surrogate, a high one before a
    unit that is not a low one, a high one not followed by a backslash and u,
    and a byte that is no hexadecimal digit among the four. *)
Theorem json_unicode_utf8 buf :
  (forall i code txt t, 0 <= code < 1114112 -> ~ (55296 <= code < 57344) -> escapes txt code ->
    at_pos buf i (txt ++ t) -> parse_json_unicode buf i = Ret (Ok (utf8 code, i + blen txt))) /\
  (forall i txt unit t, 56320 <= unit < 57344 -> hex4_text txt unit -> at_pos buf i (txt ++ t) ->
    parse_json_unicode buf i = Ret (Err (-2))) /\
  (forall i txt hi txt2 unit t, 55296 <= hi < 56320 -> hex4_text txt hi ->
    hex4_text txt2 unit -> ~ (56320 <= unit < 57344) ->
    at_pos buf i (txt ++ [92; 117] ++ txt2 ++ t) -> parse_json_unicode buf i = Ret (Err (-2))) /\
  (forall i txt hi t, 55296 <= hi < 56320 -> hex4_text txt hi -> at_pos buf i (txt ++ t) ->
    (exists c t', t = c :: t' /\ c <> 92) \/ (exists c t', t = 92 :: c :: t' /\ c <> 117) ->
    parse_json_unicode buf i = Ret (Err (-2))) /\
  (forall i pre c t, (length pre < 4)%nat -> Forall (fun d => exists v, hex_char d v) pre ->
    (forall v, ~ hex_char c v) -> at_pos buf i (pre ++ c :: t) -> parse_json_unicode buf i = Ret (Err (-2))).
Proof.
  split; [|split; [|split; [|split]]].
  - intros i code txt t Hc Hs He Hp. rewrite <- utf8_bytes_utf8 by done. by apply (escapes_read buf i code txt t).
  - intros i txt unit t Hu Ht Hp. unfold parse_json_unicode.
    destruct (hex4_text_read buf i txt unit t Ht Hp) as (-> & _). cbn [cbind].
    destruct (Z.leb_spec 56320 unit), (Z.leb_spec unit 57343); try lia. done.
  - intros i txt hi txt2 unit t Hhi Ht Ht2 Hlow Hp. rewrite (unicode_second buf i txt hi txt2 unit t Hhi Ht Ht2 Hp).
    destruct (Z.ltb_spec unit 56320), (Z.ltb_spec 57343 unit); try lia; done.
  - intros i txt hi t Hhi Ht Hp. by apply (unicode_alone buf i txt hi t).
  - intros i pre c t Hl Hpre Hc Hp. unfold parse_json_unicode, parse_json_hex4.
    by rewrite (hex_loop_bad buf c t Hc pre 4 i 0 Hpre ltac:(lia) Hp).
Qed.

(** ** Concrete documents *)

(** The array of a number and a string, behind a blank. *)
Definition sample_doc : list Z := [32; 91; 49; 44; 34; 120; 34; 93].

Lemma sample_doc_ok : Forall is_byte sample_doc /\ (0 ∉ sample_doc).
Proof. split; [unfold sample_doc; solve_bytes|by apply (bool_decide_unpack _)]. Qed.

Lemma json_parse_safe_witness : exists r h', json_value_parse (A := plenty) (sample_doc ++ [0]) empty_heap = Ret (r, h') /\
  match r with
  | None => live h' = live empty_heap
  | Some (b, v) => value_ok v /\ nesting v <= JSON_DEPTH_LIMIT /\ acquires empty_heap (blocks v ++ [b]) h'
  end.
Proof.
  apply (json_parse_safe (A := plenty) sample_doc empty_heap); [apply sample_doc_ok|apply sample_doc_ok|done|].
  intros b. cbn. set_solver.
Defined.

Example sample_doc_parsed : json_value_parse (A := plenty) (sample_doc ++ [0]) empty_heap =
  Ret (Some (0, JArray (mkArray [mkElement 1 (JNumber (S754_finite false 4503599627370496 (-52))); mkElement 2 (JString 3 [120])] 2)),
    mkHeap 4 {[0; 1; 2; 3]}).
Proof. vm_compute. reflexivity. Qed.

Lemma json_depth_limit_witness :
  exists h', json_value_parse (A := plenty) ((replicate 1025 91 ++ [93]) ++ [0]) empty_heap = Ret (None, h') /\ live h' = live empty_heap.
Proof.
  apply (json_depth_limit (A := plenty) 1025 [93] empty_heap); [solve_bytes|by apply (bool_decide_unpack _)|lia|done|].
  intros b. cbn. set_solver.
Defined.

(** The euro sign, with a digit in upper case. *)
Lemma json_unicode_utf8_witness : parse_json_unicode [50; 48; 65; 99; 34] 0 = Ret (Ok (utf8 8364, 0 + blen [50; 48; 65; 99])).
Proof.
  apply (json_unicode_utf8 [50; 48; 65; 99; 34]) with (t := [34]); [lia|lia| |apply at_pos_0].
  left. split; [lia|]. exists 50, 48, 65, 99, 2, 0, 10, 12. split; [done|].
  split; [by apply (hex_dec 2)|]. split; [by apply (hex_dec 0)|]. split; [by apply (hex_upper 10)|].
  split; [by apply (hex_lower 12)|done].
Defined.
