(* ===== verification/JsonRoundtrip.v ===== *)
(** * JSON texts

    The grammar side of the JSON parser, written from RFC 8259 and not from
    the code: which texts are a document, with blanks between the tokens, any
    number and any escape, and that [json_value_parse] reads each of them as
    this document. *)

From stdpp Require Import gmap sorting.
From Stdlib Require Import SpecFloat.
From S2P Require Import Prelude Cstdlib Heap Rbtree JsonValue JsonParser.

#[local] Open Scope Z_scope.
#[local] Set Warnings "-clear-no-such-hyp".
#[local] Arguments cbind {A B} !m k /.

#[local] Abbreviation json_member := (json_member_of json_value).
#[local] Abbreviation json_object := (json_object_of json_value).
#[local] Abbreviation json_element := (json_element_of json_value).
#[local] Abbreviation json_array := (json_array_of json_value).

(** A number is plus or minus [m * 10 ^ e]. *)
#[warnings="-register-all"]
Inductive json_doc : Type :=
| DString (s : list Z)
| DNumber (neg : bool) (m e : Z)
| DObject (members : list (list Z * json_doc))
| DArray (elements : list json_doc)
| DTrue
| DFalse
| DNull.

(** ** Text (RFC 8259) *)

(** Blanks: space, tab, line feed, carriage return. *)
Definition blank (w : list Z) : Prop := Forall (fun c => c ∈ [32; 9; 10; 13]) w.

(** What is between the quotes, for the bytes of a string: a byte as it is, one
    of the short escapes, or the escape of a code point for its UTF-8 form. *)
Inductive chars_text : list Z -> list Z -> Prop :=
| chars_nil : chars_text [] []
| chars_plain c s b :
    32 <= c < 256 -> c <> 34 -> c <> 92 -> chars_text s b -> chars_text (c :: s) (c :: b)
| chars_escape e c s b :
    (e, c) ∈ [(34, 34); (92, 92); (47, 47); (98, 8); (102, 12); (110, 10); (114, 13); (116, 9)] ->
    chars_text s b -> chars_text (c :: s) (92 :: e :: b)
| chars_unicode code txt s b :
    0 <= code < 1114112 -> ~ (55296 <= code < 57344) -> escapes txt code ->
    chars_text s b -> chars_text (utf8 code ++ s) (92 :: 117 :: txt ++ b).

(** Digits and their value. *)
Definition digits (ds : list Z) : Prop := ds <> [] /\ Forall (fun d => 48 <= d <= 57) ds.
Definition digits_value (ds : list Z) : Z := fold_left (fun a d => 10 * a + (d - 48)) ds 0.

Inductive exponent_text : Z -> list Z -> Prop :=
| exponent_none : exponent_text 0 []
| exponent_some c sign ds :
    c = 101 \/ c = 69 -> sign ∈ [[]; [43]; [45]] -> digits ds ->
    exponent_text (if bool_decide (sign = [45]) then - digits_value ds else digits_value ds) (c :: sign ++ ds).

(** [-] int [frac] [exp]; an [int] of several digits does not start with 0. *)
Inductive number_text : bool -> Z -> Z -> list Z -> Prop :=
| number_intro (neg : bool) d int fs frac e ex :
    digits (d :: int) -> (d = 48 -> int = []) ->
    (fs = [] /\ frac = [] \/ digits fs /\ frac = 46 :: fs) ->
    exponent_text e ex ->
    number_text neg (digits_value (d :: int ++ fs)) (e - Z.of_nat (length fs))
      ((if neg then [45] else []) ++ (d :: int) ++ frac ++ ex).

(** A document's texts; the lists of elements and of members with the bracket
    that ends them. *)
#[warnings="-register-all"]
Inductive text_of : json_doc -> list Z -> Prop :=
| text_string s b : chars_text s b -> text_of (DString s) (34 :: b ++ [34])
| text_number neg m e b : number_text neg m e b -> text_of (DNumber neg m e) b
| text_object_nil w : blank w -> text_of (DObject []) (123 :: w ++ [125])
| text_object l w b : blank w -> members_text l b -> text_of (DObject l) (123 :: w ++ b)
| text_array_nil w : blank w -> text_of (DArray []) (91 :: w ++ [93])
| text_array l w b : blank w -> elements_text l b -> text_of (DArray l) (91 :: w ++ b)
| text_true : text_of DTrue [116; 114; 117; 101]
| text_false : text_of DFalse [102; 97; 108; 115; 101]
| text_null : text_of DNull [110; 117; 108; 108]
with elements_text : list json_doc -> list Z -> Prop :=
| elements_last d b w : text_of d b -> blank w -> elements_text [d] (b ++ w ++ [93])
| elements_more d b w w' l bs :
    text_of d b -> blank w -> blank w' -> elements_text l bs ->
    elements_text (d :: l) (b ++ w ++ 44 :: w' ++ bs)
with members_text : list (list Z * json_doc) -> list Z -> Prop :=
| members_last m b w : member_text m b -> blank w -> members_text [m] (b ++ w ++ [125])
| members_more m b w w' l bs :
    member_text m b -> blank w -> blank w' -> members_text l bs ->
    members_text (m :: l) (b ++ w ++ 44 :: w' ++ bs)
with member_text : list Z * json_doc -> list Z -> Prop :=
| member_intro name nb w w' d b :
    chars_text name nb -> blank w -> blank w' -> text_of d b ->
    member_text (name, d) (34 :: nb ++ 34 :: w ++ 58 :: w' ++ b).

Scheme text_of_mut := Induction for text_of Sort Prop
  with elements_text_mut := Induction for elements_text Sort Prop
  with members_text_mut := Induction for members_text Sort Prop
  with member_text_mut := Induction for member_text Sort Prop.

Fixpoint doc_depth (d : json_doc) : Z :=
  match d with
  | DObject l => 1 + foldr (fun m n => Z.max (doc_depth (snd m)) n) 0 l
  | DArray l => 1 + foldr (fun d n => Z.max (doc_depth d) n) 0 l
  | _ => 0
  end.

(** The value a document stands for: a number is the nearest double. *)
#[warnings="-register-all"]
Inductive denotes : json_doc -> json_value -> Prop :=
| denotes_string s b : denotes (DString s) (JString b s)
| denotes_number neg m e : denotes (DNumber neg m e) (JNumber (double_of neg m e))
| denotes_object l o : Forall2 (fun m m' => m_name m' = fst m /\ denotes (snd m) (m_value m')) l (o_head o) -> denotes (DObject l) (JObject o)
| denotes_array l a : Forall2 (fun d e => denotes d (e_value e)) l (a_head a) -> denotes (DArray l) (JArray a)
| denotes_true : denotes DTrue JTrue
| denotes_false : denotes DFalse JFalse
| denotes_null : denotes DNull JNull.

(** ** Lexical facts *)

(** A value ends where the text goes on with no part of a number. *)
Definition follow (t : list Z) : Prop :=
  match t with
  | [] => False
  | c :: _ => isdigit c = false /\ c <> 46 /\ tolower c <> 101 /\ c <> 88 /\ c <> 120
  end.

Lemma blank_space w : blank w -> Forall (fun c => isspace c = true) w.
Proof.
  intros H. eapply Forall_impl; [exact H|]. cbn. intros c Hc. rewrite !elem_of_cons, elem_of_nil in Hc.
  by destruct Hc as [->|[->|[->|[->|[]]]]].
Qed.

Lemma follow_blank w c l : blank w -> follow (c :: l) -> follow (w ++ c :: l).
Proof.
  intros Hw Hc. destruct Hw as [|x w Hx _]; [done|]. cbn [app follow]. rewrite !elem_of_cons, elem_of_nil in Hx.
  by destruct Hx as [->|[->|[->|[->|[]]]]].
Qed.

Lemma utf8_is_byte code : 0 <= code < 1114112 -> Forall is_byte (utf8 code).
Proof.
  intros Hc. unfold utf8. destruct (Z.ltb_spec code 128); [|destruct (Z.ltb_spec code 2048); [|destruct (Z.ltb_spec code 65536)]];
    repeat constructor; unfold is_byte; dlia.
Qed.

Lemma short_escape e c :
  (e, c) ∈ [(34, 34); (92, 92); (47, 47); (98, 8); (102, 12); (110, 10); (114, 13); (116, 9)] ->
  escaped e = Some c /\ 0 < e < 256 /\ is_byte c.
Proof.
  rewrite !elem_of_cons, elem_of_nil. unfold is_byte.
  intros H. repeat (destruct H as [H|H]; [injection H as -> ->; split; [done|lia]|]). done.
Qed.

Lemma chars_text_bytes s b : chars_text s b -> Forall is_byte s.
Proof.
  induction 1 as [|c s b Hc _ _ _ IH|e c s b He _ IH|code txt s b Hc _ _ _ IH]; [constructor|constructor; [unfold is_byte; lia|done]| |].
  - constructor; [by apply short_escape in He as (_ & _ & He)|done].
  - apply Forall_app. split; [by apply utf8_is_byte|done].
Qed.

Lemma hex_char_plain c v : hex_char c v -> 48 <= c < 128 /\ c <> 92.
Proof. intros []; lia. Qed.

Lemma hex4_text_chars txt u : hex4_text txt u -> Forall (fun c => 48 <= c < 128 /\ c <> 92) txt.
Proof.
  intros (a & b & c & d & x & y & z & w & -> & Ha & Hb & Hc & Hd & _). repeat constructor; by eapply hex_char_plain.
Qed.

Section Strings.
Context (buf : list Z).

(** One character or escape at a time. *)
Lemma length_plain fuel i len x l r : at_pos buf i (x :: l) -> x <> 34 -> 32 <= x -> x <> 92 ->
  string_length buf fuel i len = Ret r -> exists f, string_length buf f (i + 1) (i32 (len + 1)) = Ret r.
Proof.
  intros Hp H34 H32 H92 H. destruct fuel; [discriminate|]. cbn [string_length] in H. rewrite (at_pos_rd _ _ _ _ Hp) in H. cbn [cbind] in H.
  destruct (Z.eqb_spec x 34), (Z.ltb_spec x 32), (Z.eqb_spec x 92); try lia. eauto.
Qed.

Lemma length_escape fuel i len e l r : at_pos buf i (92 :: e :: l) -> e <> 0 ->
  string_length buf fuel i len = Ret r -> exists f, string_length buf f (i + 1 + 1) (i32 (len + 1)) = Ret r.
Proof.
  intros Hp He H. destruct fuel; [discriminate|]. cbn [string_length] in H. rewrite (at_pos_rd _ _ _ _ Hp) in H. apply at_pos_next in Hp.
  cbn in H. rewrite (at_pos_rd _ _ _ _ Hp) in H. cbn [cbind] in H. destruct (Z.eqb_spec e 0); [done|eauto].
Qed.

Lemma length_hexes txt : Forall (fun c => 48 <= c < 128 /\ c <> 92) txt -> forall fuel i len l r, at_pos buf i (txt ++ l) ->
  string_length buf fuel i len = Ret r -> exists f len', string_length buf f (i + blen txt) len' = Ret r.
Proof.
  induction 1 as [|c txt [Hc H92] _ IH]; intros fuel i len l r Hp H.
  - exists fuel, len. by rewrite Z.add_0_r.
  - cbn [app] in Hp. eapply length_plain in H as [f H]; [|exact Hp|lia..]. apply at_pos_next in Hp.
    destruct (IH _ _ _ _ _ Hp H) as (f' & len' & H'). exists f', len'. by rewrite blen_cons, Z.add_assoc.
Qed.

Lemma length_unicode fuel i len txt code l r : escapes txt code -> at_pos buf i (92 :: 117 :: txt ++ l) ->
  string_length buf fuel i len = Ret r -> exists f len', string_length buf f (i + 2 + blen txt) len' = Ret r.
Proof.
  intros He Hp H. eapply length_escape in H as [f H]; [|exact Hp|done]. do 2 apply at_pos_next in Hp.
  replace (i + 1 + 1) with (i + 2) in * by lia.
  destruct He as [[_ Ht]|(_ & hi & lo & Hhi & Hlo & ->)]; [eapply (length_hexes txt); [by eapply hex4_text_chars|exact Hp|exact H]|].
  rewrite <- !app_assoc in Hp. eapply (length_hexes hi) in H as (f1 & l1 & H); [|by eapply hex4_text_chars|exact Hp].
  apply at_pos_app in Hp. cbn [app] in Hp. eapply length_escape in H as [f2 H]; [|exact Hp|done]. do 2 apply at_pos_next in Hp.
  eapply (length_hexes lo) in H as (f3 & l3 & H); [|by eapply hex4_text_chars|exact Hp]. exists f3, l3.
  rewrite !blen_app. change (blen [92; 117]) with 2.
  by replace (i + 2 + (blen hi + (2 + blen lo))) with (i + 2 + blen hi + 1 + 1 + blen lo) by lia.
Qed.

Lemma put_Ret size str bs r : put size str bs = Ret r -> r = str ++ bs.
Proof. unfold put. destruct (_ <=? _); [|discriminate]. by intros [= <-]. Qed.

Lemma loop_plain fuel size i str x l r : at_pos buf i (x :: l) -> x <> 34 -> x <> 92 ->
  string_loop buf fuel size i str = Ret r -> exists f, string_loop buf f size (i + 1) (str ++ [x]) = Ret r.
Proof.
  intros Hp H34 H92 H. destruct fuel; [discriminate|]. cbn [string_loop] in H. rewrite (at_pos_rd _ _ _ _ Hp) in H. cbn [cbind] in H.
  destruct (Z.eqb_spec x 34), (Z.eqb_spec x 92); try lia. apply cbind_Ret_inv in H as (s & Hs%put_Ret & H). subst s. eauto.
Qed.

Lemma loop_escape fuel size i str e c l r : at_pos buf i (92 :: e :: l) -> escaped e = Some c ->
  string_loop buf fuel size i str = Ret r -> exists f, string_loop buf f size (i + 1 + 1) (str ++ [c]) = Ret r.
Proof.
  intros Hp He H. destruct fuel; [discriminate|]. cbn [string_loop] in H. rewrite (at_pos_rd _ _ _ _ Hp) in H. apply at_pos_next in Hp.
  cbn in H. rewrite (at_pos_rd _ _ _ _ Hp) in H. cbn [cbind] in H. rewrite He in H.
  apply cbind_Ret_inv in H as (s & Hs%put_Ret & H). subst s. eauto.
Qed.

Lemma loop_unicode fuel size i str code txt l r : 0 <= code < 1114112 -> ~ (55296 <= code < 57344) -> escapes txt code ->
  at_pos buf i (92 :: 117 :: txt ++ l) ->
  string_loop buf fuel size i str = Ret r -> exists f, string_loop buf f size (i + 2 + blen txt) (str ++ utf8 code) = Ret r.
Proof.
  intros Hc Hs He Hp H. destruct fuel; [discriminate|]. cbn [string_loop] in H. rewrite (at_pos_rd _ _ _ _ Hp) in H. apply at_pos_next in Hp.
  cbn [Z.eqb Pos.eqb cbind] in H. rewrite (at_pos_rd _ _ _ _ Hp) in H. apply at_pos_next in Hp. cbn [cbind] in H.
  change (escaped 117) with (@None Z) in H. cbn [Z.eqb Pos.eqb] in H. rewrite (escapes_read _ _ _ _ _ Hc Hs He Hp) in H. cbn [cbind] in H.
  apply cbind_Ret_inv in H as (s & Hp2%put_Ret & H). subst s. rewrite utf8_bytes_utf8 in H by done.
  replace (i + 2) with (i + 1 + 1) by lia. eauto.
Qed.

(** The text of a string has some length ... *)
Lemma string_length_text s b : chars_text s b -> forall fuel i len t r,
  at_pos buf i (b ++ 34 :: t) -> string_length buf fuel i len = Ret r -> exists n, r = Ok n.
Proof.
  induction 1 as [|c s b Hc H34 H92 _ IH|e c s b He _ IH|code txt s b Hc Hs He _ IH]; intros fuel i len t r Hp H; cbn [app] in Hp.
  - destruct fuel; [discriminate|]. cbn [string_length] in H. rewrite (at_pos_rd _ _ _ _ Hp) in H. cbn in H. injection H as <-. eauto.
  - eapply length_plain in H as [f H]; [|exact Hp|done || lia..]. apply at_pos_next in Hp. by eapply IH.
  - apply short_escape in He as (_ & He & _). eapply length_escape in H as [f H]; [|exact Hp|lia]. do 2 apply at_pos_next in Hp. by eapply IH.
  - rewrite <- app_assoc in Hp. eapply length_unicode in H as (f & l & H); [|exact He|exact Hp].
    apply (at_pos_app _ _ (92 :: 117 :: txt)) in Hp. rewrite !blen_cons in Hp.
    replace (i + (1 + (1 + blen txt))) with (i + 2 + blen txt) in Hp by lia. by eapply IH.
Qed.

(** ... and parsing it gives its bytes. *)
Lemma string_loop_text s b : chars_text s b -> forall fuel size i str t r,
  at_pos buf i (b ++ 34 :: t) -> string_loop buf fuel size i str = Ret r -> r = Ok (str ++ s, i + blen b + 1).
Proof.
  induction 1 as [|c s b Hc H34 H92 _ IH|e c s b He _ IH|code txt s b Hc Hs He _ IH]; intros fuel size i str t r Hp H; cbn [app] in Hp.
  - destruct fuel; [discriminate|]. cbn [string_loop] in H. rewrite (at_pos_rd _ _ _ _ Hp) in H. cbn in H.
    apply cbind_Ret_inv in H as (? & _ & H). injection H as <-. by rewrite app_nil_r, Z.add_0_r.
  - eapply loop_plain in H as [f H]; [|exact Hp|done..]. apply at_pos_next in Hp.
    rewrite (IH _ _ _ _ _ _ Hp H), <- app_assoc. do 2 f_equal. autorewrite with blen_db. lia.
  - apply short_escape in He as (He & _). eapply loop_escape in H as [f H]; [|exact Hp|done]. do 2 apply at_pos_next in Hp.
    rewrite (IH _ _ _ _ _ _ Hp H), <- app_assoc. do 2 f_equal. autorewrite with blen_db. lia.
  - rewrite <- app_assoc in Hp. eapply loop_unicode in H as (f & H); [|exact Hc|exact Hs|exact He|exact Hp].
    apply (at_pos_app _ _ (92 :: 117 :: txt)) in Hp. rewrite !blen_cons in Hp.
    replace (i + (1 + (1 + blen txt))) with (i + 2 + blen txt) in Hp by lia.
    rewrite (IH _ _ _ _ _ _ Hp H), <- app_assoc. do 2 f_equal. autorewrite with blen_db. lia.
Qed.
End Strings.

(** ** Numbers *)

Lemma dec_run_text ds rest : Forall (fun d => 48 <= d <= 57) ds -> forall acc n,
  dec_run (ds ++ rest) acc n =
  dec_run rest (fold_left (fun a d => 10 * a + (d - 48)) ds acc) (n + Z.of_nat (length ds)).
Proof.
  induction 1 as [|d ds Hd _ IH]; intros acc n; cbn [app fold_left length]; [by rewrite Z.add_0_r|].
  cbn [dec_run]. assert (isdigit d = true) as -> by (unfold isdigit; lia). rewrite IH. f_equal. lia.
Qed.

Lemma dec_run_end t acc n : ends_number t -> dec_run t acc n = (acc, n, t).
Proof. destruct t as [|d t]; [done|]. intros (Hd & _). cbn [dec_run]. by rewrite Hd. Qed.

Lemma exponent_read e ex t : exponent_text e ex -> ends_number t -> dec_exponent (ex ++ t) = (e, t).
Proof.
  intros [|c sign ds Hc Hsign [Hne Hds]] Ht; cbn [app].
  - destruct t as [|d t]; [done|]. destruct Ht as (_ & _ & Hd). unfold dec_exponent. by destruct (Z.eqb_spec (tolower d) 101).
  - unfold dec_exponent. assert (tolower c = 101) as -> by (by destruct Hc as [->| ->]). cbn [Z.eqb Pos.eqb].
    assert (0 < Z.of_nat (length ds)) as Hlen by (destruct ds; [done|cbn [length]; lia]).
    assert (strip_sign ((sign ++ ds) ++ t) = (bool_decide (sign = [45]), ds ++ t)) as ->.
    { rewrite !elem_of_cons, elem_of_nil in Hsign. destruct Hsign as [->|[->|[->|[]]]]; cbn [app]; try done.
      destruct ds as [|d ds]; [done|]. apply Forall_cons in Hds as [Hd _]. cbn [app strip_sign].
      destruct (Z.eqb_spec d 45), (Z.eqb_spec d 43); try lia. done. }
    rewrite dec_run_text, dec_run_end by done. rewrite Z.add_0_l. destruct (Z.ltb_spec 0 (Z.of_nat (length ds))); [|lia].
    unfold digits_value. by destruct (bool_decide _).
Qed.

Lemma exponent_head e ex t : exponent_text e ex -> ends_number t -> match ex ++ t with 46 :: _ => False | _ => True end /\
  match ex ++ t with c :: _ => isdigit c = false | [] => True end.
Proof.
  intros [|c sign ds Hc _ _] Ht; cbn [app].
  - destruct t as [|d t]; [done|]. destruct Ht as (Hd & H46 & _). split; [|done]. by repeat case_match.
  - by destruct Hc as [->| ->].
Qed.

Lemma dec_run_stop t acc n : match t with c :: _ => isdigit c = false | [] => True end -> dec_run t acc n = (acc, n, t).
Proof. destruct t as [|d t]; [done|]. cbn [dec_run]. by intros ->. Qed.

Lemma strtod_number neg m e b t : number_text neg m e b -> ends_number t -> strtod (b ++ t) = (t, double_of neg m e).
Proof.
  intros [neg' d int fs frac e' ex [_ Hint] _ Hfrac Hex] Ht. pose proof Hint as Hint'. apply Forall_cons in Hint' as [Hd _].
  destruct (exponent_head _ _ _ Hex Ht) as [Hdot Hstop]. unfold strtod.
  assert (strip_sign (drop_spaces (((if neg' then [45] else []) ++ (d :: int) ++ frac ++ ex) ++ t)) =
    (neg', (d :: int) ++ frac ++ ex ++ t)) as ->.
  { rewrite <- !app_assoc. destruct neg'; cbn [app drop_spaces]; [done|].
    assert (isspace d = false) as -> by (apply isdigit_not_space; unfold isdigit; lia).
    unfold strip_sign. destruct (Z.eqb_spec d 45), (Z.eqb_spec d 43); try lia. done. }
  assert (inf_nan ((d :: int) ++ frac ++ ex ++ t) neg' = None) as ->.
  { unfold inf_nan. cbn [app strip_word]. unfold tolower. destruct (Z.leb_spec 65 d); [lia|]. cbn [andb].
    destruct (Z.eqb_spec d 105), (Z.eqb_spec d 110); try lia. done. }
  rewrite dec_run_text by done. unfold digits_value. rewrite app_comm_cons, fold_left_app.
  assert (0 < Z.of_nat (length (d :: int))) as Hlen by (cbn [length]; lia).
  destruct Hfrac as [[-> ->]|[[Hne Hfs] ->]]; cbn [app].
  - rewrite dec_run_stop by done.
    assert (forall A (a : A) (f : list Z -> A), match ex ++ t with 46 :: l => f l | _ => a end = a) as Hm.
    { intros A a f. destruct (ex ++ t) as [|c l]; [done|]. by repeat case_match. }
    rewrite Hm, (exponent_read _ _ _ Hex Ht). cbn [fold_left length]. destruct (Z.ltb_spec 0 (0 + Z.of_nat (length (d :: int)) + 0)); [done|lia].
  - rewrite (dec_run_stop (46 :: fs ++ ex ++ t)) by done. rewrite dec_run_text by done. rewrite dec_run_stop by done.
    rewrite (exponent_read _ _ _ Hex Ht), !Z.add_0_l.
    destruct (Z.ltb_spec 0 (Z.of_nat (length (d :: int)) + Z.of_nat (length fs))); [done|lia].
Qed.

(** ** Texts *)

Lemma number_head neg m e b : number_text neg m e b -> exists d r, b = (if neg then [45] else []) ++ d :: r /\ 48 <= d <= 57 /\
  (d = 48 -> forall t, follow t -> exists x l, r ++ t = x :: l /\ isdigit x = false /\ x <> 88 /\ x <> 120).
Proof.
  intros [neg' d int fs frac e' ex [_ Hint] H0 Hfrac Hex]. apply Forall_cons in Hint as [Hd _]. exists d, (int ++ frac ++ ex).
  split; [by destruct neg'|]. split; [done|]. intros -> t Ht. rewrite (H0 eq_refl). cbn [app].
  destruct Hfrac as [[_ ->]|[_ ->]]; cbn [app]; [|by do 2 eexists].
  destruct Hex as [|c sign ds Hc _ _]; cbn [app]; [|exists c, ((sign ++ ds) ++ t); by destruct Hc as [->| ->]].
  destruct t as [|c t]; [done|]. exists c, t. cbn in Ht. tauto.
Qed.

(** The first character decides. *)
Lemma text_head d b : text_of d b -> exists c l, b = c :: l /\ isspace c = false /\ c <> 93 /\ c <> 125.
Proof.
  intros H. destruct H as [| neg m e b Hn| | | | | | |]; try (by do 2 eexists).
  destruct (number_head _ _ _ _ Hn) as (x & r & -> & Hx & _). destruct neg; cbn [app]; [by do 2 eexists|].
  exists x, r. split; [done|]. split; [apply isdigit_not_space; unfold isdigit; lia|lia].
Qed.

Section Reading.
Context (doc : list Z) (Hdoc : Forall is_byte doc) (Hnul : 0 ∉ doc) (Hlen : blen doc < 2 ^ 31 - 1).
#[local] Abbreviation text := (doc ++ [0]).
#[local] Existing Instance plenty.

(** Blanks before a token. *)
Lemma skip_blank w i c l : at_pos text i (w ++ c :: l) -> blank w -> isspace c = false ->
  skip_space text (text_rounds text) i = Ret (i + blen w) /\ at_pos text (i + blen w) (c :: l).
Proof.
  intros Hp Hw Hc. split; [|by apply at_pos_app in Hp]. apply blank_space in Hw.
  assert (forall fuel, (length w < fuel)%nat -> skip_space text fuel i = Ret (i + blen w)) as H.
  { revert i Hp. induction Hw as [|x w Hx _ IH]; intros i Hp fuel Hf; (destruct fuel as [|fuel]; [lia|]); cbn [skip_space app] in *;
      rewrite (at_pos_rd _ _ _ _ Hp); cbn [cbind].
    - by rewrite Hc, Z.add_0_r.
    - rewrite Hx. apply at_pos_next in Hp. rewrite (IH _ Hp) by (cbn [length] in Hf; lia). f_equal. rewrite blen_cons. lia. }
  apply H. pose proof (at_pos_len _ _ _ Hp) as Hl. destruct Hp as [Hp _]. unfold text_rounds, blen in *.
  rewrite (length_app w) in Hl.
  lia.
Qed.

Lemma at_pos_inside i c l : at_pos text i (c :: l) -> inside doc i.
Proof.
  intros Hp. pose proof (at_pos_len _ _ _ Hp) as H. destruct Hp as [Hi _]. autorewrite with blen_db in H.
  pose proof (blen_nonneg l). unfold inside. lia.
Qed.

(** [reads d b p]: on the text [b] of [d], the parser [p] succeeds at its end
    with a value for [d]. *)
Definition reads (d : json_doc) (b : list Z) (p : Z -> heap -> comp (outcome (json_value * Z) * heap)) : Prop :=
  forall i t h0 rest h r h', at_pos text i (b ++ t) -> follow t -> acquires h0 rest h -> p i h = Ret (r, h') ->
  exists v, r = Ok (v, i + blen b) /\ denotes d v.

(** Reading together with what every parser does. *)
Lemma reads_owns d b depth p i t h0 rest h r h' : text_of d b -> reads d b p -> parses doc depth p -> at_pos text i (b ++ t) -> follow t ->
  acquires h0 rest h -> p i h = Ret (r, h') ->
  exists v, r = Ok (v, i + blen b) /\ denotes d v /\ member_fine depth (mkMember 0 [] v) /\ acquires h0 (blocks v ++ rest) h'.
Proof.
  intros Hd Hr Hp Hpos Ht H E. destruct (Hr _ _ _ _ _ _ _ Hpos Ht H E) as (v & -> & Hv). exists v. split; [done|]. split; [done|].
  destruct (text_head d b Hd) as (c & l & -> & _).
  destruct (Hp i h0 rest h (at_pos_inside _ _ _ Hpos) H) as (x & Ex & Hx). rewrite E in Ex. injection Ex as <-. unfold member_fine. cbn [m_value]. tauto.
Qed.

Lemma malloc_plenty h : malloc h = (Some (next_block h), mkHeap (next_block h + 1) ({[next_block h]} ∪ live h)).
Proof. done. Qed.

(** A string at a position, and its block. *)
Lemma string_read s b i t : chars_text s b -> at_pos text i (b ++ 34 :: t) ->
  exists n, json_string_length text i = Ret (Ok n) /\ parse_json_string text (n + 1) i = Ret (Ok (s, i + blen b + 1)).
Proof.
  intros Hs Hp.
  assert (inside doc i) as Hi by (destruct (b ++ 34 :: t) as [|c l] eqn:E; [by destruct b|by eapply at_pos_inside]).
  destruct (json_string_length_closes doc Hdoc Hlen i Hi) as (r & E & Hr).
  destruct (string_length_text text s b Hs _ _ _ _ _ Hp E) as [n ->]. exists n. split; [done|].
  destruct (parse_string_closes doc Hdoc i n Hr) as (r & E2 & _). rewrite E2.
  by rewrite (string_loop_text text s b Hs _ _ _ _ _ _ Hp E2).
Qed.

Lemma number_read neg m e b i t : number_text neg m e b -> at_pos text i (b ++ t) -> follow t ->
  parse_json_number text i = Ret (Ok (double_of neg m e, i + blen b)).
Proof.
  intros Hn Hp Ht. destruct (number_head _ _ _ _ Hn) as (d & r & E & Hd & H0).
  assert (inside doc i) as Hi by (rewrite E in Hp; destruct neg; cbn [app] in Hp; by eapply at_pos_inside).
  assert (exists t', t = t' ++ [0] /\ drop (Z.to_nat i) doc = b ++ t' /\ ends_number t') as (t' & Et & Edrop & Hends).
  { destruct Hp as [_ Hp]. unfold inside, blen in Hi. rewrite drop_app_le in Hp by lia.
    destruct t as [|x t2 _] using rev_ind; [done|]. rewrite app_assoc in Hp. apply app_inj_tail in Hp as [Hp <-].
    exists t2. split; [done|]. split; [done|]. destruct t2; [done|]. cbn in Ht |- *. tauto. }
  unfold parse_json_number. rewrite cstr_drop by done. rewrite Edrop, (strtod_number neg m e b) by done.
  assert (blen (b ++ t') - blen t' = blen b) as -> by (rewrite blen_app; lia).
  assert (0 < blen b) as Hpos.
  { rewrite E, blen_app, blen_cons. pose proof (blen_nonneg (if neg then [45] else [])). pose proof (blen_nonneg r). lia. }
  assert (at_pos text (if neg then i + 1 else i) (d :: r ++ t)) as Hpd.
  { rewrite E in Hp. destruct neg; cbn [app] in Hp; [by apply at_pos_next in Hp|done]. }
  assert (rd text i = Ret (if neg then 45 else d)) as ->.
  { rewrite E in Hp. destruct neg; cbn [app] in Hp; by rewrite (at_pos_rd _ _ _ _ Hp). }
  cbn [cbind]. assert ((if (if neg then 45 else d) =? 45 then i + 1 else i) = (if neg then i + 1 else i)) as ->.
  { destruct neg; [done|]. destruct (Z.eqb_spec d 45); [lia|done]. }
  rewrite (at_pos_rd _ _ _ _ Hpd). cbn [cbind]. apply at_pos_next in Hpd.
  destruct (Z.eqb_spec d 48) as [->|]; cbn [cbind].
  - destruct (H0 eq_refl t Ht) as (x & l & El & Hx & H88 & H120). rewrite El in Hpd. rewrite (at_pos_rd _ _ _ _ Hpd). cbn [cbind].
    rewrite Hx. destruct (Z.eqb_spec x 88), (Z.eqb_spec x 120); try done. cbn [orb]. destruct (Z.eqb_spec (i + blen b) i); [lia|done].
  - destruct (Z.eqb_spec (i + blen b) i); [lia|done].
Qed.

Lemma word_read w v i t h : at_pos text i (w ++ t) -> parse_word text w v i h = Ret (Ok (v, i + blen w), h).
Proof.
  intros Hp. unfold parse_word. enough (starts_with text i w = Ret true) as -> by done.
  revert i Hp. induction w as [|x w IH]; intros i Hp; [done|]. cbn [starts_with app] in *. rewrite (at_pos_rd _ _ _ _ Hp). cbn [cbind].
  rewrite Z.eqb_refl. apply IH. by apply at_pos_next in Hp.
Qed.

Lemma elements_head l b : elements_text l b -> exists c r, b = c :: r /\ isspace c = false /\ c <> 93.
Proof.
  intros [d b' w Hd _|d b' w w' l' bs Hd _ _ _]; destruct (text_head d b' Hd) as (c & r & -> & ? & ? & _); by do 2 eexists.
Qed.

Lemma members_head l b : members_text l b -> exists r, b = 34 :: r.
Proof. intros [m b' w Hm _|m b' w w' l' bs Hm _ _ _]; destruct Hm; by eexists. Qed.

(** Values of the next level, up to a depth. *)
Section Level.
Context (value : Z -> Z -> heap -> comp (outcome (json_value * Z) * heap)) (depth : Z).
Context (Hvalue : parses doc depth (value depth)).
Context (Hreads : forall d b, doc_depth d <= JSON_DEPTH_LIMIT - depth -> text_of d b -> reads d b (value depth)).

Lemma elements_read ds b : elements_text ds b -> Forall (fun d => doc_depth d <= JSON_DEPTH_LIMIT - depth) ds ->
  forall fuel i cnt l t h0 rest h r l' h', at_pos text i (b ++ t) ->
  acquires h0 (flat_map element_blocks l ++ rest) h -> elements_loop text value fuel depth i cnt l h = Ret (r, l', h') ->
  exists cnt' es, r = Ok (cnt', i + blen b) /\ l' = l ++ es /\ Forall2 (fun d e => denotes d (e_value e)) ds es.
Proof.
  induction 1 as [d b w Hd Hw|d b w w' ds bs Hd Hw Hw' Hds IH]; intros Hdepth fuel i cnt l t h0 rest h r l' h' Hp H E;
    (destruct fuel as [|fuel]; [discriminate|]); cbn [elements_loop] in E; apply Forall_cons in Hdepth as [Hdd Hdepth];
    pose proof (malloc_fresh _ _ _ H) as Hm; rewrite malloc_plenty in E, Hm; destruct Hm as [H1 _];
    apply cbind_Ret_inv in E as ([rv h2] & Ev & E); rewrite <- app_assoc in Hp.
  - rewrite <- app_assoc in Hp. cbn [app] in Hp.
    destruct (reads_owns d b depth _ _ _ _ _ _ _ _ Hd (Hreads d b Hdd Hd) Hvalue Hp (follow_blank w 93 t Hw ltac:(done)) H1 Ev)
      as (v & -> & Hv & _ & H2).
    apply at_pos_app in Hp. destruct (skip_blank w _ _ _ Hp Hw eq_refl) as [Es Hp2]. rewrite Es in E. cbn [cbind] in E.
    rewrite (at_pos_rd _ _ _ _ Hp2) in E. cbn in E. injection E as <- <- <-. exists (i32 (cnt + 1)), [mkElement (next_block h) v].
    split; [do 2 f_equal; autorewrite with blen_db; lia|]. split; [done|]. by repeat constructor.
  - rewrite <- app_assoc in Hp. cbn [app] in Hp.
    destruct (reads_owns d b depth _ _ _ _ _ _ _ _ Hd (Hreads d b Hdd Hd) Hvalue Hp (follow_blank w 44 _ Hw ltac:(done)) H1 Ev)
      as (v & -> & Hv & _ & H2).
    apply at_pos_app in Hp. destruct (skip_blank w _ _ _ Hp Hw eq_refl) as [Es Hp2]. rewrite Es in E. cbn [cbind] in E.
    rewrite (at_pos_rd _ _ _ _ Hp2) in E. cbn [Z.eqb Pos.eqb cbind] in E. apply at_pos_next in Hp2. rewrite <- app_assoc in Hp2.
    destruct (elements_head _ _ Hds) as (c & rb & -> & Hc & _). cbn [app] in Hp2.
    destruct (skip_blank w' _ _ _ Hp2 Hw' Hc) as [Es2 Hp3]. rewrite Es2 in E. cbn [cbind] in E.
    eapply (IH Hdepth _ _ _ _ t h0 rest) in E as (cnt' & es & -> & -> & Hes); [|exact Hp3|].
    + exists cnt', (mkElement (next_block h) v :: es). split; [do 2 f_equal; autorewrite with blen_db; lia|].
      split; [unfold list_add_tail; by rewrite <- app_assoc|by constructor].
    + eapply acquires_perm; [|exact H2]. unfold list_add_tail. rewrite flat_map_app. cbn [flat_map element_blocks e_value e_block]. solve_Permutation.
Qed.

(** A member: name and value. *)
Lemma member_read name nb w w' d b n i t h0 rest h r h' : chars_text name nb -> blank w -> blank w' -> text_of d b ->
  doc_depth d <= JSON_DEPTH_LIMIT - depth -> at_pos text i (nb ++ 34 :: w ++ 58 :: w' ++ b ++ t) -> follow t ->
  parse_json_string text (n + 1) i = Ret (Ok (name, i + blen nb + 1)) -> acquires h0 rest h ->
  parse_json_member text value (n + 1) depth i h = Ret (r, h') ->
  exists v, r = Ok (name, v, i + blen (nb ++ 34 :: w ++ 58 :: w' ++ b)) /\ denotes d v /\ member_fine depth (mkMember 0 [] v) /\
    acquires h0 (blocks v ++ rest) h'.
Proof.
  intros Hname Hw Hw' Hd Hdd Hp Ht Es H E. unfold parse_json_member in E. rewrite Es in E. cbn [cbind] in E.
  apply at_pos_app in Hp. apply at_pos_next in Hp. destruct (skip_blank w _ _ _ Hp Hw eq_refl) as [Es1 Hp1]. rewrite Es1 in E. cbn [cbind] in E.
  rewrite (at_pos_rd _ _ _ _ Hp1) in E. cbn [Z.eqb Pos.eqb cbind negb] in E. apply at_pos_next in Hp1.
  destruct (text_head d b Hd) as (c & l & Ec & Hc & _). pose proof Hp1 as Hp2. rewrite Ec in Hp2. cbn [app] in Hp2.
  destruct (skip_blank w' _ _ _ Hp2 Hw' Hc) as [Es2 _]. rewrite Es2 in E. cbn [cbind] in E.
  apply at_pos_app in Hp1. apply cbind_Ret_inv in E as ([rv h2] & Ev & E).
  destruct (reads_owns d b depth _ _ _ _ _ _ _ _ Hd (Hreads d b Hdd Hd) Hvalue Hp1 Ht H Ev) as (v & -> & Hv & Hok & H2). injection E as <- <-.
  exists v. split; [|done]. do 2 f_equal. autorewrite with blen_db. lia.
Qed.

(** One round of the loop over members, up to the cursor behind the value. *)
Lemma member_round m b fuel i cnt o t h0 rest h r o' h' : member_text m b -> doc_depth (snd m) <= JSON_DEPTH_LIMIT - depth ->
  at_pos text i (b ++ t) -> follow t -> acquires h0 (flat_map member_blocks (o_head o) ++ rest) h -> object_so_far depth cnt o ->
  members_loop text value (S fuel) depth i cnt o h = Ret (r, o', h') ->
  exists v o2 h2, o_head o2 = o_head o ++ [mkMember (next_block h) (fst m) v] /\ denotes (snd m) v /\
    object_so_far depth (i32 (cnt + 1)) o2 /\ acquires h0 (flat_map member_blocks (o_head o2) ++ rest) h2 /\
    (let! cursor := skip_space text (text_rounds text) (i + blen b) in
     let! c := rd text cursor in
     if c =? 44 then
       let! cursor := skip_space text (text_rounds text) (cursor + 1) in
       members_loop text value fuel depth cursor (i32 (cnt + 1)) o2 h2
     else if c =? 125 then Ret (Ok (i32 (cnt + 1), cursor + 1), o2, h2)
     else Ret (Err (-2), o2, h2)) = Ret (r, o', h').
Proof.
  intros [name nb w w' d vb Hname Hw Hw' Hd] Hdd Hp Ht H Hso E. cbn [fst snd] in *. cbn [members_loop] in E.
  cbn [app] in Hp. rewrite <- !app_assoc in Hp. cbn [app] in Hp. rewrite <- !app_assoc in Hp. cbn [app] in Hp. rewrite <- ?app_assoc in Hp.
  rewrite (at_pos_rd _ _ _ _ Hp) in E. cbn [Z.eqb Pos.eqb cbind negb] in E. apply at_pos_next in Hp.
  destruct (string_read name nb _ _ Hname Hp) as (n & En & Es). rewrite En in E. cbn [cbind] in E.
  pose proof (malloc_fresh _ _ _ H) as Hm. rewrite malloc_plenty in E, Hm. destruct Hm as [H1 Hb].
  apply cbind_Ret_inv in E as ([rv h2] & Ev & E).
  destruct (member_read name nb w w' d vb n _ _ _ _ _ _ _ Hname Hw Hw' Hd Hdd Hp Ht Es H1 Ev) as (v & -> & Hv & Hok & H2).
  assert (next_block h ∉ m_block <$> o_head o) as Hfresh by (apply member_blocks_fresh; rewrite blocks_object; set_solver).
  destruct Hso as [Hso Hfine].
  destruct (append_member_spec o cnt (mkMember (next_block h) name v) Hso Hfresh (chars_text_bytes _ _ Hname)) as (o2 & Eo & Hok2 & El).
  apply cbind_Ret_inv in Eo as (prev & Eprev & Eo). rewrite Eprev in E. cbn [cbind] in E. rewrite Eo in E. cbn [cbind] in E.
  exists v, o2, h2. split; [done|]. split; [done|]. split; [split; [done|]; rewrite El, Forall_app, Forall_singleton; done|].
  split.
  - eapply acquires_perm; [|exact H2]. rewrite El, flat_map_app. cbn [flat_map member_blocks m_value m_block]. solve_Permutation.
  - rewrite blen_cons. replace (i + (1 + blen (nb ++ 34 :: w ++ 58 :: w' ++ vb))) with (i + 1 + blen (nb ++ 34 :: w ++ 58 :: w' ++ vb)) by lia. exact E.
Qed.

Lemma members_read ms b : members_text ms b -> Forall (fun m => doc_depth (snd m) <= JSON_DEPTH_LIMIT - depth) ms ->
  forall fuel i cnt o t h0 rest h r o' h', at_pos text i (b ++ t) ->
  acquires h0 (flat_map member_blocks (o_head o) ++ rest) h -> object_so_far depth cnt o ->
  members_loop text value fuel depth i cnt o h = Ret (r, o', h') ->
  exists cnt' l, r = Ok (cnt', i + blen b) /\ o_head o' = o_head o ++ l /\
    Forall2 (fun m m' => m_name m' = fst m /\ denotes (snd m) (m_value m')) ms l.
Proof.
  induction 1 as [m b w Hm Hw|m b w w' ms bs Hm Hw Hw' Hms IH]; intros Hdepth fuel i cnt o t h0 rest h r o' h' Hp H Hso E;
    (destruct fuel as [|fuel]; [discriminate|]); apply Forall_cons in Hdepth as [Hdd Hdepth]; rewrite <- !app_assoc in Hp; cbn [app] in Hp.
  - destruct (member_round m b fuel i cnt o _ h0 rest h r o' h' Hm Hdd Hp (follow_blank w 125 t Hw ltac:(done)) H Hso E)
      as (v & o2 & h2 & El & Hv & _ & _ & E').
    apply at_pos_app in Hp. destruct (skip_blank w _ _ _ Hp Hw eq_refl) as [Es Hp2]. rewrite Es in E'. cbn [cbind] in E'.
    rewrite (at_pos_rd _ _ _ _ Hp2) in E'. cbn in E'. injection E' as <- <- <-. do 2 eexists.
    split; [do 2 f_equal; autorewrite with blen_db; lia|]. split; [exact El|]. by repeat constructor.
  - destruct (member_round m b fuel i cnt o _ h0 rest h r o' h' Hm Hdd Hp (follow_blank w 44 _ Hw ltac:(done)) H Hso E)
      as (v & o2 & h2 & El & Hv & Hso2 & H2 & E').
    apply at_pos_app in Hp. destruct (skip_blank w _ _ _ Hp Hw eq_refl) as [Es Hp2]. rewrite Es in E'. cbn [cbind] in E'.
    rewrite (at_pos_rd _ _ _ _ Hp2) in E'. cbn [Z.eqb Pos.eqb cbind] in E'. apply at_pos_next in Hp2.
    destruct (members_head _ _ Hms) as (rb & ->). rewrite <- app_assoc in Hp2. cbn [app] in Hp2.
    destruct (skip_blank w' _ _ _ Hp2 Hw' eq_refl) as [Es2 Hp3]. rewrite Es2 in E'. cbn [cbind] in E'.
    eapply (IH Hdepth _ _ _ _ t h0 rest) in E' as (cnt' & l & -> & E2 & Hl); [|exact Hp3|exact H2|exact Hso2].
    exists cnt', (mkMember (next_block h) (fst m) v :: l). split; [do 2 f_equal; autorewrite with blen_db; lia|].
    split; [by rewrite E2, El, <- app_assoc|by constructor].
Qed.
End Level.

Lemma doc_depth_array l n : doc_depth (DArray l) <= n -> 1 <= n /\ Forall (fun d => doc_depth d <= n - 1) l.
Proof.
  cbn [doc_depth]. intros H. assert (0 <= foldr (fun d m => Z.max (doc_depth d) m) 0 l) as H0 by (clear; induction l; cbn; lia).
  split; [lia|]. assert (foldr (fun d m => Z.max (doc_depth d) m) 0 l <= n - 1) as H1 by lia. clear H H0.
  induction l as [|d l IH]; constructor; cbn [foldr] in H1; [lia|]. apply IH. lia.
Qed.

Lemma doc_depth_object l n : doc_depth (DObject l) <= n -> 1 <= n /\ Forall (fun m => doc_depth (snd m) <= n - 1) l.
Proof.
  cbn [doc_depth]. intros H. assert (0 <= foldr (fun m k => Z.max (doc_depth (snd m)) k) 0 l) as H0 by (clear; induction l; cbn; lia).
  split; [lia|]. assert (foldr (fun m k => Z.max (doc_depth (snd m)) k) 0 l <= n - 1) as H1 by lia. clear H H0.
  induction l as [|d l IH]; constructor; cbn [foldr] in H1; [lia|]. apply IH. lia.
Qed.

Section Container.
Context (value : Z -> Z -> heap -> comp (outcome (json_value * Z) * heap)) (depth : Z) (Hd : depth <> JSON_DEPTH_LIMIT).
Context (Hvalue : parses doc (depth + 1) (value (depth + 1))).
Context (Hreads : forall d b, doc_depth d <= JSON_DEPTH_LIMIT - (depth + 1) -> text_of d b -> reads d b (value (depth + 1))).

Lemma array_read_nil w i t h r h' : blank w -> at_pos text i (w ++ 93 :: t) ->
  parse_json_array text value depth i h = Ret (r, h') -> r = Ok (mkArray [] 0, i + blen w + 1).
Proof.
  intros Hw Hp E. unfold parse_json_array in E. destruct (Z.eqb_spec depth JSON_DEPTH_LIMIT); [done|]. unfold parse_json_elements in E.
  destruct (skip_blank w _ _ _ Hp Hw eq_refl) as [Es Hp2]. rewrite Es in E. cbn [cbind] in E. rewrite (at_pos_rd _ _ _ _ Hp2) in E. cbn in E.
  by injection E as <- <-.
Qed.

Lemma array_read l w b i t h0 rest h r h' : blank w -> elements_text l b -> doc_depth (DArray l) <= JSON_DEPTH_LIMIT - depth ->
  at_pos text i (w ++ b ++ t) -> acquires h0 rest h -> parse_json_array text value depth i h = Ret (r, h') ->
  exists a, r = Ok (a, i + blen w + blen b) /\ denotes (DArray l) (JArray a).
Proof.
  intros Hw Hl [_ Hdepth]%doc_depth_array Hp H E. unfold parse_json_array in E. destruct (Z.eqb_spec depth JSON_DEPTH_LIMIT); [done|].
  unfold parse_json_elements in E. destruct (elements_head l b Hl) as (c & rb & Eb & Hc & H93).
  pose proof Hp as Hp1. rewrite Eb in Hp1. cbn [app] in Hp1. destruct (skip_blank w _ _ _ Hp1 Hw Hc) as [Es Hp2]. rewrite Es in E. cbn [cbind] in E.
  rewrite (at_pos_rd _ _ _ _ Hp2) in E. cbn [cbind] in E. destruct (Z.eqb_spec c 93); [done|].
  apply at_pos_app in Hp. apply cbind_Ret_inv in E as ([[r' l'] h1] & E1 & E).
  replace (JSON_DEPTH_LIMIT - depth - 1) with (JSON_DEPTH_LIMIT - (depth + 1)) in Hdepth by lia.
  eapply (elements_read value _ Hvalue Hreads l b Hl Hdepth _ _ _ [] t h0 rest) in E1 as (cnt & es & -> & -> & Hes); [|exact Hp|exact H].
  injection E as <- <-. exists (mkArray es cnt). split; [done|]. by constructor.
Qed.

Lemma object_read_nil w i t h r h' : blank w -> at_pos text i (w ++ 125 :: t) ->
  parse_json_object text value depth i h = Ret (r, h') -> r = Ok (mkObject [] RB_ROOT 0, i + blen w + 1).
Proof.
  intros Hw Hp E. unfold parse_json_object in E. destruct (Z.eqb_spec depth JSON_DEPTH_LIMIT); [done|]. unfold parse_json_members in E.
  destruct (skip_blank w _ _ _ Hp Hw eq_refl) as [Es Hp2]. rewrite Es in E. cbn [cbind] in E. rewrite (at_pos_rd _ _ _ _ Hp2) in E. cbn in E.
  by injection E as <- <-.
Qed.

Lemma object_read l w b i t h0 rest h r h' : blank w -> members_text l b -> doc_depth (DObject l) <= JSON_DEPTH_LIMIT - depth ->
  at_pos text i (w ++ b ++ t) -> acquires h0 rest h -> parse_json_object text value depth i h = Ret (r, h') ->
  exists o, r = Ok (o, i + blen w + blen b) /\ denotes (DObject l) (JObject o).
Proof.
  intros Hw Hl [_ Hdepth]%doc_depth_object Hp H E. unfold parse_json_object in E. destruct (Z.eqb_spec depth JSON_DEPTH_LIMIT); [done|].
  unfold parse_json_members in E. destruct (members_head l b Hl) as (rb & Eb).
  pose proof Hp as Hp1. rewrite Eb in Hp1. cbn [app] in Hp1. destruct (skip_blank w _ _ _ Hp1 Hw eq_refl) as [Es Hp2]. rewrite Es in E. cbn [cbind] in E.
  rewrite (at_pos_rd _ _ _ _ Hp2) in E. cbn [Z.eqb Pos.eqb cbind] in E.
  apply at_pos_app in Hp. apply cbind_Ret_inv in E as ([[r' o'] h1] & E1 & E).
  replace (JSON_DEPTH_LIMIT - depth - 1) with (JSON_DEPTH_LIMIT - (depth + 1)) in Hdepth by lia.
  eapply (members_read value _ Hvalue Hreads l b Hl Hdepth _ _ _ empty_object t h0 rest) in E1 as (cnt & ms & -> & Eo & Hms);
    [|exact Hp|exact H|split; [apply empty_object_ok|constructor]].
  injection E as <- <-. eexists. split; [done|]. constructor. cbn [o_head]. by rewrite Eo.
Qed.
End Container.

(** The first character selects a word. *)
Ltac read_word Hp E :=
  let Hp2 := fresh "Hp" in
  pose proof Hp as Hp2; cbn [app] in Hp2; rewrite (at_pos_rd _ _ _ _ Hp2) in E; cbn [cbind] in E;
  match type of E with context [isdigit ?c] => change (isdigit c) with false in E end;
  cbn [Z.eqb Pos.eqb orb] in E; rewrite (word_read _ _ _ _ _ Hp) in E; injection E as <- <-;
  eexists; split; [done|constructor].

(** The first character opens an array or an object. *)
Ltac open_bracket Hp E E1 :=
  let rx := fresh "rx" in let hx := fresh "hx" in
  cbn [app] in Hp; rewrite <- ?app_assoc in Hp; cbn [app] in Hp; rewrite (at_pos_rd _ _ _ _ Hp) in E;
  cbn [Z.eqb Pos.eqb cbind orb] in E;
  match type of E with context [isdigit ?c] => change (isdigit c) with false in E end; cbn iota in E;
  apply at_pos_next in Hp; apply cbind_Ret_inv in E as ([rx hx] & E1 & E).

Lemma value_read fuel : forall d b depth, 0 <= depth -> depth + doc_depth d <= JSON_DEPTH_LIMIT ->
  JSON_DEPTH_LIMIT - depth < Z.of_nat fuel -> text_of d b -> reads d b (parse_json_value text fuel depth).
Proof.
  induction fuel as [|f IH]; intros d b depth H0 Hdepth Hf Hd i t h0 rest h r h' Hp Ht H E; [discriminate|].
  cbn [parse_json_value] in E. unfold json_value_switch in E.
  assert (depth + 1 <= JSON_DEPTH_LIMIT -> parses doc (depth + 1) (parse_json_value text f (depth + 1))) as Hparses
    by (intros; apply parse_value_spec; auto; lia).
  assert (forall d' b', doc_depth d' <= JSON_DEPTH_LIMIT - (depth + 1) -> text_of d' b' -> reads d' b' (parse_json_value text f (depth + 1)))
    as Hreads by (intros; apply IH; auto; lia).
  destruct Hd as [s b Hs|neg m e b Hn|w Hw|l w b Hw Hl|w Hw|l w b Hw Hl| | |].
  - cbn [app] in Hp. rewrite <- app_assoc in Hp. cbn [app] in Hp.
    rewrite (at_pos_rd _ _ _ _ Hp) in E. cbn [Z.eqb Pos.eqb cbind] in E. apply at_pos_next in Hp.
    destruct (string_read s b _ _ Hs Hp) as (n & En & Es). rewrite En in E. cbn [cbind] in E. rewrite malloc_plenty in E. rewrite Es in E. cbn [cbind] in E.
    injection E as <- <-. eexists. split; [|constructor]. do 2 f_equal. autorewrite with blen_db. lia.
  - destruct (number_head _ _ _ _ Hn) as (d & r' & E1 & Hdg & _).
    assert (rd text i = Ret (if neg then 45 else d)) as Erd.
    { rewrite E1 in Hp. destruct neg; cbn [app] in Hp; by rewrite (at_pos_rd _ _ _ _ Hp). }
    rewrite Erd in E. cbn [cbind] in E. rewrite (number_read neg m e b i t Hn Hp Ht) in E. cbn [cbind] in E.
    assert (((if neg then 45 else d) =? 34) = false) as E34 by (destruct neg; [done|]; destruct (Z.eqb_spec d 34); [lia|done]).
    assert (((if neg then 45 else d) =? 45) || isdigit (if neg then 45 else d) = true) as E45
      by (destruct neg; [done|]; apply orb_true_intro; right; unfold isdigit; lia).
    rewrite E34, E45 in E. injection E as <- <-. eexists. split; [done|constructor].
  - cbn [doc_depth foldr] in Hdepth. open_bracket Hp E E1.
    eapply (object_read_nil _ depth) in E1 as Er; [|lia|done|exact Hp]. subst. injection E as <- <-.
    eexists. split; [do 2 f_equal; autorewrite with blen_db; lia|by repeat constructor].
  - open_bracket Hp E E1. destruct (doc_depth_object l (JSON_DEPTH_LIMIT - depth)) as [Hlt _]; [lia|].
    eapply (object_read _ depth ltac:(lia) (Hparses ltac:(lia)) Hreads l w b) in E1 as (o & Er & Ho); [|done|done|lia|exact Hp|exact H]. subst.
    injection E as <- <-. eexists. split; [|exact Ho]. do 2 f_equal. autorewrite with blen_db. lia.
  - cbn [doc_depth foldr] in Hdepth. open_bracket Hp E E1.
    eapply (array_read_nil _ depth) in E1 as Er; [|lia|done|exact Hp]. subst. injection E as <- <-.
    eexists. split; [do 2 f_equal; autorewrite with blen_db; lia|by repeat constructor].
  - open_bracket Hp E E1. destruct (doc_depth_array l (JSON_DEPTH_LIMIT - depth)) as [Hlt _]; [lia|].
    eapply (array_read _ depth ltac:(lia) (Hparses ltac:(lia)) Hreads l w b) in E1 as (a & Er & Ha); [|done|done|lia|exact Hp|exact H]. subst.
    injection E as <- <-. eexists. split; [|exact Ha]. do 2 f_equal. autorewrite with blen_db. lia.
  - read_word Hp E.
  - read_word Hp E.
  - read_word Hp E.
Qed.
End Reading.

(** ** Whole texts *)

(** No NUL and only bytes: what a C string holds. *)
Definition c_text (b : list Z) : Prop := Forall (fun c => 0 < c < 256) b.

Lemma c_text_app a b : c_text (a ++ b) <-> c_text a /\ c_text b.
Proof. apply Forall_app. Qed.

Lemma c_text_cons c b : c_text (c :: b) <-> 0 < c < 256 /\ c_text b.
Proof. unfold c_text. by rewrite Forall_cons. Qed.

Lemma blank_c_text w : blank w -> c_text w.
Proof.
  intros H. eapply Forall_impl; [exact H|]. cbn. intros c Hc. rewrite !elem_of_cons, elem_of_nil in Hc. lia.
Qed.

Lemma digits_c_text ds : Forall (fun d => 48 <= d <= 57) ds -> c_text ds.
Proof. intros H. eapply Forall_impl; [exact H|]. cbn. lia. Qed.

Lemma number_c_text neg m e b : number_text neg m e b -> c_text b.
Proof.
  intros [neg' d int fs frac e' ex [_ Hint] _ Hfrac Hex]. rewrite !c_text_app. split; [destruct neg'; repeat constructor; lia|].
  split; [by apply digits_c_text|]. split.
  - destruct Hfrac as [[_ ->]|[[_ Hfs] ->]]; [constructor|]. apply c_text_cons. split; [lia|by apply digits_c_text].
  - destruct Hex as [|c sign ds Hc Hs [_ Hds]]; [constructor|]. rewrite c_text_cons, c_text_app. split; [lia|].
    split; [|by apply digits_c_text]. rewrite !elem_of_cons, elem_of_nil in Hs.
    destruct Hs as [->|[->|[->|[]]]]; repeat constructor; lia.
Qed.

Lemma hexes_c_text txt u : hex4_text txt u -> c_text txt.
Proof. intros H%hex4_text_chars. eapply Forall_impl; [exact H|]. cbn. lia. Qed.

Lemma chars_c_text s b : chars_text s b -> c_text b.
Proof.
  induction 1 as [|c s b Hc _ _ _ IH|e c s b He _ IH|code txt s b _ _ He _ IH]; [constructor|..]; rewrite ?c_text_cons.
  - split; [lia|done].
  - apply short_escape in He as (_ & He & _). split; [lia|]. split; [lia|done].
  - split; [lia|]. split; [lia|]. apply c_text_app. split; [|done].
    destruct He as [[_ H]|(_ & hi & lo & Hhi & Hlo & ->)]; [by eapply hexes_c_text|].
    rewrite !c_text_app. split; [by eapply hexes_c_text|]. split; [repeat constructor; lia|by eapply hexes_c_text].
Qed.

Lemma text_of_c_text d b : text_of d b -> c_text b.
Proof.
  apply (text_of_mut (fun d b _ => c_text b) (fun l b _ => c_text b) (fun l b _ => c_text b) (fun m b _ => c_text b)); intros;
    rewrite ?c_text_cons, ?c_text_app, ?c_text_cons, ?c_text_app, ?c_text_cons, ?c_text_app; repeat split;
    first [lia | assumption | by apply blank_c_text | by eapply chars_c_text | by eapply number_c_text | by constructor
          | by repeat constructor ].
Qed.

(** C13: every JSON text in the grammar of RFC 8259 whose document nests at
    most 1024 deep is parsed as this document: with blanks anywhere between the
    tokens, any number (integer, fraction, exponent), any escape of a code point
    (a lone surrogate is none and is refused).  As long as memory is not refused, [json_value_parse] returns a value with the same
    strings, the nearest double for each number, and the same members and
    elements in the same order. *)
Theorem json_text_parsed d b w w' h : text_of d b -> blank w -> blank w' -> doc_depth d <= 1024 ->
  blen (w ++ b ++ w') < 2 ^ 31 - 1 -> heap_ok h ->
  exists block v h', json_value_parse (A := plenty) ((w ++ b ++ w') ++ [0]) h = Ret (Some (block, v), h') /\ denotes d v.
Proof.
  intros Hd Hw Hw' Hdepth Hlen Hh.
  assert (c_text (w ++ b ++ w')) as Htext
    by (rewrite !c_text_app; split; [by apply blank_c_text|]; split; [by eapply text_of_c_text|by apply blank_c_text]).
  set (doc := w ++ b ++ w') in *.
  assert (Forall is_byte doc) as Hdoc by (eapply Forall_impl; [exact Htext|]; cbn; intros c Hc; unfold is_byte; lia).
  assert (0 ∉ doc) as Hnul by (unfold c_text in Htext; rewrite Forall_forall in Htext; intros H%Htext; cbn in H; lia).
  assert (0 <= 0 <= JSON_DEPTH_LIMIT) as H0 by (unfold JSON_DEPTH_LIMIT; lia).
  assert (JSON_DEPTH_LIMIT - 0 < Z.of_nat depth_rounds) as Hr by done.
  unfold json_value_parse. rewrite malloc_plenty. set (h1 := mkHeap _ _).
  assert (acquires h [next_block h] h1) as H1 by (apply (malloc_acquires (A := plenty) h Hh)).
  assert (at_pos (doc ++ [0]) 0 (w ++ b ++ w' ++ [0])) as Hp
    by (replace (w ++ b ++ w' ++ [0]) with (doc ++ [0]) by (unfold doc; by rewrite <- !app_assoc); apply at_pos_0).
  subst doc.
  destruct (text_head d b Hd) as (c & l & Ec & Hc & _). pose proof Hp as Hp1. rewrite Ec in Hp1 at 2. cbn [app] in Hp1.
  destruct (skip_blank _ w 0 c _ Hp1 Hw Hc) as [Es _]. rewrite Es. cbn [cbind]. rewrite Z.add_0_l.
  apply at_pos_app in Hp. rewrite Z.add_0_l in Hp. pose proof Hp as Hp2. rewrite Ec in Hp2 at 2. cbn [app] in Hp2.
  destruct (parse_value_spec (A := plenty) (w ++ b ++ w') Hdoc Hnul Hlen depth_rounds 0 H0 Hr (blen w) h [next_block h] h1) as ([r h2] & E & _);
    [by eapply at_pos_inside|done|].
  rewrite E. cbn [cbind].
  destruct (value_read (w ++ b ++ w') Hdoc Hnul Hlen depth_rounds d b 0 ltac:(lia) Hdepth Hr Hd (blen w) (w' ++ [0]) h [next_block h] h1 r h2 Hp)
    as (v & -> & Hv); [by apply follow_blank|done..|].
  apply at_pos_app in Hp. destruct (skip_blank _ w' _ 0 [] Hp Hw' eq_refl) as [-> Hp3]. cbn [cbind].
  rewrite (at_pos_rd _ _ _ _ Hp3). cbn. by exists (next_block h), v, h2.
Qed.

(** An array of a word, an object with two members of one name, -0.5E+2 and 0,
    with blanks; the name is a newline as an escape, a string the euro sign. *)
Definition sample_text : list Z :=
  [91; 116; 114; 117; 101; 32; 44; 10;
   123; 34; 92; 110; 34; 32; 58; 9; 34; 92; 117; 50; 48; 65; 67; 97; 34; 44; 34; 92; 110; 34; 58; 110; 117; 108; 108; 125; 44;
   45; 48; 46; 53; 69; 43; 50; 44; 48; 93].
Definition sample_read : json_doc :=
  DArray [DTrue; DObject [([10], DString [226; 130; 172; 97]); ([10], DNull)]; DNumber true 5 1; DNumber false 0 0].

Ltac in_list := repeat first [apply list_elem_of_here | apply list_elem_of_further].

Lemma sample_text_ok : text_of sample_read sample_text.
Proof.
  assert (chars_text [10] [92; 110]) as Hk by (apply (chars_escape 110 10); [in_list|constructor]).
  assert (chars_text [226; 130; 172; 97] [92; 117; 50; 48; 65; 67; 97]) as Hs.
  { apply (chars_unicode 8364 [50; 48; 65; 67] [97] [97]); [lia|lia| |apply chars_plain; [lia..|constructor]].
    left. split; [lia|]. exists 50, 48, 65, 67, 2, 0, 10, 12. split; [done|].
    split; [by apply (hex_dec 2)|]. split; [by apply (hex_dec 0)|]. split; [by apply (hex_upper 10)|].
    split; [by apply (hex_upper 12)|done]. }
  assert (number_text true 5 1 [45; 48; 46; 53; 69; 43; 50]) as Hn.
  { apply (number_intro true 48 [] [53] [46; 53] 2 [69; 43; 50]); [split; [done|repeat constructor; lia]|done| |].
    - right. split; [split; [done|repeat constructor; lia]|done].
    - apply (exponent_some 69 [43] [50]); [lia|in_list|split; [done|repeat constructor; lia] ]. }
  assert (number_text false 0 0 [48]) as Hz.
  { apply (number_intro false 48 [] [] [] 0 []); [split; [done|repeat constructor; lia]|done|by left|constructor]. }
  assert (forall c, c ∈ [32; 9; 10; 13] -> blank [c]) as Hb by (intros c Hc; by constructor).
  assert (blank []) as Hb0 by constructor.
  apply (text_array _ []); [done|].
  apply (elements_more _ [116; 114; 117; 101] [32] [10]); [constructor|apply Hb; in_list|apply Hb; in_list|].
  apply (elements_more _ [123; 34; 92; 110; 34; 32; 58; 9; 34; 92; 117; 50; 48; 65; 67; 97; 34; 44; 34; 92; 110; 34; 58; 110; 117; 108; 108; 125] [] []);
    [|done..|].
  - apply (text_object _ []); [done|].
    apply (members_more _ [34; 92; 110; 34; 32; 58; 9; 34; 92; 117; 50; 48; 65; 67; 97; 34] [] []); [|done..|].
    + apply (member_intro _ [92; 110] [32] [9] _ [34; 92; 117; 50; 48; 65; 67; 97; 34]);
        [done|apply Hb; in_list|apply Hb; in_list|by apply (text_string _ [92; 117; 50; 48; 65; 67; 97])].
    + apply (members_last _ [34; 92; 110; 34; 58; 110; 117; 108; 108] []); [|done].
      apply (member_intro _ [92; 110] [] [] _ [110; 117; 108; 108]); [done|done|done|constructor].
  - apply (elements_more _ [45; 48; 46; 53; 69; 43; 50] [] []); [by constructor|done..|].
    apply (elements_last _ [48] []); [by constructor|done].
Qed.

Lemma json_text_parsed_witness : exists block v h',
  json_value_parse (A := plenty) (([32] ++ sample_text ++ [10]) ++ [0]) empty_heap = Ret (Some (block, v), h') /\ denotes sample_read v.
Proof.
  apply (json_text_parsed sample_read sample_text [32] [10] empty_heap);
    [apply sample_text_ok|repeat constructor; in_list..|vm_compute; discriminate|vm_compute; reflexivity|intros b; cbn; set_solver].
Defined.
