(* ===== verification/Crc16.v ===== *)
(** * Hash slots of the cluster client

    [crc16] (libredis/hiredis/crc16.c), the table driven CRC, and
    [keyHashSlot] (libredis/hiredis/hircluster.c), which maps a key to one of
    the 16384 hash slots.  The table driven routine is proved equal to the
    bit-serial CRC-16/XMODEM with polynomial 0x1021, and the slot function to
    the hash-tag rule of the cluster specification. *)

From S2P Require Import Prelude.

Definition crc16tab : list Z :=
  [0x0000; 0x1021; 0x2042; 0x3063; 0x4084; 0x50a5; 0x60c6; 0x70e7; 0x8108;
   0x9129; 0xa14a; 0xb16b; 0xc18c; 0xd1ad; 0xe1ce; 0xf1ef; 0x1231; 0x0210;
   0x3273; 0x2252; 0x52b5; 0x4294; 0x72f7; 0x62d6; 0x9339; 0x8318; 0xb37b;
   0xa35a; 0xd3bd; 0xc39c; 0xf3ff; 0xe3de; 0x2462; 0x3443; 0x0420; 0x1401;
   0x64e6; 0x74c7; 0x44a4; 0x5485; 0xa56a; 0xb54b; 0x8528; 0x9509; 0xe5ee;
   0xf5cf; 0xc5ac; 0xd58d; 0x3653; 0x2672; 0x1611; 0x0630; 0x76d7; 0x66f6;
   0x5695; 0x46b4; 0xb75b; 0xa77a; 0x9719; 0x8738; 0xf7df; 0xe7fe; 0xd79d;
   0xc7bc; 0x48c4; 0x58e5; 0x6886; 0x78a7; 0x0840; 0x1861; 0x2802; 0x3823;
   0xc9cc; 0xd9ed; 0xe98e; 0xf9af; 0x8948; 0x9969; 0xa90a; 0xb92b; 0x5af5;
   0x4ad4; 0x7ab7; 0x6a96; 0x1a71; 0x0a50; 0x3a33; 0x2a12; 0xdbfd; 0xcbdc;
   0xfbbf; 0xeb9e; 0x9b79; 0x8b58; 0xbb3b; 0xab1a; 0x6ca6; 0x7c87; 0x4ce4;
   0x5cc5; 0x2c22; 0x3c03; 0x0c60; 0x1c41; 0xedae; 0xfd8f; 0xcdec; 0xddcd;
   0xad2a; 0xbd0b; 0x8d68; 0x9d49; 0x7e97; 0x6eb6; 0x5ed5; 0x4ef4; 0x3e13;
   0x2e32; 0x1e51; 0x0e70; 0xff9f; 0xefbe; 0xdfdd; 0xcffc; 0xbf1b; 0xaf3a;
   0x9f59; 0x8f78; 0x9188; 0x81a9; 0xb1ca; 0xa1eb; 0xd10c; 0xc12d; 0xf14e;
   0xe16f; 0x1080; 0x00a1; 0x30c2; 0x20e3; 0x5004; 0x4025; 0x7046; 0x6067;
   0x83b9; 0x9398; 0xa3fb; 0xb3da; 0xc33d; 0xd31c; 0xe37f; 0xf35e; 0x02b1;
   0x1290; 0x22f3; 0x32d2; 0x4235; 0x5214; 0x6277; 0x7256; 0xb5ea; 0xa5cb;
   0x95a8; 0x8589; 0xf56e; 0xe54f; 0xd52c; 0xc50d; 0x34e2; 0x24c3; 0x14a0;
   0x0481; 0x7466; 0x6447; 0x5424; 0x4405; 0xa7db; 0xb7fa; 0x8799; 0x97b8;
   0xe75f; 0xf77e; 0xc71d; 0xd73c; 0x26d3; 0x36f2; 0x0691; 0x16b0; 0x6657;
   0x7676; 0x4615; 0x5634; 0xd94c; 0xc96d; 0xf90e; 0xe92f; 0x99c8; 0x89e9;
   0xb98a; 0xa9ab; 0x5844; 0x4865; 0x7806; 0x6827; 0x18c0; 0x08e1; 0x3882;
   0x28a3; 0xcb7d; 0xdb5c; 0xeb3f; 0xfb1e; 0x8bf9; 0x9bd8; 0xabbb; 0xbb9a;
   0x4a75; 0x5a54; 0x6a37; 0x7a16; 0x0af1; 0x1ad0; 0x2ab3; 0x3a92; 0xfd2e;
   0xed0f; 0xdd6c; 0xcd4d; 0xbdaa; 0xad8b; 0x9de8; 0x8dc9; 0x7c26; 0x6c07;
   0x5c64; 0x4c45; 0x3ca2; 0x2c83; 0x1ce0; 0x0cc1; 0xef1f; 0xff3e; 0xcf5d;
   0xdf7c; 0xaf9b; 0xbfba; 0x8fd9; 0x9ff8; 0x6e17; 0x7e36; 0x4e55; 0x5e74;
   0x2e93; 0x3eb2; 0x0ed1; 0x1ef0].

(** One iteration of the loop of [crc16]: the operands are promoted to [int],
    and the assignment truncates to [uint16_t]. *)
Definition crc16_step (crc b : Z) : Z :=
  u16 (Z.lxor (Z.shiftl crc 8)
              (nth (Z.to_nat (Z.land (Z.lxor (Z.shiftr crc 8) b) 255)) crc16tab 0)).

Fixpoint crc16_loop (counter : nat) (buf : list Z) (crc : Z) : comp Z :=
  match counter with
  | O => Ret crc
  | S n =>
      match buf with
      | [] => Oob
      | b :: buf' => crc16_loop n buf' (crc16_step crc b)
      end
  end.

Definition crc16 (buf : list Z) (len : Z) : comp Z :=
  crc16_loop (Z.to_nat len) buf 0.

(** The two searches of [keyHashSlot]: the index of the first occurrence of
    [c] at or after [i], or [keylen]. *)
Fixpoint slot_scan (fuel : nat) (key : list Z) (keylen c i : Z) : comp Z :=
  if i <? keylen then
    let! b := rd key i in
    if b =? c then Ret i else
    match fuel with
    | O => NoFuel
    | S f => slot_scan f key keylen c (i + 1)
    end
  else Ret i.

Definition keyHashSlot (key : list Z) (keylen : Z) : comp Z :=
  let! s := slot_scan (Z.to_nat keylen) key keylen 123 0 in
  if s =? keylen then
    let! h := crc16 key keylen in Ret (Z.land h 16383)
  else
    let! e := slot_scan (Z.to_nat keylen) key keylen 125 (s + 1) in
    if (e =? keylen) || (e =? s + 1) then
      let! h := crc16 key keylen in Ret (Z.land h 16383)
    else
      let! h := crc16 (drop (Z.to_nat (s + 1)) key) (e - s - 1) in
      Ret (Z.land h 16383).

(** ** Reference: the bit-serial CRC *)

(** One shift of a 16-bit register with polynomial x^16 + x^12 + x^5 + 1. *)
Definition crc_shift (x : Z) : Z :=
  u16 (Z.lxor (Z.shiftl x 1) (if Z.testbit x 15 then 0x1021 else 0)).

Definition crc_byte (crc b : Z) : Z :=
  Nat.iter 8 crc_shift (Z.lxor crc (Z.shiftl b 8)).

Definition crc16_spec (buf : list Z) : Z := foldl crc_byte 0 buf.

(** The part of a key that is hashed: what lies between the first '{' and
    the first '}' after it, when both exist and the text is not empty. *)
Fixpoint upto (c : Z) (l : list Z) : option (list Z) :=
  match l with
  | [] => None
  | b :: l' => if b =? c then Some [] else cons b <$> upto c l'
  end.

Fixpoint after (c : Z) (l : list Z) : option (list Z) :=
  match l with
  | [] => None
  | b :: l' => if b =? c then Some l' else after c l'
  end.

Definition hash_tag (key : list Z) : list Z :=
  match after 123 key ≫= upto 125 with
  | Some (b :: t) => b :: t
  | _ => key
  end.

(** ** The table driven step is eight bit-serial shifts *)

(** The two halves of a shifted register: the table index depends on the high
    byte only, and the low byte only moves up. *)
Lemma crc16tab_spec :
  forallb (fun i => Nat.iter 8 crc_shift (Z.shiftl i 8) =? nth (Z.to_nat i) crc16tab 0)
          (seqZ 0 256) = true.
Proof. vm_compute. reflexivity. Qed.

Lemma crc16tab_lookup i :
  0 <= i < 256 -> Nat.iter 8 crc_shift (Z.shiftl i 8) = nth (Z.to_nat i) crc16tab 0.
Proof.
  intros Hi. pose proof crc16tab_spec as H. rewrite forallb_forall in H.
  specialize (H i). rewrite <- list_elem_of_In, elem_of_seqZ in H.
  apply Z.eqb_eq, H. lia.
Qed.

Lemma u16_land z : u16 z = Z.land z (Z.ones 16).
Proof. unfold u16. by rewrite Z.land_ones by lia. Qed.

Lemma u16_testbit z i : 0 <= i -> Z.testbit (u16 z) i = (i <? 16) && Z.testbit z i.
Proof.
  intros. unfold u16. destruct (Z.ltb_spec i 16).
  - by rewrite Z.mod_pow2_bits_low.
  - by rewrite Z.mod_pow2_bits_high by lia.
Qed.

Lemma crc_shift_lxor x y : crc_shift (Z.lxor x y) = Z.lxor (crc_shift x) (crc_shift y).
Proof.
  unfold crc_shift. apply Z.bits_inj'. intros i Hi.
  rewrite !Z.lxor_spec, !u16_testbit, Z.shiftl_lxor, !Z.lxor_spec by lia.
  generalize (Z.testbit (Z.shiftl x 1) i), (Z.testbit (Z.shiftl y 1) i).
  intros bx by'. destruct (i <? 16), (Z.testbit x 15), (Z.testbit y 15); cbn [xorb andb];
    rewrite ?Z.bits_0; destruct bx, by', (Z.testbit 4129 i); reflexivity.
Qed.

Lemma crc_shift_iter_lxor n x y :
  Nat.iter n crc_shift (Z.lxor x y) = Z.lxor (Nat.iter n crc_shift x) (Nat.iter n crc_shift y).
Proof. induction n as [|n IH]; simpl; [done|]. by rewrite IH, crc_shift_lxor. Qed.

(** The low byte survives eight shifts untouched. *)
Lemma crc_shift_low :
  forallb (fun i => Nat.iter 8 crc_shift i =? Z.shiftl i 8) (seqZ 0 256) = true.
Proof. vm_compute. reflexivity. Qed.

Lemma crc_shift_low_byte i : 0 <= i < 256 -> Nat.iter 8 crc_shift i = Z.shiftl i 8.
Proof.
  intros Hi. pose proof crc_shift_low as H. rewrite forallb_forall in H.
  specialize (H i). rewrite <- list_elem_of_In, elem_of_seqZ in H.
  apply Z.eqb_eq, H. lia.
Qed.

(** Every 16-bit register is its high byte shifted, xor its low byte. *)
Lemma split_u16 w : 0 <= w < 65536 -> w = Z.lxor (Z.shiftl (Z.shiftr w 8) 8) (Z.land w 255).
Proof.
  intros Hw. apply Z.bits_inj'. intros i Hi.
  rewrite Z.lxor_spec, Z.shiftl_spec, Z.land_spec by lia.
  change 255 with (Z.ones 8). rewrite Z.testbit_ones_nonneg by lia.
  destruct (Z.ltb_spec i 8).
  - rewrite (Z.testbit_neg_r _ (i - 8)) by lia. by rewrite andb_true_r.
  - rewrite Z.shiftr_spec by lia. replace (i - 8 + 8) with i by lia.
    rewrite andb_false_r. by rewrite xorb_false_r.
Qed.

Lemma shiftr8_byte w : 0 <= w < 65536 -> 0 <= Z.shiftr w 8 < 256.
Proof. intros. rewrite Z.shiftr_div_pow2 by lia. dlia. Qed.

Lemma land255_byte w : 0 <= Z.land w 255 < 256.
Proof. change 255 with (Z.ones 8). rewrite Z.land_ones by lia. dlia. Qed.

(** Eight shifts of a register, by its two bytes. *)
Lemma crc_shift8 w :
  0 <= w < 65536 ->
  Nat.iter 8 crc_shift w =
  Z.lxor (nth (Z.to_nat (Z.shiftr w 8)) crc16tab 0) (Z.shiftl (Z.land w 255) 8).
Proof.
  intros Hw. rewrite (split_u16 w Hw) at 1. rewrite crc_shift_iter_lxor.
  by rewrite crc16tab_lookup, crc_shift_low_byte by auto using shiftr8_byte, land255_byte.
Qed.

Lemma crc16tab_range i : 0 <= nth (Z.to_nat i) crc16tab 0 < 65536.
Proof.
  assert (Forall (fun z => 0 <= z < 65536) crc16tab) as H.
  { unfold crc16tab. repeat (constructor; [lia|]). constructor. }
  destruct (Nat.lt_ge_cases (Z.to_nat i) (length crc16tab)) as [Hl|Hl].
  - rewrite Forall_forall in H. apply H, list_elem_of_In, nth_In, Hl.
  - rewrite nth_overflow by done. lia.
Qed.

(** The step of the loop is the bit-serial step. *)
Lemma crc16_step_spec crc b :
  0 <= crc < 65536 -> is_byte b -> crc16_step crc b = crc_byte crc b.
Proof.
  intros Hc Hb. unfold is_byte in Hb. unfold crc_byte, crc16_step.
  assert (0 <= Z.shiftl b 8 < 2 ^ 16) by (rewrite Z.shiftl_mul_pow2 by lia; lia).
  rewrite crc_shift8 by (apply (lxor_range 16); lia).
  rewrite Z.shiftr_lxor, Z.shiftr_shiftl_l by lia. rewrite Z.shiftl_0_r.
  rewrite (land_255_id (Z.lxor _ b)) by
    (apply (lxor_range 8); [lia|apply shiftr8_byte; lia|lia]).
  rewrite Z.lxor_comm. apply Z.bits_inj'. intros i Hi.
  pose proof (crc16tab_range (Z.lxor (Z.shiftr crc 8) b)) as Ht. revert Ht.
  generalize (nth (Z.to_nat (Z.lxor (Z.shiftr crc 8) b)) crc16tab 0). intros t Ht.
  rewrite u16_testbit, !Z.lxor_spec, !(Z.shiftl_spec _ 8 i) by lia.
  destruct (Z.ltb_spec i 8).
  { rewrite !(Z.testbit_neg_r _ (i - 8)) by lia.
    destruct (Z.ltb_spec i 16); [by rewrite andb_true_l|lia]. }
  rewrite Z.land_spec, Z.lxor_spec, Z.shiftl_spec by lia.
  change 255 with (Z.ones 8). rewrite Z.testbit_ones_nonneg by lia.
  destruct (Z.ltb_spec i 16), (Z.ltb_spec (i - 8) 8); try lia.
  - rewrite (Z.testbit_neg_r b) by lia. by rewrite xorb_false_r, andb_true_r.
  - rewrite (testbit_above 16 t) by lia. by rewrite andb_false_r.
Qed.

Lemma crc16_step_range crc b : 0 <= crc16_step crc b < 65536.
Proof. unfold crc16_step, u16. dlia. Qed.

Lemma crc16_loop_spec n buf crc :
  (n <= length buf)%nat -> Forall is_byte buf -> 0 <= crc < 65536 ->
  crc16_loop n buf crc = Ret (foldl crc_byte crc (take n buf)).
Proof.
  revert buf crc. induction n as [|n IH]; intros [|b buf] crc Hn Hb Hc; simpl in *; try done; try lia.
  inversion Hb; subst. rewrite IH by (auto using crc16_step_range; lia).
  by rewrite crc16_step_spec.
Qed.

Lemma crc16_sub key off n :
  Forall is_byte key -> 0 <= off -> 0 <= n -> off + n <= blen key ->
  crc16 (drop (Z.to_nat off) key) n = Ret (crc16_spec (sub key off n)).
Proof.
  intros Hb Ho Hn Hl. unfold crc16, crc16_spec, sub. apply crc16_loop_spec.
  - rewrite length_drop. unfold blen in Hl. lia.
  - by apply Forall_drop.
  - lia.
Qed.

Lemma crc16_all key : Forall is_byte key -> crc16 key (blen key) = Ret (crc16_spec key).
Proof.
  intros Hb. pose proof (crc16_sub key 0 (blen key) Hb) as H. change (Z.to_nat 0) with 0%nat in H.
  rewrite drop_0 in H. rewrite H by (pose proof (blen_nonneg key); lia).
  unfold sub, blen. rewrite Nat2Z.id, drop_0. by rewrite take_ge.
Qed.

(** ** The searches of [keyHashSlot] *)

(** Position of the first [c], or the length of the list. *)
Fixpoint idx (c : Z) (l : list Z) : nat :=
  match l with
  | [] => 0
  | b :: l' => if b =? c then 0 else S (idx c l')
  end.

Lemma idx_le c l : (idx c l <= length l)%nat.
Proof. induction l as [|b l IH]; simpl; [lia|]. destruct (b =? c); lia. Qed.

Lemma upto_idx c l : upto c l = if decide (idx c l < length l)%nat then Some (take (idx c l) l) else None.
Proof.
  induction l as [|b l IH]; simpl; [done|]. destruct (b =? c); [by rewrite decide_True by lia|].
  rewrite IH. destruct (decide (idx c l < length l)%nat).
  - by rewrite decide_True by lia.
  - by rewrite decide_False by lia.
Qed.

Lemma after_idx c l :
  after c l = if decide (idx c l < length l)%nat then Some (drop (S (idx c l)) l) else None.
Proof.
  induction l as [|b l IH]; simpl; [done|]. destruct (b =? c); [by rewrite decide_True by lia|].
  rewrite IH. destruct (decide (idx c l < length l)%nat).
  - by rewrite decide_True by lia.
  - by rewrite decide_False by lia.
Qed.

Lemma slot_scan_spec fuel key c i :
  0 <= i <= blen key -> (Z.to_nat (blen key - i) <= fuel)%nat ->
  slot_scan fuel key (blen key) c i = Ret (i + Z.of_nat (idx c (drop (Z.to_nat i) key))).
Proof.
  revert i. induction fuel as [|fuel IH]; intros i Hi Hf; simpl;
    (destruct (Z.ltb_spec i (blen key)); [|rewrite drop_ge by (unfold blen in *; lia); simpl; f_equal; lia]).
  - lia.
  - destruct (rd_in_bounds key i) as [b Hb]; [lia|]. rewrite Hb. simpl.
    apply rd_Ret_inv in Hb as [_ Hb]. rewrite (drop_S key b (Z.to_nat i)) by done. simpl.
    destruct (b =? c); [f_equal; lia|]. rewrite IH by lia.
    replace (Z.to_nat (i + 1)) with (S (Z.to_nat i)) by lia. f_equal. lia.
Qed.

Lemma land_slot h : 0 <= h -> Z.land h 16383 = h mod 16384.
Proof. intros. change 16383 with (Z.ones 14). by rewrite Z.land_ones by lia. Qed.

(** The characterisation of the hashed part used by the proofs below. *)
Lemma hash_tag_idx key :
  let s := idx 123 key in
  let e := idx 125 (drop (S s) key) in
  hash_tag key =
    if decide (s < length key /\ S s + e < length key /\ e <> 0)%nat
    then take e (drop (S s) key) else key.
Proof.
  intros s e. unfold hash_tag. rewrite after_idx. fold s.
  destruct (decide (s < length key)%nat) as [Hs|Hs]; simpl;
    [|rewrite decide_False by lia; done].
  rewrite upto_idx. fold e. rewrite length_drop.
  pose proof (idx_le 125 (drop (S s) key)) as Hle. fold e in Hle. rewrite length_drop in Hle.
  destruct (decide (e < length key - S s)%nat) as [He|He].
  - destruct e as [|e'] eqn:Ee; simpl; [by rewrite decide_False by lia|].
    rewrite decide_True by lia. destruct (drop (S s) key) as [|b t] eqn:Ed; [|done].
    apply (f_equal length) in Ed. rewrite length_drop in Ed. simpl in Ed. lia.
  - by rewrite decide_False by lia.
Qed.

(** With a tag [t] after a prefix without '{', exactly [t] is hashed. *)
Lemma idx_app_notin c l r : c ∉ l -> idx c (l ++ c :: r) = length l.
Proof.
  induction l as [|b l IH]; simpl; intros Hc; [by rewrite Z.eqb_refl|].
  apply not_elem_of_cons in Hc as [Hb Hc]. destruct (Z.eqb_spec b c); [congruence|].
  by rewrite IH.
Qed.

Lemma hash_tag_tagged p t s :
  123 ∉ p -> 125 ∉ t -> t <> [] -> hash_tag (p ++ 123 :: t ++ 125 :: s) = t.
Proof.
  intros Hp Ht Hne. rewrite hash_tag_idx, idx_app_notin by done.
  assert (drop (S (length p)) (p ++ 123 :: t ++ 125 :: s) = t ++ 125 :: s) as ->.
  { rewrite drop_app_ge by lia. replace (S (length p) - length p)%nat with 1%nat by lia. done. }
  rewrite idx_app_notin by done. rewrite decide_True.
  - by rewrite take_app_length.
  - destruct t; [done|]. rewrite !length_app, length_cons, length_app, length_cons. simpl. lia.
Qed.

Lemma crc16_spec_range buf : 0 <= crc16_spec buf.
Proof.
  unfold crc16_spec. cut (forall crc, 0 <= crc -> 0 <= foldl crc_byte crc buf); [auto with lia|].
  induction buf as [|b buf IH]; intros crc Hc; simpl; [done|]. apply IH.
  unfold crc_byte. cbn [Nat.iter nat_rect]. unfold crc_shift at 1. unfold u16. dlia.
Qed.

(** ** Properties *)

(** the table driven [crc16] reads exactly [len] bytes and computes the
    bit-serial CRC-16 with polynomial x^16 + x^12 + x^5 + 1. *)
Theorem crc16_is_bitserial (buf : list Z) (len : Z) :
  Forall is_byte buf -> 0 <= len <= blen buf ->
  crc16 buf len = Ret (crc16_spec (take (Z.to_nat len) buf)).
Proof.
  intros Hb Hl. unfold crc16, crc16_spec. apply crc16_loop_spec; [|done|lia].
  unfold blen in Hl. lia.
Qed.

(** The check value the header comment of crc16.c gives for "123456789". *)
Lemma crc16_is_bitserial_witness :
  crc16 [49; 50; 51; 52; 53; 54; 55; 56; 57] 9 = Ret 0x31C3.
Proof.
  rewrite (crc16_is_bitserial [49; 50; 51; 52; 53; 54; 55; 56; 57] 9);
    [vm_compute; reflexivity | | unfold blen; simpl; lia].
  solve_bytes.
Defined.

Lemma keyHashSlot_hash key :
  Forall is_byte key ->
  keyHashSlot key (blen key) = Ret (Z.land (crc16_spec (hash_tag key)) 16383).
Proof.
  intros Hb. pose proof (blen_nonneg key) as Hnn. unfold keyHashSlot.
  rewrite hash_tag_idx. rewrite slot_scan_spec by lia. rewrite drop_0. simpl cbind.
  pose proof (idx_le 123 key) as Hs. set (s := idx 123 key) in *. rewrite Z.add_0_l.
  destruct (Z.eqb_spec (Z.of_nat s) (blen key)) as [E|E]; unfold blen in E.
  { rewrite crc16_all by done. rewrite decide_False by lia. done. }
  rewrite slot_scan_spec by (unfold blen; lia). simpl cbind.
  replace (Z.to_nat (Z.of_nat s + 1)) with (S s) by lia.
  pose proof (idx_le 125 (drop (S s) key)) as He. rewrite length_drop in He.
  set (e := idx 125 (drop (S s) key)) in *.
  destruct (orb _ _) eqn:Eo.
  - rewrite crc16_all by done. rewrite decide_False; [done|].
    apply orb_prop in Eo as [Eo|Eo]; apply Z.eqb_eq in Eo; unfold blen in Eo; lia.
  - zify_bool. unfold blen in *. rewrite decide_True by lia.
    replace (S s) with (Z.to_nat (Z.of_nat s + 1)) by lia.
    rewrite crc16_sub by (auto; unfold blen; lia). simpl. unfold sub.
    do 4 f_equal. lia.
Qed.

(** C36: [keyHashSlot] is the slot function of the cluster specification: the
    CRC of the text between the first '{' and the first '}' after it when
    there is such a non-empty text, of the whole key otherwise, modulo 16384. *)
Theorem keyHashSlot_spec (key : list Z) :
  Forall is_byte key ->
  keyHashSlot key (blen key) = Ret (crc16_spec (hash_tag key) mod 16384).
Proof.
  intros Hb. rewrite keyHashSlot_hash by done. rewrite land_slot; [done|].
  apply crc16_spec_range.
Qed.

(** A key with a hash tag, in bytes, and the slot the source computes. *)
Lemma keyHashSlot_spec_witness :
  keyHashSlot [123; 97; 98; 125; 99] 5 = Ret (crc16_spec [97; 98] mod 16384).
Proof.
  change 5 with (blen [123; 97; 98; 125; 99]). rewrite (keyHashSlot_spec [123; 97; 98; 125; 99]).
  - reflexivity.
  - solve_bytes.
Defined.

(** keys that carry the same non-empty hash tag always live in the same
    slot, whatever surrounds the tag, and every slot is below 16384. *)
Theorem keyHashSlot_tag (p1 p2 t s1 s2 : list Z) :
  Forall is_byte (p1 ++ 123 :: t ++ 125 :: s1) ->
  Forall is_byte (p2 ++ 123 :: t ++ 125 :: s2) ->
  123 ∉ p1 -> 123 ∉ p2 -> 125 ∉ t -> t <> [] ->
  exists slot,
    0 <= slot < 16384 /\
    keyHashSlot (p1 ++ 123 :: t ++ 125 :: s1) (blen (p1 ++ 123 :: t ++ 125 :: s1)) = Ret slot /\
    keyHashSlot (p2 ++ 123 :: t ++ 125 :: s2) (blen (p2 ++ 123 :: t ++ 125 :: s2)) = Ret slot.
Proof.
  intros Hb1 Hb2 Hp1 Hp2 Ht Hne. exists (crc16_spec t mod 16384).
  rewrite !keyHashSlot_hash, !hash_tag_tagged by done.
  rewrite land_slot by apply crc16_spec_range. split; [dlia|done].
Qed.

Lemma keyHashSlot_tag_witness :
  exists slot, 0 <= slot < 16384 /\
    keyHashSlot [97; 123; 98; 125] 4 = Ret slot /\ keyHashSlot [123; 98; 125; 99; 100] 5 = Ret slot.
Proof.
  change 4 with (blen ([97] ++ 123 :: [98] ++ 125 :: [])).
  change 5 with (blen ([] ++ 123 :: [98] ++ 125 :: [99; 100])).
  apply (keyHashSlot_tag [97] [] [98] [] [99; 100]);
    try solve_bytes;
    try (rewrite list_elem_of_In; simpl; lia). discriminate.
Defined.
