(* ===== verification/MysqlWire.v ===== *)
(** * MySQL wire format: length-encoded values and the packet stream

    [decode_length_safe], [decode_string] (workflow/src/linux/protocol/
    mysql_byteorder.c) over a buffer and positions in it, and the incremental
    packet reader of mysql_stream.c. *)

From S2P Require Import Prelude.

(** ** mysql_byteorder.c *)

Definition NULL_LENGTH : Z := 2 ^ 64 - 1.

(** [uint2korr], [uint3korr] and [uint8korr] copy the bytes at the position
    (little endian). *)
Definition uintkorr (n : Z) (buf : list Z) (p : Z) : comp Z :=
  let! b := rd_block buf p n in Ret (le_val b).

(** Result of [decode_length_safe]: the return value, [*res] when it is
    written, and [*pos].  [buf] holds the bytes up to the end of the message;
    the position of its end is [blen buf]. *)
Definition decode_length_safe (buf : list Z) (p : Z) : comp (Z * option Z * Z) :=
  let ende := blen buf in
  let! c := rd buf p in
  if c =? 251 then Ret (1, Some NULL_LENGTH, p + 1)
  else if c =? 252 then
    if p + 2 >? ende then Ret (0, None, p)
    else let! v := uintkorr 2 buf (p + 1) in Ret (1, Some v, p + 3)
  else if c =? 253 then
    if p + 3 >? ende then Ret (0, None, p)
    else let! v := uintkorr 3 buf (p + 1) in Ret (1, Some v, p + 4)
  else if c =? 254 then
    if p + 8 >? ende then Ret (0, None, p)
    else let! v := uintkorr 8 buf (p + 1) in Ret (1, Some v, p + 9)
  else if c =? 255 then Ret (-1, None, p)
  else Ret (1, Some c, p + 1).

(** [get_length_size] of mysql_byteorder.h. *)
Definition get_length_size (num : Z) : Z :=
  if num <? 252 then 1 else if num <? 65536 then 3 else if num <? 16777216 then 4 else 9.

(** A decoded string: [SNull] is [*str = NULL, *len = 0]; otherwise the
    offset of the first byte and the length. *)
Inductive dstring : Type :=
| SNull
| SBytes (off len : Z).

Section DecodeString.
(** The address of the first byte of the buffer: [*pos + length] is a
    64-bit addition on addresses. *)
Variable base : Z.

(** The return value, the string when it is 1, and [*pos]. *)
Definition decode_string (buf : list Z) (pos : Z) : comp (Z * option dstring * Z) :=
  let! r := decode_length_safe buf pos in
  match r with
  | (ret, Some length, pos1) =>
      if (length =? 0) || (length =? NULL_LENGTH) then Ret (1, Some SNull, pos1)
      else
        let next := u64 (base + pos1 + length) in
        if next >? base + blen buf then Ret (0, None, pos1)
        else Ret (1, Some (SBytes pos1 length), next - base)
  | (ret, None, pos1) => Ret (0, None, pos1)
  end.
End DecodeString.

(** ** mysql_stream.c *)

Inductive stream_fn : Type :=
| WriteHead
| WritePayload.

(** [data] is the initialised part of [stream->buf]: its size is the field
    [length]; [bufsize] is the allocated size. *)
Record mysql_stream := mkStream {
  head : list Z;
  head_left : Z;
  sequence_id : Z;
  payload_length : Z;
  payload_left : Z;
  data : list Z;
  bufsize : Z;
  write : stream_fn
}.

Definition mysql_stream_init (old_head : list Z) (old_len old_left : Z) : mysql_stream :=
  mkStream old_head 4 0 old_len old_left [] 0 WriteHead.

Section Stream.
(** Whether [realloc] of a given size succeeds. *)
Variable realloc_ok : Z -> bool.

(** Return value, [*n], stream. *)
Definition mysql_stream_write_head (buf : list Z) (n : Z) (s : mysql_stream)
  : comp (Z * Z * mysql_stream) :=
  let off := 4 - head_left s in
  if n <? head_left s then
    let! b := rd_block buf 0 n in
    let! h := wr_block (head s) off b in
    Ret (0, n, mkStream h (u8 (head_left s - n)) (sequence_id s) (payload_length s)
                 (payload_left s) (data s) (bufsize s) (write s))
  else
    let! b := rd_block buf 0 (head_left s) in
    let! h := wr_block (head s) off b in
    let! h0 := rd h 0 in
    let! h1 := rd h 1 in
    let! h2 := rd h 2 in
    let! h3 := rd h 3 in
    let plen := i32 (Z.shiftl h2 16 + Z.shiftl h1 8 + h0) in
    let s1 := mkStream h (head_left s) h3 plen plen (data s) (bufsize s) (write s) in
    let need := u64 (blen (data s) + plen) in
    let! ok :=
      if bufsize s <? need then
        let! new_size := double_until 64 (Z.max 2048 (u64 (2 * bufsize s))) need in
        Ret (if realloc_ok new_size then Some new_size else None)
      else Ret (Some (bufsize s)) in
    match ok with
    | None => Ret (-1, n, s1)
    | Some size =>
        Ret (0, head_left s,
             mkStream h (head_left s) h3 plen plen (data s) size WritePayload)
    end.

Definition mysql_stream_write_payload (buf : list Z) (n : Z) (s : mysql_stream)
  : comp (Z * Z * mysql_stream) :=
  let m := if n <? u64 (payload_left s) then n else payload_left s in
  let! b := rd_block buf 0 m in
  if blen (data s) + blen b <=? bufsize s then
    let d := data s ++ b in
    if n <? u64 (payload_left s) then
      Ret (0, n, mkStream (head s) (head_left s) (sequence_id s) (payload_length s)
                   (payload_left s - n) d (bufsize s) (write s))
    else
      Ret (if payload_length s =? 2 ^ 24 - 1 then 0 else 1, payload_left s,
           mkStream (head s) 4 (sequence_id s) (payload_length s)
             (payload_left s) d (bufsize s) WriteHead)
  else Oob.

Definition stream_call (buf : list Z) (n : Z) (s : mysql_stream)
  : comp (Z * Z * mysql_stream) :=
  match write s with
  | WriteHead => mysql_stream_write_head buf n s
  | WritePayload => mysql_stream_write_payload buf n s
  end.

(** The loop of [mysql_stream_write]; [buf] is the unread rest, [nleft] its
    length. *)
Fixpoint mysql_stream_loop (fuel : nat) (buf : list Z) (nleft : Z) (s : mysql_stream)
  : comp (Z * mysql_stream) :=
  match fuel with
  | O => NoFuel
  | S f =>
      let! '(ret, n, s1) := stream_call buf nleft s in
      if nleft =? n then Ret (ret, s1)
      else mysql_stream_loop f (drop (Z.to_nat n) buf) (nleft - n) s1
  end.

(** Every two rounds consume a byte: the fuel is proved to be enough. *)
Definition mysql_stream_write (buf : list Z) (s : mysql_stream) : comp (Z * mysql_stream) :=
  mysql_stream_loop (2 * length buf + 2) buf (blen buf) s.
End Stream.

(** ** Specification of the encodings *)

(** The length-encoded integer of the protocol: 251 is reserved for NULL. *)
Definition lenenc (n : Z) : list Z :=
  if n <? 251 then [n]
  else if n <? 2 ^ 16 then 252 :: le_bytes 2 n
  else if n <? 2 ^ 24 then 253 :: le_bytes 3 n
  else 254 :: le_bytes 8 n.

Lemma uintkorr_le_bytes pre n z post :
  0 <= z < 256 ^ Z.of_nat n ->
  uintkorr (Z.of_nat n) (pre ++ le_bytes n z ++ post) (blen pre) = Ret z.
Proof.
  intros Hz. unfold uintkorr. rewrite <- (blen_le_bytes n z), rd_block_app_mid. simpl.
  by rewrite le_val_bytes.
Qed.

Lemma korr_after pre c k n z post :
  k = Z.of_nat n -> 0 <= z < 256 ^ k ->
  uintkorr k (pre ++ c :: le_bytes n z ++ post) (blen pre + 1) = Ret z.
Proof.
  intros -> Hz. replace (pre ++ c :: le_bytes n z ++ post) with ((pre ++ [c]) ++ le_bytes n z ++ post)
    by (by rewrite <- app_assoc).
  replace (blen pre + 1) with (blen (pre ++ [c])) by (rewrite blen_app; done).
  by apply uintkorr_le_bytes.
Qed.

(** reading a length-encoded integer anywhere in a buffer gives back the
    integer, and moves the position just past it. *)
Theorem decode_length_safe_lenenc (pre post : list Z) (n : Z) :
  0 <= n < 2 ^ 64 ->
  decode_length_safe (pre ++ lenenc n ++ post) (blen pre) =
    Ret (1, Some n, blen pre + blen (lenenc n)).
Proof.
  intros Hn. pose proof (blen_nonneg post). unfold decode_length_safe, lenenc.
  destruct (Z.ltb_spec n 251) as [H1|H1].
  { simpl app. rewrite rd_app_mid. simpl cbind.
    repeat match goal with |- context [n =? ?k] => destruct (Z.eqb_spec n k); [lia|] end.
    done. }
  destruct (Z.ltb_spec n (2 ^ 16)) as [H2|H2]; [|destruct (Z.ltb_spec n (2 ^ 24)) as [H3|H3]].
  all: cbn [app]; rewrite rd_app_mid; cbn [cbind]; simpl (_ =? _); cbv iota.
  all: rewrite Z.gtb_ltb; autorewrite with blen_db.
  all: match goal with |- context [?a <? ?b] => destruct (Z.ltb_spec a b); [lia|] end.
  all: erewrite korr_after by (try reflexivity; lia).
  all: simpl; f_equal; f_equal; lia.
Qed.

Lemma decode_length_safe_lenenc_witness :
  decode_length_safe [9; 253; 112; 17; 1; 7] 1 = Ret (1, Some 70000, 5).
Proof.
  apply (decode_length_safe_lenenc [9] [7] 70000). lia.
Defined.

Lemma rd_block_Oob buf p n :
  0 <= p -> 0 <= n -> blen buf < p + n -> rd_block buf p n = Oob.
Proof.
  intros. unfold rd_block. destruct (Z.leb_spec (p + n) (blen buf)); [lia|].
  by rewrite andb_false_r.
Qed.

(** The number of bytes that follow a length header. *)
Definition korr_size (c : Z) : option Z :=
  if c =? 252 then Some 2 else if c =? 253 then Some 3 else if c =? 254 then Some 8 else None.

(** the bounds check of [decode_length_safe] is one byte short.  At a
    position inside the buffer, the function reads beyond the end of the
    buffer exactly when the header is 252, 253 or 254 and the last byte of the
    integer is missing; with two or more bytes missing it returns 0. *)
Theorem decode_length_safe_overread (buf : list Z) (p c : Z) :
  0 <= p < blen buf -> rd buf p = Ret c ->
  (decode_length_safe buf p = Oob <-> exists k, korr_size c = Some k /\ p + k = blen buf).
Proof.
  intros Hp Hc. unfold decode_length_safe, korr_size, uintkorr. rewrite Hc. cbn [cbind].
  assert (forall k pos, 0 <= k -> 1 <= pos ->
    ((if p + k >? blen buf then Ret (0, None, p)
      else let! v := (let! b := rd_block buf (p + 1) k in Ret (le_val b)) in Ret (1, Some v, pos)) = Oob
     <-> exists k', Some k = Some k' /\ p + k' = blen buf)) as Hgen.
  { intros k pos Hk _. rewrite Z.gtb_ltb. destruct (Z.ltb_spec (blen buf) (p + k)).
    - split; [discriminate|]. intros (k' & [= <-] & ?). lia.
    - destruct (Z.eq_dec (p + k) (blen buf)) as [E|E].
      + rewrite rd_block_Oob by lia. cbn [cbind]. split; [eauto|done].
      + rewrite rd_block_in_bounds by lia. cbn [cbind].
        split; [discriminate|]. intros (k' & [= <-] & ?). lia. }
  assert (forall (A : Type) (a : A), Ret a = Oob <-> exists k', None = Some k' /\ p + k' = blen buf) as Hnone.
  { intros A a. split; [discriminate|]. intros (k' & ? & _). discriminate. }
  destruct (Z.eqb_spec c 251); [subst; apply Hnone|].
  destruct (Z.eqb_spec c 252); [apply Hgen; lia|].
  destruct (Z.eqb_spec c 253); [apply Hgen; lia|].
  destruct (Z.eqb_spec c 254); [apply Hgen; lia|].
  destruct (Z.eqb_spec c 255); apply Hnone.
Qed.

Lemma decode_length_safe_overread_witness :
  decode_length_safe [252; 1] 0 = Oob /\ decode_length_safe [252] 0 = Ret (0, None, 0).
Proof.
  split; [|reflexivity].
  apply (decode_length_safe_overread [252; 1] 0 252); [unfold blen; simpl; lia|reflexivity|].
  exists 2. split; reflexivity.
Defined.

(** A length-encoded string. *)
Definition lenenc_string (s : list Z) : list Z := lenenc (blen s) ++ s.

(** decoding a length-encoded string anywhere in a buffer that fits the
    address space gives a slice of the buffer that holds exactly the bytes of
    the string (the empty string decodes like NULL), and leaves the position
    just past it. *)
Theorem decode_string_lenenc (base : Z) (pre s post : list Z) :
  0 <= base -> base + blen (pre ++ lenenc_string s ++ post) < 2 ^ 64 - 1 ->
  let buf := pre ++ lenenc_string s ++ post in
  let p1 := blen pre + blen (lenenc (blen s)) in
  decode_string base buf (blen pre) =
    Ret (1, Some (if blen s =? 0 then SNull else SBytes p1 (blen s)), p1 + blen s) /\
  sub buf p1 (blen s) = s.
Proof.
  intros Hb Hfit buf p1. unfold lenenc_string in *.
  pose proof (blen_nonneg s). pose proof (blen_nonneg pre). pose proof (blen_nonneg post).
  pose proof (blen_nonneg (lenenc (blen s))).
  assert (blen buf = p1 + blen s + blen post) as Hbuf
    by (unfold buf, p1; autorewrite with blen_db; lia).
  assert (base + (p1 + blen s + blen post) < 2 ^ 64 - 1) as Hfit'
    by (rewrite <- Hbuf; exact Hfit).
  split.
  - unfold decode_string. unfold buf at 1. rewrite <- app_assoc.
    rewrite decode_length_safe_lenenc by (unfold p1 in *; lia). cbn [cbind]. fold p1.
    destruct (Z.eqb_spec (blen s) 0) as [E|E]; [rewrite E; f_equal; f_equal; lia|].
    unfold NULL_LENGTH. destruct (Z.eqb_spec (blen s) (2 ^ 64 - 1)); [unfold p1 in *; lia|].
    cbn [orb]. unfold u64. rewrite Z.mod_small by (unfold p1 in *; lia). rewrite Z.gtb_ltb.
    fold buf. destruct (Z.ltb_spec (base + blen buf) (base + p1 + blen s)); [lia|].
    f_equal. f_equal. lia.
  - unfold buf, p1. rewrite <- app_assoc, app_assoc, <- blen_app. apply sub_app_mid.
Qed.

Lemma decode_string_lenenc_witness :
  decode_string 4096 [8; 2; 65; 66; 9] 1 = Ret (1, Some (SBytes 2 2), 4) /\
  sub [8; 2; 65; 66; 9] 2 2 = [65; 66].
Proof.
  apply (decode_string_lenenc 4096 [8] [65; 66] [9]); [lia|vm_compute; reflexivity].
Defined.

(** the check [*pos + length > end] is a 64-bit addition on addresses.
    A length that wraps it around is accepted: the returned slice reaches
    beyond the buffer and [*pos] moves backwards. *)
Theorem decode_string_wraps (base : Z) (buf : list Z) (pos len pos1 : Z) :
  0 <= base -> 0 <= pos1 <= blen buf -> base + blen buf < 2 ^ 64 ->
  decode_length_safe buf pos = Ret (1, Some len, pos1) ->
  2 ^ 64 - base - pos1 <= len < NULL_LENGTH ->
  decode_string base buf pos = Ret (1, Some (SBytes pos1 len), pos1 - (2 ^ 64 - len)) /\
  blen buf < pos1 + len.
Proof.
  unfold NULL_LENGTH. intros Hb Hp Hfit Hd Hlen. split; [|lia].
  unfold decode_string. rewrite Hd. cbn [cbind].
  unfold NULL_LENGTH. destruct (Z.eqb_spec len 0); [lia|].
  destruct (Z.eqb_spec len (2 ^ 64 - 1)); [lia|]. cbn [orb].
  assert (u64 (base + pos1 + len) = base + pos1 + len - 2 ^ 64) as ->.
  { unfold u64. symmetry. apply Z.mod_unique with 1; lia. }
  rewrite Z.gtb_ltb. destruct (Z.ltb_spec (base + blen buf) (base + pos1 + len - 2 ^ 64)); [lia|].
  f_equal. f_equal. lia.
Qed.

(** Nine bytes on the wire that claim 2^64 - 16 bytes of text. *)
Lemma decode_string_wraps_witness :
  decode_string 4096 (254 :: le_bytes 8 (2 ^ 64 - 16)) 0 =
    Ret (1, Some (SBytes 9 (2 ^ 64 - 16)), 9 - (2 ^ 64 - (2 ^ 64 - 16))) /\
  9 < 9 + (2 ^ 64 - 16).
Proof.
  apply (decode_string_wraps 4096 (254 :: le_bytes 8 (2 ^ 64 - 16)) 0 (2 ^ 64 - 16) 9).
  - lia.
  - vm_compute. split; discriminate.
  - vm_compute. reflexivity.
  - vm_compute. reflexivity.
  - unfold NULL_LENGTH. lia.
Defined.

(** ** The packet stream *)

Definition stream_wf (s : mysql_stream) : Prop :=
  blen (head s) = 4 /\ Forall is_byte (head s) /\ 0 < head_left s <= 4 /\
  0 <= payload_left s < 2 ^ 24 /\ blen (data s) <= bufsize s < 2 ^ 62 /\
  (write s = WritePayload -> blen (data s) + payload_left s <= bufsize s).

Lemma mysql_stream_init_wf old_head old_len old_left :
  blen old_head = 4 -> Forall is_byte old_head -> 0 <= old_left < 2 ^ 24 ->
  stream_wf (mysql_stream_init old_head old_len old_left).
Proof. intros. unfold stream_wf; simpl. unfold blen at 2 3. simpl. repeat split; auto; lia || done. Qed.

Lemma head_value h0 h1 h2 :
  is_byte h0 -> is_byte h1 -> is_byte h2 ->
  i32 (Z.shiftl h2 16 + Z.shiftl h1 8 + h0) = le_val [h0; h1; h2] /\
  0 <= le_val [h0; h1; h2] < 2 ^ 24.
Proof.
  unfold is_byte, i32, swrap. intros. simpl le_val. rewrite !Z.shiftl_mul_pow2 by lia.
  rewrite Z.mod_small by lia. lia.
Qed.

Lemma four_bytes (h : list Z) :
  blen h = 4 -> Forall is_byte h ->
  exists a b c d, h = [a; b; c; d] /\ is_byte a /\ is_byte b /\ is_byte c.
Proof.
  unfold blen. intros Hl Hb. destruct h as [|a [|b [|c [|d [|? ?]]]]]; simpl in Hl; try lia.
  inversion_clear Hb as [|? ? Ha Hb1]. inversion_clear Hb1 as [|? ? Hb' Hb2].
  inversion_clear Hb2. eauto 10.
Qed.

Definition in_payload (s : mysql_stream) : Z :=
  match write s with WriteHead => 0 | WritePayload => 1 end.

Section StreamProofs.
Variable realloc_ok : Z -> bool.
(** The allocator refuses objects of 2^62 bytes or more. *)
Hypothesis realloc_limit : forall n, realloc_ok n = true -> n < 2 ^ 62.

Lemma stream_head_full buf s :
  stream_wf s -> Forall is_byte buf -> head_left s <= blen buf ->
  exists b h a0 a1 a2 a3 ok,
    rd_block buf 0 (head_left s) = Ret b /\
    wr_block (head s) (4 - head_left s) b = Ret h /\
    h = [a0; a1; a2; a3] /\ Forall is_byte h /\
    let plen := le_val [a0; a1; a2] in
    0 <= plen < 2 ^ 24 /\
    (forall size, ok = Some size -> bufsize s <= size < 2 ^ 62 /\ blen (data s) + plen <= size) /\
    (ok = None -> exists m, realloc_ok m = false /\
                    m <= Z.max (Z.max 2048 (2 * bufsize s)) (2 * (blen (data s) + plen))) /\
    mysql_stream_write_head realloc_ok buf (blen buf) s =
      match ok with
      | None => Ret (-1, blen buf,
                     mkStream h (head_left s) a3 plen plen (data s) (bufsize s) (write s))
      | Some size => Ret (0, head_left s,
                          mkStream h (head_left s) a3 plen plen (data s) size WritePayload)
      end.
Proof.
  intros (Hh & Hhb & Hl & Hp & Hd & Hw) Hbuf Hn. pose proof (blen_nonneg (data s)) as Hd0.
  destruct (rd_block buf 0 (head_left s)) as [b| |] eqn:Eb;
    [|rewrite rd_block_in_bounds in Eb by lia; discriminate..].
  pose proof (blen_rd_block _ _ _ _ Eb) as Hbl.
  destruct (wr_block (head s) (4 - head_left s) b) as [h| |] eqn:Eh;
    [|rewrite wr_block_in_bounds in Eh by lia; discriminate..].
  assert (blen h = 4) as Hh4 by (rewrite (blen_wr_block _ _ _ _ Eh); done).
  assert (Forall is_byte h) as Hhb' by eauto with c_db.
  destruct (four_bytes h Hh4 Hhb') as (a0 & a1 & a2 & a3 & -> & B0 & B1 & B2).
  destruct (head_value a0 a1 a2 B0 B1 B2) as [Hv Hr].
  unfold mysql_stream_write_head. destruct (Z.ltb_spec (blen buf) (head_left s)); [lia|].
  rewrite Eb. cbn [cbind]. rewrite Eh. cbn [cbind]. change (rd [a0; a1; a2; a3] 0) with (Ret a0).
  change (rd [a0; a1; a2; a3] 1) with (Ret a1). change (rd [a0; a1; a2; a3] 2) with (Ret a2).
  change (rd [a0; a1; a2; a3] 3) with (Ret a3). cbn [cbind]. rewrite Hv.
  set (plen := le_val [a0; a1; a2]) in *. unfold u64 at 1 2. rewrite !Z.mod_small by lia.
  destruct (Z.ltb_spec (bufsize s) (blen (data s) + plen)).
  - destruct (double_until_spec 64 (Z.max 2048 (2 * bufsize s)) (blen (data s) + plen))
      as (m & Hm & Hm1 & Hm2 & Hm3); [lia|lia|lia|].
    unfold u64. rewrite Z.mod_small by lia. rewrite Hm. cbn [cbind].
    exists b, [a0; a1; a2; a3], a0, a1, a2, a3, (if realloc_ok m then Some m else None).
    do 5 (split; [done|]). split; [|split].
    + intros size. destruct (realloc_ok m) eqn:Ea; [|done]. intros [= <-].
      specialize (realloc_limit _ Ea). lia.
    + destruct (realloc_ok m) eqn:Ea; [done|]. eauto.
    + by destruct (realloc_ok m).
  - exists b, [a0; a1; a2; a3], a0, a1, a2, a3, (Some (bufsize s)).
    do 5 (split; [done|]). split; [intros size [= <-]; lia|done].
Qed.

Lemma stream_call_spec buf s :
  stream_wf s -> Forall is_byte buf ->
  exists ret m s',
    stream_call realloc_ok buf (blen buf) s = Ret (ret, m, s') /\ stream_wf s' /\
    0 <= m <= blen buf /\
    (m = blen buf \/ 2 * (blen buf - m) + in_payload s' < 2 * blen buf + in_payload s).
Proof.
  intros Hwf Hbuf. pose proof Hwf as (Hh & Hhb & Hl & Hp & Hd & Hw).
  pose proof (blen_nonneg buf). pose proof (blen_nonneg (data s)).
  unfold stream_call, in_payload. destruct (write s) eqn:Ew.
  - destruct (Z_lt_ge_dec (blen buf) (head_left s)) as [Hlt|Hge].
    + unfold mysql_stream_write_head. destruct (Z.ltb_spec (blen buf) (head_left s)); [|lia].
      rewrite rd_block_0_all. cbn [cbind].
      destruct (wr_block (head s) (4 - head_left s) buf) as [h| |] eqn:Eh;
        [|rewrite wr_block_in_bounds in Eh by lia; discriminate..].
      cbn [cbind]. do 3 eexists. split; [done|]. unfold u8. rewrite Z.mod_small by lia.
      split; [|split; [lia|by left]].
      unfold stream_wf; simpl. rewrite (blen_wr_block _ _ _ _ Eh), Ew.
      repeat split; eauto with c_db; lia || done.
    + destruct (stream_head_full buf s Hwf Hbuf) as
        (b & h & a0 & a1 & a2 & a3 & ok & Eb & Eh & -> & Hhb' & Hr & Hok & _ & ->); [lia|].
      set (plen := le_val [a0; a1; a2]) in *. destruct ok as [size|].
      * specialize (Hok size eq_refl). do 3 eexists. split; [done|].
        split; [|split; [lia|right; simpl; lia]].
        unfold stream_wf; simpl. repeat split; auto; lia.
      * do 3 eexists. split; [done|]. split; [|split; [lia|by left]].
        unfold stream_wf; simpl. rewrite Ew. repeat split; auto; lia || done.
  - specialize (Hw eq_refl). unfold mysql_stream_write_payload, u64.
    rewrite Z.mod_small by lia. set (m := if _ <? _ then _ else _).
    assert (0 <= m <= blen buf /\ m <= payload_left s) as Hm
      by (unfold m; destruct (Z.ltb_spec (blen buf) (payload_left s)); lia).
    rewrite rd_block_in_bounds by lia. cbn [cbind]. rewrite blen_sub by lia.
    destruct (Z.leb_spec (blen (data s) + m) (bufsize s)); [|lia].
    unfold m in *. destruct (Z.ltb_spec (blen buf) (payload_left s)).
    + do 3 eexists. split; [done|]. split; [|split; [lia|by left]].
      unfold stream_wf; simpl. rewrite blen_app, blen_sub by lia. repeat split; auto; lia.
    + do 3 eexists. split; [done|]. split; [|split; [lia|right; simpl; lia]].
      unfold stream_wf; simpl. rewrite blen_app, blen_sub by lia. repeat split; auto; lia || done.
Qed.

Lemma stream_loop_total fuel buf s :
  stream_wf s -> Forall is_byte buf -> 2 * blen buf + in_payload s < Z.of_nat fuel ->
  exists ret s', mysql_stream_loop realloc_ok fuel buf (blen buf) s = Ret (ret, s') /\ stream_wf s'.
Proof.
  revert buf s. induction fuel as [|f IH]; intros buf s Hwf Hbuf Hf.
  { pose proof (blen_nonneg buf). unfold in_payload in Hf. destruct (write s); lia. }
  destruct (stream_call_spec buf s Hwf Hbuf) as (ret & m & s' & Hc & Hwf' & Hm & Hdec).
  simpl. rewrite Hc. cbn [cbind]. destruct (Z.eqb_spec (blen buf) m); [eauto|].
  assert (blen (drop (Z.to_nat m) buf) = blen buf - m) as Hbl by (rewrite blen_drop; lia).
  rewrite <- Hbl. apply IH; [done|by apply Forall_drop|]. rewrite Hbl. lia.
Qed.
End StreamProofs.

(** C24: whatever bytes arrive, [mysql_stream_write] terminates, stays inside
    [head] and inside the allocated buffer, and keeps the stream well formed
    (fill counters in range, room for the rest of the announced payload). *)
Theorem mysql_stream_write_total (realloc_ok : Z -> bool) (buf : list Z) (s : mysql_stream) :
  (forall n, realloc_ok n = true -> n < 2 ^ 62) ->
  stream_wf s -> Forall is_byte buf ->
  exists ret s', mysql_stream_write realloc_ok buf s = Ret (ret, s') /\ stream_wf s'.
Proof.
  intros Hlim Hwf Hbuf. apply stream_loop_total; [done..|].
  unfold blen, in_payload. destruct (write s); lia.
Qed.

Definition stream0 : mysql_stream := mysql_stream_init [0; 0; 0; 0] 0 0.
Definition realloc_4G (n : Z) : bool := n <? 2 ^ 32.

Lemma stream0_wf : stream_wf stream0.
Proof.
  apply mysql_stream_init_wf; [done| |lia].
  solve_bytes.
Qed.

Lemma mysql_stream_write_total_witness :
  exists ret s', mysql_stream_write realloc_4G [3; 0; 0; 1; 65; 66] stream0 = Ret (ret, s') /\ stream_wf s'.
Proof.
  apply mysql_stream_write_total; [|apply stream0_wf|].
  - unfold realloc_4G. intros n Hn. zify_bool. lia.
  - solve_bytes.
Defined.

(** ** Independence of how the bytes are split *)

(** While a payload is read, [head_left] is dead: it is overwritten before it
    is used again; so is [payload_left] while a header is read.  Streams are
    compared up to the dead field. *)
Definition live (s : mysql_stream) : mysql_stream :=
  match write s with
  | WriteHead => mkStream (head s) (head_left s) (sequence_id s) (payload_length s) 0
                   (data s) (bufsize s) WriteHead
  | WritePayload => mkStream (head s) 4 (sequence_id s) (payload_length s) (payload_left s)
                      (data s) (bufsize s) WritePayload
  end.

Definition stream_eqv (s t : mysql_stream) : Prop := live s = live t.

#[export] Instance stream_eqv_equivalence : Equivalence stream_eqv.
Proof. split; unfold stream_eqv; congruence || (repeat intro; congruence). Qed.

Definition left_of (s : mysql_stream) : Z :=
  match write s with WriteHead => head_left s | WritePayload => payload_left s end.

(** Runs the recorded binds of a computation in the goal. *)
Ltac run_binds :=
  repeat match goal with
  | H : ?m = Ret _ |- context [cbind ?m _] => rewrite H; cbn [cbind]
  end.

Section StreamSplit.
Variable realloc_ok : Z -> bool.

Lemma stream_call_eqv buf n s t ret m s' :
  stream_eqv s t -> stream_call realloc_ok buf n s = Ret (ret, m, s') ->
  exists t', stream_call realloc_ok buf n t = Ret (ret, m, t') /\ stream_eqv s' t'.
Proof.
  unfold stream_eqv, live, stream_call. intros He Hc.
  destruct s as [h hl sq pl plf d bs []], t as [h' hl' sq' pl' plf' d' bs' []]; cbn in He;
    try discriminate; injection He; intros; subst.
  - unfold mysql_stream_write_head in *. cbn in *.
    destruct (n <? hl'); inv_bind; run_binds; [by eauto|].
    match goal with Hc : match ?o with _ => _ end = _ |- _ => destruct o end; inv_bind; eauto.
  - unfold mysql_stream_write_payload in *. cbn in *. inv_bind. run_binds.
    destruct (_ <=? _); [|discriminate]. destruct (_ <? _); inv_bind; eauto.
Qed.

Lemma payload_u64 s : stream_wf s -> u64 (payload_left s) = payload_left s.
Proof. intros (_ & _ & _ & Hp & _). unfold u64. rewrite Z.mod_small; lia. Qed.

(** A call that has all the bytes it waits for ignores what follows. *)
Lemma stream_call_full a b s ret m s' :
  stream_wf s -> left_of s <= blen a ->
  stream_call realloc_ok a (blen a) s = Ret (ret, m, s') -> 0 <= ret ->
  stream_call realloc_ok (a ++ b) (blen (a ++ b)) s = Ret (ret, m, s').
Proof.
  intros Hwf. pose proof (payload_u64 s Hwf) as Hu. destruct Hwf as (_ & _ & Hl & Hp & _).
  unfold left_of, stream_call. intros Hle. pose proof (blen_nonneg b). rewrite blen_app.
  destruct (write s).
  - unfold mysql_stream_write_head.
    destruct (Z.ltb_spec (blen a) (head_left s)); [lia|].
    destruct (Z.ltb_spec (blen a + blen b) (head_left s)); [lia|].
    rewrite rd_block_0_app by lia. intros Hc Hret. inv_bind. run_binds.
    match goal with Hc : match ?o with _ => _ end = _ |- _ => destruct o; [done|] end.
    injection Hc; intros; lia.
  - unfold mysql_stream_write_payload. rewrite Hu in *.
    destruct (Z.ltb_spec (blen a) (payload_left s)); [lia|].
    destruct (Z.ltb_spec (blen a + blen b) (payload_left s)); [lia|].
    by rewrite rd_block_0_app by lia.
Qed.

(** A call that lacks bytes only stores them: the next call continues as if
    the bytes had come together. *)
Lemma head_partial a b s ret m s' ret2 m2 s2 :
  stream_wf s -> write s = WriteHead -> blen a < head_left s ->
  stream_call realloc_ok a (blen a) s = Ret (ret, m, s') ->
  stream_call realloc_ok b (blen b) s' = Ret (ret2, m2, s2) -> 0 <= ret2 ->
  exists s3, stream_call realloc_ok (a ++ b) (blen (a ++ b)) s = Ret (ret2, blen a + m2, s3) /\
             stream_eqv s2 s3.
Proof.
  intros (Hh & Hhb & Hl & Hp & Hd & Hw) Ew Hlt. unfold stream_call. rewrite Ew.
  pose proof (blen_nonneg a). pose proof (blen_nonneg b). rewrite blen_app.
  unfold mysql_stream_write_head at 1. destruct (Z.ltb_spec (blen a) (head_left s)); [|lia].
  rewrite rd_block_0_all. cbn [cbind]. intros Hc. inv_bind. cbn [write]. rewrite Ew.
  unfold mysql_stream_write_head.
  cbn [write head_left head data bufsize sequence_id payload_length payload_left].
  unfold u8. rewrite Z.mod_small by lia.
  assert (forall c, blen a + blen c <= head_left s ->
    wr_block v (4 - (head_left s - blen a)) c = wr_block (head s) (4 - head_left s) (a ++ c)) as Hwr.
  { intros c Hc. rewrite <- wr_block_app by lia. rewrite Hb. cbn [cbind]. f_equal. lia. }
  destruct (Z.ltb_spec (blen b) (head_left s - blen a)).
  - destruct (Z.ltb_spec (blen a + blen b) (head_left s)); [|lia].
    rewrite <- blen_app, !rd_block_0_all. cbn [cbind]. rewrite Hwr by lia. intros Hc2 Hr2.
    inv_bind. run_binds. rewrite blen_app. eexists. split; [do 3 f_equal; lia|].
    unfold stream_eqv, live. simpl. rewrite Ew. f_equal. f_equal. lia.
  - destruct (Z.ltb_spec (blen a + blen b) (head_left s)); [lia|].
    rewrite rd_block_0_split by lia. intros Hc2 Hr2. inv_bind.
    rewrite Hwr in Hb1 by (rewrite (blen_rd_block _ _ _ _ Hb0); lia). run_binds.
    match goal with Hc : match ?o with _ => _ end = _ |- _ => destruct o end;
      injection Hc2; intros; subst; [|lia].
    eexists. split; [do 3 f_equal; lia|]. reflexivity.
Qed.

Lemma payload_partial a b s ret m s' ret2 m2 s2 :
  stream_wf s -> write s = WritePayload -> blen a < payload_left s ->
  stream_call realloc_ok a (blen a) s = Ret (ret, m, s') ->
  stream_call realloc_ok b (blen b) s' = Ret (ret2, m2, s2) ->
  exists s3, stream_call realloc_ok (a ++ b) (blen (a ++ b)) s = Ret (ret2, blen a + m2, s3) /\
             stream_eqv s2 s3.
Proof.
  intros Hwf Ew Hlt. pose proof (payload_u64 s Hwf) as Hu.
  destruct Hwf as (Hh & Hhb & Hl & Hp & Hd & Hw). specialize (Hw Ew).
  unfold stream_call. rewrite Ew. pose proof (blen_nonneg a). pose proof (blen_nonneg b).
  rewrite blen_app. unfold mysql_stream_write_payload at 1. rewrite Hu.
  destruct (Z.ltb_spec (blen a) (payload_left s)); [|lia]. rewrite rd_block_0_all. cbn [cbind].
  destruct (Z.leb_spec (blen (data s) + blen a) (bufsize s)); [|discriminate].
  intros Hc. inv_bind. cbn [write]. rewrite Ew. unfold mysql_stream_write_payload.
  cbn [write head_left head data bufsize sequence_id payload_length payload_left]. rewrite Hu.
  unfold u64. rewrite Z.mod_small by lia. rewrite blen_app.
  destruct (Z.ltb_spec (blen b) (payload_left s - blen a));
    destruct (Z.ltb_spec (blen a + blen b) (payload_left s)); try lia.
  - rewrite <- (blen_app a b), !rd_block_0_all. cbn [cbind]. rewrite (blen_app a b).
    intros Hc. destruct (Z.leb_spec (blen (data s) + blen a + blen b) (bufsize s)); [|discriminate].
    inv_bind. zcase.
    eexists. split; [done|]. unfold stream_eqv, live. simpl. rewrite Ew, <- app_assoc.
    f_equal. lia.
  - rewrite rd_block_0_split by lia. intros Hc. inv_bind. run_binds. rewrite blen_app.
    destruct (Z.leb_spec (blen (data s) + blen a + blen v) (bufsize s)); [|discriminate].
    destruct (Z.leb_spec (blen (data s) + (blen a + blen v)) (bufsize s)); [|lia].
    inv_bind. eexists. split; [do 3 f_equal; lia|].
    unfold stream_eqv, live. simpl. by rewrite <- app_assoc.
Qed.

(** A failed call reports all its input as consumed; every call consumes a
    non-negative number of bytes. *)
Lemma stream_call_error buf n s ret m s' :
  stream_call realloc_ok buf n s = Ret (ret, m, s') -> ret < 0 -> m = n.
Proof.
  unfold stream_call, mysql_stream_write_head, mysql_stream_write_payload. intros Hc Hneg.
  destruct (write s).
  - destruct (_ <? _); inv_bind; try done; try lia.
    match goal with Hx : match ?o with _ => _ end = _ |- _ => destruct o end; inv_bind; done || lia.
  - destruct (_ <? _); inv_bind; destruct (_ <=? _); inv_bind; try done; try lia.
    destruct (_ =? _); lia.
Qed.

Lemma stream_call_short a s ret m s' :
  stream_wf s -> blen a < left_of s ->
  stream_call realloc_ok a (blen a) s = Ret (ret, m, s') -> m = blen a.
Proof.
  intros Hwf. pose proof (payload_u64 s Hwf) as Hu. unfold left_of, stream_call.
  unfold mysql_stream_write_head, mysql_stream_write_payload. rewrite Hu. intros Hlt.
  destruct (write s); destruct (Z.ltb_spec (blen a) (head_left s)), (Z.ltb_spec (blen a) (payload_left s));
    try lia; intros Hc; inv_bind; try done; destruct (_ <=? _); by inv_bind.
Qed.

Lemma stream_loop_eqv fuel buf n s t ret s' :
  stream_eqv s t -> mysql_stream_loop realloc_ok fuel buf n s = Ret (ret, s') ->
  exists t', mysql_stream_loop realloc_ok fuel buf n t = Ret (ret, t') /\ stream_eqv s' t'.
Proof.
  revert buf n s t. induction fuel as [|f IH]; intros buf n s t He Hl; simpl in *; [done|].
  apply cbind_Ret_inv in Hl as (((r & m) & s1) & Hc & Hl).
  destruct (stream_call_eqv _ _ _ _ _ _ _ He Hc) as (t1 & Hc' & He1). rewrite Hc'. cbn [cbind].
  destruct (n =? m); [inv_bind; eauto|]. eauto.
Qed.

Lemma stream_loop_fuel f f' buf n s r :
  (f <= f')%nat -> mysql_stream_loop realloc_ok f buf n s = Ret r ->
  mysql_stream_loop realloc_ok f' buf n s = Ret r.
Proof.
  revert f' buf n s. induction f as [|f IH]; intros [|f'] buf n s Hf Hl; simpl in *; try done; [lia|].
  apply cbind_Ret_inv in Hl as (((r1 & m) & s1) & Hc & Hl). rewrite Hc. cbn [cbind].
  destruct (n =? m); [done|]. apply IH; [lia|done].
Qed.

Hypothesis realloc_limit : forall n, realloc_ok n = true -> n < 2 ^ 62.

(** The last call of [a] ran short: it merges with the first call of [b]. *)
Lemma stream_loop_merge F a b s ret s1 r2 s2 :
  stream_wf s -> stream_wf s1 -> Forall is_byte b -> blen a < left_of s ->
  stream_call realloc_ok a (blen a) s = Ret (ret, blen a, s1) ->
  mysql_stream_loop realloc_ok F b (blen b) s1 = Ret (r2, s2) -> 0 <= r2 -> b <> [] ->
  exists s3, mysql_stream_loop realloc_ok F (a ++ b) (blen (a ++ b)) s = Ret (r2, s3) /\
             stream_eqv s2 s3.
Proof.
  intros Hwf Hwf1 Hb Hlt Hc Hl Hr Hne. destruct F as [|F]; [done|]. simpl in Hl |- *.
  apply cbind_Ret_inv in Hl as (((rb & mb) & sb) & Hcb & Hl).
  assert (0 <= rb) as Hrb.
  { destruct (Z_lt_ge_dec rb 0); [|lia]. pose proof (stream_call_error _ _ _ _ _ _ Hcb) as E.
    rewrite E, Z.eqb_refl in Hl by lia. inv_bind. lia. }
  assert (exists s3, stream_call realloc_ok (a ++ b) (blen (a ++ b)) s = Ret (rb, blen a + mb, s3) /\
                     stream_eqv sb s3) as (s3 & Hcab & Heq).
  { unfold left_of in Hlt. destruct (write s) eqn:Ew.
    - by eapply head_partial.
    - by eapply payload_partial. }
  rewrite Hcab. cbn [cbind]. rewrite blen_app.
  destruct (Z.eqb_spec (blen b) mb).
  - inv_bind. rewrite Z.eqb_refl. eauto.
  - destruct (Z.eqb_spec (blen a + blen b) (blen a + mb)); [lia|].
    replace (blen a + blen b - (blen a + mb)) with (blen b - mb) by lia.
    destruct (stream_loop_eqv _ _ _ _ _ _ _ Heq Hl) as (t & Ht & He).
    exists t. split; [|done]. rewrite <- Ht. f_equal.
    destruct (stream_call_spec realloc_ok realloc_limit b s1 Hwf1 Hb) as (? & ? & ? & Hc1 & _ & Hmb & _).
    rewrite Hcb in Hc1. simplify_eq.
    rewrite drop_app_ge by (unfold blen; lia). f_equal. unfold blen. lia.
Qed.

Lemma stream_loop_split f F a b s r1 s1 r2 s2 :
  stream_wf s -> Forall is_byte a -> Forall is_byte b -> b <> [] ->
  mysql_stream_loop realloc_ok f a (blen a) s = Ret (r1, s1) -> 0 <= r1 ->
  mysql_stream_loop realloc_ok F b (blen b) s1 = Ret (r2, s2) -> 0 <= r2 ->
  exists F' s3, mysql_stream_loop realloc_ok F' (a ++ b) (blen (a ++ b)) s = Ret (r2, s3) /\
                stream_eqv s2 s3.
Proof.
  revert a s. induction f as [|f IH]; intros a s Hwf Ha Hb Hne Hla Hr1 Hlb Hr2; simpl in Hla; [done|].
  destruct (stream_call_spec realloc_ok realloc_limit a s Hwf Ha)
    as (ret & m & s' & Hc & Hwf' & Hm & _).
  rewrite Hc in Hla. cbn [cbind] in Hla.
  destruct (Z_lt_ge_dec (blen a) (left_of s)) as [Hlt|Hge].
  - assert (m = blen a) as -> by exact (stream_call_short a s ret m s' Hwf Hlt Hc).
    rewrite Z.eqb_refl in Hla. inv_bind. exists F. eapply stream_loop_merge; eauto.
  - assert (0 <= ret) as Hret.
    { destruct (Z_lt_ge_dec ret 0); [|lia]. pose proof (stream_call_error _ _ _ _ _ _ Hc) as E.
      rewrite E, Z.eqb_refl in Hla by lia. inv_bind. lia. }
    assert (0 < blen b) as Hb0 by (destruct b; [done|rewrite blen_cons; pose proof (blen_nonneg b); lia]).
    pose proof (stream_call_full a b s ret m s' Hwf ltac:(lia) Hc Hret) as Hcab.
    destruct (Z.eqb_spec (blen a) m) as [Hmeq|Hmne].
    + rewrite <- Hmeq in *. inv_bind. exists (S F), s2. split; [|reflexivity]. simpl. rewrite Hcab. cbn [cbind].
      rewrite blen_app. destruct (Z.eqb_spec (blen a + blen b) (blen a)); [lia|].
      rewrite blen_to_nat, drop_app_length. by replace (blen a + blen b - blen a) with (blen b) by lia.
    + assert (blen (drop (Z.to_nat m) a) = blen a - m) as Hd by (rewrite blen_drop; lia).
      rewrite <- Hd in Hla.
      destruct (IH _ _ Hwf' (Forall_drop _ _ _ Ha) Hb Hne Hla Hr1 Hlb Hr2) as (F' & s3 & HF & He).
      exists (S F'), s3. split; [|done]. simpl. rewrite Hcab. cbn [cbind]. rewrite blen_app.
      destruct (Z.eqb_spec (blen a + blen b) m); [lia|].
      rewrite drop_app_le by (unfold blen in *; lia). rewrite <- HF, blen_app, Hd. f_equal. lia.
Qed.
End StreamSplit.

(** the reader does not depend on how the network splits the bytes.
    Writing [a] and then [b] (both accepted) or writing them at once gives the
    same return value and the same stream, up to the dead fill counter. *)
Theorem mysql_stream_write_split (realloc_ok : Z -> bool) (a b : list Z)
    (s s1 s2 : mysql_stream) (r1 r2 : Z) :
  (forall n, realloc_ok n = true -> n < 2 ^ 62) ->
  stream_wf s -> Forall is_byte a -> Forall is_byte b -> b <> [] ->
  mysql_stream_write realloc_ok a s = Ret (r1, s1) -> 0 <= r1 ->
  mysql_stream_write realloc_ok b s1 = Ret (r2, s2) -> 0 <= r2 ->
  exists s3, mysql_stream_write realloc_ok (a ++ b) s = Ret (r2, s3) /\ stream_eqv s2 s3.
Proof.
  intros Hlim Hwf Ha Hb Hne H1 Hr1 H2 Hr2.
  destruct (stream_loop_split realloc_ok Hlim _ _ a b s r1 s1 r2 s2 Hwf Ha Hb Hne H1 Hr1 H2 Hr2)
    as (F & s3 & HF & He).
  exists s3. split; [|done].
  destruct (stream_loop_total realloc_ok Hlim (2 * length (a ++ b) + 2) (a ++ b) s Hwf)
    as (r & s' & Hw & _); [by apply Forall_app|unfold blen, in_payload; destruct (write s); lia|].
  unfold mysql_stream_write. rewrite Hw.
  apply (stream_loop_fuel _ _ (Nat.max (2 * length (a ++ b) + 2) F)) in Hw; [|lia].
  apply (stream_loop_fuel _ _ (Nat.max (2 * length (a ++ b) + 2) F)) in HF; [|lia]. congruence.
Qed.

Lemma mysql_stream_write_split_witness :
  exists s3,
    mysql_stream_write realloc_4G ([2; 0] ++ [0; 7; 65; 66]) stream0 = Ret (1, s3) /\
    stream_eqv (mkStream [2; 0; 0; 7] 4 7 2 1 [65; 66] 2048 WriteHead) s3.
Proof.
  apply (mysql_stream_write_split realloc_4G [2; 0] [0; 7; 65; 66] stream0
           (mkStream [2; 0; 0; 0] 2 0 0 0 [] 0 WriteHead)
           (mkStream [2; 0; 0; 7] 4 7 2 2 [65; 66] 2048 WriteHead) 0 1).
  - unfold realloc_4G. intros n Hn. zify_bool. lia.
  - apply stream0_wf.
  - solve_bytes.
  - solve_bytes.
  - discriminate.
  - vm_compute. reflexivity.
  - lia.
  - vm_compute. reflexivity.
  - lia.
Defined.

(** ** Frames *)

(** A packet on the wire: 3-byte length, sequence number, payload. *)
Definition frame (seq : Z) (payload : list Z) : list Z :=
  le_bytes 3 (blen payload) ++ seq :: payload.

Lemma blen_frame seq payload : blen (frame seq payload) = 4 + blen payload.
Proof. unfold frame. autorewrite with blen_db. lia. Qed.

Lemma frame_bytes seq payload :
  is_byte seq -> Forall is_byte payload -> Forall is_byte (frame seq payload).
Proof.
  intros. unfold frame. apply Forall_app. split; [apply le_bytes_range|by constructor].
Qed.

(** The header of a frame: [head] becomes the four header bytes. *)
Lemma stream_frame_head realloc_ok seq payload s :
  (forall n, realloc_ok n = true <-> n < 2 ^ 62) ->
  stream_wf s -> write s = WriteHead -> head_left s = 4 ->
  blen (data s) < 2 ^ 60 -> bufsize s < 2 ^ 60 -> is_byte seq -> Forall is_byte payload ->
  blen payload < 2 ^ 24 ->
  exists h size,
    stream_call realloc_ok (frame seq payload) (blen (frame seq payload)) s =
      Ret (0, 4, mkStream h 4 seq (blen payload) (blen payload) (data s) size WritePayload) /\
    blen (data s) + blen payload <= size.
Proof.
  intros Halloc Hwf Ew Hl Hd Hbs Hseq Hpl Hlen. pose proof (blen_nonneg payload).
  unfold stream_call. rewrite Ew.
  assert (forall n, realloc_ok n = true -> n < 2 ^ 62) as Hlim by (intros; by apply Halloc).
  destruct (stream_head_full realloc_ok Hlim (frame seq payload) s Hwf (frame_bytes _ _ Hseq Hpl))
    as (b & h & a0 & a1 & a2 & a3 & ok & Eb & Eh & -> & Hhb & Hr & Hok & Hno & Hcall).
  { rewrite blen_frame. lia. }
  rewrite Hl in *.
  assert (rd_block (frame seq payload) 0 4 = Ret (le_bytes 3 (blen payload) ++ [seq])) as Eb'.
  { replace (frame seq payload) with ((le_bytes 3 (blen payload) ++ [seq]) ++ payload)
      by (unfold frame; by rewrite <- app_assoc).
    rewrite rd_block_0_app by (change (blen (le_bytes 3 (blen payload) ++ [seq])) with 4; lia).
    apply (rd_block_0_all (le_bytes 3 (blen payload) ++ [seq])). }
  rewrite Eb' in Eb. injection Eb as <-.
  destruct Hwf as (Hh4 & _). unfold blen in Hh4.
  rewrite wr_block_in_bounds in Eh by (autorewrite with blen_db; unfold blen; lia).
  change (Z.to_nat (4 - 4)) with 0%nat in Eh. rewrite take_0, drop_ge in Eh
    by (autorewrite with blen_db; lia).
  rewrite app_nil_r in Eh. injection Eh as <- <- <- <-.
  assert (le_val (le_bytes 3 (blen payload)) = blen payload) as Hv
    by (apply le_val_bytes; simpl; lia).
  cbn [le_bytes] in Hv. cbv zeta in *. rewrite Hv in *. rewrite Hcall. destruct ok as [size|].
  - specialize (Hok size eq_refl). do 2 eexists. split; [done|lia].
  - destruct (Hno eq_refl) as (m & Hm & Hle). assert (realloc_ok m = true) as Ht by (apply Halloc; lia).
    congruence.
Qed.

(** a whole packet, received between two packets, is appended to the
    buffer with its sequence number; the result is 1 unless the payload has
    the maximal length 2^24 - 1, which announces a continuation packet. *)
Theorem mysql_stream_write_frame (realloc_ok : Z -> bool) (seq : Z) (payload : list Z)
    (s : mysql_stream) :
  (forall n, realloc_ok n = true <-> n < 2 ^ 62) ->
  stream_wf s -> write s = WriteHead -> head_left s = 4 ->
  blen (data s) < 2 ^ 60 -> bufsize s < 2 ^ 60 -> is_byte seq -> Forall is_byte payload ->
  0 < blen payload < 2 ^ 24 ->
  exists s',
    mysql_stream_write realloc_ok (frame seq payload) s =
      Ret (if blen payload =? 2 ^ 24 - 1 then 0 else 1, s') /\
    data s' = data s ++ payload /\ sequence_id s' = seq /\
    write s' = WriteHead /\ head_left s' = 4.
Proof.
  intros Halloc Hwf Ew Hl Hd Hbs Hseq Hpl Hlen.
  destruct (stream_frame_head realloc_ok seq payload s) as (h & size & Hc & Hsz); auto; [lia|].
  unfold mysql_stream_write.
  replace (2 * length (frame seq payload) + 2)%nat with (S (S (2 * length (frame seq payload))))%nat by lia.
  cbn [mysql_stream_loop]. rewrite Hc. cbn [cbind]. rewrite blen_frame.
  destruct (Z.eqb_spec (4 + blen payload) 4); [lia|].
  replace (4 + blen payload - 4) with (blen payload) by lia.
  replace (drop (Z.to_nat 4) (frame seq payload)) with payload
    by (symmetry; apply (drop_app_length' (le_bytes 3 (blen payload) ++ [seq]) payload 4); done).
  cbn [stream_call write]. unfold mysql_stream_write_payload.
  cbn [write head_left head data bufsize sequence_id payload_length payload_left].
  unfold u64. rewrite Z.mod_small by lia. destruct (Z.ltb_spec (blen payload) (blen payload)); [lia|].
  rewrite rd_block_0_all. cbn [cbind].
  destruct (Z.leb_spec (blen (data s) + blen payload) size); [|lia].
  cbn [cbind]. rewrite Z.eqb_refl. eauto 10.
Qed.

Lemma mysql_stream_write_frame_witness :
  exists s',
    mysql_stream_write (fun n => n <? 2 ^ 62) (frame 5 [65; 66]) stream0 = Ret (1, s') /\
    data s' = [] ++ [65; 66] /\ sequence_id s' = 5 /\ write s' = WriteHead /\ head_left s' = 4.
Proof.
  apply (mysql_stream_write_frame (fun n => n <? 2 ^ 62) 5 [65; 66] stream0);
    try (apply stream0_wf); try (unfold blen, is_byte; simpl; lia); try reflexivity.
  solve_bytes.
Defined.

(** a packet with an empty payload is not reported: after all of its
    bytes [mysql_stream_write] returns 0 and keeps waiting, although the
    packet is complete (it ends a message of 2^24 - 1 bytes). *)
Theorem mysql_stream_write_empty_frame (realloc_ok : Z -> bool) (seq : Z) (s : mysql_stream) :
  (forall n, realloc_ok n = true <-> n < 2 ^ 62) ->
  stream_wf s -> write s = WriteHead -> head_left s = 4 ->
  blen (data s) < 2 ^ 60 -> bufsize s < 2 ^ 60 -> is_byte seq ->
  exists s',
    mysql_stream_write realloc_ok (frame seq []) s = Ret (0, s') /\
    write s' = WritePayload /\ payload_left s' = 0 /\
    exists s'', mysql_stream_write realloc_ok [] s' = Ret (1, s'') /\ data s'' = data s.
Proof.
  intros Halloc Hwf Ew Hl Hd Hbs Hseq.
  destruct (stream_frame_head realloc_ok seq [] s) as (h & size & Hc & Hsz); auto; [done|].
  unfold mysql_stream_write. change (2 * length (frame seq []) + 2)%nat with 10%nat.
  cbn [mysql_stream_loop]. rewrite Hc. cbn [cbind]. change (blen (frame seq []) =? 4) with true.
  cbv iota. eexists. split; [done|]. do 2 (split; [done|]).
  change (2 * length [] + 2)%nat with 2%nat. change (blen []) with 0 in *.
  cbn [mysql_stream_loop stream_call write]. unfold mysql_stream_write_payload.
  cbn [write head_left head data bufsize sequence_id payload_length payload_left].
  change (0 <? u64 0) with false. cbv iota. rewrite rd_block_0_all. cbn [cbind].
  change (blen []) with 0. destruct (Z.leb_spec (blen (data s) + 0) size); [|lia].
  cbn [cbind]. simpl (0 =? 0). cbv iota. rewrite app_nil_r. eauto.
Qed.

Lemma mysql_stream_write_empty_frame_witness :
  exists s',
    mysql_stream_write (fun n => n <? 2 ^ 62) (frame 1 []) stream0 = Ret (0, s') /\
    write s' = WritePayload /\ payload_left s' = 0 /\
    exists s'', mysql_stream_write (fun n => n <? 2 ^ 62) [] s' = Ret (1, s'') /\ data s'' = [].
Proof.
  apply (mysql_stream_write_empty_frame (fun n => n <? 2 ^ 62) 1 stream0);
    try (apply stream0_wf); try (unfold blen, is_byte; simpl; lia); try reflexivity.
Defined.
