(* ===== verification/Dns.v ===== *)
(** * DNS messages

    workflow/src/linux/protocol/dns_parser.c: domain names with message
    compression, resource records, the whole message, the TCP framing of
    [dns_parser_append_message] and the cursors over the answers.

    Positions ([cur], [msgbase]) are offsets from [msgbuf]; [msgbuf] lists the
    bytes received, so an access beyond them is [Oob].  [msgbase] is 2 behind
    a TCP length prefix and 0 for a datagram. *)

From S2P Require Import Prelude.

(** ** Data *)

Definition DNS_LABELS_MAX : Z := 63.
Definition DNS_NAMES_MAX : Z := 256.
Definition DNS_MSGBASE_INIT_SIZE : Z := 514.
Definition DNS_HEADER_SIZE : Z := 12.

Definition DNS_TYPE_A : Z := 1.
Definition DNS_TYPE_NS : Z := 2.
Definition DNS_TYPE_CNAME : Z := 5.
Definition DNS_TYPE_SOA : Z := 6.
Definition DNS_TYPE_PTR : Z := 12.
Definition DNS_TYPE_MX : Z := 15.
Definition DNS_TYPE_AAAA : Z := 28.
Definition DNS_TYPE_SRV : Z := 33.

Record dns_header := mkHeader {
  h_id : Z;
  h_qr : Z; h_opcode : Z; h_aa : Z; h_tc : Z; h_rd : Z;
  h_ra : Z; h_z : Z; h_rcode : Z;
  h_qdcount : Z; h_ancount : Z; h_nscount : Z; h_arcount : Z
}.

Record dns_question := mkQuestion {
  qname : option (list Z);
  qtype : Z;
  qclass : Z
}.

(** [rdata] by record type; strings are C strings. *)
Inductive dns_rdata : Type :=
| RD_bytes (b : list Z)
| RD_name (name : list Z)
| RD_soa (mname rname : list Z) (serial refresh retry expire minimum : Z)
| RD_srv (priority weight port : Z) (target : list Z)
| RD_mx (preference : Z) (exchange : list Z).

Record dns_record := mkRecord {
  r_name : list Z;
  r_type : Z;
  r_class : Z;
  r_ttl : Z;
  r_rdlength : Z;
  r_rdata : dns_rdata
}.

Record dns_parser := mkDns {
  msgbuf : list Z;
  msgbase : Z;
  cur : Z;
  msgsize : Z;
  bufsize : Z;
  complete : Z;
  single_packet : Z;
  header : dns_header;
  question : dns_question;
  answer_list : list dns_record;
  authority_list : list dns_record;
  additional_list : list dns_record
}.

Definition set_cur (c : Z) (p : dns_parser) : dns_parser :=
  mkDns (msgbuf p) (msgbase p) c (msgsize p) (bufsize p) (complete p) (single_packet p)
    (header p) (question p) (answer_list p) (authority_list p) (additional_list p).

Definition set_question (q : dns_question) (p : dns_parser) : dns_parser :=
  mkDns (msgbuf p) (msgbase p) (cur p) (msgsize p) (bufsize p) (complete p) (single_packet p)
    (header p) q (answer_list p) (authority_list p) (additional_list p).

Definition set_header (h : dns_header) (p : dns_parser) : dns_parser :=
  mkDns (msgbuf p) (msgbase p) (cur p) (msgsize p) (bufsize p) (complete p) (single_packet p)
    h (question p) (answer_list p) (authority_list p) (additional_list p).

Definition set_complete (p : dns_parser) : dns_parser :=
  mkDns (msgbuf p) (msgbase p) (cur p) (msgsize p) (bufsize p) 1 (single_packet p)
    (header p) (question p) (answer_list p) (authority_list p) (additional_list p).

(** The message buffer: bytes, base, sizes. *)
Definition set_message (b : list Z) (base size cap : Z) (p : dns_parser) : dns_parser :=
  mkDns b base (cur p) size cap (complete p) (single_packet p)
    (header p) (question p) (answer_list p) (authority_list p) (additional_list p).

(** The list [__dns_parser_parse_record (idx, ...)] appends to. *)
Definition set_records (idx : Z) (l : list dns_record) (p : dns_parser) : dns_parser :=
  mkDns (msgbuf p) (msgbase p) (cur p) (msgsize p) (bufsize p) (complete p) (single_packet p)
    (header p) (question p)
    (if idx =? 0 then l else answer_list p)
    (if idx =? 1 then l else authority_list p)
    (if idx =? 2 then l else additional_list p).

Definition get_records (idx : Z) (p : dns_parser) : list dns_record :=
  if idx =? 0 then answer_list p else if idx =? 1 then authority_list p else additional_list p.

Definition dns_parser_init : dns_parser :=
  mkDns [] 0 0 0 0 0 0 (mkHeader 0 0 0 0 0 0 0 0 0 0 0 0 0) (mkQuestion None 0 0) [] [] [].

(** ** Big-endian reads *)

Definition dns_parser_uint8 (buf : list Z) (p : Z) : comp Z := rd buf p.

Definition dns_parser_uint16 (buf : list Z) (p : Z) : comp Z :=
  let! b0 := rd buf p in
  let! b1 := rd buf (p + 1) in
  Ret (u16 (Z.shiftl b0 8 + b1)).

Definition dns_parser_uint32 (buf : list Z) (p : Z) : comp Z :=
  let! b0 := rd buf p in
  let! b1 := rd buf (p + 1) in
  let! b2 := rd buf (p + 2) in
  let! b3 := rd buf (p + 3) in
  Ret (u32 (Z.shiftl b0 24 + Z.shiftl b1 16 + Z.shiftl b2 8 + b3)).

Definition ntohs (x : Z) : Z := u16 (Z.lor (Z.shiftl x 8) (Z.shiftr x 8)).

(** ** Domain names *)

(** The end of [__dns_parser_parse_host]: the trailing dot goes, the root is
    a lone dot. [host] is what was written before the NUL. *)
Definition parse_host_end (host : list Z) : list Z :=
  let host1 := if (1 <? blen host) && bool_decide (last host = Some 46)
               then removelast host else host in
  if blen host1 =? 0 then [46] else host1.

(** The loop of [__dns_parser_parse_host].  [host] is the written part of the
    array of DNS_NAMES_MAX + 2 characters behind [phost], [backup] is
    [curbackup]. *)
Fixpoint parse_host_loop (fuel : nat) (buf : list Z) (base size cur : Z)
    (backup : option Z) (host : list Z) : comp (Z * list Z * Z) :=
  let finish (c : Z) := Ret (0, parse_host_end host, default c backup) in
  if cur <? size then
    let! len := dns_parser_uint8 buf cur in
    if Z.land len 0xC0 =? 0 then
      let cur := cur + 1 in
      if len =? 0 then finish cur
      else if (DNS_LABELS_MAX <? len) || (size <? cur + len) ||
              (DNS_NAMES_MAX <? blen host + len + 1) then Ret (-2, host, cur)
      else
        let! label := rd_block buf cur len in
        if DNS_NAMES_MAX + 2 <? blen host + len + 1 then Oob
        else
          match fuel with
          | O => NoFuel
          | S f => parse_host_loop f buf base size (cur + len) backup (host ++ label ++ [46])
          end
    else if Z.land len 0xC0 =? 0xC0 then
      let! w := dns_parser_uint16 buf cur in
      let pointer := Z.land w 0x3FFF in
      let cur := cur + 2 in
      if size <=? pointer then Ret (-2, host, cur)
      else
        match fuel with
        | O => NoFuel
        | S f => parse_host_loop f buf base size (base + pointer) (Some (default cur backup)) host
        end
    else Ret (-2, host, cur)
  else finish cur.

(** Return value, host, [*cur]. *)
Definition dns_parser_parse_host (fuel : nat) (buf : list Z) (base size cur : Z)
    : comp (Z * list Z * Z) :=
  if size <=? cur then Ret (-2, [], cur)
  else parse_host_loop fuel buf base size cur None [].

(** ** Resource records *)

Definition sizeof_record_entry : Z := 48.
Definition sizeof_record_soa : Z := 40.
Definition sizeof_record_srv : Z := 16.
Definition sizeof_record_mx : Z := 16.

Section Records.
(** Whether [malloc] of a given size succeeds. *)
Variable malloc_ok : Z -> bool.
Variable fuel : nat.

Definition strdup_ok (s : list Z) : bool := malloc_ok (blen s + 1).

(** The RDATA parsers: return value, the data when it is 0, and [*cur]. *)
Definition dns_parser_parse_a (buf : list Z) (base size cur rdlength : Z)
  : comp (Z * option dns_rdata * Z) :=
if negb (4 =? rdlength) then Ret (-2, None, cur)
else if negb (malloc_ok (sizeof_record_entry + 4)) then Ret (-1, None, cur)
else
  let! b := rd_block buf cur rdlength in
  Ret (0, Some (RD_bytes b), cur + rdlength).

Definition dns_parser_parse_aaaa (buf : list Z) (base size cur rdlength : Z)
  : comp (Z * option dns_rdata * Z) :=
if negb (16 =? rdlength) then Ret (-2, None, cur)
else if negb (malloc_ok (sizeof_record_entry + 16)) then Ret (-1, None, cur)
else
  let! b := rd_block buf cur rdlength in
  Ret (0, Some (RD_bytes b), cur + rdlength).

Definition dns_parser_parse_names (buf : list Z) (base size cur rdlength : Z)
  : comp (Z * option dns_rdata * Z) :=
let rcdend := cur + rdlength in
let! '(ret, name, cur) := dns_parser_parse_host fuel buf base size cur in
if ret <? 0 then Ret (ret, None, cur)
else if negb (cur =? rcdend) then Ret (-2, None, cur)
else
  let name := cstr name in
  if negb (malloc_ok (sizeof_record_entry + blen name + 1)) then Ret (-1, None, cur)
  else Ret (0, Some (RD_name name), cur).

Definition dns_parser_parse_soa (buf : list Z) (base size cur rdlength : Z)
  : comp (Z * option dns_rdata * Z) :=
let rcdend := cur + rdlength in
let! '(ret, mname, cur) := dns_parser_parse_host fuel buf base size cur in
if ret <? 0 then Ret (ret, None, cur)
else
let! '(ret, rname, cur) := dns_parser_parse_host fuel buf base size cur in
if ret <? 0 then Ret (ret, None, cur)
else if negb (cur + 20 =? rcdend) then Ret (-2, None, cur)
else if negb (malloc_ok (sizeof_record_entry + sizeof_record_soa)) then Ret (-1, None, cur)
else
  let! serial := dns_parser_uint32 buf cur in
  let! refresh := dns_parser_uint32 buf (cur + 4) in
  let! retry := dns_parser_uint32 buf (cur + 8) in
  let! expire := dns_parser_uint32 buf (cur + 12) in
  let! minimum := dns_parser_uint32 buf (cur + 16) in
  if negb (strdup_ok (cstr mname)) || negb (strdup_ok (cstr rname)) then Ret (-1, None, cur)
  else Ret (0, Some (RD_soa (cstr mname) (cstr rname) serial (i32 refresh) (i32 retry)
                       (i32 expire) minimum), cur + 20).

Definition dns_parser_parse_srv (buf : list Z) (base size cur rdlength : Z)
  : comp (Z * option dns_rdata * Z) :=
let rcdend := cur + rdlength in
if rcdend <? cur + 6 then Ret (-2, None, cur)
else
  let! priority := dns_parser_uint16 buf cur in
  let! weight := dns_parser_uint16 buf (cur + 2) in
  let! port := dns_parser_uint16 buf (cur + 4) in
  let! '(ret, target, cur) := dns_parser_parse_host fuel buf base size (cur + 6) in
  if ret <? 0 then Ret (ret, None, cur)
  else if negb (cur =? rcdend) then Ret (-2, None, cur)
  else if negb (malloc_ok (sizeof_record_entry + sizeof_record_srv)) then Ret (-1, None, cur)
  else if negb (strdup_ok (cstr target)) then Ret (-1, None, cur)
  else Ret (0, Some (RD_srv priority weight port (cstr target)), cur).

Definition dns_parser_parse_mx (buf : list Z) (base size cur rdlength : Z)
  : comp (Z * option dns_rdata * Z) :=
let rcdend := cur + rdlength in
if rcdend <? cur + 2 then Ret (-2, None, cur)
else
  let! preference := dns_parser_uint16 buf cur in
  let! '(ret, exchange, cur) := dns_parser_parse_host fuel buf base size (cur + 2) in
  if ret <? 0 then Ret (ret, None, cur)
  else if negb (cur =? rcdend) then Ret (-2, None, cur)
  else if negb (malloc_ok (sizeof_record_entry + sizeof_record_mx)) then Ret (-1, None, cur)
  else if negb (strdup_ok (cstr exchange)) then Ret (-1, None, cur)
  else Ret (0, Some (RD_mx (swrap 16 preference) (cstr exchange)), cur).

Definition dns_parser_parse_others (buf : list Z) (base size cur rdlength : Z)
  : comp (Z * option dns_rdata * Z) :=
if negb (malloc_ok (sizeof_record_entry + rdlength)) then Ret (-1, None, cur)
else
  let! b := rd_block buf cur rdlength in
  Ret (0, Some (RD_bytes b), cur + rdlength).

(** The [switch (type)] of [__dns_parser_parse_record]. *)
Definition dns_parse_rdata (type : Z) (buf : list Z) (base size cur rdlength : Z)
  : comp (Z * option dns_rdata * Z) :=
if type =? DNS_TYPE_A then dns_parser_parse_a buf base size cur rdlength
else if type =? DNS_TYPE_AAAA then dns_parser_parse_aaaa buf base size cur rdlength
else if (type =? DNS_TYPE_NS) || (type =? DNS_TYPE_CNAME) || (type =? DNS_TYPE_PTR) then
  dns_parser_parse_names buf base size cur rdlength
else if type =? DNS_TYPE_SOA then dns_parser_parse_soa buf base size cur rdlength
else if type =? DNS_TYPE_SRV then dns_parser_parse_srv buf base size cur rdlength
else if type =? DNS_TYPE_MX then dns_parser_parse_mx buf base size cur rdlength
else dns_parser_parse_others buf base size cur rdlength.

(** One round of the loop: return value, the record when it is 0, [*cur]. *)
Definition dns_parse_one_record (buf : list Z) (base size cur : Z)
  : comp (Z * option dns_record * Z) :=
let! '(ret, host, cur) := dns_parser_parse_host fuel buf base size cur in
if ret <? 0 then Ret (ret, None, cur)
else if size <? cur + 10 then Ret (-2, None, cur)
else
  let! type := dns_parser_uint16 buf cur in
  let! rclass := dns_parser_uint16 buf (cur + 2) in
  let! ttl := dns_parser_uint32 buf (cur + 4) in
  let! rdlength := dns_parser_uint16 buf (cur + 8) in
  let cur := cur + 10 in
  if size <? cur + rdlength then Ret (-2, None, cur)
  else
    let! '(ret, rdata, cur) := dns_parse_rdata type buf base size cur rdlength in
    match rdata with
    | Some rdata =>
        if negb (strdup_ok (cstr host)) then Ret (-1, None, cur)
        else Ret (0, Some (mkRecord (cstr host) type rclass ttl rdlength rdata), cur)
    | None => Ret (ret, None, cur)
    end.

(** The loop [for (i = 0; i < count; i++)]; [recs] is the record list. *)
Fixpoint dns_parse_records (count : nat) (buf : list Z) (base size cur : Z)
  (recs : list dns_record) : comp (Z * list dns_record * Z) :=
match count with
| O => Ret (0, recs, cur)
| S n =>
    let! '(ret, r, cur) := dns_parse_one_record buf base size cur in
    match r with
    | Some r => dns_parse_records n buf base size cur (recs ++ [r])
    | None => Ret (ret, recs, cur)
    end
end.

Definition dns_parser_parse_record (idx : Z) (p : dns_parser) : comp (Z * dns_parser) :=
if (0 <=? idx) && (idx <=? 2) then
  let count := if idx =? 0 then h_ancount (header p)
               else if idx =? 1 then h_nscount (header p) else h_arcount (header p) in
  let! '(ret, recs, cur) :=
    dns_parse_records (Z.to_nat count) (msgbuf p) (msgbase p) (msgsize p) (cur p)
      (get_records idx p) in
  Ret (ret, set_cur cur (set_records idx recs p))
else Ret (-2, p).

Definition dns_parser_parse_question (p : dns_parser) : comp (Z * dns_parser) :=
if negb (h_qdcount (header p) =? 1) then Ret (-2, p)
else
  let! '(ret, host, cur) :=
    dns_parser_parse_host fuel (msgbuf p) (msgbase p) (msgsize p) (cur p) in
  if ret <? 0 then Ret (ret, set_cur cur p)
  else if msgsize p <? cur + 4 then Ret (-2, set_cur cur p)
  else
    let! qt := dns_parser_uint16 (msgbuf p) cur in
    let! qc := dns_parser_uint16 (msgbuf p) (cur + 2) in
    let p := set_cur (cur + 4) p in
    if strdup_ok (cstr host) then Ret (0, set_question (mkQuestion (Some (cstr host)) qt qc) p)
    else Ret (-1, set_question (mkQuestion None (qtype (question p)) (qclass (question p))) p).

(** [memcpy] of the header and the conversions of [dns_parser_parse_all]; the
  bit fields are those of a little-endian machine. *)
Definition read_header (b : list Z) : comp dns_header :=
let! f1 := rd b 2 in
let! f2 := rd b 3 in
let! id := rd_block b 0 2 in
let! qd := rd_block b 4 2 in
let! an := rd_block b 6 2 in
let! ns := rd_block b 8 2 in
let! ar := rd_block b 10 2 in
Ret (mkHeader (ntohs (le_val id))
       (Z.shiftr f1 7) (Z.land (Z.shiftr f1 3) 15) (Z.land (Z.shiftr f1 2) 1)
       (Z.land (Z.shiftr f1 1) 1) (Z.land f1 1)
       (Z.shiftr f2 7) (Z.land (Z.shiftr f2 4) 7) (Z.land f2 15)
       (ntohs (le_val qd)) (ntohs (le_val an)) (ntohs (le_val ns)) (ntohs (le_val ar))).

Definition dns_parser_parse_all (p : dns_parser) : comp (Z * dns_parser) :=
let p := set_cur (msgbase p) (set_complete p) in
if msgsize p <? DNS_HEADER_SIZE then Ret (-2, p)
else
  let! b := rd_block (msgbuf p) (msgbase p) DNS_HEADER_SIZE in
  let! h := read_header b in
  let p := set_cur (cur p + DNS_HEADER_SIZE) (set_header h p) in
  let! '(ret, p) := dns_parser_parse_question p in
  if ret <? 0 then Ret (ret, p)
  else
  let! '(ret, p) := dns_parser_parse_record 0 p in
  if ret <? 0 then Ret (ret, p)
  else
  let! '(ret, p) := dns_parser_parse_record 1 p in
  if ret <? 0 then Ret (ret, p)
  else
  let! '(ret, p) := dns_parser_parse_record 2 p in
  if ret <? 0 then Ret (ret, p) else Ret (0, p).

(** Return value, [*n], parser. *)
Definition dns_parser_append_message (buf : list Z) (p : dns_parser)
  : comp (Z * Z * dns_parser) :=
let n := blen buf in
let finish (n : Z) (p : dns_parser) :=
  let! '(ret, p) := dns_parser_parse_all p in
  if ret <? 0 then Ret (ret, n, p) else Ret (1, n, p) in
if negb (complete p =? 0) then Ret (1, 0, p)
else if single_packet p =? 0 then
  let msgsize_bak := msgsize p in
  let need := msgsize p + n in
  let! cap :=
    if bufsize p <? need then
      let! new_size := double_until 64 (Z.max DNS_MSGBASE_INIT_SIZE (2 * bufsize p)) need in
      Ret (if malloc_ok new_size then Some new_size else None)
    else Ret (Some (bufsize p)) in
  match cap with
  | None => Ret (-1, n, p)
  | Some cap =>
      let! old := rd_block (msgbuf p) 0 (msgsize p) in
      let b := old ++ buf in
      if cap <? blen b then Oob
      else
      let p := set_message b (msgbase p) (msgsize p + n) cap p in
      if msgsize p <? 2 then Ret (0, n, p)
      else
        let! total := dns_parser_uint16 b 0 in
        if msgsize p <? total + 2 then Ret (0, n, p)
        else finish (u64 (total + 2 - msgsize_bak)) (set_message b 2 (total + 2) cap p)
  end
else if malloc_ok n then finish n (set_message buf 0 n n p)
else Oob.
End Records.

(** ** Question and cursors *)

Definition dns_parser_set_question_name (malloc_ok : Z -> bool) (name : list Z) (p : dns_parser)
    : Z * dns_parser :=
  let len := blen name in
  if negb (malloc_ok (len + 1)) then (-1, p)
  else
    let newname := if (1 <? len) && bool_decide (last name = Some 46)
                   then removelast name else name in
    (0, set_question (mkQuestion (Some newname) (qtype (question p)) (qclass (question p))) p).

Definition dns_parser_set_question (malloc_ok : Z -> bool) (name : list Z) (qt qc : Z)
    (p : dns_parser) : Z * dns_parser :=
  let '(ret, p) := dns_parser_set_question_name malloc_ok name p in
  if ret <? 0 then (ret, p)
  else
    let h := header p in
    (0, set_header (mkHeader (h_id h) (h_qr h) (h_opcode h) (h_aa h) (h_tc h) (h_rd h) (h_ra h)
                      (h_z h) (h_rcode h) 1 (h_ancount h) (h_nscount h) (h_arcount h))
          (set_question (mkQuestion (qname (question p)) qt qc) p)).

(** A cursor: the records of its list, and those after [cursor->next]. *)
Record dns_record_cursor := mkCursor {
  c_all : list dns_record;
  c_rest : list dns_record
}.

Definition dns_record_cursor_next (c : dns_record_cursor) : Z * option dns_record * dns_record_cursor :=
  match c_rest c with
  | e :: rest => (0, Some e, mkCursor (c_all c) rest)
  | [] => (1, None, c)
  end.

Fixpoint find_cname_loop (name : list Z) (all rest : list dns_record)
    : Z * option dns_rdata * dns_record_cursor :=
  match rest with
  | [] => (1, None, mkCursor all [])
  | e :: rest =>
      if (r_type e =? DNS_TYPE_CNAME) && strcaseeq name (r_name e)
      then (0, Some (r_rdata e), mkCursor all rest)
      else find_cname_loop name all rest
  end.

Definition dns_record_cursor_find_cname (name : list Z) (c : dns_record_cursor)
    : Z * option dns_rdata * dns_record_cursor :=
  find_cname_loop name (c_all c) (c_all c).

(** ** Specification of domain names (RFC 1035, 3.1 and 4.1.4) *)

(** [name_at buf base size pos labels next]: the labels of the name that
    starts at [pos], following compression pointers; [next] is the position
    behind it.  An inductive derivation is finite: pointer cycles have none. *)
Inductive name_at (buf : list Z) (base size : Z) : Z -> list (list Z) -> Z -> Prop :=
| name_root pos :
    pos < size -> rd buf pos = Ret 0 ->
    name_at buf base size pos [] (pos + 1)
| name_label pos l ls next :
    pos < size -> rd buf pos = Ret (blen l) -> 1 <= blen l <= 63 ->
    pos + 1 + blen l <= size -> rd_block buf (pos + 1) (blen l) = Ret l ->
    name_at buf base size (pos + 1 + blen l) ls next ->
    name_at buf base size pos (l :: ls) next
| name_pointer pos b0 b1 ls next :
    pos < size -> rd buf pos = Ret b0 -> rd buf (pos + 1) = Ret b1 ->
    192 <= b0 < 256 -> is_byte b1 ->
    (b0 - 192) * 256 + b1 < size ->
    name_at buf base size (base + ((b0 - 192) * 256 + b1)) ls next ->
    name_at buf base size pos ls (pos + 2).

(** Every label followed by a dot. *)
Definition dots (ls : list (list Z)) : list Z := concat (map (fun l => l ++ [46]) ls).

(** The textual name: labels separated by dots; the root is a dot. *)
Fixpoint dotted (ls : list (list Z)) : list Z :=
  match ls with
  | [] => [46]
  | [l] => l
  | l :: ls => l ++ 46 :: dotted ls
  end.

(** ** Bytes *)

Lemma land_C0_table :
  forallb (fun b => Z.land b 0xC0 =? (b / 64) * 64) (seqZ 0 256) = true.
Proof. vm_compute. reflexivity. Qed.

Lemma land_C0 b : is_byte b -> Z.land b 0xC0 = (b / 64) * 64.
Proof.
  intros Hb. pose proof land_C0_table as H. rewrite forallb_forall in H. specialize (H b).
  rewrite <- list_elem_of_In, elem_of_seqZ in H. apply Z.eqb_eq, H. unfold is_byte in Hb. lia.
Qed.

Lemma uint16_value b0 b1 : is_byte b0 -> is_byte b1 -> u16 (Z.shiftl b0 8 + b1) = b0 * 256 + b1.
Proof. unfold is_byte, u16. intros. rewrite Z.shiftl_mul_pow2 by lia. rewrite Z.mod_small; lia. Qed.

Lemma pointer_value b0 b1 :
  192 <= b0 < 256 -> is_byte b1 ->
  Z.land (u16 (Z.shiftl b0 8 + b1)) 0x3FFF = (b0 - 192) * 256 + b1.
Proof.
  unfold is_byte. intros H0 H1. rewrite uint16_value by (unfold is_byte; lia).
  change 0x3FFF with (Z.ones 14). rewrite Z.land_ones by lia.
  symmetry. apply Z.mod_unique with 3; lia.
Qed.

(** ** The host buffer *)

Lemma dots_cons l ls : dots (l :: ls) = l ++ 46 :: dots ls.
Proof. unfold dots. simpl. by rewrite <- app_assoc. Qed.

Lemma removelast_snoc {A} (l : list A) x : removelast (l ++ [x]) = l.
Proof. by rewrite removelast_app, app_nil_r. Qed.

Lemma dots_dotted l ls : dots (l :: ls) = dotted (l :: ls) ++ [46].
Proof.
  revert l. induction ls as [|l' ls IH]; intros l; [by rewrite dots_cons|].
  rewrite dots_cons, IH. change (dotted (l :: l' :: ls)) with (l ++ 46 :: dotted (l' :: ls)).
  by rewrite <- app_assoc.
Qed.

Lemma parse_host_end_dots ls :
  Forall (fun l => 1 <= blen l) ls -> parse_host_end (dots ls) = dotted ls.
Proof.
  intros H. destruct ls as [|l ls]; [done|]. rewrite dots_dotted. unfold parse_host_end.
  inversion_clear H as [|? ? Hl _].
  assert (1 <= blen (dotted (l :: ls))) as Hd.
  { destruct ls; [done|]. change (dotted (l :: l0 :: ls)) with (l ++ 46 :: dotted (l0 :: ls)).
    rewrite blen_app, blen_cons. pose proof (blen_nonneg (dotted (l0 :: ls))). lia. }
  rewrite blen_app, last_snoc, bool_decide_true by done. change (blen [46]) with 1.
  zcase. cbn [andb]. rewrite removelast_snoc. zcase. done.
Qed.

Lemma name_at_labels buf base size pos ls next :
  name_at buf base size pos ls next -> Forall (fun l => 1 <= blen l) ls.
Proof. induction 1; auto. constructor; [lia|done]. Qed.

Section ParseHost.
Variables (buf : list Z) (base size : Z).

Lemma parse_host_loop_name pos ls next :
name_at buf base size pos ls next ->
forall backup host, blen host + blen (dots ls) <= 256 ->
exists n, forall fuel, (n <= fuel)%nat ->
  parse_host_loop fuel buf base size pos backup host =
    Ret (0, parse_host_end (host ++ dots ls), default next backup).
Proof.
induction 1 as [pos Hp Hr|pos l ls next Hp Hr Hl Hsz Hb _ IH|pos b0 b1 ls next Hp Hr0 Hr1 H0 H1 Hk _ IH];
  intros backup host Hlen.
- exists 0%nat. intros fuel _. destruct fuel; simpl; unfold dns_parser_uint8;
    (destruct (Z.ltb_spec pos size); [|lia]); rewrite Hr; cbn [cbind];
    change (Z.land 0 192 =? 0) with true; cbv iota; simpl (0 =? 0); cbv iota; by rewrite app_nil_r.
- rewrite dots_cons, blen_app, blen_cons in Hlen. pose proof (blen_nonneg (dots ls)).
  destruct (IH backup (host ++ l ++ [46])) as [n Hn].
  { rewrite !blen_app. change (blen [46]) with 1. lia. }
  exists (S n). intros [|fuel] Hf; [lia|]. simpl. unfold dns_parser_uint8.
  destruct (Z.ltb_spec pos size); [|lia]. rewrite Hr. cbn [cbind].
  rewrite land_C0 by (unfold is_byte; lia). rewrite Z.div_small by lia. simpl (0 * 64 =? 0). cbv iota.
  unfold DNS_LABELS_MAX, DNS_NAMES_MAX. repeat (zcase; cbn [orb]).
  rewrite Hb. cbn [cbind]. rewrite Hn by lia. rewrite dots_cons, <- !app_assoc. done.
- destruct (IH (Some (default (pos + 2) backup)) host Hlen) as [n Hn].
  exists (S n). intros [|fuel] Hf; [lia|]. simpl. unfold dns_parser_uint8, dns_parser_uint16.
  destruct (Z.ltb_spec pos size); [|lia]. rewrite Hr0. cbn [cbind].
  assert (b0 / 64 = 3) as E by (symmetry; apply Z.div_unique with (b0 - 192); lia).
  rewrite !land_C0, !E by (unfold is_byte; lia). simpl (3 * 64 =? 0). simpl (3 * 64 =? 192). cbv iota.
  rewrite Hr1. cbn [cbind]. rewrite pointer_value by done. zcase. rewrite Hn by lia. done.
Qed.
End ParseHost.

(** ** Pointer cycles and termination *)

(** Every compression pointer leads to an earlier position than its own. *)
Definition backward (buf : list Z) (base : Z) : Prop :=
  forall pos b0 b1, rd buf pos = Ret b0 -> 192 <= b0 -> rd buf (pos + 1) = Ret b1 ->
    base + ((b0 - 192) * 256 + b1) < pos.

Lemma parse_host_end_len host : blen host <= 256 -> blen (parse_host_end host) <= 256.
Proof.
  intros H. unfold parse_host_end. destruct (_ && _).
  - assert (blen (removelast host) <= blen host).
    { rewrite removelast_firstn_len, blen_take. lia. }
    zcase. unfold blen. simpl. lia.
  - zcase. unfold blen. simpl. lia.
Qed.

Lemma parse_host_loop_total fuel buf base size pos backup host :
  Forall is_byte buf -> backward buf base -> 0 <= base -> 0 <= pos -> size <= blen buf ->
  (forall b, rd buf (size - 1) = Ret b -> b < 192) ->
  blen host <= 256 ->
  (256 - blen host) * 65 + pos < Z.of_nat fuel ->
  exists ret h c, parse_host_loop fuel buf base size pos backup host = Ret (ret, h, c) /\
    (ret = 0 \/ ret = -2) /\ blen h <= 256.
Proof.
  intros Hbytes Hback Hbase. revert pos backup host.
  induction fuel as [|fuel IH]; intros pos backup host Hp Hs Hlast Hh Hf; [lia|].
  simpl. destruct (Z.ltb_spec pos size); [|eauto 10 using parse_host_end_len].
  unfold dns_parser_uint8. destruct (rd_in_bounds buf pos) as [b Hb]; [lia|]. rewrite Hb. cbn [cbind].
  assert (is_byte b) as Hby.
  { apply rd_Ret_inv in Hb as [_ Hb]. rewrite Forall_lookup in Hbytes. eauto. }
  rewrite !land_C0 by done. unfold is_byte in Hby.
  destruct (Z.eqb_spec (b / 64 * 64) 0).
  { destruct (Z.eqb_spec b 0); [eauto 10 using parse_host_end_len|].
    unfold DNS_LABELS_MAX, DNS_NAMES_MAX. destruct (_ || _) eqn:Eo; [eauto 10|]. zify_bool.
    assert (1 <= b) by lia.
    rewrite rd_block_in_bounds by lia. cbn [cbind]. zcase.
    apply IH; [lia|done|done| |].
    - rewrite !blen_app, blen_sub by lia. change (blen [46]) with 1. lia.
    - rewrite !blen_app, blen_sub by lia. change (blen [46]) with 1. lia. }
  destruct (Z.eqb_spec (b / 64 * 64) 192); [|eauto 10].
  assert (192 <= b) by dlia.
  assert (pos + 1 < size) as Hp1.
  { destruct (Z.eq_dec (pos + 1) size) as [E|]; [|lia]. specialize (Hlast b).
    replace (size - 1) with pos in Hlast by lia. specialize (Hlast Hb). lia. }
  unfold dns_parser_uint16. rewrite Hb. cbn [cbind].
  destruct (rd_in_bounds buf (pos + 1)) as [b1 Hb1]; [lia|]. rewrite Hb1. cbn [cbind].
  assert (is_byte b1) as Hby1.
  { apply rd_Ret_inv in Hb1 as [_ Hb1]. rewrite Forall_lookup in Hbytes. eauto. }
  rewrite pointer_value by (done || lia). zcase; [eauto 10|].
  specialize (Hback pos b b1 Hb ltac:(lia) Hb1). unfold is_byte in Hby1.
  apply IH; try done; lia.
Qed.

(** [__dns_parser_parse_host] decodes every name of RFC 1035 of at most
    256 characters with its dots, with or without compression, and leaves the
    position behind it. *)
Theorem parse_host_decodes (buf : list Z) (base size pos next : Z) (ls : list (list Z)) :
  name_at buf base size pos ls next -> blen (dots ls) <= DNS_NAMES_MAX ->
  exists n, forall fuel, (n <= fuel)%nat ->
    dns_parser_parse_host fuel buf base size pos = Ret (0, dotted ls, next).
Proof.
  intros Hn Hl. destruct (parse_host_loop_name buf base size pos ls next Hn None []) as [n H];
    [exact Hl|].
  exists n. intros fuel Hf. unfold dns_parser_parse_host.
  assert (pos < size) by (destruct Hn; done). zcase. rewrite H by done. simpl.
  by rewrite parse_host_end_dots by (by eapply name_at_labels).
Qed.

(** "a.b" at 5, where "b" is a pointer to the name at 2. *)
Lemma parse_host_decodes_witness :
  exists n, forall fuel, (n <= fuel)%nat ->
    dns_parser_parse_host fuel [9; 9; 1; 98; 0; 1; 97; 192; 2] 0 9 5 = Ret (0, [97; 46; 98], 9).
Proof.
  apply (parse_host_decodes _ _ _ _ _ [[97]; [98]]).
  - apply (name_label _ _ _ 5 [97]); try done.
    apply (name_pointer _ _ _ 7 192 2 [[98]] 5); try done; try lia.
    apply (name_label _ _ _ 2 [98]); try done. by apply (name_root _ _ _ 4).
  - done.
Defined.

(** a compression pointer that leads to itself makes the loop run forever:
    no number of iterations is enough. *)
Theorem parse_host_self_pointer (buf : list Z) (base size pos b0 b1 : Z) :
  pos < size -> rd buf pos = Ret b0 -> rd buf (pos + 1) = Ret b1 ->
  192 <= b0 < 256 -> is_byte b1 ->
  (b0 - 192) * 256 + b1 < size -> base + ((b0 - 192) * 256 + b1) = pos ->
  forall fuel, dns_parser_parse_host fuel buf base size pos = NoFuel.
Proof.
  intros Hp Hr0 Hr1 H0 H1 Hk Hself fuel. unfold dns_parser_parse_host.
  destruct (Z.leb_spec size pos); [lia|]. generalize (@None Z), (@nil Z).
  induction fuel as [|fuel IH]; intros backup host; simpl; unfold dns_parser_uint8, dns_parser_uint16;
    (destruct (Z.ltb_spec pos size); [|lia]); rewrite Hr0; cbn [cbind];
    (assert (b0 / 64 = 3) as E by (symmetry; apply Z.div_unique with (b0 - 192); lia));
    rewrite !land_C0, !E by (unfold is_byte; lia); simpl (3 * 64 =? 0); simpl (3 * 64 =? 192); cbv iota;
    rewrite Hr1; cbn [cbind]; rewrite pointer_value by done;
    (destruct (Z.leb_spec size ((b0 - 192) * 256 + b1)); [lia|]); [done|].
  rewrite Hself. apply IH.
Qed.

(** The question of a response whose name is a pointer to itself. *)
Lemma parse_host_self_pointer_witness :
  dns_parser_parse_host 500 [0; 1; 192; 2] 0 4 2 = NoFuel.
Proof.
  apply (parse_host_self_pointer [0; 1; 192; 2] 0 4 2 192 2); try done; lia.
Defined.

(** when every compression pointer leads backwards and the last byte of
    the message does not start a pointer, the decoder terminates on any bytes,
    reads only the message, and writes at most 256 characters and a NUL to the
    host array. *)
Theorem parse_host_total (fuel : nat) (buf : list Z) (base size pos : Z) :
  Forall is_byte buf -> backward buf base -> 0 <= base -> 0 <= pos -> size <= blen buf ->
  (forall b, rd buf (size - 1) = Ret b -> b < 192) ->
  256 * 65 + pos < Z.of_nat fuel ->
  exists ret host c, dns_parser_parse_host fuel buf base size pos = Ret (ret, host, c) /\
    (ret = 0 \/ ret = -2) /\ blen host <= DNS_NAMES_MAX.
Proof.
  intros. unfold dns_parser_parse_host, DNS_NAMES_MAX. zcase.
  - do 3 eexists. split; [done|]. split; [by right|]. unfold blen. simpl. lia.
  - apply parse_host_loop_total; try done; unfold blen at 1; simpl; lia.
Qed.

Lemma parse_host_total_witness :
  exists ret host c,
    dns_parser_parse_host (Z.to_nat 17000) [1; 98; 192; 0; 7] 0 5 2 = Ret (ret, host, c) /\
    (ret = 0 \/ ret = -2) /\ blen host <= DNS_NAMES_MAX.
Proof.
  apply (parse_host_total (Z.to_nat 17000) [1; 98; 192; 0; 7] 0 5 2); try done; try lia.
  - solve_bytes.
  - intros pos b0 b1 H0 Hb H1. apply rd_Ret_inv in H0 as [Hpos H0]. unfold blen in Hpos. simpl in Hpos.
    assert (pos = 0 \/ pos = 1 \/ pos = 2 \/ pos = 3 \/ pos = 4) as Hc by lia.
    destruct Hc as [-> | [-> | [-> | [-> | -> ] ] ] ]; vm_compute in H0; simplify_eq; try lia.
    vm_compute in H1. simplify_eq. lia.
  - intros b Hb. vm_compute in Hb. by simplify_eq.
Defined.

(** ** Specification of messages *)

(** The [n] bytes at [pos], most significant first, are the number [v]. *)
Definition be_at (n : Z) (buf : list Z) (pos v : Z) : Prop :=
  exists bs, rd_block buf pos n = Ret bs /\ Forall is_byte bs /\
             v = fold_left (fun acc b => acc * 256 + b) bs 0.

Definition be16_at (buf : list Z) (pos v : Z) : Prop := be_at 2 buf pos v.
Definition be32_at (buf : list Z) (pos v : Z) : Prop := be_at 4 buf pos v.

(** The twelve bytes of a header (RFC 1035, 4.1.1): identifier, two bytes of
    flags (QR Opcode AA TC RD, then RA Z RCODE, from the high bit), and the
    counts of questions, answers, authority and additional records. *)
Definition header_at (buf : list Z) (base : Z) (h : dns_header) : Prop :=
  be16_at buf base (h_id h) /\
  rd buf (base + 2) =
    Ret (128 * h_qr h + 8 * h_opcode h + 4 * h_aa h + 2 * h_tc h + h_rd h) /\
  rd buf (base + 3) = Ret (128 * h_ra h + 16 * h_z h + h_rcode h) /\
  be16_at buf (base + 4) (h_qdcount h) /\ be16_at buf (base + 6) (h_ancount h) /\
  be16_at buf (base + 8) (h_nscount h) /\ be16_at buf (base + 10) (h_arcount h) /\
  (0 <= h_qr h < 2 /\ 0 <= h_opcode h < 16 /\ 0 <= h_aa h < 2 /\ 0 <= h_tc h < 2 /\
   0 <= h_rd h < 2 /\ 0 <= h_ra h < 2 /\ 0 <= h_z h < 8 /\ 0 <= h_rcode h < 16).

(** ** The reads of the code *)

Lemma rd_block_cells buf pos n bs :
  rd_block buf pos n = Ret bs ->
  forall i b, bs !! i = Some b -> rd buf (pos + Z.of_nat i) = Ret b.
Proof.
  intros H i b Hi. unfold rd_block in H. destruct (_ && _) eqn:E; [|discriminate]. zify_bool.
  injection H as <-. unfold sub in Hi. apply lookup_take_Some in Hi as [Hi Hl].
  rewrite lookup_drop in Hi. unfold rd. destruct (Z.leb_spec 0 (pos + Z.of_nat i)); [|lia].
  replace (Z.to_nat (pos + Z.of_nat i)) with (Z.to_nat pos + i)%nat by lia. by rewrite Hi.
Qed.

Lemma be16_cells buf pos v :
  be16_at buf pos v ->
  exists b0 b1, rd buf pos = Ret b0 /\ rd buf (pos + 1) = Ret b1 /\ is_byte b0 /\ is_byte b1 /\
    v = b0 * 256 + b1 /\ rd_block buf pos 2 = Ret [b0; b1].
Proof.
  intros (bs & Hb & Hby & ->). pose proof (blen_rd_block _ _ _ _ Hb) as Hl.
  pose proof (rd_block_cells _ _ _ _ Hb) as Hc.
  destruct bs as [|b0 [|b1 [|]]]; unfold blen in Hl; simpl in Hl; try lia.
  exists b0, b1. rewrite !Forall_cons in Hby. destruct Hby as (H0 & H1 & _).
  split; [rewrite <- (Hc 0%nat b0 eq_refl); f_equal; lia|]. by rewrite <- (Hc 1%nat b1 eq_refl).
Qed.

Lemma uint16_at buf pos v : be16_at buf pos v -> dns_parser_uint16 buf pos = Ret v.
Proof.
  intros (b0 & b1 & H0 & H1 & Hb0 & Hb1 & -> & _)%be16_cells.
  unfold dns_parser_uint16. rewrite H0. cbn [cbind]. rewrite H1. cbn [cbind]. by rewrite uint16_value.
Qed.

Lemma uint32_at buf pos v : be32_at buf pos v -> dns_parser_uint32 buf pos = Ret v.
Proof.
  intros (bs & Hb & Hby & ->). pose proof (blen_rd_block _ _ _ _ Hb) as Hl.
  pose proof (rd_block_cells _ _ _ _ Hb) as Hc.
  destruct bs as [|b0 [|b1 [|b2 [|b3 [|]]]]]; unfold blen in Hl; simpl in Hl; try lia.
  rewrite !Forall_cons in Hby. destruct Hby as (H0 & H1 & H2 & H3 & _). unfold is_byte in *.
  unfold dns_parser_uint32.
  pose proof (Hc 0%nat b0 eq_refl) as E. rewrite Z.add_0_r in E. rewrite E. cbn [cbind].
  pose proof (Hc 1%nat b1 eq_refl) as E1. change (Z.of_nat 1) with 1 in E1. rewrite E1. cbn [cbind].
  pose proof (Hc 2%nat b2 eq_refl) as E2. change (Z.of_nat 2) with 2 in E2. rewrite E2. cbn [cbind].
  pose proof (Hc 3%nat b3 eq_refl) as E3. change (Z.of_nat 3) with 3 in E3. rewrite E3. cbn [cbind].
  rewrite !Z.shiftl_mul_pow2 by lia. unfold u32. rewrite Z.mod_small; [f_equal; simpl; lia|lia].
Qed.

(** Bit fields of a byte, by computation over the 256 bytes. *)
Lemma flag_bits_table :
  forallb (fun f =>
    let '(a, b, c, d, e) := (f / 128, f / 8 mod 16, f / 4 mod 2, f / 2 mod 2, f mod 2) in
    (Z.shiftr f 7 =? a) && (Z.land (Z.shiftr f 3) 15 =? b) && (Z.land (Z.shiftr f 2) 1 =? c) &&
    (Z.land (Z.shiftr f 1) 1 =? d) && (Z.land f 1 =? e) &&
    (Z.land (Z.shiftr f 4) 7 =? f / 16 mod 8) && (Z.land f 15 =? f mod 16)) (seqZ 0 256) = true.
Proof. vm_compute. reflexivity. Qed.

Lemma flag_bits f :
  is_byte f ->
  Z.shiftr f 7 = f / 128 /\ Z.land (Z.shiftr f 3) 15 = f / 8 mod 16 /\
  Z.land (Z.shiftr f 2) 1 = f / 4 mod 2 /\ Z.land (Z.shiftr f 1) 1 = f / 2 mod 2 /\
  Z.land f 1 = f mod 2 /\ Z.land (Z.shiftr f 4) 7 = f / 16 mod 8 /\ Z.land f 15 = f mod 16.
Proof.
  intros Hf. pose proof flag_bits_table as H. rewrite forallb_forall in H. specialize (H f).
  rewrite <- list_elem_of_In, elem_of_seqZ in H. unfold is_byte in Hf.
  specialize (H ltac:(lia)). cbv beta iota zeta in H. zify_bool. tauto.
Qed.

Lemma ntohs_value b0 b1 : is_byte b0 -> is_byte b1 -> ntohs (le_val [b0; b1]) = b0 * 256 + b1.
Proof.
  unfold is_byte. intros H0 H1. simpl. replace (b0 + 256 * (b1 + 256 * 0)) with (b1 * 2 ^ 8 + b0) by lia.
  unfold ntohs, u16. rewrite Z.shiftr_div_pow2, Z.div_add_l, Z.div_small, Z.add_0_r by lia.
  rewrite Z.shiftl_mul_pow2, lor_add by lia.
  replace ((b1 * 2 ^ 8 + b0) * 2 ^ 8 + b1) with (b0 * 256 + b1 + b1 * 2 ^ 16) by lia.
  rewrite Z.mod_add by lia. apply Z.mod_small. lia.
Qed.

Lemma read_header_bytes i0 i1 f1 f2 q0 q1 a0 a1 n0 n1 r0 r1 :
  read_header [i0; i1; f1; f2; q0; q1; a0; a1; n0; n1; r0; r1] =
  Ret (mkHeader (ntohs (le_val [i0; i1]))
         (Z.shiftr f1 7) (Z.land (Z.shiftr f1 3) 15) (Z.land (Z.shiftr f1 2) 1)
         (Z.land (Z.shiftr f1 1) 1) (Z.land f1 1)
         (Z.shiftr f2 7) (Z.land (Z.shiftr f2 4) 7) (Z.land f2 15)
         (ntohs (le_val [q0; q1])) (ntohs (le_val [a0; a1])) (ntohs (le_val [n0; n1]))
         (ntohs (le_val [r0; r1]))).
Proof. reflexivity. Qed.

(** The header the code copies and converts is the one the bytes announce. *)
Lemma read_header_at buf base h :
  header_at buf base h ->
  exists b, rd_block buf base DNS_HEADER_SIZE = Ret b /\ read_header b = Ret h.
Proof.
  intros (Hid & Hf1 & Hf2 & Hqd & Han & Hns & Har & Hr).
  apply be16_cells in Hid as (i0 & i1 & Hi0 & Hi1 & Bi0 & Bi1 & Ei & _).
  apply be16_cells in Hqd as (q0 & q1 & Hq0 & Hq1 & Bq0 & Bq1 & Eq & _).
  apply be16_cells in Han as (a0 & a1 & Ha0 & Ha1 & Ba0 & Ba1 & Ea & _).
  apply be16_cells in Hns as (n0 & n1 & Hn0 & Hn1 & Bn0 & Bn1 & En & _).
  apply be16_cells in Har as (r0 & r1 & Hr0 & Hr1 & Br0 & Br1 & Er & _).
  assert (rd_block buf base 12 =
    Ret [i0; i1; 128 * h_qr h + 8 * h_opcode h + 4 * h_aa h + 2 * h_tc h + h_rd h;
         128 * h_ra h + 16 * h_z h + h_rcode h; q0; q1; a0; a1; n0; n1; r0; r1]) as Hb.
  { apply (rd_block_of_cells buf base [_; _; _; _; _; _; _; _; _; _; _; _]); [apply rd_Ret_inv in Hi0; lia|done|].
    replace (base + 4 + 1) with (base + 5) in Hq1 by lia. replace (base + 6 + 1) with (base + 7) in Ha1 by lia.
    replace (base + 8 + 1) with (base + 9) in Hn1 by lia. replace (base + 10 + 1) with (base + 11) in Hr1 by lia.
    repeat (apply Forall_cons; split); cbn [fst snd]; [by rewrite Z.add_0_r|done..|apply Forall_nil_2]. }
  eexists. split; [exact Hb|].
  destruct (flag_bits (128 * h_qr h + 8 * h_opcode h + 4 * h_aa h + 2 * h_tc h + h_rd h))
    as (E1 & E2 & E3 & E4 & E5 & _); [unfold is_byte; lia|].
  destruct (flag_bits (128 * h_ra h + 16 * h_z h + h_rcode h))
    as (E6 & _ & _ & _ & _ & E7 & E8); [unfold is_byte; lia|].
  rewrite read_header_bytes, !ntohs_value, <- Ei, <- Eq, <- Ea, <- En, <- Er by done.
  rewrite E1, E2, E3, E4, E5, E6, E7, E8. destruct h. simpl in *. f_equal. f_equal; dlia.
Qed.

(** A name no longer than the host array, as a C string. *)
Definition host_at (buf : list Z) (base size pos : Z) (name : list Z) (next : Z) : Prop :=
  exists ls, name_at buf base size pos ls next /\ blen (dots ls) <= 256 /\
             name = cstr (dotted ls).

(** RDATA of [n] bytes at [pos], by record type (RFC 1035, 3.3; RFC 3596;
    RFC 2782): 1 A, 28 AAAA, 2 NS, 5 CNAME, 12 PTR, 6 SOA, 33 SRV, 15 MX. *)
Inductive rdata_at (buf : list Z) (base size pos n : Z) : Z -> dns_rdata -> Prop :=
| rdata_a b : n = 4 -> rd_block buf pos n = Ret b ->
    rdata_at buf base size pos n 1 (RD_bytes b)
| rdata_aaaa b : n = 16 -> rd_block buf pos n = Ret b ->
    rdata_at buf base size pos n 28 (RD_bytes b)
| rdata_name type name :
    type = 2 \/ type = 5 \/ type = 12 ->
    host_at buf base size pos name (pos + n) ->
    rdata_at buf base size pos n type (RD_name name)
| rdata_soa mname rname p1 p2 serial refresh retry expire minimum :
    host_at buf base size pos mname p1 -> host_at buf base size p1 rname p2 ->
    p2 + 20 = pos + n ->
    be32_at buf p2 serial -> be32_at buf (p2 + 4) refresh -> be32_at buf (p2 + 8) retry ->
    be32_at buf (p2 + 12) expire -> be32_at buf (p2 + 16) minimum ->
    rdata_at buf base size pos n 6
      (RD_soa mname rname serial (i32 refresh) (i32 retry) (i32 expire) minimum)
| rdata_srv priority weight port target :
    6 <= n -> be16_at buf pos priority -> be16_at buf (pos + 2) weight -> be16_at buf (pos + 4) port ->
    host_at buf base size (pos + 6) target (pos + n) ->
    rdata_at buf base size pos n 33 (RD_srv priority weight port target)
| rdata_mx preference exchange :
    2 <= n -> be16_at buf pos preference ->
    host_at buf base size (pos + 2) exchange (pos + n) ->
    rdata_at buf base size pos n 15 (RD_mx (swrap 16 preference) exchange)
| rdata_other type b :
    type ∉ [1; 28; 2; 5; 12;
            6; 33; 15] ->
    rd_block buf pos n = Ret b ->
    rdata_at buf base size pos n type (RD_bytes b).

Inductive record_at (buf : list Z) (base size pos : Z) : dns_record -> Z -> Prop :=
| record_intro name p1 type class ttl n rdata :
    host_at buf base size pos name p1 -> p1 + 10 + n <= size -> 0 <= n ->
    be16_at buf p1 type -> be16_at buf (p1 + 2) class -> be32_at buf (p1 + 4) ttl ->
    be16_at buf (p1 + 8) n -> rdata_at buf base size (p1 + 10) n type rdata ->
    record_at buf base size pos (mkRecord name type class ttl n rdata) (p1 + 10 + n).

Inductive records_at (buf : list Z) (base size : Z) : Z -> list dns_record -> Z -> Prop :=
| records_nil pos : records_at buf base size pos [] pos
| records_cons pos r p1 rs next :
    record_at buf base size pos r p1 -> records_at buf base size p1 rs next ->
    records_at buf base size pos (r :: rs) next.

(** A whole message of [size] bytes (counted from [msgbuf]). *)
Inductive message_at (buf : list Z) (base size : Z) :
    dns_header -> dns_question -> list dns_record -> list dns_record -> list dns_record -> Prop :=
| message_intro h name p1 qt qc an p2 ns p3 ar p4 :
    12 <= size -> header_at buf base h -> h_qdcount h = 1 ->
    host_at buf base size (base + 12) name p1 -> p1 + 4 <= size ->
    be16_at buf p1 qt -> be16_at buf (p1 + 2) qc ->
    h_ancount h = Z.of_nat (length an) -> h_nscount h = Z.of_nat (length ns) ->
    h_arcount h = Z.of_nat (length ar) ->
    records_at buf base size (p1 + 4) an p2 -> records_at buf base size p2 ns p3 ->
    records_at buf base size p3 ar p4 ->
    message_at buf base size h (mkQuestion (Some name) qt qc) an ns ar.

Section ParseMessage.
Variable malloc_ok : Z -> bool.
Hypothesis malloc_always : forall n, malloc_ok n = true.
Variables (buf : list Z) (base size : Z).

Lemma parse_host_at pos name next :
host_at buf base size pos name next ->
exists host, cstr host = name /\
  eventually (fun f => dns_parser_parse_host f buf base size pos) (Ret (0, host, next)).
Proof.
intros (ls & Hn & Hl & ->). exists (dotted ls). split; [done|].
destruct (parse_host_loop_name buf base size pos ls next Hn None []) as [n H]; [exact Hl|].
exists n. intros fuel Hf. unfold dns_parser_parse_host.
assert (pos < size) by (destruct Hn; done). zcase. rewrite H by done. simpl.
by rewrite parse_host_end_dots by (by eapply name_at_labels).
Qed.

(** Runs one read or one name of the goal with its hypothesis. *)
Ltac ev_step :=
first
  [ match goal with
    | H : be16_at _ ?p _ |- context [dns_parser_uint16 _ ?p] => rewrite (uint16_at _ _ _ H); cbn [cbind]
    | H : be32_at _ ?p _ |- context [dns_parser_uint32 _ ?p] => rewrite (uint32_at _ _ _ H); cbn [cbind]
    | H : rd_block _ ?p ?n = Ret _ |- context [rd_block _ ?p ?n] => rewrite H; cbn [cbind]
    end
  | eapply eventually_bind; [eassumption|cbv beta iota] ].

Lemma strdup_always s : strdup_ok malloc_ok s = true.
Proof. unfold strdup_ok. apply malloc_always. Qed.

Lemma parse_rdata_at pos n type rdata :
rdata_at buf base size pos n type rdata -> pos + n <= size ->
eventually (fun f => dns_parse_rdata malloc_ok f type buf base size pos n)
  (Ret (0, Some rdata, pos + n)).
Proof.
intros H Hn. destruct H.
- eapply eventually_ext; [|apply eventually_const]. intros f. unfold dns_parse_rdata, dns_parser_parse_a.
  subst. simpl. rewrite malloc_always. simpl. rewrite H0. done.
- eapply eventually_ext; [|apply eventually_const]. intros f. unfold dns_parse_rdata, dns_parser_parse_aaaa.
  subst. simpl. rewrite malloc_always. simpl. rewrite H0. done.
- destruct (parse_host_at _ _ _ H0) as (host & <- & Hh).
  eapply eventually_ext with (m' := fun f => dns_parser_parse_names malloc_ok f buf base size pos n).
  { intros f. unfold dns_parse_rdata. destruct H as [->|[->| ->]]; done. }
  unfold dns_parser_parse_names. cbv zeta. ev_step. rewrite Z.eqb_refl, malloc_always. simpl.
  apply eventually_const.
- destruct (parse_host_at _ _ _ H) as (h1 & <- & Hh1).
  destruct (parse_host_at _ _ _ H0) as (h2 & <- & Hh2).
  unfold dns_parse_rdata. simpl. unfold dns_parser_parse_soa. cbv zeta. ev_step. simpl. ev_step. simpl.
  rewrite H1, Z.eqb_refl, malloc_always. simpl. repeat ev_step. rewrite !strdup_always. simpl.
  rewrite <- H1. apply eventually_const.
- destruct (parse_host_at _ _ _ H3) as (h & <- & Hh).
  unfold dns_parse_rdata. simpl. unfold dns_parser_parse_srv. cbv zeta.
  destruct (Z.ltb_spec (pos + n) (pos + 6)); [lia|]. repeat ev_step. simpl.
  rewrite Z.eqb_refl, malloc_always, strdup_always. simpl. apply eventually_const.
- destruct (parse_host_at _ _ _ H1) as (h & <- & Hh).
  unfold dns_parse_rdata. simpl. unfold dns_parser_parse_mx. cbv zeta.
  destruct (Z.ltb_spec (pos + n) (pos + 2)); [lia|]. repeat ev_step. simpl.
  rewrite Z.eqb_refl, malloc_always, strdup_always. simpl. apply eventually_const.
- eapply eventually_ext; [|apply eventually_const]. intros f. unfold dns_parse_rdata.
  rewrite !not_elem_of_cons in H.
  repeat match goal with |- context [type =? ?k] => destruct (Z.eqb_spec type k); [tauto|] end.
  simpl. unfold dns_parser_parse_others. rewrite malloc_always. simpl. rewrite H0. done.
Qed.

Lemma parse_one_record_at pos r next :
record_at buf base size pos r next ->
eventually (fun f => dns_parse_one_record malloc_ok f buf base size pos) (Ret (0, Some r, next)).
Proof.
intros [name p1 type class ttl n rdata Hname Hsz Hn0 Ht Hc Httl Hn Hrd].
destruct (parse_host_at _ _ _ Hname) as (host & <- & Hh).
unfold dns_parse_one_record. ev_step. simpl. destruct (Z.ltb_spec size (p1 + 10)); [lia|].
repeat ev_step. destruct (Z.ltb_spec size (p1 + 10 + n)); [lia|].
pose proof (parse_rdata_at _ _ _ _ Hrd Hsz). ev_step. rewrite strdup_always. simpl.
apply eventually_const.
Qed.

Lemma parse_records_at pos rs next :
records_at buf base size pos rs next ->
forall recs, eventually
  (fun f => dns_parse_records malloc_ok f (length rs) buf base size pos recs)
  (Ret (0, recs ++ rs, next)).
Proof.
induction 1 as [pos|pos r p1 rs next Hr _ IH]; intros recs; simpl.
- rewrite app_nil_r. apply eventually_const.
- pose proof (parse_one_record_at _ _ _ Hr). ev_step.
  replace (recs ++ r :: rs) with ((recs ++ [r]) ++ rs) by (by rewrite <- app_assoc). apply IH.
Qed.

(** One section of the message, on the parser. *)
Lemma parse_record_at idx p rs next :
0 <= idx <= 2 -> msgbuf p = buf -> msgbase p = base -> msgsize p = size ->
(if idx =? 0 then h_ancount (header p) else if idx =? 1 then h_nscount (header p)
 else h_arcount (header p)) = Z.of_nat (length rs) ->
records_at buf base size (cur p) rs next ->
eventually (fun f => dns_parser_parse_record malloc_ok f idx p)
  (Ret (0, set_cur next (set_records idx (get_records idx p ++ rs) p))).
Proof.
intros Hidx Hbuf Hbase Hsize Hcount Hrs. unfold dns_parser_parse_record. rewrite Hbuf, Hbase, Hsize.
destruct (Z.leb_spec 0 idx), (Z.leb_spec idx 2); try lia. simpl.
rewrite Hcount, Nat2Z.id. pose proof (parse_records_at _ _ _ Hrs (get_records idx p)).
ev_step. apply eventually_const.
Qed.
End ParseMessage.

(** C12: [dns_parser_parse_all] implements the message format.  Whenever the
    bytes are a message with one question and the announced records (names
    with or without compression, any record type), and memory suffices, it
    returns 0 with exactly this header, question and these records, in order,
    behind those the lists already held. *)
Theorem dns_parse_all_message (malloc_ok : Z -> bool) (p : dns_parser) (h : dns_header)
    (q : dns_question) (an ns ar : list dns_record) :
  (forall n, malloc_ok n = true) ->
  message_at (msgbuf p) (msgbase p) (msgsize p) h q an ns ar ->
  exists n p', forall fuel, (n <= fuel)%nat ->
    dns_parser_parse_all malloc_ok fuel p = Ret (0, p') /\
    header p' = h /\ question p' = q /\ complete p' = 1 /\
    answer_list p' = answer_list p ++ an /\
    authority_list p' = authority_list p ++ ns /\
    additional_list p' = additional_list p ++ ar.
Proof.
  intros Hm [h' name p1 qt qc an' p2 ns' p3 ar' p4 Hsz Hhd Hqd Hname Hq Hqt Hqc Han Hns Har Ran Rns Rar].
  destruct (parse_host_at _ _ _ _ _ _ Hname) as (host & <- & Hhost).
  destruct (read_header_at _ _ _ Hhd) as (b & Hb & Hh).
  set (p0 := set_question (mkQuestion (Some (cstr host)) qt qc)
               (set_cur (p1 + 4) (set_header h' (set_complete p)))).
  set (pa := set_cur p2 (set_records 0 (answer_list p ++ an') p0)).
  set (pb := set_cur p3 (set_records 1 (authority_list p ++ ns') pa)).
  set (pc := set_cur p4 (set_records 2 (additional_list p ++ ar') pb)).
  cut (eventually (fun f => dns_parser_parse_all malloc_ok f p) (Ret (0, pc))).
  { intros [n Hn]. exists n, pc. intros fuel Hf. rewrite Hn by done. done. }
  unfold dns_parser_parse_all. cbv zeta.
  cbn [msgbuf msgbase msgsize set_cur set_complete cur].
  destruct (Z.ltb_spec (msgsize p) DNS_HEADER_SIZE); [unfold DNS_HEADER_SIZE in *; lia|].
  rewrite Hb. cbn [cbind]. rewrite Hh. cbn [cbind].
  apply eventually_bind with (a := (0, p0)).
  { unfold dns_parser_parse_question. cbn [header set_cur set_header set_complete].
    rewrite Hqd. simpl. eapply eventually_bind; [exact Hhost|]. cbv beta iota. simpl.
    destruct (Z.ltb_spec (msgsize p) (p1 + 4)); [lia|].
    rewrite (uint16_at _ _ _ Hqt). cbn [cbind]. rewrite (uint16_at _ _ _ Hqc). cbn [cbind].
    unfold strdup_ok. rewrite Hm. apply eventually_const. }
  cbv beta iota. simpl (0 <? 0). cbv iota.
  apply eventually_bind with (a := (0, pa)).
  { by apply (parse_record_at malloc_ok Hm (msgbuf p) (msgbase p) (msgsize p) 0 p0). }
  cbv beta iota. simpl (0 <? 0). cbv iota.
  apply eventually_bind with (a := (0, pb)).
  { by apply (parse_record_at malloc_ok Hm (msgbuf p) (msgbase p) (msgsize p) 1 pa). }
  cbv beta iota. simpl (0 <? 0). cbv iota.
  apply eventually_bind with (a := (0, pc)).
  { by apply (parse_record_at malloc_ok Hm (msgbuf p) (msgbase p) (msgsize p) 2 pb). }
  apply eventually_const.
Qed.

(** A response to "a IN A": one answer, whose name is a pointer to the
    question. *)
Definition response : list Z :=
  [18; 52; 129; 128; 0; 1; 0; 1; 0; 0; 0; 0;
   1; 97; 0; 0; 1; 0; 1;
   192; 12; 0; 1; 0; 1; 0; 0; 0; 60; 0; 4; 10; 0; 0; 1].

(** A number of a concrete message. *)
Ltac be_here := eexists; split; [vm_compute; reflexivity|split; [solve_bytes|reflexivity]].

Definition response_parser : dns_parser := set_message response 0 35 35 dns_parser_init.

Lemma dns_parse_all_message_witness :
  exists n p', forall fuel, (n <= fuel)%nat ->
    dns_parser_parse_all (fun _ => true) fuel response_parser = Ret (0, p') /\
    header p' = mkHeader 4660 1 0 0 0 1 1 0 0 1 1 0 0 /\
    question p' = mkQuestion (Some [97]) 1 1 /\ complete p' = 1 /\
    answer_list p' = [mkRecord [97] 1 1 60 4 (RD_bytes [10; 0; 0; 1])] /\
    authority_list p' = [] /\ additional_list p' = [].
Proof.
  assert (name_at response 0 35 12 [[97]] 15) as Hname.
  { apply (name_label _ _ _ 12 [97]); try done. by apply (name_root _ _ _ 14). }
  apply (dns_parse_all_message (fun _ => true) response_parser _ _
           [mkRecord [97] 1 1 60 4 (RD_bytes [10; 0; 0; 1])] [] []); [done|].
  apply (message_intro _ _ _ _ [97] 15 1 1 _ 35 _ 35 _ 35); try done; try be_here.
  - split_and!; try be_here; done.
  - exists [[97]]. done.
  - apply (records_cons _ _ _ _ _ 35); [|apply records_nil].
    apply (record_intro response 0 35 19 [97] 21 1 1 60 4); try be_here; try done.
    + exists [[97]]. split; [|done]. apply (name_pointer _ _ _ 19 192 12 [[97]] 15); done || lia.
    + by apply rdata_a.
  - apply records_nil.
  - apply records_nil.
Defined.

(** ** TCP framing *)

(** Waiting for more bytes of a message with length prefix. *)
Definition dns_waiting (p : dns_parser) : Prop :=
  complete p = 0 /\ single_packet p = 0 /\ blen (msgbuf p) = msgsize p /\
  msgsize p <= bufsize p <= Z.max DNS_MSGBASE_INIT_SIZE (2 * msgsize p).

Definition set_cap (c : Z) (p : dns_parser) : dns_parser :=
  set_message (msgbuf p) (msgbase p) (msgsize p) c p.

Definition cmap {A B : Type} (f : A -> B) (m : comp A) : comp B := let! a := m in Ret (f a).

Section Framing.
Variable malloc_ok : Z -> bool.
Hypothesis malloc_always : forall n, malloc_ok n = true.
Variable fuel : nat.

Lemma parse_question_cap c p :
dns_parser_parse_question malloc_ok fuel (set_cap c p) =
cmap (fun r => (r.1, set_cap c r.2)) (dns_parser_parse_question malloc_ok fuel p).
Proof.
unfold dns_parser_parse_question, cmap. cbn [header msgbuf msgbase msgsize cur question set_cap set_message].
destruct (negb _); [done|].
destruct (dns_parser_parse_host _ _ _ _ _) as [[[ret host] cur]| |]; [|done..]. cbn [cbind].
destruct (ret <? 0); [done|]. destruct (_ <? _); [done|].
destruct (dns_parser_uint16 _ cur); [|done..]. cbn [cbind].
destruct (dns_parser_uint16 _ _); [|done..]. cbn [cbind]. by destruct (strdup_ok _ _).
Qed.

Lemma parse_record_cap idx c p :
dns_parser_parse_record malloc_ok fuel idx (set_cap c p) =
cmap (fun r => (r.1, set_cap c r.2)) (dns_parser_parse_record malloc_ok fuel idx p).
Proof.
unfold dns_parser_parse_record, cmap. cbn [header msgbuf msgbase msgsize cur set_cap set_message].
destruct (_ && _); [|done]. unfold get_records. cbn [answer_list authority_list additional_list set_cap set_message].
by destruct (dns_parse_records _ _ _ _ _ _ _ _) as [[[ret recs] cur]| |].
Qed.

Lemma parse_all_cap c p :
dns_parser_parse_all malloc_ok fuel (set_cap c p) =
cmap (fun r => (r.1, set_cap c r.2)) (dns_parser_parse_all malloc_ok fuel p).
Proof.
unfold dns_parser_parse_all. cbv zeta.
change (set_cur (msgbase (set_cap c p)) (set_complete (set_cap c p)))
  with (set_cap c (set_cur (msgbase p) (set_complete p))).
set (p1 := set_cur (msgbase p) (set_complete p)).
change (msgsize (set_cap c p1)) with (msgsize p1). change (msgbuf (set_cap c p1)) with (msgbuf p1).
change (msgbase (set_cap c p1)) with (msgbase p1).
destruct (_ <? _); [done|]. destruct (rd_block _ _ _) as [b| |]; [|done..]. cbn [cbind].
destruct (read_header b) as [h| |]; [|done..]. cbn [cbind].
change (set_cur (cur (set_cap c p1) + DNS_HEADER_SIZE) (set_header h (set_cap c p1)))
  with (set_cap c (set_cur (cur p1 + DNS_HEADER_SIZE) (set_header h p1))).
rewrite parse_question_cap. unfold cmap.
destruct (dns_parser_parse_question _ _ _) as [[ret q]| |]; [|done..]. cbn [cbind fst snd].
destruct (ret <? 0); [done|]. rewrite parse_record_cap. unfold cmap.
destruct (dns_parser_parse_record _ _ 0 q) as [[ret0 q0]| |]; [|done..]. cbn [cbind fst snd].
destruct (ret0 <? 0); [done|]. rewrite parse_record_cap. unfold cmap.
destruct (dns_parser_parse_record _ _ 1 q0) as [[ret1 q1]| |]; [|done..]. cbn [cbind fst snd].
destruct (ret1 <? 0); [done|]. rewrite parse_record_cap. unfold cmap.
destruct (dns_parser_parse_record _ _ 2 q1) as [[ret2 q2]| |]; [|done..]. cbn [cbind fst snd].
by destruct (ret2 <? 0).
Qed.

(** The growth of the buffer succeeds and covers the need. *)
Lemma grow_spec n need :
n < need -> need < 2 ^ 60 ->
exists m, double_until 64 (Z.max DNS_MSGBASE_INIT_SIZE (2 * n)) need = Ret m /\
  need <= m <= Z.max DNS_MSGBASE_INIT_SIZE (2 * need).
Proof.
intros Hn Hneed. unfold DNS_MSGBASE_INIT_SIZE.
destruct (double_until_spec 64 (Z.max 514 (2 * n)) need) as (m & Hm & H1 & H2); [lia|lia| |].
- change (2 ^ Z.of_nat 64) with (2 ^ 64). nia.
- exists m. split; [done|]. lia.
Qed.

(** The bytes decide: how an append on a waiting parser ends, up to the
  capacity [cap] of the buffer. *)
Lemma dns_append_waiting p buf :
dns_waiting p -> msgsize p + blen buf < 2 ^ 60 ->
exists cap, msgsize p + blen buf <= cap <=
    Z.max DNS_MSGBASE_INIT_SIZE (2 * (msgsize p + blen buf)) /\
  dns_parser_append_message malloc_ok fuel buf p =
   (let b := msgbuf p ++ buf in
    let p1 := set_message b (msgbase p) (blen b) cap p in
    if blen b <? 2 then Ret (0, blen buf, p1)
    else
      let! total := dns_parser_uint16 b 0 in
      if blen b <? total + 2 then Ret (0, blen buf, p1)
      else
        let! '(ret, p2) := dns_parser_parse_all malloc_ok fuel
                             (set_message b 2 (total + 2) cap p1) in
        Ret (if ret <? 0 then ret else 1, u64 (total + 2 - msgsize p), p2)).
Proof.
intros (Hc & Hs & Hb & Hcap1 & Hcap2) Hn. pose proof (blen_nonneg buf). pose proof (blen_nonneg (msgbuf p)).
unfold dns_parser_append_message. rewrite Hc, Hs. cbn [negb Z.eqb].
assert (forall cap, blen (msgbuf p ++ buf) <= cap ->
  (cap <? blen (msgbuf p ++ buf)) = false) as Hlt.
{ intros cap Hcap. apply Z.ltb_ge. lia. }
assert (rd_block (msgbuf p) 0 (msgsize p) = Ret (msgbuf p)) as Hrd
  by (rewrite <- Hb; apply rd_block_0_all).
assert (msgsize p + blen buf = blen (msgbuf p ++ buf)) as Hlen by (rewrite blen_app; lia).
rewrite Hlen. destruct (Z.ltb_spec (bufsize p) (blen (msgbuf p ++ buf))).
- destruct (grow_spec (bufsize p) (blen (msgbuf p ++ buf))) as (m & Hm & Hm1); [lia|lia|].
  exists m. split; [lia|]. rewrite Hm. cbn [cbind]. rewrite malloc_always, Hrd. cbn [cbind].
  rewrite Hlt by lia. cbn [msgsize set_message msgbase].
  destruct (_ <? 2); [done|]. destruct (dns_parser_uint16 _ 0) as [total| |]; [|done..]. cbn [cbind].
  destruct (_ <? total + 2); [done|].
  destruct (dns_parser_parse_all _ _ _) as [[ret p2]| |]; [|done..]. cbn [cbind]. by destruct (ret <? 0).
- exists (bufsize p). split; [lia|]. cbn [cbind]. rewrite Hrd. cbn [cbind].
  rewrite Hlt by lia. cbn [msgsize set_message msgbase].
  destruct (_ <? 2); [done|]. destruct (dns_parser_uint16 _ 0) as [total| |]; [|done..]. cbn [cbind].
  destruct (_ <? total + 2); [done|].
  destruct (dns_parser_parse_all _ _ _) as [[ret p2]| |]; [|done..]. cbn [cbind]. by destruct (ret <? 0).
Qed.
End Framing.

Lemma uint16_app a b i v : dns_parser_uint16 a i = Ret v -> dns_parser_uint16 (a ++ b) i = Ret v.
Proof.
  unfold dns_parser_uint16. intros H. inv_bind.
  apply rd_Ret_inv in Hb as Hi. apply rd_Ret_inv in Hb0 as Hj.
  rewrite !rd_app_l by lia. by rewrite Hb, Hb0.
Qed.

Lemma uint16_range b i v : dns_parser_uint16 b i = Ret v -> 0 <= v < 2 ^ 16.
Proof. unfold dns_parser_uint16, u16. intros H. inv_bind. apply Z.mod_pos_bound. lia. Qed.

(** An incomplete append keeps every byte and leaves the parser waiting. *)
Lemma append_incomplete (malloc_ok : Z -> bool) (fuel : nat) (a : list Z) (p p1 : dns_parser) (n1 : Z) :
  (forall n, malloc_ok n = true) ->
  dns_waiting p -> msgsize p + blen a < 2 ^ 59 ->
  dns_parser_append_message malloc_ok fuel a p = Ret (0, n1, p1) ->
  n1 = blen a /\ msgsize p1 = msgsize p + blen a /\
  (exists cap, p1 = set_message (msgbuf p ++ a) (msgbase p) (blen (msgbuf p ++ a)) cap p) /\
  dns_waiting p1 /\
  (blen (msgbuf p ++ a) < 2 \/
   exists t, dns_parser_uint16 (msgbuf p ++ a) 0 = Ret t /\ blen (msgbuf p ++ a) < t + 2).
Proof.
  intros Hm Hw Hlen Ha.
  destruct (dns_append_waiting malloc_ok Hm fuel p a Hw) as (c1 & Hc1 & Ea); [lia|].
  rewrite Ea in Ha. clear Ea. destruct Hw as (Hw1 & Hw2 & Hw3 & Hw4 & Hw5). cbv zeta in Ha.
  destruct (Z.ltb_spec (blen (msgbuf p ++ a)) 2); [|destruct (dns_parser_uint16 _ 0) as [t| |] eqn:Et;
    [|discriminate..]; cbn [cbind] in Ha; destruct (Z.ltb_spec (blen (msgbuf p ++ a)) (t + 2))].
  3: { inv_bind. destruct v as [r q]. inv_bind. destruct (Z.ltb_spec r 0); lia. }
  all: injection Ha as <- <-; split; [done|]; split; [cbn; rewrite blen_app; lia|];
    split; [eauto|]; split; [|eauto];
    unfold dns_waiting; cbn [complete single_packet msgbuf msgsize bufsize set_message];
    rewrite blen_app, Hw3 in *; done || lia.
Qed.

(** the framing of DNS over TCP does not depend on how the stream is cut.
    If the piece [a] leaves a waiting parser incomplete, it consumes all of
    [a] and leaves the parser waiting, and the piece [b] after it ends with
    the result and the parser of the single append of both, up to the
    capacity of the buffer, and the counts of consumed bytes add up. *)
Theorem dns_append_split (malloc_ok : Z -> bool) (fuel : nat) (a b : list Z) (p p1 p2 : dns_parser)
    (n1 ret n2 : Z) :
  (forall n, malloc_ok n = true) ->
  dns_waiting p -> msgsize p + blen a + blen b < 2 ^ 59 ->
  dns_parser_append_message malloc_ok fuel a p = Ret (0, n1, p1) ->
  dns_parser_append_message malloc_ok fuel b p1 = Ret (ret, n2, p2) ->
  n1 = blen a /\ dns_waiting p1 /\
  exists cap, dns_parser_append_message malloc_ok fuel (a ++ b) p = Ret (ret, n1 + n2, set_cap cap p2).
Proof.
  intros Hm Hw Hlen Ha Hb. pose proof (blen_nonneg a). pose proof (blen_nonneg b).
  pose proof (blen_nonneg (msgbuf p)).
  destruct (append_incomplete malloc_ok fuel a p p1 n1 Hm Hw) as (-> & Hs1 & (c1 & Ep1) & Hw1 & Hinc);
    [lia|done|].
  split; [done|]. split; [done|].
  destruct (dns_append_waiting malloc_ok Hm fuel p1 b Hw1) as (c2 & _ & Eb); [lia|].
  destruct (dns_append_waiting malloc_ok Hm fuel p (a ++ b) Hw) as (c & _ & Eab); [rewrite blen_app; lia|].
  exists c. rewrite Eb in Hb. rewrite Eab. clear Eb Eab Ha.
  assert (msgbuf p1 ++ b = msgbuf p ++ a ++ b) as Emb by (subst p1; cbn; by rewrite app_assoc).
  cbv zeta in *. rewrite Emb in Hb. destruct Hw as (_ & _ & Hw3 & _).
  assert (blen (a ++ b) = blen a + blen b) as Eab by apply blen_app.
  destruct (_ <? 2); [injection Hb as <- <- <-; rewrite Eab; by subst p1|].
  destruct (dns_parser_uint16 (msgbuf p ++ a ++ b) 0) as [t| |] eqn:Et; [|discriminate..]. cbn [cbind] in *.
  destruct (_ <? t + 2); [injection Hb as <- <- <-; rewrite Eab; by subst p1|].
  set (q := set_message (msgbuf p ++ a ++ b) 2 (t + 2) c2
              (set_message (msgbuf p ++ a ++ b) (msgbase p1) (blen (msgbuf p ++ a ++ b)) c2 p1)) in Hb.
  replace (set_message _ 2 (t + 2) c _) with (set_cap c q) by (by subst q p1).
  rewrite parse_all_cap. unfold cmap.
  destruct (dns_parser_parse_all malloc_ok fuel q) as [[r q']| |]; [|discriminate..]. cbn [cbind fst snd] in *.
  injection Hb as <- <- <-. do 2 f_equal. f_equal.
  apply uint16_range in Et as Hr. rewrite Hs1. rewrite blen_app in Hinc.
  assert (msgsize p + blen a <= t + 2).
  { destruct Hinc as [Hinc|(t' & Et' & Hinc)]; [lia|].
    apply (uint16_app _ b) in Et'. rewrite <- app_assoc, Et in Et'. injection Et' as <-. lia. }
  unfold u64. rewrite !Z.mod_small; lia.
Qed.

(** The response above, behind its length, cut after 5 bytes. *)
Lemma dns_append_split_witness :
  exists p1 p2,
    dns_parser_append_message (fun _ => true) 9 (take 5 (0 :: 35 :: response)) dns_parser_init =
      Ret (0, 5, p1) /\
    dns_parser_append_message (fun _ => true) 9 (drop 5 (0 :: 35 :: response)) p1 = Ret (1, 32, p2) /\
    (5 = 5 /\ dns_waiting p1 /\
     exists cap, dns_parser_append_message (fun _ => true) 9
       (take 5 (0 :: 35 :: response) ++ drop 5 (0 :: 35 :: response)) dns_parser_init =
       Ret (1, 5 + 32, set_cap cap p2)).
Proof.
  eexists _, _. split; [vm_compute; reflexivity|]. split; [vm_compute; reflexivity|].
  eapply (dns_append_split (fun _ => true) 9 (take 5 (0 :: 35 :: response))
           (drop 5 (0 :: 35 :: response)) dns_parser_init); try (vm_compute; reflexivity).
  repeat split; vm_compute; discriminate.
Defined.

(** ** Questions and cursors *)

(** [dns_record_cursor_find_cname] rewinds the cursor and returns the
    alias of the first CNAME record whose name equals [name] up to case,
    leaving the cursor behind it, and 1 exactly when there is none. *)
Theorem find_cname_first (name : list Z) (c : dns_record_cursor) :
  let is_alias r := r_type r = DNS_TYPE_CNAME /\ map tolower name = map tolower (r_name r) in
  match dns_record_cursor_find_cname name c with
  | (0, Some cname, c') =>
      exists before r, c_all c = before ++ r :: c_rest c' /\ c_all c' = c_all c /\
        cname = r_rdata r /\ is_alias r /\ Forall (fun r => ~ is_alias r) before
  | (ret, out, c') =>
      ret = 1 /\ out = None /\ c_rest c' = [] /\ Forall (fun r => ~ is_alias r) (c_all c)
  end.
Proof.
  cbv zeta. unfold dns_record_cursor_find_cname. set (all := c_all c).
  enough (forall rest before, all = before ++ rest ->
    Forall (fun r => ~ (r_type r = DNS_TYPE_CNAME /\ map tolower name = map tolower (r_name r))) before ->
    match find_cname_loop name all rest with
    | (0, Some cname, c') =>
        exists before r, all = before ++ r :: c_rest c' /\ c_all c' = all /\ cname = r_rdata r /\
          (r_type r = DNS_TYPE_CNAME /\ map tolower name = map tolower (r_name r)) /\
          Forall (fun r => ~ (r_type r = DNS_TYPE_CNAME /\ map tolower name = map tolower (r_name r))) before
    | (ret, out, c') => ret = 1 /\ out = None /\ c_rest c' = [] /\
        Forall (fun r => ~ (r_type r = DNS_TYPE_CNAME /\ map tolower name = map tolower (r_name r))) all
    end) as H by (apply (H all []); done).
  intros rest. induction rest as [|r rest IH]; intros before Hall Hb; simpl.
  - rewrite app_nil_r in Hall. by subst.
  - destruct (Z.eqb_spec (r_type r) DNS_TYPE_CNAME) as [Ht|Ht]; simpl; unfold strcaseeq.
    + case_bool_decide as Hn; [by exists before, r|].
      apply (IH (before ++ [r])); [by rewrite <- app_assoc|]. apply Forall_app. split; [done|].
      constructor; [by intros []|done].
    + apply (IH (before ++ [r])); [by rewrite <- app_assoc|]. apply Forall_app. split; [done|].
      constructor; [by intros []|done].
Qed.
