(* ===== verification/Multipart.v ===== *)
(** * Multipart bodies

    workflow-http/multipart_parser.c: the incremental parser of
    multipart/form-data bodies.  It keeps the boundary and, behind it in the
    same allocation, the lookbehind buffer: the part of a possible delimiter
    that turned out to be data is passed on from there.

    The callbacks of [settings] are functions on a client state: they see the
    bytes they are given and return an [int]; a null callback is [None]. *)

From S2P Require Import Prelude.

Definition LF : Z := 10.
Definition CR : Z := 13.

Inductive mp_state : Type :=
| s_uninitialized
| s_start
| s_start_boundary
| s_header_field_start
| s_header_field
| s_headers_almost_done
| s_header_value_start
| s_header_value
| s_header_value_almost_done
| s_part_data_start
| s_part_data
| s_part_data_almost_boundary
| s_part_data_boundary
| s_part_data_almost_end
| s_part_data_end
| s_part_data_final_hyphen
| s_end.

#[export] Instance mp_state_eq_dec : EqDecision mp_state.
Proof. solve_decision. Defined.

(** [mem] is the allocation from [multipart_boundary] on: the boundary, its
    NUL, and the bytes [lookbehind] points to. *)
Record multipart_parser := mkMultipart {
  index : Z;
  boundary_length : Z;
  state : mp_state;
  mem : list Z
}.

Inductive data_kind : Type := header_field | header_value | part_data.
Inductive notify_kind : Type := part_data_begin | headers_complete | part_data_end | body_end.

#[export] Instance data_kind_eq_dec : EqDecision data_kind.
Proof. solve_decision. Defined.

Record multipart_settings (S : Type) := mkSettings {
  on_data : data_kind -> option (list Z -> S -> Z * S);
  on_notify : notify_kind -> option (S -> Z * S)
}.
Arguments on_data {S}.
Arguments on_notify {S}.

Definition lookbehind (p : multipart_parser) : Z := boundary_length p + 1.

Definition set_state (st : mp_state) (p : multipart_parser) : multipart_parser :=
  mkMultipart (index p) (boundary_length p) st (mem p).

Definition set_index (i : Z) (p : multipart_parser) : multipart_parser :=
  mkMultipart i (boundary_length p) (state p) (mem p).

(** [p->lookbehind[k] = c]. *)
Definition set_lookbehind (k c : Z) (p : multipart_parser) : comp multipart_parser :=
  let! m := wr_block (mem p) (lookbehind p + k) [c] in
  Ret (mkMultipart (index p) (boundary_length p) (state p) m).

(** The allocation has [sizeof (multipart_parser) + 2 * strlen + 9] bytes, the
    last of [sizeof] being [multipart_boundary[1]]; [malloc_garbage] is what
    it holds behind the NUL of the boundary, [None] when [malloc] fails. *)
Definition multipart_parser_init (boundary : list Z) (malloc_garbage : option (list Z))
    : comp multipart_parser :=
  match malloc_garbage with
  | None => Oob
  | Some garbage =>
      Ret (mkMultipart 0 (blen boundary) s_start
             (boundary ++ 0 :: take (Z.to_nat (blen boundary + 9)) garbage))
  end.

Section Execute.
Context {S : Type} (settings : multipart_settings S).
Variable buf : list Z.

(** What one iteration of the loop does: go on at [i] (before [++ i]), or
return from [multipart_parser_execute]. *)
Inductive ctl : Type :=
| Next (i mark : Z) (p : multipart_parser) (s : S)
| Stop (ret : Z) (p : multipart_parser) (s : S).

Definition NOTIFY_CB (k : notify_kind) (i : Z) (p : multipart_parser) (s : S)
(cont : S -> comp ctl) : comp ctl :=
match on_notify settings k with
| Some f => let '(r, s) := f s in if r =? 0 then cont s else Ret (Stop i p s)
| None => cont s
end.

Definition EMIT_DATA_CB (k : data_kind) (mem : list Z) (ptr len : Z) (i : Z)
(p : multipart_parser) (s : S) (cont : S -> comp ctl) : comp ctl :=
match on_data settings k with
| Some f =>
  let! b := rd_block mem ptr len in
  let '(r, s) := f b s in if r =? 0 then cont s else Ret (Stop i p s)
| None => cont s
end.

Definition case_start_boundary (c i mark : Z) (p : multipart_parser) (s : S) : comp ctl :=
if index p =? boundary_length p then
if negb (c =? CR) then Ret (Stop i p s)
else Ret (Next i mark (set_index (index p + 1) p) s)
else if index p =? boundary_length p + 1 then
if negb (c =? LF) then Ret (Stop i p s)
else
  let p := set_index 0 p in
  NOTIFY_CB part_data_begin i p s
    (fun s => Ret (Next i mark (set_state s_header_field_start p) s))
else
let! b := rd (mem p) (index p) in
if negb (c =? b) then Ret (Stop i p s)
else Ret (Next i mark (set_index (index p + 1) p) s).

Definition case_header_field (c : Z) (is_last : bool) (i mark : Z) (p : multipart_parser) (s : S)
: comp ctl :=
if c =? CR then Ret (Next i mark (set_state s_headers_almost_done p) s)
else if c =? 58 then
EMIT_DATA_CB header_field buf mark (i - mark) i p s
  (fun s => Ret (Next i mark (set_state s_header_value_start p) s))
else
let cl := tolower c in
if negb (c =? 45) && ((cl <? 97) || (122 <? cl)) then Ret (Stop i p s)
else if is_last then
  EMIT_DATA_CB header_field buf mark (i - mark + 1) i p s (fun s => Ret (Next i mark p s))
else Ret (Next i mark p s).

Definition case_header_value (c : Z) (is_last : bool) (i mark : Z) (p : multipart_parser) (s : S)
: comp ctl :=
if c =? CR then
EMIT_DATA_CB header_value buf mark (i - mark) i p s
  (fun s => Ret (Next i mark (set_state s_header_value_almost_done p) s))
else if is_last then
EMIT_DATA_CB header_value buf mark (i - mark + 1) i p s (fun s => Ret (Next i mark p s))
else Ret (Next i mark p s).

Definition case_part_data (c : Z) (is_last : bool) (i mark : Z) (p : multipart_parser) (s : S)
: comp ctl :=
if c =? CR then
EMIT_DATA_CB part_data buf mark (i - mark) i p s (fun s =>
  let! p := set_lookbehind 0 CR (set_state s_part_data_almost_boundary p) in
  Ret (Next i i p s))
else if is_last then
EMIT_DATA_CB part_data buf mark (i - mark + 1) i p s (fun s => Ret (Next i mark p s))
else Ret (Next i mark p s).

(** [mark = i --]. *)
Definition step_back (i : Z) (p : multipart_parser) (s : S) : comp ctl :=
Ret (Next (u64 (i - 1)) i (set_state s_part_data p) s).

Definition mp_step (i mark : Z) (p : multipart_parser) (s : S) : comp ctl :=
let! c := rd buf i in
let is_last := i =? blen buf - 1 in
match state p with
| s_start => case_start_boundary c i mark (set_state s_start_boundary (set_index 0 p)) s
| s_start_boundary => case_start_boundary c i mark p s
| s_header_field_start => case_header_field c is_last i i (set_state s_header_field p) s
| s_header_field => case_header_field c is_last i mark p s
| s_headers_almost_done =>
  if negb (c =? LF) then Ret (Stop i p s)
  else Ret (Next i mark (set_state s_part_data_start p) s)
| s_header_value_start =>
  if c =? 32 then Ret (Next i mark p s)
  else case_header_value c is_last i i (set_state s_header_value p) s
| s_header_value => case_header_value c is_last i mark p s
| s_header_value_almost_done =>
  if negb (c =? LF) then Ret (Stop i p s)
  else Ret (Next i mark (set_state s_header_field_start p) s)
| s_part_data_start =>
  NOTIFY_CB headers_complete i p s
    (fun s => case_part_data c is_last i i (set_state s_part_data p) s)
| s_part_data => case_part_data c is_last i mark p s
| s_part_data_almost_boundary =>
  if c =? LF then
    let! p := set_lookbehind 1 LF (set_state s_part_data_boundary p) in
    Ret (Next i mark (set_index 0 p) s)
  else EMIT_DATA_CB part_data (mem p) (lookbehind p) 1 i p s (step_back i p)
| s_part_data_boundary =>
  let! b := rd (mem p) (index p) in
  if negb (b =? c) then
    EMIT_DATA_CB part_data (mem p) (lookbehind p) (2 + index p) i p s (step_back i p)
  else
    let! p := set_lookbehind (2 + index p) c p in
    let p := set_index (index p + 1) p in
    if index p =? boundary_length p then
      NOTIFY_CB part_data_end i p s
        (fun s => Ret (Next i mark (set_state s_part_data_almost_end p) s))
    else Ret (Next i mark p s)
| s_part_data_almost_end =>
  if c =? 45 then Ret (Next i mark (set_state s_part_data_final_hyphen p) s)
  else if c =? CR then Ret (Next i mark (set_state s_part_data_end p) s)
  else Ret (Stop i p s)
| s_part_data_final_hyphen =>
  if c =? 45 then
    NOTIFY_CB body_end i p s (fun s => Ret (Next i mark (set_state s_end p) s))
  else Ret (Stop i p s)
| s_part_data_end =>
  if c =? LF then
    let p := set_state s_header_field_start p in
    NOTIFY_CB part_data_begin i p s (fun s => Ret (Next i mark p s))
  else Ret (Stop i p s)
| s_end => Ret (Next i mark p s)
| s_uninitialized => Ret (Stop 0 p s)
end.

Fixpoint mp_loop (fuel : nat) (i mark : Z) (p : multipart_parser) (s : S)
: comp (Z * multipart_parser * S) :=
if i <? blen buf then
match fuel with
| O => NoFuel
| Datatypes.S f =>
    let! r := mp_step i mark p s in
    match r with
    | Next i mark p s => mp_loop f (u64 (i + 1)) mark p s
    | Stop ret p s => Ret (ret, p, s)
    end
end
else Ret (blen buf, p, s).

(** Two iterations per byte are enough. *)
Definition multipart_parser_execute (p : multipart_parser) (s : S)
: comp (Z * multipart_parser * S) :=
mp_loop (2 * length buf) 0 0 p s.
End Execute.
Arguments Next {S}.
Arguments Stop {S}.

(** ** Well-formed parsers *)

(** The positions that index the allocation stay inside it. *)
Definition wf (p : multipart_parser) : Prop :=
  1 <= boundary_length p /\ blen (mem p) = 2 * boundary_length p + 10 /\
  match state p with
  | s_start_boundary => 0 <= index p <= boundary_length p + 1
  | s_part_data_boundary => 0 <= index p < boundary_length p
  | _ => True
  end.

(** The states whose next byte may be looked at twice. *)
Definition may_step_back (st : mp_state) : bool :=
  bool_decide (st = s_part_data_almost_boundary \/ st = s_part_data_boundary).

Lemma set_lookbehind_in_bounds k c p :
  0 <= k -> lookbehind p + k < blen (mem p) -> 1 <= boundary_length p ->
  exists m, set_lookbehind k c p = Ret (mkMultipart (index p) (boundary_length p) (state p) m) /\
    blen m = blen (mem p) /\
    m = take (Z.to_nat (lookbehind p + k)) (mem p) ++ [c] ++
        drop (Z.to_nat (lookbehind p + k + 1)) (mem p).
Proof.
  intros Hk Hl Hb. unfold set_lookbehind, lookbehind in *.
  destruct (wr_block (mem p) (boundary_length p + 1 + k) [c]) as [m| |] eqn:E;
    rewrite wr_block_in_bounds in E by (change (blen [c]) with 1; lia); try discriminate.
  simpl. exists m. split; [done|]. split; [|by injection E as <-].
  injection E as <-. autorewrite with blen_db. change (blen [c]) with 1. lia.
Qed.

Section Safety.
Context {S : Type} (settings : multipart_settings S).
Variable buf : list Z.

(** The result of an iteration is [Q]. *)
Definition step_ok (Q : ctl -> Prop) (m : comp (@ctl S)) : Prop := exists r, m = Ret r /\ Q r.

Lemma step_ok_ret (Q : ctl -> Prop) r : Q r -> step_ok Q (Ret r).
Proof. by exists r. Qed.

Lemma step_ok_notify (Q : ctl -> Prop) k i p s cont :
(forall s, Q (Stop i p s)) -> (forall s, step_ok Q (cont s)) ->
step_ok Q (NOTIFY_CB settings k i p s cont).
Proof.
intros Hstop Hcont. unfold NOTIFY_CB. destruct (on_notify settings k) as [f|]; [|done].
destruct (f s) as [r s']. destruct (r =? 0); [done|]. by apply step_ok_ret.
Qed.

Lemma step_ok_emit (Q : ctl -> Prop) k m ptr len i p s cont :
0 <= ptr -> 0 <= len -> ptr + len <= blen m ->
(forall s, Q (Stop i p s)) -> (forall s, step_ok Q (cont s)) ->
step_ok Q (EMIT_DATA_CB settings k m ptr len i p s cont).
Proof.
intros ? ? ? Hstop Hcont. unfold EMIT_DATA_CB. destruct (on_data settings k) as [f|]; [|done].
rewrite rd_block_in_bounds by done. simpl. destruct (f _ s) as [r s'].
destruct (r =? 0); [done|]. by apply step_ok_ret.
Qed.

Lemma step_ok_rd (Q : ctl -> Prop) m k cont :
0 <= k < blen m -> (forall b, step_ok Q (cont b)) -> step_ok Q (cbind (rd m k) cont).
Proof. intros Hk H. destruct (rd_in_bounds m k Hk) as [b ->]. apply H. Qed.

Lemma step_ok_lookbehind (Q : ctl -> Prop) k c p cont :
0 <= k -> lookbehind p + k < blen (mem p) -> 1 <= boundary_length p ->
(forall m, blen m = blen (mem p) ->
 step_ok Q (cont (mkMultipart (index p) (boundary_length p) (state p) m))) ->
step_ok Q (cbind (set_lookbehind k c p) cont).
Proof.
intros Hk Hl Hb H. destruct (set_lookbehind_in_bounds k c p Hk Hl Hb) as (m & -> & Hm & _).
by apply H.
Qed.

(** Progress of one iteration at position [i] of state [st]. *)
Definition progress (i : Z) (st : mp_state) (r : @ctl S) : Prop :=
match r with
| Next i' mark p s =>
  wf p /\ 0 <= mark <= i /\
  (i' = i \/ may_step_back st = true /\ i' = u64 (i - 1) /\ state p = s_part_data)
| Stop ret p s => 0 <= ret <= i
end.

Ltac step_solve :=
repeat first
[ apply step_ok_ret | apply step_ok_notify; [intros|intros ?]
| apply step_ok_emit; [cbn; unfold lookbehind; cbn; lia..|intros|intros ?]
| apply step_ok_rd; [cbn; lia|intros ?]
| apply step_ok_lookbehind; [cbn; unfold lookbehind; cbn; lia..|intros ? ?]
| case_goal; zify_bool ];
try (unfold progress, step_back, wf in *; cbn in *; intuition (auto; lia)).

Lemma mp_step_progress i mark p s :
wf p -> 0 <= mark <= i -> i < blen buf -> blen buf < 2 ^ 63 ->
step_ok (progress i (state p)) (mp_step settings buf i mark p s).
Proof.
intros Hwf Hm Hi Hlen. unfold mp_step.
destruct (rd_in_bounds buf i) as [c ->]; [lia|]. cbn [cbind].
destruct p as [idx bl st m]. unfold wf in Hwf. cbn in Hwf. destruct Hwf as (Hbl & Hmem & Hst).
destruct st; cbn [state]; unfold case_start_boundary, case_header_field, case_header_value, case_part_data;
cbn [index boundary_length state mem set_index set_state].
all: step_solve.
Qed.

(** The iterations left: two per byte, less one when the next byte cannot be
looked at twice. *)
Definition measure (i : Z) (p : multipart_parser) : Z :=
2 * (blen buf - i) - (if may_step_back (state p) then 0 else 1).

Lemma mp_loop_total fuel i mark p s :
wf p -> 0 <= mark <= i -> i <= blen buf -> blen buf < 2 ^ 63 -> measure i p <= Z.of_nat fuel ->
exists ret p' s', mp_loop settings buf fuel i mark p s = Ret (ret, p', s') /\
0 <= ret <= blen buf /\ (ret = blen buf -> wf p').
Proof.
revert i mark p s. induction fuel as [|fuel IH]; intros i mark p s Hwf Hm Hi Hlen Hf; simpl;
(destruct (Z.ltb_spec i (blen buf)); [|eauto 10 with lia]);
unfold measure in Hf.
- destruct (may_step_back (state p)); lia.
- destruct (mp_step_progress i mark p s) as (r & -> & Hr); [done..|]. cbn [cbind].
destruct r as [i' mark' p' s'|ret p' s']; simpl in Hr; [|eauto 10 with lia].
destruct Hr as (Hwf' & Hm' & [->|(Hback & -> & Hst)]); unfold u64.
+ rewrite Z.mod_small by lia. apply IH; try done; try lia. unfold measure.
  destruct (may_step_back _), (may_step_back _); lia.
+ rewrite Zplus_mod_idemp_l, Z.sub_add, Z.mod_small by lia. apply IH; try done; try lia.
  unfold measure. rewrite Hst. rewrite Hback in Hf. change (may_step_back s_part_data) with false.
  cbv iota. lia.
Qed.
End Safety.

(** ** The parser as an automaton on bytes

    What the parser does, byte by byte: no buffers, no marks, no lookbehind.
    Its outputs are single bytes of data and notifications.  With [strict], a
    header line that ends before its colon is an error. *)

Inductive out : Type :=
| OData (k : data_kind) (b : Z)
| ONotify (k : notify_kind).

Definition data (k : data_kind) (bs : list Z) : list out := map (OData k) bs.

Section Automaton.
Variables (strict : bool) (bnd : list Z).

Definition a_part_data (idx c : Z) : mp_state * Z * list out :=
if c =? CR then (s_part_data_almost_boundary, idx, []) else (s_part_data, idx, [OData part_data c]).

Definition a_header_value (idx c : Z) : mp_state * Z * list out :=
if c =? CR then (s_header_value_almost_done, idx, []) else (s_header_value, idx, [OData header_value c]).

Definition is_field_char (c : Z) : bool := (c =? 45) || isalpha c.

Definition a_header_field (idx c : Z) : option (mp_state * Z * list out) :=
if c =? CR then Some (s_headers_almost_done, idx, [])
else if c =? 58 then Some (s_header_value_start, idx, [])
else if is_field_char c then Some (s_header_field, idx, [OData header_field c])
else None.

Definition a_start_boundary (idx c : Z) : option (mp_state * Z * list out) :=
if idx =? blen bnd then if c =? CR then Some (s_start_boundary, idx + 1, []) else None
else if idx =? blen bnd + 1 then
if c =? LF then Some (s_header_field_start, 0, [ONotify part_data_begin]) else None
else if bool_decide (bnd !! Z.to_nat idx = Some c) then Some (s_start_boundary, idx + 1, [])
else None.

Definition a_emit (os : list out) (r : mp_state * Z * list out) : mp_state * Z * list out :=
(r.1, os ++ r.2).

Definition a_feed (st : mp_state) (idx c : Z) : option (mp_state * Z * list out) :=
match st with
| s_uninitialized => None
| s_start => a_start_boundary 0 c
| s_start_boundary => a_start_boundary idx c
| s_header_field_start => a_header_field idx c
| s_header_field => if strict && (c =? CR) then None else a_header_field idx c
| s_headers_almost_done => if c =? LF then Some (s_part_data_start, idx, []) else None
| s_header_value_start =>
  if c =? 32 then Some (s_header_value_start, idx, []) else Some (a_header_value idx c)
| s_header_value => Some (a_header_value idx c)
| s_header_value_almost_done => if c =? LF then Some (s_header_field_start, idx, []) else None
| s_part_data_start => Some (a_emit [ONotify headers_complete] (a_part_data idx c))
| s_part_data => Some (a_part_data idx c)
| s_part_data_almost_boundary =>
  if c =? LF then Some (s_part_data_boundary, 0, [])
  else Some (a_emit (data part_data [CR]) (a_part_data idx c))
| s_part_data_boundary =>
  if bool_decide (bnd !! Z.to_nat idx = Some c) then
    if idx + 1 =? blen bnd then Some (s_part_data_almost_end, idx + 1, [ONotify part_data_end])
    else Some (s_part_data_boundary, idx + 1, [])
  else Some (a_emit (data part_data (CR :: LF :: take (Z.to_nat idx) bnd)) (a_part_data idx c))
| s_part_data_almost_end =>
  if c =? 45 then Some (s_part_data_final_hyphen, idx, [])
  else if c =? CR then Some (s_part_data_end, idx, []) else None
| s_part_data_final_hyphen => if c =? 45 then Some (s_end, idx, [ONotify body_end]) else None
| s_part_data_end =>
  if c =? LF then Some (s_header_field_start, idx, [ONotify part_data_begin]) else None
| s_end => Some (s_end, idx, [])
end.

(** The run over a sequence of bytes, up to the first error: bytes consumed,
state, outputs. *)
Fixpoint a_run (st : mp_state) (idx : Z) (bs : list Z) : Z * mp_state * Z * list out :=
match bs with
| [] => (0, st, idx, [])
| c :: bs =>
  match a_feed st idx c with
  | None => (0, st, idx, [])
  | Some (st, idx, os) =>
      let '(n, st, idx, os') := a_run st idx bs in (1 + n, st, idx, os ++ os')
  end
end.
End Automaton.

(** ** Refinement *)

(** What a client sees that records its calls. *)
Inductive event : Type :=
| EData (k : data_kind) (bs : list Z)
| ENotify (k : notify_kind).

Definition recorder : multipart_settings (list event) :=
  mkSettings _ (fun k => Some (fun bs s => (0, s ++ [EData k bs])))
    (fun k => Some (fun s => (0, s ++ [ENotify k]))).

(** Data may arrive in pieces; header field names are left out unless
    [strict]. *)
Definition visible (strict : bool) (k : data_kind) (bs : list Z) : list out :=
  if bool_decide (k = header_field) && negb strict then [] else data k bs.

Definition flat_event (strict : bool) (e : event) : list out :=
  match e with
  | EData k bs => visible strict k bs
  | ENotify k => [ONotify k]
  end.

Definition flat (strict : bool) (s : list event) : list out := concat (map (flat_event strict) s).

Definition vis_out (strict : bool) (o : out) : list out :=
  match o with
  | OData k b => visible strict k [b]
  | ONotify k => [ONotify k]
  end.

Definition vis (strict : bool) (os : list out) : list out := concat (map (vis_out strict) os).

(** The lookbehind content that the state relies on. *)
Definition looked (bnd : list Z) (st : mp_state) (idx : Z) : list Z :=
  match st with
  | s_part_data_almost_boundary => [CR]
  | s_part_data_boundary => CR :: LF :: take (Z.to_nat idx) bnd
  | _ => []
  end.

Definition represents (bnd : list Z) (p : multipart_parser) (st : mp_state) (idx : Z) : Prop :=
  wf p /\ state p = st /\ index p = idx /\ st <> s_uninitialized /\
  boundary_length p = blen bnd /\ sub (mem p) 0 (blen bnd) = bnd /\
  sub (mem p) (blen bnd + 1) (blen (looked bnd st idx)) = looked bnd st idx.

Section Refinement.
Variables (strict : bool) (bnd buf : list Z).
Hypothesis buf_small : blen buf < 2 ^ 63.

(** The bytes from [mark] on that the current state has not passed on yet. *)
Definition pending (st : mp_state) (mark i : Z) : list out :=
if i =? blen buf then []
else match st with
   | s_header_field => visible strict header_field (sub buf mark (i - mark))
   | s_header_value => visible strict header_value (sub buf mark (i - mark))
   | s_part_data => visible strict part_data (sub buf mark (i - mark))
   | _ => []
   end.

Lemma visible_app k a b : visible strict k (a ++ b) = visible strict k a ++ visible strict k b.
Proof. unfold visible, data. destruct (_ && _); [done|]. by rewrite map_app. Qed.

Lemma visible_nil k : visible strict k [] = [].
Proof. unfold visible. by destruct (_ && _). Qed.

Lemma flat_snoc s e : flat strict (s ++ [e]) = flat strict s ++ flat_event strict e.
Proof. unfold flat. rewrite map_app, concat_app. simpl. by rewrite app_nil_r. Qed.

Lemma vis_app a b : vis strict (a ++ b) = vis strict a ++ vis strict b.
Proof. unfold vis. by rewrite map_app, concat_app. Qed.

Lemma vis_data k bs : vis strict (data k bs) = visible strict k bs.
Proof.
induction bs as [|b bs IH]; [by rewrite visible_nil|].
change (b :: bs) with ([b] ++ bs). rewrite visible_app, <- IH. done.
Qed.

Lemma notify_recorder k i p s cont :
NOTIFY_CB recorder k i p s cont = cont (s ++ [ENotify k]).
Proof. done. Qed.

Lemma emit_recorder k m ptr len i p s cont :
0 <= ptr -> 0 <= len -> ptr + len <= blen m ->
EMIT_DATA_CB recorder k m ptr len i p s cont = cont (s ++ [EData k (sub m ptr len)]).
Proof. intros. unfold EMIT_DATA_CB. simpl. by rewrite rd_block_in_bounds. Qed.

Lemma lookbehind_spec k c p :
0 <= k -> lookbehind p + k < blen (mem p) -> 1 <= boundary_length p ->
exists m, set_lookbehind k c p = Ret (mkMultipart (index p) (boundary_length p) (state p) m) /\
blen m = blen (mem p) /\
sub m 0 (boundary_length p) = sub (mem p) 0 (boundary_length p) /\
sub m (lookbehind p) (k + 1) = sub (mem p) (lookbehind p) k ++ [c].
Proof.
intros Hk Hl Hb. destruct (set_lookbehind_in_bounds k c p Hk Hl Hb) as (m & H & Hm & ->).
eexists. split; [exact H|]. split; [done|]. unfold lookbehind in *. split.
- apply sub_write_before; lia.
- pose proof (sub_write_end (mem p) (boundary_length p + 1 + k) c (boundary_length p + 1)) as E.
replace (boundary_length p + 1 + k - (boundary_length p + 1)) with k in E by lia.
apply E; lia.
Qed.
Lemma rd_boundary p idx b :
sub (mem p) 0 (blen bnd) = bnd -> 0 <= idx -> bnd !! Z.to_nat idx = Some b ->
rd (mem p) idx = Ret b.
Proof.
intros Hmem Hi Hlk. rewrite <- Hmem in Hlk. unfold sub in Hlk. change (Z.to_nat 0) with 0%nat in Hlk.
rewrite drop_0 in Hlk. apply lookup_take_Some in Hlk as [Hlk _].
unfold rd. destruct (Z.leb_spec 0 idx); [|lia]. by rewrite Hlk.
Qed.

(** One iteration at [i] that passes the byte and answers the automaton's
result [r]; [before] is what was visible or pending. *)
Definition sim (i : Z) (before : list out) (r : mp_state * Z * list out) (m : comp ctl) : Prop :=
exists mark p s, m = Ret (Next i mark p s) /\
represents bnd p r.1.1 r.1.2 /\ 0 <= mark <= i + 1 /\
flat strict s ++ pending r.1.1 mark (i + 1) = before ++ vis strict r.2.

(** Pending data grows by the byte at [i], unless it is the last one. *)
Lemma pending_snoc k i mark c before :
0 <= mark <= i -> rd buf i = Ret c ->
visible strict k (sub buf mark (i - mark)) ++ visible strict k [c] =
visible strict k (sub buf mark (i + 1 - mark)) /\
before ++ visible strict k (sub buf mark (i - mark)) ++ visible strict k [c] =
before ++ visible strict k (sub buf mark (i - mark + 1)).
Proof.
intros Hm Hc. replace (i + 1 - mark) with (i - mark + 1) by lia.
rewrite (sub_snoc buf mark (i - mark) c) by (lia || (rewrite <- Hc; f_equal; lia)).
by rewrite visible_app.
Qed.

Lemma represents_state p st st' idx :
represents bnd p st idx -> st' <> s_uninitialized -> looked bnd st' idx = [] ->
st' <> s_start_boundary -> represents bnd (set_state st' p) st' idx.
Proof.
intros (Hwf & Hst & Hi & _ & Hb & Hm & _) Hu Hl Hsb. unfold represents, wf in *. cbn. rewrite Hl.
intuition (try done). by destruct st'.
Qed.

Lemma part_data_sim i mark p s idx c :
represents bnd p s_part_data idx -> 0 <= mark <= i -> rd buf i = Ret c ->
sim i (flat strict s ++ pending s_part_data mark i) (a_part_data idx c)
(case_part_data recorder buf c (i =? blen buf - 1) i mark p s).
Proof.
intros Hr Hm Hc. pose proof (rd_Ret_inv _ _ _ Hc) as [Hi _].
destruct (pending_snoc part_data i mark c (flat strict s) Hm Hc) as [Hp1 Hp2].
unfold case_part_data, a_part_data, sim, pending in *.
destruct (Z.eqb_spec i (blen buf)); [lia|].
destruct (Z.eqb_spec c CR); cbn [fst snd].
- rewrite emit_recorder by lia. destruct Hr as (Hwf & Hst & Hidx & Hu & Hb & Hmem & Hl).
destruct Hwf as (Hw1 & Hw2 & Hw3).
destruct (lookbehind_spec 0 CR (set_state s_part_data_almost_boundary p)) as (m & -> & Hm1 & Hm2 & Hm3);
  [lia|unfold lookbehind; cbn; lia|done|]. cbn [cbind].
eexists _, _, _. split; [reflexivity|]. cbn in *. split; [|split; [lia|]].
+ unfold represents, wf. cbn. rewrite <- Hb in *. unfold lookbehind in Hm3. cbn in Hm3.
  change (Z.of_nat 1) with (0 + 1). intuition (try done; try congruence).
+ rewrite flat_snoc. destruct (_ =? _); by rewrite !app_nil_r.
- assert (vis strict [OData part_data c] = visible strict part_data [c]) as ->
  by (apply (vis_data part_data [c])).
destruct (Z.eqb_spec i (blen buf - 1)).
+ rewrite emit_recorder by lia. eexists _, _, _. split; [reflexivity|]. split; [done|].
  split; [lia|]. rewrite flat_snoc. destruct (Z.eqb_spec (i + 1) (blen buf)); [|lia].
  by rewrite app_nil_r, <- app_assoc, Hp2.
+ eexists _, _, _. split; [reflexivity|]. split; [done|]. split; [lia|].
  destruct (Z.eqb_spec (i + 1) (blen buf)); [lia|]. by rewrite <- app_assoc, Hp1.
Qed.

Lemma header_value_sim i mark p s idx c :
represents bnd p s_header_value idx -> 0 <= mark <= i -> rd buf i = Ret c ->
sim i (flat strict s ++ pending s_header_value mark i) (a_header_value idx c)
(case_header_value recorder buf c (i =? blen buf - 1) i mark p s).
Proof.
intros Hr Hm Hc. pose proof (rd_Ret_inv _ _ _ Hc) as [Hi _].
destruct (pending_snoc header_value i mark c (flat strict s) Hm Hc) as [Hp1 Hp2].
unfold case_header_value, a_header_value, sim, pending in *.
destruct (Z.eqb_spec i (blen buf)); [lia|].
destruct (Z.eqb_spec c CR); cbn [fst snd].
- rewrite emit_recorder by lia. eexists _, _, _. split; [reflexivity|].
split; [by eapply represents_state|]. split; [lia|].
rewrite flat_snoc. destruct (_ =? _); by rewrite !app_nil_r.
- assert (vis strict [OData header_value c] = visible strict header_value [c]) as ->
  by (apply (vis_data header_value [c])).
destruct (Z.eqb_spec i (blen buf - 1)).
+ rewrite emit_recorder by lia. eexists _, _, _. split; [reflexivity|]. split; [done|].
  split; [lia|]. rewrite flat_snoc. destruct (Z.eqb_spec (i + 1) (blen buf)); [|lia].
  by rewrite app_nil_r, <- app_assoc, Hp2.
+ eexists _, _, _. split; [reflexivity|]. split; [done|]. split; [lia|].
  destruct (Z.eqb_spec (i + 1) (blen buf)); [lia|]. by rewrite <- app_assoc, Hp1.
Qed.

Lemma is_field_char_spec c :
is_field_char c = negb (negb (c =? 45) && ((tolower c <? 97) || (122 <? tolower c))).
Proof.
unfold is_field_char, isalpha, tolower.
destruct (Z.eqb_spec c 45), (Z.leb_spec 65 c), (Z.leb_spec c 90), (Z.leb_spec 97 c), (Z.leb_spec c 122);
cbn [andb orb negb]; try lia; repeat zcase; done.
Qed.

(** In the field state, a line that ends without a colon drops what is
pending; that is invisible unless [strict]. *)
Lemma header_field_sim i mark p s idx c r :
represents bnd p s_header_field idx -> 0 <= mark <= i -> rd buf i = Ret c ->
(c = CR -> strict = true -> mark = i) ->
a_header_field idx c = Some r ->
sim i (flat strict s ++ pending s_header_field mark i) r
(case_header_field recorder buf c (i =? blen buf - 1) i mark p s).
Proof.
intros Hr Hm Hc Hcr Hf. pose proof (rd_Ret_inv _ _ _ Hc) as [Hi _].
destruct (pending_snoc header_field i mark c (flat strict s) Hm Hc) as [Hp1 Hp2].
unfold case_header_field, a_header_field, sim, pending in *.
destruct (Z.eqb_spec i (blen buf)); [lia|].
destruct (Z.eqb_spec c CR); [|destruct (Z.eqb_spec c 58)].
- injection Hf as <-. cbn [fst snd]. eexists _, _, _. split; [reflexivity|].
split; [by eapply represents_state|]. split; [lia|].
assert (visible strict header_field (sub buf mark (i - mark)) = []) as ->.
{ destruct (decide (strict = true)) as [Hs|Hs].
  - rewrite (Hcr e Hs), Z.sub_diag, sub_0. apply visible_nil.
  - unfold visible. by rewrite (not_true_is_false _ Hs). }
destruct (_ =? _); by rewrite !app_nil_r.
- injection Hf as <-. cbn [fst snd]. rewrite emit_recorder by lia. eexists _, _, _.
split; [reflexivity|]. split; [by eapply represents_state|]. split; [lia|].
rewrite flat_snoc. destruct (_ =? _); by rewrite !app_nil_r.
- rewrite is_field_char_spec in Hf. cbv zeta. destruct (negb (c =? 45) && _); [discriminate|].
injection Hf as <-. cbn [fst snd].
assert (vis strict [OData header_field c] = visible strict header_field [c]) as ->
  by (apply (vis_data header_field [c])).
destruct (Z.eqb_spec i (blen buf - 1)).
+ rewrite emit_recorder by lia. eexists _, _, _. split; [reflexivity|]. split; [done|].
  split; [lia|]. rewrite flat_snoc. destruct (Z.eqb_spec (i + 1) (blen buf)); [|lia].
  by rewrite app_nil_r, <- app_assoc, Hp2.
+ eexists _, _, _. split; [reflexivity|]. split; [done|]. split; [lia|].
  destruct (Z.eqb_spec (i + 1) (blen buf)); [lia|]. by rewrite <- app_assoc, Hp1.
Qed.

Lemma start_boundary_sim i mark p s idx c r :
represents bnd p s_start_boundary idx -> 0 <= mark <= i ->
a_start_boundary bnd idx c = Some r ->
sim i (flat strict s) r (case_start_boundary recorder c i mark p s).
Proof.
intros (Hwf & Hst & Hidx & Hu & Hb & Hmem & Hl) Hm Hf.
unfold case_start_boundary, a_start_boundary, sim in *. rewrite Hb, Hidx.
destruct Hwf as (Hw1 & Hw2 & Hw3). rewrite Hst, Hidx, Hb in Hw3.
assert (represents bnd (set_index (idx + 1) p) s_start_boundary (idx + 1) \/ idx = blen bnd + 1) as Hn.
{ destruct (Z.eq_dec idx (blen bnd + 1)); [by right|left].
unfold represents, wf. cbn. rewrite Hst, Hb. intuition (try done; lia). }
destruct (Z.eqb_spec idx (blen bnd)); [|destruct (Z.eqb_spec idx (blen bnd + 1))].
- destruct (c =? CR); [|discriminate]. injection Hf as <-. cbn [negb fst snd].
eexists _, _, _. split; [reflexivity|]. destruct Hn; [|lia]. split; [done|]. split; [lia|].
unfold pending. destruct (_ =? _); by rewrite !app_nil_r.
- destruct (c =? LF); [|discriminate]. injection Hf as <-. cbn [negb fst snd]. rewrite notify_recorder.
eexists _, _, _. split; [reflexivity|]. split.
+ unfold represents, wf. cbn. intuition (done || lia).
+ split; [lia|]. rewrite flat_snoc. unfold pending. destruct (_ =? _); by rewrite app_nil_r.
- case_bool_decide as Hlk; [|discriminate]. injection Hf as <-. cbn [fst snd].
rewrite (rd_boundary p idx c Hmem ltac:(lia) Hlk).
cbn [cbind]. rewrite Z.eqb_refl. cbn [negb].
eexists _, _, _. split; [reflexivity|]. destruct Hn; [|lia]. split; [done|]. split; [lia|].
unfold pending. destruct (_ =? _); by rewrite !app_nil_r.
Qed.

(** One byte of the buffer: one iteration, or two when the parser steps back. *)
Definition feeds (i mark : Z) (p : multipart_parser) (s : list event) (m : comp ctl) : Prop :=
mp_step recorder buf i mark p s = m \/
exists mark1 p1 s1, may_step_back (state p) = true /\ state p1 = s_part_data /\
mp_step recorder buf i mark p s = Ret (Next (u64 (i - 1)) mark1 p1 s1) /\
mp_step recorder buf i mark1 p1 s1 = m.

Lemma looked_length p st idx :
represents bnd p st idx ->
blen (looked bnd st idx) =
match st with s_part_data_almost_boundary => 1 | s_part_data_boundary => 2 + idx | _ => 0 end.
Proof.
intros ((_ & _ & Hw) & Hst & Hi & _ & Hb & _). rewrite Hst, Hi, Hb in Hw.
destruct st; try done. cbn [looked]. autorewrite with blen_db. lia.
Qed.

(** The lookbehind is passed on and the byte is looked at again as data. *)
Lemma step_back_sim i mark p s st idx c :
represents bnd p st idx -> may_step_back st = true -> rd buf i = Ret c ->
mp_step recorder buf i mark p s =
EMIT_DATA_CB recorder part_data (mem p) (lookbehind p) (blen (looked bnd st idx)) i p s
  (step_back i p) ->
exists m, feeds i mark p s m /\
sim i (flat strict s) (a_emit (data part_data (looked bnd st idx)) (a_part_data idx c)) m.
Proof.
intros Hr Hback Hc E. pose proof (rd_Ret_inv _ _ _ Hc) as [Hi _].
pose proof (looked_length _ _ _ Hr) as Hll. destruct Hr as (Hwf & Hst & Hidx & Hu & Hb & Hmem & Hl).
assert (0 <= blen (looked bnd st idx) <= blen bnd + 2).
{ destruct Hwf as (? & ? & Hw). rewrite Hst, Hidx, Hb in Hw. destruct st; try lia. }
destruct Hwf as (Hw1 & Hw2 & _).
rewrite emit_recorder in E by (unfold lookbehind; lia).
unfold lookbehind in E. rewrite Hb, Hl in E.
set (p1 := set_state s_part_data p). set (s1 := s ++ [EData part_data (looked bnd st idx)]).
assert (represents bnd p1 s_part_data idx) as Hr1 by (unfold represents, wf; cbn; intuition done).
eexists. split.
- right. exists i, p1, s1. rewrite Hst. split; [done|]. split; [done|]. split; [exact E|reflexivity].
- unfold mp_step. rewrite Hc. cbn [cbind]. change (state p1) with s_part_data. cbv iota.
destruct (part_data_sim i i p1 s1 idx c Hr1 ltac:(lia) Hc) as (mark' & p' & s' & E' & Hr' & Hm' & Hf).
exists mark', p', s'. split; [exact E'|]. split; [done|]. split; [done|].
unfold a_emit. cbn [fst snd]. change ((a_emit _ (a_part_data idx c)).1.1) with (a_part_data idx c).1.1.
rewrite Hf. unfold s1. rewrite flat_snoc, vis_app, vis_data. unfold pending.
rewrite Z.sub_diag, sub_0, visible_nil. destruct (i =? blen buf); rewrite app_nil_r, <- app_assoc; done.
Qed.

Lemma represents_index i p st idx :
represents bnd p st idx -> looked bnd st idx = [] -> st <> s_start_boundary ->
represents bnd (set_index i p) st i.
Proof.
intros (Hwf & Hst & Hi & Hu & Hb & Hm & Hl) Hlk Hsb. unfold represents, wf in *. cbn.
assert (looked bnd st i = []) as -> by (by destruct st). rewrite Hst in *.
intuition (try done). by destruct st.
Qed.

(** States that keep nothing: the byte only moves the automaton. *)
Lemma plain_sim i mark p s s' r os :
represents bnd p r.1 r.2 -> 0 <= mark <= i ->
(forall m, pending r.1 m (i + 1) = []) -> flat strict s' = flat strict s ++ vis strict os ->
sim i (flat strict s) (r, os) (Ret (Next i mark p s')).
Proof.
intros Hr Hm Hp Hs. eexists _, _, _. split; [reflexivity|]. cbn [fst snd]. split; [done|].
split; [lia|]. by rewrite Hp, app_nil_r.
Qed.

Lemma sim_before i a b r m : a = b -> sim i b r m -> sim i a r m.
Proof. by intros ->. Qed.

Lemma feeds_sim i mark p s st idx c r :
represents bnd p st idx -> 0 <= mark <= i -> rd buf i = Ret c ->
a_feed strict bnd st idx c = Some r ->
exists m, feeds i mark p s m /\ sim i (flat strict s ++ pending st mark i) r m.
Proof.
intros Hr Hm Hc Hf. pose proof (rd_Ret_inv _ _ _ Hc) as [Hi _].
pose proof Hr as (Hwf & Hst & Hidx & Hu & Hb & Hmem & Hl).
assert (forall m' : comp ctl,
mp_step recorder buf i mark p s = m' -> sim i (flat strict s ++ pending st mark i) r m' ->
exists m, feeds i mark p s m /\ sim i (flat strict s ++ pending st mark i) r m) as Hone.
{ intros m' E H. exists m'. split; [by left|done]. }
assert (forall st m, (match st with s_header_field | s_header_value | s_part_data => False | _ => True end) ->
pending st m (i + 1) = [] /\ pending st m i = []) as Hpend.
{ intros st0 m0 H0. unfold pending. destruct (i + 1 =? _), (i =? _); by destruct st0. }
assert (pending s_part_data i i = [] /\ pending s_header_field i i = [] /\ pending s_header_value i i = [])
as (Hp1 & Hp2 & Hp3).
{ unfold pending. rewrite Z.sub_diag, sub_0, !visible_nil. by destruct (i =? _). }
destruct st; cbn [a_feed] in Hf; try done.
all: first [ match type of Hst with
| _ = s_part_data_almost_boundary => idtac
| _ = s_part_data_boundary => idtac
end | eapply Hone; [unfold mp_step; rewrite Hc; cbn [cbind]; rewrite Hst; reflexivity|] ].
(* s_start *)
- rewrite (proj2 (Hpend s_start mark I)), app_nil_r. apply start_boundary_sim with (idx := 0); try done.
unfold represents, wf in *. cbn. rewrite Hst in Hwf. intuition (done || lia).
- rewrite (proj2 (Hpend s_start_boundary mark I)), app_nil_r. by apply start_boundary_sim with (idx := idx).
(* headers *)
- apply sim_before with (b := flat strict s ++ pending s_header_field i i);
  [by rewrite Hp2, (proj2 (Hpend s_header_field_start mark I))|].
apply header_field_sim with (idx := idx); try done; [by eapply represents_state|lia].
- destruct (strict && (c =? CR)) eqn:Es; [discriminate|].
apply header_field_sim with (idx := idx); try done.
intros -> Hs. by rewrite Hs in Es.
- rewrite (proj2 (Hpend s_headers_almost_done mark I)), app_nil_r.
destruct (c =? LF); [|discriminate]. injection Hf as <-. cbn [negb].
apply plain_sim; [by eapply represents_state|done|intros; by apply Hpend|by rewrite app_nil_r].
- destruct (c =? 32); injection Hf as <-.
+ rewrite (proj2 (Hpend s_header_value_start mark I)), app_nil_r.
  apply plain_sim; [done|done|intros; by apply Hpend|by rewrite app_nil_r].
+ apply sim_before with (b := flat strict s ++ pending s_header_value i i);
    [by rewrite Hp3, (proj2 (Hpend s_header_value_start mark I))|].
  apply header_value_sim; try done; [by eapply represents_state|lia].
- injection Hf as <-. by apply header_value_sim.
- rewrite (proj2 (Hpend s_header_value_almost_done mark I)), app_nil_r.
destruct (c =? LF); [|discriminate]. injection Hf as <-. cbn [negb].
apply plain_sim; [by eapply represents_state|done|intros; by apply Hpend|by rewrite app_nil_r].
(* data *)
- rewrite notify_recorder. injection Hf as <-. rewrite (proj2 (Hpend s_part_data_start mark I)), app_nil_r.
destruct (part_data_sim i i (set_state s_part_data p) (s ++ [ENotify headers_complete]) idx c)
  as (m' & p' & s' & E & Hr' & Hm' & Hf'); [by eapply represents_state|lia|done|].
exists m', p', s'. split; [done|]. split; [done|]. split; [done|].
rewrite flat_snoc, Hp1, app_nil_r in Hf'. unfold a_emit. cbn [fst snd].
rewrite vis_app, (app_assoc (flat strict s)). exact Hf'.
- injection Hf as <-. by apply part_data_sim.
- rewrite (proj2 (Hpend s_part_data_almost_boundary mark I)), app_nil_r.
destruct (Z.eqb_spec c LF) as [->|Hne]; injection Hf as <-.
+ destruct Hwf as (Hw1 & Hw2 & Hw3). cbn [looked] in Hl. change (blen [CR]) with 1 in Hl.
  destruct (lookbehind_spec 1 LF (set_state s_part_data_boundary p)) as (m & E & Hm1 & Hm2 & Hm3);
    [lia|unfold lookbehind; cbn; lia|done|].
  eexists. split; [left; unfold mp_step; rewrite Hc; cbn [cbind]; rewrite Hst, E; reflexivity|].
  cbn [cbind]. apply plain_sim; [|done|intros; by apply Hpend|by rewrite app_nil_r].
  unfold lookbehind, represents, wf in *. cbn in *. rewrite Hb in *.
  change (Z.of_nat 2) with (1 + 1). rewrite Hl in Hm3. intuition (done || lia || congruence).
+ apply (step_back_sim i mark p s s_part_data_almost_boundary idx c); try done. unfold mp_step. rewrite Hc. cbn [cbind]. rewrite Hst.
  destruct (Z.eqb_spec c LF); done.
- rewrite (proj2 (Hpend s_part_data_boundary mark I)), app_nil_r.
pose proof (looked_length _ _ _ Hr) as Hll. cbn [looked] in Hl, Hll.
destruct Hwf as (Hw1 & Hw2 & Hw3). rewrite Hst, Hidx, Hb in Hw3.
destruct (lookup_lt_is_Some_2 bnd (Z.to_nat idx)) as [b Hlk]; [unfold blen in *; lia|].
pose proof (rd_boundary p idx b Hmem ltac:(lia) Hlk) as Hrd.
rewrite Hlk in Hf. case_bool_decide as Hcb.
+ injection Hcb as ->. 
  destruct (lookbehind_spec (2 + idx) c p) as (m & E & Hm1 & Hm2 & Hm3);
    [lia|unfold lookbehind; cbn; lia|lia|].
  eexists. split; [left; unfold mp_step; rewrite Hc; cbn [cbind]; rewrite Hst, Hidx, Hrd; cbn [cbind];
    rewrite Z.eqb_refl; cbn [negb]; rewrite E; cbn [cbind]; reflexivity|].
  cbn [set_index index boundary_length]. rewrite Hidx, Hb.
  destruct (Z.eqb_spec (idx + 1) (blen bnd)); injection Hf as <-.
  * rewrite notify_recorder. apply plain_sim; [|done|intros; by apply Hpend|by rewrite flat_snoc].
    unfold represents, wf. cbn. rewrite <- Hb in *. intuition (done || lia || congruence).
  * apply plain_sim; [|done|intros; by apply Hpend|by rewrite app_nil_r].
    assert (looked bnd s_part_data_boundary (idx + 1) = looked bnd s_part_data_boundary idx ++ [c]) as Elk.
    { cbn [looked]. replace (Z.to_nat (idx + 1)) with (S (Z.to_nat idx)) by lia.
      by rewrite (take_S_r _ _ _ Hlk). }
    unfold represents, wf. cbn [fst snd]. rewrite Elk, blen_app.
    change (blen [c]) with 1. cbn [looked]. rewrite Hll.
    unfold lookbehind in *. rewrite Hst, Hb in *. rewrite Hll in Hl. rewrite Hl in Hm3.
    cbn [set_index index boundary_length state mem].
    split_and!; done || lia || congruence.
+ injection Hf as <-. apply (step_back_sim i mark p s s_part_data_boundary idx c); try done.
  cbn [looked]. rewrite Hll.
  unfold mp_step. rewrite Hc. cbn [cbind]. rewrite Hst, Hidx, Hrd. cbn [cbind].
  destruct (Z.eqb_spec b c); [congruence|]. done.
(* ends *)
- rewrite (proj2 (Hpend s_part_data_almost_end mark I)), app_nil_r.
destruct (c =? 45); [|destruct (c =? CR); [|discriminate]]; injection Hf as <-;
  (apply plain_sim; [by eapply represents_state|done|intros; by apply Hpend|by rewrite app_nil_r]).
- rewrite (proj2 (Hpend s_part_data_end mark I)), app_nil_r.
destruct (c =? LF); [|discriminate]. injection Hf as <-. cbn [negb]. rewrite notify_recorder.
apply plain_sim; [by eapply represents_state|done|intros; by apply Hpend|by rewrite flat_snoc].
- rewrite (proj2 (Hpend s_part_data_final_hyphen mark I)), app_nil_r.
destruct (c =? 45); [|discriminate]. injection Hf as <-. rewrite notify_recorder.
apply plain_sim; [by eapply represents_state|done|intros; by apply Hpend|by rewrite flat_snoc].
- rewrite (proj2 (Hpend s_end mark I)), app_nil_r. injection Hf as <-.
apply plain_sim; [done|done|intros; by apply Hpend|by rewrite app_nil_r].
Qed.

Lemma feeds_loop fuel i mark p s mark' p' s' :
feeds i mark p s (Ret (Next i mark' p' s')) -> 0 <= i < blen buf ->
measure buf i p <= Z.of_nat fuel ->
exists f, measure buf (i + 1) p' <= Z.of_nat f /\
mp_loop recorder buf fuel i mark p s = mp_loop recorder buf f (i + 1) mark' p' s'.
Proof.
intros Hf Hi Hm. unfold measure in *. destruct fuel as [|fuel]; [destruct (may_step_back (state p)); lia|].
cbn [mp_loop]. destruct (Z.ltb_spec i (blen buf)); [|lia].
destruct Hf as [->|(mark1 & p1 & s1 & Hback & Hst & -> & E)]; cbn [cbind].
- exists fuel. unfold u64. rewrite Z.mod_small by lia. split; [|done].
destruct (may_step_back (state p)), (may_step_back (state p')); lia.
- rewrite Hback in Hm. destruct fuel as [|fuel]; [lia|]. exists fuel.
split; [destruct (may_step_back (state p')); lia|].
unfold u64. rewrite Zplus_mod_idemp_l, Z.sub_add, Z.mod_small by lia.
cbn [mp_loop]. destruct (Z.ltb_spec i (blen buf)); [|lia]. rewrite E. cbn [cbind].
unfold u64. by rewrite Z.mod_small by lia.
Qed.

(** A byte that is no error of the automaton but for [strict]. *)
Lemma feeds_error i mark p s st idx c :
represents bnd p st idx -> rd buf i = Ret c -> a_feed false bnd st idx c = None ->
(exists p', mp_step recorder buf i mark p s = Ret (Stop i p' s)) /\
(st = s_header_field \/ pending st mark i = []).
Proof.
intros Hr Hc Hf. pose proof Hr as (Hwf & Hst & Hidx & Hu & Hb & Hmem & Hl).
assert (forall p idx, boundary_length p = blen bnd -> index p = idx -> sub (mem p) 0 (blen bnd) = bnd ->
0 <= idx <= blen bnd + 1 -> a_start_boundary bnd idx c = None ->
exists p', case_start_boundary recorder c i mark p s = Ret (Stop i p' s)) as Hsb.
{ clear. intros p idx Hb Hidx Hmem Hi. unfold a_start_boundary, case_start_boundary. rewrite Hb, Hidx.
destruct (Z.eqb_spec idx (blen bnd)); [destruct (c =? CR); [done|by eexists]|].
destruct (Z.eqb_spec idx (blen bnd + 1)); [destruct (c =? LF); [done|by eexists]|].
destruct (lookup_lt_is_Some_2 bnd (Z.to_nat idx)) as [b Hlk]; [unfold blen in *; lia|].
rewrite (rd_boundary p idx b Hmem ltac:(lia) Hlk).
rewrite Hlk. case_bool_decide; [done|]. intros _. cbn [cbind].
destruct (Z.eqb_spec c b); [congruence|]. by eexists. }
destruct Hwf as (Hw1 & Hw2 & Hw3). unfold mp_step. rewrite Hc. cbn [cbind]. rewrite Hst in *.
assert (forall mk p, a_header_field idx c = None ->
exists p', case_header_field recorder buf c (i =? blen buf - 1) i mk p s = Ret (Stop i p' s)) as Hhf.
{ clear. intros mk p. unfold a_header_field, case_header_field.
destruct (c =? CR); [done|]. destruct (c =? 58); [done|]. rewrite is_field_char_spec.
cbv zeta. destruct (negb _ && _); [by eexists|done]. }
destruct st; cbn [a_feed andb] in Hf; try done;
(split; [|unfold pending; destruct (i =? blen buf); by auto]);
repeat match type of Hf with
| (if ?b then _ else _) = None => destruct b; try discriminate
end; cbn [negb]; eauto.
- apply (Hsb _ 0); try done. lia.
- apply (Hsb _ idx); try done. lia.
Qed.

(** The bytes from [i] on, consumed by the automaton up to [i + n]. *)
Lemma mp_loop_run fuel i mark p s st idx n st' idx' os :
represents bnd p st idx -> 0 <= mark <= i -> i <= blen buf -> measure buf i p <= Z.of_nat fuel ->
a_run strict bnd st idx (drop (Z.to_nat i) buf) = (n, st', idx', os) ->
i + n <= blen buf /\
(strict = false \/ i + n = blen buf ->
 exists p' s', mp_loop recorder buf fuel i mark p s = Ret (i + n, p', s') /\
 flat strict s' = flat strict s ++ pending st mark i ++ vis strict os /\
 (i + n = blen buf -> represents bnd p' st' idx')).
Proof.
remember (drop (Z.to_nat i) buf) as bs eqn:Ebs. revert fuel i mark p s st idx n st' idx' os Ebs.
induction bs as [|c bs IH]; intros fuel i mark p s st idx n st' idx' os Ebs Hr Hm Hi Hf Hrun.
- assert (i = blen buf) as ->.
{ apply (f_equal length) in Ebs. rewrite length_drop in Ebs. simpl in Ebs. unfold blen in *. lia. }
simpl in Hrun. injection Hrun as <- <- <- <-. split; [lia|]. intros _. exists p, s.
unfold pending. rewrite Z.eqb_refl, !app_nil_r, Z.add_0_r. split; [|done].
destruct fuel; simpl; destruct (Z.ltb_spec (blen buf) (blen buf)); done || lia.
- assert (i < blen buf) as Hlt.
{ apply (f_equal length) in Ebs. rewrite length_drop in Ebs. simpl in Ebs. unfold blen in *. lia. }
assert (rd buf i = Ret c /\ bs = drop (Z.to_nat (i + 1)) buf) as [Hc Ebs'].
{ replace (Z.to_nat (i + 1)) with (Z.to_nat i + 1)%nat by lia. rewrite <- drop_drop, <- Ebs.
  split; [|done]. unfold rd. destruct (Z.leb_spec 0 i); [|lia].
  rewrite <- (Nat.add_0_r (Z.to_nat i)), <- lookup_drop, <- Ebs. done. }
cbn [a_run] in Hrun. destruct (a_feed strict bnd st idx c) as [[[st1 idx1] os1]|] eqn:Ef.
+ destruct (a_run strict bnd st1 idx1 bs) as [[[n1 st2] idx2] os2] eqn:Er.
  injection Hrun as <- <- <- <-.
  destruct (feeds_sim i mark p s st idx c _ Hr Hm Hc Ef) as (m & Hfeeds & mark' & p' & s' & -> & Hr' & Hm' & Hfl).
  cbn [fst snd] in *. destruct (feeds_loop fuel _ _ _ _ _ _ _ Hfeeds ltac:(lia) Hf) as (f & Hf' & ->).
  destruct (IH f (i + 1) mark' p' s' st1 idx1 n1 st2 idx2 os2) as [Hle H]; try done; try lia.
  split; [lia|]. intros Hs. destruct H as (p2 & s2 & -> & Hs2 & Hr2); [intuition lia|].
  exists p2, s2. split; [do 3 f_equal; lia|]. split; [|intros; apply Hr2; lia].
  rewrite Hs2, vis_app, !app_assoc, Hfl, <- !app_assoc. done.
+ injection Hrun as <- <- <- <-. split; [lia|]. intros [Hs|Hs]; [|lia]. rewrite Hs in Ef.
  destruct (feeds_error i mark p s st idx c Hr Hc Ef) as [[p' E] Hp].
  unfold measure in Hf. destruct fuel as [|fuel]; [destruct (may_step_back _); lia|].
  cbn [mp_loop]. destruct (Z.ltb_spec i (blen buf)); [|lia]. rewrite E. cbn [cbind].
  exists p', s. split; [do 3 f_equal; lia|]. split; [|lia].
  assert (pending st mark i = []) as ->; [|by rewrite app_nil_r].
  destruct Hp as [->|]; [|done]. unfold pending. destruct (i =? _); [done|].
  unfold visible. by rewrite Hs.
Qed.
End Refinement.

Lemma represents_init bnd garbage :
  bnd <> [] -> blen garbage = blen bnd + 9 ->
  exists p, multipart_parser_init bnd (Some garbage) = Ret p /\ represents bnd p s_start 0.
Proof.
  intros Hb Hg. eexists. split; [reflexivity|]. unfold represents, wf. cbn [state index boundary_length mem looked].
  assert (1 <= blen bnd) by (destruct bnd; [done|rewrite blen_cons; pose proof (blen_nonneg bnd); lia]).
  split_and!; try done.
  - autorewrite with blen_db. lia.
  - unfold sub. by rewrite drop_0, blen_to_nat, take_app_length.
Qed.

(** ** The automaton on concatenations *)

Section Runs.
Variables (strict : bool) (bnd : list Z).

(** The run consumes all of [x]. *)
Definition runs (st : mp_state) (idx : Z) (x : list Z) (st' : mp_state) (idx' : Z) (os : list out) : Prop :=
a_run strict bnd st idx x = (blen x, st', idx', os).

Lemma runs_nil st idx : runs st idx [] st idx [].
Proof. done. Qed.

Lemma runs_app_run st idx x st1 idx1 os1 y n st2 idx2 os2 :
runs st idx x st1 idx1 os1 -> a_run strict bnd st1 idx1 y = (n, st2, idx2, os2) ->
a_run strict bnd st idx (x ++ y) = (blen x + n, st2, idx2, os1 ++ os2).
Proof.
unfold runs. revert st idx os1. induction x as [|c x IH]; intros st idx os1 Hx Hy; simpl in *.
- injection Hx as <- <- <-. rewrite Hy. done.
- destruct (a_feed strict bnd st idx c) as [[[st3 idx3] os3]|]; [|by rewrite blen_cons in Hx; injection Hx;
  pose proof (blen_nonneg x); lia].
destruct (a_run strict bnd st3 idx3 x) as [[[n3 st4] idx4] os4] eqn:E.
rewrite blen_cons in *. injection Hx as Hn -> -> <-.
rewrite (IH st3 idx3 os4) by (done || (rewrite E; do 3 f_equal; lia)).
rewrite <- app_assoc. do 3 f_equal. lia.
Qed.

Lemma runs_app st idx x st1 idx1 os1 y st2 idx2 os2 :
runs st idx x st1 idx1 os1 -> runs st1 idx1 y st2 idx2 os2 -> runs st idx (x ++ y) st2 idx2 (os1 ++ os2).
Proof.
intros Hx Hy. unfold runs. rewrite blen_app. by apply runs_app_run with (st1 := st1) (idx1 := idx1).
Qed.

Lemma runs_one st idx c st' idx' os :
a_feed strict bnd st idx c = Some (st', idx', os) -> runs st idx [c] st' idx' os.
Proof. intros H. unfold runs. simpl. rewrite H. by rewrite app_nil_r. Qed.

Lemma runs_cons st idx c st1 idx1 os1 y st2 idx2 os2 :
a_feed strict bnd st idx c = Some (st1, idx1, os1) -> runs st1 idx1 y st2 idx2 os2 ->
runs st idx (c :: y) st2 idx2 (os1 ++ os2).
Proof. intros Hc. change (c :: y) with ([c] ++ y). apply runs_app. by apply runs_one. Qed.

End Runs.

(** One call of [multipart_parser_execute] is a run of the automaton. *)
Lemma execute_run strict bnd buf p s st idx n st' idx' os :
  blen buf < 2 ^ 63 -> represents bnd p st idx ->
  a_run strict bnd st idx buf = (n, st', idx', os) ->
  n <= blen buf /\
  (strict = false \/ n = blen buf ->
   exists p' s', multipart_parser_execute recorder buf p s = Ret (n, p', s') /\
     flat strict s' = flat strict s ++ vis strict os /\
     (n = blen buf -> represents bnd p' st' idx')).
Proof.
  intros Hl Hr Hrun. pose proof (blen_nonneg buf).
  destruct (mp_loop_run strict bnd buf Hl (2 * length buf) 0 0 p s st idx n st' idx' os)
    as [Hn H1]; try done; try lia.
  { unfold measure, blen. destruct (may_step_back _); lia. }
  split; [lia|]. intros Hs. destruct (H1 Hs) as (p' & s' & E & Hf & Hr'). exists p', s'.
  split; [exact E|]. split; [|intros; apply Hr'; lia].
  rewrite Hf. unfold pending. rewrite sub_0, !visible_nil. by destruct (_ =? _), st.
Qed.

(** the parser is safe and total.  Whatever the callbacks do, on a parser
    with a non-empty boundary [multipart_parser_execute] returns after at most
    two iterations per byte, with a count within the buffer; it never touches
    a byte outside the buffer or its allocation, and when it consumed
    everything the parser is well formed again. *)
Theorem multipart_execute_total {S : Type} (settings : multipart_settings S) (buf : list Z)
    (p : multipart_parser) (s : S) :
  wf p -> blen buf < 2 ^ 63 ->
  exists ret p' s', multipart_parser_execute settings buf p s = Ret (ret, p', s') /\
    0 <= ret <= blen buf /\ (ret = blen buf -> wf p').
Proof.
  intros Hwf Hl. pose proof (blen_nonneg buf). apply mp_loop_total; try done; try lia.
  unfold measure, blen. destruct (may_step_back _); lia.
Qed.

(** A parser in the state after a CR, with boundary "--b". *)
Definition sample_parser : multipart_parser :=
  mkMultipart 0 3 s_part_data_almost_boundary ([45; 45; 98; 0; 13] ++ repeat 0 11).

Lemma multipart_execute_total_witness :
  wf sample_parser /\
  exists ret p' s', multipart_parser_execute recorder [97; 13; 10; 45] sample_parser [] = Ret (ret, p', s') /\
    0 <= ret <= 4 /\ (ret = 4 -> wf p').
Proof.
  assert (wf sample_parser) as Hwf by (repeat split; vm_compute; discriminate || reflexivity).
  split; [exact Hwf|].
  apply (multipart_execute_total recorder [97; 13; 10; 45] sample_parser [] Hwf). done.
Defined.

(** Without a header line that lacks its colon, strictness changes nothing. *)
Lemma a_feed_strict bnd st idx c r : a_feed true bnd st idx c = Some r -> a_feed false bnd st idx c = Some r.
Proof. destruct st; try done. cbn [a_feed andb]. by destruct (c =? CR). Qed.

Lemma a_run_strict bnd bs : forall st idx st' idx' os,
  a_run true bnd st idx bs = (blen bs, st', idx', os) -> a_run false bnd st idx bs = (blen bs, st', idx', os).
Proof.
  induction bs as [|c bs IH]; intros st idx st' idx' os H; [done|]. cbn [a_run] in *. rewrite blen_cons in *.
  pose proof (blen_nonneg bs). destruct (a_feed true bnd st idx c) as [[[st1 idx1] os1]|] eqn:E; [|injection H; lia].
  rewrite (a_feed_strict _ _ _ _ _ E). destruct (a_run true bnd st1 idx1 bs) as [[[n st2] idx2] os2] eqn:Er.
  injection H as Hn <- <- <-. assert (n = blen bs) as -> by lia. by rewrite (IH _ _ _ _ _ Er).
Qed.

Lemma vis_all os : vis true os = os.
Proof.
  induction os as [|o os IH]; [done|]. change (o :: os) with ([o] ++ os). rewrite vis_app, IH.
  f_equal. destruct o as [k b|k]; [|done]. unfold vis. simpl. unfold visible. by rewrite andb_false_r.
Qed.

(** C10: functional refinement.  A parser that represents a state of the
    byte-by-byte automaton consumes exactly the bytes the automaton consumes
    and then represents the automaton's final state.  Joined together, what its
    callbacks receive is the automaton's outputs: all of them, the names of the
    header fields included, when every header line of the bytes has its colon
    and the bytes are all accepted; header field names aside for any bytes, as
    a name without a colon is passed on or not depending on the cut. *)
Theorem multipart_execute_refines (bnd buf : list Z) (p : multipart_parser) (s : list event)
    (st : mp_state) (idx : Z) :
  blen buf < 2 ^ 63 -> represents bnd p st idx ->
  let '(n, st', idx', os) := a_run false bnd st idx buf in
  exists p' s', multipart_parser_execute recorder buf p s = Ret (n, p', s') /\
    ((exists st2 idx2 os2, a_run true bnd st idx buf = (blen buf, st2, idx2, os2)) ->
      flat true s' = flat true s ++ os) /\
    flat false s' = flat false s ++ vis false os /\
    (n = blen buf -> represents bnd p' st' idx').
Proof.
  intros Hl Hr. destruct (a_run false bnd st idx buf) as [[[n st'] idx'] os] eqn:E.
  destruct (execute_run false bnd buf p s st idx n st' idx' os Hl Hr E) as [_ H].
  destruct H as (p' & s' & Ex & Hs & Hr'); [by left|]. exists p', s'. split; [done|]. split; [|done].
  intros (st2 & idx2 & os2 & E2). pose proof (a_run_strict _ _ _ _ _ _ _ E2) as E1. rewrite E in E1. injection E1 as -> -> -> ->.
  destruct (execute_run true bnd buf p s st idx _ _ _ _ Hl Hr E2) as [_ H2].
  destruct H2 as (p2 & s2 & Ex2 & Hs2 & _); [by right|]. rewrite Ex in Ex2. injection Ex2 as <- <-. by rewrite Hs2, vis_all.
Qed.

(** The start of a part with a header line: "--b" behind a line end, "A:v". *)
Definition header_bytes : list Z := [10; 45; 45; 98; 13; 10; 65; 58; 118; 13; 10; 13; 10; 100].

Lemma multipart_execute_refines_witness :
  exists p' s', multipart_parser_execute recorder header_bytes sample_parser [] = Ret (14, p', s') /\
    ((exists st2 idx2 os2, a_run true [45; 45; 98] s_part_data_almost_boundary 0 header_bytes = (14, st2, idx2, os2)) ->
      flat true s' = [] ++ [ONotify part_data_end; ONotify part_data_begin; OData header_field 65; OData header_value 118;
                            ONotify headers_complete; OData part_data 100]) /\
    flat false s' = [] ++ [ONotify part_data_end; ONotify part_data_begin; OData header_value 118;
                           ONotify headers_complete; OData part_data 100] /\
    (14 = 14 -> represents [45; 45; 98] p' s_part_data 3).
Proof.
  assert (represents [45; 45; 98] sample_parser s_part_data_almost_boundary 0) as Hr.
  { repeat split; vm_compute; discriminate || reflexivity. }
  exact (multipart_execute_refines [45; 45; 98] header_bytes sample_parser []
           s_part_data_almost_boundary 0 eq_refl Hr).
Defined.

(** the result does not depend on how the body is cut into buffers: parsing
    [a] and then [b] ends like parsing both at once, with the counts added up,
    the same data and notifications and the same state. *)
Theorem multipart_execute_split (bnd a b : list Z) (p p1 p2 : multipart_parser) (s s1 s2 : list event)
    (st : mp_state) (idx n : Z) :
  blen a + blen b < 2 ^ 63 -> represents bnd p st idx ->
  multipart_parser_execute recorder a p s = Ret (blen a, p1, s1) ->
  multipart_parser_execute recorder b p1 s1 = Ret (n, p2, s2) ->
  exists p3 s3, multipart_parser_execute recorder (a ++ b) p s = Ret (blen a + n, p3, s3) /\
    flat false s3 = flat false s2 /\
    (n = blen b -> state p3 = state p2 /\ index p3 = index p2).
Proof.
  intros Hl Hr Ha Hb. pose proof (blen_nonneg a). pose proof (blen_nonneg b).
  destruct (a_run false bnd st idx a) as [[[na st1] idx1] os1] eqn:Ea.
  destruct (execute_run false bnd a p s st idx _ _ _ _ ltac:(lia) Hr Ea) as [_ H1].
  destruct (H1 (or_introl eq_refl)) as (p1' & s1' & E1 & Hf1 & Hr1). rewrite Ha in E1. injection E1 as <- <- <-.
  specialize (Hr1 eq_refl).
  destruct (a_run false bnd st1 idx1 b) as [[[nb st2] idx2] os2] eqn:Eb.
  destruct (execute_run false bnd b p1 s1 st1 idx1 _ _ _ _ ltac:(lia) Hr1 Eb) as [_ H2].
  destruct (H2 (or_introl eq_refl)) as (p2' & s2' & E2 & Hf2 & Hr2). rewrite Hb in E2. injection E2 as <- <- <-.
  pose proof (runs_app_run false bnd st idx a st1 idx1 os1 b n st2 idx2 os2 Ea Eb) as Eab.
  destruct (execute_run false bnd (a ++ b) p s st idx _ _ _ _ ltac:(rewrite blen_app; lia) Hr Eab) as [_ H3].
  destruct (H3 (or_introl eq_refl)) as (p3 & s3 & E3 & Hf3 & Hr3). exists p3, s3.
  split; [exact E3|]. split.
  - by rewrite Hf3, Hf2, Hf1, vis_app, app_assoc.
  - intros Hn. destruct (Hr3 ltac:(rewrite blen_app; lia)) as (_ & -> & -> & _).
    by destruct (Hr2 Hn) as (_ & -> & -> & _).
Qed.

Lemma multipart_execute_split_witness :
  exists p1 s1 p2 s2,
    multipart_parser_execute recorder [10] sample_parser [] = Ret (1, p1, s1) /\
    multipart_parser_execute recorder [45; 45; 97] p1 s1 = Ret (3, p2, s2) /\
    exists p3 s3, multipart_parser_execute recorder ([10] ++ [45; 45; 97]) sample_parser [] =
        Ret (1 + 3, p3, s3) /\
      flat false s3 = flat false s2 /\ (3 = 3 -> state p3 = state p2 /\ index p3 = index p2).
Proof.
  eexists _, _, _, _. split; [vm_compute; reflexivity|]. split; [vm_compute; reflexivity|].
  eapply (multipart_execute_split [45; 45; 98] [10] [45; 45; 97] sample_parser _ _ [] _ _
           s_part_data_almost_boundary 0).
  - done.
  - repeat split; vm_compute; discriminate || reflexivity.
  - vm_compute. reflexivity.
  - vm_compute. reflexivity.
Defined.

(** ** Messages *)

Record part := mkPart {
  part_headers : list (list Z * list Z);
  part_body : list Z
}.

Definition encode_header (h : list Z * list Z) : list Z := h.1 ++ 58 :: 32 :: h.2 ++ [CR; LF].

Definition encode_part (bnd : list Z) (p : part) : list Z :=
  CR :: LF :: concat (map encode_header (part_headers p)) ++
    CR :: LF :: part_body p ++ CR :: LF :: bnd.

(** The body of a message; [bnd] includes the leading hyphens. *)
Definition encode_message (bnd : list Z) (ps : list part) : list Z :=
  bnd ++ concat (map (encode_part bnd) ps) ++ [45; 45].

Definition header_ok (h : list Z * list Z) : Prop :=
  Forall (fun c => is_field_char c = true) h.1 /\ (CR ∉ h.2) /\ head h.2 <> Some 32.

(** The delimiter does not occur in the body. *)
Definition part_ok (bnd : list Z) (p : part) : Prop :=
  Forall header_ok (part_headers p) /\
  forall x y, part_body p <> x ++ (CR :: LF :: bnd) ++ y.

Definition header_outs (h : list Z * list Z) : list out :=
  data header_field h.1 ++ data header_value h.2.

Definition part_outs (p : part) : list out :=
  ONotify part_data_begin :: concat (map header_outs (part_headers p)) ++
    ONotify headers_complete :: data part_data (part_body p) ++ [ONotify part_data_end].

Definition message_outs (ps : list part) : list out :=
  concat (map part_outs ps) ++ [ONotify body_end].

Section Messages.
Variable bnd : list Z.
Hypothesis bnd_nonempty : bnd <> [].
Hypothesis bnd_no_CR : CR ∉ bnd.

#[local] Abbreviation runs := (runs true bnd).

Lemma runs_field idx n :
Forall (fun c => is_field_char c = true) n ->
runs s_header_field idx n s_header_field idx (data header_field n).
Proof.
induction 1 as [|c n Hc _ IH]; [apply runs_nil|].
change (data header_field (c :: n)) with ([OData header_field c] ++ data header_field n).
apply (runs_cons _ _ _ _ _ s_header_field idx); [|exact IH]. cbn [a_feed]. unfold a_header_field.
assert (c <> CR /\ c <> 58) as [H1 H2].
{ unfold is_field_char, isalpha, CR in *. zify_bool. lia. }
destruct (Z.eqb_spec c CR), (Z.eqb_spec c 58); try done. by rewrite Hc.
Qed.

Lemma runs_value idx v :
CR ∉ v -> runs s_header_value idx v s_header_value idx (data header_value v).
Proof.
induction v as [|c v IH]; intros Hv; [apply runs_nil|].
apply not_elem_of_cons in Hv as [Hc Hv].
change (data header_value (c :: v)) with ([OData header_value c] ++ data header_value v).
apply (runs_cons _ _ _ _ _ s_header_value idx); [|by apply IH]. cbn [a_feed]. unfold a_header_value.
destruct (Z.eqb_spec c CR); [congruence|done].
Qed.

Lemma runs_header idx h :
header_ok h -> runs s_header_field_start idx (encode_header h) s_header_field_start idx (header_outs h).
Proof.
destruct h as [n v]. intros (Hn & Hv & Hsp). unfold encode_header, header_outs. cbn [fst snd] in *.
assert (runs s_header_value_start idx (v ++ [CR; LF]) s_header_field_start idx (data header_value v)) as Hval.
{ assert (runs s_header_value idx [CR; LF] s_header_field_start idx []) as Hend by done.
destruct v as [|c v]; [done|]. apply not_elem_of_cons in Hv as [Hc Hv].
replace (data header_value (c :: v)) with ([OData header_value c] ++ data header_value v ++ [])
  by (by rewrite app_nil_r).
apply (runs_cons _ _ _ _ _ s_header_value idx).
- cbn [a_feed]. destruct (Z.eqb_spec c 32); [simpl in Hsp; congruence|].
  unfold a_header_value. destruct (Z.eqb_spec c CR); [congruence|done].
- eapply runs_app; [by apply runs_value|done]. }
assert (runs s_header_field idx (58 :: 32 :: v ++ [CR; LF]) s_header_field_start idx
        (data header_value v)) as Hrest.
{ apply (runs_cons _ _ _ _ _ s_header_value_start idx []); [done|].
by apply (runs_cons _ _ _ _ _ s_header_value_start idx []). }
destruct n as [|c n].
- apply (runs_cons _ _ _ _ _ s_header_value_start idx []); [done|].
by apply (runs_cons _ _ _ _ _ s_header_value_start idx []).
- assert (runs s_header_field idx ((c :: n) ++ 58 :: 32 :: v ++ [CR; LF]) s_header_field_start idx
          (data header_field (c :: n) ++ data header_value v)) as H
  by (eapply runs_app; [by apply runs_field|exact Hrest]).
inversion_clear Hn as [|? ? Hc _]. unfold Multipart.runs in H |- *. cbn [app a_run] in H |- *.
cbn [a_feed andb] in H |- *. destruct (Z.eqb_spec c CR) as [->|]; [discriminate Hc|].
unfold a_header_field in *. destruct (c =? CR); [done|]. rewrite Hc in *. by destruct (c =? 58).
Qed.

Lemma runs_headers idx hs :
Forall header_ok hs ->
runs s_header_field_start idx (concat (map encode_header hs)) s_header_field_start idx
(concat (map header_outs hs)).
Proof.
induction 1 as [|h hs Hh _ IH]; [apply runs_nil|]. simpl. eapply runs_app; [by apply runs_header|exact IH].
Qed.

(** While the delimiter has not occurred, the outputs and the lookbehind are
the body. *)
Lemma runs_body idx u :
(forall x y, u <> x ++ (CR :: LF :: bnd) ++ y) ->
exists st i v, runs s_part_data idx u st i (data part_data v) /\ u = v ++ looked bnd st i /\
(st = s_part_data \/ st = s_part_data_almost_boundary \/
 st = s_part_data_boundary /\ 0 <= i < blen bnd).
Proof.
induction u as [|c u IH] using rev_ind; intros Hu.
- exists s_part_data, idx, []. split; [apply runs_nil|]. auto.
- destruct IH as (st & i & v & Hr & Hv & Hst).
{ intros x y ->. apply (Hu x (y ++ [c])). by rewrite <- !app_assoc. }
assert (forall l, looked bnd st i = l ->
  a_feed true bnd st i c = Some (a_emit (data part_data l) (a_part_data i c)) ->
  exists st' i' v', runs s_part_data idx (u ++ [c]) st' i' (data part_data v') /\
    u ++ [c] = v' ++ looked bnd st' i' /\
    (st' = s_part_data \/ st' = s_part_data_almost_boundary \/
     st' = s_part_data_boundary /\ 0 <= i' < blen bnd)) as Hdata.
{ intros l Hl Hf. unfold a_emit, a_part_data in Hf. destruct (Z.eqb_spec c CR) as [->|]; cbn in Hf.
  - exists s_part_data_almost_boundary, i, (v ++ l). split; [|split; [by rewrite Hv, Hl|auto]].
    unfold data in *. rewrite map_app. eapply runs_app; [exact Hr|]. apply runs_one. rewrite Hf.
    by rewrite app_nil_r.
  - exists s_part_data, i, (v ++ l ++ [c]). split; [|split; [by rewrite Hv, Hl, <- !app_assoc|auto]].
    unfold data in *. rewrite !map_app. eapply runs_app; [exact Hr|]. by apply runs_one. }
destruct Hst as [->|[->|[-> Hi]]].
+ apply (Hdata []); [done|]. by destruct (a_part_data i c) as [[]] eqn:E; simpl; rewrite E.
+ destruct (Z.eqb_spec c LF) as [->|Hne].
  * exists s_part_data_boundary, 0, v. split; [|split].
    -- rewrite <- (app_nil_r (data part_data v)). eapply runs_app; [exact Hr|by apply runs_one].
    -- rewrite Hv. cbn [looked]. by rewrite take_0, <- app_assoc.
    -- right. right. destruct bnd; [done|]. split; [done|]. rewrite blen_cons. pose proof (blen_nonneg l). lia.
  * apply (Hdata [CR]); [done|]. cbn [a_feed]. by destruct (Z.eqb_spec c LF).
+ destruct (decide (bnd !! Z.to_nat i = Some c)) as [Hc|Hc].
  * assert (take (Z.to_nat (i + 1)) bnd = take (Z.to_nat i) bnd ++ [c]) as Htk.
    { replace (Z.to_nat (i + 1)) with (S (Z.to_nat i)) by lia. by apply take_S_r. }
    destruct (Z.eq_dec (i + 1) (blen bnd)) as [Hlast|Hlast].
    -- exfalso. apply (Hu v []). rewrite Hv. cbn [looked]. rewrite <- app_assoc, app_nil_r.
       simpl. rewrite <- Htk. by rewrite Hlast, blen_to_nat, firstn_all.
    -- exists s_part_data_boundary, (i + 1), v. split; [|split].
       ++ rewrite <- (app_nil_r (data part_data v)). eapply runs_app; [exact Hr|apply runs_one].
          cbn [a_feed]. rewrite bool_decide_true by done. by destruct (Z.eqb_spec (i + 1) (blen bnd)).
       ++ rewrite Hv. cbn [looked]. by rewrite Htk, <- app_assoc.
       ++ right. right. split; [done|]. lia.
  * apply (Hdata (looked bnd s_part_data_boundary i)); [done|]. cbn [a_feed].
    by rewrite bool_decide_false.
Qed.

(** The delimiter, once its CR LF has been read. *)
Lemma runs_boundary k :
(k < length bnd)%nat -> runs s_part_data_boundary 0 (take k bnd) s_part_data_boundary (Z.of_nat k) [].
Proof.
induction k as [|k IH]; intros Hk; [apply runs_nil|].
destruct (lookup_lt_is_Some_2 bnd k) as [c Hc]; [lia|]. rewrite (take_S_r _ _ _ Hc).
change (@nil out) with (@nil out ++ []). eapply runs_app; [apply IH; lia|]. apply runs_one.
cbn [a_feed]. rewrite Nat2Z.id, bool_decide_true by done. unfold blen.
destruct (Z.eqb_spec (Z.of_nat k + 1) (Z.of_nat (length bnd))); [lia|]. do 3 f_equal. lia.
Qed.

Lemma runs_delimiter st i :
st = s_part_data \/ st = s_part_data_almost_boundary \/ st = s_part_data_boundary /\ 0 <= i < blen bnd ->
runs st i (CR :: LF :: bnd) s_part_data_almost_end (blen bnd)
(data part_data (looked bnd st i) ++ [ONotify part_data_end]).
Proof.
intros Hst. apply (runs_cons _ _ _ _ _ s_part_data_almost_boundary i).
{ destruct Hst as [->|[->|[-> Hi]]]; [done|done|]. cbn [a_feed].
rewrite bool_decide_false; [unfold a_emit, a_part_data; simpl; by rewrite app_nil_r|].
intros H. apply bnd_no_CR. by eapply list_elem_of_lookup_2. }
apply (runs_cons _ _ _ _ _ s_part_data_boundary 0 []); [done|].
destruct (lookup_lt_is_Some_2 bnd (length bnd - 1)) as [c Hc]; [destruct bnd; [done|simpl; lia]|].
assert (bnd = take (length bnd - 1) bnd ++ [c]) as E.
{ rewrite <- (take_S_r _ _ _ Hc). rewrite firstn_all2; [done|]. destruct bnd; [done|simpl; lia]. }
assert (length bnd <> 0%nat) by (by destruct bnd).
enough (forall b, b = take (length bnd - 1) bnd ++ [c] ->
runs s_part_data_boundary 0 b s_part_data_almost_end (blen bnd) ([] ++ [ONotify part_data_end])) as H1
by (by apply H1).
intros b ->.
eapply runs_app; [apply runs_boundary; lia|]. apply runs_one. cbn [a_feed].
rewrite Nat2Z.id, bool_decide_true by done. unfold blen.
destruct (Z.eqb_spec (Z.of_nat (length bnd - 1) + 1) (Z.of_nat (length bnd))); [|lia]. do 3 f_equal. lia.
Qed.

Lemma runs_part_body idx b :
(forall x y, b <> x ++ (CR :: LF :: bnd) ++ y) ->
runs s_part_data_start idx (b ++ CR :: LF :: bnd) s_part_data_almost_end (blen bnd)
(ONotify headers_complete :: data part_data b ++ [ONotify part_data_end]).
Proof.
intros Hb. destruct (runs_body idx b Hb) as (st & i & v & Hr & Hv & Hst).
assert (runs s_part_data idx (b ++ CR :: LF :: bnd) s_part_data_almost_end (blen bnd)
        (data part_data b ++ [ONotify part_data_end])) as H.
{ assert (data part_data b = data part_data v ++ data part_data (looked bnd st i)) as ->
  by (rewrite Hv at 1; unfold data; by rewrite map_app).
rewrite <- app_assoc. eapply runs_app; [exact Hr|]. by apply runs_delimiter. }
destruct (b ++ CR :: LF :: bnd) as [|c u] eqn:Eu; [by destruct b|].
unfold Multipart.runs in H |- *. cbn [a_run] in H |- *. cbn [a_feed] in H |- *. unfold a_emit. cbn [fst snd].
destruct (a_part_data idx c) as [[st1 i1] os1]. cbn [fst snd].
destruct (a_run true bnd st1 i1 u) as [[[n2 st2] i2] os2]. injection H as <- -> -> <-. done.
Qed.

(** A part, from the line break behind a boundary to the next boundary. *)
Lemma runs_part st i p :
part_ok bnd p ->
st = s_start_boundary /\ i = blen bnd \/ st = s_part_data_almost_end ->
runs st i (encode_part bnd p) s_part_data_almost_end (blen bnd) (part_outs p).
Proof.
intros [Hh Hb] Hst. unfold encode_part, part_outs.
assert (exists j, runs st i [CR; LF] s_header_field_start j [ONotify part_data_begin]) as [j Hcrlf].
{ destruct Hst as [[-> ->]| ->].
- exists 0. apply (runs_cons _ _ _ _ _ s_start_boundary (blen bnd + 1) []).
  + cbn [a_feed]. unfold a_start_boundary. by rewrite Z.eqb_refl.
  + apply runs_one. cbn [a_feed]. unfold a_start_boundary. rewrite Z.eqb_refl.
    by destruct (Z.eqb_spec (blen bnd + 1) (blen bnd)); [lia|].
- by exists i. }
change (CR :: LF :: ?x) with ([CR; LF] ++ x) at 1.
change (ONotify part_data_begin :: ?x) with ([ONotify part_data_begin] ++ x).
eapply runs_app; [exact Hcrlf|]. eapply runs_app; [by apply runs_headers|].
change (CR :: LF :: part_body p ++ ?x) with ([CR; LF] ++ part_body p ++ x).
rewrite <- (app_nil_l (ONotify headers_complete :: _)).
eapply runs_app; [|by apply runs_part_body].
unfold Multipart.runs. cbn. reflexivity.
Qed.

Lemma runs_first_boundary k :
(k <= length bnd)%nat -> runs s_start_boundary 0 (take k bnd) s_start_boundary (Z.of_nat k) [].
Proof.
induction k as [|k IH]; intros Hk; [apply runs_nil|].
destruct (lookup_lt_is_Some_2 bnd k) as [c Hc]; [lia|]. rewrite (take_S_r _ _ _ Hc).
change (@nil out) with (@nil out ++ []). eapply runs_app; [apply IH; lia|]. apply runs_one.
cbn [a_feed]. unfold a_start_boundary, blen. rewrite Nat2Z.id, bool_decide_true by done.
destruct (Z.eqb_spec (Z.of_nat k) (Z.of_nat (length bnd))); [lia|].
destruct (Z.eqb_spec (Z.of_nat k) (Z.of_nat (length bnd) + 1)); [lia|]. do 3 f_equal. lia.
Qed.

Lemma runs_message ps :
ps <> [] -> Forall (part_ok bnd) ps ->
exists i, runs s_start 0 (encode_message bnd ps) s_end i (message_outs ps).
Proof.
intros Hne Hps. exists (blen bnd). unfold encode_message, message_outs.
assert (runs s_start 0 bnd s_start_boundary (blen bnd) []) as H0.
{ pose proof (runs_first_boundary (length bnd) (le_n _)) as H. rewrite firstn_all in H.
destruct bnd as [|c b]; [done|]. unfold Multipart.runs in *. cbn [a_run] in *. cbn [a_feed] in *.
destruct (a_start_boundary (c :: b) 0 c); [exact H|].
injection H as H. pose proof (blen_nonneg b). rewrite blen_cons in H. lia. }
rewrite <- (app_nil_l (concat _ ++ [ONotify _])). eapply runs_app; [exact H0|].
apply runs_app with (st1 := s_part_data_almost_end) (idx1 := blen bnd); [|done].
destruct Hps as [|p ps Hp Hps]; [done|]. cbn [map concat].
eapply runs_app; [apply runs_part; auto|].
clear Hne Hp H0. induction Hps as [|p' ps Hp' _ IH]; [apply runs_nil|]. cbn [map concat].
eapply runs_app; [apply runs_part; auto|exact IH].
Qed.
End Messages.

Lemma runs_split strict bnd st idx x y st2 idx2 os :
  runs strict bnd st idx (x ++ y) st2 idx2 os ->
  exists st1 idx1 os1 os2, runs strict bnd st idx x st1 idx1 os1 /\
    runs strict bnd st1 idx1 y st2 idx2 os2 /\ os = os1 ++ os2.
Proof.
  revert st idx os. induction x as [|c x IH]; intros st idx os H.
  - exists st, idx, [], os. split; [apply runs_nil|done].
  - unfold runs in H. cbn [app a_run] in H. rewrite blen_cons in H.
    pose proof (blen_nonneg (x ++ y)).
    destruct (a_feed strict bnd st idx c) as [[[st3 idx3] os3]|] eqn:Ef; [|injection H; lia].
    destruct (a_run strict bnd st3 idx3 (x ++ y)) as [[[n4 st4] idx4] os4] eqn:E.
    injection H as Hn -> -> <-. replace n4 with (blen (x ++ y)) in E by lia.
    destruct (IH _ _ _ E) as (st1 & idx1 & os1 & os2 & H1 & H2 & ->).
    exists st1, idx1, (os3 ++ os1), os2. split; [by eapply runs_cons|]. split; [done|]. by rewrite app_assoc.
Qed.

(** A client that passes the body on as it arrives and stops at an error. *)
Fixpoint execute_chunks (chunks : list (list Z)) (p : multipart_parser) (s : list event)
    : comp (bool * multipart_parser * list event) :=
  match chunks with
  | [] => Ret (true, p, s)
  | buf :: chunks =>
      let! '(n, p, s) := multipart_parser_execute recorder buf p s in
      if n =? blen buf then execute_chunks chunks p s else Ret (false, p, s)
  end.

Lemma execute_chunks_runs strict bnd chunks p s st idx st' idx' os :
  blen (concat chunks) < 2 ^ 63 -> represents bnd p st idx ->
  runs strict bnd st idx (concat chunks) st' idx' os ->
  exists p' s', execute_chunks chunks p s = Ret (true, p', s') /\
    flat strict s' = flat strict s ++ vis strict os /\ represents bnd p' st' idx'.
Proof.
  revert p s st idx os. induction chunks as [|buf chunks IH]; intros p s st idx os Hl Hr Hrun; simpl in *.
  - injection Hrun as <- <- <-. exists p, s. by rewrite app_nil_r.
  - destruct (runs_split _ _ _ _ _ _ _ _ _ Hrun) as (st1 & idx1 & os1 & os2 & H1 & H2 & ->).
    rewrite blen_app in Hl. pose proof (blen_nonneg buf). pose proof (blen_nonneg (concat chunks)).
    destruct (execute_run strict bnd buf p s st idx _ _ _ _ ltac:(lia) Hr H1) as [_ H3].
    destruct (H3 (or_intror eq_refl)) as (p1 & s1 & -> & Hf1 & Hr1). cbn [cbind]. rewrite Z.eqb_refl.
    destruct (IH p1 s1 st1 idx1 os2 ltac:(lia) (Hr1 eq_refl) H2) as (p2 & s2 & -> & Hf2 & Hr2).
    exists p2, s2. split; [done|]. split; [|done]. by rewrite Hf2, Hf1, vis_app, app_assoc.
Qed.

(** C28: round trip.  A message of one or more parts, written with the boundary
    between them and parsed in pieces of any sizes, is consumed completely;
    the callbacks receive, data joined together, exactly the header names and
    values and the bodies of the parts in order, with the notifications in
    between.  The delimiter must not occur in a body. *)
Theorem multipart_roundtrip (bnd garbage : list Z) (ps : list part) (chunks : list (list Z)) :
  bnd <> [] -> CR ∉ bnd -> blen garbage = blen bnd + 9 ->
  ps <> [] -> Forall (part_ok bnd) ps ->
  concat chunks = encode_message bnd ps -> blen (concat chunks) < 2 ^ 63 ->
  exists p0 p s, multipart_parser_init bnd (Some garbage) = Ret p0 /\
    execute_chunks chunks p0 [] = Ret (true, p, s) /\ state p = s_end /\
    flat true s = message_outs ps.
Proof.
  intros Hb Hcr Hg Hne Hps Hc Hl.
  destruct (represents_init bnd garbage Hb Hg) as (p0 & -> & Hr).
  destruct (runs_message bnd Hb Hcr ps Hne Hps) as [i Hrun]. rewrite <- Hc in Hrun.
  destruct (execute_chunks_runs true bnd chunks p0 [] _ _ _ _ _ Hl Hr Hrun) as (p & s & E & Hf & Hr').
  exists p0, p, s. split; [done|]. split; [done|]. split; [apply Hr'|]. by rewrite Hf, vis_all.
Qed.

(** One part "x" with the header "n: v" and boundary "--b", byte by byte. *)
Lemma multipart_roundtrip_witness :
  exists p0 p s, multipart_parser_init [45; 45; 98] (Some (repeat 0 12)) = Ret p0 /\
    execute_chunks (map (fun c => [c]) (encode_message [45; 45; 98] [mkPart [([110], [118])] [120]]))
      p0 [] = Ret (true, p, s) /\ state p = s_end /\
    flat true s = message_outs [mkPart [([110], [118])] [120]].
Proof.
  apply (multipart_roundtrip [45; 45; 98] (repeat 0 12) [mkPart [([110], [118])] [120]]); try done.
  - intros H. repeat (apply elem_of_cons in H as [H|H]; [done|]). by apply elem_of_nil in H.
  - constructor; [|done]. split.
    + constructor; [|done]. split; [by repeat constructor|]. split; [|done].
      intros H. repeat (apply elem_of_cons in H as [H|H]; [done|]). by apply elem_of_nil in H.
    + intros x y H. apply (f_equal length) in H. rewrite !length_app in H. simpl in H. lia.
Defined.

(** ** The empty boundary *)

(** The input that walks the lookbehind buffer: after the first line, the
    empty header and CR LF, the "boundary" is the NUL and then the lookbehind
    itself, which holds CR LF and whatever was matched before. *)
Fixpoint periodic (n : nat) : list Z :=
  match n with
  | O => []
  | S n => 0 :: CR :: LF :: periodic n
  end.

Definition overflow_input : list Z := [CR; LF; CR; LF; CR; LF] ++ periodic 4.

(** with an empty boundary the parser writes behind its allocation.  The
    end of the boundary is tested after the index was incremented, so it is
    never reached, and the comparison runs through the NUL into the
    lookbehind buffer, which grows with every byte that repeats it. *)
Theorem multipart_empty_boundary_overflow (garbage : list Z) :
  blen garbage = 9 ->
  exists p, multipart_parser_init [] (Some garbage) = Ret p /\
    multipart_parser_execute recorder overflow_input p [] = Oob.
Proof.
  intros Hg. eexists. split; [reflexivity|].
  assert (length garbage = 9%nat) as Hl by (unfold blen in Hg; lia). clear Hg.
  do 9 (destruct garbage as [|? garbage]; [discriminate|]). destruct garbage; [|discriminate].
  vm_compute. reflexivity.
Qed.

Lemma multipart_empty_boundary_overflow_witness :
  exists p, multipart_parser_init [] (Some (repeat 7 9)) = Ret p /\
    multipart_parser_execute recorder overflow_input p [] = Oob.
Proof. apply (multipart_empty_boundary_overflow (repeat 7 9)). done. Defined.

(** ** Header lines without a colon *)

(** A header name that is not followed by a colon is passed on or not
    depending on where the buffers are cut. *)
Lemma header_field_depends_on_cut :
  let p := mkMultipart 0 1 s_header_field_start ([98; 0] ++ repeat 0 10) in
  exists p1 p2 p3 s,
    multipart_parser_execute recorder [97; CR] p [] = Ret (2, p1, []) /\
    multipart_parser_execute recorder [97] p [] = Ret (1, p2, s) /\
    multipart_parser_execute recorder [CR] p2 s = Ret (1, p3, [EData header_field [97]]).
Proof. cbv zeta. eexists _, _, _, _. repeat (split; [vm_compute; reflexivity|]). vm_compute; reflexivity. Qed.
