(* ===== verification/RedisParser.v ===== *)
(** * Redis replies

    workflow/src/linux/protocol/redis_parser.c and redis_parser.h: the
    incremental parser of RESP messages and inline commands.

    The reply tree is built by pointers into it ([cur] and the list of
    elements still to be read), so it is modelled as a heap of reply objects.
    Pointers are the numbers of the allocations; the root, which is a member of
    the parser, is number 0.  Until the message is complete the strings of a
    reply are offsets into [msgbuf], which may move. *)

From S2P Require Import Cstdlib.
From stdpp Require Import gmap.

#[local] Open Scope Z_scope.

(** ** Data *)

Definition REDIS_REPLY_TYPE_STRING : Z := 1.
Definition REDIS_REPLY_TYPE_ARRAY : Z := 2.
Definition REDIS_REPLY_TYPE_INTEGER : Z := 3.
Definition REDIS_REPLY_TYPE_NIL : Z := 4.
Definition REDIS_REPLY_TYPE_STATUS : Z := 5.
Definition REDIS_REPLY_TYPE_ERROR : Z := 6.

Definition REDIS_MSGBUF_INIT_SIZE : Z := 8.
Definition REDIS_REPLY_DEPTH_LIMIT : nat := 64.
Definition REDIS_ARRAY_SIZE_LIMIT : Z := 4 * 1024 * 1024.

(** The member [str]: null, an offset kept in the pointer, or a pointer into
    [msgbuf]. *)
Inductive str_ptr : Type :=
| str_null
| str_offset (o : Z)
| str_buf (o : Z).

Record redis_reply := mkReply {
  type : Z;
  integer : Z;
  len : Z;
  str : str_ptr;
  element : list Z
}.

Definition elements (r : redis_reply) : Z := Z.of_nat (length (element r)).

Definition redis_reply_init : redis_reply := mkReply REDIS_REPLY_TYPE_NIL 0 0 str_null [].

Definition redis_reply_set_string (s : str_ptr) (n : Z) (r : redis_reply) : redis_reply :=
  mkReply REDIS_REPLY_TYPE_STRING (integer r) n s (element r).

Definition redis_reply_set_integer (v : Z) (r : redis_reply) : redis_reply :=
  mkReply REDIS_REPLY_TYPE_INTEGER v (len r) (str r) (element r).

Definition redis_reply_set_null (r : redis_reply) : redis_reply :=
  mkReply REDIS_REPLY_TYPE_NIL (integer r) (len r) (str r) (element r).

Definition redis_reply_set_error (s : str_ptr) (n : Z) (r : redis_reply) : redis_reply :=
  mkReply REDIS_REPLY_TYPE_ERROR (integer r) n s (element r).

Definition redis_reply_set_status (s : str_ptr) (n : Z) (r : redis_reply) : redis_reply :=
  mkReply REDIS_REPLY_TYPE_STATUS (integer r) n s (element r).

Inductive redis_status : Type :=
| REDIS_GET_CMD
| REDIS_GET_CR
| REDIS_GET_LF
| REDIS_UNTIL_CRLF
| REDIS_GET_NCHAR
| REDIS_PARSE_END.

#[export] Instance redis_status_eq_dec : EqDecision redis_status.
Proof. solve_decision. Defined.

Record redis_parser := mkParser {
  parse_succ : Z;
  status : redis_status;
  msgbuf : list Z;
  msgsize : Z;
  bufsize : Z;
  cur : Z;
  read_list : list Z;
  msgidx : Z;
  findidx : Z;
  nleft : Z;
  nchar : Z;
  cmd : Z;
  heap : gmap Z redis_reply;
  allocs : Z
}.

(** The address of [parser->reply]. *)
Definition ROOT : Z := 0.

Definition redis_parser_init : redis_parser :=
  mkParser 0 REDIS_GET_CMD [] 0 0 ROOT [] 0 0 1 0 0 {[ROOT := redis_reply_init]} 1.

Definition set_status (st : redis_status) (p : redis_parser) : redis_parser :=
  mkParser (parse_succ p) st (msgbuf p) (msgsize p) (bufsize p) (cur p) (read_list p)
    (msgidx p) (findidx p) (nleft p) (nchar p) (cmd p) (heap p) (allocs p).

Definition set_msgidx (i : Z) (p : redis_parser) : redis_parser :=
  mkParser (parse_succ p) (status p) (msgbuf p) (msgsize p) (bufsize p) (cur p) (read_list p)
    i (findidx p) (nleft p) (nchar p) (cmd p) (heap p) (allocs p).

Definition set_findidx (i : Z) (p : redis_parser) : redis_parser :=
  mkParser (parse_succ p) (status p) (msgbuf p) (msgsize p) (bufsize p) (cur p) (read_list p)
    (msgidx p) i (nleft p) (nchar p) (cmd p) (heap p) (allocs p).

Definition set_cmd (c : Z) (p : redis_parser) : redis_parser :=
  mkParser (parse_succ p) (status p) (msgbuf p) (msgsize p) (bufsize p) (cur p) (read_list p)
    (msgidx p) (findidx p) (nleft p) (nchar p) c (heap p) (allocs p).

Definition set_nchar (n : Z) (p : redis_parser) : redis_parser :=
  mkParser (parse_succ p) (status p) (msgbuf p) (msgsize p) (bufsize p) (cur p) (read_list p)
    (msgidx p) (findidx p) (nleft p) n (cmd p) (heap p) (allocs p).

Definition set_nleft (n : Z) (p : redis_parser) : redis_parser :=
  mkParser (parse_succ p) (status p) (msgbuf p) (msgsize p) (bufsize p) (cur p) (read_list p)
    (msgidx p) (findidx p) n (nchar p) (cmd p) (heap p) (allocs p).

Definition set_cur (c : Z) (l : list Z) (p : redis_parser) : redis_parser :=
  mkParser (parse_succ p) (status p) (msgbuf p) (msgsize p) (bufsize p) c l
    (msgidx p) (findidx p) (nleft p) (nchar p) (cmd p) (heap p) (allocs p).

Definition set_heap (h : gmap Z redis_reply) (n : Z) (p : redis_parser) : redis_parser :=
  mkParser (parse_succ p) (status p) (msgbuf p) (msgsize p) (bufsize p) (cur p) (read_list p)
    (msgidx p) (findidx p) (nleft p) (nchar p) (cmd p) h n.

Definition set_message (b : list Z) (size cap : Z) (p : redis_parser) : redis_parser :=
  mkParser (parse_succ p) (status p) b size cap (cur p) (read_list p)
    (msgidx p) (findidx p) (nleft p) (nchar p) (cmd p) (heap p) (allocs p).

Definition set_succ (p : redis_parser) : redis_parser :=
  mkParser 1 (status p) (msgbuf p) (msgsize p) (bufsize p) (cur p) (read_list p)
    (msgidx p) (findidx p) (nleft p) (nchar p) (cmd p) (heap p) (allocs p).

(** ** The heap *)

Definition deref (h : gmap Z redis_reply) (p : Z) : comp redis_reply :=
  match h !! p with
  | Some r => Ret r
  | None => Oob
  end.

Definition update (f : redis_reply -> redis_reply) (p : redis_parser) : comp redis_parser :=
  let! r := deref (heap p) (cur p) in
  Ret (set_heap (<[cur p := f r]> (heap p)) (allocs p) p).

(** [redis_reply_deinit]: frees everything below the reply, itself aside. *)
Fixpoint deinit_elements (deinit : Z -> gmap Z redis_reply -> comp (gmap Z redis_reply))
    (es : list Z) (h : gmap Z redis_reply) : comp (gmap Z redis_reply) :=
  match es with
  | [] => Ret h
  | e :: es => let! h := deinit e h in deinit_elements deinit es (delete e h)
  end.

Fixpoint redis_reply_deinit (fuel : nat) (reply : Z) (h : gmap Z redis_reply)
    : comp (gmap Z redis_reply) :=
  match fuel with
  | O => NoFuel
  | S f => let! r := deref h reply in deinit_elements (redis_reply_deinit f) (element r) h
  end.

Section Parser.
(** Whether the [n]-th allocation of a reply, array or record succeeds, and
whether the buffer can grow to a size. *)
Variables malloc_ok realloc_ok : Z -> bool.

(** The elements of [__redis_create_array], up to the first failure. *)
Fixpoint create_elements (size : nat) (h : gmap Z redis_reply) (n : Z)
: list Z * gmap Z redis_reply * Z :=
match size with
| O => ([], h, n)
| S s =>
  if malloc_ok n then
    let '(es, h, n') := create_elements s (<[n := redis_reply_init]> h) (n + 1) in
    (n :: es, h, n')
  else ([], h, n + 1)
end.

Definition redis_create_array (size : Z) (h : gmap Z redis_reply) (n : Z)
: option (list Z) * gmap Z redis_reply * Z :=
if malloc_ok n then
let '(es, h', n') := create_elements (Z.to_nat size) h (n + 1) in
if Z.of_nat (length es) =? size then (Some es, h', n') else (None, h, n')
else (None, h, n + 1).

(** [redis_reply_set_array (size, reply)]; the recursion of the release is
bounded by [deinit_fuel]. *)
Definition redis_reply_set_array (deinit_fuel : nat) (size : Z) (reply : Z) (p : redis_parser)
: comp (Z * redis_parser) :=
match redis_create_array size (heap p) (allocs p) with
| (None, h, n) => Ret (-1, set_heap h n p)
| (Some es, h, n) =>
  let! h := redis_reply_deinit deinit_fuel reply h in
  let! r := deref h reply in
  Ret (0, set_heap (<[reply := mkReply REDIS_REPLY_TYPE_ARRAY (integer r) (len r) (str r) es]> h) n p)
end.

(** ** The states *)

Definition redis_parse_cmd (ch : Z) (p : redis_parser) : Z * redis_parser :=
if (ch =? 43) || (ch =? 45) || (ch =? 58) || (ch =? 36) || (ch =? 42)
then (0, set_findidx (msgidx p) (set_status REDIS_UNTIL_CRLF (set_cmd ch p)))
else (-2, p).

Definition redis_parse_cr (ch : Z) (p : redis_parser) : Z * redis_parser :=
if negb (ch =? 13) then (-2, p) else (0, set_status REDIS_GET_LF p).

Definition redis_parse_lf (ch : Z) (p : redis_parser) : Z * redis_parser :=
if negb (ch =? 10) then (-2, p) else (1, p).

(** The records of the elements behind the first one, pushed in front of the
list from the last element on. *)
Fixpoint push_elements (es : list Z) (p : redis_parser) : Z * redis_parser :=
match es with
| [] => (0, p)
| e :: es =>
  let n := allocs p in
  let p := set_heap (heap p) (n + 1) p in
  if malloc_ok n then push_elements es (set_cur (cur p) (e :: read_list p) p) else (-1, p)
end.

Definition redis_parse_array (n : Z) (p : redis_parser) : comp (Z * redis_parser) :=
let p := set_nleft (i32 (nleft p + n)) p in
let! '(ret, p) := redis_reply_set_array 1 n (cur p) p in
if ret <? 0 then Ret (-1, p)
else if n =? 0 then Ret (1, p)
else
let p := set_nleft (i32 (nleft p - 1)) p in
let! r := deref (heap p) (cur p) in
let '(ret, p) := push_elements (reverse (tail (element r))) p in
if ret <? 0 then Ret (-1, p)
else
  match element r with
  | [] => Oob
  | e :: _ => Ret (0, set_status REDIS_GET_CMD (set_cur e (read_list p) p))
  end.

(** [__redis_parse_line]: the line ends at [findidx]. *)
Definition redis_parse_line (p : redis_parser) : comp (Z * redis_parser) :=
let str := drop (Z.to_nat (msgidx p)) (msgbuf p) in
let offset := str_offset (msgidx p) in
let slen := findidx p - msgidx p in
let data := rd_block (msgbuf p) (msgidx p) slen in
let p := set_msgidx (findidx p + 2) p in
if cmd p =? 43 then
let! p := update (redis_reply_set_status offset slen) p in Ret (1, p)
else if cmd p =? 45 then
let! p := update (redis_reply_set_error offset slen) p in Ret (1, p)
else if cmd p =? 58 then
if (slen =? 0) || (30 <? slen) then Ret (-2, p)
else
  let! data := data in
  let! v := atoll (data ++ [0]) in
  let! p := update (redis_reply_set_integer v) p in Ret (1, p)
else if cmd p =? 36 then
let! n := atoi str in
if n <? 0 then
  let! p := update redis_reply_set_null p in Ret (1, p)
else if n =? 0 then
  let! c := rd str 0 in
  if negb (isdigit c) then Ret (-2, p)
  else
    let! p := update (redis_reply_set_string offset 0) p in
    Ret (0, set_status REDIS_GET_CR p)
else Ret (0, set_status REDIS_GET_NCHAR (set_nchar n p))
else if cmd p =? 42 then
let! n := atoi str in
if n <? 0 then
  let! p := update redis_reply_set_null p in Ret (1, p)
else
  let! c := rd str 0 in
  if (n =? 0) && negb (isdigit c) then Ret (-2, p)
  else if REDIS_ARRAY_SIZE_LIMIT <? n then Ret (-2, p)
  else redis_parse_array n p
else Ret (-2, p).

Fixpoint redis_parse_crlf_loop (fuel : nat) (p : redis_parser) : comp (Z * redis_parser) :=
if findidx p + 1 <? msgsize p then
match fuel with
| O => NoFuel
| S f =>
    let! c := rd (msgbuf p) (findidx p) in
    let! d := if c =? 13 then rd (msgbuf p) (findidx p + 1) else Ret 0 in
    if (c =? 13) && (d =? 10) then redis_parse_line p
    else redis_parse_crlf_loop f (set_findidx (findidx p + 1) p)
end
else Ret (2, p).

Definition redis_parse_crlf (p : redis_parser) : comp (Z * redis_parser) :=
redis_parse_crlf_loop (length (msgbuf p)) p.

Definition redis_parse_nchar (p : redis_parser) : comp (Z * redis_parser) :=
if nchar p <=? msgsize p - msgidx p then
let! q := update (redis_reply_set_string (str_offset (msgidx p)) (nchar p)) p in
Ret (0, set_status REDIS_GET_CR (set_msgidx (msgidx p + nchar p) q))
else Ret (2, p).

(** -1, -2 error; 0 continue; 1 one reply finished; 2 not enough bytes. *)
Definition redis_parser_forward (p : redis_parser) : comp (Z * redis_parser) :=
if msgsize p <=? msgidx p then Ret (2, p)
else
let next (parse : Z -> redis_parser -> Z * redis_parser) :=
  let! ch := rd (msgbuf p) (msgidx p) in
  Ret (parse ch (set_msgidx (msgidx p + 1) p)) in
match status p with
| REDIS_GET_CMD => next redis_parse_cmd
| REDIS_GET_CR => next redis_parse_cr
| REDIS_GET_LF => next redis_parse_lf
| REDIS_UNTIL_CRLF => redis_parse_crlf p
| REDIS_GET_NCHAR => redis_parse_nchar p
| REDIS_PARSE_END => Ret (-2, p)
end.

(** ** Completion *)

(** [__redis_parse_done] with [64 - depth] levels left. *)
Fixpoint done_elements (done : Z -> gmap Z redis_reply -> comp (Z * gmap Z redis_reply))
(es : list Z) (h : gmap Z redis_reply) : comp (Z * gmap Z redis_reply) :=
match es with
| [] => Ret (1, h)
| e :: es =>
  let! '(ret, h) := done e h in
  if ret <? 0 then Ret (-2, h) else done_elements done es h
end.

Fixpoint redis_parse_done (left : nat) (reply : Z) (h : gmap Z redis_reply)
: comp (Z * gmap Z redis_reply) :=
match left with
| O => Ret (-2, h)
| S l =>
  let! r := deref h reply in
  if type r =? REDIS_REPLY_TYPE_ARRAY then done_elements (redis_parse_done l) (element r) h
  else if (type r =? REDIS_REPLY_TYPE_STATUS) || (type r =? REDIS_REPLY_TYPE_ERROR)
          || (type r =? REDIS_REPLY_TYPE_STRING) then
    match str r with
    | str_offset o =>
        Ret (1, <[reply := mkReply (type r) (integer r) (len r) (str_buf o) (element r)]> h)
    | _ => Oob
    end
  else Ret (1, h)
end.

(** ** Inline commands *)

(** The words of the first pass; the counter is their number. *)
Fixpoint count_words (in_word : bool) (l : list Z) : Z :=
match l with
| [] => 0
| c :: l => if isspace c then count_words false l
          else (if in_word then 0 else 1) + count_words true l
end.

(** Start and length of each word of the second pass. *)
Fixpoint word_end (l : list Z) (n : Z) : Z * list Z :=
match l with
| [] => (n, [])
| c :: l' => if isspace c then (n, l) else word_end l' (n + 1)
end.

Fixpoint find_words (fuel : nat) (pos : Z) (l : list Z) : list (Z * Z) :=
match fuel, l with
| S f, c :: l' =>
  if isspace c then find_words f (pos + 1) l'
  else let '(n, rest) := word_end l 0 in (pos, n) :: find_words f (pos + n) rest
| _, _ => []
end.

Fixpoint set_words (ws : list (Z * Z)) (es : list Z) (h : gmap Z redis_reply)
: comp (gmap Z redis_reply) :=
match ws, es with
| [], _ => Ret h
| (o, n) :: ws, e :: es =>
  let! r := deref h e in
  set_words ws es (<[e := redis_reply_set_string (str_buf o) n r]> h)
| _ :: _, [] => Oob
end.

Definition redis_split_inline_command (p : redis_parser) : comp (Z * redis_parser) :=
let! msg := rd_block (msgbuf p) 0 (msgsize p) in
let arr_size := count_words false msg in
if arr_size =? 0 then Ret (0, set_msgidx 0 (set_message (msgbuf p) 0 (bufsize p) p))
else
let! '(ret, p) := redis_reply_set_array 1 arr_size ROOT p in
if ret <? 0 then Ret (ret, p)
else
  let! r := deref (heap p) ROOT in
  let! h := set_words (find_words (length msg) 0 msg) (element r) (heap p) in
  Ret (1, set_status REDIS_PARSE_END (set_heap h (allocs p) p)).

(** ** Messages *)

(** What follows a finished reply. *)
Definition redis_next (p : redis_parser) : redis_parser :=
let p := set_nleft (i32 (nleft p - 1)) p in
let p := match read_list p with
       | next :: l => set_cur next l p
       | [] => p
       end in
if 0 <? nleft p then set_status REDIS_GET_CMD p
else set_status REDIS_PARSE_END (set_succ p).

(** The loop of [redis_parser_append_message]: [None] when it returned its
first component at once, [Some] when it fell out of the loop. *)
Fixpoint redis_loop (fuel : nat) (p : redis_parser) : comp (option Z * redis_parser) :=
match fuel with
| O => NoFuel
| S f =>
  let! '(ret, p) := redis_parser_forward p in
  if ret <? 0 then Ret (Some ret, p)
  else if ret =? 2 then Ret (Some 0, p)
  else
    let p := if ret =? 1 then redis_next p else p in
    if bool_decide (status p = REDIS_PARSE_END) then Ret (None, p) else redis_loop f p
end.

(** The scan for the end of an inline command. *)
Fixpoint find_lf (fuel : nat) (p : redis_parser) : comp redis_parser :=
if msgidx p <? msgsize p then
let! c := rd (msgbuf p) (msgidx p) in
if c =? 10 then Ret p
else match fuel with
     | O => NoFuel
     | S f => find_lf f (set_msgidx (msgidx p + 1) p)
     end
else Ret p.

(** Return value, [*size], parser. *)
Definition redis_parser_append_message (buf : list Z) (p : redis_parser)
: comp (Z * Z * redis_parser) :=
let size := blen buf in
let msgsize_bak := msgsize p in
if bool_decide (status p = REDIS_PARSE_END) then Ret (1, 0, p)
else
let! cap :=
  if bufsize p <? msgsize p + size then
    let! new_size := double_until 64 (Z.max REDIS_MSGBUF_INIT_SIZE (2 * bufsize p)) (msgsize p + size) in
    Ret (if realloc_ok new_size then Some new_size else None)
  else Ret (Some (bufsize p)) in
match cap with
| None => Ret (-1, size, p)
| Some cap =>
    let! old := rd_block (msgbuf p) 0 (msgsize p) in
    let p := set_message (old ++ buf) (msgsize p + size) cap p in
    let! first := if 0 <? msgsize p then rd (msgbuf p) 0 else Ret 0 in
    if (0 <? msgsize p) && (isalpha first || isspace first) then
      let! p := find_lf (length (msgbuf p)) p in
      if msgidx p =? msgsize p then Ret (0, size, p)
      else
        let p := set_msgidx (msgidx p + 1) p in
        let p := set_message (msgbuf p) (msgidx p) (bufsize p) p in
        let! '(ret, q) := redis_split_inline_command p in
        Ret (ret, u64 (msgsize p - msgsize_bak), q)
    else
      let! '(ret, p) := redis_loop (S (length (msgbuf p))) p in
      match ret with
      | Some ret => Ret (ret, size, p)
      | None =>
          let! '(ret, h) := redis_parse_done REDIS_REPLY_DEPTH_LIMIT ROOT (heap p) in
          Ret (ret, u64 (msgidx p - msgsize_bak), set_heap h (allocs p) p)
      end
end.
End Parser.

(** ** Values *)

#[warnings="-register-all"]
Inductive resp : Type :=
| RStatus (s : list Z)
| RError (s : list Z)
| RInt (z : Z)
| RStr (s : list Z)
| RNil
| RArr (vs : list resp).

(** Induction through the elements of arrays. *)
Lemma resp_ind' (P : resp -> Prop) :
  (forall s, P (RStatus s)) -> (forall s, P (RError s)) -> (forall z, P (RInt z)) ->
  (forall s, P (RStr s)) -> P RNil -> (forall vs, Forall P vs -> P (RArr vs)) -> forall v, P v.
Proof.
  intros H1 H2 H3 H4 H5 H6. fix IH 1. intros [s|s|z|s| |vs]; [apply H1|apply H2|apply H3|apply H4|apply H5|].
  apply H6. induction vs as [|v vs IHvs]; constructor; [apply IH|apply IHvs].
Qed.

Definition CRLF : list Z := [13; 10].

Fixpoint encode (v : resp) : list Z :=
  match v with
  | RStatus s => 43 :: s ++ CRLF
  | RError s => 45 :: s ++ CRLF
  | RInt z => 58 :: dec z ++ CRLF
  | RStr s => 36 :: dec (blen s) ++ CRLF ++ s ++ CRLF
  | RNil => 36 :: dec (-1) ++ CRLF
  | RArr vs => 42 :: dec (Z.of_nat (length vs)) ++ CRLF ++ concat (map encode vs)
  end.

Fixpoint resp_ok (v : resp) : Prop :=
  match v with
  | RStatus s | RError s => 13 ∉ s
  | RInt z => LONG_MIN <= z <= LONG_MAX
  | RStr s => blen s < 2 ^ 31
  | RArr vs =>
      Z.of_nat (length vs) <= REDIS_ARRAY_SIZE_LIMIT /\
      (fix all (vs : list resp) : Prop :=
         match vs with [] => True | v :: vs => resp_ok v /\ all vs end) vs
  | _ => True
  end.

(** The nesting depth: 1 without arrays. *)
Fixpoint height (v : resp) : nat :=
  match v with
  | RArr vs => S (foldr Nat.max 0%nat (map height vs))
  | _ => 1%nat
  end.

(** [tree K h buf v p lo hi]: the reply at [p] is [v]; the replies below it
    were allocated between [lo] and [hi].  Strings are [K] of their offset. *)
Section Tree.
Variables (K : Z -> str_ptr) (h : gmap Z redis_reply) (buf : list Z).

Definition text (r : redis_reply) (s : list Z) : Prop :=
exists o, str r = K o /\ len r = blen s /\ rd_block buf o (blen s) = Ret s.

Fixpoint tree (v : resp) (p lo hi : Z) {struct v} : Prop :=
exists r, h !! p = Some r /\
match v with
| RStatus s => type r = REDIS_REPLY_TYPE_STATUS /\ text r s /\ lo <= hi
| RError s => type r = REDIS_REPLY_TYPE_ERROR /\ text r s /\ lo <= hi
| RInt z => type r = REDIS_REPLY_TYPE_INTEGER /\ integer r = z /\ lo <= hi
| RStr s => type r = REDIS_REPLY_TYPE_STRING /\ text r s /\ lo <= hi
| RNil => type r = REDIS_REPLY_TYPE_NIL /\ lo <= hi
| RArr vs =>
  type r = REDIS_REPLY_TYPE_ARRAY /\
  exists mid, lo <= mid /\ Forall (fun q => lo <= q < mid) (element r) /\ NoDup (element r) /\
  (fix trees (vs : list resp) (es : list Z) (lo hi : Z) : Prop :=
     match vs, es with
     | [], [] => lo <= hi
     | v :: vs, e :: es => exists mid, tree v e lo mid /\ trees vs es mid hi
     | _, _ => False
     end) vs (element r) mid hi
end.

Fixpoint trees (vs : list resp) (es : list Z) (lo hi : Z) : Prop :=
match vs, es with
| [], [] => lo <= hi
| v :: vs, e :: es => exists mid, tree v e lo mid /\ trees vs es mid hi
| _, _ => False
end.

Lemma tree_array vs p lo hi :
tree (RArr vs) p lo hi <->
exists r, h !! p = Some r /\ type r = REDIS_REPLY_TYPE_ARRAY /\
exists mid, lo <= mid /\ Forall (fun q => lo <= q < mid) (element r) /\ NoDup (element r) /\
  trees vs (element r) mid hi.
Proof. reflexivity. Qed.

Lemma tree_bounds v : forall p lo hi, tree v p lo hi -> lo <= hi.
Proof.
induction v as [| | | | |vs IH] using resp_ind'; intros p lo hi H; simpl in H;
try (destruct H as (r & _ & H); intuition lia).
apply tree_array in H as (r & _ & _ & mid & H1 & _ & _ & H2).
enough (mid <= hi) by lia. clear H1. revert mid H2. generalize (element r).
induction IH as [|v vs Hv _ IH]; intros [|e es] mid H2; simpl in H2; try done.
destruct H2 as (mid1 & H3 & H4). apply Hv in H3. apply IH in H4. lia.
Qed.
End Tree.

(** A tree depends on its root and its region only. *)
Lemma tree_frame K h h' buf v : forall p lo hi,
  tree K h buf v p lo hi -> p < lo -> (forall q, q = p \/ lo <= q < hi -> h' !! q = h !! q) ->
  tree K h' buf v p lo hi.
Proof.
  induction v as [| | | | |vs IH] using resp_ind'; intros p lo hi H Hp Hq;
    try (destruct H as (r & Hr & H); exists r; split; [rewrite Hq by auto; done|done]).
  apply tree_array in H as (r & Hr & Ht & mid & H1 & H2 & H3 & H4). apply tree_array.
  exists r. split; [rewrite Hq by auto; done|]. split; [done|]. exists mid. split; [done|].
  split; [done|]. split; [done|].
  assert (forall q, lo <= q < hi -> h' !! q = h !! q) as Hq' by auto.
  clear Hr Hq H3 Ht.
  assert (Forall (fun q => lo <= q < mid) (element r) -> lo <= mid ->
    trees K h' buf vs (element r) mid hi) as Hgen; [|by apply Hgen]. clear H1 H2.
  revert mid H4. generalize (element r).
  induction IH as [|v vs Hv _ IH]; intros [|e es] mid H4 H2 H1; simpl in H4 |- *; try done.
  destruct H4 as (mid1 & H5 & H6). apply Forall_cons in H2 as [He H2].
  pose proof (tree_bounds _ _ _ _ _ _ _ H5).
  assert (mid1 <= hi).
  { clear -H6. revert mid1 es H6. induction vs as [|v vs IH]; intros mid1 [|e es] H6; simpl in H6; try done.
    destruct H6 as (m & H7 & H8). pose proof (tree_bounds _ _ _ _ _ _ _ H7). apply IH in H8. lia. }
  exists mid1. split.
  - apply Hv; [done|lia|]. intros q [->|Hq]; apply Hq'; lia.
  - apply IH; [done| |lia]. eapply Forall_impl; [done|]. simpl. lia.
Qed.

Lemma trees_frame K h h' buf vs : forall es lo hi,
  trees K h buf vs es lo hi -> Forall (fun q => q < lo) es ->
  (forall q, q ∈ es \/ lo <= q < hi -> h' !! q = h !! q) ->
  trees K h' buf vs es lo hi /\ lo <= hi.
Proof.
  induction vs as [|v vs IH]; intros [|e es] lo hi H He Hq; simpl in H |- *; try done.
  destruct H as (mid & H1 & H2). apply Forall_cons in He as [He Hes].
  pose proof (tree_bounds _ _ _ _ _ _ _ H1).
  destruct (IH es mid hi H2) as [H3 H4].
  { eapply Forall_impl; [done|]. simpl. lia. }
  { intros q [Hin|Hr]; apply Hq; [left; by apply list_elem_of_further|right; lia]. }
  split; [|lia]. exists mid. split; [|done].
  apply (tree_frame K h); [done|lia|]. intros q [->|Hr]; apply Hq; [left; apply list_elem_of_here|right; lia].
Qed.

(** ** The loop on one value *)

Section Loop.
Variables malloc_ok : Z -> bool.
Hypothesis malloc_always : forall n, n < 2 ^ 40 -> malloc_ok n = true.

#[local] Abbreviation loop := (redis_loop malloc_ok).

(** What the loop does behind an iteration. *)
Definition continue (fuel : nat) (p : redis_parser) : comp (option Z * redis_parser) :=
if bool_decide (status p = REDIS_PARSE_END) then Ret (None, p) else loop fuel p.

Lemma crlf_scan line : forall fuel p rest,
13 ∉ line -> (length line <= fuel)%nat -> msgsize p = blen (msgbuf p) ->
at_pos (msgbuf p) (findidx p) (line ++ 13 :: 10 :: rest) ->
redis_parse_crlf_loop malloc_ok (S fuel) p =
redis_parse_line malloc_ok (set_findidx (findidx p + blen line) p).
Proof.
induction line as [|c line IH]; intros fuel p rest Hnc Hf Hsz Hat; cbn [redis_parse_crlf_loop];
pose proof (at_pos_len _ _ _ Hat) as Hlen.
- cbn [app] in Hat, Hlen. rewrite !blen_cons in Hlen. pose proof (blen_nonneg rest).
destruct (Z.ltb_spec (findidx p + 1) (msgsize p)); [|lia].
rewrite (at_pos_rd _ _ _ _ Hat). cbn [cbind]. change (13 =? 13) with true. cbv iota.
rewrite (at_pos_rd _ _ _ _ (at_pos_next _ _ _ _ Hat)). cbn [cbind].
change (true && (10 =? 10)) with true. cbv iota. f_equal. destruct p. unfold set_findidx. cbn.
f_equal. rewrite blen_nil. lia.
- apply not_elem_of_cons in Hnc as [Hc Hnc]. destruct fuel as [|fuel]; [simpl in Hf; lia|].
cbn [app] in Hat, Hlen. rewrite blen_cons, blen_app, !blen_cons in Hlen.
pose proof (blen_nonneg rest). pose proof (blen_nonneg line).
destruct (Z.ltb_spec (findidx p + 1) (msgsize p)); [|lia].
rewrite (at_pos_rd _ _ _ _ Hat). cbn [cbind].
destruct (Z.eqb_spec c 13); [congruence|]. cbn [cbind andb].
rewrite (IH fuel (set_findidx (findidx p + 1) p) rest); [|done|simpl in Hf; lia|done|].
+ f_equal. destruct p. unfold set_findidx. cbn. rewrite blen_cons. f_equal. lia.
+ cbn. by apply at_pos_next in Hat.
Qed.

Definition is_cmd (c : Z) : Prop := c = 43 \/ c = 45 \/ c = 58 \/ c = 36 \/ c = 42.

(** The parser at the start of its line. *)
Definition at_line (c : Z) (n : Z) (p : redis_parser) : redis_parser :=
set_findidx (msgidx p + 1 + n)
(set_status REDIS_UNTIL_CRLF (set_cmd c (set_msgidx (msgidx p + 1) p))).

Definition step (fuel : nat) (m : comp (Z * redis_parser)) : comp (option Z * redis_parser) :=
let! '(ret, p) := m in
if ret <? 0 then Ret (Some ret, p)
else if ret =? 2 then Ret (Some 0, p)
else continue fuel (if ret =? 1 then redis_next p else p).

Lemma loop_step fuel p : loop (S fuel) p = step fuel (redis_parser_forward malloc_ok p).
Proof. done. Qed.

Lemma loop_line c line rest fuel p :
is_cmd c -> 13 ∉ line -> status p = REDIS_GET_CMD -> msgsize p = blen (msgbuf p) ->
at_pos (msgbuf p) (msgidx p) (c :: line ++ 13 :: 10 :: rest) ->
loop (S (S fuel)) p = step fuel (redis_parse_line malloc_ok (at_line c (blen line) p)).
Proof.
intros Hc Hnc Hst Hsz Hat. pose proof (at_pos_len _ _ _ Hat) as Hlen. pose proof (proj1 Hat) as Hidx.
rewrite blen_cons, blen_app, !blen_cons in Hlen. pose proof (blen_nonneg rest). pose proof (blen_nonneg line).
rewrite loop_step. unfold redis_parser_forward. rewrite Hst.
destruct (Z.leb_spec (msgsize p) (msgidx p)); [lia|].
rewrite (at_pos_rd _ _ _ _ Hat). cbn [cbind].
assert (redis_parse_cmd c (set_msgidx (msgidx p + 1) p) = (0, at_line c 0 p)) as ->.
{ unfold redis_parse_cmd.
destruct Hc as [-> | [-> | [-> | [-> | ->]]]]; unfold at_line; cbn; by rewrite Z.add_0_r. }
cbn [step cbind]. change (0 <? 0) with false. change (0 =? 2) with false. change (0 =? 1) with false.
cbv iota. unfold continue. rewrite bool_decide_false by done.
rewrite loop_step. f_equal. unfold redis_parser_forward. cbn [status at_line set_findidx set_status].
destruct (Z.leb_spec (msgsize (at_line c 0 p)) (msgidx (at_line c 0 p))) as [Hle|_]; [cbn in Hle; lia|].
unfold redis_parse_crlf. change (msgbuf (at_line c 0 p)) with (msgbuf p).
destruct (length (msgbuf p)) as [|n] eqn:En; [unfold blen in *; lia|].
rewrite (crlf_scan line n (at_line c 0 p) rest); [|done|unfold blen in *; lia|done|].
- f_equal. unfold at_line, set_findidx. cbn. f_equal. lia.
- cbn. rewrite Z.add_0_r. by apply at_pos_next in Hat.
Qed.

(** The number of replies. *)
Fixpoint size (v : resp) : Z :=
match v with
| RArr vs => 1 + foldr (fun v n => size v + n) 0 vs
| _ => 1
end.

Definition sizes (vs : list resp) : Z := foldr (fun v n => size v + n) 0 vs.

Lemma size_pos v : 1 <= size v.
Proof.
induction v as [| | | | |vs IH] using resp_ind'; simpl; try lia.
enough (0 <= foldr (fun v n => size v + n) 0 vs) by lia. induction IH; simpl; lia.
Qed.

Lemma sizes_cons v vs : sizes (v :: vs) = size v + sizes vs.
Proof. done. Qed.

Lemma sizes_length vs : Z.of_nat (length vs) <= sizes vs.
Proof. induction vs as [|v vs IH]; simpl; [done|]. pose proof (size_pos v). unfold sizes in *. lia. Qed.

(** A value was read: [n] bytes were passed, the pending replies are [l]. *)
Record value_read (p p' : redis_parser) (n : Z) (l : list Z) : Prop := {
vr_buf : msgbuf p' = msgbuf p;
vr_size : msgsize p' = msgsize p;
vr_cap : bufsize p' = bufsize p;
vr_idx : msgidx p' = msgidx p + n;
vr_list : read_list p' = l;
vr_left : nleft p' = 1 + Z.of_nat (length l);
vr_allocs : allocs p <= allocs p'
}.

(** The parser in front of a value: at most [m] more replies are pending and
[n] allocations made before it is read. *)
Record before_value (p : redis_parser) (text : list Z) (m n : Z) : Prop := {
bv_status : status p = REDIS_GET_CMD;
bv_size : msgsize p = blen (msgbuf p);
bv_at : at_pos (msgbuf p) (msgidx p) text;
bv_left : nleft p = 1 + Z.of_nat (length (read_list p));
bv_bound : nleft p + m < 2 ^ 31;
bv_allocs : allocs p + n < 2 ^ 40
}.

Definition value_step (v : resp) : Prop := forall p rest,
before_value p (encode v ++ rest) (size v - 1) (3 * size v - 2) ->
heap p !! cur p = Some redis_reply_init -> cur p < allocs p ->
exists k p', (k <= length (encode v))%nat /\
(forall fuel, loop (k + fuel) p = continue fuel (redis_next p')) /\
value_read p p' (blen (encode v)) (read_list p) /\
allocs p' <= allocs p + 3 * size v - 2 /\
tree str_offset (heap p') (msgbuf p) v (cur p) (allocs p) (allocs p') /\
(forall q, q < allocs p -> q <> cur p -> heap p' !! q = heap p !! q).

Lemma update_init f p :
heap p !! cur p = Some redis_reply_init ->
update f p = Ret (set_heap (<[cur p := f redis_reply_init]> (heap p)) (allocs p) p).
Proof. intros H. unfold update, deref. by rewrite H. Qed.

(** Values that end with their line: the reply is set and the loop goes on. *)
Lemma value_step_line v c line f :
encode v = c :: line ++ CRLF -> is_cmd c -> 13 ∉ line -> size v = 1 ->
(forall p rest, at_pos (msgbuf p) (msgidx p) (c :: line ++ CRLF ++ rest) ->
 exists p1, redis_parse_line malloc_ok (at_line c (blen line) p) =
   (let! q := update (f (msgidx p + 1)) p1 in Ret (1, q)) /\
   p1 = set_msgidx (msgidx p + 1 + blen line + 2) (at_line c (blen line) p)) ->
(forall p h rest, at_pos (msgbuf p) (msgidx p) (c :: line ++ CRLF ++ rest) ->
 h !! cur p = Some (f (msgidx p + 1) redis_reply_init) ->
 tree str_offset h (msgbuf p) v (cur p) (allocs p) (allocs p)) ->
value_step v.
Proof.
intros Henc Hc Hnc Hs Hline Htree p rest [Hst Hsz Hat Hleft _ _] Hinit Hcur.
rewrite Henc in Hat. cbn [app] in Hat. rewrite <- app_assoc in Hat.
destruct (Hline p rest Hat) as (p1 & E & ->).
exists 2%nat. eexists. split; [|split; [|split; [|split; [|split]]]].
- rewrite Henc. simpl. rewrite length_app. simpl. lia.
- intros fuel. change (2 + fuel)%nat with (S (S fuel)). rewrite (loop_line c line rest) by done.
rewrite E, update_init by done. reflexivity.
- constructor; try done; cbn. rewrite Henc, blen_cons, blen_app. change (blen CRLF) with 2. lia.
- cbn. lia.
- apply (Htree p _ rest); [done|]. cbn. by rewrite lookup_insert_eq.
- intros q Hq Hne. cbn. by rewrite lookup_insert_ne.
Qed.

Lemma text_line p c line rest :
at_pos (msgbuf p) (msgidx p) (c :: line ++ rest) ->
rd_block (msgbuf p) (msgidx p + 1) (blen line) = Ret line.
Proof. intros Hat. apply at_pos_next in Hat. by apply at_pos_block in Hat. Qed.

Lemma value_step_status s : 13 ∉ s -> value_step (RStatus s).
Proof.
intros Hs. apply (value_step_line _ 43 s (fun o => redis_reply_set_status (str_offset o) (blen s)));
[done|unfold is_cmd; auto|done|done| |].
- intros p rest Hat. eexists. split; [|reflexivity]. unfold redis_parse_line. cbn -[blen].
by replace (msgidx p + 1 + blen s - (msgidx p + 1)) with (blen s) by lia.
- intros p h rest Hat Hh. eexists. split; [exact Hh|]. cbn. split; [done|]. split; [|lia].
exists (msgidx p + 1). split; [done|]. split; [done|].
eapply text_line; exact Hat.
Qed.

Lemma value_step_error s : 13 ∉ s -> value_step (RError s).
Proof.
intros Hs. apply (value_step_line _ 45 s (fun o => redis_reply_set_error (str_offset o) (blen s)));
[done|unfold is_cmd; auto|done|done| |].
- intros p rest Hat. eexists. split; [|reflexivity]. unfold redis_parse_line. cbn -[blen].
by replace (msgidx p + 1 + blen s - (msgidx p + 1)) with (blen s) by lia.
- intros p h rest Hat Hh. eexists. split; [exact Hh|]. cbn. split; [done|]. split; [|lia].
exists (msgidx p + 1). split; [done|]. split; [done|].
eapply text_line; exact Hat.
Qed.

(** The text of a number. *)
Lemma dec_text z :
- 10 ^ 20 < z < 10 ^ 20 -> (13 ∉ dec z) /\ 1 <= blen (dec z) <= 21.
Proof.
intros Hz. assert (forall d, Forall (fun c => isdigit c = true) d -> 13 ∉ d) as Hd.
{ intros d Hd Hin. rewrite Forall_forall in Hd. apply Hd in Hin. done. }
destruct (Z_lt_ge_dec z 0).
- destruct (dec_nonneg (- z)) as (d & ds & E & Hf & Hlen & _); [lia|].
assert (dec z = 45 :: d :: ds) as ->.
{ rewrite <- E. unfold dec. destruct (Z.ltb_spec z 0), (Z.ltb_spec (- z) 0); (lia || done). }
split; [|rewrite !blen_cons; pose proof (blen_nonneg ds); lia].
apply not_elem_of_cons. split; [done|]. by apply Hd.
- destruct (dec_nonneg z) as (d & ds & -> & Hf & Hlen & _); [lia|].
split; [by apply Hd|]. rewrite !blen_cons. pose proof (blen_nonneg ds). lia.
Qed.

Lemma value_step_int z : LONG_MIN <= z <= LONG_MAX -> value_step (RInt z).
Proof.
intros Hz. destruct (dec_text z) as [Hnc Hlen]; [unfold LONG_MIN, LONG_MAX in Hz; lia|].
apply (value_step_line _ 58 (dec z) (fun _ => redis_reply_set_integer z));
[done|unfold is_cmd; auto|done|done| |].
- intros p rest Hat. eexists. split; [|reflexivity]. unfold redis_parse_line. cbn -[blen dec atoll].
replace (msgidx p + 1 + blen (dec z) - (msgidx p + 1)) with (blen (dec z)) by lia.
rewrite (text_line p 58 (dec z) _ Hat).
destruct (Z.eqb_spec (blen (dec z)) 0); [lia|]. destruct (Z.ltb_spec 30 (blen (dec z))); [lia|].
cbn [orb cbind]. unfold atoll. rewrite strtol10_dec by done. reflexivity.
- intros p h rest Hat Hh. eexists. split; [exact Hh|]. cbn. split; [done|]. split; [done|lia].
Qed.

(** The length in front of strings and arrays. *)
Lemma atoi_line p c z rest :
- 2 ^ 31 <= z < 2 ^ 31 -> at_pos (msgbuf p) (msgidx p) (c :: dec z ++ CRLF ++ rest) ->
atoi (drop (Z.to_nat (msgidx p + 1)) (msgbuf p)) = Ret z.
Proof.
intros Hz Hat. apply at_pos_next in Hat as [_ ->]. unfold CRLF. cbn [app]. by apply atoi_dec.
Qed.

Lemma value_step_nil : value_step RNil.
Proof.
apply (value_step_line _ 36 (dec (-1)) (fun _ => redis_reply_set_null));
[done|unfold is_cmd; auto| |done| |].
- destruct (dec_text (-1)); [lia|done].
- intros p rest Hat. eexists. split; [|reflexivity]. unfold redis_parse_line. cbn -[blen dec atoi].
by rewrite (atoi_line p 36 (-1) rest ltac:(lia) Hat).
- intros p h rest Hat Hh. eexists. split; [exact Hh|]. cbn. split; [done|lia].
Qed.

(** The CR LF behind a string. *)
Lemma loop_crlf fuel p rest :
status p = REDIS_GET_CR -> msgsize p = blen (msgbuf p) ->
at_pos (msgbuf p) (msgidx p) (13 :: 10 :: rest) ->
loop (S (S fuel)) p =
continue fuel (redis_next (set_msgidx (msgidx p + 2) (set_status REDIS_GET_LF p))).
Proof.
intros Hst Hsz Hat. pose proof (at_pos_len _ _ _ Hat) as Hlen. rewrite !blen_cons in Hlen.
pose proof (blen_nonneg rest).
rewrite loop_step. unfold redis_parser_forward. rewrite Hst.
destruct (Z.leb_spec (msgsize p) (msgidx p)); [lia|]. rewrite (at_pos_rd _ _ _ _ Hat). cbn [cbind].
unfold redis_parse_cr. change (negb (13 =? 13)) with false. cbv iota. cbn [step cbind].
change (0 <? 0) with false. change (0 =? 2) with false. change (0 =? 1) with false. cbv iota.
unfold continue at 1. rewrite bool_decide_false by done.
rewrite loop_step. unfold redis_parser_forward. cbn [status set_status].
destruct (Z.leb_spec (msgsize (set_status REDIS_GET_LF (set_msgidx (msgidx p + 1) p)))
(msgidx (set_status REDIS_GET_LF (set_msgidx (msgidx p + 1) p)))) as [Hle|_]; [cbn in Hle; lia|].
change (rd _ _) with (rd (msgbuf p) (msgidx p + 1)).
rewrite (at_pos_rd _ _ _ _ (at_pos_next _ _ _ _ Hat)). cbn [cbind].
unfold redis_parse_lf. change (negb (10 =? 10)) with false. cbv iota. cbn [step cbind].
change (1 <? 0) with false. change (1 =? 2) with false. change (1 =? 1) with true. cbv iota.
do 2 f_equal. unfold set_msgidx, set_status. cbn. f_equal. lia.
Qed.

Lemma value_step_str s : blen s < 2 ^ 31 -> value_step (RStr s).
Proof.
intros Hs p rest [Hst Hsz Hat Hleft _ _] Hinit Hcur. pose proof (blen_nonneg s).
pose proof (proj1 Hat) as Hidx.
destruct (dec_text (blen s)) as [Hnc Hdlen]; [lia|].
cbn [encode app] in Hat. rewrite <- !app_assoc in Hat.
pose proof (at_pos_len _ _ _ Hat) as Hlen. rewrite blen_cons, !blen_app in Hlen.
change (blen CRLF) with 2 in Hlen. pose proof (blen_nonneg rest).
assert (blen (encode (RStr s)) = 1 + blen (dec (blen s)) + 2 + blen s + 2) as Henc.
{ cbn [encode]. rewrite blen_cons, !blen_app. change (blen CRLF) with 2. lia. }
assert (at_pos (msgbuf p) (msgidx p + 1 + blen (dec (blen s)) + 2) (s ++ CRLF ++ rest)) as Hat2.
{ apply at_pos_next, at_pos_app in Hat. by apply (at_pos_app _ _ CRLF) in Hat. }
set (q := set_msgidx (msgidx p + 1 + blen (dec (blen s)) + 2) (at_line 36 (blen (dec (blen s))) p)).
(* the string is set, its CR LF is left *)
assert (exists k p1, (2 <= k <= 3)%nat /\ (k = 3%nat -> 1 <= blen s) /\ (forall fuel, loop (k + S (S fuel)) p = loop (S (S fuel)) p1) /\
status p1 = REDIS_GET_CR /\ msgidx p1 = msgidx p + 1 + blen (dec (blen s)) + 2 + blen s /\
msgbuf p1 = msgbuf p /\ msgsize p1 = msgsize p /\ bufsize p1 = bufsize p /\
read_list p1 = read_list p /\ nleft p1 = nleft p /\ allocs p1 = allocs p /\
exists o, heap p1 = <[cur p := redis_reply_set_string (str_offset o) (blen s) redis_reply_init]> (heap p) /\
  rd_block (msgbuf p) o (blen s) = Ret s) as Hset.
{ assert (forall n, loop (S (S n)) p = step n (redis_parse_line malloc_ok (at_line 36 (blen (dec (blen s))) p))) as Hl.
{ intros n. apply (loop_line 36 (dec (blen s)) (s ++ CRLF ++ rest)); try done. unfold is_cmd. auto. }
unfold redis_parse_line in Hl. cbn -[blen dec atoi rd rd_block update redis_loop step q] in Hl.
rewrite (atoi_line p 36 (blen s) _ ltac:(lia) Hat) in Hl. cbn [cbind] in Hl. fold q in Hl.
destruct (Z.ltb_spec (blen s) 0); [lia|]. destruct (Z.eqb_spec (blen s) 0) as [E|E].
- destruct (dec_nonneg (blen s)) as (d & ds & Ed & Hf & _); [lia|].
  assert (rd (drop (Z.to_nat (msgidx p + 1)) (msgbuf p)) 0 = Ret d) as Hrd.
  { apply at_pos_next in Hat as [_ ->]. by rewrite Ed. }
  rewrite Hrd in Hl. cbn [cbind] in Hl. apply Forall_cons in Hf as [Hd _]. rewrite Hd in Hl. cbn [negb] in Hl.
  rewrite update_init in Hl by done. cbn [cbind] in Hl.
  exists 2%nat. eexists. split; [lia|]. split; [lia|]. split; [intros fuel; exact (Hl (S (S fuel)))|].
  cbn -[blen dec]. repeat (split; [done || lia|]). exists (msgidx p + 1). rewrite E. split; [done|].
  rewrite rd_block_in_bounds by lia. destruct s; [done|]. rewrite blen_cons in E. pose proof (blen_nonneg s). lia.
- assert (forall n, step n (Ret (0, set_status REDIS_GET_NCHAR (set_nchar (blen s) q))) =
    loop n (set_status REDIS_GET_NCHAR (set_nchar (blen s) q))) as Hn by done.
  exists 3%nat. eexists. split; [lia|]. split; [lia|]. split.
  + intros fuel. etransitivity; [exact (Hl (S (S (S fuel))))|]. rewrite Hn.
    etransitivity; [apply loop_step|]. unfold redis_parser_forward.
    cbn [status set_status]. unfold redis_parse_nchar.
    cbn -[blen dec redis_loop step update].
    destruct (Z.leb_spec (msgsize p) (msgidx p + 1 + blen (dec (blen s)) + 2)); [lia|].
    destruct (Z.leb_spec (blen s) (msgsize p - (msgidx p + 1 + blen (dec (blen s)) + 2))); [|lia].
    rewrite update_init by done. reflexivity.
  + cbn -[blen dec]. repeat (split; [done || lia|]). eexists. split; [reflexivity|].
    by apply at_pos_block in Hat2. }
destruct Hset as (k & p1 & Hk & Hk3 & Hl & Hst1 & Hidx1 & Hb1 & Hs1 & Hc1 & Hr1 & Hn1 & Ha1 & o & Hh1 & Ho).
exists (k + 2)%nat. eexists. split; [|split; [|split; [|split; [|split]]]].
- assert (Z.of_nat (length (encode (RStr s))) = blen (encode (RStr s))) by done. lia.
- intros fuel. replace (k + 2 + fuel)%nat with (k + S (S fuel))%nat by lia. rewrite Hl.
rewrite (loop_crlf fuel p1 rest); [reflexivity|done|by rewrite Hs1, Hb1|].
rewrite Hb1, Hidx1. by apply at_pos_app in Hat2.
- constructor; cbn -[blen encode]; try done; try lia; congruence.
- cbn. lia.
- eexists. cbn. rewrite Hh1, lookup_insert_eq. split; [done|]. cbn. split; [done|]. split; [|lia].
exists o. done.
- intros x Hx Hne. cbn. by rewrite Hh1, lookup_insert_ne.
Qed.

Lemma create_elements_spec k : forall h n,
n + Z.of_nat k < 2 ^ 40 ->
exists h', create_elements malloc_ok k h n = (seqZ n (Z.of_nat k), h', n + Z.of_nat k) /\
(forall q, n <= q < n + Z.of_nat k -> h' !! q = Some redis_reply_init) /\
(forall q, q < n \/ n + Z.of_nat k <= q -> h' !! q = h !! q).
Proof.
induction k as [|k IH]; intros h n Hn; cbn [create_elements].
- exists h. rewrite Z.add_0_r. split; [done|]. split; [lia|done].
- rewrite malloc_always by lia.
destruct (IH (<[n := redis_reply_init]> h) (n + 1)) as (h' & -> & H1 & H2); [lia|].
exists h'. rewrite (seqZ_cons n) by lia. rewrite Nat2Z.inj_succ. split; [|split].
+ rewrite Z.pred_succ. f_equal; lia.
+ intros q Hq. destruct (Z.eq_dec q n) as [->|]; [|apply H1; lia].
  rewrite H2 by lia. by rewrite lookup_insert_eq.
+ intros q Hq. rewrite H2 by lia. apply lookup_insert_ne. lia.
Qed.

Lemma push_elements_spec es : forall p,
allocs p + Z.of_nat (length es) < 2 ^ 40 ->
push_elements malloc_ok es p =
(0, set_cur (cur p) (reverse es ++ read_list p) (set_heap (heap p) (allocs p + Z.of_nat (length es)) p)).
Proof.
induction es as [|e es IH]; intros p Hp; cbn [push_elements].
- destruct p. unfold set_cur, set_heap. cbn. by rewrite Z.add_0_r.
- rewrite malloc_always by (simpl in Hp; lia). rewrite IH by (simpl in *; lia).
unfold set_cur, set_heap. cbn -[reverse]. rewrite reverse_cons, <- app_assoc. do 2 f_equal; lia.
Qed.

(** An array header with [n] elements. *)
Lemma array_line n p rest :
0 <= n <= REDIS_ARRAY_SIZE_LIMIT -> status p = REDIS_GET_CMD -> msgsize p = blen (msgbuf p) ->
at_pos (msgbuf p) (msgidx p) (42 :: dec n ++ CRLF ++ rest) ->
redis_parse_line malloc_ok (at_line 42 (blen (dec n)) p) =
redis_parse_array malloc_ok n
  (set_msgidx (msgidx p + 1 + blen (dec n) + 2) (at_line 42 (blen (dec n)) p)).
Proof.
unfold REDIS_ARRAY_SIZE_LIMIT. intros Hn Hst Hsz Hat. unfold redis_parse_line. cbn -[blen dec atoi rd redis_parse_array].
rewrite (atoi_line p 42 n rest ltac:(lia) Hat). cbn [cbind].
destruct (dec_nonneg n) as (d & ds & Ed & Hf & _); [lia|]. apply Forall_cons in Hf as [Hd _].
assert (rd (drop (Z.to_nat (msgidx p + 1)) (msgbuf p)) 0 = Ret d) as ->.
{ apply at_pos_next in Hat as [_ ->]. by rewrite Ed. }
cbn [cbind]. rewrite Hd, andb_false_r. unfold REDIS_ARRAY_SIZE_LIMIT.
destruct (Z.ltb_spec n 0); [lia|]. destruct (Z.ltb_spec (4 * 1024 * 1024) n); [lia|done].
Qed.

Lemma parse_array_spec n p :
0 <= n -> allocs p + 2 * n + 1 < 2 ^ 40 -> nleft p + n < 2 ^ 31 -> 1 <= nleft p ->
heap p !! cur p = Some redis_reply_init -> cur p < allocs p ->
exists h p', redis_parse_array malloc_ok n p = Ret (if n =? 0 then 1 else 0, p') /\
let es := seqZ (allocs p + 1) n in
h = heap p' /\ h !! cur p = Some (mkReply REDIS_REPLY_TYPE_ARRAY 0 0 str_null es) /\
Forall (fun q => h !! q = Some redis_reply_init) es /\
(forall q, q < allocs p -> q <> cur p -> h !! q = heap p !! q) /\
msgbuf p' = msgbuf p /\ msgsize p' = msgsize p /\ bufsize p' = bufsize p /\ msgidx p' = msgidx p /\
allocs p' = allocs p + 1 + n + Z.max 0 (n - 1) /\ nleft p' = nleft p + n - (if n =? 0 then 0 else 1) /\
(if n =? 0 then read_list p' = read_list p
 else status p' = REDIS_GET_CMD /\ es = cur p' :: tail es /\ read_list p' = tail es ++ read_list p).
Proof.
intros Hn Ha Hl Hl1 Hinit Hcur. unfold redis_parse_array, redis_reply_set_array, redis_create_array.
cbn [heap allocs set_nleft cur]. rewrite malloc_always by lia.
destruct (create_elements_spec (Z.to_nat n) (heap p) (allocs p + 1)) as (h & -> & H1 & H2); [lia|].
rewrite Z2Nat.id in * by lia. rewrite length_seqZ, Z2Nat.id, Z.eqb_refl by lia.
cbn [redis_reply_deinit]. unfold deref at 1. rewrite H2, Hinit by lia. cbn [cbind].
unfold deref at 1. cbn [element redis_reply_init cbind deinit_elements]. rewrite H2, Hinit by lia. cbn [cbind].
change (0 <? 0) with false. cbv iota.
rewrite i32_small by lia.
assert (Forall (fun q => <[cur p := mkReply REDIS_REPLY_TYPE_ARRAY 0 0 str_null (seqZ (allocs p + 1) n)]> h !! q =
Some redis_reply_init) (seqZ (allocs p + 1) n)) as Hf.
{ apply Forall_forall. intros q Hq%elem_of_seqZ. rewrite lookup_insert_ne by lia. apply H1. lia. }
assert (forall q, q < allocs p -> q <> cur p ->
<[cur p := mkReply REDIS_REPLY_TYPE_ARRAY 0 0 str_null (seqZ (allocs p + 1) n)]> h !! q = heap p !! q) as Hfr.
{ intros q Hq Hne. rewrite lookup_insert_ne by done. apply H2. lia. }
destruct (Z.eqb_spec n 0) as [->|Hne].
- eexists _, _. split; [reflexivity|]. cbv zeta. cbn -[Z.max]. split; [reflexivity|].
rewrite lookup_insert_eq. repeat (split; [done || lia|]). done.
- cbn [nleft set_heap heap cur allocs set_nleft]. rewrite i32_small by lia.
unfold deref. rewrite lookup_insert_eq. cbn [cbind element].
rewrite push_elements_spec by (cbn; rewrite length_reverse, seqZ_cons by lia; cbn [tail]; rewrite length_seqZ; lia).
change (0 <? 0) with false. cbv iota.
rewrite (seqZ_cons (allocs p + 1) n) in * by lia. cbn [tail].
eexists _, _. split; [reflexivity|]. cbv zeta. cbn -[Z.max reverse]. split; [reflexivity|].
rewrite lookup_insert_eq, length_reverse, reverse_involutive, length_seqZ.
split; [done|]. split; [done|]. split; [done|]. repeat (split; [done || lia|]). done.
Qed.

(** The elements of an array: one after the other, the current reply first,
then those on the list. *)
Lemma values_step vs : Forall value_step vs -> vs <> [] ->
forall p es l rest,
before_value p (concat (map encode vs) ++ rest)
(sizes vs - Z.of_nat (length vs)) (3 * sizes vs - 2 * Z.of_nat (length vs)) ->
read_list p = es ++ l -> length vs = S (length es) ->
NoDup (cur p :: es) -> Forall (fun q => q < allocs p) (cur p :: es) ->
Forall (fun q => heap p !! q = Some redis_reply_init) (cur p :: es) ->
exists k p', (k <= length (concat (map encode vs)))%nat /\
(forall fuel, loop (k + fuel) p = continue fuel (redis_next p')) /\
value_read p p' (blen (concat (map encode vs))) l /\
allocs p' <= allocs p + 3 * sizes vs - 2 * Z.of_nat (length vs) /\
trees str_offset (heap p') (msgbuf p) vs (cur p :: es) (allocs p) (allocs p') /\
(forall q, q < allocs p -> q ∉ cur p :: es -> heap p' !! q = heap p !! q).
Proof.
induction 1 as [|v vs Hv Hvs IH]; [done|]. intros _ p es l rest Hbv Hrl Hlen Hnd Hlt Hinit.
apply NoDup_cons in Hnd as [Hni Hnd]. apply Forall_cons in Hlt as [Hltc Hlt].
apply Forall_cons in Hinit as [Hic Hinit].
pose proof (sizes_length vs) as Hszl. pose proof (size_pos v) as Hszv.
destruct Hbv as [Hst Hsz Hat Hleft Hbound Hal]. rewrite sizes_cons in Hbound, Hal. cbn [length] in Hbound, Hal.
cbn [map concat] in Hat. rewrite <- app_assoc in Hat.
destruct (Hv p (concat (map encode vs) ++ rest)) as (k & p1 & Hk & Hl & Hvr & Ha & Ht & Hf);
[constructor; (done || lia)|done|done|].
destruct vs as [|v2 vs].
- destruct es as [|? es]; [|simpl in Hlen; lia].
exists k, p1. rewrite sizes_cons. cbn [map concat length]. rewrite app_nil_r. split; [done|]. split; [done|].
rewrite Hrl in Hvr. split; [done|]. split; [lia|]. split.
+ cbn [trees]. exists (allocs p1). split; [done|lia].
+ intros q Hq Hne. apply Hf; [done|]. intros ->. apply Hne, list_elem_of_here.
- destruct es as [|e es]; [simpl in Hlen; lia|].
destruct Hvr as [Hb1 Hs1 Hc1 Hi1 Hr1 Hn1 Ha1]. rewrite Hrl in Hr1, Hn1, Hleft. cbn [app length] in Hn1, Hleft, Hbound, Hal, Hszl.
assert (forall q, q ∈ e :: es -> q < allocs p /\ q <> cur p /\ heap p1 !! q = Some redis_reply_init) as Hes.
{ intros q Hq. rewrite Forall_forall in Hlt, Hinit. specialize (Hlt q Hq). specialize (Hinit q Hq).
  assert (q <> cur p) by (intros ->; done). rewrite Hf by done. done. }
assert (redis_next p1 = set_status REDIS_GET_CMD (set_cur e (es ++ l) (set_nleft (nleft p1 - 1) p1))) as En.
{ unfold redis_next. rewrite i32_small by lia. cbn [read_list set_nleft]. rewrite Hr1. cbn [app].
  change (nleft (set_cur e (es ++ l) (set_nleft (nleft p1 - 1) p1))) with (nleft p1 - 1).
  destruct (Z.ltb_spec 0 (nleft p1 - 1)); [done|lia]. }
set (p2 := set_status REDIS_GET_CMD (set_cur e (es ++ l) (set_nleft (nleft p1 - 1) p1))) in *.
destruct (IH ltac:(done) p2 es l rest) as (k2 & p' & Hk2 & Hl2 & [Hb2 Hs2 Hc2 Hi2 Hr2 Hn2 Ha2] & Hal2 & Ht2 & Hf2).
+ constructor; cbn -[sizes].
  * done.
  * by rewrite Hs1, Hb1.
  * rewrite Hb1, Hi1. by apply at_pos_app in Hat.
  * lia.
  * lia.
  * lia.
+ done.
+ simpl in *. lia.
+ done.
+ eapply Forall_impl; [exact Hlt|]. cbn. lia.
+ apply Forall_forall. intros q Hq. apply (Hes q Hq).
+ cbn -[sizes trees] in Hb2, Hs2, Hc2, Hi2, Ha2, Hal2, Ht2, Hf2.
  pose proof (tree_bounds _ _ _ _ _ _ _ Ht).
  exists (k + k2)%nat, p'. split; [|split; [|split; [|split; [|split]]]].
  * cbn [map concat] in Hk2 |- *. rewrite !length_app in *. lia.
  * intros fuel. rewrite <- Nat.add_assoc, Hl, En. unfold continue at 1. rewrite bool_decide_false by done.
    apply Hl2.
  * constructor; try congruence; try lia.
    rewrite Hi2, Hi1. change (map encode (v :: v2 :: vs)) with (encode v :: map encode (v2 :: vs)).
    cbn [map concat]. rewrite !blen_app. lia.
  * rewrite sizes_cons. cbn [length] in *. lia.
  * cbn [trees]. exists (allocs p1). split.
    -- apply (tree_frame _ (heap p1)); [done|lia|]. intros q Hq. apply Hf2; [lia|].
       intros Hin. destruct (Hes q Hin) as (? & ? & _). lia.
    -- by rewrite Hb1 in Ht2.
  * intros q Hq Hne. apply not_elem_of_cons in Hne as [Hne1 Hne2].
    rewrite Hf2 by (done || lia). by apply Hf.
Qed.

Lemma value_step_array vs :
Z.of_nat (length vs) <= REDIS_ARRAY_SIZE_LIMIT -> Forall value_step vs -> value_step (RArr vs).
Proof.
intros Hlim Hvs p rest [Hst Hsz Hat Hleft Hbound Hal] Hinit Hcur.
set (n := Z.of_nat (length vs)) in *. pose proof (sizes_length vs) as Hszl.
change (size (RArr vs)) with (1 + sizes vs) in *.
destruct (dec_text n) as [Hnc Hdlen]; [unfold n, REDIS_ARRAY_SIZE_LIMIT in *; lia|].
cbn [encode app] in Hat. fold n in Hat. rewrite <- !app_assoc in Hat.
set (q := set_msgidx (msgidx p + 1 + blen (dec n) + 2) (at_line 42 (blen (dec n)) p)).
assert (blen (encode (RArr vs)) = 1 + blen (dec n) + 2 + blen (concat (map encode vs))) as Henc.
{ cbn [encode]. rewrite blen_cons, !blen_app. change (blen CRLF) with 2. fold n. lia. }
assert (at_pos (msgbuf p) (msgidx p + 1 + blen (dec n) + 2) (concat (map encode vs) ++ rest)) as Hat2.
{ apply at_pos_next, at_pos_app in Hat. by apply (at_pos_app _ _ CRLF) in Hat. }
assert (forall fuel, loop (S (S fuel)) p = step fuel (redis_parse_array malloc_ok n q)) as Hl.
{ intros fuel. rewrite (loop_line 42 (dec n) (concat (map encode vs) ++ rest)) by (done || (unfold is_cmd; auto)).
rewrite (array_line n p (concat (map encode vs) ++ rest)); [done|lia|done|done|exact Hat]. }
destruct (parse_array_spec n q) as (h & p1 & E & Hp); [lia|cbn; lia|cbn; lia|cbn; lia|done|done|].
cbv zeta in Hp. destruct Hp as (-> & Hroot & Hes & Hfr & Hb1 & Hs1 & Hc1 & Hi1 & Ha1 & Hn1 & Hrest).
cbn in Hroot, Hes, Hfr, Hb1, Hs1, Hc1, Hi1, Ha1, Hn1, Hrest.
rewrite E in Hl. clear E. revert Hl Hn1 Hrest. destruct (Z.eqb_spec n 0) as [Hz|Hnz]; intros Hl Hn1 Hrest.
- destruct vs as [|? vs]; [|simpl in n; lia]. cbn [map concat] in Henc. rewrite blen_nil in Henc.
exists 2%nat, p1. split; [|split; [|split; [|split; [|split]]]].
+ cbn [encode length]. rewrite length_app. cbn. lia.
+ intros fuel. exact (Hl fuel).
+ constructor; try done; try lia; congruence || lia.
+ cbn in *. lia.
+ apply tree_array. eexists. split; [exact Hroot|]. split; [done|]. exists (allocs p + 1). cbn [element].
  rewrite Hz. split; [lia|]. split; [done|]. split; [apply NoDup_nil_2|]. change (seqZ (allocs p + 1) 0) with (@nil Z). cbn. lia.
+ done.
- destruct Hrest as (Hst1 & Hcur1 & Hrl1).
assert (Forall (fun x => allocs p + 1 <= x < allocs p + 1 + n) (seqZ (allocs p + 1) n)) as Hrange.
{ apply Forall_forall. intros x Hx%elem_of_seqZ. lia. }
rewrite Hcur1 in Hes, Hrange.
destruct (values_step vs Hvs) with (p := p1) (es := tail (seqZ (allocs p + 1) n)) (l := read_list p) (rest := rest)
  as (k & p' & Hk & Hl2 & [Hb2 Hs2 Hc2 Hi2 Hr2 Hn2 Ha2] & Hal2 & Ht2 & Hf2).
+ intros ->. done.
+ constructor.
  * done.
  * by rewrite Hs1, Hb1.
  * by rewrite Hb1, Hi1.
  * rewrite Hn1, Hrl1, length_app.
    assert (length (seqZ (allocs p + 1) n) = S (length (tail (seqZ (allocs p + 1) n)))) as Hlt by (by rewrite Hcur1 at 1).
    rewrite length_seqZ in Hlt. lia.
  * lia.
  * lia.
+ done.
+ assert (length (seqZ (allocs p + 1) n) = S (length (tail (seqZ (allocs p + 1) n)))) as Hlt by (by rewrite Hcur1 at 1).
  rewrite length_seqZ in Hlt. lia.
+ rewrite <- Hcur1. apply NoDup_seqZ.
+ eapply Forall_impl; [exact Hrange|]. cbn. lia.
+ done.
+ exists (2 + k)%nat, p'. split; [|split; [|split; [|split; [|split]]]].
  * cbn [encode length]. rewrite !length_app. cbn. unfold blen in Hdlen. lia.
  * intros fuel. etransitivity; [exact (Hl (k + fuel)%nat)|]. cbn [step cbind].
    change (0 <? 0) with false. change (0 =? 2) with false. change (0 =? 1) with false. cbv iota.
    unfold continue at 1. rewrite bool_decide_false by (by rewrite Hst1). apply Hl2.
  * constructor; try congruence; try lia.
  * lia.
  * apply tree_array. eexists. split; [rewrite Hf2; [exact Hroot|lia|]|].
    { intros Hin. rewrite Forall_forall in Hrange. apply Hrange in Hin. lia. }
    split; [done|]. cbn [element]. exists (allocs p1). rewrite Hcur1. split; [lia|]. split.
    { eapply Forall_impl; [exact Hrange|]. cbn. lia. }
    split; [rewrite <- Hcur1; apply NoDup_seqZ|]. by rewrite Hb1 in Ht2.
  * intros x Hx Hne. rewrite Hf2; [by apply Hfr|lia|].
    intros Hin. rewrite Forall_forall in Hrange. apply Hrange in Hin. lia.
Qed.

Lemma value_step_all v : resp_ok v -> value_step v.
Proof.
induction v as [s|s|z|s| |vs IH] using resp_ind'; intros Hok.
- by apply value_step_status.
- by apply value_step_error.
- by apply value_step_int.
- by apply value_step_str.
- apply value_step_nil.
- destruct Hok as [Hlim Hok]. apply value_step_array; [done|]. clear Hlim.
induction IH as [|v vs Hv _ IH]; [constructor|]. destruct Hok as [Hok1 Hok2]. constructor; auto.
Qed.
End Loop.

(** ** Completion *)

(** What completion does to a tree: the offsets become pointers, or the depth
    limit is exceeded. *)
Definition done_ok (h : gmap Z redis_reply) (buf : list Z) (left : nat) (v : resp) (p lo hi : Z) : Prop :=
  exists ret h', redis_parse_done left p h = Ret (ret, h') /\
    ret = (if (height v <=? left)%nat then 1 else -2) /\
    (ret = 1 -> tree str_buf h' buf v p lo hi) /\
    (forall q, q <> p -> ~ lo <= q < hi -> h' !! q = h !! q).

Lemma done_leaf h buf left v p lo hi :
  match v with RArr _ => False | _ => True end -> tree str_offset h buf v p lo hi ->
  done_ok h buf left v p lo hi.
Proof.
  intros Hv Ht. unfold done_ok. assert (height v = 1%nat) as -> by (by destruct v).
  destruct left as [|l]; [by exists (-2), h|].
  change (1 <=? S l)%nat with true. cbv iota.
  assert (exists h', redis_parse_done (S l) p h = Ret (1, h') /\ tree str_buf h' buf v p lo hi /\
    (forall q, q <> p -> h' !! q = h !! q)) as (h' & E & H1 & H2); [|exists 1, h'; auto].
  destruct v as [s|s|z|s| |vs]; [..|done]; destruct Ht as (r & Hr & Hty & Ht);
    cbn [redis_parse_done]; unfold deref; rewrite Hr; cbn [cbind]; rewrite Hty.
  all: try (destruct Ht as ((o & Ho & Hl & Hb) & Hle); rewrite Ho; cbn -[rd_block blen];
    eexists; split; [reflexivity|]; split; [|intros; by apply lookup_insert_ne];
    eexists; split; [apply lookup_insert_eq|]; split; [done|]; split; [by exists o|done]).
  - exists h. split; [done|]. split; [|done]. by exists r.
  - exists h. split; [done|]. split; [|done]. by exists r.
Qed.

Lemma parse_done_tree buf v : forall h left p lo hi,
  tree str_offset h buf v p lo hi -> p < lo -> done_ok h buf left v p lo hi.
Proof.
  induction v as [s|s|z|s| |vs IH] using resp_ind'; intros h left p lo hi Ht Hp; try by apply done_leaf.
  unfold done_ok. destruct left as [|l]; [by exists (-2), h|].
  apply tree_array in Ht as (r & Hr & Hty & mid & H1 & Hes & Hnd & Ht).
  cbn [redis_parse_done height]. unfold deref. rewrite Hr. cbn [cbind]. rewrite Hty.
  rewrite Z.eqb_refl.
  assert (forall es lo0 h, trees str_offset h buf vs es lo0 hi -> Forall (fun q => q < lo0) es -> NoDup es ->
    exists ret h', done_elements (redis_parse_done l) es h = Ret (ret, h') /\
      ret = (if (foldr Nat.max 0 (map height vs) <=? l)%nat then 1 else -2) /\
      (ret = 1 -> trees str_buf h' buf vs es lo0 hi) /\
      (forall q, q ∉ es -> ~ lo0 <= q < hi -> h' !! q = h !! q)) as Hel.
  { clear -IH. induction IH as [|v vs Hv _ IH]; intros [|e es] lo0 h Ht Hlt Hnd; cbn [trees] in Ht; try done.
    - exists 1, h. done.
    - destruct Ht as (mid & Hte & Ht). apply Forall_cons in Hlt as [Hlt1 Hlt]. apply NoDup_cons in Hnd as [Hni Hnd].
      pose proof (tree_bounds _ _ _ _ _ _ _ Hte) as Hb1.
      assert (Forall (fun q => q < mid) es) as Hltm by (eapply Forall_impl; [exact Hlt|cbn; lia]).
      destruct (trees_frame _ h h buf vs es mid hi Ht Hltm) as [_ Hb2]; [done|].
      destruct (Hv h l e lo0 mid Hte Hlt1) as (ret & h1 & E & Hret & Hok & Hfr).
      cbn [done_elements map foldr]. rewrite E. cbn [cbind].
      destruct (Nat.leb_spec (height v) l).
      + subst ret. change (1 <? 0) with false. cbv iota.
        destruct (IH es mid h1) as (ret2 & h2 & E2 & Hret2 & Hok2 & Hfr2); [|done|done|].
        { apply (trees_frame _ h h1); [done|done|]. intros q Hq. apply Hfr.
          - intros ->. destruct Hq; [done|lia].
          - destruct Hq as [Hq|]; [|lia]. rewrite Forall_forall in Hlt. specialize (Hlt q Hq). lia. }
        exists ret2, h2. split; [done|]. split; [|split].
        * rewrite Hret2. generalize dependent (foldr Nat.max 0%nat (map height vs)). intros m _.
          destruct (Nat.leb_spec m l), (Nat.leb_spec (Nat.max (height v) m) l); done || lia.
        * intros Hr. exists mid. split; [|by apply Hok2].
          apply (tree_frame _ h1); [by apply Hok|done|]. intros q Hq. apply Hfr2.
          -- destruct Hq as [->|Hq]; [done|]. intros Hin. rewrite Forall_forall in Hlt. specialize (Hlt q Hin). lia.
          -- destruct Hq as [->|Hq]; lia.
        * intros q Hq Hnr. apply not_elem_of_cons in Hq as [Hq1 Hq2].
          rewrite Hfr2 by (done || lia). apply Hfr; [done|lia].
      + subst ret. change (-2 <? 0) with true. cbv iota. exists (-2), h1. split; [done|]. split; [|split; [done|]].
        * destruct (Nat.leb_spec (Nat.max (height v) (foldr Nat.max 0%nat (map height vs))) l); [lia|done].
        * intros q Hq Hnr. apply not_elem_of_cons in Hq as [Hq1 Hq2]. apply Hfr; [done|lia]. }
  assert (Forall (fun q => q < mid) (element r)) as Hlt by (eapply Forall_impl; [exact Hes|cbn; lia]).
  destruct (trees_frame _ h h buf vs (element r) mid hi Ht Hlt) as [_ Hb]; [done|].
  destruct (Hel (element r) mid h Ht Hlt Hnd) as (ret & h' & E & Hret & Hok & Hfr).
  exists ret, h'. split; [done|]. split; [done|]. split.
  - intros Hr1. apply tree_array. exists r. split.
    + rewrite Hfr; [done| |lia]. intros Hin. rewrite Forall_forall in Hes. specialize (Hes p Hin). lia.
    + split; [done|]. exists mid. auto.
  - intros q Hq Hnr. apply Hfr; [|lia]. intros Hin. rewrite Forall_forall in Hes. specialize (Hes q Hin). lia.
Qed.

Lemma blen_encode v : 1 + size v <= blen (encode v).
Proof.
  induction v as [s|s|z|s| |vs IH] using resp_ind'; cbn [encode size];
    rewrite blen_cons, ?blen_app; change (blen CRLF) with 2;
    repeat match goal with |- context [blen ?x] => unless (0 <= blen x) by assumption; pose proof (blen_nonneg x) end;
    try lia.
  enough (foldr (fun v n => size v + n) 0 vs <= blen (concat (map encode vs))) by lia.
  clear -IH. induction IH as [|v vs Hv _ IH]; cbn [map concat foldr]; [done|]. rewrite blen_app. lia.
Qed.

Lemma encode_first v : exists c l, encode v = c :: l /\ is_cmd c.
Proof. unfold is_cmd. destruct v; cbn [encode]; eauto 10. Qed.

(** ** The growth of the buffer *)

(** Waiting for more bytes of a message. *)
Definition redis_waiting (p : redis_parser) : Prop :=
  status p <> REDIS_PARSE_END /\ blen (msgbuf p) = msgsize p /\
  msgsize p <= bufsize p <= Z.max REDIS_MSGBUF_INIT_SIZE (2 * msgsize p).

(** The part of [redis_parser_append_message] behind the copy, for messages
    that are no inline commands. *)
Definition redis_run (malloc_ok : Z -> bool) (size : Z) (p : redis_parser) (bak : Z)
    : comp (Z * Z * redis_parser) :=
  let! '(ret, p) := redis_loop malloc_ok (S (length (msgbuf p))) p in
  match ret with
  | Some ret => Ret (ret, size, p)
  | None =>
      let! '(ret, h) := redis_parse_done REDIS_REPLY_DEPTH_LIMIT ROOT (heap p) in
      Ret (ret, u64 (msgidx p - bak), set_heap h (allocs p) p)
  end.

(** The first byte is not that of an inline command. *)
Definition not_inline (buf : list Z) : Prop :=
  match buf with c :: _ => isalpha c = false /\ isspace c = false | [] => True end.

Lemma redis_append_waiting malloc_ok realloc_ok p buf :
  (forall n, realloc_ok n = true) ->
  redis_waiting p -> not_inline (msgbuf p ++ buf) -> msgsize p + blen buf < 2 ^ 60 ->
  exists cap, msgsize p + blen buf <= cap <= Z.max REDIS_MSGBUF_INIT_SIZE (2 * (msgsize p + blen buf)) /\
    redis_parser_append_message malloc_ok realloc_ok buf p =
      redis_run malloc_ok (blen buf)
        (set_message (msgbuf p ++ buf) (blen (msgbuf p ++ buf)) cap p) (msgsize p).
Proof.
  intros Hok (Hst & Hb & Hcap1 & Hcap2) Hni Hn. pose proof (blen_nonneg buf). pose proof (blen_nonneg (msgbuf p)).
  assert (blen (msgbuf p ++ buf) = msgsize p + blen buf) as Hl by (rewrite blen_app; lia).
  assert (rd_block (msgbuf p) 0 (msgsize p) = Ret (msgbuf p)) as Hrd
    by (rewrite <- Hb; apply rd_block_0_all).
  assert (exists cap, msgsize p + blen buf <= cap <= Z.max REDIS_MSGBUF_INIT_SIZE (2 * (msgsize p + blen buf)) /\
    (if bufsize p <? msgsize p + blen buf then
       let! new_size := double_until 64 (Z.max REDIS_MSGBUF_INIT_SIZE (2 * bufsize p)) (msgsize p + blen buf) in
       Ret (if realloc_ok new_size then Some new_size else None)
     else Ret (Some (bufsize p))) = Ret (Some cap)) as (cap & Hcap & E).
  { destruct (Z.ltb_spec (bufsize p) (msgsize p + blen buf)); [|exists (bufsize p); split; [lia|done]].
    unfold REDIS_MSGBUF_INIT_SIZE in *.
    destruct (double_until_spec 64 (Z.max 8 (2 * bufsize p)) (msgsize p + blen buf)) as (m & -> & Hm); [lia|lia| |].
    { change (2 ^ Z.of_nat 64) with (2 ^ 64). nia. }
    cbn [cbind]. rewrite Hok. exists m. split; [lia|done]. }
  exists cap. split; [done|]. unfold redis_parser_append_message. rewrite bool_decide_false by done.
  rewrite E. cbn [cbind]. rewrite Hrd. cbn [cbind]. rewrite <- Hl.
  set (q := set_message (msgbuf p ++ buf) (blen (msgbuf p ++ buf)) cap p).
  cbv zeta. change (msgsize q) with (blen (msgbuf p ++ buf)). change (msgbuf q) with (msgbuf p ++ buf).
  assert (exists first, (if 0 <? blen (msgbuf p ++ buf) then rd (msgbuf p ++ buf) 0 else Ret 0) = Ret first /\
    (0 <? blen (msgbuf p ++ buf)) && (isalpha first || isspace first) = false) as (first & -> & Hf).
  { destruct (msgbuf p ++ buf) as [|c l]; [by exists 0|]. exists c.
    destruct Hni as [-> ->]. rewrite andb_false_r. split; [|done].
    rewrite blen_cons. pose proof (blen_nonneg l). destruct (Z.ltb_spec 0 (1 + blen l)); [done|lia]. }
  cbn [cbind]. rewrite Hf. done.
Qed.

(** C6: round trip of RESP.  A parser that reads the encoding of a value, with
    whatever follows it, finishes exactly at its end; below the root reply
    stands exactly this value.  Values nested deeper than 64 levels, and only
    these, are rejected with -2. *)
Theorem redis_roundtrip (malloc_ok realloc_ok : Z -> bool) (v : resp) (rest : list Z) :
  (forall n, n < 2 ^ 40 -> malloc_ok n = true) -> (forall n, realloc_ok n = true) ->
  resp_ok v -> blen (encode v ++ rest) < 2 ^ 31 ->
  exists ret p, redis_parser_append_message malloc_ok realloc_ok (encode v ++ rest) redis_parser_init =
      Ret (ret, blen (encode v), p) /\
    ret = (if (height v <=? 64)%nat then 1 else -2) /\ parse_succ p = 1 /\ status p = REDIS_PARSE_END /\
    (ret = 1 -> exists hi, tree str_buf (heap p) (msgbuf p) v ROOT 1 hi).
Proof.
  intros Hm Hr Hok Hlen. destruct (encode_first v) as (c & l & Ec & Hc).
  pose proof (blen_encode v). pose proof (size_pos v). pose proof (blen_nonneg rest).
  assert (blen (encode v ++ rest) = blen (encode v) + blen rest) as Hl by apply blen_app.
  destruct (redis_append_waiting malloc_ok realloc_ok redis_parser_init (encode v ++ rest)) as (cap & _ & ->); [done|done| |cbn -[blen Z.pow]; lia|].
  { cbn. rewrite Ec. destruct Hc as [-> | [-> | [-> | [-> | ->]]]]; done. }
  set (p := set_message _ _ _ _).
  assert (at_pos (msgbuf p) (msgidx p) (encode v ++ rest)) as Hat by apply at_pos_0.
  destruct (value_step_all malloc_ok Hm v Hok p rest) as (k & p' & Hk & Hloop & [Hb Hs Hcap Hi Hrl Hn _] & _ & Ht & _);
    [constructor; cbn -[blen encode Z.pow]; done || lia|done|done|].
  unfold redis_run.
  assert (k <= S (length (msgbuf p)))%nat as Hkl by (cbn; rewrite length_app; lia).
  replace (S (length (msgbuf p))) with (k + (S (length (msgbuf p)) - k))%nat by lia. rewrite Hloop.
  assert (redis_next p' = set_status REDIS_PARSE_END (set_succ (set_nleft 0 p'))) as ->.
  { unfold redis_next. rewrite Hn. cbn [read_list set_nleft]. rewrite Hrl. done. }
  unfold continue. rewrite bool_decide_true by done. cbn [cbind].
  destruct (parse_done_tree (msgbuf p) v (heap p') REDIS_REPLY_DEPTH_LIMIT ROOT 1 (allocs p') Ht ltac:(done))
    as (ret & h' & E & Hret & Htree & _).
  change (heap (set_status REDIS_PARSE_END (set_succ (set_nleft 0 p')))) with (heap p'). rewrite E. cbn [cbind].
  eexists _, _. split; [do 3 f_equal|].
  - cbn -[blen encode u64]. rewrite Hi. cbn -[blen encode u64]. unfold u64. rewrite Z.mod_small by lia. lia.
  - split; [done|]. split; [done|]. split; [done|]. intros Hr1. exists (allocs p').
    cbn -[tree]. rewrite Hb. by apply Htree.
Qed.

(** [*2\r\n$1\r\nx\r\n:-7\r\n], then the start of another reply. *)
Lemma redis_roundtrip_witness :
  exists ret p, redis_parser_append_message (fun _ => true) (fun _ => true)
      (encode (RArr [RStr [120]; RInt (-7)]) ++ [43]) redis_parser_init = Ret (ret, 16, p) /\
    ret = 1 /\ parse_succ p = 1 /\ status p = REDIS_PARSE_END /\
    (ret = 1 -> exists hi, tree str_buf (heap p) (msgbuf p) (RArr [RStr [120]; RInt (-7)]) ROOT 1 hi).
Proof.
  apply (redis_roundtrip (fun _ => true) (fun _ => true) (RArr [RStr [120]; RInt (-7)]) [43]); try done.
Defined.

(** ** Lengths that are blank *)

(** a length that consists of white space makes the parser read behind the
    buffer: [atoi] skips the CR LF of its own line as white space and goes on
    until it finds something else. *)
Theorem redis_blank_length_overread (malloc_ok realloc_ok : Z -> bool) (c : Z) (ws : list Z) :
  (forall n, realloc_ok n = true) -> c = 36 \/ c = 42 ->
  Forall (fun b => isspace b = true) ws -> 13 ∉ ws -> blen ws < 2 ^ 31 ->
  redis_parser_append_message malloc_ok realloc_ok (c :: ws ++ CRLF) redis_parser_init = Oob.
Proof.
  intros Hr Hc Hws Hnc Hlen. pose proof (blen_nonneg ws).
  assert (blen (c :: ws ++ CRLF) = 3 + blen ws) as Hl.
  { rewrite blen_cons, blen_app. change (blen CRLF) with 2. lia. }
  destruct (redis_append_waiting malloc_ok realloc_ok redis_parser_init (c :: ws ++ CRLF))
    as (cap & _ & ->); [done|done| |cbn -[blen Z.pow]; lia|].
  { destruct Hc as [-> | ->]; done. }
  set (p := set_message _ _ _ _). unfold redis_run.
  assert (length (msgbuf p) = S (S (S (length ws)))) as -> by (cbn; rewrite length_app; cbn; lia).
  rewrite (loop_line malloc_ok c ws []) by
    (done || (unfold is_cmd; tauto) || (unfold CRLF; cbn -[blen]; apply at_pos_0)).
  assert (atoi (drop (Z.to_nat (msgidx p + 1)) (msgbuf p)) = Oob) as Ha.
  { change (atoi (ws ++ CRLF) = Oob). unfold atoi, strtol10.
    enough (skip_spaces (ws ++ CRLF) = Oob) as -> by done.
    clear -Hws. induction Hws as [|b ws Hb _ IH]; [done|]. cbn [app skip_spaces]. by rewrite Hb. }
  unfold redis_parse_line. cbn [cmd at_line set_findidx set_status set_cmd set_msgidx msgidx msgbuf].
  destruct Hc as [-> | ->]; cbn -[atoi blen Z.to_nat]; cbn -[atoi blen] in Ha; by rewrite Ha.
Qed.

Lemma redis_blank_length_overread_witness :
  redis_parser_append_message (fun _ => true) (fun _ => true) (36 :: [32] ++ CRLF) redis_parser_init = Oob.
Proof.
  apply redis_blank_length_overread; [done|by left|by repeat constructor| |done].
  intros H. apply elem_of_cons in H as [H|H]; [done|]. by apply elem_of_nil in H.
Defined.

(** A [$] or [*] directly followed by white space. *)
Definition blank_length (buf : list Z) : Prop :=
  exists i c d, rd buf i = Ret c /\ (c = 36 \/ c = 42) /\ rd buf (i + 1) = Ret d /\ isspace d = true.

(** A number is read when a CR stands behind its first byte. *)
Lemma atoi_ret c l : isspace c = false -> 13 ∈ l -> returns (atoi (c :: l)).
Proof.
  intros Hc Hl. unfold atoi, strtol10. cbn [skip_spaces]. rewrite Hc. cbn [cbind].
  assert (Exists (fun c => 10 <= digit_value c) l) as He.
  { apply Exists_exists. exists 13. split; [done|]. unfold digit_value, isdigit. cbn. lia. }
  assert (exists v r, strtol_digits 10 0 (if (c =? 43) || (c =? 45) then l else c :: l) = Ret (v, r)) as (v & r & ->).
  { destruct (_ || _); apply strtol_digits_ret; [done|by constructor]. }
  cbn [cbind]. apply returns_Ret.
Qed.

(** ** Invariant *)

(** The parser before [redis_next] chooses another current reply. *)
Record redis_wf0 (p : redis_parser) : Prop := {
  wf_size : msgsize p = blen (msgbuf p);
  wf_idx : 0 <= msgidx p <= msgsize p;
  wf_left : nleft p = 1 + Z.of_nat (length (read_list p));
  wf_allocs : nleft p <= allocs p < 2 ^ 31;
  wf_nodup : NoDup (read_list p);
  wf_fresh : Forall (fun q => q < allocs p /\ exists r, heap p !! q = Some r /\ element r = []) (read_list p)
}.

(** The current reply is one of those still to be read. *)
Definition cur_fresh (p : redis_parser) : Prop :=
  (cur p < allocs p /\ exists r, heap p !! cur p = Some r /\ element r = []) /\ (cur p ∉ read_list p).

(** The parser before an iteration: the replies still to be read have no
    elements yet, their number is [nleft], and the line being read starts
    behind its command byte. *)
Record redis_wf (p : redis_parser) : Prop := {
  wf_base : redis_wf0 p;
  wf_cur : cur_fresh p;
  wf_status :
    match status p with
    | REDIS_PARSE_END => False
    | REDIS_UNTIL_CRLF => msgidx p <= findidx p /\ rd (msgbuf p) (msgidx p - 1) = Ret (cmd p) /\ is_cmd (cmd p)
    | REDIS_GET_NCHAR => 1 <= nchar p
    | _ => True
    end
}.

Section Invariant.
Variable malloc_ok : Z -> bool.
Hypothesis malloc_limit : forall n, 2 ^ 31 - 1 <= n -> malloc_ok n = false.

(** The outcome of an iteration on a well-formed parser. *)
Definition forward_ok (p : redis_parser) (m : comp (Z * redis_parser)) : Prop :=
match m with
| Ret (ret, q) =>
  ret < 0 \/
  (msgbuf q = msgbuf p /\ msgsize q = msgsize p /\ bufsize q = bufsize p) /\
  ((ret = 0 /\ redis_wf q /\ msgidx p < msgidx q) \/
   (ret = 1 /\ redis_wf0 q /\ msgidx p < msgidx q) \/
   (ret = 2 /\ redis_wf q /\ msgidx p = msgidx q))
| Oob => blank_length (msgbuf p)
| NoFuel => False
end.

Lemma update_ok f p : cur_fresh p ->
exists r, update f p = Ret (set_heap (<[cur p := f r]> (heap p)) (allocs p) p) /\
heap p !! cur p = Some r /\ element r = [].
Proof. intros [[_ (r & Hr & He)] _]. exists r. unfold update, deref. by rewrite Hr. Qed.

(** Setting the current reply without elements keeps the invariant. *)
Lemma wf0_set_cur p i r :
redis_wf0 p -> cur_fresh p -> 0 <= i <= msgsize p ->
redis_wf0 (set_msgidx i (set_heap (<[cur p := r]> (heap p)) (allocs p) p)).
Proof.
intros [Hsz Hidx Hl Ha Hnd Hf] [[Hc1 Hc2] Hcn] Hi. constructor; cbn; try done.
eapply Forall_impl; [apply Forall_and; split; [exact Hf|apply Forall_forall; intros x Hx; exact Hx]|].
cbn. intros q [[H1 (x & H2 & H3)] Hin]. split; [done|]. exists x.
rewrite lookup_insert_ne; [done|]. intros E. apply Hcn. by rewrite E.
Qed.

Lemma create_elements_ok k : forall h n es h' n',
create_elements malloc_ok k h n = (es, h', n') -> length es = k ->
n' = n + Z.of_nat k /\ es = seqZ n (Z.of_nat k) /\
((0 < k)%nat -> n + Z.of_nat k <= 2 ^ 31 - 1) /\
(forall q, n <= q < n + Z.of_nat k -> h' !! q = Some redis_reply_init) /\
(forall q, q < n -> h' !! q = h !! q).
Proof.
induction k as [|k IH]; intros h n es h' n' E Hl; cbn [create_elements] in E.
- injection E as <- <- <-. rewrite Z.add_0_r. split; [done|]. split; [done|]. split; [lia|]. split; [lia|done].
- destruct (malloc_ok n) eqn:Em; [|injection E as <- <- <-; done].
destruct (create_elements malloc_ok k _ (n + 1)) as [[es1 h1] n1] eqn:E1.
injection E as <- <- <-. simpl in Hl.
destruct (IH _ _ _ _ _ E1 ltac:(lia)) as (-> & -> & Hlim & H1 & H2).
assert (n < 2 ^ 31 - 1).
{ destruct (Z_lt_ge_dec n (2 ^ 31 - 1)); [done|]. rewrite malloc_limit in Em by lia. done. }
split; [lia|]. split; [|split; [|split]].
+ rewrite (seqZ_cons n) by lia. rewrite Nat2Z.inj_succ, Z.pred_succ. done.
+ intros _. destruct k as [|k]; [lia|]. specialize (Hlim ltac:(lia)). lia.
+ intros q Hq. destruct (Z.eq_dec q n) as [->|]; [|apply H1; lia].
  rewrite H2 by lia. by rewrite lookup_insert_eq.
+ intros q Hq. rewrite H2 by lia. apply lookup_insert_ne. lia.
Qed.

Lemma push_elements_ok es : forall p ret q,
push_elements malloc_ok es p = (ret, q) ->
ret = -1 \/ ret = 0 /\
q = set_cur (cur p) (reverse es ++ read_list p) (set_heap (heap p) (allocs p + Z.of_nat (length es)) p) /\
(es <> [] -> allocs p + Z.of_nat (length es) < 2 ^ 31).
Proof.
induction es as [|e es IH]; intros p ret q E; cbn [push_elements] in E.
- injection E as <- <-. right. split; [done|]. split; [|done]. destruct p. unfold set_cur, set_heap. cbn. by rewrite Z.add_0_r.
- destruct (malloc_ok (allocs p)) eqn:Em; [|injection E as <- <-; by left].
destruct (IH _ _ _ E) as [->|(-> & -> & Hlim)]; [by left|right]. split; [done|].
assert (allocs p < 2 ^ 31 - 1).
{ destruct (Z_lt_ge_dec (allocs p) (2 ^ 31 - 1)); [done|]. rewrite malloc_limit in Em by lia. done. }
split.
+ unfold set_cur, set_heap. cbn -[reverse]. rewrite reverse_cons, <- app_assoc. f_equal; lia.
+ intros _. destruct es; [simpl in *; lia|]. specialize (Hlim ltac:(done)). cbn in *. lia.
Qed.

Lemma parse_array_ok n p :
redis_wf0 p -> cur_fresh p -> 0 <= n <= REDIS_ARRAY_SIZE_LIMIT ->
match redis_parse_array malloc_ok n p with
| Ret (ret, q) =>
  ret < 0 \/
  (msgbuf q = msgbuf p /\ msgsize q = msgsize p /\ bufsize q = bufsize p /\ msgidx q = msgidx p) /\
  ((ret = 0 /\ redis_wf q) \/ (ret = 1 /\ redis_wf0 q))
| _ => False
end.
Proof.
intros [Hsz Hidx Hl Ha Hnd Hf] [[Hc1 (r & Hr & He)] Hcn] Hn.
unfold redis_parse_array, redis_reply_set_array, redis_create_array.
cbn [heap allocs set_nleft cur].
destruct (malloc_ok (allocs p)) eqn:Em; [|cbn; left; lia].
destruct (create_elements malloc_ok (Z.to_nat n) (heap p) (allocs p + 1)) as [[es h] n'] eqn:Ec.
destruct (Z.eqb_spec (Z.of_nat (length es)) n) as [Hes|]; [|cbn; left; lia].
destruct (create_elements_ok _ _ _ _ _ _ Ec ltac:(lia)) as (-> & Ees & Hlim & H1 & H2).
rewrite Z2Nat.id in * by lia.
cbn [redis_reply_deinit]. unfold deref at 1. rewrite H2, Hr by lia. cbn [cbind]. rewrite He.
cbn [deinit_elements cbind]. unfold deref at 1. rewrite H2, Hr by lia. cbn [cbind].
change (0 <? 0) with false. cbv iota.
assert (allocs p < 2 ^ 31 - 1).
{ destruct (Z_lt_ge_dec (allocs p) (2 ^ 31 - 1)); [done|]. rewrite malloc_limit in Em by lia. done. }
set (root := mkReply REDIS_REPLY_TYPE_ARRAY (integer r) (len r) (str r) es).
assert (Forall (fun q => <[cur p := root]> h !! q = Some redis_reply_init) es) as Hnew.
{ rewrite Ees. apply Forall_forall. intros q Hq%elem_of_seqZ. rewrite lookup_insert_ne by lia. apply H1. lia. }
assert (Forall (fun q => q < allocs p /\ exists r, <[cur p := root]> h !! q = Some r /\ element r = [])
        (read_list p)) as Hold.
{ eapply Forall_impl; [apply Forall_and; split; [exact Hf|apply Forall_forall; intros x Hx; exact Hx]|].
cbn. intros q [[H3 (x & H4 & H5)] Hin]. split; [done|]. exists x.
rewrite lookup_insert_ne by (intros E; apply Hcn; by rewrite E). rewrite H2 by lia. done. }
destruct (Z.eqb_spec n 0) as [->|Hnz].
{ right. split; [done|]. right. split; [done|]. rewrite Z.add_0_r.
constructor; cbn; try done; rewrite ?i32_small by lia; try lia.
eapply Forall_impl; [exact Hold|]. cbn. intros q [? ?]. split; [lia|done]. }
specialize (Hlim ltac:(lia)).
cbn [nleft set_heap heap cur allocs set_nleft].
rewrite (i32_small (nleft p + n)), (i32_small (nleft p + n - 1)) by lia.
unfold deref. rewrite lookup_insert_eq. cbn [cbind element root].
destruct es as [|e es]; [simpl in Hes; lia|]. cbn [tail].
destruct (push_elements malloc_ok (reverse es) _) as [ret q] eqn:Ep.
destruct (push_elements_ok _ _ _ _ Ep) as [->|(-> & -> & Hlim2)]; [cbn; left; lia|].
change (0 <? 0) with false. cbv iota.
right. split; [done|]. left. split; [done|].
rewrite reverse_involutive, length_reverse in *. cbn [length] in Hes.
cbn [set_nleft set_heap allocs] in Hlim2.
assert (forall q, q ∈ e :: es -> allocs p + 1 <= q < allocs p + 1 + n) as Hrange.
{ intros q Hq. rewrite Ees in Hq. apply elem_of_seqZ in Hq. lia. }
assert (NoDup (e :: es)) as Hnde by (rewrite Ees; apply NoDup_seqZ).
apply NoDup_cons in Hnde as [Hnie Hnde]. apply Forall_cons in Hnew as [Hnewe Hnew].
assert (forall q, q ∈ read_list p -> q < allocs p) as Hlt.
{ intros q Hq. rewrite Forall_forall in Hf. by apply Hf in Hq as [? _]. }
assert (allocs p + 1 + n + Z.of_nat (length es) < 2 ^ 31) as Hal.
{ destruct es as [|e2 es2]; [cbn in Hes |- *; lia|]. apply Hlim2. by destruct (reverse (e2 :: es2)) eqn:Erev;
  [apply (f_equal length) in Erev; rewrite length_reverse in Erev|]. }
constructor.
- constructor; cbn; try done.
+ rewrite length_app. lia.
+ lia.
+ apply NoDup_app. split; [done|]. split; [|done]. intros q Hq Hq2.
  specialize (Hrange q ltac:(by apply list_elem_of_further)). specialize (Hlt q Hq2). lia.
+ apply Forall_app. split.
  * apply Forall_forall. intros q Hq. split.
    -- specialize (Hrange q ltac:(by apply list_elem_of_further)). lia.
    -- exists redis_reply_init. rewrite Forall_forall in Hnew. by rewrite (Hnew q Hq).
  * eapply Forall_impl; [exact Hold|]. cbn. intros q [? ?]. split; [lia|done].
- split; [cbn; split; [specialize (Hrange e (list_elem_of_here _ _)); lia|by exists redis_reply_init]|].
cbn. intros Hin. apply elem_of_app in Hin as [Hin|Hin]; [done|].
specialize (Hrange e (list_elem_of_here _ _)). specialize (Hlt e Hin). lia.
- done.
Qed.

Lemma wf0_set_msgidx p i : redis_wf0 p -> 0 <= i <= msgsize p -> redis_wf0 (set_msgidx i p).
Proof. intros [Hsz Hidx Hl Ha Hnd Hf] Hi. by constructor. Qed.

(** The line between [msgidx] and the CR LF at [findidx]. *)
Lemma parse_line_ok p :
redis_wf p -> status p = REDIS_UNTIL_CRLF -> rd (msgbuf p) (findidx p) = Ret 13 ->
findidx p + 1 < msgsize p -> forward_ok p (redis_parse_line malloc_ok p).
Proof.
intros Hwf Hst Hcr Hfi. pose proof Hwf as [Hwf0 Hcf Hws]. rewrite Hst in Hws. destruct Hws as (Hle & Hcmd & Hic).
pose proof Hwf0 as [Hsz Hidx _ _ _ _].
set (n2 := findidx p + 2).
(* a reply set from the line *)
assert (forall f, forward_ok p (let! q := update f (set_msgidx n2 p) in Ret (1, q))) as Hset.
{ intros f. destruct (update_ok f p Hcf) as (r & E & Hr & He).
assert (update f (set_msgidx n2 p) = Ret (set_msgidx n2 (set_heap (<[cur p := f r]> (heap p)) (allocs p) p))) as ->.
{ unfold update, deref in *. cbn. by rewrite Hr. }
cbn. right. split; [done|]. right. left. split; [done|]. split; [|unfold n2; lia].
apply wf0_set_cur; [done|done|unfold n2; lia]. }
(* the number of a length *)
assert (cmd p = 36 \/ cmd p = 42 ->
(exists z d, atoi (drop (Z.to_nat (msgidx p)) (msgbuf p)) = Ret z /\ rd (drop (Z.to_nat (msgidx p)) (msgbuf p)) 0 = Ret d) \/
atoi (drop (Z.to_nat (msgidx p)) (msgbuf p)) = Oob /\ blank_length (msgbuf p)) as Hnum.
{ intros Hc. destruct (rd_in_bounds (msgbuf p) (msgidx p)) as [d Hd]; [lia|].
assert (exists l, drop (Z.to_nat (msgidx p)) (msgbuf p) = d :: l) as [l El].
{ apply rd_Ret_inv in Hd as [Hb Hd]. exists (drop (S (Z.to_nat (msgidx p))) (msgbuf p)). by apply drop_S. }
destruct (isspace d) eqn:Es.
- destruct (atoi (drop (Z.to_nat (msgidx p)) (msgbuf p))) as [z| |] eqn:Ea.
  + left. exists z, d. rewrite El. done.
  + right. split; [done|]. exists (msgidx p - 1), (cmd p), d. rewrite Z.sub_add. auto.
  + exfalso. rewrite El in Ea. clear -Ea. unfold atoi, strtol10 in Ea.
    destruct (skip_spaces (d :: l)) as [[|c l1]| |] eqn:E1; cbn [cbind] in Ea; try discriminate.
    * destruct (strtol_digits 10 0 _) as [[]| |] eqn:E2; try discriminate.
      clear -E2. revert E2. generalize (if (c =? 43) || (c =? 45) then l1 else c :: l1), 0.
      intros l. induction l as [|x l IH]; intros z; cbn [strtol_digits]; [discriminate|].
      destruct (_ <? _); [apply IH|discriminate].
    * clear -E1. revert E1. generalize (d :: l). intros l0. induction l0 as [|x l0 IH]; cbn [skip_spaces]; [discriminate|].
      destruct (isspace x); [apply IH|discriminate].
- left. destruct (atoi_ret d l Es) as [z Ea].
  + destruct (Z.eq_dec (findidx p) (msgidx p)) as [E|E].
    { rewrite E in Hcr. rewrite Hd in Hcr. injection Hcr as ->. done. }
    apply rd_Ret_inv in Hcr as [_ Hcr]. apply (list_elem_of_lookup_2 _ (Z.to_nat (findidx p - msgidx p - 1))).
    assert (l = drop (S (Z.to_nat (msgidx p))) (msgbuf p)) as ->.
    { replace (S (Z.to_nat (msgidx p))) with (Z.to_nat (msgidx p) + 1)%nat by lia. by rewrite <- drop_drop, El. }
    rewrite lookup_drop. rewrite <- Hcr. f_equal. lia.
  + exists z, d. by rewrite El. }
unfold redis_parse_line. fold n2. change (cmd (set_msgidx n2 p)) with (cmd p).
destruct Hic as [Hic|[Hic|[Hic|[Hic|Hic]]]]; rewrite Hic; cbn [Z.eqb Pos.eqb].
- by apply Hset.
- by apply Hset.
- destruct (_ || _) eqn:Eo; [left; lia|]. rewrite rd_block_in_bounds by lia. cbn [cbind].
zify_bool.
assert (exists v, atoll (sub (msgbuf p) (msgidx p) (findidx p - msgidx p) ++ [0]) = Ret v) as [v ->].
{ unfold atoll, strtol10. set (s := sub _ _ _).
  assert (exists l, skip_spaces (s ++ [0]) = Ret (l ++ [0])) as [l ->].
  { clear. induction s as [|x s [l IH]]; [by exists []|]. cbn [app skip_spaces]. destruct (isspace x); [by exists l|by exists (x :: s)]. }
  cbn [cbind]. destruct l as [|x l]; cbn [app].
  - by eexists.
  - assert (exists v r, strtol_digits 10 0 (if (x =? 43) || (x =? 45) then l ++ [0] else x :: l ++ [0]) = Ret (v, r)) as (v & r & ->).
    { assert (Exists (fun c => 10 <= digit_value c) (l ++ [0])) by (apply Exists_app; right; constructor; unfold digit_value, isdigit; cbn; lia).
      destruct (_ || _); apply strtol_digits_ret; [done|by constructor]. }
    cbn [cbind]. by eexists. }
cbn [cbind]. by apply Hset.
- destruct Hnum as [(z & d & -> & ->)|[-> Hblank]]; [auto| |exact Hblank]. cbn [cbind].
destruct (Z.ltb_spec z 0); [by apply Hset|]. destruct (Z.eqb_spec z 0).
+ destruct (negb (isdigit d)); [left; lia|].
  destruct (update_ok (redis_reply_set_string (str_offset (msgidx p)) 0) p Hcf) as (r & E & Hr & He).
  unfold update, deref. cbn [heap cur set_msgidx]. rewrite Hr. cbn [cbind]. right. split; [done|]. left.
  split; [done|]. split; [|cbn; unfold n2; lia]. destruct Hcf as [[Hc1 _] Hcn]. constructor.
  * destruct (wf0_set_cur p n2 (redis_reply_set_string (str_offset (msgidx p)) 0 r))
      as [H1 H2 H3 H4 H5 H6]; [done|split; [|done]; eauto|unfold n2; lia|]. by constructor.
  * split; [|done]. cbn. split; [done|]. rewrite lookup_insert_eq. by eexists.
  * done.
+ right. split; [done|]. left. split; [done|]. split; [|cbn; unfold n2; lia].
  constructor; [|done|cbn; lia].
  destruct (wf0_set_msgidx p n2 Hwf0) as [H1 H2 H3 H4 H5 H6]; [unfold n2; lia|]. by constructor.
- destruct Hnum as [(z & d & -> & ->)|[-> Hblank]]; [auto| |exact Hblank]. cbn [cbind].
destruct (Z.ltb_spec z 0); [by apply Hset|].
destruct (_ && _); [left; lia|]. destruct (Z.ltb_spec REDIS_ARRAY_SIZE_LIMIT z); [left; lia|].
pose proof (parse_array_ok z (set_msgidx n2 p)) as Hpa.
destruct (redis_parse_array malloc_ok z (set_msgidx n2 p)) as [[ret q]| |]; cbn in Hpa |- *.
+ destruct Hpa as [?|((? & ? & ? & Hi) & Hr)]; [apply wf0_set_msgidx; [done|unfold n2; lia]|done|lia|by left|].
  right. split; [done|]. rewrite Hi. destruct Hr as [[-> Hr]|[-> Hr]]; [left|right; left]; unfold n2; lia || (split; [done|]; split; [done|lia]).
+ exfalso. apply Hpa; [apply wf0_set_msgidx; [done|unfold n2; lia]|done|lia].
+ apply Hpa; [apply wf0_set_msgidx; [done|unfold n2; lia]|done|lia].
Qed.

(** The scan for the end of the line. *)
Lemma parse_crlf_ok fuel : forall p,
redis_wf p -> status p = REDIS_UNTIL_CRLF -> msgsize p - findidx p <= Z.of_nat fuel ->
forward_ok p (redis_parse_crlf_loop malloc_ok fuel p).
Proof.
induction fuel as [|fuel IH]; intros p Hwf Hst Hf; pose proof Hwf as [Hwf0 Hcf Hws];
rewrite Hst in Hws; destruct Hws as (Hle & Hcmd & Hic); pose proof Hwf0 as [Hsz Hidx Hl Ha Hnd Hfr];
cbn [redis_parse_crlf_loop];
(destruct (Z.ltb_spec (findidx p + 1) (msgsize p)); [|right; split; [done|]; right; right; done]); [lia|].
destruct (rd_in_bounds (msgbuf p) (findidx p)) as [c Hc]; [lia|].
destruct (rd_in_bounds (msgbuf p) (findidx p + 1)) as [d Hd]; [lia|].
rewrite Hc, Hd. cbn [cbind]. replace (if c =? 13 then Ret d else Ret 0) with (Ret (if c =? 13 then d else 0)) by (by destruct (c =? 13)).
cbn [cbind]. destruct ((c =? 13) && _) eqn:E.
- zify_bool. subst c. by apply parse_line_ok.
- specialize (IH (set_findidx (findidx p + 1) p)).
destruct (redis_parse_crlf_loop malloc_ok fuel _) as [[ret q]| |] eqn:El; apply IH; try done; cbn; try lia;
  (constructor; [by constructor|done|cbn; rewrite Hst; split; [lia|done]]).
Qed.

Lemma forward_wf p : redis_wf p -> forward_ok p (redis_parser_forward malloc_ok p).
Proof.
intros Hwf. pose proof Hwf as [Hwf0 Hcf Hws]. pose proof Hwf0 as [Hsz Hidx Hl Ha Hnd Hfr].
unfold redis_parser_forward. destruct (Z.leb_spec (msgsize p) (msgidx p)).
{ right. split; [done|]. right. right. done. }
destruct (rd_in_bounds (msgbuf p) (msgidx p)) as [c Hc]; [lia|].
assert (redis_wf0 (set_msgidx (msgidx p + 1) p)) as Hwf1 by (apply wf0_set_msgidx; [done|lia]).
destruct Hwf1 as [H1 H2 H3 H4 H5 H6].
destruct (status p) eqn:Hst; try done; rewrite ?Hc; cbn [cbind].
- unfold redis_parse_cmd. destruct (_ || _) eqn:Ec; [|left; lia].
right. split; [done|]. left. split; [done|]. split; [|cbn; lia].
constructor; [by constructor|done|]. cbn. split; [lia|]. rewrite Z.add_simpl_r. split; [done|].
unfold is_cmd. lia.
- unfold redis_parse_cr. destruct (negb _); [left; lia|].
right. split; [done|]. left. split; [done|]. split; [|cbn; lia]. constructor; [by constructor|done|done].
- unfold redis_parse_lf. destruct (negb _); [left; lia|].
right. split; [done|]. right. left. split; [done|]. split; [|cbn; lia]. by constructor.
- apply parse_crlf_ok; [done|done|]. unfold blen in *. lia.
- unfold redis_parse_nchar. destruct (Z.leb_spec (nchar p) (msgsize p - msgidx p));
  [|right; split; [done|]; right; right; done].
destruct (update_ok (redis_reply_set_string (str_offset (msgidx p)) (nchar p)) p Hcf) as (r & -> & Hr & He).
cbn [cbind]. right. split; [done|]. left. split; [done|]. split; [|cbn; lia].
destruct (wf0_set_cur p (msgidx p + nchar p) (redis_reply_set_string (str_offset (msgidx p)) (nchar p) r))
  as [G1 G2 G3 G4 G5 G6]; [done|done|lia|]. destruct Hcf as [[Hc1 _] Hcn].
constructor; [by constructor| |done]. split; [|done]. cbn. split; [done|]. rewrite lookup_insert_eq. by eexists.
Qed.
End Invariant.

Section LoopInvariant.
Variable malloc_ok : Z -> bool.
Hypothesis malloc_limit : forall n, 2 ^ 31 - 1 <= n -> malloc_ok n = false.

Lemma next_wf q :
redis_wf0 q -> status (redis_next q) <> REDIS_PARSE_END -> redis_wf (redis_next q).
Proof.
intros [Hsz Hidx Hl Ha Hnd Hf]. unfold redis_next. rewrite i32_small by lia.
cbn [read_list set_nleft]. destruct (read_list q) as [|c l] eqn:Erl.
- cbn [length] in Hl. rewrite Hl. cbn. done.
- intros _. apply NoDup_cons in Hnd as [Hni Hnd]. apply Forall_cons in Hf as [Hc Hf]. cbn [length] in Hl.
cbn [nleft set_cur set_nleft]. destruct (Z.ltb_spec 0 (nleft q - 1)); [|lia].
constructor; [constructor|..]; cbn; try done; lia.
Qed.

(** The outcome of the loop. *)
Definition loop_ok (p : redis_parser) (m : comp (option Z * redis_parser)) : Prop :=
match m with
| Ret (ret, q) =>
  (ret = Some 0 -> msgbuf q = msgbuf p /\ msgsize q = msgsize p /\ bufsize q = bufsize p /\ redis_wf q) /\
  (ret = None -> status q = REDIS_PARSE_END)
| Oob => blank_length (msgbuf p)
| NoFuel => False
end.

Lemma loop_wf fuel : forall p,
redis_wf p -> msgsize p - msgidx p < Z.of_nat fuel -> loop_ok p (redis_loop malloc_ok fuel p).
Proof.
induction fuel as [|fuel IH]; intros p Hwf Hf; [pose proof (wf_idx _ (wf_base _ Hwf)); lia|].
cbn [redis_loop]. pose proof (forward_wf malloc_ok malloc_limit p Hwf) as Hfw.
destruct (redis_parser_forward malloc_ok p) as [[ret q]| |]; cbn in Hfw |- *; [|done..].
destruct Hfw as [Hneg|((Hb & Hs & Hc) & Hr)].
{ destruct (Z.ltb_spec ret 0); [|lia]. split; [|done]. intros [= ->]. lia. }
destruct Hr as [(-> & Hq & Hlt)|[(-> & Hq & Hlt)|(-> & Hq & Heq)]].
- change (0 <? 0) with false. change (0 =? 2) with false. change (0 =? 1) with false. cbv iota.
rewrite bool_decide_false by (intros E; pose proof (wf_status _ Hq) as Hst; by rewrite E in Hst).
specialize (IH q Hq ltac:(lia)). destruct (redis_loop malloc_ok fuel q) as [[r q']| |]; cbn in IH |- *; [|by rewrite Hb in IH|done].
by rewrite Hb, Hs, Hc in IH.
- change (1 <? 0) with false. change (1 =? 2) with false. change (1 =? 1) with true. cbv iota.
case_bool_decide as Hend; [cbn; split; [discriminate|done]|].
assert (msgbuf (redis_next q) = msgbuf q /\ msgsize (redis_next q) = msgsize q /\
  bufsize (redis_next q) = bufsize q /\ msgidx (redis_next q) = msgidx q) as (Hb' & Hs' & Hc' & Hi').
{ unfold redis_next. destruct (read_list _); destruct (0 <? _); done. }
specialize (IH (redis_next q) (next_wf q Hq Hend) ltac:(lia)).
destruct (redis_loop malloc_ok fuel (redis_next q)) as [[r q']| |]; cbn in IH |- *; [|by rewrite Hb', Hb in IH|done].
by rewrite Hb', Hs', Hc', Hb, Hs, Hc in IH.
- change (2 <? 0) with false. change (2 =? 2) with true. cbv iota. cbn. split; [done|discriminate].
Qed.
End LoopInvariant.

(** C31: the parsing loop terminates within one iteration per byte and keeps the
    invariant: while it waits for bytes, the current reply and the replies on
    the list are distinct, without elements, and [nleft] is their number.  It
    stays inside the buffer unless somewhere in the buffer a '$' or '*' is
    directly followed by white space ([blank_length]). *)
Theorem redis_loop_total (malloc_ok : Z -> bool) (p : redis_parser) :
  (forall n, 2 ^ 31 - 1 <= n -> malloc_ok n = false) -> redis_wf p ->
  match redis_loop malloc_ok (S (length (msgbuf p))) p with
  | Ret (ret, q) => (ret = Some 0 -> msgbuf q = msgbuf p /\ msgsize q = msgsize p /\ redis_wf q) /\
      (ret = None -> status q = REDIS_PARSE_END)
  | Oob => blank_length (msgbuf p)
  | NoFuel => False
  end.
Proof.
  intros Hm Hwf. pose proof (loop_wf malloc_ok Hm (S (length (msgbuf p))) p Hwf) as H.
  destruct Hwf as [[Hsz Hidx _ _ _ _] _ _]. unfold blen in Hsz.
  destruct (redis_loop malloc_ok (S (length (msgbuf p))) p) as [[ret q]| |]; cbn [loop_ok] in H; [|apply H; lia..].
  destruct H as [H1 H2]; [lia|]. split; [|done]. intros E. destruct (H1 E) as (? & ? & _ & ?). done.
Qed.

(** [*2\r\n+a\r\n$3\r\nxy]: the second element waits for its last bytes. *)
Definition pending_parser : redis_parser :=
  set_message [42; 50; 13; 10; 43; 97; 13; 10; 36; 51; 13; 10; 120; 121] 14 16 redis_parser_init.

Definition few_allocations (n : Z) : bool := n <? 1000.

Lemma redis_loop_total_witness :
  redis_wf pending_parser /\
  match redis_loop few_allocations 15 pending_parser with
  | Ret (ret, q) => (ret = Some 0 -> msgbuf q = msgbuf pending_parser /\ msgsize q = 14 /\ redis_wf q) /\
      (ret = None -> status q = REDIS_PARSE_END)
  | Oob => blank_length (msgbuf pending_parser)
  | NoFuel => False
  end.
Proof.
  assert (redis_wf pending_parser) as Hwf.
  { constructor; [constructor|..]; try (vm_compute; (done || intuition discriminate)).
    - apply NoDup_nil_2.
    - split; [split; [done|by exists redis_reply_init]|]. apply not_elem_of_nil. }
  split; [exact Hwf|].
  apply (redis_loop_total few_allocations pending_parser); [|exact Hwf].
  intros n Hn. unfold few_allocations. destruct (Z.ltb_spec n 1000); [lia|done].
Defined.

(** ** Messages in pieces *)

(** The same parser with more bytes and another capacity. *)
Definition extend (r : list Z) (cap : Z) (p : redis_parser) : redis_parser :=
  set_message (msgbuf p ++ r) (blen (msgbuf p ++ r)) cap p.

Section Extend.
Variables (malloc_ok : Z -> bool) (r : list Z) (cap : Z).
#[local] Abbreviation ext := (extend r cap).

Lemma update_ext f p q : update f p = Ret q -> update f (ext p) = Ret (ext q).
Proof.
unfold update. cbn. destruct (deref (heap p) (cur p)); cbn; [|done..]. by intros [= <-].
Qed.

Lemma set_array_ext fuel n a p ret q :
redis_reply_set_array malloc_ok fuel n a p = Ret (ret, q) ->
redis_reply_set_array malloc_ok fuel n a (ext p) = Ret (ret, ext q).
Proof.
unfold redis_reply_set_array. cbn [heap allocs extend set_message].
destruct (redis_create_array malloc_ok n (heap p) (allocs p)) as [[[es|] h] k]; [|by intros [= <- <-]].
destruct (redis_reply_deinit fuel a h); cbn [cbind]; [|done..].
destruct (deref _ a); cbn [cbind]; [|done..]. by intros [= <- <-].
Qed.

Lemma push_elements_ext es : forall p,
push_elements malloc_ok es (ext p) = ((push_elements malloc_ok es p).1, ext (push_elements malloc_ok es p).2).
Proof.
induction es as [|e es IH]; intros p; [done|]. cbn [push_elements].
change (allocs (ext p)) with (allocs p). change (heap (ext p)) with (heap p).
destruct (malloc_ok (allocs p)); [|done].
apply (IH (set_cur (cur p) (e :: read_list p) (set_heap (heap p) (allocs p + 1) p))).
Qed.

Lemma parse_array_ext n p ret q :
redis_parse_array malloc_ok n p = Ret (ret, q) ->
redis_parse_array malloc_ok n (ext p) = Ret (ret, ext q) /\ ret <> 2.
Proof.
unfold redis_parse_array. change (nleft (ext p)) with (nleft p).
set (p1 := set_nleft (i32 (nleft p + n)) p).
change (set_nleft (i32 (nleft p + n)) (ext p)) with (ext p1). change (cur (ext p1)) with (cur p1).
destruct (redis_reply_set_array malloc_ok 1 n (cur p1) p1) as [[ret1 p2]| |] eqn:E; [|done..].
rewrite (set_array_ext _ _ _ _ _ _ E). cbn [cbind].
destruct (ret1 <? 0); [by intros [= <- <-]|]. destruct (n =? 0); [by intros [= <- <-]|].
change (nleft (ext p2)) with (nleft p2). set (p3 := set_nleft (i32 (nleft p2 - 1)) p2).
change (set_nleft (i32 (nleft p2 - 1)) (ext p2)) with (ext p3).
change (deref (heap (ext p3)) (cur (ext p3))) with (deref (heap p3) (cur p3)).
destruct (deref (heap p3) (cur p3)) as [x| |]; cbn [cbind]; [|done..].
rewrite push_elements_ext. destruct (push_elements malloc_ok _ p3) as [ret2 p4]. cbn [fst snd].
destruct (ret2 <? 0); [by intros [= <- <-]|]. destruct (element x); [done|]. by intros [= <- <-].
Qed.

Lemma rd_block_ext b i n l : rd_block b i n = Ret l -> rd_block (b ++ r) i n = Ret l.
Proof.
unfold rd_block. destruct (_ && _) eqn:E; [|done]. zify_bool. pose proof (blen_nonneg r).
rewrite blen_app. destruct (Z.leb_spec 0 i), (Z.leb_spec 0 n), (Z.leb_spec (i + n) (blen b + blen r)); try lia.
intros [= <-]. cbn [andb]. f_equal. unfold sub, blen in *.
rewrite drop_app_le by lia. apply take_app_le. rewrite length_drop. lia.
Qed.

Lemma rd_ext b i c : rd b i = Ret c -> rd (b ++ r) i = Ret c.
Proof. intros H. rewrite rd_app_l; [done|]. apply rd_Ret_inv in H as [? _]. lia. Qed.

Lemma parse_line_ext p ret q :
0 <= msgidx p <= blen (msgbuf p) ->
redis_parse_line malloc_ok p = Ret (ret, q) ->
redis_parse_line malloc_ok (ext p) = Ret (ret, ext q) /\ ret <> 2.
Proof.
intros Hi. unfold redis_parse_line.
change (findidx (ext p)) with (findidx p). change (msgidx (ext p)) with (msgidx p).
change (msgbuf (ext p)) with (msgbuf p ++ r).
set (p1 := set_msgidx (findidx p + 2) p). change (set_msgidx (findidx p + 2) (ext p)) with (ext p1).
change (cmd (ext p1)) with (cmd p1).
assert (forall f, (let! q := update f p1 in Ret (1, q)) = Ret (ret, q) ->
(let! q := update f (ext p1) in Ret (1, q)) = Ret (ret, ext q) /\ ret <> 2) as Hup.
{ intros f. destruct (update f p1) as [q1| |] eqn:E; [|done..]. rewrite (update_ext _ _ _ E). cbn [cbind]. by intros [= <- <-]. }
assert (drop (Z.to_nat (msgidx p)) (msgbuf p ++ r) = drop (Z.to_nat (msgidx p)) (msgbuf p) ++ r) as ->
by (apply drop_app_le; unfold blen in Hi; lia).
set (s := drop (Z.to_nat (msgidx p)) (msgbuf p)).
destruct (cmd p1 =? 43); [apply Hup|]. destruct (cmd p1 =? 45); [apply Hup|].
destruct (cmd p1 =? 58).
{ destruct (_ || _); [by intros [= <- <-]|].
destruct (rd_block (msgbuf p) _ _) as [data| |] eqn:E; [|done..]. rewrite (rd_block_ext _ _ _ _ E). cbn [cbind].
destruct (atoll (data ++ [0])); cbn [cbind]; [|done..]. apply Hup. }
destruct (cmd p1 =? 36).
{ destruct (atoi s) as [n| |] eqn:E; [|done..]. rewrite (atoi_app _ r _ E). cbn [cbind].
destruct (n <? 0); [apply Hup|]. destruct (n =? 0); [|by intros [= <- <-]].
destruct (rd s 0) as [c| |] eqn:E2; [|done..]. rewrite (rd_ext _ _ _ E2). cbn [cbind].
destruct (negb (isdigit c)); [by intros [= <- <-]|].
destruct (update _ p1) as [q1| |] eqn:E3; [|done..]. rewrite (update_ext _ _ _ E3). cbn [cbind]. by intros [= <- <-]. }
destruct (cmd p1 =? 42); [|by intros [= <- <-]].
destruct (atoi s) as [n| |] eqn:E; [|done..]. rewrite (atoi_app _ r _ E). cbn [cbind].
destruct (n <? 0); [apply Hup|].
destruct (rd s 0) as [c| |] eqn:E2; [|done..]. rewrite (rd_ext _ _ _ E2). cbn [cbind].
destruct (_ && _); [by intros [= <- <-]|]. destruct (_ <? n); [by intros [= <- <-]|]. apply parse_array_ext.
Qed.

(** Fuel beyond the bytes left does not matter. *)
Lemma crlf_fuel f1 : forall f2 p,
msgsize p - findidx p <= Z.of_nat f1 -> msgsize p - findidx p <= Z.of_nat f2 ->
redis_parse_crlf_loop malloc_ok f1 p = redis_parse_crlf_loop malloc_ok f2 p.
Proof.
induction f1 as [|f1 IH]; intros [|f2] p H1 H2; cbn [redis_parse_crlf_loop]; try done;
destruct (Z.ltb_spec (findidx p + 1) (msgsize p)); try done; try lia.
destruct (rd (msgbuf p) (findidx p)) as [c| |]; [|done..]. cbn [cbind].
destruct (if c =? 13 then _ else _) as [d| |]; [|done..]. cbn [cbind].
destruct (_ && _); [done|]. apply IH; cbn; lia.
Qed.

(** The scan on the longer buffer, when the first one found the end of the
line and when it did not. *)
Lemma crlf_ext f1 : forall f2 p ret q,
msgsize p = blen (msgbuf p) -> 0 <= msgidx p <= blen (msgbuf p) -> 0 <= findidx p ->
msgsize p - findidx p <= Z.of_nat f1 -> blen (msgbuf p ++ r) - findidx p <= Z.of_nat f2 ->
redis_parse_crlf_loop malloc_ok f1 p = Ret (ret, q) ->
if ret =? 2 then
msgidx q = msgidx p /\ msgbuf q = msgbuf p /\ status q = status p /\ findidx p <= findidx q /\
redis_parse_crlf_loop malloc_ok f2 (ext p) = redis_parse_crlf_loop malloc_ok f2 (ext q)
else redis_parse_crlf_loop malloc_ok f2 (ext p) = Ret (ret, ext q).
Proof.
induction f1 as [|f1 IH]; intros f2 p ret q Hsz Hi Hfi H1 H2; cbn [redis_parse_crlf_loop];
(destruct (Z.ltb_spec (findidx p + 1) (msgsize p)); [|intros [= <- <-]; done]); [lia|].
pose proof (blen_nonneg r). rewrite blen_app in H2.
destruct f2 as [|f2]; [lia|].
destruct (rd (msgbuf p) (findidx p)) as [c| |] eqn:Ec; [|done..]. cbn [cbind].
destruct (if c =? 13 then rd (msgbuf p) (findidx p + 1) else Ret 0) as [d| |] eqn:Ed; [|done..]. cbn [cbind].
assert (redis_parse_crlf_loop malloc_ok (S f2) (ext p) =
if (c =? 13) && (d =? 10) then redis_parse_line malloc_ok (ext p)
else redis_parse_crlf_loop malloc_ok f2 (ext (set_findidx (findidx p + 1) p))) as Hstep.
{ cbn [redis_parse_crlf_loop]. change (findidx (ext p)) with (findidx p).
change (msgsize (ext p)) with (blen (msgbuf p ++ r)). change (msgbuf (ext p)) with (msgbuf p ++ r).
rewrite blen_app. destruct (Z.ltb_spec (findidx p + 1) (blen (msgbuf p) + blen r)); [|lia].
rewrite (rd_ext _ _ _ Ec). cbn [cbind].
destruct (c =? 13); [rewrite (rd_ext _ _ _ Ed)|injection Ed as <-]; done. }
destruct ((c =? 13) && (d =? 10)).
- intros Hline. apply parse_line_ext in Hline as [Hline Hne]; [|done].
destruct (Z.eqb_spec ret 2); [done|]. by rewrite Hstep.
- intros Hl. specialize (IH f2 (set_findidx (findidx p + 1) p) ret q).
cbn [msgsize msgbuf msgidx findidx set_findidx status] in IH.
specialize (IH Hsz Hi ltac:(lia) ltac:(lia) ltac:(rewrite blen_app; lia) Hl).
destruct (ret =? 2); [|by rewrite Hstep].
destruct IH as (G1 & G2 & G3 & G4 & G5). split; [done|]. split; [done|]. split; [done|]. split; [lia|].
rewrite Hstep, G5. apply crlf_fuel; cbn; rewrite G2, blen_app; lia.
Qed.

Lemma forward_ext p ret q :
redis_wf p -> redis_parser_forward malloc_ok p = Ret (ret, q) ->
if ret =? 2 then redis_parser_forward malloc_ok (ext p) = redis_parser_forward malloc_ok (ext q)
else redis_parser_forward malloc_ok (ext p) = Ret (ret, ext q).
Proof.
intros [[Hsz Hidx _ _ _ _] _ Hst]. pose proof (blen_nonneg r).
unfold redis_parser_forward at 1. destruct (Z.leb_spec (msgsize p) (msgidx p)); [by intros [= <- <-]|].
assert (redis_parser_forward malloc_ok (ext p) =
let next (parse : Z -> redis_parser -> Z * redis_parser) :=
  let! ch := rd (msgbuf p) (msgidx p) in Ret (parse ch (ext (set_msgidx (msgidx p + 1) p))) in
match status p with
| REDIS_GET_CMD => next redis_parse_cmd
| REDIS_GET_CR => next redis_parse_cr
| REDIS_GET_LF => next redis_parse_lf
| REDIS_UNTIL_CRLF => redis_parse_crlf malloc_ok (ext p)
| REDIS_GET_NCHAR => redis_parse_nchar (ext p)
| REDIS_PARSE_END => Ret (-2, ext p)
end) as Hext.
{ unfold redis_parser_forward. change (msgsize (ext p)) with (blen (msgbuf p ++ r)).
change (msgidx (ext p)) with (msgidx p). change (status (ext p)) with (status p).
change (msgbuf (ext p)) with (msgbuf p ++ r). rewrite blen_app.
destruct (Z.leb_spec (blen (msgbuf p) + blen r) (msgidx p)); [lia|].
by rewrite rd_app_l by lia. }
rewrite Hext. cbv zeta. destruct (status p) eqn:Es.
1-3: destruct (rd (msgbuf p) (msgidx p)) as [ch| |]; [|done..]; cbn [cbind].
- unfold redis_parse_cmd. destruct (_ || _); intros [= <- <-]; done.
- unfold redis_parse_cr. destruct (negb _); intros [= <- <-]; done.
- unfold redis_parse_lf. destruct (negb _); intros [= <- <-]; done.
- destruct Hst as (Hle & _ & _). unfold redis_parse_crlf. change (msgbuf (ext p)) with (msgbuf p ++ r). intros Hl.
pose proof (crlf_ext (length (msgbuf p)) (length (msgbuf p ++ r)) p ret q Hsz ltac:(lia) ltac:(lia)
  ltac:(unfold blen in *; lia) ltac:(unfold blen in *; lia) Hl) as H1.
destruct (ret =? 2); [|done]. destruct H1 as (G1 & G2 & G3 & G4 & G5). rewrite G5.
unfold redis_parser_forward. change (msgsize (ext q)) with (blen (msgbuf q ++ r)).
change (msgidx (ext q)) with (msgidx q). change (status (ext q)) with (status q). rewrite G1, G2, G3, Es, blen_app.
destruct (Z.leb_spec (blen (msgbuf p) + blen r) (msgidx p)); [lia|].
unfold redis_parse_crlf. change (msgbuf (ext q)) with (msgbuf q ++ r). by rewrite G2.
- unfold redis_parse_nchar. change (nchar (ext p)) with (nchar p). change (msgidx (ext p)) with (msgidx p).
change (msgsize (ext p)) with (blen (msgbuf p ++ r)). rewrite blen_app.
destruct (Z.leb_spec (nchar p) (msgsize p - msgidx p)).
+ destruct (update _ p) as [q1| |] eqn:E; [|done..]. rewrite (update_ext _ _ _ E). cbn [cbind]. intros [= <- <-].
  destruct (Z.leb_spec (nchar p) (blen (msgbuf p) + blen r - msgidx p)); [done|lia].
+ intros [= <- <-]. change (2 =? 2) with true. cbv iota.
  rewrite Hext. cbv zeta. unfold redis_parse_nchar.
  change (nchar (ext p)) with (nchar p). change (msgidx (ext p)) with (msgidx p).
  change (msgsize (ext p)) with (blen (msgbuf p ++ r)). by rewrite blen_app.
- done.
Qed.
End Extend.

(** The capacity of the buffer is not looked at. *)
Definition set_cap (c : Z) (p : redis_parser) : redis_parser :=
  set_message (msgbuf p) (msgsize p) c p.

Lemma set_cap_extend c p : msgsize p = blen (msgbuf p) -> set_cap c p = extend [] c p.
Proof. intros H. unfold set_cap, extend. by rewrite app_nil_r, H. Qed.

Section Split.
Variable malloc_ok : Z -> bool.
Hypothesis malloc_limit : forall n, 2 ^ 31 - 1 <= n -> malloc_ok n = false.

Lemma crlf_cap c f : forall p ret q,
msgsize p = blen (msgbuf p) -> 0 <= msgidx p <= blen (msgbuf p) ->
redis_parse_crlf_loop malloc_ok f p = Ret (ret, q) -> msgsize q = blen (msgbuf q) ->
redis_parse_crlf_loop malloc_ok f (set_cap c p) = Ret (ret, set_cap c q).
Proof.
induction f as [|f IH]; intros p ret q Hsz Hi; cbn [redis_parse_crlf_loop];
change (findidx (set_cap c p)) with (findidx p); change (msgsize (set_cap c p)) with (msgsize p);
(destruct (Z.ltb_spec (findidx p + 1) (msgsize p)); [|by intros [= <- <-]]); [done|].
change (msgbuf (set_cap c p)) with (msgbuf p).
destruct (rd (msgbuf p) (findidx p)) as [x| |]; [|done..]. cbn [cbind].
destruct (if x =? 13 then _ else _) as [d| |]; [|done..]. cbn [cbind]. destruct (_ && _).
- intros Hl Hq. destruct (parse_line_ext malloc_ok [] c p ret q Hi Hl) as [E _].
by rewrite !set_cap_extend.
- intros Hl Hq. apply (IH (set_findidx (findidx p + 1) p)); done.
Qed.

Lemma forward_cap c p ret q :
redis_wf p -> redis_parser_forward malloc_ok p = Ret (ret, q) -> msgsize q = blen (msgbuf q) ->
redis_parser_forward malloc_ok (set_cap c p) = Ret (ret, set_cap c q).
Proof.
intros Hwf Hf Hq. pose proof Hwf as [[Hsz Hidx _ _ _ _] _ Hst].
destruct (Z.eq_dec ret 2) as [->|Hne].
- revert Hf. unfold redis_parser_forward.
change (msgsize (set_cap c p)) with (msgsize p). change (msgidx (set_cap c p)) with (msgidx p).
change (status (set_cap c p)) with (status p). change (msgbuf (set_cap c p)) with (msgbuf p).
destruct (_ <=? _); [by intros [= <-]|]. destruct (status p).
1-3: destruct (rd (msgbuf p) (msgidx p)) as [ch| |]; [|done..]; cbn [cbind].
+ unfold redis_parse_cmd. destruct (_ || _); done.
+ unfold redis_parse_cr. destruct (negb _); done.
+ unfold redis_parse_lf. destruct (negb _); done.
+ unfold redis_parse_crlf. intros Hl. apply crlf_cap; done || lia.
+ unfold redis_parse_nchar. change (nchar (set_cap c p)) with (nchar p).
  change (msgsize (set_cap c p)) with (msgsize p). change (msgidx (set_cap c p)) with (msgidx p).
  destruct (_ <=? _); [|by intros [= <-]]. destruct (update _ p); done.
+ done.
- pose proof (forward_ext malloc_ok [] c p ret q Hwf Hf) as H.
destruct (Z.eqb_spec ret 2); [done|]. by rewrite !set_cap_extend.
Qed.

Lemma wf_extend r cap p : redis_wf p -> redis_wf (extend r cap p).
Proof.
intros [[Hsz Hidx Hl Ha Hnd Hf] Hc Hst]. pose proof (blen_nonneg r).
constructor; [constructor|..]; try done.
- cbn. rewrite blen_app. lia.
- cbn. destruct (status p); try done. destruct Hst as (H1 & H2 & H3). split; [done|].
split; [|done]. by apply rd_ext.
Qed.

Lemma msgbuf_next q : msgbuf (redis_next q) = msgbuf q /\ msgsize (redis_next q) = msgsize q /\
bufsize (redis_next q) = bufsize q /\ msgidx (redis_next q) = msgidx q.
Proof. unfold redis_next. destruct (read_list _); destruct (0 <? _); done. Qed.

Lemma next_extend r cap q : redis_next (extend r cap q) = extend r cap (redis_next q).
Proof. unfold redis_next. cbn. destruct (read_list q); cbn; destruct (0 <? _); done. Qed.

(** One iteration of the loop on a well-formed parser. *)
Lemma loop_unfold fuel p :
redis_wf p ->
redis_loop malloc_ok (S fuel) p =
match redis_parser_forward malloc_ok p with
| Ret (ret, q) =>
    if ret <? 0 then Ret (Some ret, q)
    else if ret =? 2 then Ret (Some 0, q)
    else let q := if ret =? 1 then redis_next q else q in
         if bool_decide (status q = REDIS_PARSE_END) then Ret (None, q)
         else redis_loop malloc_ok fuel q
| Oob => Oob
| NoFuel => NoFuel
end.
Proof. intros _. cbn [redis_loop]. by destruct (redis_parser_forward malloc_ok p) as [[]| |]. Qed.

(** Where the loop goes on. *)
Lemma forward_continue p ret q :
redis_wf p -> redis_parser_forward malloc_ok p = Ret (ret, q) -> 0 <= ret -> ret <> 2 ->
let q' := if ret =? 1 then redis_next q else q in
(msgbuf q' = msgbuf p /\ msgsize q' = msgsize p /\ msgidx p < msgidx q') /\
(status q' <> REDIS_PARSE_END -> redis_wf q').
Proof.
intros Hwf Hf H1 H2. pose proof (forward_wf malloc_ok malloc_limit p Hwf) as H. rewrite Hf in H. cbn in H.
destruct H as [?|((Hb & Hs & Hc) & [(-> & Hq & Hlt)|[(-> & Hq & Hlt)|(-> & _)]])]; [lia| | |done].
- done.
- change (1 =? 1) with true. cbv zeta iota. destruct (msgbuf_next q) as (-> & -> & _ & ->).
split; [done|]. by apply next_wf.
Qed.

Lemma loop_fuel f1 : forall f2 p,
redis_wf p -> msgsize p - msgidx p < Z.of_nat f1 -> msgsize p - msgidx p < Z.of_nat f2 ->
redis_loop malloc_ok f1 p = redis_loop malloc_ok f2 p.
Proof.
induction f1 as [|f1 IH]; intros f2 p Hwf H1 H2; pose proof (wf_idx _ (wf_base _ Hwf)); [lia|].
destruct f2 as [|f2]; [lia|]. rewrite !loop_unfold by done.
destruct (redis_parser_forward malloc_ok p) as [[ret q]| |] eqn:Ef; [|done..].
destruct (Z.ltb_spec ret 0); [done|]. destruct (Z.eqb_spec ret 2); [done|].
destruct (forward_continue p ret q Hwf Ef) as [(Hb & Hs & Hi) Hwfq]; [done|done|].
cbv zeta in *. case_bool_decide; [done|]. apply IH; [by apply Hwfq|lia|lia].
Qed.

Lemma loop_mono f : forall p q,
redis_wf p -> redis_loop malloc_ok f p = Ret (Some 0, q) -> msgidx p <= msgidx q.
Proof.
induction f as [|f IH]; intros p q Hwf Hl; [done|]. rewrite loop_unfold in Hl by done.
destruct (redis_parser_forward malloc_ok p) as [[ret2 q2]| |] eqn:Ef2; [|done..].
pose proof (forward_wf malloc_ok malloc_limit p Hwf) as H. rewrite Ef2 in H. cbn in H.
destruct (Z.ltb_spec ret2 0); [injection Hl as -> ->; lia|].
destruct (Z.eqb_spec ret2 2).
- injection Hl as <-. destruct H as [|(_ & [(? & _)|[(? & _)|(_ & _ & ?)]])]; lia.
- destruct (forward_continue p ret2 q2 Hwf Ef2) as [(_ & _ & Hi2) Hwf3]; [done|done|].
cbv zeta in *. destruct (bool_decide _) eqn:Eb; [done|].
apply bool_decide_eq_false_1 in Eb. specialize (IH _ _ (Hwf3 Eb) Hl). lia.
Qed.

(** The loop on the longer buffer: either it goes on where the first one
stopped, or it does the same. *)
Lemma loop_extend r cap f : forall f2 p ret q,
redis_wf p -> msgsize p - msgidx p < Z.of_nat f -> blen (msgbuf p ++ r) - msgidx p < Z.of_nat f2 ->
redis_loop malloc_ok f p = Ret (ret, q) ->
if bool_decide (ret = Some 0)
then redis_loop malloc_ok f2 (extend r cap p) = redis_loop malloc_ok f2 (extend r cap q)
else redis_loop malloc_ok f2 (extend r cap p) = Ret (ret, extend r cap q).
Proof.
induction f as [|f IH]; intros f2 p ret q Hwf H1 H2 Hl; pose proof (wf_idx _ (wf_base _ Hwf)); [lia|].
pose proof (wf_size _ (wf_base _ Hwf)) as Hsz. pose proof (blen_nonneg r). rewrite blen_app in H2.
destruct f2 as [|f2]; [lia|].
pose proof (wf_extend r cap p Hwf) as Hwfe.
rewrite loop_unfold in Hl by done.
destruct (redis_parser_forward malloc_ok p) as [[ret1 q1]| |] eqn:Ef; [|done..].
pose proof (forward_ext malloc_ok r cap p ret1 q1 Hwf Ef) as Hext.
destruct (Z.ltb_spec ret1 0).
- injection Hl as <- <-. rewrite bool_decide_false by (intros [= ->]; lia). rewrite loop_unfold by done.
destruct (Z.eqb_spec ret1 2); [lia|]. rewrite Hext. by destruct (Z.ltb_spec ret1 0); [|lia].
- destruct (Z.eqb_spec ret1 2).
+ injection Hl as <- <-. rewrite bool_decide_true by done. cbn [redis_loop]. by rewrite Hext.
+ destruct (forward_continue p ret1 q1 Hwf Ef) as [(Hb & Hs & Hi) Hwfq]; [done|done|].
  cbv zeta in *. set (q' := if ret1 =? 1 then redis_next q1 else q1) in *.
  assert (redis_loop malloc_ok (S f2) (extend r cap p) =
    if bool_decide (status q' = REDIS_PARSE_END) then Ret (None, extend r cap q')
    else redis_loop malloc_ok f2 (extend r cap q')) as Hstep.
  { rewrite loop_unfold by done. rewrite Hext.
    destruct (Z.ltb_spec ret1 0); [lia|]. destruct (Z.eqb_spec ret1 2); [done|]. cbv zeta.
    assert ((if ret1 =? 1 then redis_next (extend r cap q1) else extend r cap q1) = extend r cap q') as ->.
    { unfold q'. destruct (ret1 =? 1); [apply next_extend|done]. }
    done. }
  destruct (bool_decide (status q' = REDIS_PARSE_END)) eqn:Eb.
  * injection Hl as <- <-. rewrite bool_decide_false by done. by rewrite Hstep.
  * apply bool_decide_eq_false_1 in Eb. specialize (Hwfq Eb).
    assert (blen (msgbuf q' ++ r) - msgidx q' < Z.of_nat f2) as Hf2 by (rewrite blen_app, Hb; lia).
    specialize (IH f2 q' ret q Hwfq ltac:(lia) Hf2 Hl).
    case_bool_decide as Hr0; [|by rewrite Hstep].
    rewrite Hstep, IH. subst ret.
    pose proof (loop_wf malloc_ok malloc_limit f q' Hwfq ltac:(lia)) as Hok. rewrite Hl in Hok. cbn in Hok.
    destruct Hok as [Hok _]. destruct (Hok eq_refl) as (Hb2 & Hs2 & _ & Hwf2).
    pose proof (wf_idx _ (wf_base _ Hwf2)).
    pose proof (loop_mono f q' q Hwfq Hl) as Hmono.
    apply loop_fuel; [by apply wf_extend| |]; cbn; rewrite blen_app, Hb2, Hb; lia.
Qed.

(** A return value that is no error. *)
Definition good (r : option Z) : Prop := match r with Some x => 0 <= x | None => True end.

Lemma loop_cap c f : forall p r q,
redis_wf p -> redis_loop malloc_ok f p = Ret (r, q) ->
exists q', redis_loop malloc_ok f (set_cap c p) = Ret (r, q') /\ (good r -> q' = set_cap c q).
Proof.
induction f as [|f IH]; intros p r q Hwf Hl; [done|]. cbn [redis_loop].
pose proof (wf_size _ (wf_base _ Hwf)) as Hsz.
rewrite loop_unfold in Hl by done.
destruct (redis_parser_forward malloc_ok p) as [[ret2 q2]| |] eqn:Ef2; [|done..].
pose proof (forward_wf malloc_ok malloc_limit p Hwf) as H. rewrite Ef2 in H. cbn in H.
destruct (Z.ltb_spec ret2 0) as [Hneg|Hpos].
- injection Hl as <- <-. pose proof (forward_ext malloc_ok [] c p ret2 q2 Hwf Ef2) as Hext.
destruct (Z.eqb_spec ret2 2); [lia|]. rewrite set_cap_extend, Hext by done. cbn [cbind].
destruct (Z.ltb_spec ret2 0); [|lia]. exists (extend [] c q2). split; [done|]. cbn. lia.
- assert (msgbuf q2 = msgbuf p /\ msgsize q2 = msgsize p) as [Hb Hs]
  by (destruct H as [?|((? & ? & _) & _)]; [lia|done]).
rewrite (forward_cap c p ret2 q2 Hwf Ef2) by congruence. cbn [cbind].
destruct (Z.ltb_spec ret2 0); [lia|]. destruct (Z.eqb_spec ret2 2) as [->|Hne].
+ injection Hl as <- <-. by eexists.
+ destruct (forward_continue p ret2 q2 Hwf Ef2) as [_ Hwf3]; [done|done|]. cbv zeta in *.
  assert ((if ret2 =? 1 then redis_next (set_cap c q2) else set_cap c q2) =
    set_cap c (if ret2 =? 1 then redis_next q2 else q2)) as ->.
  { destruct (ret2 =? 1); [|done]. unfold redis_next. cbn. destruct (read_list q2); cbn; by destruct (0 <? _). }
  change (status (set_cap c ?x)) with (status x).
  destruct (bool_decide _) eqn:Eb; [injection Hl as <- <-; by eexists|].
  apply bool_decide_eq_false_1 in Eb. by apply (IH _ _ _ (Hwf3 Eb)).
Qed.

Lemma done_elements_ret left es : forall h ret h',
(forall e h ret h', redis_parse_done left e h = Ret (ret, h') -> ret = 1 \/ ret = -2) ->
done_elements (redis_parse_done left) es h = Ret (ret, h') -> ret = 1 \/ ret = -2.
Proof.
induction es as [|e es IH]; intros h ret h' Hd; cbn [done_elements].
- intros [= <- <-]. by left.
- destruct (redis_parse_done left e h) as [[r1 h1]| |]; [|done..]. cbn [cbind].
destruct (r1 <? 0); [intros [= <- <-]; by right|]. by apply IH.
Qed.

Lemma parse_done_ret left : forall e h ret h',
redis_parse_done left e h = Ret (ret, h') -> ret = 1 \/ ret = -2.
Proof.
induction left as [|l IH]; intros e h ret h'; cbn [redis_parse_done]; [intros [= <- <-]; by right|].
destruct (deref h e) as [r| |]; [|done..]. cbn [cbind].
destruct (_ =? _); [by apply done_elements_ret|].
destruct (_ || _); [|intros [= <- <-]; by left]. destruct (str r); [done| |done]. intros [= <- <-]. by left.
Qed.

(** An append that is incomplete keeps all bytes, the invariant, and the place
where the loop stopped. *)
Lemma run_incomplete n q bak n1 p1 :
redis_wf q -> redis_run malloc_ok n q bak = Ret (0, n1, p1) ->
n1 = n /\ redis_loop malloc_ok (S (length (msgbuf q))) q = Ret (Some 0, p1).
Proof.
intros Hwf. unfold redis_run. destruct (redis_loop _ _ q) as [[[r|] q2]| |]; [..|done|done]; cbn [cbind].
- by intros [= <- <- <-].
- destruct (redis_parse_done _ _ _) as [[r h]| |] eqn:E; [|done..]. cbn [cbind].
apply parse_done_ret in E. intros [= -> <- <-]. lia.
Qed.
End Split.

(** C27: messages other than inline commands (those that begin with a letter or
    white space, [redis_split_inline_command]) may arrive in pieces.  If the
    piece [a] leaves the parser incomplete, all of it is kept and the invariant
    holds; the piece [b] after it, when its append returns, ends like the append
    of both at once: the same return value, the consumed bytes added up, and,
    unless it is an error, the same parser up to the capacity of the buffer. *)
Theorem redis_append_split (malloc_ok realloc_ok : Z -> bool) (a b : list Z)
    (p p1 p2 : redis_parser) (n1 ret n2 : Z) :
  (forall n, 2 ^ 31 - 1 <= n -> malloc_ok n = false) -> (forall n, realloc_ok n = true) ->
  redis_waiting p -> redis_wf p -> not_inline (msgbuf p ++ a ++ b) -> not_inline (msgbuf p ++ a) ->
  msgsize p + blen a + blen b < 2 ^ 59 ->
  redis_parser_append_message malloc_ok realloc_ok a p = Ret (0, n1, p1) ->
  redis_parser_append_message malloc_ok realloc_ok b p1 = Ret (ret, n2, p2) ->
  n1 = blen a /\ redis_waiting p1 /\ redis_wf p1 /\
  exists p3 cap n3, redis_parser_append_message malloc_ok realloc_ok (a ++ b) p = Ret (ret, n3, p3) /\
    u64 n3 = u64 (n1 + n2) /\ (0 <= ret -> p3 = set_cap cap p2).
Proof.
  intros Hm Hr Hw Hwf Hni Hni1 Hlen Ha Hb. pose proof (blen_nonneg a). pose proof (blen_nonneg b).
  pose proof (blen_nonneg (msgbuf p)). pose proof Hw as (Hw1 & Hw2 & Hw3).
  assert (blen (a ++ b) = blen a + blen b) as Hab by apply blen_app.
  destruct (redis_append_waiting malloc_ok realloc_ok p a Hr Hw Hni1) as (c1 & Hc1 & Ea); [lia|].
  destruct (redis_append_waiting malloc_ok realloc_ok p (a ++ b) Hr Hw Hni) as (c & _ & Eab); [lia|].
  rewrite Ea in Ha. clear Ea. fold (extend a c1 p) in Ha.
  pose proof (wf_extend a c1 p Hwf) as Hwfa.
  destruct (run_incomplete malloc_ok _ _ _ _ _ Hwfa Ha) as [-> Hla]. clear Ha. split; [done|].
  set (pa := extend a c1 p) in *.
  pose proof (wf_size _ (wf_base _ Hwfa)) as Hsza. pose proof (wf_idx _ (wf_base _ Hwfa)) as Hixa.
  assert (blen (msgbuf pa) = msgsize p + blen a) as Hla2 by (cbn; rewrite blen_app; lia).
  pose proof (loop_wf malloc_ok Hm (S (length (msgbuf pa))) pa Hwfa ltac:(unfold blen in *; lia)) as Hok.
  rewrite Hla in Hok. cbn in Hok. destruct Hok as [Hok _]. destruct (Hok eq_refl) as (Hb1 & Hs1 & Hcp1 & Hwf1). clear Hok.
  assert (msgbuf p1 = msgbuf pa) as Hb1' by exact Hb1. assert (msgsize p1 = msgsize pa) as Hs1' by exact Hs1.
  assert (redis_waiting p1) as Hwt1.
  { split; [intros E; pose proof (wf_status _ Hwf1) as Hx; by rewrite E in Hx|].
    split; [rewrite Hb1', Hs1'; by symmetry|]. rewrite Hs1', Hsza, Hla2, Hcp1. lia. }
  split; [done|]. split; [done|].
  assert (msgbuf p1 ++ b = msgbuf p ++ a ++ b) as Hcat by (rewrite Hb1'; cbn; by rewrite app_assoc).
  destruct (redis_append_waiting malloc_ok realloc_ok p1 b Hr Hwt1) as (c2 & _ & Eb); [by rewrite Hcat|lia|].
  rewrite Eb in Hb. clear Eb. fold (extend b c2 p1) in Hb.
  assert (set_message (msgbuf p ++ a ++ b) (blen (msgbuf p ++ a ++ b)) c p = extend b c pa) as Ep.
  { unfold extend, pa. cbn. by rewrite app_assoc. }
  rewrite Ep in Eab. clear Ep.
  unfold redis_run in Hb, Eab.
  change (msgbuf (extend b c2 p1)) with (msgbuf p1 ++ b) in Hb. change (msgbuf (extend b c pa)) with (msgbuf pa ++ b) in Eab.
  rewrite Hb1' in Hb.
  assert (redis_loop malloc_ok (S (length (msgbuf pa ++ b))) (extend b c pa) =
          redis_loop malloc_ok (S (length (msgbuf pa ++ b))) (extend b c p1)) as Hext.
  { pose proof (loop_extend malloc_ok Hm b c (S (length (msgbuf pa))) (S (length (msgbuf pa ++ b))) pa (Some 0) p1 Hwfa) as Hx.
    apply Hx; [unfold blen in *; lia| |exact Hla]. unfold blen in *. lia. }
  destruct (redis_loop malloc_ok (S (length (msgbuf pa ++ b))) (extend b c2 p1)) as [[r q]| |] eqn:Eq; [|done..].
  destruct (loop_cap malloc_ok Hm c _ _ _ _ (wf_extend b c2 p1 Hwf1) Eq) as (q' & Eq' & Hq').
  assert (set_cap c (extend b c2 p1) = extend b c p1) as Hcap by done. rewrite Hcap in Eq'. clear Hcap.
  rewrite Hext, Eq' in Eab. cbn [cbind] in Hb, Eab. destruct r as [r|].
  - injection Hb as <- <- <-. exists q', c, (blen (a ++ b)). split; [exact Eab|]. split; [by rewrite Hab|].
    intros Hr0. by apply Hq'.
  - specialize (Hq' I). subst q'. change (heap (set_cap c q)) with (heap q) in Eab.
    destruct (redis_parse_done REDIS_REPLY_DEPTH_LIMIT ROOT (heap q)) as [[rd h]| |]; [|done..].
    cbn [cbind] in Hb, Eab. injection Hb as <- <- <-.
    exists (set_cap c (set_heap h (allocs q) q)), c, (u64 (msgidx q - msgsize p)). split; [exact Eab|]. split; [|done].
    unfold u64. rewrite Zmod_mod. rewrite Zplus_mod_idemp_r. f_equal. rewrite Hs1', Hsza, Hla2. lia.
Qed.

(** An array, cut inside a length. *)
Lemma redis_append_split_witness :
  exists p1 p2,
    redis_parser_append_message few_allocations (fun _ => true) [42; 50; 13; 10; 43; 97; 13; 10; 36; 49] redis_parser_init =
      Ret (0, 10, p1) /\
    redis_parser_append_message few_allocations (fun _ => true) [49; 13; 10; 1; 2; 3] p1 = Ret (0, 6, p2) /\
    (10 = 10 /\ redis_waiting p1 /\ redis_wf p1 /\
     exists p3 cap n3, redis_parser_append_message few_allocations (fun _ => true)
         ([42; 50; 13; 10; 43; 97; 13; 10; 36; 49] ++ [49; 13; 10; 1; 2; 3]) redis_parser_init = Ret (0, n3, p3) /\
       u64 n3 = u64 (10 + 6) /\ (0 <= 0 -> p3 = set_cap cap p2)).
Proof.
  eexists _, _. split; [vm_compute; reflexivity|]. split; [vm_compute; reflexivity|].
  apply (redis_append_split few_allocations (fun _ => true) [42; 50; 13; 10; 43; 97; 13; 10; 36; 49] [49; 13; 10; 1; 2; 3]
           redis_parser_init); try (vm_compute; reflexivity).
  - intros n Hn. unfold few_allocations. destruct (Z.ltb_spec n 1000); [lia|done].
  - split; [done|]. split; [done|]. cbn. lia.
  - constructor; [constructor|..]; try (vm_compute; (done || intuition discriminate)).
    + apply NoDup_nil_2.
    + split; [split; [done|by exists redis_reply_init]|]. apply not_elem_of_nil.
  - done.
  - done.
Defined.

(** ** Inline commands *)

(** The words of a line: the maximal runs of bytes that are no white space. *)
Fixpoint words (w l : list Z) : list (list Z) :=
  match l with
  | [] => match w with [] => [] | _ => [w] end
  | c :: l =>
      if isspace c then match w with [] => words [] l | _ => w :: words [] l end
      else words (w ++ [c]) l
  end.

Lemma count_words_spec l : forall w,
  count_words (negb (bool_decide (w = []))) l + (if bool_decide (w = []) then 0 else 1) =
    Z.of_nat (length (words w l)).
Proof.
  induction l as [|c l IH]; intros w; cbn [count_words words].
  - destruct w; done.
  - destruct (isspace c).
    + specialize (IH []). cbn in IH. destruct w; cbn -[Z.add Z.of_nat]; lia.
    + specialize (IH (w ++ [c])). rewrite bool_decide_false in IH by (by destruct w). cbn [negb] in IH.
      case_bool_decide; cbn [negb]; lia.
Qed.

Lemma words_lf l : forall w, words w (l ++ [10]) = words w l.
Proof.
  induction l as [|x l IH]; intros w; cbn [app words]; [by destruct w|].
  destruct (isspace x); [destruct w; by rewrite IH|apply IH].
Qed.

Lemma words_length l : forall w,
  (length (words w l) <= length l + (if bool_decide (w = []) then 0 else 1))%nat.
Proof.
  induction l as [|x l IH]; intros w; cbn [words length]; [destruct w; simpl; lia|].
  destruct (isspace x).
  - specialize (IH []). rewrite bool_decide_true in IH by done. destruct w; simpl; lia.
  - specialize (IH (w ++ [x])). rewrite bool_decide_false in IH by (by destruct w). case_bool_decide; lia.
Qed.

Lemma word_end_spec l : forall n,
  exists w rest, l = w ++ rest /\ word_end l n = (n + blen w, rest) /\
    (forall w0, words w0 l = match w0 ++ w with [] => words [] rest | w1 => w1 :: words [] rest end).
Proof.
  induction l as [|c l IH]; intros n; cbn [word_end].
  - exists [], []. split; [done|]. split; [by rewrite Z.add_0_r|]. intros w0. cbn. by rewrite app_nil_r; destruct w0.
  - destruct (isspace c) eqn:Es.
    + exists [], (c :: l). split; [done|]. split; [by rewrite Z.add_0_r|]. intros w0. rewrite app_nil_r.
      cbn [words]. rewrite Es. by destruct w0.
    + destruct (IH (n + 1)) as (w & rest & -> & -> & Hw). exists (c :: w), rest. split; [done|].
      split; [rewrite blen_cons; f_equal; lia|]. intros w0. cbn [words]. rewrite Es, Hw, <- app_assoc. done.
Qed.

Lemma find_words_spec buf fuel : forall pos l,
  at_pos buf pos l -> (length l <= fuel)%nat ->
  Forall2 (fun x w => snd x = blen w /\ rd_block buf (fst x) (blen w) = Ret w)
    (find_words fuel pos l) (words [] l).
Proof.
  induction fuel as [|fuel IH]; intros pos l Hat Hf.
  - destruct l; [constructor|simpl in Hf; lia].
  - destruct l as [|c l]; [constructor|]. cbn [find_words words]. destruct (isspace c) eqn:Es.
    + apply IH; [by apply at_pos_next in Hat|simpl in Hf; lia].
    + cbn [word_end]. rewrite Es. destruct (word_end_spec l (0 + 1)) as (w & rest & -> & -> & Hw).
      rewrite Hw. cbn [app]. change (c :: w ++ rest) with ((c :: w) ++ rest) in Hat.
      assert (0 + 1 + blen w = blen (c :: w)) as -> by (rewrite blen_cons; lia).
      constructor.
      * split; [done|]. by apply at_pos_block in Hat.
      * apply IH; [by apply at_pos_app in Hat|]. simpl in Hf. rewrite length_app in Hf. lia.
Qed.

Lemma set_words_spec ws : forall es h,
  length es = length ws -> NoDup es -> Forall (fun e => h !! e = Some redis_reply_init) es ->
  exists h', set_words ws es h = Ret h' /\
    Forall2 (fun x e => h' !! e = Some (redis_reply_set_string (str_buf (fst x)) (snd x) redis_reply_init)) ws es /\
    (forall q, q ∉ es -> h' !! q = h !! q).
Proof.
  induction ws as [|[o n] ws IH]; intros [|e es] h Hl Hnd Hin; try done; cbn [set_words].
  - exists h. done.
  - apply NoDup_cons in Hnd as [Hni Hnd]. apply Forall_cons in Hin as [He Hin].
    unfold deref. rewrite He. cbn [cbind].
    destruct (IH es (<[e := redis_reply_set_string (str_buf o) n redis_reply_init]> h)) as (h' & -> & H1 & H2);
      [simpl in Hl; lia|done| |].
    { apply Forall_forall. intros q Hq. rewrite lookup_insert_ne by (by intros ->).
      rewrite Forall_forall in Hin. by apply Hin. }
    exists h'. split; [done|]. split.
    + constructor; [|done]. rewrite H2 by done. by rewrite lookup_insert_eq.
    + intros q Hq. apply not_elem_of_cons in Hq as [Hq1 Hq2]. rewrite H2 by done. by rewrite lookup_insert_ne.
Qed.

Lemma find_lf_spec l : forall fuel p rest,
  10 ∉ l -> (length l <= fuel)%nat -> msgsize p = blen (msgbuf p) ->
  at_pos (msgbuf p) (msgidx p) (l ++ 10 :: rest) ->
  find_lf fuel p = Ret (set_msgidx (msgidx p + blen l) p).
Proof.
  induction l as [|c l IH]; intros fuel p rest Hni Hf Hsz Hat; pose proof (at_pos_len _ _ _ Hat) as Hlen.
  - cbn [app] in Hat, Hlen. rewrite blen_cons in Hlen. pose proof (blen_nonneg rest). rewrite blen_nil, Z.add_0_r.
    assert (set_msgidx (msgidx p) p = p) as -> by (by destruct p).
    destruct fuel; cbn [find_lf]; (destruct (Z.ltb_spec (msgidx p) (msgsize p)); [|lia]);
      rewrite (at_pos_rd _ _ _ _ Hat); done.
  - apply not_elem_of_cons in Hni as [Hc Hni]. cbn [app] in Hat, Hlen. rewrite blen_cons, blen_app, !blen_cons in Hlen.
    pose proof (blen_nonneg rest). pose proof (blen_nonneg l).
    destruct fuel as [|fuel]; [simpl in Hf; lia|]. cbn [find_lf].
    destruct (Z.ltb_spec (msgidx p) (msgsize p)); [|lia]. rewrite (at_pos_rd _ _ _ _ Hat). cbn [cbind].
    destruct (Z.eqb_spec c 10); [congruence|].
    rewrite (IH fuel (set_msgidx (msgidx p + 1) p) rest); [|done|simpl in Hf; lia|done|by apply at_pos_next in Hat].
    f_equal. unfold set_msgidx. cbn. rewrite blen_cons. f_equal. lia.
Qed.

(** The array of the words that were found. *)
Lemma trees_words buf h n xs ws : 
  Forall2 (fun x w => snd x = blen w /\ rd_block buf (fst x) (blen w) = Ret w) xs ws ->
  forall es, Forall2 (fun x e => h !! e = Some (redis_reply_set_string (str_buf (fst x)) (snd x) redis_reply_init)) xs es ->
  trees str_buf h buf (map RStr ws) es n n.
Proof.
  induction 1 as [|[o k] w xs ws [Hk Hrd] _ IH]; intros es H3.
  - inversion H3; subst. cbn. lia.
  - apply Forall2_cons_inv_l in H3 as (e & es' & He & H3 & ->). cbn [map trees]. exists n.
    split; [|by apply IH]. eexists. split; [exact He|]. cbn in *. split; [done|]. split; [|lia].
    exists o. done.
Qed.

(** The split of a complete line, up to its LF, on a fresh parser. *)
Lemma split_inline_words (malloc_ok : Z -> bool) (p : redis_parser) (line rest : list Z) :
  (forall n, n < 2 ^ 40 -> malloc_ok n = true) -> blen line < 2 ^ 31 -> allocs p = 1 ->
  msgbuf p = line ++ 10 :: rest -> msgsize p = blen line + 1 -> heap p !! ROOT = Some redis_reply_init ->
  exists q, redis_split_inline_command malloc_ok p = Ret (if bool_decide (words [] line = []) then 0 else 1, q) /\
    msgbuf q = msgbuf p /\
    (words [] line = [] -> q = set_msgidx 0 (set_message (msgbuf p) 0 (bufsize p) p)) /\
    (words [] line <> [] -> status q = REDIS_PARSE_END /\
       exists hi, tree str_buf (heap q) (msgbuf p) (RArr (map RStr (words [] line))) ROOT 1 hi).
Proof.
  intros Hm Hlen Hal Hbuf Hsz Hroot0. pose proof (words_lf line []) as Hw10.
  assert (blen (line ++ [10]) = blen line + 1) as Hb10 by (by rewrite blen_app).
  assert (rd_block (msgbuf p) 0 (msgsize p) = Ret (line ++ [10])) as Hrd.
  { rewrite Hbuf, Hsz, <- Hb10. apply (at_pos_block _ 0 (line ++ [10]) rest). rewrite <- app_assoc. apply at_pos_0. }
  unfold redis_split_inline_command. rewrite Hrd. cbn [cbind].
  pose proof (count_words_spec (line ++ [10]) []) as Hcnt. rewrite bool_decide_true in Hcnt by done.
  cbn [negb] in Hcnt. rewrite Z.add_0_r in Hcnt. rewrite Hcnt, Hw10.
  case_bool_decide as Hnil.
  { rewrite Hnil. cbn [length Z.of_nat]. change (0 =? 0) with true. cbv iota. by eexists. }
  set (n := Z.of_nat (length (words [] line))).
  assert (1 <= n) by (unfold n; destruct (words [] line); [done|simpl; lia]).
  assert (n <= blen line) as Hn.
  { unfold n, blen. pose proof (words_length line []) as Hx. rewrite bool_decide_true in Hx by done. lia. }
  destruct (Z.eqb_spec n 0); [lia|].
  unfold redis_reply_set_array, redis_create_array. rewrite Hal, Hm by lia.
  destruct (create_elements_spec malloc_ok Hm (Z.to_nat n) (heap p) (1 + 1)) as (h & -> & Hc1 & Hc2); [lia|].
  rewrite Z2Nat.id in * by lia. rewrite length_seqZ, Z2Nat.id, Z.eqb_refl by lia.
  assert (h !! ROOT = Some redis_reply_init) as Hroot by (rewrite Hc2 by (unfold ROOT; lia); done).
  cbn [redis_reply_deinit]. unfold deref at 1. rewrite Hroot. cbn [cbind element redis_reply_init deinit_elements].
  unfold deref at 1. rewrite Hroot. cbn [cbind]. change (0 <? 0) with false. cbv iota.
  cbn [heap set_heap]. unfold deref at 1. rewrite lookup_insert_eq. cbn [cbind element].
  pose proof (find_words_spec (line ++ [10]) (length (line ++ [10])) 0 (line ++ [10]) (at_pos_0 _) (le_n _)) as Hfw.
  rewrite Hw10 in Hfw. set (xs := find_words _ _ _) in *. pose proof (Forall2_length _ _ _ Hfw) as Hfl.
  set (root := mkReply _ _ _ _ _).
  destruct (set_words_spec xs (seqZ (1 + 1) n) (<[ROOT := root]> h)) as (h' & -> & Hs1 & Hs2).
  { rewrite length_seqZ, Hfl. unfold n. lia. }
  { apply NoDup_seqZ. }
  { apply Forall_forall. intros q Hq%elem_of_seqZ. rewrite lookup_insert_ne by (unfold ROOT; lia). apply Hc1. lia. }
  cbn [cbind]. eexists. split; [reflexivity|]. split; [done|]. split; [done|]. intros _. split; [done|].
  exists (1 + 1 + n). apply tree_array. exists root. cbn [heap set_status set_heap]. split.
  { rewrite Hs2; [by rewrite lookup_insert_eq|]. intros Hq%elem_of_seqZ. unfold ROOT in Hq. lia. }
  split; [done|]. exists (1 + 1 + n). split; [lia|]. split.
  { apply Forall_forall. intros q Hq%elem_of_seqZ. lia. }
  split; [apply NoDup_seqZ|]. apply (trees_words _ _ _ xs); [|done].
  eapply Forall2_impl; [exact Hfw|]. cbn. intros x w [? Hy]. split; [done|].
  rewrite Hbuf. assert (line ++ 10 :: rest = (line ++ [10]) ++ rest) as -> by (by rewrite <- app_assoc).
  by apply rd_block_ext.
Qed.

(** an inline command is split into its words.  A line that starts with a
    letter or white space is consumed with its LF; the reply is the array of
    the maximal runs of bytes that are no white space.  A blank line is
    dropped and the parser starts afresh, but returns 0 as if it had consumed
    everything it was given. *)
Theorem redis_inline_words (malloc_ok realloc_ok : Z -> bool) (c : Z) (l rest : list Z) :
  (forall n, n < 2 ^ 40 -> malloc_ok n = true) -> (forall n, realloc_ok n = true) ->
  isalpha c || isspace c = true -> 10 ∉ c :: l -> blen (c :: l ++ 10 :: rest) < 2 ^ 31 ->
  exists p, redis_parser_append_message malloc_ok realloc_ok (c :: l ++ 10 :: rest) redis_parser_init =
      Ret (if bool_decide (words [] (c :: l) = []) then 0 else 1, blen (c :: l) + 1, p) /\
    (words [] (c :: l) = [] -> msgsize p = 0 /\ msgidx p = 0 /\ status p = REDIS_GET_CMD) /\
    (words [] (c :: l) <> [] -> status p = REDIS_PARSE_END /\
       exists hi, tree str_buf (heap p) (msgbuf p) (RArr (map RStr (words [] (c :: l)))) ROOT 1 hi).
Proof.
  intros Hm Hr Hc Hni Hlen. set (line := c :: l) in *. set (msg := c :: l ++ 10 :: rest).
  assert (blen msg = blen line + 1 + blen rest) as Hmsg.
  { change msg with (line ++ 10 :: rest). rewrite blen_app, blen_cons. lia. }
  pose proof (blen_nonneg rest). assert (1 <= blen line) by (unfold line; rewrite blen_cons; pose proof (blen_nonneg l); lia).
  fold msg in Hlen. unfold redis_parser_append_message.
  change (status redis_parser_init) with REDIS_GET_CMD. rewrite bool_decide_false by done.
  change (bufsize redis_parser_init) with 0. change (msgsize redis_parser_init) with 0.
  change (msgbuf redis_parser_init) with (@nil Z). rewrite !Z.add_0_l.
  destruct (Z.ltb_spec 0 (blen msg)); [|lia].
  destruct (double_until_spec 64 (Z.max REDIS_MSGBUF_INIT_SIZE (2 * 0)) (blen msg)) as (cap & -> & Hcap);
    [done|lia|change (Z.max REDIS_MSGBUF_INIT_SIZE (2 * 0)) with 8; change (2 ^ Z.of_nat 64) with (2 ^ 64); lia|].
  cbn [cbind]. rewrite Hr. change (rd_block [] 0 0) with (Ret (@nil Z)). cbn [cbind app].
  set (p := set_message msg (blen msg) cap redis_parser_init).
  change (msgsize p) with (blen msg). change (msgbuf p) with msg. cbv zeta.
  destruct (Z.ltb_spec 0 (blen msg)); [|lia]. change (rd msg 0) with (Ret c). cbn [cbind]. rewrite Hc. cbn [andb].
  rewrite (find_lf_spec line (length msg) p rest); [|done| |done|apply at_pos_0].
  2: { unfold blen in *. lia. }
  cbn [cbind]. change (msgsize (set_msgidx (msgidx p + blen line) p)) with (blen msg).
  change (msgidx p + blen line) with (0 + blen line). rewrite Z.add_0_l.
  change (msgidx (set_msgidx (blen line) p)) with (blen line).
  destruct (Z.eqb_spec (blen line) (blen msg)) as [|_]; [lia|]. cbn [msgbuf bufsize msgidx set_msgidx set_message].
  set (p1 := set_message msg (blen line + 1) cap (set_msgidx (blen line + 1) (set_msgidx (blen line) p))).
  change (set_message (msgbuf p) (blen line + 1) (bufsize p) _) with p1. change (msgsize p1) with (blen line + 1).
  destruct (split_inline_words malloc_ok p1 line rest) as (q & -> & Hq1 & Hq2 & Hq3); try done; [lia|].
  cbn [cbind]. exists q. split; [|split].
  - do 3 f_equal. unfold u64. rewrite Z.mod_small; lia.
  - intros Hnil. by rewrite (Hq2 Hnil).
  - intros Hne. rewrite Hq1. by apply Hq3.
Qed.

(** "PING  a" and the start of another command. *)
Lemma redis_inline_words_witness :
  exists p, redis_parser_append_message (fun _ => true) (fun _ => true)
      (80 :: [73; 78; 71; 32; 32; 97; 13] ++ 10 :: [80]) redis_parser_init = Ret (1, 9, p) /\
    (words [] (80 :: [73; 78; 71; 32; 32; 97; 13]) = [] -> msgsize p = 0 /\ msgidx p = 0 /\ status p = REDIS_GET_CMD) /\
    (words [] (80 :: [73; 78; 71; 32; 32; 97; 13]) <> [] -> status p = REDIS_PARSE_END /\
       exists hi, tree str_buf (heap p) (msgbuf p)
         (RArr (map RStr (words [] (80 :: [73; 78; 71; 32; 32; 97; 13])))) ROOT 1 hi).
Proof.
  apply (redis_inline_words (fun _ => true) (fun _ => true) 80 [73; 78; 71; 32; 32; 97; 13] [80]); try done.
  intros H. repeat (apply elem_of_cons in H as [H|H]; [done|]). by apply elem_of_nil in H.
Defined.
