(* ===== verification/Http.v ===== *)
(** * HTTP messages

    workflow/src/linux/protocol/http_parser.c: start line, header fields,
    body by Content-Length, by chunks or up to the end of the stream, the
    message buffer, and the header list with its cursors.

    The parsing functions get the bytes from their offset to the end of the
    buffer, [ptr] with [len]; a pointer that moves through them is the rest of
    the list.  Local arrays are the bytes written so far, with their bound. *)

From stdpp Require Import strings.
From S2P Require Import Cstdlib.

#[local] Open Scope Z_scope.

(** ** Data *)

Definition HTTP_START_LINE_MAX : Z := 8192.
Definition HTTP_HEADER_VALUE_MAX : Z := 8192.
Definition HTTP_CHUNK_LINE_MAX : Z := 1024.
Definition HTTP_TRAILER_LINE_MAX : Z := 8192.
Definition HTTP_MSGBUF_INIT_SIZE : Z := 2048.
Definition HTTP_HEADER_NAME_MAX : Z := 64.

(** [2 * 1024 * 1024 * 1024U - HTTP_CHUNK_LINE_MAX - 4], an [unsigned int]. *)
Definition CHUNK_SIZE_MAX : Z := u32 (2 * 1024 * 1024 * 1024 - HTTP_CHUNK_LINE_MAX - 4).

(** [(size_t)-1]. *)
Definition SIZE_MAX : Z := 2 ^ 64 - 1.

Inductive http_header_state : Type :=
| HPS_START_LINE
| HPS_HEADER_NAME
| HPS_HEADER_VALUE
| HPS_HEADER_COMPLETE.

Inductive http_chunk_state : Type :=
| CPS_CHUNK_DATA
| CPS_TRAILER_PART
| CPS_CHUNK_COMPLETE.

#[export] Instance http_header_state_eq_dec : EqDecision http_header_state.
Proof. solve_decision. Defined.

#[export] Instance http_chunk_state_eq_dec : EqDecision http_chunk_state.
Proof. solve_decision. Defined.

(** [line_buf] is the block [line->buf]. *)
Record header_line := mkLine {
  name_len : Z;
  value_len : Z;
  line_buf : list Z
}.

Record http_parser := mkHttp {
  header_state : http_header_state;
  chunk_state : http_chunk_state;
  header_offset : Z;
  chunk_offset : Z;
  content_length : Z;
  transfer_length : Z;
  version : option (list Z);
  method : option (list Z);
  uri : option (list Z);
  code : option (list Z);
  phrase : option (list Z);
  header_list : list header_line;
  namebuf : list Z;
  msgbuf : list Z;
  msgsize : Z;
  bufsize : Z;
  has_connection : bool;
  has_content_length : bool;
  has_keep_alive : bool;
  expect_continue : bool;
  keep_alive : bool;
  chunked : bool;
  complete : bool;
  is_resp : bool
}.

(** [http_parser_init] leaves the chunk state and [namebuf] as they were. *)
Definition http_parser_init (resp : bool) (cs : http_chunk_state) (co : Z) (nb : list Z) : http_parser :=
  mkHttp HPS_START_LINE cs 0 co (if resp then SIZE_MAX else 0) SIZE_MAX
    None None None None None [] nb [] 0 0 false false false false true false false resp.

Definition set_header_pos (st : http_header_state) (off : Z) (p : http_parser) : http_parser :=
  mkHttp st (chunk_state p) off (chunk_offset p) (content_length p) (transfer_length p)
    (version p) (method p) (uri p) (code p) (phrase p) (header_list p) (namebuf p)
    (msgbuf p) (msgsize p) (bufsize p) (has_connection p) (has_content_length p)
    (has_keep_alive p) (expect_continue p) (keep_alive p) (chunked p) (complete p) (is_resp p).

Definition set_chunk_pos (st : http_chunk_state) (off : Z) (p : http_parser) : http_parser :=
  mkHttp (header_state p) st (header_offset p) off (content_length p) (transfer_length p)
    (version p) (method p) (uri p) (code p) (phrase p) (header_list p) (namebuf p)
    (msgbuf p) (msgsize p) (bufsize p) (has_connection p) (has_content_length p)
    (has_keep_alive p) (expect_continue p) (keep_alive p) (chunked p) (complete p) (is_resp p).

Definition set_lengths (cl tl : Z) (p : http_parser) : http_parser :=
  mkHttp (header_state p) (chunk_state p) (header_offset p) (chunk_offset p) cl tl
    (version p) (method p) (uri p) (code p) (phrase p) (header_list p) (namebuf p)
    (msgbuf p) (msgsize p) (bufsize p) (has_connection p) (has_content_length p)
    (has_keep_alive p) (expect_continue p) (keep_alive p) (chunked p) (complete p) (is_resp p).

Definition set_start (v m u c ph : option (list Z)) (p : http_parser) : http_parser :=
  mkHttp (header_state p) (chunk_state p) (header_offset p) (chunk_offset p) (content_length p)
    (transfer_length p) v m u c ph (header_list p) (namebuf p)
    (msgbuf p) (msgsize p) (bufsize p) (has_connection p) (has_content_length p)
    (has_keep_alive p) (expect_continue p) (keep_alive p) (chunked p) (complete p) (is_resp p).

Definition set_headers (l : list header_line) (p : http_parser) : http_parser :=
  mkHttp (header_state p) (chunk_state p) (header_offset p) (chunk_offset p) (content_length p)
    (transfer_length p) (version p) (method p) (uri p) (code p) (phrase p) l (namebuf p)
    (msgbuf p) (msgsize p) (bufsize p) (has_connection p) (has_content_length p)
    (has_keep_alive p) (expect_continue p) (keep_alive p) (chunked p) (complete p) (is_resp p).

Definition set_namebuf (nb : list Z) (p : http_parser) : http_parser :=
  mkHttp (header_state p) (chunk_state p) (header_offset p) (chunk_offset p) (content_length p)
    (transfer_length p) (version p) (method p) (uri p) (code p) (phrase p) (header_list p) nb
    (msgbuf p) (msgsize p) (bufsize p) (has_connection p) (has_content_length p)
    (has_keep_alive p) (expect_continue p) (keep_alive p) (chunked p) (complete p) (is_resp p).

Definition set_message (b : list Z) (size cap : Z) (p : http_parser) : http_parser :=
  mkHttp (header_state p) (chunk_state p) (header_offset p) (chunk_offset p) (content_length p)
    (transfer_length p) (version p) (method p) (uri p) (code p) (phrase p) (header_list p) (namebuf p)
    b size cap (has_connection p) (has_content_length p)
    (has_keep_alive p) (expect_continue p) (keep_alive p) (chunked p) (complete p) (is_resp p).

Definition set_flags (conn clen ka expect keep ch : bool) (p : http_parser) : http_parser :=
  mkHttp (header_state p) (chunk_state p) (header_offset p) (chunk_offset p) (content_length p)
    (transfer_length p) (version p) (method p) (uri p) (code p) (phrase p) (header_list p) (namebuf p)
    (msgbuf p) (msgsize p) (bufsize p) conn clen ka expect keep ch (complete p) (is_resp p).

Definition set_keep_alive (keep : bool) (p : http_parser) : http_parser :=
  set_flags (has_connection p) (has_content_length p) (has_keep_alive p) (expect_continue p) keep
    (chunked p) p.

(** [parser->complete = 1], also [http_parser_close_message]. *)
Definition http_parser_close_message (p : http_parser) : http_parser :=
  mkHttp (header_state p) (chunk_state p) (header_offset p) (chunk_offset p) (content_length p)
    (transfer_length p) (version p) (method p) (uri p) (code p) (phrase p) (header_list p) (namebuf p)
    (msgbuf p) (msgsize p) (bufsize p) (has_connection p) (has_content_length p)
    (has_keep_alive p) (expect_continue p) (keep_alive p) (chunked p) true (is_resp p).

(** Bytes of a text. *)
Definition txt (s : String.string) : list Z :=
  List.map (fun c => Z.of_N (Ascii.N_of_ascii c)) (String.list_ascii_of_string s).
Arguments txt s%_string.

Section Http.
(** Whether an allocation of a size succeeds. *)
Variables malloc_ok realloc_ok : Z -> bool.

Definition strdup_ok (s : list Z) : bool := malloc_ok (blen s + 1).

(** [strlen] of the string in a block. *)
Definition strlen (l : list Z) : comp Z := if bool_decide (0 ∈ l) then Ret (blen (cstr l)) else Oob.

(** ** Header list *)

Definition sizeof_header_line : Z := 32.

Definition add_message_header (name : list Z) (nlen : Z) (value : list Z) (vlen : Z) (p : http_parser)
    : comp (Z * http_parser) :=
  if malloc_ok (sizeof_header_line + nlen + vlen + 4) then
    let! name := rd_block name 0 nlen in
    let! value := rd_block value 0 vlen in
    Ret (0, set_headers (header_list p ++ [mkLine (i32 nlen) (i32 vlen)
                           (name ++ [58; 32] ++ value ++ [13; 10])]) p)
  else Ret (-1, p).

(** The loop over the lines: [None] when no line has the name. *)
Fixpoint set_header_loop (name : list Z) (nlen : Z) (value : list Z) (vlen : Z) (lines : list header_line)
    : comp (option (Z * list header_line)) :=
  match lines with
  | [] => Ret None
  | line :: rest =>
      let! same := if u64 (name_len line) =? nlen then strncaseeq (line_buf line) name nlen else Ret false in
      if same then
        let grow := u64 (value_len line) <? vlen in
        if grow && negb (malloc_ok (nlen + vlen + 4)) then Ret (Some (-1, lines))
        else
          let! n := rd_block name 0 nlen in
          let! v := rd_block value 0 vlen in
          let buf := if grow then n ++ [58; 32] ++ repeat 0 (Z.to_nat (vlen + 2)) else line_buf line in
          let! buf := wr_block buf (nlen + 2) v in
          let! buf := wr_block buf (nlen + 2 + vlen) [13; 10] in
          Ret (Some (0, mkLine (name_len line) (i32 vlen) buf :: rest))
      else
        let! r := set_header_loop name nlen value vlen rest in
        Ret (match r with Some (ret, rest) => Some (ret, line :: rest) | None => None end)
  end.

Definition set_message_header (name : list Z) (nlen : Z) (value : list Z) (vlen : Z) (p : http_parser)
    : comp (Z * http_parser) :=
  let! r := set_header_loop name nlen value vlen (header_list p) in
  match r with
  | Some (ret, lines) => Ret (ret, set_headers lines p)
  | None => add_message_header name nlen value vlen p
  end.

Definition check_message_header (name : list Z) (nlen : Z) (value : list Z) (vlen : Z) (p : http_parser)
    : comp http_parser :=
  if nlen =? 6 then
    let! b := strncaseeq name (txt "Expect") 6 in
    if b then
      let! c := if vlen =? 12 then strncaseeq value (txt "100-continue") 12 else Ret false in
      Ret (if c then set_flags (has_connection p) (has_content_length p) (has_keep_alive p) true
                       (keep_alive p) (chunked p) p
           else p)
    else Ret p
  else if nlen =? 10 then
    let! b := strncaseeq name (txt "Connection") 10 in
    if b then
      let p := set_flags true (has_content_length p) (has_keep_alive p) (expect_continue p)
                 (keep_alive p) (chunked p) p in
      let! k := if vlen =? 10 then strncaseeq value (txt "Keep-Alive") 10 else Ret false in
      if k then Ret (set_keep_alive true p)
      else
        let! c := if vlen =? 5 then strncaseeq value (txt "close") 5 else Ret false in
        Ret (if c then set_keep_alive false p else p)
    else
      let! k := strncaseeq name (txt "Keep-Alive") 10 in
      Ret (if k then set_flags (has_connection p) (has_content_length p) true (expect_continue p)
                       (keep_alive p) (chunked p) p
           else p)
  else if nlen =? 14 then
    let! b := strncaseeq name (txt "Content-Length") 14 in
    if b then
      let p := set_flags (has_connection p) true (has_keep_alive p) (expect_continue p)
                 (keep_alive p) (chunked p) p in
      let! c := rd value 0 in
      if isdigit c && (vlen <=? 15) then
        let! v := rd_block value 0 vlen in
        let! n := atol (v ++ [0]) in
        Ret (set_lengths (u64 n) (transfer_length p) p)
      else Ret p
    else Ret p
  else if nlen =? 17 then
    let! b := strncaseeq name (txt "Transfer-Encoding") 17 in
    if b then
      let! i := if vlen =? 8 then strncaseeq value (txt "identity") 8 else Ret false in
      Ret (set_flags (has_connection p) (has_content_length p) (has_keep_alive p) (expect_continue p)
             (keep_alive p) (negb i) p)
    else Ret p
  else Ret p.

Definition http_parser_add_header (name : list Z) (nlen : Z) (value : list Z) (vlen : Z) (p : http_parser)
    : comp (Z * http_parser) :=
  let! '(ret, p) := add_message_header name nlen value vlen p in
  if 0 <=? ret then
    let! p := check_message_header name nlen value vlen p in Ret (0, p)
  else Ret (-1, p).

Definition http_parser_set_header (name : list Z) (nlen : Z) (value : list Z) (vlen : Z) (p : http_parser)
    : comp (Z * http_parser) :=
  let! '(ret, p) := set_message_header name nlen value vlen p in
  if 0 <=? ret then
    let! p := check_message_header name nlen value vlen p in Ret (0, p)
  else Ret (-1, p).

(** ** Start line *)

(** HTTP versions without persistent connections. *)
Definition old_version (v : list Z) : bool :=
  bool_decide (v = txt "HTTP/1.0") || bool_decide (take 6 v = txt "HTTP/0").

Definition match_request_line (m u v : list Z) (p : http_parser) : Z * http_parser :=
  let p := if old_version v then set_keep_alive false p else p in
  if strdup_ok m && strdup_ok u && strdup_ok v
  then (0, set_start (Some v) (Some m) (Some u) (code p) (phrase p) p)
  else (-1, p).

Definition match_status_line (v c ph : list Z) (p : http_parser) : Z * http_parser :=
  let p := if old_version v then set_keep_alive false p else p in
  let p := if bool_decide (head c = Some 49) || bool_decide (c = txt "204") || bool_decide (c = txt "304")
           then set_lengths (content_length p) 0 p else p in
  if strdup_ok v && strdup_ok c && strdup_ok ph
  then (0, set_start (Some v) (method p) (uri p) (Some c) (Some ph) p)
  else (-1, p).

(** [strchr], splitting there: the bytes before and behind the character. *)
Fixpoint strchr (c : Z) (l : list Z) : option (list Z * list Z) :=
  match l with
  | [] => None
  | b :: l' =>
      if b =? c then Some ([], l')
      else match strchr c l' with Some (x, y) => Some (b :: x, y) | None => None end
  end.

(** The three words of a start line whose CR is at [i]. *)
Definition match_start_line (start_line : list Z) (i : Z) (p : http_parser) : Z * http_parser :=
  match strchr 32 start_line with
  | None => (-2, p)
  | Some (p1, rest) =>
      match strchr 32 rest with
      | None => (-2, p)
      | Some (p2, p3) =>
          let '(ret, p) := if is_resp p then match_status_line p1 p2 p3 p
                           else match_request_line p1 p2 p3 p in
          if ret <? 0 then (-1, p)
          else (1, set_header_pos HPS_HEADER_NAME (header_offset p + (i + 2)) p)
      end
  end.

(** The line up to its CR, copied to [start_line]. *)
Fixpoint start_line_loop (fuel : nat) (ptr : list Z) (len i : Z) (start_line : list Z) (p : http_parser)
    : comp (Z * http_parser) :=
  if i <? Z.min HTTP_START_LINE_MAX len then
    match fuel with
    | O => NoFuel
    | S f =>
        let! c := rd ptr i in
        if c =? 13 then
          if i =? len - 1 then Ret (0, p)
          else
            let! d := rd ptr (i + 1) in
            if negb (d =? 10) then Ret (-2, p)
            else
              Ret (match_start_line start_line i p)
        else if c =? 0 then Ret (-2, p)
        else if blen start_line <? HTTP_START_LINE_MAX
             then start_line_loop f ptr len (i + 1) (start_line ++ [c]) p else Oob
    end
  else if i =? HTTP_START_LINE_MAX then Ret (-2, p)
  else Ret (0, p).

(** Whether the first line is empty. *)
Definition starts_crlf (ptr : list Z) (len : Z) : comp bool :=
  if 2 <=? len then
    let! c := rd ptr 0 in
    if c =? 13 then let! d := rd ptr 1 in Ret (d =? 10) else Ret false
  else Ret false.

Definition parse_start_line (ptr : list Z) (len : Z) (p : http_parser) : comp (Z * http_parser) :=
  let! e := starts_crlf ptr len in
  if e then Ret (1, set_header_pos (header_state p) (header_offset p + 2) p)
  else start_line_loop (length ptr) ptr len 0 [] p.

(** ** Header fields *)

Fixpoint header_name_loop (fuel : nat) (ptr : list Z) (len i : Z) (p : http_parser)
    : comp (Z * http_parser) :=
  if i <? Z.min HTTP_HEADER_NAME_MAX len then
    match fuel with
    | O => NoFuel
    | S f =>
        let! c := rd ptr i in
        if c =? 58 then
          let! nb := wr_block (namebuf p) i [0] in
          Ret (1, set_header_pos HPS_HEADER_VALUE (header_offset p + (i + 1)) (set_namebuf nb p))
        else if i8 c <=? 0 then Ret (-2, p)
        else
          let! nb := wr_block (namebuf p) i [c] in
          header_name_loop f ptr len (i + 1) (set_namebuf nb p)
    end
  else if i =? HTTP_HEADER_NAME_MAX then Ret (-2, p)
  else Ret (0, p).

Definition parse_header_name (ptr : list Z) (len : Z) (p : http_parser) : comp (Z * http_parser) :=
  let! e := starts_crlf ptr len in
  if e then Ret (1, set_header_pos HPS_HEADER_COMPLETE (header_offset p + 2) p)
  else header_name_loop (length ptr) ptr len 0 p.

Definition is_blank (c : Z) : bool := (c =? 32) || (c =? 9).

Fixpoint skip_blanks (ptr : list Z) : list Z :=
  match ptr with
  | [] => []
  | c :: ptr' => if is_blank c then skip_blanks ptr' else ptr
  end.

(** The result of the loop that copies a line: return, or its CR was read. *)
Inductive value_line : Type :=
| line_return (ret : Z)
| line_break (ptr : list Z) (header_value : list Z).

Fixpoint copy_line (ptr header_value : list Z) : comp value_line :=
  if blen header_value =? HTTP_HEADER_VALUE_MAX then Ret (line_return (-2))
  else
    match ptr with
    | [] => Oob
    | c :: ptr =>
        match ptr with
        | [] => Ret (line_return 0)
        | _ =>
            if c =? 13 then Ret (line_break ptr header_value)
            else if i8 c <=? 0 then Ret (line_return (-2))
            else copy_line ptr (header_value ++ [c])
        end
    end.

(** The loop [while (i > 0)] that drops trailing blanks, on the reversed
    value. *)
Fixpoint trim_front (l : list Z) : list Z :=
  match l with
  | [] => []
  | c :: l' => if is_blank c then trim_front l' else l
  end.

Definition trim_blanks (l : list Z) : list Z := reverse (trim_front (reverse l)).

(** The lines of a folded value: return value, or the rest behind it and the
    value. *)
Fixpoint header_value_loop (fuel : nat) (ptr header_value : list Z) : comp (Z + list Z * list Z) :=
  match fuel with
  | O => NoFuel
  | S f =>
      match skip_blanks ptr with
      | [] => Ret (inl 0)
      | ptr =>
          let! r := copy_line ptr header_value in
          match r with
          | line_return ret => Ret (inl ret)
          | line_break ptr header_value =>
              match ptr with
              | [] => Oob
              | c :: ptr =>
                  if negb (c =? 10) then Ret (inl (-2))
                  else
                    match ptr with
                    | [] => Ret (inl 0)
                    | d :: ptr' =>
                        let header_value := trim_blanks header_value in
                        if is_blank d then
                          if blen header_value <? HTTP_HEADER_VALUE_MAX
                          then header_value_loop f ptr' (header_value ++ [32]) else Oob
                        else if blen header_value <? HTTP_HEADER_VALUE_MAX
                             then Ret (inr (ptr, header_value)) else Oob
                    end
              end
          end
      end
  end.

Definition parse_header_value (ptr : list Z) (p : http_parser) : comp (Z * http_parser) :=
  let! r := header_value_loop (S (length ptr)) ptr [] in
  match r with
  | inl ret => Ret (ret, p)
  | inr (rest, value) =>
      let! nlen := strlen (namebuf p) in
      let! '(ret, p) := http_parser_add_header (namebuf p) nlen (value ++ [0]) (blen value) p in
      if ret <? 0 then Ret (-1, p)
      else Ret (1, set_header_pos HPS_HEADER_NAME (header_offset p + (blen ptr - blen rest)) p)
  end.

Definition parse_header_item (ptr : list Z) (len : Z) (p : http_parser) : comp (Z * http_parser) :=
  match header_state p with
  | HPS_START_LINE => parse_start_line ptr len p
  | HPS_HEADER_VALUE => parse_header_value ptr p
  | _ => parse_header_name ptr len p
  end.

Fixpoint parse_message_header (fuel : nat) (message : list Z) (size : Z) (p : http_parser)
    : comp (Z * http_parser) :=
  match fuel with
  | O => NoFuel
  | S f =>
      let len := size - header_offset p in
      let! ptr := rd_block message (header_offset p) len in
      let! '(ret, p) := parse_header_item ptr len p in
      if bool_decide (header_state p = HPS_HEADER_COMPLETE) then Ret (1, p)
      else if 0 <? ret then parse_message_header f message size p
      else Ret (ret, p)
  end.

(** ** Chunks *)

(** A chunk line whose CR is at [i]. *)
Definition take_chunk_line (chunk_line : list Z) (len i : Z) (p : http_parser) : comp (Z * http_parser) :=
  let! n := strtol16 (chunk_line ++ [0]) in
  match n with
  | None => Ret (-2, p)
  | Some chunk_size =>
      if chunk_size =? 0
      then Ret (1, set_chunk_pos CPS_TRAILER_PART (chunk_offset p + (i + 2)) p)
      else if u64 chunk_size <? CHUNK_SIZE_MAX then
        let chunk_size := chunk_size + i + 4 in
        if len <? chunk_size then Ret (0, p)
        else Ret (1, set_chunk_pos (chunk_state p) (chunk_offset p + chunk_size) p)
      else Ret (-2, p)
  end.

Fixpoint chunk_line_loop (fuel : nat) (ptr : list Z) (len i : Z) (chunk_line : list Z) (p : http_parser)
    : comp (Z * http_parser) :=
  if i <? Z.min HTTP_CHUNK_LINE_MAX len then
    match fuel with
    | O => NoFuel
    | S f =>
        let! c := rd ptr i in
        if c =? 13 then
          if i =? len - 1 then Ret (0, p)
          else
            let! d := rd ptr (i + 1) in
            if negb (d =? 10) then Ret (-2, p)
            else
              take_chunk_line chunk_line len i p
        else if blen chunk_line <? HTTP_CHUNK_LINE_MAX
             then chunk_line_loop f ptr len (i + 1) (chunk_line ++ [c]) p else Oob
    end
  else if i =? HTTP_CHUNK_LINE_MAX then Ret (-2, p)
  else Ret (0, p).

Definition parse_chunk_data (ptr : list Z) (len : Z) (p : http_parser) : comp (Z * http_parser) :=
  chunk_line_loop (length ptr) ptr len 0 [] p.

Fixpoint trailer_loop (fuel : nat) (ptr : list Z) (len i : Z) (p : http_parser) : comp (Z * http_parser) :=
  if i <? Z.min HTTP_TRAILER_LINE_MAX len then
    match fuel with
    | O => NoFuel
    | S f =>
        let! c := rd ptr i in
        if c =? 13 then
          if i =? len - 1 then Ret (0, p)
          else
            let! d := rd ptr (i + 1) in
            if negb (d =? 10) then Ret (-2, p)
            else Ret (1, set_chunk_pos (if i =? 0 then CPS_CHUNK_COMPLETE else chunk_state p)
                           (chunk_offset p + (i + 2)) p)
        else trailer_loop f ptr len (i + 1) p
    end
  else if i =? HTTP_TRAILER_LINE_MAX then Ret (-2, p)
  else Ret (0, p).

Definition parse_trailer_part (ptr : list Z) (len : Z) (p : http_parser) : comp (Z * http_parser) :=
  trailer_loop (length ptr) ptr len 0 p.

Definition parse_chunk_item (ptr : list Z) (len : Z) (p : http_parser) : comp (Z * http_parser) :=
  match chunk_state p with
  | CPS_CHUNK_DATA => parse_chunk_data ptr len p
  | _ => parse_trailer_part ptr len p
  end.

Fixpoint parse_chunk (fuel : nat) (message : list Z) (size : Z) (p : http_parser)
    : comp (Z * http_parser) :=
  match fuel with
  | O => NoFuel
  | S f =>
      let len := size - chunk_offset p in
      let! ptr := rd_block message (chunk_offset p) len in
      let! '(ret, p) := parse_chunk_item ptr len p in
      if bool_decide (chunk_state p = CPS_CHUNK_COMPLETE) then Ret (1, p)
      else if 0 <? ret then parse_chunk f message size p
      else Ret (ret, p)
  end.

(** ** Messages *)

(** What follows a complete header: where the body ends. *)
Definition header_done (p : http_parser) : http_parser :=
  if chunked p then set_chunk_pos CPS_CHUNK_DATA (header_offset p) p
  else if transfer_length p =? SIZE_MAX then set_lengths (content_length p) (content_length p) p
  else p.

(** The body: return value, [*n], parser. *)
Definition parse_body (n : Z) (p : http_parser) : comp (Z * Z * http_parser) :=
  if negb (transfer_length p =? SIZE_MAX) then
    let total := u64 (header_offset p + transfer_length p) in
    if total <=? msgsize p
    then Ret (1, u64 (n - (msgsize p - total)),
              http_parser_close_message (set_message (msgbuf p) total (bufsize p) p))
    else Ret (0, n, p)
  else if negb (chunked p) then Ret (0, n, p)
  else
    let! '(ret, p) :=
      if bool_decide (chunk_state p <> CPS_CHUNK_COMPLETE)
      then parse_chunk (S (length (msgbuf p))) (msgbuf p) (msgsize p) p
      else Ret (1, p) in
    if ret <=? 0 then Ret (ret, n, p)
    else Ret (1, u64 (n - (msgsize p - chunk_offset p)),
              http_parser_close_message (set_message (msgbuf p) (chunk_offset p) (bufsize p) p)).

(** What is done with the bytes in the buffer. *)
Definition http_parse_message (n : Z) (p : http_parser) : comp (Z * Z * http_parser) :=
  let! '(ret, p) :=
    if bool_decide (header_state p <> HPS_HEADER_COMPLETE) then
      let! '(ret, p) := parse_message_header (S (length (msgbuf p))) (msgbuf p) (msgsize p) p in
      Ret (ret, if ret <=? 0 then p else header_done p)
    else Ret (1, p) in
  if ret <=? 0 then Ret (ret, n, p) else parse_body n p.

Definition http_parser_append_message (buf : list Z) (p : http_parser) : comp (Z * Z * http_parser) :=
  let n := blen buf in
  if complete p then Ret (1, 0, p)
  else
    let! cap :=
      if bufsize p <? msgsize p + n + 1 then
        let! new_size := double_until 64 (Z.max HTTP_MSGBUF_INIT_SIZE (2 * bufsize p)) (msgsize p + n + 1) in
        Ret (if realloc_ok new_size then Some new_size else None)
      else Ret (Some (bufsize p)) in
    match cap with
    | None => Ret (-1, n, p)
    | Some cap =>
        let! old := rd_block (msgbuf p) 0 (msgsize p) in
        http_parse_message n (set_message (old ++ buf) (msgsize p + n) cap p)
    end.

Definition http_parser_header_complete (p : http_parser) : bool :=
  bool_decide (header_state p = HPS_HEADER_COMPLETE).

(** The body of a complete message; a NUL is written behind it. *)
Definition http_parser_get_body (p : http_parser) : comp (option (list Z)) :=
  if complete p && bool_decide (header_state p = HPS_HEADER_COMPLETE) then
    if msgsize p <? bufsize p then
      let! body := rd_block (msgbuf p) (header_offset p) (msgsize p - header_offset p) in
      Ret (Some body)
    else Oob
  else Ret None.
End Http.

(** ** Setters *)

Definition http_parser_set_method (malloc_ok : Z -> bool) (s : list Z) (p : http_parser) : Z * http_parser :=
  if strdup_ok malloc_ok s then (0, set_start (version p) (Some s) (uri p) (code p) (phrase p) p) else (-1, p).

Definition http_parser_set_uri (malloc_ok : Z -> bool) (s : list Z) (p : http_parser) : Z * http_parser :=
  if strdup_ok malloc_ok s then (0, set_start (version p) (method p) (Some s) (code p) (phrase p) p) else (-1, p).

Definition http_parser_set_version (malloc_ok : Z -> bool) (s : list Z) (p : http_parser) : Z * http_parser :=
  if strdup_ok malloc_ok s then (0, set_start (Some s) (method p) (uri p) (code p) (phrase p) p) else (-1, p).

Definition http_parser_set_code (malloc_ok : Z -> bool) (s : list Z) (p : http_parser) : Z * http_parser :=
  if strdup_ok malloc_ok s then (0, set_start (version p) (method p) (uri p) (Some s) (phrase p) p) else (-1, p).

Definition http_parser_set_phrase (malloc_ok : Z -> bool) (s : list Z) (p : http_parser) : Z * http_parser :=
  if strdup_ok malloc_ok s then (0, set_start (version p) (method p) (uri p) (code p) (Some s) p) else (-1, p).

(** ** Cursors: the lines behind the cursor *)

Definition http_header_cursor_next (c : list header_line)
    : comp (option (list Z * list Z) * list header_line) :=
  match c with
  | [] => Ret (None, [])
  | line :: c =>
      let! name := rd_block (line_buf line) 0 (u64 (name_len line)) in
      let! value := rd_block (line_buf line) (name_len line + 2) (u64 (value_len line)) in
      Ret (Some (name, value), c)
  end.

Fixpoint http_header_cursor_find (name : list Z) (nlen : Z) (c : list header_line)
    : comp (option (list Z) * list header_line) :=
  match c with
  | [] => Ret (None, [])
  | line :: c =>
      let! same := if u64 (name_len line) =? nlen then strncaseeq (line_buf line) name nlen else Ret false in
      if same then
        let! value := rd_block (line_buf line) (nlen + 2) (u64 (value_len line)) in
        Ret (Some value, c)
      else http_header_cursor_find name nlen c
  end.

(** ** The scanning loops as functions of the bytes

    [seen] is what was scanned, [todo] the rest of the buffer. *)

Section Scan.
Variable malloc_ok : Z -> bool.

Fixpoint start_run (seen todo : list Z) (p : http_parser) : Z * http_parser :=
  if HTTP_START_LINE_MAX <=? blen seen then (-2, p)
  else
    match todo with
    | [] => (0, p)
    | c :: todo =>
        if c =? 13 then
          match todo with
          | [] => (0, p)
          | d :: _ => if d =? 10 then match_start_line malloc_ok seen (blen seen) p else (-2, p)
          end
        else if c =? 0 then (-2, p)
        else start_run (seen ++ [c]) todo p
    end.

(** The header name: return value, the bytes written to [namebuf]. *)
Fixpoint name_run (seen todo : list Z) : Z * list Z :=
  if HTTP_HEADER_NAME_MAX <=? blen seen then (-2, seen)
  else
    match todo with
    | [] => (0, seen)
    | c :: todo =>
        if c =? 58 then (1, seen ++ [0])
        else if i8 c <=? 0 then (-2, seen)
        else name_run (seen ++ [c]) todo
    end.

Fixpoint chunk_run (seen todo : list Z) (len : Z) (p : http_parser) : comp (Z * http_parser) :=
  if HTTP_CHUNK_LINE_MAX <=? blen seen then Ret (-2, p)
  else
    match todo with
    | [] => Ret (0, p)
    | c :: todo =>
        if c =? 13 then
          match todo with
          | [] => Ret (0, p)
          | d :: _ => if d =? 10 then take_chunk_line seen len (blen seen) p else Ret (-2, p)
          end
        else chunk_run (seen ++ [c]) todo len p
    end.

Fixpoint trailer_run (i : Z) (todo : list Z) (p : http_parser) : Z * http_parser :=
  if HTTP_TRAILER_LINE_MAX <=? i then (-2, p)
  else
    match todo with
    | [] => (0, p)
    | c :: todo =>
        if c =? 13 then
          match todo with
          | [] => (0, p)
          | d :: _ =>
              if d =? 10
              then (1, set_chunk_pos (if i =? 0 then CPS_CHUNK_COMPLETE else chunk_state p)
                         (chunk_offset p + (i + 2)) p)
              else (-2, p)
          end
        else trailer_run (i + 1) todo p
    end.

Lemma rd_app_mid2 a c d b : rd (a ++ c :: d :: b) (blen a + 1) = Ret d.
Proof. rewrite <- (rd_app_mid (a ++ [c]) d b), <- app_assoc. f_equal. by rewrite blen_app. Qed.

Lemma start_loop_run seen todo p fuel :
  (length todo <= fuel)%nat -> blen seen <= HTTP_START_LINE_MAX ->
  start_line_loop malloc_ok fuel (seen ++ todo) (blen (seen ++ todo)) (blen seen) seen p =
    Ret (start_run seen todo p).
Proof.
  revert seen fuel. induction todo as [|c todo IH]; intros seen fuel Hf Hs; pose proof (blen_nonneg seen).
  - rewrite app_nil_r. destruct fuel; cbn [start_line_loop start_run]; repeat zcase; done.
  - destruct fuel as [|fuel]; [simpl in Hf; lia|]. cbn [start_line_loop start_run].
    rewrite blen_app, blen_cons. pose proof (blen_nonneg todo).
    destruct (Z.leb_spec HTTP_START_LINE_MAX (blen seen)); [by repeat zcase|].
    destruct (Z.ltb_spec (blen seen) (Z.min HTTP_START_LINE_MAX (blen seen + (1 + blen todo)))); [|lia].
    rewrite rd_app_mid. cbn [cbind]. destruct (Z.eqb_spec c 13) as [->|Hc].
    + destruct todo as [|d todo]; cbn [blen length] in *.
      { destruct (Z.eqb_spec (blen seen) (blen seen + (1 + blen []) - 1)); [done|]. rewrite blen_nil in *. lia. }
      rewrite blen_cons in *. pose proof (blen_nonneg todo). zcase.
      rewrite rd_app_mid2. cbn [cbind].
      by destruct (d =? 10).
    + destruct (c =? 0); [done|]. destruct (Z.ltb_spec (blen seen) HTTP_START_LINE_MAX); [|lia].
      specialize (IH (seen ++ [c]) fuel ltac:(simpl in Hf; lia)).
      rewrite <- app_assoc in IH. cbn [app] in IH. rewrite !blen_app, !blen_cons, blen_nil in IH.
      rewrite Z.add_0_r in IH. rewrite IH by lia. done.
Qed.

Lemma chunk_loop_run seen todo p fuel :
  (length todo <= fuel)%nat -> blen seen <= HTTP_CHUNK_LINE_MAX ->
  chunk_line_loop fuel (seen ++ todo) (blen (seen ++ todo)) (blen seen) seen p =
    chunk_run seen todo (blen (seen ++ todo)) p.
Proof.
  revert seen fuel. induction todo as [|c todo IH]; intros seen fuel Hf Hs; pose proof (blen_nonneg seen).
  - rewrite app_nil_r. destruct fuel; cbn [chunk_line_loop chunk_run]; repeat zcase; done.
  - destruct fuel as [|fuel]; [simpl in Hf; lia|]. cbn [chunk_line_loop chunk_run].
    pose proof (blen_nonneg todo). assert (blen (seen ++ c :: todo) = blen seen + (1 + blen todo)) as Hl
      by (by rewrite blen_app, blen_cons).
    destruct (Z.leb_spec HTTP_CHUNK_LINE_MAX (blen seen)); [by repeat zcase|].
    destruct (Z.ltb_spec (blen seen) (Z.min HTTP_CHUNK_LINE_MAX (blen (seen ++ c :: todo)))); [|lia].
    rewrite rd_app_mid. cbn [cbind]. destruct (Z.eqb_spec c 13) as [->|Hc].
    + destruct todo as [|d todo].
      { destruct (Z.eqb_spec (blen seen) (blen (seen ++ [13]) - 1)); [done|]. rewrite blen_nil in *. lia. }
      rewrite blen_cons in *. pose proof (blen_nonneg todo). zcase.
      rewrite rd_app_mid2. cbn [cbind]. by destruct (d =? 10).
    + destruct (Z.ltb_spec (blen seen) HTTP_CHUNK_LINE_MAX); [|lia].
      specialize (IH (seen ++ [c]) fuel ltac:(simpl in Hf; lia)).
      rewrite <- app_assoc in IH. cbn [app] in IH. rewrite Hl, !blen_app, !blen_cons, blen_nil in *.
      rewrite Z.add_0_r in IH. rewrite IH by lia. done.
Qed.

Lemma trailer_loop_run seen todo p fuel :
  (length todo <= fuel)%nat -> blen seen <= HTTP_TRAILER_LINE_MAX ->
  trailer_loop fuel (seen ++ todo) (blen (seen ++ todo)) (blen seen) p =
    Ret (trailer_run (blen seen) todo p).
Proof.
  revert seen fuel. induction todo as [|c todo IH]; intros seen fuel Hf Hs; pose proof (blen_nonneg seen).
  - rewrite app_nil_r. destruct fuel; cbn [trailer_loop trailer_run]; repeat zcase; done.
  - destruct fuel as [|fuel]; [simpl in Hf; lia|]. cbn [trailer_loop trailer_run].
    pose proof (blen_nonneg todo). assert (blen (seen ++ c :: todo) = blen seen + (1 + blen todo)) as Hl
      by (by rewrite blen_app, blen_cons).
    destruct (Z.leb_spec HTTP_TRAILER_LINE_MAX (blen seen)); [by repeat zcase|].
    destruct (Z.ltb_spec (blen seen) (Z.min HTTP_TRAILER_LINE_MAX (blen (seen ++ c :: todo)))); [|lia].
    rewrite rd_app_mid. cbn [cbind]. destruct (Z.eqb_spec c 13) as [->|Hc].
    + destruct todo as [|d todo].
      { destruct (Z.eqb_spec (blen seen) (blen (seen ++ [13]) - 1)); [done|]. rewrite blen_nil in *. lia. }
      rewrite blen_cons in *. pose proof (blen_nonneg todo). zcase.
      rewrite rd_app_mid2. cbn [cbind]. by destruct (d =? 10).
    + specialize (IH (seen ++ [c]) fuel ltac:(simpl in Hf; lia)).
      rewrite <- app_assoc in IH. cbn [app] in IH. rewrite !blen_app, !blen_cons, blen_nil in IH.
      rewrite Z.add_0_r in IH. rewrite Hl, IH by lia. done.
Qed.

(** The array [nb] after the bytes [l] were written at its start. *)
Definition overwrite (nb l : list Z) : list Z := l ++ drop (length l) nb.

Definition name_result (nb : list Z) (r : Z * list Z) (p : http_parser) : Z * http_parser :=
  let q := set_namebuf (overwrite nb r.2) p in
  (r.1, if r.1 =? 1 then set_header_pos HPS_HEADER_VALUE (header_offset p + blen r.2) q else q).

Lemma overwrite_snoc nb l c :
  blen l < blen nb -> wr_block (overwrite nb l) (blen l) [c] = Ret (overwrite nb (l ++ [c])).
Proof.
  intros Hl. pose proof (blen_nonneg l). unfold overwrite. rewrite wr_block_in_bounds.
  2: lia. 2: { rewrite blen_app, blen_drop, blen_cons, blen_nil. unfold blen in *. lia. }
  f_equal. rewrite blen_to_nat, take_app_length, <- app_assoc. do 2 f_equal.
  rewrite blen_cons, blen_nil, drop_app_ge by (unfold blen; lia). rewrite drop_drop, length_app. f_equal.
  unfold blen. simpl. lia.
Qed.

Lemma set_namebuf_id p : set_namebuf (namebuf p) p = p.
Proof. by destruct p. Qed.

Lemma name_loop_run nb seen todo p fuel :
  (length todo <= fuel)%nat -> blen seen <= HTTP_HEADER_NAME_MAX -> blen nb = HTTP_HEADER_NAME_MAX ->
  header_name_loop fuel (seen ++ todo) (blen (seen ++ todo)) (blen seen) (set_namebuf (overwrite nb seen) p) =
    Ret (name_result nb (name_run seen todo) p).
Proof.
  intros Hf Hs Hnb. revert seen fuel Hf Hs.
  induction todo as [|c todo IH]; intros seen fuel Hf Hs; pose proof (blen_nonneg seen).
  - rewrite app_nil_r. destruct fuel; cbn [header_name_loop name_run]; repeat zcase; done.
  - destruct fuel as [|fuel]; [simpl in Hf; lia|]. cbn [header_name_loop name_run].
    pose proof (blen_nonneg todo). assert (blen (seen ++ c :: todo) = blen seen + (1 + blen todo)) as Hl
      by (by rewrite blen_app, blen_cons).
    destruct (Z.leb_spec HTTP_HEADER_NAME_MAX (blen seen)); [by repeat zcase|].
    destruct (Z.ltb_spec (blen seen) (Z.min HTTP_HEADER_NAME_MAX (blen (seen ++ c :: todo)))); [|lia].
    rewrite rd_app_mid. cbn [cbind]. change (namebuf (set_namebuf (overwrite nb seen) p)) with (overwrite nb seen).
    rewrite !overwrite_snoc by lia. cbn [cbind].
    destruct (c =? 58); [unfold name_result; cbn; by rewrite blen_app|]. destruct (i8 c <=? 0); [done|].
    specialize (IH (seen ++ [c]) fuel ltac:(simpl in Hf; lia)).
    rewrite <- app_assoc in IH. cbn [app] in IH. rewrite blen_app, !blen_cons, blen_nil, Z.add_0_r in IH.
    apply IH. lia.
Qed.
End Scan.

(** ** Loops over items

    [parse_message_header] and [parse_chunk] are one loop: an item is parsed at
    an offset of the buffer until the message part is finished, or an item is
    incomplete (0) or wrong. *)

(** The fields that no item changes. *)
Definition frame (p : http_parser) : list Z * Z * Z * bool * bool :=
  (msgbuf p, msgsize p, bufsize p, complete p, is_resp p).

Section Items.
Variable step : list Z -> Z -> http_parser -> comp (Z * http_parser).
Variable off : http_parser -> Z.
Variable fin : http_parser -> bool.
Variable ok : http_parser -> Prop.

Fixpoint item_loop (fuel : nat) (message : list Z) (size : Z) (p : http_parser) : comp (Z * http_parser) :=
  match fuel with
  | O => NoFuel
  | S f =>
      let len := size - off p in
      let! ptr := rd_block message (off p) len in
      let! '(ret, p) := step ptr len p in
      if fin p then Ret (1, p)
      else if 0 <? ret then item_loop f message size p
      else Ret (ret, p)
  end.

(** The item at [l] has its result, whatever follows. *)
Definition item_done (l : list Z) (p : http_parser) (ret : Z) (q : http_parser) : Prop :=
  (ret = -2 \/ ret = -1 \/ ret = 1) /\ (forall r, step (l ++ r) (blen (l ++ r)) p = Ret (ret, q)) /\
  frame q = frame p /\ (fin q = true -> ret = 1) /\
  (ret = 1 -> ok q /\ off p < off q <= off p + blen l).

(** The item at [l] is incomplete: with more bytes it is parsed again, with the
    same result. *)
Definition item_wait (l : list Z) (p q : http_parser) : Prop :=
  step l (blen l) p = Ret (0, q) /\ ok q /\ q = set_namebuf (namebuf q) p /\
  forall r ret s, step (l ++ r) (blen (l ++ r)) p = Ret (ret, s) ->
    (ret = 1 -> off p + blen l <= off s) /\
    exists nb, step (l ++ r) (blen (l ++ r)) q = Ret (ret, set_namebuf nb s) /\
      (fin s = true \/ nb = namebuf s).

Hypothesis item : forall p l, ok p -> fin p = false ->
  (exists ret q, item_done l p ret q) \/ (exists q, item_wait l p q).
Hypothesis off_namebuf : forall nb p, off (set_namebuf nb p) = off p.
Hypothesis fin_namebuf : forall nb p, fin (set_namebuf nb p) = fin p.

(** The result with any sufficient fuel. *)
Definition loop_runs (msg : list Z) (p : http_parser) (res : Z * http_parser) : Prop :=
  forall fuel, blen msg - off p < Z.of_nat fuel -> item_loop fuel msg (blen msg) p = Ret res.

Lemma drop_off (msg r : list Z) i :
  0 <= i <= blen msg -> rd_block (msg ++ r) i (blen (msg ++ r) - i) = Ret (drop (Z.to_nat i) msg ++ r) /\
    blen (drop (Z.to_nat i) msg) = blen msg - i.
Proof.
  intros Hi. pose proof (blen_nonneg r). rewrite blen_drop. split; [|lia].
  rewrite blen_app, rd_block_in_bounds by (rewrite ?blen_app; lia). f_equal. unfold sub.
  rewrite drop_app_le by (unfold blen in *; lia). apply take_ge.
  rewrite length_app, length_drop. unfold blen in *. lia.
Qed.

(** One round of the loop. *)
Lemma loop_runs_step msg r p ret q res :
  0 <= off p <= blen msg -> step (drop (Z.to_nat (off p)) msg ++ r) (blen (drop (Z.to_nat (off p)) msg ++ r)) p = Ret (ret, q) ->
  (if fin q then res = (1, q)
   else if 0 <? ret then off p < off q /\ loop_runs (msg ++ r) q res else res = (ret, q)) ->
  loop_runs (msg ++ r) p res.
Proof.
  intros Hoff Hstep Hres fuel Hf. pose proof (blen_nonneg r). rewrite blen_app in Hf.
  destruct fuel as [|fuel]; [lia|]. cbn [item_loop].
  destruct (drop_off msg r (off p) Hoff) as [-> Hl]. cbn [cbind].
  replace (blen (msg ++ r) - off p) with (blen (drop (Z.to_nat (off p)) msg ++ r)) by (rewrite !blen_app; lia).
  rewrite Hstep. cbn [cbind]. destruct (fin q); [by rewrite Hres|]. destruct (0 <? ret); [|by rewrite Hres].
  apply Hres. rewrite blen_app. lia.
Qed.

(** One item at a position of the message. *)
Lemma loop_runs_item msg l p q res :
  at_pos msg (off p) l -> step l (blen l) p = Ret (1, q) ->
  (if fin q then res = (1, q) else off p < off q /\ loop_runs msg q res) -> loop_runs msg p res.
Proof.
  intros [Hi <-] Hs Hr. pose proof (loop_runs_step msg [] p 1 q res) as H. rewrite !app_nil_r in H. by apply H.
Qed.

(** The loop on the bytes so far: a result that more bytes do not change, or a
    parser that waits for them and then ends like a parser that has them all,
    apart from [namebuf] once it is finished. *)
Definition loop_done (msg : list Z) (p : http_parser) (ret : Z) (q : http_parser) : Prop :=
  (ret = -2 \/ ret = -1 \/ ret = 1 /\ fin q = true /\ ok q /\ off q <= blen msg /\ off p < off q) /\
  frame q = frame p /\ forall r, loop_runs (msg ++ r) p (ret, q).

Definition loop_wait (msg : list Z) (p q : http_parser) : Prop :=
  loop_runs msg p (0, q) /\ ok q /\ fin q = false /\ frame q = frame p /\ off p <= off q <= blen msg /\
  forall r ret s, loop_runs (msg ++ r) q (ret, s) ->
    (ret = 1 -> blen msg <= off s) /\ exists nb, loop_runs (msg ++ r) p (ret, set_namebuf nb s) /\
      (fin s = true \/ nb = namebuf s).

Lemma loop_runs_det msg p a b : loop_runs msg p a -> loop_runs msg p b -> a = b.
Proof.
  intros Ha Hb. specialize (Ha (Z.to_nat (1 + Z.max 0 (blen msg - off p))) ltac:(lia)).
  rewrite Hb in Ha by lia. congruence.
Qed.

Lemma step_ret l p : ok p -> fin p = false ->
  exists ret q, step l (blen l) p = Ret (ret, q) /\ (fin q = true -> ret = 1) /\
    (ret = 1 -> ok q /\ off p < off q <= off p + blen l) /\ (ret = -2 \/ ret = -1 \/ ret = 0 \/ ret = 1).
Proof.
  intros Hok Hfin. destruct (item p l Hok Hfin) as [(ret & q & Hr & Hs & _ & Hf & Ha)|(q & Hs & _ & Hq & _)].
  - specialize (Hs []). rewrite app_nil_r in Hs. exists ret, q. split; [done|]. split; [done|]. split; [done|lia].
  - exists 0, q. split; [done|]. split; [rewrite Hq, fin_namebuf; congruence|]. split; [done|lia].
Qed.

Lemma loop_total msg p : ok p -> fin p = false -> 0 <= off p <= blen msg ->
  exists ret s, loop_runs msg p (ret, s) /\ (ret = 1 -> off p < off s).
Proof.
  remember (Z.to_nat (blen msg - off p)) as n eqn:Hn. revert p Hn.
  induction n as [n IH] using lt_wf_ind. intros p Hn Hok Hfin Hoff.
  destruct (step_ret (drop (Z.to_nat (off p)) msg) p Hok Hfin) as (ret & q & Hs & Hf & Ha & Hr).
  pose proof (loop_runs_step msg [] p ret q) as Hstep. rewrite !app_nil_r in Hstep.
  rewrite blen_drop in Ha. destruct (fin q) eqn:Hfq.
  - specialize (Hf eq_refl). subst ret. exists 1, q. split; [by apply Hstep|]. lia.
  - destruct (decide (ret = 1)) as [->|Hn1].
    + destruct Ha as [Hokq Hq]; [done|]. destruct (IH (Z.to_nat (blen msg - off q))) with (p := q)
        as (ret' & s & Hrun & Hmon); [lia|done|done|done|lia|].
      exists ret', s. split; [apply Hstep; [done|done|]; split; [lia|done]|]. intros Hr1. specialize (Hmon Hr1). lia.
    + exists ret, q. split; [|lia]. apply Hstep; [done|done|]. destruct (Z.ltb_spec 0 ret); [lia|done].
Qed.

Lemma loop_wait_item msg p q : ok p -> fin p = false -> 0 <= off p <= blen msg ->
  item_wait (drop (Z.to_nat (off p)) msg) p q -> loop_wait msg p q.
Proof.
  intros Hok Hfin Hoff (Hs & Hokq & Hq & Hw).
  assert (off q = off p) as Eoff by (by rewrite Hq, off_namebuf).
  assert (fin q = false) as Efin by (by rewrite Hq, fin_namebuf).
  split. { pose proof (loop_runs_step msg [] p 0 q (0, q)) as H. rewrite !app_nil_r, Efin in H. by apply H. }
  split; [done|]. split; [done|]. split; [by rewrite Hq|]. split; [lia|]. intros r ret s Hrun.
  set (l := drop (Z.to_nat (off p)) msg) in *. assert (blen l = blen msg - off p) as Hl by (unfold l; rewrite blen_drop; lia).
  destruct (step_ret (l ++ r) p Hok Hfin) as (ret1 & s1 & Hs1 & Hf1 & Ha1 & _).
  destruct (Hw r ret1 s1 Hs1) as (Hge & nb & Hsq & Hnb).
  pose proof (loop_runs_step msg r p ret1 s1) as Hp. pose proof (loop_runs_step msg r q ret1 (set_namebuf nb s1)) as Hqq.
  rewrite Eoff in Hqq. rewrite fin_namebuf in Hqq. fold l in Hp, Hqq. destruct (fin s1) eqn:Hfs1.
  - specialize (Hf1 eq_refl). subst ret1. specialize (Hqq _ Hoff Hsq eq_refl).
    pose proof (loop_runs_det _ _ _ _ Hrun Hqq) as [= -> ->]. rewrite off_namebuf.
    split; [intros _; specialize (Hge eq_refl); lia|]. exists (namebuf s1).
    replace (set_namebuf (namebuf s1) (set_namebuf nb s1)) with s1 by (by destruct s1).
    rewrite fin_namebuf. split; [by apply Hp|by left].
  - destruct Hnb as [Hnb|Hnb]; [congruence|]. subst nb. rewrite set_namebuf_id in *.
    assert (loop_runs (msg ++ r) p (ret, s) /\ (ret = 1 -> blen msg <= off s)) as [Hrp Hg].
    { destruct (Z.ltb_spec 0 ret1).
      - assert (ret1 = 1) as -> by (destruct (step_ret (l ++ r) p Hok Hfin) as (? & ? & E & _ & _ & ?);
          rewrite Hs1 in E; injection E as -> ->; lia).
        destruct Ha1 as [Hok1 Hoff1]; [done|]. rewrite blen_app in Hoff1. specialize (Hge eq_refl).
        destruct (loop_total (msg ++ r) s1 Hok1 Hfs1) as (ret2 & s2 & Hrun2 & Hmon); [rewrite blen_app; lia|].
        specialize (Hqq (ret2, s2) Hoff Hsq (conj (proj1 Hoff1) Hrun2)).
        pose proof (loop_runs_det _ _ _ _ Hrun Hqq) as [= -> ->].
        split; [by apply Hp; [| |split; [lia|]]|]. intros ->. specialize (Hmon eq_refl). lia.
      - assert (loop_runs (msg ++ r) q (ret1, s1)) as Hqq1 by (apply Hqq; [done|done|]; destruct (Z.ltb_spec 0 ret1); [lia|done]).
        pose proof (loop_runs_det _ _ _ _ Hrun Hqq1) as [= -> ->].
        split; [apply Hp; [done|done|]; destruct (Z.ltb_spec 0 ret1); [lia|done]|]. lia. }
    split; [exact Hg|]. exists (namebuf s). rewrite set_namebuf_id. split; [done|by right].
Qed.

Lemma loop_spec msg p : ok p -> fin p = false -> 0 <= off p <= blen msg ->
  (exists ret q, loop_done msg p ret q) \/ (exists q, loop_wait msg p q).
Proof.
  remember (Z.to_nat (blen msg - off p)) as n eqn:Hn. revert p Hn.
  induction n as [n IH] using lt_wf_ind. intros p Hn Hok Hfin Hoff.
  destruct (item p (drop (Z.to_nat (off p)) msg) Hok Hfin) as [(ret & q & Hr & Hs & Hfr & Hf & Ha)|(q & Hw)].
  2: { right. exists q. by apply loop_wait_item. }
  rewrite blen_drop in Ha. pose proof (fun r => loop_runs_step msg r p ret q) as Hstep. destruct (fin q) eqn:Hfq.
  - specialize (Hf eq_refl). subst ret. destruct Ha as [Hokq Hq]; [done|]. left. exists 1, q.
    split; [right; right; repeat split; (done || lia)|]. split; [done|]. intros r. by apply Hstep.
  - destruct (decide (ret = 1)) as [->|Hn1].
    2: { left. exists ret, q. split; [lia|]. split; [done|]. intros r. apply Hstep; [done|done|].
         destruct (Z.ltb_spec 0 ret); [lia|done]. }
    destruct Ha as [Hokq Hq]; [done|]. destruct (IH (Z.to_nat (blen msg - off q))) with (p := q)
      as [(ret' & s & Hd & Hfr' & Hrun)|(s & Hrun & Hoks & Hfs & Hfr' & Hos & Hw)]; [lia|done|done|done|lia|..].
    + left. exists ret', s. split; [destruct Hd as [?|[?|(?&?&?&?&?)]]; [by left|by right; left|right; right; repeat split; (done || lia)]|].
      split; [congruence|]. intros r. apply Hstep; [done|done|]. split; [lia|apply Hrun].
    + right. exists s. split. { specialize (Hstep []). rewrite !app_nil_r in Hstep. apply Hstep; [done|..].
        - specialize (Hs []). by rewrite app_nil_r in Hs.
        - split; [lia|done]. }
      split; [done|]. split; [done|]. split; [congruence|]. split; [lia|]. intros r ret t Hqt.
      destruct (Hw r ret t Hqt) as (Hge & nb & Hqr & Hnb). split; [done|]. exists nb. split; [|done].
      apply Hstep; [done|done|]. split; [lia|done].
Qed.
End Items.

(** ** The items of the header *)

(** A length of a body: unknown, or of at most 15 digits. *)
Definition len_ok (z : Z) : Prop := z = SIZE_MAX \/ 0 <= z < 10 ^ 15.

(** What an item keeps. *)
Definition kept (p q : http_parser) : Prop :=
  frame q = frame p /\ namebuf q = namebuf p /\ header_offset q = header_offset p /\
  header_state q = header_state p /\
  (len_ok (content_length p) -> len_ok (content_length q)) /\
  (len_ok (transfer_length p) -> len_ok (transfer_length q)).

Record header_ok (p : http_parser) : Prop := {
  ok_namebuf : blen (namebuf p) = HTTP_HEADER_NAME_MAX;
  ok_name : header_state p = HPS_HEADER_VALUE -> 0 ∈ namebuf p;
  ok_content : len_ok (content_length p);
  ok_transfer : len_ok (transfer_length p);
  ok_offset : 0 <= header_offset p
}.

Definition header_fin (p : http_parser) : bool := bool_decide (header_state p = HPS_HEADER_COMPLETE).

Lemma kept_refl p : kept p p.
Proof. by repeat split. Qed.

Lemma kept_trans p q s : kept p q -> kept q s -> kept p s.
Proof.
  intros (H1 & H2 & H3 & H4 & H5 & H6) (K1 & K2 & K3 & K4 & K5 & K6).
  repeat split; try congruence; auto.
Qed.

#[export] Hint Resolve kept_refl : c_db.

(** A parser that an item leaves behind its last byte. *)
Lemma header_ok_next p q st k :
  header_ok p -> kept p q -> 0 <= k -> (st = HPS_HEADER_VALUE -> 0 ∈ namebuf p) ->
  header_ok (set_header_pos st (header_offset q + k) q).
Proof.
  intros [H1 H2 H3 H4 H5] (K1 & K2 & K3 & K4 & K5 & K6) Hk Hst.
  split; cbn; [congruence|by rewrite K2|auto..|lia].
Qed.

Section HeaderItems.
Variables malloc_ok : Z -> bool.

Lemma match_request_line_kept m u v p : kept p (match_request_line malloc_ok m u v p).2.
Proof. unfold match_request_line. destruct (old_version v), (_ && _); cbn; auto with c_db; by repeat split. Qed.

Lemma match_status_line_kept v c ph p : kept p (match_status_line malloc_ok v c ph p).2.
Proof.
  unfold match_status_line. destruct (old_version v), (_ || _), (_ && _); cbn; auto with c_db;
    repeat split; cbn; try done; intros _; right; lia.
Qed.

Lemma match_start_line_spec line i p ret q :
  match_start_line malloc_ok line i p = (ret, q) ->
  exists p1, kept p p1 /\
    ((ret = -2 \/ ret = -1) /\ q = p1 \/
     ret = 1 /\ q = set_header_pos HPS_HEADER_NAME (header_offset p1 + (i + 2)) p1).
Proof.
  unfold match_start_line. intros H.
  destruct (strchr 32 line) as [[p1 rest]|]; [|injection H as <- <-; exists p; auto with c_db].
  destruct (strchr 32 rest) as [[p2 p3]|]; [|injection H as <- <-; exists p; auto with c_db].
  pose proof (match_request_line_kept p1 p2 p3 p). pose proof (match_status_line_kept p1 p2 p3 p).
  destruct (if is_resp p then _ else _) as [r s] eqn:E. exists s.
  split; [destruct (is_resp p); by rewrite E in *|]. destruct (r <? 0); injection H as <- <-; auto.
Qed.

Lemma start_run_spec seen todo p :
  (exists ret q, (forall r, start_run malloc_ok seen (todo ++ r) p = (ret, q)) /\
     exists p1, kept p p1 /\
       ((ret = -2 \/ ret = -1) /\ q = p1 \/
        ret = 1 /\ exists k, 2 <= k <= blen seen + blen todo /\
          q = set_header_pos HPS_HEADER_NAME (header_offset p1 + k) p1)) \/
  (start_run malloc_ok seen todo p = (0, p) /\
   forall r q, start_run malloc_ok seen (todo ++ r) p = (1, q) ->
     header_offset p + blen seen + blen todo <= header_offset q).
Proof.
  revert seen. induction todo as [|c todo IH]; intros seen; pose proof (blen_nonneg seen); cbn [app start_run].
  - destruct (Z.leb_spec HTTP_START_LINE_MAX (blen seen)) as [Hm|Hm].
    + left. exists (-2), p. split; [by intros [|]; cbn; destruct (Z.leb_spec HTTP_START_LINE_MAX (blen seen)); try lia|].
      exists p. auto with c_db.
    + right. split; [done|]. intros r q. rewrite blen_nil, Z.add_0_r. revert seen Hm H.
      induction r as [|c r IH]; intros seen Hm Hs; cbn [start_run];
        (destruct (Z.leb_spec HTTP_START_LINE_MAX (blen seen)); [lia|]); [done|].
      destruct (c =? 13).
      * destruct r as [|d r]; [done|]. destruct (d =? 10); [|done]. intros Hq.
        apply match_start_line_spec in Hq as (p1 & (_ & _ & Ho & _) & [[? _]|[_ ->]]); [lia|]. cbn. lia.
      * destruct (c =? 0); [done|]. intros Hq. destruct (Z_lt_le_dec (blen (seen ++ [c])) HTTP_START_LINE_MAX).
        -- apply IH in Hq; [|done|apply blen_nonneg]. rewrite blen_app, blen_cons, blen_nil in Hq. lia.
        -- destruct r; cbn in Hq; destruct (Z.leb_spec HTTP_START_LINE_MAX (blen (seen ++ [c]))); try lia; done.
  - destruct (Z.leb_spec HTTP_START_LINE_MAX (blen seen)) as [Hm|Hm].
    { left. exists (-2), p. split; [done|]. exists p. auto with c_db. }
    pose proof (blen_nonneg todo). rewrite blen_cons. destruct (Z.eqb_spec c 13) as [->|Hc].
    + destruct todo as [|d todo]; cbn [app].
      { right. split; [done|]. intros [|d r] q; [done|]. destruct (d =? 10); [|done]. intros Hq.
        apply match_start_line_spec in Hq as (p1 & (_ & _ & Ho & _) & [[? _]|[_ ->]]); [lia|]. rewrite blen_nil. cbn. lia. }
      left. rewrite blen_cons in *. pose proof (blen_nonneg todo). destruct (d =? 10).
      * destruct (match_start_line malloc_ok seen (blen seen) p) as [ret q] eqn:E. exists ret, q. split; [done|].
        apply match_start_line_spec in E as (p1 & Hk & [?|[-> ->]]); exists p1; (split; [done|]); [by left|].
        right. split; [done|]. eexists. split; [|reflexivity]. lia.
      * exists (-2), p. split; [done|]. exists p. auto with c_db.
    + destruct (c =? 0). { left. exists (-2), p. split; [done|]. exists p. auto with c_db. }
      specialize (IH (seen ++ [c])). rewrite blen_app, blen_cons, blen_nil in IH.
      destruct IH as [(ret & q & Hr & p1 & Hk & Hc1)|[Hr Hg]].
      * left. exists ret, q. split; [done|]. exists p1. split; [done|]. destruct Hc1 as [?|(-> & k & Hk1 & ->)]; [by left|].
        right. split; [done|]. exists k. split; [lia|done].
      * right. split; [done|]. intros r q Hq. specialize (Hg r q Hq). lia.
Qed.
End HeaderItems.

(** ** Header names *)

Lemma name_run_extends todo : forall seen ret nb, name_run seen todo = (ret, nb) ->
  exists x, nb = seen ++ x /\ (ret = 1 -> 0 ∈ nb /\ x <> []) /\ (ret = 1 \/ ret = 0 \/ ret = -2) /\
    (blen seen <= HTTP_HEADER_NAME_MAX -> blen nb <= HTTP_HEADER_NAME_MAX).
Proof.
  induction todo as [|c todo IH]; intros seen ret nb; cbn [name_run];
    (destruct (Z.leb_spec HTTP_HEADER_NAME_MAX (blen seen));
     [intros [= <- <-]; exists []; rewrite app_nil_r; split; [done|]; split; [done|]; split; [lia|done]|]).
  - intros [= <- <-]. exists []. rewrite app_nil_r. split; [done|]. split; [done|]. split; [lia|done].
  - destruct (c =? 58).
    { intros [= <- <-]. exists [0]. split; [done|]. split; [intros _; split; [|done]; rewrite elem_of_app; right; by left|].
      split; [lia|]. rewrite blen_app, blen_cons, blen_nil. lia. }
    destruct (i8 c <=? 0).
    { intros [= <- <-]. exists []. rewrite app_nil_r. split; [done|]. split; [done|]. split; [lia|done]. }
    intros Hr. apply IH in Hr as (x & -> & Hx & Hret & Hl). exists (c :: x). rewrite <- app_assoc. split; [done|].
    rewrite <- app_assoc in Hx, Hl. cbn [app] in Hx, Hl.
    split; [intros H1; by split; [apply Hx|]|]. split; [done|]. intros _. apply Hl. rewrite blen_app, blen_cons, blen_nil. lia.
Qed.

Lemma name_run_spec todo : forall seen,
  (exists ret nb, (forall r, name_run seen (todo ++ r) = (ret, nb)) /\
     (ret = -2 \/ ret = 1 /\ blen nb <= blen seen + blen todo)) \/
  (name_run seen todo = (0, seen ++ todo) /\
   forall r, name_run seen (todo ++ r) = name_run (seen ++ todo) r).
Proof.
  induction todo as [|c todo IH]; intros seen.
  - destruct (Z.leb_spec HTTP_HEADER_NAME_MAX (blen seen)) as [Hm|Hm].
    + left. exists (-2), seen. split; [|by left].
      intros [|c r]; cbn [app name_run]; destruct (Z.leb_spec HTTP_HEADER_NAME_MAX (blen seen)); (lia || done).
    + right. rewrite app_nil_r. cbn [app name_run]. destruct (Z.leb_spec HTTP_HEADER_NAME_MAX (blen seen)); [lia|done].
  - cbn [app name_run]. destruct (Z.leb_spec HTTP_HEADER_NAME_MAX (blen seen)); [left; eauto 6|].
    pose proof (blen_nonneg todo). rewrite blen_cons. destruct (c =? 58).
    { left. exists 1, (seen ++ [0]). split; [done|]. right. split; [done|]. rewrite blen_app, blen_cons, blen_nil. lia. }
    destruct (i8 c <=? 0); [left; eauto 6|]. specialize (IH (seen ++ [c])).
    rewrite <- app_assoc, blen_app, blen_cons, blen_nil in IH. cbn [app] in IH.
    destruct IH as [(ret & nb & Hr & Hc)|[Hr Hg]].
    + left. exists ret, nb. split; [done|]. destruct Hc as [?|[??]]; [by left|]. right. split; [done|lia].
    + by right.
Qed.

Lemma overwrite_nil nb : overwrite nb [] = nb.
Proof. unfold overwrite. by rewrite drop_0. Qed.

Lemma overwrite_again nb l x : overwrite (overwrite nb l) (l ++ x) = overwrite nb (l ++ x).
Proof.
  unfold overwrite. f_equal. rewrite length_app, drop_app_ge by lia. rewrite drop_drop. f_equal. lia.
Qed.

Lemma blen_overwrite nb l : blen l <= blen nb -> blen (overwrite nb l) = blen nb.
Proof. unfold overwrite. rewrite blen_app, blen_drop. unfold blen. lia. Qed.

(** ** Header values *)

Lemma skip_blanks_app l r :
  skip_blanks (l ++ r) = match skip_blanks l with [] => skip_blanks r | l' => l' ++ r end.
Proof. induction l as [|c l IH]; cbn; [by destruct (skip_blanks r)|]. by destruct (is_blank c). Qed.

Lemma blen_skip_blanks l : blen (skip_blanks l) <= blen l.
Proof. induction l as [|c l IH]; cbn; [done|]. rewrite blen_cons. destruct (is_blank c); [lia|]. rewrite blen_cons. lia. Qed.

Lemma blen_trim_front l : blen (trim_front l) <= blen l.
Proof. induction l as [|c l IH]; cbn; [done|]. rewrite blen_cons. destruct (is_blank c); [lia|]. rewrite blen_cons. lia. Qed.

Lemma blen_reverse (l : list Z) : blen (reverse l) = blen l.
Proof. unfold blen. by rewrite length_reverse. Qed.

Lemma blen_trim_blanks l : blen (trim_blanks l) <= blen l.
Proof. unfold trim_blanks. rewrite blen_reverse. pose proof (blen_trim_front (reverse l)). rewrite blen_reverse in *. lia. Qed.

Lemma copy_line_shorter l : forall hv rest v, copy_line l hv = Ret (line_break rest v) -> blen rest < blen l.
Proof.
  induction l as [|c l IH]; intros hv rest v; cbn [copy_line]; (destruct (_ =? _); [done|]); [done|].
  rewrite blen_cons. destruct l as [|d l]; [done|]. destruct (c =? 13); [intros [= <- <-]; lia|].
  destruct (_ <=? _); [done|]. intros H%IH. lia.
Qed.

Lemma copy_line_spec l : forall hv, l <> [] -> blen hv <= HTTP_HEADER_VALUE_MAX ->
  (forall r, copy_line (l ++ r) hv = Ret (line_return (-2))) \/
  (exists rest v, (forall r, copy_line (l ++ r) hv = Ret (line_break (rest ++ r) v)) /\
     0 < blen rest < blen l /\ blen v < HTTP_HEADER_VALUE_MAX) \/
  (copy_line l hv = Ret (line_return 0) /\
   forall r rest v, copy_line (l ++ r) hv = Ret (line_break rest v) -> blen rest <= blen r).
Proof.
  induction l as [|c l IH]; intros hv Hl Hhv; [done|]. cbn [app copy_line].
  destruct (Z.eqb_spec (blen hv) HTTP_HEADER_VALUE_MAX); [by left|]. destruct l as [|d l]; cbn [app].
  - right. right. split; [done|]. intros r rest v. destruct r as [|d r]; [done|].
    destruct (c =? 13); [by intros [= <- <-]|]. destruct (_ <=? _); [done|]. intros H%copy_line_shorter. lia.
  - pose proof (blen_nonneg l). rewrite (blen_cons c), (blen_cons d). destruct (c =? 13).
    { right. left. exists (d :: l), hv. split; [done|]. rewrite blen_cons. split; lia. }
    destruct (_ <=? _); [by left|]. specialize (IH (hv ++ [c])). rewrite blen_app, blen_cons, blen_nil in IH.
    destruct IH as [Hr|[(rest & v & Hr & Hb & Hv)|Hr]]; [done|lia|by left|right; left|by right; right].
    exists rest, v. rewrite blen_cons in Hb. split; [done|]. split; [lia|done].
Qed.

Lemma value_loop_shorter f : forall l hv rest v,
  header_value_loop f l hv = Ret (inr (rest, v)) -> blen rest < blen l.
Proof.
  induction f as [|f IH]; intros l hv rest v; [done|]. cbn [header_value_loop]. pose proof (blen_skip_blanks l).
  destruct (skip_blanks l) as [|c l1] eqn:El; [done|]. intros H1. inv_bind. destruct v0 as [|l2 hv2]; [done|].
  apply copy_line_shorter in Hb. destruct l2 as [|c2 l2]; [done|]. destruct (negb _); [done|].
  destruct l2 as [|d l2]; [done|]. rewrite !blen_cons in *. destruct (is_blank d); (destruct (_ <? _); [|done]).
  - apply IH in H1. lia.
  - injection H1 as <- <-. rewrite blen_cons. lia.
Qed.

Lemma value_loop_spec l : forall hv, blen hv <= HTTP_HEADER_VALUE_MAX ->
  (forall r f, blen (l ++ r) < Z.of_nat f -> header_value_loop f (l ++ r) hv = Ret (inl (-2))) \/
  (exists rest v, (forall r f, blen (l ++ r) < Z.of_nat f -> header_value_loop f (l ++ r) hv = Ret (inr (rest ++ r, v))) /\
     0 < blen rest < blen l /\ blen v < HTTP_HEADER_VALUE_MAX) \/
  ((forall f, blen l < Z.of_nat f -> header_value_loop f l hv = Ret (inl 0)) /\
   forall r f rest v, header_value_loop f (l ++ r) hv = Ret (inr (rest, v)) -> blen rest <= blen r).
Proof.
  remember (length l) as n eqn:Hn. revert l Hn. induction n as [n IH] using lt_wf_ind. intros l Hn hv Hhv.
  pose proof (blen_skip_blanks l) as Hsb. pose proof (skip_blanks_app l) as Happ. destruct (skip_blanks l) as [|c0 l0] eqn:E0.
  { right. right. split.
    - intros [|f] Hf; [pose proof (blen_nonneg l); lia|]. cbn [header_value_loop]. by rewrite E0.
    - intros r [|f] rest v; [done|]. cbn [header_value_loop]. rewrite Happ. intros H.
      apply Z.lt_le_incl, (value_loop_shorter (S f) r hv rest v). exact H. }
  pose proof (blen_nonneg l). rewrite (blen_cons c0) in Hsb. pose proof (blen_nonneg l0).
  destruct (copy_line_spec (c0 :: l0) hv) as [Hc|[(l2 & v & Hc & Hb & Hv)|[Hc Hw]]]; [done|done|..].
  - left. intros r [|f] Hf; [pose proof (blen_nonneg (l ++ r)); lia|]. cbn [header_value_loop]. rewrite Happ.
    specialize (Hc r). cbn [app] in *. by rewrite Hc.
  - rewrite blen_cons in Hb. pose proof (blen_trim_blanks v). destruct l2 as [|c2 l2]; [rewrite blen_nil in *; lia|].
    assert (forall r f, header_value_loop (S f) (l ++ r) hv =
      if negb (c2 =? 10) then Ret (inl (-2)) else
      match l2 ++ r with
      | [] => Ret (inl 0)
      | d :: ptr' => if is_blank d then header_value_loop f ptr' (trim_blanks v ++ [32]) else Ret (inr (l2 ++ r, trim_blanks v))
      end) as Hred.
    { intros r f. cbn [header_value_loop]. rewrite Happ. specialize (Hc r). cbn [app] in *. rewrite Hc. cbn [cbind].
      destruct (negb _); [done|]. destruct (Z.ltb_spec (blen (trim_blanks v)) HTTP_HEADER_VALUE_MAX); [|lia]. done. }
    clear Hc. rewrite blen_cons in Hb. destruct (negb (c2 =? 10)).
    { left. intros r [|f] Hf; [pose proof (blen_nonneg (l ++ r)); lia|]. apply Hred. }
    destruct l2 as [|d l2]; cbn [app] in Hred.
    { right. right. split.
      - intros [|f] Hf; [lia|]. specialize (Hred [] f). rewrite app_nil_r in Hred. by rewrite Hred.
      - intros r [|f] rest v1; [done|]. rewrite Hred. destruct r as [|d r]; [done|]. rewrite blen_cons.
        destruct (is_blank d); [intros H4%value_loop_shorter; lia|intros [= <- <-]; rewrite blen_cons; lia]. }
    rewrite blen_cons in Hb. pose proof (blen_nonneg l2). destruct (is_blank d) eqn:Ed.
    2: { right. left. exists (d :: l2), (trim_blanks v). rewrite blen_cons. split; [|split; lia].
         intros r [|f] Hf; [pose proof (blen_nonneg (l ++ r)); lia|]. rewrite Hred, ?Ed. done. }
    destruct (IH (length l2)) with (l := l2) (hv := trim_blanks v ++ [32]) as [H4|[(rest & v1 & H4 & Hb4 & Hv4)|[H4 Hw4]]];
      [unfold blen in *; lia|done|rewrite blen_app, blen_cons, blen_nil; lia|..].
    + left. intros r [|f] Hf; [pose proof (blen_nonneg (l ++ r)); lia|]. rewrite Hred, ?Ed. apply H4.
      rewrite blen_app in *. lia.
    + right. left. exists rest, v1. split; [|split; [lia|done]].
      intros r [|f] Hf; [pose proof (blen_nonneg (l ++ r)); lia|]. rewrite Hred, ?Ed. apply H4. rewrite blen_app in *. lia.
    + right. right. split.
      * intros [|f] Hf; [lia|]. specialize (Hred [] f). rewrite !app_nil_r in Hred. rewrite Hred, ?Ed. apply H4. lia.
      * intros r [|f] rest v1; [done|]. rewrite Hred, ?Ed. apply Hw4.
  - right. right. split.
    + intros [|f] Hf; [lia|]. cbn [header_value_loop]. rewrite E0. by rewrite Hc.
    + intros r [|f] rest v; [done|]. cbn [header_value_loop]. rewrite Happ. cbn [app]. intros H2. inv_bind.
      destruct v0 as [|l2 hv2]; [done|]. apply Hw in Hb. destruct l2 as [|c2 l2]; [done|].
      destruct (negb _); [done|]. destruct l2 as [|d l2]; [done|]. rewrite !blen_cons in *.
      destruct (is_blank d); (destruct (_ <? _); [|done]).
      * apply value_loop_shorter in H2. lia.
      * injection H2 as <- <-. rewrite blen_cons. lia.
Qed.

(** ** Adding a header *)

(** A test on a value of one length. *)
Lemma value_test v s n : blen s = n ->
  returns (if blen v =? n then strncaseeq (v ++ [0]) s n else Ret false).
Proof.
  intros Hs. pose proof (blen_nonneg s). destruct (Z.eqb_spec (blen v) n); [|apply returns_Ret].
  apply strncaseeq_ret; rewrite ?blen_app, ?blen_cons, ?blen_nil; lia.
Qed.

Ltac kept_same := eexists; split; [reflexivity|by repeat split].

(** [Content-Length] of at most 15 characters. *)
Lemma content_length_bound v : blen v <= 15 -> forall c, rd (v ++ [0]) 0 = Ret c -> isdigit c = true ->
  exists z, atol (v ++ [0]) = Ret z /\ 0 <= z < 10 ^ 15.
Proof.
  intros Hv c Hc Hd. destruct (strtol10_nul (v ++ [0])) as [z Hz]; [rewrite elem_of_app; right; by left|].
  exists z. split; [done|]. destruct v as [|d v]; injection Hc as <-; [discriminate|].
  rewrite blen_cons in Hv. apply (atol_bound d (v ++ [0])) in Hz; [|done]. rewrite blen_app, blen_cons, blen_nil in Hz.
  assert (10 ^ (blen v + (1 + 0)) <= 10 ^ 15) by (apply Z.pow_le_mono_r; lia). lia.
Qed.

Lemma check_message_header_kept name nlen v p :
  0 <= nlen <= blen name -> exists q, check_message_header name nlen (v ++ [0]) (blen v) p = Ret q /\ kept p q.
Proof.
  intros Hn. unfold check_message_header. pose proof (blen_nonneg v).
  destruct (Z.eqb_spec nlen 6) as [->|_].
  { destruct (strncaseeq_ret name (txt "Expect") 6) as [[] ->]; [lia|lia|done|..]; cbn [cbind]; [|kept_same].
    destruct (value_test v (txt "100-continue") 12) as [[] ->]; [done|..]; kept_same. }
  destruct (Z.eqb_spec nlen 10) as [->|_].
  { destruct (strncaseeq_ret name (txt "Keep-Alive") 10) as [b2 Hb2]; [lia|lia|done|].
    destruct (strncaseeq_ret name (txt "Connection") 10) as [[] ->]; [lia|lia|done|..]; cbn [cbind].
    - destruct (value_test v (txt "Keep-Alive") 10) as [[] ->]; [done|..]; cbn [cbind]; [kept_same|].
      destruct (value_test v (txt "close") 5) as [[] ->]; [done|..]; kept_same.
    - rewrite Hb2. destruct b2; kept_same. }
  destruct (Z.eqb_spec nlen 14) as [->|_].
  { destruct (strncaseeq_ret name (txt "Content-Length") 14) as [[] ->]; [lia|lia|done|..]; cbn [cbind]; [|kept_same].
    destruct (rd_in_bounds (v ++ [0]) 0) as [c Hc]; [rewrite blen_app, blen_cons, blen_nil; lia|]. rewrite Hc. cbn [cbind].
    destruct (_ && _) eqn:Ed; [|kept_same].
    apply andb_prop in Ed as [Ed Hl%Z.leb_le]. rewrite rd_block_in_bounds by (rewrite ?blen_app, ?blen_cons, ?blen_nil; lia). cbn [cbind].
    assert (sub (v ++ [0]) 0 (blen v) = v) as -> by (unfold sub; rewrite drop_0, blen_to_nat; apply take_app_length).
    destruct (content_length_bound v Hl c Hc Ed) as (z & -> & Hz). eexists. split; [reflexivity|].
    repeat split; try done. intros _. right. cbn. unfold u64. rewrite Z.mod_small; lia. }
  destruct (Z.eqb_spec nlen 17) as [->|_]; [|kept_same].
  destruct (strncaseeq_ret name (txt "Transfer-Encoding") 17) as [[] ->]; [lia|lia|done|..]; cbn [cbind]; [|kept_same].
  destruct (value_test v (txt "identity") 8) as [[] ->]; [done|..]; kept_same.
Qed.

Lemma blen_cstr l : blen (cstr l) <= blen l.
Proof. induction l as [|c l IH]; cbn; [done|]. destruct (c =? 0); rewrite ?blen_cons; [pose proof (blen_nonneg l); unfold blen; simpl; lia|lia]. Qed.

Section HeaderStep.
Variable malloc_ok : Z -> bool.

Lemma add_header_kept name nlen v p :
  0 <= nlen <= blen name ->
  exists ret q, http_parser_add_header malloc_ok name nlen (v ++ [0]) (blen v) p = Ret (ret, q) /\
    (ret = 0 \/ ret = -1) /\ kept p q.
Proof.
  intros Hn. unfold http_parser_add_header, add_message_header. pose proof (blen_nonneg v).
  destruct (malloc_ok _); [|exists (-1), p; auto with c_db].
  rewrite !rd_block_in_bounds by (rewrite ?blen_app, ?blen_cons, ?blen_nil; lia). cbn [cbind Z.leb].
  match goal with |- context [check_message_header _ _ _ _ ?q] =>
    destruct (check_message_header_kept name nlen v q Hn) as (s & -> & Hk) end.
  exists 0, s. split; [done|]. split; [by left|]. eapply kept_trans; [|exact Hk]. by repeat split.
Qed.

(** Whether a line is empty. *)
Definition crlf_start (l : list Z) : bool :=
  match l with
  | c :: d :: _ => (c =? 13) && (d =? 10)
  | _ => false
  end.

Lemma starts_crlf_spec l : starts_crlf l (blen l) = Ret (crlf_start l).
Proof.
  unfold starts_crlf. destruct l as [|c [|d l]]; [done|done|]. rewrite !blen_cons. pose proof (blen_nonneg l).
  destruct (Z.leb_spec 2 (1 + (1 + blen l))); [|lia].
  change (rd (c :: d :: l) 0) with (Ret c). change (rd (c :: d :: l) 1) with (Ret d). cbn [cbind crlf_start].
  by destruct (c =? 13).
Qed.

Lemma parse_start_line_run l p : parse_start_line malloc_ok l (blen l) p =
  Ret (if crlf_start l then (1, set_header_pos (header_state p) (header_offset p + 2) p) else start_run malloc_ok [] l p).
Proof.
  unfold parse_start_line. rewrite starts_crlf_spec. cbn [cbind]. destruct (crlf_start l); [done|].
  apply (start_loop_run malloc_ok [] l p); [lia|done].
Qed.

Lemma parse_header_name_run l p : blen (namebuf p) = HTTP_HEADER_NAME_MAX ->
  parse_header_name l (blen l) p =
    Ret (if crlf_start l then (1, set_header_pos HPS_HEADER_COMPLETE (header_offset p + 2) p)
         else name_result (namebuf p) (name_run [] l) p).
Proof.
  intros Hp. unfold parse_header_name. rewrite starts_crlf_spec. cbn [cbind]. destruct (crlf_start l); [done|].
  pose proof (name_loop_run (namebuf p) [] l p (length l) ltac:(lia) ltac:(done) Hp) as H.
  rewrite overwrite_nil, set_namebuf_id in H. apply H.
Qed.

Lemma parse_header_value_run l p : header_ok p -> header_state p = HPS_HEADER_VALUE ->
  parse_header_value malloc_ok l p =
    let! r := header_value_loop (S (length l)) l [] in
    match r with
    | inl ret => Ret (ret, p)
    | inr (rest, value) =>
        let! '(ret, q) := http_parser_add_header malloc_ok (namebuf p) (blen (cstr (namebuf p)))
                            (value ++ [0]) (blen value) p in
        if ret <? 0 then Ret (-1, q)
        else Ret (1, set_header_pos HPS_HEADER_NAME (header_offset q + (blen l - blen rest)) q)
    end.
Proof.
  intros Hok Hst. unfold parse_header_value, strlen. by rewrite bool_decide_true by (by apply ok_name).
Qed.

Lemma crlf_start_app l r : crlf_start l = true -> crlf_start (l ++ r) = true /\ 2 <= blen l.
Proof.
  destruct l as [|c [|d l]]; [done|done|]. intros H. split; [done|]. rewrite !blen_cons. pose proof (blen_nonneg l). lia.
Qed.

Lemma crlf_start_later l r : crlf_start l = false -> crlf_start (l ++ r) = true -> l = [] \/ l = [13].
Proof.
  destruct l as [|c [|d l]]; cbn [app]; [by left| |intros H1 H2; cbn in H1, H2; congruence]. intros _. destruct r as [|d r]; [done|].
  cbn [crlf_start]. intros H. apply andb_prop in H as [->%Z.eqb_eq _]. by right.
Qed.

#[local] Abbreviation hdone := (item_done (parse_header_item malloc_ok) header_offset header_fin header_ok).
#[local] Abbreviation hwait := (item_wait (parse_header_item malloc_ok) header_offset header_fin header_ok).

(** An item that waits without a trace. *)
Lemma wait_same l p :
  header_ok p -> parse_header_item malloc_ok l (blen l) p = Ret (0, p) ->
  (forall r s, parse_header_item malloc_ok (l ++ r) (blen (l ++ r)) p = Ret (1, s) ->
     header_offset p + blen l <= header_offset s) -> hwait l p p.
Proof.
  intros Hok Hs Hg. split; [done|]. split; [done|]. split; [by rewrite set_namebuf_id|]. intros r ret s Hr.
  split; [intros ->; by apply Hg in Hr|]. exists (namebuf s). rewrite set_namebuf_id. auto.
Qed.

(** An item that fails for good. *)
Lemma done_error l p ret q :
  ret = -2 \/ ret = -1 -> (forall r, parse_header_item malloc_ok (l ++ r) (blen (l ++ r)) p = Ret (ret, q)) ->
  kept p q -> header_fin p = false -> hdone l p ret q.
Proof.
  intros Hr Hs (Hf & _ & _ & Hst & _) Hfin. split; [lia|]. split; [done|]. split; [done|].
  split; [unfold header_fin in *; rewrite Hst, Hfin; done|lia].
Qed.

Lemma start_item l p : header_ok p -> header_state p = HPS_START_LINE ->
  (exists ret q, hdone l p ret q) \/ (exists q, hwait l p q).
Proof.
  intros Hok Hst. assert (header_fin p = false) as Hfin by (unfold header_fin; by rewrite Hst).
  assert (forall l, parse_header_item malloc_ok l (blen l) p =
    Ret (if crlf_start l then (1, set_header_pos (header_state p) (header_offset p + 2) p) else start_run malloc_ok [] l p)) as Hrun.
  { intros l'. rewrite <- parse_start_line_run. unfold parse_header_item. by rewrite Hst. }
  destruct (crlf_start l) eqn:Hcl.
  { left. eexists _, _. split; [by right; right|]. split.
    { intros r. rewrite Hrun. by destruct (crlf_start_app l r Hcl) as [-> _]. }
    split; [done|]. split; [done|]. intros _. destruct (crlf_start_app l [] Hcl) as [_ H2].
    split; [|cbn; lia]. apply header_ok_next with (p := p); [done|apply kept_refl|lia|congruence]. }
  destruct (start_run_spec malloc_ok [] l p) as [(ret & q & Hr & p1 & Hk & Hc)|[Hr Hg]].
  - left. exists ret, q. assert (forall r, parse_header_item malloc_ok (l ++ r) (blen (l ++ r)) p = Ret (ret, q)) as Hr'.
    { intros r. rewrite Hrun, Hr. destruct (crlf_start (l ++ r)) eqn:E; [|done]. exfalso.
      specialize (Hr []). rewrite app_nil_r in Hr.
      destruct (crlf_start_later l r Hcl E); subst l; cbn in Hr; injection Hr as <- _; lia. }
    destruct Hc as [[Hret ->]|(-> & k & Hk2 & ->)]; [by apply done_error|].
    pose proof Hk as (Hf & _ & Ho & _). split; [by right; right|]. split; [done|]. split; [done|]. split; [done|].
    intros _. rewrite blen_nil in Hk2. split; [|cbn; lia]. by apply header_ok_next with (p := p); [| |lia|].
  - right. exists p. apply wait_same; [done|by rewrite Hrun, Hcl, Hr|]. intros r s. rewrite Hrun.
    destruct (crlf_start (l ++ r)) eqn:E.
    + intros [= <-]. destruct (crlf_start_later l r Hcl E); subst l; unfold blen; cbn [header_offset set_header_pos length]; lia.
    + intros [= Hq]. apply Hg in Hq. rewrite blen_nil in Hq. lia.
Qed.

Lemma value_item l p : header_ok p -> header_state p = HPS_HEADER_VALUE ->
  (exists ret q, hdone l p ret q) \/ (exists q, hwait l p q).
Proof.
  intros Hok Hst. assert (header_fin p = false) as Hfin by (unfold header_fin; by rewrite Hst).
  pose proof (fun l => parse_header_value_run l p Hok Hst) as Hrun.
  assert (forall l, parse_header_item malloc_ok l (blen l) p = parse_header_value malloc_ok l p) as Hit
    by (intros; unfold parse_header_item; by rewrite Hst).
  assert (forall l : list Z, blen l < Z.of_nat (S (length l))) as Hfuel by (unfold blen; lia).
  destruct (value_loop_spec l [] ltac:(done)) as [Hr|[(rest & v & Hr & Hb & Hv)|[Hr Hw]]].
  - left. exists (-2), p. apply done_error; [by left| |apply kept_refl|done].
    intros r. rewrite Hit, Hrun, Hr by apply Hfuel. done.
  - destruct (add_header_kept (namebuf p) (blen (cstr (namebuf p))) v p) as (ret & q & Ha & Hret & Hk).
    { pose proof (blen_cstr (namebuf p)). pose proof (blen_nonneg (cstr (namebuf p))). lia. }
    assert (forall r, parse_header_item malloc_ok (l ++ r) (blen (l ++ r)) p =
      Ret (if ret <? 0 then (-1, q) else (1, set_header_pos HPS_HEADER_NAME (header_offset q + (blen l - blen rest)) q))) as Hs.
    { intros r. rewrite Hit, Hrun, Hr by apply Hfuel. cbn [cbind]. rewrite Ha. cbn [cbind].
      replace (blen (l ++ r) - blen (rest ++ r)) with (blen l - blen rest) by (rewrite !blen_app; lia).
      by destruct (ret <? 0). }
    left. destruct Hret as [->| ->].
    + eexists 1, _. split; [by right; right|]. split; [exact Hs|]. pose proof Hk as (Hf & _ & Ho & _).
      split; [done|]. split; [done|]. intros _. split; [|cbn; lia]. by apply header_ok_next with (p := p); [| |lia|].
    + exists (-1), q. apply done_error; [by right|exact Hs|done|done].
  - right. exists p. apply wait_same; [done|by rewrite Hit, Hrun, Hr|]. intros r s. rewrite Hit, Hrun. intros H. inv_bind.
    destruct v as [ret|[rest v]]; [injection H as -> ->; by destruct (value_loop_spec (l ++ r) [] ltac:(done)) as
      [Hx|[(? & ? & Hx & _)|[Hx _]]]; [specialize (Hx [] (S (length (l ++ r)))); rewrite app_nil_r in Hx; rewrite Hx in Hb by apply Hfuel..
       |rewrite Hx in Hb by apply Hfuel]|].
    apply Hw in Hb. inv_bind. destruct v0 as [ret q]. destruct (add_header_kept (namebuf p) (blen (cstr (namebuf p))) v p)
      as (ret' & q' & Ha & _ & (_ & _ & Ho & _)).
    { pose proof (blen_cstr (namebuf p)). pose proof (blen_nonneg (cstr (namebuf p))). lia. }
    rewrite Ha in Hb0. injection Hb0 as -> ->. destruct (ret <? 0); [done|]. injection H as <-. cbn. rewrite blen_app. lia.
Qed.

Lemma name_run_nonempty l nb : name_run [] l = (1, nb) -> 0 < blen nb /\ 0 ∈ nb.
Proof.
  intros H. apply name_run_extends in H as (x & -> & Hx & _). destruct (Hx eq_refl) as [H0 H1].
  split; [|done]. cbn [app]. destruct x as [|c x]; [done|]. rewrite blen_cons. pose proof (blen_nonneg x). lia.
Qed.

Lemma name_wait l p : header_ok p -> header_state p = HPS_HEADER_NAME ->
  crlf_start l = false -> name_run [] l = (0, l) ->
  (forall r, name_run [] (l ++ r) = name_run l r) ->
  hwait l p (set_namebuf (overwrite (namebuf p) l) p).
Proof.
  intros Hok Hst Hcl Hr Hext. pose proof (ok_namebuf p Hok) as Hnb.
  assert (blen l <= HTTP_HEADER_NAME_MAX) as Hl.
  { apply name_run_extends in Hr as (x & _ & _ & _ & Hl). by apply Hl. }
  set (q := set_namebuf (overwrite (namebuf p) l) p).
  assert (forall s l', header_state s = HPS_HEADER_NAME -> parse_header_item malloc_ok l' (blen l') s = parse_header_name l' (blen l') s)
    as Hit by (intros s l' Es; unfold parse_header_item; by rewrite Es).
  assert (blen (namebuf q) = HTTP_HEADER_NAME_MAX) as Hnq by (cbn; rewrite blen_overwrite; lia).
  split; [rewrite Hit, parse_header_name_run, Hcl, Hr by done; done|].
  split. { destruct Hok as [H1 H2 H3 H4 H5]. split; try done. cbn. congruence. }
  split; [done|]. intros r ret s. rewrite !Hit, !parse_header_name_run by done.
  destruct (crlf_start (l ++ r)) eqn:E.
  { intros [= <- <-]. split; [intros _; destruct (crlf_start_later l r Hcl E); subst l; cbn [header_offset set_header_pos];
      unfold blen; cbn [length]; lia|].
    exists (overwrite (namebuf p) l). split; [done|by left]. }
  rewrite Hext. destruct (name_run l r) as [ret1 nb1] eqn:En. pose proof (name_run_extends _ _ _ _ En) as (x & -> & _ & _ & Hl1).
  intros [= <- <-]. cbn [fst snd]. split.
  - intros ->. cbn [Z.eqb Pos.eqb header_offset set_header_pos]. rewrite blen_app. pose proof (blen_nonneg x). lia.
  - eexists. rewrite set_namebuf_id. split; [|right; reflexivity].
    unfold name_result. cbn [fst snd]. change (namebuf q) with (overwrite (namebuf p) l). by rewrite overwrite_again.
Qed.

Lemma name_item l p : header_ok p -> header_state p = HPS_HEADER_NAME ->
  (exists ret q, hdone l p ret q) \/ (exists q, hwait l p q).
Proof.
  intros Hok Hst. assert (header_fin p = false) as Hfin by (unfold header_fin; by rewrite Hst).
  pose proof (ok_namebuf p Hok) as Hnb.
  assert (forall l, parse_header_item malloc_ok l (blen l) p =
    Ret (if crlf_start l then (1, set_header_pos HPS_HEADER_COMPLETE (header_offset p + 2) p)
         else name_result (namebuf p) (name_run [] l) p)) as Hrun.
  { intros l'. rewrite <- parse_header_name_run by done. unfold parse_header_item. by rewrite Hst. }
  destruct (crlf_start l) eqn:Hcl.
  { left. eexists 1, _. split; [by right; right|]. split.
    { intros r. rewrite Hrun. by destruct (crlf_start_app l r Hcl) as [-> _]. }
    split; [done|]. split; [done|]. intros _. destruct (crlf_start_app l [] Hcl) as [_ H2].
    split; [|cbn; lia]. apply header_ok_next with (p := p); [done|apply kept_refl|lia|congruence]. }
  destruct (name_run_spec l []) as [(ret & nb & Hr & Hc)|[Hr Hg]]; [|by right; eauto using name_wait].
  left. exists ret, (name_result (namebuf p) (ret, nb) p).2.
  assert (forall r, parse_header_item malloc_ok (l ++ r) (blen (l ++ r)) p =
    Ret (ret, (name_result (namebuf p) (ret, nb) p).2)) as Hs.
  { intros r. rewrite Hrun, Hr. destruct (crlf_start (l ++ r)) eqn:E; [|done]. exfalso.
    specialize (Hr []). rewrite app_nil_r in Hr.
    destruct (crlf_start_later l r Hcl E); subst l; cbn in Hr; injection Hr as <- _; lia. }
  pose proof (Hr []) as Hr0. pose proof (name_run_extends _ _ _ _ Hr0) as (_ & _ & _ & _ & Hl1). specialize (Hl1 ltac:(done)).
  destruct Hc as [->|[-> Hlen]]; cbn [fst snd name_result Z.eqb Pos.eqb] in *.
  - split; [by left|]. split; [exact Hs|]. split; [done|]. split; [by unfold header_fin; cbn; rewrite Hst|lia].
  - split; [by right; right|]. split; [exact Hs|]. split; [done|]. split; [done|]. intros _.
    apply name_run_nonempty in Hr0 as [Hpos H0]. rewrite blen_nil in Hlen. split; [|cbn; lia].
    destruct Hok as [H1 H2 H3 H4 H5]. split; cbn; [rewrite blen_overwrite; lia| |done|done|lia].
    intros _. unfold overwrite. rewrite elem_of_app. by left.
Qed.

Lemma header_item p l : header_ok p -> header_fin p = false ->
  (exists ret q, hdone l p ret q) \/ (exists q, hwait l p q).
Proof.
  intros Hok Hfin. unfold header_fin in Hfin. apply bool_decide_eq_false in Hfin.
  destruct (header_state p) eqn:Hst; [by apply start_item|by apply name_item|by apply value_item|done].
Qed.

Lemma message_header_loop fuel msg size p :
  parse_message_header malloc_ok fuel msg size p =
    item_loop (parse_header_item malloc_ok) header_offset header_fin fuel msg size p.
Proof.
  revert p. induction fuel as [|f IH]; intros p; [done|]. cbn [parse_message_header item_loop].
  destruct (rd_block _ _ _); [|done..]. cbn [cbind]. destruct (parse_header_item _ _ _ _) as [[ret q]| |]; [|done..].
  cbn [cbind]. unfold header_fin at 1. destruct (bool_decide _); [done|]. destruct (0 <? ret); [apply IH|done].
Qed.
End HeaderStep.

(** ** The items of a chunked body *)

Definition chunk_ok (p : http_parser) : Prop := 0 <= chunk_offset p.
Definition chunk_fin (p : http_parser) : bool := bool_decide (chunk_state p = CPS_CHUNK_COMPLETE).

(** An item of a chunked body at [len] bytes is decided and leaves at least
    [lo] of them behind, or waits for more. *)
Definition chunk_decides (m : list Z -> comp (Z * http_parser)) (p : http_parser) (lo len : Z) : Prop :=
  (exists ret q, (forall r, m r = Ret (ret, q)) /\
     (ret = -2 /\ q = p \/
      ret = 1 /\ exists st k, q = set_chunk_pos st (chunk_offset p + k) p /\ lo <= k <= len)) \/
  (m [] = Ret (0, p) /\ forall r, exists ret q, m r = Ret (ret, q) /\
     (ret = 1 -> chunk_offset p + len <= chunk_offset q)).

Lemma decides_error m p lo len : (forall r, m r = Ret (-2, p)) -> chunk_decides m p lo len.
Proof. intros H. left. exists (-2), p. split; [done|by left]. Qed.

Lemma take_chunk_decides line len p :
  0 <= blen line -> blen line + 2 <= len ->
  chunk_decides (fun r => take_chunk_line line (len + blen r) (blen line) p) p (blen line + 2) len.
Proof.
  intros Hl Hlen. unfold take_chunk_line. destruct (strtol16_nul (line ++ [0])) as [n Hn]; [rewrite elem_of_app; right; by left|].
  rewrite Hn. cbn [cbind]. destruct n as [v|]; [|by apply decides_error]. apply strtol16_range in Hn.
  unfold LONG_MIN, LONG_MAX in Hn. destruct (Z.eqb_spec v 0) as [->|Hv].
  { left. eexists 1, _. split; [done|]. right. split; [done|]. eexists _, _. split; [reflexivity|lia]. }
  destruct (Z.ltb_spec (u64 v) CHUNK_SIZE_MAX) as [Hu|Hu]; [|by apply decides_error].
  assert (0 < v) as Hpos.
  { unfold u64, CHUNK_SIZE_MAX, HTTP_CHUNK_LINE_MAX, u32 in Hu. destruct (Z_lt_ge_dec v 0); [|lia].
    rewrite <- (Z.mod_add v 1), Z.mod_small in Hu by lia. change (2 * 1024 * 1024 * 1024 - 1024 - 4) with 2147482620 in Hu.
    rewrite Z.mod_small in Hu by lia. lia. }
  destruct (Z.ltb_spec len (v + blen line + 4)) as [Hc|Hc].
  - right. rewrite blen_nil, Z.add_0_r. destruct (Z.ltb_spec len (v + blen line + 4)); [|lia]. split; [done|].
    intros r. destruct (_ <? _); [exists 0, p; done|]. eexists 1, _. split; [done|]. cbn. lia.
  - left. eexists 1, _. split.
    { intros r. pose proof (blen_nonneg r). destruct (Z.ltb_spec (len + blen r) (v + blen line + 4)); [lia|reflexivity]. }
    right. split; [done|]. eexists _, _. split; [reflexivity|lia].
Qed.

(** What is found behind the scanned bytes ends behind them. *)
Lemma chunk_run_far todo : forall seen len p, blen seen + blen todo <= len ->
  exists ret q, chunk_run seen todo len p = Ret (ret, q) /\ (ret = 1 -> chunk_offset p + blen seen <= chunk_offset q).
Proof.
  induction todo as [|c todo IH]; intros seen len p Hlen; cbn [chunk_run]; pose proof (blen_nonneg seen);
    (destruct (Z.leb_spec HTTP_CHUNK_LINE_MAX (blen seen)); [exists (-2), p; done|]); [exists 0, p; done|].
  rewrite blen_cons in Hlen. destruct (c =? 13).
  - destruct todo as [|d todo]; [exists 0, p; done|]. destruct (d =? 10); [|exists (-2), p; done].
    rewrite blen_cons in Hlen. pose proof (blen_nonneg todo).
    destruct (take_chunk_decides seen len p) as [(ret & q & Hr & Hc)|[_ Hw]]; [lia|lia|..].
    + exists ret, q. specialize (Hr []). rewrite blen_nil, Z.add_0_r in Hr. split; [done|].
      destruct Hc as [[-> _]|(_ & st & k & -> & Hk)]; [lia|]. cbn. lia.
    + destruct (Hw []) as (ret & q & Hr & Hg). rewrite blen_nil, Z.add_0_r in Hr. exists ret, q. split; [done|].
      intros Hone. specialize (Hg Hone). lia.
  - destruct (IH (seen ++ [c]) len p) as (ret & q & Hr & Hg); [rewrite blen_app, blen_cons, blen_nil; lia|].
    exists ret, q. split; [done|]. rewrite blen_app, blen_cons, blen_nil in Hg. intros Hone. specialize (Hg Hone). lia.
Qed.

Lemma chunk_run_decides todo : forall seen p,
  chunk_decides (fun r => chunk_run seen (todo ++ r) (blen seen + blen todo + blen r) p) p 2 (blen seen + blen todo).
Proof.
  induction todo as [|c todo IH]; intros seen p; pose proof (blen_nonneg seen); cbn [app].
  - rewrite blen_nil, Z.add_0_r. destruct (Z.leb_spec HTTP_CHUNK_LINE_MAX (blen seen)) as [Hm|Hm].
    + apply decides_error. intros [|c r]; cbn [chunk_run];
        destruct (Z.leb_spec HTTP_CHUNK_LINE_MAX (blen seen)); (lia || done).
    + right. split; [cbn [chunk_run]; destruct (Z.leb_spec HTTP_CHUNK_LINE_MAX (blen seen)); [lia|done]|].
      intros r. apply chunk_run_far. lia.
  - cbn [chunk_run]. destruct (Z.leb_spec HTTP_CHUNK_LINE_MAX (blen seen)) as [Hm|Hm]; [by apply decides_error|].
    pose proof (blen_nonneg todo). rewrite blen_cons. destruct (Z.eqb_spec c 13) as [->|Hc].
    + destruct todo as [|d todo]; cbn [app].
      * right. split; [done|]. intros [|d r]; [exists 0, p; done|]. destruct (d =? 10); [|exists (-2), p; done].
        pose proof (blen_nonneg r). rewrite blen_nil, blen_cons in *.
        destruct (take_chunk_decides seen (blen seen + (1 + 0) + (1 + blen r)) p) as [(ret & q & Hr & Hc)|[_ Hw]]; [lia|lia|..].
        -- exists ret, q. specialize (Hr []). rewrite blen_nil, Z.add_0_r in Hr. split; [done|].
           destruct Hc as [[-> _]|(_ & st & k & -> & Hk)]; [lia|]. cbn. lia.
        -- destruct (Hw []) as (ret & q & Hr & Hg). rewrite blen_nil, Z.add_0_r in Hr. exists ret, q. split; [done|].
           intros Hone. specialize (Hg Hone). lia.
      * rewrite blen_cons in *. pose proof (blen_nonneg todo). destruct (d =? 10); [|by apply decides_error].
        destruct (take_chunk_decides seen (blen seen + (1 + (1 + blen todo))) p) as [(ret & q & Hr & Hc)|Hw]; [lia|lia|left|by right].
        exists ret, q. split; [done|]. destruct Hc as [?|(-> & st & k & -> & Hk)]; [by left|right].
        split; [done|]. eexists _, _. split; [reflexivity|lia].
    + specialize (IH (seen ++ [c]) p). rewrite blen_app, blen_cons, blen_nil in IH.
      replace (blen seen + (1 + 0) + blen todo) with (blen seen + (1 + blen todo)) in IH by lia. exact IH.
Qed.

Lemma trailer_run_far todo : forall i p, 0 <= i ->
  exists ret q, trailer_run i todo p = (ret, q) /\ (ret = 1 -> chunk_offset p + i <= chunk_offset q).
Proof.
  induction todo as [|c todo IH]; intros i p Hi; cbn [trailer_run];
    (destruct (Z.leb_spec HTTP_TRAILER_LINE_MAX i); [exists (-2), p; done|]); [exists 0, p; done|].
  destruct (c =? 13).
  - destruct todo as [|d todo]; [exists 0, p; done|]. destruct (d =? 10); [|exists (-2), p; done].
    eexists 1, _. split; [done|]. cbn. lia.
  - destruct (IH (i + 1) p) as (ret & q & Hr & Hg); [lia|]. exists ret, q. split; [done|]. intros Hone. specialize (Hg Hone). lia.
Qed.

Lemma trailer_run_decides todo : forall i p, 0 <= i ->
  chunk_decides (fun r => Ret (trailer_run i (todo ++ r) p)) p 2 (i + blen todo).
Proof.
  induction todo as [|c todo IH]; intros i p Hi; cbn [app].
  - rewrite blen_nil, Z.add_0_r. destruct (Z.leb_spec HTTP_TRAILER_LINE_MAX i) as [Hm|Hm].
    + apply decides_error. intros [|c r]; cbn [trailer_run]; destruct (Z.leb_spec HTTP_TRAILER_LINE_MAX i); (lia || done).
    + right. split; [cbn [trailer_run]; destruct (Z.leb_spec HTTP_TRAILER_LINE_MAX i); [lia|done]|].
      intros r. destruct (trailer_run_far r i p Hi) as (ret & q & -> & Hg). by exists ret, q.
  - cbn [trailer_run]. destruct (Z.leb_spec HTTP_TRAILER_LINE_MAX i) as [Hm|Hm]; [by apply decides_error|].
    pose proof (blen_nonneg todo). rewrite blen_cons. destruct (c =? 13).
    + destruct todo as [|d todo]; cbn [app].
      * right. split; [done|]. intros [|d r]; [by exists 0, p|]. destruct (d =? 10); [|by exists (-2), p].
        eexists 1, _. split; [done|]. rewrite blen_nil. cbn. lia.
      * rewrite blen_cons. pose proof (blen_nonneg todo). destruct (d =? 10); [|by apply decides_error].
        left. eexists 1, _. split; [done|]. right. split; [done|]. eexists _, _. split; [reflexivity|lia].
    + specialize (IH (i + 1) p ltac:(lia)). by replace (i + (1 + blen todo)) with (i + 1 + blen todo) by lia.
Qed.

Lemma chunk_item_decides l p :
  chunk_decides (fun r => parse_chunk_item (l ++ r) (blen (l ++ r)) p) p 2 (blen l).
Proof.
  assert (forall r, parse_chunk_item (l ++ r) (blen (l ++ r)) p =
    match chunk_state p with
    | CPS_CHUNK_DATA => chunk_run [] (l ++ r) (blen [] + blen l + blen r) p
    | _ => Ret (trailer_run 0 (l ++ r) p)
    end) as H.
  { intros r. unfold parse_chunk_item, parse_chunk_data, parse_trailer_part.
    pose proof (chunk_loop_run [] (l ++ r) p (length (l ++ r)) ltac:(lia) ltac:(done)) as H1.
    pose proof (trailer_loop_run [] (l ++ r) p (length (l ++ r)) ltac:(lia) ltac:(done)) as H2.
    cbn [app] in H1, H2. rewrite blen_nil in *. rewrite H1, H2. by rewrite blen_app. }
  pose proof (chunk_run_decides l [] p) as Hc. pose proof (trailer_run_decides l 0 p ltac:(done)) as Ht.
  unfold chunk_decides in *. setoid_rewrite H. by destruct (chunk_state p).
Qed.

Lemma chunk_item p l : chunk_ok p -> chunk_fin p = false ->
  (exists ret q, item_done parse_chunk_item chunk_offset chunk_fin chunk_ok l p ret q) \/
  (exists q, item_wait parse_chunk_item chunk_offset chunk_fin chunk_ok l p q).
Proof.
  unfold chunk_ok. intros Hok Hfin. destruct (chunk_item_decides l p) as [(ret & q & Hr & Hc)|[Hr Hw]].
  - left. exists ret, q. destruct Hc as [[-> ->]|(-> & st & k & -> & Hk)].
    + split; [by left|]. split; [done|]. split; [done|]. split; [congruence|lia].
    + split; [by right; right|]. split; [done|]. split; [done|]. split; [done|]. intros _. cbn. split; lia.
  - right. exists p. rewrite app_nil_r in Hr. split; [done|]. split; [done|]. split; [by rewrite set_namebuf_id|].
    intros r ret s Hs. destruct (Hw r) as (ret' & s' & Hs' & Hg). rewrite Hs' in Hs. injection Hs as -> ->.
    split; [done|]. exists (namebuf s). rewrite set_namebuf_id. auto.
Qed.

Lemma chunk_loop fuel msg size p :
  parse_chunk fuel msg size p = item_loop parse_chunk_item chunk_offset chunk_fin fuel msg size p.
Proof.
  revert p. induction fuel as [|f IH]; intros p; [done|]. cbn [parse_chunk item_loop].
  destruct (rd_block _ _ _); [|done..]. cbn [cbind]. destruct (parse_chunk_item _ _ _) as [[ret q]| |]; [|done..].
  cbn [cbind]. unfold chunk_fin at 1. destruct (bool_decide _); [done|]. destruct (0 <? ret); [apply IH|done].
Qed.

(** ** Fields that the loops do not look at *)

(** A result under a change of other fields. *)
Definition lift (f : http_parser -> http_parser) (m : comp (Z * http_parser)) : comp (Z * http_parser) :=
  let! '(ret, q) := m in Ret (ret, f q).

Section Lift.
Variable step : list Z -> Z -> http_parser -> comp (Z * http_parser).
Variable off : http_parser -> Z.
Variable fin : http_parser -> bool.
Variable f : http_parser -> http_parser.
Hypothesis step_lift : forall l len p, step l len (f p) = lift f (step l len p).
Hypothesis off_f : forall p, off (f p) = off p.
Hypothesis fin_f : forall p, fin (f p) = fin p.

Lemma item_loop_lift fuel msg size p :
  item_loop step off fin fuel msg size (f p) = lift f (item_loop step off fin fuel msg size p).
Proof.
  revert p. induction fuel as [|n IH]; intros p; [done|]. cbn [item_loop]. rewrite off_f.
  destruct (rd_block _ _ _); [|done..]. cbn [cbind]. rewrite step_lift.
  destruct (step _ _ p) as [[ret q]| |]; [|done..]. cbn [lift cbind]. rewrite fin_f.
  destruct (fin q); [done|]. destruct (0 <? ret); [apply IH|done].
Qed.

Lemma loop_runs_lift msg p ret s :
  loop_runs step off fin msg p (ret, s) -> loop_runs step off fin msg (f p) (ret, f s).
Proof. intros H fuel Hf. rewrite off_f in Hf. rewrite item_loop_lift, H by done. done. Qed.
End Lift.

(** The items of a chunked body only move the chunk position. *)
Lemma chunk_step_lift f :
  (forall p, chunk_offset (f p) = chunk_offset p) -> (forall p, chunk_state (f p) = chunk_state p) ->
  (forall st k p, set_chunk_pos st k (f p) = f (set_chunk_pos st k p)) ->
  forall l len p, parse_chunk_item l len (f p) = lift f (parse_chunk_item l len p).
Proof.
  intros Ho Hs Hp l len p. unfold parse_chunk_item, parse_chunk_data, parse_trailer_part. rewrite Hs.
  assert (forall fuel i, trailer_loop fuel l len i (f p) = lift f (trailer_loop fuel l len i p)) as Ht.
  { induction fuel as [|n IH]; intros i; cbn [trailer_loop]; repeat (case_goal; try done).
    all: destruct (rd l i); [|done..]; cbn [cbind]; repeat (case_goal; try done).
    all: destruct (rd l _); [|done..]; cbn [cbind]; rewrite ?Ho, ?Hs, ?Hp; by repeat case_goal. }
  destruct (chunk_state p); [|apply Ht..]. generalize (length l) as fuel, 0 as i, (@nil Z) as w.
  induction fuel as [|n IH]; intros i w; cbn [chunk_line_loop]; repeat (case_goal; try done).
  all: destruct (rd l i); [|done..]; cbn [cbind]; repeat (case_goal; try done).
  all: destruct (rd l _); [|done..]; cbn [cbind]; case_goal; try done; unfold take_chunk_line;
    destruct (strtol16 _) as [[v|]| |]; [|done..]; cbn [cbind]; rewrite ?Ho, ?Hs, ?Hp; repeat (case_goal; try done).
Qed.

(** The items of the header do not look at the message buffer. *)
Definition map_message (fm : list Z -> list Z) (fs : Z -> Z) (cap : Z) (p : http_parser) : http_parser :=
  set_message (fm (msgbuf p)) (fs (msgsize p)) cap p.

Section HeaderLift.
Variable malloc_ok : Z -> bool.
Variables (fm : list Z -> list Z) (fs : Z -> Z) (cap : Z).
#[local] Abbreviation f := (map_message fm fs cap).

Lemma check_message_header_lift name nlen value vlen p :
  check_message_header name nlen value vlen (f p) =
    let! q := check_message_header name nlen value vlen p in Ret (f q).
Proof.
  unfold check_message_header.
  repeat (case_goal; try done);
    repeat (match goal with |- context [cbind ?m _] => destruct m end; [cbn [cbind]|done..]; repeat (case_goal; try done)).
  all: done.
Qed.

Lemma add_header_lift name nlen value vlen p :
  http_parser_add_header malloc_ok name nlen value vlen (f p) =
    lift f (http_parser_add_header malloc_ok name nlen value vlen p).
Proof.
  unfold http_parser_add_header, add_message_header. destruct (malloc_ok _); [|done].
  destruct (rd_block name _ _); [|done..]. cbn [cbind]. destruct (rd_block value _ _) as [v| |]; [|done..]. cbn [cbind Z.leb].
  match goal with |- context [check_message_header _ _ _ _ (set_headers ?l (f p))] =>
    change (set_headers l (f p)) with (f (set_headers l p)) end.
  rewrite check_message_header_lift. by destruct (check_message_header _ _ _ _ _).
Qed.

Lemma match_start_line_lift line i p :
  match_start_line malloc_ok line i (f p) = (let '(ret, q) := match_start_line malloc_ok line i p in (ret, f q)).
Proof.
  unfold match_start_line, match_request_line, match_status_line.
  destruct (strchr 32 line) as [[p1 rest]|]; [|done]. destruct (strchr 32 rest) as [[p2 p3]|]; [|done].
  change (is_resp (f p)) with (is_resp p).
  destruct (is_resp p), (old_version _), (_ && _); try destruct (_ || _); done.
Qed.

Lemma header_step_map l len p :
  parse_header_item malloc_ok l len (f p) = lift f (parse_header_item malloc_ok l len p).
Proof.
  assert (parse_header_name l len (f p) = lift f (parse_header_name l len p)) as Hname.
  { unfold parse_header_name. destruct (starts_crlf l len) as [[]| |]; [done| |done..]. cbn [cbind].
    generalize (length l) as fuel, 0 as i. intros fuel. revert p.
    induction fuel as [|n IH]; intros p i; cbn [header_name_loop]; repeat (case_goal; try done).
    all: destruct (rd l i); [|done..]; cbn [cbind]; repeat (case_goal; try done).
    all: change (namebuf (f p)) with (namebuf p); destruct (wr_block _ _ _) as [nb| |]; [|done..]; cbn [cbind]; try done.
    all: apply (IH (set_namebuf nb p)). }
  unfold parse_header_item. change (header_state (f p)) with (header_state p).
  destruct (header_state p); [|exact Hname| |exact Hname].
  - unfold parse_start_line. destruct (starts_crlf l len) as [[]| |]; [done| |done..]. cbn [cbind].
    generalize (length l) as fuel, 0 as i, (@nil Z) as w.
    induction fuel as [|n IH]; intros i w; cbn [start_line_loop]; repeat (case_goal; try done).
    all: destruct (rd l i); [|done..]; cbn [cbind]; repeat (case_goal; try done).
    all: destruct (rd l _); [|done..]; cbn [cbind]; rewrite match_start_line_lift; case_goal; [done|].
    all: by destruct (match_start_line _ _ _ p).
  - unfold parse_header_value. destruct (header_value_loop _ _ _) as [[ret|[rest v]]| |]; [done| |done..]. cbn [cbind].
    change (namebuf (f p)) with (namebuf p). destruct (strlen _); [|done..]. cbn [cbind]. rewrite add_header_lift.
    destruct (http_parser_add_header _ _ _ _ _ p) as [[ret q]| |]; [|done..]. cbn [lift cbind]. by destruct (ret <? 0).
Qed.
End HeaderLift.

Lemma header_step_lift malloc_ok msg size cap l len p :
  parse_header_item malloc_ok l len (set_message msg size cap p) =
    lift (set_message msg size cap) (parse_header_item malloc_ok l len p).
Proof. apply (header_step_map malloc_ok (fun _ => msg) (fun _ => size) cap). Qed.

(** ** Waiting parsers *)

Section Waiting.
Variable malloc_ok : Z -> bool.

#[local] Abbreviation hruns := (loop_runs (parse_header_item malloc_ok) header_offset header_fin).
#[local] Abbreviation cruns := (loop_runs parse_chunk_item chunk_offset chunk_fin).

(** A parser with a complete header whose body does not end in the first [old]
    bytes of the message. *)
Definition body_wait (old : Z) (p : http_parser) : Prop :=
  (transfer_length p <> SIZE_MAX -> old <= header_offset p + transfer_length p) /\
  (transfer_length p = SIZE_MAX -> chunked p = true ->
     chunk_fin p = false /\ header_offset p <= chunk_offset p <= blen (msgbuf p) /\
     forall r s, cruns (msgbuf p ++ r) p (1, s) -> old <= chunk_offset s).

(** A parser between two calls that needs more bytes. *)
Record http_waiting (p : http_parser) : Prop := {
  wait_complete : complete p = false;
  wait_size : msgsize p = blen (msgbuf p);
  wait_ok : header_ok p;
  wait_off : header_offset p <= msgsize p;
  wait_header : header_fin p = false ->
    forall r s, hruns (msgbuf p ++ r) p (1, s) -> msgsize p <= header_offset s;
  wait_body : header_fin p = true -> body_wait (msgsize p) p
}.

(** The parser after the bytes [a] arrived. *)
Definition extend (a : list Z) (cap : Z) (p : http_parser) : http_parser :=
  set_message (msgbuf p ++ a) (msgsize p + blen a) cap p.

Lemma lift_runs_back step off fin ok f msg p ret s :
  (forall p l, ok p -> fin p = false -> (exists ret q, item_done step off fin ok l p ret q) \/ (exists q, item_wait step off fin ok l p q)) ->
  (forall nb p, off (set_namebuf nb p) = off p) -> (forall nb p, fin (set_namebuf nb p) = fin p) ->
  (forall l len p, step l len (f p) = lift f (step l len p)) ->
  (forall p, off (f p) = off p) -> (forall p, fin (f p) = fin p) ->
  ok p -> fin p = false -> 0 <= off p <= blen msg ->
  loop_runs step off fin msg (f p) (ret, s) ->
  exists s0, loop_runs step off fin msg p (ret, s0) /\ s = f s0.
Proof.
  intros Hit H1 H2 Hl H3 H4 Hok Hfin Hoff Hrun.
  destruct (loop_total step off fin ok Hit H2 msg p Hok Hfin Hoff) as (ret0 & s0 & Hr & _).
  pose proof (loop_runs_lift step off fin f Hl H3 H4 _ _ _ _ Hr) as Hf.
  pose proof (loop_runs_det step off fin _ _ _ _ Hrun Hf) as [= -> ->]. eauto.
Qed.

Lemma cruns_back msg b size cap p ret s :
  chunk_fin p = false -> 0 <= chunk_offset p <= blen msg ->
  cruns msg (set_message b size cap p) (ret, s) -> exists s0, cruns msg p (ret, s0) /\ s = set_message b size cap s0.
Proof.
  intros Hfin Hoff. apply lift_runs_back with (ok := chunk_ok); try done.
  - intros; by apply chunk_item.
  - by apply chunk_step_lift.
  - unfold chunk_ok. lia.
Qed.

Lemma hruns_back msg b size cap p ret s :
  header_ok p -> header_fin p = false -> 0 <= header_offset p <= blen msg ->
  hruns msg (set_message b size cap p) (ret, s) -> exists s0, hruns msg p (ret, s0) /\ s = set_message b size cap s0.
Proof.
  intros Hok Hfin Hoff. apply lift_runs_back with (ok := header_ok); try done.
  - intros; by apply header_item.
  - apply header_step_lift.
Qed.

Lemma cruns_lift f msg p ret s :
  (forall p, chunk_offset (f p) = chunk_offset p) -> (forall p, chunk_state (f p) = chunk_state p) ->
  (forall st k p, set_chunk_pos st k (f p) = f (set_chunk_pos st k p)) ->
  cruns msg p (ret, s) -> cruns msg (f p) (ret, f s).
Proof.
  intros H1 H2 H3. apply loop_runs_lift; [by apply chunk_step_lift|done|].
  intros q. unfold chunk_fin. by rewrite H2.
Qed.

Lemma hruns_lift msg b size cap p ret s :
  hruns msg p (ret, s) -> hruns msg (set_message b size cap p) (ret, set_message b size cap s).
Proof. apply loop_runs_lift; try done. apply header_step_lift. Qed.

Lemma body_wait_extend old a cap p :
  header_ok p -> body_wait old p -> body_wait old (extend a cap p).
Proof.
  intros Hok [H1 H2]. split; [done|]. intros Ht Hc. destruct (H2 Ht Hc) as (Hf & Ho & Hfar).
  pose proof (ok_offset _ Hok). pose proof (blen_nonneg a).
  split; [done|]. cbn [extend set_message msgbuf header_offset chunk_offset]. rewrite blen_app. split; [lia|]. intros r s Hr.
  pose proof (blen_nonneg r). rewrite <- app_assoc in Hr.
  apply cruns_back in Hr as (s0 & Hr & ->); [|done|rewrite !blen_app; lia]. by apply Hfar in Hr.
Qed.

(** The loops as [http_parse_message] runs them. *)
Lemma run_header p ret s :
  msgsize p = blen (msgbuf p) -> header_ok p -> hruns (msgbuf p) p (ret, s) ->
  parse_message_header malloc_ok (S (length (msgbuf p))) (msgbuf p) (msgsize p) p = Ret (ret, s).
Proof.
  intros Hs Hok Hr. rewrite message_header_loop, Hs. apply Hr. pose proof (ok_offset _ Hok). unfold blen. lia.
Qed.

Lemma run_chunk p ret s :
  msgsize p = blen (msgbuf p) -> 0 <= chunk_offset p -> cruns (msgbuf p) p (ret, s) ->
  parse_chunk (S (length (msgbuf p))) (msgbuf p) (msgsize p) p = Ret (ret, s).
Proof. intros Hs Hok Hr. rewrite chunk_loop, Hs. apply Hr. unfold blen. lia. Qed.

(** ** Bodies *)

(** Return value, bytes behind the message, parser. *)
Definition body_res (p : http_parser) : comp (Z * Z * http_parser) :=
  if negb (transfer_length p =? SIZE_MAX) then
    let total := u64 (header_offset p + transfer_length p) in
    if total <=? msgsize p
    then Ret (1, msgsize p - total, http_parser_close_message (set_message (msgbuf p) total (bufsize p) p))
    else Ret (0, 0, p)
  else if negb (chunked p) then Ret (0, 0, p)
  else
    let! '(ret, p) :=
      if bool_decide (chunk_state p <> CPS_CHUNK_COMPLETE)
      then parse_chunk (S (length (msgbuf p))) (msgbuf p) (msgsize p) p
      else Ret (1, p) in
    if ret <=? 0 then Ret (ret, 0, p)
    else Ret (1, msgsize p - chunk_offset p,
              http_parser_close_message (set_message (msgbuf p) (chunk_offset p) (bufsize p) p)).

Lemma parse_body_res n p : parse_body n p =
  let! '(ret, ex, q) := body_res p in Ret (ret, if 0 <? ret then u64 (n - ex) else n, q).
Proof.
  unfold parse_body, body_res. destruct (negb (_ =? _)); [by destruct (_ <=? _)|]. destruct (negb _); [done|].
  destruct (if bool_decide _ then _ else _) as [[ret q]| |]; [|done..]. cbn [cbind].
  destruct (Z.leb_spec ret 0); cbn [cbind]; [|done]. destruct (Z.ltb_spec 0 ret); [lia|done].
Qed.

(** Chunks only move the chunk position. *)
Definition chunk_only (p q : http_parser) : Prop := exists st k, q = set_chunk_pos st k p.

Lemma chunk_only_trans p q s : chunk_only p q -> chunk_only q s -> chunk_only p s.
Proof. intros (st & k & ->) (st' & k' & ->). by exists st', k'. Qed.

Lemma chunk_only_refl p : chunk_only p p.
Proof. exists (chunk_state p), (chunk_offset p). by destruct p. Qed.

Lemma chunk_only_pos st k p : chunk_only p (set_chunk_pos st k p).
Proof. by exists st, k. Qed.

#[local] Hint Resolve chunk_only_refl chunk_only_pos : c_db.

Lemma chunk_item_only l len p ret q : parse_chunk_item l len p = Ret (ret, q) -> chunk_only p q.
Proof.
  unfold parse_chunk_item, parse_chunk_data, parse_trailer_part.
  assert (forall fuel i, trailer_loop fuel l len i p = Ret (ret, q) -> chunk_only p q) as Ht.
  { induction fuel as [|n IH]; intros i; cbn [trailer_loop];
      (destruct (i <? _); [|destruct (i =? _); intros H; inv_bind; auto with c_db]); intros H; inv_bind.
    all: destruct (v =? 13); [|by eapply IH].
    all: destruct (i =? len - 1); inv_bind; auto with c_db.
    all: destruct (negb _); inv_bind; auto with c_db. }
  destruct (chunk_state p); [|apply Ht..]. generalize (length l) as fuel, 0 as i, (@nil Z) as w.
  induction fuel as [|n IH]; intros i w; cbn [chunk_line_loop];
    (destruct (i <? _); [|destruct (i =? _); intros H; inv_bind; auto with c_db]); intros H; inv_bind.
  all: destruct (v =? 13); [|destruct (blen w <? HTTP_CHUNK_LINE_MAX); [by eapply IH|done]].
  all: destruct (i =? len - 1); inv_bind; auto with c_db.
  all: destruct (negb _); inv_bind; auto with c_db.
  all: unfold take_chunk_line in *; inv_bind; repeat (case_match; simplify_eq); auto with c_db.
Qed.

Lemma item_loop_chunk_only fuel : forall msg size p ret s,
  item_loop parse_chunk_item chunk_offset chunk_fin fuel msg size p = Ret (ret, s) -> chunk_only p s.
Proof.
  induction fuel as [|n IH]; intros msg size p ret s; [done|]. cbn [item_loop]. intros H. inv_bind.
  destruct v0 as [ret1 q]. apply chunk_item_only in Hb0.
  destruct (chunk_fin q); [by injection H as <- <-|]. destruct (0 <? ret1); [|by injection H as <- <-].
  eapply chunk_only_trans; [exact Hb0|by eapply IH].
Qed.

Lemma cruns_chunk_only msg p ret s : cruns msg p (ret, s) -> chunk_only p s.
Proof.
  intros H. eapply item_loop_chunk_only, (H (Z.to_nat (1 + Z.max 0 (blen msg - chunk_offset p)))). lia.
Qed.

(** A message that ends [ex] bytes before the end of the buffer of [p]. *)
Definition body_done (p : http_parser) (ex : Z) (q : http_parser) : Prop :=
  complete q = true /\ header_fin q = true /\ msgsize q = msgsize p - ex /\ msgbuf q = msgbuf p /\
  bufsize q = bufsize p /\ 0 <= header_offset q <= msgsize q.

(** What a parser with a complete header looks like when bytes have arrived. *)
Definition body_start (old : Z) (p : http_parser) : Prop :=
  msgsize p = blen (msgbuf p) /\ complete p = false /\ header_ok p /\ header_fin p = true /\
  header_offset p <= msgsize p < 2 ^ 60 /\ body_wait old p.

Lemma body_start_waiting old p :
  body_start old p -> body_wait (msgsize p) p -> http_waiting p.
Proof. intros (H1 & H2 & H3 & H4 & H5 & H6) Hb. split; try done; [lia|congruence]. Qed.

Lemma total_small p : header_ok p -> header_offset p <= 2 ^ 60 -> transfer_length p <> SIZE_MAX ->
  u64 (header_offset p + transfer_length p) = header_offset p + transfer_length p /\ 0 <= transfer_length p.
Proof.
  intros Hok Ho Ht. pose proof (ok_offset _ Hok). destruct (ok_transfer _ Hok) as [?|?]; [done|].
  unfold u64. rewrite Z.mod_small by lia. lia.
Qed.

Lemma header_ok_chunk_only p q : chunk_only p q -> header_ok p -> header_ok q.
Proof. intros (st & k & ->) [H1 H2 H3 H4 H5]. by split. Qed.

(** A chunked body. *)
Definition chunk_finish (r : Z) (s : http_parser) : Z * Z * http_parser :=
  if r <=? 0 then (r, 0, s)
  else (1, msgsize s - chunk_offset s,
        http_parser_close_message (set_message (msgbuf s) (chunk_offset s) (bufsize s) s)).

Lemma body_res_chunk p r s :
  transfer_length p = SIZE_MAX -> chunked p = true -> chunk_fin p = false ->
  msgsize p = blen (msgbuf p) -> 0 <= chunk_offset p -> cruns (msgbuf p) p (r, s) ->
  body_res p = Ret (chunk_finish r s).
Proof.
  intros Ht Hc Hf Hs Ho Hr. unfold body_res. rewrite Ht, Hc. cbn [negb Z.eqb Pos.eqb SIZE_MAX Z.sub].
  unfold chunk_fin in Hf. apply bool_decide_eq_false in Hf. rewrite bool_decide_true by done.
  replace (SIZE_MAX =? SIZE_MAX) with true by (by rewrite Z.eqb_refl). cbn [negb].
  rewrite (run_chunk p r s) by done. cbn [cbind]. unfold chunk_finish. by destruct (r <=? 0).
Qed.

Lemma chunk_resume p q b cap ret2 ex2 s2 :
  transfer_length p = SIZE_MAX -> chunked p = true -> chunk_fin p = false ->
  msgsize p = blen (msgbuf p) -> 0 <= chunk_offset p -> chunk_only p q -> frame q = frame p ->
  loop_wait parse_chunk_item chunk_offset chunk_fin chunk_ok (msgbuf p) p q ->
  body_res (extend b cap q) = Ret (ret2, ex2, s2) ->
  exists nb, body_res (extend b cap p) = Ret (ret2, ex2, set_namebuf nb s2).
Proof.
  intros Ht Hc Hf Hs Ho (st & k & E) Hfr (_ & Hokq & Hfq & _ & Hoq & Hq) Hres.
  injection Hfr as F1 F2 F3 F4 F5. pose proof (blen_nonneg b).
  assert (transfer_length q = transfer_length p /\ chunked q = chunked p) as [E1 E2] by (by rewrite E).
  destruct (loop_total parse_chunk_item chunk_offset chunk_fin chunk_ok chunk_item ltac:(done) (msgbuf p ++ b) (extend b cap q))
    as (r & s & Hr & _); [done|done|cbn; rewrite blen_app; unfold chunk_ok in *; lia|].
  rewrite (body_res_chunk _ r s) in Hres; cbn [extend set_message transfer_length chunked msgsize msgbuf chunk_offset].
  2,3: congruence. 2: done. 2: rewrite blen_app, F1; lia. 2: unfold chunk_ok in *; lia. 2: by rewrite F1.
  apply cruns_back in Hr as (s0 & Hr & ->); [|done|rewrite blen_app; unfold chunk_ok in *; lia].
  destruct (Hq b r s0 Hr) as (_ & nb & Hp & _). exists nb.
  rewrite (body_res_chunk (extend b cap p) r (set_message (msgbuf p ++ b) (msgsize p + blen b) cap (set_namebuf nb s0))); try done.
  - rewrite F1, F2 in Hres. injection Hres as Hres. unfold chunk_finish in *. by destruct (r <=? 0); injection Hres as <- <- <-.
  - cbn. rewrite blen_app. lia.
  - by apply cruns_lift with (f := set_message (msgbuf p ++ b) (msgsize p + blen b) cap).
Qed.

(** The body part of a call: it fails, the body is complete, or the parser
    waits and goes on as if all bytes had come at once. *)
Definition body_outcome (old : Z) (p : http_parser) (ret ex : Z) (q : http_parser) : Prop :=
  ret = -2 \/ ret = -1 \/
  ret = 1 /\ 0 <= ex <= msgsize p - old /\ body_done p ex q \/
  ret = 0 /\ http_waiting q /\ header_fin q = true /\ frame q = frame p /\
    forall b cap ret2 ex2 s2, body_res (extend b cap q) = Ret (ret2, ex2, s2) ->
      exists nb, body_res (extend b cap p) = Ret (ret2, ex2, set_namebuf nb s2).

Lemma body_chunked_spec old p : body_start old p -> transfer_length p = SIZE_MAX -> chunked p = true ->
  exists ret ex q, body_res p = Ret (ret, ex, q) /\ body_outcome old p ret ex q.
Proof.
  intros (Hs & Hc & Hok & Hfin & Ho & _ & Hch) Ht Ech. pose proof (ok_offset _ Hok) as Ho0.
  destruct (Hch Ht Ech) as (Hcf & Hco & Hfar). assert (0 <= chunk_offset p <= blen (msgbuf p)) as Hco' by lia.
  destruct (loop_spec parse_chunk_item chunk_offset chunk_fin chunk_ok chunk_item ltac:(done) ltac:(done) (msgbuf p) p
    ltac:(unfold chunk_ok; lia) Hcf Hco') as [(ret & q & Hd & Hfr & Hrun)|(q & Hlw)].
  - pose proof (Hrun []) as Hrun0. rewrite app_nil_r in Hrun0. rewrite (body_res_chunk p ret q) by (done || lia).
    destruct Hd as [->|[->|(-> & Hfq & Hokq & Hoq & Hmon)]].
    + eexists _, _, _. split; [reflexivity|]. by left.
    + eexists _, _, _. split; [reflexivity|]. right. by left.
    + eexists 1, _, _. split; [reflexivity|]. right. right. left. split; [done|].
      specialize (Hfar [] q (Hrun [])). injection Hfr as F1 F2 F3 F4 F5.
      pose proof (cruns_chunk_only _ _ _ _ Hrun0) as (st & k & E). split; [cbn; lia|].
      assert (header_offset q = header_offset p) as Eo by (by rewrite E). assert (header_fin q = header_fin p) as Ef by (by rewrite E).
      split; [done|]. split; [etransitivity; [exact Ef|done]|]. split; [cbn; lia|]. split; [done|]. split; [done|]. cbn. lia.
  - pose proof Hlw as (Hrun & Hokq & Hfq & Hfr & Hoq & Hq). rewrite (body_res_chunk p 0 q) by (done || lia).
    exists 0, 0, q. split; [done|]. do 3 right. split; [done|]. pose proof Hfr as Hfr0. injection Hfr as F1 F2 F3 F4 F5.
    pose proof (cruns_chunk_only _ _ _ _ Hrun) as Hco2. pose proof (header_ok_chunk_only _ _ Hco2 Hok) as Hokh.
    pose proof Hco2 as (st & k & E).
    assert (header_offset q = header_offset p /\ header_fin q = header_fin p /\ transfer_length q = transfer_length p)
      as (E1 & E2 & E3) by (by rewrite E).
    split; [split|].
    + congruence.
    + congruence.
    + done.
    + rewrite F2, E1; lia.
    + congruence.
    + intros _. split; [congruence|]. intros _ _. split; [done|]. rewrite F1, E1. split; [lia|]. intros r s Hr.
      rewrite F2, Hs. by apply (Hq r 1 s Hr).
    + split; [congruence|]. split; [done|]. intros b cap ret2 ex2 s2. apply chunk_resume; try done. lia.
Qed.

Lemma body_spec old p : body_start old p ->
  exists ret ex q, body_res p = Ret (ret, ex, q) /\ body_outcome old p ret ex q.
Proof.
  intros Hst. destruct (decide (transfer_length p = SIZE_MAX /\ chunked p = true)) as [[Ht Hc]|Hn];
    [by apply body_chunked_spec|].
  pose proof Hst as (Hs & Hc & Hok & Hfin & Ho & Hw & Hch). pose proof (ok_offset _ Hok) as Ho0. unfold body_res.
  assert (body_wait (msgsize p) p -> body_outcome old p 0 0 p) as Hsame.
  { intros Hb. do 3 right. split; [done|]. split; [by eapply body_start_waiting|]. split; [done|]. split; [done|].
    intros b cap ret2 ex2 s2 H. exists (namebuf s2). by rewrite set_namebuf_id. }
  destruct (Z.eqb_spec (transfer_length p) SIZE_MAX) as [Ht|Ht]; cbn [negb].
  - destruct (chunked p) eqn:Ech; [tauto|]. exists 0, 0, p. split; [done|]. apply Hsame. split; congruence.
  - destruct (total_small p Hok ltac:(lia) Ht) as [-> Ht0]. specialize (Hw Ht).
    destruct (Z.leb_spec (header_offset p + transfer_length p) (msgsize p)).
    + eexists 1, _, _. split; [reflexivity|]. right. right. left. split; [done|]. split; [lia|].
      split; [done|]. split; [done|]. split; [cbn; lia|]. split; [done|]. split; [done|]. cbn. lia.
    + exists 0, 0, p. split; [done|]. apply Hsame. split; [lia|congruence].
Qed.

(** ** A call on the bytes in the buffer *)

Lemma parse_message_fin n p : header_fin p = true -> http_parse_message malloc_ok n p = parse_body n p.
Proof.
  unfold header_fin. intros H%bool_decide_eq_true. unfold http_parse_message.
  rewrite bool_decide_false by (by intros Hn). done.
Qed.

Lemma parse_message_head n p r s :
  header_fin p = false -> msgsize p = blen (msgbuf p) -> header_ok p -> hruns (msgbuf p) p (r, s) ->
  http_parse_message malloc_ok n p = if r <=? 0 then Ret (r, n, s) else parse_body n (header_done s).
Proof.
  unfold header_fin. intros H%bool_decide_eq_false Hs Hok Hr. unfold http_parse_message.
  rewrite bool_decide_true by done. rewrite (run_header p r s) by done. cbn [cbind]. by destruct (r <=? 0).
Qed.

Lemma header_done_start old s :
  msgsize s = blen (msgbuf s) -> complete s = false -> header_ok s -> header_fin s = true ->
  header_offset s <= msgsize s < 2 ^ 60 -> old <= header_offset s -> body_start old (header_done s).
Proof.
  intros Hs Hc [H1 H2 H3 H4 H5] Hf Ho Hold. unfold header_done. destruct (chunked s) eqn:Ec.
  - split; [done|]. split; [done|]. split; [by split|]. split; [done|]. split; [done|]. split.
    + cbn. intros Ht. destruct H4 as [?|?]; [done|lia].
    + intros _ _. split; [done|]. cbn. split; [lia|]. intros r t Hr. pose proof (blen_nonneg r).
      destruct (loop_total parse_chunk_item chunk_offset chunk_fin chunk_ok chunk_item ltac:(done)
        (msgbuf s ++ r) (set_chunk_pos CPS_CHUNK_DATA (header_offset s) s)) as (r2 & t2 & Hr2 & Hmon);
        [done|done|cbn; rewrite blen_app; lia|].
      pose proof (loop_runs_det _ _ _ _ _ _ _ Hr Hr2) as [= <- <-]. specialize (Hmon eq_refl). cbn in Hmon. lia.
  - assert (body_wait old s) as Hbw by (split; [destruct H4 as [?|?]; [done|lia]|intros _ Hcc; cbn in Hcc; congruence]).
    destruct (transfer_length s =? SIZE_MAX); (split; [done|]); (split; [done|]); (split; [by split|]); (split; [done|]);
      (split; [done|]); [|done].
    split; [cbn; destruct H3 as [?|?]; [done|lia]|intros _ Hcc; cbn in Hcc; congruence].
Qed.

Lemma header_done_message msg size cap s : header_done (set_message msg size cap s) = set_message msg size cap (header_done s).
Proof.
  unfold header_done. cbn [chunked set_message transfer_length].
  destruct (chunked s); [done|]. by destruct (transfer_length s =? SIZE_MAX).
Qed.

Lemma header_done_namebuf nb s : header_done (set_namebuf nb s) = set_namebuf nb (header_done s).
Proof.
  unfold header_done. cbn [chunked set_namebuf transfer_length].
  destruct (chunked s); [done|]. by destruct (transfer_length s =? SIZE_MAX).
Qed.

Lemma body_res_namebuf nb p r ex q :
  body_res p = Ret (r, ex, q) -> body_res (set_namebuf nb p) = Ret (r, ex, set_namebuf nb q).
Proof.
  unfold body_res. set (q0 := set_namebuf nb p).
  change (transfer_length q0) with (transfer_length p). change (header_offset q0) with (header_offset p).
  change (msgsize q0) with (msgsize p). change (msgbuf q0) with (msgbuf p). change (bufsize q0) with (bufsize p).
  change (chunked q0) with (chunked p). change (chunk_state q0) with (chunk_state p). subst q0.
  destruct (negb _); [destruct (_ <=? _); by intros [= <- <- <-]|]. destruct (negb _); [by intros [= <- <- <-]|].
  destruct (bool_decide _); cbn [cbind].
  - rewrite chunk_loop, (chunk_loop _ _ _ (set_namebuf nb p)), item_loop_lift with (f := set_namebuf nb); try done; [|by apply chunk_step_lift].
    destruct (item_loop _ _ _ _ _ _ p) as [[r1 s]| |]; [|done..]. cbn [lift cbind].
    destruct (r1 <=? 0); by intros [= <- <- <-].
  - destruct (1 <=? 0); by intros [= <- <- <-].
Qed.

(** Counts of bytes of a call on [b] and of one on [a ++ b]. *)
Lemma parse_body_shift a b p q ret n s :
  (forall r ex t, body_res q = Ret (r, ex, t) -> exists nb, body_res p = Ret (r, ex, set_namebuf nb t)) ->
  parse_body (blen b) q = Ret (ret, n, s) ->
  exists nb n', parse_body (blen (a ++ b)) p = Ret (ret, n', set_namebuf nb s) /\ u64 n' = u64 (blen a + n).
Proof.
  intros Hpq. rewrite !parse_body_res. intros H. inv_bind. destruct v as [[r ex] t]. injection H as <- <- <-.
  destruct (Hpq _ _ _ Hb) as (nb & ->). cbn [cbind]. exists nb, (if 0 <? r then u64 (blen (a ++ b) - ex) else blen (a ++ b)).
  split; [done|]. rewrite blen_app. destruct (0 <? r); [|done]. unfold u64.
  rewrite Zmod_mod, Zplus_mod_idemp_r. f_equal. lia.
Qed.

Lemma extend_extend a b cap cap2 p : extend b cap2 (extend a cap p) = extend (a ++ b) cap2 p.
Proof. unfold extend. cbn. by rewrite blen_app, Z.add_assoc, app_assoc. Qed.

Lemma frame_extend a cap p q : frame q = frame (extend a cap p) ->
  msgbuf q = msgbuf p ++ a /\ msgsize q = msgsize p + blen a /\ bufsize q = cap /\ complete q = complete p.
Proof. intros H. injection H as H1 H2 H3 H4 H5. done. Qed.

(** The outcome of a call with the bytes [a]. *)
Definition message_done (p : http_parser) (a : list Z) (cap n : Z) (q : http_parser) : Prop :=
  0 <= n <= blen a /\ complete q = true /\ header_fin q = true /\ msgsize q = msgsize p + n /\
  msgbuf q = msgbuf p ++ a /\ bufsize q = cap /\ 0 <= header_offset q <= msgsize q.

Definition message_resumes (p : http_parser) (a : list Z) (q : http_parser) : Prop :=
  forall b cap ret n s, http_parse_message malloc_ok (blen b) (extend b cap q) = Ret (ret, n, s) ->
    exists nb n', http_parse_message malloc_ok (blen (a ++ b)) (extend (a ++ b) cap p) = Ret (ret, n', set_namebuf nb s) /\
      u64 n' = u64 (blen a + n).

Definition message_outcome (p : http_parser) (a : list Z) (cap ret n : Z) (q : http_parser) : Prop :=
  (ret = -2 \/ ret = -1) /\ n = blen a \/
  ret = 1 /\ message_done p a cap n q \/
  ret = 0 /\ n = blen a /\ http_waiting q /\ frame q = frame (extend a cap p) /\ message_resumes p a q.

(** From the outcome of the body part. *)
Lemma outcome_of_body p a cap Q :
  http_waiting p -> msgsize p + blen a < 2 ^ 60 -> frame Q = frame (extend a cap p) -> body_start (msgsize p) Q ->
  (forall b cap2, http_parse_message malloc_ok (blen (a ++ b)) (extend (a ++ b) cap2 p) =
     parse_body (blen (a ++ b)) (extend b cap2 Q)) ->
  exists ret n q, parse_body (blen a) Q = Ret (ret, n, q) /\ message_outcome p a cap ret n q.
Proof.
  intros Hw Hlen Hfr Hst Hrun. apply frame_extend in Hfr as Hfr'. destruct Hfr' as (F1 & F2 & F3 & F4).
  pose proof (blen_nonneg a). pose proof (blen_nonneg (msgbuf p)). pose proof (wait_size _ Hw) as Hsz.
  destruct (body_spec _ _ Hst) as (ret & ex & q & Hres & Hout).
  exists ret, (if 0 <? ret then u64 (blen a - ex) else blen a), q. rewrite parse_body_res, Hres. split; [done|].
  destruct Hout as [->|[->|[(-> & Hex & H1 & H2 & H3 & H4 & H5 & H6)|(-> & Hwq & Hfin & Hfq & Hres2)]]].
  - left. auto.
  - left. auto.
  - right. left. split; [done|]. unfold u64. cbn [Z.ltb Z.compare]. rewrite Z.mod_small by lia.
    split; [lia|]. split; [done|]. split; [done|]. split; [lia|]. split; [congruence|]. split; [congruence|done].
  - right. right. split; [done|]. split; [done|]. split; [done|]. split; [congruence|].
    intros b cap2 ret n s. rewrite parse_message_fin by done. rewrite Hrun. apply parse_body_shift.
    intros r ex2 t. apply Hres2.
Qed.

Lemma parse_message_spec p a cap :
  http_waiting p -> msgsize p + blen a < 2 ^ 60 ->
  exists ret n q, http_parse_message malloc_ok (blen a) (extend a cap p) = Ret (ret, n, q) /\
    message_outcome p a cap ret n q.
Proof.
  intros Hw Hlen. pose proof Hw as [Hc Hs Hok Hoff Hhead Hbody]. pose proof (blen_nonneg a). pose proof (ok_offset _ Hok).
  set (P := extend a cap p). assert (header_ok P) as HokP by (destruct Hok; by split).
  assert (msgsize P = blen (msgbuf P)) as HsP by (cbn; rewrite blen_app; lia). assert (blen (msgbuf P) = msgsize p + blen a) as HlP by done.
  destruct (header_fin p) eqn:Hfin.
  { rewrite parse_message_fin by done. apply outcome_of_body; [done|done|done|..].
    - split; [done|]. split; [done|]. split; [done|]. split; [done|]. split; [cbn; lia|]. apply body_wait_extend; auto.
    - intros b cap2. rewrite parse_message_fin by done. unfold P. by rewrite extend_extend. }
  assert (header_fin P = false) as HfinP by done. assert (0 <= header_offset P <= blen (msgbuf P)) as HoffP by (cbn -[blen]; rewrite blen_app; lia).
  destruct (loop_spec (parse_header_item malloc_ok) header_offset header_fin header_ok (header_item malloc_ok) ltac:(done) ltac:(done)
    (msgbuf P) P HokP HfinP HoffP) as [(ret & q & Hd & Hfr & Hrun)|(q & Hrun & Hokq & Hfq & Hfr & Hoq & Hq)].
  - pose proof (Hrun []) as Hrun0. rewrite app_nil_r in Hrun0. rewrite (parse_message_head _ P ret q) by done.
    destruct Hd as [->|[->|(-> & Hfq & Hokq & Hoq & _)]]; [exists (-2), (blen a), q; split; [done|left; auto]
      |exists (-1), (blen a), q; split; [done|left; auto]|]. cbn [Z.leb Z.compare].
    apply frame_extend in Hfr as Hfr'. destruct Hfr' as (F1 & F2 & F3 & F4).
    apply outcome_of_body; [done|done|..].
    + transitivity (frame q); [|exact Hfr]. unfold header_done. destruct (chunked q); [done|]. by destruct (_ =? _).
    + assert (msgsize q = msgsize P) as Eq by (by injection Hfr).
      apply header_done_start; [rewrite F2, F1, blen_app; lia|congruence|done|done|pose proof (ok_offset _ Hokq); lia|].
      apply hruns_back in Hrun0 as (s0 & Hr0 & ->); [|done|done|lia]. by apply (Hhead eq_refl a s0).
    + intros b cap2. pose proof (hruns_lift _ (msgbuf p ++ a ++ b) (msgsize p + blen (a ++ b)) cap2 _ _ _ (Hrun b)) as Hl.
      rewrite (parse_message_head _ (extend (a ++ b) cap2 p) 1 (set_message (msgbuf p ++ a ++ b) (msgsize p + blen (a ++ b)) cap2 q)).
      2: done. 2: { cbn [extend set_message msgbuf msgsize]. rewrite !blen_app. lia. } 2: { destruct Hok; by split. }
      2: { replace (msgbuf (extend (a ++ b) cap2 p)) with (msgbuf P ++ b) by (cbn; by rewrite app_assoc). exact Hl. }
      cbn [Z.leb Z.compare]. rewrite header_done_message. f_equal. unfold extend.
      replace (msgbuf (header_done q)) with (msgbuf q) by (unfold header_done; destruct (chunked q); [done|by destruct (_ =? _)]).
      replace (msgsize (header_done q)) with (msgsize q) by (unfold header_done; destruct (chunked q); [done|by destruct (_ =? _)]).
      rewrite F1, F2, blen_app, <- app_assoc, Z.add_assoc. done.
  - rewrite (parse_message_head _ P 0 q) by done. exists 0, (blen a), q. split; [done|]. right. right.
    apply frame_extend in Hfr as Hfr'. destruct Hfr' as (F1 & F2 & F3 & F4).
    split; [done|]. split; [done|]. split; [|split; [done|]].
    + split; [congruence|rewrite F1, F2, blen_app; lia|done|lia| |congruence].
      intros _ r s Hr. rewrite F1 in Hr. destruct (Hq r 1 s Hr) as [Hge _]. rewrite F2. specialize (Hge eq_refl). lia.
    + intros b cap2 ret n s. pose proof (blen_nonneg b).
      assert (header_offset q <= blen (msgbuf q ++ b) /\ 0 <= header_offset q) as Hoqb
        by (rewrite blen_app, F1, blen_app; pose proof (ok_offset _ Hokq); lia).
      destruct (loop_total (parse_header_item malloc_ok) header_offset header_fin header_ok (header_item malloc_ok) ltac:(done)
        (msgbuf q ++ b) (extend b cap2 q)) as (r & t & Hr & _); [destruct Hokq; by split|done|cbn -[blen]; lia|].
      rewrite (parse_message_head _ (extend b cap2 q) r t); [|done|cbn -[blen]; rewrite blen_app, F1, F2, blen_app; lia|destruct Hokq; by split|done].
      apply hruns_back in Hr as (t0 & Hr & ->); [|done|done|lia]. rewrite F1 in Hr. destruct (Hq b r t0 Hr) as (_ & nb & Hp & _).
      apply (hruns_lift _ (msgbuf p ++ a ++ b) (msgsize p + blen (a ++ b)) cap2) in Hp.
      assert (set_message (msgbuf q ++ b) (msgsize q + blen b) cap2 t0 =
        set_message (msgbuf p ++ a ++ b) (msgsize p + blen (a ++ b)) cap2 t0) as ->
        by (by rewrite F1, F2, blen_app, Z.add_assoc, app_assoc).
      rewrite (parse_message_head _ (extend (a ++ b) cap2 p) r
        (set_namebuf nb (set_message (msgbuf p ++ a ++ b) (msgsize p + blen (a ++ b)) cap2 t0))).
      2: done. 2: { cbn -[blen]. rewrite !blen_app. lia. } 2: { destruct Hok; by split. }
      2: { replace (msgbuf (extend (a ++ b) cap2 p)) with (msgbuf P ++ b) by (cbn; by rewrite app_assoc). exact Hp. }
      destruct (r <=? 0); [intros [= <- <- <-]; exists nb, (blen (a ++ b)); by rewrite blen_app|].
      rewrite header_done_namebuf. apply parse_body_shift. intros r' ex t' Ht. exists nb. by apply body_res_namebuf.
Qed.
End Waiting.

(** ** Calls *)

Definition capacity_ok (p : http_parser) : Prop :=
  0 <= bufsize p <= Z.max HTTP_MSGBUF_INIT_SIZE (2 * (msgsize p + 1)).

Lemma append_extends malloc_ok realloc_ok p a :
  http_waiting malloc_ok p -> capacity_ok p -> msgsize p + blen a < 2 ^ 60 ->
  (exists n, realloc_ok n = false) /\ http_parser_append_message malloc_ok realloc_ok a p = Ret (-1, blen a, p) \/
  exists cap, msgsize p + blen a < cap <= Z.max HTTP_MSGBUF_INIT_SIZE (2 * (msgsize p + blen a + 1)) /\
    http_parser_append_message malloc_ok realloc_ok a p = http_parse_message malloc_ok (blen a) (extend a cap p).
Proof.
  intros Hw Hcap Hlen. pose proof (wait_size _ _ Hw) as Hs. unfold capacity_ok in Hcap. pose proof (blen_nonneg a).
  pose proof (blen_nonneg (msgbuf p)). unfold http_parser_append_message. rewrite (wait_complete _ _ Hw).
  assert (rd_block (msgbuf p) 0 (msgsize p) = Ret (msgbuf p)) as -> by (rewrite Hs; apply rd_block_0_all). unfold HTTP_MSGBUF_INIT_SIZE in *.
  destruct (Z.ltb_spec (bufsize p) (msgsize p + blen a + 1)).
  - destruct (double_until_spec 64 (Z.max 2048 (2 * bufsize p)) (msgsize p + blen a + 1)) as (m & -> & Hm1 & Hm2 & Hm3);
      [lia|lia|lia|]. cbn [cbind]. destruct (realloc_ok m) eqn:E; cbn [cbind]; [|left; eauto].
    right. exists m. split; [lia|]. unfold extend. done.
  - right. exists (bufsize p). split; [lia|]. cbn [cbind]. done.
Qed.

Lemma init_waiting malloc_ok resp cs co nb :
  blen nb = HTTP_HEADER_NAME_MAX -> http_waiting malloc_ok (http_parser_init resp cs co nb).
Proof.
  intros Hnb. assert (header_ok (http_parser_init resp cs co nb)) as Hok.
  { split; try done. - cbn. destruct resp; [by left|right; lia]. - by left. }
  split; try done. intros _ r s Hr.
  destruct (loop_total (parse_header_item malloc_ok) header_offset header_fin header_ok (header_item malloc_ok) ltac:(done)
    ([] ++ r) (http_parser_init resp cs co nb) Hok eq_refl) as (r2 & s2 & Hr2 & Hmon);
    [cbn; pose proof (blen_nonneg r); split; [done|exact H]|].
  pose proof (loop_runs_det _ _ _ _ _ _ _ Hr Hr2) as [= <- <-]. specialize (Hmon eq_refl). cbn in *. lia.
Qed.

(** C4: safety and termination on any input.  A call never touches memory
    outside the message, the fixed buffers ([start_line], [namebuf],
    [header_value], [chunk_line]) and the allocated lines, terminates, and
    consumes at most the bytes it was given: it fails, keeps all bytes and
    waits, or completes a message, whose body then lies inside the buffer. *)
Theorem http_append_total (malloc_ok realloc_ok : Z -> bool) (a : list Z) (p : http_parser) :
  http_waiting malloc_ok p -> capacity_ok p -> msgsize p + blen a < 2 ^ 60 ->
  exists ret n q, http_parser_append_message malloc_ok realloc_ok a p = Ret (ret, n, q) /\ 0 <= n <= blen a /\
    (ret = -2 \/ ret = -1 \/
     ret = 0 /\ n = blen a /\ msgbuf q = msgbuf p ++ a /\ http_waiting malloc_ok q /\ capacity_ok q \/
     ret = 1 /\ msgsize q = msgsize p + n /\ header_offset q <= msgsize q /\
       http_parser_get_body q =
         Ret (Some (sub (msgbuf p ++ a) (header_offset q) (msgsize q - header_offset q)))).
Proof.
  intros Hw Hcap Hlen. pose proof (blen_nonneg a).
  destruct (append_extends malloc_ok realloc_ok p a Hw Hcap Hlen) as [[_ ->]|(cap & Hc & ->)].
  { exists (-1), (blen a), p. split; [done|]. split; [lia|auto]. }
  destruct (parse_message_spec malloc_ok p a cap Hw Hlen) as (ret & n & q & -> & Hout). exists ret, n, q. split; [done|].
  destruct Hout as [[Hret ->]|[(-> & Hn & H1 & H2 & H3 & H4 & H5 & H6)|(-> & -> & Hwq & Hfr & _)]].
  - split; [lia|]. destruct Hret; auto.
  - split; [done|]. do 3 right. split; [done|]. split; [done|]. split; [lia|]. unfold http_parser_get_body, header_fin in *.
    rewrite H1, H2. cbn [andb]. destruct (Z.ltb_spec (msgsize q) (bufsize q)); [|lia].
    rewrite H4, rd_block_in_bounds; [done|lia|lia|]. rewrite blen_app, <- (wait_size _ _ Hw). lia.
  - split; [lia|]. right. right. left. apply frame_extend in Hfr as (F1 & F2 & F3 & _).
    repeat (split; [done|]). unfold capacity_ok. pose proof (blen_nonneg (msgbuf p)). pose proof (wait_size _ _ Hw). lia.
Qed.

Lemma http_append_total_witness :
  exists ret n q, http_parser_append_message (fun _ => true) (fun _ => true) [71; 69] (http_parser_init false CPS_CHUNK_DATA 0 (repeat 0 64)) =
    Ret (ret, n, q) /\ 0 <= n <= 2 /\
    (ret = -2 \/ ret = -1 \/
     ret = 0 /\ n = 2 /\ msgbuf q = [] ++ [71; 69] /\ http_waiting (fun _ => true) q /\ capacity_ok q \/
     ret = 1 /\ msgsize q = 0 + n /\ header_offset q <= msgsize q /\
       http_parser_get_body q =
         Ret (Some (sub ([] ++ [71; 69]) (header_offset q) (msgsize q - header_offset q)))).
Proof.
  apply (http_append_total (fun _ => true) (fun _ => true) [71; 69] (http_parser_init false CPS_CHUNK_DATA 0 (repeat 0 64))).
  - apply init_waiting. reflexivity.
  - split; vm_compute; discriminate.
  - vm_compute. reflexivity.
Defined.

(** The capacity of the buffer does not matter. *)
Definition set_cap (cap : Z) (p : http_parser) : http_parser := map_message (fun m => m) (fun s => s) cap p.

Lemma parse_body_cap n cap p :
  parse_body n (set_cap cap p) = let! '(r, k, q) := parse_body n p in Ret (r, k, set_cap cap q).
Proof.
  unfold parse_body. set (q0 := set_cap cap p).
  change (transfer_length q0) with (transfer_length p). change (header_offset q0) with (header_offset p).
  change (msgsize q0) with (msgsize p). change (msgbuf q0) with (msgbuf p).
  change (chunked q0) with (chunked p). change (chunk_state q0) with (chunk_state p). subst q0.
  destruct (negb _); [by destruct (_ <=? _)|]. destruct (negb _); [done|].
  destruct (bool_decide _); cbn [cbind]; [|by destruct (1 <=? 0)].
  rewrite chunk_loop, (chunk_loop _ _ _ p), item_loop_lift with (f := set_cap cap); try done; [|by apply chunk_step_lift].
  destruct (item_loop _ _ _ _ _ _ p) as [[r1 s]| |]; [|done..]. cbn [lift cbind]. by destruct (r1 <=? 0).
Qed.

Lemma parse_message_cap malloc_ok n cap p :
  http_parse_message malloc_ok n (set_cap cap p) =
    let! '(r, k, q) := http_parse_message malloc_ok n p in Ret (r, k, set_cap cap q).
Proof.
  unfold http_parse_message. set (q0 := set_cap cap p). change (header_state q0) with (header_state p).
  change (msgsize q0) with (msgsize p). change (msgbuf q0) with (msgbuf p). subst q0.
  destruct (bool_decide _); cbn [cbind]; [|destruct (1 <=? 0); [done|apply parse_body_cap]].
  rewrite message_header_loop, (message_header_loop _ _ _ _ p), item_loop_lift with (f := set_cap cap); try done;
    [|apply (header_step_map malloc_ok (fun m => m) (fun s => s) cap)].
  destruct (item_loop _ _ _ _ _ _ p) as [[r1 s]| |]; [|done..]. cbn [lift cbind].
  destruct (r1 <=? 0); [done|]. rewrite <- parse_body_cap. f_equal.
  unfold header_done. change (chunked (set_cap cap s)) with (chunked s). change (transfer_length (set_cap cap s)) with (transfer_length s).
  destruct (chunked s); [done|]. by destruct (transfer_length s =? SIZE_MAX).
Qed.

Lemma http_count malloc_ok p a cap ret n q :
  http_waiting malloc_ok p -> msgsize p + blen a < 2 ^ 60 ->
  http_parse_message malloc_ok (blen a) (extend a cap p) = Ret (ret, n, q) -> 0 <= n <= blen a.
Proof.
  intros Hw Hl H. pose proof (blen_nonneg a).
  destruct (parse_message_spec malloc_ok p a cap Hw Hl) as (r1 & k1 & q1 & E & Hout). rewrite E in H. injection H as -> -> ->.
  destruct Hout as [[_ ->]|[(_ & Hn & _)|(_ & -> & _)]]; lia.
Qed.

Definition new_request : http_parser := http_parser_init false CPS_CHUNK_DATA 0 (repeat 0 64).

(** C14: a message may arrive in pieces.  When the piece [a] leaves the parser
    waiting, the piece [b] after it ends like the call with both at once: the
    same return value, the consumed bytes added up, and the same parser up to
    the array [namebuf], which is dead between two header lines, and the
    capacity of the buffer. *)
Theorem http_append_split (malloc_ok realloc_ok : Z -> bool) (a b : list Z) (p p1 p2 : http_parser) (n1 ret n2 : Z) :
  http_waiting malloc_ok p -> capacity_ok p -> msgsize p + blen a + blen b < 2 ^ 60 -> (forall n, realloc_ok n = true) ->
  http_parser_append_message malloc_ok realloc_ok a p = Ret (0, n1, p1) ->
  http_parser_append_message malloc_ok realloc_ok b p1 = Ret (ret, n2, p2) ->
  exists p3 nb cap, http_parser_append_message malloc_ok realloc_ok (a ++ b) p = Ret (ret, n1 + n2, p3) /\
    p3 = set_namebuf nb (set_cap cap p2).
Proof.
  intros Hw Hcap Hlen Hr Ha Hb. pose proof (blen_nonneg a). pose proof (blen_nonneg b).
  assert (forall p c, http_waiting malloc_ok p -> capacity_ok p -> msgsize p + blen c < 2 ^ 60 -> exists cap,
    msgsize p + blen c < cap <= Z.max HTTP_MSGBUF_INIT_SIZE (2 * (msgsize p + blen c + 1)) /\
    http_parser_append_message malloc_ok realloc_ok c p = http_parse_message malloc_ok (blen c) (extend c cap p)) as Happ.
  { intros p' c H1 H2 H3. destruct (append_extends malloc_ok realloc_ok p' c H1 H2 H3) as [[[n Hn] _]|Hex]; [by rewrite Hr in Hn|done]. }
  destruct (Happ p a Hw Hcap ltac:(lia)) as (c1 & Hc1 & Ea). rewrite Ea in Ha.
  destruct (parse_message_spec malloc_ok p a c1 Hw ltac:(lia)) as (r1 & k1 & q1 & E1 & Hout). rewrite E1 in Ha. injection Ha as -> -> ->.
  destruct Hout as [[? _]|[[? _]|(_ & -> & Hw1 & Hfr & Hres)]]; [lia|done|]. apply frame_extend in Hfr as (F1 & F2 & F3 & _).
  assert (capacity_ok p1) as Hcap1.
  { pose proof (wait_size _ _ Hw1). pose proof (blen_nonneg (msgbuf p1)). unfold capacity_ok. lia. }
  destruct (Happ p1 b Hw1 Hcap1 ltac:(lia)) as (c2 & _ & Eb). rewrite Eb in Hb.
  destruct (Happ p (a ++ b) Hw Hcap ltac:(rewrite blen_app; lia)) as (c3 & _ & Eab).
  assert (http_parse_message malloc_ok (blen b) (extend b c3 p1) = Ret (ret, n2, set_cap c3 p2)) as Hb3.
  { change (extend b c3 p1) with (set_cap c3 (extend b c2 p1)). by rewrite parse_message_cap, Hb. }
  destruct (Hres _ _ _ _ _ Hb3) as (nb & n' & Hab & Hn).
  pose proof (http_count malloc_ok p1 b c2 _ _ _ Hw1 ltac:(lia) Hb) as Hn2.
  pose proof (http_count malloc_ok p (a ++ b) c3 _ _ _ Hw ltac:(rewrite blen_app; lia) Hab) as Hn3. rewrite blen_app in Hn3.
  exists (set_namebuf nb (set_cap c3 p2)), nb, c3. rewrite Eab, Hab. split; [|done].
  unfold u64 in Hn. rewrite !Z.mod_small in Hn by (pose proof (wait_size _ _ Hw); pose proof (blen_nonneg (msgbuf p)); lia). by subst n'.
Qed.

(** Cut inside a header name, inside a line end and inside the body. *)
Lemma http_append_split_witness :
  exists p1 p2 p3 nb cap,
    http_parser_append_message (fun _ => true) (fun _ => true) (txt "GET / HTTP/1.1" ++ [13; 10] ++ txt "Content-Le") new_request =
      Ret (0, 26, p1) /\
    http_parser_append_message (fun _ => true) (fun _ => true) (txt "ngth: 1" ++ [13; 10; 13; 10; 33; 33]) p1 = Ret (1, 12, p2) /\
    http_parser_append_message (fun _ => true) (fun _ => true) ((txt "GET / HTTP/1.1" ++ [13; 10] ++ txt "Content-Le") ++
        (txt "ngth: 1" ++ [13; 10; 13; 10; 33; 33])) new_request = Ret (1, 26 + 12, p3) /\
    p3 = set_namebuf nb (set_cap cap p2).
Proof.
  edestruct (http_append_split (fun _ => true) (fun _ => true) (txt "GET / HTTP/1.1" ++ [13; 10] ++ txt "Content-Le")
    (txt "ngth: 1" ++ [13; 10; 13; 10; 33; 33]) new_request) as (p3 & nb & cap & H).
  - apply init_waiting. reflexivity.
  - split; vm_compute; discriminate.
  - vm_compute. reflexivity.
  - done.
  - vm_compute. reflexivity.
  - vm_compute. reflexivity.
  - eexists _, _, p3, nb, cap. split; [vm_compute; reflexivity|]. split; [vm_compute; reflexivity|]. exact H.
Defined.

(** ** Whole messages *)

Record request := mkRequest {
  req_method : list Z;
  req_uri : list Z;
  req_version : list Z;
  req_headers : list (list Z * list Z)
}.

Definition encode_field (h : list Z * list Z) : list Z := h.1 ++ 58 :: 32 :: h.2 ++ [13; 10].

Definition encode_fields (hs : list (list Z * list Z)) : list Z := concat (map encode_field hs) ++ [13; 10].

Definition start_line (r : request) : list Z := req_method r ++ 32 :: req_uri r ++ 32 :: req_version r.

Definition encode_request (r : request) : list Z := start_line r ++ 13 :: 10 :: encode_fields (req_headers r).

(** The fields of a list of lines, read with a cursor. *)
Fixpoint cursor_walk (fuel : nat) (c : list header_line) : comp (list (list Z * list Z)) :=
  match fuel with
  | O => NoFuel
  | S f =>
      let! '(field, c) := http_header_cursor_next c in
      match field with
      | None => Ret []
      | Some h => let! hs := cursor_walk f c in Ret (h :: hs)
      end
  end.

(** A word of the start line. *)
Definition word_ok (w : list Z) : Prop := (32 ∉ w) /\ (13 ∉ w) /\ (0 ∉ w).

(** A header field without folding or surrounding blanks. *)
Record field_ok (h : list Z * list Z) : Prop := {
  name_chars : Forall (fun c => 0 < c < 128 /\ c <> 58 /\ c <> 13) h.1;
  name_first : forall c l, h.1 = c :: l -> is_blank c = false;
  name_short : blen h.1 < HTTP_HEADER_NAME_MAX;
  value_chars : Forall (fun c => 0 < c < 128 /\ c <> 13) h.2;
  value_first : forall c l, h.2 = c :: l -> is_blank c = false;
  value_last : forall c l, h.2 = l ++ [c] -> is_blank c = false;
  value_short : blen h.2 < HTTP_HEADER_VALUE_MAX
}.

Record request_ok (r : request) : Prop := {
  method_ok : word_ok (req_method r);
  uri_ok : word_ok (req_uri r);
  version_ok : (13 ∉ req_version r) /\ (0 ∉ req_version r);
  line_short : blen (start_line r) < HTTP_START_LINE_MAX;
  fields_ok : Forall field_ok (req_headers r)
}.

(** A field that says nothing about the body. *)
Definition plain_field (h : list Z * list Z) : Prop :=
  strcaseeq h.1 (txt "Content-Length") = false /\ strcaseeq h.1 (txt "Transfer-Encoding") = false.

(** What a field does to [content_length] and [chunked]. *)
Definition field_effect (st : Z * bool) (h : list Z * list Z) : Z * bool :=
  if strcaseeq h.1 (txt "Content-Length") then
    match h.2 with
    | c :: _ => if isdigit c && (blen h.2 <=? 15)
                then (match atol (h.2 ++ [0]) with Ret z => u64 z | _ => st.1 end, st.2) else st
    | [] => st
    end
  else if strcaseeq h.1 (txt "Transfer-Encoding") then (st.1, negb (strcaseeq h.2 (txt "identity")))
  else st.

Definition field_line (h : list Z * list Z) : header_line :=
  mkLine (blen h.1) (blen h.2) (h.1 ++ [58; 32] ++ h.2 ++ [13; 10]).

Lemma strcaseeq_length a b : strcaseeq a b = true -> blen a = blen b.
Proof.
  unfold strcaseeq. intros H%bool_decide_eq_true. apply (f_equal length) in H. rewrite !length_map in H.
  unfold blen. lia.
Qed.

Lemma strcaseeq_other a b : blen a <> blen b -> strcaseeq a b = false.
Proof. intros H. destruct (strcaseeq a b) eqn:E; [|done]. by apply strcaseeq_length in E. Qed.

Lemma value_compare v s n : blen s = n -> 0 ∉ v -> 0 ∉ s ->
  (if blen v =? n then strncaseeq (v ++ [0]) s n else Ret false) = Ret (strcaseeq v s).
Proof.
  intros Hs H1 H2. destruct (Z.eqb_spec (blen v) n); [by apply strncaseeq_texts|].
  by rewrite strcaseeq_other by congruence.
Qed.

Lemma txt_no_nul : (0 ∉ txt "Expect") /\ (0 ∉ txt "100-continue") /\ (0 ∉ txt "Connection") /\ (0 ∉ txt "Keep-Alive") /\
  (0 ∉ txt "close") /\ (0 ∉ txt "Content-Length") /\ (0 ∉ txt "Transfer-Encoding") /\ (0 ∉ txt "identity").
Proof. repeat split; apply (bool_decide_unpack _); vm_compute; exact I. Qed.

(** Everything but the flags, the content length and [chunked]. *)
Definition stays (p q : http_parser) : Prop :=
  frame q = frame p /\ header_list q = header_list p /\ method q = method p /\ uri q = uri p /\ version q = version p /\
  transfer_length q = transfer_length p /\ header_offset q = header_offset p /\ header_state q = header_state p /\
  namebuf q = namebuf p.

Lemma check_header_effect n r v p :
  0 ∉ n -> 0 ∉ v -> exists q, check_message_header (n ++ r) (blen n) (v ++ [0]) (blen v) p = Ret q /\
    stays p q /\ (content_length q, chunked q) = field_effect (content_length p, chunked p) (n, v).
Proof.
  intros Hn Hv. unfold check_message_header, field_effect. cbn [fst snd].
  destruct txt_no_nul as (T1 & T2 & T3 & T4 & T5 & T6 & T7 & T8).
  assert (forall s k, blen n <> k -> blen s = k -> strcaseeq n s = false) as Hne
    by (intros s k Hk Hs; apply strcaseeq_other; lia).
  destruct (Z.eqb_spec (blen n) 6) as [E|E1].
  { rewrite (Hne (txt "Content-Length") 14), (Hne (txt "Transfer-Encoding") 17), strncaseeq_texts by (done || lia).
    cbn [cbind]. destruct (strcaseeq n _); [|by eexists]. rewrite value_compare by done. cbn [cbind].
    destruct (strcaseeq v _); by eexists. }
  destruct (Z.eqb_spec (blen n) 10) as [E|E2].
  { rewrite (Hne (txt "Content-Length") 14), (Hne (txt "Transfer-Encoding") 17) by (done || lia).
    rewrite (strncaseeq_texts n r (txt "Connection")), (strncaseeq_texts n r (txt "Keep-Alive")) by (done || lia).
    cbn [cbind]. destruct (strcaseeq n (txt "Connection")); [|destruct (strcaseeq n (txt "Keep-Alive")); by eexists].
    rewrite (value_compare v (txt "Keep-Alive")), (value_compare v (txt "close")) by done. cbn [cbind].
    destruct (strcaseeq v (txt "Keep-Alive")); [by eexists|]. cbn [cbind].
    destruct (strcaseeq v (txt "close")); by eexists. }
  destruct (Z.eqb_spec (blen n) 14) as [E|E3].
  { rewrite (Hne (txt "Transfer-Encoding") 17), strncaseeq_texts by (done || lia). cbn [cbind].
    destruct (strcaseeq n _); [|by eexists]. destruct v as [|c v]; [by eexists|].
    change (rd ((c :: v) ++ [0]) 0) with (Ret c). cbn [cbind]. destruct (isdigit c && _); [|by eexists].
    rewrite rd_block_0_app by (pose proof (blen_nonneg (c :: v)); lia). rewrite rd_block_0_all. cbn [cbind].
    destruct (strtol10_nul ((c :: v) ++ [0])) as [z Hz]; [rewrite elem_of_app; right; by left|].
    unfold atol. rewrite Hz. by eexists. }
  rewrite (Hne (txt "Content-Length") 14) by (done || lia).
  destruct (Z.eqb_spec (blen n) 17) as [E|E4].
  { rewrite strncaseeq_texts by (done || lia). cbn [cbind]. destruct (strcaseeq n _); [|by eexists].
    rewrite value_compare by done. by eexists. }
  rewrite (Hne (txt "Transfer-Encoding") 17) by (done || lia). by eexists.
Qed.

Section RoundTrip.
Variable malloc_ok : Z -> bool.
Hypothesis malloc_all : forall n, malloc_ok n = true.

#[local] Abbreviation hruns := (loop_runs (parse_header_item malloc_ok) header_offset header_fin).

Lemma add_header_effect n r v p :
  0 ∉ n -> 0 ∉ v -> blen n < 2 ^ 31 -> blen v < 2 ^ 31 ->
  exists q, http_parser_add_header malloc_ok (n ++ r) (blen n) (v ++ [0]) (blen v) p = Ret (0, q) /\
    stays (set_headers (header_list p ++ [field_line (n, v)]) p) q /\
    (content_length q, chunked q) = field_effect (content_length p, chunked p) (n, v).
Proof.
  intros Hn Hv Hln Hlv. unfold http_parser_add_header, add_message_header. rewrite malloc_all.
  pose proof (blen_nonneg n). pose proof (blen_nonneg v).
  rewrite !rd_block_0_app, !rd_block_0_all by lia. cbn [cbind Z.leb Z.compare]. rewrite !i32_small by lia.
  destruct (check_header_effect n r v (set_headers (header_list p ++ [field_line (n, v)]) p) Hn Hv) as (q & Hq & Hs & He).
  exists q. unfold field_line in Hq. cbn [fst snd] in Hq. by rewrite Hq.
Qed.

(** A header name and a header value as items. *)
Lemma name_run_encoded n rest : forall seen, Forall (fun c => 0 < c < 128 /\ c <> 58 /\ c <> 13) n ->
  blen seen + blen n < HTTP_HEADER_NAME_MAX -> name_run seen (n ++ 58 :: rest) = (1, seen ++ n ++ [0]).
Proof.
  induction n as [|c n IH]; intros seen Hn Hl; cbn [app name_run].
  - rewrite blen_nil in Hl. destruct (Z.leb_spec HTTP_HEADER_NAME_MAX (blen seen)); [lia|]. done.
  - rewrite blen_cons in Hl. pose proof (blen_nonneg n). inversion_clear Hn as [|? ? (Hc1 & Hc2 & Hc3) Hn'].
    destruct (Z.leb_spec HTTP_HEADER_NAME_MAX (blen seen)); [lia|]. destruct (Z.eqb_spec c 58); [done|].
    assert (i8 c = c) as -> by (unfold i8, swrap; rewrite Z.mod_small; lia). destruct (Z.leb_spec c 0); [lia|].
    rewrite IH; [by rewrite <- app_assoc|done|rewrite blen_app, blen_cons, blen_nil; lia].
Qed.

Lemma copy_line_encoded v rest : forall hv, Forall (fun c => 0 < c < 128 /\ c <> 13) v ->
  blen hv + blen v < HTTP_HEADER_VALUE_MAX -> copy_line (v ++ 13 :: 10 :: rest) hv = Ret (line_break (10 :: rest) (hv ++ v)).
Proof.
  induction v as [|c v IH]; intros hv Hv Hl; cbn [app copy_line].
  - rewrite blen_nil in Hl. destruct (Z.eqb_spec (blen hv) HTTP_HEADER_VALUE_MAX); [lia|]. by rewrite app_nil_r.
  - rewrite blen_cons in Hl. pose proof (blen_nonneg v). inversion_clear Hv as [|? ? (Hc1 & Hc2) Hv'].
    destruct (Z.eqb_spec (blen hv) HTTP_HEADER_VALUE_MAX); [lia|]. destruct (Z.eqb_spec c 13); [done|].
    assert (i8 c = c) as -> by (unfold i8, swrap; rewrite Z.mod_small; lia). destruct (Z.leb_spec c 0); [lia|].
    rewrite IH; [|done|rewrite blen_app, blen_cons, blen_nil; lia]. rewrite <- app_assoc.
    destruct (v ++ 13 :: 10 :: rest) eqn:E; [by destruct v|done].
Qed.

Lemma trim_blanks_id v : (forall c l, v = l ++ [c] -> is_blank c = false) -> trim_blanks v = v.
Proof.
  intros H. unfold trim_blanks. destruct (reverse v) as [|c l] eqn:E.
  - apply (f_equal reverse) in E. rewrite reverse_involutive in E. by subst.
  - cbn [trim_front]. rewrite (H c (reverse l)); [rewrite <- E; apply reverse_involutive|].
    rewrite <- (reverse_involutive v), E. apply reverse_cons.
Qed.

Lemma value_loop_encoded f n v d rest :
  field_ok (n, v) -> is_blank d = false ->
  header_value_loop (S f) (32 :: v ++ 13 :: 10 :: d :: rest) [] = Ret (inr (d :: rest, v)).
Proof.
  intros [_ _ _ H1 H2 H3 H4] Hd. cbn [snd] in *. cbn [header_value_loop skip_blanks is_blank Z.eqb Pos.eqb orb].
  assert (skip_blanks (v ++ 13 :: 10 :: d :: rest) = v ++ 13 :: 10 :: d :: rest) as ->.
  { destruct v as [|c v]; [done|]. cbn [app skip_blanks]. by rewrite (H2 c v). }
  destruct (v ++ 13 :: 10 :: d :: rest) as [|c0 l0] eqn:E; [by destruct v|]. rewrite <- E.
  rewrite copy_line_encoded; [|done|rewrite blen_nil; lia]. cbn [cbind app negb Z.eqb Pos.eqb]. rewrite Hd, trim_blanks_id by done.
  destruct (Z.ltb_spec (blen v) HTTP_HEADER_VALUE_MAX); [done|lia].
Qed.

Lemma no_nul_name n : Forall (fun c => 0 < c < 128 /\ c <> 58 /\ c <> 13) n -> (0 ∉ n) /\ (13 ∉ n).
Proof. rewrite Forall_forall. intros H. split; intros Hc; apply H in Hc; lia. Qed.

Lemma no_nul_value n : Forall (fun c => 0 < c < 128 /\ c <> 13) n -> 0 ∉ n.
Proof. rewrite Forall_forall. intros H Hc. apply H in Hc; lia. Qed.

(** A field: two items. *)
Lemma field_run msg h d rest p :
  field_ok h -> is_blank d = false -> header_state p = HPS_HEADER_NAME -> header_ok p ->
  at_pos msg (header_offset p) (encode_field h ++ d :: rest) ->
  exists q, (forall res, hruns msg q res -> hruns msg p res) /\
    at_pos msg (header_offset q) (d :: rest) /\ header_state q = HPS_HEADER_NAME /\ header_ok q /\
    frame q = frame p /\ header_list q = header_list p ++ [field_line h] /\
    method q = method p /\ uri q = uri p /\ version q = version p /\ transfer_length q = transfer_length p /\
    (content_length q, chunked q) = field_effect (content_length p, chunked p) h.
Proof.
  destruct h as [n v]. intros Hf Hd Hst Hok Hat. pose proof Hf as [H1 _ H3 H4 _ _ H7]. cbn [fst snd] in *.
  destruct (no_nul_name n H1) as [Hn0 Hn13]. pose proof (no_nul_value v H4) as Hv0. pose proof (blen_nonneg n). pose proof (blen_nonneg v).
  set (l1 := 32 :: v ++ 13 :: 10 :: d :: rest).
  assert (encode_field (n, v) ++ d :: rest = (n ++ [58]) ++ l1) as El by (unfold encode_field, l1; cbn; by rewrite <- !app_assoc; cbn; rewrite <- app_assoc).
  rewrite El in Hat. set (p1 := (name_result (namebuf p) (1, n ++ [0]) p).2).
  assert (parse_header_item malloc_ok ((n ++ [58]) ++ l1) (blen ((n ++ [58]) ++ l1)) p = Ret (1, p1)) as Hs1.
  { unfold parse_header_item. rewrite Hst, parse_header_name_run by apply Hok. rewrite <- app_assoc. cbn [app].
    rewrite name_run_encoded by (done || (rewrite blen_nil; lia)).
    assert (crlf_start (n ++ 58 :: l1) = false) as ->; [|done]. destruct n as [|c [|c2 n]]; [done|cbn; by destruct (c =? 13)|].
    cbn. destruct (Z.eqb_spec c 13); [|done]. subst. destruct Hn13. by left. }
  assert (namebuf p1 = n ++ 0 :: drop (length (n ++ [0])) (namebuf p)) as Enb by (cbn; unfold overwrite; by rewrite <- app_assoc).
  assert (header_offset p1 = header_offset p + blen (n ++ [58])) as Eo by (cbn -[blen]; by rewrite !blen_app).
  assert (header_ok p1) as Hok1.
  { destruct Hok as [K1 K2 K3 K4 K5]. split; [|intros _; rewrite Enb, elem_of_app; right; by left|done|done|].
    - change (namebuf p1) with (overwrite (namebuf p) (n ++ [0])).
      rewrite blen_overwrite; [done|]. rewrite K1, blen_app, blen_cons, blen_nil. lia.
    - rewrite Eo, blen_app, blen_cons, blen_nil. lia. }
  pose proof (at_pos_app _ _ _ _ Hat) as Hat1. rewrite <- Eo in Hat1.
  destruct (add_header_effect n (0 :: drop (length (n ++ [0])) (namebuf p)) v p1 Hn0 Hv0) as (q & Hq & Hsq & Heq);
    [unfold HTTP_HEADER_NAME_MAX in *; lia|unfold HTTP_HEADER_VALUE_MAX in *; lia|].
  assert (parse_header_item malloc_ok l1 (blen l1) p1 =
    Ret (1, set_header_pos HPS_HEADER_NAME (header_offset q + blen (32 :: v ++ [13; 10])) q)) as Hs2.
  { unfold parse_header_item. change (header_state p1) with HPS_HEADER_VALUE. cbv iota. rewrite parse_header_value_run by done.
    unfold l1. rewrite value_loop_encoded with (n := n) by done. cbn [cbind]. rewrite Enb, cstr_nul, Hq by done. cbn [cbind Z.ltb Z.compare].
    do 4 f_equal. rewrite !blen_cons, !blen_app, !blen_cons, blen_nil. lia. }
  destruct Hsq as (Q1 & Q2 & Q3 & Q4 & Q5 & Q6 & Q7 & Q8 & Q9). cbn [set_headers header_list method uri version transfer_length] in *.
  set (q2 := set_header_pos HPS_HEADER_NAME (header_offset q + blen (32 :: v ++ [13; 10])) q) in *.
  exists q2. split; [|split; [|split; [done|split; [|split; [exact Q1|split; [exact Q2|done]]]]]].
  - intros res Hres. eapply (loop_runs_item (parse_header_item malloc_ok)); [exact Hat|exact Hs1|]. split; [rewrite Eo, blen_app, blen_cons, blen_nil; lia|].
    eapply (loop_runs_item (parse_header_item malloc_ok)); [exact Hat1|exact Hs2|]. split; [|done].
    change (header_offset q2) with (header_offset q + blen (32 :: v ++ [13; 10])). rewrite Q7.
    change (header_offset (set_headers (header_list p1 ++ [field_line (n, v)]) p1)) with (header_offset p1).
    rewrite blen_cons, blen_app. pose proof (blen_nonneg [13; 10]). lia.
  - unfold q2. cbn [header_offset set_header_pos]. rewrite Q7.
    change (header_offset (set_headers (header_list p1 ++ [field_line (n, v)]) p1)) with (header_offset p1).
    apply at_pos_app. unfold l1 in Hat1. cbn [app]. rewrite <- app_assoc. exact Hat1.
  - destruct (value_item malloc_ok l1 p1 Hok1 eq_refl) as [(ret & s & _ & Hs & _ & _ & Hok2)|(s & Hs & _)].
    + specialize (Hs []). rewrite app_nil_r, Hs2 in Hs. injection Hs as <- <-. by apply Hok2.
    + by rewrite Hs2 in Hs.
Qed.

Lemma encode_fields_first hs rest : Forall field_ok hs ->
  exists d l, encode_fields hs ++ rest = d :: l /\ is_blank d = false.
Proof.
  intros Hf. destruct Hf as [|[n v] hs Hh _]; [by eexists 13, _|]. destruct n as [|c n].
  - by eexists 58, _.
  - exists c. eexists. split; [reflexivity|]. by apply (name_first _ Hh c n).
Qed.

Lemma fields_run msg hs rest : forall p,
  Forall field_ok hs -> header_state p = HPS_HEADER_NAME -> header_ok p ->
  at_pos msg (header_offset p) (encode_fields hs ++ rest) ->
  exists q, (forall res, hruns msg q res -> hruns msg p res) /\
    at_pos msg (header_offset q) (13 :: 10 :: rest) /\ header_state q = HPS_HEADER_NAME /\ header_ok q /\
    frame q = frame p /\ header_list q = header_list p ++ map field_line hs /\
    method q = method p /\ uri q = uri p /\ version q = version p /\ transfer_length q = transfer_length p /\
    (content_length q, chunked q) = fold_left field_effect hs (content_length p, chunked p).
Proof.
  induction hs as [|h hs IH]; intros p Hf Hst Hok Hat.
  - exists p. rewrite app_nil_r. split; [done|]. repeat (split; [done|]). done.
  - inversion_clear Hf as [|? ? Hh Hf']. destruct (encode_fields_first hs rest Hf') as (d & l & El & Hd).
    assert (encode_fields (h :: hs) ++ rest = encode_field h ++ d :: l) as E
      by (rewrite <- El; unfold encode_fields; cbn [map concat]; by rewrite <- !app_assoc).
    rewrite E in Hat. destruct (field_run msg h d l p Hh Hd Hst Hok Hat)
      as (q & Hr & Hatq & Hstq & Hokq & H1 & H2 & H3 & H4 & H5 & H6 & H7). rewrite <- El in Hatq.
    destruct (IH q Hf' Hstq Hokq Hatq) as (s & Hrs & Hats & Hsts & Hoks & K1 & K2 & K3 & K4 & K5 & K6 & K7).
    exists s. split; [auto|]. split; [done|]. split; [done|]. split; [done|]. split; [congruence|].
    split; [rewrite K2, H2, <- app_assoc; done|]. repeat (split; [congruence|]). rewrite K7, H7. done.
Qed.

(** The empty line behind the fields. *)
Lemma fields_end msg rest p : header_state p = HPS_HEADER_NAME -> header_ok p ->
  at_pos msg (header_offset p) (13 :: 10 :: rest) ->
  hruns msg p (1, set_header_pos HPS_HEADER_COMPLETE (header_offset p + 2) p).
Proof.
  intros Hst Hok Hat. apply loop_runs_item with (l := 13 :: 10 :: rest) (q := set_header_pos HPS_HEADER_COMPLETE (header_offset p + 2) p); [done| |done].
  unfold parse_header_item. rewrite Hst, parse_header_name_run by apply Hok. done.
Qed.

Lemma strchr_word w rest : 32 ∉ w -> strchr 32 (w ++ 32 :: rest) = Some (w, rest).
Proof.
  induction w as [|c w IH]; cbn [app strchr]; [done|]. intros [Hc Hw]%not_elem_of_cons.
  destruct (Z.eqb_spec c 32); [congruence|]. by rewrite IH.
Qed.

Lemma start_run_line line rest p : forall seen, (13 ∉ line) -> (0 ∉ line) -> blen seen + blen line < HTTP_START_LINE_MAX ->
  start_run malloc_ok seen (line ++ 13 :: 10 :: rest) p =
    match_start_line malloc_ok (seen ++ line) (blen (seen ++ line)) p.
Proof.
  induction line as [|c line IH]; intros seen H13 H0 Hl; cbn [app start_run].
  - rewrite blen_nil in Hl. destruct (Z.leb_spec HTTP_START_LINE_MAX (blen seen)); [lia|]. by rewrite app_nil_r.
  - rewrite blen_cons in Hl. pose proof (blen_nonneg line). apply not_elem_of_cons in H13 as [Hc13 H13], H0 as [Hc0 H0].
    destruct (Z.leb_spec HTTP_START_LINE_MAX (blen seen)); [lia|]. destruct (Z.eqb_spec c 13); [congruence|].
    destruct (Z.eqb_spec c 0); [congruence|]. rewrite IH by (done || (rewrite blen_app, blen_cons, blen_nil; lia)).
    by rewrite <- app_assoc.
Qed.

Lemma start_line_chars r : request_ok r -> (13 ∉ start_line r) /\ (0 ∉ start_line r).
Proof.
  intros [(_ & M1 & M2) (_ & U1 & U2) (V1 & V2) _ _]. unfold start_line.
  rewrite !not_elem_of_app, !not_elem_of_cons, !not_elem_of_app, !not_elem_of_cons. auto 10.
Qed.

(** The request line as an item. *)
Lemma start_run_request r rest p : request_ok r -> is_resp p = false -> header_state p = HPS_START_LINE ->
  let l := start_line r ++ 13 :: 10 :: rest in
  exists keep, parse_header_item malloc_ok l (blen l) p =
    Ret (1, set_header_pos HPS_HEADER_NAME (header_offset p + (blen (start_line r) + 2))
      (set_start (Some (req_version r)) (Some (req_method r)) (Some (req_uri r)) (code p) (phrase p) (set_keep_alive keep p))).
Proof.
  intros Hr Hresp Hst l. destruct (start_line_chars r Hr) as [H13 H0]. destruct Hr as [(M & _ & _) (U & _ & _) _ Hl _].
  exists (if old_version (req_version r) then false else keep_alive p).
  unfold parse_header_item. rewrite Hst, parse_start_line_run.
  assert (crlf_start l = false) as ->.
  { unfold l. destruct (start_line r) as [|c [|c2 w]] eqn:E; [by unfold start_line in E; destruct (req_method r)|..]; cbn;
      (destruct (Z.eqb_spec c 13) as [->|]; [destruct H13; by left|done]). }
  unfold l. rewrite start_run_line by (done || (rewrite blen_nil; lia)). cbn [app]. f_equal.
  unfold match_start_line, match_request_line, strdup_ok. unfold start_line at 1.
  rewrite strchr_word, strchr_word by done. rewrite Hresp, !malloc_all. cbn [andb].
  destruct (old_version (req_version r)); [done|]. cbn [Z.ltb Z.compare]. by destruct p.
Qed.

Lemma cursor_walk_lines hs : forall fuel, (length hs < fuel)%nat -> Forall field_ok hs ->
  cursor_walk fuel (map field_line hs) = Ret hs.
Proof.
  induction hs as [|[n v] hs IH]; intros [|fuel] Hf Hok; [simpl in Hf; lia|done|simpl in Hf; lia|].
  inversion_clear Hok as [|? ? Hh Hok']. cbn [map cursor_walk http_header_cursor_next field_line line_buf name_len value_len fst snd].
  pose proof (blen_nonneg n). pose proof (blen_nonneg v). pose proof (name_short _ Hh) as Hn. pose proof (value_short _ Hh) as Hv.
  cbn [fst snd] in *. unfold HTTP_HEADER_NAME_MAX, HTTP_HEADER_VALUE_MAX in *.
  unfold u64. rewrite !Z.mod_small by lia. rewrite rd_block_0_app, rd_block_0_all by lia. cbn [cbind].
  replace (n ++ [58; 32] ++ v ++ [13; 10]) with ((n ++ [58; 32]) ++ v ++ [13; 10]) by (by rewrite <- app_assoc).
  replace (blen n + 2) with (blen (n ++ [58; 32])) by (by rewrite blen_app). rewrite rd_block_app_mid. cbn [cbind].
  simpl in Hf. rewrite IH by (done || lia). done.
Qed.

(** The header of a request as the loop over its items reads it. *)
Lemma request_header_run r rest p :
  request_ok r -> is_resp p = false -> header_state p = HPS_START_LINE -> header_ok p -> header_offset p = 0 ->
  transfer_length p = SIZE_MAX ->
  let msg := encode_request r ++ rest in
  exists s, hruns msg p (1, s) /\ header_ok s /\ frame s = frame p /\ header_fin s = true /\
    header_offset s = blen (encode_request r) /\ header_list s = header_list p ++ map field_line (req_headers r) /\
    method s = Some (req_method r) /\ uri s = Some (req_uri r) /\ version s = Some (req_version r) /\
    transfer_length s = SIZE_MAX /\
    (content_length s, chunked s) = fold_left field_effect (req_headers r) (content_length p, chunked p).
Proof.
  intros Hr Hresp Hst Hok Ho Ht msg. assert (msg = start_line r ++ 13 :: 10 :: encode_fields (req_headers r) ++ rest) as Em
    by (unfold msg, encode_request; by rewrite <- app_assoc).
  destruct (start_run_request r (encode_fields (req_headers r) ++ rest) p Hr Hresp Hst) as (keep & Hs). rewrite <- Em in Hs.
  match type of Hs with _ = Ret (1, ?q) => set (p1 := q) in * end.
  assert (header_ok p1) as Hok1.
  { destruct (start_item malloc_ok msg p Hok Hst) as [(ret & s & _ & H & _ & _ & Hok2)|(s & H & _)].
    - specialize (H []). rewrite app_nil_r, Hs in H. injection H as <- <-. by apply Hok2.
    - by rewrite Hs in H. }
  assert (header_offset p1 = blen (start_line r ++ [13; 10])) as Eo by (rewrite blen_app; unfold p1; cbn [header_offset set_header_pos set_start]; rewrite Ho; done).
  assert (at_pos msg 0 ((start_line r ++ [13; 10]) ++ encode_fields (req_headers r) ++ rest)) as Hat
    by (rewrite Em, <- app_assoc; apply at_pos_0).
  apply at_pos_app in Hat. rewrite Z.add_0_l, <- Eo in Hat.
  destruct (fields_run msg _ rest p1 (fields_ok _ Hr) eq_refl Hok1 Hat)
    as (q & Hrun & Hatq & Hstq & Hokq & K1 & K2 & K3 & K4 & K5 & K6 & K7).
  pose proof (at_pos_len _ _ _ Hatq) as Hlen. unfold msg in Hlen. rewrite blen_app, !blen_cons in Hlen.
  exists (set_header_pos HPS_HEADER_COMPLETE (header_offset q + 2) q). split.
  - apply loop_runs_item with (l := msg) (q := p1); [rewrite Ho; apply at_pos_0|exact Hs|].
    split; [rewrite Eo, Ho, blen_app; pose proof (blen_nonneg (start_line r)); cbn -[blen]; change (blen [13; 10]) with 2; lia|].
    apply Hrun. by apply (fields_end msg rest).
  - split; [destruct Hokq as [J1 J2 J3 J4 J5]; split; try done; cbn; lia|]. split; [exact K1|]. split; [done|].
    split; [cbn; lia|]. split; [exact K2|]. split; [exact K3|]. split; [exact K4|]. split; [exact K5|].
    split; [transitivity (transfer_length p); [exact K6|done]|exact K7].
Qed.

Lemma fold_plain hs st : Forall plain_field hs -> fold_left field_effect hs st = st.
Proof.
  intros H. induction H as [|h hs [H1 H2] _ IH]; [done|]. cbn [fold_left]. unfold field_effect at 2. by rewrite H1, H2, IH.
Qed.

(** The field [Content-Length]. *)
Lemma content_length_effect n st : 0 <= n < 10 ^ 15 -> field_effect st (txt "Content-Length", dec n) = (n, st.2).
Proof.
  intros Hn. unfold field_effect. cbn [fst snd].
  replace (strcaseeq (txt "Content-Length") (txt "Content-Length")) with true by done. cbv iota.
  destruct (dec_nonneg n ltac:(lia)) as (d & ds & E & Hd & _). inversion_clear Hd as [|? ? Hd1 _].
  pose proof (blen_dec n 15 Hn ltac:(lia)) as Hl.
  unfold atol. rewrite strtol10_dec by (unfold LONG_MIN, LONG_MAX; change (digit_value 0) with 36; lia).
  rewrite E in *. rewrite Hd1. destruct (Z.leb_spec (blen (d :: ds)) 15); [|lia]. cbn [andb].
  unfold u64. by rewrite Z.mod_small by lia.
Qed.

Lemma fold_content_length hs1 hs2 n st : Forall plain_field (hs1 ++ hs2) -> 0 <= n < 10 ^ 15 ->
  fold_left field_effect (hs1 ++ (txt "Content-Length", dec n) :: hs2) st = (n, st.2).
Proof.
  intros H Hn. apply Forall_app in H as [H1 H2]. rewrite fold_left_app, (fold_plain hs1) by done. cbn [fold_left].
  rewrite content_length_effect by done. by apply fold_plain.
Qed.
End RoundTrip.

(** A request whose fields say that the body is [body]. *)
Lemma request_append malloc_ok realloc_ok r body rest nb cs co :
  let msg := encode_request r in
  (forall n, malloc_ok n = true) -> (forall n, realloc_ok n = true) -> request_ok r ->
  fold_left field_effect (req_headers r) (0, false) = (blen body, false) ->
  blen body < 10 ^ 15 -> blen (msg ++ body ++ rest) < 2 ^ 60 -> blen nb = HTTP_HEADER_NAME_MAX ->
  exists q, http_parser_append_message malloc_ok realloc_ok (msg ++ body ++ rest) (http_parser_init false cs co nb) =
      Ret (1, blen (msg ++ body), q) /\
    method q = Some (req_method r) /\ uri q = Some (req_uri r) /\ version q = Some (req_version r) /\
    cursor_walk (S (length (req_headers r))) (header_list q) = Ret (req_headers r) /\
    http_parser_get_body q = Ret (Some body).
Proof.
  intros msg Hm Hrl Hr Hfold Hbody Hlen Hnb. set (p0 := http_parser_init false cs co nb).
  pose proof (init_waiting malloc_ok false cs co nb Hnb) as Hw. fold p0 in Hw. pose proof (wait_ok _ _ Hw) as Hok0.
  destruct (append_extends malloc_ok realloc_ok p0 (msg ++ body ++ rest) Hw ltac:(split; vm_compute; discriminate) Hlen)
    as [[[n Hn] _]|(cap & Hcap & ->)]; [by rewrite Hrl in Hn|]. set (P := extend (msg ++ body ++ rest) cap p0).
  destruct (request_header_run malloc_ok Hm r (body ++ rest) P Hr eq_refl eq_refl
    ltac:(destruct Hok0; by split) eq_refl eq_refl) as (s & Hrun & Hoks & Hfr & Hfin & Ho & Hhl & H1 & H2 & H3 & Ht & He).
  pose proof (blen_nonneg body). pose proof (blen_nonneg rest). pose proof (blen_nonneg msg).
  change (content_length P) with 0 in He. change (chunked P) with false in He. rewrite Hfold in He. injection He as Hcl Hch. apply frame_extend in Hfr as (F1 & F2 & F3 & F4).
  rewrite (parse_message_head malloc_ok _ P 1 s); [|done|done|destruct Hok0; by split|exact Hrun].
  cbn [Z.leb Z.compare]. unfold header_done, parse_body. rewrite Hch, Ht, Z.eqb_refl. fold msg in Ho.
  cbn [set_lengths transfer_length header_offset msgsize msgbuf]. rewrite Hcl, Ho, F2. change (msgsize p0) with 0. rewrite !blen_app in *.
  destruct (Z.eqb_spec (blen body) SIZE_MAX) as [E|_]; [unfold SIZE_MAX in E; lia|]. cbn [negb].
  assert (u64 (blen msg + blen body) = blen msg + blen body) as -> by (unfold u64; rewrite Z.mod_small by lia; done).
  destruct (Z.leb_spec (blen msg + blen body) (0 + (blen msg + (blen body + blen rest)))); [|lia].
  eexists. split; [do 3 f_equal; unfold u64; rewrite Z.mod_small by lia; lia|].
  split; [exact H1|]. split; [exact H2|]. split; [exact H3|]. split.
  - cbn [http_parser_close_message set_message header_list set_lengths]. rewrite Hhl.
    apply cursor_walk_lines; [lia|]. apply (fields_ok _ Hr).
  - unfold http_parser_get_body. cbn [complete header_state http_parser_close_message set_message set_lengths msgsize bufsize msgbuf header_offset].
    unfold header_fin in Hfin. rewrite Hfin. cbn [andb]. rewrite F3, Ho, F1. change (msgsize p0) with 0 in Hcap. change (msgbuf p0) with (@nil Z).
    destruct (Z.ltb_spec (blen msg + blen body) cap); [|lia]. cbn [app].
    replace (blen msg + blen body - blen msg) with (blen body) by lia. by rewrite rd_block_app_mid.
Qed.

(** C21: parsing a well-formed request with a [Content-Length] field, whatever
    bytes follow it, consumes exactly the request and yields its method, URI,
    version, fields in order, and body. *)
Theorem http_request_roundtrip (malloc_ok realloc_ok : Z -> bool) (m u v body rest nb : list Z)
    (hs1 hs2 : list (list Z * list Z)) (cs : http_chunk_state) (co : Z) :
  let headers := hs1 ++ (txt "Content-Length", dec (blen body)) :: hs2 in
  let msg := encode_request (mkRequest m u v headers) in
  (forall n, malloc_ok n = true) -> (forall n, realloc_ok n = true) ->
  request_ok (mkRequest m u v headers) -> Forall plain_field (hs1 ++ hs2) ->
  blen body < 10 ^ 15 -> blen (msg ++ body ++ rest) < 2 ^ 60 -> blen nb = HTTP_HEADER_NAME_MAX ->
  exists q, http_parser_append_message malloc_ok realloc_ok (msg ++ body ++ rest) (http_parser_init false cs co nb) =
      Ret (1, blen (msg ++ body), q) /\
    method q = Some m /\ uri q = Some u /\ version q = Some v /\
    cursor_walk (S (length headers)) (header_list q) = Ret headers /\
    http_parser_get_body q = Ret (Some body).
Proof.
  intros headers msg Hm Hrl Hr Hplain Hbody Hlen Hnb. apply (request_append _ _ (mkRequest m u v headers)); try done.
  unfold headers. cbn [req_headers]. rewrite fold_content_length; [done|done|]. pose proof (blen_nonneg body). lia.
Qed.

(** Decides [field_ok] of a concrete field. *)
Ltac solve_field :=
  split; cbn [fst snd];
  [ repeat (constructor; [lia|]); constructor
  | intros c l H; injection H as <- _; reflexivity || discriminate
  | reflexivity
  | repeat (constructor; [lia|]); constructor
  | intros c l H; first [discriminate H | injection H as <- _; reflexivity]
  | intros c l H; apply (f_equal last) in H; rewrite last_snoc in H; vm_compute in H;
    first [discriminate H | injection H as <-; reflexivity]
  | reflexivity ].

Ltac solve_fields :=
  match goal with |- Forall field_ok ?hs => let l := eval vm_compute in hs in change (Forall field_ok l) end;
  repeat (apply Forall_cons; split; [solve_field|]); apply Forall_nil; exact I.

Lemma http_request_roundtrip_witness :
  let headers := [(txt "Host", txt "x y")] ++ (txt "Content-Length", dec (blen [104; 105])) :: [(txt "Accept", [])] in
  let msg := encode_request (mkRequest (txt "POST") (txt "/a?b") (txt "HTTP/1.1") headers) in
  exists q, http_parser_append_message (fun _ => true) (fun _ => true) (msg ++ [104; 105] ++ [1; 2; 3]) (http_parser_init false CPS_CHUNK_DATA 0 (repeat 0 64)) =
      Ret (1, blen (msg ++ [104; 105]), q) /\
    method q = Some (txt "POST") /\ uri q = Some (txt "/a?b") /\ version q = Some (txt "HTTP/1.1") /\
    cursor_walk (S (length headers)) (header_list q) = Ret headers /\
    http_parser_get_body q = Ret (Some [104; 105]).
Proof.
  apply (http_request_roundtrip (fun _ => true) (fun _ => true) (txt "POST") (txt "/a?b") (txt "HTTP/1.1") [104; 105] [1; 2; 3] (repeat 0 64)
    [(txt "Host", txt "x y")] [(txt "Accept", [])]); try reflexivity.
  - split; [repeat split; by apply (bool_decide_unpack _)..|repeat split; by apply (bool_decide_unpack _)|reflexivity|].
    solve_fields.
  - repeat (constructor; [split; reflexivity|]). constructor.
Defined.

(** a [Content-Length] of more than 15 digits, leading zeros included, is
    ignored without an error: the request is complete behind its empty line,
    its body is empty, and the bytes that the sender meant as the body are left
    over for the next message. *)
Theorem http_long_length_ignored (malloc_ok realloc_ok : Z -> bool) (m u v digits rest nb : list Z)
    (hs1 hs2 : list (list Z * list Z)) (cs : http_chunk_state) (co : Z) :
  let headers := hs1 ++ (txt "Content-Length", digits) :: hs2 in
  let msg := encode_request (mkRequest m u v headers) in
  (forall n, malloc_ok n = true) -> (forall n, realloc_ok n = true) ->
  request_ok (mkRequest m u v headers) -> Forall plain_field (hs1 ++ hs2) -> 15 < blen digits ->
  blen (msg ++ rest) < 2 ^ 60 -> blen nb = HTTP_HEADER_NAME_MAX ->
  exists q, http_parser_append_message malloc_ok realloc_ok (msg ++ rest) (http_parser_init false cs co nb) =
      Ret (1, blen msg, q) /\ http_parser_get_body q = Ret (Some []).
Proof.
  intros headers msg Hm Hrl Hr Hplain Hd Hlen Hnb.
  destruct (request_append malloc_ok realloc_ok (mkRequest m u v headers) [] rest nb cs co) as (q & Hq & _ & _ & _ & _ & Hb); try done.
  - unfold headers. cbn [req_headers]. apply Forall_app in Hplain as [H1 H2].
    rewrite fold_left_app, (fold_plain hs1) by done. cbn [fold_left]. unfold field_effect at 2. cbn [fst snd].
    replace (strcaseeq (txt "Content-Length") (txt "Content-Length")) with true by done. cbv iota.
    destruct digits as [|c ds]; [by apply fold_plain|]. destruct (Z.leb_spec (blen (c :: ds)) 15); [lia|].
    rewrite andb_false_r. by apply fold_plain.
  - exists q. rewrite app_nil_r in Hq. done.
Qed.

Lemma http_long_length_ignored_witness :
  let msg := encode_request (mkRequest (txt "POST") (txt "/") (txt "HTTP/1.1")
    ([] ++ (txt "Content-Length", txt "0000000000000005") :: [])) in
  exists q, http_parser_append_message (fun _ => true) (fun _ => true) (msg ++ txt "hello") (http_parser_init false CPS_CHUNK_DATA 0 (repeat 0 64)) =
      Ret (1, blen msg, q) /\ http_parser_get_body q = Ret (Some []).
Proof.
  apply (http_long_length_ignored (fun _ => true) (fun _ => true)); try reflexivity.
  - split; [repeat split; by apply (bool_decide_unpack _)..|repeat split; by apply (bool_decide_unpack _)|reflexivity|].
    solve_fields.
  - apply Forall_nil; exact I.
Defined.

(** ** Chunked bodies *)

(** A chunk of data, or the last one with empty data, and the extensions
    behind its size. *)
Definition chunk_ext_ok (size : Z) (ext : list Z) : Prop :=
  (forall c l, ext = c :: l -> c = 59) /\ (13 ∉ ext) /\ blen (hex size ++ ext) < HTTP_CHUNK_LINE_MAX.

Definition chunk_text (c : list Z * list Z) : list Z :=
  (hex (blen c.1) ++ c.2) ++ 13 :: 10 :: c.1 ++ [13; 10].

Definition chunk_text_ok (c : list Z * list Z) : Prop :=
  0 < blen c.1 < CHUNK_SIZE_MAX /\ chunk_ext_ok (blen c.1) c.2.

(** Trailer lines: not empty. *)
Definition trailer_ok (t : list Z) : Prop := t <> [] /\ (13 ∉ t) /\ blen t < HTTP_TRAILER_LINE_MAX.

Definition encode_chunked (chunks : list (list Z * list Z)) (ext : list Z) (trailers : list (list Z)) : list Z :=
  concat (map chunk_text chunks) ++ (hex 0 ++ ext) ++ 13 :: 10 ::
    concat (map (fun t => t ++ [13; 10]) trailers) ++ [13; 10].

Lemma chunk_run_line line rest len p : forall seen, (13 ∉ line) -> blen seen + blen line < HTTP_CHUNK_LINE_MAX ->
  chunk_run seen (line ++ 13 :: 10 :: rest) len p = take_chunk_line (seen ++ line) len (blen (seen ++ line)) p.
Proof.
  induction line as [|c line IH]; intros seen H13 Hl; cbn [app chunk_run].
  - rewrite blen_nil in Hl. destruct (Z.leb_spec HTTP_CHUNK_LINE_MAX (blen seen)); [lia|]. by rewrite app_nil_r.
  - rewrite blen_cons in Hl. pose proof (blen_nonneg line). apply not_elem_of_cons in H13 as [Hc13 H13].
    destruct (Z.leb_spec HTTP_CHUNK_LINE_MAX (blen seen)); [lia|]. destruct (Z.eqb_spec c 13); [congruence|].
    rewrite IH by (done || (rewrite blen_app, blen_cons, blen_nil; lia)). by rewrite <- app_assoc.
Qed.

Lemma trailer_run_line line rest p : forall i, (13 ∉ line) -> i + blen line < HTTP_TRAILER_LINE_MAX ->
  trailer_run i (line ++ 13 :: 10 :: rest) p =
    (1, set_chunk_pos (if i + blen line =? 0 then CPS_CHUNK_COMPLETE else chunk_state p)
          (chunk_offset p + (i + blen line + 2)) p).
Proof.
  induction line as [|c line IH]; intros i H13 Hl; cbn [app trailer_run].
  - rewrite blen_nil in *. destruct (Z.leb_spec HTTP_TRAILER_LINE_MAX i); [lia|]. by rewrite Z.add_0_r.
  - rewrite blen_cons in *. pose proof (blen_nonneg line). apply not_elem_of_cons in H13 as [Hc13 H13].
    destruct (Z.leb_spec HTTP_TRAILER_LINE_MAX i); [lia|]. destruct (Z.eqb_spec c 13); [congruence|].
    rewrite IH by (done || lia). by replace (i + (1 + blen line)) with (i + 1 + blen line) by lia.
Qed.

Lemma chunk_item_data l p : chunk_state p = CPS_CHUNK_DATA ->
  parse_chunk_item l (blen l) p = chunk_run [] l (blen l) p.
Proof. intros Hs. unfold parse_chunk_item, parse_chunk_data. rewrite Hs. by apply (chunk_loop_run [] l p). Qed.

Lemma chunk_item_trailer l p : chunk_state p = CPS_TRAILER_PART ->
  parse_chunk_item l (blen l) p = Ret (trailer_run 0 l p).
Proof. intros Hs. unfold parse_chunk_item, parse_trailer_part. rewrite Hs. by apply (trailer_loop_run [] l p). Qed.

(** The size of a chunk line, extensions ignored. *)
Lemma chunk_size_read n ext : 0 <= n <= LONG_MAX -> chunk_ext_ok n ext -> strtol16 ((hex n ++ ext) ++ [0]) = Ret (Some n).
Proof.
  intros Hn (He & _ & _). rewrite <- app_assoc. destruct ext as [|c ext]; cbn [app].
  - by apply strtol16_hex.
  - rewrite (He c ext eq_refl). by apply strtol16_hex.
Qed.

Lemma hex_no_cr n : 0 <= n <= LONG_MAX -> 13 ∉ hex n.
Proof.
  unfold LONG_MAX, hex. intros Hn. assert (forall fuel z acc, 0 <= z -> 13 ∉ acc -> 13 ∉ hex_digits fuel z acc) as H.
  { assert (forall d, 0 <= d < 16 -> 13 <> hex_digit d) as Hd by (intros d Hd; unfold hex_digit; destruct (d <? 10); lia).
    induction fuel as [|f IH]; intros z acc Hz Ha; [done|]. cbn [hex_digits]. destruct (Z.ltb_spec z 16).
    - apply not_elem_of_cons. split; [apply Hd; lia|done].
    - pose proof (Z.mod_pos_bound z 16 ltac:(lia)). apply IH; [apply Z.div_pos; lia|].
      apply not_elem_of_cons. split; [apply Hd; lia|done]. }
  apply H; [lia|]. apply not_elem_of_nil.
Qed.

Lemma chunk_line_item n ext rest p : 0 <= n <= LONG_MAX -> chunk_ext_ok n ext -> chunk_state p = CPS_CHUNK_DATA ->
  let l := (hex n ++ ext) ++ 13 :: 10 :: rest in
  parse_chunk_item l (blen l) p = take_chunk_line (hex n ++ ext) (blen l) (blen (hex n ++ ext)) p.
Proof.
  intros Hn (_ & He & Hl) Hs l. rewrite chunk_item_data by done. apply (chunk_run_line (hex n ++ ext) rest _ p []).
  - rewrite not_elem_of_app. split; [by apply hex_no_cr|done].
  - rewrite blen_nil. lia.
Qed.

Lemma CHUNK_SIZE_MAX_val : CHUNK_SIZE_MAX = 2147482620.
Proof. done. Qed.

#[local] Abbreviation cruns := (loop_runs parse_chunk_item chunk_offset chunk_fin).

Lemma chunks_run msg chunks rest : forall p,
  Forall chunk_text_ok chunks -> chunk_state p = CPS_CHUNK_DATA ->
  at_pos msg (chunk_offset p) (concat (map chunk_text chunks) ++ rest) ->
  forall res, cruns msg (set_chunk_pos CPS_CHUNK_DATA (chunk_offset p + blen (concat (map chunk_text chunks))) p) res ->
    cruns msg p res.
Proof.
  induction chunks as [|[d ext] chunks IH]; intros p Hf Hs Hat res Hr; cbn [map concat] in *.
  - rewrite blen_nil, Z.add_0_r in Hr. rewrite <- Hs in Hr. by destruct p.
  - inversion_clear Hf as [|? ? [Hd He] Hf']. cbn [fst snd] in *. rewrite CHUNK_SIZE_MAX_val in Hd.
    set (q := set_chunk_pos CPS_CHUNK_DATA (chunk_offset p + blen (chunk_text (d, ext))) p).
    assert (blen (chunk_text (d, ext)) = blen d + blen (hex (blen d) ++ ext) + 4) as Hl.
    { unfold chunk_text. cbn [fst snd]. rewrite (blen_app (hex _ ++ _)), !blen_cons, (blen_app d), !blen_cons, blen_nil. lia. }
    pose proof (blen_nonneg (hex (blen d) ++ ext)). rewrite <- app_assoc in Hat.
    eapply loop_runs_item with (q := q); [exact Hat| |].
    + assert (chunk_text (d, ext) ++ concat (map chunk_text chunks) ++ rest =
        (hex (blen d) ++ ext) ++ 13 :: 10 :: (d ++ [13; 10]) ++ concat (map chunk_text chunks) ++ rest) as E
        by (unfold chunk_text; cbn [fst snd]; rewrite <- !app_assoc; cbn [app]; by rewrite <- !app_assoc).
      set (tail := concat (map chunk_text chunks) ++ rest) in *. pose proof (blen_nonneg tail).
      assert (blen (chunk_text (d, ext) ++ tail) = blen d + blen (hex (blen d) ++ ext) + 4 + blen tail) as Hlt by (rewrite blen_app; lia).
      rewrite E in *. rewrite chunk_line_item by (done || (unfold LONG_MAX; lia)). unfold take_chunk_line.
      rewrite chunk_size_read by (done || (unfold LONG_MAX; lia)). cbn [cbind]. rewrite CHUNK_SIZE_MAX_val.
      destruct (Z.eqb_spec (blen d) 0); [lia|]. unfold u64. rewrite Z.mod_small by lia.
      destruct (Z.ltb_spec (blen d) 2147482620); [|lia]. rewrite Hlt.
      destruct (Z.ltb_spec (blen d + blen (hex (blen d) ++ ext) + 4 + blen tail) (blen d + blen (hex (blen d) ++ ext) + 4)); [lia|].
      rewrite Hs. unfold q. by rewrite Hl.
    + cbn [chunk_fin]. change (chunk_fin q) with false. cbv iota. split; [unfold q; cbn [chunk_offset set_chunk_pos]; lia|].
      apply (IH q); [done|done|exact (at_pos_app _ _ _ _ Hat)|]. unfold q. cbn [chunk_offset set_chunk_pos].
      by rewrite blen_app, Z.add_assoc in Hr.
Qed.

Lemma trailers_run msg trailers rest : forall p,
  Forall trailer_ok trailers -> chunk_state p = CPS_TRAILER_PART ->
  at_pos msg (chunk_offset p) (concat (map (fun t => t ++ [13; 10]) trailers) ++ [13; 10] ++ rest) ->
  cruns msg p (1, set_chunk_pos CPS_CHUNK_COMPLETE (chunk_offset p + blen (concat (map (fun t => t ++ [13; 10]) trailers)) + 2) p).
Proof.
  induction trailers as [|t trailers IH]; intros p Hf Hs Hat; cbn [map concat] in *.
  - rewrite blen_nil, Z.add_0_r. eapply loop_runs_item with (q := set_chunk_pos CPS_CHUNK_COMPLETE (chunk_offset p + 2) p); [exact Hat| |done].
    rewrite chunk_item_trailer by done. done.
  - inversion_clear Hf as [|? ? (Ht & H13 & Hl) Hf']. set (q := set_chunk_pos CPS_TRAILER_PART (chunk_offset p + blen (t ++ [13; 10])) p).
    assert (blen (t ++ [13; 10]) = blen t + 2) as Hlt by (by rewrite blen_app). pose proof (blen_nonneg t).
    rewrite <- app_assoc in Hat. eapply loop_runs_item with (q := q); [exact Hat| |].
    + rewrite chunk_item_trailer, <- app_assoc by done. cbn [app]. rewrite trailer_run_line by (done || lia). rewrite Z.add_0_l.
      destruct (Z.eqb_spec (blen t) 0) as [E|_]; [destruct t; [done|rewrite blen_cons in E; pose proof (blen_nonneg t); lia]|].
      unfold q. by rewrite Hs, Hlt.
    + change (chunk_fin q) with false. cbv iota. split; [unfold q; cbn [chunk_offset set_chunk_pos]; lia|].
      assert (at_pos msg (chunk_offset q) (concat (map (fun t => t ++ [13; 10]) trailers) ++ [13; 10] ++ rest)) as Hat2
        by (exact (at_pos_app _ _ _ _ Hat)).
      pose proof (IH q Hf' eq_refl Hat2) as Hr. unfold q in Hr at 2 3. cbn [chunk_offset set_chunk_pos] in Hr.
      rewrite blen_app. by rewrite Z.add_assoc.
Qed.

Lemma chunked_run msg p chunks ext trailers rest :
  Forall chunk_text_ok chunks -> chunk_ext_ok 0 ext -> Forall trailer_ok trailers -> chunk_state p = CPS_CHUNK_DATA ->
  at_pos msg (chunk_offset p) (encode_chunked chunks ext trailers ++ rest) ->
  cruns msg p (1, set_chunk_pos CPS_CHUNK_COMPLETE (chunk_offset p + blen (encode_chunked chunks ext trailers)) p).
Proof.
  intros Hc He Ht Hs Hat. set (tr := concat (map (fun t => t ++ [13; 10]) trailers)).
  set (cs := concat (map chunk_text chunks)). set (last := (hex 0 ++ ext) ++ [13; 10]).
  assert (encode_chunked chunks ext trailers = cs ++ last ++ tr ++ [13; 10]) as E
    by (unfold encode_chunked, last, cs, tr; rewrite <- !app_assoc; by cbn [app]).
  assert (blen (encode_chunked chunks ext trailers) = blen cs + blen last + blen tr + 2) as El by (rewrite E, !blen_app; change (blen [13; 10]) with 2; lia).
  rewrite E in Hat. rewrite <- !app_assoc in Hat. apply (chunks_run msg chunks (last ++ tr ++ [13; 10] ++ rest) p); [done|done|exact Hat|].
  set (p1 := set_chunk_pos CPS_CHUNK_DATA (chunk_offset p + blen cs) p). apply at_pos_app in Hat.
  set (p2 := set_chunk_pos CPS_TRAILER_PART (chunk_offset p1 + blen last) p).
  pose proof (blen_nonneg (hex 0 ++ ext)). assert (blen last = blen (hex 0 ++ ext) + 2) as Ell by (unfold last; by rewrite (blen_app (hex 0 ++ ext))).
  eapply loop_runs_item with (q := p2); [exact Hat| |].
  - unfold last. rewrite <- app_assoc. cbn [app]. rewrite chunk_line_item by (done || (unfold LONG_MAX; lia)).
    unfold take_chunk_line. rewrite chunk_size_read by (done || (unfold LONG_MAX; lia)). cbn [cbind Z.eqb].
    unfold p2. by rewrite Ell.
  - change (chunk_fin p2) with false. cbv iota. split; [unfold p2, p1, cs; cbn [chunk_offset set_chunk_pos]; lia|].
    apply at_pos_app in Hat. pose proof (trailers_run msg trailers rest p2 Ht eq_refl Hat) as Hr. fold tr in Hr.
    rewrite El. replace (chunk_offset p + (blen cs + blen last + blen tr + 2)) with (chunk_offset p2 + blen tr + 2)
      by (unfold p2, p1; cbn [chunk_offset set_chunk_pos]; lia). exact Hr.
Qed.

(** C35: a chunked body (chunks with extensions, last chunk, trailer lines),
    whatever bytes follow, is consumed exactly, and the body the parser
    returns is what had arrived of it before followed by this text. *)
Theorem http_chunked_exact (malloc_ok realloc_ok : Z -> bool) (p : http_parser) (chunks : list (list Z * list Z))
    (ext : list Z) (trailers : list (list Z)) (rest : list Z) :
  let text := encode_chunked chunks ext trailers in
  http_waiting malloc_ok p -> capacity_ok p -> (forall n, realloc_ok n = true) -> msgsize p + blen (text ++ rest) < 2 ^ 60 ->
  header_fin p = true -> transfer_length p = SIZE_MAX -> chunked p = true ->
  chunk_state p = CPS_CHUNK_DATA -> chunk_offset p = msgsize p ->
  Forall chunk_text_ok chunks -> chunk_ext_ok 0 ext -> Forall trailer_ok trailers ->
  exists q, http_parser_append_message malloc_ok realloc_ok (text ++ rest) p = Ret (1, blen text, q) /\
    http_parser_get_body q = Ret (Some (drop (Z.to_nat (header_offset p)) (msgbuf p) ++ text)).
Proof.
  intros text Hw Hcap Hr Hlen Hfin Ht Hc Hs Ho H1 H2 H3. pose proof Hw as [_ Hsz Hok Hoff _ _]. pose proof (ok_offset _ Hok).
  pose proof (blen_nonneg text). pose proof (blen_nonneg rest).
  destruct (append_extends malloc_ok realloc_ok p (text ++ rest) Hw Hcap Hlen)
    as [[[n Hn] _]|(cap & Hcp & ->)]; [by rewrite Hr in Hn|]. rewrite parse_message_fin, parse_body_res by done.
  rewrite blen_app in *. set (P := extend (text ++ rest) cap p).
  assert (at_pos (msgbuf P) (chunk_offset P) (text ++ rest)) as Hat
    by (change (chunk_offset P) with (chunk_offset p); rewrite Ho, Hsz; apply (at_pos_app _ 0 (msgbuf p)), at_pos_0).
  pose proof (chunked_run (msgbuf P) P chunks ext trailers rest H1 H2 H3 Hs Hat) as Hrun.
  assert (msgsize P = blen (msgbuf P)) as HsP by (change (msgsize P) with (msgsize p + blen (text ++ rest));
    change (msgbuf P) with (msgbuf p ++ text ++ rest); rewrite !blen_app; lia).
  assert (chunk_fin P = false) as HcP by (unfold chunk_fin; change (chunk_state P) with (chunk_state p); by rewrite Hs).
  rewrite (body_res_chunk P 1 _ Ht Hc HcP HsP (proj1 (proj1 Hat)) Hrun).
  fold text. cbn [chunk_finish Z.leb Z.compare cbind Z.ltb msgsize set_chunk_pos chunk_offset msgbuf bufsize].
  change (msgsize P) with (msgsize p + blen (text ++ rest)). change (chunk_offset P) with (chunk_offset p).
  rewrite Ho, blen_app. eexists. split; [do 3 f_equal; unfold u64; rewrite Z.mod_small; lia|].
  unfold http_parser_get_body. cbn [complete http_parser_close_message set_message header_state set_chunk_pos msgsize bufsize msgbuf header_offset].
  change (header_state P) with (header_state p). unfold header_fin in Hfin. rewrite Hfin. cbn [andb].
  change (bufsize P) with cap. destruct (Z.ltb_spec (msgsize p + blen text) cap); [|lia].
  change (msgbuf P) with (msgbuf p ++ text ++ rest). change (header_offset P) with (header_offset p).
  assert (at_pos (msgbuf p ++ text ++ rest) (header_offset p) ((drop (Z.to_nat (header_offset p)) (msgbuf p) ++ text) ++ rest)) as Hb.
  { split; [rewrite !blen_app; lia|]. rewrite drop_app_le by (unfold blen in *; lia). by rewrite <- app_assoc. }
  apply at_pos_block in Hb. rewrite blen_app, blen_drop in Hb.
  replace (Z.max 0 (blen (msgbuf p) - Z.of_nat (Z.to_nat (header_offset p))) + blen text)
    with (msgsize p + blen text - header_offset p) in Hb by lia. by rewrite Hb.
Qed.

(** A parser that has seen a header. *)
Definition chunked_response : http_parser := Eval vm_compute in
  match http_parser_append_message (fun _ => true) (fun _ => true)
          (txt "HTTP/1.1 200 OK" ++ [13; 10] ++ txt "Transfer-Encoding: chunked" ++ [13; 10; 13; 10])
          (http_parser_init true CPS_CHUNK_DATA 0 (repeat 0 64)) with
  | Ret (_, _, p) => p
  | _ => new_request
  end.

(** A parser in front of a chunked body waits. *)
Lemma chunk_start_waiting malloc_ok p :
  complete p = false -> msgsize p = blen (msgbuf p) -> header_ok p -> header_offset p <= msgsize p ->
  header_fin p = true -> transfer_length p = SIZE_MAX -> chunk_state p = CPS_CHUNK_DATA -> chunk_offset p = msgsize p ->
  http_waiting malloc_ok p.
Proof.
  intros Hc Hs Hok Ho Hf Ht Hcs Hco. pose proof (ok_offset _ Hok). assert (chunk_fin p = false) as Hcf by (unfold chunk_fin; by rewrite Hcs).
  split; [done|done|done|done|congruence|]. intros _. split; [done|]. intros _ _. split; [done|]. split; [lia|].
  intros r s Hr. pose proof (blen_nonneg r). destruct (loop_total parse_chunk_item chunk_offset chunk_fin chunk_ok chunk_item ltac:(done)
    (msgbuf p ++ r) p) as (r2 & t2 & Hr2 & Hmon); [unfold chunk_ok; lia|done|rewrite blen_app; lia|].
  pose proof (loop_runs_det _ _ _ _ _ _ _ Hr Hr2) as [= <- <-]. specialize (Hmon eq_refl). lia.
Qed.

Lemma http_chunked_exact_witness :
  let text := encode_chunked [(txt "hello", txt ";a=b"); ([1], [])] [] [txt "X: y"] in
  exists q, http_parser_append_message (fun _ => true) (fun _ => true) (text ++ [7; 7]) chunked_response = Ret (1, blen text, q) /\
    http_parser_get_body q = Ret (Some (drop (Z.to_nat (header_offset chunked_response)) (msgbuf chunked_response) ++ text)).
Proof.
  apply (http_chunked_exact (fun _ => true) (fun _ => true)).
  - apply chunk_start_waiting; try (vm_compute; (reflexivity || discriminate)).
    split; [reflexivity|discriminate|by left|by left|vm_compute; discriminate].
  - split; vm_compute; discriminate.
  - done.
  - vm_compute. reflexivity.
  - vm_compute. reflexivity.
  - vm_compute. reflexivity.
  - vm_compute. reflexivity.
  - vm_compute. reflexivity.
  - vm_compute. reflexivity.
  - repeat (apply Forall_cons; split; [split; [split; vm_compute; reflexivity|]; split;
      [intros c l E; first [discriminate E | injection E as <- _; reflexivity]|]; split; [apply (bool_decide_unpack _); vm_compute; exact I|reflexivity]|]).
    apply Forall_nil; exact I.
  - split; [discriminate|]. split; [apply (bool_decide_unpack _); vm_compute; exact I|reflexivity].
  - repeat (apply Forall_cons; split; [split; [discriminate|]; split; [apply (bool_decide_unpack _); vm_compute; exact I|reflexivity]|]).
    apply Forall_nil; exact I.
Defined.

(** ** The header list as a map *)

(** A stored line: its block has room for [name ": " value CR LF]. *)
Definition line_ok (l : header_line) : Prop :=
  0 <= name_len l < 2 ^ 31 /\ 0 <= value_len l < 2 ^ 31 /\ name_len l + value_len l + 4 <= blen (line_buf l) /\
  (0 ∉ sub (line_buf l) 0 (name_len l)).

Definition line_name (l : header_line) : list Z := sub (line_buf l) 0 (name_len l).
Definition line_value (l : header_line) : list Z := sub (line_buf l) (name_len l + 2) (value_len l).

(** The value that a cursor at the start finds. *)
Definition cursor_value (name : list Z) (c : list header_line) : comp (option (list Z)) :=
  let! '(v, _) := http_header_cursor_find name (blen name) c in Ret v.

Lemma strcaseeq_sym a b : strcaseeq a b = strcaseeq b a.
Proof. unfold strcaseeq. apply bool_decide_ext. split; intros H; by symmetry. Qed.

Lemma strcaseeq_trans a b c : strcaseeq a b = true -> strcaseeq b c = strcaseeq a c.
Proof. unfold strcaseeq. intros H%bool_decide_eq_true. apply bool_decide_ext. by rewrite H. Qed.

(** The test of [set_message_header] and [cursor_find] on a line. *)
Lemma line_test l name : line_ok l -> 0 ∉ name -> blen name < 2 ^ 31 ->
  (if u64 (name_len l) =? blen name then strncaseeq (line_buf l) name (blen name) else Ret false) =
    Ret (strcaseeq (line_name l) name).
Proof.
  intros (Hn & Hv & Hb & H0) Hname Hl. unfold u64. rewrite Z.mod_small by lia.
  assert (blen (line_name l) = name_len l) as E by (unfold line_name; apply blen_sub; lia).
  destruct (Z.eqb_spec (name_len l) (blen name)) as [En|En].
  - unfold strncaseeq. rewrite <- En, rd_block_in_bounds by lia. rewrite En, rd_block_0_all. cbn [cbind].
    rewrite <- En. unfold line_name in *. by rewrite !cstr_no_nul.
  - rewrite strcaseeq_other; [done|lia].
Qed.

Lemma cursor_value_cons name l c : line_ok l -> 0 ∉ name -> blen name < 2 ^ 31 ->
  cursor_value name (l :: c) = if strcaseeq (line_name l) name then Ret (Some (line_value l)) else cursor_value name c.
Proof.
  intros Hl Hn Hb. unfold cursor_value. cbn [http_header_cursor_find]. rewrite line_test by done. cbn [cbind].
  destruct (strcaseeq (line_name l) name) eqn:E; [|done]. destruct Hl as (H1 & H2 & H3 & H4).
  apply strcaseeq_length in E. unfold line_name in E. rewrite blen_sub in E by lia.
  unfold u64. rewrite Z.mod_small, rd_block_in_bounds by lia. cbn [cbind]. unfold line_value. by rewrite E.
Qed.

Lemma sub_app_start a b : sub (a ++ b) 0 (blen a) = a.
Proof. apply (sub_app_mid [] a b). Qed.

(** Writing the value and the line end behind a name. *)
Lemma write_value buf n v : 0 <= n -> n + blen v + 4 <= blen buf ->
  exists b2, (let! b := wr_block buf (n + 2) v in wr_block b (n + 2 + blen v) [13; 10]) = Ret b2 /\
    blen b2 = blen buf /\ sub b2 0 n = sub buf 0 n /\ sub b2 (n + 2) (blen v) = v.
Proof.
  intros Hn Hl. pose proof (blen_nonneg v). assert (blen [13; 10] = 2) as H2 by done. rewrite wr_block_app by lia.
  eexists. split; [apply wr_block_in_bounds; [lia|rewrite blen_app; lia]|]. set (head := take (Z.to_nat (n + 2)) buf).
  assert (blen head = n + 2) as Hh by (unfold head; rewrite blen_take; lia). split; [|split].
  - rewrite !blen_app, blen_drop, Hh. lia.
  - unfold sub. rewrite !drop_0. unfold head, blen in *. rewrite take_app_le by (rewrite length_take; lia).
    rewrite take_take. f_equal. lia.
  - rewrite <- app_assoc, <- Hh. apply sub_app_mid.
Qed.

Section SetHeader.
Variable malloc_ok : Z -> bool.
Hypothesis malloc_all : forall n, malloc_ok n = true.
Variables nm v : list Z.
Hypothesis nm_text : 0 ∉ nm.
Hypothesis nm_short : blen nm < 2 ^ 31.
Hypothesis v_short : blen v < 2 ^ 31.

(** What a set of the header does to a list of lines. *)
Definition sets (c c' : list header_line) : Prop :=
  Forall line_ok c' /\
  forall n, 0 ∉ n -> blen n < 2 ^ 31 -> cursor_value n c' = if strcaseeq n nm then Ret (Some v) else cursor_value n c.

Lemma same_name a n : strcaseeq a nm = true -> strcaseeq a n = strcaseeq n nm.
Proof. intros H. rewrite (strcaseeq_sym n nm). symmetry. apply strcaseeq_trans. by rewrite strcaseeq_sym, strcaseeq_sym. Qed.

(** A line with the name and the new value in front. *)
Lemma sets_cons l l' c : line_ok l -> line_ok l' -> Forall line_ok c ->
  strcaseeq (line_name l) nm = true -> strcaseeq (line_name l') nm = true -> line_value l' = v -> sets (l :: c) (l' :: c).
Proof.
  intros Hl Hl' Hc Hs Hs' Hv. split; [by constructor|]. intros n Hn Hb.
  rewrite !cursor_value_cons by done. rewrite (same_name _ n Hs'), (same_name _ n Hs), Hv. by destruct (strcaseeq n nm).
Qed.

Lemma sets_skip l c c' : line_ok l -> strcaseeq (line_name l) nm = false -> sets c c' -> sets (l :: c) (l :: c').
Proof.
  intros Hl Hs [H1 H2]. split; [by constructor|]. intros n Hn Hb. rewrite !cursor_value_cons, H2 by done.
  destruct (strcaseeq (line_name l) n) eqn:E; [|done]. destruct (strcaseeq n nm) eqn:E2; [|done].
  by rewrite (strcaseeq_trans _ _ nm E), Hs in E2.
Qed.

Lemma new_line_ok : line_ok (field_line (nm, v)) /\ line_name (field_line (nm, v)) = nm /\ line_value (field_line (nm, v)) = v.
Proof.
  pose proof (blen_nonneg nm). pose proof (blen_nonneg v).
  assert (line_name (field_line (nm, v)) = nm) as Hn.
  { unfold line_name, field_line. cbn [fst snd line_buf name_len]. apply (sub_app_mid [] nm). }
  split; [|split; [done|]].
  - unfold line_ok. fold (line_name (field_line (nm, v))). rewrite Hn. unfold field_line. cbn [fst snd line_buf name_len value_len].
    rewrite !blen_app. change (blen [58; 32]) with 2. change (blen [13; 10]) with 2. repeat split; (lia || done).
  - unfold line_value, field_line. cbn [fst snd line_buf name_len value_len].
    replace (nm ++ [58; 32] ++ v ++ [13; 10]) with ((nm ++ [58; 32]) ++ v ++ [13; 10]) by (by rewrite <- app_assoc).
    replace (blen nm + 2) with (blen (nm ++ [58; 32])) by (by rewrite blen_app). apply sub_app_mid.
Qed.

Lemma set_header_loop_sets c : Forall line_ok c ->
  exists r, set_header_loop malloc_ok nm (blen nm) (v ++ [0]) (blen v) c = Ret r /\
    match r with
    | Some (ret, c') => ret = 0 /\ sets c c'
    | None => sets c (c ++ [field_line (nm, v)])
    end.
Proof.
  pose proof (blen_nonneg nm). pose proof (blen_nonneg v). destruct new_line_ok as (N1 & N2 & N3).
  induction 1 as [|l c Hl Hc IH]; cbn [set_header_loop].
  - exists None. split; [done|]. split; [by apply Forall_singleton|]. intros n Hn Hb. cbn [app]. rewrite cursor_value_cons, N2, N3 by done.
    rewrite (strcaseeq_sym n nm). by destruct (strcaseeq nm n).
  - rewrite line_test by done. cbn [cbind]. destruct (strcaseeq (line_name l) nm) eqn:E.
    2: { destruct IH as (r & -> & Hr). cbn [cbind]. eexists. split; [done|].
         destruct r as [[ret c']|]; [destruct Hr as [-> Hr]; split; [done|]|]; by apply sets_skip. }
    rewrite malloc_all. rewrite andb_false_r. rewrite rd_block_0_all. rewrite rd_block_0_app, rd_block_0_all by lia. cbn [cbind].
    set (buf := if u64 (value_len l) <? blen v then _ else _). pose proof Hl as (L1 & L2 & L3 & L4).
    pose proof (strcaseeq_length _ _ E) as El. unfold line_name in El. rewrite blen_sub in El by lia.
    assert (blen nm + blen v + 4 <= blen buf /\ strcaseeq (sub buf 0 (blen nm)) nm = true /\ (0 ∉ sub buf 0 (blen nm))) as (B1 & B2 & B3).
    { unfold buf, u64. rewrite Z.mod_small by lia. destruct (Z.ltb_spec (value_len l) (blen v)).
      - rewrite sub_app_start, !blen_app. change (blen [58; 32]) with 2.
        assert (blen (repeat 0 (Z.to_nat (blen v + 2))) = blen v + 2) as -> by (unfold blen at 1; rewrite repeat_length; lia).
        split; [lia|]. split; [by apply bool_decide_true|done].
      - rewrite <- El. split; [lia|]. done. }
    destruct (write_value buf (blen nm) v ltac:(lia) B1) as (b2 & Hw & W1 & W2 & W3).
    assert (forall (k : list Z -> comp (option (Z * list header_line))),
      (let! buf := wr_block buf (blen nm + 2) v in let! buf := wr_block buf (blen nm + 2 + blen v) [13; 10] in k buf) = k b2) as Hk.
    { intros k. destruct (wr_block buf _ v) as [b1| |]; [|done..]. cbn [cbind] in *. by rewrite Hw. }
    rewrite Hk. eexists. split; [done|]. split; [done|]. rewrite i32_small by lia.
    apply sets_cons; try done; unfold line_ok, line_name, line_value; cbn [name_len value_len line_buf]; rewrite El, ?W1, ?W2; try done.
Qed.
End SetHeader.

(** setting a header: afterwards a cursor finds the value under every
    spelling of the name, and finds under every other name what it found
    before, whether a line is overwritten, reallocated or added. *)
Theorem http_set_header_find (malloc_ok : Z -> bool) (nm v : list Z) (p : http_parser) :
  (forall n, malloc_ok n = true) -> 0 ∉ nm -> 0 ∉ v -> blen nm < 2 ^ 31 -> blen v < 2 ^ 31 -> Forall line_ok (header_list p) ->
  exists q, http_parser_set_header malloc_ok nm (blen nm) (v ++ [0]) (blen v) p = Ret (0, q) /\
    Forall line_ok (header_list q) /\
    forall n, 0 ∉ n -> blen n < 2 ^ 31 ->
      cursor_value n (header_list q) = if strcaseeq n nm then Ret (Some v) else cursor_value n (header_list p).
Proof.
  intros Hm Hn Hv Hln Hlv Hok. unfold http_parser_set_header, set_message_header.
  destruct (set_header_loop_sets malloc_ok Hm nm v Hn Hln Hlv _ Hok) as (r & -> & Hr). cbn [cbind].
  assert (forall c, sets nm v (header_list p) c -> exists q,
    (let! p := check_message_header nm (blen nm) (v ++ [0]) (blen v) (set_headers c p) in Ret (0, p)) = Ret (0, q) /\ header_list q = c) as Hq.
  { intros c _. destruct (check_header_effect nm [] v (set_headers c p) Hn Hv) as (q & Hq & Hs & _). rewrite app_nil_r in Hq.
    exists q. rewrite Hq. split; [done|]. apply Hs. }
  destruct r as [[ret c]|].
  - destruct Hr as [-> Hs]. destruct (Hq c Hs) as (q & Hq1 & <-). exists q. split; [exact Hq1|exact Hs].
  - unfold add_message_header. rewrite Hm. pose proof (blen_nonneg nm). pose proof (blen_nonneg v).
    rewrite rd_block_0_all. rewrite rd_block_0_app, rd_block_0_all by lia. cbn [cbind]. rewrite !i32_small by lia.
    destruct (Hq _ Hr) as (q & Hq1 & Eq). exists q. split; [exact Hq1|]. rewrite Eq. exact Hr.
Qed.

Lemma http_set_header_find_witness :
  let p := set_headers [field_line (txt "Host", txt "a"); field_line (txt "X", txt "long value")] new_request in
  exists q, http_parser_set_header (fun _ => true) (txt "HOST") 4 (txt "example.org" ++ [0]) 11 p = Ret (0, q) /\
    Forall line_ok (header_list q) /\
    forall n, 0 ∉ n -> blen n < 2 ^ 31 ->
      cursor_value n (header_list q) = if strcaseeq n (txt "HOST") then Ret (Some (txt "example.org")) else cursor_value n (header_list p).
Proof.
  apply (http_set_header_find (fun _ => true)).
  - done.
  - apply (bool_decide_unpack _). vm_compute. exact I.
  - apply (bool_decide_unpack _). vm_compute. exact I.
  - vm_compute. reflexivity.
  - vm_compute. reflexivity.
  - repeat (apply Forall_cons; split; [repeat split; try (vm_compute; (reflexivity || discriminate)); apply (bool_decide_unpack _); vm_compute; exact I|]).
    apply Forall_nil; exact I.
Defined.
